(* ===== verification/_CoqProject ===== *)
-Q . S2P
Prelude.v
Codec.v
Crypto.v
Toy.v
NodeAddr.v
Identity.v
Replay.v
F64.v
Channel.v
Bloom.v
FmpWire.v
FspWire.v
Link.v
SessionMsg.v
FilterMsg.v
TreeMsg.v
Discovery.v
Noise.v
Reports.v
FmpLink.v
FspSession.v
DirectTransport.v
TreeState.v
LearnedRoutes.v
OriginLookups.v
Peers.v
Admission.v
BloomRouting.v
Routing.v
Announce.v
Lookups.v
Datagrams.v
Resolution.v
Messages.v
Sessions.v
SessionSafety.v
SessionRuns.v
SessionFrames.v
SessionSetup.v
Adjacency.v
Processor.v
ProcessorRuns.v
ProcessorBounds.v
ProcessorIdentity.v
ProcessorAuth.v
ProcessorFrames.v
Ethernet.v
WebSocket.v
WebSocketRuns.v
WebSocketSafety.v
Json.v
RecentPeers.v
RecentPeersRules.v
Lifecycle.v
LifecycleRuns.v
