(* ===== verification/Prelude.v ===== *)
(** * FIPS for browsers: a verification library

    The repository is a TypeScript implementation of FIPS, a mesh network whose
    nodes are secp256k1 identities. Two adjacent nodes run a Noise IK handshake
    and exchange encrypted FMP frames over a carrier (WebRTC, WebSocket, ...);
    two distant nodes run a Noise XK handshake through the mesh and exchange
    encrypted FSP frames, carried in session datagrams that the nodes between
    them forward along a spanning tree, bloom filters and learned routes. This
    library models the package [src/packages/core/src] and two of the carriers,
    [src/packages/transport-ethernet] and [src/packages/transport-websocket], and
    proves what their components promise. File names below are relative to the
    first of these directories, or are those of the one source file of a carrier.

    ** The files

    - [Prelude]: bytes, the 32-bit bit operations of the language, little-endian
      integers, exceptions ([result]), methods as state-passing functions
      ([ST]), and the tactics [result_inv], [st_run], [st_inv], [decide_if],
      [bool_split].
    - [Codec]: codec/binary.ts and bytesEqual of codec/hex.ts; the combinator
      lemmas ([writes], [reads], [reads_all]) by which every wire format is proved.
    - [Crypto]: crypto/aead.ts, crypto/kdf.ts over the class [Noble], the
      operations of the [@noble] and [@scure] packages. Their laws are the classes
      [HashLaws], [AeadLaws], [DhLaws], [PointLaws], [SchnorrLaws], [HexLaws]; [Toy] is a
      concrete instance of all of them, on which the examples run.
    - [NodeAddr], [Identity], [Admission]: nodeaddr/index.ts, identity/*.ts,
      node/PeerAdmission.ts.
    - [Replay]: crypto/replay.ts. [Channel]: the interface that both encrypted
      layers implement, with the theorem on whole runs proved against it.
    - [F64]: binary64 numbers where the code computes with fractions.
    - [Bloom], [FilterMsg], [BloomRouting]: bloom/index.ts, protocol/filter.ts,
      node/BloomRouting.ts.
    - [FmpWire], [FspWire], [Link], [SessionMsg], [TreeMsg], [Discovery]: fmp/wire.ts,
      fsp/wire.ts, protocol/*.ts and node/forward.ts.
    - [Noise]: noise/*.ts. [Reports]: mmp/receiverReports.ts, fmp/receiverReports.ts.
    - [FmpLink]: fmp/link.ts. [FspSession]: fsp/session.ts.
      [DirectTransport]: fsp/directTransport.ts.
    - [TreeState]: node/TreeState.ts. [LearnedRoutes]: node/LearnedRouteTable.ts.
      [OriginLookups]: node/OriginLookupRegistry.ts.
    - [Peers]: node/PeerState.ts, node/PendingFmpResponders.ts, node/routingHelpers.ts
      and the types of transport/types.ts that they read.
    - [Routing], [Announce], [Lookups], [Datagrams], [Messages]: node/FipsRouting.ts,
      its state and choice of next hops, the announcements between neighbours,
      lookups with their reverse paths, session datagrams, and the dispatch of
      messages. [Resolution]: the race of node/routingHelpers.ts that resolves a
      route, and the table of resolutions of node/FipsRouting.ts.
    - [Sessions]: node/FspSessionManager.ts. [SessionSafety]: the invariant of its
      state, method by method; [SessionRuns]: whole runs; [SessionFrames]: what
      frames do to sessions; [SessionSetup]: two managers together.
    - [Adjacency]: the tables of peers and the connections of node/FipsNode.ts.
      [Processor]: node/FmpTransportPacketProcessor.ts and node/FmpLinkReports.ts,
      on the same state. [ProcessorRuns]: whole runs of a node, and the classes
      [Lenient] and [Framed] of relations that its methods respect;
      [ProcessorBounds]: numbers of links, and bounds; [ProcessorIdentity] and
      [ProcessorAuth]: the invariant that links are with the identity of their
      peer, and that every method keeps it; [ProcessorFrames]: what follows.
    - [Lifecycle]: start, stop and changes of the policy in node/FipsNode.ts, as
      tasks that overlap; [LifecycleRuns]: what holds in every run of them.
    - [Ethernet]: VirtualEthernetTransport.ts, the carrier over raw Ethernet frames
      with its beacons and its stream of discovered peers.
    - [WebSocket]: WebSocketTransport.ts and its codec of records and key hints;
      [WebSocketRuns]: its events as steps, the modes of a seed and the invariant of
      whole runs; [WebSocketSafety]: what follows for callers, sockets and peers.
    - [Json]: values read from outside and the array sort; linkNegotiation.ts and
      fsp/unsupportedTraversal.ts. [RecentPeers]: identity/nip19.ts, the npub forms
      of identity/peer.ts, and recentPeers.ts; [RecentPeersRules]: the rules that
      its cache keeps.

    ** How the code is represented

    A class is a record of its fields and a method a function from the fields to
    a result and the fields afterwards; an exception respects the stores made
    before it. Definitions have the source's names; a name that Rocq reserves or
    that is taken has a trailing underscore or a prefix. Integers are [Z] with
    the wrap-around or the range check the source writes; JavaScript numbers
    that are not integers are [F64.t]. A [Map] is an association list in
    insertion order ([JsMap]). Objects that are shared and mutated
    ([FmpLink]s and peers in [Peers], lookups in [OriginLookups]) live in a
    store and are referred to by their position; an object compared by identity
    carries the number of its allocation ([BloomRouting]). An asynchronous
    method is cut at its [await]s, and a step relation interleaves the pieces.
    Clock readings, random bytes, callbacks and [Math.pow] are arguments.

    ** What is proved

    - Wire formats: each decoder accepts exactly what its encoder produces
      ([..._exact], [..._roundtrip]), with the errors of both.
    - Handshakes: both Noise patterns, the link and the session handshake
      establish both ends with mirrored keys; failed or repeated messages leave
      the state alone ([Noise], [FmpLink], [FspSession]).
    - Delivery: frames delivered in any order, with losses and repeats, are
      selected as by a specification that remembers every counter ([Replay],
      [Channel]); what is not sealed with the peer's key changes nothing.
    - Routing: the tree elects the best parent, next hops are strictly closer and
      greedy forwarding reaches its destination; learned routes stay bounded and
      usable; the registry of lookups stays consistent and respects its retry
      budget; announced filters have exactly the bits they should, and accepted
      filters only advance.
    - The node: whatever messages arrive, the tree place is the elected one and the
      tables keep their invariants; an announcement is taken over by the neighbour
      it is for and by no forgery; a lookup is forwarded with a decreasing time to
      live, answered only by its target, and its answer completes it at the origin;
      a datagram never circulates, arrives unchanged, and is sent only in frames
      that fit the path; a route resolves only to the identity it is for.
    - Sessions: in every run of a manager each session is under the address that
      its authenticated keys derive to, queues and recoveries are bounded, and no
      caller waits forever; no frame takes an established session away; only
      records that a session's peer sealed are delivered; two managers that run
      against each other establish a session, also when both open it at once.
    - Carriers: in every run of a node its links have distinct numbers, so that a
      frame finds its link; handshakes, replacements, restarts and identities
      that change at an address never leave a peer with the link of another
      identity; a frame is handled as one of the peer whose link opened it.
    - The life of a node: however calls to start, to stop and to change the policy
      overlap, every promise settles, a change or a stop cuts off at once what
      carriers were given before (but for a start that has overlapped the stop that
      a later one joins, see [LifecycleRuns.stop_joins_stop]), no carrier is
      forgotten, and successive starts use new epochs.
    - The modelled carriers: Ethernet frames carry packets exactly and beacons
      teach addresses; a WebSocket carrier never forgets a seed, settles every
      promise it hands out, keeps the order of what a socket is told (dialled, asked
      for its key, up), and takes a peer's identity only from an answer to its own
      nonce, on the same socket.
    - Reconnect hints: the cache of recent peers keeps its rules under all its
      operations, is read back as it was written, and keeps the newest entries.
    - Receiver reports: after any history of packets, reports and epochs the
      measurements are those computed from the whole history ([Reports]).
    - Bounds: reassembly, pending responders, epochs, replay slots, report fields.

    Loops with fuel: [count_loop] has 9 rounds for the 8 bits of a byte;
    [next_id_loop] the 8 attempts the source writes; the 64-bit loops of the
    codec run the 8 rounds of the source; [hex_loop] 16 digits of a 64-bit
    number and [show] 20 digits of a port or scope of at most 10; [follow] the
    tree distance, which [tree_greedy_delivers] shows to be enough.

    ** What is not modelled

    The carriers of packages transport-webrtc and transport-memory, the browser
    stores and the demo are glue over browser interfaces. The packages [@noble],
    [@scure] and [nostr-tools] are not part of the source; the parser and the
    printer of JSON texts, the URL parser, sockets, timers and the random source
    belong to the platform, and are parameters or arguments. Of node/FipsNode.ts
    the loop that consumes discovered peers and the listeners are not modelled;
    in the runs of node/FspSessionManager.ts the local epoch is fixed, as it is
    between two starts of a node. Log lines are left out everywhere, and
    of an asynchronous method that waits for a connection to open only the parts
    before and after. *)

From Stdlib Require Export ZArith Lia Bool.
From Stdlib Require Export Init.Byte.
From Stdlib Require Strings.Byte.
From stdpp Require Export base option list gmap strings.
#[global] Open Scope Z_scope.

(** ** Bytes and byte arrays

    A [Uint8Array] is a list of [Byte.byte]: every element is in [0, 255] by
    construction, and a store converts its operand with [z2b], the wrap-around
    of JavaScript's ToUint8. *)

Abbreviation bytes := (list byte).

Definition b2z (b : byte) : Z := Z.of_N (Byte.to_N b).

Definition z2b (z : Z) : byte := default x00 (Byte.of_N (Z.to_N (z mod 256))).

#[export] Instance byte_eq_dec : EqDecision byte := Byte.byte_eq_dec.

Lemma b2z_range b : 0 <= b2z b < 256.
Proof. destruct b; vm_compute; split; congruence. Qed.

Lemma b2z_z2b z : b2z (z2b z) = z mod 256.
Proof.
  unfold b2z, z2b.
  pose proof (Z.mod_pos_bound z 256 ltac:(lia)) as Hz.
  destruct (Byte.of_N (Z.to_N (z mod 256))) as [b|] eqn:E; simpl.
  - apply Byte.to_of_N in E. rewrite E. lia.
  - apply Byte.of_N_None_iff in E. lia.
Qed.

Lemma z2b_b2z b : z2b (b2z b) = b.
Proof. destruct b; reflexivity. Qed.

Lemma b2z_inj a b : b2z a = b2z b -> a = b.
Proof. intros H. by rewrite <- (z2b_b2z a), <- (z2b_b2z b), H. Qed.

Lemma b2z_z2b_small z : 0 <= z < 256 -> b2z (z2b z) = z.
Proof. intros. rewrite b2z_z2b. by apply Z.mod_small. Qed.

Lemma z2b_mod z : z2b (z mod 256) = z2b z.
Proof. apply b2z_inj. rewrite !b2z_z2b. by rewrite Z.mod_mod. Qed.

#[export] Instance byte_countable : Countable byte.
Proof.
  refine (inj_countable' b2z z2b _). apply z2b_b2z.
Defined.

(** [len l] is the JavaScript [length] of an array, as an integer. *)
Definition len {A} (l : list A) : Z := Z.of_nat (length l).

Lemma len_nonneg {A} (l : list A) : 0 <= len l.
Proof. unfold len. lia. Qed.

Lemma len_app {A} (l k : list A) : len (l ++ k) = len l + len k.
Proof. unfold len. rewrite length_app. lia. Qed.

Lemma len_cons {A} (x : A) l : len (x :: l) = 1 + len l.
Proof. unfold len. simpl. lia. Qed.

(** [subarray l a b] is [l.subarray(a, b)] (also [slice]) for non-negative
    bounds: the part of [l] between the two offsets, clamped to the array. *)
Definition subarray {A} (l : list A) (a b : Z) : list A :=
  take (Z.to_nat (b - a)) (drop (Z.to_nat a) l).

(** [subarray_from l a] is [l.subarray(a)]. *)
Definition subarray_from {A} (l : list A) (a : Z) : list A := drop (Z.to_nat a) l.

(** [l[i]] where the source has checked the bounds or coerces [undefined] to
    zero in a bit operation. *)
Definition byte_at (l : bytes) (i : Z) : Z :=
  if i <? 0 then 0 else b2z (default x00 (l !! Z.to_nat i)).

Lemma byte_at_app_l (pre l : bytes) (i : Z) :
  0 <= i -> byte_at (pre ++ l) (len pre + i) = byte_at l i.
Proof.
  intros Hi. unfold byte_at, len.
  destruct (Z.ltb_spec (Z.of_nat (length pre) + i) 0); [lia|].
  destruct (Z.ltb_spec i 0); [lia|].
  rewrite lookup_app_r by lia. do 4 f_equal. lia.
Qed.

Lemma byte_at_head (b : byte) (l : bytes) : byte_at (b :: l) 0 = b2z b.
Proof. reflexivity. Qed.

Lemma byte_at_range l i : 0 <= byte_at l i < 256.
Proof. unfold byte_at. destruct (i <? 0); [lia|apply b2z_range]. Qed.

(** ** JavaScript bit operations

    The operators [&], [|], [<<] and [>>>] work on 32-bit integers: operands go
    through ToInt32 and the result is signed, except for [>>>]. *)

Definition to_uint32 (z : Z) : Z := z mod 2 ^ 32.

Definition to_int32 (z : Z) : Z :=
  let m := z mod 2 ^ 32 in if m <? 2 ^ 31 then m else m - 2 ^ 32.

Definition js_and (a b : Z) : Z := to_int32 (Z.land (to_int32 a) (to_int32 b)).
Definition js_or (a b : Z) : Z := to_int32 (Z.lor (to_int32 a) (to_int32 b)).
Definition js_shl (a k : Z) : Z := to_int32 (Z.shiftl (to_int32 a) k).
Definition js_ushr (a k : Z) : Z := Z.shiftr (to_uint32 a) k.

Lemma to_uint32_int32 z : to_uint32 (to_int32 z) = to_uint32 z.
Proof.
  unfold to_uint32, to_int32.
  destruct (Z.ltb_spec (z mod 2 ^ 32) (2 ^ 31)).
  - by rewrite Z.mod_mod by lia.
  - replace (z mod 2 ^ 32 - 2 ^ 32) with (z mod 2 ^ 32 + (-1) * 2 ^ 32) by lia.
    rewrite Z.mod_add by lia. by rewrite Z.mod_mod by lia.
Qed.

Lemma to_uint32_id z : 0 <= z < 2 ^ 32 -> to_uint32 z = z.
Proof. intros. by apply Z.mod_small. Qed.

Lemma to_int32_id z : 0 <= z < 2 ^ 31 -> to_int32 z = z.
Proof.
  intros. unfold to_int32. rewrite Z.mod_small by lia.
  destruct (Z.ltb_spec z (2 ^ 31)); lia.
Qed.

Lemma to_uint32_lor a b : to_uint32 (Z.lor a b) = Z.lor (to_uint32 a) (to_uint32 b).
Proof.
  unfold to_uint32. rewrite <- !Z.land_ones by lia. apply Z.land_lor_distr_l.
Qed.

Lemma to_uint32_land a b : to_uint32 (Z.land a b) = Z.land (to_uint32 a) (to_uint32 b).
Proof.
  unfold to_uint32. rewrite <- !Z.land_ones by lia.
  apply Z.bits_inj'. intros n Hn. rewrite !Z.land_spec.
  by destruct (Z.testbit a n), (Z.testbit b n), (Z.testbit (Z.ones 32) n).
Qed.

Lemma to_uint32_shiftl a k : 0 <= k -> to_uint32 (Z.shiftl (to_int32 a) k) = to_uint32 (a * 2 ^ k).
Proof.
  intros. rewrite Z.shiftl_mul_pow2 by lia. unfold to_uint32.
  rewrite Z.mul_mod by lia. fold (to_uint32 (to_int32 a)). rewrite to_uint32_int32.
  unfold to_uint32. by rewrite <- Z.mul_mod by lia.
Qed.

Lemma js_or_uint32 a b : to_uint32 (js_or a b) = Z.lor (to_uint32 a) (to_uint32 b).
Proof. unfold js_or. by rewrite to_uint32_int32, to_uint32_lor, !to_uint32_int32. Qed.

Lemma js_shl_uint32 a k : 0 <= k -> to_uint32 (js_shl a k) = to_uint32 (a * 2 ^ k).
Proof. intros. unfold js_shl. by rewrite to_uint32_int32, to_uint32_shiftl. Qed.

Lemma js_and_small a b : 0 <= b < 2 ^ 31 -> js_and a b = Z.land (to_uint32 a) b.
Proof.
  intros Hb. unfold js_and.
  rewrite (to_int32_id b) by lia.
  assert (Z.land (to_int32 a) b = Z.land (to_uint32 a) b) as ->.
  { rewrite <- (Z.mod_small b (2 ^ 32)) by lia.
    rewrite <- (Z.land_ones b 32) by lia.
    rewrite (Z.land_comm b), !Z.land_assoc, !Z.land_ones by lia.
    change (to_int32 a mod 2 ^ 32) with (to_uint32 (to_int32 a)).
    rewrite to_uint32_int32. unfold to_uint32. by rewrite Z.mod_mod by lia. }
  apply to_int32_id. split.
  - apply Z.land_nonneg. lia.
  - destruct (Z.eq_dec (Z.land (to_uint32 a) b) 0) as [->|Hne]; [lia|].
    assert (0 <= Z.land (to_uint32 a) b) by (apply Z.land_nonneg; lia).
    apply Z.log2_lt_pow2; [lia|].
    pose proof (Z.log2_land (to_uint32 a) b) as Hl.
    pose proof (Z.mod_pos_bound a (2 ^ 32) ltac:(lia)). unfold to_uint32 in *.
    specialize (Hl ltac:(lia) ltac:(lia)).
    destruct (Z.eq_dec b 0) as [->|]; [by rewrite Z.land_0_r in Hne|].
    assert (Z.log2 b < 31) by (apply Z.log2_lt_pow2; lia). lia.
Qed.

Lemma to_uint32_mod256 a : to_uint32 a mod 256 = a mod 256.
Proof.
  unfold to_uint32. apply Z.mod_mod_divide. by exists (2 ^ 24).
Qed.

Lemma js_and_byte a : js_and a 0xff = a mod 256.
Proof.
  rewrite js_and_small by lia. change 0xff with (Z.ones 8).
  by rewrite Z.land_ones, to_uint32_mod256 by lia.
Qed.

Lemma js_and_nibble a : 0 <= a < 2 ^ 32 -> js_and a 0xf = a mod 16.
Proof.
  intros. rewrite js_and_small, to_uint32_id by lia. change 0xf with (Z.ones 4).
  by rewrite Z.land_ones by lia.
Qed.

(** Bit fields that do not overlap add up. *)
Lemma lor_disjoint a b k : 0 <= a < 2 ^ k -> 0 <= k -> Z.lor a (b * 2 ^ k) = a + b * 2 ^ k.
Proof.
  intros Ha Hk. rewrite <- Z.shiftl_mul_pow2 by lia.
  rewrite Z.add_nocarry_lxor.
  - apply Z.bits_inj'. intros n Hn. rewrite Z.lor_spec, Z.lxor_spec.
    destruct (Z.ltb_spec n k).
    + rewrite Z.shiftl_spec_low by lia. by destruct (Z.testbit a n).
    + rewrite <- (Z.mod_small a (2 ^ k)), Z.mod_pow2_bits_high by lia. by destruct (Z.testbit _ n).
  - apply Z.bits_inj'. intros n Hn. rewrite Z.land_spec, Z.bits_0.
    destruct (Z.ltb_spec n k).
    + rewrite Z.shiftl_spec_low by lia. apply andb_false_r.
    + by rewrite <- (Z.mod_small a (2 ^ k)), Z.mod_pow2_bits_high by lia.
Qed.

(** ** Little-endian integers, as arithmetic *)

Fixpoint le_bytes (n : nat) (v : Z) : bytes :=
  match n with
  | O => []
  | S n => z2b v :: le_bytes n (v / 256)
  end.

Fixpoint le_val (bs : bytes) : Z :=
  match bs with
  | [] => 0
  | b :: bs => b2z b + 256 * le_val bs
  end.

Lemma length_le_bytes n v : length (le_bytes n v) = n.
Proof. revert v. induction n; intros; simpl; auto. Qed.

Lemma len_le_bytes n v : len (le_bytes n v) = Z.of_nat n.
Proof. unfold len. by rewrite length_le_bytes. Qed.

Lemma le_val_range bs : 0 <= le_val bs < 256 ^ len bs.
Proof.
  induction bs as [|b bs IH]; [vm_compute; split; congruence|].
  rewrite len_cons, Z.pow_add_r by (pose proof (len_nonneg bs); lia).
  pose proof (b2z_range b). simpl le_val. change (256 ^ 1) with 256. nia.
Qed.

Lemma le_val_bytes n v : 0 <= v < 256 ^ Z.of_nat n -> le_val (le_bytes n v) = v.
Proof.
  revert v. induction n as [|n IH]; intros v Hv; [simpl in *; lia|].
  cbn [le_bytes le_val]. rewrite b2z_z2b, IH.
  - rewrite (Z.div_mod v 256) at 3 by lia. lia.
  - rewrite Nat2Z.inj_succ, Z.pow_succ_r in Hv by lia.
    split; [apply Z.div_pos; lia|]. apply Z.div_lt_upper_bound; lia.
Qed.

Lemma le_bytes_val bs : le_bytes (length bs) (le_val bs) = bs.
Proof.
  induction bs as [|b bs IH]; [done|]. cbn [length le_bytes le_val].
  pose proof (b2z_range b). f_equal.
  - apply b2z_inj. rewrite b2z_z2b.
    replace (b2z b + 256 * le_val bs) with (b2z b + le_val bs * 256) by lia.
    rewrite Z.mod_add by lia. apply Z.mod_small. lia.
  - replace (b2z b + 256 * le_val bs) with (le_val bs * 256 + b2z b) by lia.
    rewrite Z.div_add_l, Z.div_small by lia. by rewrite Z.add_0_r.
Qed.

Lemma le_bytes_mod n v : le_bytes n (v mod 256 ^ Z.of_nat n) = le_bytes n v.
Proof.
  revert v. induction n as [|n IH]; intros v; [done|]. cbn [le_bytes].
  rewrite Nat2Z.inj_succ, Z.pow_succ_r by lia.
  assert (0 < 256 ^ Z.of_nat n) by (apply Z.pow_pos_nonneg; lia).
  rewrite Z.rem_mul_r by lia. f_equal.
  - apply b2z_inj. rewrite !b2z_z2b. rewrite Z.mul_comm, Z.mod_add, Z.mod_mod by lia. done.
  - rewrite Z.mul_comm, Z.div_add by lia.
    rewrite (Z.div_small (v mod 256)) by (apply Z.mod_pos_bound; lia).
    rewrite Z.add_0_l. apply IH.
Qed.

(** Storing an integer wraps it to the width of the field. *)
Lemma le_val_wrap n v : le_val (le_bytes n v) = v mod 256 ^ Z.of_nat n.
Proof.
  rewrite <- le_bytes_mod. apply le_val_bytes. apply Z.mod_pos_bound. apply Z.pow_pos_nonneg; lia.
Qed.

Lemma le_val_inj bs bs' : length bs = length bs' -> le_val bs = le_val bs' -> bs = bs'.
Proof.
  intros Hl H. rewrite <- (le_bytes_val bs), <- (le_bytes_val bs'), Hl. by f_equal.
Qed.

(** ** Exceptions

    A JavaScript exception is its class and its message; numbers interpolated
    into a message are left out of the text. *)

Inductive err_class := CError | CRangeError | CTypeError | CBloomError.

#[export] Instance err_class_eq_dec : EqDecision err_class.
Proof. solve_decision. Defined.

Record js_error := JsError { err_kind : err_class; err_message : string }.

#[export] Instance js_error_eq_dec : EqDecision js_error.
Proof. solve_decision. Defined.

Definition Error (msg : string) : js_error := JsError CError msg.
Definition RangeError (msg : string) : js_error := JsError CRangeError msg.
Definition TypeError (msg : string) : js_error := JsError CTypeError msg.

Inductive result (A : Type) : Type :=
| Ok (a : A)
| Throw (e : js_error).
Arguments Ok {A} a.
Arguments Throw {A} e.

#[export] Instance result_eq_dec {A} `{EqDecision A} : EqDecision (result A).
Proof. solve_decision. Defined.

#[export] Instance result_ret : MRet result := fun A => @Ok A.
#[export] Instance result_bind : MBind result := fun A B f r =>
  match r with Ok a => f a | Throw e => Throw e end.
#[export] Instance result_fmap : FMap result := fun A B f r =>
  match r with Ok a => Ok (f a) | Throw e => Throw e end.

Definition is_ok {A} (r : result A) : bool := match r with Ok _ => true | Throw _ => false end.

Definition throw_if (c : bool) (e : js_error) : result unit := if c then Throw e else Ok tt.

(** [try_or r d]: [r], or [d] where it throws. *)
Definition ok_or {A} (r : result A) (d : A) : A := match r with Ok a => a | Throw _ => d end.

Lemma result_bind_ok {A B} (r : result A) (f : A -> result B) b :
  r ≫= f = Ok b <-> exists a, r = Ok a /\ f a = Ok b.
Proof. destruct r; simpl; naive_solver. Qed.

Lemma throw_if_Ok c e u : throw_if c e = Ok u <-> c = false.
Proof. destruct c, u; simpl; naive_solver. Qed.

(** A guard in front of a computation. *)
Lemma guard_Ok {A} c e (r : result A) v : (throw_if c e;; r) = Ok v <-> c = false /\ r = Ok v.
Proof. destruct c; simpl; naive_solver. Qed.

(** Take apart the hypotheses that say a fallible computation succeeded. *)
Ltac result_inv :=
  repeat match goal with
  | H : _ ≫= _ = Ok _ |- _ => apply result_bind_ok in H as (? & ? & H)
  | H : throw_if _ _ = Ok _ |- _ => apply throw_if_Ok in H
  | H : Ok _ = Ok _ |- _ => injection H as H; try subst
  | H : Throw _ = Ok _ |- _ => discriminate H
  end.

(** ** Methods: state and exceptions

    A method of an object with fields [S] that returns an [A] is a function
    from the fields to a result and the fields afterwards. An exception does
    not undo the stores made before it, so the state is returned on both
    branches. *)

Definition ST (S A : Type) : Type := S -> result A * S.

#[export] Instance ST_ret S : MRet (ST S) := fun A a s => (Ok a, s).
#[export] Instance ST_bind S : MBind (ST S) := fun A B f m s =>
  match m s with
  | (Ok a, s') => f a s'
  | (Throw e, s') => (Throw e, s')
  end.

Definition get {S} : ST S S := fun s => (Ok s, s).
Definition modify {S} (f : S -> S) : ST S unit := fun s => (Ok tt, f s).
Definition throw {S A} (e : js_error) : ST S A := fun s => (Throw e, s).
Definition lift {S A} (r : result A) : ST S A := fun s => (r, s).
Definition throw_when {S} (c : bool) (e : js_error) : ST S unit :=
  if c then throw e else mret tt.

(** [try { m } catch (error) { h(error) }] *)
Definition try_catch {S A} (m : ST S A) (h : js_error -> ST S A) : ST S A := fun s =>
  match m s with
  | (Throw e, s') => h e s'
  | (Ok a, s') => (Ok a, s')
  end.

(** Run a method of a component object that is a field of a larger object. *)
Definition zoom {S T A} (get_field : S -> T) (set_field : T -> S -> S) (m : ST T A) : ST S A :=
  fun s => let '(r, t) := m (get_field s) in (r, set_field t s).

Definition run_result {S A} (m : ST S A) (s : S) : result A := fst (m s).

Lemma ST_bind_ok {S A B} (m : ST S A) (f : A -> ST S B) s a s' :
  m s = (Ok a, s') -> (m ≫= f) s = f a s'.
Proof. intros H. unfold mbind, ST_bind. by rewrite H. Qed.

Lemma ST_bind_throw {S A B} (m : ST S A) (f : A -> ST S B) s e s' :
  m s = (Throw e, s') -> (m ≫= f) s = (Throw e, s').
Proof. intros H. unfold mbind, ST_bind. by rewrite H. Qed.

Lemma ST_bind_inv {S A B} (m : ST S A) (f : A -> ST S B) s b s'' :
  (m ≫= f) s = (Ok b, s'') -> exists a s', m s = (Ok a, s') /\ f a s' = (Ok b, s'').
Proof. unfold mbind, ST_bind. destruct (m s) as [[a|e] s'] eqn:E; [eauto|discriminate]. Qed.

Lemma ST_get_bind {S B} (f : S -> ST S B) s : (get ≫= f) s = f s s.
Proof. done. Qed.

Lemma ST_bind_assoc {S A B C} (m : ST S A) (f : A -> ST S B) (g : B -> ST S C) s :
  ((m ≫= f) ≫= g) s = (m ≫= fun a => f a ≫= g) s.
Proof. unfold mbind, ST_bind. by destruct (m s) as [[a|e] s']. Qed.

Lemma ST_modify_bind {S B} g (f : unit -> ST S B) s : (modify g ≫= f) s = f tt (g s).
Proof. done. Qed.

Lemma ST_lift_bind {S A B} (r : result A) a (f : A -> ST S B) s : r = Ok a -> (lift r ≫= f) s = f a s.
Proof. by intros ->. Qed.

Lemma ST_pass {S B} c e (f : unit -> ST S B) s : c = false -> (throw_when c e ≫= f) s = f tt s.
Proof. by intros ->. Qed.

(** [st_step H] runs the first command of the method in the goal, whose
    outcome is [H]; [st_inv] takes apart the hypotheses that say a method
    returned. *)
Ltac st_step H := erewrite (ST_bind_ok _ _ _ _ _ H).

(** Run the reads, stores and passed guards in front of the goal's method. *)
Ltac st_run :=
  repeat first
    [ rewrite ST_get_bind | rewrite ST_modify_bind
    | rewrite ST_pass by first [reflexivity | done | eassumption]
    | erewrite ST_lift_bind by first [eassumption | reflexivity] ].

Ltac st_inv :=
  repeat match goal with
  | H : (_ ≫= _) _ = (Ok _, _) |- _ =>
      apply ST_bind_inv in H; destruct H as (? & ? & ? & H)
  | H : mret _ _ = (_, _) |- _ => unfold mret, ST_ret in H; simplify_eq H; intros; subst
  | H : lift _ _ = (_, _) |- _ => unfold lift in H; simplify_eq H; intros; subst
  | H : modify _ _ = (_, _) |- _ => unfold modify in H; simplify_eq H; intros; subst
  | H : get _ = (_, _) |- _ => unfold get in H; simplify_eq H; intros; subst
  | H : throw _ _ = (Ok _, _) |- _ => discriminate H
  | H : throw_when ?c _ _ = (Ok _, _) |- _ =>
      let E := fresh "E" in unfold throw_when in H; destruct c eqn:E; [discriminate H|]
  end.

(** Split every boolean test of the goal or the hypotheses into its relation. *)
Ltac bool_split :=
  repeat match goal with
  | H : (_ && _)%bool = true |- _ => apply andb_true_iff in H; destruct H
  | H : (_ || _)%bool = false |- _ => apply orb_false_iff in H; destruct H
  | H : negb _ = true |- _ => apply negb_true_iff in H
  | H : negb _ = false |- _ => apply negb_false_iff in H
  | H : (_ =? _) = true |- _ => apply Z.eqb_eq in H
  | H : (_ =? _) = false |- _ => apply Z.eqb_neq in H
  | H : (_ <? _) = true |- _ => apply Z.ltb_lt in H
  | H : (_ <? _) = false |- _ => apply Z.ltb_ge in H
  | H : (_ <=? _) = true |- _ => apply Z.leb_le in H
  | H : (_ <=? _) = false |- _ => apply Z.leb_gt in H
  | H : bool_decide _ = true |- _ => apply bool_decide_eq_true in H
  | H : bool_decide _ = false |- _ => apply bool_decide_eq_false in H
  end.

(** Decide the test at the head of an [if] in the goal by arithmetic. *)
Ltac decide_if :=
  repeat match goal with
  | |- context [?a =? ?b] => first
      [ replace (a =? b) with true by (symmetry; apply Z.eqb_eq; lia)
      | replace (a =? b) with false by (symmetry; apply Z.eqb_neq; lia) ]
  | |- context [?a <? ?b] => first
      [ replace (a <? b) with true by (symmetry; apply Z.ltb_lt; lia)
      | replace (a <? b) with false by (symmetry; apply Z.ltb_ge; lia) ]
  | |- context [?a <=? ?b] => first
      [ replace (a <=? b) with true by (symmetry; apply Z.leb_le; lia)
      | replace (a <=? b) with false by (symmetry; apply Z.leb_gt; lia) ]
  end; cbn [negb andb orb].

(** ** Runs of a transition relation *)

Section Star.
Context {A : Type} (R : A -> A -> Prop).

(** Every property of the first state that each step keeps holds at the end
    of any run. *)
Lemma rtc_invariant (P : A -> Prop) a b :
  (forall x y, P x -> R x y -> P y) -> P a -> rtc R a b -> P b.
Proof. intros Hstep Ha. induction 1; eauto. Qed.
End Star.

(** ** Parts of arrays *)

Lemma subarray_app_mid {A} (pre mid post : list A) (a n : Z) :
  a = len pre -> n = len mid -> subarray (pre ++ mid ++ post) a (a + n) = mid.
Proof.
  intros -> ->. unfold subarray, len. rewrite Nat2Z.id, drop_app_length.
  replace (Z.to_nat _) with (length mid) by lia. apply take_app_length.
Qed.

Lemma subarray_from_app {A} (pre post : list A) (a : Z) :
  a = len pre -> subarray_from (pre ++ post) a = post.
Proof. intros ->. unfold subarray_from, len. by rewrite Nat2Z.id, drop_app_length. Qed.

Lemma len_subarray {A} (l : list A) a b :
  0 <= a <= b -> b <= len l -> len (subarray l a b) = b - a.
Proof. intros. unfold subarray, len in *. rewrite length_take, length_drop. lia. Qed.

Lemma len_subarray_from {A} (l : list A) a :
  0 <= a <= len l -> len (subarray_from l a) = len l - a.
Proof. intros. unfold subarray_from, len in *. rewrite length_drop. lia. Qed.

(** A list cut at two offsets. *)
Lemma subarray_split {A} (l : list A) a b :
  0 <= a <= b -> b <= len l ->
  l = subarray l 0 a ++ subarray l a b ++ subarray_from l b.
Proof.
  intros. unfold subarray, subarray_from. rewrite drop_0.
  rewrite <- (take_drop (Z.to_nat a) l) at 1.
  replace (Z.to_nat (a - 0)) with (Z.to_nat a) by lia. f_equal.
  rewrite <- (take_drop (Z.to_nat (b - a)) (drop (Z.to_nat a) l)) at 1. f_equal.
  rewrite drop_drop. f_equal. lia.
Qed.

Lemma alter_alter {A} (f g : A -> A) i (l : list A) : alter g i (alter f i l) = alter (fun x => g (f x)) i l.
Proof.
  apply list_eq. intros j. destruct (decide (i = j)) as [<-|Hne].
  - rewrite !list_lookup_alter_eq. by destruct (l !! i).
  - by rewrite !list_lookup_alter_ne.
Qed.

Lemma len_nil_inv {A} (l : list A) : len l = 0 -> l = [].
Proof. destruct l; [done|]. rewrite len_cons. pose proof (len_nonneg l). lia. Qed.

(** Reading a list back by its indices. *)
Lemma map_nth_seq {A} (l : list A) d : map (fun j => nth j l d) (seq 0 (length l)) = l.
Proof.
  induction l as [|x l IH]; [done|]. cbn [length seq map nth]. f_equal.
  by rewrite <- seq_shift, map_map.
Qed.

Lemma map_lookup_seq {A} (l : list A) : map (fun j => l !! j) (seq 0 (length l)) = map Some l.
Proof.
  induction l as [|x l IH]; [done|]. cbn [length seq map]. f_equal.
  by rewrite <- seq_shift, map_map.
Qed.

(** ** Hints *)

Create HintDb fips.
#[export] Hint Resolve b2z_range le_val_range len_nonneg byte_at_range : fips.

(** ** Strings in the order of their code units *)

Lemma string_ltb_trans a b c : String.ltb a b = true -> String.ltb b c = true -> String.ltb a c = true.
Proof.
  unfold String.ltb. revert b c. induction a as [|x a IH]; intros [|y b] [|z c]; cbn; try done.
  unfold Ascii.compare. intros H1 H2.
  destruct (N.compare_spec (Ascii.N_of_ascii x) (Ascii.N_of_ascii y)) as [E1|E1|E1]; try done;
  destruct (N.compare_spec (Ascii.N_of_ascii y) (Ascii.N_of_ascii z)) as [E2|E2|E2]; try done;
  destruct (N.compare_spec (Ascii.N_of_ascii x) (Ascii.N_of_ascii z)) as [E3|E3|E3]; try lia; try done.
  by apply (IH b).
Qed.

(** ** What a method may change

    [respects R m]: whatever its outcome, [m] relates the fields before it to the
    fields after it by the preorder [R]. *)

Section Respects.
Context {S : Type} (R : S -> S -> Prop) `{!PreOrder R}.

Definition respects {A} (m : ST S A) : Prop := forall s, R s (snd (m s)).

Lemma respects_ret {A} (a : A) : respects (mret a).
Proof. intros s. cbn. reflexivity. Qed.

Lemma respects_get : respects get.
Proof. intros s. cbn. reflexivity. Qed.

Lemma respects_lift {A} (r : result A) : respects (lift r).
Proof. intros s. cbn. reflexivity. Qed.

Lemma respects_throw {A} e : respects (@throw S A e).
Proof. intros s. cbn. reflexivity. Qed.

Lemma respects_throw_when c e : respects (throw_when c e).
Proof. intros s. destruct c; cbn; reflexivity. Qed.

Lemma respects_modify f : (forall s, R s (f s)) -> respects (modify f).
Proof. intros Hf s. apply Hf. Qed.

Lemma respects_bind {A B} (m : ST S A) (f : A -> ST S B) : respects m -> (forall a, respects (f a)) -> respects (m ≫= f).
Proof.
  intros Hm Hf s. specialize (Hm s). unfold mbind, ST_bind. destruct (m s) as [[a|e] s']; cbn [snd] in Hm; [|done].
  etransitivity; [exact Hm|apply Hf].
Qed.

Lemma respects_try {A} (m : ST S A) h : respects m -> (forall e, respects (h e)) -> respects (try_catch m h).
Proof.
  intros Hm Hh s. specialize (Hm s). unfold try_catch. destruct (m s) as [[a|e] s']; cbn [snd] in *; [done|].
  etransitivity; [exact Hm|apply Hh].
Qed.

Lemma respects_zoom {T A} (g : S -> T) (h : T -> S -> S) (m : ST T A) : (forall t s, R s (h t s)) -> respects (zoom g h m).
Proof. intros Hh s. unfold zoom. destruct (m (g s)) as [r t]. apply Hh. Qed.
End Respects.

(** Take a method apart down to the commands that are in the hint database
    [respects] or left over. *)
Create HintDb respects.
#[export] Hint Resolve respects_ret respects_get respects_lift respects_throw respects_throw_when : respects.

Ltac respects_step :=
  match goal with
  | |- respects _ (_ ≫= _) => apply respects_bind; [typeclasses eauto| |intros ?]
  | |- respects _ (try_catch _ _) => apply respects_try; [typeclasses eauto| |intros ?]
  | |- respects _ (if ?c then _ else _) => destruct c
  | |- respects _ (match ?x with _ => _ end) => destruct x
  | |- respects _ _ => solve [auto with respects typeclass_instances]
  end.
Ltac solve_respects := repeat respects_step.

(** ** Maps

    A JavaScript [Map] iterates in insertion order, and setting an existing key
    keeps its place. *)

Module JsMap.
Section Ops.
Context {K V : Type} `{EqDecision K}.

Fixpoint get_ (m : list (K * V)) (k : K) : option V :=
  match m with
  | [] => None
  | (k', v) :: m => if decide (k = k') then Some v else get_ m k
  end.

Fixpoint set_ (m : list (K * V)) (k : K) (v : V) : list (K * V) :=
  match m with
  | [] => [(k, v)]
  | (k', v') :: m => if decide (k = k') then (k, v) :: m else (k', v') :: set_ m k v
  end.

Definition delete_ (m : list (K * V)) (k : K) : list (K * V) :=
  base.filter (fun p => fst p <> k) m.

Definition has_ (m : list (K * V)) (k : K) : bool := bool_decide (is_Some (get_ m k)).

Definition wf (m : list (K * V)) : Prop := NoDup (fst <$> m).

Lemma get_set_eq m k v : get_ (set_ m k v) k = Some v.
Proof. induction m as [|[k' v'] m IH]; simpl; repeat (case_decide; simpl; try done). Qed.

Lemma get_set_ne m k k' v : k <> k' -> get_ (set_ m k v) k' = get_ m k'.
Proof.
  intros Hne. induction m as [|[k0 v0] m IH]; simpl; repeat (case_decide; simpl; subst; try done).
Qed.

Lemma get_delete_eq m k : get_ (delete_ m k) k = None.
Proof.
  unfold delete_. induction m as [|[k' v'] m IH]; [done|].
  rewrite filter_cons. case_decide; simpl in *; [|done].
  case_decide; [subst; done|done].
Qed.

Lemma get_delete_ne m k k' : k <> k' -> get_ (delete_ m k) k' = get_ m k'.
Proof.
  intros Hne. unfold delete_. induction m as [|[k0 v0] m IH]; [done|].
  rewrite filter_cons. simpl. case_decide as E1; simpl; case_decide; simpl; subst; try done;
    exfalso; by apply E1.
Qed.

Lemma get_elem m k v : get_ m k = Some v -> (k, v) ∈ m.
Proof.
  induction m as [|[k' v'] m IH]; simpl; [done|].
  case_decide; intros; simplify_eq; set_solver.
Qed.

Lemma elem_get m k v : wf m -> (k, v) ∈ m -> get_ m k = Some v.
Proof.
  unfold wf. induction m as [|[k' v'] m IH]; simpl; [by intros _ ?%not_elem_of_nil|].
  rewrite NoDup_cons. intros [Hn Hd] [E|Hin]%elem_of_cons; [simplify_eq; by case_decide|].
  case_decide as E; [|by apply IH]. subst. exfalso. apply Hn.
  apply list_elem_of_fmap. by exists (k', v).
Qed.

Lemma keys_set m k v k' : k' ∈ (fst <$> set_ m k v) <-> k' = k \/ k' ∈ (fst <$> m).
Proof.
  induction m as [|[k0 v0] m IH]; simpl; [set_solver|].
  case_decide; simpl; rewrite !elem_of_cons; [set_solver|]. rewrite IH. set_solver.
Qed.

Lemma wf_set m k v : wf m -> wf (set_ m k v).
Proof.
  unfold wf. induction m as [|[k' v'] m IH]; simpl; [intros _; repeat constructor; set_solver|].
  rewrite NoDup_cons. intros [Hn Hd]. case_decide; simpl.
  - subst. by constructor.
  - constructor; [|by apply IH]. rewrite keys_set. set_solver.
Qed.

Lemma elem_delete m k p : p ∈ delete_ m k <-> p ∈ m /\ fst p <> k.
Proof. unfold delete_. rewrite list_elem_of_filter. tauto. Qed.

Lemma wf_filter (P : K * V -> Prop) `{!forall p, Decision (P p)} m :
  wf m -> wf (base.filter P m).
Proof.
  unfold wf. induction m as [|[k v] m IH]; [done|]. simpl. rewrite NoDup_cons.
  intros [Hn Hd]. rewrite filter_cons. case_decide; simpl; [|by apply IH].
  constructor; [|by apply IH]. intros Hin. apply Hn.
  apply list_elem_of_fmap in Hin as (p & -> & Hp). apply list_elem_of_filter in Hp as [_ Hp].
  apply list_elem_of_fmap. eauto.
Qed.

Lemma wf_delete m k : wf m -> wf (delete_ m k).
Proof. apply wf_filter. Qed.

Lemma length_set m k v :
  length (set_ m k v) = if has_ m k then length m else S (length m).
Proof.
  unfold has_. induction m as [|[k' v'] m IH]; simpl; [done|].
  case_decide; simpl; [done|]. rewrite IH. by case_bool_decide.
Qed.

Lemma length_filter_le (P : K * V -> Prop) `{!forall p, Decision (P p)} m :
  (length (base.filter P m) <= length m)%nat.
Proof. induction m; [done|]. rewrite filter_cons. case_decide; simpl; lia. Qed.

Lemma length_delete_lt m k : k ∈ (fst <$> m) -> (length (delete_ m k) < length m)%nat.
Proof.
  unfold delete_. induction m as [|[k' v'] m IH]; [by intros ?%not_elem_of_nil|].
  simpl. intros Hin. rewrite filter_cons. case_decide as E; simpl in *.
  - apply elem_of_cons in Hin as [->|Hin]; [done|]. apply IH in Hin. lia.
  - pose proof (length_filter_le (fun p => fst p <> k) m). lia.
Qed.
End Ops.
End JsMap.
