(* ===== verification/Codec.v ===== *)
(** * Binary codecs

    [BinaryWriter] and [BinaryReader] of [codec/binary.ts], [bytesEqual] of
    [codec/hex.ts], and the combinator lemmas with which every wire format of
    the library is proved: [writes p l] (the writer program [p] appends the layout
    [l], or throws where a field is out of range), [reads p R] (what [p] returns
    and the bytes it takes are related by [R], and it succeeds on those) and
    [reads_all] (the same for a whole buffer). *)

From S2P Require Import Prelude.

(** ** Writer *)

Module BinaryWriter.

Record t := mk { chunks : list bytes; wlen : Z }.

Definition new : t := mk [] 0.

Definition push (b : bytes) (n : Z) : ST t unit :=
  modify (fun w => mk (chunks w ++ [b]) (wlen w + n)).

Definition u8 (n : Z) : ST t unit :=
  throw_when ((n <? 0) || (n >? 0xff))%bool (RangeError "u8 out of range");;
  push [z2b n] 1.

Definition u16le (n : Z) : ST t unit :=
  throw_when ((n <? 0) || (n >? 0xffff))%bool (RangeError "u16 out of range");;
  push [z2b (js_and n 0xff); z2b (js_and (js_ushr n 8) 0xff)] 2.

Definition u32le (n : Z) : ST t unit :=
  throw_when ((n <? 0) || (n >? 0xffffffff))%bool (RangeError "u32 out of range");;
  push [z2b (js_and n 0xff);
        z2b (js_and (js_ushr n 8) 0xff);
        z2b (js_and (js_ushr n 16) 0xff);
        z2b (js_and (js_ushr n 24) 0xff)] 4.

(** The loop of [u64le]: [b[i] = Number(v & 0xffn); v >>= 8n]. *)
Fixpoint u64_loop (i : nat) (v : Z) : bytes :=
  match i with
  | O => []
  | S i => z2b (Z.land v 0xff) :: u64_loop i (Z.shiftr v 8)
  end.

Definition u64le (n : Z) : ST t unit :=
  throw_when ((n <? 0) || (n >? 0xffffffffffffffff))%bool (RangeError "u64 out of range");;
  push (u64_loop 8 n) 8.

Definition bytes_ (b : bytes) : ST t unit := push b (len b).

Definition length_ (w : t) : Z := wlen w.

(** [out.set(c, off)] for a chunk that fits. *)
Definition set_at (out : bytes) (c : bytes) (off : Z) : bytes :=
  take (Z.to_nat off) out ++ c ++ drop (Z.to_nat off + length c) out.

Fixpoint copy_chunks (cs : list bytes) (out : bytes) (off : Z) : bytes :=
  match cs with
  | [] => out
  | c :: cs => copy_chunks cs (set_at out c off) (off + len c)
  end.

Definition toBytes (w : t) : bytes :=
  copy_chunks (chunks w) (replicate (Z.to_nat (wlen w)) x00) 0.

(** Run an encoder body on a fresh writer: [const w = new BinaryWriter();
    ...; return w.toBytes()]. *)
Definition encode (p : ST t unit) : result bytes :=
  match p new with
  | (Ok _, w) => Ok (toBytes w)
  | (Throw e, _) => Throw e
  end.
End BinaryWriter.

(** ** Reader *)

Module BinaryReader.

Record t := mk { buf : bytes; off : Z }.

Definition new (b : bytes) : t := mk b 0.

Definition require (n : Z) : ST t unit :=
  r ← get; throw_when (off r + n >? len (buf r)) (RangeError "BinaryReader: need bytes").

Definition advance (n : Z) : ST t unit := modify (fun r => mk (buf r) (off r + n)).

Definition u8 : ST t Z :=
  require 1;; r ← get; advance 1;; mret (byte_at (buf r) (off r)).

Definition u16le : ST t Z :=
  require 2;;
  r ← get;
  let v := js_or (byte_at (buf r) (off r)) (js_shl (byte_at (buf r) (off r + 1)) 8) in
  advance 2;; mret (js_ushr v 0).

Definition u32le : ST t Z :=
  require 4;;
  r ← get;
  let v := js_or (js_or (js_or (byte_at (buf r) (off r))
                               (js_shl (byte_at (buf r) (off r + 1)) 8))
                        (js_shl (byte_at (buf r) (off r + 2)) 16))
                 (js_shl (byte_at (buf r) (off r + 3)) 24) in
  advance 4;; mret (js_ushr v 0).

(** The loop of [u64le]: [for (i = 7; i >= 0; i--) v = (v << 8n) | buf[off + i]];
    [i] here counts the remaining iterations. *)
Fixpoint u64_loop (b : bytes) (o : Z) (i : nat) (v : Z) : Z :=
  match i with
  | O => v
  | S i => u64_loop b o i (Z.lor (Z.shiftl v 8) (byte_at b (o + Z.of_nat i)))
  end.

Definition u64le : ST t Z :=
  require 8;; r ← get; advance 8;; mret (u64_loop (buf r) (off r) 8 0).

Definition bytes_ (n : Z) : ST t bytes :=
  require n;; r ← get; advance n;; mret (subarray (buf r) (off r) (off r + n)).

Definition rest : ST t bytes :=
  r ← get;
  modify (fun r => mk (buf r) (len (buf r)));;
  mret (subarray_from (buf r) (off r)).

Definition position (r : t) : Z := off r.
Definition remaining (r : t) : Z := len (buf r) - off r.

(** Run a decoder body on a fresh reader of [b]. *)
Definition decode {A} (p : ST t A) (b : bytes) : result A := run_result p (new b).
End BinaryReader.


(** ** Byte comparison *)

Fixpoint bytes_loop (a b : bytes) : bool :=
  match a, b with
  | x :: a, y :: b => if negb (b2z x =? b2z y) then false else bytes_loop a b
  | _, _ => true
  end.

Definition bytesEqual (a b : bytes) : bool :=
  if negb (len a =? len b) then false else bytes_loop a b.

Lemma bytesEqual_spec a b : bytesEqual a b = bool_decide (a = b).
Proof.
  unfold bytesEqual. destruct (Z.eqb_spec (len a) (len b)) as [Hl|Hl]; simpl.
  - revert b Hl. induction a as [|x a IH]; intros [|y b] Hl;
      rewrite ?len_cons in Hl; try (pose proof (len_nonneg a));
      try (pose proof (len_nonneg b)); try (unfold len in Hl; simpl in Hl; lia); [done|].
    simpl. destruct (Z.eqb_spec (b2z x) (b2z y)) as [E|E]; simpl.
    + apply b2z_inj in E as ->. rewrite IH by lia.
      apply bool_decide_ext. split; congruence.
    + symmetry. apply bool_decide_eq_false. congruence.
  - symmetry. apply bool_decide_eq_false. congruence.
Qed.

Lemma bytesEqual_true a b : bytesEqual a b = true <-> a = b.
Proof. rewrite bytesEqual_spec. apply bool_decide_eq_true. Qed.

Lemma bytesEqual_refl a : bytesEqual a a = true.
Proof. by apply bytesEqual_true. Qed.

(** ** Layouts: what an encoder is meant to produce

    A layout is the byte string of a message, or [None] where a field is out of
    range. [field n v] is an unsigned [n]-byte little-endian field. *)

Abbreviation layout := (option bytes).

Definition field (n : nat) (v : Z) : layout :=
  if ((0 <=? v) && (v <? 256 ^ Z.of_nat n))%bool then Some (le_bytes n v) else None.

Definition lseq (a b : layout) : layout := x ← a; y ← b; Some (x ++ y).
Infix "⊕" := lseq (at level 50, left associativity).

(** A layout that is produced only under a condition the source checks. *)
Definition lguard (c : bool) : layout := if c then Some [] else None.

Lemma lseq_Some a b x : a ⊕ b = Some x <-> exists y z, a = Some y /\ b = Some z /\ x = y ++ z.
Proof. destruct a, b; unfold lseq; simpl; naive_solver. Qed.

Lemma field_Some n v b :
  field n v = Some b <-> 0 <= v < 256 ^ Z.of_nat n /\ b = le_bytes n v.
Proof.
  unfold field.
  destruct (Z.leb_spec 0 v), (Z.ltb_spec v (256 ^ Z.of_nat n)); simpl; naive_solver lia.
Qed.

Lemma field_ok n v : 0 <= v < 256 ^ Z.of_nat n -> field n v = Some (le_bytes n v).
Proof. intros. by apply field_Some. Qed.

Lemma lguard_Some c b : lguard c = Some b <-> c = true /\ b = [].
Proof. destruct c; simpl; naive_solver. Qed.

(** ** Writer programs *)

Section Writes.
Import BinaryWriter.

Definition wf (w : t) : Prop := wlen w = len (concat (chunks w)).

Lemma set_at_app (done c post : bytes) :
  set_at (done ++ post) c (len done) = (done ++ c) ++ drop (length c) post.
Proof.
  unfold set_at, len. rewrite Nat2Z.id, take_app_length, <- app_assoc. do 2 f_equal.
  rewrite drop_app, drop_ge by lia. simpl. f_equal. lia.
Qed.

Lemma copy_chunks_spec cs (done post : bytes) :
  length post = length (concat cs) ->
  copy_chunks cs (done ++ post) (len done) = done ++ concat cs.
Proof.
  revert done post. induction cs as [|c cs IH]; intros done post Hl; simpl in *.
  - destruct post; [by rewrite app_nil_r|done].
  - rewrite length_app in Hl. rewrite set_at_app, <- len_app, IH.
    + by rewrite <- app_assoc.
    + rewrite length_drop. lia.
Qed.

(** Copying the chunks to their offsets concatenates them. *)
Lemma toBytes_spec w : wf w -> toBytes w = concat (chunks w).
Proof.
  intros Hw. unfold toBytes. rewrite <- (app_nil_l (replicate _ _)).
  apply (copy_chunks_spec _ []). rewrite length_replicate, Hw. unfold len. lia.
Qed.

Definition appends (w w' : t) (b : bytes) : Prop :=
  wf w' /\ concat (chunks w') = concat (chunks w) ++ b.

(** [writes p l]: [p] appends the layout [l], or throws where [l] has none. *)
Definition writes (p : ST t unit) (l : layout) : Prop :=
  forall w, wf w -> match l with
    | Some b => exists w', p w = (Ok tt, w') /\ appends w w' b
    | None => exists e w', p w = (Throw e, w')
    end.

Lemma writes_push b n : n = len b -> writes (push b n) (Some b).
Proof.
  intros -> w Hw. eexists. split; [done|]. unfold appends, wf in *. simpl.
  rewrite concat_app. simpl. rewrite app_nil_r, len_app. split; [lia|done].
Qed.

Lemma writes_ret : writes (mret tt) (Some []).
Proof. intros w Hw. exists w. split; [done|]. split; [done|]. by rewrite app_nil_r. Qed.

Lemma writes_seq p q l k : writes p l -> writes q k -> writes (p;; q) (l ⊕ k).
Proof.
  intros Hp Hq w Hw. specialize (Hp w Hw). destruct l as [b|]; simpl.
  - destruct Hp as (w1 & Hp & Hw1 & E1). specialize (Hq w1 Hw1).
    destruct k as [b'|]; simpl in *.
    + destruct Hq as (w2 & Hq & Hw2 & E2). exists w2.
      rewrite (ST_bind_ok _ _ _ _ _ Hp). split; [done|]. split; [done|].
      by rewrite E2, E1, app_assoc.
    + destruct Hq as (e & w2 & Hq). exists e, w2. by rewrite (ST_bind_ok _ _ _ _ _ Hp).
  - destruct Hp as (e & w1 & Hp). exists e, w1. by apply ST_bind_throw.
Qed.

Lemma writes_throw_when c e : writes (throw_when c e) (lguard (negb c)).
Proof.
  destruct c; simpl; [|apply writes_ret]. intros w Hw. by exists e, w.
Qed.

Lemma writes_ext p l k : l = k -> writes p l -> writes p k.
Proof. by intros ->. Qed.

Lemma range_check n v m :
  m = 256 ^ Z.of_nat n - 1 ->
  lguard (negb ((v <? 0) || (v >? m))%bool) =
    if ((0 <=? v) && (v <? 256 ^ Z.of_nat n))%bool then Some [] else None.
Proof.
  intros ->. rewrite Z.gtb_ltb.
  destruct (Z.ltb_spec v 0), (Z.leb_spec 0 v), (Z.ltb_spec (256 ^ Z.of_nat n - 1) v),
    (Z.ltb_spec v (256 ^ Z.of_nat n)); simpl; lia || done.
Qed.

(** The shared shape of the four integer writers: a range check, then the
    bytes of the value. *)
Lemma writes_int n v m e b :
  m = 256 ^ Z.of_nat n - 1 ->
  (0 <= v < 256 ^ Z.of_nat n -> b = le_bytes n v) ->
  length b = n ->
  writes (throw_when ((v <? 0) || (v >? m))%bool e;; push b (Z.of_nat n)) (field n v).
Proof.
  intros Hm Hb Hl. eapply writes_ext; [|apply writes_seq;
    [apply writes_throw_when | apply writes_push; unfold len; by rewrite Hl]].
  rewrite (range_check n) by done. unfold field.
  destruct (Z.leb_spec 0 v), (Z.ltb_spec v (256 ^ Z.of_nat n)); simpl; try done.
  by rewrite Hb by lia.
Qed.

Lemma js_byte v k :
  0 <= v < 2 ^ 32 -> 0 <= k -> z2b (js_and (js_ushr v k) 0xff) = z2b (v / 2 ^ k).
Proof.
  intros Hv Hk. unfold js_ushr. rewrite to_uint32_id, Z.shiftr_div_pow2 by lia.
  rewrite js_and_byte. apply z2b_mod.
Qed.

Lemma js_byte0 v : z2b (js_and v 0xff) = z2b v.
Proof. rewrite js_and_byte. apply z2b_mod. Qed.

Lemma writes_u8 v : writes (u8 v) (field 1 v).
Proof. by apply (writes_int 1). Qed.

Lemma writes_u16le v : writes (u16le v) (field 2 v).
Proof.
  apply (writes_int 2); [done| |done]. intros Hv. change (256 ^ Z.of_nat 2) with 65536 in Hv.
  rewrite js_byte0, js_byte by lia. done.
Qed.

Lemma writes_u32le v : writes (u32le v) (field 4 v).
Proof.
  apply (writes_int 4); [done| |done]. intros Hv. change (256 ^ Z.of_nat 4) with 4294967296 in Hv.
  rewrite js_byte0, !js_byte by lia. simpl. by rewrite !Z.div_div by lia.
Qed.

Lemma u64_loop_spec i v : u64_loop i v = le_bytes i v.
Proof.
  revert v. induction i as [|i IH]; intros v; [done|]. simpl.
  rewrite IH, Z.shiftr_div_pow2 by lia. change 0xff with (Z.ones 8).
  rewrite Z.land_ones by lia. by rewrite z2b_mod.
Qed.

Lemma writes_u64le v : writes (u64le v) (field 8 v).
Proof. apply (writes_int 8); [done| |done]. intros _. apply u64_loop_spec. Qed.

Lemma writes_bytes b : writes (bytes_ b) (Some b).
Proof. by apply writes_push. Qed.

(** What an encoder returns is its layout. *)
Lemma encode_writes p l : writes p l ->
  match l with Some b => encode p = Ok b | None => exists e, encode p = Throw e end.
Proof.
  intros Hp. specialize (Hp new eq_refl). unfold encode. destruct l as [b|].
  - destruct Hp as (w & -> & Hw & E). by rewrite toBytes_spec, E.
  - destruct Hp as (e & w & ->). by exists e.
Qed.

Lemma encode_Ok p l b : writes p l -> encode p = Ok b <-> l = Some b.
Proof.
  intros Hp%encode_writes. destruct l as [b'|].
  - rewrite Hp. naive_solver.
  - destruct Hp as [e ->]. naive_solver.
Qed.
End Writes.

#[export] Hint Resolve writes_u8 writes_u16le writes_u32le writes_u64le writes_bytes
  writes_ret writes_throw_when : fips.

(** A byte field that the source masks. *)
Lemma writes_byte v : writes (BinaryWriter.u8 (js_and v 0xff)) (field 1 (v mod 256)).
Proof. rewrite js_and_byte. apply writes_u8. Qed.

#[export] Hint Resolve writes_byte : fips.

(** [solve_writes]: the layout of a straight-line encoder body. *)
Ltac solve_writes :=
  first [ apply writes_u8 | apply writes_u16le | apply writes_u32le | apply writes_u64le
        | apply writes_bytes | apply writes_ret | apply writes_throw_when
        | solve [eauto with fips]
        | apply writes_seq; solve_writes
        | idtac ].

(** ** Reader programs *)

Section Reads.
Import BinaryReader.

(** [reads p R]: started after [pre], [p] returns [v] exactly when the buffer
    continues with an encoding of [v], and it then stands right after it. *)
Definition reads {A} (p : ST t A) (R : A -> bytes -> Prop) : Prop :=
  forall pre bs,
    (forall v b rest, R v b -> bs = b ++ rest ->
       p (mk (pre ++ bs) (len pre)) = (Ok v, mk (pre ++ bs) (len pre + len b))) /\
    (forall v r', p (mk (pre ++ bs) (len pre)) = (Ok v, r') ->
       exists b rest, R v b /\ bs = b ++ rest /\ r' = mk (pre ++ bs) (len pre + len b)).

(** [reads_all p R]: the same, for a program that uses up the buffer. *)
Definition reads_all {A} (p : ST t A) (R : A -> bytes -> Prop) : Prop :=
  forall pre bs,
    (forall v, R v bs ->
       p (mk (pre ++ bs) (len pre)) = (Ok v, mk (pre ++ bs) (len (pre ++ bs)))) /\
    (forall v r', p (mk (pre ++ bs) (len pre)) = (Ok v, r') -> R v bs).

Lemma reads_ret {A} (x : A) : reads (mret x) (fun v b => v = x /\ b = []).
Proof.
  intros pre bs. split.
  - intros v b rest [-> ->] ->. unfold mret, ST_ret. simpl. do 2 f_equal. unfold len. simpl. lia.
  - intros v r' H. unfold mret, ST_ret in H. simplify_eq. exists [], bs.
    split; [done|]. split; [done|]. f_equal. unfold len. simpl. lia.
Qed.

Lemma reads_bind_dep {A B} (p : ST t A) (f : A -> ST t B) R Q :
  reads p R -> (forall v b, R v b -> reads (f v) (Q v)) ->
  reads (p ≫= f) (fun w b => exists v b1 b2, R v b1 /\ Q v w b2 /\ b = b1 ++ b2).
Proof.
  intros Hp Hf pre bs. split.
  - intros w b rest (v & b1 & b2 & HR & HQ & ->) ->. rewrite <- app_assoc.
    destruct (Hp pre (b1 ++ b2 ++ rest)) as [Hp1 _].
    rewrite (ST_bind_ok _ _ _ _ _ (Hp1 v b1 (b2 ++ rest) HR eq_refl)).
    destruct (Hf v b1 HR (pre ++ b1) (b2 ++ rest)) as [Hf1 _].
    specialize (Hf1 w b2 rest HQ eq_refl). rewrite <- app_assoc, len_app in Hf1.
    rewrite Hf1, len_app. by rewrite Z.add_assoc.
  - intros w r' H. apply ST_bind_inv in H as (v & s & H1 & H2).
    destruct (Hp pre bs) as [_ Hp2]. destruct (Hp2 _ _ H1) as (b1 & rest & HR & -> & ->).
    destruct (Hf v b1 HR (pre ++ b1) rest) as [_ Hf2]. rewrite <- app_assoc, len_app in Hf2.
    destruct (Hf2 _ _ H2) as (b2 & rest2 & HQ & -> & ->).
    exists (b1 ++ b2), rest2. rewrite <- !app_assoc, !len_app, Z.add_assoc. eauto 10.
Qed.

Lemma reads_all_bind_dep {A B} (p : ST t A) (f : A -> ST t B) R Q :
  reads p R -> (forall v b, R v b -> reads_all (f v) (Q v)) ->
  reads_all (p ≫= f) (fun w b => exists v b1 b2, R v b1 /\ Q v w b2 /\ b = b1 ++ b2).
Proof.
  intros Hp Hf pre bs. split.
  - intros w (v & b1 & b2 & HR & HQ & ->).
    destruct (Hp pre (b1 ++ b2)) as [Hp1 _].
    rewrite (ST_bind_ok _ _ _ _ _ (Hp1 v b1 b2 HR eq_refl)).
    destruct (Hf v b1 HR (pre ++ b1) b2) as [Hf1 _].
    specialize (Hf1 w HQ). by rewrite <- app_assoc, len_app in Hf1.
  - intros w r' H. apply ST_bind_inv in H as (v & s & H1 & H2).
    destruct (Hp pre bs) as [_ Hp2]. destruct (Hp2 _ _ H1) as (b1 & rest & HR & -> & ->).
    destruct (Hf v b1 HR (pre ++ b1) rest) as [_ Hf2]. rewrite <- app_assoc, len_app in Hf2.
    eauto 10.
Qed.

Lemma reads_bind {A B} (p : ST t A) (f : A -> ST t B) R Q :
  reads p R -> (forall v, reads (f v) (Q v)) ->
  reads (p ≫= f) (fun w b => exists v b1 b2, R v b1 /\ Q v w b2 /\ b = b1 ++ b2).
Proof. intros. by apply reads_bind_dep. Qed.

Lemma reads_all_bind {A B} (p : ST t A) (f : A -> ST t B) R Q :
  reads p R -> (forall v, reads_all (f v) (Q v)) ->
  reads_all (p ≫= f) (fun w b => exists v b1 b2, R v b1 /\ Q v w b2 /\ b = b1 ++ b2).
Proof. intros. by apply reads_all_bind_dep. Qed.

Lemma reads_iff {A} (p : ST t A) R Q :
  (forall v b, R v b <-> Q v b) -> reads p R -> reads p Q.
Proof. intros H Hp pre bs. destruct (Hp pre bs) as [H1 H2]. split; [|setoid_rewrite <- H]; naive_solver. Qed.

Lemma reads_all_iff {A} (p : ST t A) R Q :
  (forall v b, R v b <-> Q v b) -> reads_all p R -> reads_all p Q.
Proof. intros H Hp pre bs. destruct (Hp pre bs) as [H1 H2]. split; naive_solver. Qed.

Lemma reads_throw_when c e : reads (throw_when c e) (fun _ b => c = false /\ b = []).
Proof.
  destruct c; simpl.
  - intros pre bs. split; [naive_solver|]. unfold throw. intros; simplify_eq.
  - apply (reads_iff _ (fun v b => v = tt /\ b = [])); [|apply reads_ret].
    intros [] b. naive_solver.
Qed.

Lemma reads_throw {A} e : reads (throw e : ST t A) (fun _ _ => False).
Proof. intros pre bs. split; [naive_solver|]. unfold throw. intros; simplify_eq. Qed.

(** The shape of the fixed-width readers: a bounds check, then a value that
    depends on the next [n] bytes only. *)
Lemma reads_fixed {A} (p : ST t A) (F : bytes -> Z -> A) (V : bytes -> A) n :
  0 <= n ->
  (forall r, p r = if off r + n >? len (buf r) then (Throw (RangeError "BinaryReader: need bytes"), r)
                   else (Ok (F (buf r) (off r)), mk (buf r) (off r + n))) ->
  (forall pre b rest, len b = n -> F (pre ++ b ++ rest) (len pre) = V b) ->
  reads p (fun v b => len b = n /\ v = V b).
Proof.
  intros Hn Hp HF pre bs. rewrite Hp. simpl. rewrite len_app, Z.gtb_ltb. split.
  - intros v b rest [Hb ->] ->. rewrite len_app, HF by done.
    pose proof (len_nonneg rest).
    destruct (Z.ltb_spec (len pre + (len b + len rest)) (len pre + n)); [lia|].
    by rewrite Hb.
  - intros v r'. destruct (Z.ltb_spec (len pre + len bs) (len pre + n)); [discriminate|].
    intros H0. injection H0 as <- <-.
    exists (take (Z.to_nat n) bs), (drop (Z.to_nat n) bs).
    assert (len (take (Z.to_nat n) bs) = n) as Hl.
    { unfold len in *. rewrite length_take. lia. }
    rewrite take_drop, Hl. split; [|done]. split; [done|].
    rewrite <- (take_drop (Z.to_nat n) bs) at 1. by apply HF.
Qed.

Lemma field_val n v b : field n v = Some b <-> length b = n /\ v = le_val b.
Proof.
  rewrite field_Some. split.
  - intros [H ->]. by rewrite length_le_bytes, le_val_bytes.
  - intros [<- ->]. pose proof (le_val_range b). unfold len in *. by rewrite le_bytes_val.
Qed.

Lemma reads_field (p : ST t Z) (F : bytes -> Z -> Z) n :
  (forall r, p r = if off r + Z.of_nat n >? len (buf r) then (Throw (RangeError "BinaryReader: need bytes"), r)
                   else (Ok (F (buf r) (off r)), mk (buf r) (off r + Z.of_nat n))) ->
  (forall pre b rest, length b = n -> F (pre ++ b ++ rest) (len pre) = le_val b) ->
  reads p (fun v b => field n v = Some b).
Proof.
  intros Hp HF. eapply reads_iff; [|apply (reads_fixed p F le_val (Z.of_nat n)); [lia|exact Hp|]].
  - intros v b. rewrite field_val. unfold len. naive_solver lia.
  - intros. apply HF. unfold len in *. lia.
Qed.

(** The bounds check and the reads of a fixed-width reader, unfolded. *)
Local Ltac run_reader :=
  intros [b o];
  unfold u8, u16le, u32le, u64le, bytes_, require, advance, throw_when, throw, get, modify,
    mbind, ST_bind, mret, ST_ret;
  change (Z.of_nat 1) with 1; change (Z.of_nat 2) with 2; change (Z.of_nat 4) with 4;
  change (Z.of_nat 8) with 8; cbn [buf off];
  match goal with |- context [?x >? ?y] => destruct (x >? y); reflexivity end.

Lemma byte_at_mid pre (b rest : bytes) i :
  0 <= i < len b -> byte_at (pre ++ b ++ rest) (len pre + i) = byte_at b i.
Proof.
  intros. rewrite byte_at_app_l by lia. unfold byte_at, len in *.
  destruct (i <? 0); [done|]. rewrite lookup_app_l by lia. done.
Qed.

Lemma byte_at_mid0 pre (b rest : bytes) :
  0 < len b -> byte_at (pre ++ b ++ rest) (len pre) = byte_at b 0.
Proof. intros. rewrite <- (Z.add_0_r (len pre)). by apply byte_at_mid. Qed.

Lemma reads_u8 : reads u8 (fun v b => field 1 v = Some b).
Proof.
  apply (reads_field _ byte_at); [run_reader|].
  intros pre b rest Hl. rewrite byte_at_mid0 by (unfold len; lia).
  destruct b as [|x [|]]; [done| |done]. cbn [le_val]. rewrite byte_at_head. lia.
Qed.

Lemma js_or_bytes a b k :
  0 <= to_uint32 a < 2 ^ k -> 0 <= b < 256 -> 0 <= k <= 24 ->
  to_uint32 (js_or a (js_shl b k)) = to_uint32 a + b * 2 ^ k.
Proof.
  intros Ha Hb Hk. rewrite js_or_uint32, js_shl_uint32 by lia.
  rewrite (to_uint32_id (b * 2 ^ k)).
  - apply lor_disjoint; lia.
  - assert (2 ^ k <= 2 ^ 24) by (apply Z.pow_le_mono_r; lia). nia.
Qed.

Lemma js_ushr_0 v : js_ushr v 0 = to_uint32 v.
Proof. unfold js_ushr. apply Z.shiftr_0_r. Qed.

Lemma reads_u16le : reads u16le (fun v b => field 2 v = Some b).
Proof.
  apply (reads_field _ (fun b o => js_ushr (js_or (byte_at b o) (js_shl (byte_at b (o + 1)) 8)) 0));
    [run_reader|].
  intros pre b rest Hl. rewrite byte_at_mid0, byte_at_mid by (unfold len; lia).
  destruct b as [|x [|y [|]]]; try discriminate Hl. rewrite js_ushr_0.
  change (byte_at [x; y] 0) with (b2z x). change (byte_at [x; y] 1) with (b2z y).
  pose proof (b2z_range x). pose proof (b2z_range y).
  rewrite js_or_bytes by (rewrite ?to_uint32_id by lia; lia).
  rewrite to_uint32_id by lia. cbn [le_val]. lia.
Qed.

Lemma js_le32 x y z u :
  js_ushr (js_or (js_or (js_or (b2z x) (js_shl (b2z y) 8)) (js_shl (b2z z) 16)) (js_shl (b2z u) 24)) 0 =
  le_val [x; y; z; u].
Proof.
  rewrite js_ushr_0.
  pose proof (b2z_range x). pose proof (b2z_range y).
  pose proof (b2z_range z). pose proof (b2z_range u).
  assert (E1 : to_uint32 (b2z x) = b2z x) by (apply to_uint32_id; lia).
  assert (E2 : to_uint32 (js_or (b2z x) (js_shl (b2z y) 8)) = b2z x + b2z y * 2 ^ 8)
    by (rewrite js_or_bytes; lia).
  assert (E3 : to_uint32 (js_or (js_or (b2z x) (js_shl (b2z y) 8)) (js_shl (b2z z) 16))
    = b2z x + b2z y * 2 ^ 8 + b2z z * 2 ^ 16) by (rewrite js_or_bytes; lia).
  rewrite js_or_bytes by lia. rewrite E3. cbn [le_val]. lia.
Qed.

Lemma reads_u32le : reads u32le (fun v b => field 4 v = Some b).
Proof.
  apply (reads_field _ (fun b o => js_ushr (js_or (js_or (js_or (byte_at b o)
    (js_shl (byte_at b (o + 1)) 8)) (js_shl (byte_at b (o + 2)) 16))
    (js_shl (byte_at b (o + 3)) 24)) 0)); [run_reader|].
  intros pre b rest Hl. rewrite byte_at_mid0, !byte_at_mid by (unfold len; lia).
  destruct b as [|x [|y [|z [|u [|]]]]]; try discriminate Hl. apply js_le32.
Qed.

Lemma le_val_snoc l x : le_val (l ++ [x]) = le_val l + 256 ^ Z.of_nat (length l) * b2z x.
Proof.
  induction l as [|y l IH].
  - change (256 ^ Z.of_nat (length (@nil byte))) with 1. cbn [app le_val]. lia.
  - cbn [app le_val length]. rewrite IH, Nat2Z.inj_succ, Z.pow_succ_r by lia. lia.
Qed.

(** The loop shifts the bytes in from the most significant end. *)
Lemma u64_loop_spec' (b : bytes) pre rest i v :
  (i <= length b)%nat ->
  u64_loop (pre ++ b ++ rest) (len pre) i v = le_val (take i b) + 256 ^ Z.of_nat i * v.
Proof.
  revert v. induction i as [|i IH]; intros v Hi; [simpl; rewrite Z.pow_0_r; lia|].
  cbn [u64_loop]. rewrite IH, byte_at_mid by (unfold len; lia).
  destruct (lookup_lt_is_Some_2 b i) as [x Hx]; [lia|].
  assert (byte_at b (Z.of_nat i) = b2z x) as ->.
  { unfold byte_at. destruct (Z.ltb_spec (Z.of_nat i) 0); [lia|]. by rewrite Nat2Z.id, Hx. }
  pose proof (b2z_range x).
  rewrite Z.lor_comm, Z.shiftl_mul_pow2, lor_disjoint by lia.
  rewrite (take_S_r _ _ _ Hx), Nat2Z.inj_succ, Z.pow_succ_r by lia.
  assert (Hl : length (take i b) = i) by (rewrite length_take; lia).
  rewrite le_val_snoc, Hl. 
  lia.
Qed.

Lemma reads_u64le : reads u64le (fun v b => field 8 v = Some b).
Proof.
  apply (reads_field _ (fun b o => u64_loop b o 8 0)); [run_reader|].
  intros pre b rest Hl. rewrite u64_loop_spec' by lia. rewrite take_ge by lia. lia.
Qed.

Lemma reads_bytes n : 0 <= n -> reads (bytes_ n) (fun v b => v = b /\ len b = n).
Proof.
  intros Hn. eapply reads_iff; [|apply (reads_fixed _
    (fun b o => subarray b o (o + n)) id n); [done|run_reader|]].
  - unfold id. naive_solver.
  - intros pre b rest <-. by apply subarray_app_mid.
Qed.

(** A length that was read is not negative. *)
Lemma reads_bytes_len p n_ok :
  reads p n_ok -> (forall n b, n_ok n b -> 0 <= n) ->
  reads (n ← p; bytes_ n) (fun v b => exists b1, n_ok (len v) b1 /\ b = b1 ++ v).
Proof.
  intros Hp Hn pre bs. destruct (Hp pre bs) as [P1 P2]. split.
  - intros v b rest (b1 & Hb1 & ->) ->. rewrite <- app_assoc.
    destruct (Hp pre (b1 ++ v ++ rest)) as [Q1 _].
    rewrite (ST_bind_ok _ _ _ _ _ (Q1 (len v) b1 (v ++ rest) Hb1 eq_refl)).
    destruct (reads_bytes (len v) (len_nonneg v) (pre ++ b1) (v ++ rest)) as [R1 _].
    specialize (R1 v v rest (conj eq_refl eq_refl) eq_refl).
    rewrite <- app_assoc, len_app in R1. rewrite R1, len_app. by rewrite Z.add_assoc.
  - intros v r' H. apply ST_bind_inv in H as (n & s & H1 & H2).
    destruct (P2 _ _ H1) as (b1 & rest & HR & -> & ->). pose proof (Hn _ _ HR) as Hn0.
    destruct (reads_bytes n Hn0 (pre ++ b1) rest) as [_ R2].
    rewrite <- app_assoc, len_app in R2. destruct (R2 _ _ H2) as (b2 & rest2 & [-> <-] & -> & ->).
    exists (b1 ++ b2), rest2. rewrite <- !app_assoc, !len_app, Z.add_assoc. eauto 10.
Qed.

(** A counted field: its length, then its bytes. *)
Lemma reads_counted :
  reads (n ← u16le; bytes_ n) (fun v b => field 2 (len v) ⊕ Some v = Some b).
Proof.
  eapply reads_iff; [|apply (reads_bytes_len _ _ reads_u16le); intros n b H;
    by apply field_Some in H as [[? _] _]].
  intros v b. rewrite lseq_Some. naive_solver.
Qed.

Lemma reads_all_rest : reads_all rest (fun v b => v = b).
Proof.
  intros pre bs. unfold rest, mbind, ST_bind. cbn -[subarray_from].
  rewrite subarray_from_app by done. split; [by intros v ->|].
  intros v r' H. by injection H.
Qed.

Lemma reads_all_rest_ret {A} (g : bytes -> A) :
  reads_all (x ← rest; mret (g x)) (fun v b => v = g b).
Proof.
  intros pre bs. unfold rest, mbind, ST_bind. cbn -[subarray_from].
  rewrite subarray_from_app by done. split; [by intros v ->|].
  intros v r' H. by injection H.
Qed.

Lemma reads_all_rest_check {A} (c : bytes -> bool) e (g : bytes -> A) :
  reads_all (x ← rest; throw_when (c x) e;; mret (g x)) (fun v b => c b = false /\ v = g b).
Proof.
  intros pre bs. unfold rest, mbind, ST_bind. cbn -[subarray_from].
  rewrite subarray_from_app by done. split.
  - by intros v [-> ->].
  - intros v r'. destruct (c bs); intros H; [discriminate H|]. by injection H.
Qed.

Lemma reads_all_rest_lift {A} (f : bytes -> result A) :
  reads_all (x ← rest; lift (f x)) (fun v b => f b = Ok v).
Proof.
  intros pre bs. unfold rest, mbind, ST_bind, lift. cbn -[subarray_from].
  rewrite subarray_from_app by done. split; [by intros v ->|].
  intros v r' H. by injection H.
Qed.

Lemma reads_all_ret_done {A} (x : A) e :
  reads_all (r ← get; throw_when (negb (remaining r =? 0)) e;; mret x)
            (fun v b => v = x /\ b = []).
Proof.
  intros pre bs. unfold mbind, ST_bind, remaining. cbn.
  rewrite len_app. split.
  - intros v [-> ->]. rewrite app_nil_r.
    change (len (@nil byte)) with 0. by rewrite Z.add_0_r, Z.sub_diag.
  - intros v r'. destruct (Z.eqb_spec (len pre + len bs - len pre) 0); simpl.
    + intros H. injection H as <- _. split; [done|]. apply len_nil_inv. lia.
    + intros H. discriminate H.
Qed.

(** A check of [reader.remaining] that fixes how much is still to come. *)
Lemma reads_all_remaining {A} (c : Z -> bool) e (k : ST t A) R :
  reads k R ->
  (forall v b n, R v b -> c n = false -> n = len b) ->
  reads_all (r ← get; throw_when (c (remaining r)) e;; k) (fun v b => c (len b) = false /\ R v b).
Proof.
  intros Hk Hn pre bs. unfold mbind, ST_bind, get. cbn -[remaining].
  replace (remaining (mk (pre ++ bs) (len pre))) with (len bs)
    by (unfold remaining; cbn; rewrite len_app; lia).
  destruct (Hk pre bs) as [H1 H2]. split.
  - intros v [-> HR]. cbn. rewrite (H1 v bs [] HR) by by rewrite app_nil_r. by rewrite len_app.
  - intros v r'. destruct (c (len bs)) eqn:E; cbn; intros H; [discriminate H|].
    destruct (H2 v r' H) as (b & rest & HR & -> & _).
    pose proof (Hn v b _ HR E) as El. rewrite len_app in El.
    assert (rest = []) as -> by (apply len_nil_inv; lia). by rewrite app_nil_r in *.
Qed.

(** A check of [reader.remaining] in front of a read of that many bytes. *)
Lemma reads_remaining_bytes n e :
  0 <= n ->
  reads (r ← get; throw_when (remaining r <? n) e;; bytes_ n) (fun v b => v = b /\ len b = n).
Proof.
  intros Hn0 pre bs. destruct (reads_bytes n Hn0 pre bs) as [H1 H2].
  unfold mbind, ST_bind, get. cbn -[remaining bytes_].
  replace (remaining (mk (pre ++ bs) (len pre))) with (len bs)
    by (unfold remaining; cbn; rewrite len_app; lia).
  split.
  - intros v b rest HR E. rewrite <- (H1 v b rest HR E). destruct (Z.ltb_spec (len bs) n); [|done].
    destruct HR as [_ HR]. subst bs. rewrite len_app in *. pose proof (len_nonneg rest). lia.
  - intros v r'. destruct (Z.ltb_spec (len bs) n); cbn -[bytes_]; intros E; [discriminate E|].
    exact (H2 v r' E).
Qed.

(** Decoders: run a reader program on a whole packet. *)
Lemma decode_all {A} (p : ST t A) R b v :
  reads_all p R -> decode p b = Ok v <-> R v b.
Proof.
  intros Hp. unfold decode, run_result, new. destruct (Hp [] b) as [H1 H2]. cbn in H1, H2. split.
  - destruct (p _) as [r r'] eqn:E; simpl. intros ->. by eapply H2.
  - intros HR. change (len []) with 0 in H1. by rewrite (H1 v HR).
Qed.

Lemma decode_all_inv {A} (p : ST t A) R b v : reads_all p R -> decode p b = Ok v -> R v b.
Proof. intros Hp. by apply decode_all. Qed.

Lemma decode_prefix {A} (p : ST t A) R b v :
  reads p R -> decode p b = Ok v <-> exists b1 b2, R v b1 /\ b = b1 ++ b2.
Proof.
  intros Hp. unfold decode, run_result, new. destruct (Hp [] b) as [H1 H2]. cbn in H1, H2. split.
  - destruct (p _) as [r r'] eqn:E; simpl. intros ->. destruct (H2 _ _ eq_refl); naive_solver.
  - intros (b1 & b2 & HR & ->). change (len []) with 0 in H1. by rewrite (H1 v b1 b2 HR eq_refl).
Qed.

Lemma decode_prefix_inv {A} (p : ST t A) R b v :
  reads p R -> decode p b = Ok v -> exists b1 b2, R v b1 /\ b = b1 ++ b2.
Proof. intros Hp. by apply decode_prefix. Qed.
End Reads.

(** ** Loops over elements *)

Section Loops.

(** [for (const x of xs) { ... }] *)
Fixpoint for_each {S A} (f : A -> ST S unit) (xs : list A) : ST S unit :=
  match xs with
  | [] => mret tt
  | x :: xs => f x;; for_each f xs
  end.

Lemma respects_for_each {S A} (R : S -> S -> Prop) `{!PreOrder R} (f : A -> ST S unit) xs :
  (forall x, respects R (f x)) -> respects R (for_each f xs).
Proof. intros Hf. induction xs as [|x xs IH]; [by apply respects_ret|]. by apply respects_bind. Qed.

Lemma for_each_ok {S A} (f : A -> ST S unit) xs s : (forall x s, exists s', f x s = (Ok tt, s')) -> exists s', for_each f xs s = (Ok tt, s').
Proof.
  intros Hf. revert s. induction xs as [|x xs IH]; intros s; [by exists s|]. cbn [for_each].
  destruct (Hf x s) as [s1 E]. rewrite (ST_bind_ok _ _ _ _ _ E). apply IH.
Qed.

(** [for (let i = 0; i < count; i++) out.push(p())] *)
Fixpoint read_n {S A} (p : ST S A) (n : nat) : ST S (list A) :=
  match n with
  | O => mret []
  | S n => x ← p; xs ← read_n p n; mret (x :: xs)
  end.

Fixpoint lconcat (ls : list layout) : layout :=
  match ls with
  | [] => Some []
  | l :: ls => l ⊕ lconcat ls
  end.

Lemma writes_for_each {A} (f : A -> ST BinaryWriter.t unit) g xs :
  (forall x, writes (f x) (g x)) -> writes (for_each f xs) (lconcat (map g xs)).
Proof.
  intros H. induction xs as [|x xs IH]; simpl; [apply writes_ret|].
  by apply writes_seq.
Qed.

Lemma reads_read_n {A} (p : ST BinaryReader.t A) g n :
  reads p (fun v b => g v = Some b) ->
  reads (read_n p n) (fun l b => length l = n /\ lconcat (map g l) = Some b).
Proof.
  intros Hp. induction n as [|n IH]; simpl.
  - eapply reads_iff; [|apply reads_ret]. intros l b. simpl. split.
    + by intros [-> ->].
    + destruct l; simpl; naive_solver.
  - eapply reads_iff; [|apply reads_bind; [exact Hp|]; intros v;
      apply reads_bind; [exact IH|]; intros l; apply reads_ret].
    intros l b. simpl. split.
    + intros (v & b1 & b2 & Hg & (l' & b3 & b4 & [<- Hl] & [-> ->] & ->) & ->).
      simpl. rewrite app_nil_r. split; [done|]. apply lseq_Some. eauto.
    + intros [Hlen Hl]. destruct l as [|v l]; [done|]. simpl in *.
      apply lseq_Some in Hl as (y & z & Hy & Hz & ->).
      exists v, y, z. split; [done|]. split; [|done].
      exists l, z, []. rewrite app_nil_r. naive_solver.
Qed.
End Loops.

(** [read_layout]: an element of fixed length, as a layout. *)
Definition raw (n : Z) (b : bytes) : layout := if len b =? n then Some b else None.

Lemma raw_Some n b b' : raw n b = Some b' <-> len b = n /\ b' = b.
Proof. unfold raw. destruct (Z.eqb_spec (len b) n); naive_solver. Qed.

Lemma reads_raw n : 0 <= n -> reads (BinaryReader.bytes_ n) (fun v b => raw n v = Some b).
Proof.
  intros. eapply reads_iff; [|by apply reads_bytes]. intros v b. rewrite raw_Some. naive_solver.
Qed.

Lemma lconcat_raw n l b :
  lconcat (map (raw n) l) = Some b <-> Forall (fun x => len x = n) l /\ b = concat l.
Proof.
  revert b. induction l as [|x l IH]; intros b; simpl.
  - split; [intros [= <-]; by split | by intros [_ ->]].
  - rewrite lseq_Some, Forall_cons. setoid_rewrite raw_Some. setoid_rewrite IH. naive_solver.
Qed.

Lemma len_concat n (l : list bytes) : Forall (fun x => len x = n) l -> len (concat l) = len l * n.
Proof.
  induction 1 as [|x l Hx _ IH]; [done|]. cbn [concat]. rewrite len_app, IH, len_cons. lia.
Qed.

(** A byte string of the right length is a sequence of equal pieces. *)
Lemma chunks_exist n k (b : bytes) :
  0 <= n -> len b = Z.of_nat k * n ->
  exists l, length l = k /\ Forall (fun x => len x = n) l /\ b = concat l.
Proof.
  intros Hn. revert b. induction k as [|k IH]; intros b Hb.
  - exists []. split; [done|]. split; [done|]. apply len_nil_inv. lia.
  - destruct (IH (drop (Z.to_nat n) b)) as (l & Hk & Hl & E).
    + unfold len in *. rewrite length_drop. lia.
    + exists (take (Z.to_nat n) b :: l). split; [simpl; lia|]. split.
      * constructor; [|done]. unfold len in *. rewrite length_take. lia.
      * cbn [concat]. by rewrite <- E, take_drop.
Qed.

(** [buf.slice(start, start + n)] for consecutive entries of [n] bytes. *)
Lemma slice_entries n (l : list bytes) pre rest :
  0 <= n -> Forall (fun x => len x = n) l ->
  map (fun i => subarray (pre ++ concat l ++ rest) (len pre + Z.of_nat i * n)
                         (len pre + Z.of_nat i * n + n)) (seq 0 (length l)) = l.
Proof.
  intros Hn Hl. revert pre. induction Hl as [|x l Hx _ IH]; intros pre; [done|].
  cbn [length seq map concat]. f_equal.
  - rewrite <- app_assoc. apply subarray_app_mid; lia.
  - rewrite <- seq_shift, map_map. etransitivity; [|apply (IH (pre ++ x))].
    apply map_ext. intros i. rewrite <- !app_assoc, len_app, Hx.
    f_equal; lia.
Qed.

Lemma reads_lift {A} (r : result A) : reads (lift r) (fun v b => r = Ok v /\ b = []).
Proof.
  destruct r as [a|e].
  - eapply reads_iff; [|apply (reads_ret a)]. naive_solver.
  - eapply reads_iff; [|apply (reads_throw e)]. naive_solver.
Qed.

(** A part encoded by another encoder. *)
Lemma writes_lift (r : result bytes) (l : layout) :
  (forall b, r = Ok b <-> l = Some b) ->
  writes (b ← lift r; BinaryWriter.bytes_ b) l.
Proof.
  intros Hr w Hw. destruct l as [b|].
  - assert (r = Ok b) as -> by by apply Hr. by apply writes_bytes.
  - destruct r as [b|e]; [by pose proof (proj1 (Hr b) eq_refl)|]. by exists e, w.
Qed.

(** An encoder that checks its argument before it writes. *)
Lemma guard_encode_Ok c e p l b :
  writes p l ->
  (throw_if c e;; BinaryWriter.encode p) = Ok b <-> lguard (negb c) ⊕ l = Some b.
Proof.
  intros Hp. destruct c; simpl; [done|]. rewrite (encode_Ok p l) by done.
  unfold lseq. simpl. by destruct l.
Qed.

(** [solve_reads]: the relation of a straight-line decoder body. *)
Ltac solve_reads :=
  repeat first
    [ apply reads_all_ret_done
    | apply reads_all_rest_ret
    | apply reads_all_rest_check
    | apply reads_all_rest_lift
    | apply reads_all_rest
    | apply reads_ret
    | apply reads_throw_when
    | apply reads_u8 | apply reads_u16le | apply reads_u32le | apply reads_u64le
    | apply reads_raw; vm_compute; discriminate
    | solve [eauto with fips]
    | apply reads_all_bind; [|intros ?]
    | apply reads_bind; [|intros ?] ].

(** Take a computed relation, or a layout equation, apart. *)
Ltac layout_inv :=
  repeat match goal with
  | H : exists _, _ |- _ => destruct H as [? H]
  | H : _ /\ _ |- _ => destruct H
  | H : _ ⊕ _ = Some _ |- _ => apply lseq_Some in H
  | H : lguard _ = Some _ |- _ => apply lguard_Some in H
  | H : raw _ _ = Some _ |- _ => apply raw_Some in H
  | H : Some _ = Some _ |- _ => injection H as H
  end; subst.

(** Name the parts of a right-nested layout equation. *)
Ltac layout_parts H :=
  repeat (lazymatch type of H with
          | _ ⊕ _ = Some _ =>
              let x := fresh "part" in let Hx := fresh "Hpart" in
              apply lseq_Some in H as (x & ? & Hx & H & ->)
          end).

(** Prove a layout equation from the equations of its parts. *)
Ltac layout_solve :=
  repeat match goal with
  | H : field ?n ?v = Some _ |- context [field ?n ?v] => rewrite H
  | H : ?l = Some _ |- context [?l] => rewrite H
  end;
  unfold lseq, lguard, raw; cbn [mbind option_bind]; rewrite ?app_nil_r, <- ?app_assoc; try done.

Lemma field_range n v b : field n v = Some b -> 0 <= v < 256 ^ Z.of_nat n.
Proof. by intros [? _]%field_Some. Qed.

Lemma field_len n v b : field n v = Some b -> len b = Z.of_nat n.
Proof. intros [_ ->]%field_Some. apply len_le_bytes. Qed.

(** Add the range and the length of every field in the context. *)
Ltac field_facts :=
  repeat match goal with
  | H : field ?n ?v = Some ?b |- _ =>
      lazymatch goal with
      | H' : 0 <= v < 256 ^ Z.of_nat n |- _ => fail
      | _ => pose proof (field_range n v b H); pose proof (field_len n v b H)
      end
  end.

(** Prove that a computed reader relation holds, from the equations of the
    parts in the context: the values first, then the parts, then the byte
    strings. *)
Ltac layout_back :=
  repeat match goal with |- exists _, _ => eexists | |- _ /\ _ => split end;
  try match goal with
      | |- @eq (list _) _ _ => idtac
      | |- @eq (option _) _ _ => idtac
      | |- @eq bool _ _ => idtac
      | |- @eq _ _ _ => reflexivity
      end;
  try (apply raw_Some; split; [eassumption|reflexivity]);
  try match goal with |- @eq (option _) _ _ => eassumption end.

Ltac layout_close :=
  try match goal with
      | |- @eq bool _ _ => cbn; decide_if; reflexivity
      end;
  try match goal with |- @eq (list _) _ _ => reflexivity end;
  try match goal with
      | |- @eq (list _) _ _ => by rewrite ?app_nil_r, <- ?app_assoc, ?app_nil_r
      end;
  try lia; try done.

(** ** A writer program read back

    Any sequence of primitive writes is read back by the same sequence of
    primitive reads. *)

Inductive prim := U8 (v : Z) | U16 (v : Z) | U32 (v : Z) | U64 (v : Z) | Raw (b : bytes).

Definition write_prim (f : prim) : ST BinaryWriter.t unit :=
  match f with
  | U8 v => BinaryWriter.u8 v
  | U16 v => BinaryWriter.u16le v
  | U32 v => BinaryWriter.u32le v
  | U64 v => BinaryWriter.u64le v
  | Raw b => BinaryWriter.bytes_ b
  end.

Definition read_prim (f : prim) : ST BinaryReader.t prim :=
  match f with
  | U8 _ => v ← BinaryReader.u8; mret (U8 v)
  | U16 _ => v ← BinaryReader.u16le; mret (U16 v)
  | U32 _ => v ← BinaryReader.u32le; mret (U32 v)
  | U64 _ => v ← BinaryReader.u64le; mret (U64 v)
  | Raw b => v ← BinaryReader.bytes_ (len b); mret (Raw v)
  end.

Definition layout_prim (f : prim) : layout :=
  match f with
  | U8 v => field 1 v
  | U16 v => field 2 v
  | U32 v => field 4 v
  | U64 v => field 8 v
  | Raw b => Some b
  end.

Fixpoint read_prims (fs : list prim) : ST BinaryReader.t (list prim) :=
  match fs with
  | [] => mret []
  | f :: fs => x ← read_prim f; xs ← read_prims fs; mret (x :: xs)
  end.

Lemma writes_prim f : writes (write_prim f) (layout_prim f).
Proof. destruct f; simpl; eauto with fips. Qed.

(** Same constructor, and same length for a raw part. *)
Definition same_shape (f g : prim) : Prop :=
  match f, g with
  | U8 _, U8 _ | U16 _, U16 _ | U32 _, U32 _ | U64 _, U64 _ => True
  | Raw a, Raw b => len a = len b
  | _, _ => False
  end.

Lemma reads_prim f :
  reads (read_prim f) (fun g b => same_shape f g /\ layout_prim g = Some b).
Proof.
  destruct f; simpl;
    (eapply reads_iff;
      [|apply reads_bind;
         [solve [apply reads_u8 | apply reads_u16le | apply reads_u32le | apply reads_u64le
                | apply reads_bytes; apply len_nonneg]
         | intros ?; apply reads_ret]]);
    intros g b'; simpl; (split;
      [ intros (v0 & b1 & b2 & H1 & [-> ->] & ->); rewrite app_nil_r; simpl; naive_solver
      | intros [Hs Hg]; destruct g; try done; simpl in *; eexists _, b', [];
        rewrite app_nil_r; naive_solver ]).
Qed.

Lemma reads_prims fs :
  reads (read_prims fs)
    (fun gs b => Forall2 same_shape fs gs /\ lconcat (map layout_prim gs) = Some b).
Proof.
  induction fs as [|f fs IH]; simpl.
  - eapply reads_iff; [|apply reads_ret]. intros gs b. split.
    + by intros [-> ->].
    + intros [H Hb]. inversion H; subst. simpl in Hb. naive_solver.
  - eapply reads_iff; [|apply reads_bind; [apply reads_prim|]; intros v;
      apply reads_bind; [exact IH|]; intros l; apply reads_ret].
    intros gs b. simpl. split.
    + intros (v & b1 & b2 & [Hs Hg] & (l' & b3 & b4 & [Hl Hc] & [-> ->] & ->) & ->).
      rewrite app_nil_r. split; [by constructor|]. apply lseq_Some. eauto.
    + intros [Hf Hl]. inversion Hf as [|? g ? gs' Hs Hfs]; subst. simpl in Hl.
      apply lseq_Some in Hl as (y & z & Hy & Hz & ->).
      exists g, y, z. split; [done|]. split; [|done].
      exists gs', z, []. rewrite app_nil_r. naive_solver.
Qed.

Lemma same_shape_refl fs : Forall2 same_shape fs fs.
Proof. induction fs as [|[]]; constructor; simpl; auto. Qed.

Definition prim_len (f : prim) : Z :=
  match f with U8 _ => 1 | U16 _ => 2 | U32 _ => 4 | U64 _ => 8 | Raw b => len b end.

Lemma layout_prim_len f b : layout_prim f = Some b -> len b = prim_len f.
Proof. destruct f; simpl; try (by intros [= ->]); intros H%field_len; exact H. Qed.

Lemma prims_len fs gs b c :
  Forall2 same_shape fs gs -> lconcat (map layout_prim fs) = Some b ->
  lconcat (map layout_prim gs) = Some c -> len b = len c.
Proof.
  intros H. revert b c. induction H as [|f g fs gs Hs _ IH]; intros b c; [by intros [= <-] [= <-]|].
  cbn [map lconcat]. intros (x & y & Hx & Hy & ->)%lseq_Some (x' & y' & Hx' & Hy' & ->)%lseq_Some.
  rewrite !len_app, (IH y y') by done. apply layout_prim_len in Hx, Hx'.
  destruct f, g; try done; simpl in *; lia.
Qed.

(** What a sequence of primitive writes puts down, the same sequence of
    primitive reads takes up, whatever bytes follow; a write sequence fails only
    where a value is out of its range; and no strict prefix of the bytes written
    can be read: the reader throws instead of inventing data. *)
Lemma codec_roundtrip (fs : list prim) :
  match BinaryWriter.encode (for_each write_prim fs) with
  | Ok b =>
      (forall rest, BinaryReader.decode (read_prims fs) (b ++ rest) = Ok fs) /\
      (forall n, Z.of_nat n < len b -> is_ok (BinaryReader.decode (read_prims fs) (take n b)) = false)
  | Throw _ => exists f, f ∈ fs /\ layout_prim f = None
  end.
Proof.
  pose proof (encode_writes _ _ (writes_for_each write_prim layout_prim fs writes_prim)) as H.
  destruct (lconcat (map layout_prim fs)) as [b|] eqn:E.
  - rewrite H. split.
    + intros rest. apply (decode_prefix _ _ _ _ (reads_prims fs)). exists b, rest.
      split; [split; [apply same_shape_refl|done]|done].
    + intros n Hn. destruct (BinaryReader.decode _ _) as [gs|] eqn:D; [|done]. exfalso.
      apply (decode_prefix _ _ _ _ (reads_prims fs)) in D as (b1 & b2 & [Hs Hl] & Eb).
      pose proof (prims_len _ _ _ _ Hs E Hl) as El.
      assert (Ht : len (take n b) = len b1 + len b2) by (by rewrite Eb, len_app).
      pose proof (len_nonneg b2). unfold len in *. rewrite length_take in Ht. lia.
  - destruct H as [e ->]. clear e. induction fs as [|f fs IH]; [done|].
    cbn [map lconcat] in E. destruct (layout_prim f) as [x|] eqn:Ef; [|exists f; split; [left|done]].
    destruct (lconcat _) as [y|]; [done|]. destruct (IH eq_refl) as (g & Hg & Hn).
    exists g. split; [by right|done].
Qed.
