(* ===== verification/Crypto.v ===== *)
(** * Cryptographic primitives

    [crypto/aead.ts], [crypto/kdf.ts] and [identity/index.ts]. The primitives
    themselves come from the [@noble] and [@scure] packages: they are the
    operations of the class [Noble], a parameter of every definition, and what
    the code relies on is stated by the law classes. [Toy] is a concrete
    instance of all of them, with which witnesses are evaluated. *)

From S2P Require Import Prelude Codec.

(** ** The packages' operations *)

Class Noble := {
  sha256 : bytes -> bytes;
  hmac_sha256 : bytes -> bytes -> bytes;
  hkdf_sha256 : bytes -> bytes -> bytes -> Z -> bytes;
  (** key, nonce, associated data, text *)
  chacha_encrypt : bytes -> bytes -> bytes -> bytes -> bytes;
  chacha_decrypt : bytes -> bytes -> bytes -> bytes -> result bytes;
  (** secp256k1, compressed points; they throw on an invalid scalar or point *)
  getPublicKey : bytes -> result bytes;
  getSharedSecret : bytes -> bytes -> result bytes;
  pointFromHex : bytes -> result unit;
  (** BIP-340: message, secret key; signature, message, x-only key *)
  schnorr_sign : bytes -> bytes -> result bytes;
  schnorr_verify : bytes -> bytes -> bytes -> bool;
  toHex : bytes -> string;
  fromHex : string -> result bytes;
}.

(** ** What the code relies on *)

Class HashLaws `{Noble} : Prop := {
  len_sha256 b : len (sha256 b) = 32;
  len_hmac k m : len (hmac_sha256 k m) = 32;
}.

(** ChaCha20-Poly1305 appends a 16-byte tag, decrypts what it encrypted, and
    accepts nothing else. *)
Class AeadLaws `{Noble} : Prop := {
  len_chacha k n a p : len (chacha_encrypt k n a p) = len p + 16;
  chacha_open_seal k n a p : chacha_decrypt k n a (chacha_encrypt k n a p) = Ok p;
  chacha_auth k n a c p : chacha_decrypt k n a c = Ok p -> c = chacha_encrypt k n a p;
}.

(** secp256k1: compressed keys are 33 bytes starting with 2 or 3; the shared
    point is the same from both sides, and its x-coordinate does not depend on
    the parity the peer's key is given. *)
Class DhLaws `{Noble} : Prop := {
  len_getPublicKey a p : getPublicKey a = Ok p -> len p = 33;
  getPublicKey_prefix a p : getPublicKey a = Ok p -> exists x, p = x02 :: x \/ p = x03 :: x;
  len_getSharedSecret a p s : getSharedSecret a p = Ok s -> len s = 33;
  getSharedSecret_ok a b pa pb : getPublicKey a = Ok pa -> getPublicKey b = Ok pb ->
    is_ok (getSharedSecret a pb) = true;
  getSharedSecret_comm a b pa pb : getPublicKey a = Ok pa -> getPublicKey b = Ok pb ->
    getSharedSecret a pb = getSharedSecret b pa;
  getSharedSecret_parity a x s : getSharedSecret a (x03 :: x) = Ok s ->
    exists s', getSharedSecret a (x02 :: x) = Ok s' /\ drop 1 s' = drop 1 s;
}.

(** A key of 33 bytes is read as a compressed point. *)
Class PointLaws `{Noble} : Prop := {
  getSharedSecret_point a p s : getSharedSecret a p = Ok s -> len p = 33 -> exists x, p = x02 :: x \/ p = x03 :: x;
}.

Class SchnorrLaws `{Noble} : Prop := {
  len_schnorr_sign m k s : schnorr_sign m k = Ok s -> len s = 64;
  schnorr_verify_sign m k s p : schnorr_sign m k = Ok s -> getPublicKey k = Ok p ->
    schnorr_verify s m (drop 1 p) = true;
}.

Class HexLaws `{Noble} : Prop := {
  fromHex_toHex b : fromHex (toHex b) = Ok b;
}.

Lemma toHex_inj `{HexLaws} a b : toHex a = toHex b -> a = b.
Proof.
  intros E. apply (f_equal fromHex) in E. rewrite !fromHex_toHex in E. by injection E.
Qed.

(** ** AEAD ([crypto/aead.ts]) *)

Section Aead.
Context `{Noble}.

Definition noiseNonce (counter : Z) : result bytes :=
  BinaryWriter.encode (BinaryWriter.bytes_ (replicate 4 x00);; BinaryWriter.u64le counter).

Definition aeadSeal (key : bytes) (counter : Z) (plaintext aad : bytes) : result bytes :=
  throw_if (negb (len key =? 32)) (Error "AEAD key must be 32 bytes");;
  nonce ← noiseNonce counter;
  Ok (chacha_encrypt key nonce aad plaintext).

Definition aeadOpen (key : bytes) (counter : Z) (ciphertext aad : bytes) : result bytes :=
  throw_if (negb (len key =? 32)) (Error "AEAD key must be 32 bytes");;
  nonce ← noiseNonce counter;
  chacha_decrypt key nonce aad ciphertext.

Lemma noiseNonce_Ok c n :
  noiseNonce c = Ok n <-> 0 <= c < 2 ^ 64 /\ n = replicate 4 x00 ++ le_bytes 8 c.
Proof.
  unfold noiseNonce. rewrite (encode_Ok _ (Some (replicate 4 x00) ⊕ field 8 c)).
  - rewrite lseq_Some. setoid_rewrite field_Some. naive_solver.
  - solve_writes.
Qed.

Lemma noiseNonce_ok c : 0 <= c < 2 ^ 64 -> noiseNonce c = Ok (replicate 4 x00 ++ le_bytes 8 c).
Proof. intros. by apply noiseNonce_Ok. Qed.

Lemma aeadSeal_Ok k c p a ct :
  aeadSeal k c p a = Ok ct <-> len k = 32 /\ 0 <= c < 2 ^ 64 /\
    ct = chacha_encrypt k (replicate 4 x00 ++ le_bytes 8 c) a p.
Proof.
  unfold aeadSeal. split.
  - intros E. result_inv. match goal with E : noiseNonce _ = _ |- _ => apply noiseNonce_Ok in E as [? ->] end.
    bool_split. done.
  - intros (Hk & Hc & ->). by rewrite Hk, noiseNonce_ok.
Qed.

Lemma aeadOpen_Ok k c ct a p :
  aeadOpen k c ct a = Ok p <-> len k = 32 /\ 0 <= c < 2 ^ 64 /\
    chacha_decrypt k (replicate 4 x00 ++ le_bytes 8 c) a ct = Ok p.
Proof.
  unfold aeadOpen. split.
  - intros E. result_inv. match goal with E : noiseNonce _ = _ |- _ => apply noiseNonce_Ok in E as [? ->] end.
    bool_split. done.
  - intros (Hk & Hc & Hd). by rewrite Hk, noiseNonce_ok.
Qed.

(** Opening is the exact inverse of sealing. *)
Lemma aeadOpen_iff_Seal `{!AeadLaws} k c ct a p :
  aeadOpen k c ct a = Ok p <-> aeadSeal k c p a = Ok ct.
Proof.
  rewrite aeadOpen_Ok, aeadSeal_Ok. split.
  - intros (? & ? & ?%chacha_auth). done.
  - intros (? & ? & ->). by rewrite chacha_open_seal.
Qed.

Lemma len_aeadSeal `{!AeadLaws} k c p a ct : aeadSeal k c p a = Ok ct -> len ct = len p + 16.
Proof. intros (? & ? & ->)%aeadSeal_Ok. apply len_chacha. Qed.
End Aead.

(** ** Key derivation ([crypto/kdf.ts]) *)

Section Kdf.
Context `{Noble}.

Definition hkdfDerive (ikm salt info : bytes) (n : Z) : bytes := hkdf_sha256 ikm salt info n.

Definition concatBytes (ls : list bytes) : bytes := concat ls.

(** Returns the initiator's and the responder's transmit keys. *)
Definition deriveSessionKeys (sharedSecret initiatorPub responderPub info : bytes) : bytes * bytes :=
  let salt := concatBytes [initiatorPub; responderPub] in
  let out := hkdfDerive sharedSecret salt info 64 in
  (subarray out 0 32, subarray out 32 64).
End Kdf.
