(* ===== verification/Toy.v ===== *)
(** * A concrete instance of the cryptographic interface

    Arithmetic stand-ins for the operations of the [@noble] packages that meet
    every law of [Crypto]. They have no security; they serve to evaluate the
    model on concrete inputs and to show that the laws can hold together. *)

From S2P Require Import Prelude Codec Crypto.

Module Toy.

Definition digest (b : bytes) : bytes := le_bytes 32 (1 + len b + 3 * le_val b).

Definition tag (k n a p : bytes) : bytes :=
  le_bytes 16 (1 + 3 * le_val k + 5 * le_val n + 7 * le_val a + 11 * le_val p).

Definition encrypt (k n a p : bytes) : bytes := p ++ tag k n a p.

Definition decrypt (k n a c : bytes) : result bytes :=
  let p := take (length c - 16) c in
  if decide (c = encrypt k n a p) then Ok p else Throw (Error "invalid tag").

Definition point (v : Z) : bytes := le_bytes 32 v.

Definition public (sk : bytes) : result bytes :=
  if len sk =? 32 then
    Ok ((if Z.even (le_val sk) then x02 else x03) :: point (7 * le_val sk))
  else Throw (Error "invalid private key").

Definition shared (sk pk : bytes) : result bytes :=
  match pk with
  | p :: x => if bool_decide (p = x02 \/ p = x03) then Ok (x02 :: point (le_val sk * le_val x))
              else Throw (Error "invalid point")
  | [] => Throw (Error "invalid point")
  end.

Definition nibble (n : N) : Ascii.ascii :=
  Ascii.ascii_of_N (if (n <? 10)%N then 48 + n else 87 + n)%N.

Fixpoint hex (b : bytes) : string :=
  match b with
  | [] => EmptyString
  | x :: b => String (nibble (Byte.to_N x / 16)) (String (nibble (Byte.to_N x mod 16)) (hex b))
  end.

Definition unnibble (c : Ascii.ascii) : option N :=
  let n := Ascii.N_of_ascii c in
  if ((48 <=? n) && (n <=? 57))%N then Some (n - 48)%N
  else if ((97 <=? n) && (n <=? 102))%N then Some (n - 87)%N
  else if ((65 <=? n) && (n <=? 70))%N then Some (n - 55)%N
  else None.

Fixpoint unhex (s : string) : result bytes :=
  match s with
  | EmptyString => Ok []
  | String c (String d s) =>
      match unnibble c, unnibble d with
      | Some x, Some y => b ← unhex s; Ok (z2b (Z.of_N (16 * x + y)) :: b)
      | _, _ => Throw (Error "invalid hex")
      end
  | _ => Throw (Error "odd hex")
  end.

#[export] Instance noble : Noble := {
  sha256 := digest;
  hmac_sha256 k m := digest (k ++ m);
  hkdf_sha256 ikm salt info n := le_bytes (Z.to_nat n) (le_val (ikm ++ salt ++ info));
  chacha_encrypt := encrypt;
  chacha_decrypt := decrypt;
  getPublicKey := public;
  getSharedSecret := shared;
  pointFromHex p := throw_if (negb (len p =? 33)) (Error "bad point");
  schnorr_sign m k := Ok (le_bytes 64 (le_val m + le_val (point (7 * le_val k))));
  schnorr_verify s m x := bool_decide (s = le_bytes 64 (le_val m + le_val x));
  toHex := hex;
  fromHex := unhex;
}.

Lemma le_val_point v : le_val (point v) = v mod 256 ^ 32.
Proof.
  unfold point. rewrite <- le_bytes_mod. apply le_val_bytes.
  apply Z.mod_pos_bound. apply Z.pow_pos_nonneg; lia.
Qed.

#[local] Opaque le_bytes.

#[export] Instance hash_laws : HashLaws.
Proof. split; intros; apply len_le_bytes. Qed.

#[export] Instance aead_laws : AeadLaws.
Proof.
  split; intros; simpl in *.
  - unfold encrypt, tag. by rewrite len_app, len_le_bytes.
  - unfold decrypt. assert (take (length (encrypt k n a p) - 16) (encrypt k n a p) = p) as ->.
    { unfold encrypt, tag. rewrite length_app, length_le_bytes.
      replace (length p + 16 - 16)%nat with (length p) by lia. apply take_app_length. }
    by rewrite decide_True.
  - unfold decrypt in *. case_decide; [|discriminate]. congruence.
Qed.

#[export] Instance point_laws : PointLaws.
Proof.
  split; simpl; unfold shared. intros a [|c x] s; [discriminate|]. case_bool_decide as Hc; [|discriminate]. intros _ _. exists x.
  destruct Hc as [-> | ->]; auto.
Qed.

#[export] Instance dh_laws : DhLaws.
Proof.
  split; simpl; unfold public, shared.
  - intros a p. destruct (len a =? 32); [|discriminate]. intros [= <-].
    unfold point. by rewrite len_cons, len_le_bytes.
  - intros a p. destruct (len a =? 32); [|discriminate]. intros [= <-].
    destruct (Z.even (le_val a)); eauto.
  - intros a p s. destruct p as [|c x]; [discriminate|]. case_bool_decide; [|discriminate].
    intros [= <-]. unfold point. by rewrite len_cons, len_le_bytes.
  - intros a b pa pb _. destruct (len b =? 32); [|discriminate]. intros [= <-].
    destruct (Z.even (le_val b)); done.
  - intros a b pa pb. destruct (len a =? 32), (len b =? 32); try discriminate.
    intros [= <-] [= <-]. rewrite !le_val_point.
    assert (point (le_val a * ((7 * le_val b) mod 256 ^ 32)) =
            point (le_val b * ((7 * le_val a) mod 256 ^ 32))) as E.
    { unfold point. rewrite <- le_bytes_mod, <- (le_bytes_mod _ (le_val b * _)).
      change (Z.of_nat 32) with 32. f_equal.
      rewrite !Z.mul_mod_idemp_r by (apply Z.pow_nonzero; lia). f_equal. lia. }
    destruct (Z.even (le_val a)), (Z.even (le_val b)); simpl; by rewrite E.
  - intros a x s. simpl. intros [= <-]. eauto.
Qed.

#[export] Instance schnorr_laws : SchnorrLaws.
Proof.
  split; simpl.
  - intros m k s [= <-]. apply len_le_bytes.
  - intros m k s p [= <-]. unfold public. destruct (len k =? 32); [|discriminate].
    intros [= <-]. by apply bool_decide_eq_true.
Qed.

#[export] Instance hex_laws : HexLaws.
Proof.
  split. simpl. induction b as [|x b IH]; [done|]. cbn [hex unhex].
  assert (forall r, match unnibble (nibble (Byte.to_N x / 16)),
              unnibble (nibble (Byte.to_N x mod 16)) with
    | Some u, Some v => b0 ← r; Ok (z2b (Z.of_N (16 * u + v)) :: b0)
    | _, _ => Throw (Error "invalid hex") end = (b0 ← r; Ok (x :: b0))) as E
    by (intros; destruct x; reflexivity).
  rewrite E, IH. done.
Qed.

(** Secret keys for witnesses. *)
Definition key (n : Z) : bytes := le_bytes 32 n.
End Toy.
