(* ===== verification/NodeAddr.v ===== *)
(** * Node addresses

    [nodeaddr/index.ts]: derivation of the 16-byte address of a public key, its
    hexadecimal form, and the lexicographic order that root election and route
    tie-breaks use. *)

From S2P Require Import Prelude Codec Crypto Toy.

Definition NODE_ADDR_LENGTH : Z := 16.
Definition X_ONLY_PUBKEY_LENGTH : Z := 32.
Definition COMPRESSED_PUBKEY_LENGTH : Z := 33.

Abbreviation NodeAddr := bytes.

Section NodeAddr.
Context `{Noble}.

Definition deriveNodeAddr (pubkey : bytes) : result NodeAddr :=
  xOnly ← (if len pubkey =? X_ONLY_PUBKEY_LENGTH then Ok pubkey
           else if len pubkey =? COMPRESSED_PUBKEY_LENGTH then
             let prefix := byte_at pubkey 0 in
             if (negb (prefix =? 0x02) && negb (prefix =? 0x03))%bool
             then Throw (Error "invalid compressed pubkey prefix")
             else Ok (subarray_from pubkey 1)
           else Throw (Error "expected 32-byte x-only or 33-byte compressed pubkey"));
  Ok (subarray (sha256 xOnly) 0 NODE_ADDR_LENGTH).

Definition nodeAddrToHex (addr : NodeAddr) : result string :=
  throw_if (negb (len addr =? NODE_ADDR_LENGTH)) (Error "NodeAddr must be 16 bytes");;
  Ok (toHex addr).

Definition nodeAddrFromHex (hex : string) : result NodeAddr :=
  b ← fromHex hex;
  throw_if (negb (len b =? NODE_ADDR_LENGTH)) (Error "NodeAddr hex must decode to 16 bytes");;
  Ok b.
End NodeAddr.

Definition nodeAddrFromSlice (slice : bytes) : result NodeAddr :=
  throw_if (negb (len slice =? NODE_ADDR_LENGTH)) (Error "NodeAddr slice must be 16 bytes");;
  Ok slice.

(** The loop of [compareNodeAddr], from the index where the rests start. *)
Fixpoint compare_loop (a b : bytes) : Z :=
  match a, b with
  | x :: a, y :: b =>
      if b2z x <? b2z y then -1
      else if b2z x >? b2z y then 1
      else compare_loop a b
  | _, _ => 0
  end.

Definition compareNodeAddr (a b : NodeAddr) : result Z :=
  throw_if (negb (len a =? NODE_ADDR_LENGTH) || negb (len b =? NODE_ADDR_LENGTH))
    (Error "NodeAddr must be 16 bytes");;
  Ok (compare_loop a b).

(** The order as a test, on arrays known to be addresses. *)
Definition addr_ltb (a b : NodeAddr) : bool := compare_loop a b <? 0.

(** The big-endian value of an array: the abstract meaning of the order. *)
Fixpoint be_val (l : bytes) : Z :=
  match l with
  | [] => 0
  | b :: l => b2z b * 256 ^ len l + be_val l
  end.

Lemma be_val_range l : 0 <= be_val l < 256 ^ len l.
Proof.
  induction l as [|b l IH]; [vm_compute; split; congruence|].
  rewrite len_cons, Z.pow_add_r by (pose proof (len_nonneg l); lia).
  pose proof (b2z_range b). simpl be_val. change (256 ^ 1) with 256. nia.
Qed.

Lemma compare_loop_be a b :
  length a = length b -> compare_loop a b = Z.sgn (be_val a - be_val b).
Proof.
  revert b. induction a as [|x a IH]; intros [|y b] Hl; try done.
  injection Hl as Hl. simpl. assert (len a = len b) as El by (unfold len; lia).
  rewrite El, Z.gtb_ltb. pose proof (be_val_range a). pose proof (be_val_range b). rewrite El in *.
  assert (0 < 256 ^ len b) by (apply Z.pow_pos_nonneg; [lia|apply len_nonneg]).
  destruct (Z.ltb_spec (b2z x) (b2z y)); [symmetry; apply Z.sgn_neg_iff; nia|].
  destruct (Z.ltb_spec (b2z y) (b2z x)); [symmetry; apply Z.sgn_pos_iff; nia|].
  rewrite IH by done. f_equal. assert (b2z x = b2z y) as -> by lia. lia.
Qed.

Lemma be_val_inj a b : length a = length b -> be_val a = be_val b -> a = b.
Proof.
  revert b. induction a as [|x a IH]; intros [|y b] Hl; try done.
  injection Hl as Hl. simpl. assert (len a = len b) as El by (unfold len; lia).
  rewrite El. pose proof (be_val_range a). pose proof (be_val_range b). rewrite El in *.
  assert (0 < 256 ^ len b) by (apply Z.pow_pos_nonneg; [lia|apply len_nonneg]).
  intros E. assert (b2z x = b2z y) as Exy by nia.
  apply b2z_inj in Exy as ->. f_equal. apply IH; [done|]. lia.
Qed.

Lemma addr_ltb_be a b : length a = length b -> addr_ltb a b = (be_val a <? be_val b).
Proof.
  intros Hl. unfold addr_ltb. rewrite compare_loop_be by done.
  destruct (Z.ltb_spec (be_val a) (be_val b)).
  - rewrite Z.sgn_neg by lia. done.
  - destruct (Z.ltb_spec (Z.sgn (be_val a - be_val b)) 0) as [Hs|]; [|done].
    apply Z.sgn_neg_iff in Hs. lia.
Qed.

Lemma compareNodeAddr_Ok a b c :
  compareNodeAddr a b = Ok c <-> len a = 16 /\ len b = 16 /\ c = Z.sgn (be_val a - be_val b).
Proof.
  unfold compareNodeAddr, throw_if, NODE_ADDR_LENGTH.
  destruct (Z.eqb_spec (len a) 16), (Z.eqb_spec (len b) 16); simpl;
    try (split; [discriminate|lia]).
  rewrite compare_loop_be by (unfold len in *; lia). naive_solver.
Qed.

Lemma len_deriveNodeAddr `{HashLaws} pk a : deriveNodeAddr pk = Ok a -> len a = 16.
Proof.
  unfold deriveNodeAddr. intros (x & _ & E)%result_bind_ok. injection E as <-.
  unfold NODE_ADDR_LENGTH. rewrite len_subarray; rewrite ?len_sha256; lia.
Qed.

Lemma nodeAddrToHex_Ok `{Noble} a s : nodeAddrToHex a = Ok s <-> len a = 16 /\ s = toHex a.
Proof.
  unfold nodeAddrToHex, throw_if, NODE_ADDR_LENGTH.
  destruct (Z.eqb_spec (len a) 16); simpl; naive_solver.
Qed.

(** ** Coordinate lists

    A count and that many addresses, as every message that carries coordinates
    has them. *)

Definition coords_layout (l : list bytes) : layout :=
  field 2 (len l) ⊕ lconcat (map (raw 16) l).

Lemma coords_layout_Some l b :
  coords_layout l = Some b <->
    len l < 65536 /\ Forall (fun x => len x = 16) l /\ b = le_bytes 2 (len l) ++ concat l.
Proof.
  unfold coords_layout. rewrite lseq_Some. setoid_rewrite field_Some.
  setoid_rewrite lconcat_raw. change (256 ^ Z.of_nat 2) with 65536.
  pose proof (len_nonneg l). naive_solver.
Qed.

Lemma coords_layout_len l b : coords_layout l = Some b -> len b = 2 + len l * 16.
Proof.
  intros (_ & Hl & ->)%coords_layout_Some. by rewrite len_app, len_le_bytes, (len_concat 16).
Qed.

Lemma writes_addr addr e :
  writes (throw_when (negb (len addr =? 16)) e;; BinaryWriter.bytes_ addr) (raw 16 addr).
Proof.
  eapply writes_ext; [|solve_writes]. unfold raw, lseq, lguard.
  by destruct (len addr =? 16).
Qed.

#[export] Hint Resolve writes_addr : fips.

Lemma writes_coord_list l e :
  writes (BinaryWriter.u16le (len l);;
          for_each (fun addr => throw_when (negb (len addr =? 16)) e;; BinaryWriter.bytes_ addr) l)
         (coords_layout l).
Proof.
  apply writes_seq; [apply writes_u16le|]. apply writes_for_each. intros. apply writes_addr.
Qed.

Lemma reads_coord_list {p} :
  reads p (fun v b => raw 16 v = Some b) ->
  reads (count ← BinaryReader.u16le; read_n p (Z.to_nat count)) (fun l b => coords_layout l = Some b).
Proof.
  intros Hp. eapply reads_iff; [|apply reads_bind; [apply reads_u16le|]; intros n;
    apply reads_read_n; exact Hp].
  intros l b. unfold coords_layout. split.
  - intros (n & b1 & b2 & Hn & [Hl Hb] & ->). apply lseq_Some. exists b1, b2.
    split; [|done]. pose proof (field_range _ _ _ Hn). replace (len l) with n; [done|].
    unfold len. lia.
  - intros (b1 & b2 & Hn & Hb & ->)%lseq_Some. exists (len l), b1, b2. split; [done|].
    split; [|done]. split; [unfold len; lia|done].
Qed.

(** ** Theorems *)

(** [compareNodeAddr] is a total order on addresses, the order of their
    big-endian values: it fails exactly on arrays that are not addresses, returns
    0 exactly for equal addresses, is antisymmetric and transitive; and the
    hexadecimal form of an address determines it. *)
Lemma address_order `{HexLaws} :
  (forall a b, is_ok (compareNodeAddr a b) = true <-> len a = 16 /\ len b = 16) /\
  (forall a b c, compareNodeAddr a b = Ok c ->
     (c = 0 <-> a = b) /\ (c < 0 <-> be_val a < be_val b) /\ compareNodeAddr b a = Ok (- c)) /\
  (forall a b c x y, compareNodeAddr a b = Ok x -> compareNodeAddr b c = Ok y -> x <= 0 -> y <= 0 ->
     exists z, compareNodeAddr a c = Ok z /\ z <= 0) /\
  (forall a s, nodeAddrToHex a = Ok s -> nodeAddrFromHex s = Ok a).
Proof.
  split; [|split; [|split]].
  - intros a b. destruct (compareNodeAddr a b) as [c|e] eqn:E; simpl.
    + apply compareNodeAddr_Ok in E. naive_solver.
    + split; [done|]. intros [Ha Hb].
      by rewrite (proj2 (compareNodeAddr_Ok a b _) (conj Ha (conj Hb eq_refl))) in E.
  - intros a b c (Ha & Hb & ->)%compareNodeAddr_Ok. split; [|split].
    + rewrite Z.sgn_null_iff. split; [|intros ->; lia].
      intros E. apply be_val_inj; [unfold len in *; lia|lia].
    + pose proof (Z.sgn_spec (be_val a - be_val b)). lia.
    + apply compareNodeAddr_Ok. split; [done|]. split; [done|]. rewrite <- Z.sgn_opp. f_equal. lia.
  - intros a b c x y (Ha & Hb & ->)%compareNodeAddr_Ok (_ & Hc & ->)%compareNodeAddr_Ok Hx Hy.
    eexists. split; [by apply compareNodeAddr_Ok|]. pose proof (Z.sgn_spec (be_val a - be_val b)).
    pose proof (Z.sgn_spec (be_val b - be_val c)). pose proof (Z.sgn_spec (be_val a - be_val c)). lia.
  - intros a s (Hl & ->)%nodeAddrToHex_Ok. unfold nodeAddrFromHex, NODE_ADDR_LENGTH.
    rewrite fromHex_toHex. cbn [mbind result_bind]. apply guard_Ok. by rewrite Hl.
Qed.

(** ** Example *)

#[local] Existing Instances Toy.noble Toy.hex_laws.

Lemma address_order_witness :
  nodeAddrToHex (replicate 16 xab) = Ok "abababababababababababababababab"%string /\
  nodeAddrFromHex "abababababababababababababababab" = Ok (replicate 16 xab).
Proof.
  split; [vm_compute; reflexivity|].
  apply (proj2 (proj2 (proj2 address_order)) (replicate 16 xab)). vm_compute. reflexivity.
Defined.
