(* ===== verification/Identity.v ===== *)
(** * Identities

    [identity/index.ts], [identity/auth.ts], [identity/peer.ts] and the
    admission policy of [node/PeerAdmission.ts]. *)

From S2P Require Import Prelude Codec Crypto Toy NodeAddr.

Record FipsIdentity := {
  secretKey : bytes;
  publicKey : bytes;
  xOnlyPubkey : bytes;
  nodeAddr : NodeAddr;
}.

Section Identity.
Context `{Noble}.

Definition compressedPubkeyFromXOnly (x : bytes) : result bytes :=
  throw_if (negb (len x =? 32)) (Error "x-only pubkey must be 32 bytes");;
  let publicKey := z2b 0x02 :: x in
  pointFromHex publicKey;;
  Ok publicKey.

Definition identityFromSecretKey (sk : bytes) : result FipsIdentity :=
  throw_if (negb (len sk =? 32)) (Error "secret key must be 32 bytes");;
  pk ← getPublicKey sk;
  let x := subarray_from pk 1 in
  na ← deriveNodeAddr x;
  Ok {| secretKey := sk; publicKey := pk; xOnlyPubkey := x; nodeAddr := na |}.

Record SerializedIdentity := { type_ : string; secretKeyHex : string }.

Definition exportIdentity (id : FipsIdentity) : SerializedIdentity :=
  {| type_ := "fips-identity-v1"; secretKeyHex := toHex (secretKey id) |}.

Definition importIdentity (s : SerializedIdentity) : result FipsIdentity :=
  throw_if (negb (bool_decide (type_ s = "fips-identity-v1"%string))) (Error "unknown identity type");;
  sk ← fromHex (secretKeyHex s);
  identityFromSecretKey sk.

Definition signSchnorr (id : FipsIdentity) (message : bytes) : result bytes :=
  schnorr_sign message (secretKey id).

Definition verifySchnorr (signature message x : bytes) : bool :=
  if negb (len signature =? 64) then false
  else if negb (len x =? 32) then false
  else schnorr_verify signature message x.

(** SHA-256 of the x-coordinate of the shared point. *)
Definition ecdh (sk peerCompressedPubkey : bytes) : result bytes :=
  throw_if (negb (len peerCompressedPubkey =? 33)) (Error "peer pubkey must be 33-byte compressed");;
  shared ← getSharedSecret sk peerCompressedPubkey;
  let x := subarray_from shared 1 in
  Ok (sha256 x).

(** ** Authentication challenges ([auth.ts]) *)

(** UTF-8 of an ASCII literal, as [TextEncoder] gives it. *)
Definition ascii_bytes (s : string) : bytes :=
  map (fun c => z2b (Z.of_N (Ascii.N_of_ascii c))) (String.list_ascii_of_string s).

Definition AUTH_DOMAIN : bytes := ascii_bytes "fips-auth-v1".

Record AuthResponse := {
  resp_xOnlyPubkey : bytes;
  resp_timestamp : Z;
  resp_signature : bytes;
}.

(** [for (i = 7; i >= 0; i--) { out[i] = Number(v & 0xffn); v >>= 8n }] *)
Fixpoint u64be_loop (i : nat) (v : Z) (out : bytes) : bytes :=
  match i with
  | O => out
  | S i => u64be_loop i (Z.shiftr v 8) (z2b (Z.land v 0xff) :: out)
  end.

Definition u64BigEndian (n : Z) : result bytes :=
  throw_if ((n <? 0) || (n >? 0xffffffffffffffff))%bool (RangeError "u64 out of range");;
  Ok (u64be_loop 8 n []).

Definition authChallengeDigest (challenge : bytes) (timestamp : Z) : result bytes :=
  throw_if (negb (len challenge =? 32)) (Error "challenge must be 32 bytes");;
  ts ← u64BigEndian timestamp;
  Ok (sha256 (concatBytes [AUTH_DOMAIN; challenge; ts])).

Definition signChallenge (id : FipsIdentity) (challenge : bytes) (timestamp : Z) : result AuthResponse :=
  digest ← authChallengeDigest challenge timestamp;
  signature ← signSchnorr id digest;
  Ok {| resp_xOnlyPubkey := xOnlyPubkey id; resp_timestamp := timestamp; resp_signature := signature |}.

Definition verifyChallenge (challenge : bytes) (response : AuthResponse) : result NodeAddr :=
  digest ← authChallengeDigest challenge (resp_timestamp response);
  let ok := verifySchnorr (resp_signature response) digest (resp_xOnlyPubkey response) in
  throw_if (negb ok) (Error "auth signature verification failed");;
  deriveNodeAddr (resp_xOnlyPubkey response).

(** ** Remote identities ([peer.ts]) *)

Record PeerIdentity := { peer_xOnlyPubkey : bytes; peer_nodeAddr : NodeAddr }.

Definition fromXOnlyPubkey (x : bytes) : result PeerIdentity :=
  throw_if (negb (len x =? 32)) (Error "xOnly pubkey must be 32 bytes");;
  na ← deriveNodeAddr x;
  Ok {| peer_xOnlyPubkey := x; peer_nodeAddr := na |}.

Definition peer_verify (p : PeerIdentity) (data signature : bytes) : bool :=
  if negb (len signature =? 64) then false
  else verifySchnorr signature (sha256 data) (peer_xOnlyPubkey p).

(** ** Facts *)

(** What [identityFromSecretKey] makes. *)
Definition identity_wf (id : FipsIdentity) : Prop :=
  len (secretKey id) = 32 /\ getPublicKey (secretKey id) = Ok (publicKey id) /\
  xOnlyPubkey id = drop 1 (publicKey id) /\ deriveNodeAddr (xOnlyPubkey id) = Ok (nodeAddr id).

Lemma identityFromSecretKey_Ok sk id :
  identityFromSecretKey sk = Ok id <-> sk = secretKey id /\ identity_wf id.
Proof.
  unfold identityFromSecretKey, identity_wf, subarray_from. change (Z.to_nat 1) with 1%nat. split.
  - intros E. result_inv. bool_split. simpl. auto.
  - intros (-> & Hl & Hpk & Hx & Hna). rewrite Hl, Hpk. simpl. rewrite <- Hx, Hna.
    by destruct id.
Qed.

Lemma len_xOnlyPubkey `{!DhLaws} id : identity_wf id -> len (xOnlyPubkey id) = 32.
Proof.
  intros (_ & Hpk & -> & _). apply len_getPublicKey in Hpk.
  unfold len in *. rewrite length_drop. lia.
Qed.

(** The shared secret of two key pairs is the same from both sides. *)
Lemma ecdh_comm `{!DhLaws} a b pa pb :
  getPublicKey a = Ok pa -> getPublicKey b = Ok pb -> ecdh a pb = ecdh b pa.
Proof.
  intros Ha Hb. unfold ecdh. pose proof (len_getPublicKey _ _ Ha) as ->.
  pose proof (len_getPublicKey _ _ Hb) as ->. by rewrite (getSharedSecret_comm a b pa pb).
Qed.

Lemma ecdh_ok `{!DhLaws} a b pa pb :
  getPublicKey a = Ok pa -> getPublicKey b = Ok pb -> exists s, ecdh a pb = Ok s.
Proof.
  intros Ha Hb. pose proof (getSharedSecret_ok _ _ _ _ Ha Hb) as Hok.
  destruct (getSharedSecret a pb) as [s|e] eqn:E; [|done].
  exists (sha256 (subarray_from s 1)). unfold ecdh.
  by rewrite (len_getPublicKey _ _ Hb), E.
Qed.

(** A key of which only the x-coordinate is known serves as well: the even
    representative gives the secret of the real key. *)
Lemma ecdh_parity `{!DhLaws} a b pa pb :
  getPublicKey a = Ok pa -> getPublicKey b = Ok pb -> ecdh a (x02 :: drop 1 pb) = ecdh a pb.
Proof.
  intros Ha Hb. pose proof (getSharedSecret_ok _ _ _ _ Ha Hb) as Hok.
  pose proof (len_getPublicKey _ _ Hb) as Hl.
  destruct (getPublicKey_prefix _ _ Hb) as [x [->| ->]]; [done|].
  change (drop 1 (x03 :: x)) with x. rewrite len_cons in Hl.
  destruct (getSharedSecret a (x03 :: x)) as [s|e] eqn:E; [|done].
  destruct (getSharedSecret_parity _ _ _ E) as (s' & E' & Hd).
  unfold ecdh. rewrite E, E', !len_cons. unfold subarray_from.
  change (Z.to_nat 1) with 1%nat. unfold mbind, result_bind. by rewrite Hd.
Qed.

Lemma len_ecdh `{!HashLaws} a p s : ecdh a p = Ok s -> len s = 32.
Proof.
  unfold ecdh. intros (? & _ & E)%result_bind_ok. apply result_bind_ok in E as (? & _ & E).
  injection E as <-. apply len_sha256.
Qed.
End Identity.

(** ** Theorems *)

Section Auth.
Context `{Noble, !HashLaws, !DhLaws, !SchnorrLaws, !HexLaws}.

Lemma u64BigEndian_ok n : 0 <= n < 2 ^ 64 -> is_ok (u64BigEndian n) = true.
Proof.
  intros Hn. unfold u64BigEndian. rewrite Z.gtb_ltb. decide_if. done.
Qed.

Lemma verify_own id m s :
  identity_wf id -> signSchnorr id m = Ok s -> verifySchnorr s m (xOnlyPubkey id) = true.
Proof.
  intros Hid Hs. unfold verifySchnorr, signSchnorr in *.
  rewrite (len_schnorr_sign _ _ _ Hs), (len_xOnlyPubkey id Hid).
  destruct Hid as (_ & Hpk & -> & _). by apply (schnorr_verify_sign _ _ _ _ Hs).
Qed.

(** Authentication by challenge works for every identity made from a secret
    key: the response to a 32-byte challenge, with a timestamp of 64 bits, is
    accepted and yields the address of the signer; and exporting an identity
    and importing it again gives the same identity. *)
Lemma challenge_authenticates sk id challenge ts resp :
  identityFromSecretKey sk = Ok id ->
  signChallenge id challenge ts = Ok resp ->
  verifyChallenge challenge resp = Ok (nodeAddr id) /\
  importIdentity (exportIdentity id) = Ok id.
Proof.
  intros Hid Hs. pose proof Hid as [-> Hwf]%identityFromSecretKey_Ok. split.
  - unfold signChallenge in Hs. apply result_bind_ok in Hs as (d & Hd & Hs).
    apply result_bind_ok in Hs as (s & Hsig & [= <-]).
    unfold verifyChallenge. cbn [resp_timestamp resp_signature resp_xOnlyPubkey].
    rewrite Hd. cbn [mbind result_bind]. rewrite (verify_own _ _ _ Hwf Hsig).
    cbn. by destruct Hwf as (_ & _ & _ & ?).
  - unfold importIdentity, exportIdentity. cbn. by rewrite fromHex_toHex.
Qed.
End Auth.

(** ** Identities for examples *)

#[local] Existing Instances Toy.noble Toy.hash_laws Toy.aead_laws Toy.dh_laws
  Toy.schnorr_laws Toy.hex_laws.

Definition demo_identity (n : Z) : FipsIdentity :=
  ok_or (identityFromSecretKey (Toy.key n)) {| secretKey := []; publicKey := []; xOnlyPubkey := []; nodeAddr := [] |}.

Lemma demo_identity_wf n : is_ok (identityFromSecretKey (Toy.key n)) = true -> identity_wf (demo_identity n).
Proof.
  unfold demo_identity. destruct (identityFromSecretKey (Toy.key n)) as [id|e] eqn:E; [|done].
  intros _. by apply identityFromSecretKey_Ok in E as [_ ?].
Qed.

Lemma challenge_authenticates_witness :
  exists resp, signChallenge (demo_identity 5) (Toy.key 77) 1234 = Ok resp /\
    verifyChallenge (Toy.key 77) resp = Ok (nodeAddr (demo_identity 5)).
Proof.
  destruct (signChallenge (demo_identity 5) (Toy.key 77) 1234) as [resp|e] eqn:E;
    [|vm_compute in E; discriminate E].
  exists resp. split; [reflexivity|].
  apply (challenge_authenticates (Toy.key 5) (demo_identity 5) (Toy.key 77) 1234 resp);
    [vm_compute; reflexivity | exact E].
Defined.
