(* ===== verification/Replay.v ===== *)
(** * Replay window

    [crypto/replay.ts]: the sliding window over the 64-bit frame counters, and
    its refinement of a specification that remembers every accepted counter. *)

From S2P Require Import Prelude.

Module ReplayWindow.

Definition WINDOW : Z := 2048.

Record t := mk { high : Z; seen : list (option Z) }.

Definition new : t := mk (-1) (replicate (Z.to_nat WINDOW) None).

Definition slot (counter : Z) : nat := Z.to_nat (counter mod WINDOW).

Definition check (w : t) (counter : Z) : bool :=
  (counter >=? 0) && (counter <? 0xffffffffffffffff)
  && (high w - counter <? WINDOW)
  && negb (bool_decide (mjoin (seen w !! slot counter) = Some counter)).

Definition accept (w : t) (counter : Z) : bool * t :=
  if negb (check w counter) then (false, w)
  else
    let h := if counter >? high w then counter else high w in
    (true, mk h (<[slot counter := Some counter]> (seen w))).

Definition highest (w : t) : Z := if high w <? 0 then 0 else high w.

Definition reset (w : t) : t := mk (-1) (replicate (length (seen w)) None).

(** The answers to a sequence of counters. *)
Fixpoint accept_all (w : t) (cs : list Z) : list bool * t :=
  match cs with
  | [] => ([], w)
  | c :: cs =>
      let '(b, w) := accept w c in
      let '(bs, w) := accept_all w cs in
      (b :: bs, w)
  end.
End ReplayWindow.

(** ** Specification: the set of accepted counters *)

Module ReplaySpec.
Definition top (hist : list Z) : Z := foldr Z.max (-1) hist.

Definition fresh (hist : list Z) (c : Z) : bool :=
  (0 <=? c) && (c <? 2 ^ 64 - 1) && (top hist <? c + 2048) && negb (bool_decide (c ∈ hist)).

Definition accept (hist : list Z) (c : Z) : bool * list Z :=
  if fresh hist c then (true, c :: hist) else (false, hist).

Fixpoint accept_all (hist : list Z) (cs : list Z) : list bool * list Z :=
  match cs with
  | [] => ([], hist)
  | c :: cs =>
      let '(b, hist) := accept hist c in
      let '(bs, hist) := accept_all hist cs in
      (b :: bs, hist)
  end.
End ReplaySpec.

(** ** Refinement *)

Section Refinement.
Import ReplayWindow.

(** The window [w] represents the history [hist]: the slots hold accepted
    counters, and every accepted counter still inside the window is in its
    slot. *)
Record represents (w : t) (hist : list Z) : Prop := {
  rep_length : length (seen w) = 2048%nat;
  rep_high : high w = ReplaySpec.top hist;
  rep_nonneg c : c ∈ hist -> 0 <= c;
  rep_slot i c : seen w !! i = Some (Some c) -> c ∈ hist;
  rep_recent c : c ∈ hist -> high w - c < WINDOW -> seen w !! slot c = Some (Some c);
}.

Lemma top_ge hist c : c ∈ hist -> c <= ReplaySpec.top hist.
Proof.
  induction hist as [|x hist IH]; [by intros ?%not_elem_of_nil|].
  unfold ReplaySpec.top in *. intros [->|Hc]%elem_of_cons; simpl; [lia|]. specialize (IH Hc). lia.
Qed.

Lemma slot_lt c : 0 <= c -> (slot c < 2048)%nat.
Proof. intros. unfold slot, WINDOW. pose proof (Z.mod_pos_bound c 2048). lia. Qed.

(** Counters that share a slot are a whole window apart. *)
Lemma slot_collision c d : 0 <= c -> 0 <= d -> slot c = slot d -> c < d -> c + 2048 <= d.
Proof.
  unfold slot, WINDOW. intros Hc Hd E Hlt.
  pose proof (Z.mod_pos_bound c 2048). pose proof (Z.mod_pos_bound d 2048).
  assert (c mod 2048 = d mod 2048) by lia.
  pose proof (Z.div_mod c 2048). pose proof (Z.div_mod d 2048). lia.
Qed.

Lemma represents_new : represents new [].
Proof.
  split; unfold new; cbn [seen high].
  - by rewrite length_replicate.
  - done.
  - by intros c ?%not_elem_of_nil.
  - intros i c [? _]%lookup_replicate. done.
  - by intros c ?%not_elem_of_nil.
Qed.

Lemma check_spec w hist c : represents w hist -> check w c = ReplaySpec.fresh hist c.
Proof.
  intros [Hl Hh Hn Hs Hr]. unfold check, ReplaySpec.fresh, WINDOW. rewrite Hh.
  rewrite Z.geb_leb.
  destruct (Z.leb_spec 0 c) as [H0|]; [|done].
  change 0xffffffffffffffff with (2 ^ 64 - 1).
  destruct (Z.ltb_spec c (2 ^ 64 - 1)) as [H1|]; [|done]. simpl.
  destruct (Z.ltb_spec (ReplaySpec.top hist - c) 2048),
    (Z.ltb_spec (ReplaySpec.top hist) (c + 2048)); simpl; try lia.
  f_equal. apply bool_decide_ext. split.
  - intros E. destruct (seen w !! slot c) as [o|] eqn:El; simpl in E; [|done].
    simpl in E. subst o. by eapply Hs.
  - intros Hc. rewrite (Hr c Hc); [done|]. unfold WINDOW. lia.
Qed.

Lemma accept_represents w hist c :
  represents w hist ->
  fst (accept w c) = fst (ReplaySpec.accept hist c) /\
  represents (snd (accept w c)) (snd (ReplaySpec.accept hist c)).
Proof.
  intros Hrep. pose proof (check_spec _ _ c Hrep) as Hck.
  unfold accept, ReplaySpec.accept. rewrite Hck.
  destruct (ReplaySpec.fresh hist c) eqn:Hf; simpl; [|done]. split; [done|].
  unfold ReplaySpec.fresh in Hf. bool_split. destruct Hrep as [Hl Hh Hn Hs Hr].
  pose proof (slot_lt c ltac:(lia)) as Hslot.
  split; simpl.
  - by rewrite length_insert.
  - rewrite Hh, Z.gtb_ltb. unfold ReplaySpec.top in *. simpl.
    destruct (Z.ltb_spec (foldr Z.max (-1) hist) c); lia.
  - intros d [->|Hd]%elem_of_cons; eauto.
  - intros i d E. destruct (decide (slot c = i)) as [<-|Hne].
    + rewrite list_lookup_insert_eq in E by lia. simplify_eq. set_solver.
    + rewrite list_lookup_insert_ne in E by done. apply Hs in E. set_solver.
  - intros d Hd Hwin. rewrite Hh, Z.gtb_ltb in Hwin. unfold WINDOW in *.
    assert (c <= (if ReplaySpec.top hist <? c then c else ReplaySpec.top hist) /\
            ReplaySpec.top hist <= (if ReplaySpec.top hist <? c then c else ReplaySpec.top hist))
      as [? ?] by (destruct (Z.ltb_spec (ReplaySpec.top hist) c); lia).
    apply elem_of_cons in Hd as [->|Hd]; [by rewrite list_lookup_insert_eq by lia|].
    destruct (decide (slot c = slot d)) as [Es|Hne].
    + exfalso. pose proof (Hn d Hd). pose proof (top_ge hist d Hd).
      destruct (Z.lt_trichotomy c d) as [Hlt|[->|Hlt]]; [|done|].
      * pose proof (slot_collision c d ltac:(lia) ltac:(lia) Es Hlt). lia.
      * pose proof (slot_collision d c ltac:(lia) ltac:(lia) (eq_sym Es) Hlt). lia.
    + rewrite list_lookup_insert_ne by done. apply Hr; [done|]. lia.
Qed.

Lemma accept_all_represents w hist cs :
  represents w hist ->
  fst (accept_all w cs) = fst (ReplaySpec.accept_all hist cs) /\
  represents (snd (accept_all w cs)) (snd (ReplaySpec.accept_all hist cs)).
Proof.
  revert w hist. induction cs as [|c cs IH]; intros w hist Hrep; [done|]. simpl.
  destruct (accept_represents w hist c Hrep) as [Hb Hrep'].
  destruct (accept w c) as [b w'], (ReplaySpec.accept hist c) as [b' hist']. simpl in *. subst b'.
  destruct (IH w' hist' Hrep') as [Hbs Hrep''].
  destruct (accept_all w' cs), (ReplaySpec.accept_all hist' cs). simpl in *. by subst.
Qed.

(** The specification never repeats a counter. *)
Lemma spec_nodup hist cs : NoDup hist -> NoDup (snd (ReplaySpec.accept_all hist cs)).
Proof.
  revert hist. induction cs as [|c cs IH]; intros hist Hd; [done|]. simpl.
  unfold ReplaySpec.accept. destruct (ReplaySpec.fresh hist c) eqn:Hf.
  - unfold ReplaySpec.fresh in Hf. bool_split.
    specialize (IH (c :: hist)). destruct (ReplaySpec.accept_all (c :: hist) cs).
    apply IH. by constructor.
  - specialize (IH hist Hd). by destruct (ReplaySpec.accept_all hist cs).
Qed.
End Refinement.

(** C6: On every sequence of counters the 2048-slot window gives the answers of
    the specification that stores all accepted counters: a counter is accepted
    iff it is a 64-bit value below the reserved maximum, was never accepted
    before, and is less than 2048 behind the highest accepted one. *)
Theorem replay_window_refines_history (cs : list Z) :
  fst (ReplayWindow.accept_all ReplayWindow.new cs) = fst (ReplaySpec.accept_all [] cs).
Proof. by apply accept_all_represents, represents_new. Qed.

(** After any run from a fresh window, every counter accepted so far is
    refused, both by the non-destructive [check] and by [accept], which then
    leaves the window as it was; and [highest] reports the largest accepted
    counter, or 0. *)
Lemma replay_never_accepts_twice (cs : list Z) (c : Z) :
  let w := snd (ReplayWindow.accept_all ReplayWindow.new cs) in
  let hist := snd (ReplaySpec.accept_all [] cs) in
  NoDup hist /\
  (c ∈ hist -> ReplayWindow.check w c = false /\ ReplayWindow.accept w c = (false, w)) /\
  ReplayWindow.highest w = Z.max 0 (ReplaySpec.top hist).
Proof.
  intros w hist.
  destruct (accept_all_represents _ _ cs represents_new) as [_ Hrep].
  fold w hist in Hrep. split; [apply spec_nodup; constructor|]. split.
  - intros Hc. assert (ReplayWindow.check w c = false) as Hck.
    { rewrite (check_spec _ _ _ Hrep). unfold ReplaySpec.fresh.
      rewrite (bool_decide_eq_true_2 _ Hc). by rewrite andb_false_r. }
    unfold ReplayWindow.accept. by rewrite Hck.
  - unfold ReplayWindow.highest. rewrite (rep_high _ _ Hrep).
    destruct (Z.ltb_spec (ReplaySpec.top hist) 0); lia.
Qed.
