(* ===== verification/F64.v ===== *)
(** * JavaScript numbers that are not integers

    The [number] type is IEEE 754 binary64. Where the code computes with
    fractions the model uses the Standard Library's executable specification of
    floating-point arithmetic, at 53 bits of precision. *)

From Stdlib Require Import SpecFloat.
From S2P Require Import Prelude.

Module F64.
Definition t : Set := spec_float.

Definition add : t -> t -> t := SFadd 53 1024.
Definition sub : t -> t -> t := SFsub 53 1024.
Definition mul : t -> t -> t := SFmul 53 1024.
Definition div : t -> t -> t := SFdiv 53 1024.
Definition abs : t -> t := SFabs.
Definition ltb : t -> t -> bool := SFltb.
Definition leb : t -> t -> bool := SFleb.
Definition eqb : t -> t -> bool := SFeqb.

(** The number nearest to [m * 2 ^ e]. *)
Definition make (m e : Z) : t := binary_normalize 53 1024 m e false.
Definition of_Z (z : Z) : t := make z 0.

Definition sgn (x : t) : Z := if ltb x (of_Z 0) then -1 else if ltb (of_Z 0) x then 1 else 0.

Definition is_nan (x : t) : bool := match x with S754_nan => true | _ => false end.

(** [Math.max] and [Math.min] propagate NaN and order the zeros. *)
Definition max (a b : t) : t :=
  if is_nan a || is_nan b then S754_nan
  else match a, b with
  | S754_zero s, S754_zero s' => S754_zero (s && s')
  | _, _ => if ltb a b then b else a
  end.

Definition min (a b : t) : t :=
  if is_nan a || is_nan b then S754_nan
  else match a, b with
  | S754_zero s, S754_zero s' => S754_zero (s || s')
  | _, _ => if ltb b a then b else a
  end.

(** [Math.floor] and [Math.trunc] of a finite number, as an integer; the
    conversions of the other values to an integer type give 0. *)
Definition floor (x : t) : Z :=
  match x with
  | S754_finite s m e =>
      let v := if s then - Z.pos m else Z.pos m in
      if 0 <=? e then v * 2 ^ e else v / 2 ^ (- e)
  | _ => 0
  end.

(** [Math.floor] as a number. *)
Definition floor_ (x : t) : t := match x with S754_finite _ _ _ => of_Z (floor x) | _ => x end.

Definition trunc (x : t) : Z :=
  match x with
  | S754_finite s m e =>
      let v := if 0 <=? e then Z.pos m * 2 ^ e else Z.pos m / 2 ^ (- e) in
      if s then - v else v
  | _ => 0
  end.
End F64.

(** The session-relative timestamp, [Math.floor(now - start) >>> 0]. *)
Definition session_timestamp (now start : F64.t) : Z := js_ushr (F64.floor (F64.sub now start)) 0.

Lemma session_timestamp_range now start : 0 <= session_timestamp now start < 2 ^ 32.
Proof.
  unfold session_timestamp. unfold js_ushr. rewrite Z.shiftr_0_r. apply Z.mod_pos_bound. lia.
Qed.

(** ** Facts about the operations

    Rounding a finite value never gives NaN; the comparison is total on the
    other values. *)

Lemma shr_1_nonneg r : 0 <= shr_m r -> 0 <= shr_m (shr_1 r).
Proof. destruct r as [[|[p|p|]|[p|p|]] rr s]; cbn; intros; try lia; destruct (_ || _)%bool; cbn; lia. Qed.

Lemma shr_nonneg r e n : 0 <= shr_m r -> 0 <= shr_m (fst (shr r e n)).
Proof.
  intros Hr. destruct n as [|p|p]; [done| |done]. cbn [shr fst].
  revert r Hr. induction p as [p IH|p IH|]; intros r Hr; cbn; auto using shr_1_nonneg.
Qed.

Lemma shr_fexp_nonneg m e l : 0 <= m -> 0 <= shr_m (fst (shr_fexp 53 1024 m e l)).
Proof. intros Hm. apply shr_nonneg. by destruct l as [|[]]. Qed.

Lemma round_not_nan s m e l : 0 <= m -> binary_round_aux 53 1024 s m e l <> S754_nan.
Proof.
  intros Hm. unfold binary_round_aux. pose proof (shr_fexp_nonneg m e l Hm) as H1.
  destruct (shr_fexp 53 1024 m e l) as [r e1]. cbn [fst] in H1.
  assert (H2 : 0 <= round_nearest_even (shr_m r) (loc_of_shr_record r)).
  { unfold round_nearest_even. destruct (loc_of_shr_record r) as [|[]]; try lia. destruct (Z.even _); lia. }
  pose proof (shr_fexp_nonneg _ e1 loc_Exact H2) as H3.
  destruct (shr_fexp 53 1024 _ e1 loc_Exact) as [r2 e2]. cbn [fst] in H3.
  destruct (shr_m r2); [done| |lia]. by destruct (_ <=? _).
Qed.

Lemma normalize_not_nan m e s : binary_normalize 53 1024 m e s <> S754_nan.
Proof.
  unfold binary_normalize. destruct m as [|p|p]; [done| |]; unfold binary_round; destruct (shl_align _ _ _); by apply round_not_nan.
Qed.

Definition nonzero (x : F64.t) : Prop := match x with S754_finite _ _ _ => True | _ => False end.

Lemma add_not_nan a b : F64.is_nan a = false -> nonzero b -> F64.is_nan (F64.add a b) = false.
Proof.
  intros Ha Hb. assert (H : F64.add a b <> S754_nan); [|by destruct (F64.add a b)].
  destruct a, b; try done; unfold F64.add, SFadd; try done. cbv zeta. apply normalize_not_nan.
Qed.

Lemma mul_not_nan a b : F64.is_nan a = false -> nonzero b -> F64.is_nan (F64.mul a b) = false.
Proof.
  intros Ha Hb. assert (H : F64.mul a b <> S754_nan); [|by destruct (F64.mul a b)].
  destruct a, b; try done; unfold F64.mul, SFmul; try done. by apply round_not_nan.
Qed.

Lemma SFcompare_swap a b : SFcompare b a = CompOpp <$> SFcompare a b.
Proof.
  destruct a as [sa|[]| |[] ma ea], b as [sb|[]| |[] mb eb]; try reflexivity; try (by destruct sa); try (by destruct sb);
    cbn [SFcompare fmap option_fmap option_map]; rewrite (Z.compare_antisym ea eb);
    destruct (Z.compare ea eb); cbn [CompOpp]; try reflexivity;
    rewrite !Pos.compare_cont_antisym; cbn [CompOpp]; rewrite ?Pos.compare_cont_antisym; done.
Qed.

Lemma leb_not_ltb a b : F64.is_nan a = false -> F64.is_nan b = false -> F64.ltb a b = false -> F64.leb b a = true.
Proof.
  unfold F64.ltb, F64.leb, SFltb, SFleb. intros Ha Hb. rewrite (SFcompare_swap a b).
  destruct (SFcompare a b) as [[]|] eqn:E; cbn; try done. by destruct a, b.
Qed.

Lemma ltb_leb a b : F64.ltb a b = true -> F64.leb a b = true.
Proof. unfold F64.ltb, F64.leb, SFltb, SFleb. by destruct (SFcompare a b) as [[]|]. Qed.

Lemma leb_refl a : F64.is_nan a = false -> F64.leb a a = true.
Proof.
  intros Ha. destruct (F64.ltb a a) eqn:E; [by apply ltb_leb|by apply leb_not_ltb].
Qed.

Lemma leb_not_nan a b : F64.leb a b = true -> F64.is_nan a = false /\ F64.is_nan b = false.
Proof. unfold F64.leb, SFleb. destruct a, b; cbn; try done; by destruct (SFcompare _ _) as [[]|]. Qed.

Lemma max_nonzero a b : nonzero a \/ nonzero b -> F64.is_nan a = false -> F64.is_nan b = false ->
  F64.max a b = if F64.ltb a b then b else a.
Proof. intros Hz Ha Hb. unfold F64.max. rewrite Ha, Hb. by destruct a, b, Hz. Qed.

Lemma min_nonzero a b : nonzero a \/ nonzero b -> F64.is_nan a = false -> F64.is_nan b = false ->
  F64.min a b = if F64.ltb b a then b else a.
Proof. intros Hz Ha Hb. unfold F64.min. rewrite Ha, Hb. by destruct a, b, Hz. Qed.

(** The larger of two numbers is at least each of them. *)
Lemma max_ge a b : nonzero a \/ nonzero b -> F64.is_nan a = false -> F64.is_nan b = false ->
  F64.leb a (F64.max a b) = true /\ F64.leb b (F64.max a b) = true.
Proof.
  intros Hz Ha Hb. rewrite max_nonzero by done. destruct (F64.ltb a b) eqn:E.
  - split; [by apply ltb_leb|by apply leb_refl].
  - split; [by apply leb_refl|by apply leb_not_ltb].
Qed.
