(* ===== verification/Channel.v ===== *)
(** * Encrypted datagram channels

    The FMP link ([fmp/link.ts]) and the FSP session ([fsp/session.ts]) promise
    the same thing to the code above them: frames that each carry one message
    under a fresh counter, opened in any order and never twice. The promise is
    stated here once, as an interface that the two components implement, and
    what follows from it for whole runs is proved against the interface. *)

From S2P Require Import Prelude Codec Replay F64.

(** The two ends of one direction: [S] sends messages [M], [R] receives them as
    [N]. *)
Class Channel (S R M N : Type) := {
  ch_send : M -> F64.t -> ST S bytes;
  ch_recv : bytes -> F64.t -> ST R N;
  ch_counter : S -> Z;
  ch_window : R -> ReplayWindow.t;
  ch_view : M -> N;
}.

(** What an implementation promises of the states that are [sender]s and
    [receiver]s of the same key, for the messages that are [ok]; [frame c m f]
    says that [f] carries [m] under the counter [c]. *)
Class ChannelLaws {S R M N} (C : Channel S R M N) (ok : M -> Prop) (sender : S -> Prop)
    (receiver : R -> Prop) (frame : Z -> M -> bytes -> Prop) : Prop := {
  law_counter s : sender s -> 0 <= ch_counter s;
  law_send s m now : sender s -> ok m -> ch_counter s < 2 ^ 64 - 1 ->
    exists f s', ch_send m now s = (Ok f, s') /\ frame (ch_counter s) m f /\ sender s' /\
      ch_counter s' = ch_counter s + 1;
  law_accept r c m f now : receiver r -> frame c m f -> ok m -> ReplayWindow.check (ch_window r) c = true ->
    exists r', ch_recv f now r = (Ok (ch_view m), r') /\ receiver r' /\
      ch_window r' = snd (ReplayWindow.accept (ch_window r) c);
  law_replay r c m f now : receiver r -> frame c m f -> ReplayWindow.check (ch_window r) c = false ->
    exists e, ch_recv f now r = (Throw e, r);
}.

(** ** Runs *)

Section Runs.
Context {S R M N : Type} `{C : Channel S R M N}.

(** Messages sent one after the other. *)
Fixpoint send_all (ms : list M) (now : F64.t) : ST S (list bytes) :=
  match ms with
  | [] => mret []
  | m :: ms => f ← ch_send m now; fs ← send_all ms now; mret (f :: fs)
  end.

(** Frames as they arrive: what each one delivers, [None] where it is refused. *)
Fixpoint deliver (fs : list bytes) (now : F64.t) (r : R) : list (option N) * R :=
  match fs with
  | [] => ([], r)
  | f :: fs =>
      let '(x, r) := ch_recv f now r in
      let '(xs, r) := deliver fs now r in
      (match x with Ok m => Some m | Throw _ => None end :: xs, r)
  end.
End Runs.

(** The specification of a run: the frames of [ms], sent from counter [c0] on,
    arrive as [js] at a receiver that has accepted [hist]. *)
Definition expected {M} (hist : list Z) (c0 : Z) (ms : list M) (js : list nat) : list (option M) :=
  zip_with (fun (ok : bool) j => if ok then ms !! j else None)
    (fst (ReplaySpec.accept_all hist (map (fun j => c0 + Z.of_nat j) js))) js.

Lemma accept_all_in_order hist c0 n m :
  (forall c, c ∈ hist -> c < c0 + Z.of_nat m) -> 0 <= c0 -> c0 + Z.of_nat (m + n) <= 2 ^ 64 - 1 ->
  fst (ReplaySpec.accept_all hist (map (fun j => c0 + Z.of_nat j) (seq m n))) = replicate n true.
Proof.
  revert hist m. induction n as [|n IH]; intros hist m Hh Hc0 Hmax; [done|].
  cbn [seq map ReplaySpec.accept_all replicate].
  assert (Hf : ReplaySpec.fresh hist (c0 + Z.of_nat m) = true).
  { unfold ReplaySpec.fresh. assert (Htop : ReplaySpec.top hist < c0 + Z.of_nat m).
    { clear -Hh Hc0. induction hist as [|c hist IH]; [unfold ReplaySpec.top; cbn; lia|].
      unfold ReplaySpec.top in *. cbn. specialize (Hh c ltac:(left)) as Hc.
      specialize (IH ltac:(intros; apply Hh; by right)). lia. }
    assert (Hni : c0 + Z.of_nat m ∉ hist) by (intros Hi; apply Hh in Hi; lia).
    rewrite bool_decide_eq_false_2 by done. decide_if. done. }
  unfold ReplaySpec.accept. rewrite Hf.
  specialize (IH (c0 + Z.of_nat m :: hist) (Datatypes.S m)).
  destruct (ReplaySpec.accept_all _ _). cbn in *. f_equal. apply IH; [|done|lia].
  intros c [->|Hc]%elem_of_cons; [lia|]. apply Hh in Hc. lia.
Qed.

(** Frames that arrive once and in order are all expected. *)
Lemma expected_in_order {M} hist c0 (ms : list M) :
  (forall c, c ∈ hist -> c < c0) -> 0 <= c0 -> c0 + len ms <= 2 ^ 64 - 1 -> expected hist c0 ms (seq 0 (length ms)) = map Some ms.
Proof.
  intros Hh Hc Hm. unfold expected.
  rewrite accept_all_in_order; [|intros c Hi; apply Hh in Hi; lia|done|unfold len in Hm; lia].
  rewrite zip_with_replicate_l by (by rewrite length_seq). apply map_lookup_seq.
Qed.

Section Delivery.
Context {S R M N : Type} {C : Channel S R M N}.
Context {ok : M -> Prop} {sender : S -> Prop} {receiver : R -> Prop} {frame : Z -> M -> bytes -> Prop}.
Context `{!ChannelLaws C ok sender receiver frame}.

Lemma send_all_run s ms now :
  sender s -> ch_counter s + len ms <= 2 ^ 64 - 1 -> Forall ok ms ->
  exists fs s', send_all ms now s = (Ok fs, s') /\ sender s' /\ ch_counter s' = ch_counter s + len ms /\
    length fs = length ms /\
    forall j f m, fs !! j = Some f -> ms !! j = Some m -> frame (ch_counter s + Z.of_nat j) m f.
Proof.
  revert s. induction ms as [|m ms IH]; intros s Hs Hn Hok.
  - exists [], s. change (len (@nil M)) with 0. rewrite Z.add_0_r. done.
  - apply Forall_cons in Hok as [Hm Hok]. rewrite len_cons in *. pose proof (len_nonneg ms).
    destruct (law_send s m now Hs Hm) as (f & s1 & Ef & Ff & Hs1 & Hc1); [lia|].
    destruct (IH s1 Hs1) as (fs & s' & Efs & Hs' & Hc' & Lfs & Ffs); [lia|done|].
    exists (f :: fs), s'. cbn [send_all]. rewrite (ST_bind_ok _ _ _ _ _ Ef), (ST_bind_ok _ _ _ _ _ Efs).
    split; [done|]. split; [done|]. split; [lia|]. split; [simpl; lia|].
    intros [|j] f' m' Hf Hm'; cbn in Hf, Hm'; simplify_eq; [by rewrite Z.add_0_r|].
    replace (ch_counter s + Z.of_nat (Datatypes.S j)) with (ch_counter s1 + Z.of_nat j) by lia. by apply Ffs.
Qed.

Lemma deliver_run c0 ms fs js now r hist :
  receiver r -> represents (ch_window r) hist -> length fs = length ms -> Forall ok ms ->
  (forall j f m, fs !! j = Some f -> ms !! j = Some m -> frame (c0 + Z.of_nat j) m f) ->
  Forall (fun j => (j < length ms)%nat) js ->
  fst (deliver (map (fun j => nth j fs []) js) now r) = map (fmap ch_view) (expected hist c0 ms js).
Proof.
  intros Hr Hrep Hlen Hok Hf Hjs. unfold expected. revert r hist Hr Hrep.
  induction Hjs as [|j js Hj _ IH]; intros r hist Hr Hrep; [done|].
  destruct (lookup_lt_is_Some_2 ms j Hj) as [m Hm].
  destruct (lookup_lt_is_Some_2 fs j ltac:(lia)) as [f Hff].
  specialize (Hf j f m Hff Hm) as Hframe.
  pose proof (accept_represents _ _ (c0 + Z.of_nat j) Hrep) as [_ Hrep'].
  cbn [map deliver ReplaySpec.accept_all]. rewrite (nth_lookup_Some _ _ _ _ Hff).
  pose proof (check_spec _ _ (c0 + Z.of_nat j) Hrep) as Hck.
  unfold ReplaySpec.accept in *. destruct (ReplaySpec.fresh hist (c0 + Z.of_nat j)).
  - destruct (law_accept r _ m f now Hr Hframe) as (r' & -> & Hr' & Hw); [by eapply Forall_lookup_1|done|].
    rewrite <- Hw in Hrep'. specialize (IH r' _ Hr' Hrep').
    destruct (deliver _ _ _) as [rs l'], (ReplaySpec.accept_all _ _) as [bs h']. cbn in *. by rewrite IH, Hm.
  - destruct (law_replay r _ m f now Hr Hframe Hck) as [e ->]. specialize (IH _ _ Hr Hrep).
    destruct (deliver _ _ _) as [rs l'], (ReplaySpec.accept_all hist _) as [bs h']. cbn in *. by rewrite IH.
Qed.

(** Sending and then delivering, in any order, with losses and repetitions. *)
Lemma channel_run s r hist ms now now' :
  sender s -> receiver r -> represents (ch_window r) hist ->
  ch_counter s + len ms <= 2 ^ 64 - 1 -> Forall ok ms ->
  exists fs s', send_all ms now s = (Ok fs, s') /\ sender s' /\ ch_counter s' = ch_counter s + len ms /\
    (forall js, Forall (fun j => (j < length ms)%nat) js ->
       fst (deliver (map (fun j => nth j fs []) js) now' r) =
         map (fmap ch_view) (expected hist (ch_counter s) ms js)) /\
    ((forall c, c ∈ hist -> c < ch_counter s) ->
       fst (deliver fs now' r) = map (fun m => Some (ch_view m)) ms).
Proof.
  intros Hs Hr Hrep Hn Hok.
  destruct (send_all_run s ms now Hs Hn Hok) as (fs & s' & Efs & Hs' & Hc & Lfs & Ffs).
  exists fs, s'. do 3 (split; [done|]).
  assert (Hd : forall js, Forall (fun j => (j < length ms)%nat) js ->
       fst (deliver (map (fun j => nth j fs []) js) now' r) =
         map (fmap ch_view) (expected hist (ch_counter s) ms js))
    by (intros js Hjs; by eapply deliver_run).
  split; [done|]. intros Hh. specialize (Hd (seq 0 (length ms))).
  assert (Hmap : map (fun j => nth j fs []) (seq 0 (length ms)) = fs) by (rewrite <- Lfs; apply map_nth_seq).
  rewrite Hmap in Hd. rewrite Hd.
  - rewrite expected_in_order by (done || by apply law_counter). by rewrite map_map.
  - apply Forall_forall. intros j Hj%elem_of_seq. lia.
Qed.
End Delivery.
