(* ===== verification/Bloom.v ===== *)
(** * Bloom filters

    [bloom/index.ts]. A filter is its byte array, its size in bits and its
    number of hash probes; the methods that modify it are state-passing. *)

From S2P Require Import Prelude Codec Crypto Toy F64.

Definition DEFAULT_FILTER_SIZE_BITS : Z := 8192.
Definition DEFAULT_HASH_COUNT : Z := 5.
Definition SIZE_CLASS_BYTES : list Z := [512; 1024; 2048; 4096].
Definition BloomError (msg : string) : js_error := JsError CBloomError msg.

Record BloomFilter := mkBloom { bits : bytes; numBits : Z; hashCount : Z }.

Section Bloom.
Context `{Noble}.

Definition withParams (numBits hashCount : Z) : result BloomFilter :=
  throw_if ((numBits =? 0) || negb (Z.rem numBits 8 =? 0))
    (BloomError "numBits must be a positive multiple of 8");;
  throw_if ((hashCount <=? 0) || (hashCount >? 0xff))
    (BloomError "hashCount must be in [1, 255]");;
  throw_if (numBits <? 0) (RangeError "Invalid typed array length");;
  Ok (mkBloom (replicate (Z.to_nat (numBits / 8)) x00) numBits hashCount).

Definition empty_filter : result BloomFilter :=
  withParams DEFAULT_FILTER_SIZE_BITS DEFAULT_HASH_COUNT.

Definition fromBytes (b : bytes) (hashCount : Z) : result BloomFilter :=
  throw_if ((hashCount <=? 0) || (hashCount >? 0xff))
    (BloomError "hashCount must be in [1, 255]");;
  throw_if (len b =? 0) (BloomError "filter bytes must be non-empty");;
  Ok (mkBloom b (len b * 8) hashCount).

(** The [k]-th probe of [data]: two little-endian words of its digest. *)
Definition hash (f : BloomFilter) (data : bytes) (k : Z) : result Z :=
  let digest := sha256 data in
  BinaryReader.decode
    (h1 ← BinaryReader.u64le;
     h2 ← BinaryReader.u64le;
     let combined := Z.land (h1 + k * h2) 0xffffffffffffffff in
     mret (combined mod numBits f)) digest.

Definition setBit (f : BloomFilter) (index : Z) : BloomFilter :=
  let i := js_ushr index 3 in
  mkBloom (<[Z.to_nat i := z2b (js_or (byte_at (bits f) i) (js_shl 1 (js_and index 7)))]> (bits f))
    (numBits f) (hashCount f).

Definition getBit (f : BloomFilter) (index : Z) : bool :=
  negb (js_and (byte_at (bits f) (js_ushr index 3)) (js_shl 1 (js_and index 7)) =? 0).

(** [for (let k = 0; k < this.hashCount; k++)], with [n] probes left. *)
Fixpoint insert_loop (data : bytes) (k : Z) (n : nat) : ST BloomFilter unit :=
  match n with
  | O => mret tt
  | S n =>
      f ← get;
      i ← lift (hash f data k);
      modify (fun f => setBit f i);;
      insert_loop data (k + 1) n
  end.

Definition insertBytes (data : bytes) : ST BloomFilter unit :=
  f ← get; insert_loop data 0 (Z.to_nat (hashCount f)).

Fixpoint contains_loop (f : BloomFilter) (data : bytes) (k : Z) (n : nat) : result bool :=
  match n with
  | O => Ok true
  | S n =>
      i ← hash f data k;
      if negb (getBit f i) then Ok false else contains_loop f data (k + 1) n
  end.

Definition containsBytes (f : BloomFilter) (data : bytes) : result bool :=
  contains_loop f data 0 (Z.to_nat (hashCount f)).

(** [for (i...) this.bits[i] |= other.bits[i]] *)
Definition or_bits (a b : bytes) : bytes :=
  imap (fun i x => z2b (js_or (b2z x) (byte_at b (Z.of_nat i)))) a.

Definition merge (f other : BloomFilter) : result BloomFilter :=
  throw_if (negb (numBits f =? numBits other)) (BloomError "filter size mismatch");;
  Ok (mkBloom (or_bits (bits f) (bits other)) (numBits f) (hashCount f)).

Definition union_ (f other : BloomFilter) : result BloomFilter :=
  out ← withParams (numBits f) (hashCount f);
  Ok (mkBloom (or_bits (bits f) (bits other) ++ drop (length (bits f)) (bits out))
        (numBits out) (hashCount out)).

Definition clear (f : BloomFilter) : BloomFilter :=
  mkBloom (replicate (length (bits f)) x00) (numBits f) (hashCount f).

(** [while (b !== 0) { b &= b - 1; count++; }]; a byte has at most 8 ones. *)
Fixpoint count_loop (fuel : nat) (b count : Z) : Z :=
  match fuel with
  | O => count
  | S fuel => if b =? 0 then count else count_loop fuel (js_and b (b - 1)) (count + 1)
  end.

Definition countOnes (f : BloomFilter) : Z :=
  foldl (fun count b => count_loop 9 (b2z b) count) 0 (bits f).

Definition fillRatio (f : BloomFilter) : F64.t :=
  F64.div (F64.of_Z (countOnes f)) (F64.of_Z (numBits f)).

Definition isEmpty (f : BloomFilter) : bool :=
  forallb (fun b => b2z b =? 0) (bits f).

Definition asBytes (f : BloomFilter) : bytes := bits f.
Definition numBytes (f : BloomFilter) : Z := len (bits f).
End Bloom.

(** ** The filter as a set of bit positions *)

Definition bloom_wf (f : BloomFilter) : Prop :=
  numBits f = 8 * len (bits f) /\ 0 < numBits f < 2 ^ 32 /\ 0 < hashCount f <= 255.

Definition has_bit (f : BloomFilter) (j : Z) : bool :=
  Z.testbit (byte_at (bits f) (j / 8)) (j mod 8).

(** A statement about all bytes and all bit positions, checked by evaluation. *)
Lemma all_bytes (P : Z -> Z -> bool) :
  forallb (fun x => forallb (P x) (seqZ 0 8)) (seqZ 0 256) = true ->
  forall x p, 0 <= x < 256 -> 0 <= p < 8 -> P x p = true.
Proof.
  rewrite forallb_forall. intros HP x p Hx Hp.
  specialize (HP x). rewrite forallb_forall in HP.
  apply HP; apply list_elem_of_In, elem_of_seqZ; lia.
Qed.

Lemma seqZ_S n : seqZ 0 (Z.of_nat (S n)) = 0 :: (Z.add 1 <$> seqZ 0 (Z.of_nat n)).
Proof. rewrite seqZ_cons by lia. rewrite fmap_add_seqZ. do 2 f_equal; lia. Qed.

Lemma existsb_seqZ_S (P : Z -> bool) n :
  existsb P (seqZ 0 (Z.of_nat (S n))) = (P 0 || existsb (fun i => P (1 + i)) (seqZ 0 (Z.of_nat n)))%bool.
Proof.
  rewrite seqZ_S. cbn [existsb]. f_equal.
  induction (seqZ 0 (Z.of_nat n)) as [|x l IH]; [done|]. rewrite fmap_cons. cbn [existsb]. by rewrite IH.
Qed.

Lemma forallb_seqZ_S (P : Z -> bool) n :
  forallb P (seqZ 0 (Z.of_nat (S n))) = (P 0 && forallb (fun i => P (1 + i)) (seqZ 0 (Z.of_nat n)))%bool.
Proof.
  rewrite seqZ_S. cbn [forallb]. f_equal.
  induction (seqZ 0 (Z.of_nat n)) as [|x l IH]; [done|]. rewrite fmap_cons. cbn [forallb]. by rewrite IH.
Qed.

Lemma existsb_ext {A} (P Q : A -> bool) l : (forall x, P x = Q x) -> existsb P l = existsb Q l.
Proof. intros E. induction l as [|x l IH]; [done|]. simpl. by rewrite E, IH. Qed.

Lemma forallb_ext {A} (P Q : A -> bool) l : (forall x, P x = Q x) -> forallb P l = forallb Q l.
Proof. intros E. induction l as [|x l IH]; [done|]. simpl. by rewrite E, IH. Qed.

Section Facts.
Context `{Noble, !HashLaws}.

Lemma js_test_bit x p : 0 <= x < 256 -> 0 <= p < 8 ->
  negb (js_and x (js_shl 1 p) =? 0) = Z.testbit x p.
Proof.
  intros. apply eqb_prop.
  apply (all_bytes (fun x p => eqb (negb (js_and x (js_shl 1 p) =? 0)) (Z.testbit x p)));
    [vm_compute; reflexivity|lia|lia].
Qed.

Lemma js_set_bit x p q : 0 <= x < 256 -> 0 <= p < 8 -> 0 <= q < 8 ->
  Z.testbit (b2z (z2b (js_or x (js_shl 1 p)))) q = ((p =? q) || Z.testbit x q)%bool.
Proof.
  intros Hx Hp Hq. apply eqb_prop.
  assert (forallb (fun q => eqb (Z.testbit (b2z (z2b (js_or x (js_shl 1 p)))) q)
    ((p =? q) || Z.testbit x q)) (seqZ 0 8) = true) as E.
  { apply (all_bytes (fun x p => forallb (fun q =>
      eqb (Z.testbit (b2z (z2b (js_or x (js_shl 1 p)))) q)
        ((p =? q) || Z.testbit x q)) (seqZ 0 8))); [vm_compute; reflexivity|lia|lia]. }
  rewrite forallb_forall in E. apply E. apply list_elem_of_In, elem_of_seqZ. lia.
Qed.

Lemma js_index_bit index : 0 <= index < 2 ^ 32 ->
  js_ushr index 3 = index / 8 /\ js_and index 7 = index mod 8.
Proof.
  intros. unfold js_ushr. rewrite to_uint32_id, Z.shiftr_div_pow2 by lia. split; [done|].
  rewrite js_and_small, to_uint32_id by lia. change 7 with (Z.ones 3).
  by rewrite Z.land_ones by lia.
Qed.

Lemma getBit_has f j : 0 <= j < 2 ^ 32 -> getBit f j = has_bit f j.
Proof.
  intros Hj. unfold getBit, has_bit. destruct (js_index_bit j Hj) as [-> ->].
  apply js_test_bit; [apply byte_at_range|apply Z.mod_pos_bound; lia].
Qed.

Lemma byte_at_insert l i j x : 0 <= i < len l -> 0 <= j ->
  byte_at (<[Z.to_nat i := x]> l) j = if i =? j then b2z x else byte_at l j.
Proof.
  intros Hi Hj. unfold byte_at, len in *. destruct (Z.ltb_spec j 0); [lia|].
  destruct (Z.eqb_spec i j) as [->|Hne].
  - by rewrite list_lookup_insert_eq by lia.
  - by rewrite list_lookup_insert_ne by lia.
Qed.

Lemma setBit_has f i j : bloom_wf f -> 0 <= i < numBits f -> 0 <= j < numBits f ->
  has_bit (setBit f i) j = ((i =? j) || has_bit f j)%bool.
Proof.
  intros (Hn & Hb & _) Hi Hj. unfold setBit, has_bit. cbn [bits].
  destruct (js_index_bit i) as [-> ->]; [lia|].
  assert (0 <= i / 8 < len (bits f)) by (split; [apply Z.div_pos|apply Z.div_lt_upper_bound]; lia).
  assert (0 <= j / 8) by (apply Z.div_pos; lia).
  rewrite byte_at_insert by done.
  pose proof (Z.mod_pos_bound i 8). pose proof (Z.mod_pos_bound j 8).
  destruct (Z.eqb_spec (i / 8) (j / 8)) as [E|E].
  - rewrite js_set_bit by (try apply byte_at_range; lia). rewrite E.
    f_equal. destruct (Z.eqb_spec (i mod 8) (j mod 8)), (Z.eqb_spec i j); try done;
      pose proof (Z.div_mod i 8); pose proof (Z.div_mod j 8); lia || congruence.
  - destruct (Z.eqb_spec i j) as [->|]; done.
Qed.

Lemma setBit_wf f i : bloom_wf f -> bloom_wf (setBit f i).
Proof. unfold bloom_wf, setBit, len. cbn. by rewrite length_insert. Qed.

Lemma hash_ok f data k : bloom_wf f -> exists i, hash f data k = Ok i /\ 0 <= i < numBits f.
Proof.
  intros (Hn & Hb & _).
  pose proof (len_sha256 data) as Hl.
  assert (sha256 data = take 8 (sha256 data) ++ take 8 (drop 8 (sha256 data)) ++ drop 16 (sha256 data)) as E.
  { rewrite <- (take_drop 8 (sha256 data)) at 1. f_equal.
    rewrite <- (take_drop 8 (drop 8 (sha256 data))) at 1. by rewrite drop_drop. }
  unfold hash. rewrite E.
  eexists. split.
  - eapply decode_prefix; [apply reads_bind; [apply reads_u64le|]; intros h1;
      apply reads_bind; [apply reads_u64le|]; intros h2; apply reads_ret|].
    eexists (take 8 (sha256 data) ++ take 8 (drop 8 (sha256 data)) ++ []), (drop 16 (sha256 data)).
    split; [|by rewrite <- !app_assoc].
    exists (le_val (take 8 (sha256 data))). eexists _, _. split; [|split; [|reflexivity]].
    { apply field_val. split; [|done]. rewrite length_take. unfold len in Hl. lia. }
    exists (le_val (take 8 (drop 8 (sha256 data)))). eexists _, _. split; [|split; [|reflexivity]].
    { apply field_val. split; [|done]. rewrite length_take, length_drop. unfold len in Hl. lia. }
    split; reflexivity.
  - apply Z.mod_pos_bound. lia.
Qed.

(** The probe positions do not depend on the contents of the filter. *)
Lemma hash_setBit f i data k : hash (setBit f i) data k = hash f data k.
Proof. done. Qed.

(** The positions that stand for [data]. *)
Definition probes (f : BloomFilter) (data : bytes) : list Z :=
  map (fun k => ok_or (hash f data k) 0) (seqZ 0 (hashCount f)).

Lemma hash_probe f data k : bloom_wf f ->
  hash f data k = Ok (ok_or (hash f data k) 0) /\ 0 <= ok_or (hash f data k) 0 < numBits f.
Proof. intros Hf. by destruct (hash_ok f data k Hf) as (i & -> & Hi). Qed.

Definition same_params (f g : BloomFilter) : Prop :=
  numBits f = numBits g /\ hashCount f = hashCount g.

Lemma hash_params f g data k : same_params f g -> hash f data k = hash g data k.
Proof. intros [E _]. unfold hash. by rewrite E. Qed.

Lemma probes_params f g data : same_params f g -> probes f data = probes g data.
Proof.
  intros Hp. unfold probes. destruct Hp as [En Eh]. rewrite Eh.
  apply map_ext. intros k. by rewrite (hash_params f g) by done.
Qed.

Lemma insert_loop_spec data n f k : bloom_wf f ->
  exists f', insert_loop data k n f = (Ok tt, f') /\ bloom_wf f' /\ same_params f' f /\
    forall j, 0 <= j < numBits f -> has_bit f' j =
      (existsb (fun i => ok_or (hash f data (k + i)) 0 =? j) (seqZ 0 (Z.of_nat n))
       || has_bit f j)%bool.
Proof.
  revert f k. induction n as [|n IH]; intros f k Hf.
  - exists f. split; [done|]. split; [done|]. by split.
  - destruct (hash_probe f data k Hf) as [Hh Hr].
    destruct (IH (setBit f (ok_or (hash f data k) 0)) (k + 1)) as (f' & Hrun & Hf' & Hp & Hb);
      [by apply setBit_wf|].
    exists f'. split; [|split; [done|split; [done|]]].
    + cbn [insert_loop]. unfold get, lift, modify, mbind, ST_bind. rewrite Hh. exact Hrun.
    + intros j Hj. rewrite Hb by done. rewrite setBit_has by done.
      rewrite existsb_seqZ_S, Z.add_0_r, !orb_assoc. f_equal. rewrite orb_comm. f_equal.
      apply existsb_ext. intros i. by rewrite Z.add_assoc.
Qed.

(** Inserting sets exactly the probe positions. *)
Lemma insertBytes_spec data f : bloom_wf f ->
  exists f', insertBytes data f = (Ok tt, f') /\ bloom_wf f' /\ same_params f' f /\
    forall j, 0 <= j < numBits f ->
      has_bit f' j = (bool_decide (j ∈ probes f data) || has_bit f j)%bool.
Proof.
  intros Hf. destruct (insert_loop_spec data (Z.to_nat (hashCount f)) f 0 Hf)
    as (f' & Hrun & Hf' & Hp & Hb).
  exists f'. split; [exact Hrun|]. split; [done|]. split; [done|]. intros j Hj.
  rewrite Hb by done. f_equal. destruct Hf as (_ & _ & Hc). rewrite Z2Nat.id by lia.
  apply eq_true_iff_eq. rewrite bool_decide_eq_true, existsb_exists. unfold probes.
  rewrite list_elem_of_fmap. split.
  - intros (i & Hi & E%Z.eqb_eq). exists i. rewrite <- E. by rewrite list_elem_of_In.
  - intros (i & -> & Hi). exists i. rewrite <- list_elem_of_In. by rewrite Z.eqb_refl.
Qed.

Lemma contains_loop_spec data n f k : bloom_wf f ->
  contains_loop f data k n =
    Ok (forallb (fun i => has_bit f (ok_or (hash f data (k + i)) 0)) (seqZ 0 (Z.of_nat n))).
Proof.
  intros Hf. revert k. induction n as [|n IH]; intros k; [done|].
  cbn [contains_loop]. rewrite forallb_seqZ_S, Z.add_0_r.
  destruct (hash_ok f data k Hf) as (i & -> & Hr). cbn [mbind result_bind ok_or].
  destruct Hf as (H1 & H2 & H3). rewrite getBit_has by lia.
  destruct (has_bit f _); simpl; [|done]. rewrite IH. f_equal.
  apply forallb_ext. intros i'. by rewrite Z.add_assoc.
Qed.

Lemma containsBytes_spec f data : bloom_wf f ->
  containsBytes f data = Ok (forallb (has_bit f) (probes f data)).
Proof.
  intros Hf. unfold containsBytes. rewrite contains_loop_spec by done.
  destruct Hf as (_ & _ & Hc). rewrite Z2Nat.id by lia. f_equal. unfold probes.
  induction (seqZ 0 (hashCount f)) as [|x l IH]; [done|]. simpl. by rewrite IH.
Qed.

Lemma probes_range f data j : bloom_wf f -> j ∈ probes f data -> 0 <= j < numBits f.
Proof.
  intros Hf (k & -> & _)%list_elem_of_fmap. by apply hash_probe.
Qed.

(** [g] has every bit of [f]. *)
Definition bits_subset (f g : BloomFilter) : Prop :=
  same_params g f /\ forall j, 0 <= j < numBits f -> has_bit f j = true -> has_bit g j = true.

Lemma containsBytes_mono f g data : bloom_wf f -> bloom_wf g -> bits_subset f g ->
  containsBytes f data = Ok true -> containsBytes g data = Ok true.
Proof.
  intros Hf Hg [Hp Hs]. rewrite !containsBytes_spec by done. intros [= Hc]. f_equal.
  rewrite (probes_params g f) by done.
  rewrite forallb_forall in Hc |- *. intros j Hj. apply Hs; [|by apply Hc].
  apply probes_range with data; [done|]. by apply list_elem_of_In.
Qed.

Lemma insertBytes_subset data f f' : bloom_wf f -> insertBytes data f = (Ok tt, f') ->
  bloom_wf f' /\ bits_subset f f' /\ containsBytes f' data = Ok true.
Proof.
  intros Hf Hr. destruct (insertBytes_spec data f Hf) as (g & Hg & Hwf & Hp & Hb).
  rewrite Hr in Hg. injection Hg as <-. split; [done|]. split.
  - split; [done|]. intros j Hj Hh. rewrite Hb by done. by rewrite Hh, orb_true_r.
  - rewrite containsBytes_spec by done. f_equal. rewrite (probes_params f' f) by done.
    apply forallb_forall. intros j Hj%list_elem_of_In. rewrite Hb.
    + by rewrite bool_decide_eq_true_2.
    + by apply probes_range with data.
Qed.

Lemma bits_subset_trans f g h : bits_subset f g -> bits_subset g h -> bits_subset f h.
Proof.
  intros [[E1 E2] H1] [[E3 E4] H2]. split; [split; congruence|]. intros j Hj Hb.
  apply H2; [by rewrite E1|]. by apply H1.
Qed.

Lemma byte_at_imap_or a b j : 0 <= j < len a ->
  byte_at (or_bits a b) j = b2z (z2b (js_or (byte_at a j) (byte_at b j))).
Proof.
  intros Hj. unfold len in *.
  destruct (lookup_lt_is_Some_2 a (Z.to_nat j)) as [x Hx]; [lia|].
  assert (byte_at a j = b2z x) as ->.
  { unfold byte_at. destruct (Z.ltb_spec j 0); [lia|]. by rewrite Hx. }
  unfold byte_at at 1, or_bits. destruct (Z.ltb_spec j 0); [lia|].
  rewrite list_lookup_imap, Hx. simpl. by rewrite Z2Nat.id by lia.
Qed.

Lemma js_or_byte_bit x y q : 0 <= x < 256 -> 0 <= y < 256 -> 0 <= q < 8 ->
  Z.testbit (b2z (z2b (js_or x y))) q = (Z.testbit x q || Z.testbit y q)%bool.
Proof.
  intros Hx Hy Hq. unfold js_or. rewrite (to_int32_id x), (to_int32_id y) by lia.
  assert (0 <= Z.lor x y < 256) as Hl.
  { split; [apply Z.lor_nonneg; lia|].
    rewrite <- (Z.mod_small x (2 ^ 8)), <- (Z.mod_small y (2 ^ 8)) by lia.
    rewrite <- !Z.land_ones by lia. rewrite <- Z.land_lor_distr_l, Z.land_ones by lia.
    apply Z.mod_pos_bound. lia. }
  rewrite to_int32_id, b2z_z2b_small by lia. apply Z.lor_spec.
Qed.

Lemma or_bits_has a b n c j : len a = len b -> 0 <= j < 8 * len a ->
  has_bit (mkBloom (or_bits a b) n c) j =
    (has_bit (mkBloom a n c) j || has_bit (mkBloom b n c) j)%bool.
Proof.
  intros Hl Hj. unfold has_bit. cbn [bits].
  assert (0 <= j / 8 < len a) by (split; [apply Z.div_pos|apply Z.div_lt_upper_bound]; lia).
  rewrite byte_at_imap_or by done. apply js_or_byte_bit;
    [apply byte_at_range..|apply Z.mod_pos_bound; lia].
Qed.

Lemma merge_spec f g h : bloom_wf f -> bloom_wf g -> merge f g = Ok h ->
  numBits f = numBits g /\ bloom_wf h /\ same_params h f /\
  forall j, 0 <= j < numBits f -> has_bit h j = (has_bit f j || has_bit g j)%bool.
Proof.
  unfold merge. intros (Hf1 & Hf2 & Hf3) (Hg1 & _) E. result_inv. bool_split.
  assert (len (bits f) = len (bits g)) as Hl by lia.
  split; [done|]. split; [|split; [done|]].
  - unfold bloom_wf. cbn. unfold len, or_bits in *. rewrite length_imap. split; [|done]. lia.
  - intros j Hj. pose proof (or_bits_has (bits f) (bits g) (numBits f) (hashCount f) j Hl) as ->;
      [done|lia].
Qed.

Lemma union_merge f g : bloom_wf f -> numBits f = numBits g -> union_ f g = merge f g.
Proof.
  intros (Hf1 & Hf2 & Hf3) Hn. unfold union_, merge, withParams, throw_if.
  assert (Z.rem (numBits f) 8 = 0) as ->
    by (rewrite Hf1, Z.mul_comm; apply Z.rem_mul; lia).
  assert (numBits f / 8 = len (bits f)) as ->
    by (rewrite Hf1, Z.mul_comm; apply Z.div_mul; lia).
  rewrite <- Hn, Z.eqb_refl, Z.gtb_ltb. decide_if. simpl. do 2 f_equal.
  rewrite drop_ge; [apply app_nil_r|]. rewrite length_replicate. unfold len. lia.
Qed.

(** ** Counting *)

Definition popcount (x : Z) : Z := len (base.filter (fun p => Z.testbit x p = true) (seqZ 0 8)).

Lemma count_loop_shift fuel b c : count_loop fuel b c = c + count_loop fuel b 0.
Proof.
  revert b c. induction fuel as [|fuel IH]; intros b c; simpl; [lia|].
  destruct (b =? 0); [lia|]. rewrite IH, (IH _ 1). lia.
Qed.

(** Clearing the lowest set bit until none is left counts the ones. *)
Lemma count_loop_popcount b : 0 <= b < 256 -> count_loop 9 b 0 = popcount b.
Proof.
  intros Hb. apply Z.eqb_eq.
  apply (all_bytes (fun b _ => count_loop 9 b 0 =? popcount b) ltac:(vm_compute; reflexivity) b 0);
    lia.
Qed.

Lemma countOnes_spec f : countOnes f = foldr (fun b n => popcount (b2z b) + n) 0 (bits f).
Proof.
  unfold countOnes. destruct f as [l n c]. cbn [bits].
  assert (forall m, foldl (fun count b => count_loop 9 (b2z b) count) m l =
    m + foldr (fun b n => popcount (b2z b) + n) 0 l) as ->; [|lia].
  induction l as [|b l IH]; intros m; cbn [foldl foldr]; [lia|].
  rewrite IH, count_loop_shift, count_loop_popcount by apply b2z_range. lia.
Qed.

Lemma popcount_range x : 0 <= x < 256 -> 0 <= popcount x <= 8 /\ (popcount x = 0 <-> x = 0).
Proof.
  intros Hx.
  assert ((0 <=? popcount x) && (popcount x <=? 8) && eqb (popcount x =? 0) (x =? 0) = true)%bool as E.
  { apply (all_bytes (fun x _ => (0 <=? popcount x) && (popcount x <=? 8)
      && eqb (popcount x =? 0) (x =? 0))%bool ltac:(vm_compute; reflexivity) x 0); lia. }
  bool_split. apply eqb_prop in H2. split; [done|].
  destruct (Z.eqb_spec (popcount x) 0), (Z.eqb_spec x 0); naive_solver.
Qed.
End Facts.

(** No false negatives. Inserting any sequence of items into a well-formed
    filter succeeds, and afterwards every inserted item, and every item the
    filter contained before, is reported as contained. *)
Lemma bloom_no_false_negatives `{Noble, !HashLaws} (f : BloomFilter) (ds : list bytes) :
  bloom_wf f ->
  exists f', for_each insertBytes ds f = (Ok tt, f') /\ bloom_wf f' /\
    forall d, d ∈ ds \/ containsBytes f d = Ok true -> containsBytes f' d = Ok true.
Proof.
  revert f. induction ds as [|d ds IH]; intros f Hf.
  - exists f. split; [done|]. split; [done|]. intros d [[]%not_elem_of_nil|Hd]; done.
  - destruct (insertBytes_spec d f Hf) as (g & Hg & _).
    destruct (insertBytes_subset d f g Hf Hg) as (Hwg & Hsub & Hd).
    destruct (IH g Hwg) as (f' & Hrun & Hf' & Hin).
    exists f'. split; [cbn; by rewrite (ST_bind_ok _ _ _ _ _ Hg)|]. split; [done|].
    intros d' [[->|Hd']%elem_of_cons|Hd']; apply Hin; auto.
    right. by apply containsBytes_mono with f.
Qed.

(** [merge] and [union] compute the union of the bit sets, agree with each
    other, and keep the parameters; merging filters of different sizes throws. *)
Lemma bloom_merge_is_union `{Noble, !HashLaws} (f g : BloomFilter) :
  bloom_wf f -> bloom_wf g ->
  (numBits f <> numBits g -> exists e, merge f g = Throw e) /\
  (numBits f = numBits g -> exists h, merge f g = Ok h /\ union_ f g = Ok h /\
    bloom_wf h /\ same_params h f /\
    (forall j, 0 <= j < numBits f -> has_bit h j = (has_bit f j || has_bit g j)%bool) /\
    (forall d, containsBytes f d = Ok true -> containsBytes h d = Ok true)).
Proof.
  intros Hf Hg. split; intros Hn.
  - unfold merge, throw_if. apply Z.eqb_neq in Hn. rewrite Hn. by eexists.
  - assert (exists h, merge f g = Ok h) as [h Hm].
    { unfold merge, throw_if. apply Z.eqb_eq in Hn. rewrite Hn. by eexists. }
    exists h. rewrite union_merge by done. destruct (merge_spec f g h Hf Hg Hm) as (_ & Hh & Hp & Hb).
    split_and!; try done. intros d. apply containsBytes_mono; [done..|].
    split; [done|]. intros j Hj Hbit. rewrite Hb by done. by rewrite Hbit.
Qed.

(** [countOnes] is the number of one bits, byte by byte; it lies between 0
    and the size of the filter, and is 0 exactly for the filters that
    [isEmpty] accepts. *)
Lemma bloom_countOnes `{Noble} (f : BloomFilter) :
  countOnes f = foldr (fun b n => popcount (b2z b) + n) 0 (bits f) /\
  0 <= countOnes f <= 8 * numBytes f /\
  (isEmpty f = true <-> countOnes f = 0).
Proof.
  rewrite countOnes_spec. split; [done|]. unfold numBytes, isEmpty.
  induction (bits f) as [|b l [IH1 IH2]]; [by vm_compute|].
  rewrite len_cons. cbn [foldr forallb]. pose proof (popcount_range (b2z b) (b2z_range b)) as [Hp Hz].
  split; [lia|]. rewrite andb_true_iff, IH2, Z.eqb_eq. lia.
Qed.

(** ** Examples *)

#[local] Existing Instances Toy.noble Toy.hash_laws.

(** A filter of 64 bits and 3 probes, empty and with one item. *)
Definition demo_filter : BloomFilter := mkBloom (replicate 8 x00) 64 3.
Definition demo_filter1 : BloomFilter := snd (insertBytes [x01] demo_filter).

Lemma demo_filter_wf : bloom_wf demo_filter /\ bloom_wf demo_filter1.
Proof. split; (split; [vm_compute; reflexivity|split; split; vm_compute; congruence]). Qed.

Lemma bloom_no_false_negatives_witness :
  bloom_wf demo_filter /\
  exists f', for_each insertBytes [[x01]; [x02]] demo_filter = (Ok tt, f') /\ bloom_wf f' /\
    forall d, d ∈ [[x01]; [x02]] \/ containsBytes demo_filter d = Ok true -> containsBytes f' d = Ok true.
Proof. split; [apply demo_filter_wf|]. apply (bloom_no_false_negatives demo_filter [[x01]; [x02]]), demo_filter_wf. Defined.

Lemma bloom_merge_is_union_witness :
  containsBytes demo_filter1 [x01] = Ok true /\
  exists h, merge demo_filter1 demo_filter = Ok h /\ containsBytes h [x01] = Ok true.
Proof.
  assert (Hin : containsBytes demo_filter1 [x01] = Ok true) by (vm_compute; reflexivity).
  split; [done|].
  destruct (bloom_merge_is_union demo_filter1 demo_filter) as [_ Hm]; [apply demo_filter_wf..|].
  destruct (Hm eq_refl) as (h & Eh & _ & _ & _ & _ & Hc). exists h. split; [done|]. by apply Hc.
Defined.
