(* ===== verification/FmpWire.v ===== *)
(** * FMP frames

    [fmp/wire.ts]: the mesh layer's handshake and established packets, and the
    theorems that every decoder accepts exactly what its encoder produces. *)

From S2P Require Import Prelude Codec.

Definition FMP_VERSION : Z := 0.
Definition FMP_PHASE_ESTABLISHED : Z := 0x0.
Definition FMP_PHASE_MSG1 : Z := 0x1.
Definition FMP_PHASE_MSG2 : Z := 0x2.
Definition NOISE_IK_MSG1_LEN : Z := 106.
Definition NOISE_IK_MSG2_LEN : Z := 57.
Definition FMP_MSG1_TOTAL_LEN : Z := 4 + 4 + NOISE_IK_MSG1_LEN.
Definition FMP_MSG2_TOTAL_LEN : Z := 4 + 4 + 4 + NOISE_IK_MSG2_LEN.
Definition FMP_ESTABLISHED_HEADER_LEN : Z := 4 + 4 + 8.
Definition FMP_AEAD_TAG_LEN : Z := 16.
Definition FMP_INNER_DATA : Z := 0x00.
Definition FMP_INNER_KEEPALIVE : Z := 0x51.

Record FmpCommonPrefix := mkPrefix { version : Z; phase : Z; flags : Z; payloadLen : Z }.

Definition encodeCommonPrefix (p : FmpCommonPrefix) : result bytes :=
  throw_if ((version p <? 0) || (version p >? 0xf)) (RangeError "version 4-bit");;
  throw_if ((phase p <? 0) || (phase p >? 0xf)) (RangeError "phase 4-bit");;
  BinaryWriter.encode
    (BinaryWriter.u8 (js_or (js_shl (js_and (version p) 0xf) 4) (js_and (phase p) 0xf));;
     BinaryWriter.u8 (js_and (flags p) 0xff);;
     BinaryWriter.u16le (payloadLen p)).

Definition decodeCommonPrefix : ST BinaryReader.t FmpCommonPrefix :=
  versionAndPhase ← BinaryReader.u8;
  flags ← BinaryReader.u8;
  payloadLen ← BinaryReader.u16le;
  mret (mkPrefix (js_and (js_ushr versionAndPhase 4) 0xf) (js_and versionAndPhase 0xf) flags payloadLen).

Record FmpMsg1 := mkMsg1 { m1_senderIdx : Z; noiseMsg1 : bytes }.

Definition encodeFmpMsg1 (m : FmpMsg1) : result bytes :=
  throw_if (negb (len (noiseMsg1 m) =? NOISE_IK_MSG1_LEN)) (Error "noise msg1 must be 106 bytes");;
  BinaryWriter.encode
    ((prefix ← lift (encodeCommonPrefix (mkPrefix FMP_VERSION FMP_PHASE_MSG1 0 (4 + NOISE_IK_MSG1_LEN)));
      BinaryWriter.bytes_ prefix);;
     BinaryWriter.u32le (m1_senderIdx m);;
     BinaryWriter.bytes_ (noiseMsg1 m)).

Definition decodeFmpMsg1 (buf : bytes) : result FmpMsg1 :=
  throw_if (negb (len buf =? FMP_MSG1_TOTAL_LEN)) (Error "FMP Msg1 must be 114 bytes");;
  BinaryReader.decode
    (prefix ← decodeCommonPrefix;
     throw_when (negb (version prefix =? FMP_VERSION)) (Error "bad FMP version");;
     throw_when (negb (phase prefix =? FMP_PHASE_MSG1)) (Error "not FMP Msg1");;
     throw_when (negb (flags prefix =? 0)) (Error "FMP Msg1 flags must be zero");;
     throw_when (negb (payloadLen prefix =? 4 + NOISE_IK_MSG1_LEN)) (Error "bad FMP Msg1 payload_len");;
     senderIdx ← BinaryReader.u32le;
     noiseMsg1 ← BinaryReader.bytes_ NOISE_IK_MSG1_LEN;
     mret (mkMsg1 senderIdx noiseMsg1)) buf.

Record FmpMsg2 := mkMsg2 { m2_senderIdx : Z; m2_receiverIdx : Z; noiseMsg2 : bytes }.

Definition encodeFmpMsg2 (m : FmpMsg2) : result bytes :=
  throw_if (negb (len (noiseMsg2 m) =? NOISE_IK_MSG2_LEN)) (Error "noise msg2 must be 57 bytes");;
  BinaryWriter.encode
    ((prefix ← lift (encodeCommonPrefix (mkPrefix FMP_VERSION FMP_PHASE_MSG2 0 (4 + 4 + NOISE_IK_MSG2_LEN)));
      BinaryWriter.bytes_ prefix);;
     BinaryWriter.u32le (m2_senderIdx m);;
     BinaryWriter.u32le (m2_receiverIdx m);;
     BinaryWriter.bytes_ (noiseMsg2 m)).

Definition decodeFmpMsg2 (buf : bytes) : result FmpMsg2 :=
  throw_if (negb (len buf =? FMP_MSG2_TOTAL_LEN)) (Error "FMP Msg2 must be 69 bytes");;
  BinaryReader.decode
    (prefix ← decodeCommonPrefix;
     throw_when (negb (version prefix =? FMP_VERSION)) (Error "bad FMP version");;
     throw_when (negb (phase prefix =? FMP_PHASE_MSG2)) (Error "not FMP Msg2");;
     throw_when (negb (flags prefix =? 0)) (Error "FMP Msg2 flags must be zero");;
     throw_when (negb (payloadLen prefix =? 4 + 4 + NOISE_IK_MSG2_LEN)) (Error "bad FMP Msg2 payload_len");;
     senderIdx ← BinaryReader.u32le;
     receiverIdx ← BinaryReader.u32le;
     noiseMsg2 ← BinaryReader.bytes_ NOISE_IK_MSG2_LEN;
     mret (mkMsg2 senderIdx receiverIdx noiseMsg2)) buf.

Record FmpEstablishedHeader := mkEstHeader { eh_flags : Z; eh_receiverIdx : Z; eh_counter : Z }.

Record FmpEstablished := mkEst {
  est_header : FmpEstablishedHeader;
  est_payloadLen : Z;
  est_ciphertext : bytes;
}.

Definition encodeFmpEstablishedHeader (h : FmpEstablishedHeader) (payloadLen : Z) : result bytes :=
  BinaryWriter.encode
    ((prefix ← lift (encodeCommonPrefix (mkPrefix FMP_VERSION FMP_PHASE_ESTABLISHED (eh_flags h) payloadLen));
      BinaryWriter.bytes_ prefix);;
     BinaryWriter.u32le (eh_receiverIdx h);;
     BinaryWriter.u64le (eh_counter h)).

Definition encodeFmpEstablished (p : FmpEstablished) : result bytes :=
  header ← encodeFmpEstablishedHeader (est_header p) (est_payloadLen p);
  BinaryWriter.encode (BinaryWriter.bytes_ header;; BinaryWriter.bytes_ (est_ciphertext p)).

Definition decodeFmpEstablished (buf : bytes) : result FmpEstablished :=
  throw_if (len buf <? FMP_ESTABLISHED_HEADER_LEN + FMP_AEAD_TAG_LEN) (Error "FMP Established too short");;
  BinaryReader.decode
    (prefix ← decodeCommonPrefix;
     throw_when (negb (version prefix =? FMP_VERSION)) (Error "bad FMP version");;
     throw_when (negb (phase prefix =? FMP_PHASE_ESTABLISHED)) (Error "not FMP Established");;
     receiverIdx ← BinaryReader.u32le;
     counter ← BinaryReader.u64le;
     ciphertext ← BinaryReader.rest;
     throw_when (negb (len ciphertext =? payloadLen prefix + FMP_AEAD_TAG_LEN)) (Error "payload_len mismatch");;
     mret (mkEst (mkEstHeader (flags prefix) receiverIdx counter) (payloadLen prefix) ciphertext)) buf.

Record FmpInnerPacket := mkInner { in_timestamp : Z; in_msgType : Z; in_payload : bytes }.

Definition encodeFmpInner (p : FmpInnerPacket) : result bytes :=
  BinaryWriter.encode
    (BinaryWriter.u32le (in_timestamp p);;
     BinaryWriter.u8 (in_msgType p);;
     BinaryWriter.bytes_ (in_payload p)).

Definition decodeFmpInner (buf : bytes) : result FmpInnerPacket :=
  throw_if (len buf <? 5) (Error "FMP inner packet too short");;
  BinaryReader.decode
    (timestamp ← BinaryReader.u32le;
     msgType ← BinaryReader.u8;
     payload ← BinaryReader.rest;
     mret (mkInner timestamp msgType payload)) buf.

Definition peekFmpPhase (buf : bytes) : result Z :=
  throw_if (len buf <? 1) (Error "empty FMP packet");;
  Ok (js_and (byte_at buf 0) 0xf).

(** ** The common prefix *)

Definition in_nibble (z : Z) : bool := (0 <=? z) && (z <? 16).

Definition prefix_layout (p : FmpCommonPrefix) : layout :=
  lguard (in_nibble (version p) && in_nibble (phase p))
  ⊕ field 1 (version p * 16 + phase p)
  ⊕ field 1 (flags p mod 256)
  ⊕ field 2 (payloadLen p).

Lemma encodeCommonPrefix_Ok p b : encodeCommonPrefix p = Ok b <-> prefix_layout p = Some b.
Proof.
  unfold encodeCommonPrefix, prefix_layout, in_nibble, throw_if.
  destruct p as [v ph fl pl]. cbn [version phase flags payloadLen].
  rewrite !Z.gtb_ltb.
  destruct (Z.ltb_spec v 0), (Z.ltb_spec 0xf v), (Z.ltb_spec ph 0), (Z.ltb_spec 0xf ph),
    (Z.leb_spec 0 v), (Z.ltb_spec v 16), (Z.leb_spec 0 ph), (Z.ltb_spec ph 16);
    try lia; simpl; try done.
  apply encode_Ok.
  rewrite js_and_byte, !js_and_nibble by lia. rewrite (Z.mod_small v 16), (Z.mod_small ph 16) by lia.
  assert (js_or (js_shl v 4) ph = v * 16 + ph) as ->.
  { rewrite <- (to_int32_id (v * 16 + ph)) by lia. unfold js_or at 1. f_equal.
    rewrite (to_int32_id ph) by lia. unfold js_shl.
    rewrite (to_int32_id v), Z.shiftl_mul_pow2 by lia.
    rewrite (to_int32_id (v * 2 ^ 4)), (to_int32_id (v * 2 ^ 4)) by lia.
    rewrite Z.lor_comm, lor_disjoint by lia. lia. }
  change (Some []) with (lguard true).
  eapply writes_ext; [|solve_writes].
  unfold lseq. cbn [lguard mbind option_bind app].
  destruct (field 1 (v * 16 + ph)), (field 1 (fl mod 256)), (field 2 pl); cbn; try done.
  by rewrite app_assoc.
Qed.

Lemma reads_prefix :
  reads decodeCommonPrefix (fun p b => prefix_layout p = Some b /\ 0 <= flags p < 256).
Proof.
  eapply reads_iff; [|unfold decodeCommonPrefix; solve_reads].
  intros [v ph fl pl] b. unfold prefix_layout, in_nibble. cbn [version phase flags payloadLen]. split.
  - intros (x & b1 & b2 & Hx & (y & b3 & b4 & Hy & (z & b5 & b6 & Hz & [E ->] & ->) & ->) & ->).
    injection E as -> -> -> ->. field_facts. change (256 ^ Z.of_nat 1) with 256 in *.
    unfold js_ushr. rewrite to_uint32_id, Z.shiftr_div_pow2 by lia.
    assert (0 <= x / 2 ^ 4 < 16) by (split; [apply Z.div_pos|apply Z.div_lt_upper_bound]; lia).
    rewrite !js_and_nibble by lia. rewrite (Z.mod_small (x / 2 ^ 4)) by lia.
    pose proof (Z.mod_pos_bound x 16). pose proof (Z.div_mod x 16). change (2 ^ 4) with 16 in *.
    decide_if. replace (x / 16 * 16 + x mod 16) with x by lia.
    rewrite (Z.mod_small y) by lia. split; [|lia]. layout_solve.
  - intros [Hl Hfl]. layout_inv. bool_split. rewrite (Z.mod_small fl) in * by lia.
    field_facts. change (256 ^ Z.of_nat 1) with 256 in *.
    eexists (v * 16 + ph), _, _. split; [eassumption|]. split.
    + eexists fl, _, _. split; [eassumption|]. split.
      * eexists _, _, []. split; [eassumption|]. split; [|by rewrite app_nil_r].
        split; [|done].
        unfold js_ushr. rewrite to_uint32_id, Z.shiftr_div_pow2 by lia.
        assert (0 <= (v * 16 + ph) / 2 ^ 4 < 16)
          by (split; [apply Z.div_pos|apply Z.div_lt_upper_bound]; lia).
        rewrite !js_and_nibble by lia. change (2 ^ 4) with 16 in *.
        rewrite (Z.mod_small ((v * 16 + ph) / 16)) by lia.
        f_equal; [rewrite Z.div_add_l, Z.div_small by lia; lia|].
        rewrite Z.add_comm, Z.mod_add by lia. by rewrite Z.mod_small by lia.
      * reflexivity.
    + by rewrite <- app_assoc.
Qed.

#[export] Hint Resolve reads_prefix : fips.

Lemma prefix_len p b : prefix_layout p = Some b -> len b = 4.
Proof.
  unfold prefix_layout. intros H. layout_inv. field_facts. rewrite !len_app.
  change (len (@nil byte)) with 0. lia.
Qed.

(** Lengths and ranges of every part in the context. *)
Ltac wire_facts :=
  repeat match goal with
  | H : prefix_layout ?p = Some ?b |- _ =>
      lazymatch goal with
      | H' : len b = 4 |- _ => fail
      | _ => pose proof (prefix_len p b H)
      end
  end;
  field_facts;
  rewrite ?len_app in *;
  change (len (@nil byte)) with 0 in *.

(** ** Layouts of the packets *)

Definition msg1_layout (m : FmpMsg1) : layout :=
  lguard (len (noiseMsg1 m) =? 106)
  ⊕ (prefix_layout (mkPrefix 0 1 0 (4 + 106)) ⊕ (field 4 (m1_senderIdx m) ⊕ Some (noiseMsg1 m))).

Definition msg2_layout (m : FmpMsg2) : layout :=
  lguard (len (noiseMsg2 m) =? 57)
  ⊕ (prefix_layout (mkPrefix 0 2 0 (4 + 4 + 57))
     ⊕ (field 4 (m2_senderIdx m) ⊕ (field 4 (m2_receiverIdx m) ⊕ Some (noiseMsg2 m)))).

Definition header_layout (h : FmpEstablishedHeader) (payloadLen : Z) : layout :=
  prefix_layout (mkPrefix 0 0 (eh_flags h) payloadLen)
  ⊕ (field 4 (eh_receiverIdx h) ⊕ field 8 (eh_counter h)).

Definition inner_layout (p : FmpInnerPacket) : layout :=
  field 4 (in_timestamp p) ⊕ (field 1 (in_msgType p) ⊕ Some (in_payload p)).

Lemma writes_prefix p :
  writes (prefix ← lift (encodeCommonPrefix p); BinaryWriter.bytes_ prefix) (prefix_layout p).
Proof. apply writes_lift. apply encodeCommonPrefix_Ok. Qed.

#[export] Hint Resolve writes_prefix : fips.

Lemma encodeFmpMsg1_Ok m b : encodeFmpMsg1 m = Ok b <-> msg1_layout m = Some b.
Proof.
  unfold encodeFmpMsg1. rewrite guard_encode_Ok by solve_writes. by rewrite negb_involutive.
Qed.

Lemma encodeFmpMsg2_Ok m b : encodeFmpMsg2 m = Ok b <-> msg2_layout m = Some b.
Proof.
  unfold encodeFmpMsg2. rewrite guard_encode_Ok by solve_writes. by rewrite negb_involutive.
Qed.

Lemma encodeFmpEstablishedHeader_Ok h n b :
  encodeFmpEstablishedHeader h n = Ok b <-> header_layout h n = Some b.
Proof. apply encode_Ok. solve_writes. Qed.

Lemma encodeFmpInner_Ok p b : encodeFmpInner p = Ok b <-> inner_layout p = Some b.
Proof. apply encode_Ok. solve_writes. Qed.

Lemma encodeFmpEstablished_Ok p b :
  encodeFmpEstablished p = Ok b <->
    header_layout (est_header p) (est_payloadLen p) ⊕ Some (est_ciphertext p) = Some b.
Proof.
  unfold encodeFmpEstablished. rewrite lseq_Some. rewrite result_bind_ok.
  setoid_rewrite encodeFmpEstablishedHeader_Ok.
  split; intros (h & Hh & Hb).
  - exists h, (est_ciphertext p). split; [done|]. split; [done|].
    rewrite (encode_Ok _ (Some h ⊕ Some (est_ciphertext p))) in Hb by solve_writes.
    by injection Hb.
  - destruct Hb as (z & Hz & ->). injection Hz as <-. exists h. split; [done|].
    rewrite (encode_Ok _ (Some h ⊕ Some (est_ciphertext p))) by solve_writes. done.
Qed.

(** The fields of every prefix in the context. *)
Ltac prefix_inv :=
  repeat match goal with
  | p : FmpCommonPrefix |- _ => destruct p as [?pversion ?pphase ?pflags ?ppayloadLen]
  end;
  cbn [version phase flags payloadLen] in *; subst.

(** What a decoder run says about the packet: its parts, with the checks done. *)
Ltac decode_fwd H :=
  first [ eapply decode_all_inv in H; [|solve [solve_reads]]
        | eapply decode_prefix_inv in H; [|solve [solve_reads]] ];
  cbv beta in H; layout_inv; bool_split; prefix_inv;
  repeat match goal with u : unit |- _ => destruct u end.

(** A packet of exact length leaves no trailing bytes. *)
Ltac no_trailing :=
  match goal with
  | Hl : len (_ ++ ?r) = _ |- _ => assert (r = []) as -> by (apply len_nil_inv; wire_facts; lia)
  end.

(** The other direction: run the decoder on the parts. *)
Ltac decode_bwd :=
  first [ eapply decode_all; [solve [solve_reads]|]
        | eapply decode_prefix; [solve [solve_reads]|]; eexists _, [];
          rewrite app_nil_r; split; [|reflexivity] ];
  cbv beta; layout_back; layout_close.

Lemma decodeFmpMsg1_Ok m b : decodeFmpMsg1 b = Ok m <-> msg1_layout m = Some b.
Proof.
  unfold decodeFmpMsg1, FMP_MSG1_TOTAL_LEN, NOISE_IK_MSG1_LEN, FMP_VERSION,
    FMP_PHASE_MSG1, msg1_layout. rewrite guard_Ok. split.
  - intros [Hl H]. bool_split. decode_fwd H. no_trailing. cbn [m1_senderIdx noiseMsg1 m2_senderIdx m2_receiverIdx noiseMsg2].
    layout_solve. decide_if. layout_solve.
  - destruct m as [idx noise]. cbn [m1_senderIdx noiseMsg1]. intros H. layout_inv. bool_split. wire_facts. decide_if.
    split; [done|]. decode_bwd.
Qed.

Lemma decodeFmpMsg2_Ok m b : decodeFmpMsg2 b = Ok m <-> msg2_layout m = Some b.
Proof.
  unfold decodeFmpMsg2, FMP_MSG2_TOTAL_LEN, NOISE_IK_MSG2_LEN, FMP_VERSION,
    FMP_PHASE_MSG2, msg2_layout. rewrite guard_Ok. split.
  - intros [Hl H]. bool_split. decode_fwd H. no_trailing. cbn [m1_senderIdx noiseMsg1 m2_senderIdx m2_receiverIdx noiseMsg2].
    layout_solve. decide_if. layout_solve.
  - destruct m as [idx ridx noise]. cbn [m2_senderIdx m2_receiverIdx noiseMsg2]. intros H. layout_inv. bool_split.
    wire_facts. decide_if. split; [done|]. decode_bwd.
Qed.

(** An established packet as the decoder accepts it. *)
Definition est_wf (p : FmpEstablished) : Prop :=
  0 <= eh_flags (est_header p) < 256 /\
  len (est_ciphertext p) = est_payloadLen p + FMP_AEAD_TAG_LEN.

Lemma prefix_payloadLen p b : prefix_layout p = Some b -> 0 <= payloadLen p < 65536.
Proof. unfold prefix_layout. intros H. layout_inv. field_facts. lia. Qed.

Lemma decodeFmpEstablished_Ok p b :
  decodeFmpEstablished b = Ok p <->
    header_layout (est_header p) (est_payloadLen p) ⊕ Some (est_ciphertext p) = Some b /\ est_wf p.
Proof.
  unfold decodeFmpEstablished, FMP_ESTABLISHED_HEADER_LEN, FMP_VERSION,
    FMP_PHASE_ESTABLISHED, est_wf, header_layout, FMP_AEAD_TAG_LEN. rewrite guard_Ok. split.
  - intros [Hl H]. bool_split. decode_fwd H.
    cbn [est_header est_payloadLen est_ciphertext eh_flags eh_receiverIdx eh_counter
      in_timestamp in_msgType in_payload]. split; [layout_solve|done].
  - destruct p as [[fl idx ctr] n ct].
    cbn [est_header est_payloadLen est_ciphertext eh_flags eh_receiverIdx eh_counter].
    intros [H [Hfl Hct]]. layout_inv. wire_facts.
    match goal with H : prefix_layout _ = Some _ |- _ => pose proof (prefix_payloadLen _ _ H) end.
    cbn [payloadLen] in *. decide_if. split; [done|]. decode_bwd.
    + cbn [payloadLen]. by decide_if.
    + by cbn [app]; rewrite <- !app_assoc.
Qed.

Lemma decodeFmpInner_Ok p b : decodeFmpInner b = Ok p <-> inner_layout p = Some b.
Proof.
  unfold decodeFmpInner, inner_layout. rewrite guard_Ok. split.
  - intros [Hl H]. bool_split. decode_fwd H.
    cbn [est_header est_payloadLen est_ciphertext eh_flags eh_receiverIdx eh_counter
      in_timestamp in_msgType in_payload]. layout_solve.
  - destruct p as [ts ty pl]. cbn [in_timestamp in_msgType in_payload].
    intros H. layout_inv. wire_facts.
    match goal with |- context [_ + len ?l] => pose proof (len_nonneg l) end. decide_if. split; [done|].
    decode_bwd.
Qed.

(** The FMP codecs are exact. A handshake decoder and the inner-packet
    decoder accept a byte string exactly when it is what the encoder produces
    for the value they return; the established decoder does so for values whose
    flags are a byte and whose ciphertext is [payload_len] plus the tag. *)
Lemma fmp_codecs_exact :
  (forall m b, decodeFmpMsg1 b = Ok m <-> encodeFmpMsg1 m = Ok b) /\
  (forall m b, decodeFmpMsg2 b = Ok m <-> encodeFmpMsg2 m = Ok b) /\
  (forall p b, decodeFmpInner b = Ok p <-> encodeFmpInner p = Ok b) /\
  (forall p b, decodeFmpEstablished b = Ok p <-> encodeFmpEstablished p = Ok b /\ est_wf p).
Proof.
  split; [|split; [|split]]; intros.
  - by rewrite decodeFmpMsg1_Ok, encodeFmpMsg1_Ok.
  - by rewrite decodeFmpMsg2_Ok, encodeFmpMsg2_Ok.
  - by rewrite decodeFmpInner_Ok, encodeFmpInner_Ok.
  - by rewrite decodeFmpEstablished_Ok, encodeFmpEstablished_Ok.
Qed.

(** ** Dispatch *)

(** The phase nibble of an encoded prefix is the phase. *)
Lemma peek_prefix p b rest :
  prefix_layout p = Some b -> peekFmpPhase (b ++ rest) = Ok (phase p).
Proof.
  intros H. pose proof (prefix_len _ _ H) as Hl. unfold prefix_layout, in_nibble in H.
  layout_inv. bool_split.
  match goal with H : field 1 (version p * _ + _) = _ |- _ =>
    apply field_Some in H as [Hr Hb] end. subst.
  change (256 ^ Z.of_nat 1) with 256 in Hr.
  unfold peekFmpPhase. rewrite len_app, Hl. pose proof (len_nonneg rest). decide_if.
  change (le_bytes 1 (version p * 16 + phase p)) with [z2b (version p * 16 + phase p)].
  cbn [app throw_if mbind result_bind]. f_equal.
  rewrite byte_at_head, b2z_z2b_small, js_and_nibble by lia.
  rewrite Z.add_comm, Z.mod_add by lia. by apply Z.mod_small.
Qed.

Ltac dispatch :=
  layout_inv; rewrite <- ?app_assoc; cbn [app];
  match goal with H : prefix_layout _ = Some _ |- _ => eapply peek_prefix in H; rewrite H; reflexivity end.

(** [peekFmpPhase], by which a node dispatches an incoming frame, never sends
    a packet to the wrong decoder: whatever one of the three decoders accepts has
    that decoder's phase, so at most one decoder accepts a given packet. *)
Lemma fmp_dispatch_sound b :
  (is_ok (decodeFmpMsg1 b) = true -> peekFmpPhase b = Ok FMP_PHASE_MSG1) /\
  (is_ok (decodeFmpMsg2 b) = true -> peekFmpPhase b = Ok FMP_PHASE_MSG2) /\
  (is_ok (decodeFmpEstablished b) = true -> peekFmpPhase b = Ok FMP_PHASE_ESTABLISHED).
Proof.
  split; [|split].
  - destruct (decodeFmpMsg1 b) as [m|] eqn:E; [|done]. intros _.
    apply decodeFmpMsg1_Ok in E. unfold msg1_layout in E. by dispatch.
  - destruct (decodeFmpMsg2 b) as [m|] eqn:E; [|done]. intros _.
    apply decodeFmpMsg2_Ok in E. unfold msg2_layout in E. by dispatch.
  - destruct (decodeFmpEstablished b) as [p|] eqn:E; [|done]. intros _.
    apply decodeFmpEstablished_Ok in E as [E _]. unfold header_layout in E. by dispatch.
Qed.
