(* ===== verification/FspWire.v ===== *)
(** * FSP frames

    [fsp/wire.ts]: the end-to-end layer's handshake frames, established packets
    with their optional coordinates, the inner packets and the service
    datagrams, with the theorems that the decoders are exact. *)

From S2P Require Import Prelude Codec NodeAddr FmpWire.

Definition FSP_VERSION : Z := 0.
Definition FSP_PHASE_ESTABLISHED : Z := 0x0.
Definition FSP_PHASE_MSG1 : Z := 0x1.
Definition FSP_PHASE_MSG2 : Z := 0x2.
Definition FSP_PHASE_MSG3 : Z := 0x3.
Definition NOISE_XK_MSG1_LEN : Z := 33.
Definition NOISE_XK_MSG2_LEN : Z := 57.
Definition NOISE_XK_MSG3_LEN : Z := 73.
Definition FSP_ESTABLISHED_HEADER_LEN : Z := 4 + 8.
Definition FSP_AEAD_TAG_LEN : Z := 16.
Definition FSP_INNER_HEADER_LEN : Z := 4 + 1 + 1.
Definition FSP_FLAG_CP : Z := 0x01.
Definition FSP_FLAG_K : Z := 0x02.
Definition FSP_FLAG_U : Z := 0x04.
Definition FSP_FLAG_DIRECT_TRANSPORT : Z := 0x08.
Definition FSP_MSG_KEEPALIVE : Z := 0x00.
Definition FSP_MSG_DATA : Z := 0x10.
Definition FSP_MSG_RECEIVER_REPORT : Z := 0x12.
Definition FSP_MSG_COORDS_WARMUP : Z := 0x14.
Definition FSP_MSG_ENDPOINT_DATA : Z := 0x15.
Definition FSP_MSG_TRAVERSAL_OFFER : Z := 0x16.
Definition FSP_MSG_TRAVERSAL_ANSWER : Z := 0x17.

Definition FspCommonPrefix : Type := FmpCommonPrefix.

Definition encodeFspCommonPrefix (p : FspCommonPrefix) : result bytes :=
  throw_if ((version p <? 0) || (version p >? 0xf)) (RangeError "version 4-bit");;
  throw_if ((phase p <? 0) || (phase p >? 0xf)) (RangeError "phase 4-bit");;
  BinaryWriter.encode
    (BinaryWriter.u8 (js_or (js_shl (js_and (version p) 0xf) 4) (js_and (phase p) 0xf));;
     BinaryWriter.u8 (js_and (flags p) 0xff);;
     BinaryWriter.u16le (payloadLen p)).

Definition decodeFspCommonPrefix : ST BinaryReader.t FspCommonPrefix :=
  versionAndPhase ← BinaryReader.u8;
  flags ← BinaryReader.u8;
  payloadLen ← BinaryReader.u16le;
  mret (mkPrefix (js_and (js_ushr versionAndPhase 4) 0xf) (js_and versionAndPhase 0xf) flags payloadLen).

Definition isDirectFspEstablished (buf : bytes) : bool :=
  if len buf <? FSP_ESTABLISHED_HEADER_LEN then false
  else (js_ushr (byte_at buf 0) 4 =? FSP_VERSION)
    && (js_and (byte_at buf 0) 0x0f =? FSP_PHASE_ESTABLISHED)
    && negb (js_and (byte_at buf 1) FSP_FLAG_DIRECT_TRANSPORT =? 0).

(** ** Handshake frames *)

(** The type [1 | 2 | 3] of a handshake phase. *)
Inductive HandshakePhase := Msg1 | Msg2 | Msg3.

Definition phase_z (p : HandshakePhase) : Z := match p with Msg1 => 1 | Msg2 => 2 | Msg3 => 3 end.

Definition phase_of_z (z : Z) : option HandshakePhase :=
  if z =? 1 then Some Msg1 else if z =? 2 then Some Msg2 else if z =? 3 then Some Msg3 else None.

Definition XK_MSG_LEN (p : HandshakePhase) : Z :=
  match p with Msg1 => NOISE_XK_MSG1_LEN | Msg2 => NOISE_XK_MSG2_LEN | Msg3 => NOISE_XK_MSG3_LEN end.

Record FspHandshakeFrame := mkHandshake { hs_phase : HandshakePhase; noiseMsg : bytes }.

Definition encodeFspHandshake (f : FspHandshakeFrame) : result bytes :=
  let expectedLen := XK_MSG_LEN (hs_phase f) in
  throw_if (negb (len (noiseMsg f) =? expectedLen)) (Error "XK msg length");;
  BinaryWriter.encode
    ((prefix ← lift (encodeFspCommonPrefix (mkPrefix FSP_VERSION (phase_z (hs_phase f)) 0 expectedLen));
      BinaryWriter.bytes_ prefix);;
     BinaryWriter.bytes_ (noiseMsg f)).

Definition decodeFspHandshake (buf : bytes) : result FspHandshakeFrame :=
  BinaryReader.decode
    (prefix ← decodeFspCommonPrefix;
     throw_when (negb (version prefix =? FSP_VERSION)) (Error "bad FSP version");;
     phase ← lift (match phase_of_z (phase prefix) with
                   | Some p => Ok p
                   | None => Throw (Error "not an FSP handshake phase")
                   end);
     throw_when (negb (flags prefix =? 0)) (Error "FSP handshake flags must be zero");;
     throw_when (negb (payloadLen prefix =? XK_MSG_LEN phase)) (Error "FSP msg payload_len");;
     noiseMsg ← BinaryReader.bytes_ (XK_MSG_LEN phase);
     mret (mkHandshake phase noiseMsg)) buf.

(** ** Established packets *)

Record FspEstablished := mkFspEst {
  fe_flags : Z;
  fe_counter : Z;
  fe_payloadLen : Z;
  fe_srcCoords : option (list bytes);
  fe_destCoords : option (list bytes);
  fe_ciphertext : bytes;
}.

Definition has_flag (flags f : Z) : bool := negb (js_and flags f =? 0).

Definition encodeFspEstablishedHeader (h_flags h_counter payloadLen : Z) : result bytes :=
  BinaryWriter.encode
    ((prefix ← lift (encodeFspCommonPrefix (mkPrefix FSP_VERSION FSP_PHASE_ESTABLISHED h_flags payloadLen));
      BinaryWriter.bytes_ prefix);;
     BinaryWriter.u64le h_counter).

Definition encodeOptionalCoords (coords : option (list bytes)) : ST BinaryWriter.t unit :=
  let count := match coords with Some l => len l | None => 0 end in
  throw_when (count >? 0xffff) (Error "too many coordinate entries");;
  BinaryWriter.u16le count;;
  for_each (fun addr =>
    throw_when (negb (len addr =? 16)) (Error "coordinate NodeAddr must be 16 bytes");;
    BinaryWriter.bytes_ addr) (default [] coords).

Definition decodeOptionalCoords (buf : bytes) (offset : Z) : result (option (list bytes) * Z) :=
  throw_if (len buf <? offset + 2) (Error "FSP coordinate field too short");;
  let count := js_or (byte_at buf offset) (js_shl (byte_at buf (offset + 1)) 8) in
  let len_ := 2 + count * 16 in
  throw_if (len buf <? offset + len_) (Error "FSP coordinate entries truncated");;
  if count =? 0 then Ok (None, len_)
  else Ok (Some (map (fun i => let start := offset + 2 + Z.of_nat i * 16 in
                               subarray buf start (start + 16)) (seq 0 (Z.to_nat count))), len_).

Definition encodeFspEstablished (p : FspEstablished) : result bytes :=
  throw_if (negb (len (fe_ciphertext p) =? fe_payloadLen p + FSP_AEAD_TAG_LEN))
    (Error "ciphertext length != payload_len+tag");;
  header ← encodeFspEstablishedHeader (fe_flags p) (fe_counter p) (fe_payloadLen p);
  BinaryWriter.encode
    (BinaryWriter.bytes_ header;;
     (if has_flag (fe_flags p) FSP_FLAG_CP
      then encodeOptionalCoords (fe_srcCoords p);; encodeOptionalCoords (fe_destCoords p)
      else mret tt);;
     BinaryWriter.bytes_ (fe_ciphertext p)).

Definition decodeFspEstablished (buf : bytes) : result FspEstablished :=
  throw_if (len buf <? FSP_ESTABLISHED_HEADER_LEN + FSP_AEAD_TAG_LEN) (Error "FSP Established too short");;
  BinaryReader.decode
    (prefix ← decodeFspCommonPrefix;
     throw_when (negb (version prefix =? FSP_VERSION)) (Error "bad FSP version");;
     throw_when (negb (phase prefix =? FSP_PHASE_ESTABLISHED)) (Error "not FSP Established");;
     throw_when (has_flag (flags prefix) FSP_FLAG_U)
       (Error "plaintext FSP error frames are not supported here");;
     counter ← BinaryReader.u64le;
     ciphertext ← BinaryReader.rest;
     lift
       ('(srcCoords, destCoords, ciphertext) ←
          (if has_flag (flags prefix) FSP_FLAG_CP then
             '(src, srcRead) ← decodeOptionalCoords ciphertext 0;
             '(dest, destRead) ← decodeOptionalCoords ciphertext srcRead;
             mret (src, dest, subarray_from ciphertext (srcRead + destRead))
           else mret (None, None, ciphertext));
        throw_if (negb (len ciphertext =? payloadLen prefix + FSP_AEAD_TAG_LEN))
          (Error "FSP payload_len mismatch");;
        mret (mkFspEst (flags prefix) counter (payloadLen prefix) srcCoords destCoords ciphertext))) buf.

(** ** Inner packets *)

Record FspInnerPacket := mkFspInner {
  fi_timestamp : Z; fi_msgType : Z; fi_innerFlags : Z; fi_payload : bytes }.

Definition encodeFspInner (p : FspInnerPacket) : result bytes :=
  BinaryWriter.encode
    (BinaryWriter.u32le (fi_timestamp p);;
     BinaryWriter.u8 (fi_msgType p);;
     BinaryWriter.u8 (fi_innerFlags p);;
     BinaryWriter.bytes_ (fi_payload p)).

Definition decodeFspInner (buf : bytes) : result FspInnerPacket :=
  throw_if (len buf <? FSP_INNER_HEADER_LEN) (Error "FSP inner packet too short");;
  BinaryReader.decode
    (timestamp ← BinaryReader.u32le;
     msgType ← BinaryReader.u8;
     innerFlags ← BinaryReader.u8;
     payload ← BinaryReader.rest;
     mret (mkFspInner timestamp msgType innerFlags payload)) buf.

Record DataPacket := mkData { srcPort : Z; dstPort : Z; dp_payload : bytes }.

Definition encodeDataPacket (p : DataPacket) : result bytes :=
  BinaryWriter.encode
    (BinaryWriter.u16le (srcPort p);;
     BinaryWriter.u16le (dstPort p);;
     BinaryWriter.bytes_ (dp_payload p)).

Definition decodeDataPacket (buf : bytes) : result DataPacket :=
  throw_if (len buf <? 4) (Error "DataPacket too short");;
  BinaryReader.decode
    (srcPort ← BinaryReader.u16le;
     dstPort ← BinaryReader.u16le;
     payload ← BinaryReader.rest;
     mret (mkData srcPort dstPort payload)) buf.

Definition peekFspPhase (buf : bytes) : result Z :=
  throw_if (len buf <? 1) (Error "empty FSP packet");;
  Ok (js_and (byte_at buf 0) 0xf).

(** ** Optional coordinates *)

Lemma js_le16 x y : js_or (b2z x) (js_shl (b2z y) 8) = le_val [x; y].
Proof.
  pose proof (b2z_range x). pose proof (b2z_range y).
  unfold js_or, js_shl. rewrite Z.shiftl_mul_pow2 by lia.
  rewrite (to_int32_id (b2z x)), (to_int32_id (b2z y)), (to_int32_id (b2z y * 2 ^ 8)), (to_int32_id (b2z y * 2 ^ 8)) by lia.
  rewrite lor_disjoint by lia. rewrite to_int32_id by lia. cbn [le_val]. lia.
Qed.

Lemma writes_optionalCoords c :
  writes (encodeOptionalCoords c) (coords_layout (default [] c)).
Proof.
  unfold encodeOptionalCoords.
  assert ((match c with Some l => len l | None => 0 end) = len (default [] c)) as -> by by destruct c.
  eapply writes_ext; [|apply writes_seq; [apply writes_throw_when|apply writes_seq;
    [apply writes_u16le | apply writes_for_each; intros; apply writes_addr]]].
  unfold coords_layout, lseq, lguard, field. change (256 ^ Z.of_nat 2) with 65536.
  rewrite Z.gtb_ltb. pose proof (len_nonneg (default [] c)).
  destruct (Z.ltb_spec 0xffff (len (default [] c))); cbn [negb mbind option_bind].
  - by decide_if.
  - decide_if. by destruct (lconcat _).
Qed.

Lemma byte_at_mid0' pre x bs : byte_at (pre ++ x :: bs) (len pre) = b2z x.
Proof. rewrite <- (Z.add_0_r (len pre)), byte_at_app_l by lia. reflexivity. Qed.

Lemma byte_at_mid1' pre x y bs : byte_at (pre ++ x :: y :: bs) (len pre + 1) = b2z y.
Proof. rewrite byte_at_app_l by lia. reflexivity. Qed.

(** What the coordinate decoder returns: [undefined] rather than an empty array. *)
Definition coords_norm (c : option (list bytes)) : Prop := c <> Some [].

Lemma decodeOptionalCoords_Ok pre bs c n :
  decodeOptionalCoords (pre ++ bs) (len pre) = Ok (c, n) <->
    exists b rest, bs = b ++ rest /\ n = len b /\
      coords_layout (default [] c) = Some b /\ coords_norm c.
Proof.
  unfold decodeOptionalCoords. rewrite len_app, guard_Ok. cbv zeta. split.
  - intros [Hl H]. bool_split.
    destruct bs as [|x [|y bs]]; try (unfold len in Hl; simpl in Hl; lia).
    revert H. rewrite byte_at_mid0' , byte_at_mid1', js_le16.
    set (k := le_val [x; y]) in *. pose proof (le_val_range [x; y]) as Hk. fold k in Hk.
    change (256 ^ len [x; y]) with 65536 in Hk.
    rewrite guard_Ok. intros [Hl2 H]. bool_split. rewrite !len_cons in Hl2.
    destruct (chunks_exist 16 (Z.to_nat k) (take (Z.to_nat (k * 16)) bs)) as (l & Hlk & Hf & E).
    { lia. } { unfold len in *. rewrite length_take. lia. }
    assert (Ebs : bs = concat l ++ drop (Z.to_nat (k * 16)) bs) by by rewrite <- E, take_drop.
    assert (Elen : len l = k) by (unfold len; lia).
    exists ([x; y] ++ concat l), (drop (Z.to_nat (k * 16)) bs).
    assert (Hlay : coords_layout l = Some ([x; y] ++ concat l)).
    { apply coords_layout_Some. split; [lia|]. split; [done|]. f_equal.
      rewrite Elen. symmetry. apply (le_bytes_val [x; y]). }
    assert (Hb : len ([x; y] ++ concat l) = 2 + k * 16) by (rewrite <- Elen; by apply coords_layout_len).
    split; [|split]; [by rewrite Ebs at 1|..]; destruct (Z.eqb_spec k 0) as [Hk0|Hk0];
      injection H as <- <-; try lia.
    + split; [|done]. assert (l = []) as -> by (apply len_nil_inv; lia). done.
    + rewrite Ebs.
      assert (Hs := slice_entries 16 l (pre ++ [x; y]) (drop (Z.to_nat (k * 16)) bs) ltac:(lia) Hf).
      rewrite <- app_assoc in Hs. cbn [app] in Hs. rewrite len_app in Hs.
      change (len [x; y]) with 2 in Hs. rewrite Hlk in Hs. rewrite Hs. split; [done|].
      unfold coords_norm. intros [= ->]. simpl in Elen. done.
  - intros (b & rest & -> & -> & Hc & Hn). pose proof (coords_layout_len _ _ Hc) as Hbl.
    apply coords_layout_Some in Hc as (Hl & Hf & ->).
    set (l := default [] c) in *. pose proof (len_nonneg l). pose proof (len_nonneg rest).
    rewrite len_app, Hbl.
    assert (exists x y, le_bytes 2 (len l) = [x; y]) as (x & y & Exy) by (eexists _, _; reflexivity).
    rewrite Exy in *. cbn [app]. rewrite byte_at_mid0', byte_at_mid1', js_le16, <- Exy.
    rewrite le_val_bytes by (change (256 ^ Z.of_nat 2) with 65536; lia).
    rewrite guard_Ok. decide_if. split; [done|]. split; [done|].
    destruct c as [l'|]; [|done]. change (default [] (Some l')) with l' in l. subst l.
    destruct (Z.eqb_spec (len l') 0) as [Hz|Hz]; [by apply len_nil_inv in Hz as ->|].
    do 3 f_equal.
    assert (Hs := slice_entries 16 l' (pre ++ [x; y]) rest ltac:(lia) Hf).
    rewrite <- app_assoc in Hs. cbn [app] in Hs. rewrite len_app in Hs.
    change (len [x; y]) with 2 in Hs. replace (Z.to_nat (len l')) with (length l') by (unfold len; lia). exact Hs.
Qed.

(** ** Prefix *)

(** The two layers use the same prefix. *)
Lemma encodeFspCommonPrefix_Ok p b : encodeFspCommonPrefix p = Ok b <-> prefix_layout p = Some b.
Proof. apply encodeCommonPrefix_Ok. Qed.

Lemma reads_fsp_prefix :
  reads decodeFspCommonPrefix (fun p b => prefix_layout p = Some b /\ 0 <= flags p < 256).
Proof. exact reads_prefix. Qed.

#[export] Hint Resolve reads_fsp_prefix : fips.

Lemma writes_fsp_prefix p :
  writes (prefix ← lift (encodeFspCommonPrefix p); BinaryWriter.bytes_ prefix) (prefix_layout p).
Proof. apply writes_lift, encodeFspCommonPrefix_Ok. Qed.

#[export] Hint Resolve writes_fsp_prefix : fips.

(** ** Handshake frames *)

Definition handshake_layout (f : FspHandshakeFrame) : layout :=
  lguard (len (noiseMsg f) =? XK_MSG_LEN (hs_phase f))
  ⊕ (prefix_layout (mkPrefix 0 (phase_z (hs_phase f)) 0 (XK_MSG_LEN (hs_phase f))) ⊕ Some (noiseMsg f)).

Lemma encodeFspHandshake_Ok f b : encodeFspHandshake f = Ok b <-> handshake_layout f = Some b.
Proof.
  unfold encodeFspHandshake. cbv zeta. rewrite guard_encode_Ok by solve_writes.
  by rewrite negb_involutive.
Qed.

Lemma phase_of_z_Some z p : phase_of_z z = Some p <-> z = phase_z p.
Proof.
  unfold phase_of_z. destruct (Z.eqb_spec z 1), (Z.eqb_spec z 2), (Z.eqb_spec z 3), p; simpl;
    split; intros; simplify_eq; try lia; done.
Qed.

(** The decoder reads the frame at the start of the buffer and ignores what
    follows it. *)
Lemma decodeFspHandshake_Ok f b :
  decodeFspHandshake b = Ok f <-> exists b1 rest, b = b1 ++ rest /\ handshake_layout f = Some b1.
Proof.
  unfold decodeFspHandshake.
  rewrite decode_prefix; [|apply reads_bind; [apply reads_fsp_prefix|intros pf];
    apply reads_bind; [apply reads_throw_when|intros u];
    apply reads_bind; [apply reads_lift|intros ph];
    apply reads_bind; [apply reads_throw_when|intros u1];
    apply reads_bind; [apply reads_throw_when|intros u2];
    apply reads_bind; [apply reads_raw; by destruct ph|intros nm]; apply reads_ret].
  cbv beta. unfold FSP_VERSION, handshake_layout. split.
  - intros H. layout_inv. bool_split.
    prefix_inv.
    match goal with H : match phase_of_z ?z with _ => _ end = _ |- _ =>
      destruct (phase_of_z z) eqn:Eph; [|discriminate H]; injection H as -> end.
    apply phase_of_z_Some in Eph as ->. cbn [hs_phase noiseMsg].
    eexists _, _. split; [reflexivity|]. layout_solve. decide_if. reflexivity.
  - intros (b1 & rest & -> & H). destruct f as [ph nm]. cbn [hs_phase noiseMsg] in *.
    apply lseq_Some in H as (g & ? & [Hl ->]%lguard_Some & (bp & bn & Hp & [= <-] & ->)%lseq_Some & ->).
    bool_split. exists (bp ++ nm), rest. split; [|by cbn [app]].
    exists (mkPrefix 0 (phase_z ph) 0 (XK_MSG_LEN ph)), bp, nm. split; [split; [done|cbn; lia]|].
    split; [|done].
    eexists tt, [], nm. split; [done|]. split; [|done].
    eexists ph, [], nm. cbn [phase]. rewrite (proj2 (phase_of_z_Some (phase_z ph) ph) eq_refl).
    split; [done|]. split; [|done].
    eexists tt, [], nm. split; [done|]. split; [|done].
    eexists tt, [], nm. cbn [payloadLen]. rewrite Z.eqb_refl. split; [done|]. split; [|done].
    eexists nm, nm, []. rewrite app_nil_r. split; [by apply raw_Some|]. done.
Qed.

(** ** Established packets *)

Definition fsp_header_layout (fl ctr pl : Z) : layout :=
  prefix_layout (mkPrefix 0 0 fl pl) ⊕ field 8 ctr.

Definition est_coords_layout (p : FspEstablished) : layout :=
  if has_flag (fe_flags p) FSP_FLAG_CP
  then coords_layout (default [] (fe_srcCoords p)) ⊕ coords_layout (default [] (fe_destCoords p))
  else Some [].

Definition fsp_est_layout (p : FspEstablished) : layout :=
  lguard (len (fe_ciphertext p) =? fe_payloadLen p + FSP_AEAD_TAG_LEN)
  ⊕ (fsp_header_layout (fe_flags p) (fe_counter p) (fe_payloadLen p)
     ⊕ (est_coords_layout p ⊕ Some (fe_ciphertext p))).

(** A packet as the decoder returns it: no plaintext-error flag, no empty
    coordinate arrays, no coordinates without the flag that announces them. *)
Definition fsp_est_wf (p : FspEstablished) : Prop :=
  0 <= fe_flags p < 256 /\
  has_flag (fe_flags p) FSP_FLAG_U = false /\
  coords_norm (fe_srcCoords p) /\ coords_norm (fe_destCoords p) /\
  (has_flag (fe_flags p) FSP_FLAG_CP = false -> fe_srcCoords p = None /\ fe_destCoords p = None).

Lemma encodeFspEstablishedHeader_Ok fl ctr pl b :
  encodeFspEstablishedHeader fl ctr pl = Ok b <-> fsp_header_layout fl ctr pl = Some b.
Proof. apply encode_Ok. solve_writes. Qed.

Lemma writes_est_coords p :
  writes (if has_flag (fe_flags p) FSP_FLAG_CP
          then encodeOptionalCoords (fe_srcCoords p);; encodeOptionalCoords (fe_destCoords p)
          else mret tt) (est_coords_layout p).
Proof.
  unfold est_coords_layout. destruct (has_flag _ _); [|apply writes_ret].
  apply writes_seq; apply writes_optionalCoords.
Qed.

Lemma encodeFspEstablished_Ok p b : encodeFspEstablished p = Ok b <-> fsp_est_layout p = Some b.
Proof.
  unfold encodeFspEstablished, fsp_est_layout. rewrite guard_Ok, lseq_Some.
  setoid_rewrite lguard_Some. rewrite result_bind_ok. setoid_rewrite encodeFspEstablishedHeader_Ok.
  assert (E : forall h, BinaryWriter.encode
     (BinaryWriter.bytes_ h;; (if has_flag (fe_flags p) FSP_FLAG_CP
        then encodeOptionalCoords (fe_srcCoords p);; encodeOptionalCoords (fe_destCoords p)
        else mret tt);; BinaryWriter.bytes_ (fe_ciphertext p)) = Ok b <->
     Some h ⊕ (est_coords_layout p ⊕ Some (fe_ciphertext p)) = Some b).
  { intros h. apply encode_Ok. apply writes_seq; [apply writes_bytes|].
    apply writes_seq; [apply writes_est_coords|apply writes_bytes]. }
  setoid_rewrite E. split.
  - intros [Hc (h & Hh & Hb)]. apply negb_false_iff in Hc. exists [], b.
    split; [done|]. split; [|done]. by rewrite Hh.
  - intros (y & z & [Hc ->] & Hb & ->). split; [by rewrite Hc|].
    apply lseq_Some in Hb as (h & r & Hh & Hr & ->). exists h. split; [done|].
    apply lseq_Some. exists h, r. by split.
Qed.

(** The coordinates and the ciphertext, as the decoder cuts them. *)
Definition cut_coords (cp : bool) (body : bytes) : result (option (list bytes) * option (list bytes) * bytes) :=
  if cp then
    '(src, srcRead) ← decodeOptionalCoords body 0;
    '(dest, destRead) ← decodeOptionalCoords body srcRead;
    mret (src, dest, subarray_from body (srcRead + destRead))
  else mret (None, None, body).

Lemma cut_coords_Ok cp body src dest ct :
  cut_coords cp body = Ok (src, dest, ct) <->
    (if cp then coords_layout (default [] src) ⊕ coords_layout (default [] dest) else Some [])
      ⊕ Some ct = Some body /\
    coords_norm src /\ coords_norm dest /\ (cp = false -> src = None /\ dest = None).
Proof.
  destruct cp; cbn [cut_coords].
  - rewrite result_bind_ok. split.
    + intros ([s sn] & Hs & H). apply result_bind_ok in H as ([d dn] & Hd & H).
      injection H as -> -> <-.
      apply (decodeOptionalCoords_Ok []) in Hs as (bs & r & -> & -> & Hs & Hsn). cbn [app] in Hd.
      apply decodeOptionalCoords_Ok in Hd as (bd & r' & -> & -> & Hd & Hdn).
      rewrite app_assoc, subarray_from_app by (by rewrite len_app).
      rewrite Hs, Hd. unfold lseq. cbn [mbind option_bind]. done.
    + intros (H & Hs & Hd & _).
      apply lseq_Some in H as (bc & ? & (bs & bd & Es & Ed & ->)%lseq_Some & [= <-] & ->).
      exists (src, len bs). split.
      { apply (decodeOptionalCoords_Ok []). exists bs, (bd ++ ct). by rewrite (app_assoc bs bd ct). }
      rewrite <- app_assoc. apply result_bind_ok. exists (dest, len bd). split.
      { apply decodeOptionalCoords_Ok. by exists bd, ct. }
      rewrite app_assoc, subarray_from_app by (by rewrite len_app). done.
  - unfold coords_norm. split.
    + intros [= <- <- <-]. done.
    + intros (H & _ & _ & Hn). layout_inv. by destruct Hn as [-> ->].
Qed.

Lemma decodeFspEstablished_Ok p b :
  decodeFspEstablished b = Ok p <-> fsp_est_layout p = Some b /\ fsp_est_wf p.
Proof.
  unfold decodeFspEstablished, FSP_ESTABLISHED_HEADER_LEN, FSP_AEAD_TAG_LEN, FSP_VERSION,
    FSP_PHASE_ESTABLISHED. rewrite guard_Ok.
  rewrite decode_all by solve_reads. cbv beta. unfold fsp_est_layout, fsp_header_layout, fsp_est_wf.
  split.
  - intros [Hlen H]. apply Z.ltb_ge in Hlen. layout_inv. bool_split. prefix_inv.
    match goal with H : _ ≫= _ = Ok p |- _ =>
      apply result_bind_ok in H as ([[src dest] ct] & Hc & Hr) end.
    apply guard_Ok in Hr as [Hct Hr]. apply negb_false_iff in Hct. injection Hr as <-.
    apply cut_coords_Ok in Hc as (Hc & Hsn & Hdn & Hn).
    unfold est_coords_layout. cbn [fe_flags fe_counter fe_payloadLen fe_srcCoords fe_destCoords fe_ciphertext].
    split; [|done]. unfold FSP_AEAD_TAG_LEN. rewrite Hct, Hc. layout_solve.
  - intros [H (Hfl & Hu & Hsn & Hdn & Hn)].
    apply lseq_Some in H as (g & ? & [Hl ->]%lguard_Some & H & ->).
    apply lseq_Some in H as (h & body & Hh & Hbody & ->).
    apply lseq_Some in Hh as (bp & bc & Hp & Hc & ->). cbn [app].
    assert (Hlen : 28 <= len ((bp ++ bc) ++ body)).
    { apply lseq_Some in Hbody as (x & y & _ & [= <-] & ->).
      apply Z.eqb_eq in Hl. pose proof (prefix_payloadLen _ _ Hp). wire_facts. cbn in *.
      pose proof (len_nonneg x). unfold FSP_AEAD_TAG_LEN in *. lia. }
    split; [by apply Z.ltb_ge|].
    exists (mkPrefix 0 0 (fe_flags p) (fe_payloadLen p)), bp, (bc ++ body).
    split; [by split|]. split; [|by rewrite app_assoc].
    eexists tt, [], (bc ++ body). split; [done|]. split; [|done].
    eexists tt, [], (bc ++ body). split; [done|]. split; [|done].
    eexists tt, [], (bc ++ body). split; [done|]. split; [|done].
    eexists (fe_counter p), bc, body. split; [done|]. split; [|done].
    apply result_bind_ok. exists (fe_srcCoords p, fe_destCoords p, fe_ciphertext p).
    split; [by apply cut_coords_Ok|]. apply guard_Ok. cbn [payloadLen flags].
    split; [by apply negb_false_iff|]. by destruct p.
Qed.

(** ** Inner packets *)

Definition fsp_inner_layout (p : FspInnerPacket) : layout :=
  field 4 (fi_timestamp p)
  ⊕ (field 1 (fi_msgType p) ⊕ (field 1 (fi_innerFlags p) ⊕ Some (fi_payload p))).

Definition data_layout (p : DataPacket) : layout :=
  field 2 (srcPort p) ⊕ (field 2 (dstPort p) ⊕ Some (dp_payload p)).

Lemma decodeFspInner_Ok p b : decodeFspInner b = Ok p <-> fsp_inner_layout p = Some b.
Proof.
  unfold decodeFspInner, fsp_inner_layout, FSP_INNER_HEADER_LEN. rewrite guard_Ok. split.
  - intros [Hl H]. bool_split. decode_fwd H. cbn [fi_timestamp fi_msgType fi_innerFlags fi_payload]. layout_solve.
  - destruct p as [ts ty fl pl]. intros H. cbn in H |- *. layout_inv. wire_facts.
    match goal with |- context [_ + len ?l] => pose proof (len_nonneg l) end. decide_if.
    split; [done|]. decode_bwd.
Qed.

Lemma decodeDataPacket_Ok p b : decodeDataPacket b = Ok p <-> data_layout p = Some b.
Proof.
  unfold decodeDataPacket, data_layout. rewrite guard_Ok. split.
  - intros [Hl H]. bool_split. decode_fwd H. cbn [srcPort dstPort dp_payload]. layout_solve.
  - destruct p as [s d pl]. intros H. cbn in H |- *. layout_inv. wire_facts.
    match goal with |- context [_ + len ?l] => pose proof (len_nonneg l) end. decide_if.
    split; [done|]. decode_bwd.
Qed.

Lemma encodeFspInner_Ok p b : encodeFspInner p = Ok b <-> fsp_inner_layout p = Some b.
Proof. apply encode_Ok. solve_writes. Qed.

Lemma encodeDataPacket_Ok p b : encodeDataPacket p = Ok b <-> data_layout p = Some b.
Proof. apply encode_Ok. solve_writes. Qed.

(** The FSP codecs are exact. An inner packet and a service datagram decode
    to a value exactly when the bytes are that value's encoding; an established
    packet does so for the values the decoder can return (no plaintext-error
    flag, coordinates only under their flag and never an empty array); a
    handshake frame decodes from any buffer that starts with its encoding. *)
Lemma fsp_codecs_exact :
  (forall p b, decodeFspInner b = Ok p <-> encodeFspInner p = Ok b) /\
  (forall p b, decodeDataPacket b = Ok p <-> encodeDataPacket p = Ok b) /\
  (forall p b, decodeFspEstablished b = Ok p <-> encodeFspEstablished p = Ok b /\ fsp_est_wf p) /\
  (forall f b, decodeFspHandshake b = Ok f <->
     exists frame rest, b = frame ++ rest /\ encodeFspHandshake f = Ok frame).
Proof.
  split; [|split; [|split]]; intros.
  - by rewrite decodeFspInner_Ok, encodeFspInner_Ok.
  - by rewrite decodeDataPacket_Ok, encodeDataPacket_Ok.
  - by rewrite decodeFspEstablished_Ok, encodeFspEstablished_Ok.
  - rewrite decodeFspHandshake_Ok. by setoid_rewrite encodeFspHandshake_Ok.
Qed.

(** ** Records on the adjacent transport *)

(** The two header bytes that [isDirectFspEstablished] looks at. *)
Lemma prefix_head p b :
  prefix_layout p = Some b ->
  exists b0 b1 t, b = b0 :: b1 :: t /\
    b2z b0 = version p * 16 + phase p /\ b2z b1 = flags p mod 256 /\
    0 <= version p < 16 /\ 0 <= phase p < 16.
Proof.
  unfold prefix_layout, in_nibble. intros H.
  apply lseq_Some in H as (x & b2 & H & _ & ->).
  apply lseq_Some in H as (x1 & b1 & H & Hb1 & ->).
  apply lseq_Some in H as (g & b0 & [Hg ->]%lguard_Some & Hb0 & ->).
  apply field_Some in Hb0 as [R0 ->], Hb1 as [R1 ->].
  change (256 ^ Z.of_nat 1) with 256 in *. bool_split.
  eexists _, _, _. split; [reflexivity|]. rewrite !b2z_z2b_small by lia. lia.
Qed.

(** The test by which a node tells records of the direct data plane from mesh
    frames is exact: an encoded established FSP packet passes it exactly when
    its direct-transport flag is set, and no FMP handshake packet passes it. *)
Lemma direct_record_test_exact :
  (forall p b, encodeFspEstablished p = Ok b ->
     isDirectFspEstablished b = has_flag (fe_flags p mod 256) FSP_FLAG_DIRECT_TRANSPORT) /\
  (forall m b, encodeFmpMsg1 m = Ok b -> isDirectFspEstablished b = false) /\
  (forall m b, encodeFmpMsg2 m = Ok b -> isDirectFspEstablished b = false).
Proof.
  split; [|split].
  - intros p b H%encodeFspEstablished_Ok. unfold fsp_est_layout, fsp_header_layout in H.
    apply lseq_Some in H as (g & ? & [_ ->]%lguard_Some & H & ->).
    apply lseq_Some in H as (h & body & Hh & Hbody & ->).
    apply lseq_Some in Hh as (bp & bc & Hp & Hc & ->). cbn [app].
    pose proof (prefix_len _ _ Hp) as Hl. apply field_len in Hc as Hlc.
    destruct (prefix_head _ _ Hp) as (b0 & b1 & t & -> & E0 & E1 & _).
    cbn [version phase flags] in *. unfold isDirectFspEstablished, FSP_ESTABLISHED_HEADER_LEN.
    rewrite !len_app, Hl, Hlc. pose proof (len_nonneg body). decide_if.
    cbn [app]. change (byte_at (b0 :: ?l) 0) with (b2z b0). change (byte_at (b0 :: b1 :: ?l) 1) with (b2z b1).
    rewrite E0, E1. reflexivity.
  - intros m b H%encodeFmpMsg1_Ok. unfold msg1_layout in H.
    apply lseq_Some in H as (g & ? & [_ ->]%lguard_Some & H & ->).
    apply lseq_Some in H as (bp & r & Hp & _ & ->).
    destruct (prefix_head _ _ Hp) as (b0 & b1 & t & -> & E0 & _).
    unfold isDirectFspEstablished. destruct (_ <? _); [done|].
    change (byte_at ([] ++ (b0 :: b1 :: t) ++ r) 0) with (b2z b0). by rewrite E0.
  - intros m b H%encodeFmpMsg2_Ok. unfold msg2_layout in H.
    apply lseq_Some in H as (g & ? & [_ ->]%lguard_Some & H & ->).
    apply lseq_Some in H as (bp & r & Hp & _ & ->).
    destruct (prefix_head _ _ Hp) as (b0 & b1 & t & -> & E0 & _).
    unfold isDirectFspEstablished. destruct (_ <? _); [done|].
    change (byte_at ([] ++ (b0 :: b1 :: t) ++ r) 0) with (b2z b0). by rewrite E0.
Qed.
