(* ===== verification/Link.v ===== *)
(** * Link messages

    [protocol/link.ts] (the message-type registry, Disconnect, SessionDatagram)
    and [node/forward.ts] (the FORWARD envelope). *)

From S2P Require Import Prelude Codec NodeAddr FmpWire.

Definition handshakeMessageTypeFromByte (b : Z) : option Z :=
  if (b =? 0x01) || (b =? 0x02) then Some b else None.

Definition isHandshakeMessageType (b : Z) : bool := (b =? 0x01) || (b =? 0x02).

Module LinkMessageType.
Definition SessionDatagram : Z := 0x00.
Definition SenderReport : Z := 0x01.
Definition ReceiverReport : Z := 0x02.
Definition TreeAnnounce : Z := 0x10.
Definition FilterAnnounce : Z := 0x20.
Definition LookupRequest : Z := 0x30.
Definition LookupResponse : Z := 0x31.
Definition Disconnect : Z := 0x50.
Definition Heartbeat : Z := 0x51.
Definition ClientOnly : Z := 0x52.
Definition ClientSupport : Z := 0x53.
End LinkMessageType.

Definition LINK_MESSAGE_TYPE_BYTES : list Z :=
  [LinkMessageType.SessionDatagram; LinkMessageType.SenderReport; LinkMessageType.ReceiverReport;
   LinkMessageType.TreeAnnounce; LinkMessageType.FilterAnnounce; LinkMessageType.LookupRequest;
   LinkMessageType.LookupResponse; LinkMessageType.Disconnect; LinkMessageType.Heartbeat;
   LinkMessageType.ClientOnly; LinkMessageType.ClientSupport].

Definition linkMessageTypeFromByte (b : Z) : option Z :=
  if bool_decide (b ∈ LINK_MESSAGE_TYPE_BYTES) then Some b else None.

Module DisconnectReason.
Definition Shutdown : Z := 0x00.
Definition Restart : Z := 0x01.
Definition ProtocolError : Z := 0x02.
Definition TransportFailure : Z := 0x03.
Definition ResourceExhaustion : Z := 0x04.
Definition SecurityViolation : Z := 0x05.
Definition Other : Z := 0xff.
End DisconnectReason.

Definition DISCONNECT_REASON_BYTES : list Z :=
  [DisconnectReason.Shutdown; DisconnectReason.Restart; DisconnectReason.ProtocolError;
   DisconnectReason.TransportFailure; DisconnectReason.ResourceExhaustion;
   DisconnectReason.SecurityViolation; DisconnectReason.Other].

Definition disconnectReasonFromByte (b : Z) : Z :=
  if bool_decide (b ∈ DISCONNECT_REASON_BYTES) then b else DisconnectReason.Other.

(** [Disconnect] is a record of its reason. *)
Definition encodeDisconnect (reason : Z) : bytes :=
  [z2b LinkMessageType.Disconnect; z2b (js_and reason 0xff)].

Definition decodeDisconnect (payload : bytes) : result Z :=
  throw_if (len payload <? 1) (Error "Disconnect payload must be at least 1 byte");;
  Ok (disconnectReasonFromByte (byte_at payload 0)).

(** ** SessionDatagram *)

Record SessionDatagram := mkDatagram {
  ttl : Z;
  pathMtu : Z;
  srcAddr : bytes;
  destAddr : bytes;
  sd_payload : bytes;
}.

Definition SESSION_DATAGRAM_HEADER_SIZE : Z := 36.

Definition encodeSessionDatagram (d : SessionDatagram) : result bytes :=
  throw_if (negb (len (srcAddr d) =? 16)) (Error "src_addr must be 16 bytes");;
  throw_if (negb (len (destAddr d) =? 16)) (Error "dest_addr must be 16 bytes");;
  BinaryWriter.encode
    (BinaryWriter.u8 LinkMessageType.SessionDatagram;;
     BinaryWriter.u8 (js_and (ttl d) 0xff);;
     BinaryWriter.u16le (pathMtu d);;
     BinaryWriter.bytes_ (srcAddr d);;
     BinaryWriter.bytes_ (destAddr d);;
     BinaryWriter.bytes_ (sd_payload d)).

Definition decodeSessionDatagramPayload (buf : bytes) : result SessionDatagram :=
  throw_if (len buf <? SESSION_DATAGRAM_HEADER_SIZE - 1) (Error "SessionDatagram payload too short");;
  BinaryReader.decode
    (ttl ← BinaryReader.u8;
     pathMtu ← BinaryReader.u16le;
     srcAddr ← BinaryReader.bytes_ 16;
     destAddr ← BinaryReader.bytes_ 16;
     payload ← BinaryReader.rest;
     mret (mkDatagram ttl pathMtu srcAddr destAddr payload)) buf.

Definition decodeSessionDatagram (buf : bytes) : result SessionDatagram :=
  throw_if (len buf <? SESSION_DATAGRAM_HEADER_SIZE) (Error "SessionDatagram too short");;
  BinaryReader.decode
    (msgType ← BinaryReader.u8;
     throw_when (negb (msgType =? LinkMessageType.SessionDatagram)) (Error "not a SessionDatagram");;
     rest ← BinaryReader.rest;
     lift (decodeSessionDatagramPayload rest)) buf.

(** [decrementTtl] stores the new TTL in the datagram and returns whether it can
    still be forwarded. *)
Definition decrementTtl : ST SessionDatagram bool :=
  d ← get;
  let set_ttl n := mkDatagram n (pathMtu d) (srcAddr d) (destAddr d) (sd_payload d) in
  if ttl d <=? 1 then modify (fun _ => set_ttl 0);; mret false
  else modify (fun _ => set_ttl (ttl d - 1));; mret true.

(** ** FORWARD envelope *)

Definition FORWARD_VERSION : Z := 0xf0.

Record ForwardEnvelope := mkForward {
  fw_version : Z;
  fw_ttl : Z;
  srcPubkey : bytes;
  dstPubkey : bytes;
  fspFrame : bytes;
}.

Definition encodeForwardEnvelope (e : ForwardEnvelope) : result bytes :=
  throw_if (negb (len (srcPubkey e) =? 33)) (Error "src pubkey must be 33");;
  throw_if (negb (len (dstPubkey e) =? 33)) (Error "dst pubkey must be 33");;
  throw_if (negb (fw_version e =? FORWARD_VERSION)) (Error "bad forward version");;
  BinaryWriter.encode
    (BinaryWriter.u8 (fw_version e);;
     BinaryWriter.u8 (js_and (fw_ttl e) 0xff);;
     BinaryWriter.bytes_ (srcPubkey e);;
     BinaryWriter.bytes_ (dstPubkey e);;
     BinaryWriter.bytes_ (fspFrame e)).

Definition decodeForwardEnvelope (buf : bytes) : result ForwardEnvelope :=
  throw_if (len buf <? 2 + 33 + 33) (Error "forward envelope too short");;
  BinaryReader.decode
    (version ← BinaryReader.u8;
     throw_when (negb (version =? FORWARD_VERSION)) (Error "not a FORWARD envelope");;
     ttl ← BinaryReader.u8;
     srcPubkey ← BinaryReader.bytes_ 33;
     dstPubkey ← BinaryReader.bytes_ 33;
     fspFrame ← BinaryReader.rest;
     mret (mkForward version ttl srcPubkey dstPubkey fspFrame)) buf.

(** ** Layouts *)

Definition datagram_body_layout (d : SessionDatagram) : layout :=
  field 1 (ttl d mod 256)
  ⊕ (field 2 (pathMtu d) ⊕ (raw 16 (srcAddr d) ⊕ (raw 16 (destAddr d) ⊕ Some (sd_payload d)))).

Definition forward_layout (e : ForwardEnvelope) : layout :=
  lguard (fw_version e =? FORWARD_VERSION)
  ⊕ (field 1 FORWARD_VERSION ⊕ (field 1 (fw_ttl e mod 256)
     ⊕ (raw 33 (srcPubkey e) ⊕ (raw 33 (dstPubkey e) ⊕ Some (fspFrame e))))).

Lemma encodeSessionDatagram_Ok d b :
  encodeSessionDatagram d = Ok b <-> field 1 0 ⊕ datagram_body_layout d = Some b.
Proof.
  unfold encodeSessionDatagram, datagram_body_layout, raw.
  destruct (Z.eqb_spec (len (srcAddr d)) 16), (Z.eqb_spec (len (destAddr d)) 16); cbn [negb throw_if mbind result_bind].
  - apply encode_Ok. repeat (apply writes_seq; [solve_writes|]). apply writes_bytes.
  - unfold lseq. destruct (field 1 _), (field 2 _), (field 1 0); done.
  - unfold lseq. destruct (field 1 _), (field 2 _), (field 1 0); done.
  - unfold lseq. destruct (field 1 _), (field 2 _), (field 1 0); done.
Qed.

Lemma datagram_body_len d b : datagram_body_layout d = Some b -> 35 <= len b.
Proof.
  unfold datagram_body_layout. intros H. layout_inv. wire_facts.
  match goal with |- context [_ + len ?l] => pose proof (len_nonneg l) end. lia.
Qed.

Lemma decodeSessionDatagramPayload_Ok d b :
  decodeSessionDatagramPayload b = Ok d <-> datagram_body_layout d = Some b /\ 0 <= ttl d < 256.
Proof.
  unfold decodeSessionDatagramPayload, SESSION_DATAGRAM_HEADER_SIZE. rewrite guard_Ok. split.
  - intros [Hl H]. bool_split. decode_fwd H. unfold datagram_body_layout.
    cbn [ttl pathMtu srcAddr destAddr sd_payload]. field_facts.
    match goal with |- context [field 1 (?t mod 256)] => rewrite (Z.mod_small t) by lia end. split; [|lia]. layout_solve. by decide_if.
  - intros [H Ht]. pose proof (datagram_body_len _ _ H). decide_if. split; [done|].
    unfold datagram_body_layout in H. rewrite Z.mod_small in H by lia.
    destruct d as [t m s de p]. cbn in H, Ht. layout_inv. decode_bwd.
Qed.

Lemma decodeSessionDatagram_Ok d b :
  decodeSessionDatagram b = Ok d <->
    field 1 0 ⊕ datagram_body_layout d = Some b /\ 0 <= ttl d < 256.
Proof.
  unfold decodeSessionDatagram, SESSION_DATAGRAM_HEADER_SIZE, LinkMessageType.SessionDatagram.
  rewrite guard_Ok, decode_all by solve_reads. cbv beta. split.
  - intros [Hl H]. layout_inv. bool_split.
    match goal with H : decodeSessionDatagramPayload _ = _ |- _ =>
      apply decodeSessionDatagramPayload_Ok in H as [Hb Ht] end.
    subst. split; [|done]. by layout_solve.
  - intros [(x & y & Hx & Hy & ->)%lseq_Some Ht]. pose proof (datagram_body_len _ _ Hy).
    apply field_len in Hx as Hxl. rewrite len_app. decide_if. split; [done|].
    exists 0, x, y. split; [done|]. split; [|done].
    exists tt, [], y. split; [done|]. split; [|done]. by apply decodeSessionDatagramPayload_Ok.
Qed.

Lemma encodeForwardEnvelope_Ok e b : encodeForwardEnvelope e = Ok b <-> forward_layout e = Some b.
Proof.
  unfold encodeForwardEnvelope, forward_layout, raw.
  destruct (Z.eqb_spec (len (srcPubkey e)) 33), (Z.eqb_spec (len (dstPubkey e)) 33),
    (Z.eqb_spec (fw_version e) FORWARD_VERSION) as [->|]; cbn [negb throw_if mbind result_bind];
    try (unfold lseq; destruct (field 1 _), (field 1 _); done).
  rewrite (encode_Ok _ (field 1 FORWARD_VERSION ⊕ (field 1 (fw_ttl e mod 256)
     ⊕ (Some (srcPubkey e) ⊕ (Some (dstPubkey e) ⊕ Some (fspFrame e)))))) by solve_writes.
  unfold lguard, lseq. destruct (field 1 _), (field 1 _); done.
Qed.

Lemma decodeForwardEnvelope_Ok e b :
  decodeForwardEnvelope b = Ok e <-> forward_layout e = Some b /\ 0 <= fw_ttl e < 256.
Proof.
  unfold decodeForwardEnvelope, forward_layout, FORWARD_VERSION. rewrite guard_Ok. split.
  - intros [Hl H]. bool_split. decode_fwd H.
    cbn [fw_version fw_ttl srcPubkey dstPubkey fspFrame]. field_facts.
    match goal with |- context [field 1 (?t mod 256)] => rewrite (Z.mod_small t) by lia end. split; [|lia]. layout_solve. by decide_if.
  - intros [H Ht]. rewrite Z.mod_small in H by lia.
    destruct e as [v t s de p]. cbn [fw_version fw_ttl srcPubkey dstPubkey fspFrame] in H, Ht.
    layout_inv. bool_split. subst. wire_facts.
    match goal with |- context [_ + len ?l] => pose proof (len_nonneg l) end.
    decide_if. split; [done|]. decode_bwd.
Qed.

(** ** Theorems *)

(** The link codecs are exact. A datagram, its payload after the message
    type, and a FORWARD envelope decode to a value exactly when the bytes are
    that value's encoding and its TTL is a byte; a Disconnect decodes to its
    reason, with an unknown reason read as [Other]. *)
Lemma link_codecs_exact :
  (forall d b, decodeSessionDatagram b = Ok d <->
     encodeSessionDatagram d = Ok b /\ 0 <= ttl d < 256) /\
  (forall d b, decodeSessionDatagramPayload b = Ok d <->
     encodeSessionDatagram d = Ok (z2b LinkMessageType.SessionDatagram :: b) /\ 0 <= ttl d < 256) /\
  (forall e b, decodeForwardEnvelope b = Ok e <->
     encodeForwardEnvelope e = Ok b /\ 0 <= fw_ttl e < 256) /\
  (forall r, decodeDisconnect (subarray_from (encodeDisconnect r) 1) =
     Ok (if bool_decide (r mod 256 ∈ DISCONNECT_REASON_BYTES) then r mod 256 else DisconnectReason.Other)).
Proof.
  split; [|split; [|split]].
  - intros d b. by rewrite decodeSessionDatagram_Ok, encodeSessionDatagram_Ok.
  - intros d b. rewrite decodeSessionDatagramPayload_Ok, encodeSessionDatagram_Ok.
    change (field 1 0) with (Some [z2b LinkMessageType.SessionDatagram]). unfold lseq.
    destruct (datagram_body_layout d); cbn; naive_solver.
  - intros e b. by rewrite decodeForwardEnvelope_Ok, encodeForwardEnvelope_Ok.
  - intros r. unfold encodeDisconnect, decodeDisconnect, disconnectReasonFromByte.
    rewrite js_and_byte, z2b_mod. unfold subarray_from.
    change (drop _ _) with [z2b r]. change (byte_at _ 0) with (b2z (z2b r)). by rewrite b2z_z2b.
Qed.

(** One hop: the datagram a node passes on after a successful [decrementTtl]. *)
Definition forwarded (d d' : SessionDatagram) : Prop := decrementTtl d = (Ok true, d').

Lemma forwarded_iff d d' :
  forwarded d d' <->
    1 < ttl d /\ d' = mkDatagram (ttl d - 1) (pathMtu d) (srcAddr d) (destAddr d) (sd_payload d).
Proof.
  unfold forwarded, decrementTtl, mbind, ST_bind, get. cbn.
  destruct (Z.leb_spec (ttl d) 1); unfold modify, mret, ST_ret; (split; [intros H'|intros [? ->]]);
    try lia; [discriminate H'| |done].
  injection H' as <-. split; [lia|done].
Qed.

(** The TTL bounds forwarding exactly: a datagram can be passed on [n] times
    in a row, [n > 0], exactly when [n] is below its TTL, and each hop changes
    nothing but the TTL, so no datagram circulates forever. *)
Lemma ttl_bounds_forwarding n d d' :
  nsteps forwarded n d d' <->
    (n = 0%nat \/ Z.of_nat n < ttl d) /\
    d' = mkDatagram (ttl d - Z.of_nat n) (pathMtu d) (srcAddr d) (destAddr d) (sd_payload d).
Proof.
  revert d. induction n as [|n IH]; intros d.
  - split.
    + intros H. inversion H; subst. split; [by left|]. destruct d'; cbn. f_equal. lia.
    + intros [_ ->]. destruct d; cbn. rewrite Z.sub_0_r. constructor.
  - split.
    + intros H. inversion H as [|? ? d1 ? Hs Hr]; subst. apply forwarded_iff in Hs as [Ht ->].
      apply IH in Hr as [Hn ->]. cbn in *. split; [right; lia|]. f_equal. lia.
    + intros [[?|Hn] ->]; [done|]. econstructor; [by apply forwarded_iff; split; [lia|]|].
      apply IH. cbn. split; [destruct n; [by left|right; lia]|]. f_equal. lia.
Qed.
