(* ===== verification/SessionMsg.v ===== *)
(** * Session messages

    [protocol/session.ts]: the SessionSetup, SessionAck and SessionMsg3 frames
    that carry the end-to-end handshake through the mesh. *)

From S2P Require Import Prelude Codec NodeAddr FmpWire FspWire.

Definition SESSION_FLAG_DIRECT_FSP_TRANSPORT : Z := 0x04.

Record SessionSetup := mkSetup {
  ss_srcCoords : list NodeAddr;
  ss_destCoords : list NodeAddr;
  ss_flags : Z;
  ss_handshakePayload : bytes;
}.

(** The interface [SessionAck] has the same members. *)
Definition SessionAck : Type := SessionSetup.

Record SessionMsg3 := mkMsg3 { m3_flags : Z; m3_handshakePayload : bytes }.

Definition encodeCoords (coords : list NodeAddr) : ST BinaryWriter.t unit :=
  BinaryWriter.u16le (len coords);;
  for_each (fun addr =>
    throw_when (negb (len addr =? 16)) (Error "coord NodeAddr must be 16 bytes");;
    BinaryWriter.bytes_ addr) coords.

Definition decodeCoords : ST BinaryReader.t (list NodeAddr) :=
  count ← BinaryReader.u16le;
  read_n (BinaryReader.bytes_ 16) (Z.to_nat count).

Definition encodeSessionHandshakeFrame (phase : Z) (body : bytes) : result bytes :=
  BinaryWriter.encode
    (BinaryWriter.u8 (js_or (js_shl (js_and FSP_VERSION 0xf) 4) (js_and phase 0xf));;
     BinaryWriter.u8 0;;
     BinaryWriter.u16le (len body);;
     BinaryWriter.bytes_ body).

Definition decodeSessionHandshakeFrame (frame : bytes) (expectedPhase : Z) : result bytes :=
  BinaryReader.decode
    (versionAndPhase ← BinaryReader.u8;
     let version := js_and (js_ushr versionAndPhase 4) 0xf in
     let phase := js_and versionAndPhase 0xf in
     flags ← BinaryReader.u8;
     payloadLen ← BinaryReader.u16le;
     throw_when (negb (version =? FSP_VERSION)) (Error "bad FSP version");;
     throw_when (negb (phase =? expectedPhase)) (Error "expected FSP phase");;
     throw_when (negb (flags =? 0)) (Error "FSP handshake flags must be zero");;
     body ← BinaryReader.bytes_ payloadLen;
     rest ← BinaryReader.rest;
     throw_when (negb (len rest =? 0)) (Error "trailing bytes after FSP handshake frame");;
     mret body) frame.

Definition encodeSessionSetup (msg : SessionSetup) : result bytes :=
  body ← BinaryWriter.encode
    (BinaryWriter.u8 (js_and (ss_flags msg) 0xff);;
     encodeCoords (ss_srcCoords msg);;
     encodeCoords (ss_destCoords msg);;
     BinaryWriter.u16le (len (ss_handshakePayload msg));;
     BinaryWriter.bytes_ (ss_handshakePayload msg));
  encodeSessionHandshakeFrame FSP_PHASE_MSG1 body.

Definition decodeSessionSetup (frame : bytes) : result SessionSetup :=
  body ← decodeSessionHandshakeFrame frame FSP_PHASE_MSG1;
  BinaryReader.decode
    (flags ← BinaryReader.u8;
     srcCoords ← decodeCoords;
     destCoords ← decodeCoords;
     n ← BinaryReader.u16le;
     handshakePayload ← BinaryReader.bytes_ n;
     mret (mkSetup srcCoords destCoords flags handshakePayload)) body.

Definition encodeSessionAck (msg : SessionAck) : result bytes :=
  body ← BinaryWriter.encode
    (BinaryWriter.u8 (js_and (ss_flags msg) 0xff);;
     encodeCoords (ss_srcCoords msg);;
     encodeCoords (ss_destCoords msg);;
     BinaryWriter.u16le (len (ss_handshakePayload msg));;
     BinaryWriter.bytes_ (ss_handshakePayload msg));
  encodeSessionHandshakeFrame FSP_PHASE_MSG2 body.

Definition decodeSessionAck (frame : bytes) : result SessionAck :=
  body ← decodeSessionHandshakeFrame frame FSP_PHASE_MSG2;
  BinaryReader.decode
    (flags ← BinaryReader.u8;
     srcCoords ← decodeCoords;
     destCoords ← decodeCoords;
     n ← BinaryReader.u16le;
     handshakePayload ← BinaryReader.bytes_ n;
     mret (mkSetup srcCoords destCoords flags handshakePayload : SessionAck)) body.

Definition encodeSessionMsg3 (msg : SessionMsg3) : result bytes :=
  body ← BinaryWriter.encode
    (BinaryWriter.u8 (js_and (m3_flags msg) 0xff);;
     BinaryWriter.u16le (len (m3_handshakePayload msg));;
     BinaryWriter.bytes_ (m3_handshakePayload msg));
  encodeSessionHandshakeFrame FSP_PHASE_MSG3 body.

Definition decodeSessionMsg3 (frame : bytes) : result SessionMsg3 :=
  body ← decodeSessionHandshakeFrame frame FSP_PHASE_MSG3;
  BinaryReader.decode
    (flags ← BinaryReader.u8;
     n ← BinaryReader.u16le;
     handshakePayload ← BinaryReader.bytes_ n;
     mret (mkMsg3 flags handshakePayload)) body.

(** ** The handshake frame *)

Definition frame_layout (phase : Z) (body : bytes) : layout :=
  field 1 phase ⊕ (field 1 0 ⊕ (field 2 (len body) ⊕ Some body)).

Lemma encodeSessionHandshakeFrame_Ok phase body b :
  0 <= phase < 16 ->
  encodeSessionHandshakeFrame phase body = Ok b <-> frame_layout phase body = Some b.
Proof.
  intros Hp. unfold encodeSessionHandshakeFrame.
  assert (js_or (js_shl (js_and FSP_VERSION 0xf) 4) (js_and phase 0xf) = phase) as ->.
  { rewrite (js_and_nibble phase), Z.mod_small by lia. unfold js_or. change (js_shl _ 4) with 0.
    rewrite (to_int32_id 0), (to_int32_id phase), Z.lor_0_l, to_int32_id by lia. done. }
  apply encode_Ok. solve_writes.
Qed.

Lemma nibbles x : 0 <= x < 256 ->
  js_and (js_ushr x 4) 0xf = x / 16 /\ js_and x 0xf = x mod 16.
Proof.
  intros Hx. unfold js_ushr. rewrite to_uint32_id, Z.shiftr_div_pow2 by lia. change (2 ^ 4) with 16.
  assert (0 <= x / 16 < 16) by (split; [apply Z.div_pos|apply Z.div_lt_upper_bound]; lia).
  rewrite !js_and_nibble by lia. rewrite (Z.mod_small (x / 16)) by lia. done.
Qed.

Lemma decodeSessionHandshakeFrame_Ok phase frame body :
  0 <= phase < 16 ->
  decodeSessionHandshakeFrame frame phase = Ok body <-> frame_layout phase body = Some frame.
Proof.
  intros Hp. unfold decodeSessionHandshakeFrame, FSP_VERSION. cbv zeta.
  assert (Hr : forall (b : bytes) e, reads_all (rest ← BinaryReader.rest;
    throw_when (negb (len rest =? 0)) e;; mret b) (fun v r => v = b /\ r = [])).
  { intros b e. eapply reads_all_iff; [|apply (reads_all_rest_check (fun r => negb (len r =? 0)) e (fun _ => b))].
    intros v r. split; [intros [H ->]; bool_split; by apply len_nil_inv in H as ->|by intros [-> ->]]. }
  rewrite decode_all; cycle 1.
  { apply reads_all_bind; [apply reads_u8|intros x].
    apply reads_all_bind; [apply reads_u8|intros fl].
    apply reads_all_bind_dep; [apply reads_u16le|intros pl bpl Hpl].
    apply field_range in Hpl as [Hpl _].
    apply reads_all_bind; [apply reads_throw_when|intros u1].
    apply reads_all_bind; [apply reads_throw_when|intros u2].
    apply reads_all_bind; [apply reads_throw_when|intros u3].
    apply reads_all_bind; [by apply reads_bytes|intros bo]. apply Hr. }
  cbv beta. unfold frame_layout. split.
  - intros H. layout_inv. bool_split. field_facts. subst.
    change (256 ^ Z.of_nat 1) with 256 in *.
    match goal with E : js_and (js_ushr ?x 4) _ = 0, R : 0 <= ?x < 256 |- _ =>
      destruct (nibbles x R) as [E1 E2]; rewrite E1 in E; rewrite E2 in *;
      assert (x mod 16 = x) as Ex by (pose proof (Z.div_mod x 16); lia); rewrite Ex in *
    end.
    layout_solve.
  - intros H. apply lseq_Some in H as (b0 & ? & H0 & (b1 & ? & H1 & (b2 & ? & H2 & [= <-] & ->)%lseq_Some & ->)%lseq_Some & ->).
    assert (0 <= phase < 256) as Hp' by lia. destruct (nibbles phase Hp') as [E1 E2].
    rewrite Z.div_small in E1 by lia. rewrite Z.mod_small in E2 by lia.
    exists phase, b0, (b1 ++ b2 ++ body). split; [done|]. split; [|done].
    exists 0, b1, (b2 ++ body). split; [done|]. split; [|done].
    exists (len body), b2, body. split; [done|]. split; [|done].
    rewrite E1, E2, !Z.eqb_refl.
    do 3 (eexists tt, [], body; split; [done|]; split; [|done]).
    exists body, body, []. rewrite app_nil_r. done.
Qed.

(** ** Message bodies *)

Definition counted_layout (b : bytes) : layout := field 2 (len b) ⊕ Some b.

Definition setup_layout (m : SessionSetup) : layout :=
  field 1 (ss_flags m mod 256)
  ⊕ (coords_layout (ss_srcCoords m)
     ⊕ (coords_layout (ss_destCoords m) ⊕ counted_layout (ss_handshakePayload m))).

Definition msg3_layout (m : SessionMsg3) : layout :=
  field 1 (m3_flags m mod 256) ⊕ counted_layout (m3_handshakePayload m).

Lemma reads_counted_ret {A} (g : bytes -> A) :
  reads (n ← BinaryReader.u16le; h ← BinaryReader.bytes_ n; mret (g h))
    (fun v b => exists h, v = g h /\ counted_layout h = Some b).
Proof.
  eapply reads_iff; [|apply reads_bind_dep; [apply reads_u16le|]; intros n b Hn;
    apply field_range in Hn as [Hn _]; apply reads_bind; [by apply reads_bytes|];
    intros h; apply reads_ret].
  intros v b. unfold counted_layout. setoid_rewrite lseq_Some. split.
  - intros (n & b1 & b2 & Hn & (h & b3 & b4 & [-> <-] & [-> ->] & ->) & ->).
    rewrite app_nil_r. exists b3. split; [done|]. by exists b1, b3.
  - intros (h & -> & b1 & ? & Hn & [= <-] & ->). exists (len h), b1, h. split; [done|].
    split; [|done]. exists h, h, []. by rewrite app_nil_r.
Qed.

Lemma reads_decodeCoords : reads decodeCoords (fun l b => coords_layout l = Some b).
Proof. apply reads_coord_list, reads_raw. lia. Qed.

Lemma writes_encodeCoords l : writes (encodeCoords l) (coords_layout l).
Proof. apply writes_coord_list. Qed.

#[export] Hint Resolve reads_decodeCoords writes_encodeCoords : fips.

(** Running a body decoder on a body that may be followed by other bytes. *)
Lemma setup_body_decode b m :
  BinaryReader.decode
    (flags ← BinaryReader.u8;
     srcCoords ← decodeCoords;
     destCoords ← decodeCoords;
     n ← BinaryReader.u16le;
     handshakePayload ← BinaryReader.bytes_ n;
     mret (mkSetup srcCoords destCoords flags handshakePayload)) b = Ok m <->
  exists body junk, setup_layout m = Some body /\ 0 <= ss_flags m < 256 /\ b = body ++ junk.
Proof.
  rewrite decode_prefix; [|apply reads_bind; [apply reads_u8|intros fl];
    apply reads_bind; [apply reads_decodeCoords|intros sc];
    apply reads_bind; [apply reads_decodeCoords|intros dc]; apply reads_counted_ret].
  cbv beta. unfold setup_layout. split.
  - intros (b1 & b2 & (fl & x1 & r1 & Hf & (sc & x2 & r2 & Hs & (dc & x3 & r3 & Hd & (h & -> & Hh) & ->) & ->) & ->) & ->).
    exists (x1 ++ x2 ++ x3 ++ r3), b2. cbn [ss_flags ss_srcCoords ss_destCoords ss_handshakePayload].
    pose proof (field_range _ _ _ Hf). rewrite Z.mod_small by done. rewrite Hf, Hs, Hd, Hh. done.
  - intros (body & junk & H & Hf & ->). rewrite Z.mod_small in H by done.
    apply lseq_Some in H as (x1 & ? & H1 & (x2 & ? & H2 & (x3 & r3 & H3 & H4 & ->)%lseq_Some & ->)%lseq_Some & ->).
    eexists _, junk. split; [|done]. exists (ss_flags m), x1, (x2 ++ x3 ++ r3). split; [done|]. split; [|done].
    exists (ss_srcCoords m), x2, (x3 ++ r3). split; [done|]. split; [|done].
    exists (ss_destCoords m), x3, r3. split; [done|]. split; [|done].
    exists (ss_handshakePayload m). by destruct m.
Qed.

Lemma msg3_body_decode b m :
  BinaryReader.decode
    (flags ← BinaryReader.u8;
     n ← BinaryReader.u16le;
     handshakePayload ← BinaryReader.bytes_ n;
     mret (mkMsg3 flags handshakePayload)) b = Ok m <->
  exists body junk, msg3_layout m = Some body /\ 0 <= m3_flags m < 256 /\ b = body ++ junk.
Proof.
  rewrite decode_prefix; [|apply reads_bind; [apply reads_u8|intros fl]; apply reads_counted_ret].
  cbv beta. unfold msg3_layout. split.
  - intros (b1 & b2 & (fl & x1 & r1 & Hf & (h & -> & Hh) & ->) & ->).
    exists (x1 ++ r1), b2. cbn [m3_flags m3_handshakePayload].
    pose proof (field_range _ _ _ Hf). rewrite Z.mod_small by done. by rewrite Hf, Hh.
  - intros (body & junk & H & Hf & ->). rewrite Z.mod_small in H by done.
    apply lseq_Some in H as (x1 & r1 & H1 & H2 & ->).
    eexists _, junk. split; [|done]. exists (m3_flags m), x1, r1. split; [done|]. split; [|done].
    exists (m3_handshakePayload m). by destruct m.
Qed.

(** A frame around a body decodes to that body and nothing else. *)
Lemma frame_decode {A} phase (k : bytes -> result A) b m :
  0 <= phase < 16 ->
  (body ← decodeSessionHandshakeFrame b phase; k body) = Ok m <->
    exists body, frame_layout phase body = Some b /\ k body = Ok m.
Proof.
  intros Hp. rewrite result_bind_ok. by setoid_rewrite decodeSessionHandshakeFrame_Ok; [|done].
Qed.

Lemma frame_encode phase (p : ST BinaryWriter.t unit) l b :
  0 <= phase < 16 -> writes p l ->
  (body ← BinaryWriter.encode p; encodeSessionHandshakeFrame phase body) = Ok b <->
    exists body, l = Some body /\ frame_layout phase body = Some b.
Proof.
  intros Hp Hw. rewrite result_bind_ok. setoid_rewrite (encode_Ok p l _ Hw).
  by setoid_rewrite encodeSessionHandshakeFrame_Ok; [|done].
Qed.

(** ** Framed messages

    The three messages are framed in the same way: what an encoder and a decoder
    of a framed message have to satisfy, and what follows from it. *)

Section Framed.
Context {M : Type} (phase : Z) (body_layout : M -> layout) (flags_of : M -> Z) (mask : M -> M).
Context (enc : M -> result bytes) (dec : bytes -> result M).
Context (Hphase : 0 <= phase < 16).
Context (mask_body : forall m, body_layout (mask m) = body_layout m).
Context (mask_flags : forall m, flags_of (mask m) = flags_of m mod 256).
Context (enc_Ok : forall m b, enc m = Ok b <->
  exists body, body_layout m = Some body /\ frame_layout phase body = Some b).
Context (dec_Ok : forall m b, dec b = Ok m <->
  exists body junk, body_layout m = Some body /\ 0 <= flags_of m < 256 /\
    frame_layout phase (body ++ junk) = Some b).

Lemma framed_roundtrip m b : enc m = Ok b -> dec b = Ok (mask m).
Proof.
  intros (body & Hb & Hf)%enc_Ok. apply dec_Ok. exists body, [].
  rewrite mask_body, mask_flags, app_nil_r. split; [done|]. split; [|done].
  apply Z.mod_pos_bound. lia.
Qed.

Lemma framed_normal m b : dec b = Ok m -> exists b', enc m = Ok b' /\ len b' <= len b.
Proof.
  intros (body & junk & Hb & _ & Hf)%dec_Ok. unfold frame_layout in Hf.
  apply lseq_Some in Hf as (b0 & ? & H0 & (b1 & ? & H1 & (b2 & ? & H2 & [= <-] & ->)%lseq_Some & ->)%lseq_Some & ->).
  pose proof (field_range _ _ _ H2) as R. rewrite len_app in R.
  pose proof (len_nonneg body). pose proof (len_nonneg junk).
  eexists. split.
  - apply enc_Ok. exists body. split; [done|]. unfold frame_layout.
    rewrite H0, H1, field_ok by lia. reflexivity.
  - apply field_len in H2 as L2. rewrite !len_app, len_le_bytes. lia.
Qed.

Lemma framed_peek m b : dec b = Ok m -> peekFspPhase b = Ok phase.
Proof.
  intros (body & junk & _ & _ & Hf)%dec_Ok. unfold frame_layout in Hf.
  apply lseq_Some in Hf as (b0 & r & H0 & _ & ->).
  apply field_Some in H0 as [_ ->]. change (le_bytes 1 phase) with [z2b phase].
  unfold peekFspPhase. rewrite len_app. change (len [z2b phase]) with 1. pose proof (len_nonneg r).
  decide_if. cbn [throw_if mbind result_bind app]. f_equal.
  rewrite byte_at_head, b2z_z2b_small, js_and_nibble by lia. by apply Z.mod_small.
Qed.
End Framed.

(** The value that a decoder returns for an encoded message: its flags as a byte. *)
Definition mask_setup (m : SessionSetup) : SessionSetup :=
  mkSetup (ss_srcCoords m) (ss_destCoords m) (ss_flags m mod 256) (ss_handshakePayload m).

Definition mask_msg3 (m : SessionMsg3) : SessionMsg3 :=
  mkMsg3 (m3_flags m mod 256) (m3_handshakePayload m).

Lemma mask_setup_layout m : setup_layout (mask_setup m) = setup_layout m.
Proof. unfold setup_layout, mask_setup. cbn. by rewrite Z.mod_mod. Qed.

Lemma mask_msg3_layout m : msg3_layout (mask_msg3 m) = msg3_layout m.
Proof. unfold msg3_layout, mask_msg3. cbn. by rewrite Z.mod_mod. Qed.

Ltac frame_enc := apply frame_encode; [lia|]; solve_writes.

Ltac frame_dec body :=
  rewrite frame_decode by (unfold FSP_PHASE_MSG1, FSP_PHASE_MSG2, FSP_PHASE_MSG3; lia);
  split;
  [ intros (? & Hf & Hb); apply body in Hb as (? & ? & ? & ? & ->); eauto 10
  | intros (? & ? & ? & ? & ?); eexists; split; [eassumption|]; apply body; eauto 10 ].

Lemma encodeSessionSetup_Ok m b : encodeSessionSetup m = Ok b <->
  exists body, setup_layout m = Some body /\ frame_layout 1 body = Some b.
Proof. frame_enc. Qed.

Lemma encodeSessionAck_Ok m b : encodeSessionAck m = Ok b <->
  exists body, setup_layout m = Some body /\ frame_layout 2 body = Some b.
Proof. frame_enc. Qed.

Lemma encodeSessionMsg3_Ok m b : encodeSessionMsg3 m = Ok b <->
  exists body, msg3_layout m = Some body /\ frame_layout 3 body = Some b.
Proof. frame_enc. Qed.

Lemma decodeSessionSetup_Ok m b : decodeSessionSetup b = Ok m <->
  exists body junk, setup_layout m = Some body /\ 0 <= ss_flags m < 256 /\
    frame_layout 1 (body ++ junk) = Some b.
Proof. unfold decodeSessionSetup. frame_dec setup_body_decode. Qed.

Lemma decodeSessionAck_Ok m b : decodeSessionAck b = Ok m <->
  exists body junk, setup_layout m = Some body /\ 0 <= ss_flags m < 256 /\
    frame_layout 2 (body ++ junk) = Some b.
Proof. unfold decodeSessionAck. frame_dec setup_body_decode. Qed.

Lemma decodeSessionMsg3_Ok m b : decodeSessionMsg3 b = Ok m <->
  exists body junk, msg3_layout m = Some body /\ 0 <= m3_flags m < 256 /\
    frame_layout 3 (body ++ junk) = Some b.
Proof. unfold decodeSessionMsg3. frame_dec msg3_body_decode. Qed.

(** The handshake messages that cross the mesh survive it: what an encoder
    produces decodes to the message with its flags taken as a byte; whatever a
    decoder accepts can be encoded again, to a frame that is no longer; and
    [peekFspPhase] tells the three messages apart. *)
Lemma session_messages_roundtrip :
  (forall m b, encodeSessionSetup m = Ok b -> decodeSessionSetup b = Ok (mask_setup m)) /\
  (forall m b, encodeSessionAck m = Ok b -> decodeSessionAck b = Ok (mask_setup m)) /\
  (forall m b, encodeSessionMsg3 m = Ok b -> decodeSessionMsg3 b = Ok (mask_msg3 m)) /\
  (forall m b, decodeSessionSetup b = Ok m ->
     (exists b', encodeSessionSetup m = Ok b' /\ len b' <= len b) /\ peekFspPhase b = Ok FSP_PHASE_MSG1) /\
  (forall m b, decodeSessionAck b = Ok m ->
     (exists b', encodeSessionAck m = Ok b' /\ len b' <= len b) /\ peekFspPhase b = Ok FSP_PHASE_MSG2) /\
  (forall m b, decodeSessionMsg3 b = Ok m ->
     (exists b', encodeSessionMsg3 m = Ok b' /\ len b' <= len b) /\ peekFspPhase b = Ok FSP_PHASE_MSG3).
Proof.
  repeat apply conj; intros m b H.
  - eapply (framed_roundtrip 1 setup_layout ss_flags);
      eauto using mask_setup_layout, encodeSessionSetup_Ok, decodeSessionSetup_Ok.
  - eapply (framed_roundtrip 2 setup_layout ss_flags);
      eauto using mask_setup_layout, encodeSessionAck_Ok, decodeSessionAck_Ok.
  - eapply (framed_roundtrip 3 msg3_layout m3_flags);
      eauto using mask_msg3_layout, encodeSessionMsg3_Ok, decodeSessionMsg3_Ok.
  - split; [eapply (framed_normal 1)|eapply (framed_peek 1)];
      eauto using encodeSessionSetup_Ok, decodeSessionSetup_Ok; lia.
  - split; [eapply (framed_normal 2)|eapply (framed_peek 2)];
      eauto using encodeSessionAck_Ok, decodeSessionAck_Ok; lia.
  - split; [eapply (framed_normal 3)|eapply (framed_peek 3)];
      eauto using encodeSessionMsg3_Ok, decodeSessionMsg3_Ok; lia.
Qed.
