(* ===== verification/FilterMsg.v ===== *)
(** * Filter announcements

    [protocol/filter.ts]: the bloom filter that a node advertises to its
    neighbours. *)

From S2P Require Import Prelude Codec Crypto F64 Bloom FmpWire Link.

Definition V1_SIZE_CLASS : Z := 1.
Definition FILTER_ANNOUNCE_MIN_PAYLOAD_SIZE : Z := 10.

Record FilterAnnounce := mkFilterAnnounce {
  fa_filter : BloomFilter;
  fa_sequence : Z;
  fa_hashCount : Z;
  fa_sizeClass : Z;
}.

Definition expectedFilterBytes (sizeClass : Z) : result Z :=
  throw_if (negb (sizeClass =? V1_SIZE_CLASS)) (Error "unsupported size_class");;
  Ok (default 0 (SIZE_CLASS_BYTES !! Z.to_nat sizeClass)).

Definition buildFilterAnnounce (filter : BloomFilter) (sequence : Z) : result FilterAnnounce :=
  expected ← expectedFilterBytes V1_SIZE_CLASS;
  throw_if (negb (numBytes filter =? expected)) (Error "v1 FilterAnnounce requires filter size");;
  Ok (mkFilterAnnounce filter sequence (hashCount filter) V1_SIZE_CLASS).

Definition encodeFilterAnnounce (fa : FilterAnnounce) : result bytes :=
  expected ← expectedFilterBytes (fa_sizeClass fa);
  throw_if (negb (numBytes (fa_filter fa) =? expected)) (Error "filter size doesn't match size_class");;
  throw_if (negb (fa_hashCount fa =? hashCount (fa_filter fa))) (Error "hash_count doesn't match");;
  BinaryWriter.encode
    (BinaryWriter.u8 LinkMessageType.FilterAnnounce;;
     BinaryWriter.u64le (fa_sequence fa);;
     BinaryWriter.u8 (fa_hashCount fa);;
     BinaryWriter.u8 (fa_sizeClass fa);;
     BinaryWriter.bytes_ (asBytes (fa_filter fa))).

Definition decodeFilterAnnounce (buf : bytes) : result FilterAnnounce :=
  throw_if (len buf <? 1 + FILTER_ANNOUNCE_MIN_PAYLOAD_SIZE) (Error "FilterAnnounce too short");;
  BinaryReader.decode
    (msgType ← BinaryReader.u8;
     throw_when (negb (msgType =? LinkMessageType.FilterAnnounce)) (Error "not a FilterAnnounce");;
     sequence ← BinaryReader.u64le;
     hashCount ← BinaryReader.u8;
     sizeClass ← BinaryReader.u8;
     filterLen ← lift (expectedFilterBytes sizeClass);
     filterBytes ←
       (r ← get;
        throw_when (BinaryReader.remaining r <? filterLen) (Error "FilterAnnounce truncated");;
        BinaryReader.bytes_ filterLen);
     filter ← lift (fromBytes filterBytes hashCount);
     mret (mkFilterAnnounce filter sequence hashCount sizeClass)) buf.

(** ** Layout *)

Definition filter_layout (fa : FilterAnnounce) : layout :=
  field 1 0x20 ⊕ (field 8 (fa_sequence fa) ⊕ (field 1 (fa_hashCount fa)
    ⊕ (field 1 (fa_sizeClass fa) ⊕ Some (bits (fa_filter fa))))).

(** An announcement that [buildFilterAnnounce] can make of a v1 filter. *)
Definition filter_announce_wf (fa : FilterAnnounce) : Prop :=
  fa_sizeClass fa = 1 /\ len (bits (fa_filter fa)) = 1024 /\
  numBits (fa_filter fa) = 8192 /\ fa_hashCount fa = hashCount (fa_filter fa) /\
  0 < fa_hashCount fa <= 255.

Lemma expectedFilterBytes_Ok c n : expectedFilterBytes c = Ok n <-> c = 1 /\ n = 1024.
Proof.
  unfold expectedFilterBytes, V1_SIZE_CLASS. destruct (Z.eqb_spec c 1) as [->|]; cbn; naive_solver.
Qed.

Lemma encodeFilterAnnounce_Ok fa b :
  encodeFilterAnnounce fa = Ok b <->
    filter_layout fa = Some b /\ fa_sizeClass fa = 1 /\ len (bits (fa_filter fa)) = 1024 /\
    fa_hashCount fa = hashCount (fa_filter fa).
Proof.
  unfold encodeFilterAnnounce. rewrite result_bind_ok. setoid_rewrite expectedFilterBytes_Ok.
  assert (E : forall w, BinaryWriter.encode
    (BinaryWriter.u8 LinkMessageType.FilterAnnounce;;
     BinaryWriter.u64le (fa_sequence fa);;
     BinaryWriter.u8 (fa_hashCount fa);;
     BinaryWriter.u8 (fa_sizeClass fa);;
     BinaryWriter.bytes_ (asBytes (fa_filter fa))) = Ok w <-> filter_layout fa = Some w).
  { intros w. apply encode_Ok. solve_writes. }
  split.
  - intros (n & [Hc ->] & H). apply guard_Ok in H as [Hn H]. apply guard_Ok in H as [Hh H].
    apply E in H. unfold numBytes in Hn. bool_split. done.
  - intros (H & Hc & Hl & Hh). exists 1024. split; [done|]. apply guard_Ok.
    unfold numBytes. split; [by rewrite Hl|]. apply guard_Ok.
    split; [by rewrite Hh, Z.eqb_refl|by apply E].
Qed.

Lemma fromBytes_Ok b hc f :
  fromBytes b hc = Ok f <-> 0 < hc <= 255 /\ len b <> 0 /\ f = mkBloom b (len b * 8) hc.
Proof.
  unfold fromBytes. rewrite !guard_Ok, Z.gtb_ltb. split.
  - intros (H1 & H2 & H3). bool_split. injection H3 as <-. split; [lia|done].
  - intros (H1 & H2 & ->). decide_if. done.
Qed.

Lemma decodeFilterAnnounce_Ok fa b :
  decodeFilterAnnounce b = Ok fa <->
    exists frame rest, b = frame ++ rest /\ filter_layout fa = Some frame /\ filter_announce_wf fa.
Proof.
  unfold decodeFilterAnnounce, FILTER_ANNOUNCE_MIN_PAYLOAD_SIZE, LinkMessageType.FilterAnnounce.
  rewrite guard_Ok, decode_prefix;
    [|apply reads_bind; [apply reads_u8|intros ty];
      apply reads_bind; [apply reads_throw_when|intros u];
      apply reads_bind; [apply reads_u64le|intros sq];
      apply reads_bind; [apply reads_u8|intros hc];
      apply reads_bind; [apply reads_u8|intros sc];
      apply reads_bind_dep; [apply reads_lift|intros n bn [Hn _]];
      apply expectedFilterBytes_Ok in Hn as [_ Hn];
      apply reads_bind; [apply (reads_remaining_bytes n); lia|intros fb];
      apply reads_bind; [apply reads_lift|intros f]; apply reads_ret].
  cbv beta. unfold filter_layout, filter_announce_wf. split.
  - intros [Hl (b1 & b2 & H & ->)]. layout_inv. bool_split. subst.
    match goal with H : expectedFilterBytes _ = _ |- _ => apply expectedFilterBytes_Ok in H as [-> Hfl] end.
    match goal with H : fromBytes _ _ = _ |- _ => apply fromBytes_Ok in H as (Hh & Hn & ->) end.
    eexists _, b2. split; [reflexivity|].
    cbn [fa_filter fa_sequence fa_hashCount fa_sizeClass bits numBits hashCount].
    rewrite Hfl. split; [layout_solve|done].
  - intros (frame & rest & -> & H & (Hc & Hl & Hn & Hh & Hr)).
    rewrite Hc in H.
    apply lseq_Some in H as (x1 & ? & H1 & (x2 & ? & H2 & (x3 & ? & H3 & (x4 & r4 & H4 & [= <-] & ->)%lseq_Some & ->)%lseq_Some & ->)%lseq_Some & ->).
    split.
    { wire_facts. pose proof (len_nonneg rest). apply Z.ltb_ge. lia. }
    eexists _, rest. split; [|reflexivity].
    exists 0x20, x1, (x2 ++ x3 ++ x4 ++ bits (fa_filter fa)). split; [done|]. split; [|done].
    eexists tt, [], _. split; [done|]. split; [|reflexivity].
    exists (fa_sequence fa), x2, (x3 ++ x4 ++ bits (fa_filter fa)). split; [done|]. split; [|done].
    exists (fa_hashCount fa), x3, (x4 ++ bits (fa_filter fa)). split; [done|]. split; [|done].
    exists 1, x4, (bits (fa_filter fa)). split; [done|]. split; [|done].
    exists 1024, [], (bits (fa_filter fa)). split; [done|]. split; [|done].
    exists (bits (fa_filter fa)), (bits (fa_filter fa)), []. split; [done|].
    split; [|by rewrite app_nil_r].
    exists (fa_filter fa), [], []. split; [split; [|done]|].
    + apply fromBytes_Ok. split; [done|]. split; [lia|]. rewrite Hl, Hh.
      destruct (fa_filter fa) as [bs n hc]; cbn [bits numBits hashCount] in *. by rewrite Hn.
    + split; [|done]. split; [|done]. destruct fa as [f q hc c]; cbn [fa_filter fa_sequence fa_hashCount fa_sizeClass] in *. by rewrite Hc.
Qed.

(** A filter announcement decodes, from any buffer that starts with its
    encoding, to the announcement itself, and whatever is accepted is a v1
    filter of 1024 bytes with a hash count in [1, 255] whose announcement
    encodes to the start of the buffer. *)
Lemma filter_announce_exact fa b :
  decodeFilterAnnounce b = Ok fa <->
    exists frame rest, b = frame ++ rest /\ encodeFilterAnnounce fa = Ok frame /\ filter_announce_wf fa.
Proof.
  rewrite decodeFilterAnnounce_Ok. setoid_rewrite encodeFilterAnnounce_Ok.
  unfold filter_announce_wf. naive_solver.
Qed.
