(* ===== verification/TreeMsg.v ===== *)
(** * Tree announcements

    [protocol/tree.ts]: the signed declaration of a node's parent in the
    spanning tree, with the path to the root. *)

From S2P Require Import Prelude Codec Crypto Toy NodeAddr Identity FmpWire Link.

Definition TREE_ANNOUNCE_VERSION : Z := 1.
Definition TREE_COORD_ENTRY_SIZE : Z := 32.
Definition TREE_ANNOUNCE_MIN_PAYLOAD_SIZE : Z := 99.

Record TreeCoordEntry := mkEntry { te_nodeAddr : NodeAddr; te_sequence : Z; te_timestamp : Z }.

Record TreeAnnounce := mkAnnounce {
  ta_sequence : Z;
  ta_timestamp : Z;
  ta_parent : NodeAddr;
  ta_ancestry : list TreeCoordEntry;
  ta_signature : bytes;
}.

Definition treeDeclarationBytes (nodeAddr parent : NodeAddr) (sequence timestamp : Z) : result bytes :=
  BinaryWriter.encode
    (BinaryWriter.bytes_ nodeAddr;;
     BinaryWriter.bytes_ parent;;
     BinaryWriter.u64le sequence;;
     BinaryWriter.u64le timestamp).

(** [for (const entry of announce.ancestry) { ... }] *)
Fixpoint check_root_minimum (root : NodeAddr) (es : list TreeCoordEntry) : result unit :=
  match es with
  | [] => Ok tt
  | entry :: es =>
      c ← compareNodeAddr (te_nodeAddr entry) root;
      throw_if (c <? 0) (Error "TreeAnnounce root is not the minimum ancestry address");;
      check_root_minimum root es
  end.

Definition validateTreeAnnounceSemantics (announce : TreeAnnounce) : result unit :=
  match ta_ancestry announce with
  | [] => Throw (Error "TreeAnnounce ancestry cannot be empty")
  | first :: rest =>
      let isRoot := bytesEqual (te_nodeAddr first) (ta_parent announce) in
      throw_if (isRoot && negb (len (ta_ancestry announce) =? 1)) (Error "invalid root ancestry");;
      throw_if (negb isRoot && negb (bytesEqual (match rest with e :: _ => te_nodeAddr e | [] => [] end)
                                       (ta_parent announce)))
        (Error "TreeAnnounce parent does not match ancestry");;
      let root := te_nodeAddr (List.last rest first) in
      check_root_minimum root (ta_ancestry announce)
  end.

Section Tree.
Context `{Noble}.

Definition buildTreeAnnounce (identity : FipsIdentity) (parent : NodeAddr) (sequence timestamp : Z)
    (ancestry : list TreeCoordEntry) : result TreeAnnounce :=
  decl ← treeDeclarationBytes (nodeAddr identity) parent sequence timestamp;
  signature ← signSchnorr identity (sha256 decl);
  Ok (mkAnnounce sequence timestamp parent ancestry signature).

Definition verifyTreeAnnounce (announce : TreeAnnounce) (peerPubkey : bytes) : result bool :=
  match ta_ancestry announce with
  | [] => Throw (TypeError "Cannot read properties of undefined")
  | first :: _ =>
      decl ← treeDeclarationBytes (te_nodeAddr first) (ta_parent announce)
               (ta_sequence announce) (ta_timestamp announce);
      Ok (verifySchnorr (ta_signature announce) (sha256 decl) (subarray_from peerPubkey 1))
  end.
End Tree.

Definition encodeTreeAnnounce (announce : TreeAnnounce) : result bytes :=
  validateTreeAnnounceSemantics announce;;
  throw_if (negb (len (ta_signature announce) =? 64)) (Error "TreeAnnounce signature must be 64 bytes");;
  BinaryWriter.encode
    (BinaryWriter.u8 LinkMessageType.TreeAnnounce;;
     BinaryWriter.u8 TREE_ANNOUNCE_VERSION;;
     BinaryWriter.u64le (ta_sequence announce);;
     BinaryWriter.u64le (ta_timestamp announce);;
     BinaryWriter.bytes_ (ta_parent announce);;
     BinaryWriter.u16le (len (ta_ancestry announce));;
     for_each (fun entry =>
       BinaryWriter.bytes_ (te_nodeAddr entry);;
       BinaryWriter.u64le (te_sequence entry);;
       BinaryWriter.u64le (te_timestamp entry)) (ta_ancestry announce);;
     BinaryWriter.bytes_ (ta_signature announce)).

Definition read_entry : ST BinaryReader.t TreeCoordEntry :=
  nodeAddr ← BinaryReader.bytes_ 16;
  sequence ← BinaryReader.u64le;
  timestamp ← BinaryReader.u64le;
  mret (mkEntry nodeAddr sequence timestamp).

Definition decodeTreeAnnounce (buf : bytes) : result TreeAnnounce :=
  throw_if (len buf <? 1 + TREE_ANNOUNCE_MIN_PAYLOAD_SIZE) (Error "TreeAnnounce too short");;
  announce ← BinaryReader.decode
    (ty ← BinaryReader.u8;
     throw_when (negb (ty =? LinkMessageType.TreeAnnounce)) (Error "not a TreeAnnounce");;
     v ← BinaryReader.u8;
     throw_when (negb (v =? TREE_ANNOUNCE_VERSION)) (Error "unsupported TreeAnnounce version");;
     sequence ← BinaryReader.u64le;
     timestamp ← BinaryReader.u64le;
     parent ← BinaryReader.bytes_ 16;
     count ← BinaryReader.u16le;
     r ← get;
     throw_when ((count =? 0) || negb (BinaryReader.remaining r =? count * TREE_COORD_ENTRY_SIZE + 64))
       (Error "invalid TreeAnnounce ancestry length");;
     ancestry ← read_n read_entry (Z.to_nat count);
     signature ← BinaryReader.bytes_ 64;
     mret (mkAnnounce sequence timestamp parent ancestry signature)) buf;
  validateTreeAnnounceSemantics announce;;
  Ok announce.

Definition decodeTreeAnnouncePayload (payload : bytes) : result TreeAnnounce :=
  decodeTreeAnnounce (z2b LinkMessageType.TreeAnnounce :: payload).

(** ** Ancestries *)

(** The last entry of an ancestry: the root. *)
Definition path_root (es : list TreeCoordEntry) : option NodeAddr := te_nodeAddr <$> last es.

(** What [validateTreeAnnounceSemantics] is meant to establish: the path starts
    at the announcing node, goes on with its parent (or stops there, for a root
    that is its own parent), and ends at the smallest address on it. *)
Definition ancestry_valid (a : TreeAnnounce) : Prop :=
  exists first rest, ta_ancestry a = first :: rest /\
    (forall e, e ∈ ta_ancestry a -> len (te_nodeAddr e) = 16) /\
    (te_nodeAddr first = ta_parent a /\ rest = [] \/
     te_nodeAddr first <> ta_parent a /\ te_nodeAddr <$> head rest = Some (ta_parent a)) /\
    (forall e root, e ∈ ta_ancestry a -> path_root (ta_ancestry a) = Some root ->
       be_val root <= be_val (te_nodeAddr e)).

Lemma check_root_minimum_Ok root es u :
  check_root_minimum root es = Ok u <->
    forall e, e ∈ es -> len (te_nodeAddr e) = 16 /\ len root = 16 /\ be_val root <= be_val (te_nodeAddr e).
Proof.
  destruct u. induction es as [|e es IH]; [split; [by intros _ e ?%not_elem_of_nil|done]|].
  cbn [check_root_minimum]. rewrite result_bind_ok. setoid_rewrite compareNodeAddr_Ok. split.
  - intros (c & (L1 & L2 & ->) & H). apply guard_Ok in H as [Hlt H].
    intros e' [->|Hin]%elem_of_cons; [|by apply IH].
    apply Z.ltb_ge, Z.sgn_nonneg in Hlt. split; [done|]. split; [done|]. lia.
  - intros H. destruct (H e ltac:(left)) as (L1 & L2 & Hle). eexists. split; [done|].
    apply guard_Ok. split; [apply Z.ltb_ge, Z.sgn_nonneg; lia|]. apply IH. intros e' He'. apply H. by right.
Qed.

Lemma last_cons_List {A} (x : A) l : last (x :: l) = Some (List.last l x).
Proof. revert x. induction l as [|y l IH]; intros x; [done|].
  change (last (x :: y :: l)) with (last (y :: l)). rewrite IH. f_equal.
  clear. revert x y. induction l as [|z l IH]; intros x y; [done|].
  change (List.last (y :: z :: l) x) with (List.last (z :: l) x). by rewrite <- !IH.
Qed.

Lemma validate_Ok a u :
  len (ta_parent a) = 16 -> validateTreeAnnounceSemantics a = Ok u <-> ancestry_valid a.
Proof.
  intros Hpar. destruct u. unfold validateTreeAnnounceSemantics, ancestry_valid.
  destruct (ta_ancestry a) as [|first rest] eqn:Ea; [split; [done|by intros (? & ? & ? & _)]|].
  cbv zeta. rewrite !guard_Ok, check_root_minimum_Ok, !bytesEqual_spec.
  assert (Hroot : path_root (first :: rest) = Some (te_nodeAddr (List.last rest first)))
    by (unfold path_root; by rewrite last_cons_List).
  assert (Hin : List.last rest first ∈ first :: rest) by (apply last_Some_elem_of, last_cons_List).
  split.
  - intros (H1 & H2 & H3). exists first, rest. split; [done|]. split; [intros e He; by apply H3|].
    split.
    + case_bool_decide as Hp; cbn in H1, H2.
      * left. split; [done|]. apply negb_false_iff, Z.eqb_eq in H1. rewrite len_cons in H1.
        apply len_nil_inv. lia.
      * right. split; [done|]. apply negb_false_iff, bool_decide_eq_true in H2.
        destruct rest as [|e2 rest]; [|cbn; by rewrite H2].
        by rewrite <- H2 in Hpar.
    + intros e root He Hr. rewrite Hroot in Hr. injection Hr as <-. by apply H3.
  - intros (f & r & [= <- <-] & Hl & Hp & Hm). split; [|split].
    + case_bool_decide; [|done]. destruct Hp as [[_ ->]|[? _]]; done.
    + case_bool_decide as Hc; [done|]. destruct Hp as [[? _]|[_ Hp]]; [done|].
      cbn. apply negb_false_iff, bool_decide_eq_true. destruct rest; [done|]. cbn in Hp. by injection Hp.
    + intros e He. split; [by apply Hl|]. split; [by apply Hl|]. by apply Hm.
Qed.

(** ** Layout *)

Definition entry_layout (e : TreeCoordEntry) : layout :=
  raw 16 (te_nodeAddr e) ⊕ (field 8 (te_sequence e) ⊕ field 8 (te_timestamp e)).

Definition tree_layout (a : TreeAnnounce) : layout :=
  field 1 0x10 ⊕ (field 1 1 ⊕ (field 8 (ta_sequence a) ⊕ (field 8 (ta_timestamp a)
  ⊕ (raw 16 (ta_parent a) ⊕ (field 2 (len (ta_ancestry a))
  ⊕ (lconcat (map entry_layout (ta_ancestry a)) ⊕ raw 64 (ta_signature a))))))).

Lemma entries_len es b : lconcat (map entry_layout es) = Some b -> len b = len es * 32.
Proof.
  revert b. induction es as [|e es IH]; intros b H; cbn in H; [by injection H as <-|].
  apply lseq_Some in H as (x & y & Hx & Hy%IH & ->). unfold entry_layout in Hx.
  apply lseq_Some in Hx as (x1 & ? & [Hx1 ->]%raw_Some & (x2 & x3 & H2 & H3 & ->)%lseq_Some & ->).
  apply field_len in H2, H3. rewrite !len_app, len_cons. lia.
Qed.

Lemma reads_entry : reads read_entry (fun e b => entry_layout e = Some b).
Proof.
  eapply reads_iff; [|unfold read_entry; solve_reads]. intros e b. unfold entry_layout. split.
  - intros (x & b1 & b2 & H1 & (y & b3 & b4 & H2 & (z & b5 & b6 & H3 & [-> ->] & ->) & ->) & ->).
    cbn [te_nodeAddr te_sequence te_timestamp]. rewrite app_nil_r, H1, H2, H3. done.
  - intros H. destruct e as [x y z]. cbn [te_nodeAddr te_sequence te_timestamp] in H.
    apply lseq_Some in H as (b1 & ? & H1 & (b2 & b3 & H2 & H3 & ->)%lseq_Some & ->).
    exists x, b1, (b2 ++ b3). split; [done|]. split; [|done].
    exists y, b2, b3. split; [done|]. split; [|done].
    exists z, b3, []. by rewrite app_nil_r.
Qed.

(** The writer of the entries, where every address has 16 bytes. *)
Lemma writes_entries es :
  (forall e, e ∈ es -> len (te_nodeAddr e) = 16) ->
  writes (for_each (fun entry =>
       BinaryWriter.bytes_ (te_nodeAddr entry);;
       BinaryWriter.u64le (te_sequence entry);;
       BinaryWriter.u64le (te_timestamp entry)) es) (lconcat (map entry_layout es)).
Proof.
  induction es as [|e es IH]; intros Hl; cbn; [apply writes_ret|].
  apply writes_seq; [|apply IH; intros; apply Hl; by right].
  unfold entry_layout, raw. rewrite (Hl e), Z.eqb_refl by left. solve_writes.
Qed.

Lemma encodeTreeAnnounce_Ok a b :
  len (ta_parent a) = 16 ->
  encodeTreeAnnounce a = Ok b <-> ancestry_valid a /\ tree_layout a = Some b.
Proof.
  intros Hpar. unfold encodeTreeAnnounce. rewrite result_bind_ok.
  setoid_rewrite (validate_Ok a); [|done]. setoid_rewrite guard_Ok.
  assert (E : ancestry_valid a -> len (ta_signature a) = 64 -> BinaryWriter.encode
    (BinaryWriter.u8 LinkMessageType.TreeAnnounce;;
     BinaryWriter.u8 TREE_ANNOUNCE_VERSION;;
     BinaryWriter.u64le (ta_sequence a);;
     BinaryWriter.u64le (ta_timestamp a);;
     BinaryWriter.bytes_ (ta_parent a);;
     BinaryWriter.u16le (len (ta_ancestry a));;
     for_each (fun entry =>
       BinaryWriter.bytes_ (te_nodeAddr entry);;
       BinaryWriter.u64le (te_sequence entry);;
       BinaryWriter.u64le (te_timestamp entry)) (ta_ancestry a);;
     BinaryWriter.bytes_ (ta_signature a)) = Ok b <-> tree_layout a = Some b).
  { intros (f & r & _ & Hl & _) Hs. apply encode_Ok. unfold tree_layout, raw. rewrite Hpar, Hs, !Z.eqb_refl.
    repeat (apply writes_seq; [first [by apply writes_entries|solve_writes]|]). apply writes_bytes. }
  split.
  - intros (_ & Hv & Hs & Hb). bool_split. by rewrite <- E.
  - intros [Hv Hb]. exists tt. split; [done|].
    assert (Hs : len (ta_signature a) = 64).
    { unfold tree_layout in Hb.
      repeat (apply lseq_Some in Hb as (? & ? & _ & Hb & _)). by apply raw_Some in Hb as [? _]. }
    split; [by rewrite Hs|]. by apply E.
Qed.

Lemma decodeTreeAnnounce_Ok a b :
  decodeTreeAnnounce b = Ok a <->
    len (ta_parent a) = 16 /\ ancestry_valid a /\ tree_layout a = Some b.
Proof.
  unfold decodeTreeAnnounce, TREE_ANNOUNCE_MIN_PAYLOAD_SIZE, LinkMessageType.TreeAnnounce,
    TREE_ANNOUNCE_VERSION, TREE_COORD_ENTRY_SIZE.
  rewrite guard_Ok, result_bind_ok.
  setoid_rewrite decode_all; cycle 1.
  { apply reads_all_bind; [apply reads_u8|intros ty].
    apply reads_all_bind; [apply reads_throw_when|intros u].
    apply reads_all_bind; [apply reads_u8|intros v].
    apply reads_all_bind; [apply reads_throw_when|intros u1].
    apply reads_all_bind; [apply reads_u64le|intros sq].
    apply reads_all_bind; [apply reads_u64le|intros ts].
    apply reads_all_bind; [by apply (reads_raw 16)|intros parent].
    apply reads_all_bind_dep; [apply reads_u16le|intros count bc Hc].
    apply field_range in Hc as [Hc _].
    apply (reads_all_remaining (fun n => (count =? 0) || negb (n =? count * 32 + 64))).
    { apply reads_bind; [apply reads_read_n, reads_entry|intros anc].
      apply reads_bind; [by apply (reads_raw 64)|intros sig]. apply reads_ret. }
    intros a' b' n (anc & x1 & ? & [Hn Hanc] & (sig & x2 & ? & [Hs ->]%raw_Some & [-> ->] & ->) & ->) Hcn.
    bool_split. apply entries_len in Hanc. rewrite !len_app, Hanc, Hs.
    change (len (@nil byte)) with 0. unfold len at 1. lia. }
  cbv beta. unfold tree_layout. split.
  - intros (Hl & a' & H & Hv). apply result_bind_ok in Hv as (u & Hv & [= ->]).
    layout_inv. bool_split. subst.
    cbn [ta_sequence ta_timestamp ta_parent ta_ancestry ta_signature].
    match goal with H : validateTreeAnnounceSemantics _ = _ |- _ =>
      apply validate_Ok in H; [|done] end.
    split; [done|]. split; [done|].
    match goal with H : length ?l = Z.to_nat ?c, R : field 2 ?c = _ |- _ =>
      pose proof (field_range _ _ _ R); replace (len l) with c by (unfold len; lia) end.
    layout_solve. by decide_if.
  - intros (Hpar & Hv & H).
    assert (Hlen : 100 <= len b).
    { pose proof Hv as (f & r & Ea & _). revert H. rewrite Ea. intros H. 
      layout_inv. match goal with H : lconcat _ = _ |- _ => apply entries_len in H end.
      rewrite len_cons in *. pose proof (len_nonneg r). wire_facts. lia. }
    split; [by apply Z.ltb_ge|]. exists a. split; [|by rewrite (proj2 (validate_Ok a tt Hpar) Hv)].
    apply lseq_Some in H as (x1 & ? & H1 & (x2 & ? & H2 & (x3 & ? & H3 & (x4 & ? & H4 & (x5 & ? & H5 & (x6 & ? & H6
      & (x7 & x8 & H7 & H8 & ->)%lseq_Some & ->)%lseq_Some & ->)%lseq_Some & ->)%lseq_Some & ->)%lseq_Some & ->)%lseq_Some & ->).
    apply entries_len in H7 as L7. apply raw_Some in H8 as L8; destruct L8 as [L8 ->].
    set (anc := x7 ++ ta_signature a). set (r5 := x6 ++ anc). set (r4 := x5 ++ r5).
    set (r3 := x4 ++ r4). set (r2 := x3 ++ r3).
    exists 0x10, x1, (x2 ++ r2). split; [done|]. split; [|done].
    exists tt, [], (x2 ++ r2). split; [done|]. split; [|done].
    exists 1, x2, r2. split; [done|]. split; [|done].
    exists tt, [], r2. split; [done|]. split; [|done].
    exists (ta_sequence a), x3, r3. split; [done|]. split; [|done].
    exists (ta_timestamp a), x4, r4. split; [done|]. split; [|done].
    exists (ta_parent a), x5, r5. split; [done|]. split; [|done].
    exists (len (ta_ancestry a)), x6, anc. split; [done|]. split; [|done]. split.
    { subst anc. rewrite len_app, L7, L8. pose proof Hv as (f & r & -> & _). rewrite len_cons.
      pose proof (len_nonneg r). by decide_if. }
    exists (ta_ancestry a), x7, (ta_signature a). split; [split; [unfold len; lia|done]|]. split; [|done].
    exists (ta_signature a), (ta_signature a), []. rewrite app_nil_r. split; [done|].
    split; [|done]. by destruct a.
Qed.

Lemma tree_codec a b :
  decodeTreeAnnounce b = Ok a <-> encodeTreeAnnounce a = Ok b /\ len (ta_parent a) = 16.
Proof.
  rewrite decodeTreeAnnounce_Ok. split.
  - intros (Hp & Hv & Hl). by rewrite encodeTreeAnnounce_Ok.
  - intros [H Hp]. by rewrite encodeTreeAnnounce_Ok in H.
Qed.

(** A tree announcement decodes to a value exactly when the bytes are its
    encoding (its parent being an address), and an announcement that decodes is
    well formed: its path leads from the announcing node over its parent, or
    stops at a node that is its own parent, to the smallest address on it. The
    decoder of the payload without its type byte agrees. *)
Lemma tree_announce_exact :
  (forall a b, decodeTreeAnnounce b = Ok a <-> encodeTreeAnnounce a = Ok b /\ len (ta_parent a) = 16) /\
  (forall a b, decodeTreeAnnounce b = Ok a -> ancestry_valid a) /\
  (forall a t, decodeTreeAnnouncePayload t = Ok a <->
     encodeTreeAnnounce a = Ok (z2b LinkMessageType.TreeAnnounce :: t) /\ len (ta_parent a) = 16).
Proof.
  split; [apply tree_codec|]. split; [|intros; apply tree_codec].
  by intros a b (_ & ? & _)%decodeTreeAnnounce_Ok.
Qed.

(** ** Signatures *)

Section Signed.
Context `{Noble, !HashLaws, !DhLaws, !SchnorrLaws}.

(** The signature alone. *)
Lemma own_announce_verifies id parent sq ts anc a :
  identity_wf id -> te_nodeAddr <$> head anc = Some (nodeAddr id) ->
  buildTreeAnnounce id parent sq ts anc = Ok a -> verifyTreeAnnounce a (publicKey id) = Ok true.
Proof.
  intros Hid Hhd Hb. unfold buildTreeAnnounce in Hb. result_inv.
  unfold verifyTreeAnnounce. cbn [ta_ancestry ta_parent ta_sequence ta_timestamp ta_signature].
  destruct anc as [|e anc]; [done|]. cbn in Hhd. injection Hhd as ->.
  match goal with H : treeDeclarationBytes _ _ _ _ = Ok _ |- _ => rewrite H end.
  cbn [mbind result_bind]. f_equal.
  destruct Hid as (Hl & Hpk & Hx & _).
  assert (Hx' : subarray_from (publicKey id) 1 = drop 1 (publicKey id)) by done.
  assert (Hl' : len (drop 1 (publicKey id)) = 32).
  { apply len_getPublicKey in Hpk. unfold len in *. rewrite length_drop. lia. }
  unfold verifySchnorr. rewrite Hx', Hl'.
  match goal with H : signSchnorr _ _ = Ok _ |- _ => unfold signSchnorr in H;
    rewrite (len_schnorr_sign _ _ _ H); apply (schnorr_verify_sign _ _ _ _ H Hpk) end.
Qed.

(** A node's announcement verifies under its public key: what
    [buildTreeAnnounce] signs for an ancestry that starts at the node is
    accepted by [verifyTreeAnnounce], and still is after it has crossed the
    wire. *)
Lemma tree_announce_verifies id parent sq ts anc a :
  identity_wf id -> te_nodeAddr <$> head anc = Some (nodeAddr id) ->
  buildTreeAnnounce id parent sq ts anc = Ok a ->
  verifyTreeAnnounce a (publicKey id) = Ok true /\
  forall b, encodeTreeAnnounce a = Ok b -> len parent = 16 ->
    exists a', decodeTreeAnnounce b = Ok a' /\ verifyTreeAnnounce a' (publicKey id) = Ok true.
Proof.
  intros Hid Hhd Hb.
  assert (Hver : verifyTreeAnnounce a (publicKey id) = Ok true) by (by eapply own_announce_verifies).
  split; [done|]. intros b He Hp. exists a. split; [|done].
  apply tree_codec. split; [done|].
  unfold buildTreeAnnounce in Hb. by result_inv.
Qed.
End Signed.

(** ** Example *)

#[local] Existing Instances Toy.noble Toy.hash_laws Toy.dh_laws Toy.schnorr_laws.

(** A root's own announcement. *)
Lemma tree_announce_verifies_witness : exists a,
  buildTreeAnnounce (demo_identity 3) (nodeAddr (demo_identity 3)) 1 0 [mkEntry (nodeAddr (demo_identity 3)) 1 0] = Ok a /\
  verifyTreeAnnounce a (publicKey (demo_identity 3)) = Ok true.
Proof.
  eexists. split; [reflexivity|].
  eapply (tree_announce_verifies (demo_identity 3) _ 1 0 [mkEntry (nodeAddr (demo_identity 3)) 1 0]); [apply (demo_identity_wf 3); vm_compute; reflexivity|reflexivity|reflexivity].
Defined.
