(* ===== verification/Discovery.v ===== *)
(** * Lookup messages

    [protocol/discovery.ts]: the flooded request for a node's coordinates and
    the response signed by the target. *)

From S2P Require Import Prelude Codec NodeAddr FmpWire.

Record LookupRequest := mkLookupRequest {
  lq_requestId : Z;
  lq_target : NodeAddr;
  lq_origin : NodeAddr;
  lq_ttl : Z;
  lq_minMtu : Z;
  lq_originCoords : list NodeAddr;
}.

Record LookupResponse := mkLookupResponse {
  lr_requestId : Z;
  lr_target : NodeAddr;
  lr_pathMtu : Z;
  lr_targetCoords : list NodeAddr;
  lr_proof : bytes;
}.

(** [nodeAddrFromSlice(reader.bytes(16))] *)
Definition read_addr : ST BinaryReader.t NodeAddr :=
  b ← BinaryReader.bytes_ 16; lift (nodeAddrFromSlice b).

Definition decodeCoords : ST BinaryReader.t (list NodeAddr) :=
  count ← BinaryReader.u16le;
  throw_when (count =? 0) (Error "lookup coordinates must not be empty");;
  read_n read_addr (Z.to_nat count).

Definition encodeCoords (coords : list NodeAddr) : ST BinaryWriter.t unit :=
  throw_when ((len coords =? 0) || (len coords >? 0xffff)) (Error "lookup coordinates count is out of range");;
  BinaryWriter.u16le (len coords);;
  for_each (fun coord =>
    throw_when (negb (len coord =? 16)) (Error "lookup coordinate must be 16 bytes");;
    BinaryWriter.bytes_ coord) coords.

Definition decodeLookupRequest (payload : bytes) : result LookupRequest :=
  BinaryReader.decode
    (requestId ← BinaryReader.u64le;
     target ← read_addr;
     origin ← read_addr;
     ttl ← BinaryReader.u8;
     minMtu ← BinaryReader.u16le;
     originCoords ← decodeCoords;
     r ← get;
     throw_when (negb (BinaryReader.remaining r =? 0)) (Error "trailing LookupRequest bytes");;
     mret (mkLookupRequest requestId target origin ttl minMtu originCoords)) payload.

Definition encodeLookupRequestPayload (request : LookupRequest) : result bytes :=
  BinaryWriter.encode
    (BinaryWriter.u64le (lq_requestId request);;
     BinaryWriter.bytes_ (lq_target request);;
     BinaryWriter.bytes_ (lq_origin request);;
     BinaryWriter.u8 (lq_ttl request);;
     BinaryWriter.u16le (lq_minMtu request);;
     encodeCoords (lq_originCoords request)).

Definition decodeLookupResponse (payload : bytes) : result LookupResponse :=
  BinaryReader.decode
    (requestId ← BinaryReader.u64le;
     target ← read_addr;
     pathMtu ← BinaryReader.u16le;
     targetCoords ← decodeCoords;
     proof ← BinaryReader.bytes_ 64;
     r ← get;
     throw_when (negb (BinaryReader.remaining r =? 0)) (Error "trailing LookupResponse bytes");;
     mret (mkLookupResponse requestId target pathMtu targetCoords proof)) payload.

Definition encodeLookupResponsePayload (response : LookupResponse) : result bytes :=
  throw_if (negb (len (lr_proof response) =? 64)) (Error "LookupResponse proof must be 64 bytes");;
  BinaryWriter.encode
    (BinaryWriter.u64le (lr_requestId response);;
     BinaryWriter.bytes_ (lr_target response);;
     BinaryWriter.u16le (lr_pathMtu response);;
     encodeCoords (lr_targetCoords response);;
     BinaryWriter.bytes_ (lr_proof response)).

Definition lookupResponseProofBytes (requestId : Z) (target : NodeAddr) (targetCoords : list NodeAddr) : result bytes :=
  BinaryWriter.encode
    (BinaryWriter.u64le requestId;;
     BinaryWriter.bytes_ target;;
     encodeCoords targetCoords).

(** ** Layouts *)

Definition lookup_coords_layout (l : list NodeAddr) : layout :=
  lguard (negb (len l =? 0)) ⊕ coords_layout l.

Definition request_layout (q : LookupRequest) : layout :=
  field 8 (lq_requestId q) ⊕ (raw 16 (lq_target q) ⊕ (raw 16 (lq_origin q)
  ⊕ (field 1 (lq_ttl q) ⊕ (field 2 (lq_minMtu q) ⊕ lookup_coords_layout (lq_originCoords q))))).

Definition response_layout (p : LookupResponse) : layout :=
  field 8 (lr_requestId p) ⊕ (raw 16 (lr_target p) ⊕ (field 2 (lr_pathMtu p)
  ⊕ (lookup_coords_layout (lr_targetCoords p) ⊕ raw 64 (lr_proof p)))).

Lemma writes_lookupCoords l : writes (encodeCoords l) (lookup_coords_layout l).
Proof.
  eapply writes_ext; [|apply writes_seq; [apply writes_throw_when|apply writes_coord_list]].
  unfold lookup_coords_layout, coords_layout, field. change (256 ^ Z.of_nat 2) with 65536.
  rewrite Z.gtb_ltb, negb_orb. pose proof (len_nonneg l).
  destruct (Z.eqb_spec (len l) 0); [done|]. destruct (Z.ltb_spec 0xffff (len l)); [|done].
  cbn [negb andb]. unfold lguard. by decide_if.
Qed.

Lemma reads_read_addr : reads read_addr (fun v b => raw 16 v = Some b).
Proof.
  eapply reads_iff; [|apply reads_bind; [by apply (reads_raw 16)|intros b; apply reads_lift]].
  intros v b. setoid_rewrite raw_Some. unfold nodeAddrFromSlice, NODE_ADDR_LENGTH. split.
  - intros (x & b1 & b2 & [Hx ->] & [H ->] & ->). apply guard_Ok in H as [_ [= ->]].
    by rewrite app_nil_r.
  - intros [Hv ->]. exists v, v, []. rewrite Hv, app_nil_r. done.
Qed.

Lemma reads_lookupCoords : reads decodeCoords (fun l b => lookup_coords_layout l = Some b).
Proof.
  eapply reads_iff; [|apply reads_bind; [apply reads_u16le|intros n];
    apply reads_bind; [apply reads_throw_when|intros u]; apply reads_read_n, reads_read_addr].
  intros l b. unfold lookup_coords_layout, coords_layout. split.
  - intros (n & b1 & b2 & Hn & (u & b3 & b4 & [Hz ->] & [Hl Hb] & ->) & ->).
    pose proof (field_range _ _ _ Hn). assert (len l = n) as -> by (unfold len; lia).
    by rewrite Hz, Hn, Hb.
  - intros (g & ? & [Hz ->]%lguard_Some & (b1 & b2 & Hn & Hb & ->)%lseq_Some & ->)%lseq_Some.
    exists (len l), b1, b2. split; [done|]. split; [|done].
    exists tt, [], b2. apply negb_true_iff in Hz. split; [done|]. split; [|done].
    split; [unfold len; lia|done].
Qed.

#[export] Hint Resolve writes_lookupCoords reads_read_addr reads_lookupCoords : fips.

Lemma encodeLookupRequest_Ok q b :
  encodeLookupRequestPayload q = Ok b /\ len (lq_target q) = 16 /\ len (lq_origin q) = 16 <->
    request_layout q = Some b.
Proof.
  unfold request_layout, raw.
  assert (E : encodeLookupRequestPayload q = Ok b <->
    field 8 (lq_requestId q) ⊕ (Some (lq_target q) ⊕ (Some (lq_origin q)
      ⊕ (field 1 (lq_ttl q) ⊕ (field 2 (lq_minMtu q) ⊕ lookup_coords_layout (lq_originCoords q))))) = Some b)
    by (apply encode_Ok; solve_writes).
  split.
  - intros (H & H1 & H2). rewrite H1, H2, !Z.eqb_refl. by apply E.
  - intros H. destruct (Z.eqb_spec (len (lq_target q)) 16), (Z.eqb_spec (len (lq_origin q)) 16);
      [by apply E in H| | |]; repeat (apply lseq_Some in H as (? & ? & ? & H & ?)); done.
Qed.

Lemma encodeLookupResponse_Ok p b :
  encodeLookupResponsePayload p = Ok b /\ len (lr_target p) = 16 <-> response_layout p = Some b.
Proof.
  unfold encodeLookupResponsePayload, response_layout, raw. rewrite guard_Ok.
  assert (E : BinaryWriter.encode
    (BinaryWriter.u64le (lr_requestId p);;
     BinaryWriter.bytes_ (lr_target p);;
     BinaryWriter.u16le (lr_pathMtu p);;
     encodeCoords (lr_targetCoords p);;
     BinaryWriter.bytes_ (lr_proof p)) = Ok b <->
    field 8 (lr_requestId p) ⊕ (Some (lr_target p) ⊕ (field 2 (lr_pathMtu p)
      ⊕ (lookup_coords_layout (lr_targetCoords p) ⊕ Some (lr_proof p)))) = Some b)
    by (apply encode_Ok; solve_writes).
  split.
  - intros ((Hp & H) & Ht). apply negb_false_iff in Hp. rewrite Hp, Ht, Z.eqb_refl. by apply E.
  - intros H. destruct (Z.eqb_spec (len (lr_target p)) 16), (Z.eqb_spec (len (lr_proof p)) 64);
      [by apply E in H| | |]; repeat (apply lseq_Some in H as (? & ? & ? & H & ?)); done.
Qed.

Lemma decodeLookupRequest_Ok q b : decodeLookupRequest b = Ok q <-> request_layout q = Some b.
Proof.
  unfold decodeLookupRequest. rewrite decode_all by solve_reads. cbv beta. unfold request_layout.
  split.
  - intros H. layout_inv.
    cbn [lq_requestId lq_target lq_origin lq_ttl lq_minMtu lq_originCoords]. layout_solve. by decide_if.
  - intros H. destruct q as [i t o tt_ m c].
    cbn [lq_requestId lq_target lq_origin lq_ttl lq_minMtu lq_originCoords] in H.
    layout_parts H. layout_back; layout_close.
Qed.

Lemma decodeLookupResponse_Ok p b : decodeLookupResponse b = Ok p <-> response_layout p = Some b.
Proof.
  unfold decodeLookupResponse. rewrite decode_all by solve_reads. cbv beta. unfold response_layout.
  split.
  - intros H. layout_inv.
    cbn [lr_requestId lr_target lr_pathMtu lr_targetCoords lr_proof]. layout_solve. by decide_if.
  - intros H. destruct p as [i t m c pr].
    cbn [lr_requestId lr_target lr_pathMtu lr_targetCoords lr_proof] in H.
    layout_parts H. layout_back; layout_close.
Qed.

(** ** Proof bytes *)

Definition proof_layout (i : Z) (t : NodeAddr) (c : list NodeAddr) : layout :=
  field 8 i ⊕ (Some t ⊕ lookup_coords_layout c).

Lemma lookupResponseProofBytes_Ok i t c b :
  lookupResponseProofBytes i t c = Ok b <-> proof_layout i t c = Some b.
Proof. apply encode_Ok. solve_writes. Qed.

Lemma coords_layout_inj l l' b b' x x' :
  coords_layout l = Some b -> coords_layout l' = Some b' -> b ++ x = b' ++ x' -> l = l'.
Proof.
  intros Hl Hl' E.
  assert (Hr := reads_coord_list (reads_raw 16 ltac:(lia))).
  destruct (Hr [] (b ++ x)) as [H1 _]. specialize (H1 l b x Hl eq_refl).
  destruct (Hr [] (b ++ x)) as [H2 _]. specialize (H2 l' b' x' Hl' E).
  rewrite H1 in H2. by injection H2.
Qed.

(** The lookup codecs are exact: a payload decodes to a request, or to a
    response, exactly when it is that value's encoding and the addresses in it
    have 16 bytes. And the bytes a target signs determine the answer: two
    responses with the same proof bytes have the same id, target and
    coordinates, so a signature cannot be moved to other coordinates. *)
Lemma lookup_codecs_exact :
  (forall q b, decodeLookupRequest b = Ok q <->
     encodeLookupRequestPayload q = Ok b /\ len (lq_target q) = 16 /\ len (lq_origin q) = 16) /\
  (forall p b, decodeLookupResponse b = Ok p <->
     encodeLookupResponsePayload p = Ok b /\ len (lr_target p) = 16) /\
  (forall i i' t t' c c' b, len t = 16 -> len t' = 16 ->
     lookupResponseProofBytes i t c = Ok b -> lookupResponseProofBytes i' t' c' = Ok b ->
     i = i' /\ t = t' /\ c = c').
Proof.
  split; [|split].
  - intros. by rewrite decodeLookupRequest_Ok, encodeLookupRequest_Ok.
  - intros. by rewrite decodeLookupResponse_Ok, encodeLookupResponse_Ok.
  - intros i i' t t' c c' b Ht Ht' H H'.
    apply lookupResponseProofBytes_Ok in H, H'. unfold proof_layout, lookup_coords_layout in *.
    apply lseq_Some in H as (x1 & ? & H1 & (x2 & ? & [= <-] & (g & x3 & [_ ->]%lguard_Some & H3 & ->)%lseq_Some & ->)%lseq_Some & ->).
    apply lseq_Some in H' as (y1 & ? & H1' & (y2 & ? & [= <-] & (g' & y3 & [_ ->]%lguard_Some & H3' & ->)%lseq_Some & ->)%lseq_Some & E).
    pose proof (field_len _ _ _ H1). pose proof (field_len _ _ _ H1').
    apply app_inj_1 in E as [E1 E]; [|unfold len in *; lia].
    apply app_inj_1 in E as [E2 E]; [|unfold len in *; lia]. cbn in E.
    subst. split; [|split; [done|]].
    + apply field_val in H1 as [_ ->], H1' as [_ ->]. done.
    + by eapply (coords_layout_inj c c' _ _ [] []); eauto.
Qed.
