(* ===== verification/Noise.v ===== *)
(** * Noise handshakes

    [noise/hkdf.ts], [noise/cipherState.ts], [noise/symmetricState.ts] and
    [noise/handshake.ts]: the IK and XK patterns over secp256k1, as methods on
    explicit states. The random bytes an ephemeral key is made from are an
    argument of [writeMessage]. *)

From S2P Require Import Prelude Codec Crypto Toy NodeAddr Identity.

(** ** HKDF chain *)

Section Hkdf.
Context `{Noble}.

Definition noiseHkdf2 (chainingKey ikm : bytes) : bytes * bytes :=
  let tempKey := hmac_sha256 chainingKey ikm in
  let out1 := hmac_sha256 tempKey [z2b 0x01] in
  let out2 := hmac_sha256 tempKey (concatBytes [out1; [z2b 0x02]]) in
  (out1, out2).

Definition noiseHkdf3 (chainingKey ikm : bytes) : bytes * bytes * bytes :=
  let tempKey := hmac_sha256 chainingKey ikm in
  let out1 := hmac_sha256 tempKey [z2b 0x01] in
  let out2 := hmac_sha256 tempKey (concatBytes [out1; [z2b 0x02]]) in
  let out3 := hmac_sha256 tempKey (concatBytes [out2; [z2b 0x03]]) in
  (out1, out2, out3).
End Hkdf.

(** ** CipherState *)

Module CipherState.
Record t := mk { key : option bytes; n : Z }.

Definition new : t := mk None 0.

Definition withKey (k : bytes) : result t :=
  throw_if (negb (len k =? 32)) (Error "ChaChaPoly key must be 32 bytes");;
  Ok (mk (Some k) 0).

Definition hasKey (c : t) : bool := bool_decide (is_Some (key c)).

Definition clone (c : t) : t := mk (key c) (n c).

Section Ops.
Context `{Noble}.

Definition encryptWithAd (ad plaintext : bytes) : ST t bytes :=
  c ← get;
  match key c with
  | None => mret plaintext
  | Some k =>
      throw_when (n c >=? 0xffffffffffffffff) (Error "Noise nonce exhausted");;
      nonce ← lift (noiseNonce (n c));
      let ct := chacha_encrypt k nonce ad plaintext in
      modify (fun c => mk (key c) (n c + 1));;
      mret ct
  end.

Definition decryptWithAd (ad ciphertext : bytes) : ST t bytes :=
  c ← get;
  match key c with
  | None => mret ciphertext
  | Some k =>
      throw_when (n c >=? 0xffffffffffffffff) (Error "Noise nonce exhausted");;
      nonce ← lift (noiseNonce (n c));
      pt ← lift (chacha_decrypt k nonce ad ciphertext);
      modify (fun c => mk (key c) (n c + 1));;
      mret pt
  end.

Definition rekey : ST t unit :=
  c ← get;
  match key c with
  | None => mret tt
  | Some k =>
      maxNonce ← lift (noiseNonce 0xffffffffffffffff);
      let out := chacha_encrypt k maxNonce [] (replicate 32 x00) in
      modify (fun c => mk (Some (subarray out 0 32)) (n c))
  end.

Definition getKey (c : t) : result bytes :=
  match key c with
  | None => Throw (Error "CipherState has no key")
  | Some k => Ok k
  end.
End Ops.
End CipherState.

(** ** SymmetricState *)

Module SymmetricState.
Record t := mk { h : bytes; ck : bytes; cipher : CipherState.t }.

Definition HASHLEN : Z := 32.

Section Ops.
Context `{Noble}.

Definition new (protocolName : string) : t :=
  let nameBytes := ascii_bytes protocolName in
  let h := if len nameBytes <=? HASHLEN
           then nameBytes ++ replicate (32 - length nameBytes) x00
           else sha256 nameBytes in
  mk h h CipherState.new.

Definition clone (s : t) : t := mk (h s) (ck s) (CipherState.clone (cipher s)).

Definition set_cipher (c : CipherState.t) (s : t) : t := mk (h s) (ck s) c.

Definition mixHash (data : bytes) : ST t unit :=
  modify (fun s => mk (sha256 (concatBytes [h s; data])) (ck s) (cipher s)).

Definition mixKey (ikm : bytes) : ST t unit :=
  s ← get;
  let '(ck', tempK) := noiseHkdf2 (ck s) ikm in
  modify (fun s => mk (h s) ck' (cipher s));;
  c ← lift (CipherState.withKey tempK);
  modify (set_cipher c).

Definition mixKeyAndHash (ikm : bytes) : ST t unit :=
  s ← get;
  let '(ck', tempH, tempK) := noiseHkdf3 (ck s) ikm in
  modify (fun s => mk (h s) ck' (cipher s));;
  mixHash tempH;;
  c ← lift (CipherState.withKey tempK);
  modify (set_cipher c).

Definition getHandshakeHash (s : t) : bytes := h s.

Definition encryptAndHash (plaintext : bytes) : ST t bytes :=
  ct ← zoom cipher set_cipher (CipherState.encryptWithAd [] plaintext);
  mixHash ct;;
  mret ct.

Definition decryptAndHash (ciphertext : bytes) : ST t bytes :=
  pt ← zoom cipher set_cipher (CipherState.decryptWithAd [] ciphertext);
  mixHash ciphertext;;
  mret pt.

Definition split_ (s : t) : result (CipherState.t * CipherState.t) :=
  let '(k1, k2) := noiseHkdf2 (ck s) [] in
  c1 ← CipherState.withKey k1;
  c2 ← CipherState.withKey k2;
  Ok (c1, c2).

Definition cipherHasKey (s : t) : bool := CipherState.hasKey (cipher s).
End Ops.
End SymmetricState.

(** ** NoiseHandshake *)

Definition DHLEN : Z := 33.
Definition TAGLEN : Z := 16.

Inductive NoisePattern := IK | XK.
Inductive NoiseRole := initiator | responder.

#[export] Instance NoisePattern_eq_dec : EqDecision NoisePattern.
Proof. solve_decision. Defined.
#[export] Instance NoiseRole_eq_dec : EqDecision NoiseRole.
Proof. solve_decision. Defined.

(** The handshake tokens, strings in the source. *)
Inductive token := TE | TS | TEE | TES | TSE | TSS.

#[export] Instance token_eq_dec : EqDecision token.
Proof. solve_decision. Defined.

Record KeyPair := mkKeyPair { priv : bytes; pub : bytes }.

Definition PROTOCOL_NAMES (p : NoisePattern) : string :=
  match p with
  | IK => "Noise_IK_secp256k1_ChaChaPoly_SHA256"
  | XK => "Noise_XK_secp256k1_ChaChaPoly_SHA256"
  end.

Module NoiseHandshake.
Record t := mk {
  pattern : NoisePattern;
  role : NoiseRole;
  ss : SymmetricState.t;
  s : KeyPair;
  e : option KeyPair;
  rs : option bytes;
  re : option bytes;
  ephemeralOverride : option bytes;
  step : Z;
}.

Definition set_ss x (hs : t) : t :=
  mk (pattern hs) (role hs) x (s hs) (e hs) (rs hs) (re hs) (ephemeralOverride hs) (step hs).
Definition set_e x (hs : t) : t :=
  mk (pattern hs) (role hs) (ss hs) (s hs) (Some x) (rs hs) (re hs) (ephemeralOverride hs) (step hs).
Definition set_rs x (hs : t) : t :=
  mk (pattern hs) (role hs) (ss hs) (s hs) (e hs) (Some x) (re hs) (ephemeralOverride hs) (step hs).
Definition set_re x (hs : t) : t :=
  mk (pattern hs) (role hs) (ss hs) (s hs) (e hs) (rs hs) (Some x) (ephemeralOverride hs) (step hs).
Definition set_step x (hs : t) : t :=
  mk (pattern hs) (role hs) (ss hs) (s hs) (e hs) (rs hs) (re hs) (ephemeralOverride hs) x.

Section Ops.
Context `{Noble}.

Definition deriveKeyPair (priv : bytes) : result KeyPair :=
  pub ← getPublicKey priv; Ok (mkKeyPair priv pub).

(** [random] stands for the 32 bytes of [randomBytes(32)]. *)
Definition genKeyPair (override : option bytes) (random : bytes) : result KeyPair :=
  match override with
  | Some o =>
      throw_if (negb (len o =? 32)) (Error "ephemeral override must be 32 bytes");;
      deriveKeyPair o
  | None => deriveKeyPair random
  end.

(** [const normalized = new Uint8Array(k); normalized[0] = 0x02;] *)
Definition normalize (k : bytes) : bytes :=
  match k with [] => [] | _ :: x => z2b 0x02 :: x end.

Definition new (pattern : NoisePattern) (role : NoiseRole) (identity : FipsIdentity)
    (remoteStatic ephemeralOverride : option bytes) : result t :=
  s ← deriveKeyPair (secretKey identity);
  let ss := SymmetricState.new (PROTOCOL_NAMES pattern) in
  responderStatic ← match (match role with responder => Some (pub s) | initiator => remoteStatic end) with
                    | Some k => Ok k
                    | None => Throw (Error "noise IK/XK initiator must know responder's static pubkey")
                    end;
  let '(_, ss) := SymmetricState.mixHash (normalize responderStatic) ss in
  Ok (mk pattern role ss s None remoteStatic None ephemeralOverride 0).

Definition getHandshakeHash (hs : t) : bytes := SymmetricState.getHandshakeHash (ss hs).

Definition tokensForStep (pattern : NoisePattern) (step : Z) : result (list token) :=
  let none := Throw (Error "no tokens for step") in
  match pattern with
  | IK => if step =? 0 then Ok [TE; TES; TS; TSS]
          else if step =? 1 then Ok [TE; TEE; TSE] else none
  | XK => if step =? 0 then Ok [TE; TES]
          else if step =? 1 then Ok [TE; TEE]
          else if step =? 2 then Ok [TS; TSE] else none
  end.

Definition isSenderForStep (role : NoiseRole) (step : Z) : bool :=
  Bool.eqb (step mod 2 =? 0) (bool_decide (role = initiator)).

(** A non-null assertion [x!] whose value is used right away. *)
Definition need {A} (x : option A) : result A :=
  match x with Some a => Ok a | None => Throw (TypeError "Cannot read properties of undefined") end.

(** The operands of [dh], chosen by token, pattern and role. *)
Definition dh_operands (hs : t) (tok : token) : result (bytes * option bytes) :=
  let e_priv := k ← need (e hs); Ok (priv k) in
  match tok with
  | TEE => p ← e_priv; Ok (p, re hs)
  | TES =>
      match role hs with
      | initiator => p ← e_priv; Ok (p, rs hs)
      | responder => Ok (priv (s hs), re hs)
      end
  | TSE =>
      match pattern hs, role hs with
      | IK, initiator => p ← e_priv; Ok (p, rs hs)
      | IK, responder => Ok (priv (s hs), re hs)
      | XK, initiator => Ok (priv (s hs), re hs)
      | XK, responder => p ← e_priv; Ok (p, rs hs)
      end
  | TSS => Ok (priv (s hs), rs hs)
  | TE | TS => Throw (Error "unknown token")
  end.

Definition dh (tok : token) : ST t unit :=
  hs ← get;
  '(priv, pub) ← lift (dh_operands hs tok);
  shared ← lift (k ← need pub; ecdh priv k);
  throw_when (negb (len shared =? SymmetricState.HASHLEN)) (Error "noise DH must produce 32-byte output");;
  zoom ss set_ss (SymmetricState.mixKey shared).

(** The loop of [writeMessage] over the tokens, with the output so far. *)
Fixpoint write_tokens (random : bytes) (toks : list token) (out : bytes) : ST t bytes :=
  match toks with
  | [] => mret out
  | TE :: toks =>
      hs ← get;
      k ← lift (genKeyPair (ephemeralOverride hs) random);
      modify (set_e k);;
      zoom ss set_ss (SymmetricState.mixHash (pub k));;
      write_tokens random toks (concatBytes [out; pub k])
  | TS :: toks =>
      hs ← get;
      enc ← zoom ss set_ss (SymmetricState.encryptAndHash (pub (s hs)));
      write_tokens random toks (concatBytes [out; enc])
  | tok :: toks => dh tok;; write_tokens random toks out
  end.

Definition writeMessage (random payload : bytes) : ST t bytes :=
  hs ← get;
  tokens ← lift (tokensForStep (pattern hs) (step hs));
  throw_when (negb (isSenderForStep (role hs) (step hs))) (Error "not our turn to write");;
  out ← write_tokens random tokens [];
  out ← (if len payload >? 0
         then encPayload ← zoom ss set_ss (SymmetricState.encryptAndHash payload);
              mret (concatBytes [out; encPayload])
         else mret out);
  modify (fun hs => set_step (step hs + 1) hs);;
  mret out.

(** The loop of [readMessageInPlace]; returns the final offset. *)
Fixpoint read_tokens (message : bytes) (toks : list token) (off : Z) : ST t Z :=
  match toks with
  | [] => mret off
  | TE :: toks =>
      throw_when (len message - off <? DHLEN) (Error "noise: short message reading e");;
      let re := subarray message off (off + DHLEN) in
      modify (set_re re);;
      zoom ss set_ss (SymmetricState.mixHash re);;
      read_tokens message toks (off + DHLEN)
  | TS :: toks =>
      hs ← get;
      let encLen := if SymmetricState.cipherHasKey (ss hs) then DHLEN + TAGLEN else DHLEN in
      throw_when (len message - off <? encLen) (Error "noise: short message reading s");;
      rs ← zoom ss set_ss (SymmetricState.decryptAndHash (subarray message off (off + encLen)));
      modify (set_rs rs);;
      throw_when (negb (len rs =? DHLEN)) (Error "noise: decrypted s is wrong length");;
      read_tokens message toks (off + encLen)
  | tok :: toks => dh tok;; read_tokens message toks off
  end.

Definition readMessageInPlace (message : bytes) : ST t bytes :=
  hs ← get;
  tokens ← lift (tokensForStep (pattern hs) (step hs));
  throw_when (isSenderForStep (role hs) (step hs)) (Error "not our turn to read");;
  off ← read_tokens message tokens 0;
  let remaining := subarray_from message off in
  payload ← (if len remaining >? 0
             then zoom ss set_ss (SymmetricState.decryptAndHash remaining)
             else mret []);
  modify (fun hs => set_step (step hs + 1) hs);;
  mret payload.

(** Failed reads restore the four fields that were saved. *)
Definition readMessage (message : bytes) : ST t bytes := fun previous =>
  match readMessageInPlace message previous with
  | (Ok payload, hs) => (Ok payload, hs)
  | (Throw error, hs) =>
      (Throw error,
       mk (pattern hs) (role hs) (SymmetricState.clone (ss previous)) (s hs) (e hs)
          (rs previous) (re previous) (ephemeralOverride hs) (step previous))
  end.

Definition splitTxRx (hs : t) : result (CipherState.t * CipherState.t) :=
  '(c1, c2) ← SymmetricState.split_ (ss hs);
  match role hs with
  | initiator => Ok (c1, c2)
  | responder => Ok (c2, c1)
  end.

Definition getRemoteStatic (hs : t) : option bytes := rs hs.
End Ops.
End NoiseHandshake.

(** ** Ciphers *)

Section CipherFacts.
Context `{Noble, !HashLaws, !AeadLaws}.
Import CipherState.

(** A cipher that can still be used. *)
Definition usable (c : t) : Prop := 0 <= n c < 2 ^ 64 - 1.

(** One message: what is encrypted in a state is decrypted in the same state,
    and both sides are then in the same state again. *)
Lemma cipher_step c ad p :
  usable c -> exists ct c',
    encryptWithAd ad p c = (Ok ct, c') /\ decryptWithAd ad ct c = (Ok p, c') /\
    key c' = key c /\ n c' = (if hasKey c then n c + 1 else n c) /\
    len ct = len p + (if hasKey c then 16 else 0).
Proof.
  intros Hu. unfold usable in Hu. destruct c as [[k|] n0]; cbn in Hu |- *.
  - unfold encryptWithAd, decryptWithAd, mbind, ST_bind, get, throw_when, lift, modify, mret, ST_ret.
    cbn -[noiseNonce Z.pow Z.mul Z.add]. rewrite Z.geb_leb. decide_if.
    rewrite noiseNonce_ok by lia. cbn -[Z.pow Z.mul Z.add].
    eexists _, _. split; [reflexivity|]. rewrite chacha_open_seal. split; [reflexivity|].
    split; [done|]. split; [done|]. apply len_chacha.
  - exists p, (mk None n0). cbn. rewrite Z.add_0_r. done.
Qed.

(** Encrypting, and decrypting, a sequence of messages. *)
Fixpoint encrypt_all (ad : bytes) (ps : list bytes) : ST t (list bytes) :=
  match ps with
  | [] => mret []
  | p :: ps => c ← encryptWithAd ad p; cs ← encrypt_all ad ps; mret (c :: cs)
  end.

Fixpoint decrypt_all (ad : bytes) (cs : list bytes) : ST t (list bytes) :=
  match cs with
  | [] => mret []
  | c :: cs => p ← decryptWithAd ad c; ps ← decrypt_all ad cs; mret (p :: ps)
  end.

Lemma cipher_stream_aux ad ps c :
  0 <= n c -> n c + len ps <= 2 ^ 64 - 1 -> exists cts c',
    encrypt_all ad ps c = (Ok cts, c') /\ decrypt_all ad cts c = (Ok ps, c') /\
    key c' = key c /\ n c' = (if hasKey c then n c + len ps else n c) /\ length cts = length ps.
Proof.
  revert c. induction ps as [|p ps IH]; intros c Hn0 Hn.
  - exists [], c. cbn. rewrite Z.add_0_r. by destruct (hasKey c).
  - rewrite len_cons in *. pose proof (len_nonneg ps).
    destruct (cipher_step c ad p) as (ct & c1 & E1 & D1 & K1 & N1 & _); [unfold usable; lia|].
    assert (Hk : hasKey c1 = hasKey c) by (unfold hasKey; by rewrite K1).
    destruct (IH c1) as (cts & c2 & E2 & D2 & K2 & N2 & L2);
      [destruct (hasKey c); lia|destruct (hasKey c); lia|].
    exists (ct :: cts), c2. cbn [encrypt_all decrypt_all].
    rewrite (ST_bind_ok _ _ _ _ _ E1), (ST_bind_ok _ _ _ _ _ E2).
    rewrite (ST_bind_ok _ _ _ _ _ D1), (ST_bind_ok _ _ _ _ _ D2).
    split; [done|]. split; [done|]. split; [by rewrite K2|]. split; [|simpl; lia].
    rewrite N2, Hk, N1. destruct (hasKey c); lia.
Qed.
End CipherFacts.

(** A cipher carries a stream: messages encrypted in order are decrypted in
    order as long as the 64-bit nonce lasts, both ends then being in the same
    state with the nonce advanced once per message; at the last nonce the
    cipher refuses; and a failed decryption leaves the state as it was. *)
Lemma cipher_stream `{Noble, !HashLaws, !AeadLaws} (c : CipherState.t) (ad : bytes) :
  (forall ps, 0 <= CipherState.n c -> CipherState.n c + len ps <= 2 ^ 64 - 1 -> exists cts c',
     encrypt_all ad ps c = (Ok cts, c') /\ decrypt_all ad cts c = (Ok ps, c') /\
     CipherState.n c' = (if CipherState.hasKey c then CipherState.n c + len ps else CipherState.n c)) /\
  (forall p, CipherState.hasKey c = true -> 2 ^ 64 - 1 <= CipherState.n c ->
     is_ok (fst (CipherState.encryptWithAd ad p c)) = false /\
     is_ok (fst (CipherState.decryptWithAd ad p c)) = false) /\
  (forall ct, match CipherState.decryptWithAd ad ct c with
     | (Throw _, c') => c' = c
     | (Ok p, c') => CipherState.hasKey c = true -> CipherState.encryptWithAd ad p c = (Ok ct, c')
     end).
Proof.
  split; [|split].
  - intros ps Hn0 Hn. destruct (cipher_stream_aux ad ps c Hn0 Hn) as (cts & c' & ? & ? & _ & ? & _). eauto 10.
  - intros p Hk Hn. destruct c as [[k|] n0]; [|done]. cbn in Hn.
    unfold CipherState.encryptWithAd, CipherState.decryptWithAd, mbind, ST_bind, get, throw_when.
    cbn -[Z.pow Z.sub]. rewrite Z.geb_leb.
    replace (_ <=? n0) with true by (symmetry; apply Z.leb_le; lia). done.
  - intros ct. destruct c as [[k|] n0]; [|done].
    unfold CipherState.encryptWithAd, CipherState.decryptWithAd, mbind, ST_bind, get, throw_when, lift, modify, mret, ST_ret.
    cbn -[noiseNonce]. destruct (n0 >=? _); [done|]. cbn -[noiseNonce].
    destruct (noiseNonce n0) as [nc|]; [|done]. cbn -[noiseNonce].
    destruct (chacha_decrypt k nc ad ct) as [p|] eqn:E; [|done].
    intros _. by rewrite <- (chacha_auth _ _ _ _ _ E).
Qed.

(** ** Steps of the symmetric state *)

Section SymFacts.
Context `{Noble, !HashLaws, !AeadLaws}.
Import SymmetricState.

Definition mixed_hash (data : bytes) (s : t) : t := mk (sha256 (concatBytes [h s; data])) (ck s) (cipher s).

(** [mixKey] always succeeds: the derived key has 32 bytes. *)
Definition mixed_key (ikm : bytes) (s : t) : t :=
  let '(ck', k) := noiseHkdf2 (ck s) ikm in mk (h s) ck' (CipherState.mk (Some k) 0).

Lemma mixKey_run ikm s : mixKey ikm s = (Ok tt, mixed_key ikm s).
Proof.
  unfold mixKey, mixed_key, noiseHkdf2, mbind, ST_bind, get, modify, lift, CipherState.withKey.
  cbn. by rewrite len_hmac.
Qed.

Lemma split_run s : exists k1 k2,
  noiseHkdf2 (ck s) [] = (k1, k2) /\ split_ s = Ok (CipherState.mk (Some k1) 0, CipherState.mk (Some k2) 0).
Proof.
  eexists _, _. split; [reflexivity|].
  unfold split_, noiseHkdf2, CipherState.withKey. cbn. by rewrite !len_hmac.
Qed.

(** What one side encrypts and hashes, the other decrypts and hashes. *)
Lemma hash_step s p :
  usable (cipher s) -> exists ct s',
    encryptAndHash p s = (Ok ct, s') /\ decryptAndHash ct s = (Ok p, s') /\
    cipherHasKey s' = cipherHasKey s /\
    CipherState.n (cipher s) <= CipherState.n (cipher s') <= CipherState.n (cipher s) + 1 /\
    len ct = len p + (if cipherHasKey s then 16 else 0).
Proof.
  intros Hu. destruct (cipher_step (cipher s) [] p Hu) as (ct & c' & E & D & K & N & L).
  exists ct, (mixed_hash ct (set_cipher c' s)). unfold encryptAndHash, decryptAndHash, zoom.
  unfold mbind, ST_bind. rewrite E, D. cbn.
  split; [done|]. split; [done|].
  split; [unfold cipherHasKey, CipherState.hasKey; cbn; by rewrite K|]. rewrite N.
  unfold cipherHasKey. destruct (CipherState.hasKey _); (split; [lia|done]).
Qed.
End SymFacts.

(** ** Two sides of a handshake *)

(** A public key, or the even key with the same x-coordinate. *)
Definition same_x (k p : bytes) : Prop := k = p \/ k = x02 :: drop 1 p.

Section Handshake.
Context `{Noble, !HashLaws, !AeadLaws, !DhLaws}.
Import NoiseHandshake.

Definition keypair_ok (k : KeyPair) : Prop := getPublicKey (priv k) = Ok (pub k).

(** What one side knows of the other. *)
Record knows (x y : t) : Prop := {
  kn_s : keypair_ok (s x);
  kn_e : forall k, e x = Some k -> keypair_ok k;
  kn_re : re x = pub <$> e y;
  kn_rs : forall k, rs x = Some k -> same_x k (pub (s y));
}.

(** The two sides of a running handshake; [b] bounds the nonce. *)
Record agree (b : Z) (w r : t) : Prop := {
  ag_pattern : pattern w = pattern r;
  ag_role : role w <> role r;
  ag_step : step w = step r;
  ag_ss : ss w = ss r;
  ag_nonce : 0 <= CipherState.n (SymmetricState.cipher (ss w)) <= b;
  ag_w : knows w r;
  ag_r : knows r w;
}.

Lemma agree_sym b w r : agree b w r -> agree b r w.
Proof. intros []. split; try done. by rewrite <- ag_ss0. Qed.

Lemma agree_set_ss b b' w r x :
  agree b w r -> 0 <= CipherState.n (SymmetricState.cipher x) <= b' -> agree b' (set_ss x w) (set_ss x r).
Proof.
  intros [Hp Hr Hs _ _ [] []] Hn. split; [exact Hp|exact Hr|exact Hs|done|exact Hn|by split|by split].
Qed.

(** The two sides compute the same secret from their halves. *)
Lemma dh_same a b ka kb :
  keypair_ok a -> keypair_ok b -> same_x ka (pub a) -> same_x kb (pub b) ->
  exists sh, ecdh (priv a) kb = Ok sh /\ ecdh (priv b) ka = Ok sh.
Proof.
  intros Ha Hb Hka Hkb. destruct (ecdh_ok _ _ _ _ Ha Hb) as [sh Hsh].
  assert (Hn : forall x y k, keypair_ok x -> keypair_ok y -> same_x k (pub y) ->
    ecdh (priv x) k = ecdh (priv x) (pub y)).
  { intros x y k Hx Hy [->| ->]; [done|]. by apply (ecdh_parity _ _ _ _ Hx Hy). }
  exists sh. rewrite !(Hn _ _ _ Ha Hb Hkb), !(Hn _ _ _ Hb Ha Hka). split; [done|].
  by rewrite <- (ecdh_comm _ _ _ _ Ha Hb).
Qed.

Lemma dh_run tok p k sh hs :
  dh_operands hs tok = Ok (p, Some k) -> ecdh p k = Ok sh ->
  dh tok hs = (Ok tt, set_ss (mixed_key sh (ss hs)) hs).
Proof.
  intros Ho Hsh. unfold dh. st_step (eq_refl : get hs = (Ok hs, hs)).
  unfold lift at 1, mbind at 1, ST_bind at 1. rewrite Ho.
  unfold lift, mbind at 1, ST_bind at 1. cbn [need mbind result_bind]. rewrite Hsh.
  rewrite (len_ecdh _ _ _ Hsh). change (throw_when _ _) with (mret (M := ST t) tt).
  unfold mbind, ST_bind, mret, ST_ret, zoom. by rewrite mixKey_run.
Qed.

(** Which keys are known: the writer's and the reader's ephemeral, the peer's
    static to the writer and to the reader. *)
Record keys := Keys { kew : bool; ker : bool; krw : bool; krr : bool }.

Definition has_keys (k : keys) (w r : t) : Prop :=
  (kew k = true -> is_Some (e w)) /\ (ker k = true -> is_Some (e r)) /\
  (krw k = true -> is_Some (rs w)) /\ (krr k = true -> is_Some (rs r)).

(** Whether both sides have the operands of a token, and what they know
    afterwards. *)
Definition token_ready (p : NoisePattern) (writer : NoiseRole) (tok : token) (k : keys) : bool :=
  let initiator_e_responder_s :=
    match writer with initiator => kew k && krw k | responder => ker k && krr k end in
  match tok with
  | TE | TS => true
  | TEE => kew k && ker k
  | TES => initiator_e_responder_s
  | TSE => match p with
           | IK => initiator_e_responder_s
           | XK => match writer with initiator => ker k && krr k | responder => kew k && krw k end
           end
  | TSS => krw k && krr k
  end.

Definition token_keys (tok : token) (k : keys) : keys :=
  match tok with
  | TE => Keys true (ker k) (krw k) (krr k)
  | TS => Keys (kew k) (ker k) (krw k) true
  | _ => k
  end.

Definition is_dh (tok : token) : bool := match tok with TE | TS => false | _ => true end.

(** A Diffie-Hellman token: both sides mix the same secret. *)
Lemma dh_agree b w r k tok :
  is_dh tok = true -> agree b w r -> has_keys k w r -> token_ready (pattern w) (role w) tok k = true ->
  exists x, dh tok w = (Ok tt, set_ss x w) /\ dh tok r = (Ok tt, set_ss x r) /\
    CipherState.n (SymmetricState.cipher x) = 0 /\ SymmetricState.cipherHasKey x = true.
Proof.
  intros Hdh [Hp Hr Hs Hss Hn [Ks Ke Kre Krs] [Ks' Ke' Kre' Krs']] (Hw & Hr' & Hrw & Hrr) Hready.
  assert (Hmix : forall p q u v sh, dh_operands w tok = Ok (p, Some u) -> dh_operands r tok = Ok (q, Some v) ->
    ecdh p u = Ok sh -> ecdh q v = Ok sh -> exists x, dh tok w = (Ok tt, set_ss x w) /\
      dh tok r = (Ok tt, set_ss x r) /\ CipherState.n (SymmetricState.cipher x) = 0 /\
      SymmetricState.cipherHasKey x = true).
  { intros p q u v sh Ow Or Ew Er. exists (mixed_key sh (ss w)).
    rewrite (dh_run _ _ _ _ _ Ow Ew), (dh_run _ _ _ _ _ Or Er), Hss. done. }
  assert (Hpair : forall a c ka kc p q u v, keypair_ok a -> keypair_ok c -> same_x ka (pub a) -> same_x kc (pub c) ->
    dh_operands w tok = Ok (p, Some u) -> dh_operands r tok = Ok (q, Some v) ->
    p = priv a -> u = kc -> q = priv c -> v = ka -> exists x, dh tok w = (Ok tt, set_ss x w) /\
      dh tok r = (Ok tt, set_ss x r) /\ CipherState.n (SymmetricState.cipher x) = 0 /\
      SymmetricState.cipherHasKey x = true).
  { intros a c ka kc p q u v Ha Hc Hka Hkc Ow Or -> -> -> ->.
    destruct (dh_same a c ka kc Ha Hc Hka Hkc) as (sh & E1 & E2). eauto. }
  assert (Hx : forall p, same_x p p) by by left.
  unfold dh_operands in *.
  destruct tok; try done; destruct (role w) eqn:Rw, (role r) eqn:Rr; try done;
    try (destruct (pattern w) eqn:Pw); rewrite <- ?Hp in *; cbn in Hready;
    apply andb_true_iff in Hready as [R1 R2];
    repeat match goal with
    | Hk : ?c = true -> is_Some ?o, Hc : ?c = true |- _ =>
        let x := fresh "k" in let Ex := fresh "Ex" in
        destruct (Hk Hc) as [x Ex]; clear Hk
    end;
    repeat match goal with
    | Ex : e ?x = Some _ |- _ => rewrite Ex in *; clear Ex
    | Ex : rs ?x = Some _ |- _ => rewrite Ex in *; clear Ex
    end; cbn [need mbind result_bind fmap option_fmap option_map] in *;
    rewrite ?Kre, ?Kre' in *;
    eapply Hpair; try reflexivity; eauto.
Qed.

(** ** Token lists *)

Fixpoint tokens_ready (p : NoisePattern) (writer : NoiseRole) (toks : list token) (k : keys) : bool :=
  match toks with
  | [] => true
  | tok :: toks => token_ready p writer tok k && tokens_ready p writer toks (token_keys tok k)
  end.

Definition tokens_keys (toks : list token) (k : keys) : keys := foldl (fun k tok => token_keys tok k) k toks.

(** The bytes a token list puts on the wire, [hk] telling whether the cipher
    has a key. *)
Fixpoint tokens_len (hk : bool) (toks : list token) : Z :=
  match toks with
  | [] => 0
  | TE :: toks => 33 + tokens_len hk toks
  | TS :: toks => 33 + (if hk then 16 else 0) + tokens_len hk toks
  | _ :: toks => tokens_len true toks
  end.

(** What running a token list keeps of one side. *)
Record same_side (x y : t) : Prop := {
  sd_pattern : pattern y = pattern x;
  sd_role : role y = role x;
  sd_s : s y = s x;
  sd_eph : ephemeralOverride y = ephemeralOverride x;
  sd_step : step y = step x;
}.

Lemma same_side_refl x : same_side x x.
Proof. by split. Qed.

Lemma same_side_trans x y z : same_side x y -> same_side y z -> same_side x z.
Proof. intros [] []. split; congruence. Qed.

Lemma usable_le b x : b < 2 ^ 32 -> 0 <= CipherState.n (SymmetricState.cipher x) <= b ->
  usable (SymmetricState.cipher x).
Proof. unfold usable. lia. Qed.

Definition hk (x : t) : bool := SymmetricState.cipherHasKey (ss x).

Lemma concat2 a b : concatBytes [a; b] = a ++ b.
Proof. unfold concatBytes. cbn. by rewrite app_nil_r. Qed.

(** One token written and read: the bytes it puts on the wire, and the two
    sides afterwards. *)
Definition token_step (random : bytes) (tok : token) (b : Z) (w r : t) (k : keys) : Prop :=
  exists c w' r',
    (forall toks out, write_tokens random (tok :: toks) out w = write_tokens random toks (out ++ c) w') /\
    (forall toks out rest, read_tokens (out ++ c ++ rest) (tok :: toks) (len out) r =
       read_tokens (out ++ c ++ rest) toks (len out + len c) r') /\
    agree (b + 1) w' r' /\ has_keys (token_keys tok k) w' r' /\ same_side w w' /\ same_side r r' /\
    len c = tokens_len (hk w) [tok] /\ hk w' = (is_dh tok || hk w)%bool /\
    rs w' = rs w /\ rs r' = (match tok with TS => Some (pub (s w)) | _ => rs r end).

Lemma token_dh random tok b w r k :
  agree b w r -> has_keys k w r -> token_ready (pattern w) (role w) tok k = true ->
  is_dh tok = true -> token_step random tok b w r k.
Proof.
  intros Ha Hk Hready Hdh.
  destruct (dh_agree b w r k tok Hdh Ha Hk Hready) as (x & Dw & Dr & Hn & Hkx).
  exists [], (set_ss x w), (set_ss x r).
  assert (Hag : agree (b + 1) (set_ss x w) (set_ss x r)).
  { eapply agree_set_ss; [done|]. rewrite Hn. destruct Ha. lia. }
  destruct tok; try done; (split; [|split]);
    try (intros toks out; cbn [write_tokens]; rewrite (ST_bind_ok _ _ _ _ _ Dw); by rewrite app_nil_r);
    try (intros toks out rest; cbn [read_tokens]; rewrite (ST_bind_ok _ _ _ _ _ Dr);
         change (len (@nil byte)) with 0; by rewrite Z.add_0_r);
    (split; [done|]; split; [exact Hk|]; split; [by split|]; split; [by split|];
     split; [done|]; split; [exact Hkx|]; by split).
Qed.

Lemma token_e random b w r k :
  agree b w r -> has_keys k w r -> is_ok (genKeyPair (ephemeralOverride w) random) = true ->
  token_step random TE b w r k.
Proof.
  intros Ha Hk Hrand.
  destruct (genKeyPair (ephemeralOverride w) random) as [ke|] eqn:Eg; [|done].
  assert (Hke : keypair_ok ke).
  { unfold genKeyPair, deriveKeyPair in Eg. unfold keypair_ok.
    destruct (ephemeralOverride w); result_inv; done. }
  assert (Hl : len (pub ke) = 33) by (by eapply len_getPublicKey).
  set (x := mixed_hash (pub ke) (ss w)).
  exists (pub ke), (set_ss x (set_e ke w)), (set_ss x (set_re (pub ke) r)).
  destruct Ha as [Hp Hr Hs Hss Hn [Ks Ke Kre Krs] [Ks' Ke' Kre' Krs']].
  split; [|split].
  * intros toks out. cbn [write_tokens]. unfold mbind at 1, ST_bind at 1, get, lift. rewrite Eg.
    unfold mbind at 1, ST_bind at 1. unfold mbind at 1, ST_bind at 1, modify.
    unfold mbind at 1, ST_bind at 1, zoom. by rewrite <- concat2.
  * intros toks out rest. cbn [read_tokens]. unfold DHLEN.
    rewrite !len_app, Hl. pose proof (len_nonneg rest).
    replace (len out + (33 + len rest) - len out <? 33) with false
      by (symmetry; apply Z.ltb_ge; lia).
    rewrite (subarray_app_mid out (pub ke) rest (len out) 33) by done.
    unfold throw_when. unfold mbind at 1, ST_bind at 1, mret at 1, ST_ret at 1.
    unfold mbind at 1, ST_bind at 1, modify. unfold mbind at 1, ST_bind at 1, zoom.
    unfold x. by rewrite Hss.
  * split.
    { split; [done|done|done|done|cbn; lia|split; try done; cbn|split; try done; cbn].
      all: naive_solver. }
    destruct Hk as (? & ? & ? & ?).
    split; [by repeat split|]. split; [by split|]. split; [by split|].
    cbn -[Z.add]. rewrite Hl. by repeat split.
Qed.

Lemma token_s random b w r k :
  agree b w r -> has_keys k w r -> b < 2 ^ 32 -> token_step random TS b w r k.
Proof.
  intros Ha Hk Hb.
  destruct Ha as [Hp Hr Hs Hss Hn [Ks Ke Kre Krs] [Ks' Ke' Kre' Krs']].
  destruct (hash_step (ss w) (pub (s w))) as (ct & x & Ew & Er & Hkx & Hnx & Hl).
  { eapply usable_le; eauto. }
  assert (Hl33 : len (pub (s w)) = 33) by (by eapply len_getPublicKey). rewrite Hl33 in Hl.
  exists ct, (set_ss x w), (set_rs (pub (s w)) (set_ss x r)).
  split; [|split].
  * intros toks out. cbn [write_tokens]. unfold mbind at 1, ST_bind at 1, get.
    unfold mbind at 1, ST_bind at 1, zoom. rewrite Ew. by rewrite <- concat2.
  * intros toks out rest. cbn [read_tokens]. unfold mbind at 1, ST_bind at 1, get. rewrite <- Hss.
    assert (El : (if SymmetricState.cipherHasKey (ss w) then DHLEN + TAGLEN else DHLEN) = len ct)
      by (rewrite Hl; unfold DHLEN, TAGLEN; by destruct (SymmetricState.cipherHasKey (ss w))).
    rewrite El, !len_app. pose proof (len_nonneg rest).
    replace (len out + (len ct + len rest) - len out <? len ct) with false
      by (symmetry; apply Z.ltb_ge; lia).
    rewrite (subarray_app_mid out ct rest (len out) (len ct)) by done.
    unfold throw_when at 1. unfold mbind at 1, ST_bind at 1, mret at 1, ST_ret at 1.
    unfold mbind at 1, ST_bind at 1, zoom.
    unfold throw_when, mret, ST_ret. cbv beta iota. rewrite <- Hss, Er.
    unfold mbind at 1, ST_bind at 1, modify. unfold DHLEN. by rewrite Hl33.
  * split.
    { split; [done|done|done|done|cbn; lia|by split|split; try done; cbn].
      intros k' [= <-]. by left. }
    destruct Hk as (? & ? & ? & ?).
    split; [by repeat split|]. split; [by split|]. split; [by split|].
    cbn -[Z.add]. rewrite Hl. split; [unfold hk; lia|]. by split; [exact Hkx|].
Qed.

Lemma token_agree random tok b w r k :
  agree b w r -> has_keys k w r -> token_ready (pattern w) (role w) tok k = true ->
  (tok = TE -> is_ok (genKeyPair (ephemeralOverride w) random) = true) -> b < 2 ^ 32 ->
  token_step random tok b w r k.
Proof.
  intros Ha Hk Hready Hrand Hb. destruct (is_dh tok) eqn:Hdh; [by apply token_dh|].
  destruct tok; try done; [apply token_e|apply token_s]; auto.
Qed.

(** ** Messages *)

Lemma tokens_agree random toks b out w r k :
  agree b w r -> has_keys k w r -> tokens_ready (pattern w) (role w) toks k = true ->
  (TE ∈ toks -> is_ok (genKeyPair (ephemeralOverride w) random) = true) -> b + len toks < 2 ^ 32 ->
  exists c w' r',
    write_tokens random toks out w = (Ok (out ++ c), w') /\
    (forall rest, read_tokens (out ++ c ++ rest) toks (len out) r = (Ok (len out + len c), r')) /\
    agree (b + len toks) w' r' /\ has_keys (tokens_keys toks k) w' r' /\
    same_side w w' /\ same_side r r' /\
    len c = tokens_len (hk w) toks /\ hk w' = (existsb is_dh toks || hk w)%bool /\
    rs w' = rs w /\ rs r' = (if bool_decide (TS ∈ toks) then Some (pub (s w)) else rs r).
Proof.
  revert b out w r k. induction toks as [|tok toks IH]; intros b out w r k Ha Hk Hready Hrand Hb.
  - exists [], w, r. rewrite app_nil_r. change (len (@nil byte)) with 0. change (len (@nil token)) with 0.
    rewrite !Z.add_0_r. split; [done|]. split; [done|]. split; [done|]. split; [done|].
    split; [apply same_side_refl|]. split; [apply same_side_refl|]. done.
  - cbn [tokens_ready] in Hready. apply andb_true_iff in Hready as [Hr1 Hr2].
    rewrite len_cons in Hb. pose proof (len_nonneg toks).
    destruct (token_agree random tok b w r k Ha Hk Hr1) as
      (c1 & w1 & r1 & W1 & R1 & A1 & K1 & Sw1 & Sr1 & L1 & H1' & Rw1 & Rr1); [intros ->; apply Hrand; left|lia|].
    destruct (IH (b + 1) (out ++ c1) w1 r1 (token_keys tok k) A1 K1) as
      (c2 & w2 & r2 & W2 & R2 & A2 & K2 & Sw2 & Sr2 & L2 & H2' & Rw2 & Rr2).
    { destruct Sw1. by rewrite sd_pattern0, sd_role0. }
    { destruct Sw1. rewrite sd_eph0. intros Hin. apply Hrand. by right. }
    { lia. }
    exists (c1 ++ c2), w2, r2. rewrite W1, W2, !app_assoc. split; [done|]. split.
    { intros rest. rewrite <- !app_assoc, R1. specialize (R2 rest).
      rewrite <- !app_assoc, len_app in R2. rewrite R2, len_app. f_equal. f_equal. lia. }
    rewrite len_cons. split; [by replace (b + (1 + len toks)) with (b + 1 + len toks) by lia|].
    split; [exact K2|]. split; [by eapply same_side_trans|]. split; [by eapply same_side_trans|].
    rewrite len_app, L1, L2, H2', H1'. split.
    { destruct tok; cbn [tokens_len is_dh orb]; destruct (hk w); lia. }
    split; [cbn [existsb]; by rewrite orb_assoc, (orb_comm (is_dh tok))|].
    split; [congruence|]. rewrite Rr2, Rr1. destruct Sw1 as [_ _ -> _ _].
    repeat case_bool_decide; destruct tok; set_solver.
Qed.

Definition payload_len (p : bytes) : Z := if len p >? 0 then len p + 16 else 0.

(** The payload at the end of a message, encrypted where there is one. *)
Lemma payload_agree p c b w r :
  agree b w r -> hk w = true -> b < 2 ^ 32 ->
  exists ep x,
    (if len p >? 0
     then encPayload ← zoom ss set_ss (SymmetricState.encryptAndHash p); mret (concatBytes [c; encPayload])
     else mret c) w = (Ok (c ++ ep), set_ss x w) /\
    (if len ep >? 0 then zoom ss set_ss (SymmetricState.decryptAndHash ep) else mret []) r
      = (Ok p, set_ss x r) /\
    0 <= CipherState.n (SymmetricState.cipher x) <= b + 1 /\
    SymmetricState.cipherHasKey x = true /\ len ep = payload_len p.
Proof.
  intros [_ _ _ Hss Hn _ _] Hhk Hb. unfold payload_len. rewrite Z.gtb_ltb.
  destruct (Z.ltb_spec 0 (len p)) as [Hp|Hp].
  - destruct (hash_step (ss w) p) as (ct & x & Ew & Er & Hkx & Hnx & Hl); [by eapply usable_le|].
    unfold hk in Hhk. rewrite Hhk in Hl, Hkx. exists ct, x. split; [|split].
    + unfold mbind, ST_bind, zoom. rewrite Ew. unfold mret, ST_ret. by rewrite concat2.
    + rewrite Z.gtb_ltb. replace (0 <? len ct) with true by (symmetry; apply Z.ltb_lt; lia).
      unfold zoom. by rewrite <- Hss, Er.
    + split; [lia|]. split; [done|lia].
  - assert (p = []) as -> by (apply len_nil_inv; pose proof (len_nonneg p); lia).
    exists [], (ss w). rewrite app_nil_r. split; [by destruct w|]. split; [by rewrite Hss; destruct r|].
    split; [lia|]. by split.
Qed.

(** A message: the reader gets the writer's payload, and both sides stay in
    agreement, one step further. *)
Lemma message_agree random p toks b w r k :
  agree b w r -> has_keys k w r ->
  tokensForStep (pattern w) (step w) = Ok toks -> isSenderForStep (role w) (step w) = true ->
  tokens_ready (pattern w) (role w) toks k = true ->
  (TE ∈ toks -> is_ok (genKeyPair (ephemeralOverride w) random) = true) -> b + len toks + 1 < 2 ^ 32 ->
  (existsb is_dh toks || hk w)%bool = true ->
  exists m w' r',
    writeMessage random p w = (Ok m, w') /\ readMessage m r = (Ok p, r') /\
    agree (b + len toks + 1) w' r' /\ has_keys (tokens_keys toks k) w' r' /\
    pattern w' = pattern w /\ role w' = role w /\ s w' = s w /\ s r' = s r /\ step w' = step w + 1 /\
    ephemeralOverride w' = ephemeralOverride w /\ ephemeralOverride r' = ephemeralOverride r /\
    hk w' = true /\ len m = tokens_len (hk w) toks + payload_len p /\
    rs w' = rs w /\ rs r' = (if bool_decide (TS ∈ toks) then Some (pub (s w)) else rs r).
Proof.
  intros Ha Hk Htok Hsend Hready Hrand Hb Hdh.
  assert (Hsr : isSenderForStep (role r) (step r) = false).
  { destruct Ha as [_ Hr Hs _ _ _ _]. rewrite <- Hs. revert Hsend. unfold isSenderForStep.
    destruct (role w), (role r), (step w mod 2 =? 0); done. }
  destruct (tokens_agree random toks b [] w r k Ha Hk Hready Hrand) as
    (c & w1 & r1 & W & R & A & K & Sw & Sr & L & Hhk & Rw & Rr); [lia|].
  rewrite Hdh in Hhk.
  assert (Htr : tokensForStep (pattern r) (step r) = Ok toks)
    by (destruct Ha as [<- _ <- _ _ _ _]; done).
  assert (Hww : writeMessage random p w =
    (out ← (if len p >? 0
           then encPayload ← zoom ss set_ss (SymmetricState.encryptAndHash p);
                mret (concatBytes [c; encPayload])
           else mret c);
     modify (fun hs => set_step (step hs + 1) hs);; mret out) w1).
  { unfold writeMessage. unfold mbind at 1, ST_bind at 1, get. unfold mbind at 1, ST_bind at 1, lift.
    rewrite Htok, Hsend. cbn [negb]. unfold throw_when, mbind at 1, ST_bind at 1, mret at 1, ST_ret at 1.
    by rewrite (ST_bind_ok _ _ _ _ _ W). }
  assert (Hrr : forall rest, readMessageInPlace (c ++ rest) r =
    (payload ← (if len rest >? 0 then zoom ss set_ss (SymmetricState.decryptAndHash rest) else mret []);
     modify (fun hs => set_step (step hs + 1) hs);; mret payload) r1).
  { intros rest. unfold readMessageInPlace. unfold mbind at 1, ST_bind at 1, get.
    unfold mbind at 1, ST_bind at 1, lift.
    rewrite Htr, Hsr. unfold throw_when, mbind at 1, ST_bind at 1, mret at 1, ST_ret at 1.
    specialize (R rest). cbn [app] in R. change (len []) with 0 in R.
    rewrite (ST_bind_ok _ _ _ _ _ R). cbv zeta. by rewrite subarray_from_app by lia. }
  destruct (payload_agree p c _ w1 r1 A Hhk) as (ep & x & Wp & Rp & Hnx & Hkx & Lp); [lia|].
  exists (c ++ ep), (set_step (step w1 + 1) (set_ss x w1)), (set_step (step r1 + 1) (set_ss x r1)).
  split; [rewrite Hww, (ST_bind_ok _ _ _ _ _ Wp); reflexivity|]. split.
  { unfold readMessage. rewrite Hrr. by rewrite (ST_bind_ok _ _ _ _ _ Rp). }
  split.
  { destruct A as [? ? Hst ? ? [] []]. split; [done|done|cbn; by rewrite Hst|done|exact Hnx|by split|by split]. }
  destruct Sw as [? ? ? ? Hstw], Sr as [? ? ? ? Hstr].
  split; [exact K|]. cbn. rewrite Hstw, len_app, L, Lp.
  repeat (split; [done|]). done.
Qed.
(** ** Whole handshakes *)

(** The two sides alternate, [w] writing first: the messages, the payloads
    received, and the two sides at the end. *)
Fixpoint exchange (rand_w rand_r : bytes) (w r : t) (ps : list bytes)
    : result (list bytes * list bytes * t * t) :=
  match ps with
  | [] => Ok ([], [], w, r)
  | p :: ps =>
      match writeMessage rand_w p w with
      | (Throw e, _) => Throw e
      | (Ok m, w) =>
          match readMessage m r with
          | (Throw e, _) => Throw e
          | (Ok q, r) =>
              '(ms, qs, r, w) ← exchange rand_r rand_w r w ps;
              Ok (m :: ms, q :: qs, w, r)
          end
      end
  end.

Lemma exchange_cons rw rr w r p ps m q w1 r1 ms qs w2 r2 :
  writeMessage rw p w = (Ok m, w1) -> readMessage m r = (Ok q, r1) ->
  exchange rr rw r1 w1 ps = Ok (ms, qs, r2, w2) ->
  exchange rw rr w r (p :: ps) = Ok (m :: ms, q :: qs, w2, r2).
Proof. intros Hw Hr He. cbn. by rewrite Hw, Hr, He. Qed.

(** What each message of a pattern takes on the wire, without its payload. *)
Definition message_lens (p : NoisePattern) : list Z :=
  match p with IK => [82; 33] | XK => [33; 33; 49] end.

Lemma new_agree p idI idR k ovI ovR :
  identity_wf idI -> identity_wf idR -> same_x k (publicKey idR) ->
  exists i r, new p initiator idI (Some k) ovI = Ok i /\ new p responder idR None ovR = Ok r /\
    agree 0 i r /\ has_keys (Keys false false true false) i r /\
    pattern i = p /\ role i = initiator /\ step i = 0 /\ pub (s i) = publicKey idI /\
    ephemeralOverride i = ovI /\ ephemeralOverride r = ovR /\ rs i = Some k /\ hk i = false.
Proof.
  intros (_ & HpI & _) (_ & HpR & _) Hk.
  assert (Hnorm : normalize k = normalize (publicKey idR)).
  { destruct (getPublicKey_prefix _ _ HpR) as [x [E|E]]; destruct Hk as [-> | ->]; rewrite E; done. }
  unfold new, deriveKeyPair. rewrite HpI, HpR. cbn [mbind result_bind pub]. rewrite Hnorm.
  destruct (SymmetricState.mixHash _ _) as [u ss0] eqn:Em.
  eexists _, _. split; [done|]. split; [done|].
  unfold SymmetricState.mixHash, modify in Em. injection Em as _ <-.
  split; [split; try done; by split; cbn; try done; intros ? [= <-]|].
  repeat (split; [done|]). done.
Qed.

Lemma handshake_done b i r :
  agree b i r -> exists k1 k2, (splitTxRx i = Ok (k1, k2) /\ splitTxRx r = Ok (k2, k1)) /\
    getHandshakeHash i = getHandshakeHash r.
Proof.
  intros [_ Hr _ Hss _ _ _]. destruct (split_run (ss i)) as (k1 & k2 & _ & E).
  unfold splitTxRx, getHandshakeHash. rewrite <- Hss, E.
  destruct (role i), (role r); try done; eexists _, _; by (split; [split; reflexivity|]).
Qed.

(** The keys of a finished handshake, as the links and sessions take them. *)
Lemma handshake_keys b i r :
  agree b i r -> role i = initiator -> exists k1 k2,
    splitTxRx i = Ok (CipherState.mk (Some k1) 0, CipherState.mk (Some k2) 0) /\
    splitTxRx r = Ok (CipherState.mk (Some k2) 0, CipherState.mk (Some k1) 0) /\
    len k1 = 32 /\ len k2 = 32.
Proof.
  intros [_ Hr _ Hss _ _ _] Hi. destruct (split_run (ss i)) as (k1 & k2 & Ek & E).
  exists k1, k2. unfold splitTxRx. rewrite <- Hss, E, Hi.
  rewrite Hi in Hr. destruct (role r); [done|].
  unfold noiseHkdf2 in Ek. injection Ek as <- <-. by rewrite !len_hmac.
Qed.

(** The two sides before step [n], [w] being the one to write. *)
Record at_step (p : NoisePattern) (n : Z) (k : keys) (b : Z) (rand : NoiseRole -> bytes) (w r : t) : Prop := {
  st_agree : agree b w r;
  st_keys : has_keys k w r;
  st_pattern : pattern w = p;
  st_role : role w = if n mod 2 =? 0 then initiator else responder;
  st_step : step w = n;
  st_key : hk w = (0 <? n);
  st_eph_w : is_ok (genKeyPair (ephemeralOverride w) (rand (role w))) = true;
  st_eph_r : is_ok (genKeyPair (ephemeralOverride r) (rand (role r))) = true;
}.

Definition swap_keys (k : keys) : keys := Keys (ker k) (kew k) (krr k) (krw k).

Definition step_ready (p : NoisePattern) (n : Z) (k : keys) (toks : list token) : bool :=
  bool_decide (tokensForStep p n = Ok toks) && (0 <=? n) && (existsb is_dh toks || (0 <? n)) &&
  tokens_ready p (if n mod 2 =? 0 then initiator else responder) toks k.

Lemma step_ok p n k b rand w r payload toks :
  at_step p n k b rand w r -> step_ready p n k toks = true -> b + len toks + 1 < 2 ^ 32 ->
  exists m w' r',
    writeMessage (rand (role w)) payload w = (Ok m, w') /\ readMessage m r = (Ok payload, r') /\
    at_step p (n + 1) (swap_keys (tokens_keys toks k)) (b + len toks + 1) rand r' w' /\
    len m = tokens_len (0 <? n) toks + payload_len payload /\
    role r' = role r /\ role w' = role w /\ s w' = s w /\ s r' = s r /\
    rs w' = rs w /\ rs r' = (if bool_decide (TS ∈ toks) then Some (pub (s w)) else rs r).
Proof.
  intros [Ha Hk Hp Hr Hs Hkey He1 He2] Hready Hb. unfold step_ready in Hready. bool_split.
  match goal with H : existsb _ _ || _ = true |- _ => rename H into Hdh end.
  destruct (message_agree (rand (role w)) payload toks b w r k Ha Hk) as
    (m & w' & r' & W & R & A & K & P & Ro & Sw & Sr & St & Ow & Or & Hk' & L & Rw & Rr).
  { by rewrite Hp, Hs. } { rewrite Hr, Hs. unfold isSenderForStep. by destruct (n mod 2 =? 0). }
  { by rewrite Hp, Hr. } { done. } { done. } { by rewrite Hkey. }
  exists m, w', r'. split; [done|]. split; [done|]. rewrite Hkey in L.
  pose proof A as [Ap Ar As Ass _ _ _].
  assert (Hrr : role r' = role r).
  { destruct Ha as [_ Hr0 _ _ _ _ _]. rewrite Ro in Ar.
    destruct (role w), (role r), (role r'); congruence. }
  split; [|repeat (split; [done|]); done].
  split.
  - by apply agree_sym.
  - by destruct K as (? & ? & ? & ?).
  - by rewrite <- Ap, P.
  - rewrite Ro, Hr in Ar. rewrite Zplus_mod. pose proof (Z.mod_pos_bound n 2).
    destruct (Z.eqb_spec (n mod 2) 0) as [E|E]; cbn.
    + rewrite E. destruct (role r'); [congruence|done].
    + assert (n mod 2 = 1) as -> by lia. destruct (role r'); [done|congruence].
  - by rewrite <- As, St, Hs.
  - unfold hk in *. rewrite <- Ass, Hk'. symmetry. apply Z.ltb_lt. lia.
  - by rewrite Or, Hrr.
  - by rewrite Ow, Ro.
Qed.
End Handshake.

Section HandshakeTheorem.
Context `{Noble, !HashLaws, !AeadLaws, !DhLaws}.
Import NoiseHandshake.

Definition rand_of (randI randR : bytes) (ro : NoiseRole) : bytes :=
  match ro with initiator => randI | responder => randR end.

(** C1: a Noise handshake between two honest parties succeeds, for both
    patterns and any payloads: every message is accepted and delivers its
    payload, the two sides end with the same transcript hash and with the same
    two keys, in opposite directions, the responder has learned the
    initiator's static key, and the messages have the lengths the wire formats
    demand. The initiator may know the responder's key by its x-coordinate
    alone. *)
Theorem noise_handshake_correct p idI idR k ovI ovR randI randR ps :
  identity_wf idI -> identity_wf idR -> same_x k (publicKey idR) ->
  is_ok (genKeyPair ovI randI) = true -> is_ok (genKeyPair ovR randR) = true ->
  length ps = length (message_lens p) ->
  exists i0 r0 ms i r k1 k2,
    new p initiator idI (Some k) ovI = Ok i0 /\ new p responder idR None ovR = Ok r0 /\
    exchange randI randR i0 r0 ps = Ok (ms, ps, i, r) /\
    splitTxRx i = Ok (k1, k2) /\ splitTxRx r = Ok (k2, k1) /\
    getHandshakeHash i = getHandshakeHash r /\
    getRemoteStatic r = Some (publicKey idI) /\ getRemoteStatic i = Some k /\
    map len ms = zip_with (fun n q => n + payload_len q) (message_lens p) ps.
Proof.
  intros HI HR Hk HeI HeR Hl.
  destruct (new_agree p idI idR k ovI ovR HI HR Hk) as
    (i0 & r0 & N1 & N2 & A0 & K0 & Ep & Er & Es & Epub & Eo & Eor & Ers & Ehk).
  assert (Err : role r0 = responder) by (destruct A0 as [_ Hr _ _ _ _ _]; rewrite Er in Hr; by destruct (role r0)).
  assert (S0 : at_step p 0 (Keys false false true false) 0 (rand_of randI randR) i0 r0).
  { split; try done; rewrite ?Er, ?Err, ?Eo, ?Eor; done. }
  exists i0, r0. destruct p; cbn [message_lens length] in Hl.
  - destruct ps as [|p1 [|p2 []]]; try done.
    destruct (step_ok _ _ _ _ _ _ _ p1 [TE; TES; TS; TSS] S0)
      as (m1 & i1 & r1 & W1 & R1 & S1 & L1 & Ro1 & Ro1' & Sw1 & Sr1 & Rw1 & Rr1); [reflexivity|done|].
    destruct (step_ok _ _ _ _ _ _ _ p2 [TE; TEE; TSE] S1)
      as (m2 & r2 & i2 & W2 & R2 & S2 & L2 & Ro2 & Ro2' & Sw2 & Sr2 & Rw2 & Rr2); [reflexivity|done|].
    destruct (handshake_done _ _ _ (st_agree _ _ _ _ _ _ _ S2)) as (k1 & k2 & [D1 D2] & Dh).
    rewrite Er in W1. rewrite Ro1, Err in W2. cbn [rand_of] in W1, W2.
    exists [m1; m2], i2, r2, k1, k2. split; [done|]. split; [done|]. split.
    { eapply exchange_cons; [exact W1|exact R1|]. by eapply exchange_cons; [exact W2|exact R2|]. }
    split; [done|]. split; [done|]. split; [done|]. unfold getRemoteStatic.
    rewrite Rw2, Rr1, Rr2, Rw1, Epub. split; [done|]. split; [done|].
    cbn [map zip_with]. by rewrite L1, L2.
  - destruct ps as [|p1 [|p2 [|p3 []]]]; try done.
    destruct (step_ok _ _ _ _ _ _ _ p1 [TE; TES] S0)
      as (m1 & i1 & r1 & W1 & R1 & S1 & L1 & Ro1 & Ro1' & Sw1 & Sr1 & Rw1 & Rr1); [reflexivity|done|].
    destruct (step_ok _ _ _ _ _ _ _ p2 [TE; TEE] S1)
      as (m2 & r2 & i2 & W2 & R2 & S2 & L2 & Ro2 & Ro2' & Sw2 & Sr2 & Rw2 & Rr2); [reflexivity|done|].
    destruct (step_ok _ _ _ _ _ _ _ p3 [TS; TSE] S2)
      as (m3 & i3 & r3 & W3 & R3 & S3 & L3 & Ro3 & Ro3' & Sw3 & Sr3 & Rw3 & Rr3); [reflexivity|done|].
    destruct (handshake_done _ _ _ (st_agree _ _ _ _ _ _ _ S3)) as (k1 & k2 & [D1 D2] & Dh).
    rewrite Er in W1. rewrite Ro1, Err in W2. rewrite Ro2, Ro1', Er in W3. cbn [rand_of] in W1, W2, W3.
    exists [m1; m2; m3], i3, r3, k2, k1. split; [done|]. split; [done|]. split.
    { eapply exchange_cons; [exact W1|exact R1|]. eapply exchange_cons; [exact W2|exact R2|].
      by eapply exchange_cons; [exact W3|exact R3|]. }
    split; [done|]. split; [done|]. split; [done|]. unfold getRemoteStatic.
    rewrite Rr3, Rw3, Rr2, Rw1. rewrite Sr2, Sw1, Epub. split; [done|]. split; [done|].
    cbn [map zip_with]. by rewrite L1, L2, L3.
Qed.
End HandshakeTheorem.

(** ** Failed reads *)

Section Rollback.
Context `{Noble}.
Import NoiseHandshake.

(** What reading never touches. *)
Definition fixed (x y : t) : Prop :=
  pattern y = pattern x /\ role y = role x /\ s y = s x /\ e y = e x /\
  ephemeralOverride y = ephemeralOverride x.

Definition keeps {A} (m : ST t A) : Prop := forall hs, fixed hs (snd (m hs)).

Lemma fixed_trans x y z : fixed x y -> fixed y z -> fixed x z.
Proof. unfold fixed. intros (? & ? & ? & ? & ?) (? & ? & ? & ? & ?). repeat split; congruence. Qed.

Lemma keeps_bind {A B} (m : ST t A) (f : A -> ST t B) : keeps m -> (forall a, keeps (f a)) -> keeps (m ≫= f).
Proof.
  intros Hm Hf hs. unfold mbind, ST_bind. specialize (Hm hs). destruct (m hs) as [[a|er] hs']; [|done].
  eapply fixed_trans; [exact Hm|apply Hf].
Qed.

Lemma keeps_pure {A} (m : ST t A) : (forall hs, snd (m hs) = hs) -> keeps m.
Proof. intros Hm hs. rewrite Hm. done. Qed.

Lemma keeps_zoom {A} (m : ST SymmetricState.t A) : keeps (zoom ss set_ss m).
Proof. intros hs. unfold zoom. by destruct (m (ss hs)). Qed.

Lemma keeps_modify f : (forall hs, fixed hs (f hs)) -> keeps (modify f).
Proof. intros Hf hs. apply Hf. Qed.

Lemma keeps_throw_when c er : keeps (throw_when c er).
Proof. apply keeps_pure. intros hs. by destruct c. Qed.

Ltac keeps_tac :=
  repeat first
    [ apply keeps_bind; [|intros ?] | apply keeps_zoom | apply keeps_throw_when
    | apply keeps_modify; intros ?; by repeat split | by apply keeps_pure ].

Lemma keeps_dh tok : keeps (dh tok).
Proof. unfold dh. apply keeps_bind; [by apply keeps_pure|intros hs]. apply keeps_bind; [by apply keeps_pure|].
  intros [p q]. keeps_tac. Qed.

Lemma keeps_read_tokens m toks off : keeps (read_tokens m toks off).
Proof.
  revert off. induction toks as [|tok toks IH]; intros off; [by apply keeps_pure|].
  destruct tok; cbn [read_tokens];
    try (apply keeps_bind; [apply keeps_dh|intros _; apply IH]).
  - keeps_tac. apply IH.
  - keeps_tac. apply IH.
Qed.

Lemma keeps_readInPlace m : keeps (readMessageInPlace m).
Proof.
  unfold readMessageInPlace. apply keeps_bind; [by apply keeps_pure|intros hs].
  keeps_tac; [apply keeps_read_tokens|]. destruct (_ >? 0); keeps_tac.
Qed.

Lemma failed_read (hs : t) (message : bytes) :
  match readMessage message hs with
  | (Ok _, hs') => fixed hs hs'
  | (Throw _, hs') => hs' = hs
  end.
Proof.
  assert (Hf := keeps_readInPlace message hs). unfold readMessage.
  destruct (readMessageInPlace message hs) as [[p|er] hs'] eqn:E; [done|].
  destruct Hf as (H1 & H2 & H3 & H4 & H5). cbn in H1, H2, H3, H4, H5. rewrite H1, H2, H3, H4, H5.
  destruct hs as [pa ro [h0 ck0 [k0 n0]] s0 e0 rs0 re0 ov st]. reflexivity.
Qed.
(** C39: a handshake message that does not authenticate does no harm: when
    [readMessage] throws, for whatever reason and at whatever token, the
    handshake is exactly as it was and the genuine message can still be read;
    and a message that is accepted changes neither the reader's own keys nor
    its role. *)
Theorem noise_failed_read_is_harmless (hs : t) (message : bytes) :
  match readMessage message hs with
  | (Ok _, hs') => fixed hs hs'
  | (Throw _, hs') => hs' = hs
  end.
Proof. apply failed_read. Qed.
End Rollback.

(** ** Examples *)

#[local] Existing Instances Toy.noble Toy.hash_laws Toy.aead_laws Toy.dh_laws
  Toy.schnorr_laws Toy.hex_laws.

Lemma cipher_stream_witness :
  exists cts c', encrypt_all [] [[x01]; [x02]] (CipherState.mk (Some (Toy.key 3)) 7) = (Ok cts, c') /\
    decrypt_all [] cts (CipherState.mk (Some (Toy.key 3)) 7) = (Ok [[x01]; [x02]], c').
Proof.
  destruct (proj1 (cipher_stream (CipherState.mk (Some (Toy.key 3)) 7) []) [[x01]; [x02]]) as (cts & c' & ? & ? & _);
    [vm_compute; discriminate|vm_compute; discriminate|]. by exists cts, c'.
Defined.

Lemma noise_handshake_correct_witness :
  exists i0 r0 ms i r,
    NoiseHandshake.new IK initiator (demo_identity 5) (Some (x02 :: xOnlyPubkey (demo_identity 9))) None = Ok i0 /\
    NoiseHandshake.new IK responder (demo_identity 9) None None = Ok r0 /\
    exchange (Toy.key 11) (Toy.key 12) i0 r0 [[x01]; [x02]] = Ok (ms, [[x01]; [x02]], i, r).
Proof.
  destruct (noise_handshake_correct IK (demo_identity 5) (demo_identity 9)
    (x02 :: xOnlyPubkey (demo_identity 9)) None None (Toy.key 11) (Toy.key 12) [[x01]; [x02]])
    as (i0 & r0 & ms & i & r & ? & ? & H1 & H2 & H3 & _);
    [ apply demo_identity_wf; vm_compute; reflexivity | apply demo_identity_wf; vm_compute; reflexivity
    | right; vm_compute; reflexivity | vm_compute; reflexivity | vm_compute; reflexivity | reflexivity | ].
  exists i0, r0, ms, i, r. exact (conj H1 (conj H2 H3)).
Defined.
