(* ===== verification/Reports.v ===== *)
(** * Receiver reports

    [mmp/receiverReports.ts] and [fmp/receiverReports.ts]: the measurements a
    receiver makes of a packet stream and the report it answers with. Counters
    are integers, clock readings and the values computed from them are
    floating-point numbers. *)

From S2P Require Import Prelude F64.

Record sample := mkSample { smp_time : F64.t; smp_transit : F64.t }.

Record received := mkReceived { rcv_counter : Z; rcv_timestamp : Z; rcv_bytes : Z; rcv_ceFlag : bool }.

Record ReceiverReports := mkReports {
  rr_packets : Z;
  rr_bytes : Z;
  rr_highest : Z;
  rr_expected : option Z;
  rr_intervalPackets : Z;
  rr_intervalBytes : Z;
  rr_reordered : Z;
  rr_ecnCe : Z;
  rr_timestamp : Z;
  rr_receivedAt : option F64.t;
  rr_jitterUs : F64.t;
  rr_burst : Z;
  rr_bursts : Z;
  rr_maxBurst : Z;
  rr_totalBurst : Z;
  rr_transitSamples : list sample;
}.

Definition new_reports : ReceiverReports :=
  mkReports 0 0 0 None 0 0 0 0 0 None (F64.of_Z 0) 0 0 0 0 [].

(** The lifetime totals survive a new epoch. *)
Definition resetEpoch (r : ReceiverReports) : ReceiverReports :=
  mkReports (rr_packets r) (rr_bytes r) 0 None 0 0 0 0 0 None (F64.of_Z 0) 0 0 0 0 [].

(** The part of [record] and [build] that ends a burst: [maxBurst], [totalBurst]. *)
Definition finishBurst (r : ReceiverReports) : Z * Z :=
  (Z.max (rr_maxBurst r) (rr_burst r), rr_totalBurst r + rr_burst r).

(** [push] with at most 32 samples kept. *)
Definition push_sample (l : list sample) (s : sample) : list sample :=
  let l := l ++ [s] in if len l >? 32 then drop 1 l else l.

Definition record_ (x : received) (nowMs : F64.t) (currentEpoch : bool) (r : ReceiverReports) : ReceiverReports :=
  let packets := rr_packets r + 1 in
  let bytes := rr_bytes r + rcv_bytes x in
  if negb currentEpoch then
    mkReports packets bytes (rr_highest r) (rr_expected r) (rr_intervalPackets r) (rr_intervalBytes r)
      (rr_reordered r) (rr_ecnCe r) (rr_timestamp r) (rr_receivedAt r) (rr_jitterUs r) (rr_burst r)
      (rr_bursts r) (rr_maxBurst r) (rr_totalBurst r) (rr_transitSamples r)
  else
    let intervalPackets := Z.min (rr_intervalPackets r + 1) 0xffffffff in
    let intervalBytes := Z.min (rr_intervalBytes r + rcv_bytes x) 0xffffffff in
    let ecnCe := if rcv_ceFlag x then Z.min (rr_ecnCe r + 1) 0xffffffff else rr_ecnCe r in
    let '(reordered, highest) :=
      if rcv_counter x <? rr_highest r then (js_ushr (rr_reordered r + 1) 0, rr_highest r)
      else (rr_reordered r, rcv_counter x) in
    let '(burst, bursts, maxBurst, totalBurst) :=
      match rr_expected r with
      | Some expected =>
          if rcv_counter x >? expected then
            (Z.min (rr_burst r + (rcv_counter x - expected)) 0xffff,
             (if rr_burst r =? 0 then rr_bursts r + 1 else rr_bursts r), rr_maxBurst r, rr_totalBurst r)
          else let '(m, t) := finishBurst r in (0, rr_bursts r, m, t)
      | None => let '(m, t) := finishBurst r in (0, rr_bursts r, m, t)
      end in
    let expected :=
      match rr_expected r with
      | Some expected => if rcv_counter x >=? expected then Some (rcv_counter x + 1) else Some expected
      | None => Some (rcv_counter x + 1)
      end in
    let '(jitterUs, transit) :=
      match rr_receivedAt r with
      | Some receivedAt =>
          let sentDeltaMs := F64.of_Z (to_int32 (rcv_timestamp x - rr_timestamp r)) in
          let transitDeltaUs := F64.mul (F64.sub (F64.sub nowMs receivedAt) sentDeltaMs) (F64.of_Z 1000) in
          (F64.add (rr_jitterUs r)
             (F64.div (F64.sub (F64.abs transitDeltaUs) (rr_jitterUs r)) (F64.of_Z 16)),
           F64.add (default (F64.of_Z 0) (smp_transit <$> last (rr_transitSamples r)))
             (F64.div transitDeltaUs (F64.of_Z 1000)))
      | None => (rr_jitterUs r, F64.of_Z 0)
      end in
    mkReports packets bytes highest expected intervalPackets intervalBytes reordered ecnCe
      (rcv_timestamp x) (Some nowMs) jitterUs burst bursts maxBurst totalBurst
      (push_sample (rr_transitSamples r) (mkSample nowMs transit)).

Definition sum_of (f : sample -> F64.t) (l : list sample) : F64.t :=
  foldl (fun sum s => F64.add sum (f s)) (F64.of_Z 0) l.

Definition transitTrend (r : ReceiverReports) : Z :=
  let samples := rr_transitSamples r in
  if len samples <? 2 then 0
  else
    let n := F64.of_Z (len samples) in
    let meanTime := F64.div (sum_of smp_time samples) n in
    let meanTransit := F64.div (sum_of smp_transit samples) n in
    let '(covariance, variance) :=
      foldl (fun '(cov, var) s =>
        let time := F64.sub (smp_time s) meanTime in
        (F64.add cov (F64.mul time (F64.sub (smp_transit s) meanTransit)), F64.add var (F64.mul time time)))
        (F64.of_Z 0, F64.of_Z 0) samples in
    let slope := if F64.ltb (F64.of_Z 0) variance
                 then F64.mul (F64.div covariance variance) (F64.of_Z 1000000) else F64.of_Z 0 in
    F64.trunc (F64.max (F64.of_Z (- 0x80000000)) (F64.min (F64.of_Z 0x7fffffff) slope)).

(** [view.setUintN(off, v, true)]: the value wraps to the width of the field. *)
Definition view_set (n : nat) (off v : Z) (body : bytes) : bytes :=
  take (Z.to_nat off) body ++ le_bytes n v ++ drop (Z.to_nat off + n) body.

Definition build (nowMs : F64.t) (r : ReceiverReports) : option bytes * ReceiverReports :=
  match rr_receivedAt r with
  | Some receivedAt =>
      if rr_intervalPackets r =? 0 then (None, r)
      else
        let '(maxBurst, totalBurst) := finishBurst r in
        let dwell := F64.max (F64.of_Z 0) (F64.floor_ (F64.sub nowMs receivedAt)) in
        let mean := if rr_bursts r =? 0 then F64.of_Z 0
                    else F64.min (F64.of_Z 0xffff)
                           (F64.div (F64.of_Z (totalBurst * 256)) (F64.of_Z (rr_bursts r))) in
        let body := replicate 66 x00 in
        let body := view_set 8 2 (rr_highest r) body in
        let body := view_set 8 10 (rr_packets r) body in
        let body := view_set 8 18 (rr_bytes r) body in
        let body := view_set 4 26 (if F64.ltb (F64.of_Z 0xffff) dwell then 0 else rr_timestamp r) body in
        let body := view_set 2 30 (F64.trunc (F64.min dwell (F64.of_Z 0xffff))) body in
        let body := view_set 2 32 maxBurst body in
        let body := view_set 2 34 (F64.trunc mean) body in
        let body := view_set 4 38 (F64.trunc (F64.min (F64.of_Z 0xffffffff) (F64.floor_ (rr_jitterUs r)))) body in
        let body := view_set 4 42 (rr_ecnCe r) body in
        let body := view_set 4 46 (transitTrend r) body in
        let body := view_set 4 50 (rr_bursts r) body in
        let body := view_set 4 54 (rr_reordered r) body in
        let body := view_set 4 58 (rr_intervalPackets r) body in
        let body := view_set 4 62 (rr_intervalBytes r) body in
        (Some body,
         mkReports (rr_packets r) (rr_bytes r) (rr_highest r) (rr_expected r) 0 0 (rr_reordered r)
           (rr_ecnCe r) (rr_timestamp r) (rr_receivedAt r) (rr_jitterUs r) 0 0 0 0 (rr_transitSamples r))
  | None => (None, r)
  end.

(** ** Link reports *)

Record FmpReceiverReports := mkFmpReports { fr_base : ReceiverReports; fr_lastReportAt : option F64.t }.

Definition new_fmp_reports : FmpReceiverReports := mkFmpReports new_reports None.

Definition fmp_record (x : received) (nowMs : F64.t) (r : FmpReceiverReports) : FmpReceiverReports :=
  mkFmpReports (record_ x nowMs true (fr_base r)) (fr_lastReportAt r).

Definition forSenderReport (payload : bytes) (nowMs : F64.t) (r : FmpReceiverReports)
    : option bytes * FmpReceiverReports :=
  if len payload <? 47 then (None, r)
  else if match fr_lastReportAt r with
          | Some t => F64.ltb (F64.sub nowMs t) (F64.of_Z 200)
          | None => false
          end then (None, r)
  else match build nowMs (fr_base r) with
       | (None, b) => (None, mkFmpReports b (fr_lastReportAt r))
       | (Some sessionBody, b) => (Some (z2b 0 :: sessionBody), mkFmpReports b (Some nowMs))
       end.

(** ** Fields of a report *)

(** [view.getUintN(off, true)] *)
Definition view_get (n : nat) (off : Z) (body : bytes) : Z := le_val (subarray body off (off + Z.of_nat n)).

Lemma len_view_set n off v body :
  0 <= off -> off + Z.of_nat n <= len body -> len (view_set n off v body) = len body.
Proof.
  intros Ho Hl. unfold view_set. rewrite !len_app, len_le_bytes. unfold len in *.
  rewrite length_take, length_drop. lia.
Qed.

Lemma view_get_set n off v body :
  0 <= off -> off + Z.of_nat n <= len body ->
  view_get n off (view_set n off v body) = v mod 256 ^ Z.of_nat n.
Proof.
  intros Ho Hl. unfold view_get, view_set. rewrite subarray_app_mid; [apply le_val_wrap| |].
  - unfold len in *. rewrite length_take. lia.
  - by rewrite len_le_bytes.
Qed.

Lemma view_get_other n m off off' v body :
  0 <= off -> 0 <= off' -> off + Z.of_nat n <= len body -> off' + Z.of_nat m <= len body ->
  off + Z.of_nat n <= off' \/ off' + Z.of_nat m <= off ->
  view_get m off' (view_set n off v body) = view_get m off' body.
Proof.
  intros Ho Ho' Hl Hl' Hd. unfold view_get, view_set. f_equal. unfold subarray, len in *.
  replace (Z.to_nat (off' + Z.of_nat m - off')) with m by lia.
  apply list_eq. intros i. destruct (decide (i < m)%nat) as [Hi|Hi].
  - rewrite !lookup_take_lt, !lookup_drop by lia.
    set (j := (Z.to_nat off' + i)%nat).
    destruct Hd as [Hd|Hd].
    + rewrite lookup_app_r by (rewrite length_take; lia).
      rewrite lookup_app_r by (rewrite length_take, length_le_bytes; lia).
      rewrite lookup_drop, length_take, length_le_bytes. f_equal. lia.
    + rewrite lookup_app_l by (rewrite length_take; lia). apply lookup_take_lt. lia.
  - rewrite !lookup_take_ge by lia. done.
Qed.

(** A sequence of stores, each given by its width, offset and value. *)
Definition stores (fs : list (nat * Z * Z)) (body : bytes) : bytes :=
  foldl (fun body '(n, off, v) => view_set n off v body) body fs.

Definition in_bounds (L : Z) (f : nat * Z * Z) : bool :=
  let '(n, off, _) := f in (0 <=? off) && (off + Z.of_nat n <=? L).

Definition apart (f g : nat * Z * Z) : bool :=
  let '(n, off, _) := f in let '(m, off', _) := g in
  (off + Z.of_nat n <=? off') || (off' + Z.of_nat m <=? off).

Fixpoint stores_ok (L : Z) (fs : list (nat * Z * Z)) : bool :=
  match fs with
  | [] => true
  | f :: fs => in_bounds L f && forallb (apart f) fs && stores_ok L fs
  end.

Lemma stores_len fs body : stores_ok (len body) fs = true -> len (stores fs body) = len body.
Proof.
  revert body. induction fs as [|[[n off] v] fs IH]; intros body H; [done|].
  cbn in H. bool_split. cbn [stores foldl]. unfold stores in IH. rewrite IH; [apply len_view_set; lia|].
  by rewrite len_view_set by lia.
Qed.

Lemma stores_get_other fs body n off :
  stores_ok (len body) fs = true -> in_bounds (len body) (n, off, 0) = true ->
  forallb (apart (n, off, 0)) fs = true ->
  view_get n off (stores fs body) = view_get n off body.
Proof.
  revert body. induction fs as [|[[m o] v] fs IH]; intros body H Hb Ha; [done|].
  cbn in H, Hb, Ha. bool_split. cbn [stores foldl].
  match goal with H : _ || _ = true |- _ => apply orb_true_iff in H as Hd end.
  rewrite !Z.leb_le in Hd. unfold stores in IH.
  rewrite IH; rewrite ?len_view_set by lia; try done.
  - apply view_get_other; lia.
  - cbn. by decide_if.
Qed.

(** Stores to disjoint fields can all be read back. *)
Lemma stores_get fs body n off v :
  stores_ok (len body) fs = true -> (n, off, v) ∈ fs ->
  view_get n off (stores fs body) = v mod 256 ^ Z.of_nat n.
Proof.
  revert body. induction fs as [|[[m o] w] fs IH]; intros body H Hin; [by apply not_elem_of_nil in Hin|].
  cbn in H. bool_split. cbn [stores foldl].
  assert (Hl : len (view_set m o w body) = len body) by (apply len_view_set; lia).
  apply elem_of_cons in Hin as [[= -> -> ->]|Hin].
  - fold (stores fs (view_set m o w body)). rewrite stores_get_other; rewrite ?Hl; try done.
    + apply view_get_set; lia.
    + cbn. by decide_if.
  - apply IH; [by rewrite Hl|done].
Qed.

(** The stores of [build]. *)
Definition report_stores (nowMs receivedAt : F64.t) (r : ReceiverReports) : list (nat * Z * Z) :=
  let '(maxBurst, totalBurst) := finishBurst r in
  let dwell := F64.max (F64.of_Z 0) (F64.floor_ (F64.sub nowMs receivedAt)) in
  let mean := if rr_bursts r =? 0 then F64.of_Z 0
              else F64.min (F64.of_Z 0xffff)
                     (F64.div (F64.of_Z (totalBurst * 256)) (F64.of_Z (rr_bursts r))) in
  [(8%nat, 2, rr_highest r); (8%nat, 10, rr_packets r); (8%nat, 18, rr_bytes r);
   (4%nat, 26, if F64.ltb (F64.of_Z 0xffff) dwell then 0 else rr_timestamp r);
   (2%nat, 30, F64.trunc (F64.min dwell (F64.of_Z 0xffff))); (2%nat, 32, maxBurst);
   (2%nat, 34, F64.trunc mean);
   (4%nat, 38, F64.trunc (F64.min (F64.of_Z 0xffffffff) (F64.floor_ (rr_jitterUs r))));
   (4%nat, 42, rr_ecnCe r); (4%nat, 46, transitTrend r); (4%nat, 50, rr_bursts r);
   (4%nat, 54, rr_reordered r); (4%nat, 58, rr_intervalPackets r); (4%nat, 62, rr_intervalBytes r)].

(** The state after a report: a new interval. *)
Definition next_interval (r : ReceiverReports) : ReceiverReports :=
  mkReports (rr_packets r) (rr_bytes r) (rr_highest r) (rr_expected r) 0 0 (rr_reordered r)
    (rr_ecnCe r) (rr_timestamp r) (rr_receivedAt r) (rr_jitterUs r) 0 0 0 0 (rr_transitSamples r).

Lemma build_run nowMs r t :
  rr_receivedAt r = Some t -> rr_intervalPackets r <> 0 -> exists body,
    build nowMs r = (Some body, next_interval r) /\ len body = 66 /\
    forall n off v, (n, off, v) ∈ report_stores nowMs t r -> view_get n off body = v mod 256 ^ Z.of_nat n.
Proof.
  intros Ht Hn. exists (stores (report_stores nowMs t r) (replicate 66 x00)).
  assert (Hok : stores_ok 66 (report_stores nowMs t r) = true).
  { unfold report_stores. destruct (finishBurst r). reflexivity. }
  split; [|split].
  - unfold build, report_stores. rewrite Ht. destruct (finishBurst r).
    destruct (Z.eqb_spec (rr_intervalPackets r) 0); [done|]. unfold next_interval. by rewrite Ht.
  - by rewrite stores_len.
  - intros n off v. by apply stores_get.
Qed.

(** ** The whole stream

    The history of a receiver, newest event first: packets of the current or of an
    older epoch, reports that were made, and changes of the epoch. *)

Inductive event := Got (x : received) (nowMs : F64.t) (currentEpoch : bool) | Reported (nowMs : F64.t) | NewEpoch.

Definition event_step (e : event) (r : ReceiverReports) : ReceiverReports :=
  match e with
  | Got x nowMs currentEpoch => record_ x nowMs currentEpoch r
  | Reported nowMs => snd (build nowMs r)
  | NewEpoch => resetEpoch r
  end.

Definition after (h : list event) : ReceiverReports := foldr event_step new_reports h.

(** A packet with the time it came at. *)
Definition packet : Type := received * F64.t.
Definition counter (p : packet) : Z := rcv_counter (fst p).

(** All packets; those of the epoch since it began; and of them those since the
    last report. *)
Fixpoint packets (h : list event) : list packet :=
  match h with
  | [] => []
  | Got x t _ :: h => (x, t) :: packets h
  | _ :: h => packets h
  end.

Fixpoint epoch (h : list event) : list packet :=
  match h with
  | [] => []
  | Got x t currentEpoch :: h => if currentEpoch then (x, t) :: epoch h else epoch h
  | Reported _ :: h => epoch h
  | NewEpoch :: _ => []
  end.

Fixpoint interval (h : list event) : list packet :=
  match h with
  | [] => []
  | Got x t currentEpoch :: h => if currentEpoch then (x, t) :: interval h else interval h
  | _ :: _ => []
  end.

Definition sum (l : list Z) : Z := foldr Z.add 0 l.
Definition max_of (l : list Z) : Z := foldr Z.max 0 l.
Definition count {A} (f : A -> bool) (l : list A) : Z := sum (map (fun x => if f x then 1 else 0) l).

Definition bytes_of (ps : list packet) : Z := sum (map (fun p => rcv_bytes (fst p)) ps).
Definition highest (ps : list packet) : Z := max_of (map counter ps).

(** A packet is late when one with a greater counter came before it. *)
Fixpoint late (ps : list packet) : Z :=
  match ps with
  | [] => 0
  | p :: before => (if existsb (fun q => counter p <? counter q) before then 1 else 0) + late before
  end.

(** The counters that each packet has skipped above all that came before it. *)
Fixpoint gaps (ps : list packet) : list Z :=
  match ps with
  | [] => []
  | p :: before => match before with [] => 0 | _ => Z.max 0 (counter p - (highest before + 1)) end :: gaps before
  end.

(** A packet without a gap ends a burst: the stretches between such packets. *)
Definition stretches (gs : list Z) : list (list Z) :=
  foldr (fun g ss => if g =? 0 then [] :: ss else match ss with s :: ss => (g :: s) :: ss | [] => [[g]] end) [[]] gs.

Definition capped (s : list Z) : Z := Z.min (sum s) 0xffff.

(** The loss bursts since the last report, newest first. *)
Definition losses (h : list event) : list (list Z) := stretches (take (length (interval h)) (gaps (epoch h))).
Definition loss_bursts (h : list event) : list Z := filter (fun b => b <> 0) (map capped (losses h)).

(** The change of the transit time between two packets, in microseconds, its
    smoothed size, and the transit times relative to the first packet's. *)
Definition transit_delta (p q : packet) : F64.t :=
  F64.mul (F64.sub (F64.sub (snd p) (snd q)) (F64.of_Z (to_int32 (rcv_timestamp (fst p) - rcv_timestamp (fst q))))) (F64.of_Z 1000).

Fixpoint jitter (ps : list packet) : F64.t :=
  match ps with
  | p :: ((q :: _) as before) =>
      F64.add (jitter before) (F64.div (F64.sub (F64.abs (transit_delta p q)) (jitter before)) (F64.of_Z 16))
  | _ => F64.of_Z 0
  end.

Fixpoint transit (ps : list packet) : F64.t :=
  match ps with
  | p :: ((q :: _) as before) => F64.add (transit before) (F64.div (transit_delta p q) (F64.of_Z 1000))
  | _ => F64.of_Z 0
  end.

Fixpoint trail (ps : list packet) : list sample :=
  match ps with
  | [] => []
  | p :: before => mkSample (snd p) (transit ps) :: trail before
  end.

(** What the measurements are to be after a history. *)
Definition measures (h : list event) : ReceiverReports :=
  let e := epoch h in
  mkReports (len (packets h)) (bytes_of (packets h)) (highest e)
    (match e with [] => None | _ => Some (highest e + 1) end)
    (Z.min (len (interval h)) 0xffffffff) (Z.min (bytes_of (interval h)) 0xffffffff)
    (late e mod 2 ^ 32) (Z.min (count (fun p => rcv_ceFlag (fst p)) e) 0xffffffff)
    (match e with [] => 0 | p :: _ => rcv_timestamp (fst p) end) (snd <$> head e) (jitter e)
    (capped (default [] (head (losses h)))) (count (fun s => negb (sum s =? 0)) (losses h))
    (max_of (map capped (tail (losses h)))) (sum (map capped (tail (losses h))))
    (rev (take 32 (trail e))).

(** What arrives has a counter and a length. *)
Definition event_ok (e : event) : Prop :=
  match e with Got x _ _ => 0 <= rcv_counter x /\ 0 <= rcv_bytes x | _ => True end.

(** *** Lists of numbers *)

Lemma sum_nonneg l : Forall (fun x => 0 <= x) l -> 0 <= sum l.
Proof. unfold sum. induction 1; cbn in *; lia. Qed.

Lemma max_of_nonneg l : 0 <= max_of l.
Proof. unfold max_of. induction l; cbn in *; lia. Qed.

Lemma max_of_le l b : 0 <= b -> Forall (fun x => x <= b) l -> max_of l <= b.
Proof. intros Hb. unfold max_of. induction 1; cbn in *; lia. Qed.

Lemma count_bounds {A} (f : A -> bool) l : 0 <= count f l.
Proof. apply sum_nonneg, Forall_map, Forall_true. intros x. cbn. by destruct (f x). Qed.

Lemma sum_losses l : sum (filter (fun b => b <> 0) l) = sum l.
Proof. unfold sum. induction l as [|x l IH]; [done|]. rewrite filter_cons. case_decide; cbn in *; lia. Qed.

Lemma max_losses l : max_of (filter (fun b => b <> 0) l) = max_of l.
Proof.
  induction l as [|x l IH]; [done|]. rewrite filter_cons. pose proof (max_of_nonneg l) as Hm. unfold max_of in *. case_decide; cbn [foldr] in *; lia.
Qed.

Lemma count_losses ss : Forall (fun s => 0 <= sum s) ss ->
  len (filter (fun b => b <> 0) (map capped ss)) = count (fun s => negb (sum s =? 0)) ss.
Proof.
  unfold count. induction 1 as [|s ss Hs _ IH]; [done|]. cbn [map]. rewrite filter_cons. unfold capped at 1.
  destruct (Z.eqb_spec (sum s) 0) as [E|E]; cbn [negb]; case_decide; rewrite ?len_cons, IH; cbn [map sum foldr]; unfold sum in *; lia.
Qed.

Lemma late_highest p before : 0 <= counter p -> existsb (fun q => counter p <? counter q) before = (counter p <? highest before).
Proof.
  intros Hp. unfold highest, max_of. induction before as [|q before IH]; cbn [existsb map foldr].
  - symmetry. by apply Z.ltb_ge.
  - rewrite IH. destruct (Z.ltb_spec (counter p) (counter q)), (Z.ltb_spec (counter p) (foldr Z.max 0 (map counter before)));
      cbn [orb]; symmetry; (apply Z.ltb_lt; lia) || (apply Z.ltb_ge; lia).
Qed.

(** *** Stretches *)

Lemma stretches_cons gs : exists s ss, stretches gs = s :: ss.
Proof. destruct gs as [|g gs]; cbn; [by repeat eexists|]. case_match; [by repeat eexists|]. case_match; by repeat eexists. Qed.

Lemma stretches_sum gs : sum (map sum (stretches gs)) = sum gs.
Proof.
  induction gs as [|g gs IH]; [done|]. cbn. fold (stretches gs). destruct (stretches_cons gs) as (s & ss & E). rewrite E in *.
  destruct (Z.eqb_spec g 0); unfold sum in *; cbn in *; lia.
Qed.

Lemma stretches_nonneg gs : Forall (fun g => 0 <= g) gs -> Forall (fun s => 0 <= sum s) (stretches gs).
Proof.
  induction 1 as [|g gs Hg _ IH]; cbn; [by repeat constructor|]. fold (stretches gs). case_match; [by constructor|].
  destruct (stretches gs) as [|s ss]; [by repeat constructor; cbn; lia|]. inversion IH; subst. constructor; [|done]. unfold sum in *. cbn. lia.
Qed.

Lemma capped_nonneg s : 0 <= sum s -> 0 <= capped s.
Proof. unfold capped. lia. Qed.

Lemma capped_sum ss : Forall (fun s => 0 <= sum s) ss -> sum (map sum ss) <= 0xffff -> sum (map capped ss) = sum (map sum ss).
Proof.
  induction 1 as [|s ss Hs Hss IH]; [done|]. cbn. intros Hle. assert (0 <= sum (map sum ss)) by (by apply sum_nonneg, Forall_map).
  unfold sum in *. cbn in *. unfold capped at 1, sum. lia.
Qed.

Lemma gaps_nonneg ps : Forall (fun g => 0 <= g) (gaps ps).
Proof. induction ps as [|p ps IH]; cbn; constructor; [|done]. case_match; lia. Qed.

Lemma losses_nonneg h : Forall (fun s => 0 <= sum s) (losses h).
Proof. apply stretches_nonneg, Forall_take, gaps_nonneg. Qed.

(** *** The measurements are those of the history *)

Lemma interval_epoch h : exists earlier, epoch h = interval h ++ earlier.
Proof. induction h as [|[x t []|t|] h [earlier IH]]; cbn; [by exists []|exists earlier; by rewrite IH|by exists earlier|by exists (epoch h)|by exists []]. Qed.

Lemma trail_length ps : length (trail ps) = length ps.
Proof. induction ps; cbn; congruence. Qed.

(** [push_sample] keeps the newest 32 samples. *)
Lemma push_trail s l : push_sample (rev (take 32 l)) s = rev (take 32 (s :: l)).
Proof.
  unfold push_sample, len. rewrite length_app, length_rev, length_take. cbn [length].
  destruct (Z.gtb_spec (Z.of_nat (Nat.min 32 (length l) + 1)) 32) as [Hgt|Hle].
  - replace (take 32 l) with (take 31 l ++ drop 31 (take 32 l)) by (rewrite <- (take_drop 31 (take 32 l)) at 2; rewrite take_take; done).
    assert (Hd : length (drop 31 (take 32 l)) = 1%nat) by (rewrite length_drop, length_take; lia).
    destruct (drop 31 (take 32 l)) as [|y [|? ?]]; try done. rewrite rev_app_distr. done.
  - rewrite (take_ge l) by lia. rewrite take_ge by (cbn; lia). done.
Qed.

Lemma trail_last ps : smp_transit <$> last (rev (take 32 (trail ps))) = match ps with [] => None | _ => Some (transit ps) end.
Proof. destruct ps as [|p ps]; [done|]. cbn [trail take]. cbn [rev]. by rewrite last_snoc. Qed.

Lemma losses_got x t h : losses (Got x t true :: h) =
  let g := match epoch h with [] => 0 | before => Z.max 0 (rcv_counter x - (highest before + 1)) end in
  if g =? 0 then [] :: losses h else (g :: default [] (head (losses h))) :: tail (losses h).
Proof.
  unfold losses. cbn [interval epoch length gaps take]. unfold stretches at 1. cbn [foldr]. fold (stretches (take (length (interval h)) (gaps (epoch h)))).
  destruct (stretches_cons (take (length (interval h)) (gaps (epoch h)))) as (s & ss & ->). by destruct (epoch h).
Qed.

Lemma min_step a b cap : 0 <= b -> Z.min (Z.min a cap + b) cap = Z.min (b + a) cap.
Proof. lia. Qed.

(** What a record adds to the bursts, and the end of one. *)
Lemma burst_end s ss : Z.max (max_of (map capped ss)) (capped s) = max_of (map capped (s :: ss)) /\
  sum (map capped ss) + capped s = sum (map capped (s :: ss)).
Proof. unfold max_of, sum at 1 2. cbn [map foldr]. split; [apply Z.max_comm|apply Z.add_comm]. Qed.

Lemma count_cons {A} (f : A -> bool) x l : count f (x :: l) = (if f x then 1 else 0) + count f l.
Proof. done. Qed.

Lemma burst_more s ss g : 0 < g -> 0 <= sum s ->
  capped (g :: s) = Z.min (capped s + g) 0xffff /\
  count (fun s => negb (sum s =? 0)) ((g :: s) :: ss) =
    (if capped s =? 0 then count (fun s => negb (sum s =? 0)) (s :: ss) + 1 else count (fun s => negb (sum s =? 0)) (s :: ss)).
Proof.
  intros Hg Hs. assert (Eg : sum (g :: s) = g + sum s) by done. rewrite !count_cons, Eg. unfold capped. rewrite Eg. split; [lia|]. rewrite (proj2 (Z.eqb_neq (g + sum s) 0)) by lia. cbn [negb].
  destruct (Z.eqb_spec (Z.min (sum s) 65535) 0), (Z.eqb_spec (sum s) 0); cbn [negb]; lia.
Qed.

Lemma losses_some h : exists s ss, losses h = s :: ss.
Proof. apply stretches_cons. Qed.

Lemma len_ofS {A} (x : A) l : len (x :: l) = len l + 1.
Proof. rewrite len_cons. lia. Qed.

Lemma highest_nonneg ps : 0 <= highest ps.
Proof. apply max_of_nonneg. Qed.

Lemma highest_cons p ps : highest (p :: ps) = Z.max (counter p) (highest ps).
Proof. done. Qed.

Lemma bytes_cons p ps : bytes_of (p :: ps) = rcv_bytes (fst p) + bytes_of ps.
Proof. done. Qed.

(** The parts of [record], on a packet of the epoch. *)
Lemma record_order x t e : 0 <= rcv_counter x ->
  (if rcv_counter x <? highest e then (js_ushr (late e mod 2 ^ 32 + 1) 0, highest e) else (late e mod 2 ^ 32, rcv_counter x)) =
  (late ((x, t) :: e) mod 2 ^ 32, highest ((x, t) :: e)).
Proof.
  intros Hc. rewrite highest_cons. cbn [late]. rewrite late_highest by done. change (counter (x, t)) with (rcv_counter x).
  pose proof (highest_nonneg e). destruct (Z.ltb_spec (rcv_counter x) (highest e)).
  - f_equal; [|lia]. unfold js_ushr, to_uint32. rewrite Z.shiftr_0_r, Z.add_mod_idemp_l by lia. f_equal. lia.
  - f_equal. lia.
Qed.

Definition expected_of (e : list packet) : option Z := match e with [] => None | _ => Some (highest e + 1) end.

Lemma record_expected x t e : 0 <= rcv_counter x ->
  match expected_of e with
  | Some expected => if rcv_counter x >=? expected then Some (rcv_counter x + 1) else Some expected
  | None => Some (rcv_counter x + 1)
  end = expected_of ((x, t) :: e).
Proof.
  intros Hc. unfold expected_of. rewrite highest_cons. change (counter (x, t)) with (rcv_counter x). destruct e as [|q e].
  - f_equal. cbn. lia.
  - rewrite Z.geb_leb. destruct (Z.leb_spec (highest (q :: e) + 1) (rcv_counter x)); f_equal; lia.
Qed.

Lemma record_burst x t h : let r := measures h in
  match expected_of (epoch h) with
  | Some expected =>
      if rcv_counter x >? expected then
        (Z.min (rr_burst r + (rcv_counter x - expected)) 0xffff,
         (if rr_burst r =? 0 then rr_bursts r + 1 else rr_bursts r), rr_maxBurst r, rr_totalBurst r)
      else let '(m, t) := finishBurst r in (0, rr_bursts r, m, t)
  | None => let '(m, t) := finishBurst r in (0, rr_bursts r, m, t)
  end =
  let r' := measures (Got x t true :: h) in (rr_burst r', rr_bursts r', rr_maxBurst r', rr_totalBurst r').
Proof.
  cbv zeta. unfold finishBurst, measures. cbn [rr_burst rr_bursts rr_maxBurst rr_totalBurst].
  destruct (losses_some h) as (s & ss & El). pose proof (Forall_inv (eq_ind _ _ (losses_nonneg h) _ El)) as Hs. cbn beta in Hs.
  rewrite losses_got, El. cbn [head tail default]. change (id s) with s. destruct (burst_end s ss) as [Hmax Hsum].
  assert (Hzero : (0, count (fun s => negb (sum s =? 0)) (s :: ss), Z.max (max_of (map capped ss)) (capped s), sum (map capped ss) + capped s) =
    (capped [], count (fun s => negb (sum s =? 0)) ([] :: s :: ss), max_of (map capped (s :: ss)), sum (map capped (s :: ss)))) by (by rewrite Hmax, Hsum).
  unfold expected_of. destruct (epoch h) as [|q e]; [exact Hzero|]. rewrite Z.gtb_ltb. destruct (Z.ltb_spec (highest (q :: e) + 1) (rcv_counter x)) as [Hg|Hg].
  - rewrite (proj2 (Z.eqb_neq (Z.max _ _) 0)) by lia. cbn [head tail default]. change (id (?a :: s)) with (a :: s).
    destruct (burst_more s ss (Z.max 0 (rcv_counter x - (highest (q :: e) + 1)))) as [E1 E2]; [lia|done|]. unfold id. rewrite E1, E2.
    repeat f_equal. lia.
  - rewrite (proj2 (Z.eqb_eq (Z.max _ _) 0)) by lia. exact Hzero.
Qed.

Lemma record_jitter x t h : let r := measures h in
  match rr_receivedAt r with
  | Some receivedAt =>
      let sentDeltaMs := F64.of_Z (to_int32 (rcv_timestamp x - rr_timestamp r)) in
      let transitDeltaUs := F64.mul (F64.sub (F64.sub t receivedAt) sentDeltaMs) (F64.of_Z 1000) in
      (F64.add (rr_jitterUs r) (F64.div (F64.sub (F64.abs transitDeltaUs) (rr_jitterUs r)) (F64.of_Z 16)),
       F64.add (default (F64.of_Z 0) (smp_transit <$> last (rr_transitSamples r))) (F64.div transitDeltaUs (F64.of_Z 1000)))
  | None => (rr_jitterUs r, F64.of_Z 0)
  end = (jitter ((x, t) :: epoch h), transit ((x, t) :: epoch h)).
Proof.
  cbv zeta. change (rr_transitSamples (measures h)) with (rev (take 32 (trail (epoch h)))). rewrite trail_last. unfold measures.
  cbn [rr_receivedAt rr_timestamp rr_jitterUs]. by destruct (epoch h) as [|[y u] e].
Qed.

(** The measurements of one more packet of the epoch. *)
Lemma record_measures x t h : 0 <= rcv_counter x -> 0 <= rcv_bytes x ->
  record_ x t true (measures h) = measures (Got x t true :: h).
Proof.
  intros Hc Hb. pose proof (record_order x t (epoch h) Hc) as E1. pose proof (record_expected x t (epoch h) Hc) as E2.
  pose proof (record_burst x t h) as E3. pose proof (record_jitter x t h) as E4. cbv zeta in E4.
  unfold record_. change (rr_expected (measures h)) with (expected_of (epoch h)). cbv zeta in E3. rewrite E2, E3. cbn [negb].
  change (rr_highest (measures h)) with (highest (epoch h)). change (rr_reordered (measures h)) with (late (epoch h) mod 2 ^ 32). rewrite E1.
  rewrite E4. change (rr_transitSamples (measures h)) with (rev (take 32 (trail (epoch h)))). rewrite push_trail.
  unfold measures at 1 2 3 4 5 6. cbn [rr_packets rr_bytes rr_intervalPackets rr_intervalBytes rr_ecnCe].
  rewrite !min_step by lia. unfold measures. cbn [rr_burst rr_bursts rr_maxBurst rr_totalBurst epoch interval packets].
  rewrite count_cons, !len_cons, !bytes_cons. cbn [fst]. f_equal; try lia; try done.
  destruct (rcv_ceFlag x); [|lia]. lia.
Qed.

(** A report begins a new interval; without packets there is none. *)
Lemma report_idle nowMs h : interval h = [] -> measures (Reported nowMs :: h) = measures h.
Proof. intros E. unfold measures, losses. cbn [epoch interval packets]. by rewrite E. Qed.

Lemma build_idle nowMs h : interval h = [] -> build nowMs (measures h) = (None, measures h).
Proof.
  intros E. unfold build. destruct (rr_receivedAt (measures h)); [|done].
  change (rr_intervalPackets (measures h)) with (Z.min (len (interval h)) 0xffffffff). by rewrite E.
Qed.

Lemma build_measures nowMs h : interval h <> [] -> exists receivedAt body,
  build nowMs (measures h) = (Some body, measures (Reported nowMs :: h)) /\ len body = 66 /\ snd <$> head (epoch h) = Some receivedAt /\
  forall n off v, (n, off, v) ∈ report_stores nowMs receivedAt (measures h) -> view_get n off body = v mod 256 ^ Z.of_nat n.
Proof.
  intros Hne. destruct (interval_epoch h) as [earlier E]. assert (Hi : 0 < len (interval h)).
  { destruct (interval h); [done|]. rewrite len_cons. pose proof (len_nonneg l). lia. }
  assert (exists receivedAt, snd <$> head (epoch h) = Some receivedAt) as [t Ht] by (rewrite E; destruct (interval h); [done|by eexists]).
  destruct (build_run nowMs (measures h) t Ht) as (body & H1 & H2 & H3); [unfold measures; cbn [rr_intervalPackets]; lia|].
  exists t, body. split; [|done]. rewrite H1. by repeat f_equal.
Qed.

(** The measurements after any history are those of the history. *)
Lemma after_measures h : Forall event_ok h -> after h = measures h.
Proof.
  induction 1 as [|e h He _ IH]; [done|]. unfold after in *. cbn [foldr]. rewrite IH. destruct e as [x t []|t|]; cbn [event_step].
  - by apply record_measures; apply He.
  - unfold measures, losses. cbn [epoch interval packets]. rewrite bytes_cons, len_cons, (Z.add_comm 1), (Z.add_comm (rcv_bytes _)). done.
  - destruct (interval h) as [|p ps] eqn:E.
    + by rewrite build_idle, report_idle.
    + destruct (build_measures t h) as (r & body & -> & _); [by rewrite E|done].
  - done.
Qed.

(** *** Streams in order *)

(** Each packet of the epoch has a greater counter than those before it. *)
Fixpoint in_order (ps : list packet) : Prop :=
  match ps with
  | p :: before => match before with [] => True | _ => highest before < counter p end /\ in_order before
  | [] => True
  end.

Fixpoint oldest (ps : list packet) : Z :=
  match ps with [] => 0 | [p] => counter p | _ :: before => oldest before end.

Lemma in_order_gaps p ps : Forall (fun q => 0 <= counter q) (p :: ps) -> in_order (p :: ps) ->
  sum (gaps (p :: ps)) = highest (p :: ps) - oldest (p :: ps) + 1 - len (p :: ps) /\ highest (p :: ps) = counter p.
Proof.
  revert p. induction ps as [|q ps IH]; intros p Hc Ho.
  - apply Forall_inv in Hc. rewrite highest_cons. change (sum (gaps [p])) with 0. change (len [p]) with 1. change (highest []) with 0. cbn [oldest]. lia.
  - apply Forall_cons in Hc as [Hc Hcs]. destruct Ho as [Hp Ho]. destruct (IH q Hcs Ho) as [Hsum Hq]. rewrite highest_cons. split; [|lia].
    change (oldest (p :: q :: ps)) with (oldest (q :: ps)). rewrite len_cons.
    change (sum (gaps (p :: q :: ps))) with (Z.max 0 (counter p - (highest (q :: ps) + 1)) + sum (gaps (q :: ps))). lia.
Qed.

(** A loss counts every skipped counter, in bursts of at most 65535. *)
Lemma losses_sum h : sum (gaps (epoch h)) <= 0xffff -> interval h = epoch h -> sum (loss_bursts h) = sum (gaps (epoch h)).
Proof.
  intros Hcap Hi. unfold loss_bursts. rewrite sum_losses. pose proof (losses_nonneg h) as Hn. unfold losses in *. rewrite Hi in *.
  assert (Eg : forall ps, length (gaps ps) = length ps) by (induction ps; cbn; congruence).
  rewrite take_ge in * by (by rewrite Eg). by rewrite capped_sum; rewrite ?stretches_sum.
Qed.

(** The stores of a report, from the history. *)
Lemma stores_measures nowMs receivedAt h : let e := epoch h in let bursts := loss_bursts h in
  let dwell := F64.max (F64.of_Z 0) (F64.floor_ (F64.sub nowMs receivedAt)) in
  report_stores nowMs receivedAt (measures h) =
  [(8%nat, 2, highest e); (8%nat, 10, len (packets h)); (8%nat, 18, bytes_of (packets h));
   (4%nat, 26, if F64.ltb (F64.of_Z 0xffff) dwell then 0 else match e with [] => 0 | p :: _ => rcv_timestamp (fst p) end);
   (2%nat, 30, F64.trunc (F64.min dwell (F64.of_Z 0xffff))); (2%nat, 32, max_of bursts);
   (2%nat, 34, F64.trunc (if len bursts =? 0 then F64.of_Z 0
      else F64.min (F64.of_Z 0xffff) (F64.div (F64.of_Z (sum bursts * 256)) (F64.of_Z (len bursts)))));
   (4%nat, 38, F64.trunc (F64.min (F64.of_Z 0xffffffff) (F64.floor_ (jitter e))));
   (4%nat, 42, Z.min (count (fun p => rcv_ceFlag (fst p)) e) 0xffffffff);
   (4%nat, 46, transitTrend (measures h)); (4%nat, 50, len bursts); (4%nat, 54, late e mod 2 ^ 32);
   (4%nat, 58, Z.min (len (interval h)) 0xffffffff); (4%nat, 62, Z.min (bytes_of (interval h)) 0xffffffff)].
Proof.
  cbv zeta. unfold report_stores. set (trend := transitTrend _). unfold finishBurst, measures.
  cbn [rr_packets rr_bytes rr_highest rr_intervalPackets rr_intervalBytes rr_reordered rr_ecnCe rr_timestamp rr_jitterUs rr_burst rr_bursts rr_maxBurst rr_totalBurst].
  pose proof (count_losses (losses h) (losses_nonneg h)) as Ec. fold (loss_bursts h) in Ec. rewrite <- Ec.
  pose proof (sum_losses (map capped (losses h))) as Es. pose proof (max_losses (map capped (losses h))) as Em. fold (loss_bursts h) in Es, Em. rewrite Es, Em.
  destruct (losses_some h) as (s & ss & El). rewrite El. cbn [head tail default]. change (id s) with s. by destruct (burst_end s ss) as [-> ->].
Qed.

Lemma loss_bursts_bounded h : max_of (loss_bursts h) <= 0xffff.
Proof. unfold loss_bursts. rewrite max_losses. apply max_of_le; [done|]. apply Forall_map, Forall_true. intros s. unfold capped. cbn. lia. Qed.

Lemma epoch_ok h : Forall event_ok h -> Forall (fun p => 0 <= counter p /\ 0 <= rcv_bytes (fst p)) (epoch h).
Proof. induction 1 as [|[x t []|t|] h Hx _ IH]; cbn; try done. by constructor. Qed.

Lemma epoch_counters h : Forall event_ok h -> Forall (fun p => 0 <= counter p) (epoch h).
Proof. intros H%epoch_ok. eapply Forall_impl; [exact H|]. by intros p []. Qed.

Lemma bytes_of_interval h : Forall event_ok h -> 0 <= bytes_of (interval h).
Proof.
  intros H%epoch_ok. destruct (interval_epoch h) as [earlier E]. rewrite E in H. apply Forall_app in H as [H _].
  apply sum_nonneg, Forall_map. eapply Forall_impl; [exact H|]. by intros p [].
Qed.

(** C40: the measurements of a receiver are those of everything it has received.
    After any history of packets in any order, of this and of older epochs, of
    reports and of changes of the epoch, the record kept packet by packet is the one
    computed from the whole history; a report without packets of the epoch since
    the last one is not made; and a report holds, in its fixed fields, the highest
    counter of the epoch, the number of packets and of bytes of all epochs, the
    timestamp and age of the newest packet, the greatest loss burst since the last
    report, their mean and their number, the smoothed jitter and the trend of the
    transit times, the marked packets, the late ones, and the packets and bytes
    since the last report. For packets in order the bursts count exactly the
    counters that were skipped. *)
Theorem report_describes_stream h nowMs : Forall event_ok h ->
  let e := epoch h in let i := interval h in let bursts := loss_bursts h in
  after h = measures h /\
  (i = [] -> build nowMs (after h) = (None, after h)) /\
  (i <> [] -> exists p before body, e = p :: before /\
    build nowMs (after h) = (Some body, measures (Reported nowMs :: h)) /\ len body = 66 /\
    view_get 8 2 body = highest e mod 2 ^ 64 /\
    view_get 8 10 body = len (packets h) mod 2 ^ 64 /\ view_get 8 18 body = bytes_of (packets h) mod 2 ^ 64 /\
    (let dwell := F64.max (F64.of_Z 0) (F64.floor_ (F64.sub nowMs (snd p))) in
     view_get 4 26 body = (if F64.ltb (F64.of_Z 0xffff) dwell then 0 else rcv_timestamp (fst p)) mod 2 ^ 32 /\
     view_get 2 30 body = F64.trunc (F64.min dwell (F64.of_Z 0xffff)) mod 2 ^ 16) /\
    view_get 2 32 body = max_of bursts /\
    view_get 2 34 body = F64.trunc (if len bursts =? 0 then F64.of_Z 0
      else F64.min (F64.of_Z 0xffff) (F64.div (F64.of_Z (sum bursts * 256)) (F64.of_Z (len bursts)))) mod 2 ^ 16 /\
    view_get 4 38 body = F64.trunc (F64.min (F64.of_Z 0xffffffff) (F64.floor_ (jitter e))) mod 2 ^ 32 /\
    view_get 4 42 body = Z.min (count (fun p => rcv_ceFlag (fst p)) e) 0xffffffff /\
    view_get 4 46 body = transitTrend (measures h) mod 2 ^ 32 /\
    view_get 4 50 body = len bursts mod 2 ^ 32 /\ view_get 4 54 body = late e mod 2 ^ 32 /\
    view_get 4 58 body = Z.min (len i) 0xffffffff /\ view_get 4 62 body = Z.min (bytes_of i) 0xffffffff) /\
  (in_order e -> e <> [] -> i = e -> highest e - oldest e < 0xffff -> sum bursts = highest e - oldest e + 1 - len e).
Proof.
  intros Hok e i bursts. rewrite (after_measures h Hok). split; [done|]. split; [apply build_idle|]. split.
  - intros Hne. destruct (build_measures nowMs h Hne) as (t & body & Hb & Hl & Ht & Hget).
    assert (exists p before, e = p :: before /\ snd p = t) as (p & before & Ee & <-)
      by (unfold e; destruct (epoch h) as [|p before]; [done|]; injection Ht as <-; eauto).
    exists p, before, body. split; [done|]. split; [done|]. split; [done|].
    pose proof (stores_measures nowMs (snd p) h) as Es. cbv zeta in Es. fold e i bursts in Es.
    assert (E26 : match e with [] => 0 | q :: _ => rcv_timestamp (fst q) end = rcv_timestamp (fst p)) by (by rewrite Ee). rewrite E26 in Es. rewrite Es in Hget.
    pose proof (loss_bursts_bounded h) as Hmax. fold bursts in Hmax. pose proof (max_of_nonneg bursts).
    pose proof (Z.mod_pos_bound (late e) 4294967296 ltac:(done)) as Hlate. change (2 ^ 32) with 4294967296 in Hget |- *.
    pose proof (count_bounds (fun p => rcv_ceFlag (fst p)) e). pose proof (len_nonneg i).
    pose proof (bytes_of_interval h Hok) as Hbi. fold i in Hbi.
    cbv zeta. split_and!; (erewrite Hget by (repeat first [simple apply list_elem_of_here|simple apply list_elem_of_further])); first [reflexivity|change (256 ^ Z.of_nat 4) with 4294967296|change (256 ^ Z.of_nat 2) with 65536]; apply Z.mod_small; lia.
  - intros Ho He Hi Hcap. pose proof (epoch_counters h Hok) as Hc. unfold bursts, e, i in *. clear e i bursts. pose proof (losses_sum h) as Hl. destruct (epoch h) as [|p ps]; [done|].
    destruct (in_order_gaps p ps Hc Ho) as [Hsum _]. pose proof (len_nonneg (p :: ps)). rewrite Hl; [done|lia|done].
Qed.

(** Three packets of an epoch, then a late one and one of an older epoch. *)
Definition demo_stream : list event :=
  let got c old := Got (mkReceived c (10 * c) 100 false) (F64.of_Z (10 * c)) old in
  [got 2 false; got 7 true; got 9 true; got 6 true; got 5 true].

Lemma report_describes_stream_witness : exists body,
  build (F64.of_Z 99) (after demo_stream) = (Some body, measures (Reported (F64.of_Z 99) :: demo_stream)) /\
  view_get 8 2 body = 9 /\ view_get 8 10 body = 5 /\ view_get 2 32 body = 2 /\ view_get 4 54 body = 1 /\ view_get 4 58 body = 4.
Proof.
  destruct (report_describes_stream demo_stream (F64.of_Z 99)) as (_ & _ & H & _); [repeat constructor; vm_compute; discriminate|].
  destruct H as (p & before & body & _ & Hb & _ & H1 & H2 & _ & _ & H3 & _ & _ & _ & _ & _ & H4 & H5 & _); [vm_compute; discriminate|].
  exists body. split; [exact Hb|]. rewrite H1, H2, H3, H4, H5. vm_compute. repeat split; reflexivity.
Defined.
