(* ===== verification/FmpLink.v ===== *)
(** * FMP links

    [fmp/link.ts]: the encrypted channel between adjacent peers: the Noise IK
    handshake in FMP packets, the established state with its transmit counter
    and replay window, and the answers to retransmitted handshake packets. Clock
    readings ([performance.now()]) and random bytes are arguments. *)

From S2P Require Import Prelude Codec Crypto Toy NodeAddr Identity Replay F64 FmpWire Channel Noise Reports.

Definition EPOCH_PAYLOAD_LEN : Z := 8.

(** The type [init | handshaking | established | closed]. *)
Inductive LinkState := LInit | LHandshaking | LEstablished | LClosed.

#[export] Instance LinkState_eq_dec : EqDecision LinkState.
Proof. solve_decision. Defined.

Record FmpLink := mkLink {
  fl_role : NoiseRole;
  fl_localSessionIdx : Z;
  fl_identity : FipsIdentity;
  fl_localEpoch : bytes;
  fl_remotePubkey : option bytes;
  fl_remoteSessionIdx : option Z;
  fl_remoteEpoch : option bytes;
  fl_hs : option NoiseHandshake.t;
  fl_tx : option CipherState.t;
  fl_rx : option CipherState.t;
  fl_establishedMsg1 : option bytes;
  fl_establishedMsg2 : option bytes;
  fl_txCounter : Z;
  fl_sessionStartMs : F64.t;
  fl_rxReplay : ReplayWindow.t;
  fl_receiverReports : FmpReceiverReports;
  fl_state : LinkState;
}.

(** ** Stores *)

Section Stores.
Context (l : FmpLink).
Let upd_all pk idx ep hs tx rx m1 m2 ctr start rp rr st : FmpLink :=
  mkLink (fl_role l) (fl_localSessionIdx l) (fl_identity l) (fl_localEpoch l) pk idx ep hs tx rx m1 m2 ctr start rp rr st.

Definition set_hs x := upd_all (fl_remotePubkey l) (fl_remoteSessionIdx l) (fl_remoteEpoch l) x (fl_tx l) (fl_rx l)
  (fl_establishedMsg1 l) (fl_establishedMsg2 l) (fl_txCounter l) (fl_sessionStartMs l) (fl_rxReplay l)
  (fl_receiverReports l) (fl_state l).
Definition set_state x := upd_all (fl_remotePubkey l) (fl_remoteSessionIdx l) (fl_remoteEpoch l) (fl_hs l) (fl_tx l)
  (fl_rx l) (fl_establishedMsg1 l) (fl_establishedMsg2 l) (fl_txCounter l) (fl_sessionStartMs l) (fl_rxReplay l)
  (fl_receiverReports l) x.
(** [remoteEpoch] and [remoteSessionIdx] *)
Definition set_remote ep idx := upd_all (fl_remotePubkey l) (Some idx) (Some ep) (fl_hs l) (fl_tx l)
  (fl_rx l) (fl_establishedMsg1 l) (fl_establishedMsg2 l) (fl_txCounter l) (fl_sessionStartMs l) (fl_rxReplay l)
  (fl_receiverReports l) (fl_state l).
Definition set_remotePubkey x := upd_all (Some x) (fl_remoteSessionIdx l) (fl_remoteEpoch l) (fl_hs l) (fl_tx l)
  (fl_rx l) (fl_establishedMsg1 l) (fl_establishedMsg2 l) (fl_txCounter l) (fl_sessionStartMs l) (fl_rxReplay l)
  (fl_receiverReports l) (fl_state l).
(** [establishedMsg1] and [establishedMsg2] *)
Definition set_established m1 m2 := upd_all (fl_remotePubkey l) (fl_remoteSessionIdx l) (fl_remoteEpoch l) (fl_hs l)
  (fl_tx l) (fl_rx l) m1 m2 (fl_txCounter l) (fl_sessionStartMs l) (fl_rxReplay l) (fl_receiverReports l) (fl_state l).
(** the stores of [finalize] *)
Definition set_final tx rx now := upd_all (fl_remotePubkey l) (fl_remoteSessionIdx l) (fl_remoteEpoch l) None
  (Some tx) (Some rx) (fl_establishedMsg1 l) (fl_establishedMsg2 l) (fl_txCounter l) now (fl_rxReplay l)
  (fl_receiverReports l) LEstablished.
Definition set_txCounter x := upd_all (fl_remotePubkey l) (fl_remoteSessionIdx l) (fl_remoteEpoch l) (fl_hs l) (fl_tx l)
  (fl_rx l) (fl_establishedMsg1 l) (fl_establishedMsg2 l) x (fl_sessionStartMs l) (fl_rxReplay l)
  (fl_receiverReports l) (fl_state l).
Definition set_rxReplay x := upd_all (fl_remotePubkey l) (fl_remoteSessionIdx l) (fl_remoteEpoch l) (fl_hs l) (fl_tx l)
  (fl_rx l) (fl_establishedMsg1 l) (fl_establishedMsg2 l) (fl_txCounter l) (fl_sessionStartMs l) x
  (fl_receiverReports l) (fl_state l).
Definition set_reports x := upd_all (fl_remotePubkey l) (fl_remoteSessionIdx l) (fl_remoteEpoch l) (fl_hs l) (fl_tx l)
  (fl_rx l) (fl_establishedMsg1 l) (fl_establishedMsg2 l) (fl_txCounter l) (fl_sessionStartMs l) (fl_rxReplay l)
  x (fl_state l).
End Stores.

(** ** Methods *)

Record FmpHandshakeResult := mkHsResult { hr_reply : option bytes; hr_established : bool; hr_remotePubkey : bytes }.

Section Methods.
Context `{Noble}.

Definition new_link (identity : FipsIdentity) (remotePubkey : option bytes) (role : NoiseRole) (sessionIdx : Z)
    (localEpoch : bytes) (ephemeralOverride : option bytes) : result FmpLink :=
  throw_if (negb (len localEpoch =? EPOCH_PAYLOAD_LEN)) (Error "FMP local epoch must be 8 bytes");;
  hs ← NoiseHandshake.new IK role identity remotePubkey ephemeralOverride;
  Ok (mkLink role sessionIdx identity localEpoch remotePubkey None None (Some hs) None None None None 0
        (F64.of_Z 0) ReplayWindow.new new_fmp_reports LInit).

(** Call a method of [this.hs], which the caller has checked. *)
Definition on_hs {A} (m : ST NoiseHandshake.t A) : ST FmpLink A := fun l =>
  match fl_hs l with
  | None => (Throw (Error "noise handshake state missing"), l)
  | Some hs => let '(r, hs) := m hs in (r, set_hs l (Some hs))
  end.

Definition require_hs : ST FmpLink unit :=
  l ← get; throw_when (negb (bool_decide (is_Some (fl_hs l)))) (Error "noise handshake state missing").

Definition buildMsg1 (random : bytes) : ST FmpLink bytes :=
  l ← get;
  throw_when (bool_decide (fl_role l <> initiator)) (Error "only initiator builds Msg1");;
  throw_when (bool_decide (fl_remotePubkey l = None)) (Error "initiator needs remote pubkey");;
  require_hs;;
  modify (fun l => set_state l LHandshaking);;
  noiseMsg1 ← on_hs (NoiseHandshake.writeMessage random (fl_localEpoch l));
  throw_when (negb (len noiseMsg1 =? NOISE_IK_MSG1_LEN)) (Error "noise IK msg1 size");;
  lift (encodeFmpMsg1 (mkMsg1 (fl_localSessionIdx l) noiseMsg1)).

Definition finalize (now : F64.t) : ST FmpLink unit :=
  l ← get;
  require_hs;;
  '(tx, rx) ← on_hs (hs ← get; lift (NoiseHandshake.splitTxRx hs));
  modify (fun l => set_final l tx rx now).

Definition handleMsg1 (packet random : bytes) (now : F64.t) : ST FmpLink FmpHandshakeResult :=
  l ← get;
  throw_when (bool_decide (fl_role l <> responder)) (Error "only responder handles Msg1");;
  if decide (fl_state l = LEstablished) then
    match fl_establishedMsg1 l, fl_establishedMsg2 l, fl_remotePubkey l with
    | Some m1, Some m2, Some pk =>
        if bytesEqual packet m1 then mret (mkHsResult (Some m2) true pk)
        else throw (Error "unexpected FMP Msg1 after establishment")
    | _, _, _ => throw (Error "unexpected FMP Msg1 after establishment")
    end
  else
    require_hs;;
    msg1 ← lift (decodeFmpMsg1 packet);
    payload ← on_hs (NoiseHandshake.readMessage (noiseMsg1 msg1));
    throw_when (negb (len payload =? EPOCH_PAYLOAD_LEN)) (Error "noise IK msg1 inner payload must be 8 bytes");;
    modify (fun l => set_remote l payload (m1_senderIdx msg1));;
    rs ← on_hs (hs ← get; mret (NoiseHandshake.getRemoteStatic hs));
    rs ← lift (match rs with Some k => Ok k
               | None => Throw (Error "noise IK responder did not capture remote static") end);
    modify (fun l => set_remotePubkey l rs);;
    noiseMsg2 ← on_hs (NoiseHandshake.writeMessage random (fl_localEpoch l));
    throw_when (negb (len noiseMsg2 =? NOISE_IK_MSG2_LEN)) (Error "noise IK msg2 size");;
    reply ← lift (encodeFmpMsg2 (mkMsg2 (fl_localSessionIdx l) (m1_senderIdx msg1) noiseMsg2));
    modify (fun l => set_established l (Some packet) (Some reply));;
    finalize now;;
    mret (mkHsResult (Some reply) true rs).

Definition handleMsg2 (packet : bytes) (now : F64.t) : ST FmpLink FmpHandshakeResult :=
  l ← get;
  throw_when (bool_decide (fl_role l <> initiator)) (Error "only initiator handles Msg2");;
  if decide (fl_state l = LEstablished) then
    match fl_establishedMsg2 l with
    | Some m2 => if bytesEqual packet m2 then mret (mkHsResult None true (default [] (fl_remotePubkey l)))
                 else throw (Error "unexpected FMP Msg2 after establishment")
    | None => throw (Error "unexpected FMP Msg2 after establishment")
    end
  else
    require_hs;;
    msg2 ← lift (decodeFmpMsg2 packet);
    throw_when (negb (m2_receiverIdx msg2 =? fl_localSessionIdx l)) (Error "FMP Msg2 receiver_idx mismatch");;
    payload ← on_hs (NoiseHandshake.readMessage (noiseMsg2 msg2));
    throw_when (negb (len payload =? EPOCH_PAYLOAD_LEN)) (Error "noise IK msg2 inner payload must be 8 bytes");;
    modify (fun l => set_remote l payload (m2_senderIdx msg2));;
    modify (fun l => set_established l (fl_establishedMsg1 l) (Some packet));;
    finalize now;;
    l ← get;
    mret (mkHsResult None true (default [] (fl_remotePubkey l))).

Definition encryptOutgoing (payload : bytes) (msgType : Z) (now : F64.t) : ST FmpLink bytes :=
  l ← get;
  match fl_state l, fl_tx l, fl_remoteSessionIdx l with
  | LEstablished, Some tx, Some idx =>
      throw_when (fl_txCounter l >=? 0xffffffffffffffff) (Error "FMP nonce exhausted");;
      let counter := fl_txCounter l in
      modify (fun l => set_txCounter l (counter + 1));;
      inner ← lift (encodeFmpInner (mkInner (session_timestamp now (fl_sessionStartMs l)) msgType payload));
      aad ← lift (encodeFmpEstablishedHeader (mkEstHeader 0 idx counter) (len inner));
      key ← lift (CipherState.getKey tx);
      ciphertext ← lift (aeadSeal key counter inner aad);
      lift (encodeFmpEstablished (mkEst (mkEstHeader 0 idx counter) (len inner) ciphertext))
  | _, _, _ => throw (Error "FMP link not established")
  end.

Definition encryptKeepalive (now : F64.t) : ST FmpLink bytes := encryptOutgoing [] FMP_INNER_KEEPALIVE now.

Definition decryptIncoming (packet : bytes) (now : F64.t) : ST FmpLink (Z * bytes) :=
  l ← get;
  match fl_state l, fl_rx l with
  | LEstablished, Some rx =>
      est ← lift (decodeFmpEstablished packet);
      let h := est_header est in
      throw_when (negb (eh_receiverIdx h =? fl_localSessionIdx l)) (Error "FMP Established receiver_idx mismatch");;
      throw_when (negb (ReplayWindow.check (fl_rxReplay l) (eh_counter h))) (Error "FMP replay/duplicate counter");;
      aad ← lift (encodeFmpEstablishedHeader (mkEstHeader (eh_flags h) (eh_receiverIdx h) (eh_counter h)) (est_payloadLen est));
      key ← lift (CipherState.getKey rx);
      plaintext ← lift (aeadOpen key (eh_counter h) (est_ciphertext est) aad);
      modify (fun l => set_rxReplay l (snd (ReplayWindow.accept (fl_rxReplay l) (eh_counter h))));;
      inner ← lift (decodeFmpInner plaintext);
      modify (fun l => set_reports l (fmp_record
        (mkReceived (eh_counter h) (in_timestamp inner) (len packet) (negb (js_and (eh_flags h) 0x02 =? 0)))
        now (fl_receiverReports l)));;
      mret (in_msgType inner, in_payload inner)
  | _, _ => throw (Error "FMP link not established")
  end.

Definition receiverReportFor (senderReport : bytes) (now : F64.t) : ST FmpLink (option bytes) :=
  l ← get;
  if decide (fl_state l = LEstablished) then
    let '(r, rep) := forSenderReport senderReport now (fl_receiverReports l) in
    modify (fun l => set_reports l rep);; mret r
  else mret None.

Definition close : ST FmpLink unit := modify (fun l => set_state l LClosed).
End Methods.

Definition isEqualPubkey (a b : bytes) : bool := bytesEqual a b.

(** ** Frames *)

Lemma encodeFmpInner_total ts ty p :
  0 <= ts < 2 ^ 32 -> 0 <= ty < 256 -> exists b, encodeFmpInner (mkInner ts ty p) = Ok b /\ len b = 5 + len p.
Proof.
  intros Ht Hy. eexists. rewrite encodeFmpInner_Ok. unfold inner_layout. cbn [in_timestamp in_msgType in_payload].
  rewrite !field_ok by (cbn; lia). split; [reflexivity|].
  cbn [mbind option_bind]. rewrite !len_app, !len_le_bytes. lia.
Qed.

Lemma encodeHeader_total fl idx ctr n :
  0 <= idx < 2 ^ 32 -> 0 <= ctr < 2 ^ 64 -> 0 <= n < 65536 ->
  exists h, encodeFmpEstablishedHeader (mkEstHeader fl idx ctr) n = Ok h.
Proof.
  intros Hi Hc Hn. eexists. rewrite encodeFmpEstablishedHeader_Ok. unfold header_layout, prefix_layout.
  cbn [eh_flags eh_receiverIdx eh_counter version phase flags payloadLen].
  pose proof (Z.mod_pos_bound fl 256 ltac:(lia)).
  rewrite !field_ok by (cbn; lia). reflexivity.
Qed.

Section Frames.
Context `{Noble, !AeadLaws}.

(** A data frame: [payload] sealed under key [k] and counter [ctr] for the
    session index [idx]. *)
Definition frame_of (k : bytes) (idx ctr ty : Z) (payload frame : bytes) : Prop :=
  exists ts inner aad ct, 0 <= ts < 2 ^ 32 /\ encodeFmpInner (mkInner ts ty payload) = Ok inner /\
    encodeFmpEstablishedHeader (mkEstHeader 0 idx ctr) (len inner) = Ok aad /\
    aeadSeal k ctr inner aad = Ok ct /\
    encodeFmpEstablished (mkEst (mkEstHeader 0 idx ctr) (len inner) ct) = Ok frame.

(** What the sending side needs. *)
Record can_send (k : bytes) (idx : Z) (l : FmpLink) : Prop := {
  cs_state : fl_state l = LEstablished;
  cs_tx : exists n, fl_tx l = Some (CipherState.mk (Some k) n);
  cs_idx : fl_remoteSessionIdx l = Some idx;
  cs_key : len k = 32;
  cs_range : 0 <= idx < 2 ^ 32;
  cs_counter : 0 <= fl_txCounter l;
}.

(** What the receiving side needs. *)
Record can_receive (k : bytes) (idx : Z) (l : FmpLink) : Prop := {
  cr_state : fl_state l = LEstablished;
  cr_rx : exists n, fl_rx l = Some (CipherState.mk (Some k) n);
  cr_idx : fl_localSessionIdx l = idx;
}.

Lemma encrypt_run k idx l payload ty now :
  can_send k idx l -> fl_txCounter l < 2 ^ 64 - 1 -> 0 <= ty < 256 -> len payload + 5 < 65536 ->
  exists frame, encryptOutgoing payload ty now l = (Ok frame, set_txCounter l (fl_txCounter l + 1)) /\
    frame_of k idx (fl_txCounter l) ty payload frame.
Proof.
  intros [Hs [n Ht] Hi Hk Hr Hc] Hmax Hty Hp. pose proof (len_nonneg payload).
  set (ts := session_timestamp now (fl_sessionStartMs l)).
  pose proof (session_timestamp_range now (fl_sessionStartMs l)) as Hts. fold ts in Hts.
  destruct (encodeFmpInner_total ts ty payload Hts Hty) as (inner & Ei & Li).
  destruct (encodeHeader_total 0 idx (fl_txCounter l) (len inner)) as [aad Ea]; [lia|lia|lia|].
  assert (Es : aeadSeal k (fl_txCounter l) inner aad =
    Ok (chacha_encrypt k (replicate 4 x00 ++ le_bytes 8 (fl_txCounter l)) aad inner))
    by (apply aeadSeal_Ok; split; [done|]; split; [lia|done]).
  set (ct := chacha_encrypt _ _ _ _) in Es.
  assert (Ef : exists f, encodeFmpEstablished (mkEst (mkEstHeader 0 idx (fl_txCounter l)) (len inner) ct) = Ok f).
  { eexists. apply encodeFmpEstablished_Ok. apply encodeFmpEstablishedHeader_Ok in Ea. cbn [est_header est_payloadLen est_ciphertext].
    rewrite Ea. reflexivity. }
  destruct Ef as [f Ef]. exists f. split; [|by exists ts, inner, aad, ct].
  unfold encryptOutgoing. unfold mbind at 1, ST_bind at 1, get. rewrite Hs, Ht, Hi.
  rewrite Z.geb_leb. replace (0xffffffffffffffff <=? fl_txCounter l) with false by (symmetry; apply Z.leb_gt; lia).
  unfold throw_when, mbind, ST_bind, mret, ST_ret, modify, lift. cbv beta iota zeta.
  fold ts. rewrite Ei, Ea. cbn [CipherState.getKey CipherState.key]. by rewrite Es, Ef.
Qed.

Lemma decrypt_run k idx l ctr ty payload frame now :
  can_receive k idx l -> frame_of k idx ctr ty payload frame -> exists rep,
  decryptIncoming frame now l =
    if ReplayWindow.check (fl_rxReplay l) ctr
    then (Ok (ty, payload), set_reports (set_rxReplay l (snd (ReplayWindow.accept (fl_rxReplay l) ctr))) rep)
    else (Throw (Error "FMP replay/duplicate counter"), l).
Proof.
  intros [Hs [n Hrx] Hi] (ts & inner & aad & ct & Hts & Ei & Ea & Es & Ef). eexists.
  assert (Hd : decodeFmpEstablished frame = Ok (mkEst (mkEstHeader 0 idx ctr) (len inner) ct)).
  { apply decodeFmpEstablished_Ok. split; [by apply encodeFmpEstablished_Ok|].
    unfold est_wf. cbn. split; [lia|]. by apply len_aeadSeal in Es. }
  assert (Hdi : decodeFmpInner inner = Ok (mkInner ts ty payload))
    by (by apply decodeFmpInner_Ok, encodeFmpInner_Ok).
  unfold decryptIncoming. unfold mbind at 1, ST_bind at 1, get. rewrite Hs, Hrx.
  unfold mbind at 1, ST_bind at 1, lift at 1. rewrite Hd. cbv zeta.
  cbn [est_header est_payloadLen est_ciphertext eh_receiverIdx eh_counter eh_flags].
  rewrite Hi, !Z.eqb_refl. destruct (ReplayWindow.check (fl_rxReplay l) ctr) eqn:Hck; [|reflexivity].
  unfold throw_when, mbind, ST_bind, mret, ST_ret, lift, modify. cbn [negb]. cbv beta iota.
  rewrite Ea. cbn [CipherState.getKey CipherState.key].
  apply aeadOpen_iff_Seal in Es. rewrite Es, Hdi. reflexivity.
Qed.
End Frames.

(** ** Channels *)

Section FmpChannel.
Context `{Noble, !AeadLaws}.

(** Messages are a type and a payload. *)
#[export] Instance fmp_channel : Channel FmpLink FmpLink (Z * bytes) (Z * bytes) := {
  ch_send := fun m now => encryptOutgoing (snd m) (fst m) now;
  ch_recv := decryptIncoming;
  ch_counter := fl_txCounter;
  ch_window := fl_rxReplay;
  ch_view := id;
}.

Definition message_ok (m : Z * bytes) : Prop := 0 <= fst m < 256 /\ len (snd m) + 5 < 65536.

#[export] Instance fmp_channel_laws k idx :
  ChannelLaws fmp_channel message_ok (can_send k idx) (can_receive k idx)
    (fun c m f => frame_of k idx c (fst m) (snd m) f).
Proof.
  split.
  - by intros l [].
  - intros l [ty p] now Hs [Hty Hp] Hmax. destruct (encrypt_run k idx l p ty now Hs Hmax Hty Hp) as (f & Ef & Ff).
    exists f, (set_txCounter l (fl_txCounter l + 1)). split; [exact Ef|]. split; [exact Ff|]. split; [|done].
    destruct Hs. split; try done. cbn. lia.
  - intros l c [ty p] f now Hr Hf _ Hck. destruct (decrypt_run k idx l c ty p f now Hr Hf) as [rep Hd].
    cbn [ch_window fmp_channel] in Hck. rewrite Hck in Hd. eexists. split; [exact Hd|]. split; [|done].
    destruct Hr. by split.
  - intros l c [ty p] f now Hr Hf Hck. destruct (decrypt_run k idx l c ty p f now Hr Hf) as [rep Hd].
    cbn [ch_window fmp_channel] in Hck. rewrite Hck in Hd. by eexists.
Qed.

(** C4: an established link is a datagram channel that delivers every message at
    most once: whatever order the frames of a sender arrive in, and however
    often, each arrival delivers the message that was sent exactly when the
    replay specification accepts its counter, and delivers nothing otherwise; and
    frames that arrive once, in order, are all delivered. *)
Theorem fmp_link_delivers k idx a b hist ms now now' :
  can_send k idx a -> can_receive k idx b -> represents (fl_rxReplay b) hist ->
  fl_txCounter a + len ms <= 2 ^ 64 - 1 -> Forall message_ok ms ->
  exists fs a', send_all ms now a = (Ok fs, a') /\ fl_txCounter a' = fl_txCounter a + len ms /\
    (forall js, Forall (fun j => (j < length ms)%nat) js ->
       fst (deliver (map (fun j => nth j fs []) js) now' b) = expected hist (fl_txCounter a) ms js) /\
    ((forall c, c ∈ hist -> c < fl_txCounter a) -> fst (deliver fs now' b) = map Some ms).
Proof.
  intros Ha Hb Hrep Hn Hok. destruct (channel_run (C := fmp_channel) a b hist ms now now' Ha Hb Hrep Hn Hok)
    as (fs & a' & E & _ & Hc & Hd & Ho).
  exists fs, a'. split; [exact E|]. split; [exact Hc|]. split; [|exact Ho].
  intros js Hjs. rewrite (Hd js Hjs). etransitivity; [|apply map_id].
  apply map_ext. by intros [m|].
Qed.
End FmpChannel.

(** ** Packets that do not authenticate *)

(** Five bytes suffice for an inner packet. *)
Lemma decodeFmpInner_total b : 5 <= len b -> exists p, decodeFmpInner b = Ok p.
Proof.
  intros Hl. exists (mkInner (le_val (take 4 b)) (le_val (take 1 (drop 4 b))) (drop 5 b)).
  apply decodeFmpInner_Ok. unfold inner_layout. cbn [in_timestamp in_msgType in_payload].
  rewrite (proj2 (field_val 4 _ (take 4 b))) by (split; [unfold len in Hl; rewrite length_take; lia|done]).
  rewrite (proj2 (field_val 1 _ (take 1 (drop 4 b))))
    by (split; [unfold len in Hl; rewrite length_take, length_drop; lia|done]).
  cbn [lseq mbind option_bind]. f_equal.
  rewrite <- (take_drop 4 b) at 4. f_equal. rewrite <- (take_drop 1 (drop 4 b)) at 2. f_equal.
  by rewrite drop_drop.
Qed.

Section Authentic.
Context `{Noble, !AeadLaws}.

(** The checks of [decryptIncoming] up to the authenticated plaintext. *)
Definition opened (l : FmpLink) (packet : bytes) (est : FmpEstablished) (plaintext : bytes) : Prop :=
  exists k n aad, fl_state l = LEstablished /\ fl_rx l = Some (CipherState.mk (Some k) n) /\
    decodeFmpEstablished packet = Ok est /\ eh_receiverIdx (est_header est) = fl_localSessionIdx l /\
    ReplayWindow.check (fl_rxReplay l) (eh_counter (est_header est)) = true /\
    encodeFmpEstablishedHeader (est_header est) (est_payloadLen est) = Ok aad /\
    aeadOpen k (eh_counter (est_header est)) (est_ciphertext est) aad = Ok plaintext.

Definition after_accept (l : FmpLink) (est : FmpEstablished) : FmpLink :=
  set_rxReplay l (snd (ReplayWindow.accept (fl_rxReplay l) (eh_counter (est_header est)))).

Lemma decrypt_cases packet now l :
  (exists e, decryptIncoming packet now l = (Throw e, l)) \/
  exists est pt, opened l packet est pt /\
    ((exists e, decryptIncoming packet now l = (Throw e, after_accept l est) /\ decodeFmpInner pt = Throw e) \/
     exists inner rep, decodeFmpInner pt = Ok inner /\
       decryptIncoming packet now l =
         (Ok (in_msgType inner, in_payload inner), set_reports (after_accept l est) rep)).
Proof.
  unfold decryptIncoming, throw_when, throw, mbind, ST_bind, mret, ST_ret, lift, modify, get.
  cbv beta iota zeta.
  destruct (fl_state l) eqn:Es; try (left; by eexists).
  destruct (fl_rx l) as [rx|] eqn:Er; [|left; by eexists].
  destruct (decodeFmpEstablished packet) as [est|e] eqn:Ed; [|left; by eexists].
  destruct (eh_receiverIdx (est_header est) =? fl_localSessionIdx l) eqn:Ei; cbn [negb]; [|left; by eexists].
  destruct (ReplayWindow.check _ _) eqn:Ec; cbn [negb]; [|left; by eexists]. cbv beta iota zeta.
  destruct (encodeFmpEstablishedHeader _ _) as [aad|e] eqn:Ea; [|left; by eexists].
  destruct rx as [[k|] n]; cbn [CipherState.getKey CipherState.key]; [|left; by eexists].
  destruct (aeadOpen _ _ _ _) as [pt|e] eqn:Eo; [|left; by eexists].
  right. exists est, pt. split.
  { exists k, n, aad. apply Z.eqb_eq in Ei. by destruct (est_header est). }
  destruct (decodeFmpInner pt) as [inner|e] eqn:Ein.
  - right. eexists inner, _. split; [done|reflexivity].
  - left. by exists e.
Qed.

(** An established link accepts only what its peer sealed, and accepts it
    once. A packet that delivers a message is the encoding of a frame for this
    link whose ciphertext is the message sealed under the receive key and the
    frame's own header and counter; its counter was not accepted before, and the
    same packet is refused from then on. A packet that does not authenticate
    leaves the link as it was. *)
Lemma fmp_decrypt_authentic l packet now hist :
  represents (fl_rxReplay l) hist ->
  match decryptIncoming packet now l with
  | (Ok (ty, p), l') => exists k n est ts inner aad,
      fl_rx l = Some (CipherState.mk (Some k) n) /\ encodeFmpEstablished est = Ok packet /\
      eh_receiverIdx (est_header est) = fl_localSessionIdx l /\
      encodeFmpInner (mkInner ts ty p) = Ok inner /\
      encodeFmpEstablishedHeader (est_header est) (est_payloadLen est) = Ok aad /\
      aeadSeal k (eh_counter (est_header est)) inner aad = Ok (est_ciphertext est) /\
      (eh_counter (est_header est) ∉ hist) /\
      forall now', decryptIncoming packet now' l' = (Throw (Error "FMP replay/duplicate counter"), l')
  | (Throw _, l') =>
      l' = l \/ exists est pt, opened l packet est pt /\ len pt < 5 /\ l' = after_accept l est
  end.
Proof.
  intros Hrep. destruct (decrypt_cases packet now l) as [[e ->]|(est & pt & Ho & [(e & -> & He)|(inner & rep & Hi & ->)])].
  - by left.
  - right. exists est, pt. split; [done|]. split; [|done].
    destruct (Z.lt_ge_cases (len pt) 5) as [|Hl]; [done|].
    destruct (decodeFmpInner_total pt Hl) as [x Ex]. congruence.
  - destruct Ho as (k & n & aad & Hs & Hrx & Hd & Hidx & Hc & Ha & Hop).
    pose proof Hd as [Hd1 _]%decodeFmpEstablished_Ok.
    destruct inner as [ts ty p]. cbn [in_msgType in_payload].
    exists k, n, est, ts, pt, aad. split; [done|]. split; [by apply encodeFmpEstablished_Ok|].
    split; [done|]. split; [by apply encodeFmpInner_Ok, decodeFmpInner_Ok|]. split; [done|].
    split; [by apply aeadOpen_iff_Seal|].
    pose proof Hc as Hc'. rewrite (check_spec _ _ _ Hrep) in Hc'.
    pose proof (accept_represents _ _ (eh_counter (est_header est)) Hrep) as [_ Hrep'].
    unfold ReplaySpec.accept in Hrep'. rewrite Hc' in Hrep'. cbn [snd] in Hrep'.
    split; [unfold ReplaySpec.fresh in Hc'; by bool_split|]. intros now'.
    unfold decryptIncoming. unfold mbind at 1, ST_bind at 1, get.
    unfold after_accept. cbn [set_reports set_rxReplay fl_state fl_rx]. rewrite Hs, Hrx.
    unfold mbind at 1, ST_bind at 1, lift at 1. rewrite Hd. cbv zeta.
    cbn [fl_localSessionIdx set_reports set_rxReplay fl_rxReplay]. rewrite Hidx, !Z.eqb_refl.
    rewrite (check_spec _ _ _ Hrep'). unfold ReplaySpec.fresh.
    rewrite (bool_decide_eq_true_2 (_ ∈ _)) by left. by rewrite andb_false_r.
Qed.
End Authentic.

(** ** Establishment *)

Section Establish.
Context `{Noble, !HashLaws, !AeadLaws, !DhLaws}.

Lemma payload_len_epoch p : len p = 8 -> payload_len p = 24.
Proof. unfold payload_len. by intros ->. Qed.

(** A link whose Noise handshake is in state [hs]. *)
Lemma on_hs_run {A} (m : ST NoiseHandshake.t A) l hs x hs' :
  fl_hs l = Some hs -> m hs = (Ok x, hs') -> on_hs m l = (Ok x, set_hs l (Some hs')).
Proof. intros Hl Hm. unfold on_hs. by rewrite Hl, Hm. Qed.

Lemma require_hs_run l hs : fl_hs l = Some hs -> require_hs l = (Ok tt, l).
Proof. intros Hl. unfold require_hs, mbind, ST_bind, get. by rewrite Hl. Qed.

Lemma finalize_run l hs tx rx now :
  fl_hs l = Some hs -> NoiseHandshake.splitTxRx hs = Ok (tx, rx) ->
  finalize now l = (Ok tt, set_final l tx rx now).
Proof.
  intros Hl Hs. unfold finalize. unfold mbind at 1, ST_bind at 1, get at 1.
  rewrite (ST_bind_ok _ _ _ _ _ (require_hs_run _ _ Hl)).
  erewrite ST_bind_ok; [|eapply on_hs_run; [exact Hl|]; unfold mbind, ST_bind, get, lift; by rewrite Hs].
  reflexivity.
Qed.

(** Message 1: what the initiator's link builds. *)
Lemma buildMsg1_run l hs hs' random noise :
  fl_role l = initiator -> is_Some (fl_remotePubkey l) -> fl_hs l = Some hs ->
  0 <= fl_localSessionIdx l < 2 ^ 32 ->
  NoiseHandshake.writeMessage random (fl_localEpoch l) hs = (Ok noise, hs') -> len noise = 106 ->
  exists p, buildMsg1 random l = (Ok p, set_hs (set_state l LHandshaking) (Some hs')) /\
    encodeFmpMsg1 (mkMsg1 (fl_localSessionIdx l) noise) = Ok p.
Proof.
  intros Hr [pk Hpk] Hhs Hidx Hw Hl.
  assert (exists p, encodeFmpMsg1 (mkMsg1 (fl_localSessionIdx l) noise) = Ok p) as [p Hp].
  { eexists. apply encodeFmpMsg1_Ok. unfold msg1_layout. cbn [noiseMsg1 m1_senderIdx]. rewrite Hl.
    rewrite field_ok by (cbn; lia). reflexivity. }
  exists p. split; [|done]. unfold buildMsg1. st_run.
  rewrite ST_pass by (by rewrite Hr). rewrite ST_pass by (by rewrite Hpk).
  st_step (require_hs_run _ _ Hhs). st_run.
  erewrite ST_bind_ok; [|eapply on_hs_run; [exact Hhs|exact Hw]].
  rewrite ST_pass by (by rewrite Hl). unfold lift. by rewrite Hp.
Qed.

(** Message 1 at the responder's link, and its answer. *)
Lemma handleMsg1_run l hs hs1 hs2 packet random now sidx noise payload noise2 rs tx rx :
  fl_role l = responder -> fl_state l <> LEstablished -> fl_hs l = Some hs ->
  0 <= fl_localSessionIdx l < 2 ^ 32 -> 0 <= sidx < 2 ^ 32 ->
  decodeFmpMsg1 packet = Ok (mkMsg1 sidx noise) ->
  NoiseHandshake.readMessage noise hs = (Ok payload, hs1) -> len payload = 8 ->
  NoiseHandshake.getRemoteStatic hs1 = Some rs ->
  NoiseHandshake.writeMessage random (fl_localEpoch l) hs1 = (Ok noise2, hs2) -> len noise2 = 57 ->
  NoiseHandshake.splitTxRx hs2 = Ok (tx, rx) ->
  exists reply l', handleMsg1 packet random now l = (Ok (mkHsResult (Some reply) true rs), l') /\
    encodeFmpMsg2 (mkMsg2 (fl_localSessionIdx l) sidx noise2) = Ok reply /\
    l' = set_final (set_established (set_hs (set_remotePubkey (set_remote (set_hs l (Some hs1)) payload sidx) rs)
           (Some hs2)) (Some packet) (Some reply)) tx rx now.
Proof.
  intros Hr Hst Hhs Hidx Hsidx Hdec Hread Hlp Hrs Hwrite Hln Hsplit.
  assert (exists p, encodeFmpMsg2 (mkMsg2 (fl_localSessionIdx l) sidx noise2) = Ok p) as [p Hp].
  { eexists. apply encodeFmpMsg2_Ok. unfold msg2_layout. cbn [noiseMsg2 m2_senderIdx m2_receiverIdx]. rewrite Hln.
    rewrite !field_ok by (cbn; lia). reflexivity. }
  exists p. eexists. split; [|split; [done|reflexivity]].
  unfold handleMsg1. st_run. rewrite ST_pass by (by rewrite Hr). rewrite decide_False by done.
  st_step (require_hs_run _ _ Hhs). st_run.
  erewrite ST_bind_ok; [|eapply on_hs_run; [exact Hhs|exact Hread]].
  rewrite ST_pass by (by rewrite Hlp). st_run.
  erewrite ST_bind_ok; [|eapply on_hs_run; [reflexivity|]; st_run; reflexivity].
  rewrite Hrs. st_run.
  erewrite ST_bind_ok; [|eapply on_hs_run; [reflexivity|exact Hwrite]].
  rewrite ST_pass by (by rewrite Hln). st_run.
  erewrite ST_bind_ok; [|eapply finalize_run; [reflexivity|exact Hsplit]]. reflexivity.
Qed.

(** Message 2 at the initiator's link. *)
Lemma handleMsg2_run l hs hs1 packet now sidx noise payload tx rx :
  fl_role l = initiator -> fl_state l <> LEstablished -> fl_hs l = Some hs ->
  decodeFmpMsg2 packet = Ok (mkMsg2 sidx (fl_localSessionIdx l) noise) ->
  NoiseHandshake.readMessage noise hs = (Ok payload, hs1) -> len payload = 8 ->
  NoiseHandshake.splitTxRx hs1 = Ok (tx, rx) ->
  exists l', handleMsg2 packet now l = (Ok (mkHsResult None true (default [] (fl_remotePubkey l))), l') /\
    l' = set_final (set_established (set_remote (set_hs l (Some hs1)) payload sidx)
           (fl_establishedMsg1 l) (Some packet)) tx rx now.
Proof.
  intros Hr Hst Hhs Hdec Hread Hlp Hsplit. eexists. split; [|reflexivity].
  unfold handleMsg2. st_run. rewrite ST_pass by (by rewrite Hr). rewrite decide_False by done.
  st_step (require_hs_run _ _ Hhs). st_run. cbn [m2_receiverIdx m2_senderIdx noiseMsg2].
  rewrite ST_pass by (by rewrite Z.eqb_refl).
  erewrite ST_bind_ok; [|eapply on_hs_run; [exact Hhs|exact Hread]].
  rewrite ST_pass by (by rewrite Hlp). st_run.
  erewrite ST_bind_ok; [|eapply finalize_run; [reflexivity|exact Hsplit]]. reflexivity.
Qed.

(** A new link. *)
Definition fresh_link id pk ro idx ep hs : FmpLink :=
  mkLink ro idx id ep pk None None (Some hs) None None None None 0 (F64.of_Z 0) ReplayWindow.new
    new_fmp_reports LInit.

Lemma new_link_run id pk ro idx ep ov hs :
  len ep = 8 -> NoiseHandshake.new IK ro id pk ov = Ok hs ->
  new_link id pk ro idx ep ov = Ok (fresh_link id pk ro idx ep hs).
Proof. intros Hl Hn. unfold new_link. rewrite Hl. cbn [throw_if Z.eqb Pos.eqb negb EPOCH_PAYLOAD_LEN]. by rewrite Hn. Qed.

(** The two messages of the handshake inside the packets. *)
Lemma ik_run idI idR k epI epR ovI ovR randI randR :
  identity_wf idI -> identity_wf idR -> same_x k (publicKey idR) ->
  is_ok (NoiseHandshake.genKeyPair ovI randI) = true -> is_ok (NoiseHandshake.genKeyPair ovR randR) = true ->
  len epI = 8 -> len epR = 8 ->
  exists i0 r0 m1 i1 r1 m2 r2 i2 kI kR,
    NoiseHandshake.new IK initiator idI (Some k) ovI = Ok i0 /\
    NoiseHandshake.new IK responder idR None ovR = Ok r0 /\
    NoiseHandshake.writeMessage randI epI i0 = (Ok m1, i1) /\
    NoiseHandshake.readMessage m1 r0 = (Ok epI, r1) /\
    NoiseHandshake.writeMessage randR epR r1 = (Ok m2, r2) /\
    NoiseHandshake.readMessage m2 i1 = (Ok epR, i2) /\
    NoiseHandshake.getRemoteStatic r1 = Some (publicKey idI) /\ len m1 = 106 /\ len m2 = 57 /\
    NoiseHandshake.splitTxRx i2 = Ok (CipherState.mk (Some kI) 0, CipherState.mk (Some kR) 0) /\
    NoiseHandshake.splitTxRx r2 = Ok (CipherState.mk (Some kR) 0, CipherState.mk (Some kI) 0) /\
    len kI = 32 /\ len kR = 32.
Proof.
  intros HI HR Hk HeI HeR LI LR.
  destruct (new_agree IK idI idR k ovI ovR HI HR Hk) as
    (i0 & r0 & N1 & N2 & A0 & K0 & Ep & Er & Es & Epub & Eo & Eor & Ers & Ehk).
  assert (Err : NoiseHandshake.role r0 = responder)
    by (destruct A0 as [_ Hr _ _ _ _ _]; rewrite Er in Hr; by destruct (NoiseHandshake.role r0)).
  assert (S0 : at_step IK 0 (Keys false false true false) 0 (rand_of randI randR) i0 r0).
  { split; try done; rewrite ?Er, ?Err, ?Eo, ?Eor; done. }
  destruct (step_ok _ _ _ _ _ _ _ epI [TE; TES; TS; TSS] S0)
    as (m1 & i1 & r1 & W1 & R1 & S1 & L1 & Ro1 & Ro1' & Sw1 & Sr1 & Rw1 & Rr1); [reflexivity|done|].
  destruct (step_ok _ _ _ _ _ _ _ epR [TE; TEE; TSE] S1)
    as (m2 & r2 & i2 & W2 & R2 & S2 & L2 & Ro2 & Ro2' & Sw2 & Sr2 & Rw2 & Rr2); [reflexivity|done|].
  rewrite Er in W1. rewrite Ro1, Err in W2. cbn [rand_of] in W1, W2.
  rewrite (payload_len_epoch _ LI) in L1. rewrite (payload_len_epoch _ LR) in L2. cbn in L1, L2.
  destruct (handshake_keys _ _ _ (st_agree _ _ _ _ _ _ _ S2)) as (kI & kR & D1 & D2 & LkI & LkR);
    [by rewrite Ro2, Ro1'|].
  exists i0, r0, m1, i1, r1, m2, r2, i2, kI, kR. repeat (split; [done|]).
  split; [|done]. unfold NoiseHandshake.getRemoteStatic. by rewrite Rr1, Epub.
Qed.

(** A link that is not used yet: nothing sent, nothing received. *)
Definition unused (l : FmpLink) : Prop := fl_txCounter l = 0 /\ represents (fl_rxReplay l) [].

(** C2: two honest links establish each other: the initiator's first packet is
    accepted by the responder, whose reply is accepted by the initiator, and
    both end established with the two keys in opposite directions (each link
    can send what the other can receive), with unused counters and windows, the
    startup epochs and session indices exchanged and the initiator's identity
    known to the responder. A retransmitted handshake packet is answered again
    with the same reply and changes nothing. *)
Theorem fmp_link_establishes idI idR k ixI ixR epI epR ovI ovR randI randR nowI nowR :
  identity_wf idI -> identity_wf idR -> same_x k (publicKey idR) ->
  is_ok (NoiseHandshake.genKeyPair ovI randI) = true -> is_ok (NoiseHandshake.genKeyPair ovR randR) = true ->
  len epI = 8 -> len epR = 8 -> 0 <= ixI < 2 ^ 32 -> 0 <= ixR < 2 ^ 32 ->
  exists li0 lr0 m1 li1 m2 lr li kI kR,
    new_link idI (Some k) initiator ixI epI ovI = Ok li0 /\
    new_link idR None responder ixR epR ovR = Ok lr0 /\
    buildMsg1 randI li0 = (Ok m1, li1) /\
    handleMsg1 m1 randR nowR lr0 = (Ok (mkHsResult (Some m2) true (publicKey idI)), lr) /\
    handleMsg2 m2 nowI li1 = (Ok (mkHsResult None true k), li) /\
    can_send kI ixR li /\ can_receive kI ixR lr /\ can_send kR ixI lr /\ can_receive kR ixI li /\
    unused li /\ unused lr /\
    fl_remoteEpoch li = Some epR /\ fl_remoteEpoch lr = Some epI /\ fl_remotePubkey lr = Some (publicKey idI) /\
    (forall rand now, handleMsg1 m1 rand now lr = (Ok (mkHsResult (Some m2) true (publicKey idI)), lr)) /\
    (forall now, handleMsg2 m2 now li = (Ok (mkHsResult None true k), li)).
Proof.
  intros HI HR Hk HeI HeR LI LR RI RR.
  destruct (ik_run idI idR k epI epR ovI ovR randI randR) as
    (i0 & r0 & m1 & i1 & r1 & m2 & r2 & i2 & kI & kR & N1 & N2 & W1 & R1 & W2 & R2 & Rs & L1 & L2 & D1 & D2 & LkI & LkR);
    [done..|].
  set (li0 := fresh_link idI (Some k) initiator ixI epI i0). set (lr0 := fresh_link idR None responder ixR epR r0).
  destruct (buildMsg1_run li0 i0 i1 randI m1) as (p1 & B1 & E1); [done|by eexists|done|done|done|done|].
  apply encodeFmpMsg1_Ok, decodeFmpMsg1_Ok in E1.
  destruct (handleMsg1_run lr0 r0 r1 r2 p1 randR nowR ixI m1 epI m2 (publicKey idI)
    (CipherState.mk (Some kR) 0) (CipherState.mk (Some kI) 0))
    as (p2 & lr & B2 & E2 & Elr); [done..|].
  apply encodeFmpMsg2_Ok, decodeFmpMsg2_Ok in E2.
  destruct (handleMsg2_run (set_hs (set_state li0 LHandshaking) (Some i1)) i1 i2 p2 nowI ixR m2 epR
    (CipherState.mk (Some kI) 0) (CipherState.mk (Some kR) 0))
    as (li & B3 & Eli); [done..|].
  exists li0, lr0, p1, (set_hs (set_state li0 LHandshaking) (Some i1)), p2, lr, li, kI, kR.
  split; [by apply new_link_run|]. split; [by apply new_link_run|].
  split; [exact B1|]. split; [exact B2|]. split; [exact B3|]. subst lr li.
  repeat match goal with |- can_send _ _ _ /\ _ => split; [split; try done; by eexists|]
  | |- can_receive _ _ _ /\ _ => split; [split; try done; by eexists|] end.
  split; [split; [done|apply represents_new]|]. split; [split; [done|apply represents_new]|].
  do 3 (split; [done|]). split; intros; unfold handleMsg1, handleMsg2; st_run; cbn;
    by rewrite (proj2 (bytesEqual_true _ _) eq_refl).
Qed.
End Establish.

(** ** Handshake packets that do not authenticate *)

Section Stable.
Context `{Noble}.

(** The packet is a first (second) message that the handshake in progress can
    read. *)
Definition authentic1 (l : FmpLink) (packet : bytes) : Prop :=
  exists hs msg p hs', fl_hs l = Some hs /\ decodeFmpMsg1 packet = Ok msg /\
    NoiseHandshake.readMessage (noiseMsg1 msg) hs = (Ok p, hs').
Definition authentic2 (l : FmpLink) (packet : bytes) : Prop :=
  exists hs msg p hs', fl_hs l = Some hs /\ decodeFmpMsg2 packet = Ok msg /\
    m2_receiverIdx msg = fl_localSessionIdx l /\ NoiseHandshake.readMessage (noiseMsg2 msg) hs = (Ok p, hs').

Lemma set_hs_same l hs : fl_hs l = Some hs -> set_hs l (Some hs) = l.
Proof. intros E. destruct l; cbn in *. by rewrite <- E. Qed.

(** The read in the middle of both handlers. *)
Lemma on_hs_read {A} l message (f : bytes -> ST FmpLink A) :
  snd ((on_hs (NoiseHandshake.readMessage message) ≫= f) l) = l \/
  exists hs p hs', fl_hs l = Some hs /\ NoiseHandshake.readMessage message hs = (Ok p, hs').
Proof.
  unfold on_hs, mbind, ST_bind. destruct (fl_hs l) as [hs|] eqn:E; [|by left].
  pose proof (failed_read hs message) as Hf. destruct (NoiseHandshake.readMessage message hs) as [[p|er] hs'] eqn:Er.
  - right. by exists hs, p, hs'.
  - left. subst hs'. by apply set_hs_same.
Qed.

(** Nothing but a genuine handshake packet moves a link: an established link
    is left as it was by every handshake packet, and a link that is not
    established by every packet whose Noise message the handshake in progress
    cannot read. *)
Lemma fmp_handshake_stable l packet random now :
  (snd (handleMsg1 packet random now l) = l \/ (fl_state l <> LEstablished /\ authentic1 l packet)) /\
  (snd (handleMsg2 packet now l) = l \/ (fl_state l <> LEstablished /\ authentic2 l packet)).
Proof.
  split.
  - unfold handleMsg1. rewrite ST_get_bind. destruct (bool_decide (fl_role l <> responder)) eqn:Er; [by left|].
    rewrite ST_pass by done. destruct (decide (fl_state l = LEstablished)) as [Hs|Hs].
    { left. destruct (fl_establishedMsg1 l), (fl_establishedMsg2 l), (fl_remotePubkey l); try done.
      by destruct (bytesEqual _ _). }
    destruct (fl_hs l) as [hs|] eqn:Eh; [|left; unfold require_hs, mbind, ST_bind, get; by rewrite Eh].
    st_step (require_hs_run _ _ Eh). destruct (decodeFmpMsg1 packet) as [msg|] eqn:Ed; [|by left].
    erewrite ST_lift_bind by done.
    match goal with |- context [on_hs (NoiseHandshake.readMessage ?m) ≫= ?f] =>
      destruct (on_hs_read l m f) as [->|(hs0 & p & hs' & E1 & E2)] end; [by left|].
    right. split; [done|]. by exists hs0, msg, p, hs'.
  - unfold handleMsg2. rewrite ST_get_bind. destruct (bool_decide (fl_role l <> initiator)) eqn:Er; [by left|].
    rewrite ST_pass by done. destruct (decide (fl_state l = LEstablished)) as [Hs|Hs].
    { left. destruct (fl_establishedMsg2 l); try done. by destruct (bytesEqual _ _). }
    destruct (fl_hs l) as [hs|] eqn:Eh; [|left; unfold require_hs, mbind, ST_bind, get; by rewrite Eh].
    st_step (require_hs_run _ _ Eh). destruct (decodeFmpMsg2 packet) as [msg|] eqn:Ed; [|by left].
    erewrite ST_lift_bind by done.
    destruct (Z.eqb_spec (m2_receiverIdx msg) (fl_localSessionIdx l)) as [Ei|Ei]; [|by left].
    rewrite ST_pass by done.
    match goal with |- context [on_hs (NoiseHandshake.readMessage ?m) ≫= ?f] =>
      destruct (on_hs_read l m f) as [->|(hs0 & p & hs' & E1 & E2)] end; [by left|].
    right. split; [done|]. by exists hs0, msg, p, hs'.
Qed.
End Stable.

(** ** Examples *)

#[local] Existing Instances Toy.noble Toy.hash_laws Toy.aead_laws Toy.dh_laws
  Toy.schnorr_laws Toy.hex_laws.

Lemma fmp_link_establishes_witness :
  exists li0 lr0 m1 li1 m2 lr li,
    new_link (demo_identity 5) (Some (publicKey (demo_identity 9))) initiator 3 (replicate 8 x01) None = Ok li0 /\
    new_link (demo_identity 9) None responder 4 (replicate 8 x02) None = Ok lr0 /\
    buildMsg1 (Toy.key 11) li0 = (Ok m1, li1) /\
    handleMsg1 m1 (Toy.key 12) (F64.of_Z 7) lr0 =
      (Ok (mkHsResult (Some m2) true (publicKey (demo_identity 5))), lr) /\
    handleMsg2 m2 (F64.of_Z 9) li1 = (Ok (mkHsResult None true (publicKey (demo_identity 9))), li) /\
    unused li /\ unused lr.
Proof.
  destruct (fmp_link_establishes (demo_identity 5) (demo_identity 9) (publicKey (demo_identity 9)) 3 4
    (replicate 8 x01) (replicate 8 x02) None None (Toy.key 11) (Toy.key 12) (F64.of_Z 9) (F64.of_Z 7))
    as (li0 & lr0 & m1 & li1 & m2 & lr & li & kI & kR & H1 & H2 & H3 & H4 & H5 & _ & _ & _ & _ & H6 & H7 & _);
    [ apply demo_identity_wf; vm_compute; reflexivity | apply demo_identity_wf; vm_compute; reflexivity
    | left; reflexivity | vm_compute; reflexivity | vm_compute; reflexivity | reflexivity | reflexivity | lia | lia | ].
  exists li0, lr0, m1, li1, m2, lr, li. exact (conj H1 (conj H2 (conj H3 (conj H4 (conj H5 (conj H6 H7)))))).
Defined.

(** A link established with key [Toy.key k], seen from its sender and its
    receiver. *)
Definition demo_link (tx rx : option CipherState.t) (remote : option Z) (local ctr : Z) : FmpLink :=
  mkLink initiator local (demo_identity 5) (replicate 8 x01) (Some (publicKey (demo_identity 9))) remote None None
    tx rx None None ctr (F64.of_Z 0) ReplayWindow.new new_fmp_reports LEstablished.

Definition demo_sender : FmpLink := demo_link (Some (CipherState.mk (Some (Toy.key 3)) 0)) None (Some 8) 2 5.
Definition demo_receiver : FmpLink := demo_link None (Some (CipherState.mk (Some (Toy.key 3)) 0)) None 8 0.

Lemma fmp_link_delivers_witness :
  exists fs a', send_all [(0x51, [x01]); (0x00, [])] (F64.of_Z 4) demo_sender = (Ok fs, a') /\
    fst (deliver fs (F64.of_Z 6) demo_receiver) = [Some (0x51, [x01]); Some (0x00, [])].
Proof.
  destruct (fmp_link_delivers (Toy.key 3) 8 demo_sender demo_receiver [] [(0x51, [x01]); (0x00, [])]
    (F64.of_Z 4) (F64.of_Z 6)) as (fs & a' & H1 & _ & _ & H2);
    [ split; try done; try (by eexists); lia | split; try done; by eexists | apply represents_new | vm_compute; discriminate
    | repeat constructor; vm_compute; (discriminate || reflexivity) | ].
  exists fs, a'. split; [exact H1|]. apply H2. intros c Hc. inversion Hc.
Defined.

Definition demo_frame : bytes :=
  match fst (encryptOutgoing [x01] 0x51 (F64.of_Z 4) demo_sender) with Ok f => f | Throw _ => [] end.

Lemma fmp_decrypt_authentic_witness :
  exists l', decryptIncoming demo_frame (F64.of_Z 6) demo_receiver = (Ok (0x51, [x01]), l') /\
    forall now', decryptIncoming demo_frame now' l' = (Throw (Error "FMP replay/duplicate counter"), l').
Proof.
  pose proof (fmp_decrypt_authentic demo_receiver demo_frame (F64.of_Z 6) [] represents_new) as Hw.
  assert (E : fst (decryptIncoming demo_frame (F64.of_Z 6) demo_receiver) = Ok (0x51, [x01])) by (vm_compute; reflexivity).
  destruct (decryptIncoming demo_frame (F64.of_Z 6) demo_receiver) as [r l']. cbn in E. subst r.
  destruct Hw as (k & n & est & ts & inner & aad & _ & _ & _ & _ & _ & _ & _ & Hr).
  exists l'. exact (conj eq_refl Hr).
Defined.
