(* ===== verification/FspSession.v ===== *)
(** * FSP sessions

    [fsp/session.ts]: the end-to-end channel between two nodes of the mesh: the
    Noise XK handshake, in bare FSP frames or in the session messages that cross
    the mesh, the answers to retransmitted messages, and the established state.
    Clock readings and random bytes are arguments, as in [FmpLink]. *)

From S2P Require Import Prelude Codec Crypto Toy NodeAddr Identity Replay F64 FmpWire FspWire SessionMsg Channel Noise.

Definition EPOCH_LEN : Z := 8.

(** An argument of type [NodeAddr | NodeAddr[]]. *)
Inductive Coords := OneAddr (a : NodeAddr) | AddrPath (l : list NodeAddr).

Definition normalizeCoords (coords : Coords) : list NodeAddr :=
  match coords with OneAddr a => [a] | AddrPath l => l end.

Definition validateEstablishedFlags (flags : Z) : result unit :=
  throw_if ((flags <? 0) || (flags >? 0xff)) (Error "FSP flags must be one byte");;
  throw_if (negb (js_and flags (Z.lnot (js_or FSP_FLAG_DIRECT_TRANSPORT FSP_FLAG_K)) =? 0))
    (Error "unsupported FSP established flags").

(** What [onAuthenticated] is told. *)
Record FspReceived := mkFspReceived { fr_counter : Z; fr_timestamp : Z; fr_bytes : Z }.

(** What [decryptIncoming] returns. *)
Record FspMessage := mkMessage {
  fm_msgType : Z; fm_data : option DataPacket; fm_endpointData : option bytes; fm_payload : option bytes }.

Module FspSession.

Inductive State := SInit | SHandshaking | SEstablished | SClosed.

#[export] Instance State_eq_dec : EqDecision State.
Proof. solve_decision. Defined.

Record t := mk {
  identity : FipsIdentity;
  role : NoiseRole;
  localEpoch : bytes;
  strictClient : bool;
  remotePubkey : option bytes;
  remoteEpoch : option bytes;
  hs : option NoiseHandshake.t;
  tx : option CipherState.t;
  rx : option CipherState.t;
  receivedSessionSetup : option bytes;
  sentSessionAck : option bytes;
  receivedSessionAck : option bytes;
  sentSessionMsg3 : option bytes;
  establishedMsg3 : option bytes;
  remoteDirectFspTransport : bool;
  txCounter : Z;
  sessionStartMs : F64.t;
  replay : ReplayWindow.t;
  state : State;
}.

(** ** Stores *)

Section Stores.
Context (s : t).

Definition set_hs x := mk (identity s) (role s) (localEpoch s) (strictClient s) (remotePubkey s) (remoteEpoch s)
  x (tx s) (rx s) (receivedSessionSetup s) (sentSessionAck s) (receivedSessionAck s) (sentSessionMsg3 s)
  (establishedMsg3 s) (remoteDirectFspTransport s) (txCounter s) (sessionStartMs s) (replay s) (state s).
Definition set_state x := mk (identity s) (role s) (localEpoch s) (strictClient s) (remotePubkey s) (remoteEpoch s)
  (hs s) (tx s) (rx s) (receivedSessionSetup s) (sentSessionAck s) (receivedSessionAck s) (sentSessionMsg3 s)
  (establishedMsg3 s) (remoteDirectFspTransport s) (txCounter s) (sessionStartMs s) (replay s) x.
Definition set_remotePubkey x := mk (identity s) (role s) (localEpoch s) (strictClient s) (Some x) (remoteEpoch s)
  (hs s) (tx s) (rx s) (receivedSessionSetup s) (sentSessionAck s) (receivedSessionAck s) (sentSessionMsg3 s)
  (establishedMsg3 s) (remoteDirectFspTransport s) (txCounter s) (sessionStartMs s) (replay s) (state s).
Definition set_remoteEpoch x := mk (identity s) (role s) (localEpoch s) (strictClient s) (remotePubkey s) (Some x)
  (hs s) (tx s) (rx s) (receivedSessionSetup s) (sentSessionAck s) (receivedSessionAck s) (sentSessionMsg3 s)
  (establishedMsg3 s) (remoteDirectFspTransport s) (txCounter s) (sessionStartMs s) (replay s) (state s).
(** [receivedSessionSetup] and [sentSessionAck] *)
Definition set_setup x y := mk (identity s) (role s) (localEpoch s) (strictClient s) (remotePubkey s) (remoteEpoch s)
  (hs s) (tx s) (rx s) (Some x) (Some y) (receivedSessionAck s) (sentSessionMsg3 s)
  (establishedMsg3 s) (remoteDirectFspTransport s) (txCounter s) (sessionStartMs s) (replay s) (state s).
(** [receivedSessionAck] and [sentSessionMsg3] *)
Definition set_ack x y := mk (identity s) (role s) (localEpoch s) (strictClient s) (remotePubkey s) (remoteEpoch s)
  (hs s) (tx s) (rx s) (receivedSessionSetup s) (sentSessionAck s) (Some x) (Some y)
  (establishedMsg3 s) (remoteDirectFspTransport s) (txCounter s) (sessionStartMs s) (replay s) (state s).
Definition set_establishedMsg3 x := mk (identity s) (role s) (localEpoch s) (strictClient s) (remotePubkey s)
  (remoteEpoch s) (hs s) (tx s) (rx s) (receivedSessionSetup s) (sentSessionAck s) (receivedSessionAck s)
  (sentSessionMsg3 s) (Some x) (remoteDirectFspTransport s) (txCounter s) (sessionStartMs s) (replay s) (state s).
Definition set_direct x := mk (identity s) (role s) (localEpoch s) (strictClient s) (remotePubkey s) (remoteEpoch s)
  (hs s) (tx s) (rx s) (receivedSessionSetup s) (sentSessionAck s) (receivedSessionAck s) (sentSessionMsg3 s)
  (establishedMsg3 s) x (txCounter s) (sessionStartMs s) (replay s) (state s).
(** the stores of [finalize] *)
Definition set_final x y now := mk (identity s) (role s) (localEpoch s) (strictClient s) (remotePubkey s)
  (remoteEpoch s) None (Some x) (Some y) (receivedSessionSetup s) (sentSessionAck s) (receivedSessionAck s)
  (sentSessionMsg3 s) (establishedMsg3 s) (remoteDirectFspTransport s) (txCounter s) now (replay s) SEstablished.
Definition set_txCounter x := mk (identity s) (role s) (localEpoch s) (strictClient s) (remotePubkey s)
  (remoteEpoch s) (hs s) (tx s) (rx s) (receivedSessionSetup s) (sentSessionAck s) (receivedSessionAck s)
  (sentSessionMsg3 s) (establishedMsg3 s) (remoteDirectFspTransport s) x (sessionStartMs s) (replay s) (state s).
Definition set_replay x := mk (identity s) (role s) (localEpoch s) (strictClient s) (remotePubkey s)
  (remoteEpoch s) (hs s) (tx s) (rx s) (receivedSessionSetup s) (sentSessionAck s) (receivedSessionAck s)
  (sentSessionMsg3 s) (establishedMsg3 s) (remoteDirectFspTransport s) (txCounter s) (sessionStartMs s) x (state s).
(** the stores of [close] *)
Definition set_closed := mk (identity s) (role s) (localEpoch s) (strictClient s) (remotePubkey s)
  (remoteEpoch s) None None None (receivedSessionSetup s) (sentSessionAck s) (receivedSessionAck s)
  (sentSessionMsg3 s) (establishedMsg3 s) (remoteDirectFspTransport s) (txCounter s) (sessionStartMs s) (replay s)
  SClosed.
End Stores.

(** ** Methods *)

Section Methods.
Context `{Noble}.

Definition new (id : FipsIdentity) (pk : option bytes) (ro : NoiseRole) (ephemeralOverride : option bytes)
    (epoch : option bytes) (strict : option bool) : result t :=
  let epoch := match epoch with Some e => e | None => replicate 8 x00 end in
  throw_if (negb (len epoch =? EPOCH_LEN)) (Error "FSP local epoch must be 8 bytes");;
  h ← NoiseHandshake.new XK ro id pk ephemeralOverride;
  Ok (mk id ro epoch (default false strict) pk None (Some h) None None None None None None None false 0
        (F64.of_Z 0) ReplayWindow.new SInit).

Definition remoteSupportsDirectFspTransport (s : t) : bool := remoteDirectFspTransport s.

(** Call a method of [this.hs], which the caller has checked. *)
Definition on_hs {A} (m : ST NoiseHandshake.t A) : ST t A := fun s =>
  match hs s with
  | None => (Throw (Error "noise handshake state missing"), s)
  | Some h => let '(r, h) := m h in (r, set_hs s (Some h))
  end.

Definition require_hs : ST t unit :=
  s ← get; throw_when (negb (bool_decide (is_Some (hs s)))) (Error "noise handshake state missing").

Definition finalize (now : F64.t) : ST t unit :=
  require_hs;;
  '(tx, rx) ← on_hs (h ← get; lift (NoiseHandshake.splitTxRx h));
  modify (fun s => set_final s tx rx now).

Definition buildMsg1 (random : bytes) : ST t bytes :=
  s ← get;
  throw_when (bool_decide (role s <> initiator)) (Error "only initiator builds XK msg1");;
  throw_when (bool_decide (remotePubkey s = None)) (Error "initiator needs remote pubkey");;
  require_hs;;
  modify (fun s => set_state s SHandshaking);;
  noise ← on_hs (NoiseHandshake.writeMessage random []);
  throw_when (negb (len noise =? NOISE_XK_MSG1_LEN)) (Error "XK msg1 size");;
  lift (encodeFspHandshake (mkHandshake Msg1 noise)).

Definition buildSessionSetup (random : bytes) (srcCoords destCoords : Coords) : ST t bytes :=
  s ← get;
  throw_when (bool_decide (role s <> initiator)) (Error "only initiator builds SessionSetup");;
  match remotePubkey s with
  | None => throw (Error "initiator needs remote pubkey")
  | Some pk =>
      require_hs;;
      modify (fun s => set_state s SHandshaking);;
      noise ← on_hs (NoiseHandshake.writeMessage random []);
      throw_when (negb (len noise =? NOISE_XK_MSG1_LEN)) (Error "XK msg1 size");;
      dest ← lift (if strictClient s then a ← deriveNodeAddr pk; mret [a] else mret (normalizeCoords destCoords));
      lift (encodeSessionSetup
        (mkSetup (if strictClient s then [nodeAddr (identity s)] else normalizeCoords srcCoords) dest
           SESSION_FLAG_DIRECT_FSP_TRANSPORT noise))
  end.

Definition handleMsg1 (packet random : bytes) : ST t bytes :=
  s ← get;
  throw_when (bool_decide (role s <> responder)) (Error "only responder handles XK msg1");;
  require_hs;;
  frame ← lift (decodeFspHandshake packet);
  throw_when (negb (phase_z (hs_phase frame) =? 1)) (Error "expected XK msg1");;
  payload ← on_hs (NoiseHandshake.readMessage (noiseMsg frame));
  throw_when (negb (len payload =? 0)) (Error "XK msg1 inner payload must be empty");;
  noise ← on_hs (NoiseHandshake.writeMessage random (localEpoch s));
  throw_when (negb (len noise =? NOISE_XK_MSG2_LEN)) (Error "XK msg2 size");;
  lift (encodeFspHandshake (mkHandshake Msg2 noise)).

Definition handleSessionSetup (packet random : bytes) (localCoords : Coords) (remoteNodeAddr : option NodeAddr)
    : ST t bytes :=
  s ← get;
  throw_when (bool_decide (role s <> responder)) (Error "only responder handles SessionSetup");;
  match receivedSessionSetup s with
  | Some received =>
      match (if bytesEqual packet received then sentSessionAck s else None) with
      | Some ack => mret ack
      | None => throw (Error "unexpected FSP SessionSetup after handshake start")
      end
  | None =>
      require_hs;;
      setup ← lift (decodeSessionSetup packet);
      throw_when (negb (len (ss_handshakePayload setup) =? NOISE_XK_MSG1_LEN)) (Error "bad XK msg1 length");;
      payload ← on_hs (NoiseHandshake.readMessage (ss_handshakePayload setup));
      throw_when (negb (len payload =? 0)) (Error "XK msg1 inner payload must be empty");;
      modify (fun s => set_direct s (has_flag (ss_flags setup) SESSION_FLAG_DIRECT_FSP_TRANSPORT));;
      noise ← on_hs (NoiseHandshake.writeMessage random (localEpoch s));
      throw_when (negb (len noise =? NOISE_XK_MSG2_LEN)) (Error "XK msg2 size");;
      reply ← lift (encodeSessionAck
        (mkSetup (if strictClient s then [nodeAddr (identity s)] else normalizeCoords localCoords)
           (if strictClient s
            then match remoteNodeAddr with Some a => [a] | None => take 1 (ss_srcCoords setup) end
            else ss_srcCoords setup)
           SESSION_FLAG_DIRECT_FSP_TRANSPORT noise));
      modify (fun s => set_state s SHandshaking);;
      modify (fun s => set_setup s packet reply);;
      mret reply
  end.

Definition matchesSessionSetup (packet : bytes) (s : t) : bool :=
  match receivedSessionSetup s with Some received => bytesEqual packet received | None => false end.

Definition handleMsg2 (packet random : bytes) (now : F64.t) : ST t bytes :=
  s ← get;
  throw_when (bool_decide (role s <> initiator)) (Error "only initiator handles XK msg2");;
  require_hs;;
  frame ← lift (decodeFspHandshake packet);
  throw_when (negb (phase_z (hs_phase frame) =? 2)) (Error "expected XK msg2");;
  throw_when (negb (len (noiseMsg frame) =? NOISE_XK_MSG2_LEN)) (Error "bad XK msg2 length");;
  payload ← on_hs (NoiseHandshake.readMessage (noiseMsg frame));
  throw_when (negb (len payload =? EPOCH_LEN)) (Error "XK msg2 inner payload must be 8 bytes");;
  modify (fun s => set_remoteEpoch s payload);;
  noise ← on_hs (NoiseHandshake.writeMessage random (localEpoch s));
  throw_when (negb (len noise =? NOISE_XK_MSG3_LEN)) (Error "XK msg3 size");;
  finalize now;;
  lift (encodeFspHandshake (mkHandshake Msg3 noise)).

Definition handleSessionAck (packet random : bytes) (now : F64.t) : ST t bytes :=
  s ← get;
  throw_when (bool_decide (role s <> initiator)) (Error "only initiator handles SessionAck");;
  match receivedSessionAck s with
  | Some received =>
      match (if bytesEqual packet received then sentSessionMsg3 s else None) with
      | Some msg3 => mret msg3
      | None => throw (Error "unexpected FSP SessionAck after establishment")
      end
  | None =>
      require_hs;;
      ack ← lift (decodeSessionAck packet);
      throw_when (negb (len (ss_handshakePayload ack) =? NOISE_XK_MSG2_LEN)) (Error "bad XK msg2 length");;
      payload ← on_hs (NoiseHandshake.readMessage (ss_handshakePayload ack));
      throw_when (negb (len payload =? EPOCH_LEN)) (Error "XK msg2 inner payload must be 8 bytes");;
      modify (fun s => set_direct s (has_flag (ss_flags ack) SESSION_FLAG_DIRECT_FSP_TRANSPORT));;
      modify (fun s => set_remoteEpoch s payload);;
      noise ← on_hs (NoiseHandshake.writeMessage random (localEpoch s));
      throw_when (negb (len noise =? NOISE_XK_MSG3_LEN)) (Error "XK msg3 size");;
      reply ← lift (encodeSessionMsg3 (mkMsg3 0 noise));
      modify (fun s => set_ack s packet reply);;
      finalize now;;
      mret reply
  end.

Definition handleMsg3 (packet : bytes) (now : F64.t) : ST t unit :=
  s ← get;
  throw_when (bool_decide (role s <> responder)) (Error "only responder handles XK msg3");;
  if decide (state s = SEstablished) then
    match establishedMsg3 s with
    | Some m => if bytesEqual packet m then mret tt else throw (Error "unexpected FSP Msg3 after establishment")
    | None => throw (Error "unexpected FSP Msg3 after establishment")
    end
  else
    require_hs;;
    frame ← lift (decodeFspHandshake packet);
    throw_when (negb (phase_z (hs_phase frame) =? 3)) (Error "expected XK msg3");;
    throw_when (negb (len (noiseMsg frame) =? NOISE_XK_MSG3_LEN)) (Error "bad XK msg3 length");;
    payload ← on_hs (NoiseHandshake.readMessage (noiseMsg frame));
    throw_when (negb (len payload =? EPOCH_LEN)) (Error "XK msg3 inner payload must be 8 bytes");;
    modify (fun s => set_remoteEpoch s payload);;
    rs ← on_hs (h ← get; mret (NoiseHandshake.getRemoteStatic h));
    rs ← lift (match rs with Some k => Ok k | None => Throw (Error "XK responder did not capture remote static") end);
    modify (fun s => set_remotePubkey s rs);;
    modify (fun s => set_establishedMsg3 s packet);;
    finalize now.

Definition handleSessionMsg3 (packet : bytes) (now : F64.t) : ST t unit :=
  s ← get;
  throw_when (bool_decide (role s <> responder)) (Error "only responder handles SessionMsg3");;
  if decide (state s = SEstablished) then
    match establishedMsg3 s with
    | Some m => if bytesEqual packet m then mret tt else throw (Error "unexpected FSP Msg3 after establishment")
    | None => throw (Error "unexpected FSP Msg3 after establishment")
    end
  else
    require_hs;;
    msg3 ← lift (decodeSessionMsg3 packet);
    throw_when (negb (len (m3_handshakePayload msg3) =? NOISE_XK_MSG3_LEN)) (Error "bad XK msg3 length");;
    payload ← on_hs (NoiseHandshake.readMessage (m3_handshakePayload msg3));
    throw_when (negb (len payload =? EPOCH_LEN)) (Error "XK msg3 inner payload must be 8 bytes");;
    modify (fun s => set_remoteEpoch s payload);;
    rs ← on_hs (h ← get; mret (NoiseHandshake.getRemoteStatic h));
    rs ← lift (match rs with Some k => Ok k | None => Throw (Error "XK responder did not capture remote static") end);
    modify (fun s => set_remotePubkey s rs);;
    modify (fun s => set_establishedMsg3 s packet);;
    finalize now.

Definition encryptMessage (msgType : Z) (payload : bytes) (flags : Z)
    (coords : option (option (list NodeAddr) * option (list NodeAddr))) (now : F64.t) : ST t bytes :=
  s ← get;
  match state s, tx s with
  | SEstablished, Some c =>
      throw_when ((msgType <? 0) || (msgType >? 0xff)) (Error "FSP message type must be one byte");;
      throw_when (txCounter s >=? 0xffffffffffffffff) (Error "FSP nonce exhausted");;
      let counter := txCounter s in
      modify (fun s => set_txCounter s (counter + 1));;
      inner ← lift (encodeFspInner (mkFspInner (session_timestamp now (sessionStartMs s)) msgType 0 payload));
      lift (validateEstablishedFlags flags);;
      coords ← lift
        match coords with
        | None => mret None
        | Some c =>
            if strictClient s then
              dest ← match remotePubkey s with
                     | Some pk => a ← deriveNodeAddr pk; mret [a]
                     | None => mret []
                     end;
              mret (Some (Some [nodeAddr (identity s)], Some dest))
            else mret (Some c)
        end;
      let flags := match coords with Some _ => js_or flags FSP_FLAG_CP | None => flags end in
      aad ← lift (encodeFspEstablishedHeader flags counter (len inner));
      key ← lift (CipherState.getKey c);
      ciphertext ← lift (aeadSeal key counter inner aad);
      lift (encodeFspEstablished
        (mkFspEst flags counter (len inner) (c ← coords; fst c) (c ← coords; snd c) ciphertext))
  | _, _ => throw (Error "FSP not established")
  end.

Definition encryptDatagram (data : DataPacket) (flags : Z) (now : F64.t) : ST t bytes :=
  payload ← lift (encodeDataPacket data); encryptMessage FSP_MSG_DATA payload flags None now.

Definition encryptEndpointData (payload : bytes) (flags : Z) (now : F64.t) : ST t bytes :=
  encryptMessage FSP_MSG_ENDPOINT_DATA payload flags None now.

Definition encryptKeepalive (flags : Z) (now : F64.t) : ST t bytes :=
  encryptMessage FSP_MSG_KEEPALIVE [] flags None now.

(** The call [onAuthenticated?.(received)]; the callback works on a state [W] of
    its own. *)
Definition notify {W} (onAuthenticated : option (FspReceived -> ST W unit)) (received : FspReceived)
    : ST (t * W) unit :=
  match onAuthenticated with
  | Some f => zoom snd (fun w '(s, _) => (s, w)) (f received)
  | None => mret tt
  end.

Definition decryptIncoming {W} (packet : bytes) (onAuthenticated : option (FspReceived -> ST W unit))
    : ST (t * W) FspMessage :=
  '(s, _) ← get;
  match state s, rx s with
  | SEstablished, Some c =>
      est ← lift (decodeFspEstablished packet);
      throw_when (negb (ReplayWindow.check (replay s) (fe_counter est))) (Error "FSP replay/duplicate counter");;
      aad ← lift (encodeFspEstablishedHeader (fe_flags est) (fe_counter est) (fe_payloadLen est));
      key ← lift (CipherState.getKey c);
      plaintext ← lift (aeadOpen key (fe_counter est) (fe_ciphertext est) aad);
      modify (fun '(s, w) => (set_replay s (snd (ReplayWindow.accept (replay s) (fe_counter est))), w));;
      inner ← lift (decodeFspInner plaintext);
      notify onAuthenticated (mkFspReceived (fe_counter est) (fi_timestamp inner) (len plaintext));;
      if fi_msgType inner =? FSP_MSG_DATA then
        d ← lift (decodeDataPacket (fi_payload inner));
        mret (mkMessage (fi_msgType inner) (Some d) None None)
      else if fi_msgType inner =? FSP_MSG_ENDPOINT_DATA then
        mret (mkMessage (fi_msgType inner) None (Some (fi_payload inner)) (Some (fi_payload inner)))
      else mret (mkMessage (fi_msgType inner) None None (Some (fi_payload inner)))
  | _, _ => throw (Error "FSP not established")
  end.

Definition close : ST t unit := modify set_closed.
End Methods.
End FspSession.

(** ** Encoding the handshake *)

Definition coords_ok (l : list NodeAddr) : Prop := len l <= 2000 /\ Forall (fun a => len a = 16) l.

Lemma coords_ok_layout l : coords_ok l -> exists b, coords_layout l = Some b /\ len b <= 32002.
Proof.
  intros [Hl Hf]. exists (le_bytes 2 (len l) ++ concat l).
  assert (coords_layout l = Some (le_bytes 2 (len l) ++ concat l)) as E by (apply coords_layout_Some; split; [lia|done]).
  split; [done|]. apply coords_layout_len in E. lia.
Qed.

Lemma setup_total src dst fl p :
  coords_ok src -> coords_ok dst -> len p <= 100 -> exists body, setup_layout (mkSetup src dst fl p) = Some body /\
    len body < 65536.
Proof.
  intros (b1 & E1 & L1)%coords_ok_layout (b2 & E2 & L2)%coords_ok_layout Hp. pose proof (len_nonneg p).
  unfold setup_layout, counted_layout. cbn [ss_flags ss_srcCoords ss_destCoords ss_handshakePayload].
  pose proof (Z.mod_pos_bound fl 256 ltac:(lia)).
  rewrite E1, E2, !field_ok by (cbn; lia). eexists. split; [reflexivity|].
  rewrite !len_app, !len_le_bytes. lia.
Qed.

Lemma frame_total ph body : 0 <= ph < 16 -> len body < 65536 -> exists b, frame_layout ph body = Some b.
Proof.
  intros Hp Hb. pose proof (len_nonneg body). unfold frame_layout. rewrite !field_ok by (cbn; lia). by eexists.
Qed.

Lemma setup_encoded src dst p :
  coords_ok src -> coords_ok dst -> len p <= 100 ->
  exists b, encodeSessionSetup (mkSetup src dst 4 p) = Ok b /\ decodeSessionSetup b = Ok (mkSetup src dst 4 p).
Proof.
  intros Hs Hd Hp. destruct (setup_total src dst 4 p Hs Hd Hp) as (body & E & L).
  destruct (frame_total 1 body) as [b Eb]; [lia|done|]. exists b. split; [by apply encodeSessionSetup_Ok; exists body|].
  apply decodeSessionSetup_Ok. exists body, []. rewrite app_nil_r. split; [done|]. cbn. split; [lia|done].
Qed.

Lemma ack_encoded src dst p :
  coords_ok src -> coords_ok dst -> len p <= 100 ->
  exists b, encodeSessionAck (mkSetup src dst 4 p) = Ok b /\ decodeSessionAck b = Ok (mkSetup src dst 4 p).
Proof.
  intros Hs Hd Hp. destruct (setup_total src dst 4 p Hs Hd Hp) as (body & E & L).
  destruct (frame_total 2 body) as [b Eb]; [lia|done|]. exists b. split; [by apply encodeSessionAck_Ok; exists body|].
  apply decodeSessionAck_Ok. exists body, []. rewrite app_nil_r. split; [done|]. cbn. split; [lia|done].
Qed.

Lemma msg3_encoded p : len p <= 100 ->
  exists b, encodeSessionMsg3 (mkMsg3 0 p) = Ok b /\ decodeSessionMsg3 b = Ok (mkMsg3 0 p).
Proof.
  intros Hp. pose proof (len_nonneg p).
  assert (exists body, msg3_layout (mkMsg3 0 p) = Some body /\ len body < 65536) as (body & E & L).
  { unfold msg3_layout, counted_layout. cbn [m3_flags m3_handshakePayload]. change (0 mod 256) with 0. rewrite !field_ok by (cbn; lia).
    eexists. split; [reflexivity|]. rewrite !len_app, !len_le_bytes. lia. }
  destruct (frame_total 3 body) as [b Eb]; [lia|done|]. exists b. split; [by apply encodeSessionMsg3_Ok; exists body|].
  apply decodeSessionMsg3_Ok. exists body, []. rewrite app_nil_r. split; [done|]. cbn. split; [lia|done].
Qed.

(** ** Establishment *)

Section Establish.
Context `{Noble, !HashLaws, !AeadLaws, !DhLaws}.
Import FspSession.

Lemma fsp_on_hs_run {A} (m : ST NoiseHandshake.t A) s h x h' :
  hs s = Some h -> m h = (Ok x, h') -> on_hs m s = (Ok x, set_hs s (Some h')).
Proof. intros Hl Hm. unfold on_hs. by rewrite Hl, Hm. Qed.

Lemma fsp_require_hs_run s h : hs s = Some h -> require_hs s = (Ok tt, s).
Proof. intros Hl. unfold require_hs, mbind, ST_bind, get. by rewrite Hl. Qed.

Lemma fsp_finalize_run s h tx rx now :
  hs s = Some h -> NoiseHandshake.splitTxRx h = Ok (tx, rx) -> finalize now s = (Ok tt, set_final s tx rx now).
Proof.
  intros Hl Hs. unfold finalize. rewrite (ST_bind_ok _ _ _ _ _ (fsp_require_hs_run _ _ Hl)).
  erewrite ST_bind_ok; [|eapply fsp_on_hs_run; [exact Hl|]; unfold mbind, ST_bind, get, lift; by rewrite Hs].
  reflexivity.
Qed.

(** The three messages of the handshake inside the frames. *)
Lemma xk_run idI idR k epI epR ovI ovR randI randR :
  identity_wf idI -> identity_wf idR -> same_x k (publicKey idR) ->
  is_ok (NoiseHandshake.genKeyPair ovI randI) = true -> is_ok (NoiseHandshake.genKeyPair ovR randR) = true ->
  len epI = 8 -> len epR = 8 ->
  exists i0 r0 m1 i1 r1 m2 r2 i2 m3 i3 r3 kI kR,
    (NoiseHandshake.new XK initiator idI (Some k) ovI = Ok i0 /\
     NoiseHandshake.new XK responder idR None ovR = Ok r0) /\
    (NoiseHandshake.writeMessage randI [] i0 = (Ok m1, i1) /\ NoiseHandshake.readMessage m1 r0 = (Ok [], r1)) /\
    (NoiseHandshake.writeMessage randR epR r1 = (Ok m2, r2) /\ NoiseHandshake.readMessage m2 i1 = (Ok epR, i2)) /\
    (NoiseHandshake.writeMessage randI epI i2 = (Ok m3, i3) /\ NoiseHandshake.readMessage m3 r2 = (Ok epI, r3)) /\
    NoiseHandshake.getRemoteStatic r3 = Some (publicKey idI) /\ (len m1 = 33 /\ len m2 = 57 /\ len m3 = 73) /\
    (NoiseHandshake.splitTxRx i3 = Ok (CipherState.mk (Some kI) 0, CipherState.mk (Some kR) 0) /\
     NoiseHandshake.splitTxRx r3 = Ok (CipherState.mk (Some kR) 0, CipherState.mk (Some kI) 0)) /\
    (len kI = 32 /\ len kR = 32).
Proof.
  intros HI HR Hk HeI HeR LI LR.
  destruct (new_agree XK idI idR k ovI ovR HI HR Hk) as
    (i0 & r0 & N1 & N2 & A0 & K0 & Ep & Er & Es & Epub & Eo & Eor & Ers & Ehk).
  assert (Err : NoiseHandshake.role r0 = responder)
    by (destruct A0 as [_ Hr _ _ _ _ _]; rewrite Er in Hr; by destruct (NoiseHandshake.role r0)).
  assert (S0 : at_step XK 0 (Keys false false true false) 0 (rand_of randI randR) i0 r0).
  { split; try done; rewrite ?Er, ?Err, ?Eo, ?Eor; done. }
  destruct (step_ok _ _ _ _ _ _ _ [] [TE; TES] S0)
    as (m1 & i1 & r1 & W1 & R1 & S1 & L1 & Ro1 & Ro1' & Sw1 & Sr1 & Rw1 & Rr1); [reflexivity|done|].
  destruct (step_ok _ _ _ _ _ _ _ epR [TE; TEE] S1)
    as (m2 & r2 & i2 & W2 & R2 & S2 & L2 & Ro2 & Ro2' & Sw2 & Sr2 & Rw2 & Rr2); [reflexivity|done|].
  destruct (step_ok _ _ _ _ _ _ _ epI [TS; TSE] S2)
    as (m3 & i3 & r3 & W3 & R3 & S3 & L3 & Ro3 & Ro3' & Sw3 & Sr3 & Rw3 & Rr3); [reflexivity|done|].
  rewrite Er in W1. rewrite Ro1, Err in W2. rewrite Ro2, Ro1', Er in W3. cbn [rand_of] in W1, W2, W3.
  assert (P : forall p, len p = 8 -> payload_len p = 24) by (intros p; unfold payload_len; by intros ->).
  rewrite (P _ LR) in L2. rewrite (P _ LI) in L3. cbn in L1, L2, L3.
  destruct (handshake_keys _ _ _ (agree_sym _ _ _ (st_agree _ _ _ _ _ _ _ S3))) as (kI & kR & D1 & D2 & LkI & LkR);
    [by rewrite Ro3', Ro2, Ro1'|].
  exists i0, r0, m1, i1, r1, m2, r2, i2, m3, i3, r3, kI, kR. repeat (split; [done|]).
  split; [|done]. unfold NoiseHandshake.getRemoteStatic. by rewrite Rr3, Sr2, Sw1, Epub.
Qed.

Lemma buildSessionSetup_run s h h' random src dst pk a noise b :
  role s = initiator -> remotePubkey s = Some pk -> hs s = Some h ->
  NoiseHandshake.writeMessage random [] h = (Ok noise, h') -> len noise = 33 -> deriveNodeAddr pk = Ok a ->
  encodeSessionSetup (mkSetup (if strictClient s then [nodeAddr (identity s)] else normalizeCoords src)
    (if strictClient s then [a] else normalizeCoords dst) 4 noise) = Ok b ->
  buildSessionSetup random src dst s = (Ok b, set_hs (set_state s SHandshaking) (Some h')).
Proof.
  intros Hr Hpk Hh Hw Hl Ha He. unfold buildSessionSetup, SESSION_FLAG_DIRECT_FSP_TRANSPORT. st_run. rewrite ST_pass by (by rewrite Hr). rewrite Hpk.
  st_step (fsp_require_hs_run _ _ Hh). st_run. erewrite ST_bind_ok; [|eapply fsp_on_hs_run; [exact Hh|exact Hw]].
  rewrite ST_pass by (by rewrite Hl).
  erewrite ST_lift_bind; [unfold lift; rewrite He; reflexivity|]. destruct (strictClient s); [by rewrite Ha|done].
Qed.

Lemma handleSessionSetup_run s h h1 h2 packet random local addr src dst noise noise2 reply :
  role s = responder -> receivedSessionSetup s = None -> hs s = Some h ->
  decodeSessionSetup packet = Ok (mkSetup src dst 4 noise) -> len noise = 33 ->
  NoiseHandshake.readMessage noise h = (Ok [], h1) ->
  NoiseHandshake.writeMessage random (localEpoch s) h1 = (Ok noise2, h2) -> len noise2 = 57 ->
  encodeSessionAck (mkSetup (if strictClient s then [nodeAddr (identity s)] else normalizeCoords local)
    (if strictClient s then match addr with Some a => [a] | None => take 1 src end else src) 4 noise2) = Ok reply ->
  handleSessionSetup packet random local addr s =
    (Ok reply, set_setup (set_state (set_hs (set_direct (set_hs s (Some h1)) true) (Some h2)) SHandshaking) packet reply).
Proof.
  intros Hr Hn Hh Hd Hl Hread Hw Hl2 He. unfold handleSessionSetup. st_run. rewrite ST_pass by (by rewrite Hr).
  rewrite Hn. st_step (fsp_require_hs_run _ _ Hh). st_run. cbn [ss_handshakePayload ss_srcCoords ss_flags].
  rewrite ST_pass by (by rewrite Hl). erewrite ST_bind_ok; [|eapply fsp_on_hs_run; [exact Hh|exact Hread]].
  st_run. erewrite ST_bind_ok; [|eapply fsp_on_hs_run; [reflexivity|exact Hw]].
  rewrite ST_pass by (by rewrite Hl2). erewrite ST_lift_bind by exact He. st_run. reflexivity.
Qed.

Lemma handleSessionAck_run s h h1 h2 packet random now src dst noise payload noise3 reply tx rx :
  role s = initiator -> receivedSessionAck s = None -> hs s = Some h ->
  decodeSessionAck packet = Ok (mkSetup src dst 4 noise : SessionAck) -> len noise = 57 ->
  NoiseHandshake.readMessage noise h = (Ok payload, h1) -> len payload = 8 ->
  NoiseHandshake.writeMessage random (localEpoch s) h1 = (Ok noise3, h2) -> len noise3 = 73 ->
  encodeSessionMsg3 (mkMsg3 0 noise3) = Ok reply -> NoiseHandshake.splitTxRx h2 = Ok (tx, rx) ->
  handleSessionAck packet random now s =
    (Ok reply, set_final (set_ack (set_hs (set_remoteEpoch (set_direct (set_hs s (Some h1)) true) payload) (Some h2))
                  packet reply) tx rx now).
Proof.
  intros Hr Hn Hh Hd Hl Hread Hlp Hw Hl3 He Hs. unfold handleSessionAck. st_run. rewrite ST_pass by (by rewrite Hr).
  rewrite Hn. st_step (fsp_require_hs_run _ _ Hh). st_run. cbn [ss_handshakePayload ss_flags].
  rewrite ST_pass by (by rewrite Hl). erewrite ST_bind_ok; [|eapply fsp_on_hs_run; [exact Hh|exact Hread]].
  rewrite ST_pass by (by rewrite Hlp). st_run. erewrite ST_bind_ok; [|eapply fsp_on_hs_run; [reflexivity|exact Hw]].
  rewrite ST_pass by (by rewrite Hl3). erewrite ST_lift_bind by exact He. st_run.
  erewrite ST_bind_ok; [|eapply fsp_finalize_run; [reflexivity|exact Hs]]. reflexivity.
Qed.

Lemma handleSessionMsg3_run s h h1 packet now noise payload rs tx rx :
  role s = responder -> state s <> SEstablished -> hs s = Some h ->
  decodeSessionMsg3 packet = Ok (mkMsg3 0 noise) -> len noise = 73 ->
  NoiseHandshake.readMessage noise h = (Ok payload, h1) -> len payload = 8 ->
  NoiseHandshake.getRemoteStatic h1 = Some rs -> NoiseHandshake.splitTxRx h1 = Ok (tx, rx) ->
  handleSessionMsg3 packet now s =
    (Ok tt, set_final (set_establishedMsg3 (set_remotePubkey (set_hs (set_remoteEpoch (set_hs s (Some h1)) payload)
               (Some h1)) rs) packet) tx rx now).
Proof.
  intros Hr Hn Hh Hd Hl Hread Hlp Hrs Hs. unfold handleSessionMsg3. st_run. rewrite ST_pass by (by rewrite Hr).
  rewrite decide_False by done. st_step (fsp_require_hs_run _ _ Hh). st_run. cbn [m3_handshakePayload].
  rewrite ST_pass by (by rewrite Hl). erewrite ST_bind_ok; [|eapply fsp_on_hs_run; [exact Hh|exact Hread]].
  rewrite ST_pass by (by rewrite Hlp). st_run.
  erewrite ST_bind_ok; [|eapply fsp_on_hs_run; [reflexivity|]; st_run; reflexivity].
  rewrite Hrs. st_run. eapply fsp_finalize_run; [reflexivity|exact Hs].
Qed.

(** What the sending and the receiving side of a direction need. *)
Record can_send (k : bytes) (s : t) : Prop := {
  cs_state : state s = SEstablished;
  cs_tx : exists n, tx s = Some (CipherState.mk (Some k) n);
  cs_key : len k = 32;
  cs_counter : 0 <= txCounter s;
  cs_strict : strictClient s = true -> len (nodeAddr (identity s)) = 16 /\
    exists pk a, remotePubkey s = Some pk /\ deriveNodeAddr pk = Ok a /\ len a = 16;
}.

Record can_receive (k : bytes) (s : t) : Prop := {
  cr_state : state s = SEstablished;
  cr_rx : exists n, rx s = Some (CipherState.mk (Some k) n);
}.

(** A session that is not used yet. *)
Definition unused (s : t) : Prop := txCounter s = 0 /\ represents (replay s) [].

Lemma derive_peer id k : identity_wf id -> same_x k (publicKey id) -> deriveNodeAddr k = Ok (nodeAddr id).
Proof.
  intros Hid Hk. pose proof (len_xOnlyPubkey id Hid) as Lx. destruct Hid as (_ & Hpk & Hx & Hna).
  destruct (getPublicKey_prefix _ _ Hpk) as [x Ex].
  assert (exists p, k = p :: xOnlyPubkey id /\ (p = x02 \/ p = x03)) as (p & -> & Hp).
  { rewrite Hx. destruct Hk as [-> | ->], Ex as [-> | ->]; cbn; eauto. }
  unfold deriveNodeAddr in *. change X_ONLY_PUBKEY_LENGTH with 32 in *. change COMPRESSED_PUBKEY_LENGTH with 33 in *.
  rewrite len_cons, Lx in *. cbn [Z.add Z.eqb Pos.eqb Pos.add mbind result_bind] in *. rewrite <- Hna.
  by destruct Hp as [-> | ->].
Qed.

Lemma new_session_run id pk ro ov ep strict h :
  len ep = 8 -> NoiseHandshake.new XK ro id pk ov = Ok h ->
  FspSession.new id pk ro ov (Some ep) strict =
    Ok (mk id ro ep (default false strict) pk None (Some h) None None None None None None None false 0
          (F64.of_Z 0) ReplayWindow.new SInit).
Proof. intros Hl Hn. unfold FspSession.new. rewrite Hl. cbn [throw_if Z.eqb Pos.eqb negb EPOCH_LEN]. by rewrite Hn. Qed.

(** A whole handshake, with what each side is in between. *)
Lemma fsp_establish_run idI idR k epI epR ovI ovR randI randR nowI nowR stI stR src dst local addr :
  identity_wf idI -> identity_wf idR -> same_x k (publicKey idR) ->
  is_ok (NoiseHandshake.genKeyPair ovI randI) = true -> is_ok (NoiseHandshake.genKeyPair ovR randR) = true ->
  len epI = 8 -> len epR = 8 ->
  coords_ok (normalizeCoords src) -> coords_ok (normalizeCoords dst) -> coords_ok (normalizeCoords local) ->
  (forall a, addr = Some a -> len a = 16) ->
  exists i0 r0 setup i1 ack r1 msg3 i r kI kR noise,
    (role i1 = initiator /\ state i1 = SHandshaking /\ receivedSessionSetup i1 = None /\ is_ok (decodeSessionAck ack) = true /\
     is_ok (decodeSessionMsg3 msg3) = true) /\
    FspSession.new idI (Some k) initiator ovI (Some epI) (Some stI) = Ok i0 /\
    FspSession.new idR None responder ovR (Some epR) (Some stR) = Ok r0 /\
    buildSessionSetup randI src dst i0 = (Ok setup, i1) /\
    handleSessionSetup setup randR local addr r0 = (Ok ack, r1) /\
    handleSessionAck ack randI nowI i1 = (Ok msg3, i) /\
    handleSessionMsg3 msg3 nowR r1 = (Ok tt, r) /\
    can_send kI i /\ can_receive kI r /\ can_send kR r /\ can_receive kR i /\ unused i /\ unused r /\
    remoteEpoch i = Some epR /\ remoteEpoch r = Some epI /\ remotePubkey r = Some (publicKey idI) /\
    remoteSupportsDirectFspTransport i = true /\ remoteSupportsDirectFspTransport r = true /\
    decodeSessionSetup setup = Ok (mkSetup (if stI then [nodeAddr idI] else normalizeCoords src)
      (if stI then [nodeAddr idR] else normalizeCoords dst) SESSION_FLAG_DIRECT_FSP_TRANSPORT noise) /\
    (forall rand l a, handleSessionSetup setup rand l a r1 = (Ok ack, r1) /\
                      handleSessionSetup setup rand l a r = (Ok ack, r)) /\
    (forall rand now, handleSessionAck ack rand now i = (Ok msg3, i)) /\
    (forall now, handleSessionMsg3 msg3 now r = (Ok tt, r)).
Proof.
  intros HI HR Hk HeI HeR LI LR Csrc Cdst Cloc Caddr.
  destruct (xk_run idI idR k epI epR ovI ovR randI randR) as
    (h0 & g0 & m1 & h1 & g1 & m2 & g2 & h2 & m3 & h3 & g3 & kI & kR &
     [N1 N2] & [W1 R1] & [W2 R2] & [W3 R3] & Rs & (L1 & L2 & L3) & [D1 D2] & [LkI LkR]); [done..|].
  pose proof (new_session_run idI (Some k) initiator ovI epI (Some stI) h0 LI N1) as Ni.
  pose proof (new_session_run idR None responder ovR epR (Some stR) g0 LR N2) as Nr.
  set (i0 := mk idI initiator epI _ _ _ _ _ _ _ _ _ _ _ _ _ _ _ _) in Ni.
  set (r0 := mk idR responder epR _ _ _ _ _ _ _ _ _ _ _ _ _ _ _ _) in Nr.
  assert (One : forall a, len a = 16 -> coords_ok [a]) by (intros a Ha; split; [done|by constructor]).
  assert (AI : len (nodeAddr idI) = 16) by (eapply len_deriveNodeAddr, HI).
  assert (AR : len (nodeAddr idR) = 16) by (eapply len_deriveNodeAddr, HR).
  set (sc := if stI then [nodeAddr idI] else normalizeCoords src).
  set (dc := if stI then [nodeAddr idR] else normalizeCoords dst).
  assert (Csc : coords_ok sc) by (unfold sc; destruct stI; auto).
  assert (Cdc : coords_ok dc) by (unfold dc; destruct stI; auto).
  destruct (setup_encoded sc dc m1 Csc Cdc) as (p1 & E1 & F1); [lia|].
  set (ac := if stR then [nodeAddr idR] else normalizeCoords local).
  set (bc := if stR then match addr with Some a => [a] | None => take 1 sc end else sc).
  assert (Cac : coords_ok ac) by (unfold ac; destruct stR; auto).
  assert (Cbc : coords_ok bc).
  { unfold bc. destruct stR; [|done]. destruct addr as [a|]; [by apply One, Caddr|]. destruct Csc as [Hl Hf].
    split; [unfold len in *; rewrite length_take; lia|by apply Forall_take]. }
  destruct (ack_encoded ac bc m2 Cac Cbc) as (p2 & E2 & F2); [lia|].
  destruct (msg3_encoded m3) as (p3 & E3 & F3); [lia|].
  pose proof (buildSessionSetup_run i0 h0 h1 randI src dst k (nodeAddr idR) m1 p1 eq_refl eq_refl eq_refl W1 L1
    (derive_peer _ _ HR Hk) E1) as B1.
  pose proof (handleSessionSetup_run r0 g0 g1 g2 p1 randR local addr sc dc m1 m2 p2 eq_refl eq_refl eq_refl F1 L1 R1 W2 L2 E2)
    as B2.
  pose proof (handleSessionAck_run (set_hs (set_state i0 SHandshaking) (Some h1)) h1 h2 h3 p2 randI nowI ac bc m2 epR
    m3 p3 _ _ eq_refl eq_refl eq_refl F2 L2 R2 LR W3 L3 E3 D1) as B3.
  pose proof (handleSessionMsg3_run _ g2 g3 p3 nowR m3 epI (publicKey idI) _ _
    (eq_refl : role (set_setup (set_state (set_hs (set_direct (set_hs r0 (Some g1)) true) (Some g2)) SHandshaking) p1 p2)
       = responder) ltac:(discriminate) eq_refl F3 L3 R3 LI Rs D2) as B4.
  exists i0, r0, p1. eexists. exists p2. eexists. exists p3. eexists _, _, kI, kR, m1.
  apply and_comm. split.
  - split; [exact Ni|]. split; [exact Nr|]. split; [exact B1|]. split; [exact B2|]. split; [exact B3|].
    split; [exact B4|].
    split; [split; try done; [by eexists|intros _; split; [done|exists k, (nodeAddr idR)];
      split; [done|by split; [apply derive_peer|]]]|].
    split; [split; try done; by eexists|].
    split; [split; try done; [by eexists|intros _; split; [done|exists (publicKey idI), (nodeAddr idI)];
      split; [done|by split; [apply derive_peer; [|left]|]]]|].
    split; [split; try done; by eexists|].
    do 2 (split; [split; [done|apply represents_new]|]). do 5 (split; [done|]). split; [exact F1|].
    split; [|split]; intros; [split| |]; unfold handleSessionSetup, handleSessionAck, handleSessionMsg3; st_run; cbn;
      by rewrite (proj2 (bytesEqual_true _ _) eq_refl).
  - do 3 (split; [done|]). split; [by rewrite F2|by rewrite F3].
Qed.

(** C3: two honest nodes establish a session through the mesh: the initiator's
    SessionSetup is accepted and acknowledged, the SessionAck is accepted and
    answered with a SessionMsg3, and with that both ends are established with
    the two keys in opposite directions, unused counters and windows, the
    startup epochs exchanged, the initiator's identity known to the responder
    and direct transport known to be supported. A strict client announces only
    the two node addresses. Every retransmitted message is answered as it was
    and changes nothing. *)
Theorem fsp_session_establishes idI idR k epI epR ovI ovR randI randR nowI nowR stI stR src dst local addr :
  identity_wf idI -> identity_wf idR -> same_x k (publicKey idR) ->
  is_ok (NoiseHandshake.genKeyPair ovI randI) = true -> is_ok (NoiseHandshake.genKeyPair ovR randR) = true ->
  len epI = 8 -> len epR = 8 ->
  coords_ok (normalizeCoords src) -> coords_ok (normalizeCoords dst) -> coords_ok (normalizeCoords local) ->
  (forall a, addr = Some a -> len a = 16) ->
  exists i0 r0 setup i1 ack r1 msg3 i r kI kR noise,
    FspSession.new idI (Some k) initiator ovI (Some epI) (Some stI) = Ok i0 /\
    FspSession.new idR None responder ovR (Some epR) (Some stR) = Ok r0 /\
    buildSessionSetup randI src dst i0 = (Ok setup, i1) /\
    handleSessionSetup setup randR local addr r0 = (Ok ack, r1) /\
    handleSessionAck ack randI nowI i1 = (Ok msg3, i) /\
    handleSessionMsg3 msg3 nowR r1 = (Ok tt, r) /\
    can_send kI i /\ can_receive kI r /\ can_send kR r /\ can_receive kR i /\ unused i /\ unused r /\
    remoteEpoch i = Some epR /\ remoteEpoch r = Some epI /\ remotePubkey r = Some (publicKey idI) /\
    remoteSupportsDirectFspTransport i = true /\ remoteSupportsDirectFspTransport r = true /\
    decodeSessionSetup setup = Ok (mkSetup (if stI then [nodeAddr idI] else normalizeCoords src)
      (if stI then [nodeAddr idR] else normalizeCoords dst) SESSION_FLAG_DIRECT_FSP_TRANSPORT noise) /\
    (forall rand l a, handleSessionSetup setup rand l a r1 = (Ok ack, r1) /\
                      handleSessionSetup setup rand l a r = (Ok ack, r)) /\
    (forall rand now, handleSessionAck ack rand now i = (Ok msg3, i)) /\
    (forall now, handleSessionMsg3 msg3 now r = (Ok tt, r)).
Proof.
  intros. destruct (fsp_establish_run idI idR k epI epR ovI ovR randI randR nowI nowR stI stR src dst local addr) as
    (i0 & r0 & setup & i1 & ack & r1 & msg3 & i & r & kI & kR & noise & _ & Hrun); [assumption..|].
  by exists i0, r0, setup, i1, ack, r1, msg3, i, r, kI, kR, noise.
Qed.
End Establish.

(** ** The channel *)

(** The flags a caller may set. *)
Lemma flags_cases f : validateEstablishedFlags f = Ok tt -> f ∈ [0; 2; 8; 10].
Proof.
  intros E. assert (Hr : 0 <= f < 256).
  { unfold validateEstablishedFlags in E. result_inv. bool_split. lia. }
  assert (T : forallb (fun n => implb (is_ok (validateEstablishedFlags (Z.of_nat n)))
    (bool_decide (Z.of_nat n ∈ [0; 2; 8; 10]))) (seq 0 256) = true) by (vm_compute; reflexivity).
  rewrite forallb_forall in T. specialize (T (Z.to_nat f) ltac:(apply in_seq; lia)).
  rewrite Z2Nat.id in T by lia. rewrite E in T. cbn [is_ok implb] in T. by apply bool_decide_eq_true in T.
Qed.

Lemma flags_cp f : f ∈ [0; 2; 8; 10] ->
  js_or f FSP_FLAG_CP ∈ [1; 3; 9; 11] /\ (js_or f FSP_FLAG_CP ∉ [0; 2; 8; 10]).
Proof.
  intros Hf. repeat (apply elem_of_cons in Hf as [->|Hf];
    [split; apply (bool_decide_unpack _); vm_compute; exact I|]). by apply elem_of_nil in Hf.
Qed.

(** What [encryptMessage] is called with. *)
Record FspSend := mkSend {
  sd_msgType : Z; sd_payload : bytes; sd_flags : Z;
  sd_coords : option (option (list NodeAddr) * option (list NodeAddr)) }.

Definition coord_arg_ok (c : option (list NodeAddr)) : Prop :=
  match c with Some l => coords_ok l /\ l <> [] | None => True end.

Definition send_ok (m : FspSend) : Prop :=
  0 <= sd_msgType m < 256 /\ len (sd_payload m) + 6 < 65536 /\ validateEstablishedFlags (sd_flags m) = Ok tt /\
  (sd_msgType m = FSP_MSG_DATA -> is_ok (decodeDataPacket (sd_payload m)) = true) /\
  match sd_coords m with Some (a, b) => coord_arg_ok a /\ coord_arg_ok b | None => True end.

(** What the receiver returns for it. *)
Definition received_as (m : FspSend) : FspMessage :=
  if sd_msgType m =? FSP_MSG_DATA then
    mkMessage (sd_msgType m) (match decodeDataPacket (sd_payload m) with Ok d => Some d | Throw _ => None end) None None
  else if sd_msgType m =? FSP_MSG_ENDPOINT_DATA then
    mkMessage (sd_msgType m) None (Some (sd_payload m)) (Some (sd_payload m))
  else mkMessage (sd_msgType m) None None (Some (sd_payload m)).

Section SessionChannel.
Context `{Noble, !AeadLaws}.
Import FspSession.

(** A frame that carries a message of type [ty] under key [k] and counter [c]. *)
Definition frame_of (k : bytes) (c ty : Z) (payload frame : bytes) : Prop :=
  exists ts inner aad fl src dst ct, encodeFspInner (mkFspInner ts ty 0 payload) = Ok inner /\
    encodeFspEstablishedHeader fl c (len inner) = Ok aad /\ aeadSeal k c inner aad = Ok ct /\
    encodeFspEstablished (mkFspEst fl c (len inner) src dst ct) = Ok frame /\
    fsp_est_wf (mkFspEst fl c (len inner) src dst ct).

Lemma inner_total ts ty p :
  0 <= ts < 2 ^ 32 -> 0 <= ty < 256 -> exists b, encodeFspInner (mkFspInner ts ty 0 p) = Ok b /\ len b = 6 + len p.
Proof.
  intros Ht Hy. eexists. rewrite encodeFspInner_Ok. unfold fsp_inner_layout.
  cbn [fi_timestamp fi_msgType fi_innerFlags fi_payload].
  rewrite !field_ok by (cbn; lia). split; [reflexivity|].
  cbn [mbind option_bind]. rewrite !len_app, !len_le_bytes. lia.
Qed.

Lemma header_total fl ctr n :
  0 <= ctr < 2 ^ 64 -> 0 <= n < 65536 -> exists h, encodeFspEstablishedHeader fl ctr n = Ok h.
Proof.
  intros Hc Hn. eexists. rewrite encodeFspEstablishedHeader_Ok. unfold fsp_header_layout, prefix_layout.
  cbn [version phase flags payloadLen]. pose proof (Z.mod_pos_bound fl 256 ltac:(lia)).
  rewrite !field_ok by (cbn; lia). reflexivity.
Qed.

Lemma coord_arg_layout c : coord_arg_ok c -> is_Some (coords_layout (default [] c)) /\ coords_norm c.
Proof.
  destruct c as [l|]; cbn.
  - intros [Hl Hn]. destruct (coords_ok_layout l Hl) as (b & -> & _). split; [by eexists|].
    unfold coords_norm. intros [=]. done.
  - intros _. split; [by eexists|done].
Qed.

(** A sealed packet has an encoding that decodes to itself. *)
Lemma est_total fl ctr n src dst ct h :
  fl ∈ [0; 2; 8; 10] \/ fl ∈ [1; 3; 9; 11] -> (fl ∈ [0; 2; 8; 10] -> src = None /\ dst = None) ->
  encodeFspEstablishedHeader fl ctr n = Ok h -> len ct = n + 16 -> coord_arg_ok src -> coord_arg_ok dst ->
  exists f, encodeFspEstablished (mkFspEst fl ctr n src dst ct) = Ok f /\ fsp_est_wf (mkFspEst fl ctr n src dst ct).
Proof.
  intros Hfl Hno Eh Hl [[bs Es] Ns]%coord_arg_layout [[bd Ed] Nd]%coord_arg_layout.
  apply encodeFspEstablishedHeader_Ok in Eh.
  assert (Hlay : is_Some (est_coords_layout (mkFspEst fl ctr n src dst ct))).
  { unfold est_coords_layout. cbn [fe_flags fe_srcCoords fe_destCoords].
    destruct (has_flag fl FSP_FLAG_CP); [rewrite Es, Ed|]; by eexists. }
  destruct Hlay as [bl El]. eexists. split.
  - apply encodeFspEstablished_Ok. unfold fsp_est_layout. rewrite El.
    cbn [fe_ciphertext fe_payloadLen fe_flags fe_counter]. rewrite Eh, Hl. unfold FSP_AEAD_TAG_LEN.
    rewrite Z.eqb_refl. reflexivity.
  - unfold fsp_est_wf. cbn [fe_flags fe_srcCoords fe_destCoords].
    assert (Hf : 0 <= fl < 256 /\ has_flag fl FSP_FLAG_U = false /\
      (has_flag fl FSP_FLAG_CP = false -> fl ∈ [0; 2; 8; 10])).
    { destruct Hfl as [Hf|Hf]; repeat (apply elem_of_cons in Hf as [->|Hf]; [repeat split; try done; set_solver|]);
      by apply elem_of_nil in Hf. }
    destruct Hf as (? & ? & Hc). repeat (split; [done|]). intros Hx. by apply Hno, Hc.
Qed.

(** The coordinates that are sent: a strict client's own instead of the caller's. *)
Lemma coords_resolved k s c :
  can_send k s -> match c with Some (a, b) => coord_arg_ok a /\ coord_arg_ok b | None => True end ->
  exists c', match c with
    | None => mret None
    | Some c =>
        if strictClient s then
          dest ← match remotePubkey s with
                 | Some pk => a ← deriveNodeAddr pk; mret [a]
                 | None => mret []
                 end;
          mret (Some (Some [nodeAddr (identity s)], Some dest))
        else mret (Some c)
    end = Ok c' /\ (c = None <-> c' = None) /\ coord_arg_ok (c ← c'; fst c) /\ coord_arg_ok (c ← c'; snd c).
Proof.
  intros [_ _ _ _ Hst] Hc. destruct c as [[a b]|]; [|by exists None].
  destruct (strictClient s) eqn:Est.
  - destruct (Hst eq_refl) as (Hl & pk & ad & -> & -> & Hla). eexists. split; [reflexivity|]. split; [done|].
    assert (One : forall x, len x = 16 -> coord_arg_ok (Some [x]))
      by (intros x Hx; split; [split; [done|by constructor]|done]).
    split; by apply One.
  - exists (Some (a, b)). by split.
Qed.

Lemma fsp_encrypt_run k s m now :
  can_send k s -> send_ok m -> txCounter s < 2 ^ 64 - 1 ->
  exists frame, encryptMessage (sd_msgType m) (sd_payload m) (sd_flags m) (sd_coords m) now s =
      (Ok frame, set_txCounter s (txCounter s + 1)) /\
    frame_of k (txCounter s) (sd_msgType m) (sd_payload m) frame.
Proof.
  intros Hs (Hty & Hp & Hfl & _ & Hc) Hmax. pose proof (len_nonneg (sd_payload m)).
  destruct (coords_resolved k s _ Hs Hc) as (c & Ec & Hnone & Ha & Hb).
  destruct Hs as [Hst [n Htx] Hk Hctr _]. apply flags_cases in Hfl as Hfc.
  set (ts := session_timestamp now (sessionStartMs s)).
  destruct (inner_total ts (sd_msgType m) (sd_payload m)) as (inner & Ei & Li);
    [apply session_timestamp_range|done|].
  set (fl := match c with Some _ => js_or (sd_flags m) FSP_FLAG_CP | None => sd_flags m end).
  destruct (header_total fl (txCounter s) (len inner)) as [aad Ea]; [lia|lia|].
  assert (Es : aeadSeal k (txCounter s) inner aad =
    Ok (chacha_encrypt k (replicate 4 x00 ++ le_bytes 8 (txCounter s)) aad inner))
    by (apply aeadSeal_Ok; split; [done|]; split; [lia|done]).
  set (ct := chacha_encrypt _ _ _ _) in Es.
  destruct (est_total fl (txCounter s) (len inner) (c ← c; fst c) (c ← c; snd c) ct aad) as (f & Ef & Wf);
    try done; [..|by apply len_aeadSeal in Es|].
  { destruct c as [c|]; [right|by left]. by apply flags_cp. }
  { destruct c as [c|]; [|done]. intros Hin. destruct (flags_cp _ Hfc) as [_ Hn]. by destruct Hn. }
  exists f. split; [|by exists ts, inner, aad, fl, (c ← c; fst c), (c ← c; snd c), ct].
  unfold encryptMessage. st_run. rewrite Hst, Htx.
  rewrite ST_pass by (apply orb_false_iff; split; [apply Z.ltb_ge|rewrite Z.gtb_ltb; apply Z.ltb_ge]; lia).
  rewrite ST_pass by (rewrite Z.geb_leb; apply Z.leb_gt; lia).
  cbv zeta. rewrite ST_modify_bind. fold ts. erewrite ST_lift_bind by exact Ei. erewrite ST_lift_bind by exact Hfl.
  erewrite ST_lift_bind by exact Ec. fold fl. erewrite ST_lift_bind by exact Ea.
  erewrite ST_lift_bind by reflexivity. erewrite ST_lift_bind by exact Es. unfold lift. by rewrite Ef.
Qed.

(** A callback that returns. *)
Definition returns {W} (f : option (FspReceived -> ST W unit)) : Prop :=
  match f with Some f => forall r w, exists w', f r w = (Ok tt, w') | None => True end.

Lemma fsp_decrypt_run {W} k s (w : W) (f : option (FspReceived -> ST W unit)) c m frame :
  can_receive k s -> returns f -> frame_of k c (sd_msgType m) (sd_payload m) frame ->
  (sd_msgType m = FSP_MSG_DATA -> is_ok (decodeDataPacket (sd_payload m)) = true) -> exists w',
  decryptIncoming frame f (s, w) =
    if ReplayWindow.check (replay s) c
    then (Ok (received_as m), (set_replay s (snd (ReplayWindow.accept (replay s) c)), w'))
    else (Throw (Error "FSP replay/duplicate counter"), (s, w)).
Proof.
  intros [Hst [n Hrx]] Hcb (ts & inner & aad & fl & src & dst & ct & Ei & Ea & Es & Ef & Wf) Hd.
  assert (Hde : decodeFspEstablished frame = Ok (mkFspEst fl c (len inner) src dst ct))
    by (apply decodeFspEstablished_Ok; split; [by apply encodeFspEstablished_Ok|done]).
  assert (Hdi : decodeFspInner inner = Ok (mkFspInner ts (sd_msgType m) 0 (sd_payload m)))
    by (by apply decodeFspInner_Ok, encodeFspInner_Ok).
  assert (exists w', forall s', notify f (mkFspReceived c ts (len inner)) (s', w) = (Ok tt, (s', w'))) as [w' Hw'].
  { unfold notify. destruct f as [f|]; cbn in Hcb; [|by exists w]. destruct (Hcb (mkFspReceived c ts (len inner)) w) as [w' E].
    exists w'. intros s'. unfold zoom. cbn. by rewrite E. }
  exists w'. unfold decryptIncoming. rewrite ST_get_bind. rewrite Hst, Hrx. erewrite ST_lift_bind by exact Hde.
  cbn [fe_flags fe_counter fe_payloadLen fe_ciphertext].
  destruct (ReplayWindow.check (replay s) c) eqn:Hck; [|reflexivity]. rewrite ST_pass by done.
  erewrite ST_lift_bind by exact Ea. erewrite ST_lift_bind by reflexivity.
  apply aeadOpen_iff_Seal in Es. erewrite ST_lift_bind by exact Es. rewrite ST_modify_bind.
  erewrite ST_lift_bind by exact Hdi. cbn [fi_timestamp fi_msgType fi_payload]. rewrite (ST_bind_ok _ _ _ _ _ (Hw' _)).
  unfold received_as. destruct (Z.eqb_spec (sd_msgType m) FSP_MSG_DATA) as [E|E].
  - specialize (Hd E). destruct (decodeDataPacket (sd_payload m)) as [d|] eqn:Ed; [|done].
    by erewrite ST_lift_bind by exact eq_refl.
  - by destruct (sd_msgType m =? FSP_MSG_ENDPOINT_DATA).
Qed.

#[export] Instance fsp_channel {W} (f : option (FspReceived -> ST W unit)) : Channel t (t * W) FspSend FspMessage := {
  ch_send := fun m now => encryptMessage (sd_msgType m) (sd_payload m) (sd_flags m) (sd_coords m) now;
  ch_recv := fun packet _ => decryptIncoming packet f;
  ch_counter := txCounter;
  ch_window := fun r => replay (fst r);
  ch_view := received_as;
}.

Lemma fsp_channel_laws {W} (f : option (FspReceived -> ST W unit)) k :
  returns f -> ChannelLaws (fsp_channel f) send_ok (can_send k) (fun r => can_receive k (fst r))
    (fun c m frame => frame_of k c (sd_msgType m) (sd_payload m) frame /\
       (sd_msgType m = FSP_MSG_DATA -> is_ok (decodeDataPacket (sd_payload m)) = true)).
Proof.
  intros Hcb. split.
  - by intros s [].
  - intros s m now Hs Hok Hmax. destruct (fsp_encrypt_run k s m now Hs Hok Hmax) as (b & Eb & Fb).
    exists b, (set_txCounter s (txCounter s + 1)). split; [exact Eb|].
    split; [split; [exact Fb|apply Hok]|]. split; [|done]. destruct Hs. split; try done. cbn. lia.
  - intros [s w] c m b now Hr [Hf Hd] _ Hck. destruct (fsp_decrypt_run k s w f c m b Hr Hcb Hf Hd) as [w' E].
    cbn [ch_window fsp_channel fst] in Hck. rewrite Hck in E. eexists. split; [exact E|]. split; [|done].
    destruct Hr. by split.
  - intros [s w] c m b now Hr [Hf Hd] Hck. destruct (fsp_decrypt_run k s w f c m b Hr Hcb Hf Hd) as [w' E].
    cbn [ch_window fsp_channel fst] in Hck. rewrite Hck in E. by eexists.
Qed.

(** C5: an established session is a datagram channel from end to end: every
    message a sender can send (any type, any flags a caller may set, with or
    without coordinates) is delivered at most once, by exactly those arrivals of
    its frame whose counter the replay specification accepts, in the form the
    receiver's type demands; frames that arrive once and in order are all
    delivered. *)
Theorem fsp_session_delivers {W} (f : option (FspReceived -> ST W unit)) k a b (w : W) hist ms now :
  can_send k a -> can_receive k b -> returns f -> represents (replay b) hist ->
  txCounter a + len ms <= 2 ^ 64 - 1 -> Forall send_ok ms ->
  exists fs a', send_all (C := fsp_channel f) ms now a = (Ok fs, a') /\ txCounter a' = txCounter a + len ms /\
    (forall js, Forall (fun j => (j < length ms)%nat) js ->
       fst (deliver (C := fsp_channel f) (map (fun j => nth j fs []) js) now (b, w)) =
         map (fmap received_as) (expected hist (txCounter a) ms js)) /\
    ((forall c, c ∈ hist -> c < txCounter a) ->
       fst (deliver (C := fsp_channel f) fs now (b, w)) = map (fun m => Some (received_as m)) ms).
Proof.
  intros Ha Hb Hcb Hrep Hn Hok. pose proof (fsp_channel_laws f k Hcb) as L.
  destruct (channel_run (ChannelLaws0 := L) a (b, w) hist ms now now Ha Hb Hrep Hn Hok) as (fs & a' & E & _ & Hc & Hd & Ho).
  by exists fs, a'.
Qed.

(** ** Packets that do not authenticate *)

(** The checks of [decryptIncoming] up to the authenticated plaintext. *)
Definition opened (s : t) (packet : bytes) (est : FspEstablished) (plaintext : bytes) : Prop :=
  exists k n aad, state s = SEstablished /\ rx s = Some (CipherState.mk (Some k) n) /\
    decodeFspEstablished packet = Ok est /\ ReplayWindow.check (replay s) (fe_counter est) = true /\
    encodeFspEstablishedHeader (fe_flags est) (fe_counter est) (fe_payloadLen est) = Ok aad /\
    aeadOpen k (fe_counter est) (fe_ciphertext est) aad = Ok plaintext.

Definition after_accept (s : t) (est : FspEstablished) : t :=
  set_replay s (snd (ReplayWindow.accept (replay s) (fe_counter est))).

Lemma notify_session {W} (f : option (FspReceived -> ST W unit)) r s w : fst (snd (notify f r (s, w))) = s.
Proof. unfold notify, zoom. destruct f as [f|]; [|done]. cbn. by destruct (f r w). Qed.

Lemma fsp_decrypt_cases {W} packet (f : option (FspReceived -> ST W unit)) s w :
  (exists e, decryptIncoming packet f (s, w) = (Throw e, (s, w))) \/
  exists est pt, opened s packet est pt /\
    fst (snd (decryptIncoming packet f (s, w))) = after_accept s est /\
    forall m, fst (decryptIncoming packet f (s, w)) = Ok m ->
      exists inner, decodeFspInner pt = Ok inner /\
        m = received_as (mkSend (fi_msgType inner) (fi_payload inner) 0 None).
Proof.
  unfold decryptIncoming. rewrite ST_get_bind.
  destruct (state s) eqn:Es; try (left; by eexists).
  destruct (rx s) as [c|] eqn:Er; [|left; by eexists].
  destruct (decodeFspEstablished packet) as [est|e] eqn:Ed; [|left; by eexists].
  erewrite ST_lift_bind by done.
  destruct (ReplayWindow.check (replay s) (fe_counter est)) eqn:Ec; [|left; by eexists]. rewrite ST_pass by done.
  destruct (encodeFspEstablishedHeader _ _ _) as [aad|e] eqn:Ea; [|left; by eexists].
  erewrite ST_lift_bind by done. destruct c as [[k|] n]; [|left; by eexists].
  erewrite ST_lift_bind by reflexivity. cbn [CipherState.key].
  destruct (aeadOpen _ _ _ _) as [pt|e] eqn:Eo; [|left; by eexists].
  erewrite ST_lift_bind by done. rewrite ST_modify_bind.
  right. exists est, pt. split; [by exists k, n, aad|]. fold (after_accept s est).
  destruct (decodeFspInner pt) as [inner|e]; [|by split; [|intros m [=]]].
  erewrite ST_lift_bind by done.
  match goal with |- context [notify f ?r] => pose proof (notify_session f r (after_accept s est) w) as Hn;
    unfold mbind, ST_bind; destruct (notify f r (after_accept s est, w)) as [[u|e] [s' w']] end;
    cbn in Hn; subst s'; [|by split; [|intros m [=]]].
  unfold lift, mret, ST_ret.
  destruct (fi_msgType inner =? FSP_MSG_DATA) eqn:E1.
  - destruct (decodeDataPacket _) eqn:Edp; (split; [done|intros m [= <-]]).
    exists inner. split; [done|]. unfold received_as. cbn [sd_msgType sd_payload]. by rewrite E1, Edp.
  - destruct (fi_msgType inner =? FSP_MSG_ENDPOINT_DATA) eqn:E2; (split; [done|intros m [= <-]]);
      exists inner; (split; [done|]); unfold received_as; cbn [sd_msgType sd_payload]; by rewrite E1, E2.
Qed.

(** An established session accepts only what its peer sealed, and accepts it
    once. A packet that delivers a message is the encoding of a frame whose
    ciphertext is that message sealed under the receive key, the frame's header
    and its counter; the counter was not accepted before and the packet is
    refused from then on, whatever the callback. A packet that does not
    authenticate leaves the session as it was. *)
Lemma fsp_decrypt_authentic {W} (f : option (FspReceived -> ST W unit)) s w packet hist :
  represents (replay s) hist ->
  let s' := fst (snd (decryptIncoming packet f (s, w))) in
  match fst (decryptIncoming packet f (s, w)) with
  | Ok m => exists k n est ts ifl ty p inner aad,
      rx s = Some (CipherState.mk (Some k) n) /\ encodeFspEstablished est = Ok packet /\
      m = received_as (mkSend ty p 0 None) /\ encodeFspInner (mkFspInner ts ty ifl p) = Ok inner /\
      encodeFspEstablishedHeader (fe_flags est) (fe_counter est) (fe_payloadLen est) = Ok aad /\
      aeadSeal k (fe_counter est) inner aad = Ok (fe_ciphertext est) /\ (fe_counter est ∉ hist) /\
      forall V (g : option (FspReceived -> ST V unit)) v,
        decryptIncoming packet g (s', v) = (Throw (Error "FSP replay/duplicate counter"), (s', v))
  | Throw _ => s' = s \/ exists est pt, opened s packet est pt /\ s' = after_accept s est
  end.
Proof.
  intros Hrep s'. unfold s'. destruct (fsp_decrypt_cases packet f s w) as [[e ->]|(est & pt & Ho & Hs & Hm)]; [by left|].
  destruct (fst (decryptIncoming packet f (s, w))) as [m|e] eqn:Er; [|right; by exists est, pt].
  destruct (Hm m eq_refl) as (inner & Ei & ->). rewrite Hs.
  destruct Ho as (k & n & aad & Hst & Hrx & Hd & Hc & Ha & Hop). pose proof Hd as [Hd1 _]%decodeFspEstablished_Ok.
  destruct inner as [ts ty ifl p]. cbn [fi_msgType fi_payload].
  exists k, n, est, ts, ifl, ty, p, pt, aad. split; [done|]. split; [by apply encodeFspEstablished_Ok|].
  split; [done|]. split; [by apply encodeFspInner_Ok, decodeFspInner_Ok|]. split; [done|].
  split; [by apply aeadOpen_iff_Seal|].
  pose proof Hc as Hc'. rewrite (check_spec _ _ _ Hrep) in Hc'.
  pose proof (accept_represents _ _ (fe_counter est) Hrep) as [_ Hrep'].
  unfold ReplaySpec.accept in Hrep'. rewrite Hc' in Hrep'. cbn [snd] in Hrep'.
  split; [unfold ReplaySpec.fresh in Hc'; by bool_split|]. intros V g v.
  unfold decryptIncoming. rewrite ST_get_bind. unfold after_accept. cbn [state rx replay set_replay]. rewrite Hst, Hrx.
  erewrite ST_lift_bind by exact Hd. unfold mbind, ST_bind, throw_when.
  rewrite (check_spec _ _ _ Hrep'). unfold ReplaySpec.fresh.
  rewrite (bool_decide_eq_true_2 (_ ∈ _)) by left. by rewrite andb_false_r.
Qed.
End SessionChannel.

(** ** Examples *)

#[local] Existing Instances Toy.noble Toy.hash_laws Toy.aead_laws Toy.dh_laws
  Toy.schnorr_laws Toy.hex_laws.

Lemma fsp_session_establishes_witness :
  exists i0 r0 setup i1 ack r1 msg3 i r,
    FspSession.new (demo_identity 5) (Some (publicKey (demo_identity 9))) initiator None (Some (replicate 8 x01))
      (Some true) = Ok i0 /\
    FspSession.new (demo_identity 9) None responder None (Some (replicate 8 x02)) (Some false) = Ok r0 /\
    FspSession.buildSessionSetup (Toy.key 11) (AddrPath []) (OneAddr (replicate 16 x07)) i0 = (Ok setup, i1) /\
    FspSession.handleSessionSetup setup (Toy.key 12) (AddrPath []) None r0 = (Ok ack, r1) /\
    FspSession.handleSessionAck ack (Toy.key 11) (F64.of_Z 3) i1 = (Ok msg3, i) /\
    FspSession.handleSessionMsg3 msg3 (F64.of_Z 4) r1 = (Ok tt, r) /\ unused i /\ unused r.
Proof.
  destruct (fsp_session_establishes (demo_identity 5) (demo_identity 9) (publicKey (demo_identity 9))
    (replicate 8 x01) (replicate 8 x02) None None (Toy.key 11) (Toy.key 12) (F64.of_Z 3) (F64.of_Z 4) true false
    (AddrPath []) (OneAddr (replicate 16 x07)) (AddrPath []) None)
    as (i0 & r0 & setup & i1 & ack & r1 & msg3 & i & r & kI & kR & noise & E1 & E2 & E3 & E4 & E5 & E6 &
        _ & _ & _ & _ & E7 & E8 & _);
    [ apply demo_identity_wf; vm_compute; reflexivity | apply demo_identity_wf; vm_compute; reflexivity
    | left; reflexivity | vm_compute; reflexivity | vm_compute; reflexivity | reflexivity | reflexivity
    | split; [vm_compute; discriminate|constructor]
    | split; [vm_compute; discriminate|repeat constructor]
    | split; [vm_compute; discriminate|constructor] | intros a E; discriminate E | ].
  exists i0, r0, setup, i1, ack, r1, msg3, i, r.
  exact (conj E1 (conj E2 (conj E3 (conj E4 (conj E5 (conj E6 (conj E7 E8))))))).
Defined.

(** A session established with key [Toy.key 3], seen from its sender and its
    receiver. *)
Definition demo_session (tx rx : option CipherState.t) : FspSession.t :=
  FspSession.mk (demo_identity 5) initiator (replicate 8 x01) false (Some (publicKey (demo_identity 9))) None None
    tx rx None None None None None true 0 (F64.of_Z 0) ReplayWindow.new FspSession.SEstablished.
Definition demo_sender : FspSession.t := demo_session (Some (CipherState.mk (Some (Toy.key 3)) 0)) None.
Definition demo_receiver : FspSession.t := demo_session None (Some (CipherState.mk (Some (Toy.key 3)) 0)).

Definition demo_messages : list FspSend :=
  [mkSend 0x15 [x01] 8 None; mkSend 0x10 [x01; x00; x02; x00; x09] 0 (Some (Some [replicate 16 x07], None))].

(** The callback counts the packets. *)
Definition count_packets : option (FspReceived -> ST Z unit) := Some (fun _ => modify (fun n => n + 1)).

Lemma fsp_session_delivers_witness :
  exists fs a', send_all (C := fsp_channel count_packets) demo_messages (F64.of_Z 4) demo_sender = (Ok fs, a') /\
    fst (deliver (C := fsp_channel count_packets) fs (F64.of_Z 4) (demo_receiver, 0)) =
      [Some (mkMessage 0x15 None (Some [x01]) (Some [x01])); Some (mkMessage 0x10 (Some (mkData 1 2 [x09])) None None)].
Proof.
  destruct (fsp_session_delivers count_packets (Toy.key 3) demo_sender demo_receiver 0 [] demo_messages
    (F64.of_Z 4)) as (fs & a' & H1 & _ & _ & H2);
    [ split; try done; by eexists | split; try done; by eexists | intros r w; by eexists | apply represents_new
    | vm_compute; discriminate
    | repeat constructor; vm_compute; try (discriminate || reflexivity); intros E; discriminate E | ].
  exists fs, a'. split; [exact H1|]. rewrite H2; [vm_compute; reflexivity|]. intros c Hc. inversion Hc.
Defined.

Definition demo_frame : bytes :=
  match fst (FspSession.encryptEndpointData [x01] 0 (F64.of_Z 4) demo_sender) with Ok f => f | Throw _ => [] end.

Lemma fsp_decrypt_authentic_witness :
  exists s', FspSession.decryptIncoming demo_frame None (demo_receiver, tt) =
      (Ok (mkMessage 0x15 None (Some [x01]) (Some [x01])), (s', tt)) /\
    FspSession.decryptIncoming demo_frame None (s', tt) =
      (Throw (Error "FSP replay/duplicate counter"), (s', tt)).
Proof.
  pose proof (fsp_decrypt_authentic (W := unit) None demo_receiver tt demo_frame [] represents_new) as Hw.
  assert (E : fst (FspSession.decryptIncoming demo_frame (@None (FspReceived -> ST unit unit)) (demo_receiver, tt)) =
    Ok (mkMessage 0x15 None (Some [x01]) (Some [x01]))) by (vm_compute; reflexivity).
  destruct (FspSession.decryptIncoming demo_frame None (demo_receiver, tt)) as [r [s' []]]. cbn in E. subst r.
  destruct Hw as (k & n & est & ts & ifl & ty & p & inner & aad & _ & _ & _ & _ & _ & _ & _ & Hr).
  exists s'. exact (conj eq_refl (Hr unit None tt)).
Defined.
