(* ===== verification/DirectTransport.v ===== *)
(** * Direct transport of session records

    [fsp/directTransport.ts]: a session record that is larger than the path MTU
    of an adjacent transport is cut into fragments and put together again at the
    other side. Timestamps are the integral milliseconds of [Date.now()]. *)

From S2P Require Import Prelude Codec FspWire.

Definition DIRECT_FSP_TRANSPORT_FRAGMENT_HEADER_LEN : Z := 20.
Definition DIRECT_FSP_TRANSPORT_MAX_REASSEMBLED_LEN : Z := 72 * 1024.
Definition DIRECT_FSP_TRANSPORT_MAX_FRAGMENTS : Z := 128.
Definition FRAGMENT_MAGIC : bytes := [x44; x46; x50; x31].
Definition REASSEMBLY_TTL_MS : Z := 2000.
Definition MAX_REASSEMBLY_RECORDS : Z := 512.

(** ** Little-endian fields in place *)

(** [target[offset] = value]: the byte of the value; ignored out of range. *)
Definition set_byte (target : bytes) (offset value : Z) : bytes := <[Z.to_nat offset := z2b value]> target.

Definition writeU16le (target : bytes) (offset value : Z) : bytes :=
  let target := set_byte target offset (js_and value 0xff) in
  set_byte target (offset + 1) (js_and (js_ushr value 8) 0xff).

Definition writeU32le (target : bytes) (offset value : Z) : bytes :=
  let target := set_byte target offset (js_and value 0xff) in
  let target := set_byte target (offset + 1) (js_and (js_ushr value 8) 0xff) in
  let target := set_byte target (offset + 2) (js_and (js_ushr value 16) 0xff) in
  set_byte target (offset + 3) (js_and (js_ushr value 24) 0xff).

Definition writeU64le (target : bytes) (offset value : Z) : bytes :=
  foldl (fun target index =>
           set_byte target (offset + Z.of_nat index) (Z.land (Z.shiftr value (Z.of_nat index * 8)) 0xff))
    target (seq 0 8).

Definition readU16le (source : bytes) (offset : Z) : Z :=
  js_or (byte_at source offset) (js_shl (byte_at source (offset + 1)) 8).

Definition readU32le (source : bytes) (offset : Z) : Z :=
  js_ushr (js_or (js_or (js_or (byte_at source offset)
                               (js_shl (byte_at source (offset + 1)) 8))
                        (js_shl (byte_at source (offset + 2)) 16))
                 (js_shl (byte_at source (offset + 3)) 24)) 0.

Definition readU64le (source : bytes) (offset : Z) : Z :=
  foldl (fun value index =>
           Z.lor value (Z.shiftl (byte_at source (offset + Z.of_nat index)) (Z.of_nat index * 8)))
    0 (seq 0 8).

(** ** Segmentation *)

Definition isDirectFspTransportFragment (data : bytes) : bool :=
  (len data >=? len FRAGMENT_MAGIC) && bool_decide (take 4 data = FRAGMENT_MAGIC).

(** One pass of the loop: fragment [index]. *)
Definition make_fragment (record : bytes) (counter maxPayload fragmentCount : Z) (index : Z) : bytes :=
  let start := index * maxPayload in
  let payload := subarray record start (Z.min (start + maxPayload) (len record)) in
  let fragment := replicate (Z.to_nat (DIRECT_FSP_TRANSPORT_FRAGMENT_HEADER_LEN + len payload)) x00 in
  let fragment := BinaryWriter.set_at fragment FRAGMENT_MAGIC 0 in
  let fragment := writeU64le fragment 4 counter in
  let fragment := writeU32le fragment 12 (len record) in
  let fragment := writeU16le fragment 16 index in
  let fragment := writeU16le fragment 18 fragmentCount in
  BinaryWriter.set_at fragment payload DIRECT_FSP_TRANSPORT_FRAGMENT_HEADER_LEN.

(** The quotient of the two lengths is far from any other integer at double
    precision, so [Math.ceil] of it is the integral ceiling. *)
Definition segmentDirectFspTransportRecord (record : bytes) (pathMtu : Z) : result (list bytes) :=
  throw_if ((pathMtu <=? 0) || (pathMtu >? 2 ^ 53 - 1))
    (RangeError "direct FSP path MTU must be a positive safe integer");;
  if len record <=? pathMtu then Ok [record] else
  throw_if (len record >? DIRECT_FSP_TRANSPORT_MAX_REASSEMBLED_LEN)
    (Error "direct FSP record exceeds reassembly limit");;
  established ← decodeFspEstablished record;
  throw_if (js_and (fe_flags established) FSP_FLAG_DIRECT_TRANSPORT =? 0)
    (Error "segmented FSP record must use direct transport");;
  let maxPayload := pathMtu - DIRECT_FSP_TRANSPORT_FRAGMENT_HEADER_LEN in
  throw_if (maxPayload <=? 0) (Error "direct FSP path MTU is too small for fragments");;
  let fragmentCount := - ((- len record) / maxPayload) in
  throw_if ((fragmentCount <=? 1) || (fragmentCount >? DIRECT_FSP_TRANSPORT_MAX_FRAGMENTS))
    (Error "direct FSP record requires too many fragments");;
  Ok (map (fun i => make_fragment record (fe_counter established) maxPayload fragmentCount (Z.of_nat i))
        (seq 0 (Z.to_nat fragmentCount))).

(** ** Reassembly *)

Record Reassembly := mkReassembly {
  createdAtMs : Z; totalLen : Z; receivedBytes : Z; fragments : list (option bytes) }.

(** The private map [entries]. *)
Abbreviation DirectFspTransportReassembler := (list (string * Reassembly)).

(** [bigint.toString(16)] *)
Definition hex_digit (d : Z) : Ascii.ascii :=
  Ascii.ascii_of_N (Z.to_N (if d <? 10 then 48 + d else 87 + d)).
Fixpoint hex_loop (fuel : nat) (v : Z) (acc : string) : string :=
  match fuel with
  | O => acc
  | S fuel => let acc := String (hex_digit (v mod 16)) acc in
              if v / 16 =? 0 then acc else hex_loop fuel (v / 16) acc
  end.
Definition bigint_hex (v : Z) : string := hex_loop 16 v "".

Definition record_key (source : string) (recordId : Z) : string := (source ++ ":" ++ bigint_hex recordId)%string.

Definition prune (nowMs : Z) (m : DirectFspTransportReassembler) : DirectFspTransportReassembler :=
  base.filter (fun p => ~ nowMs - createdAtMs (snd p) > REASSEMBLY_TTL_MS) m.

Definition reserveEntry (m : DirectFspTransportReassembler) : DirectFspTransportReassembler :=
  if len m <? MAX_REASSEMBLY_RECORDS then m
  else match m with
  | [] => m
  | e :: es =>
      let oldest := foldl (fun candidate current =>
        if createdAtMs (snd current) <? createdAtMs (snd candidate) then current else candidate) e es in
      JsMap.delete_ m (fst oldest)
  end.

(** The loop that assembles the record: [None] where a part is missing. *)
Fixpoint copy_parts (parts : list (option bytes)) (record : bytes) (offset : Z) : result (option (bytes * Z)) :=
  match parts with
  | [] => Ok (Some (record, offset))
  | None :: _ => Ok None
  | Some part :: parts =>
      throw_if (offset + len part >? len record) (RangeError "offset is out of bounds");;
      copy_parts parts (BinaryWriter.set_at record part offset) (offset + len part)
  end.

Definition missing (parts : list (option bytes)) : bool := bool_decide (None ∈ parts).

(** The entry of the record that a fragment belongs to, a new one where there is
    none that fits. *)
Definition find_entry (key : string) (total fragmentCount nowMs : Z) : ST DirectFspTransportReassembler Reassembly :=
  m ← get;
  let found :=
    match JsMap.get_ m key with
    | Some entry =>
        if (nowMs - createdAtMs entry >? REASSEMBLY_TTL_MS) || negb (totalLen entry =? total)
           || negb (len (fragments entry) =? fragmentCount)
        then None else Some entry
    | None => None
    end in
  match found with
  | Some entry => mret entry
  | None =>
      let entry := mkReassembly nowMs total 0 (replicate (Z.to_nat fragmentCount) None) in
      modify reserveEntry;;
      modify (fun m => JsMap.set_ m key entry);;
      mret entry
  end.

(** [ingest] from there on. *)
Definition put_fragment (key : string) (total fragmentIndex : Z) (payload : bytes) (entry : Reassembly)
    : ST DirectFspTransportReassembler (option bytes) :=
  let fresh := match fragments entry !! Z.to_nat fragmentIndex with Some (Some _) => false | _ => true end in
  if fresh && (receivedBytes entry + len payload >? total) then
    modify (fun m => JsMap.delete_ m key);; mret None
  else
    let entry := if fresh
      then mkReassembly (createdAtMs entry) (totalLen entry) (receivedBytes entry + len payload)
             (<[Z.to_nat fragmentIndex := Some payload]> (fragments entry))
      else entry in
    modify (fun m => JsMap.set_ m key entry);;
    if negb (receivedBytes entry =? total) || missing (fragments entry) then mret None else
    copied ← lift (copy_parts (fragments entry) (replicate (Z.to_nat total) x00) 0);
    match copied with
    | None => mret None
    | Some (record, offset) =>
        modify (fun m => JsMap.delete_ m key);;
        mret (if offset =? total then Some record else None)
    end.

Definition ingest (source : string) (fragment : bytes) (nowMs : Z) : ST DirectFspTransportReassembler (option bytes) :=
  throw_when (negb (isDirectFspTransportFragment fragment)) (Error "packet is not a direct FSP transport fragment");;
  if len fragment <=? DIRECT_FSP_TRANSPORT_FRAGMENT_HEADER_LEN then mret None else
  let recordId := readU64le fragment 4 in
  let total := readU32le fragment 12 in
  let fragmentIndex := readU16le fragment 16 in
  let fragmentCount := readU16le fragment 18 in
  if (total <=? 0) || (total >? DIRECT_FSP_TRANSPORT_MAX_REASSEMBLED_LEN) || (fragmentCount <=? 1)
     || (fragmentCount >? DIRECT_FSP_TRANSPORT_MAX_FRAGMENTS) || (fragmentCount >? total)
     || (fragmentIndex >=? fragmentCount)
  then mret None
  else
    modify (prune nowMs);;
    let key := record_key source recordId in
    entry ← find_entry key total fragmentCount nowMs;
    put_fragment key total fragmentIndex (subarray_from fragment DIRECT_FSP_TRANSPORT_FRAGMENT_HEADER_LEN) entry.

Definition clear : ST DirectFspTransportReassembler unit := modify (fun _ => []).

(** ** Fields *)

Definition fragment_bytes (id total index count : Z) (payload : bytes) : bytes :=
  FRAGMENT_MAGIC ++ le_bytes 8 id ++ le_bytes 4 total ++ le_bytes 2 index ++ le_bytes 2 count ++ payload.

Lemma readU16le_at pre b post : length b = 2%nat -> readU16le (pre ++ b ++ post) (len pre) = le_val b.
Proof.
  intros Hl. unfold readU16le. rewrite byte_at_mid0, byte_at_mid by (unfold len; lia).
  destruct b as [|x [|y [|]]]; try discriminate Hl. apply js_le16.
Qed.

Lemma readU32le_at pre b post : length b = 4%nat -> readU32le (pre ++ b ++ post) (len pre) = le_val b.
Proof.
  intros Hl. unfold readU32le. rewrite byte_at_mid0, !byte_at_mid by (unfold len; lia).
  destruct b as [|x [|y [|z [|u [|]]]]]; try discriminate Hl. apply js_le32.
Qed.

Lemma readU64le_at pre b post : length b = 8%nat -> readU64le (pre ++ b ++ post) (len pre) = le_val b.
Proof.
  intros Hl. unfold readU64le.
  assert (Hi : forall i, (i <= 8)%nat -> foldl (fun value index => Z.lor value
    (Z.shiftl (byte_at (pre ++ b ++ post) (len pre + Z.of_nat index)) (Z.of_nat index * 8))) 0 (seq 0 i)
    = le_val (take i b)).
  { induction i as [|i IH]; intros Hi; [done|]. rewrite seq_S, foldl_app, IH by lia. cbn [foldl]. rewrite Nat.add_0_l.
    rewrite byte_at_mid by (unfold len; lia).
    destruct (lookup_lt_is_Some_2 b i) as [x Hx]; [lia|].
    assert (byte_at b (Z.of_nat i) = b2z x) as ->.
    { unfold byte_at. destruct (Z.ltb_spec (Z.of_nat i) 0); [lia|]. by rewrite Nat2Z.id, Hx. }
    assert (Hli : length (take i b) = i) by (rewrite length_take; lia).
    pose proof (le_val_range (take i b)) as R. unfold len in R. rewrite Hli in R.
    rewrite (take_S_r _ _ _ Hx), le_val_snoc, Hli, Z.shiftl_mul_pow2 by lia.
    replace (Z.of_nat i * 8) with (8 * Z.of_nat i) by lia.
    rewrite lor_disjoint; [|rewrite Z.pow_mul_r by lia; exact R|lia].
    rewrite Z.pow_mul_r by lia. change (2 ^ 8) with 256. lia. }
  rewrite Hi by lia. by rewrite take_ge by lia.
Qed.

Section Fields.
Context (id total index count : Z) (payload : bytes).
Let fb := fragment_bytes id total index count payload.

Lemma fragment_is_fragment : isDirectFspTransportFragment fb = true.
Proof.
  unfold isDirectFspTransportFragment. apply andb_true_iff. split; [|by apply bool_decide_eq_true].
  rewrite Z.geb_leb. apply Z.leb_le. unfold fb, fragment_bytes.
  match goal with |- _ <= len (_ ++ ?r) => pose proof (len_nonneg r); rewrite len_app end. lia.
Qed.

Lemma fragment_len : len fb = 20 + len payload.
Proof. unfold fb, fragment_bytes. rewrite !len_app, !len_le_bytes. change (len FRAGMENT_MAGIC) with 4. lia. Qed.

Lemma fragment_id : 0 <= id < 2 ^ 64 -> readU64le fb 4 = id.
Proof.
  intros Hr. unfold fb, fragment_bytes.
  rewrite (readU64le_at FRAGMENT_MAGIC (le_bytes 8 id) _ (length_le_bytes 8 id)). by apply le_val_bytes.
Qed.

Lemma fragment_total : 0 <= total < 2 ^ 32 -> readU32le fb 12 = total.
Proof.
  intros Hr. unfold fb, fragment_bytes. rewrite app_assoc.
  pose proof (readU32le_at (FRAGMENT_MAGIC ++ le_bytes 8 id) (le_bytes 4 total)
    (le_bytes 2 index ++ le_bytes 2 count ++ payload) (length_le_bytes 4 total)) as E.
  rewrite len_app, len_le_bytes in E. change (len FRAGMENT_MAGIC + Z.of_nat 8) with 12 in E. rewrite E.
  by apply le_val_bytes.
Qed.

Lemma fragment_index : 0 <= index < 65536 -> readU16le fb 16 = index.
Proof.
  intros Hr. unfold fb, fragment_bytes. rewrite !app_assoc.
  pose proof (readU16le_at ((FRAGMENT_MAGIC ++ le_bytes 8 id) ++ le_bytes 4 total) (le_bytes 2 index)
    (le_bytes 2 count ++ payload) (length_le_bytes 2 index)) as E.
  rewrite !app_assoc, !len_app, !len_le_bytes in E. change (_ + Z.of_nat 4) with 16 in E. rewrite E.
  by apply le_val_bytes.
Qed.

Lemma fragment_count : 0 <= count < 65536 -> readU16le fb 18 = count.
Proof.
  intros Hr. unfold fb, fragment_bytes. rewrite !app_assoc.
  pose proof (readU16le_at (((FRAGMENT_MAGIC ++ le_bytes 8 id) ++ le_bytes 4 total) ++ le_bytes 2 index)
    (le_bytes 2 count) payload (length_le_bytes 2 count)) as E.
  rewrite !app_assoc, !len_app, !len_le_bytes in E. change (_ + Z.of_nat 2) with 18 in E. rewrite E.
  by apply le_val_bytes.
Qed.

Lemma fragment_payload : subarray_from fb 20 = payload.
Proof.
  unfold fb, fragment_bytes. rewrite !app_assoc. apply subarray_from_app.
  rewrite !len_app, !len_le_bytes. reflexivity.
Qed.
End Fields.

Lemma u16_bytes v : 0 <= v < 2 ^ 32 -> [z2b (js_and v 0xff); z2b (js_and (js_ushr v 8) 0xff)] = le_bytes 2 v.
Proof. intros Hv. by rewrite js_byte0, js_byte by lia. Qed.

Lemma u32_bytes v : 0 <= v < 2 ^ 32 ->
  [z2b (js_and v 0xff); z2b (js_and (js_ushr v 8) 0xff); z2b (js_and (js_ushr v 16) 0xff);
   z2b (js_and (js_ushr v 24) 0xff)] = le_bytes 4 v.
Proof.
  intros Hv. rewrite js_byte0, !js_byte by lia. cbn [le_bytes].
  rewrite !Z.div_div by lia. reflexivity.
Qed.

Lemma u64_byte v i : z2b (Z.land (Z.shiftr v (Z.of_nat i * 8)) 0xff) = z2b (v / 256 ^ Z.of_nat i).
Proof.
  change 0xff with (Z.ones 8). rewrite Z.land_ones, Z.shiftr_div_pow2 by lia.
  replace (2 ^ (Z.of_nat i * 8)) with (256 ^ Z.of_nat i); [apply z2b_mod|].
  change 256 with (2 ^ 8). rewrite <- Z.pow_mul_r by lia. f_equal. lia.
Qed.

Lemma u64_bytes v : map (fun i => z2b (v / 256 ^ Z.of_nat i)) (seq 0 8) = le_bytes 8 v.
Proof.
  cbn [seq map le_bytes Z.of_nat Pos.of_succ_nat Pos.succ]. rewrite !Z.div_div by lia.
  rewrite Z.div_1_r. reflexivity.
Qed.

Definition payload_at (record : bytes) (maxPayload : Z) (index : Z) : bytes :=
  subarray record (index * maxPayload) (Z.min (index * maxPayload + maxPayload) (len record)).

Lemma make_fragment_eq record ctr mp cnt i :
  len record < 2 ^ 32 -> 0 <= i < 2 ^ 32 -> 0 <= cnt < 2 ^ 32 ->
  make_fragment record ctr mp cnt i = fragment_bytes ctr (len record) i cnt (payload_at record mp i).
Proof.
  intros Hr Hi Hc. unfold make_fragment. fold (payload_at record mp i). set (p := payload_at record mp i).
  unfold fragment_bytes. rewrite <- (u16_bytes i), <- (u16_bytes cnt), <- (u32_bytes (len record)), <- (u64_bytes ctr)
    by first [lia | split; [apply len_nonneg|lia]].
  unfold writeU64le. cbn [foldl seq map]. unfold writeU32le, writeU16le, set_byte. rewrite !u64_byte.
  replace (Z.to_nat (DIRECT_FSP_TRANSPORT_FRAGMENT_HEADER_LEN + len p)) with (20 + length p)%nat
    by (unfold DIRECT_FSP_TRANSPORT_FRAGMENT_HEADER_LEN, len; lia).
  rewrite replicate_add. set (z := replicate (length p) x00).
  generalize (z2b (js_and (len record) 255)) (z2b (js_and (js_ushr (len record) 8) 255))
    (z2b (js_and (js_ushr (len record) 16) 255)) (z2b (js_and (js_ushr (len record) 24) 255)).
  generalize (z2b (js_and i 255)) (z2b (js_and (js_ushr i 8) 255)) (z2b (js_and cnt 255)) (z2b (js_and (js_ushr cnt 8) 255)).
  unfold BinaryWriter.set_at. intros.
  change (Z.to_nat DIRECT_FSP_TRANSPORT_FRAGMENT_HEADER_LEN) with 20%nat.
  cbv [Z.add Z.to_nat Z.of_nat Pos.to_nat Pos.iter_op Init.Nat.add Pos.add Pos.of_succ_nat Pos.succ].
  cbn [replicate app take drop insert list_insert FRAGMENT_MAGIC length].
  rewrite take_0, drop_ge by (unfold z; rewrite length_replicate; lia). by rewrite app_nil_r.
Qed.

(** ** Assembling *)

Definition present_len (parts : list (option bytes)) : Z :=
  foldr (fun o a => match o with Some p => len p + a | None => a end) 0 parts.

Lemma present_len_app a b : present_len (a ++ b) = present_len a + present_len b.
Proof. unfold present_len. induction a as [|[p|] a IH]; cbn [app foldr]; rewrite ?IH; lia. Qed.

Lemma present_len_nonneg parts : 0 <= present_len parts.
Proof.
  unfold present_len. induction parts as [|[p|] parts IH]; cbn [foldr]; [lia| |lia]. pose proof (len_nonneg p). lia.
Qed.

Lemma present_len_insert parts i p :
  parts !! i = Some None -> present_len (<[i := Some p]> parts) = present_len parts + len p.
Proof.
  unfold present_len. revert i. induction parts as [|o parts IH]; intros [|i] Hi; try discriminate Hi; cbn in Hi.
  - injection Hi as ->. cbn [insert list_insert foldr]. lia.
  - specialize (IH i Hi). change (<[S i := Some p]> (o :: parts)) with (o :: <[i := Some p]> parts).
    cbn [foldr]. destruct o; lia.
Qed.

Lemma present_len_all ps : present_len (map Some ps) = len (concat ps).
Proof.
  unfold present_len. induction ps as [|p ps IH]; [done|]. cbn [map foldr concat]. rewrite IH, len_app. lia.
Qed.

(** Some of the parts of [ps]. *)
Definition some_of (parts : list (option bytes)) (ps : list bytes) : Prop :=
  Forall2 (fun o p => o = None \/ o = Some p) parts ps.

Lemma present_len_le parts ps : some_of parts ps -> present_len parts <= len (concat ps).
Proof.
  unfold present_len. induction 1 as [|o p parts ps [-> | ->] _ IH]; cbn [foldr concat]; [done| |];
    rewrite len_app; pose proof (len_nonneg p); lia.
Qed.

Lemma copy_parts_all ps (done post : bytes) :
  len post = len (concat ps) ->
  copy_parts (map Some ps) (done ++ post) (len done) = Ok (Some (done ++ concat ps, len done + len (concat ps))).
Proof.
  revert done post. induction ps as [|p ps IH]; intros done post Hl.
  - apply len_nil_inv in Hl as ->. cbn [map copy_parts concat]. change (len (@nil byte)) with 0. by rewrite Z.add_0_r.
  - cbn [map copy_parts concat] in *. rewrite len_app in Hl. pose proof (len_nonneg (concat ps)).
    rewrite len_app, Z.gtb_ltb. decide_if. cbn [throw_if mbind result_bind].
    rewrite set_at_app, <- len_app, IH; [|unfold len in *; rewrite length_drop; lia].
    rewrite <- app_assoc, !len_app. do 3 f_equal. lia.
Qed.

(** ** One record *)

Lemma get_prune m k now e :
  JsMap.get_ m k = Some e -> now - createdAtMs e <= REASSEMBLY_TTL_MS -> JsMap.get_ (prune now m) k = Some e.
Proof.
  unfold prune. induction m as [|[k' v'] m IH]; [done|]. cbn [JsMap.get_]. intros Hg He.
  rewrite filter_cons. destruct (decide (k = k')) as [->|Hk].
  - injection Hg as ->. rewrite decide_True by (cbn; lia). cbn. by rewrite decide_True.
  - case_decide; [|by apply IH]. cbn. rewrite decide_False by done. by apply IH.
Qed.

Lemma get_prune_None m k now : JsMap.get_ m k = None -> JsMap.get_ (prune now m) k = None.
Proof.
  unfold prune. induction m as [|[k' v'] m IH]; [done|]. cbn [JsMap.get_]. intros Hg.
  rewrite filter_cons. destruct (decide (k = k')) as [->|Hk]; [done|].
  case_decide; [|by apply IH]. cbn. rewrite decide_False by done. by apply IH.
Qed.

Lemma get_reserve_None m k : JsMap.get_ m k = None -> JsMap.get_ (reserveEntry m) k = None.
Proof.
  intros Hg. unfold reserveEntry. destruct (len m <? MAX_REASSEMBLY_RECORDS); [done|].
  destruct m as [|e m]; [done|]. cbv zeta. set (o := foldl _ _ _).
  destruct (decide (fst o = k)) as [->|Hk]; [apply JsMap.get_delete_eq|by rewrite JsMap.get_delete_ne].
Qed.

Section OneRecord.
Context (key : string) (total : Z) (ps : list bytes).
Let n := length ps.
Context (Hn : (2 <= n <= 128)%nat) (Htotal : total = len (concat ps)) (Hne : Forall (fun p => 0 < len p) ps).

(** The fragments that have arrived, in the slots of an entry. *)
Definition parts (seen : list nat) : list (option bytes) :=
  map (fun j => if decide (j ∈ seen) then ps !! j else None) (seq 0 n).

Definition complete (seen : list nat) : Prop := Forall (fun j => j ∈ seen) (seq 0 n).

#[local] Instance complete_dec seen : Decision (complete seen).
Proof. unfold complete. apply _. Defined.

Lemma parts_lookup seen j : (j < n)%nat -> parts seen !! j = Some (if decide (j ∈ seen) then ps !! j else None).
Proof. intros Hj. unfold parts. rewrite list_lookup_fmap, lookup_seq_lt by done. reflexivity. Qed.

Lemma length_parts seen : length (parts seen) = n.
Proof. unfold parts. by rewrite length_map, length_seq. Qed.

Lemma parts_nil : parts [] = replicate n None.
Proof.
  apply list_eq. intros i. destruct (decide (i < n)%nat) as [Hi|Hi].
  - rewrite parts_lookup, lookup_replicate_2 by done. by rewrite decide_False by apply not_elem_of_nil.
  - by rewrite !lookup_ge_None_2; rewrite ?length_replicate, ?length_parts; try lia.
Qed.

Lemma parts_snoc seen j : (j < n)%nat -> parts (seen ++ [j]) = <[j := ps !! j]> (parts seen).
Proof.
  intros Hj. apply list_eq. intros i. destruct (decide (i < n)%nat) as [Hi|Hi].
  - rewrite parts_lookup by done. destruct (decide (i = j)) as [->|Hne'].
    + rewrite list_lookup_insert_eq by (by rewrite length_parts). rewrite decide_True; [done|].
      apply elem_of_app. right. left.
    + rewrite list_lookup_insert_ne, parts_lookup by done. assert (i ∈ seen ++ [j] <-> i ∈ seen) as Hiff.
      { rewrite elem_of_app, elem_of_cons, elem_of_nil. naive_solver. }
      f_equal. by apply decide_ext.
  - rewrite !lookup_ge_None_2; rewrite ?length_insert, ?length_parts; lia || done.
Qed.

Lemma parts_seen seen j : (j < n)%nat -> j ∈ seen -> parts (seen ++ [j]) = parts seen.
Proof.
  intros Hj Hin. rewrite parts_snoc by done. apply list_insert_id. rewrite parts_lookup by done.
  by rewrite decide_True.
Qed.

Lemma some_of_parts seen : some_of (parts seen) ps.
Proof.
  apply Forall2_same_length_lookup_2; [apply length_parts|]. intros i o p Ho Hp.
  assert (i < n)%nat by (by eapply lookup_lt_Some). rewrite parts_lookup in Ho by done. injection Ho as <-.
  rewrite Hp. case_decide; auto.
Qed.

Lemma parts_complete seen : complete seen -> parts seen = map Some ps.
Proof.
  intros Hc. apply list_eq. intros i. destruct (decide (i < n)%nat) as [Hi|Hi].
  - rewrite parts_lookup by done. unfold complete in Hc. rewrite Forall_forall in Hc.
    rewrite decide_True by (apply Hc, elem_of_seq; lia). rewrite list_lookup_fmap.
    destruct (ps !! i) eqn:E; [done|]. apply lookup_ge_None in E. unfold n in Hi. lia.
  - rewrite !lookup_ge_None_2; rewrite ?length_parts, ?length_map; fold n; lia || done.
Qed.

Lemma parts_incomplete seen : ~ complete seen -> missing (parts seen) = true.
Proof.
  intros Hc. apply bool_decide_eq_true. unfold complete in Hc.
  apply not_Forall_Exists in Hc; [|intros ?; apply _]. apply Exists_exists in Hc as (j & Hj & Hns).
  apply elem_of_seq in Hj. apply list_elem_of_lookup. exists j. rewrite parts_lookup by lia.
  by rewrite decide_False.
Qed.

(** The entry of the record after the fragments [seen]. *)
Definition entry_of (seen : list nat) (t0 : Z) : option Reassembly :=
  match seen with [] => None | _ => Some (mkReassembly t0 total (present_len (parts seen)) (parts seen)) end.

Definition start_of (seen : list nat) (t0 now : Z) : Z := match seen with [] => now | _ => t0 end.

Definition entry_now (seen : list nat) (t : Z) : Reassembly :=
  mkReassembly t total (present_len (parts seen)) (parts seen).

Lemma find_entry_run m seen t0 now :
  JsMap.get_ m key = entry_of seen t0 -> (seen <> [] -> now - t0 <= REASSEMBLY_TTL_MS) ->
  exists m1, find_entry key total (Z.of_nat n) now m = (Ok (entry_now seen (start_of seen t0 now)), m1) /\
    JsMap.get_ m1 key = Some (entry_now seen (start_of seen t0 now)).
Proof.
  intros Hg Ht. unfold find_entry. rewrite ST_get_bind, Hg. destruct seen as [|x seen].
  - cbn [entry_of start_of]. rewrite !ST_modify_bind, Nat2Z.id. eexists. split.
    + unfold entry_now. rewrite parts_nil. replace (present_len (replicate n None)) with 0; [reflexivity|].
      clear. induction n as [|k IH]; [done|]. exact IH.
    + rewrite JsMap.get_set_eq. unfold entry_now. rewrite parts_nil. do 2 f_equal.
      clear. induction n as [|k IH]; [done|]. exact IH.
  - specialize (Ht ltac:(done)). cbn [entry_of start_of createdAtMs totalLen fragments].
    unfold len. rewrite length_parts, !Z.eqb_refl, Z.gtb_ltb.
    replace (REASSEMBLY_TTL_MS <? now - t0) with false by (symmetry; apply Z.ltb_ge; lia).
    by exists m.
Qed.

Lemma put_fragment_run m seen t j :
  JsMap.get_ m key = Some (entry_now seen t) -> ~ complete seen -> (j < n)%nat ->
  exists m', put_fragment key total (Z.of_nat j) (nth j ps []) (entry_now seen t) m =
      (Ok (if decide (complete (seen ++ [j])) then Some (concat ps) else None), m') /\
    JsMap.get_ m' key = if decide (complete (seen ++ [j])) then None else Some (entry_now (seen ++ [j]) t).
Proof.
  intros Hg Hc Hj. destruct (lookup_lt_is_Some_2 ps j Hj) as [p Hp]. rewrite (nth_lookup_Some _ _ _ _ Hp).
  unfold put_fragment, entry_now. cbn [fragments receivedBytes createdAtMs totalLen].
  rewrite Nat2Z.id, parts_lookup by done. destruct (decide (j ∈ seen)) as [Hin|Hin].
  - rewrite Hp. cbn [andb]. rewrite ST_modify_bind. cbn [fragments receivedBytes].
    rewrite (parts_incomplete _ Hc), orb_true_r.
    assert (Hc' : ~ complete (seen ++ [j])).
    { intros H. apply Hc. unfold complete in *. eapply Forall_impl; [exact H|]. intros i.
      rewrite elem_of_app, elem_of_cons, elem_of_nil. naive_solver. }
    rewrite !decide_False by done. eexists. split; [reflexivity|]. rewrite JsMap.get_set_eq.
    by rewrite parts_seen.
  - cbn [andb].
    assert (Hparts : <[j := Some p]> (parts seen) = parts (seen ++ [j])) by (by rewrite parts_snoc, Hp).
    assert (Hlen : present_len (parts seen) + len p = present_len (parts (seen ++ [j]))).
    { rewrite <- Hparts, present_len_insert; [done|]. rewrite parts_lookup by done. by rewrite decide_False. }
    rewrite Hlen, Hparts, Z.gtb_ltb.
    pose proof (present_len_le _ _ (some_of_parts (seen ++ [j]))) as Hle. rewrite <- Htotal in Hle.
    replace (total <? present_len (parts (seen ++ [j]))) with false by (symmetry; apply Z.ltb_ge; lia).
    rewrite ST_modify_bind. cbn [fragments receivedBytes].
    destruct (decide (complete (seen ++ [j]))) as [Hc'|Hc'].
    + rewrite (parts_complete _ Hc'), present_len_all, <- Htotal, Z.eqb_refl. cbn [negb orb].
      unfold missing. rewrite bool_decide_eq_false_2 by (rewrite list_elem_of_fmap; intros (? & [=] & _)).
      erewrite ST_lift_bind.
      2:{ rewrite <- (app_nil_l (replicate _ _)). apply (copy_parts_all ps []). unfold len at 1.
          rewrite length_replicate. pose proof (len_nonneg (concat ps)). lia. }
      cbv beta iota. rewrite ST_modify_bind. change (len (@nil byte)) with 0. rewrite Z.add_0_l, <- Htotal, Z.eqb_refl.
      eexists. split; [reflexivity|]. apply JsMap.get_delete_eq.
    + rewrite (parts_incomplete _ Hc'), orb_true_r. eexists. split; [reflexivity|]. by rewrite JsMap.get_set_eq.
Qed.
End OneRecord.

(** ** Cutting a record *)

Lemma payload_at_eq record mp i : 0 <= i -> 0 < mp ->
  payload_at record mp i = take (Z.to_nat mp) (drop (Z.to_nat i * Z.to_nat mp) record).
Proof.
  intros Hi Hm. unfold payload_at, subarray, len.
  replace (Z.to_nat (i * mp)) with (Z.to_nat i * Z.to_nat mp)%nat by lia.
  destruct (Z.le_gt_cases (i * mp + mp) (Z.of_nat (length record))) as [Hl|Hl].
  - rewrite Z.min_l by lia. f_equal. lia.
  - rewrite Z.min_r by lia. rewrite !take_ge; [done|rewrite length_drop; lia|rewrite length_drop; lia].
Qed.

Lemma concat_payloads record mp k : 0 < mp ->
  concat (map (fun i => payload_at record mp (Z.of_nat i)) (seq 0 k)) = take (k * Z.to_nat mp) record.
Proof.
  intros Hm. induction k as [|k IH]; [done|].
  rewrite seq_S, map_app, concat_app, IH. cbn [map concat]. rewrite app_nil_r, payload_at_eq by lia.
  rewrite Nat.add_0_l, Nat2Z.id.
  rewrite <- (take_drop (k * Z.to_nat mp) (take (S k * Z.to_nat mp) record)). f_equal.
  - rewrite take_take. f_equal. lia.
  - rewrite skipn_firstn_comm. f_equal. lia.
Qed.

Lemma record_counter record est : decodeFspEstablished record = Ok est -> 0 <= fe_counter est < 2 ^ 64.
Proof.
  intros [Hl _]%decodeFspEstablished_Ok. unfold fsp_est_layout, fsp_header_layout in Hl.
  apply lseq_Some in Hl as (? & ? & _ & (? & ? & (? & ? & _ & Hf & _)%lseq_Some & _)%lseq_Some & _).
  by apply field_range in Hf.
Qed.

(** What segmentation makes. *)
Record segmented (record : bytes) (pathMtu : Z) (frs : list bytes) (est : FspEstablished) (ps : list bytes) : Prop := {
  sg_est : decodeFspEstablished record = Ok est;
  sg_count : (2 <= length ps <= 128)%nat;
  sg_record : concat ps = record;
  sg_limit : len record <= DIRECT_FSP_TRANSPORT_MAX_REASSEMBLED_LEN;
  sg_payloads : Forall (fun p => 0 < len p <= pathMtu - 20) ps;
  sg_frs : frs = map (fun i => fragment_bytes (fe_counter est) (len record) (Z.of_nat i) (len ps) (nth i ps []))
                   (seq 0 (length ps));
}.

Lemma segment_cases record pathMtu frs :
  segmentDirectFspTransportRecord record pathMtu = Ok frs ->
  (len record <= pathMtu /\ frs = [record]) \/ exists est ps, segmented record pathMtu frs est ps.
Proof.
  unfold segmentDirectFspTransportRecord. intros E. apply guard_Ok in E as [Hm E]. bool_split.
  destruct (Z.leb_spec (len record) pathMtu) as [Hs|Hs]; [injection E as <-; by left|]. right.
  apply guard_Ok in E as [Hmax E]. apply result_bind_ok in E as (est & Hd & E).
  apply guard_Ok in E as [_ E]. apply guard_Ok in E as [Hp E].
  set (mp := pathMtu - DIRECT_FSP_TRANSPORT_FRAGMENT_HEADER_LEN) in *.
  set (cnt := - (- len record / mp)) in *. apply guard_Ok in E as [Hc E]. bool_split. injection E as <-.
  rewrite Z.gtb_ltb in Hmax. apply Z.ltb_ge in Hmax. apply Z.leb_gt in Hp.
  unfold DIRECT_FSP_TRANSPORT_MAX_FRAGMENTS, DIRECT_FSP_TRANSPORT_MAX_REASSEMBLED_LEN in *.
  assert (Hcnt : 2 <= cnt <= 128) by lia.
  assert (Hdiv : (cnt - 1) * mp < len record <= cnt * mp).
  { unfold cnt. pose proof (Z.div_mod (- len record) mp ltac:(lia)).
    pose proof (Z.mod_pos_bound (- len record) mp ltac:(lia)). nia. }
  exists est, (map (fun i => payload_at record mp (Z.of_nat i)) (seq 0 (Z.to_nat cnt))).
  assert (Hlen : length (map (fun i => payload_at record mp (Z.of_nat i)) (seq 0 (Z.to_nat cnt))) = Z.to_nat cnt)
    by (by rewrite length_map, length_seq).
  split; [done|rewrite Hlen; lia| |unfold DIRECT_FSP_TRANSPORT_MAX_REASSEMBLED_LEN; lia| |].
  - rewrite concat_payloads by lia. apply take_ge. unfold len in *. lia.
  - apply Forall_forall. intros p Hin. apply list_elem_of_fmap in Hin as (i & -> & Hi%elem_of_seq).
    unfold payload_at. assert (Z.of_nat i * mp < len record) by nia. assert (0 <= Z.of_nat i * mp) by nia.
    rewrite len_subarray; [|lia|lia]. unfold mp, DIRECT_FSP_TRANSPORT_FRAGMENT_HEADER_LEN in *. lia.
  - rewrite Hlen. apply map_ext_in. intros i Hi%in_seq. pose proof (len_nonneg record).
    assert (Hz : len (map (fun i => payload_at record mp (Z.of_nat i)) (seq 0 (Z.to_nat cnt))) = cnt)
      by (unfold len; rewrite Hlen; lia).
    rewrite Hz, make_fragment_eq by lia. f_equal.
    rewrite (nth_indep _ _ (payload_at record mp (Z.of_nat 0))) by (rewrite Hlen; lia).
    rewrite (map_nth (fun i => payload_at record mp (Z.of_nat i))), seq_nth by lia. done.
Qed.

(** ** Theorems *)

(** Fragments as they arrive, each with its time. *)
Fixpoint ingest_all (source : string) (arrivals : list (bytes * Z))
    : ST DirectFspTransportReassembler (list (option bytes)) :=
  match arrivals with
  | [] => mret []
  | (fragment, now) :: arrivals =>
      r ← ingest source fragment now; rs ← ingest_all source arrivals; mret (r :: rs)
  end.

Lemma ingest_fragment source id total index count p now m :
  0 <= id < 2 ^ 64 -> 0 < total <= DIRECT_FSP_TRANSPORT_MAX_REASSEMBLED_LEN -> 2 <= count <= 128 ->
  count <= total -> 0 <= index < count -> 0 < len p ->
  ingest source (fragment_bytes id total index count p) now m =
    (modify (prune now);; entry ← find_entry (record_key source id) total count now;
     put_fragment (record_key source id) total index p entry) m.
Proof.
  intros Hid Ht Hc Hct Hi Hp. unfold DIRECT_FSP_TRANSPORT_MAX_REASSEMBLED_LEN in Ht.
  unfold ingest. rewrite fragment_is_fragment, ST_pass by done. rewrite fragment_len.
  rewrite fragment_id, fragment_total, fragment_index, fragment_count by lia.
  unfold DIRECT_FSP_TRANSPORT_FRAGMENT_HEADER_LEN. rewrite fragment_payload.
  replace (20 + len p <=? 20) with false by (symmetry; apply Z.leb_gt; lia).
  rewrite !Z.gtb_ltb, Z.geb_leb. unfold DIRECT_FSP_TRANSPORT_MAX_REASSEMBLED_LEN, DIRECT_FSP_TRANSPORT_MAX_FRAGMENTS.
  repeat match goal with
  | |- context [?a <=? ?b] => replace (a <=? b) with false by (symmetry; apply Z.leb_gt; lia)
  | |- context [?a <? ?b] => replace (a <? b) with false by (symmetry; apply Z.ltb_ge; lia)
  end. reflexivity.
Qed.

Lemma len_concat_ge (ps : list bytes) : Forall (fun p => 0 < len p) ps -> len ps <= len (concat ps).
Proof. induction 1 as [|p ps Hp _ IH]; [done|]. cbn [concat]. rewrite len_cons, len_app. lia. Qed.

(** The arrivals of a segmented record, from any partial state on. *)
Lemma segmented_run source record pathMtu frs est ps arrivals j t m seen t0 base :
  segmented record pathMtu frs est ps ->
  JsMap.get_ m (record_key source (fe_counter est)) = entry_of (len record) ps seen t0 ->
  Forall (fun a => (fst a < length ps)%nat /\ base <= snd a <= base + REASSEMBLY_TTL_MS) (arrivals ++ [(j, t)]) ->
  (seen <> [] -> base <= t0) ->
  ~ complete ps (seen ++ map fst arrivals) -> complete ps (seen ++ map fst arrivals ++ [j]) ->
  exists m', ingest_all source (map (fun a => (nth (fst a) frs [], snd a)) (arrivals ++ [(j, t)])) m =
    (Ok (replicate (length arrivals) None ++ [Some record]), m') /\
    JsMap.get_ m' (record_key source (fe_counter est)) = None.
Proof.
  intros Hsg. pose proof (record_counter _ _ (sg_est _ _ _ _ _ Hsg)) as Hid.
  destruct Hsg as [_ Hn Hrec Hlim Hps ->].
  assert (Hne : Forall (fun p => 0 < len p) ps) by (eapply Forall_impl; [exact Hps|]; cbn; lia).
  pose proof (len_concat_ge _ Hne) as Hge. subst record.
  assert (Hstep : forall m seen t0 i ti, (i < length ps)%nat ->
    JsMap.get_ m (record_key source (fe_counter est)) = entry_of (len (concat ps)) ps seen t0 ->
    base <= ti <= base + REASSEMBLY_TTL_MS -> (seen <> [] -> base <= t0) -> ~ complete ps seen ->
    exists m', ingest source (nth i (map (fun i => fragment_bytes (fe_counter est) (len (concat ps)) (Z.of_nat i) (len ps)
        (nth i ps [])) (seq 0 (length ps))) []) ti m =
      (Ok (if decide (complete ps (seen ++ [i])) then Some (concat ps) else None), m') /\
      JsMap.get_ m' (record_key source (fe_counter est)) =
        if decide (complete ps (seen ++ [i])) then None
        else Some (entry_now (len (concat ps)) ps (seen ++ [i]) (start_of seen t0 ti))).
  { clear -Hid Hn Hlim Hne Hge. intros m seen t0 i ti Hi Hg Ht Hb Hc.
    assert (Ei : nth i (map (fun i => fragment_bytes (fe_counter est) (len (concat ps)) (Z.of_nat i) (len ps)
        (nth i ps [])) (seq 0 (length ps))) [] =
      fragment_bytes (fe_counter est) (len (concat ps)) (Z.of_nat i) (len ps) (nth i ps [])).
    { apply nth_lookup_Some. by rewrite list_lookup_fmap, lookup_seq_lt. }
    destruct (lookup_lt_is_Some_2 ps i Hi) as [p Hp].
    assert (Hpp : 0 < len p) by (rewrite Forall_forall in Hne; by apply Hne, list_elem_of_lookup_2 with i).
    rewrite Ei, (nth_lookup_Some _ _ _ _ Hp), ingest_fragment by (unfold len in *; lia).
    rewrite ST_modify_bind.
    assert (Hg' : JsMap.get_ (prune ti m) (record_key source (fe_counter est)) = entry_of (len (concat ps)) ps seen t0).
    { destruct seen; [by apply get_prune_None|]. apply get_prune; [done|]. cbn. specialize (Hb ltac:(done)).
      unfold REASSEMBLY_TTL_MS in *. lia. }
    destruct (find_entry_run (record_key source (fe_counter est)) (len (concat ps)) ps Hn (prune ti m) seen t0 ti Hg')
      as (m1 & Ef & Gf); [intros Hs; specialize (Hb Hs); lia|].
    destruct (put_fragment_run (record_key source (fe_counter est)) (len (concat ps)) ps Hn eq_refl m1 seen _ i Gf Hc Hi)
      as (m' & Ep & Gp).
    rewrite (nth_lookup_Some _ _ _ _ Hp) in Ep. exists m'.
    change (len ps) with (Z.of_nat (length ps)). rewrite (ST_bind_ok _ _ _ _ _ Ef). by split. }
  assert (Hmono : forall s s', complete ps s -> complete ps (s ++ s')).
  { intros s s' H. unfold complete in *. eapply Forall_impl; [exact H|]. intros k. rewrite elem_of_app. auto. }
  revert m seen t0. induction arrivals as [|[i ti] arrivals IH]; intros m seen t0 Hg Hf Hb Hc1 Hc2.
  - cbn [app map ingest_all fst snd]. apply Forall_singleton in Hf as [Hj Ht]. cbn [map app fst snd] in *.
    rewrite app_nil_r in Hc1. destruct (Hstep m seen t0 j t Hj Hg Ht Hb Hc1) as (m' & Ei & Gi).
    rewrite decide_True in Ei by done. rewrite decide_True in Gi by done. rewrite (ST_bind_ok _ _ _ _ _ Ei). by exists m'.
  - cbn [app map ingest_all fst snd]. cbn [app] in Hf. apply Forall_cons in Hf as [[Hj Ht] Hf]. cbn [map fst snd app] in *.
    assert (Hc : ~ complete ps seen) by (intros H; by apply Hc1, Hmono).
    destruct (Hstep m seen t0 i ti Hj Hg Ht Hb Hc) as (m' & Ei & Gi).
    replace (seen ++ i :: map fst arrivals) with ((seen ++ [i]) ++ map fst arrivals) in Hc1 by (by rewrite <- app_assoc).
    replace (seen ++ i :: map fst arrivals ++ [j]) with ((seen ++ [i]) ++ map fst arrivals ++ [j]) in Hc2
      by (by rewrite <- app_assoc).
    assert (Hc' : ~ complete ps (seen ++ [i])) by (intros H; by apply Hc1, Hmono).
    rewrite decide_False in Ei by done. rewrite decide_False in Gi by done. rewrite (ST_bind_ok _ _ _ _ _ Ei).
    destruct (IH m' (seen ++ [i]) (start_of seen t0 ti)) as (m2 & E2 & G2); [|done| |done|done|].
    + rewrite Gi. unfold entry_of, entry_now. by destruct seen.
    + intros _. destruct seen; cbn; [lia|]. by apply Hb.
    + exists m2. rewrite (ST_bind_ok _ _ _ _ _ E2). by split.
Qed.

(** C38: direct transport carries every record it accepts: a record within the
    path MTU travels as it is; a longer one is cut into at most 128 fragments
    that each fit the path and cannot be taken for a session record, and a
    reassembler that has none of them yields nothing until the last missing
    fragment is there, and then exactly the record, whatever the order of the
    fragments and however often each one arrives, if they arrive within the
    lifetime of an entry; whatever else it holds. *)
Theorem direct_fragments_reassemble record pathMtu frs :
  segmentDirectFspTransportRecord record pathMtu = Ok frs ->
  (len record <= pathMtu /\ frs = [record]) \/
  exists est, decodeFspEstablished record = Ok est /\ (2 <= length frs <= 128)%nat /\
    Forall (fun f => isDirectFspTransportFragment f = true /\ len f <= pathMtu /\ isDirectFspEstablished f = false) frs /\
    forall source m arrivals j t base,
      JsMap.get_ m (record_key source (fe_counter est)) = None ->
      Forall (fun a => (fst a < length frs)%nat /\ base <= snd a <= base + REASSEMBLY_TTL_MS) (arrivals ++ [(j, t)]) ->
      ~ (forall k, (k < length frs)%nat -> k ∈ map fst arrivals) ->
      (forall k, (k < length frs)%nat -> k ∈ map fst arrivals ++ [j]) ->
      exists m', ingest_all source (map (fun a => (nth (fst a) frs [], snd a)) (arrivals ++ [(j, t)])) m =
        (Ok (replicate (length arrivals) None ++ [Some record]), m').
Proof.
  intros [?|(est & ps & Hsg)]%segment_cases; [by left|]. right. exists est. split; [apply Hsg|].
  assert (Hl : length frs = length ps) by (rewrite (sg_frs _ _ _ _ _ Hsg); by rewrite length_map, length_seq).
  rewrite Hl. split; [apply Hsg|]. split.
  - rewrite (sg_frs _ _ _ _ _ Hsg). apply Forall_forall. intros f (i & -> & Hi%elem_of_seq)%list_elem_of_fmap.
    split; [apply fragment_is_fragment|]. split.
    + rewrite fragment_len. destruct (lookup_lt_is_Some_2 ps i ltac:(lia)) as [p Hp].
      rewrite (nth_lookup_Some _ _ _ _ Hp). pose proof (sg_payloads _ _ _ _ _ Hsg) as Hps.
      apply (Forall_lookup_1 _ _ _ _ Hps) in Hp. lia.
    + unfold isDirectFspEstablished. by destruct (_ <? _).
  - intros source m arrivals j t base Hg Hf Hc1 Hc2.
    assert (Hcov : forall js, complete ps js <-> forall k, (k < length ps)%nat -> k ∈ js).
    { intros js. unfold complete. rewrite Forall_forall. split; intros H k Hk; apply H.
      - apply elem_of_seq. lia.
      - apply elem_of_seq in Hk. lia. }
    destruct (segmented_run source record pathMtu frs est ps arrivals j t m [] 0 base Hsg Hg Hf) as (m' & E & _);
      [done|by rewrite Hcov|by rewrite Hcov|]. by exists m'.
Qed.

(** ** Bounds *)

Record entry_ok (e : Reassembly) : Prop := {
  eo_total : 0 < totalLen e <= DIRECT_FSP_TRANSPORT_MAX_REASSEMBLED_LEN;
  eo_count : (2 <= length (fragments e) <= 128)%nat;
  eo_received : receivedBytes e = present_len (fragments e);
  eo_le : receivedBytes e <= totalLen e;
}.

Record reassembler_ok (m : DirectFspTransportReassembler) : Prop := {
  ro_wf : JsMap.wf m;
  ro_size : (length m <= 512)%nat;
  ro_entries : Forall (fun p => entry_ok (snd p)) m;
}.

Lemma ok_get m k e : reassembler_ok m -> JsMap.get_ m k = Some e -> entry_ok e.
Proof. intros [_ _ Hf] Hg%JsMap.get_elem. rewrite Forall_forall in Hf. by apply (Hf (k, e)). Qed.

Lemma ok_filter m (P : string * Reassembly -> Prop) `{!forall p, Decision (P p)} :
  reassembler_ok m -> reassembler_ok (base.filter P m).
Proof.
  intros [Hw Hs Hf]. split; [by apply JsMap.wf_filter| |].
  - pose proof (JsMap.length_filter_le P m). lia.
  - rewrite Forall_forall in *. intros p [_ Hp]%list_elem_of_filter. by apply Hf.
Qed.

Lemma ok_set m k e : reassembler_ok m -> entry_ok e -> JsMap.has_ m k = true \/ (length m < 512)%nat ->
  reassembler_ok (JsMap.set_ m k e).
Proof.
  intros [Hw Hs Hf] He Hsz. split; [by apply JsMap.wf_set| |].
  - rewrite JsMap.length_set. destruct Hsz as [->|]; [done|]. destruct (JsMap.has_ m k); lia.
  - apply Forall_forall. intros [k' v] Hin. apply JsMap.elem_get in Hin; [|by apply JsMap.wf_set].
    destruct (decide (k = k')) as [->|Hne].
    + rewrite JsMap.get_set_eq in Hin. by injection Hin as <-.
    + rewrite JsMap.get_set_ne in Hin by done. by eapply ok_get.
Qed.

Lemma oldest_elem (e : string * Reassembly) es :
  foldl (fun candidate current =>
    if createdAtMs (snd current) <? createdAtMs (snd candidate) then current else candidate) e es ∈ e :: es.
Proof.
  revert e. induction es as [|x es IH]; intros e; [left|]. cbn [foldl].
  destruct (_ <? _); [right; apply IH|]. specialize (IH e). apply elem_of_cons in IH as [->|IH]; [left|].
  right. by right.
Qed.

Lemma ok_reserve m : reassembler_ok m -> reassembler_ok (reserveEntry m) /\ (length (reserveEntry m) < 512)%nat.
Proof.
  intros Hok. unfold reserveEntry, MAX_REASSEMBLY_RECORDS. destruct (Z.ltb_spec (len m) 512) as [Hl|Hl].
  { split; [done|]. unfold len in Hl. lia. }
  destruct m as [|e es]; [by unfold len in Hl; cbn in Hl|]. cbv zeta.
  pose proof (oldest_elem e es) as Hin. set (o := foldl _ _ _) in *. split; [by apply ok_filter|].
  destruct Hok as [_ Hs _]. assert (fst o ∈ (fst <$> e :: es)) as Hk by (apply list_elem_of_fmap; by exists o).
  pose proof (JsMap.length_delete_lt _ _ Hk). lia.
Qed.

Lemma find_entry_ok m key total count now :
  reassembler_ok m -> 0 < total <= DIRECT_FSP_TRANSPORT_MAX_REASSEMBLED_LEN -> 2 <= count <= 128 ->
  exists e m1, find_entry key total count now m = (Ok e, m1) /\ reassembler_ok m1 /\ entry_ok e /\
    JsMap.get_ m1 key = Some e /\ totalLen e = total /\ len (fragments e) = count.
Proof.
  intros Hok Ht Hc. unfold find_entry. rewrite ST_get_bind.
  assert (Hnew : exists e m1, (modify reserveEntry;;
      modify (fun m => JsMap.set_ m key (mkReassembly now total 0 (replicate (Z.to_nat count) None)));;
      mret (mkReassembly now total 0 (replicate (Z.to_nat count) None))) m = (Ok e, m1) /\
      reassembler_ok m1 /\ entry_ok e /\ JsMap.get_ m1 key = Some e /\ totalLen e = total /\ len (fragments e) = count).
  { rewrite !ST_modify_bind. eexists _, _. split; [reflexivity|].
    assert (He : entry_ok (mkReassembly now total 0 (replicate (Z.to_nat count) None))).
    { split; cbn [totalLen fragments receivedBytes]; rewrite ?length_replicate; try lia.
      generalize (Z.to_nat count). intros k. induction k as [|k IH]; [done|]. exact IH. }
    destruct (ok_reserve m Hok) as [Hr Hl]. split; [apply ok_set; auto|]. split; [done|].
    split; [apply JsMap.get_set_eq|]. split; [done|]. cbn. unfold len. rewrite length_replicate. lia. }
  destruct (JsMap.get_ m key) as [e|] eqn:Eg; [|exact Hnew].
  destruct ((now - createdAtMs e >? REASSEMBLY_TTL_MS) || negb (totalLen e =? total)
     || negb (len (fragments e) =? count)) eqn:Eb; [exact Hnew|]. bool_split.
  exists e, m. split; [done|]. split; [done|]. split; [by eapply ok_get|]. split; [done|]. split; lia.
Qed.

Lemma all_present parts : missing parts = false -> exists ps, parts = map Some ps.
Proof.
  intros Hm%bool_decide_eq_false. induction parts as [|[p|] parts IH]; [by exists []| |].
  - destruct IH as [ps ->]; [intros H; apply Hm; by right|]. by exists (p :: ps).
  - destruct Hm. left.
Qed.

Lemma has_get (m : DirectFspTransportReassembler) k e : JsMap.get_ m k = Some e -> JsMap.has_ m k = true.
Proof. intros Hg. unfold JsMap.has_. rewrite Hg. by apply bool_decide_eq_true. Qed.

Lemma put_fragment_ok m key total idx p e :
  reassembler_ok m -> entry_ok e -> JsMap.get_ m key = Some e -> totalLen e = total ->
  idx < len (fragments e) ->
  exists r m', put_fragment key total idx p e m = (Ok r, m') /\ reassembler_ok m' /\
    forall record, r = Some record -> len record = total.
Proof.
  intros Hok [Et Ec Er El] Hg Htot Hi. unfold put_fragment.
  assert (Hidx : (Z.to_nat idx < length (fragments e))%nat) by (unfold len in Hi; lia).
  destruct (lookup_lt_is_Some_2 _ _ Hidx) as [slot Hslot]. rewrite Hslot. cbv beta iota zeta.
  set (fresh := match slot with Some _ => false | None => true end).
  destruct (fresh && (receivedBytes e + len p >? total)) eqn:Ef.
  { rewrite ST_modify_bind. eexists _, _. split; [reflexivity|]. split; [by apply ok_filter|done]. }
  set (e' := if fresh then _ else e).
  assert (He' : entry_ok e' /\ totalLen e' = total).
  { unfold e'. destruct slot as [q|]; cbn [fresh] in *; [by split; [split|]|].
    cbn [andb] in Ef. rewrite Z.gtb_ltb in Ef. apply Z.ltb_ge in Ef. split; [|done].
    split; cbn [totalLen fragments receivedBytes]; [done|by rewrite length_insert| |lia].
    rewrite present_len_insert by done. lia. }
  destruct He' as [He' Ht']. rewrite ST_modify_bind.
  assert (Hok' : reassembler_ok (JsMap.set_ m key e')) by (apply ok_set; [done|done|left; by eapply has_get]).
  destruct (negb (receivedBytes e' =? total) || missing (fragments e')) eqn:Em.
  { eexists _, _. split; [reflexivity|]. by split. }
  bool_split. match goal with Hm : missing _ = false |- _ => destruct (all_present _ Hm) as [ps Hps] end.
  assert (Hlen : len (concat ps) = total).
  { destruct He' as [_ _ Hr _]. rewrite Hps, present_len_all in Hr. lia. }
  rewrite Hps. erewrite ST_lift_bind.
  2:{ rewrite <- (app_nil_l (replicate _ _)). apply (copy_parts_all ps []). unfold len at 1.
      rewrite length_replicate. lia. }
  cbv beta iota. rewrite ST_modify_bind. change (len (@nil byte)) with 0. rewrite Z.add_0_l, Hlen, Z.eqb_refl.
  eexists _, _. split; [reflexivity|]. split; [by apply ok_filter|]. by intros record [= <-].
Qed.

(** Reassembly is bounded whatever arrives, in whatever order and from
    however many sources: no packet makes [ingest] throw except one that is not
    a fragment, which changes nothing; there are never more than 512 entries, of
    at most 128 parts each, none of which holds more bytes than its record is
    long, at most 72 KiB; and a record that is handed on has the length its
    fragment announced. *)
Lemma direct_reassembler_bounded m source fragment now :
  reassembler_ok m ->
  (isDirectFspTransportFragment fragment = false -> exists e, ingest source fragment now m = (Throw e, m)) /\
  (isDirectFspTransportFragment fragment = true ->
     exists r m', ingest source fragment now m = (Ok r, m') /\ reassembler_ok m' /\
       forall record, r = Some record ->
         len record = readU32le fragment 12 /\ len record <= DIRECT_FSP_TRANSPORT_MAX_REASSEMBLED_LEN).
Proof.
  intros Hok. unfold ingest. split; intros ->; [by eexists|]. rewrite ST_pass by done.
  destruct (len fragment <=? _); [by exists None, m|].
  match goal with |- context [if ?c then mret None else _] => destruct c eqn:Ec end; [by exists None, m|].
  bool_split. rewrite Z.gtb_ltb in *. rewrite Z.geb_leb in *.
  repeat match goal with
  | H : (_ <=? _) = false |- _ => apply Z.leb_gt in H
  | H : (_ <? _) = false |- _ => apply Z.ltb_ge in H
  end.
  rewrite ST_modify_bind. unfold DIRECT_FSP_TRANSPORT_MAX_FRAGMENTS in *.
  destruct (find_entry_ok (prune now m) (record_key source (readU64le fragment 4)) (readU32le fragment 12)
    (readU16le fragment 18) now) as (e & m1 & Ef & Hok1 & He & Hg & Ht & Hl); [by apply ok_filter|lia|lia|].
  rewrite (ST_bind_ok _ _ _ _ _ Ef).
  destruct (put_fragment_ok m1 _ _ (readU16le fragment 16) (subarray_from fragment DIRECT_FSP_TRANSPORT_FRAGMENT_HEADER_LEN)
    e Hok1 He Hg Ht) as (r & m' & Ep & Hok' & Hr); [lia|].
  exists r, m'. split; [exact Ep|]. split; [done|]. intros record Hrec. rewrite (Hr _ Hrec). lia.
Qed.

(** ** Examples *)

(** A record of 60 bytes for a path of 45 bytes: three fragments. *)
Definition demo_record : bytes :=
  match encodeFspEstablished (mkFspEst 8 77 32 None None (map (fun i => z2b (Z.of_nat i)) (seq 0 48))) with
  | Ok b => b | Throw _ => [] end.
Definition demo_fragments : list bytes :=
  match segmentDirectFspTransportRecord demo_record 45 with Ok fs => fs | Throw _ => [] end.

Lemma direct_fragments_reassemble_witness :
  length demo_fragments = 3%nat /\
  exists m', ingest_all "peer" (map (fun a => (nth (fst a) demo_fragments [], snd a)) [(2%nat, 5); (0%nat, 6); (2%nat, 6); (1%nat, 9)])
    [("peer:4e", mkReassembly 3 10 0 [None; None])] = (Ok [None; None; None; Some demo_record], m').
Proof.
  split; [vm_compute; reflexivity|].
  assert (E : segmentDirectFspTransportRecord demo_record 45 = Ok demo_fragments) by (vm_compute; reflexivity).
  destruct (direct_fragments_reassemble demo_record 45 demo_fragments E) as [[H _]|(est & Hd & _ & _ & Hr)];
    [vm_compute in H; destruct (H eq_refl)|].
  assert (Hc : fe_counter est = 77) by (vm_compute in Hd; injection Hd as <-; reflexivity).
  apply (Hr "peer"%string [("peer:4e"%string, mkReassembly 3 10 0 [None; None])] [(2%nat, 5); (0%nat, 6); (2%nat, 6)] 1%nat 9 5).
  - rewrite Hc. vm_compute. reflexivity.
  - apply (bool_decide_unpack _). vm_compute. exact I.
  - intros H. specialize (H 1%nat).  assert (1 < length demo_fragments)%nat as Hl by (vm_compute; lia). specialize (H Hl).
    apply (bool_decide_pack _) in H. vm_compute in H. exact H.
  - assert (length demo_fragments = 3%nat) as -> by (vm_compute; reflexivity). intros k Hk.
    destruct k as [|[|[|k]]]; [..|lia]; apply (bool_decide_unpack _); vm_compute; exact I.
Defined.

Lemma direct_reassembler_bounded_witness :
  reassembler_ok [] /\ exists r m', ingest "peer" (nth 0 demo_fragments []) 5 [] = (Ok r, m') /\ reassembler_ok m'.
Proof.
  assert (H : reassembler_ok []) by (split; [constructor|vm_compute; lia|constructor]). split; [exact H|].
  destruct (proj2 (direct_reassembler_bounded [] "peer" (nth 0 demo_fragments []) 5 H)) as (r & m' & E & Hm & _);
    [vm_compute; reflexivity|]. exists r, m'. exact (conj E Hm).
Defined.
