(* ===== verification/TreeState.v ===== *)
(** * The spanning tree

    [node/TreeState.ts]: a node's place in the spanning tree: the choice of its
    parent among the announcements of its peers, and greedy forwarding by tree
    distance. The clock, [nowSeconds()], is an argument. *)

From S2P Require Import Prelude Codec Crypto Toy NodeAddr Identity Link TreeMsg.

(** [a.localeCompare(b)] of two lower-case hexadecimal strings, which collation
    and code units order alike. *)
Definition localeCompare (a b : string) : Z :=
  match String.compare a b with Lt => -1 | Eq => 0 | Gt => 1 end.

(** [array.sort(compare)]: stable. *)
Section Sort.
Context {A : Type} (compare : A -> A -> result Z).
Fixpoint sort_insert (x : A) (l : list A) : result (list A) :=
  match l with
  | [] => Ok [x]
  | y :: l => c ← compare x y; if c <? 0 then Ok (x :: y :: l) else l ← sort_insert x l; Ok (y :: l)
  end.
Fixpoint sort_onto (xs sorted : list A) : result (list A) :=
  match xs with
  | [] => Ok sorted
  | x :: xs => sorted ← sort_insert x sorted; sort_onto xs sorted
  end.
Definition sort (xs : list A) : result (list A) := sort_onto xs [].
End Sort.

(** ** Distances *)

(** A number that may be [Infinity]. *)
Abbreviation distance := (option Z).

Definition dist_ltb (a b : distance) : bool :=
  match a, b with Some a, Some b => a <? b | Some _, None => true | None, _ => false end.
Definition dist_eqb (a b : distance) : bool :=
  match a, b with Some a, Some b => a =? b | None, None => true | _, _ => false end.

(** The loop that counts the common entries from the root end, on the reversed
    paths. *)
Fixpoint common_loop (a b : list NodeAddr) : Z :=
  match a, b with
  | x :: a, y :: b => if bytesEqual x y then 1 + common_loop a b else 0
  | _, _ => 0
  end.

Definition treeDistance (a b : list NodeAddr) : distance :=
  match last a, last b with
  | Some x, Some y =>
      if bytesEqual x y then Some (len a + len b - 2 * common_loop (reverse a) (reverse b)) else None
  | _, _ => None
  end.

Definition sameCoords (a b : list TreeCoordEntry) : bool :=
  (len a =? len b) && forallb (fun p => bytesEqual (te_nodeAddr (fst p)) (te_nodeAddr (snd p))) (zip a b).

Record PeerTreeState := mkPeerTree { pt_sequence : Z; pt_parent : NodeAddr; pt_ancestry : list TreeCoordEntry }.

Definition addrs (es : list TreeCoordEntry) : list NodeAddr := map te_nodeAddr es.

(** [ancestry.at(-1)!.nodeAddr] *)
Definition root_of (es : list TreeCoordEntry) : result NodeAddr :=
  match last es with Some e => Ok (te_nodeAddr e) | None => Throw (TypeError "Cannot read properties of undefined") end.

(** The comparison of two candidates. *)
Definition compare_candidates (a b : string * PeerTreeState) : result Z :=
  ra ← root_of (pt_ancestry (snd a));
  rb ← root_of (pt_ancestry (snd b));
  rootOrder ← compareNodeAddr ra rb;
  if negb (rootOrder =? 0) then Ok rootOrder else
  let depthOrder := len (pt_ancestry (snd a)) - len (pt_ancestry (snd b)) in
  Ok (if negb (depthOrder =? 0) then depthOrder else localeCompare (fst a) (fst b)).

Module TreeState.
Record t := mk {
  identity : FipsIdentity;
  sequence : Z;
  timestamp : Z;
  parent : NodeAddr;
  ancestry : list TreeCoordEntry;
  peers : list (string * PeerTreeState);
}.

Section Ops.
Context `{Noble}.

Definition new (id : FipsIdentity) (now : Z) : t :=
  mk id 1 now (nodeAddr id) [mkEntry (nodeAddr id) 1 now] [].

Definition selfEntry (s : t) : TreeCoordEntry := mkEntry (nodeAddr (identity s)) (sequence s) (timestamp s).

Definition coords (s : t) : list NodeAddr := addrs (ancestry s).
Definition root (s : t) : result NodeAddr := root_of (ancestry s).
Definition parentNodeAddr (s : t) : NodeAddr := parent s.

Definition announce (s : t) : result TreeAnnounce :=
  buildTreeAnnounce (identity s) (parent s) (sequence s) (timestamp s) (ancestry s).

Definition evaluateParent (now : Z) : ST t bool :=
  s ← get;
  let self := nodeAddr (identity s) in
  candidates ← lift (sort compare_candidates
    (base.filter (fun p => ~ (self ∈ addrs (pt_ancestry (snd p)))) (peers s)));
  '(nextParent, nextAncestry) ← lift
    match candidates with
    | [] => Ok (self, [selfEntry s])
    | best :: _ =>
        r ← root_of (pt_ancestry (snd best));
        c ← compareNodeAddr self r;
        if c <=? 0 then Ok (self, [selfEntry s])
        else match pt_ancestry (snd best) with
             | [] => Throw (TypeError "Cannot read properties of undefined")
             | first :: _ => Ok (te_nodeAddr first, selfEntry s :: pt_ancestry (snd best))
             end
    end;
  if bytesEqual (parent s) nextParent && sameCoords (ancestry s) nextAncestry then mret false else
  modify (fun s => mk (identity s) (sequence s + 1) now nextParent nextAncestry (peers s));;
  modify (fun s => mk (identity s) (sequence s) (timestamp s) (parent s) (<[0%nat := selfEntry s]> (ancestry s)) (peers s));;
  mret true.

Definition updatePeer (peerNodeAddr : NodeAddr) (announce : TreeAnnounce) (now : Z) : ST t bool :=
  key ← lift (nodeAddrToHex peerNodeAddr);
  s ← get;
  if match JsMap.get_ (peers s) key with
     | Some existing => ta_sequence announce <=? pt_sequence existing
     | None => false
     end
  then mret false else
  modify (fun s => mk (identity s) (sequence s) (timestamp s) (parent s) (ancestry s)
    (JsMap.set_ (peers s) key (mkPeerTree (ta_sequence announce) (ta_parent announce) (ta_ancestry announce))));;
  evaluateParent now.

Definition removePeer (peerNodeAddr : NodeAddr) (now : Z) : ST t bool :=
  key ← lift (nodeAddrToHex peerNodeAddr);
  s ← get;
  let removed := JsMap.has_ (peers s) key in
  modify (fun s => mk (identity s) (sequence s) (timestamp s) (parent s) (ancestry s) (JsMap.delete_ (peers s) key));;
  if removed then evaluateParent now else mret false.

Definition reset (now : Z) : ST t unit :=
  modify (fun s => mk (identity s) (sequence s) (timestamp s) (parent s) (ancestry s) []);;
  evaluateParent now;;
  mret tt.

Definition isTreePeer (peerNodeAddr : NodeAddr) (s : t) : result bool :=
  if negb (bytesEqual (parent s) (nodeAddr (identity s))) && bytesEqual (parent s) peerNodeAddr then Ok true else
  key ← nodeAddrToHex peerNodeAddr;
  Ok match JsMap.get_ (peers s) key with
     | Some p => bytesEqual (pt_parent p) (nodeAddr (identity s))
     | None => false
     end.

(** The loop over the peers: the best so far. *)
Definition better (my : distance) (destCoords : list NodeAddr) (eligible : string -> bool)
    (best : option (string * distance)) (p : string * PeerTreeState) : option (string * distance) :=
  if negb (eligible (fst p)) then best else
  let d := treeDistance (addrs (pt_ancestry (snd p))) destCoords in
  if negb (dist_ltb d my) then best else
  match best with
  | None => Some (fst p, d)
  | Some (hex, bd) =>
      if dist_ltb d bd || (dist_eqb d bd && String.ltb (fst p) hex) then Some (fst p, d) else best
  end.

Definition nextHop (destCoords : list NodeAddr) (eligible : string -> bool) (s : t) : result (option string) :=
  match last destCoords with
  | None => Ok None
  | Some destRoot =>
      r ← root s;
      if negb (bytesEqual r destRoot) then Ok None else
      let my := treeDistance (coords s) destCoords in
      Ok (fst <$> foldl (better my destCoords eligible) None (peers s))
  end.
End Ops.
End TreeState.

(** ** The election *)

(** What a validated announcement's ancestry satisfies. *)
Definition path_ok (es : list TreeCoordEntry) : Prop :=
  exists r, path_root es = Some r /\ forall e, e ∈ es -> len (te_nodeAddr e) = 16 /\ be_val r <= be_val (te_nodeAddr e).

Lemma path_ok_root es : path_ok es -> exists r, path_root es = Some r /\ root_of es = Ok r /\ len r = 16 /\
  forall e, e ∈ es -> len (te_nodeAddr e) = 16 /\ be_val r <= be_val (te_nodeAddr e).
Proof.
  intros (r & Hr & Hm). exists r. split; [done|]. unfold path_root in Hr. unfold root_of.
  destruct (last es) as [e|] eqn:El; [|done]. injection Hr as <-. split; [done|]. split; [|done].
  apply Hm. by apply last_Some_elem_of.
Qed.

Lemma announced_path_ok a : ancestry_valid a -> path_ok (ta_ancestry a).
Proof.
  intros (first & rest & E & Hl & _ & Hm). rewrite E in *. unfold path_ok.
  assert (exists r, path_root (first :: rest) = Some r) as [r Hr].
  { unfold path_root. rewrite last_cons_List. by eexists. }
  exists r. split; [done|]. intros e He. split; [by apply Hl|by eapply Hm].
Qed.

(** The order of candidates: the smaller root first, then the shorter path. *)
Definition rank_le (p q : string * PeerTreeState) : Prop :=
  exists rp rq, path_root (pt_ancestry (snd p)) = Some rp /\ path_root (pt_ancestry (snd q)) = Some rq /\
    (be_val rp < be_val rq \/
     be_val rp = be_val rq /\ len (pt_ancestry (snd p)) <= len (pt_ancestry (snd q))).

Lemma rank_le_trans p q r : rank_le p q -> rank_le q r -> rank_le p r.
Proof.
  intros (a & b & Ha & Hb & H1) (b' & c & Hb' & Hc & H2). rewrite Hb in Hb'. injection Hb' as <-.
  exists a, c. split; [done|]. split; [done|]. lia.
Qed.

Lemma rank_le_refl p : path_ok (pt_ancestry (snd p)) -> rank_le p p.
Proof. intros (r & Hr & _). exists r, r. split; [done|]. split; [done|]. lia. Qed.

Lemma compare_candidates_run p q :
  path_ok (pt_ancestry (snd p)) -> path_ok (pt_ancestry (snd q)) ->
  exists c, compare_candidates p q = Ok c /\ (c < 0 -> rank_le p q) /\ (0 <= c -> rank_le q p).
Proof.
  intros (rp & Hp & Ep & Lp & _)%path_ok_root (rq & Hq & Eq & Lq & _)%path_ok_root.
  unfold compare_candidates. rewrite Ep, Eq. cbn [mbind result_bind].
  rewrite (proj2 (compareNodeAddr_Ok rp rq _) (conj Lp (conj Lq eq_refl))). cbn [mbind result_bind].
  pose proof (Z.sgn_spec (be_val rp - be_val rq)) as Hs.
  set (lp := len (pt_ancestry (snd p))) in *. set (lq := len (pt_ancestry (snd q))) in *.
  destruct (Z.eqb_spec (Z.sgn (be_val rp - be_val rq)) 0) as [E|E]; cbn [negb].
  - destruct (Z.eqb_spec (lp - lq) 0) as [E2|E2]; cbn [negb]; eexists; (split; [reflexivity|]); split; intros Hc;
      [exists rp, rq|exists rq, rp|exists rp, rq|exists rq, rp]; (split; [done|split; [done|]]); fold lp lq; lia.
  - eexists. split; [reflexivity|]. split; intros Hc; [exists rp, rq|exists rq, rp];
      (split; [done|split; [done|]]); fold lp lq; lia.
Qed.

(** The first of a sorted list is the best. *)
Definition sorted_from (l : list (string * PeerTreeState)) : Prop :=
  match l with [] => True | x :: _ => forall y, y ∈ l -> rank_le x y end.

Lemma sort_insert_run x l :
  path_ok (pt_ancestry (snd x)) -> (forall y, y ∈ l -> path_ok (pt_ancestry (snd y))) -> sorted_from l ->
  exists l', sort_insert compare_candidates x l = Ok l' /\ (forall y, y ∈ l' <-> y = x \/ y ∈ l) /\ sorted_from l'.
Proof.
  intros Hx Hl Hs. assert (Hins : exists l', sort_insert compare_candidates x l = Ok l' /\
    (forall y, y ∈ l' <-> y = x \/ y ∈ l) /\ (head l' = Some x \/ head l' = head l) /\
    (head l' = Some x -> forall z, head l = Some z -> rank_le x z \/ x = z) /\
    (head l' = head l -> forall z, head l = Some z -> rank_le z x)).
  { clear Hs. induction l as [|y l IH]; cbn [sort_insert].
    - exists [x]. split; [done|]. split; [set_solver|]. split; [by left|]. by split.
    - destruct (compare_candidates_run x y) as (c & -> & Hlt & Hge); [done|apply Hl; left|].
      cbn [mbind result_bind]. destruct (Z.ltb_spec c 0).
      + exists (x :: y :: l). split; [done|]. split; [set_solver|]. split; [by left|].
        split; [intros _ z [= <-]; left; auto|]. cbn. intros [= ->] z [= <-]. apply rank_le_refl, Hl. left.
      + destruct IH as (l' & -> & Hin & _); [intros; apply Hl; by right|]. cbn [mbind result_bind].
        exists (y :: l'). split; [done|]. split; [intros z; rewrite !elem_of_cons, Hin; tauto|].
        split; [by right|]. split; [cbn; intros [= ->] z [= <-]; by right|]. intros _ z [= <-]. auto. }
  destruct Hins as (l' & E & Hin & Hhd & Hx1 & Hx2). exists l'. split; [done|]. split; [done|].
  destruct l' as [|h l']; [done|]. cbn [sorted_from]. intros y Hy. apply Hin in Hy.
  assert (Hhx : forall z, z = x \/ z ∈ l -> path_ok (pt_ancestry (snd z))) by (intros z [-> |]; auto).
  cbn in Hhd, Hx1, Hx2. destruct l as [|z l].
  - assert (h = x) as -> by (destruct Hhd as [[= ->]|]; done). destruct Hy as [->|Hy]; [by apply rank_le_refl|].
    by apply not_elem_of_nil in Hy.
  - cbn in Hhd, Hx1, Hx2. cbn [sorted_from] in Hs. destruct Hhd as [[= ->]|[= ->]].
    + destruct Hy as [->|Hy]; [by apply rank_le_refl|].
      destruct (Hx1 eq_refl z eq_refl) as [Hr | ->]; [|by apply Hs]. eapply rank_le_trans; [exact Hr|by apply Hs].
    + destruct Hy as [->|Hy]; [by apply Hx2|by apply Hs].
Qed.

Lemma sort_run xs : (forall y, y ∈ xs -> path_ok (pt_ancestry (snd y))) ->
  exists l, sort compare_candidates xs = Ok l /\ (forall y, y ∈ l <-> y ∈ xs) /\ sorted_from l.
Proof.
  intros Hxs. unfold sort. assert (H : forall sorted, (forall y, y ∈ sorted -> path_ok (pt_ancestry (snd y))) ->
    sorted_from sorted -> exists l, sort_onto compare_candidates xs sorted = Ok l /\
      (forall y, y ∈ l <-> y ∈ xs \/ y ∈ sorted) /\ sorted_from l).
  { induction xs as [|x xs IH]; intros sorted Hok Hs.
    - exists sorted. split; [done|]. split; [|done]. intros y. rewrite elem_of_nil. tauto.
    - cbn [sort_onto]. destruct (sort_insert_run x sorted) as (s' & -> & Hin & Hs'); [apply Hxs; left|done|done|].
      cbn [mbind result_bind]. destruct (IH ltac:(intros; apply Hxs; by right) s') as (l & -> & Hl & Hsl); [|done|].
      + intros y [->|Hy]%Hin; [apply Hxs; left|auto].
      + exists l. split; [done|]. split; [|done]. intros y. rewrite Hl, Hin, elem_of_cons. tauto. }
  destruct (H []) as (l & E & Hl & Hs); [by intros y ?%not_elem_of_nil|done|].
  exists l. split; [done|]. split; [|done]. intros y. rewrite Hl, elem_of_nil. tauto.
Qed.

Section Election.
Context `{Noble}.
Import TreeState.

Definition self (s : t) : NodeAddr := nodeAddr (identity s).

(** The peers through which no path leads back to the node. *)
Definition candidate (s : t) (p : string * PeerTreeState) : Prop :=
  p ∈ peers s /\ (self s ∉ addrs (pt_ancestry (snd p))).

(** The state is what the election demands of its peers: the node is a root if
    no candidate has a smaller root than itself; otherwise it hangs below the
    candidate with the smallest root, and the shortest path to it. *)
Definition elected (s : t) : Prop :=
  (addrs (ancestry s) = [self s] /\ parent s = self s /\
     forall p r, candidate s p -> path_root (pt_ancestry (snd p)) = Some r -> be_val (self s) <= be_val r) \/
  (exists p r, candidate s p /\ path_root (pt_ancestry (snd p)) = Some r /\ be_val r < be_val (self s) /\
     addrs (ancestry s) = self s :: addrs (pt_ancestry (snd p)) /\
     head (addrs (pt_ancestry (snd p))) = Some (parent s) /\
     forall q, candidate s q -> rank_le p q).

Record tree_ok (s : t) : Prop := {
  to_self : len (self s) = 16;
  to_peers : forall p, p ∈ peers s -> path_ok (pt_ancestry (snd p));
  to_elected : elected s;
}.

Lemma sameCoords_spec a b : sameCoords a b = true <-> addrs a = addrs b.
Proof.
  unfold sameCoords, addrs. revert b. induction a as [|x a IH]; intros [|y b].
  - by split.
  - split; [|done]. rewrite andb_true_iff. intros [E _]. apply Z.eqb_eq in E. rewrite len_cons in E.
    pose proof (len_nonneg b). change (len (@nil TreeCoordEntry)) with 0 in E. lia.
  - split; [|done]. rewrite andb_true_iff. intros [E _]. apply Z.eqb_eq in E. rewrite len_cons in E.
    pose proof (len_nonneg a). change (len (@nil TreeCoordEntry)) with 0 in E. lia.
  - cbn [zip zip_with forallb fst snd map]. specialize (IH b). rewrite andb_true_iff, Z.eqb_eq in IH.
    rewrite andb_true_iff, andb_true_iff, bytesEqual_true, Z.eqb_eq, !len_cons. split.
    + intros (? & -> & ?). f_equal. apply IH. split; [lia|done].
    + intros [= -> E]. apply IH in E as [? ?]. split; [lia|done].
Qed.

(** What an evaluation does, whatever the state was before. *)
Lemma evaluateParent_run now s :
  len (self s) = 16 -> (forall p, p ∈ peers s -> path_ok (pt_ancestry (snd p))) ->
  exists b s', evaluateParent now s = (Ok b, s') /\ elected s' /\ peers s' = peers s /\ identity s' = identity s /\
    (if b then sequence s' = sequence s + 1 /\ timestamp s' = now /\
               (parent s' <> parent s \/ coords s' <> coords s) else s' = s).
Proof.
  intros Hl Hp. unfold evaluateParent. rewrite ST_get_bind. fold (self s).
  set (cands := base.filter (fun p => ~ (self s ∈ addrs (pt_ancestry (snd p)))) (peers s)).
  assert (Hc : forall p, p ∈ cands <-> candidate s p).
  { intros p. unfold cands, candidate. rewrite list_elem_of_filter. tauto. }
  destruct (sort_run cands) as (l & El & Hin & Hs); [intros p ?%Hc; by apply Hp, H0|].
  erewrite ST_lift_bind by exact El.
  assert (Hnext : exists np na, match l with
    | [] => Ok (self s, [selfEntry s])
    | best :: _ =>
        r ← root_of (pt_ancestry (snd best));
        c ← compareNodeAddr (self s) r;
        if c <=? 0 then Ok (self s, [selfEntry s])
        else match pt_ancestry (snd best) with
             | [] => Throw (TypeError "Cannot read properties of undefined")
             | first :: _ => Ok (te_nodeAddr first, selfEntry s :: pt_ancestry (snd best))
             end
    end = Ok (np, na) /\ (exists rest, na = selfEntry s :: rest) /\
    forall s', identity s' = identity s -> peers s' = peers s -> parent s' = np -> addrs (ancestry s') = addrs na ->
      elected s').
  { assert (Hroot : (forall p r, candidate s p -> path_root (pt_ancestry (snd p)) = Some r -> be_val (self s) <= be_val r) ->
      forall s', identity s' = identity s -> peers s' = peers s -> parent s' = self s ->
        addrs (ancestry s') = addrs [selfEntry s] -> elected s').
    { intros Hmin s' E1 E2 E3 E4. left. unfold self in *. rewrite E1. split; [exact E4|]. split; [done|].
      intros p r [Hpp Hns] Hr. unfold self in *. rewrite E1 in Hns. rewrite E2 in Hpp. by apply (Hmin p). }
    destruct l as [|best l].
    - exists (self s), [selfEntry s]. split; [done|]. split; [by exists []|]. apply Hroot.
      intros p r Hcp _. apply Hc, Hin in Hcp. by apply not_elem_of_nil in Hcp.
    - assert (Hb : candidate s best) by (apply Hc, Hin; left). cbn [sorted_from] in Hs.
      destruct (path_ok_root _ (Hp best (proj1 Hb))) as (r & Hr & -> & Lr & _). cbn [mbind result_bind].
      rewrite (proj2 (compareNodeAddr_Ok (self s) r _) (conj Hl (conj Lr eq_refl))). cbn [mbind result_bind].
      pose proof (Z.sgn_spec (be_val (self s) - be_val r)) as Hsg.
      destruct (Z.leb_spec (Z.sgn (be_val (self s) - be_val r)) 0) as [Hle|Hgt].
      + exists (self s), [selfEntry s]. split; [done|]. split; [by exists []|]. apply Hroot.
        intros p rp Hcp Hrp. apply Hc, Hin, Hs in Hcp as (r1 & r2 & Hr1 & Hr2 & Hrk).
        rewrite Hr in Hr1. rewrite Hrp in Hr2. injection Hr1 as <-. injection Hr2 as <-. lia.
      + destruct (pt_ancestry (snd best)) as [|first rest] eqn:Ea; [done|].
        exists (te_nodeAddr first), (selfEntry s :: first :: rest). split; [done|]. split; [by eexists|].
        intros s' E1 E2 E3 E4. right. exists best, r. rewrite Ea. unfold candidate, self in *. rewrite E1, E2, E3, E4.
        split; [by rewrite Ea in *|]. split; [done|]. split; [lia|]. split; [done|]. split; [done|].
        intros q Hq. apply Hs, Hin, Hc. exact Hq. }
  destruct Hnext as (np & na & -> & [rest Hna] & Hel). erewrite ST_lift_bind by done. cbv beta iota.
  destruct (bytesEqual (parent s) np && sameCoords (ancestry s) na) eqn:Eb.
  - apply andb_true_iff in Eb as [Ep%bytesEqual_true Ec%sameCoords_spec].
    exists false, s. split; [done|]. split; [by apply Hel|]. done.
  - rewrite !ST_modify_bind. eexists true, _. split; [reflexivity|].
    assert (Ha : addrs (<[0%nat:=selfEntry (mk (identity s) (sequence s + 1) now np na (peers s))]> na) = addrs na)
      by (by rewrite Hna).
    split; [by apply Hel|]. split; [done|]. split; [done|]. split; [done|]. split; [done|].
    cbn [parent coords ancestry]. unfold coords. cbn [ancestry]. rewrite Ha.
    apply andb_false_iff in Eb as [Ep|Ec].
    + left. intros ->. by rewrite bytesEqual_refl in Ep.
    + right. intros E. assert (sameCoords (ancestry s) na = true) by (by apply sameCoords_spec). congruence.
Qed.

(** ** Operations on a tree state *)

Inductive tree_step : t -> t -> Prop :=
| step_update addr ann now s b s' :
    ancestry_valid ann -> updatePeer addr ann now s = (Ok b, s') -> tree_step s s'
| step_remove addr now s b s' : removePeer addr now s = (Ok b, s') -> tree_step s s'
| step_reset now s s' : reset now s = (Ok tt, s') -> tree_step s s'.

(** What every operation does: it evaluates the election for some set of peers,
    or changes nothing but peers that do not take part. *)
Definition evaluates (s s' : t) : Prop :=
  s' = s \/ exists ps b now, (forall p, p ∈ ps -> path_ok (pt_ancestry (snd p))) /\
    evaluateParent now (mk (identity s) (sequence s) (timestamp s) (parent s) (ancestry s) ps) = (Ok b, s').

Lemma set_path_ok (ps : list (string * PeerTreeState)) k v :
  (forall p, p ∈ ps -> path_ok (pt_ancestry (snd p))) -> path_ok (pt_ancestry v) ->
  forall p, p ∈ JsMap.set_ ps k v -> path_ok (pt_ancestry (snd p)).
Proof.
  intros Hps Hv. induction ps as [|[k' v'] ps IH]; cbn [JsMap.set_]; intros p Hp.
  - apply elem_of_cons in Hp as [->|Hp]; [done|by apply not_elem_of_nil in Hp].
  - destruct (decide (k = k')).
    + apply elem_of_cons in Hp as [->|Hp]; [done|]. apply Hps. by right.
    + apply elem_of_cons in Hp as [->|Hp]; [apply Hps; left|]. apply IH; [|done]. intros q Hq. apply Hps. by right.
Qed.

Lemma step_evaluates s s' : tree_ok s -> tree_step s s' -> evaluates s s'.
Proof.
  intros Hok. destruct 1 as [addr ann now s b s' Ha E|addr now s b s' E|now s s' E].
  - unfold updatePeer in E. destruct (nodeAddrToHex addr) as [key|e]; [|done]. erewrite ST_lift_bind in E by done.
    rewrite ST_get_bind in E.
    match type of E with (if ?c then _ else _) _ = _ => destruct c end; [injection E as <- <-; by left|].
    rewrite ST_modify_bind in E. right. eexists _, b, now. split; [|exact E].
    apply set_path_ok; [apply Hok|by apply announced_path_ok].
  - unfold removePeer in E. destruct (nodeAddrToHex addr) as [key|e]; [|done]. erewrite ST_lift_bind in E by done.
    rewrite ST_get_bind, ST_modify_bind in E. destruct (JsMap.has_ (peers s) key) eqn:Eh.
    + right. eexists _, b, now. split; [|exact E]. intros p [_ Hp]%list_elem_of_filter. by apply Hok.
    + injection E as <- <-. left. destruct s as [i sq ts pa an ps]. cbn in *. f_equal. unfold JsMap.delete_.
      unfold JsMap.has_ in Eh. apply bool_decide_eq_false in Eh. clear -Eh.
      induction ps as [|[k v] ps IH]; [done|]. cbn [JsMap.get_] in Eh. rewrite filter_cons. cbn [fst].
      destruct (decide (key = k)); [destruct Eh; by eexists|]. rewrite decide_True by done. by rewrite IH.
  - unfold reset in E. rewrite ST_modify_bind in E. apply ST_bind_inv in E as (b & s1 & E & E2).
    injection E2 as ->. right. eexists _, b, now. split; [|exact E]. by intros p ?%not_elem_of_nil.
Qed.

Lemma tree_ok_new id now : len (nodeAddr id) = 16 -> tree_ok (new id now).
Proof.
  intros Hl. split; [done|by intros p ?%not_elem_of_nil|]. left. split; [done|]. split; [done|].
  by intros p r [?%not_elem_of_nil _].
Qed.

Lemma step_tree_ok s s' : tree_ok s -> tree_step s s' -> tree_ok s' /\ identity s' = identity s.
Proof.
  intros Hok Hst. destruct (step_evaluates s s' Hok Hst) as [->|(ps & b & now & Hps & E)]; [done|].
  set (s1 := mk _ _ _ _ _ ps) in E.
  destruct (evaluateParent_run now s1) as (b' & s2 & E2 & Hel & Hpe & Hid & _); [apply Hok|done|].
  rewrite E2 in E. injection E as <- <-. split; [|by rewrite Hid]. split.
  - unfold self. rewrite Hid. apply Hok.
  - by rewrite Hpe.
  - done.
Qed.

Lemma announce_valid s a : tree_ok s -> announce s = Ok a -> validateTreeAnnounceSemantics a = Ok tt.
Proof.
  intros [Hl Hp He] Ha. unfold announce, buildTreeAnnounce in Ha.
  apply result_bind_ok in Ha as (decl & _ & (sg & _ & [= <-])%result_bind_ok).
  assert (Hpa : len (parent s) = 16 /\ ancestry_valid (mkAnnounce (sequence s) (timestamp s) (parent s) (ancestry s) sg)).
  { unfold ancestry_valid. cbn [ta_ancestry ta_parent]. destruct He as [(Ec & -> & _)|(p & r & [Hin Hns] & Hr & Hlt & Ec & Hh & _)].
    - split; [done|]. destruct (ancestry s) as [|e [|]]; try discriminate Ec. injection Ec as Ec.
      exists e, []. split; [done|]. assert (Hone : forall x, x ∈ [e] -> x = e) by (intros x Hx; set_solver).
      split; [intros x ->%Hone; by rewrite Ec|]. split; [by left|].
      intros x r ->%Hone [= <-]. lia.
    - destruct (path_ok_root _ (Hp p Hin)) as (r' & Hr' & _ & Lr & Hm). rewrite Hr in Hr'. injection Hr' as <-.
      destruct (ancestry s) as [|e es] eqn:Ea; [done|]. injection Ec as Ee Ees.
      destruct (pt_ancestry (snd p)) as [|f fs] eqn:Ef; [done|]. cbn in Hh. injection Hh as Hh.
      destruct es as [|e2 es]; [done|]. assert (Heq : addrs (e2 :: es) = addrs (f :: fs)) by exact Ees.
      injection Ees as Ee2 _.
      assert (Hmem : forall x, x ∈ e :: e2 :: es -> te_nodeAddr x = self s \/ exists y, y ∈ f :: fs /\ te_nodeAddr x = te_nodeAddr y).
      { intros x [->|Hx]%elem_of_cons; [by left|]. right.
        assert (te_nodeAddr x ∈ addrs (f :: fs)) as Hx'.
        { rewrite <- Heq. by apply list_elem_of_fmap_2. }
        apply list_elem_of_fmap in Hx' as (y & -> & Hy). by exists y. }
      assert (Hroot : path_root (e :: e2 :: es) = Some r).
      { rewrite <- Hr. unfold path_root. change (last (e :: e2 :: es)) with (last (e2 :: es)).
        rewrite <- !fmap_last. change (te_nodeAddr <$> e2 :: es) with (addrs (e2 :: es)).
        change (te_nodeAddr <$> f :: fs) with (addrs (f :: fs)). by rewrite Heq. }
      split; [rewrite <- Hh; apply Hm; left|].
      exists e, (e2 :: es). split; [done|]. split; [|split].
      + intros x [Hx|(y & Hy & Hx)]%Hmem; rewrite Hx; [done|by apply Hm].
      + right. split; [|cbn; by rewrite Ee2, Hh]. rewrite Ee, <- Hh. intros Eq. apply Hns. rewrite Eq.
        apply list_elem_of_fmap. exists f. split; [done|left].
      + intros x root [Hx|(y & Hy & Hx)]%Hmem Hrt; rewrite Hroot in Hrt; injection Hrt as <-; rewrite Hx; [lia|by apply Hm]. }
  destruct Hpa as [Lp Hv]. by apply validate_Ok.
Qed.

Lemma updatePeer_runs s addr a now : tree_ok s -> len addr = 16 -> ancestry_valid a -> exists b s', updatePeer addr a now s = (Ok b, s').
Proof.
  intros Hok La Ha. unfold updatePeer. erewrite ST_lift_bind by (by apply nodeAddrToHex_Ok).
  rewrite ST_get_bind. match goal with |- context [if ?c then mret false else _] => destruct c end; [by eexists _, _|].
  rewrite ST_modify_bind. match goal with |- exists b s', evaluateParent _ ?s1 = _ =>
    destruct (evaluateParent_run now s1) as (b & s' & E & _) end; [apply Hok| |by exists b, s'].
  apply set_path_ok; [apply Hok|by apply announced_path_ok].
Qed.

Lemma removePeer_runs s addr now : tree_ok s -> len addr = 16 -> exists b s', removePeer addr now s = (Ok b, s').
Proof.
  intros Hok La. unfold removePeer. erewrite ST_lift_bind by (by apply nodeAddrToHex_Ok).
  rewrite ST_get_bind, ST_modify_bind. destruct (JsMap.has_ _ _); [|by eexists _, _].
  match goal with |- exists b s', evaluateParent _ ?s1 = _ =>
    destruct (evaluateParent_run now s1) as (b & s' & E & _) end; [apply Hok| |by exists b, s'].
  intros p [_ Hp]%list_elem_of_filter. by apply Hok.
Qed.

(** Wherever announcements, departures and resets take a node, its place in
    the tree is the one its peers' announcements call for: it is a root exactly
    when no loop-free peer offers a smaller root, and otherwise hangs below a
    peer with the smallest root and the shortest path to it, never below a peer
    whose path leads back to itself. Every announcement it makes passes the
    validation of its peers, every operation on a valid announcement returns,
    and an operation changes parent or coordinates exactly when it increments
    the sequence number. *)
Lemma tree_state_elects id now s :
  len (nodeAddr id) = 16 -> rtc tree_step (new id now) s ->
  elected s /\ identity s = id /\
  (forall a, announce s = Ok a -> validateTreeAnnounceSemantics a = Ok tt) /\
  (forall addr a now, len addr = 16 -> ancestry_valid a -> exists b s', updatePeer addr a now s = (Ok b, s')) /\
  (forall addr now, len addr = 16 -> exists b s', removePeer addr now s = (Ok b, s')) /\
  (forall s', tree_step s s' ->
     (parent s' = parent s /\ coords s' = coords s /\ sequence s' = sequence s) \/
     ((parent s' <> parent s \/ coords s' <> coords s) /\ sequence s' = sequence s + 1)).
Proof.
  intros Hl Hr. assert (Hok : tree_ok s /\ identity s = id).
  { apply (rtc_invariant tree_step (fun s => tree_ok s /\ identity s = id) (new id now) s); [|split; [by apply tree_ok_new|done]|done].
    intros x y [Hx Hid] Hst. destruct (step_tree_ok x y Hx Hst) as [? E]. split; [done|congruence]. }
  destruct Hok as [Hok Hid]. split; [apply Hok|]. split; [done|]. split; [intros a; by apply announce_valid|].
  split; [|split].
  - intros addr a now' La Ha. by apply updatePeer_runs.
  - intros addr now' La. by apply removePeer_runs.
  - intros s' Hst. destruct (step_evaluates s s' Hok Hst) as [->|(ps & b & n & Hps & E)]; [by left|].
    match type of E with evaluateParent _ ?s1 = _ =>
      destruct (evaluateParent_run n s1) as (b' & s2 & E2 & _ & _ & _ & Hb) end; [apply Hok|done|].
    rewrite E2 in E. injection E as <- <-. destruct b'; [|left; by rewrite Hb]. right. by destruct Hb as (-> & _ & Hb).
Qed.
End Election.

(** ** Distances in the tree *)

Lemma common_app l m : common_loop l (l ++ m) = len l.
Proof.
  induction l as [|x l IH]; [by destruct m|]. cbn [app common_loop]. rewrite bytesEqual_refl, IH, len_cons. done.
Qed.

Lemma common_refl l : common_loop l l = len l.
Proof. rewrite <- (app_nil_r l) at 2. apply common_app. Qed.

Lemma common_bounds l m : 0 <= common_loop l m <= len l /\ common_loop l m <= len m.
Proof.
  revert m. induction l as [|x l IH]; intros [|y m]; cbn [common_loop]; rewrite ?len_cons;
    try (pose proof (len_nonneg l)); try (pose proof (len_nonneg m)); change (len (@nil NodeAddr)) with 0; try lia.
  specialize (IH m). destruct (bytesEqual x y); lia.
Qed.

Lemma common_comm l m : common_loop l m = common_loop m l.
Proof.
  revert m. induction l as [|x l IH]; intros [|y m]; cbn [common_loop]; try done.
  rewrite !bytesEqual_spec, IH. by rewrite (bool_decide_ext (x = y) (y = x)) by done.
Qed.

(** One more entry at the far end is common or makes no difference. *)
Lemma common_snoc l x m :
  ((exists m', m = l ++ x :: m') /\ common_loop (l ++ [x]) m = len l + 1) \/ common_loop (l ++ [x]) m = common_loop l m.
Proof.
  revert m. induction l as [|y l IH]; intros [|z m]; cbn [app common_loop]; try (by right).
  - destruct (bytesEqual x z) eqn:E; [|by right]. apply bytesEqual_true in E as ->. left. split; [by exists m|].
    done.
  - destruct (bytesEqual y z) eqn:E; [|by right]. apply bytesEqual_true in E as ->. rewrite len_cons.
    destruct (IH m) as [[[m' ->] ->]| ->]; [left; split; [by exists m'|lia]|by right].
Qed.

(** Two paths to the same root. *)
Definition same_root (a b : list NodeAddr) : Prop := exists r, last a = Some r /\ last b = Some r.

Lemma treeDistance_run a b : same_root a b ->
  treeDistance a b = Some (len a + len b - 2 * common_loop (reverse a) (reverse b)).
Proof. intros (r & Ha & Hb). unfold treeDistance. by rewrite Ha, Hb, bytesEqual_refl. Qed.

Lemma treeDistance_bounds a b d : treeDistance a b = Some d -> 0 <= d.
Proof.
  unfold treeDistance. destruct (last a), (last b); try done. destruct (bytesEqual _ _); [|done]. intros [= <-].
  pose proof (common_bounds (reverse a) (reverse b)) as [[_ H1] H2]. unfold len in *. rewrite !length_reverse in *. lia.
Qed.

(** The next step on the way: up, unless the destination is below; otherwise
    down to the child that is above it. *)
Lemma tree_step_closer x a b : same_root (x :: a) b -> x :: a <> b ->
  (a <> [] /\ exists d, treeDistance (x :: a) b = Some d /\ treeDistance a b = Some (d - 1)) \/
  (exists y c d, b = c ++ y :: x :: a /\ treeDistance (x :: a) b = Some d /\ treeDistance (y :: x :: a) b = Some (d - 1)).
Proof.
  intros Hr Hne. pose proof (treeDistance_run _ _ Hr) as Hd. destruct Hr as (r & Ha & Hb).
  rewrite reverse_cons in Hd.
  assert (Hrev : forall l : list NodeAddr, len (reverse l) = len l) by (intros l; unfold len; by rewrite length_reverse).
  destruct (common_snoc (reverse a) x (reverse b)) as [[[m' Em] Ec]|Ec].
  - right. assert (Eb : b = reverse m' ++ x :: a).
    { rewrite <- (reverse_involutive b), Em, reverse_app, reverse_cons, reverse_involutive. by rewrite <- app_assoc. }
    destruct m' as [|y m']; [by rewrite Eb in Hne|]. rewrite reverse_cons, <- app_assoc in Eb. cbn [app] in Eb.
    exists y, (reverse m'). eexists. split; [exact Eb|]. split; [exact Hd|]. rewrite Ec, Hrev.
    rewrite treeDistance_run by (exists r; by rewrite Hb; split; [cbn; cbn in Ha|]).
    rewrite Em, !reverse_cons. rewrite <- (app_assoc (reverse a)). cbn [app].
    replace (reverse a ++ x :: y :: m') with ((reverse a ++ [x; y]) ++ m') by (by rewrite <- app_assoc).
    rewrite common_app, len_app, !len_cons, Hrev. change (len (@nil NodeAddr)) with 0. f_equal. lia.
  - left. assert (Hna : a <> []).
    { intros ->. cbn in Ha. injection Ha as ->. cbn [reverse rev_append common_loop app] in Ec.
      destruct (reverse b) as [|z m] eqn:Erb.
      - apply (f_equal reverse) in Erb. rewrite reverse_involutive in Erb. by rewrite Erb in Hb.
      - apply (f_equal reverse) in Erb. rewrite reverse_involutive, reverse_cons in Erb. rewrite Erb, last_snoc in Hb.
        injection Hb as ->. rewrite bytesEqual_refl in Ec. cbn [common_loop] in Ec. pose proof (common_bounds [] m). lia. }
    split; [done|]. eexists. split; [exact Hd|]. rewrite treeDistance_run.
    + rewrite Ec, len_cons. f_equal. lia.
    + exists r. split; [|done]. destruct a; [done|exact Ha].
Qed.

(** Tree distance is the metric of the tree: symmetric, zero exactly between
    equal paths, defined exactly between paths to the same root; and from every
    path there is a neighbour, the parent or a child, that is exactly one step
    closer to any other path. *)
Lemma tree_distance_metric (a b : list NodeAddr) :
  treeDistance a b = treeDistance b a /\
  ((exists d, treeDistance a b = Some d) <-> same_root a b) /\
  (forall d, treeDistance a b = Some d -> 0 <= d /\ (d = 0 <-> a = b)) /\
  (same_root a b -> a <> b -> exists c d, treeDistance a b = Some d /\ treeDistance c b = Some (d - 1) /\
     (c = tl a \/ exists y, c = y :: a)).
Proof.
  assert (Hiff : (exists d, treeDistance a b = Some d) <-> same_root a b).
  { split; [|intros H; eexists; by apply treeDistance_run]. unfold treeDistance, same_root.
    intros [d Hd]. destruct (last a) as [x|], (last b) as [y|]; try done.
    destruct (bytesEqual x y) eqn:E; [|done]. apply bytesEqual_true in E as ->. by exists y. }
  assert (Hprog : same_root a b -> a <> b -> exists c d, treeDistance a b = Some d /\ treeDistance c b = Some (d - 1) /\
     (c = tl a \/ exists y, c = y :: a)).
  { intros Hr Hne. destruct a as [|x a]; [by destruct Hr as (? & ? & _)|].
    destruct (tree_step_closer x a b Hr Hne) as [(_ & d & H1 & H2)|(y & c & d & -> & H1 & H2)].
    - exists a, d. split; [done|]. split; [done|]. by left.
    - exists (y :: x :: a), d. split; [done|]. split; [done|]. right. by exists y. }
  split; [|split; [done|split; [|done]]].
  - unfold treeDistance. destruct (last a) as [x|], (last b) as [y|]; try done.
    rewrite !bytesEqual_spec, (bool_decide_ext (x = y) (y = x)) by done. case_bool_decide; [|done].
    rewrite common_comm. f_equal. lia.
  - intros d Hd. pose proof (treeDistance_bounds _ _ _ Hd). split; [done|]. split.
    + intros ->. destruct (decide (a = b)) as [|Hne]; [done|].
      destruct (Hprog (proj1 Hiff (ex_intro _ 0 Hd)) Hne) as (c & d & H1 & H2 & _). rewrite Hd in H1. injection H1 as <-.
      apply treeDistance_bounds in H2. lia.
    + intros ->. rewrite treeDistance_run in Hd by (by apply Hiff; eexists). rewrite common_refl in Hd.
      injection Hd as <-. unfold len. rewrite length_reverse. lia.
Qed.

(** ** Greedy forwarding *)

(** One candidate for the next hop is better than another. *)
Definition beats (p q : string * distance) : Prop :=
  dist_ltb (snd p) (snd q) = true \/ (snd p = snd q /\ String.ltb (fst p) (fst q) = true).

Lemma dist_ltb_trans a b c : dist_ltb a b = true -> dist_ltb b c = true -> dist_ltb a c = true.
Proof. destruct a, b, c; cbn; try done. rewrite !Z.ltb_lt. lia. Qed.

Lemma dist_eqb_spec a b : dist_eqb a b = true <-> a = b.
Proof. destruct a, b; cbn; rewrite ?Z.eqb_eq; split; naive_solver. Qed.

Lemma beats_trans p q r : beats p q -> beats q r -> beats p r.
Proof.
  intros [H1|[E1 H1]] [H2|[E2 H2]].
  - left. by eapply dist_ltb_trans.
  - left. by rewrite <- E2.
  - left. by rewrite E1.
  - right. split; [congruence|]. by eapply string_ltb_trans.
Qed.

Section Greedy.
Context (my : distance) (dest : list NodeAddr) (eligible : string -> bool).

Definition hop_of (p : string * PeerTreeState) : string * distance :=
  (fst p, treeDistance (addrs (pt_ancestry (snd p))) dest).

(** A peer that may be used and is closer to the destination. *)
Definition usable_peer (p : string * PeerTreeState) : Prop :=
  eligible (fst p) = true /\ dist_ltb (snd (hop_of p)) my = true.

(** The result of the loop over [ps]. *)
Definition best_of (ps : list (string * PeerTreeState)) (best : option (string * distance)) : Prop :=
  match best with
  | None => forall p, p ∈ ps -> ~ usable_peer p
  | Some h => (exists p, p ∈ ps /\ usable_peer p /\ h = hop_of p) /\
              forall p, p ∈ ps -> usable_peer p -> ~ beats (hop_of p) h
  end.

Lemma beats_irrefl h : ~ beats h h.
Proof.
  destruct h as [k d]. intros [H|[_ H]]; cbn in H.
  - destruct d; cbn in H; [|done]. apply Z.ltb_lt in H. lia.
  - unfold String.ltb in H. assert (E : String.compare k k = Eq); [|by rewrite E in H].
    clear. induction k as [|c k IH]; [done|]. cbn. unfold Ascii.compare. by rewrite N.compare_refl.
Qed.

Lemma better_run ps best p : best_of ps best -> best_of (ps ++ [p]) (TreeState.better my dest eligible best p).
Proof.
  intros Hb. unfold TreeState.better.
  assert (Hskip : ~ usable_peer p -> best_of (ps ++ [p]) best).
  { intros Hp. destruct best as [h|].
    - destruct Hb as [(q & Hq & Hu & E) Hm]. split.
      + exists q. split; [apply elem_of_app; by left|done].
      + intros r [Hr|Hr]%elem_of_app Hur; [by apply Hm|]. apply elem_of_cons in Hr as [->|Hr]; [done|].
        by apply not_elem_of_nil in Hr.
    - intros r [Hr|Hr]%elem_of_app; [by apply Hb|]. apply elem_of_cons in Hr as [->|Hr]; [done|].
      by apply not_elem_of_nil in Hr. }
  destruct (eligible (fst p)) eqn:Ee; cbn [negb]; [|apply Hskip; by intros [? _]; congruence].
  destruct (dist_ltb _ my) eqn:Ed; cbn [negb]; [|apply Hskip; by intros [_ ?]; unfold hop_of in *; cbn in *; congruence].
  assert (Hu : usable_peer p) by (by split).
  assert (Hnew : (forall q, q ∈ ps -> usable_peer q -> ~ beats (hop_of q) (hop_of p)) -> best_of (ps ++ [p]) (Some (hop_of p))).
  { intros Hm. split; [exists p; split; [apply elem_of_app; right; left|done]|].
    intros r [Hr|Hr]%elem_of_app Hur; [by apply Hm|]. apply elem_of_cons in Hr as [->|Hr]; [apply beats_irrefl|].
    by apply not_elem_of_nil in Hr. }
  destruct best as [[hex bd]|]; [|apply Hnew; intros q Hq Huq; by destruct (Hb q Hq)].
  destruct Hb as [(q & Hq & Huq & Eq) Hm].
  destruct (dist_ltb (treeDistance (addrs (pt_ancestry (snd p))) dest) bd ||
    (dist_eqb (treeDistance (addrs (pt_ancestry (snd p))) dest) bd && String.ltb (fst p) hex)) eqn:Eb.
  - apply Hnew. intros r Hr Hur Hbeat. apply (Hm r Hr Hur). eapply beats_trans; [exact Hbeat|].
    apply orb_true_iff in Eb as [Eb|[E1 E2]%andb_true_iff]; [by left|]. right. by apply dist_eqb_spec in E1.
  - split; [exists q; split; [apply elem_of_app; by left|done]|].
    intros r [Hr|Hr]%elem_of_app Hur; [by apply Hm|]. apply elem_of_cons in Hr as [->|Hr]; [|by apply not_elem_of_nil in Hr].
    intros [Hl|[E1 E2]]; cbn in *; bool_split; [congruence|]. rewrite E1, E2 in *.
    rewrite (proj2 (dist_eqb_spec bd bd) eq_refl) in *. done.
Qed.

Lemma better_all ps : best_of ps (foldl (TreeState.better my dest eligible) None ps).
Proof.
  induction ps as [|p ps IH] using rev_ind; [by intros p ?%not_elem_of_nil|].
  rewrite foldl_app. by apply better_run.
Qed.
End Greedy.

Lemma nextHop_best s dest eligible :
  TreeState.ancestry s <> [] ->
  exists r, TreeState.nextHop dest eligible s = Ok r /\
    let my := treeDistance (TreeState.coords s) dest in
    match r with
    | Some hex => exists p, p ∈ TreeState.peers s /\ fst p = hex /\ usable_peer my dest eligible p /\
        forall q, q ∈ TreeState.peers s -> usable_peer my dest eligible q -> ~ beats (hop_of dest q) (hop_of dest p)
    | None => ~ same_root (TreeState.coords s) dest \/
        forall p, p ∈ TreeState.peers s -> ~ usable_peer my dest eligible p
    end.
Proof.
  intros Hne. unfold TreeState.nextHop. destruct (last dest) as [r|] eqn:El.
  2:{ exists None. split; [done|]. left. intros (r & _ & Hr). congruence. }
  assert (exists x, last (TreeState.coords s) = Some x /\ TreeState.root s = Ok x) as (x & Hx & ->).
  { unfold TreeState.coords, TreeState.root, root_of, addrs. destruct (last (TreeState.ancestry s)) as [e|] eqn:E.
    - exists (te_nodeAddr e). split; [|done]. change map with (@fmap list list_fmap) . rewrite fmap_last. by rewrite E.
    - by apply last_None in E. }
  cbn [mbind result_bind]. destruct (bytesEqual x r) eqn:Eb; cbn [negb].
  2:{ exists None. split; [done|]. left. intros (r' & H1 & H2). rewrite Hx in H1. rewrite El in H2.
      injection H1 as ->. injection H2 as ->. by rewrite bytesEqual_refl in Eb. }
  eexists. split; [reflexivity|]. cbv zeta.
  pose proof (better_all (treeDistance (TreeState.coords s) dest) dest eligible (TreeState.peers s)) as Hb.
  destruct (foldl _ _ _) as [h|]; cbn [fmap option_fmap option_map]; [|by right].
  destruct Hb as [(p & Hp & Hu & ->) Hm]. by exists p.
Qed.

(** Greedy forwarding picks the eligible peer closest to the destination,
    the smaller key among equals, and only a peer that is strictly closer than
    the node itself, so that a packet never moves away; it finds none only where
    there is none, or where the destination has another root. *)
Lemma tree_next_hop_is_best s dest eligible :
  TreeState.ancestry s <> [] ->
  exists r, TreeState.nextHop dest eligible s = Ok r /\
    let my := treeDistance (TreeState.coords s) dest in
    match r with
    | Some hex => exists p, p ∈ TreeState.peers s /\ fst p = hex /\ usable_peer my dest eligible p /\
        forall q, q ∈ TreeState.peers s -> usable_peer my dest eligible q -> ~ beats (hop_of dest q) (hop_of dest p)
    | None => ~ same_root (TreeState.coords s) dest \/
        forall p, p ∈ TreeState.peers s -> ~ usable_peer my dest eligible p
    end.
Proof. apply nextHop_best. Qed.

(** ** Delivery *)

Section Network.
Context (T : list NodeAddr -> Prop) (net : list NodeAddr -> TreeState.t) (at_ : string -> list NodeAddr).

(** A settled network: the nodes, by their paths to the root, hold the paths
    that their peers have announced ([at_] maps a peer's key to its path), and
    the edges of the tree are links. There may be other links. *)
Record tree_network : Prop := {
  tn_coords a : T a -> a <> [] /\ TreeState.coords (net a) = a;
  tn_peers a p : T a -> p ∈ TreeState.peers (net a) -> T (at_ (fst p)) /\ addrs (pt_ancestry (snd p)) = at_ (fst p);
  tn_parent x a : T (x :: a) -> a <> [] -> exists p, p ∈ TreeState.peers (net (x :: a)) /\ at_ (fst p) = a;
  tn_child c y a : T (c ++ y :: a) -> T a -> exists p, p ∈ TreeState.peers (net a) /\ at_ (fst p) = y :: a;
}.

(** The hops of a packet for [dest] from the node at [a]. *)
Fixpoint follow (fuel : nat) (dest a : list NodeAddr) : option nat :=
  if decide (a = dest) then Some 0%nat else
  match fuel with
  | O => None
  | S fuel =>
      match TreeState.nextHop dest (fun _ => true) (net a) with
      | Ok (Some hex) => S <$> follow fuel dest (at_ hex)
      | _ => None
      end
  end.

(** C19: greedy forwarding delivers: in a settled tree network a packet for any
    node with the same root arrives, after at most as many hops as the two are
    apart in the tree. *)
Theorem tree_greedy_delivers a b d :
  tree_network -> T a -> T b -> treeDistance a b = Some d ->
  exists n, follow (Z.to_nat d) b a = Some n /\ (n <= Z.to_nat d)%nat.
Proof.
  intros Hnet Ha Hb Hd. pose proof (treeDistance_bounds _ _ _ Hd) as Hd0.
  assert (H : forall k a d, T a -> treeDistance a b = Some d -> d <= Z.of_nat k ->
    exists n, follow k b a = Some n /\ (n <= k)%nat); [|apply (H _ a d); [done|done|lia]].
  clear a d Ha Hd Hd0. intros k. induction k as [|k IH]; intros a d Ha Hd Hk.
  all: assert (Hr : same_root a b) by (unfold treeDistance, same_root in *; destruct (last a) as [x|], (last b) as [y|]; try done;
    destruct (bytesEqual x y) eqn:E; [|done]; apply bytesEqual_true in E as ->; by exists y).
  all: cbn [follow]; destruct (decide (a = b)) as [->|Hne]; [exists 0%nat; split; [done|lia]|].
  all: destruct (tn_coords Hnet a Ha) as [Hna Hca]; destruct a as [|x a]; [done|].
  all: pose proof (tree_step_closer x a b Hr Hne) as Hstep.
  { exfalso. destruct Hstep as [(_ & e & H1 & H2)|(y & c & e & _ & H1 & H2)]; rewrite Hd in H1; injection H1 as <-;
      apply treeDistance_bounds in H2; lia. }
  assert (Hex : exists p, p ∈ TreeState.peers (net (x :: a)) /\ treeDistance (addrs (pt_ancestry (snd p))) b = Some (d - 1)).
  { destruct Hstep as [(Hn2 & e & H1 & H2)|(y & c & e & Eb & H1 & H2)]; rewrite Hd in H1; injection H1 as <-.
    - destruct (tn_parent Hnet x a Ha Hn2) as (p & Hp & Hat). exists p. split; [done|].
      destruct (tn_peers Hnet _ p Ha Hp) as [_ ->]. by rewrite Hat.
    - rewrite Eb in Hb. destruct (tn_child Hnet c y (x :: a) Hb Ha) as (p & Hp & Hat). exists p. split; [done|].
      destruct (tn_peers Hnet _ p Ha Hp) as [_ ->]. by rewrite Hat. }
  destruct Hex as (p & Hp & Hpd).
  assert (Hroot : exists r, last b = Some r /\ TreeState.root (net (x :: a)) = Ok r).
  { destruct Hr as (r & H1 & H2). exists r. split; [done|]. rewrite <- Hca in H1.
    unfold TreeState.root, root_of, TreeState.coords, addrs in *.
    change map with (@fmap list list_fmap) in H1. rewrite fmap_last in H1.
    destruct (last (TreeState.ancestry (net (x :: a)))) as [e|]; [|done]. by injection H1 as ->. }
  destruct Hroot as (r & Hlb & Hrt). unfold TreeState.nextHop. rewrite Hlb, Hrt. cbn [mbind result_bind].
  rewrite bytesEqual_refl, Hca. cbn [negb]. rewrite Hd.
  pose proof (better_all (Some d) b (fun _ => true) (TreeState.peers (net (x :: a)))) as Hb'.
  destruct (foldl _ _ _) as [h|]; cbn [fmap option_fmap option_map].
  - destruct Hb' as [(q & Hq & [_ Hu] & ->) _]. cbn [hop_of fst snd] in *.
    destruct (tn_peers Hnet _ q Ha Hq) as [HT Hqa]. rewrite Hqa in Hu.
    destruct (treeDistance (at_ (fst q)) b) as [e|] eqn:Eq; [|done]. cbn in Hu. apply Z.ltb_lt in Hu.
    destruct (IH (at_ (fst q)) e HT Eq) as (n & -> & Hn); [lia|]. exists (S n). split; [done|lia].
  - exfalso. apply (Hb' p Hp). split; [done|]. cbn. rewrite Hpd. cbn. apply Z.ltb_lt. lia.
Qed.
End Network.

(** ** Examples *)

#[local] Existing Instances Toy.noble Toy.hash_laws Toy.aead_laws Toy.dh_laws
  Toy.schnorr_laws Toy.hex_laws.

Definition demo_announce : TreeAnnounce :=
  mkAnnounce 4 9 (replicate 16 x01) [mkEntry (replicate 16 x02) 4 9; mkEntry (replicate 16 x01) 3 8] [].
Definition demo_self : FipsIdentity :=
  {| secretKey := []; publicKey := []; xOnlyPubkey := []; nodeAddr := replicate 16 x05 |}.
Definition demo_tree : TreeState.t :=
  snd (TreeState.updatePeer (replicate 16 x02) demo_announce 77 (TreeState.new demo_self 70)).

Lemma demo_announce_valid : ancestry_valid demo_announce.
Proof. apply (validate_Ok demo_announce tt eq_refl). vm_compute. reflexivity. Qed.

Lemma tree_state_elects_witness :
  elected demo_tree /\ TreeState.coords demo_tree = [replicate 16 x05; replicate 16 x02; replicate 16 x01].
Proof.
  split; [|vm_compute; reflexivity].
  apply (tree_state_elects demo_self 70 demo_tree); [reflexivity|]. apply rtc_once.
  apply (step_update (replicate 16 x02) demo_announce 77 (TreeState.new demo_self 70) true); [apply demo_announce_valid|].
  vm_compute. reflexivity.
Defined.

Lemma tree_next_hop_is_best_witness :
  exists r, TreeState.nextHop [replicate 16 x01] (fun _ => true) demo_tree = Ok r.
Proof.
  destruct (tree_next_hop_is_best demo_tree [replicate 16 x01] (fun _ => true)) as (r & E & _);
    [vm_compute; discriminate|]. exists r. exact E.
Defined.

(** A network of a root and its child. *)
Definition demo_paths : list (list NodeAddr) := [[[x01]]; [[x02]; [x01]]].
Definition demo_node (a : list NodeAddr) : TreeState.t :=
  TreeState.mk demo_self 1 0 [] (map (fun x => mkEntry x 0 0) a)
    (if decide (a = [[x01]]) then [("b"%string, mkPeerTree 1 [] [mkEntry [x02] 0 0; mkEntry [x01] 0 0])]
     else [("a"%string, mkPeerTree 1 [] [mkEntry [x01] 0 0])]).
Definition demo_at (hex : string) : list NodeAddr := if decide (hex = "a"%string) then [[x01]] else [[x02]; [x01]].

Lemma demo_network : tree_network (fun a => a ∈ demo_paths) demo_node demo_at.
Proof.
  assert (Hin : forall a, a ∈ demo_paths -> a = [[x01]] \/ a = [[x02]; [x01]])
    by (intros a Ha; unfold demo_paths in Ha; set_solver).
  split.
  - intros a [-> | ->]%Hin; (split; [done|reflexivity]).
  - intros a p [-> | ->]%Hin Hp; apply elem_of_cons in Hp as [->|Hp]; try (by apply not_elem_of_nil in Hp);
      (split; [apply (bool_decide_unpack _); vm_compute; exact I|reflexivity]).
  - intros x a [[= -> ->]|[= -> ->]]%Hin Ha; [done|].
    exists ("a"%string, mkPeerTree 1 [] [mkEntry [x01] 0 0]). split; [left|reflexivity].
  - intros c y a Hc [-> | ->]%Hin.
    + exists ("b"%string, mkPeerTree 1 [] [mkEntry [x02] 0 0; mkEntry [x01] 0 0]). split; [left|].
      apply Hin in Hc as [E|E]; [by destruct c as [|? [|? []]]|]. destruct c as [|? [|? []]]; by simplify_eq/=.
    + apply Hin in Hc as [E|E]; destruct c as [|? [|? [|? []]]]; by simplify_eq/=.
Qed.

Lemma tree_greedy_delivers_witness :
  exists n, follow demo_node demo_at 1 [[x02]; [x01]] [[x01]] = Some n.
Proof.
  destruct (tree_greedy_delivers (fun a => a ∈ demo_paths) demo_node demo_at [[x01]] [[x02]; [x01]] 1) as (n & E & _);
    [apply demo_network|apply (bool_decide_unpack _); vm_compute; exact I|apply (bool_decide_unpack _); vm_compute; exact I|reflexivity|].
  exists n. exact E.
Defined.
