(* ===== verification/LearnedRoutes.v ===== *)
(** * Learned routes

    [node/LearnedRouteTable.ts]: the routes that replies have taught a node, with
    reinforcement, expiry and smooth weighted round-robin selection. Times are
    the integral milliseconds of [Date.now()]; scores and weights are numbers.
    [Math.pow], which the language leaves to the implementation, is an argument. *)

From S2P Require Import Prelude F64 TreeState.

(** The double nearest to 0.05. *)
Definition MIN_ROUTE_SCORE : F64.t := F64.make 3602879701896397 (-56).
Definition MAX_ROUTE_SCORE : F64.t := F64.of_Z 64.
Definition MAX_ROUTE_WEIGHT : F64.t := F64.of_Z 512.

Record LearnedRoute := mkRoute {
  nextHop : string;
  lastSeenMs : Z;
  expiresAtMs : Z;
  successes : Z;
  failures : Z;
  score : F64.t;
  currentWeight : F64.t;
  selected : Z;
  pathMtu_ : option Z;
  pathMtuExpiresAtMs : option Z;
}.

Definition clamp (value minimum maximum : F64.t) : F64.t := F64.min maximum (F64.max minimum value).

(** The sign of [compareRoutes], which is all that sorting and selecting use. *)
Definition compareRoutes (left right : LearnedRoute) : Z :=
  if negb (F64.eqb (score left) (score right)) then F64.sgn (F64.sub (score right) (score left))
  else if negb (lastSeenMs left =? lastSeenMs right) then lastSeenMs right - lastSeenMs left
  else localeCompare (nextHop left) (nextHop right).

(** The private map [routes]. *)
Abbreviation LearnedRouteTable := (list (string * list LearnedRoute)).

Definition retainLive (routes : list LearnedRoute) (nowMs : Z) : list LearnedRoute :=
  base.filter (fun r => expiresAtMs r > nowMs) routes.

Definition sortAndTruncate (routes : list LearnedRoute) (maximum : Z) : result (list LearnedRoute) :=
  routes ← sort (fun a b => Ok (compareRoutes a b)) routes;
  throw_if (Z.min (len routes) maximum <? 0) (RangeError "Invalid array length");;
  Ok (take (Z.to_nat (Z.min (len routes) maximum)) routes).

(** Change the first route through [hop]. *)
Fixpoint update_route (hop : string) (f : LearnedRoute -> LearnedRoute) (routes : list LearnedRoute) : list LearnedRoute :=
  match routes with
  | [] => []
  | r :: routes => if decide (nextHop r = hop) then f r :: routes else r :: update_route hop f routes
  end.

Definition find_route (hop : string) (routes : list LearnedRoute) : option LearnedRoute :=
  head (base.filter (fun r => nextHop r = hop) routes).

(** An existing route is reinforced. *)
Definition reinforce (nowMs expires : Z) (pathMtu : option Z) (r : LearnedRoute) : LearnedRoute :=
  mkRoute (nextHop r) nowMs expires (successes r + 1) (failures r)
    (clamp (F64.add (score r) (F64.of_Z 1)) MIN_ROUTE_SCORE MAX_ROUTE_SCORE) (currentWeight r) (selected r)
    (match pathMtu with Some m => Some m | None => pathMtu_ r end)
    (match pathMtu with Some _ => Some expires | None => pathMtuExpiresAtMs r end).

Definition learn (destination hop : string) (nowMs ttlSeconds maxRoutesPerDestination : Z) (pathMtu : option Z)
    : ST LearnedRouteTable unit :=
  if bool_decide (destination = hop) || (maxRoutesPerDestination =? 0) then mret tt else
  t ← get;
  let expires := nowMs + ttlSeconds * 1000 in
  let routes := default [] (JsMap.get_ t destination) in
  let routes :=
    match find_route hop routes with
    | Some _ => update_route hop (reinforce nowMs expires pathMtu) routes
    | None => routes ++ [mkRoute hop nowMs expires 1 0 (F64.of_Z 1) (F64.of_Z 0) 0 pathMtu
                           (match pathMtu with None => None | Some _ => Some expires end)]
    end in
  routes ← lift (sortAndTruncate routes maxRoutesPerDestination);
  modify (fun t => JsMap.set_ t destination routes).

Definition pathMtu (destination hop : string) (nowMs : Z) (t : LearnedRouteTable) : option Z :=
  routes ← JsMap.get_ t destination;
  route ← find_route hop routes;
  if default 0 (pathMtuExpiresAtMs route) >? nowMs then pathMtu_ route else None.

Definition penalize (r : LearnedRoute) : LearnedRoute :=
  mkRoute (nextHop r) (lastSeenMs r) (expiresAtMs r) (successes r) (failures r + 1)
    (F64.max (F64.mul (score r) (F64.make 1 (-1))) MIN_ROUTE_SCORE) (F64.min (currentWeight r) (F64.of_Z 0))
    (selected r) (pathMtu_ r) (pathMtuExpiresAtMs r).

Definition recordFailure (destination hop : string) : ST LearnedRouteTable unit :=
  t ← get;
  match JsMap.get_ t destination with
  | None => mret tt
  | Some routes => modify (fun t => JsMap.set_ t destination (update_route hop penalize routes))
  end.

Section Select.
Context (Math_pow : F64.t -> F64.t -> F64.t).

Definition routeWeight (route : LearnedRoute) : F64.t :=
  clamp (Math_pow (clamp (score route) MIN_ROUTE_SCORE MAX_ROUTE_SCORE) (F64.make 3 (-1)))
    MIN_ROUTE_SCORE MAX_ROUTE_WEIGHT.

Definition add_weight (w : F64.t) (r : LearnedRoute) : LearnedRoute :=
  mkRoute (nextHop r) (lastSeenMs r) (expiresAtMs r) (successes r) (failures r) (score r)
    (F64.add (currentWeight r) w) (selected r) (pathMtu_ r) (pathMtuExpiresAtMs r).

(** The loop over [sendable]: the routes and the selected index so far. *)
Fixpoint select_loop (sendable : list (nat * F64.t)) (routes : list LearnedRoute) (sel : nat)
    : list LearnedRoute * nat :=
  match sendable with
  | [] => (routes, sel)
  | (index, weight) :: sendable =>
      let routes := alter (add_weight weight) index routes in
      let sel := match routes !! sel, routes !! index with
        | Some selectedRoute, Some candidateRoute =>
            if F64.ltb (currentWeight selectedRoute) (currentWeight candidateRoute)
               || (F64.eqb (currentWeight candidateRoute) (currentWeight selectedRoute)
                   && (compareRoutes candidateRoute selectedRoute <? 0))
            then index else sel
        | _, _ => sel
        end in
      select_loop sendable routes sel
  end.

Definition choose (total : F64.t) (r : LearnedRoute) : LearnedRoute :=
  mkRoute (nextHop r) (lastSeenMs r) (expiresAtMs r) (successes r) (failures r) (score r)
    (F64.sub (currentWeight r) total) (selected r + 1) (pathMtu_ r) (pathMtuExpiresAtMs r).

Definition selectNextHop (destination : string) (nowMs : Z) (canSend : string -> bool)
    : ST LearnedRouteTable (option string) :=
  t ← get;
  match JsMap.get_ t destination with
  | None => mret None
  | Some routes =>
      let routes := retainLive routes nowMs in
      if len routes =? 0 then modify (fun t => JsMap.delete_ t destination);; mret None else
      modify (fun t => JsMap.set_ t destination routes);;
      let sendable := base.filter (fun c => match routes !! fst c with Some r => canSend (nextHop r) | None => false end = true)
        (imap (fun i r => (i, routeWeight r)) routes) in
      match sendable with
      | [] => mret None
      | (first, _) :: _ =>
          let totalWeight := foldl (fun sum c => F64.add sum (snd c)) (F64.of_Z 0) sendable in
          let '(routes, sel) := select_loop sendable routes first in
          let routes := alter (choose totalWeight) sel routes in
          hop ← lift (match routes !! sel with Some r => Ok (nextHop r)
                      | None => Throw (TypeError "Cannot read properties of undefined") end);
          sorted ← lift (sortAndTruncate routes (len routes));
          modify (fun t => JsMap.set_ t destination sorted);;
          mret (Some hop)
      end
  end.
End Select.

Definition has (destination : string) (nowMs : Z) : ST LearnedRouteTable bool :=
  t ← get;
  match JsMap.get_ t destination with
  | None => mret false
  | Some routes =>
      let routes := retainLive routes nowMs in
      if len routes >? 0 then modify (fun t => JsMap.set_ t destination routes);; mret true
      else modify (fun t => JsMap.delete_ t destination);; mret false
  end.

Definition clear : ST LearnedRouteTable unit := modify (fun _ => []).

(** ** The invariant *)

(** A score is a number of at least [MIN_ROUTE_SCORE]. *)
Definition score_ok (r : LearnedRoute) : Prop := F64.leb MIN_ROUTE_SCORE (score r) = true.

(** The routes to a destination, at most [maximum]: one per next hop, and none
    that is the destination itself. *)
Record routes_ok (maximum : Z) (destination : string) (routes : list LearnedRoute) : Prop := {
  rk_nodup : NoDup (map nextHop routes);
  rk_dest : destination ∉ map nextHop routes;
  rk_score : Forall score_ok routes;
  rk_len : len routes <= maximum;
}.

Definition table_ok (maximum : Z) (t : LearnedRouteTable) : Prop :=
  forall d routes, JsMap.get_ t d = Some routes -> routes_ok maximum d routes.

Lemma clamp_score v : F64.is_nan v = false ->
  F64.leb MIN_ROUTE_SCORE (clamp v MIN_ROUTE_SCORE MAX_ROUTE_SCORE) = true /\
  F64.leb (clamp v MIN_ROUTE_SCORE MAX_ROUTE_SCORE) MAX_ROUTE_SCORE = true.
Proof.
  intros Hv. unfold clamp.
  assert (Hz : nonzero MIN_ROUTE_SCORE) by (vm_compute; exact I).
  assert (Hz2 : nonzero MAX_ROUTE_SCORE) by (vm_compute; exact I).
  destruct (max_ge MIN_ROUTE_SCORE v (or_introl Hz) eq_refl Hv) as [H1 _].
  pose proof (leb_not_nan _ _ H1) as [_ Hn]. set (m := F64.max MIN_ROUTE_SCORE v) in *.
  rewrite min_nonzero by (done || by left). destruct (F64.ltb m MAX_ROUTE_SCORE) eqn:E.
  - split; [done|by apply ltb_leb].
  - split; vm_compute; reflexivity.
Qed.

Lemma sort_insert_pure {A} (cmp : A -> A -> Z) x l :
  exists l', sort_insert (fun a b => Ok (cmp a b)) x l = Ok l' /\ l' ≡ₚ x :: l.
Proof.
  induction l as [|y l (l' & E & Hp)]; [by exists [x]|]. cbn [sort_insert mbind result_bind].
  destruct (cmp x y <? 0); [by eexists|]. rewrite E. cbn [mbind result_bind]. exists (y :: l'). split; [done|].
  rewrite Hp. by apply Permutation_swap.
Qed.

Lemma sort_pure {A} (cmp : A -> A -> Z) l : exists l', sort (fun a b => Ok (cmp a b)) l = Ok l' /\ l' ≡ₚ l.
Proof.
  unfold sort. assert (H : forall s, exists l', sort_onto (fun a b => Ok (cmp a b)) l s = Ok l' /\ l' ≡ₚ s ++ l).
  { induction l as [|x l IH]; intros s; [exists s; by rewrite app_nil_r|]. cbn [sort_onto].
    destruct (sort_insert_pure cmp x s) as (s' & -> & Hs). cbn [mbind result_bind].
    destruct (IH s') as (l' & -> & Hl). exists l'. split; [done|]. rewrite Hl, Hs. cbn. by rewrite Permutation_middle. }
  apply (H []).
Qed.

Lemma sortAndTruncate_run routes maximum : 0 <= maximum ->
  exists l l', sortAndTruncate routes maximum = Ok l /\ l' ≡ₚ routes /\ l = take (Z.to_nat (Z.min (len routes) maximum)) l'.
Proof.
  intros Hm. destruct (sort_pure compareRoutes routes) as (l' & E & Hp). unfold sortAndTruncate. rewrite E.
  cbn [mbind result_bind]. assert (Hl : len l' = len routes) by (unfold len; by rewrite Hp). rewrite Hl.
  pose proof (len_nonneg routes). replace (Z.min (len routes) maximum <? 0) with false by (symmetry; apply Z.ltb_ge; lia).
  by eexists _, l'.
Qed.

(** Sorting and cutting keeps the invariant, and the bound becomes the cut. *)
Lemma sortAndTruncate_ok routes maximum m d l :
  0 <= maximum -> routes_ok m d routes -> sortAndTruncate routes maximum = Ok l -> routes_ok maximum d l.
Proof.
  intros Hm [Hn Hd Hs Hl] E. destruct (sortAndTruncate_run routes maximum Hm) as (l1 & l' & E1 & Hp & ->).
  rewrite E1 in E. injection E as <-. set (k := Z.to_nat _).
  assert (Hsub : take k l' `sublist_of` l') by apply sublist_take.
  assert (Hmap : map nextHop l' ≡ₚ map nextHop routes) by (by apply (fmap_Permutation nextHop)).
  assert (Hin : forall x, x ∈ take k l' -> x ∈ l') by (intros x Hx; by eapply elem_of_sublist).
  split.
  - assert (map nextHop (take k l') `sublist_of` map nextHop l') as Hsm by (rewrite <- firstn_map; apply sublist_take).
    eapply sublist_NoDup; [|exact Hsm]. by rewrite Hmap.
  - intros H. apply Hd. rewrite <- Hmap. apply list_elem_of_fmap in H as (x & -> & Hx).
    apply list_elem_of_fmap. exists x. split; [done|by apply Hin].
  - apply Forall_forall. intros x Hx%Hin. rewrite Forall_forall in Hs. apply Hs. by rewrite <- Hp.
  - unfold len in *. rewrite length_take. lia.
Qed.

Lemma find_route_None hop routes : find_route hop routes = None -> hop ∉ map nextHop routes.
Proof.
  unfold find_route. induction routes as [|r routes IH]; [intros _; apply not_elem_of_nil|].
  rewrite filter_cons. destruct (decide (nextHop r = hop)); [done|]. intros E [He|He]%elem_of_cons; [done|by apply IH].
Qed.

(** Changing a route in place. *)
Lemma update_route_map {B} (f : LearnedRoute -> B) hop g routes :
  (forall r, f (g r) = f r) -> map f (update_route hop g routes) = map f routes.
Proof.
  intros Hg. induction routes as [|r routes IH]; [done|]. cbn [update_route]. case_decide; cbn [map].
  - by rewrite Hg.
  - by rewrite IH.
Qed.

Lemma update_route_ok m d hop g routes :
  (forall r, nextHop (g r) = nextHop r) -> (forall r, score_ok r -> score_ok (g r)) ->
  routes_ok m d routes -> routes_ok m d (update_route hop g routes).
Proof.
  intros Hg Hs [Hn Hd Hsc Hl].
  assert (E : map nextHop (update_route hop g routes) = map nextHop routes) by (by apply update_route_map).
  split; rewrite ?E; try done.
  - clear -Hsc Hs. induction Hsc as [|r routes Hr Ht IH]; [constructor|]. cbn [update_route].
    case_decide; constructor; auto.
  - apply (f_equal length) in E. rewrite !length_map in E. unfold len in *. lia.
Qed.

Lemma reinforce_score nowMs expires mtu r : score_ok r -> score_ok (reinforce nowMs expires mtu r).
Proof.
  intros [_ Hr]%leb_not_nan. apply clamp_score. apply add_not_nan; [done|]. vm_compute. exact I.
Qed.

Lemma penalize_score r : score_ok r -> score_ok (penalize r).
Proof.
  intros [_ Hr]%leb_not_nan. unfold score_ok, penalize. cbn [score].
  apply max_ge; [right; vm_compute; exact I| |reflexivity].
  apply mul_not_nan; [done|]. vm_compute. exact I.
Qed.

Lemma filter_routes_ok m d (P : LearnedRoute -> Prop) `{!forall r, Decision (P r)} routes :
  routes_ok m d routes -> routes_ok m d (base.filter P routes).
Proof.
  intros [Hn Hd Hs Hl].
  assert (Hin : forall x, x ∈ map nextHop (base.filter P routes) -> x ∈ map nextHop routes).
  { intros x (r & -> & [_ Hr]%list_elem_of_filter)%list_elem_of_fmap. apply list_elem_of_fmap. by exists r. }
  split.
  - clear -Hn. induction routes as [|r routes IH]; [constructor|]. apply NoDup_cons in Hn as [Hr Hn].
    rewrite filter_cons. case_decide; [|by apply IH]. cbn [map]. constructor; [|by apply IH].
    intros (x & E & [_ Hx]%list_elem_of_filter)%list_elem_of_fmap. apply Hr. rewrite E.
    apply list_elem_of_fmap. by exists x.
  - intros Hx. by apply Hd, Hin.
  - rewrite Forall_forall in *. intros r [_ Hr]%list_elem_of_filter. by apply Hs.
  - assert (length (base.filter P routes) <= length routes)%nat; [|unfold len in *; lia].
    clear. induction routes; [done|]. rewrite filter_cons. case_decide; cbn; lia.
Qed.

(** Routes that differ in their weights and counts only. *)
Definition mtu_of (r : LearnedRoute) : option Z * option Z := (pathMtu_ r, pathMtuExpiresAtMs r).

Definition same_routes (a b : list LearnedRoute) : Prop :=
  map nextHop a = map nextHop b /\ map score a = map score b /\ map expiresAtMs a = map expiresAtMs b /\
  map mtu_of a = map mtu_of b.

Lemma same_routes_ok m d a b : same_routes a b -> routes_ok m d a -> routes_ok m d b.
Proof.
  intros (En & Es & _ & _) [Hn Hd Hs Hl]. rewrite En in Hn, Hd. split; try done.
  - apply (List.Forall_map score (fun x => F64.leb MIN_ROUTE_SCORE x = true)). rewrite <- Es. by apply List.Forall_map.
  - apply (f_equal length) in En. rewrite !length_map in En. unfold len in *. lia.
Qed.

Lemma same_routes_trans a b c : same_routes a b -> same_routes b c -> same_routes a c.
Proof. unfold same_routes. intros (? & ? & ? & ?) (? & ? & ? & ?). split_and!; congruence. Qed.

Lemma alter_map {B} (f : LearnedRoute -> B) g i routes : (forall r, f (g r) = f r) -> map f (alter g i routes) = map f routes.
Proof.
  intros Hg. revert i. induction routes as [|r routes IH]; intros [|i]; [done..| |].
  - cbn. by rewrite Hg.
  - cbn. f_equal. apply IH.
Qed.

Lemma alter_same g i routes :
  (forall r, nextHop (g r) = nextHop r) -> (forall r, score (g r) = score r) ->
  (forall r, expiresAtMs (g r) = expiresAtMs r) -> (forall r, mtu_of (g r) = mtu_of r) ->
  same_routes routes (alter g i routes).
Proof. intros H1 H2 H3 H4. unfold same_routes. by rewrite !alter_map. Qed.

(** ** What selecting leaves alone *)

Lemma find_route_Some hop routes r : NoDup (map nextHop routes) ->
  find_route hop routes = Some r <-> r ∈ routes /\ nextHop r = hop.
Proof.
  unfold find_route. induction routes as [|x routes IH]; cbn [map]; intros Hn.
  - split; [done|]. by intros [?%not_elem_of_nil _].
  - apply NoDup_cons in Hn as [Hx Hn]. rewrite filter_cons. case_decide as Hc; cbn [head].
    + split; [intros [= <-]; split; [left|done]|]. intros [[->|Hr]%elem_of_cons Hh]; [done|].
      exfalso. apply Hx. rewrite Hc, <- Hh. apply list_elem_of_fmap. by exists r.
    + rewrite IH by done. rewrite elem_of_cons. naive_solver.
Qed.

Lemma find_route_perm hop a b : NoDup (map nextHop a) -> a ≡ₚ b -> find_route hop a = find_route hop b.
Proof.
  intros Hn Hp. assert (Hn' : NoDup (map nextHop b)) by (by rewrite <- (fmap_Permutation nextHop _ _ Hp)).
  apply option_eq. intros r. rewrite !find_route_Some by done. by rewrite Hp.
Qed.

Lemma find_route_mtu hop a b : map nextHop a = map nextHop b -> map mtu_of a = map mtu_of b ->
  mtu_of <$> find_route hop a = mtu_of <$> find_route hop b.
Proof.
  unfold find_route. revert b. induction a as [|x a IH]; intros [|y b]; cbn [map]; intros En Em; try discriminate; [done|].
  injection En as En1 En2. injection Em as Em1 Em2 Em3. rewrite !filter_cons.
  destruct (decide (nextHop x = hop)), (decide (nextHop y = hop)); cbn [head]; try congruence; [|by apply IH].
  cbn. unfold mtu_of. congruence.
Qed.

(** The table with the expired routes to [d] taken out. *)
Definition retained (d : string) (nowMs : Z) (t : LearnedRouteTable) : LearnedRouteTable :=
  match JsMap.get_ t d with Some routes => JsMap.set_ t d (retainLive routes nowMs) | None => t end.

Lemma pathMtu_same d hop nowMs t t' a b :
  JsMap.get_ t d = Some a -> JsMap.get_ t' d = Some b -> mtu_of <$> find_route hop a = mtu_of <$> find_route hop b ->
  pathMtu d hop nowMs t = pathMtu d hop nowMs t'.
Proof.
  intros Ha Hb E. unfold pathMtu. rewrite Ha, Hb. cbn [mbind option_bind].
  destruct (find_route hop a), (find_route hop b); cbn in E; try done. injection E as E1 E2. cbn. by rewrite E1, E2.
Qed.

Lemma select_loop_run sendable routes sel :
  same_routes routes (fst (select_loop sendable routes sel)) /\
  (snd (select_loop sendable routes sel) = sel \/ snd (select_loop sendable routes sel) ∈ map fst sendable).
Proof.
  revert routes sel. induction sendable as [|[i w] sendable IH]; intros routes sel; cbn [select_loop fst snd]; [by split; [|left]|].
  match goal with |- context [select_loop sendable ?r ?x] => destruct (IH r x) as [Hs Hi]; set (sel' := x) in * end.
  split; [eapply same_routes_trans; [|exact Hs]; by apply alter_same|].
  destruct Hi as [->|Hi]; [|right; by right]. unfold sel'.
  destruct (alter _ _ _ !! sel); [|by left]. destruct (alter _ _ _ !! i); [|by left].
  destruct (_ || _); [right; left|by left].
Qed.

Lemma table_set m t d routes : table_ok m t -> routes_ok m d routes -> table_ok m (JsMap.set_ t d routes).
Proof.
  intros Ht Hr d' rs Hg. destruct (decide (d = d')) as [->|Hne].
  - rewrite JsMap.get_set_eq in Hg. by injection Hg as <-.
  - rewrite JsMap.get_set_ne in Hg by done. by apply Ht.
Qed.

Lemma table_delete m t d : table_ok m t -> table_ok m (JsMap.delete_ t d).
Proof.
  intros Ht d' rs Hg. destruct (decide (d = d')) as [->|Hne].
  - by rewrite JsMap.get_delete_eq in Hg.
  - rewrite JsMap.get_delete_ne in Hg by done. by apply Ht.
Qed.

Lemma learn_run m t d hop nowMs ttl mtu :
  0 < m -> table_ok m t -> exists t', learn d hop nowMs ttl m mtu t = (Ok tt, t') /\ table_ok m t'.
Proof.
  intros Hm Ht. unfold learn. destruct (bool_decide (d = hop) || (m =? 0)) eqn:Eb; [by exists t|]. bool_split.
  rewrite ST_get_bind. cbv zeta. set (routes := default [] (JsMap.get_ t d)).
  assert (Hr : routes_ok m d routes).
  { unfold routes. destruct (JsMap.get_ t d) as [rs|] eqn:Eg; [by apply Ht|]. cbn.
    split; [constructor|apply not_elem_of_nil|constructor|change (len (@nil LearnedRoute)) with 0; lia]. }
  set (new := mkRoute hop nowMs _ 1 0 _ _ 0 mtu _).
  set (rs := match find_route hop routes with
    | Some _ => update_route hop (reinforce nowMs (nowMs + ttl * 1000) mtu) routes
    | None => routes ++ [new] end).
  assert (Hn : exists k, routes_ok k d rs).
  { unfold rs. destruct (find_route hop routes) eqn:Ef.
    - exists m. apply update_route_ok; [done|intros; by apply reinforce_score|done].
    - exists (m + 1). apply find_route_None in Ef. destruct Hr as [Hn Hd Hs Hl]. split.
      + rewrite map_app. apply NoDup_app. split; [done|]. split; [|apply NoDup_singleton].
        intros x Hx [->|Hx']%elem_of_cons; [done|by apply not_elem_of_nil in Hx'].
      + rewrite map_app. intros [Hx|[Hx|Hx]%elem_of_cons]%elem_of_app; [done|by subst|by apply not_elem_of_nil in Hx].
      + apply Forall_app. split; [done|]. constructor; [|constructor]. vm_compute. reflexivity.
      + rewrite len_app. change (len [new]) with 1. lia. }
  destruct Hn as [k Hk].
  destruct (sortAndTruncate_run rs m ltac:(lia)) as (l & l' & E & _ & _). erewrite ST_lift_bind by exact E.
  eexists. split; [reflexivity|]. apply table_set; [done|]. eapply sortAndTruncate_ok; [lia|exact Hk|exact E].
Qed.

(** A selection: the outcome, the routes it leaves, and that it returns. *)
Lemma selectNextHop_run Math_pow m t d nowMs canSend :
  table_ok m t -> exists r t', selectNextHop Math_pow d nowMs canSend t = (Ok r, t') /\ table_ok m t' /\
    (forall hop, pathMtu d hop nowMs t' = pathMtu d hop nowMs (retained d nowMs t)) /\
    match r with
    | Some hop => exists routes route, JsMap.get_ t d = Some routes /\ route ∈ routes /\ nextHop route = hop /\
        expiresAtMs route > nowMs /\ canSend hop = true
    | None => forall routes route, JsMap.get_ t d = Some routes -> route ∈ routes -> expiresAtMs route > nowMs ->
        canSend (nextHop route) = false
    end.
Proof.
  intros Ht. unfold selectNextHop, retained. rewrite ST_get_bind. destruct (JsMap.get_ t d) as [routes|] eqn:Eg;
    [|by exists None, t].
  cbv zeta. set (live := retainLive routes nowMs).
  assert (Hlive : forall r, r ∈ live <-> expiresAtMs r > nowMs /\ r ∈ routes) by (intros r; unfold live, retainLive; by rewrite list_elem_of_filter).
  assert (Hok : routes_ok m d live) by (by apply filter_routes_ok, Ht).
  destruct (Z.eqb_spec (len live) 0) as [E0|E0].
  { rewrite ST_modify_bind. eexists None, _. split; [reflexivity|]. split; [by apply table_delete|]. split.
    { intros hop. apply len_nil_inv in E0. unfold pathMtu. by rewrite JsMap.get_delete_eq, JsMap.get_set_eq, E0. }
    intros rs r [= <-] Hr He. apply len_nil_inv in E0. assert (r ∈ live) as Hin by (by apply Hlive).
    rewrite E0 in Hin. by apply not_elem_of_nil in Hin. }
  rewrite ST_modify_bind. set (t1 := JsMap.set_ t d live).
  assert (Ht1 : table_ok m t1) by (by apply table_set).
  set (sendable := base.filter _ _).
  assert (Hsend : forall i w, (i, w) ∈ sendable -> exists r, live !! i = Some r /\ canSend (nextHop r) = true).
  { intros i w [Hc _]%list_elem_of_filter. cbn [fst] in Hc. destruct (live !! i) as [r|]; [|done]. by exists r. }
  assert (Hall : forall i r, live !! i = Some r -> canSend (nextHop r) = true -> (i, routeWeight Math_pow r) ∈ sendable).
  { intros i r Hi Hc. apply list_elem_of_filter. cbn [fst]. split; [by rewrite Hi|].
    apply list_elem_of_lookup. exists i. by rewrite list_lookup_imap, Hi. }
  destruct sendable as [|[first w] sendable'] eqn:Es.
  { eexists None, _. split; [reflexivity|]. split; [done|]. split; [done|]. intros rs r [= <-] Hr He.
    assert (r ∈ live) as Hin by (by apply Hlive). apply list_elem_of_lookup in Hin as [i Hi].
    destruct (canSend (nextHop r)) eqn:Ec; [|done]. by apply Hall, not_elem_of_nil in Hi. }
  rewrite <- Es in *. set (total := foldl _ _ sendable).
  pose proof (select_loop_run sendable live first) as [Hs Hsel].
  destruct (select_loop sendable live first) as [routes1 sel]. cbn [fst snd] in Hs, Hsel.
  assert (Hidx : exists w', (sel, w') ∈ sendable).
  { destruct Hsel as [->|Hin]; [exists w; rewrite Es; left|].
    apply list_elem_of_fmap in Hin as ([i w'] & -> & Hin). by exists w'. }
  destruct Hidx as [w' Hw]. destruct (Hsend _ _ Hw) as (route & Hroute & Hcan).
  assert (Hs2 : same_routes live (alter (choose total) sel routes1))
    by (eapply same_routes_trans; [exact Hs|by apply alter_same]).
  assert (Hhop : nextHop <$> (alter (choose total) sel routes1 !! sel) = Some (nextHop route)).
  { destruct Hs2 as [En _]. apply (f_equal (lookup sel)) in En. rewrite !list_lookup_fmap in En.
    rewrite <- En, Hroute. done. }
  destruct (alter (choose total) sel routes1 !! sel) as [r|]; [|done]. cbn in Hhop. injection Hhop as Hhop.
  erewrite ST_lift_bind by reflexivity.
  destruct (sortAndTruncate_run (alter (choose total) sel routes1) (len (alter (choose total) sel routes1))) as (l & l' & E & Hperm & Hcut);
    [apply len_nonneg|].
  erewrite ST_lift_bind by exact E. rewrite ST_modify_bind. eexists (Some _), _. split; [reflexivity|].
  assert (Hok2 : routes_ok m d (alter (choose total) sel routes1)) by (by eapply same_routes_ok).
  split.
  - apply table_set; [done|].
    pose proof (sortAndTruncate_ok _ _ _ _ _ (len_nonneg _) Hok2 E) as [Hn Hd Hsc Hl]. split; try done.
    destruct Hok2. lia.
  - split.
    { intros hop. apply (pathMtu_same d hop nowMs _ _ l live); [apply JsMap.get_set_eq..|].
      rewrite Z.min_id in Hcut. unfold len in Hcut. rewrite Nat2Z.id, <- Hperm, firstn_all in Hcut. subst l.
      rewrite (find_route_perm hop l' (alter (choose total) sel routes1)); [|rewrite (fmap_Permutation nextHop _ _ Hperm); by apply Hok2|done].
      symmetry. apply find_route_mtu; apply Hs2. }
    exists routes, route. split; [done|]. rewrite Hhop.
    assert (route ∈ live) as [He Hin]%Hlive by (by eapply list_elem_of_lookup_2). done.
Qed.

(** The route table stays bounded and sound under every operation: at most
    the maximum of routes per destination, one per next hop, none to the
    destination itself, and every score a number of at least 0.05; and no
    operation throws. *)
Lemma learned_routes_bounded Math_pow maximum t :
  0 < maximum -> table_ok maximum t ->
  (forall d hop nowMs ttl mtu, exists t', learn d hop nowMs ttl maximum mtu t = (Ok tt, t') /\ table_ok maximum t') /\
  (forall d hop, exists t', recordFailure d hop t = (Ok tt, t') /\ table_ok maximum t') /\
  (forall d nowMs canSend, exists r t', selectNextHop Math_pow d nowMs canSend t = (Ok r, t') /\ table_ok maximum t') /\
  (forall d nowMs, exists r t', has d nowMs t = (Ok r, t') /\ table_ok maximum t') /\
  table_ok maximum (snd (clear t)).
Proof.
  intros Hm Ht. split; [intros; by apply learn_run|]. split; [|split; [|split]].
  - intros d hop. unfold recordFailure. rewrite ST_get_bind. destruct (JsMap.get_ t d) as [routes|] eqn:Eg; [|by exists t].
    eexists. split; [reflexivity|]. apply table_set; [done|].
    apply update_route_ok; [done|intros; by apply penalize_score|by apply Ht].
  - intros d nowMs canSend. destruct (selectNextHop_run Math_pow maximum t d nowMs canSend Ht) as (r & t' & E & Hok & _).
    by exists r, t'.
  - intros d nowMs. unfold has. rewrite ST_get_bind. destruct (JsMap.get_ t d) as [routes|] eqn:Eg; [|by exists false, t].
    cbv zeta. destruct (_ >? 0); rewrite ST_modify_bind; eexists _, _; (split; [reflexivity|]).
    + apply table_set; [done|]. by apply filter_routes_ok, Ht.
    + by apply table_delete.
  - intros d routes Hg. done.
Qed.

(** A selection returns a next hop that was learned for the destination, has
    not expired and can be sent to, and finds none only if there is no such
    route. *)
Lemma select_next_hop_usable Math_pow maximum t d nowMs canSend :
  table_ok maximum t ->
  exists r t', selectNextHop Math_pow d nowMs canSend t = (Ok r, t') /\
    match r with
    | Some hop => exists routes route, JsMap.get_ t d = Some routes /\ route ∈ routes /\ nextHop route = hop /\
        expiresAtMs route > nowMs /\ canSend hop = true
    | None => forall routes route, JsMap.get_ t d = Some routes -> route ∈ routes -> expiresAtMs route > nowMs ->
        canSend (nextHop route) = false
    end.
Proof.
  intros Ht. destruct (selectNextHop_run Math_pow maximum t d nowMs canSend Ht) as (r & t' & E & _ & _ & Hr). by exists r, t'.
Qed.

(** ** Examples *)

Definition demo_pow (x y : F64.t) : F64.t := F64.mul x x.
Definition demo_table : LearnedRouteTable :=
  snd ((learn "d" "a" 10 300 4 (Some 1280);; learn "d" "b" 20 300 4 None;; recordFailure "d" "a") []).

Lemma demo_table_ok : table_ok 4 demo_table.
Proof.
  assert (H0 : table_ok 4 []) by (intros d r Hg; done).
  destruct (learn_run 4 [] "d" "a" 10 300 (Some 1280) ltac:(lia) H0) as (t1 & E1 & H1).
  destruct (learn_run 4 t1 "d" "b" 20 300 None ltac:(lia) H1) as (t2 & E2 & H2).
  unfold demo_table. rewrite (ST_bind_ok _ _ _ _ _ E1), (ST_bind_ok _ _ _ _ _ E2).
  unfold recordFailure. rewrite ST_get_bind. destruct (JsMap.get_ t2 "d") as [routes|] eqn:Eg; [|done].
  apply table_set; [done|]. apply update_route_ok; [done|intros; by apply penalize_score|by apply H2].
Qed.

Lemma learned_routes_bounded_witness :
  exists t', learn "d" "c" 30 300 4 None demo_table = (Ok tt, t') /\ table_ok 4 t'.
Proof. apply (learned_routes_bounded demo_pow 4 demo_table); [reflexivity|apply demo_table_ok]. Defined.

Lemma select_next_hop_usable_witness :
  exists r t', selectNextHop demo_pow "d" 50 (fun hop => bool_decide (hop = "b"%string)) demo_table = (Ok r, t').
Proof.
  destruct (select_next_hop_usable demo_pow 4 demo_table "d" 50 (fun hop => bool_decide (hop = "b"%string)))
    as (r & t' & E & _); [apply demo_table_ok|]. exists r, t'. exact E.
Defined.
