(* ===== verification/OriginLookups.v ===== *)
(** * Origin lookups

    [node/OriginLookupRegistry.ts]: the lookups a node has in flight, found by
    target and by every request id sent for them. A lookup object is shared by
    the two maps, by its retry loop and by the callers that await its promise,
    so the registry holds a store of lookup objects and the maps hold
    references to them (positions in the store). The asynchronous [retry] is cut at its
    [await]s; the lookup deadline and the pauses between attempts run against
    the clock of [World]. *)

From S2P Require Import Prelude Codec.

(** ** State *)

(** The state of the promise of a lookup. *)
Inductive Settlement := Waiting | Resolved | Rejected (e : js_error).

(** [timer] is the time at which the armed deadline fires. *)
Record Lookup := mkLookup {
  requestId : Z;
  targetHex : string;
  targetPubkey : option bytes;
  minMtu : Z;
  lk_nextHop : option string;
  requestIds : list Z;
  promise : Settlement;
  timer : option Z;
}.

Record OriginLookupRegistry := mkRegistry {
  maximum : Z;
  byTarget : list (string * nat);
  byRequest : gmap Z nat;
  lookups : list Lookup;
}.

Definition new_registry (maximum : Z) : OriginLookupRegistry := mkRegistry maximum [] ∅ [].

Definition alter_lookup (i : nat) (f : Lookup -> Lookup) (r : OriginLookupRegistry) : OriginLookupRegistry :=
  mkRegistry (maximum r) (byTarget r) (byRequest r) (alter f i (lookups r)).

(** ** Operations *)

Definition get_lookup (r : OriginLookupRegistry) (target : string) : option nat := JsMap.get_ (byTarget r) target.

Definition findRequest (r : OriginLookupRegistry) (id : Z) : option nat := byRequest r !! id.

(** [draws k] is what the [k]-th call of the random source gives. *)
Fixpoint next_id_loop (used : gmap Z nat) (draws : nat -> result bytes) (attempt n : nat) : result Z :=
  match n with
  | O => Throw (Error "failed to allocate unique lookup request id")
  | S n =>
      b ← draws attempt;
      throw_if (negb (len b =? 8)) (Error "random source returned invalid lookup request id");;
      let id := le_val b in
      if bool_decide (used !! id = None) then Ok id else next_id_loop used draws (S attempt) n
  end.

Definition nextRequestId (draws : nat -> result bytes) : ST OriginLookupRegistry Z :=
  r ← get; lift (next_id_loop (byRequest r) draws 0 8).

Definition create (target : string) (pubkey : option bytes) (mtu : option Z) (draws : nat -> result bytes)
    (nowMs timeoutMs : Z) : ST OriginLookupRegistry nat :=
  r ← get;
  throw_when (len (byTarget r) >=? maximum r) (Error "lookup capacity exceeded");;
  id ← nextRequestId draws;
  let i := length (lookups r) in
  modify (fun r => mkRegistry (maximum r) (byTarget r) (byRequest r)
    (lookups r ++ [mkLookup id target pubkey (default 0 mtu) None [id] Waiting (Some (nowMs + timeoutMs))]));;
  modify (fun r => mkRegistry (maximum r) (JsMap.set_ (byTarget r) target i) (byRequest r) (lookups r));;
  modify (fun r => mkRegistry (maximum r) (byTarget r) (<[id := i]> (byRequest r)) (lookups r));;
  mret i.

Definition clear_timer (l : Lookup) : Lookup :=
  mkLookup (requestId l) (targetHex l) (targetPubkey l) (minMtu l) (lk_nextHop l) (requestIds l) (promise l) None.

Definition clear_ids (l : Lookup) : Lookup :=
  mkLookup (requestId l) (targetHex l) (targetPubkey l) (minMtu l) (lk_nextHop l) [] (promise l) (timer l).

Definition delete_ids (ids : list Z) (m : gmap Z nat) : gmap Z nat := foldl (fun m id => delete id m) m ids.

Definition remove_ (i : nat) : ST OriginLookupRegistry (option nat) :=
  r ← get;
  match lookups r !! i with
  | None => mret None
  | Some l =>
      if bool_decide (get_lookup r (targetHex l) <> Some i) then mret None else
      modify (alter_lookup i clear_timer);;
      modify (fun r => mkRegistry (maximum r) (JsMap.delete_ (byTarget r) (targetHex l)) (byRequest r) (lookups r));;
      modify (fun r => mkRegistry (maximum r) (byTarget r) (delete_ids (requestIds l) (byRequest r)) (lookups r));;
      modify (alter_lookup i clear_ids);;
      mret (Some i)
  end.

(** [resolve] and [reject]: only the first settles the promise. *)
Definition settle (s : Settlement) (l : Lookup) : Lookup :=
  mkLookup (requestId l) (targetHex l) (targetPubkey l) (minMtu l) (lk_nextHop l) (requestIds l)
    (match promise l with Waiting => s | p => p end) (timer l).

Definition set_nextHop (hop : option string) (l : Lookup) : Lookup :=
  mkLookup (requestId l) (targetHex l) (targetPubkey l) (minMtu l) hop (requestIds l) (promise l) (timer l).

Definition complete_ (i : nat) (hop : option string) : ST OriginLookupRegistry unit :=
  state ← remove_ i;
  match state with
  | None => mret tt
  | Some i => modify (alter_lookup i (set_nextHop hop));; modify (alter_lookup i (settle Resolved))
  end.

Definition fail_ (i : nat) (e : js_error) : ST OriginLookupRegistry unit :=
  state ← remove_ i;
  match state with
  | None => mret tt
  | Some i => modify (alter_lookup i (settle (Rejected e)))
  end.

Definition stop_ : ST OriginLookupRegistry unit :=
  r ← get;
  for_each (fun i => fail_ i (Error "FIPS node stopped")) (map snd (byTarget r)).

(** ** The retry loop *)

(** [this.get(pending.targetHex) === pending] *)
Definition is_current (r : OriginLookupRegistry) (i : nat) : bool :=
  match lookups r !! i with
  | Some l => bool_decide (get_lookup r (targetHex l) = Some i)
  | None => false
  end.

Definition add_requestId (id : Z) (l : Lookup) : Lookup :=
  mkLookup id (targetHex l) (targetPubkey l) (minMtu l) (lk_nextHop l)
    (if decide (id ∈ requestIds l) then requestIds l else requestIds l ++ [id]) (promise l) (timer l).

(** A new request id for a further attempt. *)
Definition renew (i : nat) (draws : nat -> result bytes) : ST OriginLookupRegistry unit :=
  id ← nextRequestId draws;
  modify (alter_lookup i (add_requestId id));;
  modify (fun r => mkRegistry (maximum r) (byTarget r) (<[id := i]> (byRequest r)) (lookups r)).

(** Where a call of [retry] stands: before the loop test, awaiting [send()],
    awaiting the promise or the pause that ends at [wakeAt], returned. *)
Inductive RetryPoint := AtHead | AtSend | AtRace (wakeAt : Z) | AtEnd.

Record RetryTask := mkTask { rt_lookup : nat; intervalMs : Z; first : bool; rt_at : RetryPoint }.

Definition retry (i : nat) : RetryTask := mkTask i 250 true AtHead.

(** From the loop test to the call of [send]. *)
Definition retry_head (t : RetryTask) (draws : nat -> result bytes) : ST OriginLookupRegistry RetryTask :=
  let i := rt_lookup t in
  r ← get;
  if is_current r i then
    try_catch
      ((if first t then mret tt else renew i draws);;
       mret (mkTask i (intervalMs t) false AtSend))
      (fun e => fail_ i e;; mret (mkTask i (intervalMs t) (first t) AtEnd))
  else mret (mkTask i (intervalMs t) (first t) AtEnd).

(** From the outcome of [send()] to the pause. *)
Definition retry_sent (t : RetryTask) (sent : result unit) (nowMs : Z) : ST OriginLookupRegistry RetryTask :=
  let i := rt_lookup t in
  match sent with
  | Throw e => fail_ i e;; mret (mkTask i (intervalMs t) (first t) AtEnd)
  | Ok _ =>
      r ← get;
      mret (mkTask i (intervalMs t) (first t)
        (if is_current r i then AtRace (nowMs + intervalMs t) else AtEnd))
  end.

(** From the end of the pause to the loop test. *)
Definition retry_wake (t : RetryTask) : RetryTask :=
  mkTask (rt_lookup t) (Z.min (intervalMs t * 2) 1000) (first t) AtHead.

(** ** The registry in its node

    A node starts a lookup of a target that has none in flight, as
    [FipsRouting] does, and its retry loop with it. Time passes only up to the
    next armed deadline, which then fires. *)

Definition LOOKUP_ORIGIN_TIMEOUT_MS : Z := 5000.
Definition MAX_PENDING_ORIGIN_LOOKUPS : Z := 64.

Record World := mkWorld { registry : OriginLookupRegistry; clock : Z; tasks : list RetryTask }.

Definition no_deadline_before (r : OriginLookupRegistry) (t : Z) : Prop :=
  forall i l d, lookups r !! i = Some l -> timer l = Some d -> t <= d.

Inductive world_step (w : World) : World -> Prop :=
| StepStart target pubkey mtu draws i r :
    get_lookup (registry w) target = None ->
    create target pubkey mtu draws (clock w) LOOKUP_ORIGIN_TIMEOUT_MS (registry w) = (Ok i, r) ->
    world_step w (mkWorld r (clock w) (tasks w ++ [retry i]))
| StepRefused target pubkey mtu draws e r :
    get_lookup (registry w) target = None ->
    create target pubkey mtu draws (clock w) LOOKUP_ORIGIN_TIMEOUT_MS (registry w) = (Throw e, r) ->
    world_step w (mkWorld r (clock w) (tasks w))
| StepHead k t draws t' r :
    tasks w !! k = Some t -> rt_at t = AtHead -> retry_head t draws (registry w) = (Ok t', r) ->
    world_step w (mkWorld r (clock w) (<[k := t']> (tasks w)))
| StepSent k t sent t' r :
    tasks w !! k = Some t -> rt_at t = AtSend -> retry_sent t sent (clock w) (registry w) = (Ok t', r) ->
    world_step w (mkWorld r (clock w) (<[k := t']> (tasks w)))
| StepWake k t wakeAt l :
    tasks w !! k = Some t -> rt_at t = AtRace wakeAt -> lookups (registry w) !! rt_lookup t = Some l ->
    (promise l <> Waiting \/ wakeAt <= clock w) ->
    world_step w (mkWorld (registry w) (clock w) (<[k := retry_wake t]> (tasks w)))
| StepComplete i hop r :
    complete_ i hop (registry w) = (Ok tt, r) -> world_step w (mkWorld r (clock w) (tasks w))
| StepFail i e r :
    fail_ i e (registry w) = (Ok tt, r) -> world_step w (mkWorld r (clock w) (tasks w))
| StepStop r :
    stop_ (registry w) = (Ok tt, r) -> world_step w (mkWorld r (clock w) (tasks w))
| StepDeadline i l d r :
    lookups (registry w) !! i = Some l -> timer l = Some d -> d <= clock w ->
    fail_ i (Error "no route") (registry w) = (Ok tt, r) -> world_step w (mkWorld r (clock w) (tasks w))
| StepTick t :
    clock w <= t -> no_deadline_before (registry w) t -> world_step w (mkWorld (registry w) t (tasks w)).

Definition new_world (start : Z) : World := mkWorld (new_registry MAX_PENDING_ORIGIN_LOOKUPS) start [].

(** ** The invariant *)

(** A lookup is either in flight, in both maps, with its deadline armed, or
    settled and in neither. *)
Record registry_ok (r : OriginLookupRegistry) : Prop := {
  ro_wf : JsMap.wf (byTarget r);
  ro_size : byTarget r = [] \/ len (byTarget r) <= maximum r;
  ro_target : forall t i, get_lookup r t = Some i ->
    exists l, lookups r !! i = Some l /\ targetHex l = t /\ promise l = Waiting;
  ro_waiting : forall i l, lookups r !! i = Some l -> promise l = Waiting ->
    get_lookup r (targetHex l) = Some i /\ requestId l ∈ requestIds l /\ NoDup (requestIds l) /\ is_Some (timer l);
  ro_settled : forall i l, lookups r !! i = Some l -> promise l <> Waiting -> requestIds l = [] /\ timer l = None;
  ro_request : forall id i, findRequest r id = Some i <-> exists l, lookups r !! i = Some l /\ id ∈ requestIds l;
}.

Lemma alter_some {A} (f : A -> A) (ls : list A) i x : ls !! i = Some x -> alter f i ls = <[i := f x]> ls.
Proof.
  intros E. apply list_eq. intros j. destruct (decide (i = j)) as [<-|Hne].
  - rewrite list_lookup_alter_eq, E. symmetry. apply list_lookup_insert_eq. by eapply lookup_lt_Some.
  - by rewrite list_lookup_alter_ne, list_lookup_insert_ne.
Qed.

Lemma alter_insert {A} (f : A -> A) (ls : list A) i x : (i < length ls)%nat -> alter f i (<[i := x]> ls) = <[i := f x]> ls.
Proof.
  intros E. rewrite (alter_some f _ i x) by by apply list_lookup_insert_eq. apply list_insert_insert_eq.
Qed.

Lemma lookup_delete_ids ids m k : delete_ids ids m !! k = if decide (k ∈ ids) then None else m !! k.
Proof.
  unfold delete_ids. revert m. induction ids as [|x ids IH]; intros m; cbn [foldl].
  - case_decide; [set_solver|done].
  - rewrite IH. destruct (decide (k = x)) as [->|Hne].
    + rewrite lookup_delete_eq. repeat case_decide; try done; set_solver.
    + rewrite lookup_delete_ne by done. repeat case_decide; try done; set_solver.
Qed.

(** The registry after lookup [i], which was [l], has been taken out and left as [l']. *)
Definition retired (r : OriginLookupRegistry) (i : nat) (l l' : Lookup) : OriginLookupRegistry :=
  mkRegistry (maximum r) (JsMap.delete_ (byTarget r) (targetHex l)) (delete_ids (requestIds l) (byRequest r))
    (<[i := l']> (lookups r)).

Definition finished (l : Lookup) (hop : option string) (s : Settlement) : Lookup :=
  mkLookup (requestId l) (targetHex l) (targetPubkey l) (minMtu l) hop [] s None.

Lemma remove_current r i l : registry_ok r -> lookups r !! i = Some l -> promise l = Waiting ->
  remove_ i r = (Ok (Some i), retired r i l (clear_ids (clear_timer l))).
Proof.
  intros Hr Hl Hw. destruct (ro_waiting r Hr i l Hl Hw) as [Hc _].
  unfold remove_. rewrite ST_get_bind, Hl, Hc. rewrite bool_decide_eq_false_2 by (intros Hn; by apply Hn).
  rewrite !ST_modify_bind. unfold mret, ST_ret. do 2 f_equal. unfold alter_lookup. cbn.
  rewrite (alter_some clear_timer (lookups r) i l Hl). by rewrite alter_insert by by eapply lookup_lt_Some.
Qed.

Lemma remove_other r i : registry_ok r ->
  (forall l, lookups r !! i = Some l -> promise l <> Waiting) -> remove_ i r = (Ok None, r).
Proof.
  intros Hr Hl. unfold remove_. rewrite ST_get_bind. destruct (lookups r !! i) as [l|] eqn:E; [|done].
  case_bool_decide as Hc; [done|]. exfalso.
  destruct (ro_target r Hr _ _ Hc) as (l' & E' & _ & Hw). apply (Hl l); [done|]. congruence.
Qed.

Lemma fail_current r i l e : registry_ok r -> lookups r !! i = Some l -> promise l = Waiting ->
  fail_ i e r = (Ok tt, retired r i l (finished l (lk_nextHop l) (Rejected e))).
Proof.
  intros Hr Hl Hw. unfold fail_. rewrite (ST_bind_ok _ _ _ _ _ (remove_current r i l Hr Hl Hw)).
  unfold modify, alter_lookup, retired. cbn. rewrite alter_insert by by eapply lookup_lt_Some.
  do 3 f_equal. unfold settle, clear_ids, clear_timer, finished. cbn. by rewrite Hw.
Qed.

Lemma complete_current r i l hop : registry_ok r -> lookups r !! i = Some l -> promise l = Waiting ->
  complete_ i hop r = (Ok tt, retired r i l (finished l hop Resolved)).
Proof.
  intros Hr Hl Hw. unfold complete_. rewrite (ST_bind_ok _ _ _ _ _ (remove_current r i l Hr Hl Hw)).
  rewrite ST_modify_bind. unfold modify, alter_lookup, retired. cbn.
  rewrite !alter_insert by by eapply lookup_lt_Some.
  do 3 f_equal. unfold settle, set_nextHop, clear_ids, clear_timer, finished. cbn. by rewrite Hw.
Qed.

Lemma fail_other r i e : registry_ok r ->
  (forall l, lookups r !! i = Some l -> promise l <> Waiting) -> fail_ i e r = (Ok tt, r).
Proof. intros Hr Hl. unfold fail_. by rewrite (ST_bind_ok _ _ _ _ _ (remove_other r i Hr Hl)). Qed.

Lemma complete_other r i hop : registry_ok r ->
  (forall l, lookups r !! i = Some l -> promise l <> Waiting) -> complete_ i hop r = (Ok tt, r).
Proof. intros Hr Hl. unfold complete_. by rewrite (ST_bind_ok _ _ _ _ _ (remove_other r i Hr Hl)). Qed.

Lemma retired_ok r i l hop s : registry_ok r -> lookups r !! i = Some l -> promise l = Waiting -> s <> Waiting ->
  registry_ok (retired r i l (finished l hop s)).
Proof.
  intros Hr Hl Hw Hs. pose proof (lookup_lt_Some _ _ _ Hl) as Hlt.
  destruct (ro_waiting r Hr i l Hl Hw) as (Hc & _). split; unfold get_lookup, findRequest; cbn.
  - apply JsMap.wf_delete, Hr.
  - destruct (ro_size r Hr) as [E|E]; [left; by rewrite E|right].
    pose proof (JsMap.length_filter_le (fun p => p.1 <> targetHex l) (byTarget r)).
    unfold len, JsMap.delete_ in *. lia.
  - intros t j Hj. destruct (decide (targetHex l = t)) as [<-|Hne]; [by rewrite JsMap.get_delete_eq in Hj|].
    rewrite JsMap.get_delete_ne in Hj by done. destruct (ro_target r Hr t j Hj) as (l' & El & Et & Ew).
    exists l'. rewrite list_lookup_insert_ne by (intros ->; congruence). done.
  - intros j l' Hj Hw'. destruct (decide (i = j)) as [<-|Hne].
    { rewrite list_lookup_insert_eq in Hj by done. by injection Hj as <-. }
    rewrite list_lookup_insert_ne in Hj by done. destruct (ro_waiting r Hr j l' Hj Hw') as (Hc' & Hrest).
    split; [|done]. rewrite JsMap.get_delete_ne; [done|]. intros E. unfold get_lookup in *. congruence.
  - intros j l' Hj Hw'. destruct (decide (i = j)) as [<-|Hne].
    { rewrite list_lookup_insert_eq in Hj by done. by injection Hj as <-. }
    rewrite list_lookup_insert_ne in Hj by done. by apply (ro_settled r Hr j).
  - intros id j. rewrite lookup_delete_ids. pose proof (ro_request r Hr id) as Hreq. unfold findRequest in Hreq. split.
    + case_decide as Hin; [done|]. intros Hj. apply Hreq in Hj as (l' & El & Hid). exists l'. split; [|done].
      rewrite list_lookup_insert_ne; [done|]. intros ->. apply Hin. congruence.
    + intros (l' & El & Hid). destruct (decide (i = j)) as [<-|Hne].
      { rewrite list_lookup_insert_eq in El by done. injection El as <-. by apply not_elem_of_nil in Hid. }
      rewrite list_lookup_insert_ne in El by done.
      assert (Hj : byRequest r !! id = Some j) by (apply Hreq; eauto).
      case_decide as Hin; [|done]. exfalso.
      assert (byRequest r !! id = Some i) by (apply Hreq; eauto). congruence.
Qed.

Lemma next_id_fresh used draws k n id : next_id_loop used draws k n = Ok id -> used !! id = None.
Proof.
  revert k. induction n as [|n IH]; intros k E; [done|]. cbn in E. result_inv.
  case_bool_decide; [congruence|by eapply IH].
Qed.

Lemma nextRequestId_run draws r : exists res, nextRequestId draws r = (res, r) /\
  forall id, res = Ok id -> findRequest r id = None.
Proof.
  exists (next_id_loop (byRequest r) draws 0 8). split; [done|]. intros id E. by eapply next_id_fresh.
Qed.

Definition created (r : OriginLookupRegistry) (id : Z) (l : Lookup) : OriginLookupRegistry :=
  mkRegistry (maximum r) (JsMap.set_ (byTarget r) (targetHex l) (length (lookups r)))
    (<[id := length (lookups r)]> (byRequest r)) (lookups r ++ [l]).

Definition fresh_lookup (id : Z) (target : string) pubkey mtu (due : Z) : Lookup :=
  mkLookup id target pubkey mtu None [id] Waiting (Some due).

Lemma create_run target pubkey mtu draws now timeout r :
  (exists e, create target pubkey mtu draws now timeout r = (Throw e, r)) \/
  exists id, create target pubkey mtu draws now timeout r =
      (Ok (length (lookups r)), created r id (fresh_lookup id target pubkey (default 0 mtu) (now + timeout))) /\
    findRequest r id = None /\ len (byTarget r) < maximum r.
Proof.
  unfold create. rewrite ST_get_bind. destruct (len (byTarget r) >=? maximum r) eqn:Hm; [left; by eexists|].
  rewrite ST_pass by done. destruct (nextRequestId_run draws r) as (res & E & Hf).
  destruct res as [id|e]; [|left; eexists; by rewrite (ST_bind_throw _ _ _ _ _ E)].
  right. exists id. rewrite (ST_bind_ok _ _ _ _ _ E), !ST_modify_bind. split; [done|].
  split; [by apply Hf|]. rewrite Z.geb_leb in Hm. by bool_split.
Qed.

Lemma created_ok r id l : registry_ok r -> get_lookup r (targetHex l) = None -> findRequest r id = None ->
  len (byTarget r) < maximum r -> promise l = Waiting -> requestId l = id -> requestIds l = [id] ->
  is_Some (timer l) -> registry_ok (created r id l).
Proof.
  intros Hr Hn Hid Hm Hw Hi His Ht.
  assert (Hpast : forall j (x : Lookup), lookups r !! j = Some x -> j <> length (lookups r))
    by (intros j x Hj%lookup_lt_Some; lia).
  split; unfold get_lookup, findRequest in *; cbn.
  - apply JsMap.wf_set, Hr.
  - right. unfold len in *. rewrite JsMap.length_set. unfold JsMap.has_. rewrite Hn. cbn. lia.
  - intros t j Hj. destruct (decide (targetHex l = t)) as [<-|Hne].
    + rewrite JsMap.get_set_eq in Hj. injection Hj as <-. exists l. by rewrite list_lookup_middle.
    + rewrite JsMap.get_set_ne in Hj by done. destruct (ro_target r Hr t j Hj) as (l' & El & ?).
      exists l'. rewrite lookup_app_l by by eapply lookup_lt_Some. done.
  - intros j l' [Hj|[-> E]]%lookup_snoc_Some Hw'; [destruct Hj as [_ Hj]|].
    + destruct (ro_waiting r Hr j l' Hj Hw') as (Hc & Hrest). split; [|done].
      rewrite JsMap.get_set_ne; [done|]. intros E. unfold get_lookup in *. congruence.
    + subst. rewrite JsMap.get_set_eq, His. split; [done|]. split; [set_solver|].
      split; [apply NoDup_singleton|done].
  - intros j l' [Hj|[-> E]]%lookup_snoc_Some Hw'; [destruct Hj as [_ Hj]|congruence].
    by apply (ro_settled r Hr j).
  - intros id' j. pose proof (ro_request r Hr) as Hreq. unfold findRequest in Hreq.
    destruct (decide (id = id')) as [<-|Hne].
    + rewrite lookup_insert_eq. split.
      * intros [= <-]. exists l. rewrite list_lookup_middle by done. split; [done|]. rewrite His. set_solver.
      * intros (l' & [Hj|[-> E]]%lookup_snoc_Some & Hin); [destruct Hj as [_ Hj]|done].
        assert (byRequest r !! id = Some j) by (apply Hreq; eauto). congruence.
    + rewrite lookup_insert_ne, Hreq by done. split; intros (l' & Hj & Hin).
      * exists l'. by rewrite lookup_app_l by by eapply lookup_lt_Some.
      * apply lookup_snoc_Some in Hj as [[_ Hj]|[-> <-]]; [eauto|].
        rewrite His in Hin. set_solver.
Qed.

(** ** Taking lookups out *)

(** One lookup is settled and taken out of the registry. *)
Inductive retires (r : OriginLookupRegistry) : OriginLookupRegistry -> Prop :=
| Retires i l hop s : lookups r !! i = Some l -> promise l = Waiting -> s <> Waiting ->
    retires r (retired r i l (finished l hop s)).

Lemma retires_ok r r' : registry_ok r -> retires r r' -> registry_ok r'.
Proof. intros Hr []. by apply retired_ok. Qed.

Lemma rtc_retires_ok r r' : registry_ok r -> rtc retires r r' -> registry_ok r'.
Proof. apply (rtc_invariant retires). apply retires_ok. Qed.

(** Afterwards a waiting lookup is as it was. *)
Lemma rtc_retires_waiting r r' i l : rtc retires r r' -> lookups r' !! i = Some l -> promise l = Waiting ->
  lookups r !! i = Some l.
Proof.
  intros H Hl Hw. induction H as [|r r2 r3 [j lj hop s Hj Hwj Hs] _ IH]; [done|].
  specialize (IH Hl). cbn in IH. destruct (decide (j = i)) as [->|Hne].
  - rewrite list_lookup_insert_eq in IH by by eapply lookup_lt_Some. by injection IH as <-.
  - by rewrite list_lookup_insert_ne in IH.
Qed.

Lemma rtc_retires_same r r' : rtc retires r r' -> maximum r' = maximum r /\ length (lookups r') = length (lookups r).
Proof.
  induction 1 as [|r r2 r3 [j lj hop s Hj Hwj Hs] _ [IH1 IH2]]; [done|]. cbn in *.
  by rewrite length_insert in IH2.
Qed.

Lemma waiting_dec (l : Lookup) : {promise l = Waiting} + {promise l <> Waiting}.
Proof. destruct (promise l); [by left|by right..]. Defined.

(** Calls of [complete] and [fail] on any lookup, in flight or not. *)
Lemma fail_retires r i e : registry_ok r ->
  exists r', fail_ i e r = (Ok tt, r') /\ rtc retires r r' /\ is_current r' i = false /\ (is_current r i = false -> r' = r) /\
    forall t, get_lookup r' t = if decide (get_lookup r t = Some i) then None else get_lookup r t.
Proof.
  intros Hr. destruct (lookups r !! i) as [l|] eqn:El; [destruct (waiting_dec l) as [Hw|Hw]|].
  - destruct (ro_waiting r Hr i l El Hw) as (Hc & _).
    eexists. split; [by apply fail_current|]. split; [by eapply rtc_once, Retires|]. split; [|split].
    + unfold is_current, get_lookup. cbn. rewrite list_lookup_insert_eq by by eapply lookup_lt_Some.
      cbn. rewrite JsMap.get_delete_eq. by apply bool_decide_eq_false.
    + unfold is_current. by rewrite El, Hc, bool_decide_eq_true_2.
    + intros t. unfold get_lookup in *. cbn. destruct (decide (targetHex l = t)) as [<-|Hne].
      * by rewrite JsMap.get_delete_eq, Hc, decide_True.
      * rewrite JsMap.get_delete_ne by done. case_decide as E; [|done].
        destruct (ro_target r Hr _ _ E) as (l' & El' & Et & _). congruence.
  - exists r. split; [apply fail_other; naive_solver|]. split; [done|].
    assert (Hn : forall t, get_lookup r t <> Some i).
    { intros t E. destruct (ro_target r Hr _ _ E) as (l' & El' & _ & Hw'). congruence. }
    split; [unfold is_current; rewrite El; by apply bool_decide_eq_false|]. split; [done|].
    intros t. by rewrite decide_False.
  - exists r. split; [apply fail_other; naive_solver|]. split; [done|].
    split; [unfold is_current; by rewrite El|]. split; [done|]. intros t. rewrite decide_False; [done|].
    intros E. destruct (ro_target r Hr _ _ E) as (l' & El' & _). congruence.
Qed.

Lemma complete_retires r i hop : registry_ok r ->
  exists r', complete_ i hop r = (Ok tt, r') /\ rtc retires r r'.
Proof.
  intros Hr. destruct (lookups r !! i) as [l|] eqn:El; [destruct (waiting_dec l) as [Hw|Hw]|].
  - eexists. split; [by apply complete_current|]. by eapply rtc_once, Retires.
  - exists r. split; [apply complete_other; naive_solver|done].
  - exists r. split; [apply complete_other; naive_solver|done].
Qed.

Lemma fail_all e is_ r : registry_ok r ->
  exists r', for_each (fun i => fail_ i e) is_ r = (Ok tt, r') /\ rtc retires r r' /\
    forall t, get_lookup r' t = match get_lookup r t with Some i => if decide (i ∈ is_) then None else Some i | None => None end.
Proof.
  revert r. induction is_ as [|i is_ IH]; intros r Hr.
  - exists r. split; [done|]. split; [done|]. intros t. destruct (get_lookup r t) as [i|]; [|done].
    by rewrite decide_False by by apply not_elem_of_nil.
  - destruct (fail_retires r i e Hr) as (r1 & E1 & H1 & _ & _ & Hg1).
    destruct (IH r1) as (r2 & E2 & H2 & Hg2); [by eapply rtc_retires_ok|].
    exists r2. split; [cbn [for_each]; by rewrite (ST_bind_ok _ _ _ _ _ E1)|].
    split; [by etrans|]. intros t. rewrite Hg2, Hg1. destruct (get_lookup r t) as [j|] eqn:Ej.
    + destruct (decide (i = j)) as [<-|Hne].
      * rewrite decide_True by done. by rewrite decide_True by by left.
      * rewrite decide_False by congruence. repeat case_decide; try done; set_solver.
    + by case_decide.
Qed.

(** [stop] settles every lookup in flight. *)
Lemma stop_retires r : registry_ok r ->
  exists r', stop_ r = (Ok tt, r') /\ rtc retires r r' /\ byTarget r' = [] /\
    forall i l, lookups r' !! i = Some l -> promise l <> Waiting.
Proof.
  intros Hr. unfold stop_. destruct (fail_all (Error "FIPS node stopped") (map snd (byTarget r)) r Hr)
    as (r' & E & Hrt & Hg). exists r'. split; [done|]. split; [done|].
  pose proof (rtc_retires_ok _ _ Hr Hrt) as Hr'.
  assert (Hnone : forall t, get_lookup r' t = None).
  { intros t. rewrite Hg. destruct (get_lookup r t) as [i|] eqn:Ei; [|done]. rewrite decide_True; [done|].
    apply list_elem_of_fmap. exists (t, i). split; [done|]. by apply JsMap.get_elem. }
  split.
  - destruct (byTarget r') as [|[t i] m] eqn:Em; [done|]. specialize (Hnone t).
    unfold get_lookup in Hnone. rewrite Em in Hnone. cbn in Hnone. by rewrite decide_True in Hnone.
  - intros i l Hl Hw. destruct (ro_waiting r' Hr' i l Hl Hw) as [Hc _]. by rewrite Hnone in Hc.
Qed.

(** ** A further request id *)

Definition renewed (r : OriginLookupRegistry) (i : nat) (l : Lookup) (id : Z) : OriginLookupRegistry :=
  mkRegistry (maximum r) (byTarget r) (<[id := i]> (byRequest r)) (<[i := add_requestId id l]> (lookups r)).

Lemma fresh_not_in r i l id : registry_ok r -> lookups r !! i = Some l -> findRequest r id = None -> id ∉ requestIds l.
Proof.
  intros Hr Hl Hf Hin. assert (findRequest r id = Some i) by (apply ro_request; eauto). congruence.
Qed.

Lemma add_fresh_ids r i l id : registry_ok r -> lookups r !! i = Some l -> findRequest r id = None ->
  requestIds (add_requestId id l) = requestIds l ++ [id].
Proof. intros Hr Hl Hf. cbn. rewrite decide_False; [done|]. by eapply fresh_not_in. Qed.

Lemma renewed_ok r i l id : registry_ok r -> lookups r !! i = Some l -> promise l = Waiting ->
  findRequest r id = None -> registry_ok (renewed r i l id).
Proof.
  intros Hr Hl Hw Hf. pose proof (lookup_lt_Some _ _ _ Hl) as Hlt.
  pose proof (add_fresh_ids r i l id Hr Hl Hf) as Hids. pose proof (fresh_not_in r i l id Hr Hl Hf) as Hnew.
  destruct (ro_waiting r Hr i l Hl Hw) as (Hc & Hi & Hnd & Ht).
  split; unfold get_lookup, findRequest in *; cbn [renewed maximum byTarget byRequest lookups].
  - apply Hr.
  - apply Hr.
  - intros t j Hj. destruct (ro_target r Hr t j Hj) as (l' & El & Et & Ew).
    destruct (decide (i = j)) as [<-|Hne].
    + exists (add_requestId id l). rewrite list_lookup_insert_eq by done. replace l' with l in * by congruence. done.
    + exists l'. by rewrite list_lookup_insert_ne.
  - intros j l' Hj Hw'. destruct (decide (i = j)) as [<-|Hne].
    + rewrite list_lookup_insert_eq in Hj by done. injection Hj as <-. rewrite Hids. cbn [targetHex requestId timer add_requestId].
      split; [done|]. split; [set_solver|]. split; [|done]. apply NoDup_app.
      split; [done|]. split; [set_solver|]. apply NoDup_singleton.
    + rewrite list_lookup_insert_ne in Hj by done. by apply (ro_waiting r Hr j).
  - intros j l' Hj Hw'. destruct (decide (i = j)) as [<-|Hne].
    + rewrite list_lookup_insert_eq in Hj by done. by injection Hj as <-.
    + rewrite list_lookup_insert_ne in Hj by done. by apply (ro_settled r Hr j).
  - intros id' j. pose proof (ro_request r Hr) as Hreq. unfold findRequest in Hreq.
    destruct (decide (id = id')) as [<-|Hid].
    + rewrite lookup_insert_eq. split.
      * intros [= <-]. exists (add_requestId id l). rewrite list_lookup_insert_eq by done. rewrite Hids. set_solver.
      * intros (l' & Hj & Hin). destruct (decide (i = j)) as [|Hne]; [congruence|].
        rewrite list_lookup_insert_ne in Hj by done. exfalso.
        assert (byRequest r !! id = Some j) by (apply Hreq; eauto). congruence.
    + rewrite lookup_insert_ne, Hreq by done. destruct (decide (i = j)) as [<-|Hne].
      * rewrite list_lookup_insert_eq by done. split; intros (l' & El & Hin).
        -- replace l' with l in * by congruence. exists (add_requestId id l). rewrite Hids. set_solver.
        -- injection El as <-. exists l. rewrite Hids in Hin. set_solver.
      * by rewrite list_lookup_insert_ne.
Qed.

Lemma current_waiting r i : registry_ok r -> is_current r i = true <-> exists l, lookups r !! i = Some l /\ promise l = Waiting.
Proof.
  intros Hr. unfold is_current. destruct (lookups r !! i) as [l|] eqn:El; [|split; [done|naive_solver]].
  rewrite bool_decide_eq_true. split.
  - intros E. destruct (ro_target r Hr _ _ E) as (l' & El' & _ & Hw). exists l'. split; [congruence|done].
  - intros (l' & [= <-] & Hw). by apply (ro_waiting r Hr).
Qed.

(** One turn of the retry loop, up to the call of [send]. *)
Lemma retry_head_run t draws r : registry_ok r ->
  exists t' r', retry_head t draws r = (Ok t', r') /\ rt_lookup t' = rt_lookup t /\
    (rt_at t' = AtEnd /\ rtc retires r r' \/
     exists l, lookups r !! rt_lookup t = Some l /\ promise l = Waiting /\
       t' = mkTask (rt_lookup t) (intervalMs t) false AtSend /\
       (first t = true /\ r' = r \/
        exists id, first t = false /\ findRequest r id = None /\ r' = renewed r (rt_lookup t) l id)).
Proof.
  intros Hr. unfold retry_head. rewrite ST_get_bind. destruct (is_current r (rt_lookup t)) eqn:Ec.
  - pose proof Ec as Hc. rewrite current_waiting in Ec by done. destruct Ec as (l & El & Hw).
    destruct (first t) eqn:Ef.
    + exists (mkTask (rt_lookup t) (intervalMs t) false AtSend), r. split; [done|]. split; [done|].
      right. exists l. split; [done|]. split; [done|]. split; [done|]. left. done.
    + unfold renew. destruct (nextRequestId_run draws r) as (res & E & Hf). destruct res as [id|e].
      * specialize (Hf id eq_refl). exists (mkTask (rt_lookup t) (intervalMs t) false AtSend), (renewed r (rt_lookup t) l id).
        split.
        { unfold try_catch, mbind, ST_bind. rewrite E. unfold modify, alter_lookup, mret, ST_ret, renewed. cbn.
          by rewrite (alter_some (add_requestId id) (lookups r) (rt_lookup t) l El). }
        split; [done|]. right. exists l. split; [done|]. split; [done|]. split; [done|]. right. exists id. done.
      * destruct (fail_retires r (rt_lookup t) e Hr) as (r' & E' & Hrt & _).
        eexists _, r'. split.
        { unfold try_catch, mbind, ST_bind. rewrite E. by rewrite E'. }
        split; [done|]. left. done.
  - eexists _, r. split; [done|]. split; [done|]. left. done.
Qed.

Lemma retry_sent_run t sent now r : registry_ok r ->
  exists t' r', retry_sent t sent now r = (Ok t', r') /\ rt_lookup t' = rt_lookup t /\
    intervalMs t' = intervalMs t /\ first t' = first t /\
    (rt_at t' = AtEnd /\ rtc retires r r' \/ rt_at t' = AtRace (now + intervalMs t) /\ r' = r).
Proof.
  intros Hr. unfold retry_sent. destruct sent as [a|e].
  - rewrite ST_get_bind. eexists _, r. split; [done|]. cbn. split_and!; try done.
    destruct (is_current r (rt_lookup t)); [by right|by left].
  - destruct (fail_retires r (rt_lookup t) e Hr) as (r' & E' & Hrt & _).
    eexists _, r'. split; [by rewrite (ST_bind_ok _ _ _ _ _ E')|]. split_and!; try done. by left.
Qed.

(** ** The schedule of the attempts *)

(** The pause after attempt [m], counted from 0, and the earliest start of
    attempt [m] after the lookup was made. *)
Definition pause (m : nat) : Z := Z.min (250 * 2 ^ Z.of_nat m) 1000.

Fixpoint begins (m : nat) : Z :=
  match m with
  | O => 0
  | S m => begins m + pause m
  end.

Lemma pause_next m : Z.min (pause m * 2) 1000 = pause (S m).
Proof.
  unfold pause. rewrite Nat2Z.inj_succ, Z.pow_succ_r by lia.
  pose proof (Z.pow_pos_nonneg 2 (Z.of_nat m) ltac:(lia) ltac:(lia)). lia.
Qed.

Lemma begins_mono m k : (m <= k)%nat -> begins m <= begins k.
Proof.
  induction 1 as [|k _ IH]; [done|]. cbn [begins]. unfold pause.
  pose proof (Z.pow_pos_nonneg 2 (Z.of_nat k) ltac:(lia) ltac:(lia)). lia.
Qed.

(** No attempt after the seventh starts within five seconds. *)
Lemma begins_seven m : begins m <= LOOKUP_ORIGIN_TIMEOUT_MS -> (m < 7)%nat.
Proof.
  intros Hm. destruct (le_lt_dec 7 m) as [Hge|]; [|done]. apply begins_mono in Hge.
  change (begins 7) with 5750 in Hge. unfold LOOKUP_ORIGIN_TIMEOUT_MS in *. lia.
Qed.

(** Where a retry loop may stand at time [now], for a lookup made at [t0] with
    [S m] attempts. *)
Definition paced (now t0 : Z) (m : nat) (t : RetryTask) : Prop :=
  match rt_at t with
  | AtHead => if first t then m = O /\ intervalMs t = pause 0
              else intervalMs t = pause (S m) /\ t0 + begins (S m) <= now
  | AtSend => first t = false /\ intervalMs t = pause m
  | AtRace wakeAt => first t = false /\ intervalMs t = pause m /\ t0 + begins (S m) <= wakeAt
  | AtEnd => True
  end.

(** A lookup in flight has made its attempts in time, and so has its loop. *)
Definition on_time (now : Z) (l : Lookup) : Prop :=
  exists d m, timer l = Some d /\ now <= d /\ length (requestIds l) = S m /\
    d - LOOKUP_ORIGIN_TIMEOUT_MS + begins m <= now.

Definition task_on_time (now : Z) (l : Lookup) (t : RetryTask) : Prop :=
  forall d m, timer l = Some d -> length (requestIds l) = S m -> paced now (d - LOOKUP_ORIGIN_TIMEOUT_MS) m t.

Record world_ok (w : World) : Prop := {
  wo_registry : registry_ok (registry w);
  wo_maximum : maximum (registry w) = MAX_PENDING_ORIGIN_LOOKUPS;
  wo_lookup : forall i l, lookups (registry w) !! i = Some l -> promise l = Waiting -> on_time (clock w) l;
  wo_nodup : NoDup (map rt_lookup (tasks w));
  wo_known : Forall (fun t => (rt_lookup t < length (lookups (registry w)))%nat) (tasks w);
  wo_task : forall k t l, tasks w !! k = Some t -> lookups (registry w) !! rt_lookup t = Some l ->
    promise l = Waiting -> task_on_time (clock w) l t;
}.

Lemma map_insert_same {A B} (f : A -> B) (ls : list A) k x y : ls !! k = Some x -> f y = f x -> map f (<[k := y]> ls) = map f ls.
Proof.
  revert k. induction ls as [|z ls IH]; intros [|k] E Hf; try done; cbn in *.
  - injection E as ->. by rewrite Hf.
  - f_equal. by apply IH.
Qed.

(** A step that takes lookups out, and moves one loop to a place where it may be. *)
Lemma world_ok_retires w r : world_ok w -> rtc retires (registry w) r -> world_ok (mkWorld r (clock w) (tasks w)).
Proof.
  intros [Hr Hm Hl Hn Hk Ht] Hrt. destruct (rtc_retires_same _ _ Hrt) as [Em El].
  split; cbn; [by eapply rtc_retires_ok|congruence| |done|by rewrite El|].
  - intros i l E Hw. apply (Hl i l); [exact (rtc_retires_waiting _ _ _ _ Hrt E Hw)|done].
  - intros k t l Ek E Hw. apply (Ht k t l Ek); [exact (rtc_retires_waiting _ _ _ _ Hrt E Hw)|done].
Qed.

Lemma world_ok_task w k t t' : world_ok w -> tasks w !! k = Some t -> rt_lookup t' = rt_lookup t ->
  (forall l, lookups (registry w) !! rt_lookup t = Some l -> promise l = Waiting ->
    task_on_time (clock w) l t -> task_on_time (clock w) l t') ->
  world_ok (mkWorld (registry w) (clock w) (<[k := t']> (tasks w))).
Proof.
  intros [Hr Hm Hl Hn Hk Ht] Ek Hi Hp. split; cbn; try done.
  - by rewrite (map_insert_same rt_lookup _ k t).
  - apply Forall_insert; [done|]. rewrite Hi. exact (Forall_lookup_1 _ _ _ _ Hk Ek).
  - intros j u l Ej El Hw. destruct (decide (k = j)) as [<-|Hne].
    + rewrite list_lookup_insert_eq in Ej by by eapply lookup_lt_Some. injection Ej as <-.
      rewrite Hi in El. apply Hp; [done..|]. by apply (Ht k).
    + rewrite list_lookup_insert_ne in Ej by done. by apply (Ht j).
Qed.

Lemma world_ok_create w id l t :
  world_ok w -> get_lookup (registry w) (targetHex l) = None -> findRequest (registry w) id = None ->
  len (byTarget (registry w)) < maximum (registry w) -> promise l = Waiting -> requestId l = id -> requestIds l = [id] ->
  timer l = Some (clock w + LOOKUP_ORIGIN_TIMEOUT_MS) -> t = retry (length (lookups (registry w))) ->
  world_ok (mkWorld (created (registry w) id l) (clock w) (tasks w ++ [t])).
Proof.
  intros [Hr Hm Hl Hn Hk Ht] Hg Hf Hmax Hw Hi His Hti ->. rewrite Forall_forall in Hk.
  split; cbn [registry clock tasks].
  - apply created_ok; try done.
  - done.
  - intros i l' [[_ E]|[-> <-]]%lookup_snoc_Some Hw'; [by apply (Hl i)|].
    exists (clock w + LOOKUP_ORIGIN_TIMEOUT_MS), O. rewrite Hti, His. cbn. unfold LOOKUP_ORIGIN_TIMEOUT_MS. split_and!; lia || done.
  - rewrite map_app. apply NoDup_app. split; [done|]. split; [|apply NoDup_singleton].
    intros x (t & -> & Hin)%list_elem_of_fmap. apply Hk in Hin. cbn. rewrite list_elem_of_singleton. lia.
  - apply Forall_app. split; [|by repeat constructor; cbn; rewrite length_app; cbn; lia].
    apply Forall_forall. intros t Hin%Hk. cbn. rewrite length_app. cbn. lia.
  - intros k t l' [[_ Ek]|[-> <-]]%lookup_snoc_Some El Hw'.
    + pose proof (list_elem_of_lookup_2 _ _ _ Ek) as Hin%Hk.
      cbn in El. rewrite lookup_app_l in El by done. by apply (Ht k).
    + cbn in El. rewrite list_lookup_middle in El by done. injection El as <-. intros d m Hd Hlen.
      rewrite His in Hlen. injection Hlen as <-. done.
Qed.

Lemma world_ok_renew w k t l id :
  world_ok w -> tasks w !! k = Some t -> rt_at t = AtHead -> first t = false ->
  lookups (registry w) !! rt_lookup t = Some l -> promise l = Waiting -> findRequest (registry w) id = None ->
  world_ok (mkWorld (renewed (registry w) (rt_lookup t) l id) (clock w)
    (<[k := mkTask (rt_lookup t) (intervalMs t) false AtSend]> (tasks w))).
Proof.
  intros [Hr Hm Hl Hn Hk Ht] Ek Hat Hfirst El Hw Hf. pose proof (lookup_lt_Some _ _ _ El) as Hlt.
  destruct (Hl _ _ El Hw) as (d & m & Hd & Hnow & Hlen & Hb).
  pose proof (Ht k t l Ek El Hw d m Hd Hlen) as Hp. unfold paced in Hp. rewrite Hat, Hfirst in Hp.
  pose proof (add_fresh_ids _ _ _ id Hr El Hf) as Hids.
  assert (Hlen' : length (requestIds (add_requestId id l)) = S (S m)) by (rewrite Hids, length_app; cbn; lia).
  split; cbn [registry clock tasks].
  - by apply renewed_ok.
  - done.
  - intros i l' E Hw'. cbn [lookups renewed] in E. destruct (decide (rt_lookup t = i)) as [<-|Hne].
    + rewrite list_lookup_insert_eq in E by done. injection E as <-. exists d, (S m). destruct Hp. done.
    + rewrite list_lookup_insert_ne in E by done. by apply (Hl i).
  - by rewrite (map_insert_same rt_lookup _ k t).
  - cbn [lookups renewed]. rewrite length_insert. by apply Forall_insert.
  - intros j u l' Ej E Hw'. cbn [lookups renewed] in E. destruct (decide (k = j)) as [<-|Hne].
    + rewrite list_lookup_insert_eq in Ej by by eapply lookup_lt_Some. injection Ej as <-. cbn [rt_lookup] in E.
      rewrite list_lookup_insert_eq in E by done. injection E as <-. intros d' m' Hd' Hm'.
      rewrite Hlen' in Hm'. injection Hm' as <-. destruct Hp. split; done.
    + rewrite list_lookup_insert_ne in Ej by done.
      rewrite list_lookup_insert_ne in E; [by apply (Ht j)|]. intros Heq. apply Hne.
      eapply NoDup_lookup; [exact Hn|by rewrite list_lookup_fmap, Ek|rewrite list_lookup_fmap, Ej; cbn; by rewrite Heq].
Qed.

(** ** Every step keeps the invariant *)

Lemma task_ended now l t : rt_at t = AtEnd -> task_on_time now l t.
Proof. intros E d m _ _. unfold paced. by rewrite E. Qed.

Lemma world_ok_head w k t draws t' r : world_ok w -> tasks w !! k = Some t -> rt_at t = AtHead ->
  retry_head t draws (registry w) = (Ok t', r) -> world_ok (mkWorld r (clock w) (<[k := t']> (tasks w))).
Proof.
  intros Hw Ek Hat E. destruct (retry_head_run t draws _ (wo_registry w Hw)) as (u & s & E' & Hu & Hcase).
  rewrite E in E'. injection E' as <- <-. destruct Hcase as [[Hend Hrt]|(l & El & Hwait & -> & Hcase)].
  - apply (world_ok_task (mkWorld r (clock w) (tasks w)) k t); [by apply world_ok_retires|done..|].
    intros. by apply task_ended.
  - destruct Hcase as [[Hf ->]|(id & Hf & Hid & ->)]; [|by apply world_ok_renew].
    apply (world_ok_task w k t); [done..|]. intros l' _ _ Hp d m Hd Hm. specialize (Hp d m Hd Hm).
    unfold paced in *. rewrite Hat, Hf in Hp. destruct Hp as [-> Hi]. done.
Qed.

Lemma world_ok_sent w k t sent t' r : world_ok w -> tasks w !! k = Some t -> rt_at t = AtSend ->
  retry_sent t sent (clock w) (registry w) = (Ok t', r) -> world_ok (mkWorld r (clock w) (<[k := t']> (tasks w))).
Proof.
  intros Hw Ek Hat E. destruct (retry_sent_run t sent (clock w) _ (wo_registry w Hw)) as (u & s & E' & Hu & Hi & Hf & Hcase).
  rewrite E in E'. injection E' as <- <-. destruct Hcase as [[Hend Hrt]|[Hrace ->]].
  - apply (world_ok_task (mkWorld r (clock w) (tasks w)) k t); [by apply world_ok_retires|done..|].
    intros. by apply task_ended.
  - apply (world_ok_task w k t); [done..|]. intros l El Hwait Hp d m Hd Hm.
    destruct (wo_lookup w Hw _ _ El Hwait) as (d' & m' & Hd' & _ & Hm' & Hb).
    specialize (Hp d m Hd Hm). unfold paced in *. rewrite Hat in Hp. rewrite Hrace, Hf, Hi.
    destruct Hp as [? Hp]. split; [done|]. split; [done|].
    rewrite Hd in Hd'. rewrite Hm in Hm'. simplify_eq. cbn [begins]. lia.
Qed.

Lemma world_ok_wake w k t wakeAt l : world_ok w -> tasks w !! k = Some t -> rt_at t = AtRace wakeAt ->
  lookups (registry w) !! rt_lookup t = Some l -> (promise l <> Waiting \/ wakeAt <= clock w) ->
  world_ok (mkWorld (registry w) (clock w) (<[k := retry_wake t]> (tasks w))).
Proof.
  intros Hw Ek Hat El Hc. apply (world_ok_task w k t); [done..|]. intros l' El' Hwait Hp d m Hd Hm.
  specialize (Hp d m Hd Hm). unfold paced in *. rewrite Hat in Hp. destruct Hp as (Hf & Hi & Ha). cbn.
  rewrite Hf, Hi, pause_next. split; [done|]. destruct Hc as [Hc|Hc]; [congruence|]. cbn [begins] in Ha. lia.
Qed.

Lemma world_ok_tick w t : world_ok w -> clock w <= t -> no_deadline_before (registry w) t ->
  world_ok (mkWorld (registry w) t (tasks w)).
Proof.
  intros [Hr Hm Hl Hn Hk Ht] Hle Hdue. split; cbn; try done.
  - intros i l E Hw. destruct (Hl i l E Hw) as (d & m & Hd & _ & Hlen & Hb). exists d, m.
    split; [done|]. split; [by eapply Hdue|]. split; [done|]. lia.
  - intros k u l Ek El Hw d m Hd Hlen. specialize (Ht k u l Ek El Hw d m Hd Hlen).
    unfold paced in *. destruct (rt_at u); try done. destruct (first u); [done|].
    destruct Ht. split; [done|]. lia.
Qed.

Lemma world_step_ok w w' : world_ok w -> world_step w w' -> world_ok w'.
Proof.
  intros Hw Hs. pose proof (wo_registry w Hw) as Hr. destruct Hs as
    [target pubkey mtu draws i r Hg E|target pubkey mtu draws e r Hg E|k t draws t' r Ek Ha E|k t sent t' r Ek Ha E
    |k t wakeAt l Ek Ha El Hc|i hop r E|i e r E|r E|i l d r El Hd Hle E|t Hle Hdue].
  - destruct (create_run target pubkey mtu draws (clock w) LOOKUP_ORIGIN_TIMEOUT_MS (registry w))
      as [[e E']|(id & E' & Hf & Hm)]; rewrite E in E'; [done|]. injection E' as -> ->.
    by apply world_ok_create.
  - destruct (create_run target pubkey mtu draws (clock w) LOOKUP_ORIGIN_TIMEOUT_MS (registry w))
      as [[e' E']|(id & E' & _)]; rewrite E in E'; [|done]. injection E' as _ ->. by destruct w.
  - by eapply world_ok_head.
  - by eapply world_ok_sent.
  - by eapply world_ok_wake.
  - destruct (complete_retires _ i hop Hr) as (r' & E' & Hrt). rewrite E in E'. injection E' as <-.
    by apply world_ok_retires.
  - destruct (fail_retires _ i e Hr) as (r' & E' & Hrt & _). rewrite E in E'. injection E' as <-.
    by apply world_ok_retires.
  - destruct (stop_retires _ Hr) as (r' & E' & Hrt & _). rewrite E in E'. injection E' as <-.
    by apply world_ok_retires.
  - destruct (fail_retires _ i (Error "no route") Hr) as (r' & E' & Hrt & _). rewrite E in E'. injection E' as <-.
    by apply world_ok_retires.
  - by apply world_ok_tick.
Qed.

Lemma new_world_ok start : world_ok (new_world start).
Proof.
  split; cbn; try done; [|constructor].
  split; cbn; try done; [constructor|by left|]. unfold findRequest. cbn. intros id i.
  rewrite lookup_empty. split; [done|]. by intros (l & E & _).
Qed.

Lemma reachable_ok start w : rtc world_step (new_world start) w -> world_ok w.
Proof. apply (rtc_invariant world_step); [apply world_step_ok|apply new_world_ok]. Qed.

(** ** A lookup is settled once *)

Definition evolves (r r' : OriginLookupRegistry) : Prop :=
  forall i l, lookups r !! i = Some l -> exists l', lookups r' !! i = Some l' /\ targetHex l' = targetHex l /\
    (promise l <> Waiting -> l' = l).

#[export] Instance evolves_preorder : PreOrder evolves.
Proof.
  split; [intros r i l E; by exists l|]. intros r1 r2 r3 H12 H23 i l E.
  destruct (H12 i l E) as (l2 & E2 & T2 & S2). destruct (H23 i l2 E2) as (l3 & E3 & T3 & S3).
  exists l3. split; [done|]. split; [congruence|]. intros Hs. specialize (S2 Hs). subst. auto.
Qed.

Lemma evolves_update r m b q i l l' : lookups r !! i = Some l -> promise l = Waiting -> targetHex l' = targetHex l ->
  evolves r (mkRegistry m b q (<[i := l']> (lookups r))).
Proof.
  intros El Hw Ht j x Ej. cbn. destruct (decide (i = j)) as [<-|Hne].
  - exists l'. rewrite list_lookup_insert_eq by by eapply lookup_lt_Some. split; [done|].
    replace x with l by congruence. done.
  - exists x. by rewrite list_lookup_insert_ne.
Qed.

Lemma rtc_retires_evolves r r' : rtc retires r r' -> evolves r r'.
Proof.
  induction 1 as [|r r2 r3 [i l hop s El Hw _] _ IH]; [done|]. etrans; [|exact IH].
  by eapply evolves_update.
Qed.

Lemma world_step_evolves w w' : world_ok w -> world_step w w' -> evolves (registry w) (registry w').
Proof.
  intros Hw Hs. pose proof (wo_registry w Hw) as Hr. destruct Hs as
    [target pubkey mtu draws i r Hg E|target pubkey mtu draws e r Hg E|k t draws t' r Ek Ha E|k t sent t' r Ek Ha E
    |k t wakeAt l Ek Ha El Hc|i hop r E|i e r E|r E|i l d r El Hd Hle E|t Hle Hdue]; cbn; try done.
  - destruct (create_run target pubkey mtu draws (clock w) LOOKUP_ORIGIN_TIMEOUT_MS (registry w))
      as [[e E']|(id & E' & Hf & Hm)]; rewrite E in E'; [done|]. injection E' as -> ->.
    intros j l Ej. exists l. split; [|done]. cbn. by rewrite lookup_app_l by by eapply lookup_lt_Some.
  - destruct (create_run target pubkey mtu draws (clock w) LOOKUP_ORIGIN_TIMEOUT_MS (registry w))
      as [[e' E']|(id & E' & _)]; rewrite E in E'; [|done]. by injection E' as _ ->.
  - destruct (retry_head_run t draws _ Hr) as (u & s & E' & Hu & Hcase). rewrite E in E'. injection E' as <- <-.
    destruct Hcase as [[_ Hrt]|(l & El & Hwait & _ & [[_ ->]|(id & _ & _ & ->)])]; [by apply rtc_retires_evolves|done|].
    by eapply evolves_update.
  - destruct (retry_sent_run t sent (clock w) _ Hr) as (u & s & E' & _ & _ & _ & Hcase). rewrite E in E'.
    injection E' as <- <-. destruct Hcase as [[_ Hrt]|[_ ->]]; [by apply rtc_retires_evolves|done].
  - destruct (complete_retires _ i hop Hr) as (r' & E' & Hrt). rewrite E in E'. injection E' as <-.
    by apply rtc_retires_evolves.
  - destruct (fail_retires _ i e Hr) as (r' & E' & Hrt & _). rewrite E in E'. injection E' as <-.
    by apply rtc_retires_evolves.
  - destruct (stop_retires _ Hr) as (r' & E' & Hrt & _). rewrite E in E'. injection E' as <-.
    by apply rtc_retires_evolves.
  - destruct (fail_retires _ i (Error "no route") Hr) as (r' & E' & Hrt & _). rewrite E in E'. injection E' as <-.
    by apply rtc_retires_evolves.
Qed.

Lemma run_evolves w w' : world_ok w -> rtc world_step w w' -> evolves (registry w) (registry w').
Proof.
  intros Hw H. revert Hw. induction H as [|w1 w2 w3 H12 _ IH]; intros Hw; [done|].
  etrans; [by apply world_step_evolves|]. apply IH. by eapply world_step_ok.
Qed.

(** ** Properties *)

(** C18: However lookups are started, retried, answered, failed, timed out or
    stopped: at most 64 are in flight; a lookup in flight is the one found under
    its target and under every request id sent for it; an id that is found
    belongs to a lookup in flight; and a settled lookup never changes again.
    [stop] never throws, settles every lookup and empties both maps. *)
Theorem origin_lookups_consistent (start : Z) (w w' : World) :
  rtc world_step (new_world start) w -> rtc world_step w w' ->
  len (byTarget (registry w)) <= MAX_PENDING_ORIGIN_LOOKUPS /\
  (forall i l, lookups (registry w) !! i = Some l -> promise l = Waiting ->
    get_lookup (registry w) (targetHex l) = Some i /\
    forall id, id ∈ requestIds l -> findRequest (registry w) id = Some i) /\
  (forall id i, findRequest (registry w) id = Some i -> exists l, lookups (registry w) !! i = Some l /\
    promise l = Waiting /\ id ∈ requestIds l) /\
  (forall i l, lookups (registry w) !! i = Some l -> promise l <> Waiting -> lookups (registry w') !! i = Some l) /\
  (exists r, stop_ (registry w) = (Ok tt, r) /\ byTarget r = [] /\ byRequest r = ∅ /\
    forall i l, lookups r !! i = Some l -> promise l <> Waiting).
Proof.
  intros Hrun Hrest. pose proof (reachable_ok _ _ Hrun) as Hw. pose proof (wo_registry w Hw) as Hr. split_and!.
  - destruct (ro_size _ Hr) as [->|Hs]; [vm_compute; discriminate|]. by rewrite <- (wo_maximum w Hw).
  - intros i l El Hwait. split; [by apply (ro_waiting _ Hr)|]. intros id Hid. apply ro_request; eauto.
  - intros id i Hf. apply ro_request in Hf as (l & El & Hid); [|done]. exists l. split; [done|]. split; [|done].
    destruct (waiting_dec l) as [|Hs]; [done|]. destruct (ro_settled _ Hr i l El Hs) as [Hn _].
    rewrite Hn in Hid. by apply not_elem_of_nil in Hid.
  - intros i l El Hs. destruct (run_evolves w w' Hw Hrest i l El) as (l' & El' & _ & Hsame). by rewrite <- (Hsame Hs).
  - destruct (stop_retires _ Hr) as (r & E & Hrt & Hb & Hs). exists r. split; [done|]. split; [done|].
    split; [|done]. pose proof (rtc_retires_ok _ _ Hr Hrt) as Hr'. apply map_eq. intros id. rewrite lookup_empty.
    destruct (byRequest r !! id) as [i|] eqn:Ei; [|done]. apply (ro_request r Hr') in Ei as (l & El & Hid).
    destruct (ro_settled r Hr' i l El (Hs i l El)) as [Hn _]. rewrite Hn in Hid. by apply not_elem_of_nil in Hid.
Qed.

(** The ids that lookup [i] has in use. *)
Definition ids_of (r : OriginLookupRegistry) (i : nat) : list Z :=
  match lookups r !! i with Some l => requestIds l | None => [] end.

Lemma size_list_to_set_le (l : list Z) : (size (list_to_set l : gset Z) <= length l)%nat.
Proof.
  induction l as [|x l IH]; [done|]. cbn [list_to_set length]. rewrite size_union_alt, size_singleton.
  pose proof (subseteq_size (list_to_set l ∖ {[x]} : gset Z) (list_to_set l) ltac:(set_solver)). lia.
Qed.

Lemma size_byRequest r n : registry_ok r ->
  (forall i l, lookups r !! i = Some l -> promise l = Waiting -> (length (requestIds l) <= n)%nat) ->
  (size (byRequest r) <= n * length (byTarget r))%nat.
Proof.
  intros Hr Hn. rewrite <- (size_dom (D := gset Z)). etrans; [apply (subseteq_size (C := gset Z)
    _ (list_to_set (concat (map (fun p => ids_of r p.2) (byTarget r)))))|].
  - intros id [i Hi]%elem_of_dom. apply elem_of_list_to_set.
    pose proof Hi as (l & El & Hid)%(ro_request r Hr).
    destruct (waiting_dec l) as [Hw|Hs].
    + destruct (ro_waiting r Hr i l El Hw) as [Hg _]. apply JsMap.get_elem in Hg.
      apply list_elem_of_In, in_concat. exists (requestIds l). split; [|by apply list_elem_of_In].
      apply in_map_iff. exists (targetHex l, i). unfold ids_of. cbn. rewrite El. split; [done|]. by apply list_elem_of_In.
    + destruct (ro_settled r Hr i l El Hs) as [E _]. rewrite E in Hid. by apply not_elem_of_nil in Hid.
  - rewrite size_list_to_set_le. induction (byTarget r) as [|p m IH]; cbn; [lia|].
    rewrite length_app. unfold ids_of at 1. destruct (lookups r !! p.2) as [l|] eqn:El; cbn; [|lia].
    destruct (waiting_dec l) as [Hw|Hs]; [pose proof (Hn _ _ El Hw); lia|].
    destruct (ro_settled r Hr _ l El Hs) as [-> _]. cbn. lia.
Qed.

(** The retries stay within the deadline. While a lookup is in flight the
    clock has not passed its five-second deadline and at most seven request ids
    were sent for it, attempt [m] no earlier than the pauses 250, 500, 1000,
    1000, ... ms allow; so at most 448 ids are in use. When the deadline of a
    lookup is reached its promise is rejected, and the retry loop of a settled
    lookup returns at its next turn and sends nothing. *)
Lemma lookup_retry_budget (start : Z) (w : World) :
  rtc world_step (new_world start) w ->
  (forall i l, lookups (registry w) !! i = Some l -> promise l = Waiting ->
    exists d m, timer l = Some d /\ clock w <= d /\ length (requestIds l) = S m /\ (m < 7)%nat /\
      d - LOOKUP_ORIGIN_TIMEOUT_MS + begins m <= clock w) /\
  (size (byRequest (registry w)) <= 448)%nat /\
  (forall i l d, lookups (registry w) !! i = Some l -> timer l = Some d -> exists r l',
    fail_ i (Error "no route") (registry w) = (Ok tt, r) /\ lookups r !! i = Some l' /\
    promise l' = Rejected (Error "no route")) /\
  (forall k t l draws, tasks w !! k = Some t -> lookups (registry w) !! rt_lookup t = Some l -> promise l <> Waiting ->
    exists t', retry_head t draws (registry w) = (Ok t', registry w) /\ rt_at t' = AtEnd).
Proof.
  intros Hrun. pose proof (reachable_ok _ _ Hrun) as Hw. pose proof (wo_registry w Hw) as Hr.
  assert (Hbudget : forall i l, lookups (registry w) !! i = Some l -> promise l = Waiting ->
    exists d m, timer l = Some d /\ clock w <= d /\ length (requestIds l) = S m /\ (m < 7)%nat /\
      d - LOOKUP_ORIGIN_TIMEOUT_MS + begins m <= clock w).
  { intros i l El Hwait. destruct (wo_lookup w Hw i l El Hwait) as (d & m & Hd & Hnow & Hlen & Hb).
    exists d, m. split_and!; try done. apply begins_seven. lia. }
  split; [done|]. split; [|split].
  - pose proof (size_byRequest (registry w) 7 Hr) as Hsize.
    assert (Hseven : (size (byRequest (registry w)) <= 7 * length (byTarget (registry w)))%nat).
    { apply Hsize. intros i l El Hwait. destruct (Hbudget i l El Hwait) as (d & m & _ & _ & -> & Hm & _). lia. }
    destruct (ro_size _ Hr) as [E|Hs]; [rewrite E in Hseven; cbn in *; lia|].
    rewrite (wo_maximum w Hw) in Hs. unfold MAX_PENDING_ORIGIN_LOOKUPS, len in *. lia.
  - intros i l d El Hd. destruct (waiting_dec l) as [Hwait|Hs].
    + eexists _, _. split; [by apply fail_current|]. cbn. split; [by eapply list_lookup_insert_eq, lookup_lt_Some|done].
    + destruct (ro_settled _ Hr i l El Hs) as [_ Hn]. congruence.
  - intros k t l draws Ek El Hs. unfold retry_head. rewrite ST_get_bind.
    destruct (is_current (registry w) (rt_lookup t)) eqn:Ec; [|eexists; done].
    apply current_waiting in Ec as (l' & El' & Hwait); [|done]. congruence.
Qed.

(** ** An example run

    A lookup is started, its first packet is lost, a second id is drawn after
    250 ms, and the answer to it completes the lookup. *)
Definition demo_draws (n : Z) (k : nat) : result bytes := Ok (le_bytes 8 (n + Z.of_nat k)).

Definition demo_lookup (ids : list Z) (hop : option string) (s : Settlement) (due : option Z) : Lookup :=
  mkLookup (default 0 (last ids)) "aa" None 0 hop ids s due.

Definition demo_world (l : Lookup) (now : Z) (t : RetryTask) : World :=
  mkWorld (mkRegistry 64 (match promise l with Waiting => [("aa"%string, 0%nat)] | _ => [] end)
    (list_to_map (map (fun id => (id, 0%nat)) (requestIds l))) [l]) now [t].

Definition demo_retried : World :=
  demo_world (demo_lookup [7; 8] None Waiting (Some 5000)) 250 (mkTask 0 500 false AtSend).

Definition demo_answered : World :=
  demo_world (mkLookup 8 "aa" None 0 (Some "bb"%string) [] Resolved None) 250 (mkTask 0 500 false AtSend).

Lemma demo_run_retried : rtc world_step (new_world 0) demo_retried.
Proof.
  eapply rtc_l; [by eapply (StepStart _ "aa"%string None None (demo_draws 7)); vm_compute|].
  eapply rtc_l; [by eapply (StepHead _ 0 _ (demo_draws 0)); [reflexivity..|vm_compute; reflexivity]|].
  eapply rtc_l; [by eapply (StepSent _ 0 _ (Ok tt)); [reflexivity..|vm_compute; reflexivity]|].
  eapply rtc_l.
  { apply (StepTick _ 250); [vm_compute; discriminate|]. intros [|[|i]] l d E; cbn in E; try done.
    injection E as <-. cbn. intros [= <-]. lia. }
  eapply rtc_l; [by eapply (StepWake _ 0); [reflexivity..|right; vm_compute; discriminate]|].
  eapply rtc_l; [by eapply (StepHead _ 0 _ (demo_draws 7)); [reflexivity..|vm_compute; reflexivity]|].
  apply rtc_refl.
Qed.

Lemma demo_run_answered : rtc world_step demo_retried demo_answered.
Proof.
  eapply rtc_l; [by eapply (StepComplete _ 0 (Some "bb"%string)); vm_compute; reflexivity|]. apply rtc_refl.
Qed.

Lemma origin_lookups_consistent_witness :
  len (byTarget (registry demo_answered)) <= MAX_PENDING_ORIGIN_LOOKUPS /\
  findRequest (registry demo_retried) 7 = Some 0%nat /\ findRequest (registry demo_answered) 7 = None.
Proof.
  split; [|split; vm_compute; reflexivity].
  apply (origin_lookups_consistent 0 demo_answered demo_answered).
  - etrans; [apply demo_run_retried|apply demo_run_answered].
  - apply rtc_refl.
Defined.

Lemma lookup_retry_budget_witness : (size (byRequest (registry demo_retried)) <= 448)%nat.
Proof. apply (lookup_retry_budget 0 demo_retried), demo_run_retried. Defined.
