(* ===== verification/Peers.v ===== *)
(** * Adjacent peers

    [node/PeerState.ts], [node/PendingFmpResponders.ts], [node/routingHelpers.ts]
    and [transport/types.ts]: the record a node keeps for each adjacent peer, the
    bounded set of responder handshakes awaiting confirmation, and the choice of
    a carrier. Peers and links are shared objects: a reference is a position in
    the store of objects, and every reference is in the store. *)

From S2P Require Import Prelude Codec Crypto Toy NodeAddr Identity F64 Bloom Noise Link FmpLink DirectTransport.

(** ** Transports, as far as the node reads them

    A transport is compared by identity, which [tr_id] stands for. *)

Record TransportAddress := mkAddress { ta_transport : string; ta_addr : string }.

Definition transportAddressKey (a : TransportAddress) : string :=
  (ta_transport a ++ ":" ++ ta_addr a)%string.

Record Transport := mkTransport {
  tr_id : nat;
  tr_type : string;
  mtu : Z;
  maxFrameBytes : option Z;
  identityMayChangeAtAddress : bool;
}.

(** A [DiscoveredPeer], without its metadata. *)
Record DiscoveredPeer := mkDiscovered { dp_remoteAddr : TransportAddress; dp_publicKey : option bytes }.

(** ** Peers *)

Definition FMP_HANDSHAKE_TIMEOUT_MS : Z := 15000.
Definition MAX_PENDING_FMP_RESPONDERS : Z := 64.

Definition sameCompressedIdentity (a b : bytes) : bool :=
  (len a =? 33) && (len b =? 33)
  && ((byte_at a 0 =? 2) || (byte_at a 0 =? 3)) && ((byte_at b 0 =? 2) || (byte_at b 0 =? 3))
  && bytesEqual (subarray_from a 1) (subarray_from b 1).

Record AdjacentPeer := mkPeer {
  ap_pubkey : bytes;
  ap_pubkeyHex : string;
  ap_remoteAddr : TransportAddress;
  ap_transport : Transport;
  ap_link : nat;
  pendingResponderLink : option nat;
  drainingResponderLinks : option (list (Z * (nat * Z)));
  abandonedInitiatorSessionIdx : option Z;
  treeAnnounced : bool;
  filterAnnounced : bool;
  clientSupported : bool;
  clientOnly : bool;
  routingRoleSequence : option Z;
  inboundFilter : option BloomFilter;
  inboundFilterSequence : option Z;
  outboundFilter : option (nat * BloomFilter);
  outgoingHandshake : option nat;
}.

Section Stores.
Context (p : AdjacentPeer).
Let upd_all pending draining fa inf seq outf : AdjacentPeer :=
  mkPeer (ap_pubkey p) (ap_pubkeyHex p) (ap_remoteAddr p) (ap_transport p) (ap_link p) pending draining
    (abandonedInitiatorSessionIdx p) (treeAnnounced p) fa (clientSupported p) (clientOnly p)
    (routingRoleSequence p) inf seq outf (outgoingHandshake p).

Definition set_pendingResponderLink x := upd_all x (drainingResponderLinks p) (filterAnnounced p) (inboundFilter p)
  (inboundFilterSequence p) (outboundFilter p).
Definition set_draining x := upd_all (pendingResponderLink p) x (filterAnnounced p) (inboundFilter p)
  (inboundFilterSequence p) (outboundFilter p).
Definition set_filterAnnounced x := upd_all (pendingResponderLink p) (drainingResponderLinks p) x (inboundFilter p)
  (inboundFilterSequence p) (outboundFilter p).
(** [inboundFilter] and [inboundFilterSequence] *)
Definition set_inbound f seq := upd_all (pendingResponderLink p) (drainingResponderLinks p) (filterAnnounced p) (Some f)
  (Some seq) (outboundFilter p).
Definition set_outboundFilter x := upd_all (pendingResponderLink p) (drainingResponderLinks p) (filterAnnounced p)
  (inboundFilter p) (inboundFilterSequence p) x.
End Stores.

(** [clientSupported], [clientOnly] and [routingRoleSequence] *)
Definition set_role (p : AdjacentPeer) (supported only : bool) (seq : option Z) : AdjacentPeer :=
  mkPeer (ap_pubkey p) (ap_pubkeyHex p) (ap_remoteAddr p) (ap_transport p) (ap_link p) (pendingResponderLink p)
    (drainingResponderLinks p) (abandonedInitiatorSessionIdx p) (treeAnnounced p) (filterAnnounced p) supported only
    seq (inboundFilter p) (inboundFilterSequence p) (outboundFilter p) (outgoingHandshake p).

Definition set_treeAnnounced (p : AdjacentPeer) (x : bool) : AdjacentPeer :=
  mkPeer (ap_pubkey p) (ap_pubkeyHex p) (ap_remoteAddr p) (ap_transport p) (ap_link p) (pendingResponderLink p)
    (drainingResponderLinks p) (abandonedInitiatorSessionIdx p) x (filterAnnounced p) (clientSupported p) (clientOnly p)
    (routingRoleSequence p) (inboundFilter p) (inboundFilterSequence p) (outboundFilter p) (outgoingHandshake p).

(** [peer.link.state], for a link of the store [links]. *)
Definition link_state (links : list FmpLink) (i : nat) : LinkState :=
  match links !! i with Some l => fl_state l | None => LClosed end.

Definition close_link (i : nat) (links : list FmpLink) : list FmpLink := alter (fun l => set_state l LClosed) i links.

(** The loop of [pruneDrainingResponderLinks] over the map's entries. *)
Fixpoint prune_loop (entries : list (Z * (nat * Z))) (nowMs : Z) (m : list (Z * (nat * Z))) (links : list FmpLink)
    : list (Z * (nat * Z)) * list FmpLink :=
  match entries with
  | [] => (m, links)
  | (receiverIdx, (link, expiresAtMs)) :: entries =>
      if expiresAtMs >? nowMs then prune_loop entries nowMs m links
      else prune_loop entries nowMs (JsMap.delete_ m receiverIdx) (close_link link links)
  end.

Definition pruneDrainingResponderLinks (p : AdjacentPeer) (nowMs : Z) (links : list FmpLink) : AdjacentPeer * list FmpLink :=
  match drainingResponderLinks p with
  | None => (p, links)
  | Some m =>
      let '(m, links) := prune_loop m nowMs m links in
      (set_draining p (if len m =? 0 then None else Some m), links)
  end.

(** ** Routing helpers *)

Section Helpers.
Context `{Noble}.

Definition peerNodeKey (p : AdjacentPeer) : result string :=
  a ← deriveNodeAddr (ap_pubkey p); nodeAddrToHex a.

Definition frameCapacity (p : AdjacentPeer) : Z :=
  Z.min 0xffff (default (mtu (ap_transport p)) (maxFrameBytes (ap_transport p))).

Definition usable_carrier (links : list FmpLink) (excluded : option AdjacentPeer) (minMtu : Z) (p : AdjacentPeer) : bool :=
  bool_decide (link_state links (ap_link p) = LEstablished)
  && negb (bool_decide (Some (ap_pubkeyHex p) = ap_pubkeyHex <$> excluded)) && (frameCapacity p >=? minMtu).

(** [usable(peer)] for a reference into the store. *)
Definition usable_peer (ps : list AdjacentPeer) (links : list FmpLink) (excluded : option nat) (minMtu : Z) (i : nat) : bool :=
  match ps !! i with
  | Some p => usable_carrier links (excluded ≫= fun e => ps !! e) minMtu p
  | None => false
  end.

Definition peer_key (ps : list AdjacentPeer) (i : nat) : result string :=
  match ps !! i with
  | Some p => peerNodeKey p
  | None => Throw (TypeError "Cannot read properties of undefined")
  end.

Fixpoint carrier_loop (ps : list AdjacentPeer) (links : list FmpLink) (excluded : option nat) (minMtu : Z) (nodeHex : string)
    (peers : list nat) : result (option nat) :=
  match peers with
  | [] => Ok None
  | i :: peers =>
      if usable_peer ps links excluded minMtu i then
        key ← peer_key ps i;
        if decide (key = nodeHex) then Ok (Some i) else carrier_loop ps links excluded minMtu nodeHex peers
      else carrier_loop ps links excluded minMtu nodeHex peers
  end.

Definition selectCarrier (ps : list AdjacentPeer) (links : list FmpLink) (preferred : option nat) (peers : list nat)
    (excluded : option nat) (minMtu : Z) : result (option nat) :=
  match preferred with
  | None => Ok None
  | Some preferred =>
      if usable_peer ps links excluded minMtu preferred then Ok (Some preferred) else
      nodeHex ← peer_key ps preferred;
      carrier_loop ps links excluded minMtu nodeHex peers
  end.

Definition discoveryPublicKey (d : DiscoveredPeer) : result bytes :=
  match dp_publicKey d with
  | Some hinted =>
      if len hinted =? 32 then compressedPubkeyFromXOnly hinted
      else if len hinted =? 33 then
        throw_if (negb (byte_at hinted 0 =? 0x02) && negb (byte_at hinted 0 =? 0x03))
          (Error "discovered compressed pubkey has invalid prefix");;
        Ok hinted
      else Throw (Error "discovered peer did not include a FIPS public key")
  | None =>
      if Z.of_nat (String.length (ta_addr (dp_remoteAddr d))) =? 66 then fromHex (ta_addr (dp_remoteAddr d))
      else Throw (Error "discovered peer did not include a FIPS public key")
  end.

Definition lookupReverseKey (requestId : Z) (target : NodeAddr) : result string :=
  hex ← nodeAddrToHex target; Ok (bigint_hex requestId ++ ":" ++ hex)%string.

Definition isKnownUnhandledLinkMessage (msgType : Z) : bool :=
  (msgType =? LinkMessageType.Heartbeat) || (msgType =? LinkMessageType.Disconnect)
  || (msgType =? LinkMessageType.SenderReport) || (msgType =? LinkMessageType.ReceiverReport)
  || (msgType =? LinkMessageType.TreeAnnounce) || (msgType =? LinkMessageType.FilterAnnounce).
End Helpers.

(** ** Choosing a carrier *)

Section Carrier.
Context `{Noble}.

Lemma carrier_loop_spec ps links excluded minMtu key is_ r : carrier_loop ps links excluded minMtu key is_ = Ok r ->
  match r with
  | Some i => i ∈ is_ /\ usable_peer ps links excluded minMtu i = true /\ peer_key ps i = Ok key
  | None => forall i, i ∈ is_ -> usable_peer ps links excluded minMtu i = true -> peer_key ps i <> Ok key
  end.
Proof.
  induction is_ as [|i is_ IH]; cbn [carrier_loop].
  - intros [= <-] i []%not_elem_of_nil.
  - destruct (usable_peer ps links excluded minMtu i) eqn:Eu.
    + intros E. apply result_bind_ok in E as (k & Ek & E). case_decide as Hk.
      * injection E as <-. subst. split; [set_solver|done].
      * specialize (IH E). destruct r as [j|].
        -- destruct IH as (? & ? & ?). split; [set_solver|done].
        -- intros j [->|Hj]%elem_of_cons Hu; [congruence|by apply IH].
    + intros E. specialize (IH E). destruct r as [j|].
      * destruct IH as (? & ? & ?). split; [set_solver|done].
      * intros j [->|Hj]%elem_of_cons Hu; [congruence|by apply IH].
Qed.

(** The choice fails only on a peer whose key has no address. *)
Lemma carrier_loop_total ps links excluded minMtu key is_ :
  Forall (fun i => is_ok (peer_key ps i) = true) is_ -> is_ok (carrier_loop ps links excluded minMtu key is_) = true.
Proof.
  induction 1 as [|i is_ Hi _ IH]; [done|]. cbn [carrier_loop]. destruct (usable_peer _ _ _ _ _); [|done].
  destruct (peer_key ps i) as [k|e]; [|done]. cbn [mbind result_bind]. by case_decide.
Qed.

Lemma selectCarrier_spec ps links preferred is_ excluded minMtu r :
  selectCarrier ps links (Some preferred) is_ excluded minMtu = Ok r ->
  let usable := usable_peer ps links excluded minMtu in
  match r with
  | Some i => usable i = true /\ (i = preferred \/ i ∈ is_) /\ (usable preferred = true -> i = preferred) /\
              (i = preferred \/ peer_key ps i = peer_key ps preferred)
  | None => usable preferred = false /\ forall i, i ∈ is_ -> peer_key ps i = peer_key ps preferred -> usable i = false
  end.
Proof.
  cbv zeta. unfold selectCarrier. destruct (usable_peer ps links excluded minMtu preferred) eqn:Eu.
  { intros [= <-]. split_and!; try done; by left. }
  intros E. apply result_bind_ok in E as (key & Ek & E). apply carrier_loop_spec in E. destruct r as [i|].
  - destruct E as (Hin & Hu & Hk). split_and!; [done|by right|done|right; congruence].
  - split; [done|]. intros i Hin Hk. destruct (usable_peer ps links excluded minMtu i) eqn:Ei; [|done].
    exfalso. apply (E i Hin Ei). congruence.
Qed.

Lemma selectCarrier_total ps links preferred is_ excluded minMtu :
  (forall i, preferred = Some i -> is_ok (peer_key ps i) = true) -> Forall (fun i => is_ok (peer_key ps i) = true) is_ ->
  is_ok (selectCarrier ps links preferred is_ excluded minMtu) = true.
Proof.
  intros Hp His. destruct preferred as [preferred|]; [|done]. cbn. destruct (usable_peer _ _ _ _ _); [done|].
  specialize (Hp preferred eq_refl). destruct (peer_key ps preferred) as [key|e]; [|done].
  cbn [mbind result_bind]. by apply carrier_loop_total.
Qed.
End Carrier.

(** [selectCarrier] gives an established link of the preferred identity that
    is not the excluded one and takes frames of [minMtu] bytes: the preferred
    link itself where it qualifies, else another link of the same node, and
    nothing only where no link of that node qualifies. It does not throw when
    every peer's key has an address. *)
Lemma select_carrier_sound `{Noble} (ps : list AdjacentPeer) (links : list FmpLink) (preferred : nat) (is_ : list nat)
    (excluded : option nat) (minMtu : Z) :
  let usable := usable_peer ps links excluded minMtu in
  (forall r, selectCarrier ps links (Some preferred) is_ excluded minMtu = Ok r ->
    match r with
    | Some i => usable i = true /\ (i = preferred \/ i ∈ is_) /\ (usable preferred = true -> i = preferred) /\
                (i = preferred \/ peer_key ps i = peer_key ps preferred)
    | None => usable preferred = false /\ forall i, i ∈ is_ -> peer_key ps i = peer_key ps preferred -> usable i = false
    end) /\
  (Forall (fun i => is_ok (peer_key ps i) = true) (preferred :: is_) ->
    is_ok (selectCarrier ps links (Some preferred) is_ excluded minMtu) = true).
Proof.
  cbv zeta. split; [intros r E; exact (selectCarrier_spec _ _ _ _ _ _ _ E)|].
  intros [Hp Hps]%Forall_cons. apply selectCarrier_total; [|done]. by intros i [= <-].
Qed.

(** ** Responder handshakes awaiting confirmation *)

(** The map [pending], with the timer of each entry as the time it fires; the
    store of peers and links; and the calls made to [removePeerPath]. *)
Record Responders := mkResponders {
  pending : list (nat * (nat * Z));
  peers : list AdjacentPeer;
  links : list FmpLink;
  removed : list nat;
}.

Definition alter_peer (i : nat) (f : AdjacentPeer -> AdjacentPeer) (r : Responders) : Responders :=
  mkResponders (pending r) (alter f i (peers r)) (links r) (removed r).

Definition close_in (i : nat) (r : Responders) : Responders :=
  mkResponders (pending r) (peers r) (close_link i (links r)) (removed r).

Definition removePeerPath (i : nat) (r : Responders) : Responders :=
  mkResponders (pending r) (peers r) (links r) (removed r ++ [i]).

Definition take_ (peer : nat) : ST Responders (option nat) :=
  modify (fun r => mkResponders (JsMap.delete_ (pending r) peer) (peers r) (links r) (removed r));;
  r ← get;
  let link := peers r !! peer ≫= pendingResponderLink in
  modify (alter_peer peer (fun p => set_pendingResponderLink p None));;
  mret link.

Definition discard (peer : nat) : ST Responders unit :=
  link ← take_ peer;
  match link with Some l => modify (close_in l) | None => mret tt end.

Definition clear_pending : ST Responders unit :=
  r ← get; for_each discard (map fst (pending r)).

(** [this.pending.get(peer)?.link === link] *)
Definition is_pending (r : Responders) (peer link : nat) : bool :=
  bool_decide (fst <$> JsMap.get_ (pending r) peer = Some link).

Definition set_ (peer link : nat) (nowMs : Z) : ST Responders unit :=
  r ← get;
  if is_pending r peer link then mret tt else
  discard peer;;
  r ← get;
  if len (pending r) >=? MAX_PENDING_FMP_RESPONDERS then
    modify (close_in link);;
    (if bool_decide (ap_link <$> peers r !! peer = Some link) then modify (removePeerPath peer) else mret tt);;
    throw (Error "too many pending FMP responders")
  else
    modify (alter_peer peer (fun p => set_pendingResponderLink p (Some link)));;
    modify (fun r => mkResponders (JsMap.set_ (pending r) peer (link, nowMs + FMP_HANDSHAKE_TIMEOUT_MS))
                       (peers r) (links r) (removed r)).

(** The callback of the timer that [set] starts. *)
Definition expire (peer link : nat) : ST Responders unit :=
  r ← get;
  if negb (is_pending r peer link) then mret tt else
  discard peer;;
  r ← get;
  match peers r !! peer with
  | None => mret tt
  | Some p =>
      if negb (bool_decide (link_state (links r) (ap_link p) = LEstablished)) && bool_decide (outgoingHandshake p = None) then
        modify (close_in (ap_link p));; modify (removePeerPath peer)
      else mret tt
  end.

(** ** The set of pending responders stays bounded *)

(** A peer's [pendingResponderLink] is the link of its entry. *)
Definition in_step (m : list (nat * (nat * Z))) (ps : list AdjacentPeer) : Prop :=
  forall i p, ps !! i = Some p -> pendingResponderLink p = fst <$> JsMap.get_ m i.

Record responders_ok (r : Responders) : Prop := {
  rs_wf : JsMap.wf (pending r);
  rs_len : len (pending r) <= MAX_PENDING_FMP_RESPONDERS;
  rs_step : in_step (pending r) (peers r);
  rs_known : forall i e, JsMap.get_ (pending r) i = Some e -> (i < length (peers r))%nat /\ (fst e < length (links r))%nat;
}.

(** What the rest of the node may do meanwhile: change peers, links and the
    other fields of a peer, and add new peers with no pending responder. *)
Inductive responders_step (r : Responders) : Responders -> Prop :=
| RStepSet peer link now res r' : (peer < length (peers r))%nat -> (link < length (links r))%nat ->
    set_ peer link now r = (res, r') -> responders_step r r'
| RStepTake peer res r' : take_ peer r = (res, r') -> responders_step r r'
| RStepDiscard peer res r' : discard peer r = (res, r') -> responders_step r r'
| RStepClear res r' : clear_pending r = (res, r') -> responders_step r r'
| RStepExpire peer link due res r' : JsMap.get_ (pending r) peer = Some (link, due) ->
    expire peer link r = (res, r') -> responders_step r r'
| RStepOther ps ls rem : (length (peers r) <= length ps)%nat -> (length (links r) <= length ls)%nat ->
    (forall i p, ps !! i = Some p -> pendingResponderLink p = peers r !! i ≫= pendingResponderLink) ->
    responders_step r (mkResponders (pending r) ps ls rem).

Definition new_responders : Responders := mkResponders [] [] [] [].

(** [close] leaves a link closed. *)
Lemma close_link_state links i : (i < length links)%nat -> link_state (close_link i links) i = LClosed.
Proof.
  intros Hi. unfold link_state, close_link. rewrite list_lookup_alter_eq.
  apply lookup_lt_is_Some_2 in Hi as [l ->]. done.
Qed.

Lemma close_link_closed links i j : link_state links j = LClosed -> link_state (close_link i links) j = LClosed.
Proof.
  unfold link_state, close_link. intros Hj. destruct (decide (i = j)) as [<-|Hne].
  - rewrite list_lookup_alter_eq. by destruct (links !! i).
  - by rewrite list_lookup_alter_ne.
Qed.

Lemma length_close_link i links : length (close_link i links) = length links.
Proof. apply length_alter. Qed.

Lemma take_run peer r :
  take_ peer r = (Ok (peers r !! peer ≫= pendingResponderLink),
    mkResponders (JsMap.delete_ (pending r) peer) (alter (fun p => set_pendingResponderLink p None) peer (peers r))
      (links r) (removed r)).
Proof. unfold take_. rewrite ST_modify_bind, ST_get_bind, ST_modify_bind. done. Qed.

Lemma in_step_take m ps peer : in_step m ps ->
  in_step (JsMap.delete_ m peer) (alter (fun p => set_pendingResponderLink p None) peer ps).
Proof.
  intros Hs i p. destruct (decide (peer = i)) as [<-|Hne].
  - rewrite list_lookup_alter_eq. destruct (ps !! peer) as [q|] eqn:Eq; [|done]. intros [= <-].
    by rewrite JsMap.get_delete_eq.
  - rewrite list_lookup_alter_ne by done. intros Hp. rewrite JsMap.get_delete_ne by done. by apply Hs.
Qed.

Lemma len_delete_le {K V} `{EqDecision K} (m : list (K * V)) k : len (JsMap.delete_ m k) <= len m.
Proof. unfold len, JsMap.delete_. pose proof (JsMap.length_filter_le (fun p => p.1 <> k) m). lia. Qed.

Lemma take_ok peer r : responders_ok r -> responders_ok (snd (take_ peer r)).
Proof.
  intros [Hwf Hlen Hstep Hk]. rewrite take_run. cbn [snd]. split; cbn.
  - by apply JsMap.wf_delete.
  - pose proof (len_delete_le (pending r) peer). lia.
  - by apply in_step_take.
  - intros i e Hi. rewrite length_alter. destruct (decide (peer = i)) as [<-|Hne].
    + by rewrite JsMap.get_delete_eq in Hi.
    + rewrite JsMap.get_delete_ne in Hi by done. by apply Hk.
Qed.

(** [discard] takes the entry out and closes its link. *)
Lemma discard_run peer r : responders_ok r -> exists ls,
  discard peer r = (Ok tt, mkResponders (JsMap.delete_ (pending r) peer)
    (alter (fun p => set_pendingResponderLink p None) peer (peers r)) ls (removed r)) /\
  length ls = length (links r) /\
  (forall j, link_state (links r) j = LClosed -> link_state ls j = LClosed) /\
  (forall l t, JsMap.get_ (pending r) peer = Some (l, t) -> link_state ls l = LClosed).
Proof.
  intros Hr. unfold discard. rewrite (ST_bind_ok _ _ _ _ _ (take_run peer r)).
  destruct (peers r !! peer ≫= pendingResponderLink) as [l|] eqn:El.
  - exists (close_link l (links r)). split; [done|]. split; [apply length_close_link|].
    split; [intros j; apply close_link_closed|]. intros l' t Hg.
    destruct (rs_known r Hr _ _ Hg) as [Hp Hl]. apply lookup_lt_is_Some_2 in Hp as [p Ep].
    rewrite Ep in El. cbn in El. rewrite (rs_step r Hr _ _ Ep), Hg in El. injection El as <-.
    by apply close_link_state.
  - exists (links r). split; [done|]. split; [done|]. split; [done|]. intros l t Hg. exfalso.
    destruct (rs_known r Hr _ _ Hg) as [Hp Hl]. apply lookup_lt_is_Some_2 in Hp as [p Ep].
    rewrite Ep in El. cbn in El. by rewrite (rs_step r Hr _ _ Ep), Hg in El.
Qed.

Lemma ok_links m ps ls rem ls' rem' : responders_ok (mkResponders m ps ls rem) -> length ls' = length ls ->
  responders_ok (mkResponders m ps ls' rem').
Proof.
  intros [Hwf Hlen Hs Hk] E. split; try done. cbn in *. intros i e Hi. rewrite E. by apply Hk.
Qed.

Lemma discard_ok peer r : responders_ok r -> responders_ok (snd (discard peer r)).
Proof.
  intros Hr. pose proof (take_ok peer r Hr) as Ht. rewrite take_run in Ht.
  destruct (discard_run peer r Hr) as (ls & -> & Hl & _). by eapply ok_links.
Qed.

Lemma discard_all ks r : responders_ok r -> exists r',
  for_each discard ks r = (Ok tt, r') /\ responders_ok r' /\
  (forall j, link_state (links r) j = LClosed -> link_state (links r') j = LClosed) /\
  (forall i, JsMap.get_ (pending r') i = if decide (i ∈ ks) then None else JsMap.get_ (pending r) i) /\
  (forall i l t, i ∈ ks -> JsMap.get_ (pending r) i = Some (l, t) -> link_state (links r') l = LClosed).
Proof.
  revert r. induction ks as [|k ks IH]; intros r Hr.
  - exists r. split; [done|]. split; [done|]. split; [done|].
    split; [intros i; by rewrite decide_False by by apply not_elem_of_nil|]. by intros i l t ?%not_elem_of_nil.
  - destruct (discard_run k r Hr) as (ls & E & Hl & Hc & Hk). pose proof (discard_ok k r Hr) as Hr1. rewrite E in Hr1.
    destruct (IH _ Hr1) as (r' & E' & Hr' & Hc' & Hg & Hin). cbn [snd pending links] in *.
    exists r'. split; [cbn [for_each]; by rewrite (ST_bind_ok _ _ _ _ _ E)|]. split; [done|].
    split; [auto|]. split.
    + intros i. rewrite Hg. destruct (decide (i = k)) as [->|Hne].
      * rewrite JsMap.get_delete_eq. repeat case_decide; try done; set_solver.
      * rewrite JsMap.get_delete_ne by done. repeat case_decide; try done; set_solver.
    + intros i l t Hi Hgi. destruct (decide (i = k)) as [->|Hne]; [exact (Hc' _ (Hk _ _ Hgi))|].
      apply (Hin i l t); [set_solver|]. by rewrite JsMap.get_delete_ne.
Qed.

Lemma clear_run r : responders_ok r -> exists r', clear_pending r = (Ok tt, r') /\ responders_ok r' /\ pending r' = [] /\
  forall i l t, JsMap.get_ (pending r) i = Some (l, t) -> link_state (links r') l = LClosed.
Proof.
  intros Hr. destruct (discard_all (map fst (pending r)) r Hr) as (r' & E & Hr' & _ & Hg & Hc).
  exists r'. split; [done|]. split; [done|].
  assert (Hkey : forall i e, JsMap.get_ (pending r) i = Some e -> i ∈ map fst (pending r)).
  { intros i e Hi%JsMap.get_elem. apply list_elem_of_fmap. by exists (i, e). }
  split; [|intros i l t Hi; exact (Hc i l t (Hkey _ _ Hi) Hi)].
  destruct (pending r') as [|[i e] m] eqn:Em; [done|]. specialize (Hg i). cbn in Hg. rewrite decide_True in Hg by done.
  case_decide as Hin; [done|]. exfalso. destruct (JsMap.get_ (pending r) i) as [e'|] eqn:Ee; [|done]. by eapply Hin, Hkey.
Qed.

(** The effect of [set]: the link is pending, or it is closed and refused. *)
Lemma set_run peer link now r : responders_ok r -> (peer < length (peers r))%nat -> (link < length (links r))%nat ->
  exists res r', set_ peer link now r = (res, r') /\ responders_ok r' /\
    (forall l t, JsMap.get_ (pending r) peer = Some (l, t) -> l <> link -> link_state (links r') l = LClosed) /\
    (res = Ok tt /\ is_pending r' peer link = true \/
     is_ok res = false /\ link_state (links r') link = LClosed /\ len (pending r') = MAX_PENDING_FMP_RESPONDERS).
Proof.
  intros Hr Hp Hl. unfold set_. rewrite ST_get_bind. destruct (is_pending r peer link) eqn:Epend.
  { exists (Ok tt), r. split; [done|]. split; [done|]. split; [|by left].
    intros l t Hg Hne. unfold is_pending in Epend. rewrite Hg in Epend. apply bool_decide_eq_true in Epend. by injection Epend. }
  destruct (discard_run peer r Hr) as (ls & E & Hls & Hc & Hk). pose proof (discard_ok peer r Hr) as Hr1. rewrite E in Hr1.
  cbn [snd] in Hr1. rewrite (ST_bind_ok _ _ _ _ _ E), ST_get_bind. cbn [pending].
  destruct (_ >=? _) eqn:Efull.
  - pose proof (rs_len _ Hr1) as Hmax. cbn in Hmax. rewrite Z.geb_leb in Efull. bool_split.
    set (m := JsMap.delete_ (pending r) peer) in *. set (ps := alter _ peer (peers r)) in *.
    rewrite ST_modify_bind. exists (Throw (Error "too many pending FMP responders")).
    assert (Hbranch : forall rem, responders_ok (mkResponders m ps (close_link link ls) rem) /\
      (forall l t, JsMap.get_ (pending r) peer = Some (l, t) -> l <> link -> link_state (close_link link ls) l = LClosed) /\
      link_state (close_link link ls) link = LClosed).
    { intros rem. split; [eapply ok_links; [done|apply length_close_link]|].
      split; [intros l t Hg _; exact (close_link_closed _ _ _ (Hk _ _ Hg))|]. apply close_link_state. lia. }
    destruct (bool_decide _); eexists; (split; [reflexivity|]); cbn [close_in removePeerPath pending links];
      (split; [exact (proj1 (Hbranch _))|]); (split; [exact (proj1 (proj2 (Hbranch [])))|]); right;
      (split; [done|]); (split; [exact (proj2 (proj2 (Hbranch [])))|lia]).
  - eexists (Ok tt), _. split; [rewrite ST_modify_bind; reflexivity|]. rewrite Z.geb_leb in Efull. bool_split.
    split; [|split]; [|cbn; intros l t Hg _; exact (Hk _ _ Hg)|].
    + destruct Hr1 as [Hwf Hlen Hs Hkn]. cbn in *. split; cbn.
      * by apply JsMap.wf_set.
      * unfold len in *. rewrite JsMap.length_set. unfold JsMap.has_. rewrite JsMap.get_delete_eq. cbn. lia.
      * intros i p. destruct (decide (peer = i)) as [<-|Hne].
        -- rewrite list_lookup_alter_eq, JsMap.get_set_eq. intros Ep. apply fmap_Some in Ep as (q & _ & ->). done.
        -- rewrite list_lookup_alter_ne, JsMap.get_set_ne by done. apply Hs.
      * intros i e. rewrite !length_alter, Hls. destruct (decide (peer = i)) as [<-|Hne].
        -- rewrite JsMap.get_set_eq. intros [= <-]. done.
        -- rewrite JsMap.get_set_ne by done. intros Hi. rewrite length_alter, Hls in Hkn. by apply Hkn.
    + left. split; [done|]. unfold is_pending. cbn. rewrite JsMap.get_set_eq. by apply bool_decide_eq_true.
Qed.

(** The effect of the timer: the handshake is given up, and with it a path that
    is neither established nor being opened from here. *)
Lemma expire_run peer link due r : responders_ok r -> JsMap.get_ (pending r) peer = Some (link, due) ->
  exists r' p, expire peer link r = (Ok tt, r') /\ responders_ok r' /\ JsMap.get_ (pending r') peer = None /\
    link_state (links r') link = LClosed /\ peers r !! peer = Some p /\
    (removed r' = removed r \/ removed r' = removed r ++ [peer] /\ outgoingHandshake p = None /\
       link_state (links r') (ap_link p) = LClosed).
Proof.
  intros Hr Hg. destruct (rs_known r Hr _ _ Hg) as [Hp Hl]. apply lookup_lt_is_Some_2 in Hp as [p Ep].
  unfold expire. rewrite ST_get_bind. assert (Hpend : is_pending r peer link = true)
    by (unfold is_pending; rewrite Hg; by apply bool_decide_eq_true). rewrite Hpend. cbn [negb].
  destruct (discard_run peer r Hr) as (ls & E & Hls & Hc & Hk). pose proof (discard_ok peer r Hr) as Hr1. rewrite E in Hr1.
  cbn [snd] in Hr1. rewrite (ST_bind_ok _ _ _ _ _ E), ST_get_bind. cbn [peers links].
  rewrite list_lookup_alter_eq, Ep. cbn [fmap option_fmap option_map].
  change (ap_link (set_pendingResponderLink p None)) with (ap_link p).
  change (outgoingHandshake (set_pendingResponderLink p None)) with (outgoingHandshake p).
  destruct (bool_decide_reflect (link_state ls (ap_link p) = LEstablished)) as [He|He]; cbn [negb andb].
  - eexists _, p. split; [reflexivity|]. split; [done|]. cbn. rewrite JsMap.get_delete_eq.
    split_and!; [done|exact (Hk _ _ Hg)|done|by left].
  - destruct (bool_decide_reflect (outgoingHandshake p = None)) as [Eo|Eo]; [|].
    + eexists _, p. split; [rewrite ST_modify_bind; reflexivity|].
      split; [eapply ok_links; [exact Hr1|apply length_close_link]|]. cbn. rewrite JsMap.get_delete_eq.
      split_and!; [done|exact (close_link_closed _ _ _ (Hk _ _ Hg))|done|]. right. split; [done|]. split; [done|].
      destruct (decide (ap_link p < length ls)%nat) as [Hlt|Hge]; [by apply close_link_state|].
      unfold link_state, close_link. by rewrite (lookup_ge_None_2 (alter _ _ _)) by (rewrite length_alter; lia).
    + eexists _, p. split; [reflexivity|]. split; [done|]. cbn. rewrite JsMap.get_delete_eq.
      split_and!; [done|exact (Hk _ _ Hg)|done|by left].
Qed.

Lemma responders_step_ok r r' : responders_ok r -> responders_step r r' -> responders_ok r'.
Proof.
  intros Hr [peer link now res s Hp Hl E|peer res s E|peer res s E|res s E|peer link due res s Hg E|ps ls rem Hps Hls Hsame].
  - destruct (set_run peer link now r Hr Hp Hl) as (res' & s' & E' & Hok & _). congruence.
  - pose proof (take_ok peer r Hr) as Ht. by rewrite E in Ht.
  - pose proof (discard_ok peer r Hr) as Ht. by rewrite E in Ht.
  - destruct (clear_run r Hr) as (s' & E' & Hok & _). congruence.
  - destruct (expire_run peer link due r Hr Hg) as (s' & p & E' & Hok & _). congruence.
  - destruct Hr as [Hwf Hlen Hs Hk]. split; cbn; try done.
    + intros i p Hp. rewrite (Hsame i p Hp). destruct (peers r !! i) as [q|] eqn:Eq; [by apply Hs|].
      cbn. destruct (JsMap.get_ (pending r) i) as [e|] eqn:Eg; [|done]. destruct (Hk _ _ Eg) as [Hi _].
      apply lookup_lt_is_Some_2 in Hi as [q' Eq']. congruence.
    + intros i e Hi. destruct (Hk i e Hi). lia.
Qed.

Lemma responders_reachable r : rtc responders_step new_responders r -> responders_ok r.
Proof.
  apply (rtc_invariant responders_step); [apply responders_step_ok|].
  split; cbn; [constructor|vm_compute; congruence|intros i p; by rewrite lookup_nil|done].
Qed.

(** Whatever the node does in between, at most 64 responder handshakes await
    confirmation, and a peer's pending link is that of its entry. [set] makes the
    link pending or, when 64 are, closes it and throws; a different link that was
    pending for the peer is closed. When an entry's time is up its link is closed
    and the entry is gone; and [clear] never throws, removes every entry and
    closes every link. *)
Lemma pending_responders_bounded (r : Responders) :
  rtc responders_step new_responders r ->
  len (pending r) <= MAX_PENDING_FMP_RESPONDERS /\
  (forall i p, peers r !! i = Some p -> pendingResponderLink p = fst <$> JsMap.get_ (pending r) i) /\
  (forall peer link now, (peer < length (peers r))%nat -> (link < length (links r))%nat ->
    exists res r', set_ peer link now r = (res, r') /\
      (forall l t, JsMap.get_ (pending r) peer = Some (l, t) -> l <> link -> link_state (links r') l = LClosed) /\
      (res = Ok tt /\ is_pending r' peer link = true \/
       is_ok res = false /\ link_state (links r') link = LClosed /\ len (pending r') = MAX_PENDING_FMP_RESPONDERS)) /\
  (forall peer link due, JsMap.get_ (pending r) peer = Some (link, due) ->
    exists r' p, expire peer link r = (Ok tt, r') /\ JsMap.get_ (pending r') peer = None /\
      link_state (links r') link = LClosed /\ peers r !! peer = Some p /\
      (removed r' = removed r \/ removed r' = removed r ++ [peer] /\ outgoingHandshake p = None /\
         link_state (links r') (ap_link p) = LClosed)) /\
  (exists r', clear_pending r = (Ok tt, r') /\ pending r' = [] /\
    forall i l t, JsMap.get_ (pending r) i = Some (l, t) -> link_state (links r') l = LClosed).
Proof.
  intros Hrun. pose proof (responders_reachable r Hrun) as Hr. split; [apply Hr|]. split; [apply Hr|].
  split; [|split].
  - intros peer link now Hp Hl. destruct (set_run peer link now r Hr Hp Hl) as (res & r' & E & _ & H1 & H2). eauto.
  - intros peer link due Hg. destruct (expire_run peer link due r Hr Hg) as (r' & p & E & _ & H1). eauto.
  - destruct (clear_run r Hr) as (r' & E & _ & H1 & H2). eauto.
Qed.

(** ** Draining links *)

Definition expired (es : list (Z * (nat * Z))) (nowMs : Z) : list (Z * (nat * Z)) :=
  base.filter (fun e => snd (snd e) <= nowMs) es.

Lemma filter_ext_elem {A} (P Q : A -> Prop) `{!forall x, Decision (P x), !forall x, Decision (Q x)} (l : list A) :
  (forall x, x ∈ l -> P x <-> Q x) -> base.filter P l = base.filter Q l.
Proof.
  induction l as [|x l IH]; intros HPQ; [done|]. rewrite !filter_cons.
  pose proof (HPQ x ltac:(set_solver)). rewrite IH by (intros y Hy; apply HPQ; set_solver).
  repeat case_decide; try done; tauto.
Qed.

Lemma filter_filter_and {A} (P Q : A -> Prop) `{!forall x, Decision (P x), !forall x, Decision (Q x)} (l : list A) :
  base.filter P (base.filter Q l) = base.filter (fun x => P x /\ Q x) l.
Proof.
  induction l as [|x l IH]; [done|]. rewrite !filter_cons.
  destruct (decide (Q x)) as [HQ|HQ]; [rewrite filter_cons|]; repeat case_decide; try tauto; by rewrite IH.
Qed.

Lemma prune_loop_spec es nowMs m ls :
  fst (prune_loop es nowMs m ls) = base.filter (fun e => fst e ∉ map fst (expired es nowMs)) m /\
  snd (prune_loop es nowMs m ls) = foldl (fun ls e => close_link (fst (snd e)) ls) ls (expired es nowMs).
Proof.
  revert m ls. induction es as [|(k & l & t) es IH]; intros m ls; unfold expired.
  - split; [|done]. cbn. symmetry. rewrite (filter_ext_elem _ (fun _ => True)) by (intros; split; [done|intros _; apply not_elem_of_nil]).
    induction m as [|e m IHm]; [done|]. rewrite filter_cons, decide_True by done. by rewrite IHm.
  - cbn [prune_loop]. rewrite filter_cons. cbn [fst snd]. rewrite Z.gtb_ltb. destruct (Z.ltb_spec nowMs t) as [Hlt|Hge].
    + rewrite decide_False by lia. apply IH.
    + rewrite decide_True by lia. cbn [map fst snd foldl]. destruct (IH (JsMap.delete_ m k) (close_link l ls)) as [-> ->].
      split; [|done]. unfold JsMap.delete_. rewrite filter_filter_and. apply filter_ext_elem.
      intros x _. rewrite not_elem_of_cons. tauto.
Qed.

Lemma close_all_spec (es : list (Z * (nat * Z))) ls :
  let ls' := foldl (fun ls e => close_link (fst (snd e)) ls) ls es in
  (forall e, e ∈ es -> (fst (snd e) < length ls)%nat -> link_state ls' (fst (snd e)) = LClosed) /\
  (forall j, link_state ls j = LClosed -> link_state ls' j = LClosed) /\
  (forall j, (forall e, e ∈ es -> fst (snd e) <> j) -> link_state ls' j = link_state ls j).
Proof.
  revert ls. induction es as [|e es IH]; intros ls; cbn [foldl].
  - split; [by intros e ?%not_elem_of_nil|]. done.
  - destruct (IH (close_link (fst (snd e)) ls)) as (H1 & H2 & H3). split_and!.
    + intros x [->|Hx]%elem_of_cons Hl; [by apply H2, close_link_state|]. apply H1; [done|]. by rewrite length_close_link.
    + intros j Hj. by apply H2, close_link_closed.
    + intros j Hj. rewrite H3 by (intros x Hx; apply Hj; set_solver).
      unfold link_state, close_link. rewrite list_lookup_alter_ne; [done|]. apply Hj. set_solver.
Qed.

(** Pruning keeps exactly the draining links that have not expired, in their
    order, closes the others, reopens none, and drops the map when it is empty. *)
Lemma prune_draining_exact (p : AdjacentPeer) (nowMs : Z) (ls : list FmpLink) (m : list (Z * (nat * Z))) :
  drainingResponderLinks p = Some m -> JsMap.wf m ->
  Forall (fun e => (fst (snd e) < length ls)%nat) m ->
  let '(p', ls') := pruneDrainingResponderLinks p nowMs ls in
  default [] (drainingResponderLinks p') = base.filter (fun e => snd (snd e) > nowMs) m /\
  drainingResponderLinks p' <> Some [] /\
  (forall e, e ∈ m -> snd (snd e) <= nowMs -> link_state ls' (fst (snd e)) = LClosed) /\
  (forall j, link_state ls j = LClosed -> link_state ls' j = LClosed) /\
  (forall j, (forall e, e ∈ m -> snd (snd e) <= nowMs -> fst (snd e) <> j) -> link_state ls' j = link_state ls j).
Proof.
  intros Hm Hwf Hk. unfold pruneDrainingResponderLinks. rewrite Hm.
  destruct (prune_loop_spec m nowMs m ls) as [Ef Es]. destruct (prune_loop m nowMs m ls) as [m' ls'].
  cbn [fst snd] in Ef, Es. subst ls'. cbn [set_draining drainingResponderLinks].
  assert (Hm' : m' = base.filter (fun e => snd (snd e) > nowMs) m).
  { rewrite Ef. apply filter_ext_elem. intros x Hx. unfold expired. split.
    - intros Hn. destruct (decide (snd (snd x) <= nowMs)) as [Hle|]; [|lia]. exfalso. apply Hn.
      apply list_elem_of_fmap. exists x. split; [done|]. by apply list_elem_of_filter.
    - intros Hgt (y & Ey & [Hle Hy]%list_elem_of_filter)%list_elem_of_fmap.
      destruct x as [k v], y as [k' v']. cbn in *. subst k'.
      apply (JsMap.elem_get m k v Hwf) in Hx. apply (JsMap.elem_get m k v' Hwf) in Hy.
      assert (v = v') as -> by congruence. lia. }
  rewrite Forall_forall in Hk. destruct (close_all_spec (expired m nowMs) ls) as (H1 & H2 & H3).
  rewrite <- Hm'. split_and!.
  - destruct (Z.eqb_spec (len m') 0) as [E|E]; [by rewrite (len_nil_inv m' E)|done].
  - destruct (Z.eqb_spec (len m') 0) as [E|E]; [done|]. intros [= ->]. by apply E.
  - intros e He Hle. apply H1; [by apply list_elem_of_filter|by apply Hk].
  - done.
  - intros j Hj. apply H3. intros e [Hle He]%list_elem_of_filter. by apply Hj.
Qed.

(** ** Examples *)

#[local] Existing Instances Toy.noble.

(** Two links and two peers; peer 0's handshake is replaced while it waits. *)
Definition demo_links : list FmpLink := [demo_sender; demo_receiver].

Definition demo_peer (link : nat) (draining : option (list (Z * (nat * Z)))) : AdjacentPeer :=
  mkPeer [] "" (mkAddress "memory" "a") (mkTransport 0 "memory" 1200 None false) link None draining
    None false false false false None None None None None.

Definition demo_waiting : Responders := mkResponders [(0%nat, (1%nat, 15250))]
  [set_pendingResponderLink (demo_peer 0 None) (Some 1%nat)] (close_link 0 demo_links) [].

Lemma pending_responders_bounded_witness :
  rtc responders_step new_responders demo_waiting /\ len (pending demo_waiting) <= MAX_PENDING_FMP_RESPONDERS.
Proof.
  assert (Hrun : rtc responders_step new_responders demo_waiting).
  { eapply rtc_l.
    { apply (RStepOther _ [demo_peer 0 None] demo_links []); cbn; [lia|lia|]. intros [|i] p E; [by injection E as <-|discriminate E]. }
    eapply rtc_l; [eapply (RStepSet _ 0 0 100); [cbn; lia|cbn; lia|vm_compute; reflexivity]|].
    eapply rtc_l; [eapply (RStepSet _ 0 1 250); [cbn; lia|cbn; lia|vm_compute; reflexivity]|].
    apply rtc_refl. }
  split; [exact Hrun|]. apply (pending_responders_bounded demo_waiting). exact Hrun.
Defined.

Lemma prune_draining_exact_witness :
  let '(p', ls') := pruneDrainingResponderLinks (demo_peer 0 (Some [(7, (0%nat, 100)); (9, (1%nat, 300))])) 200 demo_links in
  drainingResponderLinks p' = Some [(9, (1%nat, 300))] /\ link_state ls' 0 = LClosed.
Proof.
  pose proof (prune_draining_exact (demo_peer 0 (Some [(7, (0%nat, 100)); (9, (1%nat, 300))])) 200 demo_links
    [(7, (0%nat, 100)); (9, (1%nat, 300))] eq_refl) as Hp.
  assert (Hwf : JsMap.wf [(7, (0%nat, 100)); (9, (1%nat, 300))]) by (unfold JsMap.wf; cbn; repeat constructor; set_solver).
  specialize (Hp Hwf ltac:(repeat constructor)).
  destruct (pruneDrainingResponderLinks _ _ _) as [p' ls'] eqn:E. vm_compute in E. injection E as <- <-.
  split; [reflexivity|]. destruct Hp as (_ & _ & Hc & _). apply (Hc (7, (0%nat, 100))); [by left|vm_compute; discriminate].
Defined.
