(* ===== verification/Admission.v ===== *)
(** * Peer admission

    [node/PeerAdmission.ts]: the policy that blocks identities, given as hex keys
    in x-only or compressed form. Strings are ASCII: the pattern admits no other
    character. *)

From S2P Require Import Prelude Codec Crypto Toy NodeAddr.

(** ** Strings *)

(** [/^(?:02|03)?[0-9a-f]{64}$/i] *)
Definition is_hex (c : Ascii.ascii) : bool :=
  let n := Ascii.N_of_ascii c in
  ((48 <=? n) && (n <=? 57) || (97 <=? n) && (n <=? 102) || (65 <=? n) && (n <=? 70))%N.

Fixpoint all_hex (s : string) : bool :=
  match s with EmptyString => true | String c s => is_hex c && all_hex s end.

Definition key_pattern (s : string) : bool :=
  all_hex s && ((String.length s =? 64)%nat
    || (String.length s =? 66)%nat && (String.prefix "02" s || String.prefix "03" s)).

(** [s.slice(-n)] *)
Definition slice_last (n : nat) (s : string) : string :=
  String.substring (String.length s - n) (Nat.min n (String.length s)) s.

Definition lower (c : Ascii.ascii) : Ascii.ascii :=
  let n := Ascii.N_of_ascii c in if ((65 <=? n) && (n <=? 90))%N then Ascii.ascii_of_N (n + 32) else c.

Fixpoint toLowerCase (s : string) : string :=
  match s with EmptyString => EmptyString | String c s => String (lower c) (toLowerCase s) end.

(** What the code relies on in the package's hexadecimal functions: two lower
    case digits per byte, and reading accepts exactly the strings of an even
    number of digits in either case. *)
Class HexTextLaws `{Noble} : Prop := {
  toHex_app a b : toHex (a ++ b) = (toHex a ++ toHex b)%string;
  length_toHex b : String.length (toHex b) = (2 * length b)%nat;
  toHex_fromHex s b : fromHex s = Ok b -> toHex b = toLowerCase s;
  fromHex_digits s : all_hex s = true -> Nat.Even (String.length s) -> is_ok (fromHex s) = true;
}.

(** ** The policy *)

Record PeerAdmission := mkAdmission { keys : gset string; addresses : gset string }.

Section Admission.
Context `{Noble}.

Fixpoint admit_loop (a : PeerAdmission) (ks : list string) : result PeerAdmission :=
  match ks with
  | [] => Ok a
  | key :: ks =>
      throw_if (negb (key_pattern key)) (Error "blocked peer must be x-only or compressed public key hex");;
      let normalized := toLowerCase (slice_last 64 key) in
      b ← fromHex normalized;
      addr ← deriveNodeAddr b;
      admit_loop (mkAdmission ({[normalized]} ∪ keys a) ({[toHex addr]} ∪ addresses a)) ks
  end.

Definition new_admission (ks : list string) : result PeerAdmission := admit_loop (mkAdmission ∅ ∅) ks.

Definition equals (a other : PeerAdmission) : bool :=
  (size (keys a) =? size (keys other))%nat && forallb (fun key => bool_decide (key ∈ keys other)) (elements (keys a)).

Definition hasBlockedPeers (a : PeerAdmission) : bool := (0 <? size (keys a))%nat.

Definition allows (a : PeerAdmission) (pubkey : bytes) : bool :=
  negb (0 <? size (keys a))%nat || negb (bool_decide (slice_last 64 (toHex pubkey) ∈ keys a)).

Definition assertPeer (a : PeerAdmission) (pubkey : bytes) : result unit :=
  throw_if (negb (allows a pubkey)) (Error "FIPS peer is blocked").

Definition assertNode (a : PeerAdmission) (nodeAddr : NodeAddr) : result unit :=
  throw_if ((0 <? size (addresses a))%nat && bool_decide (toHex nodeAddr ∈ addresses a))
    (Error "FIPS endpoint is blocked").
End Admission.

(** ** Facts about strings *)

Lemma substring_full s : String.substring 0 (String.length s) s = s.
Proof. induction s as [|c s IH]; [done|]. cbn. by rewrite IH. Qed.

Lemma substring_app a b n : String.substring (String.length a) n (a ++ b) = String.substring 0 n b.
Proof. induction a as [|c a IH]; [done|]. cbn. exact IH. Qed.

Lemma string_length_app a b : String.length (a ++ b) = (String.length a + String.length b)%nat.
Proof. induction a as [|c a IH]; [done|]. exact (f_equal S IH). Qed.

Lemma slice_last_app n a b : String.length b = n -> slice_last n (a ++ b) = b.
Proof.
  intros <-. unfold slice_last. rewrite string_length_app.
  replace (String.length a + String.length b - String.length b)%nat with (String.length a) by lia.
  rewrite Nat.min_l, substring_app by lia. apply substring_full.
Qed.

Lemma slice_last_all n s : String.length s = n -> slice_last n s = s.
Proof. intros Hs. by apply (slice_last_app n ""%string s). Qed.

Lemma substring_facts i n s : all_hex s = true -> (i + n <= String.length s)%nat ->
  all_hex (String.substring i n s) = true /\ String.length (String.substring i n s) = n.
Proof.
  revert i n. induction s as [|c s IH]; intros i n Hh Hl.
  - cbn in Hl. assert (i = 0%nat) as -> by lia. by assert (n = 0%nat) as -> by lia.
  - cbn in Hh, Hl. apply andb_true_iff in Hh as [Hc Hs]. destruct i as [|i]; cbn.
    + destruct n as [|n]; [done|]. cbn. destruct (IH 0%nat n Hs ltac:(lia)) as [-> ->]. by rewrite Hc.
    + apply IH; [done|lia].
Qed.

(** The last 64 characters of a key that the policy accepts. *)
Lemma key_slice key : key_pattern key = true ->
  all_hex (slice_last 64 key) = true /\ String.length (slice_last 64 key) = 64%nat.
Proof.
  unfold key_pattern, slice_last. intros [Hh Hl]%andb_true_iff.
  assert (String.length key = 64 \/ String.length key = 66)%nat as Hlen.
  { apply orb_true_iff in Hl as [Hl%Nat.eqb_eq|[Hl%Nat.eqb_eq _]%andb_true_iff]; auto. }
  rewrite Nat.min_l by lia. apply substring_facts; [done|lia].
Qed.

Lemma lower_hex c : is_hex c = true -> is_hex (lower c) = true /\ lower (lower c) = lower c.
Proof. destruct c as [[] [] [] [] [] [] [] []]; vm_compute; done. Qed.

Lemma toLowerCase_hex s : all_hex s = true ->
  all_hex (toLowerCase s) = true /\ String.length (toLowerCase s) = String.length s /\
  toLowerCase (toLowerCase s) = toLowerCase s.
Proof.
  induction s as [|c s IH]; [done|]. cbn. intros [Hc Hs]%andb_true_iff.
  destruct (IH Hs) as (-> & -> & ->). by destruct (lower_hex c Hc) as [-> ->].
Qed.

(** ** What is blocked *)

Section Facts.
Context `{Noble, !HashLaws, !HexLaws, !HexTextLaws}.

(** The normal form under which a key is stored. *)
Definition normal (key : string) : string := toLowerCase (slice_last 64 key).

Lemma key_bytes key : key_pattern key = true ->
  exists x, fromHex (normal key) = Ok x /\ len x = 32 /\ toHex x = normal key.
Proof.
  intros [Hh Hl]%key_slice. destruct (toLowerCase_hex _ Hh) as (Hh' & Hl' & Hi). fold (normal key) in *.
  assert (Heven : Nat.Even (String.length (normal key))) by (exists 32%nat; lia).
  pose proof (fromHex_digits _ Hh' Heven) as Hok. destruct (fromHex (normal key)) as [x|e] eqn:Ex; [|done].
  pose proof (toHex_fromHex _ _ Ex) as Ht. rewrite Hi in Ht.
  exists x. split; [done|]. split; [|done]. pose proof (length_toHex x). rewrite Ht in *. unfold len. lia.
Qed.

Lemma derive_xonly x : len x = 32 -> deriveNodeAddr x = Ok (subarray (sha256 x) 0 NODE_ADDR_LENGTH).
Proof. intros Hx. unfold deriveNodeAddr. by rewrite Hx. Qed.

Lemma slice_toHex x p : len x = 32 -> slice_last 64 (toHex x) = toHex x /\ slice_last 64 (toHex (p :: x)) = toHex x.
Proof.
  intros Hx. assert (String.length (toHex x) = 64%nat) as Hl by (rewrite length_toHex; unfold len in Hx; lia).
  split; [by apply slice_last_all|]. change (p :: x) with ([p] ++ x). rewrite toHex_app. by apply slice_last_app.
Qed.

(** The two sets after reading the keys [ks]. *)
Lemma admit_loop_run ks a : if forallb key_pattern ks then
    exists a', admit_loop a ks = Ok a' /\
      (forall s, s ∈ keys a' <-> s ∈ keys a \/ exists key, key ∈ ks /\ s = normal key) /\
      (forall s, s ∈ addresses a' <-> s ∈ addresses a \/ exists key x, key ∈ ks /\ fromHex (normal key) = Ok x /\
         s = toHex (subarray (sha256 x) 0 NODE_ADDR_LENGTH))
  else is_ok (admit_loop a ks) = false.
Proof.
  revert a. induction ks as [|key ks IH]; intros a.
  - exists a. split; [done|]. split; intros s; split; try (by left);
      (intros [|He]; [done|]); [destruct He as (? & Hn & _)|destruct He as (? & ? & Hn & _)]; by apply not_elem_of_nil in Hn.
  - cbn [forallb admit_loop]. destruct (key_pattern key) eqn:Ek; [|done]. cbn [negb throw_if mbind result_bind andb].
    destruct (key_bytes key Ek) as (x & Ex & Hx & Ht). fold (normal key). rewrite Ex. cbn [mbind result_bind].
    rewrite derive_xonly by done. cbn [mbind result_bind]. set (a1 := mkAdmission _ _). specialize (IH a1).
    destruct (forallb key_pattern ks); [|done]. destruct IH as (a' & E & Hk & Ha). exists a'. split; [done|].
    split; intros s; [rewrite Hk|rewrite Ha]; unfold a1; cbn [keys addresses]; rewrite elem_of_union, elem_of_singleton; split.
    + intros [[->|Hs]|(k & Hin & ->)]; [right; exists key|by left|right; exists k]; set_solver.
    + intros [Hs|(k & [->|Hin]%elem_of_cons & ->)]; [by left; right|by left; left|right; eauto].
    + intros [[->|Hs]|(k & y & Hin & Ey & ->)]; [right; exists key, x|by left|right; exists k, y]; set_solver.
    + intros [Hs|(k & y & [->|Hin]%elem_of_cons & Ey & ->)]; [by left; right|left; left; congruence|right; eauto].
Qed.

(** A guard [size > 0] in front of a membership test changes nothing. *)
Lemma guarded_elem (X : gset string) s : ((0 <? size X)%nat && bool_decide (s ∈ X))%bool = bool_decide (s ∈ X).
Proof.
  case_bool_decide as Hs; [|by rewrite andb_false_r]. rewrite andb_true_r. apply Nat.ltb_lt.
  assert (size X <> 0)%nat; [|lia]. intros E%size_empty_inv. set_solver.
Qed.

Lemma allows_elem a k : allows a k = negb (bool_decide (slice_last 64 (toHex k) ∈ keys a)).
Proof. unfold allows. rewrite <- guarded_elem. by destruct (0 <? size (keys a))%nat. Qed.

(** The policy accepts exactly the lists of well-formed keys. It then blocks
    an identity in x-only form and with either prefix exactly if one of the keys
    spells it, in either case and with or without a prefix; [assertPeer] agrees
    with [allows]; and [assertNode] throws exactly for the addresses of blocked
    identities. *)
Lemma peer_admission_exact (ks : list string) :
  (is_ok (new_admission ks) = true <-> forallb key_pattern ks = true) /\
  forall a, new_admission ks = Ok a ->
    (forall x, len x = 32 -> (allows a x = false <-> exists key, key ∈ ks /\ fromHex (normal key) = Ok x)) /\
    (forall x p, len x = 32 -> allows a (p :: x) = allows a x) /\
    (forall k, is_ok (assertPeer a k) = allows a k) /\
    (forall addr, is_ok (assertNode a addr) = false <->
       exists x, len x = 32 /\ allows a x = false /\ deriveNodeAddr x = Ok addr).
Proof.
  pose proof (admit_loop_run ks (mkAdmission ∅ ∅)) as Hrun. fold (new_admission ks) in Hrun.
  destruct (forallb key_pattern ks) eqn:Ek.
  2:{ split; [by rewrite Hrun|]. intros a E. by rewrite E in Hrun. }
  destruct Hrun as (a' & E & Hk & Ha). rewrite E. split; [done|]. intros a [= <-]. rewrite forallb_forall in Ek.
  assert (Hblocked : forall x, len x = 32 -> (allows a' x = false <-> exists key, key ∈ ks /\ fromHex (normal key) = Ok x)).
  { intros x Hx. rewrite allows_elem. destruct (slice_toHex x x00 Hx) as [-> _].
    rewrite negb_false_iff, bool_decide_eq_true, Hk. cbn [keys]. split.
    - intros [Hn|(key & Hin & Et)]; [set_solver|]. exists key. split; [done|].
      destruct (key_bytes key) as (y & Ey & _ & Hy); [by apply Ek, list_elem_of_In|].
      rewrite Ey. f_equal. apply toHex_inj. congruence.
    - intros (key & Hin & Ex). right. exists key. split; [done|].
      destruct (key_bytes key) as (y & Ey & _ & Hy); [by apply Ek, list_elem_of_In|]. congruence. }
  split_and!; [done| | |].
  - intros x p Hx. rewrite !allows_elem. by destruct (slice_toHex x p Hx) as [-> ->].
  - intros k. unfold assertPeer. by destruct (allows a' k).
  - intros addr. unfold assertNode. rewrite guarded_elem. split.
    + case_bool_decide as Hin; [|done]. intros _. apply Ha in Hin as [Hn|(key & x & Hin & Ex & Et)]; [set_solver|].
      destruct (key_bytes key) as (y & Ey & Hy & _); [by apply Ek, list_elem_of_In|].
      assert (y = x) as -> by congruence. exists x. split; [done|]. split; [apply Hblocked; eauto|].
      rewrite derive_xonly by done. f_equal. symmetry. by apply toHex_inj.
    + intros (x & Hx & Hb & Ed). rewrite bool_decide_eq_true_2; [done|]. apply Ha. right.
      apply Hblocked in Hb as (key & Hin & Ex); [|done]. exists key, x. split; [done|]. split; [done|].
      rewrite derive_xonly in Ed by done. by injection Ed as <-.
Qed.
End Facts.

(** ** Example *)

Lemma toy_unnibble c x : Toy.unnibble c = Some x -> (x < 16)%N /\ Toy.nibble x = lower c.
Proof.
  destruct c as [[] [] [] [] [] [] [] []]; vm_compute; intros E; try discriminate E; injection E as <-; done.
Qed.

Lemma toy_is_hex c : is_hex c = true -> exists x, Toy.unnibble c = Some x.
Proof. destruct c as [[] [] [] [] [] [] [] []]; vm_compute; intros E; try discriminate E; eauto. Qed.

Lemma toy_pair x y : (x < 16)%N -> (y < 16)%N ->
  (Byte.to_N (z2b (Z.of_N (16 * x + y))) / 16 = x)%N /\ (Byte.to_N (z2b (Z.of_N (16 * x + y))) mod 16 = y)%N.
Proof.
  intros Hx Hy. pose proof (b2z_z2b_small (Z.of_N (16 * x + y)) ltac:(lia)) as E. unfold b2z in E.
  apply N2Z.inj in E. rewrite E. split.
  - symmetry. apply (N.div_unique _ 16 x y); lia.
  - symmetry. apply (N.mod_unique _ 16 x y); lia.
Qed.

Lemma toy_hex_unhex n s b : (String.length s <= n)%nat -> Toy.unhex s = Ok b -> Toy.hex b = toLowerCase s.
Proof.
  revert s b. induction n as [|n IH]; intros [|c [|d s]] b Hn E; cbn in Hn; try lia; try discriminate E;
    [by injection E as <-..|].
  cbn [Toy.unhex] in E. destruct (Toy.unnibble c) as [x|] eqn:Ec; [|done]. destruct (Toy.unnibble d) as [y|] eqn:Ed; [|done].
  apply result_bind_ok in E as (b' & Eb & E). injection E as <-.
  destruct (toy_unnibble c x Ec) as [Hx Hc]. destruct (toy_unnibble d y Ed) as [Hy Hd].
  destruct (toy_pair x y Hx Hy) as [E1 E2]. cbn [Toy.hex toLowerCase]. rewrite E1, E2, Hc, Hd.
  by rewrite (IH s b') by (lia || done).
Qed.

Lemma toy_unhex_digits n s : (String.length s <= n)%nat -> all_hex s = true -> Nat.Even (String.length s) ->
  is_ok (Toy.unhex s) = true.
Proof.
  revert s. induction n as [|n IH]; intros [|c [|d s]] Hn Hh He; cbn in Hn; try lia; try done.
  - by destruct He as [k Hk]; cbn in Hk; lia.
  - cbn in Hh. apply andb_true_iff in Hh as [Hc [Hd Hs]%andb_true_iff].
    destruct (toy_is_hex c Hc) as [x Ex]. destruct (toy_is_hex d Hd) as [y Ey]. cbn [Toy.unhex]. rewrite Ex, Ey.
    assert (Nat.Even (String.length s)) as He' by (destruct He as [k Hk]; cbn in Hk; exists (k - 1)%nat; lia).
    pose proof (IH s ltac:(lia) Hs He') as Hok. by destruct (Toy.unhex s).
Qed.

#[export] Instance toy_hex_text_laws : @HexTextLaws Toy.noble.
Proof.
  split; cbn [toHex fromHex Toy.noble].
  - intros a b. induction a as [|x a IH]; [done|]. cbn [Toy.hex app]. rewrite IH. done.
  - intros b. induction b as [|x b IH]; [done|]. cbn [Toy.hex String.length length]. rewrite IH. lia.
  - intros s b. by apply (toy_hex_unhex (String.length s)).
  - intros s. by apply (toy_unhex_digits (String.length s)).
Qed.

#[local] Existing Instances Toy.noble Toy.hash_laws Toy.hex_laws.

(** Blocking an upper case compressed key blocks the x-only identity. *)
Lemma peer_admission_exact_witness :
  let key := ("02" ++ "00000000000000000000000000000000000000000000000000000000000000AB")%string in
  exists a, new_admission [key] = Ok a /\ allows a (replicate 31 x00 ++ [xab]) = false /\ allows a (replicate 32 x01) = true.
Proof.
  cbv zeta. eexists. split; [vm_compute; reflexivity|]. split; [|vm_compute; reflexivity].
  eapply (proj2 (peer_admission_exact ["0200000000000000000000000000000000000000000000000000000000000000AB"%string])).
  - vm_compute. reflexivity.
  - reflexivity.
  - eexists. split; [by left|]. vm_compute. reflexivity.
Defined.
