(* ===== verification/BloomRouting.v ===== *)
(** * Bloom routing

    [node/BloomRouting.ts]: the filters a node announces to its neighbours and
    accepts from them. A filter object that is compared by identity carries the
    number of its allocation. [send] is cut at its [await]: [send_begin] runs up
    to the call of [sendLinkMessage], [send_end] takes its outcome. *)

From S2P Require Import Prelude Codec Crypto Toy NodeAddr Identity F64 Bloom Link FilterMsg FmpLink Peers.

(** The double nearest to 0.20. *)
Definition MAX_INBOUND_FILTER_FPR : F64.t := F64.make 3602879701896397 (-54).

(** The parts of [BloomRoutingConfig] that do not change. *)
Record BloomRoutingConfig := mkBloomConfig { bc_identity : FipsIdentity; bc_forwarding : bool; bc_strictClient : bool }.

(** The private [sequence], the number of filters allocated, and the peers and
    links of the node. *)
Record BloomRouting := mkBloomRouting { br_sequence : Z; br_filters : nat; br_peers : list AdjacentPeer; br_links : list FmpLink }.

Definition sameFilter (left right : BloomFilter) : bool :=
  bytesEqual (asBytes left) (asBytes right) && (hashCount left =? hashCount right).

Section Routing.
Context `{Noble} (cfg : BloomRoutingConfig) (Math_pow : F64.t -> F64.t -> F64.t).
(** [getPeers()] and [isTreePeer] at the time of the call. *)
Context (getPeers : list nat) (isTreePeer : NodeAddr -> result bool).

Definition established (r : BloomRouting) (p : AdjacentPeer) : bool :=
  bool_decide (link_state (br_links r) (ap_link p) = LEstablished).

Definition alter_br_peer (i : nat) (f : AdjacentPeer -> AdjacentPeer) (r : BloomRouting) : BloomRouting :=
  mkBloomRouting (br_sequence r) (br_filters r) (alter f i (br_peers r)) (br_links r).

(** The body of the loop over the peers. *)
Definition add_peer (r : BloomRouting) (excluded : option nat) (i : nat) : ST BloomFilter unit :=
  match br_peers r !! i with
  | None => mret tt
  | Some p =>
      if negb (bool_decide (Some i = excluded)) && established r p && clientOnly p then
        addr ← lift (deriveNodeAddr (ap_pubkey p)); insertBytes addr
      else if bool_decide (Some i = excluded) || negb (established r p) then mret tt else
      match inboundFilter p with
      | None => mret tt
      | Some inbound =>
          addr ← lift (deriveNodeAddr (ap_pubkey p));
          tree ← lift (isTreePeer addr);
          if (tree : bool) then f ← get; g ← lift (merge f inbound); modify (fun _ => g) else mret tt
      end
  end.

Definition fill (r : BloomRouting) (excluded : option nat) : ST BloomFilter unit :=
  insertBytes (nodeAddr (bc_identity cfg));;
  if bc_forwarding cfg then for_each (add_peer r excluded) getPeers else mret tt.

Definition outgoingFilterFor (r : BloomRouting) (excluded : option nat) : result BloomFilter :=
  empty ← empty_filter;
  let '(res, filter) := fill r excluded empty in
  res;; Ok filter.

(** A message under way: its payload, the filter it carries and the filter
    that was announced before. *)
Record Sending := mkSending { sn_payload : bytes; sn_filter : nat; sn_previous : option (nat * BloomFilter) }.

Definition send_begin (i : nat) : ST BloomRouting (option Sending) :=
  r ← get;
  match br_peers r !! i with
  | None => mret None
  | Some p =>
      if bc_strictClient cfg || negb (established r p) then mret None else
      filter ← lift (outgoingFilterFor r (Some i));
      if match outboundFilter p with Some (_, f) => sameFilter f filter | None => false end then mret None else
      modify (fun r => mkBloomRouting (br_sequence r) (S (br_filters r)) (br_peers r) (br_links r));;
      modify (alter_br_peer i (fun p => set_outboundFilter p (Some (br_filters r, filter))));;
      modify (fun r => mkBloomRouting (br_sequence r + 1) (br_filters r) (br_peers r) (br_links r));;
      r' ← get;
      fa ← lift (buildFilterAnnounce filter (br_sequence r'));
      encoded ← lift (encodeFilterAnnounce fa);
      mret (Some (mkSending (subarray_from encoded 1) (br_filters r) (outboundFilter p)))
  end.

Definition send_end (i : nat) (s : Sending) (sent : result unit) : ST BloomRouting unit :=
  r ← get;
  match sent with
  | Ok _ => match br_peers r !! i with Some p => lift (peerNodeKey p);; mret tt | None => mret tt end
  | Throw e =>
      (if bool_decide (fst <$> (br_peers r !! i ≫= outboundFilter) = Some (sn_filter s))
       then modify (alter_br_peer i (fun p => set_outboundFilter p (sn_previous s))) else mret tt);;
      throw e
  end.

(** The callback of [schedule] when its [send] is rejected. *)
Definition schedule_failed (i : nat) : ST BloomRouting unit :=
  modify (alter_br_peer i (fun p => set_filterAnnounced p false)).

(** The sends that [sendAll] starts, each up to its [await]; a rejected one
    does not stop the others. *)
Fixpoint send_each (is_ : list nat) : ST BloomRouting (list (nat * result (option Sending))) :=
  match is_ with
  | [] => mret []
  | i :: is_ =>
      s ← try_catch (s ← send_begin i; mret (Ok s)) (fun e => mret (Throw e : result (option Sending)));
      ss ← send_each is_;
      mret ((i, s) :: ss)
  end.

Definition sendAll (excluded : option nat) : ST BloomRouting (list (nat * result (option Sending))) :=
  r ← get;
  if bc_strictClient cfg then mret [] else
  send_each (base.filter (fun i => Some i <> excluded /\
    (match br_peers r !! i with Some p => established r p | None => false end) = true) getPeers).

(** [handle] up to its [sendAll], which it calls when the result is [true]. *)
Definition handle (i : nat) (payload : bytes) : ST BloomRouting bool :=
  r ← get;
  match br_peers r !! i with
  | None => mret false
  | Some p =>
      announce ← lift (decodeFilterAnnounce (z2b LinkMessageType.FilterAnnounce :: payload));
      if fa_sequence announce <=? default 0 (inboundFilterSequence p) then mret false else
      let fpr := Math_pow (fillRatio (fa_filter announce)) (F64.of_Z (hashCount (fa_filter announce))) in
      if F64.ltb MAX_INBOUND_FILTER_FPR fpr then lift (peerNodeKey p);; mret false else
      modify (alter_br_peer i (fun p => set_inbound p (fa_filter announce) (fa_sequence announce)));;
      lift (peerNodeKey p);;
      addr ← lift (deriveNodeAddr (ap_pubkey p));
      lift (isTreePeer addr)
  end.
End Routing.

(** ** Well-formed states *)

(** The size of every filter that is announced. *)
Definition v1_filter (f : BloomFilter) : Prop := bloom_wf f /\ numBits f = 8192.

(** The parameters of a filter that [BloomFilter.empty] makes. *)
Definition std_filter : BloomFilter := mkBloom [] 8192 5.

Record peer_filters_ok (n : nat) (p : AdjacentPeer) : Prop := {
  pf_in : forall f, inboundFilter p = Some f -> v1_filter f;
  pf_seq : 0 <= default 0 (inboundFilterSequence p) < 2 ^ 64;
  pf_out : forall k f, outboundFilter p = Some (k, f) -> (k < n)%nat /\ v1_filter f;
}.

Record br_ok (r : BloomRouting) : Prop := {
  br_seq_ok : 0 <= br_sequence r;
  br_peers_ok : forall i p, br_peers r !! i = Some p -> peer_filters_ok (br_filters r) p;
}.

Section Filters.
Context `{Noble, !HashLaws} (cfg : BloomRoutingConfig) (getPeers : list nat) (isTreePeer : NodeAddr -> result bool).

(** What the peers and the tree must give for a filter to be computed. *)
Record inputs_ok (r : BloomRouting) : Prop := {
  in_keys : forall i p, i ∈ getPeers -> br_peers r !! i = Some p -> is_ok (deriveNodeAddr (ap_pubkey p)) = true;
  in_tree : forall a, is_ok (isTreePeer a) = true;
}.

(** Whether peer [i] contributes bit [j] to the filter sent to [excluded]: an
    established client with its own address, an established tree neighbour with
    the filter it announced. *)
Definition contributes (r : BloomRouting) (excluded : option nat) (j : Z) (i : nat) : bool :=
  match br_peers r !! i with
  | None => false
  | Some p =>
      negb (bool_decide (Some i = excluded)) && established r p &&
      match deriveNodeAddr (ap_pubkey p) with
      | Throw _ => false
      | Ok a =>
          if clientOnly p then bool_decide (j ∈ probes std_filter a)
          else match inboundFilter p with
               | Some g => ok_or (isTreePeer a) false && has_bit g j
               | None => false
               end
      end
  end.

Definition filter_plus (f f' : BloomFilter) (more : Z -> bool) : Prop :=
  v1_filter f' /\ hashCount f' = 5 /\ forall j, 0 <= j < 8192 -> has_bit f' j = (more j || has_bit f j)%bool.

Lemma filter_plus_none f : v1_filter f -> hashCount f = 5 -> filter_plus f f (fun _ => false).
Proof. intros Hf Hh. by split. Qed.

Lemma insert_plus f a : v1_filter f -> hashCount f = 5 -> exists f', insertBytes a f = (Ok tt, f') /\
  filter_plus f f' (fun j => bool_decide (j ∈ probes std_filter a)).
Proof.
  intros [Hf Hn] Hh. destruct (insertBytes_spec a f Hf) as (f' & E & Hf' & [Hn' Hh'] & Hb).
  exists f'. split; [done|]. split; [split; [done|lia]|]. split; [lia|]. intros j Hj.
  rewrite Hb by lia. by rewrite (probes_params f std_filter) by by split.
Qed.

Lemma merge_plus f g : v1_filter f -> hashCount f = 5 -> v1_filter g -> exists f', merge f g = Ok f' /\
  filter_plus f f' (has_bit g).
Proof.
  intros [Hf Hn] Hh [Hg Hng]. assert (exists f', merge f g = Ok f') as [f' E].
  { unfold merge. rewrite Hn, Hng. by eexists. }
  destruct (merge_spec f g f' Hf Hg E) as (_ & Hf' & [Hn' Hh'] & Hb). exists f'. split; [done|].
  split; [split; [done|lia]|]. split; [lia|]. intros j Hj. rewrite Hb by lia. apply orb_comm.
Qed.

Lemma is_ok_inv {A} (x : result A) : is_ok x = true -> exists a, x = Ok a.
Proof. destruct x; [eauto|done]. Qed.

(** One turn of the loop adds what the peer contributes. *)
Lemma add_peer_run r excluded i f : br_ok r -> inputs_ok r -> i ∈ getPeers -> v1_filter f -> hashCount f = 5 ->
  exists f', add_peer isTreePeer r excluded i f = (Ok tt, f') /\
    filter_plus f f' (fun j => contributes r excluded j i).
Proof.
  intros Hr [Hkeys Htree] Hi Hf Hh. unfold add_peer, contributes.
  destruct (br_peers r !! i) as [p|] eqn:Ep; [|exists f; split; [done|]; by apply filter_plus_none].
  destruct (is_ok_inv _ (Hkeys i p Hi Ep)) as [a ->].
  destruct (bool_decide (Some i = excluded)); [exists f; split; [done|]; by apply filter_plus_none|].
  destruct (established r p); [|exists f; split; [done|]; by apply filter_plus_none]. cbn [negb andb orb].
  destruct (clientOnly p); [by apply insert_plus|].
  destruct (inboundFilter p) as [g|] eqn:Eg; [|exists f; split; [done|]; by apply filter_plus_none].
  destruct (is_ok_inv _ (Htree a)) as [b Eb]. cbn [ok_or].
  rewrite !(ST_lift_bind _ _ _ _ eq_refl), (ST_lift_bind _ _ _ _ Eb), Eb. cbn [ok_or].
  destruct b; [|exists f; split; [done|]; by apply filter_plus_none].
  destruct (merge_plus f g Hf Hh (pf_in _ _ (br_peers_ok r Hr i p Ep) g Eg)) as (f' & E & Hf').
  exists f'. split; [|done]. by rewrite ST_get_bind, (ST_lift_bind _ _ _ _ E).
Qed.

Lemma add_peers_run r excluded is_ f : br_ok r -> inputs_ok r -> (forall i, i ∈ is_ -> i ∈ getPeers) ->
  v1_filter f -> hashCount f = 5 ->
  exists f', for_each (add_peer isTreePeer r excluded) is_ f = (Ok tt, f') /\
    filter_plus f f' (fun j => existsb (contributes r excluded j) is_).
Proof.
  intros Hr Hin. revert f. induction is_ as [|i is_ IH]; intros f Hsub Hf Hh.
  { exists f. split; [done|]. by apply filter_plus_none. }
  destruct (add_peer_run r excluded i f Hr Hin ltac:(set_solver) Hf Hh) as (f1 & E1 & Hf1 & Hh1 & Hb1).
  destruct (IH f1 ltac:(set_solver) Hf1 Hh1) as (f2 & E2 & Hf2 & Hh2 & Hb2).
  exists f2. split; [cbn [for_each]; by rewrite (ST_bind_ok _ _ _ _ _ E1)|]. split; [done|]. split; [done|].
  intros j Hj. rewrite Hb2, Hb1 by done. cbn [existsb]. rewrite orb_assoc. f_equal. apply orb_comm.
Qed.

Lemma empty_filter_run : exists f, empty_filter = Ok f /\ v1_filter f /\ hashCount f = 5 /\
  forall j, 0 <= j < 8192 -> has_bit f j = false.
Proof.
  eexists. split; [reflexivity|]. split; [|split; [done|]].
  - split; [|done]. split; [reflexivity|]. split; split; vm_compute; congruence.
  - intros j Hj. unfold has_bit, byte_at. assert (0 <= j / 8) by (apply Z.div_pos; lia). decide_if. cbn [bits].
    unfold DEFAULT_FILTER_SIZE_BITS. change (8192 / 8) with 1024. assert (j / 8 < 1024) by (apply Z.div_lt_upper_bound; lia).
    rewrite lookup_replicate_2 by lia. apply Z.bits_0.
Qed.

(** The bits of the filter sent to [excluded]. *)
Definition outgoing_bit (r : BloomRouting) (excluded : option nat) (j : Z) : bool :=
  bool_decide (j ∈ probes std_filter (nodeAddr (bc_identity cfg)))
  || bc_forwarding cfg && existsb (contributes r excluded j) getPeers.

Lemma outgoing_run r excluded : br_ok r -> inputs_ok r ->
  exists f, outgoingFilterFor cfg getPeers isTreePeer r excluded = Ok f /\ v1_filter f /\ hashCount f = 5 /\
    forall j, 0 <= j < 8192 -> has_bit f j = outgoing_bit r excluded j.
Proof.
  intros Hr Hin. unfold outgoingFilterFor, fill, outgoing_bit.
  destruct empty_filter_run as (f0 & -> & Hf0 & Hh0 & Hb0). cbn [mbind result_bind].
  destruct (insert_plus f0 (nodeAddr (bc_identity cfg)) Hf0 Hh0) as (f1 & E1 & Hf1 & Hh1 & Hb1).
  rewrite (ST_bind_ok _ _ _ _ _ E1). destruct (bc_forwarding cfg).
  - destruct (add_peers_run r excluded getPeers f1 Hr Hin ltac:(done) Hf1 Hh1) as (f2 & -> & Hf2 & Hh2 & Hb2).
    exists f2. split_and!; try done. intros j Hj. rewrite Hb2, Hb1, Hb0 by done. rewrite orb_false_r. apply orb_comm.
  - exists f1. split_and!; try done. intros j Hj. rewrite Hb1, Hb0 by done. done.
Qed.
End Filters.

(** The filter computed for a peer has exactly the bits of the node's own
    address and, where the node forwards, those of the addresses of its other
    established client-only peers and those of the filters its other established
    tree neighbours announced: nothing is routed back to the peer it came from.
    So no address that should be in the filter is missing. *)
Lemma outgoing_filter_exact `{Noble, !HashLaws} (cfg : BloomRoutingConfig) (getPeers : list nat)
    (isTreePeer : NodeAddr -> result bool) (r : BloomRouting) (excluded : option nat) :
  br_ok r -> inputs_ok getPeers isTreePeer r ->
  exists f, outgoingFilterFor cfg getPeers isTreePeer r excluded = Ok f /\ v1_filter f /\ hashCount f = 5 /\
    (forall j, 0 <= j < 8192 -> has_bit f j = outgoing_bit cfg getPeers isTreePeer r excluded j) /\
    containsBytes f (nodeAddr (bc_identity cfg)) = Ok true /\
    (forall i p a, bc_forwarding cfg = true -> i ∈ getPeers -> Some i <> excluded -> br_peers r !! i = Some p ->
      established r p = true -> deriveNodeAddr (ap_pubkey p) = Ok a ->
      (clientOnly p = true -> containsBytes f a = Ok true) /\
      (forall g d, clientOnly p = false -> inboundFilter p = Some g -> isTreePeer a = Ok true ->
        hashCount g = 5 -> containsBytes g d = Ok true -> containsBytes f d = Ok true)).
Proof.
  intros Hr Hin. destruct (outgoing_run cfg getPeers isTreePeer r excluded Hr Hin) as (f & E & Hv & Hh & Hb).
  exists f. split; [done|]. split; [done|]. split; [done|]. split; [done|]. destruct Hv as [Hf Hn].
  assert (Hcont : forall d, (forall j, j ∈ probes std_filter d -> 0 <= j < 8192 -> outgoing_bit cfg getPeers isTreePeer r excluded j = true) ->
    containsBytes f d = Ok true).
  { intros d Hd. rewrite containsBytes_spec by done. f_equal. apply forallb_forall. intros j Hj%list_elem_of_In.
    pose proof (probes_range f d j Hf Hj). rewrite (probes_params f std_filter) in Hj by by split.
    rewrite Hb by lia. apply Hd; [done|lia]. }
  split; [apply Hcont; intros j Hj _; unfold outgoing_bit; by rewrite bool_decide_eq_true_2|].
  intros i p a Hfw Hi Hne Ep Hest Ha.
  assert (Hpeer : forall j, contributes isTreePeer r excluded j i = true -> outgoing_bit cfg getPeers isTreePeer r excluded j = true).
  { intros j Hj. unfold outgoing_bit. rewrite Hfw. apply orb_true_iff. right. apply existsb_exists. exists i.
    split; [by apply list_elem_of_In|done]. }
  assert (Hst : negb (bool_decide (Some i = excluded)) && established r p = true)
    by (by rewrite bool_decide_eq_false_2, Hest).
  split.
  - intros Hc. apply Hcont. intros j Hj _. apply Hpeer. unfold contributes. rewrite Ep, Hst, Ha, Hc.
    by apply bool_decide_eq_true.
  - intros g d Hc Eg Ht Hhg Hd. apply Hcont. intros j Hj Hr'. apply Hpeer. unfold contributes.
    rewrite Ep, Hst, Ha, Hc, Eg, Ht. cbn [andb ok_or].
    destruct (pf_in _ _ (br_peers_ok r Hr i p Ep) g Eg) as [Hg Hng].
    rewrite containsBytes_spec in Hd by done. injection Hd as Hd. rewrite forallb_forall in Hd. apply Hd.
    apply list_elem_of_In. by rewrite (probes_params g std_filter) by by split.
Qed.

(** ** Sending and receiving announcements *)

Section Exchange.
Context `{Noble, !HashLaws} (cfg : BloomRoutingConfig) (Math_pow : F64.t -> F64.t -> F64.t).
Context (getPeers : list nat) (isTreePeer : NodeAddr -> result bool).

Definition announced (f : BloomFilter) (seq : Z) : FilterAnnounce := mkFilterAnnounce f seq (hashCount f) 1.

(** The payload that carries a v1 filter decodes to the filter. *)
Lemma announce_frame f seq : v1_filter f -> 0 <= seq < 2 ^ 64 ->
  exists encoded, buildFilterAnnounce f seq = Ok (announced f seq) /\ encodeFilterAnnounce (announced f seq) = Ok encoded /\
    decodeFilterAnnounce (z2b LinkMessageType.FilterAnnounce :: subarray_from encoded 1) = Ok (announced f seq).
Proof.
  intros [(Hn & Hb & Hh) Hn'] Hs. assert (Hl : len (bits f) = 1024) by lia.
  assert (Hlay : exists rest, filter_layout (announced f seq) = Some (x20 :: rest)).
  { unfold filter_layout, announced. cbn [fa_sequence fa_hashCount fa_sizeClass fa_filter].
    unfold field. decide_if. cbn. by eexists. }
  destruct Hlay as [rest Hlay]. exists (x20 :: rest). split_and!.
  - unfold buildFilterAnnounce, numBytes. rewrite Hl. done.
  - apply encodeFilterAnnounce_Ok. by split_and!.
  - change (subarray_from (x20 :: rest) 1) with rest. apply decodeFilterAnnounce_Ok.
    exists (x20 :: rest), []. rewrite app_nil_r. split; [done|]. split; [done|]. unfold filter_announce_wf. cbn. lia.
Qed.

(** The estimated false positive rate is above the cap. *)
Definition too_full (f : BloomFilter) : bool :=
  F64.ltb MAX_INBOUND_FILTER_FPR (Math_pow (fillRatio f) (F64.of_Z (hashCount f))).

(** Every branch of [handle]. *)
Lemma handle_run i p payload r : br_peers r !! i = Some p ->
  handle Math_pow isTreePeer i payload r =
  match decodeFilterAnnounce (z2b LinkMessageType.FilterAnnounce :: payload) with
  | Throw e => (Throw e, r)
  | Ok fa =>
      if fa_sequence fa <=? default 0 (inboundFilterSequence p) then (Ok false, r)
      else if too_full (fa_filter fa) then (peerNodeKey p;; Ok false, r)
      else (peerNodeKey p;; deriveNodeAddr (ap_pubkey p) ≫= isTreePeer,
            alter_br_peer i (fun p => set_inbound p (fa_filter fa) (fa_sequence fa)) r)
  end.
Proof.
  intros Ep. unfold handle. rewrite ST_get_bind, Ep. destruct (decodeFilterAnnounce _) as [fa|e]; [|done].
  rewrite (ST_lift_bind _ _ _ _ eq_refl). destruct (_ <=? _); [done|]. fold (too_full (fa_filter fa)).
  destruct (too_full _); [by destruct (peerNodeKey p)|]. rewrite ST_modify_bind.
  destruct (peerNodeKey p); [|done]. by destruct (deriveNodeAddr _).
Qed.

Definition with_outbound (x : option (nat * BloomFilter)) (p : AdjacentPeer) : AdjacentPeer := set_outboundFilter p x.

(** The state after a send to [i] has started. *)
Definition sending (i : nat) (f : BloomFilter) (r : BloomRouting) : BloomRouting :=
  mkBloomRouting (br_sequence r + 1) (S (br_filters r)) (alter (with_outbound (Some (br_filters r, f))) i (br_peers r)) (br_links r).

Definition unchanged_filter (p : AdjacentPeer) (f : BloomFilter) : bool :=
  match outboundFilter p with Some (_, g) => sameFilter g f | None => false end.

Lemma send_run i p f r : br_peers r !! i = Some p -> bc_strictClient cfg = false -> established r p = true ->
  outgoingFilterFor cfg getPeers isTreePeer r (Some i) = Ok f -> v1_filter f -> 0 <= br_sequence r + 1 < 2 ^ 64 ->
  if unchanged_filter p f then send_begin cfg getPeers isTreePeer i r = (Ok None, r)
  else exists payload,
    send_begin cfg getPeers isTreePeer i r = (Ok (Some (mkSending payload (br_filters r) (outboundFilter p))), sending i f r) /\
    decodeFilterAnnounce (z2b LinkMessageType.FilterAnnounce :: payload) = Ok (announced f (br_sequence r + 1)).
Proof.
  intros Ep Hstrict Hest Ef Hf Hs. unfold send_begin. rewrite ST_get_bind, Ep, Hstrict, Hest. cbn [orb negb].
  rewrite (ST_lift_bind _ _ _ _ Ef). fold (unchanged_filter p f). destruct (unchanged_filter p f); [done|].
  destruct (announce_frame f _ Hf Hs) as (encoded & Eb & Ee & Ed). exists (subarray_from encoded 1). split; [|done].
  rewrite !ST_modify_bind, ST_get_bind. cbn [br_sequence alter_br_peer].
  by rewrite (ST_lift_bind _ _ _ _ Eb), (ST_lift_bind _ _ _ _ Ee).
Qed.

(** What is sent to a peer does not depend on that peer's own record. *)
Lemma outgoing_sending i f r : (i < length (br_peers r))%nat ->
  outgoingFilterFor cfg getPeers isTreePeer (sending i f r) (Some i) = outgoingFilterFor cfg getPeers isTreePeer r (Some i).
Proof.
  intros Hi. unfold outgoingFilterFor, fill. destruct empty_filter as [f0|e]; [|done]. cbn [mbind result_bind].
  assert (Hadd : forall k, add_peer isTreePeer (sending i f r) (Some i) k = add_peer isTreePeer r (Some i) k).
  { intros k. unfold add_peer, sending. cbn [br_peers]. destruct (decide (i = k)) as [<-|Hne].
    - apply lookup_lt_is_Some_2 in Hi as [p Ep]. rewrite list_lookup_alter_eq, Ep. cbn [fmap option_fmap option_map].
      by rewrite bool_decide_eq_true_2.
    - by rewrite list_lookup_alter_ne. }
  assert (Hall : forall ks, for_each (add_peer isTreePeer (sending i f r) (Some i)) ks = for_each (add_peer isTreePeer r (Some i)) ks).
  { induction ks as [|k ks IH]; [done|]. cbn [for_each]. by rewrite Hadd, IH. }
  by rewrite Hall.
Qed.

Lemma set_outbound_back p x : outboundFilter p = x -> with_outbound x p = p.
Proof. intros <-. by destruct p. Qed.

Lemma alter_alter_back i p (f : BloomFilter) n r : br_peers r !! i = Some p ->
  alter (with_outbound (outboundFilter p)) i (alter (with_outbound (Some (n, f))) i (br_peers r)) = br_peers r.
Proof.
  intros Ep. apply list_eq. intros k. destruct (decide (i = k)) as [<-|Hne].
  - rewrite !list_lookup_alter_eq, Ep. cbn. f_equal. by destruct p.
  - by rewrite !list_lookup_alter_ne.
Qed.
End Exchange.

(** [send] announces the filter computed for the peer unless it is the one
    announced last, under a new sequence number. A neighbour that has only seen
    smaller numbers decodes the payload to that very filter and, unless it is too
    full, stores it under that number; sending again at once does nothing, and
    when the transmission fails the previously announced filter is put back, so
    that the next [send] tries again. *)
Lemma filter_announcement_exchange `{Noble, !HashLaws} (cfg : BloomRoutingConfig) (Math_pow : F64.t -> F64.t -> F64.t)
    (getPeers : list nat) (isTreePeer : NodeAddr -> result bool) (i : nat) (p : AdjacentPeer) (r : BloomRouting) :
  br_ok r -> inputs_ok getPeers isTreePeer r -> br_peers r !! i = Some p -> bc_strictClient cfg = false ->
  established r p = true -> br_sequence r + 1 < 2 ^ 64 ->
  let send := send_begin cfg getPeers isTreePeer i in
  exists f, outgoingFilterFor cfg getPeers isTreePeer r (Some i) = Ok f /\
    if unchanged_filter p f then send r = (Ok None, r)
    else exists s r', send r = (Ok (Some s), r') /\
      br_sequence r' = br_sequence r + 1 /\ br_peers r' !! i = Some (set_outboundFilter p (Some (sn_filter s, f))) /\
      send r' = (Ok None, r') /\
      (forall e, exists r'', send_end i s (Throw e) r' = (Throw e, r'') /\ br_peers r'' = br_peers r) /\
      (forall r2 j q, br_peers r2 !! j = Some q -> default 0 (inboundFilterSequence q) <= br_sequence r ->
        too_full Math_pow f = false ->
        br_peers (snd (handle Math_pow isTreePeer j (sn_payload s) r2)) !! j = Some (set_inbound q f (br_sequence r + 1))).
Proof.
  intros Hr Hin Ep Hst Hest Hseq. cbv zeta.
  destruct (outgoing_run cfg getPeers isTreePeer r (Some i) Hr Hin) as (f & Ef & Hf & _). exists f. split; [done|].
  pose proof (br_seq_ok r Hr) as Hpos. pose proof (lookup_lt_Some _ _ _ Ep) as Hi.
  pose proof (send_run cfg getPeers isTreePeer i p f r Ep Hst Hest Ef Hf ltac:(lia)) as Hsend.
  destruct (unchanged_filter p f); [done|]. destruct Hsend as (payload & Es & Ed).
  eexists _, _. split; [exact Es|]. cbn [sn_filter sn_previous sn_payload].
  assert (Ep' : br_peers (sending i f r) !! i = Some (with_outbound (Some (br_filters r, f)) p))
    by (cbn; by rewrite list_lookup_alter_eq, Ep).
  split; [done|]. split; [exact Ep'|]. split; [|split].
  - unfold send_begin. rewrite ST_get_bind, Ep', Hst.
    change (established (sending i f r) (with_outbound _ p)) with (established r p). rewrite Hest. cbn [orb negb].
    assert (Ef' : outgoingFilterFor cfg getPeers isTreePeer (sending i f r) (Some i) = Ok f) by by rewrite outgoing_sending.
    rewrite (ST_lift_bind _ _ _ _ Ef').
    cbn [with_outbound set_outboundFilter outboundFilter]. unfold sameFilter. by rewrite bytesEqual_refl, Z.eqb_refl.
  - intros e. eexists. unfold send_end. rewrite ST_get_bind, Ep'. cbn [mbind option_bind fmap option_fmap option_map].
    cbn [with_outbound set_outboundFilter outboundFilter fst sn_filter sn_previous]. rewrite bool_decide_eq_true_2 by done.
    rewrite ST_modify_bind. split; [reflexivity|]. cbn. by apply alter_alter_back.
  - intros r2 j q Eq Hlast Hfull. rewrite (handle_run _ _ j q) by done. rewrite Ed.
    unfold announced. cbn [fa_sequence fa_filter]. rewrite Hfull. decide_if. cbn [snd].
    cbn. by rewrite list_lookup_alter_eq, Eq.
Qed.

(** ** Runs *)

(** The router and its messages under way. *)
Record Routing := mkRouting { rt_state : BloomRouting; rt_sending : list (nat * Sending) }.

(** What happens to the record of a peer outside this component. *)
Definition same_filters (p q : AdjacentPeer) : Prop :=
  inboundFilter q = inboundFilter p /\ inboundFilterSequence q = inboundFilterSequence p /\ outboundFilter q = outboundFilter p.

Definition fresh_filters (p : AdjacentPeer) : Prop :=
  inboundFilter p = None /\ inboundFilterSequence p = None /\ outboundFilter p = None.

Section Runs.
Context `{Noble, !HashLaws} (cfg : BloomRoutingConfig) (Math_pow : F64.t -> F64.t -> F64.t).

(** The peers and the tree may be different at every step. *)
Inductive routing_step (w : Routing) : Routing -> Prop :=
| RtHandle getPeers isTreePeer i payload res r' : inputs_ok getPeers isTreePeer (rt_state w) ->
    handle Math_pow isTreePeer i payload (rt_state w) = (res, r') ->
    routing_step w (mkRouting r' (rt_sending w))
| RtSend getPeers isTreePeer i res r' : inputs_ok getPeers isTreePeer (rt_state w) -> br_sequence (rt_state w) + 1 < 2 ^ 64 ->
    send_begin cfg getPeers isTreePeer i (rt_state w) = (res, r') ->
    routing_step w (mkRouting r' (match res with Ok (Some s) => (i, s) :: rt_sending w | _ => rt_sending w end))
| RtSent i s sent res r' : (i, s) ∈ rt_sending w -> send_end i s sent (rt_state w) = (res, r') ->
    routing_step w (mkRouting r' (rt_sending w))
| RtFailed i res r' : schedule_failed i (rt_state w) = (res, r') -> routing_step w (mkRouting r' (rt_sending w))
| RtOther ps ls : (length (br_peers (rt_state w)) <= length ps)%nat ->
    (forall i q, ps !! i = Some q -> match br_peers (rt_state w) !! i with Some p => same_filters p q | None => fresh_filters q end) ->
    routing_step w (mkRouting (mkBloomRouting (br_sequence (rt_state w)) (br_filters (rt_state w)) ps ls) (rt_sending w)).

Definition new_routing : Routing := mkRouting (mkBloomRouting 0 0 [] []) [].

Definition sending_ok (n : nat) (s : Sending) : Prop :=
  forall k f, sn_previous s = Some (k, f) -> (k < n)%nat /\ v1_filter f.

Definition routing_ok (w : Routing) : Prop :=
  br_ok (rt_state w) /\ forall i s, (i, s) ∈ rt_sending w -> sending_ok (br_filters (rt_state w)) s.

(** A later record of the same peer: its sequence number has not gone back, and
    its filter changed only with a greater number. *)
Definition inbound_le (p q : AdjacentPeer) : Prop :=
  default 0 (inboundFilterSequence p) < default 0 (inboundFilterSequence q) \/
  inboundFilterSequence q = inboundFilterSequence p /\ inboundFilter q = inboundFilter p.

Definition later (r r' : BloomRouting) : Prop :=
  br_sequence r <= br_sequence r' /\ (br_filters r <= br_filters r')%nat /\
  forall i p, br_peers r !! i = Some p -> exists q, br_peers r' !! i = Some q /\ inbound_le p q.

Lemma inbound_le_refl p : inbound_le p p.
Proof. by right. Qed.

Lemma inbound_le_trans p q s : inbound_le p q -> inbound_le q s -> inbound_le p s.
Proof.
  intros [Hlt|[E1 E2]] [Hlt'|[E3 E4]]; unfold inbound_le; rewrite ?E1, ?E2, ?E3, ?E4 in *; auto; left; lia.
Qed.

Lemma later_refl r : later r r.
Proof. split; [lia|]. split; [lia|]. intros i p Hp. exists p. split; [done|]. apply inbound_le_refl. Qed.

Lemma later_trans r1 r2 r3 : later r1 r2 -> later r2 r3 -> later r1 r3.
Proof.
  intros (A1 & A2 & A3) (B1 & B2 & B3). split; [lia|]. split; [lia|]. intros i p Hp.
  destruct (A3 i p Hp) as (q & Hq & L1). destruct (B3 i q Hq) as (s & Hs & L2). exists s. split; [done|].
  by apply inbound_le_trans with q.
Qed.

Lemma peer_filters_mono n m p : (n <= m)%nat -> peer_filters_ok n p -> peer_filters_ok m p.
Proof. intros Hle [A B C]. split; [done|done|]. intros k f E. destruct (C k f E). split; [lia|done]. Qed.

(** A store to one peer's record. *)
Lemma alter_step i g n seq r : br_ok r -> (br_filters r <= n)%nat -> br_sequence r <= seq ->
  (forall p, br_peers r !! i = Some p -> peer_filters_ok n (g p) /\ inbound_le p (g p)) ->
  let r' := mkBloomRouting seq n (alter g i (br_peers r)) (br_links r) in br_ok r' /\ later r r'.
Proof.
  intros [Hs Hp] Hn Hseq Hg. cbv zeta. split.
  - split; [cbn; lia|]. cbn. intros k q. destruct (decide (i = k)) as [<-|Hne].
    + rewrite list_lookup_alter_eq. intros (p & Ep & ->)%fmap_Some. by apply Hg.
    + rewrite list_lookup_alter_ne by done. intros Ep. apply peer_filters_mono with (br_filters r); [done|by apply (Hp k)].
  - split; [done|]. split; [done|]. intros k p Ep. cbn. destruct (decide (i = k)) as [<-|Hne].
    + rewrite list_lookup_alter_eq, Ep. eexists. split; [done|]. by apply Hg.
    + rewrite list_lookup_alter_ne by done. eexists. split; [done|]. apply inbound_le_refl.
Qed.

Lemma decoded_filter_v1 b fa : decodeFilterAnnounce b = Ok fa -> v1_filter (fa_filter fa) /\ 0 <= fa_sequence fa < 2 ^ 64.
Proof.
  intros (frame & rest & _ & Hl & (Hc & Hb & Hn & Hh & Hr))%decodeFilterAnnounce_Ok. split.
  - split; [|done]. unfold bloom_wf. rewrite Hb, Hn. split; [done|]. split; [split; vm_compute; congruence|lia].
  - unfold filter_layout in Hl. apply lseq_Some in Hl as (x1 & ? & _ & Hl & _).
    apply lseq_Some in Hl as (x2 & ? & Hl & _ & _). by apply field_range in Hl.
Qed.

Lemma handle_step i payload isTreePeer r res r' : br_ok r -> handle Math_pow isTreePeer i payload r = (res, r') -> br_ok r' /\ later r r' /\ br_filters r' = br_filters r.
Proof.
  intros Hr E. assert (Hsame : br_ok r /\ later r r /\ br_filters r = br_filters r) by (split; [done|]; split; [apply later_refl|done]).
  destruct (br_peers r !! i) as [p|] eqn:Ep.
  - rewrite (handle_run _ _ i p) in E by done. destruct (decodeFilterAnnounce _) as [fa|e] eqn:Ed; [|by injection E as <- <-].
    destruct (_ <=? _) eqn:Ec; [by injection E as <- <-|]. destruct (too_full _ _); injection E as _ <-; [done|]. bool_split.
    destruct (decoded_filter_v1 _ _ Ed) as [Hv Hs].
    destruct (alter_step i (fun p => set_inbound p (fa_filter fa) (fa_sequence fa)) (br_filters r) (br_sequence r) r Hr) as [H1 H2];
      [lia|lia| |by split_and!].
    rewrite Ep. intros q [= <-]. destruct (br_peers_ok r Hr i p Ep) as [P1 P2 P3]. split.
    + split; cbn; [by intros f [= <-]|done|done].
    + left. cbn. lia.
  - unfold handle in E. rewrite ST_get_bind, Ep in E. by injection E as <- <-.
Qed.

Lemma send_step getPeers isTreePeer i r res r' : br_ok r -> inputs_ok getPeers isTreePeer r -> br_sequence r + 1 < 2 ^ 64 ->
  send_begin cfg getPeers isTreePeer i r = (res, r') ->
  br_ok r' /\ later r r' /\ forall s, res = Ok (Some s) -> sending_ok (br_filters r') s.
Proof.
  intros Hr Hin Hseq E. assert (Hsame : br_ok r /\ later r r) by (split; [done|apply later_refl]).
  destruct (br_peers r !! i) as [p|] eqn:Ep.
  2:{ unfold send_begin in E. rewrite ST_get_bind, Ep in E. injection E as <- <-. split_and!; [apply Hsame..|done]. }
  destruct (bc_strictClient cfg || negb (established r p)) eqn:Ec.
  { unfold send_begin in E. rewrite ST_get_bind, Ep, Ec in E. injection E as <- <-. split_and!; [apply Hsame..|done]. }
  apply orb_false_iff in Ec as [Hst Hest%negb_false_iff].
  destruct (outgoing_run cfg getPeers isTreePeer r (Some i) Hr Hin) as (f & Ef & Hf & _). pose proof (br_seq_ok r Hr).
  pose proof (send_run cfg getPeers isTreePeer i p f r Ep Hst Hest Ef Hf ltac:(lia)) as Hsend.
  destruct (unchanged_filter p f); [rewrite Hsend in E; injection E as <- <-; split_and!; [apply Hsame..|done]|].
  destruct Hsend as (payload & Es & _). rewrite Es in E. injection E as <- <-.
  destruct (br_peers_ok r Hr i p Ep) as [P1 P2 P3].
  destruct (alter_step i (with_outbound (Some (br_filters r, f))) (S (br_filters r)) (br_sequence r + 1) r Hr) as [K1 K2]; [lia|lia| |].
  - rewrite Ep. intros q [= <-]. split; [|by right]. split; cbn; [done|done|]. intros k g [= <- <-]. split; [lia|done].
  - split; [done|]. split; [done|]. intros s [= <-] k g. cbn. intros Eo. destruct (P3 k g Eo). split; [lia|done].
Qed.

Lemma sent_step i s sent r res r' : br_ok r -> sending_ok (br_filters r) s -> send_end i s sent r = (res, r') ->
  br_ok r' /\ later r r' /\ br_filters r' = br_filters r.
Proof.
  intros Hr Hs E. assert (Hsame : br_ok r /\ later r r /\ br_filters r = br_filters r) by (split; [done|]; split; [apply later_refl|done]).
  unfold send_end in E. rewrite ST_get_bind in E. destruct sent as [u|e].
  { destruct (br_peers r !! i) as [p|]; [|by injection E as <- <-]. unfold mbind, ST_bind, lift in E.
    destruct (peerNodeKey p); by injection E as <- <-. }
  destruct (bool_decide _); [|by injection E as <- <-]. rewrite ST_modify_bind in E. injection E as _ <-.
  destruct (alter_step i (with_outbound (sn_previous s)) (br_filters r) (br_sequence r) r Hr) as [K1 K2]; [lia|lia| |by split_and!].
  intros p Ep. destruct (br_peers_ok r Hr i p Ep) as [P1 P2 P3]. split; [|by right]. split; cbn; [done|done|]. intros k g Eo. by apply Hs.
Qed.

Lemma routing_step_ok w w' : routing_ok w -> routing_step w w' -> routing_ok w' /\ later (rt_state w) (rt_state w').
Proof.
  intros [Hr Hs] [gp tp i payload res r' _ E|gp tp i res r' Hin Hseq E|i s sent res r' Hel E|i res r' E|ps ls Hlen Hsame]; unfold routing_ok; cbn [rt_state rt_sending].
  - destruct (handle_step i payload tp _ _ _ Hr E) as (H1 & H2 & H3). rewrite H3. by split_and!.
  - destruct (send_step gp tp i _ _ _ Hr Hin Hseq E) as (H1 & H2 & H3). split; [|done]. split; [done|].
    assert (Hold : forall k s, (k, s) ∈ rt_sending w -> sending_ok (br_filters r') s).
    { intros k s Hin' j f Ej. destruct (Hs k s Hin' j f Ej). destruct H2 as (_ & H2 & _). split; [lia|done]. }
    destruct res as [[s|]|e]; [|done..]. intros k s' [[= -> ->]|Hin']%elem_of_cons; [by apply H3|by apply (Hold k)].
  - destruct (sent_step i s sent _ _ _ Hr (Hs i s Hel) E) as (H1 & H2 & H3). rewrite H3. by split_and!.
  - injection E as _ <-. destruct (alter_step i (fun p => set_filterAnnounced p false) (br_filters (rt_state w)) (br_sequence (rt_state w)) (rt_state w) Hr) as [H1 H2]; [lia|lia| |by split_and!].
    intros p Ep. destruct (br_peers_ok _ Hr i p Ep) as [P1 P2 P3]. split; [by split|by right].
  - destruct Hr as [Hq Hp]. split; [split|]; [|done|].
    + split; [done|]. cbn. intros i q Eq. specialize (Hsame i q Eq). destruct (br_peers (rt_state w) !! i) as [p|] eqn:Ep.
      * destruct (Hp i p Ep) as [P1 P2 P3]. destruct Hsame as (E1 & E2 & E3). split; rewrite ?E1, ?E2, ?E3; done.
      * destruct Hsame as (E1 & E2 & E3). split; rewrite ?E1, ?E2, ?E3; [done|cbn; lia|done].
    + split; [cbn; lia|]. split; [cbn; lia|]. intros i p Ep. cbn.
      destruct (lookup_lt_is_Some_2 ps i) as [q Eq]; [apply lookup_lt_Some in Ep; lia|]. exists q. split; [done|].
      specialize (Hsame i q Eq). rewrite Ep in Hsame. destruct Hsame as (E1 & E2 & E3). by right.
Qed.

Lemma run_ok w w' : routing_ok w -> rtc routing_step w w' -> routing_ok w' /\ later (rt_state w) (rt_state w').
Proof.
  intros Hw Hrun. induction Hrun as [w|w1 w2 w3 Hstep _ IH]; [split; [done|apply later_refl]|].
  destruct (routing_step_ok w1 w2 Hw Hstep) as [H1 H2]. destruct (IH H1) as [H3 H4]. split; [done|].
  by apply later_trans with (rt_state w2).
Qed.

Lemma new_routing_ok : routing_ok new_routing.
Proof. split; [split; [cbn; lia|intros i p; cbn; by rewrite lookup_nil]|]. intros i s. by intros ?%not_elem_of_nil. Qed.
End Runs.

(** Whatever announcements arrive, are sent and fail, in any order and while
    peers and links change, every stored filter is a well-formed v1 filter; the
    node's sequence number never goes back; and a peer's accepted filter is
    replaced only under a strictly greater sequence number. *)
Lemma accepted_filters_advance `{Noble, !HashLaws} (cfg : BloomRoutingConfig) (Math_pow : F64.t -> F64.t -> F64.t) (w w' : Routing) :
  rtc (routing_step cfg Math_pow) new_routing w -> rtc (routing_step cfg Math_pow) w w' ->
  (forall i p f, br_peers (rt_state w) !! i = Some p ->
    (inboundFilter p = Some f \/ snd <$> outboundFilter p = Some f) -> v1_filter f) /\
  br_sequence (rt_state w) <= br_sequence (rt_state w') /\
  (forall i p, br_peers (rt_state w) !! i = Some p -> exists q, br_peers (rt_state w') !! i = Some q /\ inbound_le p q).
Proof.
  intros Hrun Hrun'. destruct (run_ok cfg Math_pow _ _ new_routing_ok Hrun) as [Hw _].
  destruct (run_ok cfg Math_pow _ _ Hw Hrun') as [_ (H1 & _ & H2)]. split; [|done].
  intros i p f Ep. destruct (br_peers_ok _ (proj1 Hw) i p Ep) as [P1 P2 P3]. intros [E|E]; [by apply P1|].
  apply fmap_Some in E as ((k & g) & E & ->). by apply (P3 k).
Qed.

(** ** Examples *)

#[local] Existing Instances Toy.noble Toy.hash_laws.

Definition demo_key (b : byte) : bytes := x02 :: replicate 32 b.

(** A peer on link 0, which is established. *)
Definition demo_neighbour (b : byte) (client : bool) (inbound : option BloomFilter) : AdjacentPeer :=
  mkPeer (demo_key b) "" (mkAddress "memory" "a") (mkTransport 0 "memory" 1200 None false) 0 None None
    None false false false client None inbound (fmap (fun _ => 1) inbound) None None.

Definition demo_inbound : BloomFilter := snd (insertBytes [x07] (mkBloom (replicate 1024 x00) 8192 5)).
Definition demo_config : BloomRoutingConfig := mkBloomConfig (demo_identity 5) true false.
Definition demo_router : BloomRouting := mkBloomRouting 0 0
  [demo_neighbour x01 true None; demo_neighbour x02 false (Some demo_inbound); demo_neighbour x03 false None] demo_links.

Lemma demo_inbound_ok : v1_filter demo_inbound.
Proof. split; [|reflexivity]. split; [vm_compute; reflexivity|split; split; vm_compute; congruence]. Qed.

Lemma demo_router_ok : br_ok demo_router /\ inputs_ok [0; 1; 2]%nat (fun _ => Ok true) demo_router.
Proof.
  split; split; [done| |intros i p _|done];
    (intros Ep; destruct i as [|[|[|i]]]; [injection Ep as <-..|done]) || (intros i p Ep; destruct i as [|[|[|i]]]; [injection Ep as <-..|done]);
    try reflexivity; split; cbn; try done; try lia; intros f [= <-]; apply demo_inbound_ok.
Qed.

Lemma outgoing_filter_exact_witness :
  exists f, outgoingFilterFor demo_config [0; 1; 2]%nat (fun _ => Ok true) demo_router (Some 2%nat) = Ok f /\
    containsBytes f (nodeAddr (demo_identity 5)) = Ok true /\ containsBytes f [x07] = Ok true.
Proof.
  destruct (outgoing_filter_exact demo_config [0; 1; 2]%nat (fun _ => Ok true) demo_router (Some 2%nat))
    as (f & E & _ & _ & _ & Hown & Hpeers); [apply demo_router_ok..|]. exists f. split; [exact E|]. split; [exact Hown|].
  destruct (deriveNodeAddr (demo_key x02)) as [a|e] eqn:Ea; [|vm_compute in Ea; discriminate Ea].
  destruct (Hpeers 1%nat (demo_neighbour x02 false (Some demo_inbound)) a) as [_ Hg];
    [reflexivity|set_solver|discriminate|reflexivity|reflexivity|exact Ea|].
  apply (Hg demo_inbound [x07]); vm_compute; reflexivity.
Defined.

(** The filter that peer 2 is sent is accepted by a neighbour. *)
Lemma filter_announcement_exchange_witness :
  exists f s r', send_begin demo_config [0; 1; 2]%nat (fun _ => Ok true) 2 demo_router = (Ok (Some s), r') /\
    br_peers (snd (handle (fun x _ => x) (fun _ => Ok true) 0 (sn_payload s) demo_router)) !! 0%nat =
      Some (set_inbound (demo_neighbour x01 true None) f 1).
Proof.
  destruct (filter_announcement_exchange demo_config (fun x _ => x) [0; 1; 2]%nat (fun _ => Ok true) 2 (demo_neighbour x03 false None) demo_router)
    as (f & E & Hs); [apply demo_router_ok..|reflexivity|reflexivity|reflexivity|vm_compute; reflexivity|].
  cbn [unchanged_filter outboundFilter demo_neighbour] in Hs. destruct Hs as (s & r' & Es & _ & _ & _ & _ & Hh).
  exists f, s, r'. split; [exact Es|]. apply Hh; [reflexivity|vm_compute; discriminate|].
  assert (Ef : ok_or (outgoingFilterFor demo_config [0; 1; 2]%nat (fun _ => Ok true) demo_router (Some 2%nat)) demo_inbound = f) by (by rewrite E).
  rewrite <- Ef. vm_compute. reflexivity.
Defined.

Lemma accepted_filters_advance_witness :
  exists w, rtc (routing_step demo_config (fun x _ => x)) new_routing w /\ br_sequence (rt_state new_routing) <= br_sequence (rt_state w).
Proof.
  pose (peers := [demo_neighbour x01 true None; demo_neighbour x03 false None]).
  pose (r := mkBloomRouting 0 0 peers demo_links).
  assert (Hin : inputs_ok [0; 1]%nat (fun _ => Ok true) r).
  { split; [|done]. intros [|[|i]] p _ Ep; [injection Ep as <-..|done]; reflexivity. }
  destruct (send_begin demo_config [0; 1]%nat (fun _ => Ok true) 1 r) as [res r'] eqn:E.
  assert (Hrun : rtc (routing_step demo_config (fun x _ => x)) new_routing
    (mkRouting r' (match res with Ok (Some s) => [(1%nat, s)] | _ => [] end))).
  { eapply rtc_l.
    { apply (RtOther demo_config (fun x _ => x) new_routing peers demo_links); cbn; [lia|].
      intros [|[|i]] p Ep; [injection Ep as <-..|discriminate Ep]; split_and!; reflexivity. }
    eapply rtc_l; [eapply (RtSend demo_config (fun x _ => x) _ [0; 1]%nat (fun _ => Ok true) 1 res r'); [exact Hin|cbn; lia|exact E]|].
    apply rtc_refl. }
  eexists. split; [exact Hrun|]. apply (accepted_filters_advance demo_config (fun x _ => x) new_routing); [apply rtc_refl|exact Hrun].
Defined.
