(* ===== verification/Routing.v ===== *)
(** * Routing in the node

    [node/FipsRouting.ts], its state and the synchronous part of its routing: the
    choice of a next hop, what announcements of neighbours change, and the
    messages that are sent. Peers and links are references into stores, as in
    [Peers]; the callbacks of the configuration that read the node
    ([getPeers], ...) are arguments, and the calls of [sendLinkMessage] are
    recorded in order. One clock reading serves a whole synchronous run. *)

From S2P Require Import Prelude Codec Crypto Toy NodeAddr Identity F64 Bloom Link FmpWire FspWire SessionMsg TreeMsg Discovery.
From S2P Require Import FmpLink TreeState LearnedRoutes OriginLookups Peers BloomRouting.

(** ** State *)

Inductive RoutingMode := TreeMode | ReplyLearned.

#[export] Instance RoutingMode_eq_dec : EqDecision RoutingMode.
Proof. solve_decision. Defined.

(** The parts of [FipsRoutingConfig] that do not change; [rc_canResolve] is
    whether some transport has a [resolve] method. *)
Record FipsRoutingConfig := mkRoutingConfig {
  rc_identity : FipsIdentity;
  rc_forwarding : bool;
  rc_strictClient : bool;
  rc_routingMode : RoutingMode;
  rc_defaultRoute : option string;
  rc_canResolve : bool;
}.

Record LookupReversePath := mkReverse {
  rv_peer : nat;
  rv_expiresAtMs : Z;
  forwardedNextHops : gset string;
  rv_request : LookupRequest;
}.

(** The private fields, the peers and links of the node, and the calls of
    [sendLinkMessage] so far. Reverse paths are objects of a store that the map
    refers to, since a detached one is still written to. *)
Record FipsRouting := mkRouting {
  treeState : TreeState.t;
  lookupReversePaths : list (string * nat);
  reverses : list LookupReversePath;
  originLookups : OriginLookupRegistry;
  learnedRoutes : LearnedRouteTable;
  coordCache : list (string * list NodeAddr);
  fr_sequence : Z;
  fr_filters : nat;
  clientSequence : Z;
  fr_peers : list AdjacentPeer;
  fr_links : list FmpLink;
  sent : list (nat * Z * bytes);
}.

Section Stores.
Context (r : FipsRouting).
Definition set_treeState x := mkRouting x (lookupReversePaths r) (reverses r) (originLookups r) (learnedRoutes r)
  (coordCache r) (fr_sequence r) (fr_filters r) (clientSequence r) (fr_peers r) (fr_links r) (sent r).
Definition set_reversePaths x := mkRouting (treeState r) x (reverses r) (originLookups r) (learnedRoutes r)
  (coordCache r) (fr_sequence r) (fr_filters r) (clientSequence r) (fr_peers r) (fr_links r) (sent r).
Definition set_reverses x := mkRouting (treeState r) (lookupReversePaths r) x (originLookups r) (learnedRoutes r)
  (coordCache r) (fr_sequence r) (fr_filters r) (clientSequence r) (fr_peers r) (fr_links r) (sent r).
Definition set_originLookups x := mkRouting (treeState r) (lookupReversePaths r) (reverses r) x (learnedRoutes r)
  (coordCache r) (fr_sequence r) (fr_filters r) (clientSequence r) (fr_peers r) (fr_links r) (sent r).
Definition set_learnedRoutes x := mkRouting (treeState r) (lookupReversePaths r) (reverses r) (originLookups r) x
  (coordCache r) (fr_sequence r) (fr_filters r) (clientSequence r) (fr_peers r) (fr_links r) (sent r).
Definition set_coordCache x := mkRouting (treeState r) (lookupReversePaths r) (reverses r) (originLookups r) (learnedRoutes r)
  x (fr_sequence r) (fr_filters r) (clientSequence r) (fr_peers r) (fr_links r) (sent r).
Definition set_clientSequence x := mkRouting (treeState r) (lookupReversePaths r) (reverses r) (originLookups r) (learnedRoutes r)
  (coordCache r) (fr_sequence r) (fr_filters r) x (fr_peers r) (fr_links r) (sent r).
Definition set_peers x := mkRouting (treeState r) (lookupReversePaths r) (reverses r) (originLookups r) (learnedRoutes r)
  (coordCache r) (fr_sequence r) (fr_filters r) (clientSequence r) x (fr_links r) (sent r).
Definition set_sent x := mkRouting (treeState r) (lookupReversePaths r) (reverses r) (originLookups r) (learnedRoutes r)
  (coordCache r) (fr_sequence r) (fr_filters r) (clientSequence r) (fr_peers r) (fr_links r) x.
(** The private [bloomRouting], which shares the peers and links. *)
Definition get_bloom : BloomRouting := mkBloomRouting (fr_sequence r) (fr_filters r) (fr_peers r) (fr_links r).
Definition set_bloom (b : BloomRouting) := mkRouting (treeState r) (lookupReversePaths r) (reverses r) (originLookups r)
  (learnedRoutes r) (coordCache r) (br_sequence b) (br_filters b) (clientSequence r) (br_peers b) (br_links b) (sent r).
End Stores.

Definition MAX_PENDING_ROUTE_RESOLUTIONS : Z := 64.
Definition LOOKUP_REVERSE_PATH_TTL_MS : Z := 30000.
Definition MAX_LOOKUP_REVERSE_PATHS : Z := 256.
Definition LOOKUP_ORIGIN_TTL : Z := 8.
Definition REPLY_LEARNED_ROUTE_TTL_SECONDS : Z := 300.
Definition MAX_REPLY_LEARNED_ROUTES_PER_DESTINATION : Z := 4.
Definition MAX_REPLY_LEARNED_LOOKUP_PEERS : Z := 16.
Definition FSP_DEFAULT_PATH_MTU : Z := 1200.
Definition ROUTED_FRAME_OVERHEAD : Z := SESSION_DATAGRAM_HEADER_SIZE + FMP_ESTABLISHED_HEADER_LEN + FMP_AEAD_TAG_LEN + 4.

(** Whether a string that may be missing passes a test [if (s)]. *)
Definition truthy (s : option string) : option string :=
  match s with Some EmptyString => None | s => s end.

Section Routing.
Context `{Noble} (cfg : FipsRoutingConfig) (Math_pow : F64.t -> F64.t -> F64.t).
(** The node's callbacks at the time of the call. *)
Context (getPeers : list nat) (getPeerByPubkey getPeerByNodeAddr : string -> option nat).

Definition self : NodeAddr := nodeAddr (rc_identity cfg).

Definition bloom_config : BloomRoutingConfig := mkBloomConfig (rc_identity cfg) (rc_forwarding cfg) (rc_strictClient cfg).

Definition send_message (i : nat) (msgType : Z) (payload : bytes) : ST FipsRouting unit :=
  modify (fun r => set_sent r (sent r ++ [(i, msgType, payload)])).

Definition alter_fr_peer (i : nat) (f : AdjacentPeer -> AdjacentPeer) : ST FipsRouting unit :=
  modify (fun r => set_peers r (alter f i (fr_peers r))).

Definition coords (r : FipsRouting) : list NodeAddr :=
  if rc_strictClient cfg then [self] else TreeState.coords (treeState r).

Definition coordinatesFor (nodeAddrHex : string) (r : FipsRouting) : option (list NodeAddr) :=
  let c := JsMap.get_ (coordCache r) nodeAddrHex in
  if rc_strictClient cfg then take 1 <$> c else c.

(** ** The next hop *)

Definition capacity (r : FipsRouting) (i : nat) : Z :=
  match fr_peers r !! i with Some p => frameCapacity p | None => 0 end.

Definition pathMtuFor (destination : string) (i : nat) (nowMs : Z) (r : FipsRouting) : result Z :=
  nextHop ← peer_key (fr_peers r) i;
  let verified := if decide (destination = nextHop) then capacity r i
                  else default FSP_DEFAULT_PATH_MTU (LearnedRoutes.pathMtu destination nextHop nowMs (learnedRoutes r)) in
  Ok (Z.min (capacity r i) verified).

(** The local function [usablePeer] of [nextHopFor]. *)
Definition usablePeer (destNodeHex : string) (excluded : option nat) (minMtu nowMs : Z) (r : FipsRouting) (nodeHex : string)
    : result (option nat) :=
  peer ← selectCarrier (fr_peers r) (fr_links r) (getPeerByNodeAddr nodeHex) getPeers excluded minMtu;
  match peer with
  | None => Ok None
  | Some i => mtu ← pathMtuFor destNodeHex i nowMs r; Ok (if mtu >=? minMtu then Some i else None)
  end.

(** [usablePeer(nodeHex) !== undefined], where no key of a peer is invalid. *)
Definition eligible (destNodeHex : string) (excluded : option nat) (minMtu nowMs : Z) (r : FipsRouting) (nodeHex : string) : bool :=
  match usablePeer destNodeHex excluded minMtu nowMs r nodeHex with Ok (Some _) => true | _ => false end.

Definition default_peer : option nat := truthy (rc_defaultRoute cfg) ≫= getPeerByPubkey.

(** The table as it is while [selectNextHop] calls its predicate. *)
Definition while_selecting (destNodeHex : string) (nowMs : Z) (r : FipsRouting) : FipsRouting :=
  set_learnedRoutes r (retained destNodeHex nowMs (learnedRoutes r)).

Definition learned_hop (destNodeHex : string) (excluded : option nat) (minMtu nowMs : Z) : ST FipsRouting (option string) :=
  match rc_routingMode cfg with
  | TreeMode => mret None
  | ReplyLearned =>
      r ← get;
      zoom learnedRoutes (fun t r => set_learnedRoutes r t)
        (selectNextHop Math_pow destNodeHex nowMs (eligible destNodeHex excluded minMtu nowMs (while_selecting destNodeHex nowMs r)))
  end.

Definition tree_hop (destNodeHex : string) (excluded : option nat) (minMtu nowMs : Z) (r : FipsRouting) : result (option string) :=
  match JsMap.get_ (coordCache r) destNodeHex with
  | None => Ok None
  | Some destCoords => TreeState.nextHop destCoords (eligible destNodeHex excluded minMtu nowMs r) (treeState r)
  end.

Definition default_hop (destNodeHex : string) (excluded : option nat) (minMtu nowMs : Z) (r : FipsRouting) : result (option nat) :=
  match default_peer with
  | None => Ok None
  | Some i => key ← peer_key (fr_peers r) i; usablePeer destNodeHex excluded minMtu nowMs r key
  end.

Definition nextHopFor (destNodeHex : string) (excluded : option nat) (minMtu nowMs : Z) : ST FipsRouting (option nat) :=
  r ← get;
  direct ← lift (usablePeer destNodeHex excluded minMtu nowMs r destNodeHex);
  match direct with
  | Some i => mret (Some i)
  | None =>
      learned ← learned_hop destNodeHex excluded minMtu nowMs;
      r ← get;
      match truthy learned with
      | Some hex => lift (usablePeer destNodeHex excluded minMtu nowMs r hex)
      | None =>
          tree ← lift (tree_hop destNodeHex excluded minMtu nowMs r);
          match truthy tree with
          | Some hex => lift (usablePeer destNodeHex excluded minMtu nowMs r hex)
          | None => lift (default_hop destNodeHex excluded minMtu nowMs r)
          end
      end
  end.

Definition hasUsableRoute (nodeAddrHex : string) (nowMs : Z) : ST FipsRouting bool :=
  hop ← nextHopFor nodeAddrHex None 0 nowMs; mret (bool_decide (is_Some hop)).

Definition learnReverseRoute (destinationNodeHex : string) (nextHop : nat) (pathMtu : option Z) (nowMs : Z) : ST FipsRouting unit :=
  if bool_decide (rc_routingMode cfg <> ReplyLearned) && bool_decide (pathMtu = None) then mret tt else
  r ← get;
  nextHopNodeHex ← lift (peer_key (fr_peers r) nextHop);
  own ← lift (nodeAddrToHex self);
  if decide (destinationNodeHex = own) then mret tt else
  zoom learnedRoutes (fun t r => set_learnedRoutes r t)
    (learn destinationNodeHex nextHopNodeHex nowMs REPLY_LEARNED_ROUTE_TTL_SECONDS
       MAX_REPLY_LEARNED_ROUTES_PER_DESTINATION pathMtu).
End Routing.

(** ** Facts about the next hop *)

Section NextHop.
Context `{Noble} (cfg : FipsRoutingConfig) (Math_pow : F64.t -> F64.t -> F64.t).
Context (getPeers : list nat) (getPeerByPubkey getPeerByNodeAddr : string -> option nat).

(** What the node keeps true of its peers and tables: every reference is to a
    peer whose key has an address, and no node has an empty name. *)
Record node_ok (r : FipsRouting) : Prop := {
  ro_peers : Forall (fun i => is_ok (peer_key (fr_peers r) i) = true) getPeers;
  ro_byNode : forall h i, getPeerByNodeAddr h = Some i -> is_ok (peer_key (fr_peers r) i) = true;
  ro_default : forall h i, getPeerByPubkey h = Some i -> is_ok (peer_key (fr_peers r) i) = true;
  ro_tree : TreeState.ancestry (treeState r) <> [];
  ro_treeNames : ""%string ∉ map fst (TreeState.peers (treeState r));
}.

Record routing_ok (r : FipsRouting) : Prop := {
  ro_node : node_ok r;
  ro_learned : table_ok MAX_REPLY_LEARNED_ROUTES_PER_DESTINATION (learnedRoutes r);
  ro_names : forall d routes, JsMap.get_ (learnedRoutes r) d = Some routes -> ""%string ∉ map LearnedRoutes.nextHop routes;
}.

Context (dest : string) (excluded : option nat) (minMtu nowMs : Z).
Let usable := usablePeer getPeers getPeerByNodeAddr dest excluded minMtu nowMs.
Let can_use := eligible getPeers getPeerByNodeAddr dest excluded minMtu nowMs.

(** [usable] reads the peers, the links and the learned path MTUs. *)
Definition same_view (r r' : FipsRouting) : Prop :=
  fr_peers r' = fr_peers r /\ fr_links r' = fr_links r /\
  forall hop, LearnedRoutes.pathMtu dest hop nowMs (learnedRoutes r') = LearnedRoutes.pathMtu dest hop nowMs (learnedRoutes r).

Lemma pathMtuFor_view r r' i : same_view r r' -> pathMtuFor dest i nowMs r' = pathMtuFor dest i nowMs r.
Proof.
  intros (Ep & _ & Em). unfold pathMtuFor, capacity. rewrite Ep. destruct (peer_key (fr_peers r) i) as [k|e]; [|done].
  cbn [mbind result_bind]. by rewrite Em.
Qed.

Lemma usable_view r r' hex : same_view r r' -> usable r' hex = usable r hex.
Proof.
  intros Hv. pose proof Hv as (Ep & El & _). unfold usable, usablePeer. rewrite Ep, El.
  destruct (selectCarrier _ _ _ _ _ _) as [[i|]|e]; [|done..]. cbn [mbind result_bind]. by rewrite (pathMtuFor_view r r').
Qed.

(** A carrier that is fit for the destination. *)
Definition fit (r : FipsRouting) (i : nat) : Prop :=
  usable_peer (fr_peers r) (fr_links r) excluded minMtu i = true /\
  exists mtu, pathMtuFor dest i nowMs r = Ok mtu /\ minMtu <= mtu.

Lemma usable_fit r hex i : usable r hex = Ok (Some i) -> fit r i.
Proof.
  unfold usable, usablePeer. intros E. apply result_bind_ok in E as (o & Es & E). destruct o as [j|]; [|done].
  apply result_bind_ok in E as (mtu & Em & E). destruct (mtu >=? minMtu) eqn:Eg; [|done]. injection E as <-.
  rewrite Z.geb_leb in Eg. bool_split. split; [|by exists mtu].
  destruct (getPeerByNodeAddr hex) as [pref|]; [|done]. by destruct (selectCarrier_spec _ _ _ _ _ _ _ Es).
Qed.

Lemma peer_key_known r i key : peer_key (fr_peers r) i = Ok key -> exists p, fr_peers r !! i = Some p.
Proof. unfold peer_key. destruct (fr_peers r !! i); [by eexists|done]. Qed.

Lemma usable_total r hex : node_ok r -> exists o, usable r hex = Ok o.
Proof.
  intros [Hp Hn _ _ _]. unfold usable, usablePeer.
  destruct (is_ok_inv _ (selectCarrier_total (fr_peers r) (fr_links r) (getPeerByNodeAddr hex) getPeers excluded minMtu
    (fun i E => Hn hex i E) Hp)) as [o Es]. rewrite Es. cbn [mbind result_bind]. destruct o as [i|]; [|by eexists].
  assert (Hk : is_ok (peer_key (fr_peers r) i) = true).
  { destruct (getPeerByNodeAddr hex) as [pref|] eqn:Ep; [|done].
    destruct (selectCarrier_spec _ _ _ _ _ _ _ Es) as (_ & [->|Hin] & _); [by eapply Hn|].
    rewrite Forall_forall in Hp. by apply Hp. }
  unfold pathMtuFor. destruct (peer_key (fr_peers r) i) as [k|e]; [|done]. cbn [mbind result_bind]. by eexists.
Qed.

Lemma can_use_Some r hex : can_use r hex = true <-> exists i, usable r hex = Ok (Some i).
Proof. unfold can_use, eligible. fold (usable r hex). destruct (usable r hex) as [[i|]|e]; naive_solver. Qed.

(** What is learned is asked first. *)
Lemma learned_run r : routing_ok r -> exists o r',
  learned_hop cfg Math_pow getPeers getPeerByNodeAddr dest excluded minMtu nowMs r = (Ok o, r') /\
  r' = set_learnedRoutes r (learnedRoutes r') /\ table_ok MAX_REPLY_LEARNED_ROUTES_PER_DESTINATION (learnedRoutes r') /\
  match o with
  | Some hex => hex <> ""%string /\ can_use r' hex = true /\ rc_routingMode cfg = ReplyLearned /\
      exists routes route, JsMap.get_ (learnedRoutes r) dest = Some routes /\ route ∈ routes /\
        LearnedRoutes.nextHop route = hex /\ expiresAtMs route > nowMs
  | None => rc_routingMode cfg = ReplyLearned -> forall routes route, JsMap.get_ (learnedRoutes r) dest = Some routes ->
      route ∈ routes -> expiresAtMs route > nowMs -> can_use r' (LearnedRoutes.nextHop route) = false
  end.
Proof.
  intros Hr. unfold learned_hop. destruct (rc_routingMode cfg) eqn:Em.
  { exists None, r. split; [done|]. split; [by destruct r|]. split; [apply Hr|]. done. }
  rewrite ST_get_bind. unfold zoom. set (w := while_selecting dest nowMs r).
  destruct (selectNextHop_run Math_pow _ (learnedRoutes r) dest nowMs (can_use w) (ro_learned r Hr))
    as (o & t' & E & Ht & Hm & Ho).
  unfold can_use in E. rewrite E. exists o, (set_learnedRoutes r t'). split; [done|]. split; [done|]. split; [done|].
  assert (Hv : same_view w (set_learnedRoutes r t')) by (split_and!; [done..|]; exact Hm).
  assert (Hc : forall hex, can_use (set_learnedRoutes r t') hex = can_use w hex).
  { intros hex. unfold can_use, eligible. fold (usable w hex). fold (usable (set_learnedRoutes r t') hex).
    by rewrite (usable_view w _ hex Hv). }
  destruct o as [hex|].
  - destruct Ho as (routes & route & Eg & Hin & En & He & Hu). split.
    { intros ->. apply (ro_names r Hr dest routes Eg). rewrite <- En. apply list_elem_of_fmap. by exists route. }
    split; [by rewrite Hc|]. split; [done|]. by exists routes, route.
  - intros _ routes route Eg Hin He. rewrite Hc. by eapply Ho.
Qed.

(** Then the tree, if the destination's coordinates are known. *)
Lemma tree_run r : node_ok r -> exists o,
  tree_hop getPeers getPeerByNodeAddr dest excluded minMtu nowMs r = Ok o /\
  let coordinates := TreeState.coords (treeState r) in
  match o with
  | Some hex => hex <> ""%string /\ can_use r hex = true /\ exists destCoords p, JsMap.get_ (coordCache r) dest = Some destCoords /\
      p ∈ TreeState.peers (treeState r) /\ fst p = hex /\
      dist_ltb (treeDistance (addrs (pt_ancestry (snd p))) destCoords) (treeDistance coordinates destCoords) = true
  | None => forall destCoords p, JsMap.get_ (coordCache r) dest = Some destCoords -> same_root coordinates destCoords ->
      p ∈ TreeState.peers (treeState r) -> can_use r (fst p) = true ->
      dist_ltb (treeDistance (addrs (pt_ancestry (snd p))) destCoords) (treeDistance coordinates destCoords) = false
  end.
Proof.
  intros Hr. unfold tree_hop. destruct (JsMap.get_ (coordCache r) dest) as [destCoords|]; [|by exists None].
  destruct (nextHop_best (treeState r) destCoords (can_use r) (ro_tree r Hr)) as (o & E & Ho).
  exists o. split; [exact E|]. cbv zeta in *. destruct o as [hex|].
  - destruct Ho as (p & Hp & <- & [Hu Hd] & _). split.
    { intros Ee. apply (ro_treeNames r Hr). rewrite <- Ee. apply list_elem_of_fmap. by exists p. }
    split; [done|]. by exists destCoords, p.
  - intros dc p [= <-] Hroot Hp Hu. destruct Ho as [Ho|Ho]; [done|].
    destruct (dist_ltb _ _) eqn:Ed; [|done]. exfalso. by apply (Ho p Hp).
Qed.

(** Last the default route. *)
Lemma default_run r : node_ok r -> exists o, default_hop cfg getPeers getPeerByPubkey getPeerByNodeAddr dest excluded minMtu nowMs r = Ok o /\
  match o with
  | Some i => exists d key, default_peer cfg getPeerByPubkey = Some d /\ peer_key (fr_peers r) d = Ok key /\ usable r key = Ok (Some i)
  | None => forall d key, default_peer cfg getPeerByPubkey = Some d -> peer_key (fr_peers r) d = Ok key -> can_use r key = false
  end.
Proof.
  intros Hr. unfold default_hop. destruct (default_peer cfg getPeerByPubkey) as [d|] eqn:Ed; [|by exists None].
  assert (Hk : is_ok (peer_key (fr_peers r) d) = true).
  { unfold default_peer in Ed. destruct (truthy _) as [h|]; [|done]. by apply (ro_default r Hr h). }
  destruct (is_ok_inv _ Hk) as [key Ek]. rewrite Ek. cbn [mbind result_bind].
  destruct (usable_total r key Hr) as [o Eo]. unfold usable in Eo. exists o. split; [done|]. destruct o as [i|].
  - by exists d, key.
  - intros d' key' [= <-]. rewrite Ek. intros [= <-]. unfold can_use, eligible. by rewrite Eo.
Qed.

Lemma truthy_name h : h <> ""%string -> truthy (Some h) = Some h.
Proof. by destruct h. Qed.

(** No live learned route, no closer tree neighbour, no default route could be used. *)
Definition no_learned (r r' : FipsRouting) : Prop :=
  rc_routingMode cfg = ReplyLearned -> forall routes route, JsMap.get_ (learnedRoutes r) dest = Some routes ->
    route ∈ routes -> expiresAtMs route > nowMs -> can_use r' (LearnedRoutes.nextHop route) = false.
Definition no_tree (r r' : FipsRouting) : Prop :=
  forall destCoords p, JsMap.get_ (coordCache r) dest = Some destCoords ->
    same_root (TreeState.coords (treeState r)) destCoords -> p ∈ TreeState.peers (treeState r) -> can_use r' (fst p) = true ->
    dist_ltb (treeDistance (addrs (pt_ancestry (snd p))) destCoords) (treeDistance (TreeState.coords (treeState r)) destCoords) = false.
Definition no_default (r r' : FipsRouting) : Prop :=
  forall d key, default_peer cfg getPeerByPubkey = Some d -> peer_key (fr_peers r) d = Ok key -> can_use r' key = false.

(** Why a next hop was chosen: each kind only where none of an earlier kind could
    be used. *)
Inductive chosen (r r' : FipsRouting) (i : nat) : Prop :=
| ByAddress : usable r dest = Ok (Some i) -> chosen r r' i
| ByReply routes route : usable r dest = Ok None -> rc_routingMode cfg = ReplyLearned ->
    JsMap.get_ (learnedRoutes r) dest = Some routes -> route ∈ routes -> expiresAtMs route > nowMs ->
    usable r' (LearnedRoutes.nextHop route) = Ok (Some i) -> chosen r r' i
| ByTree destCoords p : usable r dest = Ok None -> no_learned r r' -> JsMap.get_ (coordCache r) dest = Some destCoords ->
    p ∈ TreeState.peers (treeState r) -> usable r' (fst p) = Ok (Some i) ->
    dist_ltb (treeDistance (addrs (pt_ancestry (snd p))) destCoords) (treeDistance (TreeState.coords (treeState r)) destCoords) = true ->
    chosen r r' i
| ByDefault d key : usable r dest = Ok None -> no_learned r r' -> no_tree r r' ->
    default_peer cfg getPeerByPubkey = Some d -> peer_key (fr_peers r) d = Ok key ->
    usable r' key = Ok (Some i) -> chosen r r' i.

(** That there was nothing to choose. *)
Definition no_choice (r r' : FipsRouting) : Prop :=
  usable r dest = Ok None /\ no_learned r r' /\ no_tree r r' /\ no_default r r'.

Lemma next_hop_run r : routing_ok r -> exists o r',
  nextHopFor cfg Math_pow getPeers getPeerByPubkey getPeerByNodeAddr dest excluded minMtu nowMs r = (Ok o, r') /\
  r' = set_learnedRoutes r (learnedRoutes r') /\ table_ok MAX_REPLY_LEARNED_ROUTES_PER_DESTINATION (learnedRoutes r') /\
  match o with Some i => fit r' i /\ chosen r r' i | None => no_choice r r' end.
Proof.
  intros Hr. unfold nextHopFor. rewrite ST_get_bind. destruct (usable_total r dest (ro_node r Hr)) as [direct Ed].
  pose proof Ed as Ed'. unfold usable in Ed'. rewrite (ST_lift_bind _ _ _ _ Ed'). destruct direct as [i|].
  { exists (Some i), r. split; [done|]. split; [by destruct r|]. split; [apply Hr|]. split; [by apply (usable_fit r dest)|by apply ByAddress]. }
  destruct (learned_run r Hr) as (o & r' & El & Er & Ht & Ho). rewrite (ST_bind_ok _ _ _ _ _ El), ST_get_bind.
  destruct o as [hex|].
  { destruct Ho as (Hname & Hu & Hmode & routes & route & Eg & Hin & En & He). rewrite (truthy_name hex Hname).
    apply can_use_Some in Hu as [i Hi]. pose proof Hi as Hi'. unfold usable in Hi'. unfold lift. rewrite Hi'.
    exists (Some i), r'. split; [done|]. split; [done|]. split; [done|]. split; [by apply (usable_fit r' hex)|].
    apply (ByReply _ _ _ routes route); try done. by rewrite En. }
  cbn [truthy]. assert (Hr' : node_ok r') by (rewrite Er; destruct (ro_node r Hr); by split).
  destruct (tree_run r' Hr') as (o & Et & Ho'). rewrite (ST_lift_bind _ _ _ _ Et).
  assert (Esame : fr_peers r' = fr_peers r /\ coordCache r' = coordCache r /\ treeState r' = treeState r) by (by rewrite Er).
  destruct Esame as (Epeers & Ecoords & Etree). cbv zeta in Ho'. rewrite Ecoords, Etree in Ho'. destruct o as [hex|].
  { destruct Ho' as (Hname & Hu & destCoords & p & Eg & Hp & En & Hd). rewrite (truthy_name hex Hname).
    apply can_use_Some in Hu as [i Hi]. pose proof Hi as Hi'. unfold usable in Hi'. unfold lift. rewrite Hi'.
    exists (Some i), r'. split; [done|]. split; [done|]. split; [done|]. split; [by apply (usable_fit r' hex)|].
    apply (ByTree _ _ _ destCoords p); try done. by rewrite En. }
  cbn [truthy]. destruct (default_run r' Hr') as (o & Edef & Hdef). unfold lift. rewrite Edef. exists o, r'.
  split; [done|]. split; [done|]. split; [done|]. rewrite Epeers in Hdef. destruct o as [i|]; [|by split_and!].
  destruct Hdef as (d & key & E1 & E2 & E3). split; [by apply (usable_fit r' key)|]. by apply (ByDefault _ _ _ d key).
Qed.
End NextHop.

(** C23: The choice of a next hop returns, and changes nothing but the weights of
    the learned routes. What it chooses is an established link that is not to the
    excluded peer and whose frames and verified path both carry [minMtu] bytes; a
    link to the destination itself comes first; a live learned route is taken only
    where there is none, a tree neighbour strictly closer to the destination only
    where no live learned route could be used either, and the default route only
    where no such neighbour could. It finds none only where none of the four could
    be used. *)
Theorem next_hop_for_usable `{Noble} (cfg : FipsRoutingConfig) (Math_pow : F64.t -> F64.t -> F64.t)
    (getPeers : list nat) (getPeerByPubkey getPeerByNodeAddr : string -> option nat)
    (dest : string) (excluded : option nat) (minMtu nowMs : Z) (r : FipsRouting) :
  routing_ok getPeers getPeerByPubkey getPeerByNodeAddr r -> exists o r',
  nextHopFor cfg Math_pow getPeers getPeerByPubkey getPeerByNodeAddr dest excluded minMtu nowMs r = (Ok o, r') /\
  r' = set_learnedRoutes r (learnedRoutes r') /\ table_ok MAX_REPLY_LEARNED_ROUTES_PER_DESTINATION (learnedRoutes r') /\
  match o with
  | Some i => fit dest excluded minMtu nowMs r' i /\
      chosen cfg getPeers getPeerByPubkey getPeerByNodeAddr dest excluded minMtu nowMs r r' i
  | None => no_choice cfg getPeers getPeerByPubkey getPeerByNodeAddr dest excluded minMtu nowMs r r'
  end.
Proof. apply next_hop_run. Qed.

(** ** Example

    A node with two neighbours, 9 and 11, on established links. *)

#[local] Existing Instances Toy.noble.

Definition demo_adjacent (n : Z) (name : string) : AdjacentPeer :=
  mkPeer (publicKey (demo_identity n)) name (mkAddress "memory" "a") (mkTransport 0 "memory" 1200 None false) 0 None None
    None false false false false None None None None None.

Definition demo_node (id : Z) (peers : list AdjacentPeer) : FipsRouting :=
  mkRouting (TreeState.new (demo_identity id) 0) [] [] (new_registry 64) [] [] 0 0 0 peers demo_links [].

Definition demo_routing_config (id : Z) : FipsRoutingConfig := mkRoutingConfig (demo_identity id) true false ReplyLearned None false.

Definition demo_name (n : Z) : string := toHex (nodeAddr (demo_identity n)).

Definition demo_byNode (h : string) : option nat :=
  if decide (h = demo_name 9) then Some 0%nat else if decide (h = demo_name 11) then Some 1%nat else None.

Definition demo_two : FipsRouting := demo_node 5 [demo_adjacent 9 "p9"; demo_adjacent 11 "p11"].

Lemma demo_two_ok : routing_ok [0; 1]%nat (fun _ => None) demo_byNode demo_two.
Proof.
  split; [split| |].
  - repeat constructor; vm_compute; reflexivity.
  - intros h i. unfold demo_byNode. case_decide; [intros [= <-]; vm_compute; reflexivity|].
    case_decide; [intros [= <-]; vm_compute; reflexivity|done].
  - done.
  - vm_compute. discriminate.
  - vm_compute. intros Hin. inversion Hin.
  - done.
  - done.
Qed.

Lemma next_hop_for_usable_witness : exists r',
  nextHopFor (demo_routing_config 5) (fun x _ => x) [0; 1]%nat (fun _ => None) demo_byNode (demo_name 11) (Some 0%nat) 1100 0 demo_two =
    (Ok (Some 1%nat), r') /\
  fit (demo_name 11) (Some 0%nat) 1100 0 r' 1.
Proof.
  destruct (next_hop_for_usable (demo_routing_config 5) (fun x _ => x) [0; 1]%nat (fun _ => None) demo_byNode (demo_name 11) (Some 0%nat) 1100 0
    demo_two demo_two_ok) as (o & r' & E & _ & _ & Hfit). exists r'.
  assert (Eo : fst (nextHopFor (demo_routing_config 5) (fun x _ => x) [0; 1]%nat (fun _ => None) demo_byNode (demo_name 11) (Some 0%nat) 1100 0 demo_two)
    = Ok (Some 1%nat)) by (vm_compute; reflexivity).
  rewrite E in Eo. injection Eo as ->. split; [exact E|apply Hfit].
Defined.
