(* ===== verification/Announce.v ===== *)
(** * Announcements between neighbours

    [node/FipsRouting.ts]: the tree announcements, client notices and filters
    that a node sends to and accepts from its neighbours, on the state of
    [Routing]. A handler is modelled up to its last [await] of a broadcast; the
    broadcast of filters that may follow it is its result. *)

From S2P Require Import Prelude Codec Crypto Toy NodeAddr Identity F64 Bloom Link FilterMsg TreeMsg.
From S2P Require Import Noise FmpLink FspSession TreeState LearnedRoutes OriginLookups Peers BloomRouting Routing.

Section Announce.
Context `{Noble} (cfg : FipsRoutingConfig) (getPeers : list nat).

Definition is_tree_peer (r : FipsRouting) (a : NodeAddr) : result bool := TreeState.isTreePeer a (treeState r).

Definition sendTreeAnnounce (i : nat) : ST FipsRouting unit :=
  r ← get;
  match fr_peers r !! i with
  | None => mret tt
  | Some p =>
      if negb (established (get_bloom r) p) then mret tt else
      if rc_strictClient cfg then
        if negb (clientSupported p) then send_message i LinkMessageType.ClientSupport []
        else
          modify (fun r => set_clientSequence r (clientSequence r + 1));;
          r ← get;
          send_message i LinkMessageType.ClientOnly (le_bytes 8 (clientSequence r))
      else
        announce ← lift (TreeState.announce (treeState r));
        encoded ← lift (encodeTreeAnnounce announce);
        send_message i LinkMessageType.TreeAnnounce (subarray_from encoded 1)
  end.

(** [Promise.allSettled]: a rejected announcement does not stop the others. *)
Definition sendTreeAnnounceToAll : ST FipsRouting unit :=
  r ← get;
  for_each (fun i => try_catch (sendTreeAnnounce i) (fun _ => mret tt))
    (base.filter (fun i => match fr_peers r !! i with Some p => established (get_bloom r) p | None => false end = true) getPeers).

(** [bloomRouting.sendAll(excluded)] *)
Definition bloom_sendAll (excluded : option nat) : ST FipsRouting unit :=
  r ← get;
  started ← zoom get_bloom (fun b r => set_bloom r b) (sendAll (bloom_config cfg) getPeers (is_tree_peer r) excluded);
  for_each (fun s => match snd s with
                     | Ok (Some m) => send_message (fst s) LinkMessageType.FilterAnnounce (sn_payload m)
                     | _ => mret tt
                     end) started.

Definition refreshClientRole : ST FipsRouting unit :=
  if rc_strictClient cfg then sendTreeAnnounceToAll else mret tt.

Definition zoom_tree {A} (m : ST TreeState.t A) : ST FipsRouting A := zoom treeState (fun t r => set_treeState r t) m.

Definition removePeer (peerNodeAddr : NodeAddr) (now : Z) : ST FipsRouting unit :=
  r ← get;
  wasTreePeer ← lift (is_tree_peer r peerNodeAddr);
  parentChanged ← zoom_tree (TreeState.removePeer peerNodeAddr now);
  (if (parentChanged : bool) then sendTreeAnnounceToAll else mret tt);;
  if (parentChanged || wasTreePeer)%bool then bloom_sendAll None else mret tt.

(** The branch of [handleLinkMessage] for [ClientSupport]. *)
Definition handleClientSupport (i : nat) (payload : bytes) : ST FipsRouting unit :=
  r ← get;
  match fr_peers r !! i with
  | None => mret tt
  | Some p =>
      if negb (len payload =? 0) || clientSupported p then mret tt else
      alter_fr_peer i (fun p => set_role p true (clientOnly p) (routingRoleSequence p));;
      if rc_strictClient cfg then sendTreeAnnounce i else send_message i LinkMessageType.ClientSupport []
  end.

(** Whether a notice of sequence [seq] is not newer than what the peer said. *)
Definition stale_notice (p : AdjacentPeer) (seq : Z) : bool :=
  match routingRoleSequence p with
  | Some last => (seq <? last) || ((seq =? last) && negb (clientOnly p))
  | None => false
  end.

(** The branch for [ClientOnly]. *)
Definition handleClientOnly (i : nat) (payload : bytes) (now : Z) : ST FipsRouting unit :=
  r ← get;
  match fr_peers r !! i with
  | None => mret tt
  | Some p =>
      if negb (len payload =? 8) then mret tt else
      let seq := le_val payload in
      if stale_notice p seq then mret tt else
      alter_fr_peer i (fun p => set_role p (clientSupported p) (clientOnly p) (Some seq));;
      alter_fr_peer i (fun p => set_role p true (clientOnly p) (routingRoleSequence p));;
      if negb (clientOnly p) then
        alter_fr_peer i (fun p => set_role p (clientSupported p) true (routingRoleSequence p));;
        addr ← lift (deriveNodeAddr (ap_pubkey p));
        removePeer addr now;;
        bloom_sendAll None
      else mret tt
  end.

(** [handleTreeAnnounce] up to its [bloomRouting.sendAll], which it calls when
    the result is [true]. *)
Definition handleTreeAnnounce (i : nat) (payload : bytes) (now : Z) : ST FipsRouting bool :=
  r ← get;
  match fr_peers r !! i with
  | None => mret false
  | Some p =>
      announce ← lift (decodeTreeAnnouncePayload payload);
      peerNodeAddr ← lift (deriveNodeAddr (ap_pubkey p));
      first ← lift (match ta_ancestry announce with
                    | e :: _ => Ok (te_nodeAddr e)
                    | [] => Throw (TypeError "Cannot read properties of undefined")
                    end);
      throw_when (negb (bytesEqual first peerNodeAddr)) (Error "TreeAnnounce node address does not match authenticated peer");;
      valid ← lift (verifyTreeAnnounce announce (ap_pubkey p));
      throw_when (negb valid) (Error "TreeAnnounce signature verification failed");;
      if match routingRoleSequence p with Some last => ta_sequence announce <=? last | None => false end then mret false else
      alter_fr_peer i (fun p => set_role p (clientSupported p) (clientOnly p) (Some (ta_sequence announce)));;
      let wasClient := clientOnly p in
      alter_fr_peer i (fun p => set_role p (clientSupported p) false (routingRoleSequence p));;
      r ← get;
      wasTreePeer ← lift (is_tree_peer r peerNodeAddr);
      changed ← zoom_tree (TreeState.updatePeer peerNodeAddr announce now);
      r ← get;
      isTreePeer ← lift (is_tree_peer r peerNodeAddr);
      (if (changed : bool) then sendTreeAnnounceToAll else mret tt);;
      mret (changed || wasClient || negb (Bool.eqb wasTreePeer isTreePeer))%bool
  end.

(** [scheduleTreeAnnounce] sets the flags and starts two timers: that of
    [bloomRouting.schedule] and, where the result is [true], that of
    [announce_timer]. *)
Definition scheduleTreeAnnounce (i : nat) : ST FipsRouting bool :=
  r ← get;
  match fr_peers r !! i with
  | None => mret false
  | Some p =>
      (if negb (rc_strictClient cfg) && negb (filterAnnounced p)
       then alter_fr_peer i (fun p => set_filterAnnounced p true) else mret tt);;
      if treeAnnounced p then mret false else
      alter_fr_peer i (fun p => set_treeAnnounced p true);; mret true
  end.

Definition announce_timer (i : nat) : ST FipsRouting unit :=
  try_catch (sendTreeAnnounce i) (fun _ => alter_fr_peer i (fun p => set_treeAnnounced p false)).

Definition clear_role (i : nat) : ST FipsRouting unit := alter_fr_peer i (fun p => set_role p false false None).

(** [stop], without the transport resolutions it aborts. *)
Definition stop (now : Z) : ST FipsRouting unit :=
  zoom originLookups (fun o r => set_originLookups r o) stop_;;
  modify (fun r => set_reversePaths r []);;
  modify (fun r => set_learnedRoutes r []);;
  modify (fun r => set_coordCache r []);;
  zoom_tree (TreeState.reset now);;
  for_each clear_role getPeers.
End Announce.

(** ** What sending changes *)

(** The peers of two states, up to the filters announced to them. *)
Definition peers_sent (ps ps' : list AdjacentPeer) : Prop :=
  length ps' = length ps /\ forall i p, ps !! i = Some p -> exists o, ps' !! i = Some (set_outboundFilter p o).

(** A state after messages were sent. *)
Inductive sends (r : FipsRouting) : FipsRouting -> Prop :=
| Sends q n c ps s : peers_sent (fr_peers r) ps ->
    sends r (mkRouting (treeState r) (lookupReversePaths r) (reverses r) (originLookups r) (learnedRoutes r) (coordCache r)
               q n c ps (fr_links r) s).

Lemma peers_sent_refl ps : peers_sent ps ps.
Proof. split; [done|]. intros i p Hp. exists (outboundFilter p). by destruct p. Qed.

Lemma peers_sent_trans a b c : peers_sent a b -> peers_sent b c -> peers_sent a c.
Proof.
  intros [L1 P1] [L2 P2]. split; [congruence|]. intros i p Hp. destruct (P1 i p Hp) as [o Ho].
  destruct (P2 i _ Ho) as [o' Ho']. by exists o'.
Qed.

Lemma peers_sent_alter i o ps : peers_sent ps (alter (with_outbound o) i ps).
Proof.
  split; [apply length_alter|]. intros j p Hp. destruct (decide (i = j)) as [<-|Hne].
  - exists o. by rewrite list_lookup_alter_eq, Hp.
  - exists (outboundFilter p). rewrite list_lookup_alter_ne, Hp by done. by destruct p.
Qed.

Lemma sends_refl r : sends r r.
Proof. destruct r. apply (Sends (mkRouting _ _ _ _ _ _ _ _ _ _ _ _)), peers_sent_refl. Qed.

Lemma sends_trans a b c : sends a b -> sends b c -> sends a c.
Proof. intros [q n cs ps s Hp] [q' n' cs' ps' s' Hp']. cbn in *. apply Sends. by apply peers_sent_trans with ps. Qed.

Lemma sends_message i ty payload r : sends r (snd (send_message i ty payload r)).
Proof. apply Sends, peers_sent_refl. Qed.

#[export] Instance sends_preorder : PreOrder sends.
Proof. split; [exact sends_refl|exact sends_trans]. Qed.

Section Frame.
Context `{Noble} (cfg : FipsRoutingConfig) (getPeers : list nat).

(** A program that only sends. *)
Abbreviation only_sends := (respects sends).

Lemma only_send_message i ty payload : only_sends (send_message i ty payload).
Proof. intros r. apply sends_message. Qed.
Hint Resolve only_send_message : respects.

Lemma only_clientSequence f : only_sends (modify (fun r => set_clientSequence r (f r))).
Proof. intros r. apply Sends, peers_sent_refl. Qed.
Hint Resolve only_clientSequence : respects.

Lemma only_sendTreeAnnounce i : only_sends (sendTreeAnnounce cfg i).
Proof. unfold sendTreeAnnounce. solve_respects. Qed.
Hint Resolve only_sendTreeAnnounce : respects.

Lemma only_sendTreeAnnounceToAll : only_sends (sendTreeAnnounceToAll cfg getPeers).
Proof. unfold sendTreeAnnounceToAll. respects_step; [auto with respects typeclass_instances|]. apply respects_for_each; [apply _|]. intros i. solve_respects. Qed.
Hint Resolve only_sendTreeAnnounceToAll : respects.

(** The filters sent change the peers' outbound filters only. *)
Definition bloom_sends (b b' : BloomRouting) : Prop := br_links b' = br_links b /\ peers_sent (br_peers b) (br_peers b').

Lemma bloom_sends_refl b : bloom_sends b b.
Proof. split; [done|apply peers_sent_refl]. Qed.

Lemma send_begin_sends bc tp i b : bloom_sends b (snd (send_begin bc getPeers tp i b)).
Proof.
  unfold send_begin. rewrite ST_get_bind. destruct (br_peers b !! i) as [p|]; [|apply bloom_sends_refl].
  destruct (_ || _); [apply bloom_sends_refl|]. destruct (outgoingFilterFor _ _ _ _ _) as [f|e]; [|apply bloom_sends_refl].
  rewrite (ST_lift_bind _ _ _ _ eq_refl). destruct (match outboundFilter p with Some _ => _ | None => _ end); [apply bloom_sends_refl|].
  rewrite !ST_modify_bind, ST_get_bind. unfold mbind, ST_bind, lift.
  assert (Hs : bloom_sends b (sending i f b)) by (split; [done|apply peers_sent_alter]).
  destruct (buildFilterAnnounce _ _); [|exact Hs]. destruct (encodeFilterAnnounce _); exact Hs.
Qed.

Lemma sendAll_sends bc tp excluded b : bloom_sends b (snd (sendAll bc getPeers tp excluded b)).
Proof.
  unfold sendAll. rewrite ST_get_bind. destruct (bc_strictClient bc); [apply bloom_sends_refl|].
  generalize (base.filter (fun i : nat => Some i <> excluded /\ (match br_peers b !! i with Some p => established b p | None => false end) = true) getPeers).
  intros is_. revert b. induction is_ as [|i is_ IH]; intros b; [apply bloom_sends_refl|]. cbn [send_each].
  pose proof (send_begin_sends bc tp i b) as Hb. unfold try_catch, mbind, ST_bind.
  destruct (send_begin bc getPeers tp i b) as [[s|e] b1]; cbn [snd] in Hb.
  all: specialize (IH b1); cbn [mret ST_ret] in *; destruct (send_each _ _ _ _ b1) as [[ss|e'] b2]; cbn [snd] in *;
    unfold bloom_sends in *; cbn [mret ST_ret snd] in *;
    (split; [destruct Hb, IH; etransitivity; eassumption|eapply peers_sent_trans; [apply Hb|apply IH]]).
Qed.

Lemma only_bloom_sendAll excluded : only_sends (bloom_sendAll cfg getPeers excluded).
Proof.
  unfold bloom_sendAll. respects_step; [auto with respects typeclass_instances|]. rename a into r0. apply respects_bind; [apply _| |].
  - intros r. unfold zoom. pose proof (sendAll_sends (bloom_config cfg) (is_tree_peer r0) excluded (get_bloom r)) as [Hl Hp].
    destruct (sendAll _ _ _ _ _) as [res b]. cbn [snd] in *. unfold set_bloom. rewrite Hl. by apply Sends.
  - intros ss. apply respects_for_each; [apply _|]. intros i. solve_respects.
Qed.
End Frame.

(** ** What a neighbour's message changes *)

Section Effects.
Context `{Noble, !HashLaws} (cfg : FipsRoutingConfig) (getPeers : list nat).

(** The role of peer [i] is set; [None] leaves [clientSupported]. *)
Definition take_role (i : nat) (supported : option bool) (only : bool) (seq : option Z) (r : FipsRouting) : FipsRouting :=
  set_peers r (alter (fun p => set_role p (default (clientSupported p) supported) only seq) i (fr_peers r)).

Definition newer (p : AdjacentPeer) (seq : Z) : Prop := forall last, routingRoleSequence p = Some last -> last < seq.

(** An announcement that the authenticated peer [p] signed for its own address. *)
Record authentic (p : AdjacentPeer) (payload : bytes) (addr : NodeAddr) (a : TreeAnnounce) : Prop := {
  au_decoded : decodeTreeAnnouncePayload payload = Ok a;
  au_addr : deriveNodeAddr (ap_pubkey p) = Ok addr;
  au_own : te_nodeAddr <$> head (ta_ancestry a) = Some addr;
  au_signed : verifyTreeAnnounce a (ap_pubkey p) = Ok true;
}.

Lemma is_tree_peer_total r a : len a = 16 -> exists b, is_tree_peer r a = Ok b.
Proof.
  intros La. unfold is_tree_peer, TreeState.isTreePeer. destruct (_ && _); [by eexists|].
  assert (E : nodeAddrToHex a = Ok (toHex a)) by (by apply nodeAddrToHex_Ok). rewrite E. by eexists.
Qed.

(** The end of [handleTreeAnnounce], after the stores to the peer. *)
Lemma tree_update_effect r addr a was now :
  len addr = 16 ->
  let run := (r0 ← get; wasTreePeer ← lift (is_tree_peer r0 addr);
    changed ← zoom_tree (TreeState.updatePeer addr a now);
    r1 ← get; isTreePeer ← lift (is_tree_peer r1 addr);
    (if (changed : bool) then sendTreeAnnounceToAll cfg getPeers else mret tt);;
    mret (changed || was || negb (Bool.eqb wasTreePeer isTreePeer))%bool) r in
  sends (set_treeState r (snd (TreeState.updatePeer addr a now (treeState r)))) (snd run).
Proof.
  intros La. cbv zeta. rewrite ST_get_bind. destruct (is_tree_peer_total r addr La) as [b1 Eb1].
  rewrite (ST_lift_bind _ _ _ _ Eb1). unfold zoom_tree, zoom. destruct (TreeState.updatePeer addr a now (treeState r)) as [[ch|e] ts] eqn:E;
    unfold mbind at 1, ST_bind at 1; rewrite E; cbn [snd]; [|apply sends_refl].
  rewrite ST_get_bind. destruct (is_tree_peer_total (set_treeState r ts) addr La) as [b2 Eb2].
  rewrite (ST_lift_bind _ _ _ _ Eb2). apply (respects_bind sends (if ch then _ else _)); [|intros ?; auto with respects typeclass_instances].
  destruct ch; auto using only_sendTreeAnnounceToAll with respects typeclass_instances.
Qed.

Lemma handleTreeAnnounce_effect i payload now r :
  let r' := snd (handleTreeAnnounce cfg getPeers i payload now r) in
  r' = r \/ exists p a addr, fr_peers r !! i = Some p /\ authentic p payload addr a /\ newer p (ta_sequence a) /\
    sends (set_treeState (take_role i None false (Some (ta_sequence a)) r) (snd (TreeState.updatePeer addr a now (treeState r)))) r'.
Proof.
  cbv zeta. unfold handleTreeAnnounce. rewrite ST_get_bind. destruct (fr_peers r !! i) as [p|] eqn:Ep; [|by left].
  destruct (decodeTreeAnnouncePayload payload) as [a|e] eqn:Ed; [|by left]. rewrite (ST_lift_bind _ _ _ _ eq_refl).
  destruct (deriveNodeAddr (ap_pubkey p)) as [addr|e] eqn:Ea; [|by left]. rewrite (ST_lift_bind _ _ _ _ eq_refl).
  destruct (ta_ancestry a) as [|first rest] eqn:Eanc; [by left|]. rewrite (ST_lift_bind _ _ _ _ eq_refl).
  destruct (bytesEqual (te_nodeAddr first) addr) eqn:Eown; [|by left]. rewrite ST_pass by done.
  destruct (verifyTreeAnnounce a (ap_pubkey p)) as [[|]|e] eqn:Ev; [|by left..].
  rewrite (ST_lift_bind _ _ _ _ eq_refl), ST_pass by done.
  destruct (match routingRoleSequence p with Some last => ta_sequence a <=? last | None => false end) eqn:Enew; [by left|].
  right. exists p, a, addr. split; [done|]. split; [|split].
  - apply bytesEqual_true in Eown. split; try done. rewrite Eanc. cbn. by rewrite Eown.
  - intros last El. rewrite El in Enew. lia.
  - unfold alter_fr_peer. rewrite !ST_modify_bind. pose proof (len_deriveNodeAddr _ _ Ea) as La.
    match goal with |- sends _ (snd (_ ?s)) => set (r1 := s) end.
    assert (Er1 : r1 = take_role i None false (Some (ta_sequence a)) r).
    { unfold r1, take_role. cbn. f_equal. rewrite alter_alter. done. }
    rewrite Er1. exact (tree_update_effect _ addr a (clientOnly p) now La).
Qed.

Lemma removePeer_effect addr now r : len addr = 16 ->
  sends (set_treeState r (snd (TreeState.removePeer addr now (treeState r)))) (snd (removePeer cfg getPeers addr now r)).
Proof.
  intros La. unfold removePeer. rewrite ST_get_bind. destruct (is_tree_peer_total r addr La) as [b1 Eb1].
  rewrite (ST_lift_bind _ _ _ _ Eb1). unfold zoom_tree, zoom. destruct (TreeState.removePeer addr now (treeState r)) as [[ch|e] ts] eqn:E;
    unfold mbind at 1, ST_bind at 1; rewrite E; cbn [snd]; [|apply sends_refl].
  apply (respects_bind sends (if ch then _ else _)); [destruct ch; auto using only_sendTreeAnnounceToAll with respects typeclass_instances|].
  intros _. destruct (_ || _)%bool; auto using only_bloom_sendAll with respects typeclass_instances.
Qed.

Lemma handleClientOnly_effect i payload now r :
  let r' := snd (handleClientOnly cfg getPeers i payload now r) in
  r' = r \/ exists p, fr_peers r !! i = Some p /\ len payload = 8 /\ stale_notice p (le_val payload) = false /\
    let r1 := take_role i (Some true) true (Some (le_val payload)) r in
    (r' = r1 \/ clientOnly p = false /\ exists addr, deriveNodeAddr (ap_pubkey p) = Ok addr /\
       sends (set_treeState r1 (snd (TreeState.removePeer addr now (treeState r)))) r').
Proof.
  cbv zeta. unfold handleClientOnly. rewrite ST_get_bind. destruct (fr_peers r !! i) as [p|] eqn:Ep; [|by left].
  destruct (Z.eqb_spec (len payload) 8) as [Hl|]; [|by left]. cbn [negb].
  destruct (stale_notice p (le_val payload)) eqn:Est; [by left|]. right. exists p. split; [done|]. split; [done|]. split; [done|].
  unfold alter_fr_peer. rewrite !ST_modify_bind.
  destruct (clientOnly p) eqn:Eo; cbn [negb].
  - left. unfold take_role. cbn. f_equal. rewrite alter_alter. apply list_eq. intros j. destruct (decide (i = j)) as [<-|Hne].
    + rewrite !list_lookup_alter_eq, Ep. cbn. by rewrite Eo.
    + by rewrite !list_lookup_alter_ne.
  - rewrite ST_modify_bind. match goal with |- snd (_ ?s) = _ \/ _ => set (r1 := s) end.
    assert (Er1 : r1 = take_role i (Some true) true (Some (le_val payload)) r).
    { unfold r1, take_role. cbn. f_equal. by rewrite !alter_alter. }
    rewrite <- Er1. destruct (deriveNodeAddr (ap_pubkey p)) as [addr|e] eqn:Ea; [|by left]. right. split; [done|].
    exists addr. split; [done|]. rewrite (ST_lift_bind _ _ _ _ eq_refl).
    pose proof (removePeer_effect addr now r1 (len_deriveNodeAddr _ _ Ea)) as Hrm.
    assert (Et : treeState r1 = treeState r) by (by rewrite Er1). rewrite Et in Hrm.
    unfold mbind, ST_bind. destruct (removePeer cfg getPeers addr now r1) as [[u|e] r2]; cbn [snd] in *; [|done].
    eapply sends_trans; [exact Hrm|apply only_bloom_sendAll].
Qed.

Lemma handleClientSupport_effect i payload r :
  let r' := snd (handleClientSupport cfg i payload r) in
  r' = r \/ exists p, fr_peers r !! i = Some p /\
    sends (take_role i (Some true) (clientOnly p) (routingRoleSequence p) r) r'.
Proof.
  cbv zeta. unfold handleClientSupport. rewrite ST_get_bind. destruct (fr_peers r !! i) as [p|] eqn:Ep; [|by left].
  destruct (_ || _)%bool; [by left|]. right. exists p. split; [done|]. unfold alter_fr_peer. rewrite ST_modify_bind.
  match goal with |- sends _ (snd (_ ?s)) => set (r1 := s) end.
  assert (Er1 : r1 = take_role i (Some true) (clientOnly p) (routingRoleSequence p) r).
  { unfold r1, take_role. cbn. f_equal. apply list_eq. intros j. destruct (decide (i = j)) as [<-|Hne].
    + by rewrite !list_lookup_alter_eq, Ep.
    + by rewrite !list_lookup_alter_ne. }
  rewrite <- Er1. destruct (rc_strictClient cfg); [apply only_sendTreeAnnounce|apply only_send_message].
Qed.
End Effects.

(** ** Runs *)

(** A later record of a peer: what it said about its role is not taken back by
    an older message. *)
Definition role_le (p q : AdjacentPeer) : Prop :=
  match routingRoleSequence p, routingRoleSequence q with
  | None, _ => True
  | Some a, Some b => a < b \/ a = b /\ clientOnly q = clientOnly p
  | Some _, None => False
  end.

Definition roles_le (ps ps' : list AdjacentPeer) : Prop :=
  forall i p, ps !! i = Some p -> exists q, ps' !! i = Some q /\ role_le p q.

Lemma role_le_refl p : role_le p p.
Proof. unfold role_le. destruct (routingRoleSequence p); [by right|done]. Qed.

Lemma role_le_trans p q s : role_le p q -> role_le q s -> role_le p s.
Proof.
  unfold role_le. destruct (routingRoleSequence p), (routingRoleSequence q), (routingRoleSequence s); try done.
  intros [?|[? ?]] [?|[? ?]]; [left; lia..|right; split; congruence].
Qed.

Lemma roles_le_trans a b c : roles_le a b -> roles_le b c -> roles_le a c.
Proof.
  intros H1 H2 i p Hp. destruct (H1 i p Hp) as (q & Hq & L1). destruct (H2 i q Hq) as (s & Hs & L2).
  exists s. split; [done|]. by apply role_le_trans with q.
Qed.

Lemma peers_sent_roles ps ps' : peers_sent ps ps' -> roles_le ps ps'.
Proof. intros [_ Hp] i p E. destruct (Hp i p E) as [o Ho]. eexists. split; [exact Ho|]. exact (role_le_refl p). Qed.

Lemma take_role_roles i sup only seq r :
  (forall p, fr_peers r !! i = Some p -> role_le p (set_role p (default (clientSupported p) sup) only seq)) ->
  roles_le (fr_peers r) (fr_peers (take_role i sup only seq r)).
Proof.
  intros Hi j p Hp. cbn. destruct (decide (i = j)) as [<-|Hne].
  - rewrite list_lookup_alter_eq, Hp. eexists. split; [done|]. by apply Hi.
  - rewrite list_lookup_alter_ne by done. exists p. split; [done|apply role_le_refl].
Qed.

Section Runs.
Context `{Noble, !HashLaws} (cfg : FipsRoutingConfig).

(** The node handles a neighbour's message, loses a neighbour, sends, or changes
    something that this component does not read. *)
Inductive neighbour_step (r : FipsRouting) : FipsRouting -> Prop :=
| NsSupport i payload : neighbour_step r (snd (handleClientSupport cfg i payload r))
| NsOnly gp i payload now : neighbour_step r (snd (handleClientOnly cfg gp i payload now r))
| NsTree gp i payload now : neighbour_step r (snd (handleTreeAnnounce cfg gp i payload now r))
| NsRemove gp addr now : len addr = 16 -> neighbour_step r (snd (removePeer cfg gp addr now r))
| NsSend r' : sends r r' -> neighbour_step r r'
| NsOther r' : treeState r' = treeState r -> roles_le (fr_peers r) (fr_peers r') -> neighbour_step r r'.

(** Each step is one of the tree's, or none, and no role goes back. *)
Definition tree_advances (r r' : FipsRouting) : Prop :=
  (treeState r' = treeState r \/ tree_step (treeState r) (treeState r')) /\ roles_le (fr_peers r) (fr_peers r').

Lemma same_advances r : tree_advances r r.
Proof. split; [by left|]. intros i p Hp. exists p. split; [done|apply role_le_refl]. Qed.

Lemma sends_advance r t r1 r' : sends (set_treeState r1 t) r' ->
  (t = treeState r \/ tree_step (treeState r) t) -> roles_le (fr_peers r) (fr_peers r1) -> tree_advances r r'.
Proof.
  intros Hs Ht Hr. inversion Hs; subst; cbn in *. split; [done|].
  eapply roles_le_trans; [exact Hr|by apply peers_sent_roles].
Qed.

Lemma stale_notice_le p seq sup : stale_notice p seq = false -> role_le p (set_role p sup true (Some seq)).
Proof.
  unfold stale_notice, role_le. cbn. destruct (routingRoleSequence p) as [last|]; [|done].
  intros [Hlt Heq]%orb_false_iff. apply Z.ltb_ge in Hlt. apply andb_false_iff in Heq as [Heq|Heq].
  - left. bool_split. lia.
  - apply negb_false_iff in Heq. destruct (decide (last = seq)) as [->|]; [right; by rewrite Heq|left; lia].
Qed.

Lemma neighbour_step_advances r r' : tree_ok (treeState r) -> neighbour_step r r' -> tree_advances r r'.
Proof.
  intros Ht [i payload|gp i payload now|gp i payload now|gp addr now La|r1 Hs|r1 E Hr].
  - destruct (handleClientSupport_effect cfg i payload r) as [->|(p & Ep & Hs)]; [apply same_advances|].
    apply (sends_advance r (treeState r) (take_role i (Some true) (clientOnly p) (routingRoleSequence p) r)); [done|by left|].
    apply take_role_roles. intros q Eq. rewrite Ep in Eq. injection Eq as <-. unfold role_le. cbn.
    destruct (routingRoleSequence p); [by right|done].
  - destruct (handleClientOnly_effect cfg gp i payload now r) as [->|(p & Ep & _ & Hst & Hc)]; [apply same_advances|].
    assert (Hroles : roles_le (fr_peers r) (fr_peers (take_role i (Some true) true (Some (le_val payload)) r))).
    { apply take_role_roles. intros q Eq. rewrite Ep in Eq. injection Eq as <-. by apply stale_notice_le. }
    destruct Hc as [->|(_ & addr & Ea & Hs)]; [split; [by left|done]|].
    eapply sends_advance; [exact Hs| |done]. right.
    destruct (removePeer_runs (treeState r) addr now Ht (len_deriveNodeAddr _ _ Ea)) as (b & s' & E). rewrite E. by eapply step_remove.
  - destruct (handleTreeAnnounce_effect cfg gp i payload now r) as [->|(p & a & addr & Ep & [Ed Ea _ _] & Hnew & Hs)]; [apply same_advances|].
    eapply sends_advance; [exact Hs| |].
    + right. assert (Hv : ancestry_valid a) by (by apply decodeTreeAnnounce_Ok in Ed as (_ & ? & _)).
      destruct (updatePeer_runs (treeState r) addr a now Ht (len_deriveNodeAddr _ _ Ea) Hv) as (b & s' & E). rewrite E. by eapply step_update.
    + apply take_role_roles. intros q Eq. rewrite Ep in Eq. injection Eq as <-. unfold role_le. cbn.
      destruct (routingRoleSequence p) as [last|] eqn:El; [left; by apply Hnew|done].
  - pose proof (removePeer_effect cfg gp addr now r La) as Hs. eapply sends_advance; [exact Hs| |].
    + right. destruct (removePeer_runs (treeState r) addr now Ht La) as (b & s' & E). rewrite E. by eapply step_remove.
    + intros j p Hp. exists p. split; [done|apply role_le_refl].
  - apply (sends_advance r (treeState r) r); [by destruct r|by left|]. intros j p Hp. exists p. split; [done|apply role_le_refl].
  - split; [by left|done].
Qed.

Lemma run_advances r r' : tree_ok (treeState r) -> rtc neighbour_step r r' ->
  tree_ok (treeState r') /\ TreeState.identity (treeState r') = TreeState.identity (treeState r) /\
  rtc tree_step (treeState r) (treeState r') /\ roles_le (fr_peers r) (fr_peers r').
Proof.
  intros Ht Hrun. induction Hrun as [r|r1 r2 r3 Hst _ IH].
  - split; [done|]. split; [done|]. split; [apply rtc_refl|apply same_advances].
  - destruct (neighbour_step_advances r1 r2 Ht Hst) as [Htr Hro].
    assert (Hok2 : tree_ok (treeState r2) /\ TreeState.identity (treeState r2) = TreeState.identity (treeState r1)).
    { destruct Htr as [->|Htr]; [done|]. by apply step_tree_ok. }
    destruct Hok2 as [Hok2 Hid]. destruct (IH Hok2) as (H3 & H4 & H5 & H6). split; [done|]. split; [congruence|]. split.
    + destruct Htr as [<-|Htr]; [done|]. by eapply rtc_l.
    + by eapply roles_le_trans.
Qed.
End Runs.

(** Whatever messages arrive from neighbours, in any order, valid or not, and
    while peers come and go, the node's place in the spanning tree is the one the
    accepted announcements elect, and what a neighbour last said about its role,
    client or router, is never replaced by an older or equally old claim. *)
Lemma neighbours_in_order `{Noble, !HashLaws} (cfg : FipsRoutingConfig) (id : FipsIdentity) (now : Z) (r0 r r' : FipsRouting) :
  len (nodeAddr id) = 16 -> treeState r0 = TreeState.new id now -> rtc (neighbour_step cfg) r0 r -> rtc (neighbour_step cfg) r r' ->
  elected (treeState r) /\ TreeState.identity (treeState r) = id /\ rtc tree_step (treeState r) (treeState r') /\
  forall i p, fr_peers r !! i = Some p -> exists q, fr_peers r' !! i = Some q /\ role_le p q.
Proof.
  intros Hl E0 Hrun Hrun'. assert (Ht0 : tree_ok (treeState r0)) by (rewrite E0; by apply tree_ok_new).
  destruct (run_advances cfg r0 r Ht0 Hrun) as (Ht & Hid & _ & _). destruct (run_advances cfg r r' Ht Hrun') as (_ & _ & Htr & Hro).
  split; [apply Ht|]. rewrite E0 in Hid. by split_and!.
Qed.

(** C26: A tree announcement changes something only if the peer whose link it came
    over signed it, for that peer's own address and under a sequence number above
    the peer's last; then the peer counts as a router under that number and the
    tree takes the announcement. Any other leaves the whole state as it was. *)
Theorem tree_announcements_authentic `{Noble, !HashLaws} (cfg : FipsRoutingConfig) (getPeers : list nat)
    (i : nat) (payload : bytes) (now : Z) (r : FipsRouting) :
  let r' := snd (handleTreeAnnounce cfg getPeers i payload now r) in
  r' = r \/ exists p a addr q, fr_peers r !! i = Some p /\ authentic p payload addr a /\ newer p (ta_sequence a) /\
    treeState r' = snd (TreeState.updatePeer addr a now (treeState r)) /\
    fr_peers r' !! i = Some q /\ routingRoleSequence q = Some (ta_sequence a) /\ clientOnly q = false.
Proof.
  cbv zeta. destruct (handleTreeAnnounce_effect cfg getPeers i payload now r) as [->|(p & a & addr & Ep & Ha & Hn & Hs)]; [by left|].
  right. inversion Hs as [q n c ps st [_ Hps] Er]. cbn in *.
  destruct (Hps i (set_role p (clientSupported p) false (Some (ta_sequence a)))) as [o Ho];
    [by rewrite list_lookup_alter_eq, Ep|]. eexists p, a, addr, _. split_and!; try done; apply Ha.
Qed.

Section Crossing.
Context `{Noble, !HashLaws, !DhLaws, !SchnorrLaws} (cfg : FipsRoutingConfig) (getPeers : list nat).

Lemma sendTreeAnnounceToAll_ok r : exists r', sendTreeAnnounceToAll cfg getPeers r = (Ok tt, r').
Proof.
  unfold sendTreeAnnounceToAll. rewrite ST_get_bind. apply for_each_ok. intros i s. unfold try_catch.
  destruct (sendTreeAnnounce cfg i s) as [[[]|e] s']; by eexists.
Qed.

(** What an accepted announcement leads to. *)
Lemma handleTreeAnnounce_accepts i p payload a addr now r :
  fr_peers r !! i = Some p -> authentic p payload addr a -> newer p (ta_sequence a) -> tree_ok (treeState r) ->
  exists b r', handleTreeAnnounce cfg getPeers i payload now r = (Ok b, r') /\
    sends (set_treeState (take_role i None false (Some (ta_sequence a)) r) (snd (TreeState.updatePeer addr a now (treeState r)))) r'.
Proof.
  intros Ep Ha Hn Ht. assert (Hv : ancestry_valid a) by (destruct Ha as [Ed _ _ _]; by apply decodeTreeAnnounce_Ok in Ed as (_ & ? & _)).
  pose proof (handleTreeAnnounce_effect cfg getPeers i payload now r) as Heff. cbv zeta in Heff.
  assert (Hrun : exists b r', handleTreeAnnounce cfg getPeers i payload now r = (Ok b, r') /\ r' <> r).
  { unfold handleTreeAnnounce. rewrite ST_get_bind, Ep. destruct Ha as [Ed Ea Eo Es]. pose proof (len_deriveNodeAddr _ _ Ea) as La.
    rewrite (ST_lift_bind _ _ _ _ Ed), (ST_lift_bind _ _ _ _ Ea). destruct (ta_ancestry a) as [|first rest]; [done|].
    cbn in Eo. injection Eo as ->. rewrite (ST_lift_bind _ _ _ _ eq_refl), bytesEqual_refl, ST_pass by done.
    rewrite (ST_lift_bind _ _ _ _ Es), ST_pass by done.
    assert (Enew : match routingRoleSequence p with Some last => ta_sequence a <=? last | None => false end = false).
    { destruct (routingRoleSequence p) as [last|] eqn:El; [|done]. apply Z.leb_gt. by apply Hn. }
    rewrite Enew. unfold alter_fr_peer. rewrite !ST_modify_bind, ST_get_bind.
    match goal with |- context [is_tree_peer ?s addr] => set (r1 := s) end.
    destruct (is_tree_peer_total r1 addr La) as [b1 Eb1]. rewrite (ST_lift_bind _ _ _ _ Eb1).
    destruct (updatePeer_runs (treeState r) addr a now Ht La Hv) as (ch & s' & Eu).
    assert (Ez : zoom_tree (TreeState.updatePeer addr a now) r1 = (Ok ch, set_treeState r1 s')).
    { unfold zoom_tree, zoom. change (treeState r1) with (treeState r). by rewrite Eu. }
    rewrite (ST_bind_ok _ _ _ _ _ Ez), ST_get_bind.
    destruct (is_tree_peer_total (set_treeState r1 s') addr La) as [b2 Eb2]. rewrite (ST_lift_bind _ _ _ _ Eb2).
    assert (Hall : exists r2, (if ch then sendTreeAnnounceToAll cfg getPeers else mret tt) (set_treeState r1 s') = (Ok tt, r2) /\ sends (set_treeState r1 s') r2).
    { destruct ch; [|eexists; split; [done|apply sends_refl]]. destruct (sendTreeAnnounceToAll_ok (set_treeState r1 s')) as [r2 E2].
      exists r2. split; [done|]. pose proof (only_sendTreeAnnounceToAll cfg getPeers (set_treeState r1 s')) as Hs. by rewrite E2 in Hs. }
    destruct Hall as (r2 & E2 & Hs2). rewrite (ST_bind_ok _ _ _ _ _ E2). eexists _, r2. split; [reflexivity|].
    intros ->. inversion Hs2 as [q n c ps st [_ Hps] Er]. cbn in Hps.
    destruct (Hps i (set_role p (clientSupported p) false (Some (ta_sequence a)))) as [o Ho].
    { rewrite alter_alter, list_lookup_alter_eq, Ep. done. }
    assert (Eps : fr_peers r = ps) by (by rewrite <- Er). rewrite <- Eps, Ep in Ho. injection Ho as Ho.
    apply (f_equal routingRoleSequence) in Ho. cbn in Ho. specialize (Hn _ Ho). lia. }
  destruct Hrun as (b & r' & E & Hne). rewrite E in Heff. cbn [snd] in Heff. exists b, r'. split; [done|].
  destruct Heff as [?|(p' & a' & addr' & Ep' & Ha' & _ & Hs)]; [done|].
  rewrite Ep in Ep'. injection Ep' as <-. destruct Ha as [Ed Ea _ _], Ha' as [Ed' Ea' _ _].
  rewrite Ed in Ed'. injection Ed' as <-. rewrite Ea in Ea'. by injection Ea' as <-.
Qed.

Lemma updatePeer_entry s addr a now : tree_ok s -> len addr = 16 -> ancestry_valid a ->
  (forall e, JsMap.get_ (TreeState.peers s) (toHex addr) = Some e -> pt_sequence e < ta_sequence a) ->
  JsMap.get_ (TreeState.peers (snd (TreeState.updatePeer addr a now s))) (toHex addr) =
    Some (mkPeerTree (ta_sequence a) (ta_parent a) (ta_ancestry a)).
Proof.
  intros Ht La Hv Hnew. unfold TreeState.updatePeer. assert (E : nodeAddrToHex addr = Ok (toHex addr)) by (by apply nodeAddrToHex_Ok).
  rewrite (ST_lift_bind _ _ _ _ E), ST_get_bind.
  assert (Eold : match JsMap.get_ (TreeState.peers s) (toHex addr) with
    | Some existing => ta_sequence a <=? pt_sequence existing | None => false end = false).
  { destruct (JsMap.get_ _ _) as [e|]; [|done]. apply Z.leb_gt. by apply Hnew. }
  rewrite Eold, ST_modify_bind. match goal with |- context [TreeState.evaluateParent now ?s1] =>
    destruct (evaluateParent_run now s1) as (b & s' & -> & _ & Hp & _) end; [apply Ht| |].
  - apply set_path_ok; [apply Ht|by apply announced_path_ok].
  - cbn [snd]. rewrite Hp. apply JsMap.get_set_eq.
Qed.

(** What a router sends to an established neighbour. *)
Lemma sendTreeAnnounce_run i p r r' :
  fr_peers r !! i = Some p -> established (get_bloom r) p = true -> rc_strictClient cfg = false ->
  sendTreeAnnounce cfg i r = (Ok tt, r') ->
  exists a encoded, TreeState.announce (treeState r) = Ok a /\ encodeTreeAnnounce a = Ok encoded /\
    r' = set_sent r (sent r ++ [(i, LinkMessageType.TreeAnnounce, subarray_from encoded 1)]).
Proof.
  intros Ep Hest Hst. unfold sendTreeAnnounce. rewrite ST_get_bind, Ep, Hest, Hst. cbn [negb]. intros E. st_inv.
  match goal with Ha : _ = Ok _, He : encodeTreeAnnounce _ = Ok _ |- _ => eexists _, _; split; [exact Ha|split; [exact He|]] end.
  unfold send_message in *. unfold modify in *. congruence.
Qed.

Lemma own_ancestry s : tree_ok s -> te_nodeAddr <$> head (TreeState.ancestry s) = Some (TreeState.self s).
Proof.
  intros [_ _ [(E & _)|(p & r & _ & _ & _ & E & _)]]; destruct (TreeState.ancestry s) as [|e es]; try done;
    cbn in E; injection E as E _; cbn; by rewrite E.
Qed.
End Crossing.

(** What a router announces, its neighbour takes over: the message sent is
    accepted at the other end of the link, which then counts the router under the
    announced number and holds the announced path for its address, unless it has
    heard a newer one. *)
Lemma tree_announcement_crosses `{Noble, !HashLaws, !DhLaws, !SchnorrLaws} (cfgA cfgB : FipsRoutingConfig) (id : FipsIdentity)
    (i : nat) (q : AdjacentPeer) (rA rA' : FipsRouting) :
  identity_wf id -> tree_ok (treeState rA) -> TreeState.identity (treeState rA) = id ->
  fr_peers rA !! i = Some q -> established (get_bloom rA) q = true -> rc_strictClient cfgA = false ->
  sendTreeAnnounce cfgA i rA = (Ok tt, rA') ->
  exists payload, sent rA' = sent rA ++ [(i, LinkMessageType.TreeAnnounce, payload)] /\
    forall getPeers rB j p now, fr_peers rB !! j = Some p -> ap_pubkey p = publicKey id -> tree_ok (treeState rB) ->
      newer p (TreeState.sequence (treeState rA)) ->
      (forall e, JsMap.get_ (TreeState.peers (treeState rB)) (toHex (nodeAddr id)) = Some e -> pt_sequence e < TreeState.sequence (treeState rA)) ->
      exists b rB' p', handleTreeAnnounce cfgB getPeers j payload now rB = (Ok b, rB') /\
        fr_peers rB' !! j = Some p' /\ routingRoleSequence p' = Some (TreeState.sequence (treeState rA)) /\ clientOnly p' = false /\
        JsMap.get_ (TreeState.peers (treeState rB')) (toHex (nodeAddr id)) =
          Some (mkPeerTree (TreeState.sequence (treeState rA)) (TreeState.parent (treeState rA)) (TreeState.ancestry (treeState rA))).
Proof.
  intros Hid HtA EidA Eq Hest Hst Es. destruct (sendTreeAnnounce_run cfgA i q rA rA' Eq Hest Hst Es) as (a & encoded & Ea & Ee & ->).
  exists (subarray_from encoded 1). split; [done|]. intros getPeers rB j p now Ep Ekey HtB Hnew Hold.
  assert (Efields : ta_sequence a = TreeState.sequence (treeState rA) /\ ta_parent a = TreeState.parent (treeState rA) /\
    ta_ancestry a = TreeState.ancestry (treeState rA)).
  { unfold TreeState.announce, buildTreeAnnounce in Ea. result_inv. done. }
  destruct Efields as (E1 & E2 & E3).
  assert (Hown : te_nodeAddr <$> head (ta_ancestry a) = Some (nodeAddr id)).
  { rewrite E3, own_ancestry by done. unfold TreeState.self. by rewrite EidA. }
  assert (Hparent : len (ta_parent a) = 16).
  { rewrite E2. destruct HtA as [Hl Hp [(_ & -> & _)|(pp & rt & [Hin _] & _ & _ & _ & Hh & _)]]; [done|].
    destruct (path_ok_root _ (Hp pp Hin)) as (rr & _ & _ & _ & Hm). unfold addrs in Hh.
    destruct (pt_ancestry (snd pp)) as [|f fs]; [done|]. cbn in Hh. injection Hh as <-. apply Hm. left. }
  assert (Hdec : decodeTreeAnnouncePayload (subarray_from encoded 1) = Ok a).
  { pose proof Ee as Hlay. apply encodeTreeAnnounce_Ok in Hlay; [|done]. assert (Ehd : exists rest, encoded = z2b LinkMessageType.TreeAnnounce :: rest).
    { destruct Hlay as (_ & Hlay). unfold tree_layout in Hlay. apply lseq_Some in Hlay as (x1 & rest & Hx & _ & ->).
      apply field_Some in Hx as [_ ->]. by eexists. }
    destruct Ehd as [rest ->]. change (subarray_from (z2b LinkMessageType.TreeAnnounce :: rest) 1) with rest.
    by apply tree_codec. }
  assert (Ha : authentic p (subarray_from encoded 1) (nodeAddr id) a).
  { split; [done| |done|].
    - rewrite Ekey. apply (derive_peer id); [done|]. by left.
    - rewrite Ekey. unfold TreeState.announce in Ea. rewrite EidA, <- E3 in Ea. by eapply own_announce_verifies. }
  assert (La : len (nodeAddr id) = 16) by (destruct Hid as (_ & _ & _ & Hd); by apply len_deriveNodeAddr in Hd).
  rewrite <- E1 in Hnew, Hold. assert (Hv : ancestry_valid a) by (by apply decodeTreeAnnounce_Ok in Hdec as (_ & ? & _)).
  destruct (handleTreeAnnounce_accepts cfgB getPeers j p _ a (nodeAddr id) now rB Ep Ha Hnew HtB) as (b & rB' & Erun & Hs).
  pose proof (updatePeer_entry (treeState rB) (nodeAddr id) a now HtB La Hv Hold) as Hentry.
  inversion Hs as [sq n c ps st [_ Hps] Er]. cbn in *.
  destruct (Hps j (set_role p (clientSupported p) false (Some (ta_sequence a)))) as [o Ho];
    [by rewrite list_lookup_alter_eq, Ep|]. exists b. eexists _, _. split; [exact Erun|]. rewrite <- Er. cbn.
  split; [exact Ho|]. rewrite <- E1, <- E2, <- E3. by split_and!.
Qed.

(** ** Example

    Node 9 announces itself to node 5 as its neighbour. *)

#[local] Existing Instances Toy.noble Toy.hash_laws Toy.dh_laws Toy.schnorr_laws.

Definition demo_sender_node : FipsRouting := demo_node 9 [demo_adjacent 5 "p5"].
Definition demo_receiver_node : FipsRouting := demo_node 5 [demo_adjacent 9 "p9"; demo_adjacent 11 "p11"].

Definition demo_sent (m : ST FipsRouting unit) (r : FipsRouting) : bytes :=
  match sent (snd (m r)) with (_, _, payload) :: _ => payload | [] => [] end.

Definition demo_announcement : bytes := Eval vm_compute in demo_sent (sendTreeAnnounce (demo_routing_config 9) 0) demo_sender_node.

Lemma tree_announcement_crosses_witness : exists b r' p',
  handleTreeAnnounce (demo_routing_config 5) [0; 1]%nat 0 demo_announcement 7 demo_receiver_node = (Ok b, r') /\
  fr_peers r' !! 0%nat = Some p' /\ clientOnly p' = false.
Proof.
  assert (Es : sendTreeAnnounce (demo_routing_config 9) 0 demo_sender_node =
    (Ok tt, set_sent demo_sender_node [(0%nat, LinkMessageType.TreeAnnounce, demo_announcement)])) by (vm_compute; reflexivity).
  destruct (tree_announcement_crosses (demo_routing_config 9) (demo_routing_config 5) (demo_identity 9) 0 (demo_adjacent 5 "p5")
    demo_sender_node (set_sent demo_sender_node [(0%nat, LinkMessageType.TreeAnnounce, demo_announcement)])) as (payload & Ep & Hrun);
    [apply demo_identity_wf; vm_compute; reflexivity|apply tree_ok_new; vm_compute; reflexivity|done|done|vm_compute; reflexivity|done|exact Es|].
  pose proof (f_equal (fun l => match l with (_, p) :: _ => p | [] => [] end) Ep : demo_announcement = payload) as Ea.
  rewrite <- Ea in Hrun. clear Ep Ea.
  destruct (Hrun [0; 1]%nat demo_receiver_node 0%nat (demo_adjacent 9 "p9") 7) as
    (b & r' & p' & E & Ep' & _ & Ec & _);
    [done|done|apply tree_ok_new; vm_compute; reflexivity|intros last; discriminate|intros e Ee; discriminate Ee|].
  exists b, r', p'. exact (conj E (conj Ep' Ec)).
Defined.

Lemma neighbours_in_order_witness :
  let r' := snd (handleTreeAnnounce (demo_routing_config 5) [0; 1]%nat 0 demo_announcement 7 demo_receiver_node) in
  elected (treeState r') /\ exists p, fr_peers r' !! 0%nat = Some p /\ routingRoleSequence p = Some 1.
Proof.
  cbv zeta. split; [|eexists; split; vm_compute; reflexivity].
  destruct (neighbours_in_order (demo_routing_config 5) (demo_identity 5) 0 demo_receiver_node
    (snd (handleTreeAnnounce (demo_routing_config 5) [0; 1]%nat 0 demo_announcement 7 demo_receiver_node))
    (snd (handleTreeAnnounce (demo_routing_config 5) [0; 1]%nat 0 demo_announcement 7 demo_receiver_node))) as [He _];
    [vm_compute; reflexivity|done|apply rtc_once, NsTree|apply rtc_refl|exact He].
Defined.

Lemma tree_announcements_authentic_witness :
  exists p a addr, fr_peers demo_receiver_node !! 0%nat = Some p /\ authentic p demo_announcement addr a.
Proof.
  destruct (tree_announcements_authentic (demo_routing_config 5) [0; 1]%nat 0 demo_announcement 7 demo_receiver_node) as [E|(p & a & addr & q & Ep & Ha & _)].
  - apply (f_equal (fun r => TreeState.peers (treeState r))) in E. vm_compute in E. discriminate E.
  - exists p, a, addr. exact (conj Ep Ha).
Defined.
