(* ===== verification/Lookups.v ===== *)
(** * Lookups

    [node/FipsRouting.ts]: how a node answers, forwards and originates lookups,
    on the state of [Routing]. A forwarded request leaves a reverse path on which
    the response travels back. Handlers are cut at their [await]s: what follows a
    send is an operation of its own that takes the outcome. *)

From S2P Require Import Prelude Codec Crypto Toy NodeAddr Identity F64 Bloom Link Discovery.
From S2P Require Import FmpLink TreeState LearnedRoutes OriginLookups Peers BloomRouting Routing Announce.

(** [array.filter(f)] *)
Fixpoint filter_res {A} (f : A -> result bool) (xs : list A) : result (list A) :=
  match xs with
  | [] => Ok []
  | x :: xs => b ← f x; rest ← filter_res f xs; Ok (if (b : bool) then x :: rest else rest)
  end.

(** [array.map(f)] *)
Fixpoint map_res {A B} (f : A -> result B) (xs : list A) : result (list B) :=
  match xs with
  | [] => Ok []
  | x :: xs => y ← f x; ys ← map_res f xs; Ok (y :: ys)
  end.

(** The stores to a reverse path. *)
Definition set_rv_peer (i : nat) (rv : LookupReversePath) : LookupReversePath :=
  mkReverse i (rv_expiresAtMs rv) (forwardedNextHops rv) (rv_request rv).
Definition add_forwarded (keys : list string) (rv : LookupReversePath) : LookupReversePath :=
  mkReverse (rv_peer rv) (rv_expiresAtMs rv) (forwardedNextHops rv ∪ list_to_set keys) (rv_request rv).
Definition delete_forwarded (key : string) (rv : LookupReversePath) : LookupReversePath :=
  mkReverse (rv_peer rv) (rv_expiresAtMs rv) (forwardedNextHops rv ∖ {[key]}) (rv_request rv).

Definition alter_reverse (k : nat) (f : LookupReversePath -> LookupReversePath) : ST FipsRouting unit :=
  modify (fun r => set_reverses r (alter f k (reverses r))).

Definition dec_ttl (q : LookupRequest) : LookupRequest :=
  mkLookupRequest (lq_requestId q) (lq_target q) (lq_origin q) (lq_ttl q - 1) (lq_minMtu q) (lq_originCoords q).

Section Lookups.
Context `{Noble} (cfg : FipsRoutingConfig) (Math_pow : F64.t -> F64.t -> F64.t).
Context (getPeers : list nat) (getPeerByPubkey getPeerByNodeAddr : string -> option nat).
Let next_hop := nextHopFor cfg Math_pow getPeers getPeerByPubkey getPeerByNodeAddr.

Definition cacheCoordinates (nodeAddr : NodeAddr) (coords : list NodeAddr) : ST FipsRouting unit :=
  match coords with
  | [] => mret tt
  | first :: _ =>
      if negb (bytesEqual first nodeAddr) then mret tt else
      key ← lift (nodeAddrToHex nodeAddr);
      modify (fun r => set_coordCache r (JsMap.set_ (coordCache r) key coords))
  end.

Definition expired_path (nowMs : Z) (r : FipsRouting) (k : nat) : bool :=
  match reverses r !! k with Some rv => rv_expiresAtMs rv <=? nowMs | None => false end.

Definition pruneLookupReversePaths (nowMs : Z) : ST FipsRouting unit :=
  modify (fun r => set_reversePaths r (base.filter (fun e => expired_path nowMs r (snd e) = false) (lookupReversePaths r))).

Definition reserveLookupReversePath : ST FipsRouting unit :=
  r ← get;
  if len (lookupReversePaths r) <? MAX_LOOKUP_REVERSE_PATHS then mret tt else
  match lookupReversePaths r with
  | [] => mret tt
  | (oldest, _) :: _ => modify (fun r => set_reversePaths r (JsMap.delete_ (lookupReversePaths r) oldest))
  end.

(** The predicate on [fallbackPeers]. *)
Definition fallback_peer (r : FipsRouting) (source : nat) (request : LookupRequest) (i : nat) : result bool :=
  match fr_peers r !! i with
  | None => Ok false
  | Some p =>
      if bool_decide (i = source) || negb (established (get_bloom r) p) then Ok false else
      addr ← deriveNodeAddr (ap_pubkey p);
      tree ← is_tree_peer r addr;
      if negb (tree || bool_decide (rc_routingMode cfg = ReplyLearned)) then Ok false else
      hex ← nodeAddrToHex addr;
      origin ← nodeAddrToHex (lq_origin request);
      Ok (negb (bool_decide (hex = origin)) && (capacity r i >=? lq_minMtu request))
  end.

Definition fallbackPeers (r : FipsRouting) (source : nat) (request : LookupRequest) : result (list nat) :=
  peers ← filter_res (fallback_peer r source request) getPeers;
  Ok (take (Z.to_nat MAX_REPLY_LEARNED_LOOKUP_PEERS) peers).

(** [!existingReverse?.forwardedNextHops.has(peerNodeKey(nextHop))] *)
Definition not_forwarded (r : FipsRouting) (existing : option nat) (i : nat) : result bool :=
  match existing with
  | None => Ok true
  | Some k =>
      key ← peer_key (fr_peers r) i;
      Ok match reverses r !! k with Some rv => negb (bool_decide (key ∈ forwardedNextHops rv)) | None => true end
  end.

Definition canResolveLookupDirectly (nextHop : option nat) (hasFallbackPeer : bool) : bool :=
  bool_decide (nextHop = None) && negb hasFallbackPeer && rc_canResolve cfg.

(** What a forwarded request leaves under way: its reverse path and its key, the
    sends to await, and whether [resolveAndForwardLookup] was started. *)
Record Forwarding := mkForwarding { fw_key : string; fw_reverse : nat; fw_sends : list nat; fw_resolving : bool }.

Definition answer_lookup (source : nat) (request : LookupRequest) : ST FipsRouting unit :=
  r ← get;
  let targetCoords := coords cfg r in
  signed ← lift (lookupResponseProofBytes (lq_requestId request) (lq_target request) targetCoords);
  proof ← lift (signSchnorr (rc_identity cfg) (sha256 signed));
  payload ← lift (encodeLookupResponsePayload
    (mkLookupResponse (lq_requestId request) (lq_target request) (capacity r source) targetCoords proof));
  send_message source LinkMessageType.LookupResponse payload.

Definition new_reverse (source : nat) (reverseKey : string) (request : LookupRequest) (nowMs : Z) : ST FipsRouting nat :=
  r ← get;
  let k := length (reverses r) in
  modify (fun r => set_reverses r (reverses r ++ [mkReverse source (nowMs + LOOKUP_REVERSE_PATH_TTL_MS) ∅ (dec_ttl request)]));;
  reserveLookupReversePath;;
  modify (fun r => set_reversePaths r (JsMap.set_ (lookupReversePaths r) reverseKey k));;
  mret k.

Definition send_lookup (k : nat) (nextHops : list nat) : ST FipsRouting unit :=
  r ← get;
  keys ← lift (map_res (peer_key (fr_peers r)) nextHops);
  alter_reverse k (add_forwarded keys);;
  match reverses r !! k with
  | None => mret tt
  | Some rv =>
      encoded ← lift (encodeLookupRequestPayload (rv_request rv));
      for_each (fun i => send_message i LinkMessageType.LookupRequest encoded) nextHops
  end.

(** The part of [handleLookupRequest] for requests to pass on. *)
Definition forward_lookup (source : nat) (request : LookupRequest) (targetHex : string) (nowMs : Z) : ST FipsRouting (option Forwarding) :=
  reverseKey ← lift (lookupReverseKey (lq_requestId request) (lq_target request));
  pruneLookupReversePaths nowMs;;
  r ← get;
  let existing := JsMap.get_ (lookupReversePaths r) reverseKey in
  same ← lift match existing ≫= fun k => reverses r !! k with
              | None => Ok true
              | Some rv => a ← peer_key (fr_peers r) (rv_peer rv); b ← peer_key (fr_peers r) source; Ok (bool_decide (a = b))
              end;
  if negb same then mret None else
  (match existing with Some k => alter_reverse k (set_rv_peer source) | None => mret tt end);;
  directOrLearned ← next_hop targetHex (Some source) (lq_minMtu request) nowMs;
  r ← get;
  fallback ← lift (match directOrLearned with Some _ => Ok [] | None => fallbackPeers r source request end);
  nextHops ← lift (filter_res (not_forwarded r existing) (match directOrLearned with Some i => [i] | None => fallback end));
  let resolving := canResolveLookupDirectly directOrLearned (0 <? len fallback) in
  if (len nextHops =? 0) && negb resolving then mret None else
  k ← (match existing with Some k => mret k | None => new_reverse source reverseKey request nowMs end);
  (if len nextHops =? 0 then mret tt else send_lookup k nextHops);;
  mret (Some (mkForwarding reverseKey k nextHops resolving)).

Definition handleLookupRequest (source : nat) (request : LookupRequest) (nowMs : Z) : ST FipsRouting (option Forwarding) :=
  r ← get;
  targetHex ← lift (nodeAddrToHex (lq_target request));
  if capacity r source <? lq_minMtu request then mret None else
  if bytesEqual (lq_target request) (nodeAddr (rc_identity cfg)) then answer_lookup source request;; mret None else
  if negb (rc_forwarding cfg) || (lq_ttl request =? 0) then mret None else
  forward_lookup source request targetHex nowMs.

(** Once every send is settled: [rejected] tells which were rejected. *)
Definition lookup_settled (fw : Forwarding) (rejected : nat -> bool) : ST FipsRouting unit :=
  if len (fw_sends fw) =? 0 then mret tt else
  r ← get;
  for_each (fun i => if rejected i then key ← lift (peer_key (fr_peers r) i); alter_reverse (fw_reverse fw) (delete_forwarded key) else mret tt)
    (fw_sends fw);;
  if forallb rejected (fw_sends fw) then
    r ← get;
    (match reverses r !! fw_reverse fw with
     | Some rv => if decide (forwardedNextHops rv = ∅)
                  then modify (fun r => set_reversePaths r (JsMap.delete_ (lookupReversePaths r) (fw_key fw))) else mret tt
     | None => mret tt
     end);;
    throw (Error "failed to forward lookup request")
  else mret tt.

(** [try { await sendLinkMessage(..., encodeLookupRequestPayload(...)) }] for one
    next hop; the result is the hop if a message is under way. *)
Definition try_forward (k i : nat) (key : string) : ST FipsRouting (option nat) :=
  alter_reverse k (add_forwarded [key]);;
  r ← get;
  match reverses r !! k with
  | None => mret None
  | Some rv =>
      match encodeLookupRequestPayload (rv_request rv) with
      | Ok encoded => send_message i LinkMessageType.LookupRequest encoded;; mret (Some i)
      | Throw _ => alter_reverse k (delete_forwarded key);; mret None
      end
  end.

(** The [catch] branch when that message fails. *)
Definition forward_failed (k : nat) (key : string) : ST FipsRouting unit := alter_reverse k (delete_forwarded key).

(** [resolveAndForwardLookup] after the route was resolved. *)
Definition resolved_forward (targetHex reverseKey : string) (k source : nat) (nowMs : Z) : ST FipsRouting (option nat) :=
  r ← get;
  match (if decide (JsMap.get_ (lookupReversePaths r) reverseKey = Some k) then reverses r !! k else None) with
  | None => mret None
  | Some rv =>
      nextHop ← next_hop targetHex (Some source) (lq_minMtu (rv_request rv)) nowMs;
      match nextHop with
      | None => mret None
      | Some i =>
          r ← get;
          key ← lift (peer_key (fr_peers r) i);
          if bool_decide (key ∈ forwardedNextHops rv) then mret None else try_forward k i key
      end
  end.

(** The predicate on the reverse paths that are replayed to [peerKey]. *)
Definition replayable (r : FipsRouting) (i : nat) (peerKey : string) (k : nat) : result bool :=
  match reverses r !! k with
  | None => Ok false
  | Some rv =>
      target ← nodeAddrToHex (lq_target (rv_request rv));
      if negb (bool_decide (target = peerKey)) then Ok false else
      back ← peer_key (fr_peers r) (rv_peer rv);
      Ok (negb (bool_decide (back = peerKey)) && negb (bool_decide (peerKey ∈ forwardedNextHops rv))
          && (capacity r i >=? lq_minMtu (rv_request rv)))
  end.

Definition replayPendingLookupsFor (i : nat) (nowMs : Z) : ST FipsRouting unit :=
  r ← get;
  match fr_peers r !! i with
  | None => mret tt
  | Some p =>
      if negb (established (get_bloom r) p) then mret tt else
      peerKey ← lift (peerNodeKey p);
      if negb (bool_decide (getPeerByNodeAddr peerKey = Some i)) then mret tt else
      pruneLookupReversePaths nowMs;;
      r ← get;
      ks ← lift (filter_res (replayable r i peerKey) (map snd (lookupReversePaths r)));
      for_each (fun k => try_forward k i peerKey;; mret tt) ks
  end.

(** ** Responses *)

Definition with_pathMtu (p : LookupResponse) (mtu : Z) : LookupResponse :=
  mkLookupResponse (lr_requestId p) (lr_target p) mtu (lr_targetCoords p) (lr_proof p).

Definition forwardLookupResponse (source : nat) (payload : bytes) (nowMs : Z) : ST FipsRouting unit :=
  response ← lift (decodeLookupResponse payload);
  reverseKey ← lift (lookupReverseKey (lr_requestId response) (lr_target response));
  pruneLookupReversePaths nowMs;;
  r ← get;
  match JsMap.get_ (lookupReversePaths r) reverseKey ≫= fun k => reverses r !! k with
  | None => lift (nodeAddrToHex (lr_target response));; mret tt
  | Some rv =>
      if bool_decide (rv_peer rv = source) then lift (nodeAddrToHex (lr_target response));; mret tt else
      let arrived := Z.min (lr_pathMtu response) (capacity r source) in
      let pathMtu := Z.min arrived (capacity r (rv_peer rv)) in
      if pathMtu <? lq_minMtu (rv_request rv) then mret tt else
      cacheCoordinates (lr_target response) (lr_targetCoords response);;
      hex ← lift (nodeAddrToHex (lr_target response));
      learnReverseRoute cfg hex source (Some arrived) nowMs;;
      modify (fun r => set_reversePaths r (JsMap.delete_ (lookupReversePaths r) reverseKey));;
      encoded ← lift (encodeLookupResponsePayload (with_pathMtu response pathMtu));
      send_message (rv_peer rv) LinkMessageType.LookupResponse encoded
  end.

(** Whether the response answers for the key the lookup is for, if it is known. *)
Definition proof_valid (l : Lookup) (response : LookupResponse) : result bool :=
  match targetPubkey l with
  | None => Ok true
  | Some pk =>
      signed ← lookupResponseProofBytes (lr_requestId response) (lr_target response) (lr_targetCoords response);
      Ok (verifySchnorr (lr_proof response) (sha256 signed) (subarray_from pk 1))
  end.

Definition zoom_lookups {A} (m : ST OriginLookupRegistry A) : ST FipsRouting A := zoom originLookups (fun o r => set_originLookups r o) m.

Definition handleOriginLookupResponse (source : nat) (payload : bytes) (nowMs : Z) : ST FipsRouting bool :=
  response ← lift (decodeLookupResponse payload);
  r ← get;
  match findRequest (originLookups r) (lr_requestId response) with
  | None => mret false
  | Some i =>
      match lookups (originLookups r) !! i with
      | None => mret true
      | Some pending =>
          hex ← lift (nodeAddrToHex (lr_target response));
          if negb (bool_decide (hex = targetHex pending)) then mret true else
          let arrived := Z.min (lr_pathMtu response) (capacity r source) in
          if arrived <? minMtu pending then mret true else
          valid ← lift (proof_valid pending response);
          if negb valid then mret true else
          if negb (match lr_targetCoords response with c :: _ => bytesEqual c (lr_target response) | [] => false end) then mret true else
          cacheCoordinates (lr_target response) (lr_targetCoords response);;
          learnReverseRoute cfg (targetHex pending) source (Some arrived) nowMs;;
          r ← get;
          key ← lift (peer_key (fr_peers r) source);
          zoom_lookups (complete_ i (Some key));;
          mret true
      end
  end.

(** ** Lookups of the node's own *)

Definition origin_peer (r : FipsRouting) (excluded : option nat) (mtu : Z) (i : nat) : result bool :=
  match fr_peers r !! i with
  | None => Ok false
  | Some p =>
      if bool_decide (Some i = excluded) || negb (established (get_bloom r) p) || (capacity r i <? mtu) then Ok false else
      if bool_decide (rc_routingMode cfg = ReplyLearned) then Ok true else
      if bool_decide (Some i = default_peer cfg getPeerByPubkey) then Ok true else
      addr ← deriveNodeAddr (ap_pubkey p);
      is_tree_peer r addr
  end.

Definition originLookupPeers (r : FipsRouting) (excluded : option nat) (mtu : Z) : result (list nat) :=
  peers ← filter_res (origin_peer r excluded mtu) getPeers;
  Ok (take (Z.to_nat MAX_REPLY_LEARNED_LOOKUP_PEERS) peers).

(** [{ target, origin, ttl, minMtu, originCoords }], which has no request id yet. *)
Definition origin_request (r : FipsRouting) (target : NodeAddr) (mtu : Z) : LookupRequest :=
  mkLookupRequest 0 target (nodeAddr (rc_identity cfg)) LOOKUP_ORIGIN_TTL mtu (coords cfg r).

Definition with_requestId (q : LookupRequest) (id : Z) : LookupRequest :=
  mkLookupRequest id (lq_target q) (lq_origin q) (lq_ttl q) (lq_minMtu q) (lq_originCoords q).

(** The call of [send] in [retryOriginLookup] for the lookup [i]. *)
Definition send_origin_lookup (i : nat) (request : LookupRequest) (excluded : option nat) : ST FipsRouting unit :=
  r ← get;
  match lookups (originLookups r) !! i with
  | None => mret tt
  | Some pending =>
      encoded ← lift (encodeLookupRequestPayload (with_requestId request (requestId pending)));
      peers ← lift (originLookupPeers r excluded (minMtu pending));
      for_each (fun j => send_message j LinkMessageType.LookupRequest encoded) peers
  end.

(** [ensureFirstContactRoute] up to the start of its retry loop: the lookup it
    awaits and, where that is a new one, the request to send for it. *)
Definition ensureFirstContactRoute (target : NodeAddr) (targetHex : string) (targetPubkey : bytes) (draws : nat -> result bytes)
    (nowMs : Z) : ST FipsRouting (nat * option LookupRequest) :=
  r ← get;
  match get_lookup (originLookups r) targetHex with
  | Some i => mret (i, None)
  | None =>
      i ← zoom_lookups (create targetHex (Some targetPubkey) None draws nowMs LOOKUP_ORIGIN_TIMEOUT_MS);
      r ← get; mret (i, Some (origin_request r target 0))
  end.

(** [refreshTransitRoute], the same. *)
Definition refreshTransitRoute (target : NodeAddr) (targetHex : string) (previousHop : option nat) (mtu : Z)
    (draws : nat -> result bytes) (nowMs : Z) : ST FipsRouting (nat * option LookupRequest) :=
  r ← get;
  match get_lookup (originLookups r) targetHex with
  | Some i => mret (i, None)
  | None =>
      peers ← lift (originLookupPeers r previousHop mtu);
      throw_when (len peers =? 0) (Error "no route");;
      i ← zoom_lookups (create targetHex None (Some mtu) draws nowMs LOOKUP_ORIGIN_TIMEOUT_MS);
      r ← get; mret (i, Some (origin_request r target mtu))
  end.

(** Once the lookup it awaits is answered: that one's next hop, or the whole again
    where it was for narrower frames. *)
Definition refresh_awaited (l : Lookup) (mtu : Z) : option (option string) :=
  if minMtu l >=? mtu then Some (lk_nextHop l) else None.

(** ** Messages *)

Definition LookupRequest_message (assertNodeAllowed : NodeAddr -> result unit) (source : nat) (payload : bytes) (nowMs : Z)
    : ST FipsRouting (option Forwarding) :=
  request ← lift (decodeLookupRequest payload);
  lift (assertNodeAllowed (lq_origin request));;
  lift (assertNodeAllowed (lq_target request));;
  r ← get;
  hex ← lift (nodeAddrToHex (lq_target request));
  if bool_decide (targetHex <$> (findRequest (originLookups r) (lq_requestId request) ≫= fun i => lookups (originLookups r) !! i) = Some hex)
  then mret None else handleLookupRequest source request nowMs.

Definition LookupResponse_message (source : nat) (payload : bytes) (nowMs : Z) : ST FipsRouting unit :=
  mine ← handleOriginLookupResponse source payload nowMs;
  if (mine : bool) then mret tt else
  if rc_forwarding cfg then forwardLookupResponse source payload nowMs else mret tt.
End Lookups.

(** ** What a choice of next hops changes and gives *)

(** A state whose learned routes may differ. *)
Definition learns (r r' : FipsRouting) : Prop := exists t, r' = set_learnedRoutes r t.

#[export] Instance learns_preorder : PreOrder learns.
Proof.
  split.
  - intros r. exists (learnedRoutes r). by destruct r.
  - intros r1 r2 r3 [t1 ->] [t2 ->]. by exists t2.
Qed.

(** An established link other than the source's that carries [mtu] bytes. *)
Record hop_ok (r : FipsRouting) (source : nat) (mtu : Z) (i : nat) : Prop := {
  ho_other : i <> source;
  ho_link : exists p, fr_peers r !! i = Some p /\ established (get_bloom r) p = true;
  ho_capacity : mtu <= capacity r i;
}.

Section Hops.
Context `{Noble} (cfg : FipsRoutingConfig) (Math_pow : F64.t -> F64.t -> F64.t).
Context (getPeers : list nat) (getPeerByPubkey getPeerByNodeAddr : string -> option nat).
Let next_hop := nextHopFor cfg Math_pow getPeers getPeerByPubkey getPeerByNodeAddr.

Lemma learns_next_hop dest excluded mtu nowMs : respects learns (next_hop dest excluded mtu nowMs).
Proof.
  unfold next_hop, nextHopFor, learned_hop. solve_respects. apply respects_zoom. intros t r. by exists t.
Qed.

Lemma next_hop_fit dest excluded mtu nowMs r i r' :
  next_hop dest excluded mtu nowMs r = (Ok (Some i), r') -> fit dest excluded mtu nowMs r' i.
Proof.
  unfold next_hop, nextHopFor. rewrite ST_get_bind. intros E. apply ST_bind_inv in E as (direct & r1 & E1 & E).
  unfold lift in E1. injection E1 as E1 <-. destruct direct as [j|].
  { injection E as <- <-. by eapply usable_fit. }
  apply ST_bind_inv in E as (learned & r2 & _ & E). rewrite ST_get_bind in E.
  destruct (truthy learned) as [hex|]; [unfold lift in E; injection E as E <-; by eapply usable_fit|].
  apply ST_bind_inv in E as (tree & r3 & E3 & E). unfold lift in E3. injection E3 as E3 <-.
  destruct (truthy tree) as [hex|]; [unfold lift in E; injection E as E <-; by eapply usable_fit|].
  unfold lift in E. injection E as E <-. unfold default_hop in E. destruct (default_peer _ _) as [d|]; [|done].
  apply result_bind_ok in E as (key & _ & E). by eapply usable_fit.
Qed.

Lemma fit_hop dest source mtu nowMs r i : fit dest (Some source) mtu nowMs r i -> hop_ok r source mtu i.
Proof.
  intros [Hu _]. unfold usable_peer in Hu. destruct (fr_peers r !! i) as [p|] eqn:Ep; [|done].
  unfold usable_carrier in Hu. apply andb_true_iff in Hu as [Hu Hcap]. apply andb_true_iff in Hu as [Hest Hne].
  split.
  - intros ->. cbn in Hne. rewrite Ep in Hne. cbn in Hne. rewrite bool_decide_eq_true_2 in Hne by done. done.
  - by exists p.
  - unfold capacity. rewrite Ep. rewrite Z.geb_leb in Hcap. by apply Z.leb_le.
Qed.

Lemma filter_res_elem {A} (f : A -> result bool) xs ys x : filter_res f xs = Ok ys -> x ∈ ys -> x ∈ xs /\ f x = Ok true.
Proof.
  revert ys. induction xs as [|y xs IH]; cbn [filter_res]; intros ys E Hx.
  - injection E as <-. by apply not_elem_of_nil in Hx.
  - apply result_bind_ok in E as (b & Eb & E). apply result_bind_ok in E as (rest & Er & [= <-]). destruct b.
    + apply elem_of_cons in Hx as [->|Hx]; [split; [left|done]|]. destruct (IH rest Er Hx). split; [by right|done].
    + destruct (IH rest Er Hx). split; [by right|done].
Qed.

Lemma fallback_hop r source q i : fallback_peer cfg r source q i = Ok true -> hop_ok r source (lq_minMtu q) i.
Proof.
  unfold fallback_peer. destruct (fr_peers r !! i) as [p|] eqn:Ep; [|done].
  destruct (bool_decide_reflect (i = source)) as [|Hne]; [done|]. destruct (established (get_bloom r) p) eqn:Est; [|done].
  cbn [orb negb]. intros E. apply result_bind_ok in E as (a & _ & E). apply result_bind_ok in E as (t & _ & E).
  destruct (negb _); [done|]. apply result_bind_ok in E as (h & _ & E). apply result_bind_ok in E as (o & _ & [= E]).
  apply andb_true_iff in E as [_ Hc]. rewrite Z.geb_leb in Hc. split; [done|by exists p|by apply Z.leb_le].
Qed.

Lemma fallbackPeers_hops r source q ps : fallbackPeers cfg getPeers r source q = Ok ps -> Forall (hop_ok r source (lq_minMtu q)) ps.
Proof.
  unfold fallbackPeers. intros E. apply result_bind_ok in E as (all & Ea & [= <-]). apply Forall_forall. intros i Hi.
  assert (Hin : i ∈ all) by (by eapply elem_of_sublist; [exact Hi|apply sublist_take]).
  destruct (filter_res_elem _ _ _ i Ea Hin) as [_ Hf]. by apply fallback_hop.
Qed.
End Hops.

(** ** The reverse paths *)

(** The paths refer to distinct objects of the store, each under the key of its
    request. *)
Record paths_ok (r : FipsRouting) : Prop := {
  po_keys : JsMap.wf (lookupReversePaths r);
  po_size : len (lookupReversePaths r) <= MAX_LOOKUP_REVERSE_PATHS;
  po_objects : forall key k, JsMap.get_ (lookupReversePaths r) key = Some k -> (k < length (reverses r))%nat;
  po_distinct : forall key key' k, JsMap.get_ (lookupReversePaths r) key = Some k -> JsMap.get_ (lookupReversePaths r) key' = Some k -> key = key';
}.

(** The path under [key] that has not expired. *)
Definition live_path (nowMs : Z) (r : FipsRouting) (key : string) : option nat :=
  JsMap.get_ (base.filter (fun e => expired_path nowMs r (snd e) = false) (lookupReversePaths r)) key.

Definition pruned (nowMs : Z) (r : FipsRouting) : FipsRouting :=
  set_reversePaths r (base.filter (fun e => expired_path nowMs r (snd e) = false) (lookupReversePaths r)).

Lemma get_filter {V} (P : string * V -> Prop) `{!forall e, Decision (P e)} (m : list (string * V)) k v :
  JsMap.wf m -> JsMap.get_ (base.filter P m) k = Some v -> JsMap.get_ m k = Some v.
Proof. intros Hm Hg%JsMap.get_elem. apply list_elem_of_filter in Hg as [_ Hg]. by apply JsMap.elem_get. Qed.

Lemma pruned_ok nowMs r : paths_ok r -> paths_ok (pruned nowMs r).
Proof.
  intros [Hk Hs Ho Hd]. set (P := fun e : string * nat => expired_path nowMs r (snd e) = false).
  assert (Hget : forall key k, JsMap.get_ (base.filter P (lookupReversePaths r)) key = Some k -> JsMap.get_ (lookupReversePaths r) key = Some k)
    by (intros key k; by apply get_filter).
  split; cbn.
  - by apply JsMap.wf_filter.
  - pose proof (JsMap.length_filter_le P (lookupReversePaths r)). unfold len, P in *. lia.
  - intros key k Hg%Hget. by eapply Ho.
  - intros key key' k Hg%Hget Hg'%Hget. by eapply Hd.
Qed.

(** The map with room for one more path. *)
Definition reserved (m : list (string * nat)) : list (string * nat) :=
  if len m <? MAX_LOOKUP_REVERSE_PATHS then m
  else match m with [] => [] | (oldest, _) :: _ => JsMap.delete_ m oldest end.

Lemma reserve_run r : reserveLookupReversePath r = (Ok tt, set_reversePaths r (reserved (lookupReversePaths r))).
Proof.
  unfold reserveLookupReversePath, reserved. rewrite ST_get_bind. destruct (_ <? _); [by destruct r|].
  destruct (lookupReversePaths r) as [|[o k] m] eqn:E; [by destruct r; cbn in *; subst|]. unfold modify. by rewrite E.
Qed.

Lemma reserved_facts m : JsMap.wf m -> len m <= MAX_LOOKUP_REVERSE_PATHS ->
  JsMap.wf (reserved m) /\ len (reserved m) < MAX_LOOKUP_REVERSE_PATHS /\
  forall key k, JsMap.get_ (reserved m) key = Some k -> JsMap.get_ m key = Some k.
Proof.
  intros Hm Hl. unfold reserved. destruct (Z.ltb_spec (len m) MAX_LOOKUP_REVERSE_PATHS) as [Hlt|Hge]; [done|].
  destruct m as [|[o k0] m]; [exfalso; by vm_compute in Hge|].
  split; [by apply JsMap.wf_delete|]. split.
  - unfold JsMap.delete_. rewrite filter_cons. cbn [fst]. rewrite decide_False by (intros Hn; by apply Hn).
    pose proof (JsMap.length_filter_le (fun p : string * nat => p.1 <> o) m). unfold len in *. cbn in *. lia.
  - intros key k. destruct (decide (o = key)) as [<-|Hne]; [by rewrite JsMap.get_delete_eq|by rewrite JsMap.get_delete_ne].
Qed.

(** Adding a path to a new object. *)
Lemma added_ok r key rv : paths_ok r ->
  paths_ok (set_reversePaths (set_reverses r (reverses r ++ [rv])) (JsMap.set_ (reserved (lookupReversePaths r)) key (length (reverses r)))).
Proof.
  intros [Hk Hs Ho Hd]. destruct (reserved_facts (lookupReversePaths r) Hk Hs) as (Hw & Hl & Hg).
  assert (Hget : forall key' k, JsMap.get_ (JsMap.set_ (reserved (lookupReversePaths r)) key (length (reverses r))) key' = Some k ->
    key' = key /\ k = length (reverses r) \/ key' <> key /\ JsMap.get_ (lookupReversePaths r) key' = Some k).
  { intros key' k. destruct (decide (key = key')) as [<-|Hne].
    - rewrite JsMap.get_set_eq. intros [= <-]. by left.
    - rewrite JsMap.get_set_ne by done. intros E%Hg. right. by split. }
  split; cbn.
  - by apply JsMap.wf_set.
  - unfold len in *. rewrite JsMap.length_set. destruct (JsMap.has_ _ _); lia.
  - intros key' k [[_ ->]|[_ E%Ho]]%Hget; rewrite length_app; cbn; lia.
  - intros key1 key2 k [[-> ->]|[N1 E1]]%Hget [[-> E2]|[N2 E2]]%Hget; try done.
    + apply Ho in E2. lia.
    + apply Ho in E1. lia.
    + by eapply Hd.
Qed.

(** The invariant as a relation, for programs that maintain it. *)
Lemma no_paths_ok r : lookupReversePaths r = [] -> paths_ok r.
Proof. intros E. split; rewrite E; [constructor|vm_compute; discriminate|done|done]. Qed.

Definition maintains (r r' : FipsRouting) : Prop := paths_ok r -> paths_ok r'.

#[export] Instance maintains_preorder : PreOrder maintains.
Proof. split; [by intros r Hr|]. intros a b c Hab Hbc Ha. by apply Hbc, Hab. Qed.

Lemma same_paths_ok r r' : lookupReversePaths r' = lookupReversePaths r -> length (reverses r') = length (reverses r) -> maintains r r'.
Proof. intros E1 E2 [Hk Hs Ho Hd]. split; rewrite ?E1, ?E2; done. Qed.

Lemma deleted_ok r key : maintains r (set_reversePaths r (JsMap.delete_ (lookupReversePaths r) key)).
Proof.
  intros [Hk Hs Ho Hd]. assert (Hget : forall key' k, JsMap.get_ (JsMap.delete_ (lookupReversePaths r) key) key' = Some k -> JsMap.get_ (lookupReversePaths r) key' = Some k).
  { intros key' k. destruct (decide (key = key')) as [<-|Hne]; [by rewrite JsMap.get_delete_eq|by rewrite JsMap.get_delete_ne]. }
  split; cbn.
  - by apply JsMap.wf_delete.
  - pose proof (len_delete_le (lookupReversePaths r) key). lia.
  - intros key' k Hg%Hget. by eapply Ho.
  - intros key1 key2 k Hg%Hget Hg'%Hget. by eapply Hd.
Qed.

Lemma maintains_message i ty payload : respects maintains (send_message i ty payload).
Proof. intros r. by apply same_paths_ok. Qed.

Lemma maintains_alter k f : respects maintains (alter_reverse k f).
Proof. intros r. apply same_paths_ok; [done|]. apply length_alter. Qed.

Lemma maintains_prune nowMs : respects maintains (pruneLookupReversePaths nowMs).
Proof. intros r Hr. by apply pruned_ok. Qed.

Lemma maintains_learned (m : ST LearnedRouteTable unit) : respects maintains (zoom learnedRoutes (fun t r => set_learnedRoutes r t) m).
Proof. apply respects_zoom. intros t r. by apply same_paths_ok. Qed.

Lemma maintains_lookups {A} (m : ST OriginLookupRegistry A) : respects maintains (zoom_lookups m).
Proof. apply respects_zoom. intros t r. by apply same_paths_ok. Qed.

Lemma maintains_delete key : respects maintains (modify (fun r => set_reversePaths r (JsMap.delete_ (lookupReversePaths r) key))).
Proof. intros r. apply deleted_ok. Qed.

Lemma maintains_coords f : respects maintains (modify (fun r => set_coordCache r (f r))).
Proof. intros r. by apply same_paths_ok. Qed.

#[export] Hint Resolve maintains_message maintains_alter maintains_prune maintains_learned maintains_lookups maintains_delete maintains_coords : respects.

Section Maintain.
Context `{Noble} (cfg : FipsRoutingConfig) (Math_pow : F64.t -> F64.t -> F64.t).
Context (getPeers : list nat) (getPeerByPubkey getPeerByNodeAddr : string -> option nat).
Let next_hop := nextHopFor cfg Math_pow getPeers getPeerByPubkey getPeerByNodeAddr.

Lemma maintains_next_hop dest excluded mtu nowMs : respects maintains (next_hop dest excluded mtu nowMs).
Proof. intros r. destruct (learns_next_hop cfg Math_pow getPeers getPeerByPubkey getPeerByNodeAddr dest excluded mtu nowMs r) as [t E]. unfold next_hop. rewrite E. by apply same_paths_ok. Qed.

Lemma maintains_cache a cs : respects maintains (cacheCoordinates a cs).
Proof. unfold cacheCoordinates. solve_respects. Qed.

Lemma maintains_learn dest i mtu nowMs : respects maintains (learnReverseRoute cfg dest i mtu nowMs).
Proof. unfold learnReverseRoute. solve_respects. Qed.

Lemma new_reverse_run source key q nowMs r :
  new_reverse source key q nowMs r = (Ok (length (reverses r)),
    set_reversePaths (set_reverses r (reverses r ++ [mkReverse source (nowMs + LOOKUP_REVERSE_PATH_TTL_MS) ∅ (dec_ttl q)]))
      (JsMap.set_ (reserved (lookupReversePaths r)) key (length (reverses r)))).
Proof. unfold new_reverse. rewrite ST_get_bind, ST_modify_bind, (ST_bind_ok _ _ _ _ _ (reserve_run _)), ST_modify_bind. done. Qed.

Lemma maintains_new source key q nowMs : respects maintains (new_reverse source key q nowMs).
Proof. intros r Hr. rewrite new_reverse_run. by apply added_ok. Qed.

Lemma maintains_send k hops : respects maintains (send_lookup k hops).
Proof. unfold send_lookup. solve_respects. apply respects_for_each; [apply _|]. intros i. auto with respects. Qed.

Lemma maintains_handle source q nowMs :
  respects maintains (handleLookupRequest cfg Math_pow getPeers getPeerByPubkey getPeerByNodeAddr source q nowMs).
Proof.
  unfold handleLookupRequest, answer_lookup, forward_lookup. fold next_hop.
  solve_respects; auto using maintains_next_hop, maintains_new, maintains_send with respects typeclass_instances.
Qed.

Lemma maintains_settled fw rejected : respects maintains (lookup_settled fw rejected).
Proof. unfold lookup_settled. solve_respects. apply respects_for_each; [apply _|]. intros i. solve_respects. Qed.

Lemma maintains_try k i key : respects maintains (try_forward k i key).
Proof. unfold try_forward. solve_respects. Qed.

Lemma maintains_resolved hex key k source nowMs :
  respects maintains (resolved_forward cfg Math_pow getPeers getPeerByPubkey getPeerByNodeAddr hex key k source nowMs).
Proof. unfold resolved_forward. fold next_hop. solve_respects; auto using maintains_next_hop, maintains_try. Qed.

Lemma maintains_replay i nowMs : respects maintains (replayPendingLookupsFor getPeerByNodeAddr i nowMs).
Proof.
  unfold replayPendingLookupsFor. solve_respects. apply respects_for_each; [apply _|]. intros k.
  apply respects_bind; [apply _|apply maintains_try|intros ?; auto with respects typeclass_instances].
Qed.

Lemma maintains_response source payload nowMs : respects maintains (forwardLookupResponse cfg source payload nowMs).
Proof. unfold forwardLookupResponse. solve_respects; auto using maintains_cache, maintains_learn. Qed.

Lemma maintains_origin source payload nowMs : respects maintains (handleOriginLookupResponse cfg source payload nowMs).
Proof. unfold handleOriginLookupResponse. solve_respects; auto using maintains_cache, maintains_learn. Qed.
End Maintain.

(** ** What a forwarded request does *)

Section Forward.
Context `{Noble} (cfg : FipsRoutingConfig) (Math_pow : F64.t -> F64.t -> F64.t).
Context (getPeers : list nat) (getPeerByPubkey getPeerByNodeAddr : string -> option nat).
Let next_hop := nextHopFor cfg Math_pow getPeers getPeerByPubkey getPeerByNodeAddr.

(** The messages that carry [encoded] to [hops]. *)
Definition lookup_messages (hops : list nat) (encoded : bytes) : list (nat * Z * bytes) :=
  map (fun i => (i, LinkMessageType.LookupRequest, encoded)) hops.

Lemma send_messages_run ty payload hops r :
  for_each (fun i => send_message i ty payload) hops r = (Ok tt, set_sent r (sent r ++ map (fun i => (i, ty, payload)) hops)).
Proof.
  revert r. induction hops as [|i hops IH]; intros r; cbn [for_each map].
  - rewrite app_nil_r. by destruct r.
  - rewrite (ST_bind_ok (send_message i ty payload) _ r tt _ eq_refl), IH. cbn. by rewrite <- app_assoc.
Qed.

(** The requests are sent and recorded; where that fails nothing is sent. *)
Lemma send_lookup_run k hops r rv res r' : reverses r !! k = Some rv -> send_lookup k hops r = (res, r') ->
  match res with
  | Ok _ => exists keys encoded, map_res (peer_key (fr_peers r)) hops = Ok keys /\
      encodeLookupRequestPayload (rv_request rv) = Ok encoded /\
      r' = set_sent (set_reverses r (alter (add_forwarded keys) k (reverses r))) (sent r ++ lookup_messages hops encoded)
  | Throw _ => sent r' = sent r
  end.
Proof.
  intros Ek. unfold send_lookup. rewrite ST_get_bind. destruct (map_res _ hops) as [keys|e]; [|by intros [= <- <-]].
  rewrite (ST_lift_bind _ _ _ _ eq_refl). unfold alter_reverse. rewrite ST_modify_bind, Ek.
  destruct (encodeLookupRequestPayload (rv_request rv)) as [encoded|e]; [|by intros [= <- <-]].
  rewrite (ST_lift_bind _ _ _ _ eq_refl), send_messages_run. intros [= <- <-]. by exists keys, encoded.
Qed.

(** How the reverse path of the forwarded request comes from the one there was. *)
Definition extends_path (source : nat) (q : LookupRequest) (nowMs : Z) (old : option LookupReversePath) (keys : list string)
    (rv : LookupReversePath) : Prop :=
  rv_peer rv = source /\
  match old with
  | Some rv0 => rv_request rv = rv_request rv0 /\ rv_expiresAtMs rv = rv_expiresAtMs rv0 /\
      forwardedNextHops rv = forwardedNextHops rv0 ∪ list_to_set keys /\ (forall key, key ∈ keys -> key ∉ forwardedNextHops rv0)
  | None => rv_request rv = mkLookupRequest (lq_requestId q) (lq_target q) (lq_origin q) (lq_ttl q - 1) (lq_minMtu q) (lq_originCoords q) /\
      rv_expiresAtMs rv = nowMs + LOOKUP_REVERSE_PATH_TTL_MS /\ forwardedNextHops rv = list_to_set keys
  end.

Record forwarded (source : nat) (q : LookupRequest) (nowMs : Z) (r r' : FipsRouting) (fw : Forwarding) : Prop := {
  fd_key : lookupReverseKey (lq_requestId q) (lq_target q) = Ok (fw_key fw);
  fd_path : JsMap.get_ (lookupReversePaths r') (fw_key fw) = Some (fw_reverse fw);
  fd_hops : Forall (hop_ok r source (lq_minMtu q)) (fw_sends fw);
  fd_reverse : exists rv keys, reverses r' !! fw_reverse fw = Some rv /\
    map_res (peer_key (fr_peers r)) (fw_sends fw) = Ok keys /\
    extends_path source q nowMs (live_path nowMs r (fw_key fw) ≫= fun k => reverses r !! k) keys rv /\
    (fw_sends fw = [] /\ sent r' = sent r \/
     exists encoded, encodeLookupRequestPayload (rv_request rv) = Ok encoded /\ sent r' = sent r ++ lookup_messages (fw_sends fw) encoded);
}.

Lemma not_forwarded_keys r k rv hops all keys : reverses r !! k = Some rv ->
  filter_res (not_forwarded r (Some k)) all = Ok hops -> map_res (peer_key (fr_peers r)) hops = Ok keys ->
  forall key, key ∈ keys -> key ∉ forwardedNextHops rv.
Proof.
  intros Ek. revert hops keys. induction all as [|i all IH]; cbn [filter_res]; intros hops keys E Em key Hkey.
  - injection E as <-. cbn in Em. injection Em as <-. by apply not_elem_of_nil in Hkey.
  - apply result_bind_ok in E as (b & Eb & E). apply result_bind_ok in E as (rest & Er & [= <-]).
    destruct b; [|by apply (IH rest keys)]. cbn [map_res] in Em.
    apply result_bind_ok in Em as (y & Ey & Em). apply result_bind_ok in Em as (ys & Eys & [= <-]).
    apply elem_of_cons in Hkey as [->|Hkey]; [|by apply (IH rest ys)].
    unfold not_forwarded in Eb. rewrite Ey, Ek in Eb. cbn in Eb. injection Eb as Eb.
    by apply negb_true_iff, bool_decide_eq_false in Eb.
Qed.

Lemma hop_ok_view r r1 source mtu i : fr_peers r1 = fr_peers r -> fr_links r1 = fr_links r -> hop_ok r1 source mtu i -> hop_ok r source mtu i.
Proof.
  intros Ep El [A B C]. split; [done| |].
  - destruct B as (p & B1 & B2). rewrite Ep in B1. exists p. split; [done|]. unfold established, get_bloom in *. cbn in *. by rewrite <- El.
  - unfold capacity in *. by rewrite <- Ep.
Qed.

(** The reverse path to send on: the one there is, now from [source], or a new one. *)
Lemma path_to_send source q nowMs key r r2 hops all : paths_ok r ->
  fr_peers r2 = fr_peers r -> sent r2 = sent r -> lookupReversePaths r2 = lookupReversePaths (pruned nowMs r) ->
  reverses r2 = (match live_path nowMs r key with Some k => alter (set_rv_peer source) k (reverses r) | None => reverses r end) ->
  filter_res (not_forwarded r2 (live_path nowMs r key)) all = Ok hops ->
  let old := live_path nowMs r key ≫= fun k => reverses r !! k in
  exists k r3 rv, (match live_path nowMs r key with Some k => mret k | None => new_reverse source key q nowMs end) r2 = (Ok k, r3) /\
    reverses r3 !! k = Some rv /\ sent r3 = sent r /\ fr_peers r3 = fr_peers r /\ JsMap.get_ (lookupReversePaths r3) key = Some k /\
    extends_path source q nowMs old [] rv /\
    (forall keys, map_res (peer_key (fr_peers r)) hops = Ok keys -> extends_path source q nowMs old keys (add_forwarded keys rv)).
Proof.
  intros Hok Ep Es Epaths Erev Ehops. cbv zeta. destruct (live_path nowMs r key) as [k|] eqn:Elive.
  - destruct (lookup_lt_is_Some_2 (reverses r) k) as [rv0 E0]; [by eapply (po_objects _ (pruned_ok nowMs r Hok))|].
    assert (Erev2 : reverses r2 !! k = Some (set_rv_peer source rv0)) by (by rewrite Erev, list_lookup_alter_eq, E0).
    exists k, r2, (set_rv_peer source rv0). split; [done|]. split; [done|]. split; [done|]. split; [done|].
    split; [by rewrite Epaths|]. cbn [mbind option_bind]. rewrite E0. split.
    + split; [done|]. cbn. split_and!; [done|done|set_solver|intros key' ?%not_elem_of_nil; done].
    + intros keys Em. split; [done|]. cbn. split_and!; [done|done|done|]. rewrite <- Ep in Em. exact (not_forwarded_keys _ _ _ _ _ _ Erev2 Ehops Em).
  - eexists _, _, _. split; [apply new_reverse_run|]. cbn [reverses set_reversePaths set_reverses].
    split; [apply list_lookup_middle; done|]. split; [exact Es|]. split; [exact Ep|]. split; [apply JsMap.get_set_eq|].
    cbn [mbind option_bind]. split; [split; [done|]; by split_and!|]. intros keys _. split; [done|]. cbn. split_and!; [done|done|set_solver].
Qed.

Lemma forward_lookup_effect source q hex nowMs r res r' : paths_ok r ->
  forward_lookup cfg Math_pow getPeers getPeerByPubkey getPeerByNodeAddr source q hex nowMs r = (res, r') ->
  match res with Ok (Some fw) => forwarded source q nowMs r r' fw | _ => sent r' = sent r end.
Proof.
  intros Hok. unfold forward_lookup. fold next_hop.
  destruct (lookupReverseKey (lq_requestId q) (lq_target q)) as [key|e] eqn:Ekey; [|by intros [= <- <-]].
  rewrite (ST_lift_bind _ _ _ _ eq_refl). unfold pruneLookupReversePaths. rewrite ST_modify_bind, ST_get_bind.
  fold (pruned nowMs r). change (JsMap.get_ (lookupReversePaths (pruned nowMs r)) key) with (live_path nowMs r key).
  change (reverses (pruned nowMs r)) with (reverses r). pose proof (pruned_ok nowMs r Hok) as Hpr.
  destruct (match live_path nowMs r key ≫= fun k => reverses r !! k with Some _ => _ | None => Ok true end) as [same|e];
    [|by intros [= <- <-]].
  rewrite (ST_lift_bind _ _ _ _ eq_refl). destruct same; cbn [negb]; [|by intros [= <- <-]].
  set (r1 := match live_path nowMs r key with
             | Some k => set_reverses (pruned nowMs r) (alter (set_rv_peer source) k (reverses r))
             | None => pruned nowMs r end).
  assert (Estep : (match live_path nowMs r key with Some k => alter_reverse k (set_rv_peer source) | None => mret tt end) (pruned nowMs r) = (Ok tt, r1)).
  { unfold r1. by destruct (live_path nowMs r key). }
  rewrite (ST_bind_ok _ _ _ _ _ Estep).
  assert (Hr1 : fr_peers r1 = fr_peers r /\ fr_links r1 = fr_links r /\ sent r1 = sent r /\
    lookupReversePaths r1 = lookupReversePaths (pruned nowMs r)) by (unfold r1; by destruct (live_path nowMs r key)).
  destruct Hr1 as (Ep1 & El1 & Es1 & Epaths1).
  pose proof (learns_next_hop cfg Math_pow getPeers getPeerByPubkey getPeerByNodeAddr hex (Some source) (lq_minMtu q) nowMs r1) as [t Et].
  fold next_hop in Et. unfold mbind at 1, ST_bind at 1.
  destruct (next_hop hex (Some source) (lq_minMtu q) nowMs r1) as [[direct|e] r2] eqn:Enext; cbn [snd] in Et; subst r2;
    [|intros [= <- <-]; exact Es1].
  rewrite ST_get_bind. set (r2 := set_learnedRoutes r1 t) in *.
  assert (Hhops2 : forall ps, match direct with Some _ => Ok [] | None => fallbackPeers cfg getPeers r2 source q end = Ok ps ->
    Forall (hop_ok r source (lq_minMtu q)) (match direct with Some i => [i] | None => ps end)).
  { intros ps Eps. destruct direct as [i|].
    - apply Forall_singleton. apply (hop_ok_view r r2); [done..|]. apply (fit_hop hex source (lq_minMtu q) nowMs).
      by eapply next_hop_fit.
    - apply fallbackPeers_hops in Eps. eapply Forall_impl; [exact Eps|]. intros i. by apply hop_ok_view. }
  destruct (match direct with Some _ => Ok [] | None => fallbackPeers cfg getPeers r2 source q end) as [fb|e]; [|intros [= <- <-]; exact Es1].
  rewrite (ST_lift_bind _ _ _ _ eq_refl). specialize (Hhops2 fb eq_refl).
  destruct (filter_res (not_forwarded r2 (live_path nowMs r key)) (match direct with Some i => [i] | None => fb end)) as [hops|e] eqn:Ehops;
    [|intros [= <- <-]; exact Es1].
  rewrite (ST_lift_bind _ _ _ _ eq_refl). cbv zeta.
  destruct ((len hops =? 0) && negb (canResolveLookupDirectly cfg direct (0 <? len fb))); [intros [= <- <-]; exact Es1|].
  assert (Hhops : Forall (hop_ok r source (lq_minMtu q)) hops).
  { apply Forall_forall. intros i Hi. destruct (filter_res_elem _ _ _ i Ehops Hi) as [Hin _]. rewrite Forall_forall in Hhops2. by apply Hhops2. }
  destruct (path_to_send source q nowMs key r r2 hops (match direct with Some i => [i] | None => fb end)) as (k & r3 & rv & Ek & Erv & Es3 & Ep3 & Epath3 & Hext0 & Hext);
    [done|exact Ep1|exact Es1|exact Epaths1|unfold r2, r1; by destruct (live_path nowMs r key)|exact Ehops|].
  rewrite (ST_bind_ok _ _ _ _ _ Ek).
  destruct (Z.eqb_spec (len hops) 0) as [E0|E0].
  - intros [= <- <-]. apply len_nil_inv in E0. subst hops. split; cbn [fw_key fw_reverse fw_sends]; [done|done|done|].
    exists rv, []. split; [done|]. split; [done|]. split; [done|]. by left.
  - unfold mbind at 1, ST_bind at 1. destruct (send_lookup k hops r3) as [[u|e] r4] eqn:Esend; pose proof (send_lookup_run _ _ _ _ _ _ Erv Esend) as Hs.
    + intros [= <- <-]. destruct Hs as (keys & encoded & Em & Ee & ->). rewrite Ep3 in Em.
      split; cbn [fw_key fw_reverse fw_sends]; [done|done|done|]. exists (add_forwarded keys rv), keys.
      split; [cbn; by rewrite list_lookup_alter_eq, Erv|]. split; [done|]. split; [by apply Hext|]. right. exists encoded.
      split; [done|]. cbn. by rewrite Es3.
    + intros [= <- <-]. congruence.
Qed.
End Forward.

(** A lookup request is answered by its target and by nobody else, and passed
    on only by a forwarding node while its time to live lasts. A request passed on
    carries one less, goes only to established links other than the one it came
    from, wide enough for it, and on one reverse path to no neighbour twice; the
    path leads back to the sender. In every other case, and where the handler
    throws, nothing is sent. *)
Lemma lookup_request_handled `{Noble} (cfg : FipsRoutingConfig) (Math_pow : F64.t -> F64.t -> F64.t)
    (getPeers : list nat) (getPeerByPubkey getPeerByNodeAddr : string -> option nat)
    (source : nat) (q : LookupRequest) (nowMs : Z) (r : FipsRouting) : paths_ok r ->
  let '(res, r') := handleLookupRequest cfg Math_pow getPeers getPeerByPubkey getPeerByNodeAddr source q nowMs r in
  let own := nodeAddr (rc_identity cfg) in
  match res with
  | Ok (Some fw) => rc_forwarding cfg = true /\ lq_ttl q <> 0 /\ lq_target q <> own /\ forwarded source q nowMs r r' fw
  | _ => sent r' = sent r \/
      lq_target q = own /\ exists p payload, sent r' = sent r ++ [(source, LinkMessageType.LookupResponse, payload)] /\
        encodeLookupResponsePayload p = Ok payload /\ lr_requestId p = lq_requestId q /\ lr_target p = own /\
        lr_pathMtu p = capacity r source /\ lr_targetCoords p = coords cfg r
  end.
Proof.
  intros Hok. unfold handleLookupRequest. rewrite ST_get_bind. destruct (nodeAddrToHex (lq_target q)) as [hex|e]; [|by left].
  rewrite (ST_lift_bind _ _ _ _ eq_refl). destruct (_ <? _); [by left|].
  destruct (bytesEqual (lq_target q) (nodeAddr (rc_identity cfg))) eqn:Eown.
  - apply bytesEqual_true in Eown. unfold answer_lookup, mbind, ST_bind, lift, get.
    destruct (lookupResponseProofBytes _ _ _) as [signed|e]; [|by left].
    destruct (signSchnorr _ _) as [proof|e]; [|by left].
    destruct (encodeLookupResponsePayload _) as [payload|e] eqn:Ee; [|by left]. right. split; [done|].
    eexists _, payload. split; [reflexivity|]. split; [exact Ee|]. by rewrite <- Eown.
  - destruct (negb (rc_forwarding cfg) || (lq_ttl q =? 0)) eqn:Ef; [by left|].
    apply orb_false_iff in Ef as [Ef%negb_false_iff Ettl%Z.eqb_neq].
    destruct (forward_lookup _ _ _ _ _ _ _ _ _ _) as [res r'] eqn:E. apply forward_lookup_effect in E; [|done].
    destruct res as [[fw|]|e]; [|by left..]. split; [done|]. split; [done|]. split; [|done].
    intros Eq. rewrite Eq, bytesEqual_refl in Eown. done.
Qed.

(** ** Runs *)

Section Runs.
Context `{Noble}.

(** Every operation on the reverse paths, under whatever configuration and
    callbacks, and every change that leaves them alone. *)
Inductive lookup_step (r : FipsRouting) : FipsRouting -> Prop :=
| LsRequest cfg pow gp gpk gpn source q nowMs : lookup_step r (snd (handleLookupRequest cfg pow gp gpk gpn source q nowMs r))
| LsSettled fw rejected : lookup_step r (snd (lookup_settled fw rejected r))
| LsResolved cfg pow gp gpk gpn hex key k source nowMs : lookup_step r (snd (resolved_forward cfg pow gp gpk gpn hex key k source nowMs r))
| LsFailed k key : lookup_step r (snd (forward_failed k key r))
| LsReplay gpn i nowMs : lookup_step r (snd (replayPendingLookupsFor gpn i nowMs r))
| LsResponse cfg source payload nowMs : lookup_step r (snd (forwardLookupResponse cfg source payload nowMs r))
| LsOrigin cfg source payload nowMs : lookup_step r (snd (handleOriginLookupResponse cfg source payload nowMs r))
| LsStop r' : lookupReversePaths r' = [] -> length (reverses r') = length (reverses r) -> lookup_step r r'
| LsOther r' : lookupReversePaths r' = lookupReversePaths r -> length (reverses r') = length (reverses r) -> lookup_step r r'.

Lemma lookup_step_ok r r' : paths_ok r -> lookup_step r r' -> paths_ok r'.
Proof.
  intros Hr [cfg pow gp gpk gpn source q nowMs|fw rejected|cfg pow gp gpk gpn hex key k source nowMs|k key|gpn i nowMs|cfg source payload nowMs|cfg source payload nowMs|r1 E1 E2|r1 E1 E2].
  - by apply maintains_handle.
  - by apply maintains_settled.
  - by apply maintains_resolved.
  - by apply maintains_alter.
  - by apply maintains_replay.
  - by apply maintains_response.
  - by apply maintains_origin.
  - by apply no_paths_ok.
  - by apply (same_paths_ok r).
Qed.
End Runs.

(** Whatever requests, responses, failures and timeouts a node sees, in any
    order, it holds at most 256 reverse paths, under distinct keys, each an object
    of its own. *)
Lemma reverse_paths_bounded `{Noble} (r0 r : FipsRouting) :
  lookupReversePaths r0 = [] -> rtc lookup_step r0 r ->
  len (lookupReversePaths r) <= MAX_LOOKUP_REVERSE_PATHS /\ NoDup (map fst (lookupReversePaths r)) /\
  (forall key k, JsMap.get_ (lookupReversePaths r) key = Some k -> exists rv, reverses r !! k = Some rv) /\
  (forall key key' k, JsMap.get_ (lookupReversePaths r) key = Some k -> JsMap.get_ (lookupReversePaths r) key' = Some k -> key = key').
Proof.
  intros E0 Hrun. assert (Hr : paths_ok r).
  { apply (rtc_invariant lookup_step paths_ok r0 r); [intros x y; apply lookup_step_ok|by apply no_paths_ok|done]. }
  destruct Hr as [Hk Hs Ho Hd]. split; [done|]. split; [exact Hk|]. split; [|done].
  intros key k Hg%Ho. by apply lookup_lt_is_Some_2.
Qed.

(** ** Responses *)

Section Responses.
Context `{Noble} (cfg : FipsRoutingConfig).

(** A state whose coordinates and learned routes may differ. *)
Definition caches (r r' : FipsRouting) : Prop := exists c t, r' = set_learnedRoutes (set_coordCache r c) t.

#[export] Instance caches_preorder : PreOrder caches.
Proof.
  split.
  - intros r. exists (coordCache r), (learnedRoutes r). by destruct r.
  - intros r1 r2 r3 (c1 & t1 & ->) (c2 & t2 & ->). by exists c2, t2.
Qed.

Lemma caches_coords f : respects caches (modify (fun r => set_coordCache r (f r))).
Proof. intros r. exists (f r), (learnedRoutes r). by destruct r. Qed.
Hint Resolve caches_coords : respects.

Lemma caches_cache a cs : respects caches (cacheCoordinates a cs).
Proof. unfold cacheCoordinates. solve_respects. Qed.

Lemma caches_learn dest i mtu nowMs : respects caches (learnReverseRoute cfg dest i mtu nowMs).
Proof.
  unfold learnReverseRoute. solve_respects. apply respects_zoom. intros t r. exists (coordCache r), t. by destruct r.
Qed.

Lemma cache_then {B} a cs (k : unit -> ST FipsRouting B) r res r' : (cacheCoordinates a cs ≫= k) r = (res, r') ->
  exists r1, caches r r1 /\ (k tt r1 = (res, r') \/ is_ok res = false /\ r' = r1).
Proof.
  pose proof (caches_cache a cs r) as Hc. unfold mbind, ST_bind. destruct (cacheCoordinates a cs r) as [[[]|e] r1]; cbn [snd] in Hc.
  - intros E. exists r1. split; [done|by left].
  - intros [= <- <-]. exists r1. split; [done|by right].
Qed.

Lemma learn_then {B} dest i mtu nowMs (k : unit -> ST FipsRouting B) r res r' : (learnReverseRoute cfg dest i mtu nowMs ≫= k) r = (res, r') ->
  exists r1, caches r r1 /\ (k tt r1 = (res, r') \/ is_ok res = false /\ r' = r1).
Proof.
  pose proof (caches_learn dest i mtu nowMs r) as Hc. unfold mbind, ST_bind. destruct (learnReverseRoute cfg dest i mtu nowMs r) as [[[]|e] r1]; cbn [snd] in Hc.
  - intros E. exists r1. split; [done|by left].
  - intros [= <- <-]. exists r1. split; [done|by right].
Qed.

(** A response that a reverse path returns. *)
Record returned (source : nat) (payload : bytes) (nowMs : Z) (r : FipsRouting) (response : LookupResponse) (key : string)
    (rv : LookupReversePath) (narrowed : Z) : Prop := {
  rt_decoded : decodeLookupResponse payload = Ok response;
  rt_key : lookupReverseKey (lr_requestId response) (lr_target response) = Ok key;
  rt_path : live_path nowMs r key ≫= (fun k => reverses r !! k) = Some rv;
  rt_back : rv_peer rv <> source;
  rt_mtu : narrowed = Z.min (Z.min (lr_pathMtu response) (capacity r source)) (capacity r (rv_peer rv));
  rt_wide : lq_minMtu (rv_request rv) <= narrowed;
}.

Lemma forward_response_effect source payload nowMs r : let r' := snd (forwardLookupResponse cfg source payload nowMs r) in
  sent r' = sent r \/ exists response key rv narrowed encoded, returned source payload nowMs r response key rv narrowed /\
    encodeLookupResponsePayload (with_pathMtu response narrowed) = Ok encoded /\
    sent r' = sent r ++ [(rv_peer rv, LinkMessageType.LookupResponse, encoded)] /\ JsMap.get_ (lookupReversePaths r') key = None.
Proof.
  cbv zeta. destruct (forwardLookupResponse cfg source payload nowMs r) as [res r'] eqn:E. cbn [snd]. revert E.
  unfold forwardLookupResponse. destruct (decodeLookupResponse payload) as [p|e] eqn:Ed; [|by intros [= <- <-]; left].
  rewrite (ST_lift_bind _ _ _ _ eq_refl). destruct (lookupReverseKey _ _) as [key|e] eqn:Ek; [|by intros [= <- <-]; left].
  rewrite (ST_lift_bind _ _ _ _ eq_refl). unfold pruneLookupReversePaths. rewrite ST_modify_bind, ST_get_bind. fold (pruned nowMs r).
  change (JsMap.get_ (lookupReversePaths (pruned nowMs r)) key) with (live_path nowMs r key).
  change (reverses (pruned nowMs r)) with (reverses r).
  destruct (live_path nowMs r key ≫= fun k => reverses r !! k) as [rv|] eqn:Erv.
  2:{ unfold mbind, ST_bind, lift. destruct (nodeAddrToHex _); intros [= <- <-]; by left. }
  destruct (bool_decide_reflect (rv_peer rv = source)) as [_|Hne].
  { unfold mbind, ST_bind, lift. destruct (nodeAddrToHex _); intros [= <- <-]; by left. }
  change (capacity (pruned nowMs r)) with (capacity r). cbv zeta. set (m := Z.min (Z.min _ _) _).
  destruct (Z.ltb_spec m (lq_minMtu (rv_request rv))) as [Hlt|Hle]; [by intros [= <- <-]; left|].
  intros (r1 & (c1 & t1 & ->) & E)%cache_then. destruct E as [E|[_ ->]]; [|by left].
  destruct (nodeAddrToHex (lr_target p)) as [hex|e]; [|injection E as <- <-; by left]. rewrite (ST_lift_bind _ _ _ _ eq_refl) in E.
  apply learn_then in E as (r2 & (c2 & t2 & ->) & E). destruct E as [E|[_ ->]]; [|by left]. rewrite ST_modify_bind in E.
  destruct (encodeLookupResponsePayload (with_pathMtu p m)) as [encoded|e] eqn:Ee; [|injection E as <- <-; by left].
  rewrite (ST_lift_bind _ _ _ _ eq_refl) in E.
  match type of E with send_message _ _ _ ?s = _ => assert (H3 : sent s = sent r /\ JsMap.get_ (lookupReversePaths s) key = None)
    by (split; [done|apply JsMap.get_delete_eq]); revert H3 E; generalize s end.
  intros r3 [E3 Eg3] E.
  injection E as _ <-. right. exists p, key, rv, m, encoded.
  split; [by split|]. split; [done|]. split; [cbn; by rewrite E3|exact Eg3].
Qed.

Lemma live_path_gone nowMs r key : JsMap.wf (lookupReversePaths r) -> JsMap.get_ (lookupReversePaths r) key = None -> live_path nowMs r key = None.
Proof.
  intros Hw Hn. unfold live_path. destruct (JsMap.get_ (base.filter _ _) key) as [k|] eqn:E; [|done].
  apply get_filter in E; [|done]. congruence.
Qed.
End Responses.

(** A node forwards a lookup response only along a live reverse path for its
    request id and target, to the peer the request came from and never to the one
    the response came from, with the path MTU lowered to what both links carry
    and not below what the request asked for. The path is used up: no further
    response for the same request is forwarded. *)
Lemma lookup_response_returns `{Noble} (cfg : FipsRoutingConfig) (source : nat) (payload : bytes) (nowMs : Z) (r : FipsRouting) :
  paths_ok r -> let r' := snd (forwardLookupResponse cfg source payload nowMs r) in
  sent r' = sent r \/ exists response key rv narrowed encoded, returned source payload nowMs r response key rv narrowed /\
    encodeLookupResponsePayload (with_pathMtu response narrowed) = Ok encoded /\
    sent r' = sent r ++ [(rv_peer rv, LinkMessageType.LookupResponse, encoded)] /\
    forall cfg' source' payload' response' nowMs', decodeLookupResponse payload' = Ok response' ->
      lr_requestId response' = lr_requestId response -> lr_target response' = lr_target response ->
      sent (snd (forwardLookupResponse cfg' source' payload' nowMs' r')) = sent r'.
Proof.
  intros Hok. cbv zeta. pose proof (maintains_response cfg source payload nowMs r Hok) as Hok'.
  destruct (forward_response_effect cfg source payload nowMs r) as [E|(p & key & rv & m & encoded & Hret & Ee & Es & Eg)]; [by left|].
  right. exists p, key, rv, m, encoded. split; [done|]. split; [done|]. split; [done|].
  intros cfg' source' payload' p' nowMs' Ed Eid Et.
  destruct (forward_response_effect cfg' source' payload' nowMs' (snd (forwardLookupResponse cfg source payload nowMs r)))
    as [E|(p2 & key2 & rv2 & m2 & enc2 & [Hd2 Hk2 Hp2 _ _ _] & _)]; [done|].
  exfalso. rewrite Ed in Hd2. injection Hd2 as <-. rewrite Eid, Et, (rt_key _ _ _ _ _ _ _ _ Hret) in Hk2. injection Hk2 as <-.
  by rewrite (live_path_gone nowMs' _ key (po_keys _ Hok') Eg) in Hp2.
Qed.

(** C25: A lookup of the node's own is completed, and coordinates and routes are
    taken from a response to it, only if the response is for the request id and
    target of a lookup in flight, wide enough for it, with coordinates that start
    at the target and, where the target's key is known, signed with that key over
    the request id, the target and those coordinates. *)
Theorem origin_response_authentic `{Noble} (cfg : FipsRoutingConfig) (source : nat) (payload : bytes) (nowMs : Z) (r : FipsRouting) :
  let r' := snd (handleOriginLookupResponse cfg source payload nowMs r) in
  r' = r \/ exists response i l rest, decodeLookupResponse payload = Ok response /\
    findRequest (originLookups r) (lr_requestId response) = Some i /\ lookups (originLookups r) !! i = Some l /\
    nodeAddrToHex (lr_target response) = Ok (targetHex l) /\
    minMtu l <= Z.min (lr_pathMtu response) (capacity r source) /\
    lr_targetCoords response = lr_target response :: rest /\
    (forall pk, targetPubkey l = Some pk -> exists signed,
      lookupResponseProofBytes (lr_requestId response) (lr_target response) (lr_targetCoords response) = Ok signed /\
      verifySchnorr (lr_proof response) (sha256 signed) (subarray_from pk 1) = true).
Proof.
  cbv zeta. unfold handleOriginLookupResponse. destruct (decodeLookupResponse payload) as [p|e] eqn:Ed; [|by left].
  rewrite (ST_lift_bind _ _ _ _ eq_refl), ST_get_bind. destruct (findRequest _ _) as [i|] eqn:Ef; [|by left].
  destruct (lookups (originLookups r) !! i) as [l|] eqn:El; [|by left].
  destruct (nodeAddrToHex (lr_target p)) as [hex|e] eqn:Eh; [|by left]. rewrite (ST_lift_bind _ _ _ _ eq_refl).
  destruct (bool_decide_reflect (hex = targetHex l)) as [->|]; [|by left]. cbn [negb].
  destruct (Z.ltb_spec (Z.min (lr_pathMtu p) (capacity r source)) (minMtu l)) as [|Hm]; [by left|].
  destruct (proof_valid l p) as [[|]|e] eqn:Ev; [|by left..]. rewrite (ST_lift_bind _ _ _ _ eq_refl). cbn [negb].
  destruct (lr_targetCoords p) as [|c rest] eqn:Ec; [by left|]. destruct (bytesEqual c (lr_target p)) eqn:Eb; [|by left].
  right. apply bytesEqual_true in Eb. subst c. exists p, i, l, rest. split_and!; try done.
  intros pk Epk. unfold proof_valid in Ev. rewrite Epk in Ev. apply result_bind_ok in Ev as (signed & Es & [= Ev]). by exists signed.
Qed.

(** What a node learns from an answer never fails. *)
Lemma learn_succeeds `{Noble} cfg dest i mtu nowMs r key :
  table_ok MAX_REPLY_LEARNED_ROUTES_PER_DESTINATION (learnedRoutes r) -> len (nodeAddr (rc_identity cfg)) = 16 ->
  peer_key (fr_peers r) i = Ok key -> exists t, learnReverseRoute cfg dest i (Some mtu) nowMs r = (Ok tt, set_learnedRoutes r t).
Proof.
  intros Htab Hown Ek. assert (Hsame : r = set_learnedRoutes r (learnedRoutes r)) by (by destruct r).
  unfold learnReverseRoute. rewrite (bool_decide_eq_false_2 (Some mtu = None)), andb_false_r by done.
  rewrite ST_get_bind, (ST_lift_bind _ _ _ _ Ek). unfold self. rewrite (ST_lift_bind _ _ _ _ (proj2 (nodeAddrToHex_Ok _ _) (conj Hown eq_refl))).
  case_decide; [by exists (learnedRoutes r); rewrite <- Hsame|].
  destruct (learn_run MAX_REPLY_LEARNED_ROUTES_PER_DESTINATION (learnedRoutes r) dest key nowMs REPLY_LEARNED_ROUTE_TTL_SECONDS (Some mtu))
    as (t & Et & _); [vm_compute; reflexivity|done|]. exists t. unfold zoom. by rewrite Et.
Qed.

(** The outcome of an answer that passes. *)
Lemma origin_accepts `{Noble} cfg source payload nowMs r p i l key rest :
  decodeLookupResponse payload = Ok p -> registry_ok (originLookups r) ->
  table_ok MAX_REPLY_LEARNED_ROUTES_PER_DESTINATION (learnedRoutes r) -> len (nodeAddr (rc_identity cfg)) = 16 ->
  findRequest (originLookups r) (lr_requestId p) = Some i -> lookups (originLookups r) !! i = Some l ->
  nodeAddrToHex (lr_target p) = Ok (targetHex l) -> minMtu l <= Z.min (lr_pathMtu p) (capacity r source) ->
  lr_targetCoords p = lr_target p :: rest -> proof_valid l p = Ok true -> peer_key (fr_peers r) source = Ok key ->
  exists r' l', handleOriginLookupResponse cfg source payload nowMs r = (Ok true, r') /\
    lookups (originLookups r') !! i = Some l' /\ promise l' = Resolved /\ lk_nextHop l' = Some key /\
    get_lookup (originLookups r') (targetHex l) = None /\ JsMap.get_ (coordCache r') (targetHex l) = Some (lr_targetCoords p).
Proof.
  intros Ed Hreg Htab Hown Ef El Eh Hm Ec Ev Ek. unfold handleOriginLookupResponse.
  rewrite (ST_lift_bind _ _ _ _ Ed), ST_get_bind, Ef, El, (ST_lift_bind _ _ _ _ Eh), bool_decide_eq_true_2 by done. cbn [negb].
  assert (Hlt : (Z.min (lr_pathMtu p) (capacity r source) <? minMtu l) = false) by (by apply Z.ltb_ge). rewrite Hlt.
  rewrite (ST_lift_bind _ _ _ _ Ev), Ec, bytesEqual_refl. cbn [negb].
  assert (Hcache : cacheCoordinates (lr_target p) (lr_target p :: rest) r =
    (Ok tt, set_coordCache r (JsMap.set_ (coordCache r) (targetHex l) (lr_target p :: rest)))).
  { unfold cacheCoordinates. rewrite bytesEqual_refl. cbn [negb]. by rewrite (ST_lift_bind _ _ _ _ Eh). }
  rewrite (ST_bind_ok _ _ _ _ _ Hcache). set (r1 := set_coordCache r _).
  destruct (learn_succeeds cfg (targetHex l) source (Z.min (lr_pathMtu p) (capacity r source)) nowMs r1 key) as [t Et]; [done..|].
  rewrite (ST_bind_ok _ _ _ _ _ Et), ST_get_bind.
  assert (Ek2 : peer_key (fr_peers (set_learnedRoutes r1 t)) source = Ok key) by done. rewrite (ST_lift_bind _ _ _ _ Ek2).
  assert (Hwait : promise l = Waiting).
  { destruct (waiting_dec l) as [|Hn]; [done|]. destruct (ro_settled _ Hreg i l El Hn) as [Hids _].
    apply (ro_request _ Hreg) in Ef as (l2 & El2 & Hin). rewrite El in El2. injection El2 as <-. rewrite Hids in Hin. by apply not_elem_of_nil in Hin. }
  pose proof (complete_current (originLookups r) i l (Some key) Hreg El Hwait) as Hcomp.
  eexists _, (finished l (Some key) Resolved). split; [unfold zoom_lookups, zoom, mbind, ST_bind; cbn [originLookups set_learnedRoutes set_coordCache]; unfold r1; cbn [originLookups set_coordCache set_learnedRoutes]; rewrite Hcomp; reflexivity|].
  cbn. rewrite list_lookup_insert_eq by (by eapply lookup_lt_Some). split_and!; [done|done|done| |apply JsMap.get_set_eq].
  unfold get_lookup. cbn. apply JsMap.get_delete_eq.
Qed.

(** ** Across the network *)

Section Answer.
Context `{Noble, !HashLaws, !DhLaws, !SchnorrLaws}.

(** The coordinates a node announces for itself start with its address. *)
Lemma own_coords cfg r : tree_ok (treeState r) -> TreeState.identity (treeState r) = rc_identity cfg ->
  exists rest, coords cfg r = nodeAddr (rc_identity cfg) :: rest.
Proof.
  intros Ht Eid. unfold coords. destruct (rc_strictClient cfg); [by exists []|].
  pose proof (own_ancestry _ Ht) as E. unfold TreeState.coords, addrs, TreeState.self in *. rewrite Eid in E.
  destruct (TreeState.ancestry (treeState r)) as [|e es]; [done|]. cbn in *. injection E as ->. by eexists.
Qed.

(** What the target sends back is decoded as it was encoded, and proves itself
    under the target's key, with any path MTU. *)
Lemma own_answer_valid id i t cs m mtu sig payload l :
  identity_wf id -> len t = 16 -> (exists signed, lookupResponseProofBytes i t cs = Ok signed /\ signSchnorr id (sha256 signed) = Ok sig) ->
  encodeLookupResponsePayload (with_pathMtu (mkLookupResponse i t m cs sig) mtu) = Ok payload ->
  (forall pk, targetPubkey l = Some pk -> pk = publicKey id) ->
  decodeLookupResponse payload = Ok (with_pathMtu (mkLookupResponse i t m cs sig) mtu) /\
  proof_valid l (with_pathMtu (mkLookupResponse i t m cs sig) mtu) = Ok true.
Proof.
  intros Hid Ht (signed & Es & Eg) Ee Hpk. split; [by apply decodeLookupResponse_Ok, encodeLookupResponse_Ok|].
  unfold proof_valid. destruct (targetPubkey l) as [pk|]; [|done]. rewrite (Hpk pk eq_refl). cbn [with_pathMtu lr_requestId lr_target lr_targetCoords lr_proof].
  rewrite Es. cbn [mbind result_bind]. f_equal. pose proof (verify_own _ _ _ Hid Eg) as Hv. destruct Hid as (_ & _ & Ex & _). by rewrite Ex in Hv.
Qed.

Lemma answer_sent cfg pow gp gpk gpn source q nowMs r r' : lq_target q = nodeAddr (rc_identity cfg) ->
  lq_minMtu q <= capacity r source -> handleLookupRequest cfg pow gp gpk gpn source q nowMs r = (Ok None, r') ->
  exists signed sig payload,
    lookupResponseProofBytes (lq_requestId q) (lq_target q) (coords cfg r) = Ok signed /\ signSchnorr (rc_identity cfg) (sha256 signed) = Ok sig /\
    encodeLookupResponsePayload (mkLookupResponse (lq_requestId q) (lq_target q) (capacity r source) (coords cfg r) sig) = Ok payload /\
    sent r' = sent r ++ [(source, LinkMessageType.LookupResponse, payload)].
Proof.
  intros Et Hm. unfold handleLookupRequest. rewrite ST_get_bind. destruct (nodeAddrToHex (lq_target q)) as [hex|e]; [|done].
  rewrite (ST_lift_bind _ _ _ _ eq_refl). destruct (Z.ltb_spec (capacity r source) (lq_minMtu q)); [lia|].
  assert (Eb : bytesEqual (lq_target q) (nodeAddr (rc_identity cfg)) = true) by (rewrite Et; apply bytesEqual_refl). rewrite Eb.
  unfold answer_lookup, mbind, ST_bind, lift, get.
  destruct (lookupResponseProofBytes _ _ _) as [signed|e] eqn:Es; [|done].
  destruct (signSchnorr _ _) as [sig|e] eqn:Eg; [|done].
  destruct (encodeLookupResponsePayload _) as [payload|e] eqn:Ee; [|done]. intros [= <-]. by exists signed, sig, payload.
Qed.
End Answer.

(** C22: A lookup's answer completes it: what the target sends back, with the path
    MTU lowered on the way by whatever the nodes between, is accepted by the node
    whose lookup it is, as long as it is wide enough and the lookup is for the
    target's key or for its address alone. The lookup is then resolved to the
    neighbour the answer came from, and the target's coordinates are known. *)
Theorem lookup_answer_accepted `{Noble, !HashLaws, !DhLaws, !SchnorrLaws} (cfgT : FipsRoutingConfig) (pow : F64.t -> F64.t -> F64.t)
    (getPeers : list nat) (getPeerByPubkey getPeerByNodeAddr : string -> option nat)
    (back : nat) (q : LookupRequest) (now : Z) (rT rT' : FipsRouting) :
  identity_wf (rc_identity cfgT) -> tree_ok (treeState rT) -> TreeState.identity (treeState rT) = rc_identity cfgT ->
  lq_target q = nodeAddr (rc_identity cfgT) -> lq_minMtu q <= capacity rT back ->
  handleLookupRequest cfgT pow getPeers getPeerByPubkey getPeerByNodeAddr back q now rT = (Ok None, rT') ->
  exists p payload, sent rT' = sent rT ++ [(back, LinkMessageType.LookupResponse, payload)] /\ decodeLookupResponse payload = Ok p /\
    forall cfgO source mtu arrived nowO r i l key, encodeLookupResponsePayload (with_pathMtu p mtu) = Ok arrived ->
      registry_ok (originLookups r) -> table_ok MAX_REPLY_LEARNED_ROUTES_PER_DESTINATION (learnedRoutes r) ->
      len (nodeAddr (rc_identity cfgO)) = 16 ->
      findRequest (originLookups r) (lq_requestId q) = Some i -> lookups (originLookups r) !! i = Some l ->
      targetHex l = toHex (lq_target q) -> (forall pk, targetPubkey l = Some pk -> pk = publicKey (rc_identity cfgT)) ->
      minMtu l <= Z.min mtu (capacity r source) -> peer_key (fr_peers r) source = Ok key ->
      exists r' l', handleOriginLookupResponse cfgO source arrived nowO r = (Ok true, r') /\
        lookups (originLookups r') !! i = Some l' /\ promise l' = Resolved /\ lk_nextHop l' = Some key /\
        get_lookup (originLookups r') (targetHex l) = None /\ JsMap.get_ (coordCache r') (targetHex l) = Some (coords cfgT rT).
Proof.
  intros Hid Ht Eid Et Hm Eh.
  destruct (answer_sent _ _ _ _ _ _ _ _ _ _ Et Hm Eh) as (signed & sig & payload & Es & Eg & Ee & Esent).
  assert (Lt : len (lq_target q) = 16) by (rewrite Et; destruct Hid as (_ & _ & _ & Hd); by apply len_deriveNodeAddr in Hd).
  eexists _, payload. split; [exact Esent|]. split; [by apply decodeLookupResponse_Ok, encodeLookupResponse_Ok|].
  intros cfgO source mtu arrived nowO r i l key Ea Hreg Htab Hown Ef El Ehex Hpk Hmtu Ek.
  destruct (own_coords cfgT rT Ht Eid) as [rest Ec]. rewrite <- Et in Ec.
  destruct (own_answer_valid (rc_identity cfgT) (lq_requestId q) (lq_target q) (coords cfgT rT) (capacity rT back) mtu sig arrived l)
    as [Ed Ev]; [done|done|by exists signed|done|done|].
  eapply (origin_accepts cfgO source arrived nowO r _ i l key rest Ed); try done. rewrite Ehex. by apply nodeAddrToHex_Ok.
Qed.

(** ** Example

    Node 9 looks up node 11 through node 5, which is between them. *)

#[local] Existing Instances Toy.noble Toy.hash_laws Toy.dh_laws Toy.schnorr_laws.

Definition demo_request : LookupRequest :=
  mkLookupRequest 77 (nodeAddr (demo_identity 11)) (nodeAddr (demo_identity 9)) 8 1000 [nodeAddr (demo_identity 9)].

#[local] Abbreviation demo_handle id :=
  (handleLookupRequest (demo_routing_config id) (fun x _ => x) [0; 1]%nat (fun _ => None) demo_byNode 0 demo_request 100).

(** Node 11 answers its neighbour 5. *)
Definition demo_target : FipsRouting := demo_node 11 [demo_adjacent 5 "p5"].
Definition demo_answer : bytes := Eval vm_compute in demo_sent (demo_handle 11;; mret tt) demo_target.

(** Node 9 waits for the answer. *)
Definition demo_origin : FipsRouting :=
  set_originLookups (demo_node 9 [demo_adjacent 5 "p5"])
    (created (new_registry 64) 77 (fresh_lookup 77 (demo_name 11) (Some (publicKey (demo_identity 11))) 0 30000)).

Lemma lookup_request_handled_witness : exists fw r', demo_handle 5 demo_two = (Ok (Some fw), r') /\
  fw_sends fw = [1%nat] /\ Forall (hop_ok demo_two 0 1000) (fw_sends fw).
Proof.
  pose proof (lookup_request_handled (demo_routing_config 5) (fun x _ => x) [0; 1]%nat (fun _ => None) demo_byNode 0 demo_request 100
    demo_two (no_paths_ok demo_two eq_refl)) as Hh.
  assert (E : match fst (demo_handle 5 demo_two) with Ok (Some fw) => fw_sends fw | _ => [] end = [1%nat]) by (vm_compute; reflexivity).
  destruct (handleLookupRequest _ _ _ _ _ _ _ _ _) as [[[fw|]|e] r']; [|discriminate E..].
  destruct Hh as (_ & _ & _ & [_ _ Hhops _]). exists fw, r'. split; [reflexivity|]. split; [exact E|exact Hhops].
Defined.

Lemma reverse_paths_bounded_witness : let r := snd (demo_handle 5 demo_two) in
  len (lookupReversePaths r) = 1 /\ forall key k, JsMap.get_ (lookupReversePaths r) key = Some k -> exists rv, reverses r !! k = Some rv.
Proof.
  cbv zeta. split; [vm_compute; reflexivity|].
  assert (Hrun : rtc lookup_step demo_two (snd (demo_handle 5 demo_two))) by apply rtc_once, LsRequest.
  exact (proj1 (proj2 (proj2 (reverse_paths_bounded demo_two _ eq_refl Hrun)))).
Defined.

(** Node 5 returns the answer to node 9. *)
Lemma lookup_response_returns_witness :
  let r := snd (demo_handle 5 demo_two) in
  let r' := snd (forwardLookupResponse (demo_routing_config 5) 1 demo_answer 200 r) in
  (exists back encoded, sent r' = sent r ++ [(back, LinkMessageType.LookupResponse, encoded)] /\ back <> 1%nat) /\
  sent (snd (forwardLookupResponse (demo_routing_config 5) 1 demo_answer 300 r')) = sent r'.
Proof.
  cbv zeta. assert (Hok : paths_ok (snd (demo_handle 5 demo_two))) by (apply maintains_handle, no_paths_ok; reflexivity).
  destruct (lookup_response_returns (demo_routing_config 5) 1 demo_answer 200 _ Hok) as [E|(p & key & rv & m & encoded & Hret & _ & Es & Hmore)].
  { apply (f_equal length) in E. vm_compute in E. discriminate E. }
  split; [exists (rv_peer rv), encoded; split; [exact Es|apply (rt_back _ _ _ _ _ _ _ _ Hret)]|].
  apply (Hmore (demo_routing_config 5) 1%nat demo_answer p 300 (rt_decoded _ _ _ _ _ _ _ _ Hret) eq_refl eq_refl).
Defined.

Lemma demo_origin_ok : registry_ok (originLookups demo_origin).
Proof. apply created_ok; try done. apply (wo_registry _ (new_world_ok 0)). Qed.

(** Node 9 accepts it, with the path MTU lowered to 1100. *)
Lemma lookup_answer_accepted_witness : exists arrived r' l',
  handleOriginLookupResponse (demo_routing_config 9) 0 arrived 300 demo_origin = (Ok true, r') /\
  lookups (originLookups r') !! 0%nat = Some l' /\ promise l' = Resolved.
Proof.
  destruct (demo_handle 11 demo_target) as [res rT'] eqn:Eh.
  assert (Eres : fst (demo_handle 11 demo_target) = Ok None) by (vm_compute; reflexivity).
  assert (Esent : sent (snd (demo_handle 11 demo_target)) = [(0%nat, LinkMessageType.LookupResponse, demo_answer)]) by (vm_compute; reflexivity).
  rewrite Eh in Eres, Esent. cbn [fst snd] in Eres, Esent. subst res.
  destruct (lookup_answer_accepted (demo_routing_config 11) (fun x _ => x) [0; 1]%nat (fun _ => None) demo_byNode 0 demo_request 100 demo_target rT')
    as (p & payload & Ep & Ed & Haccept);
    [apply demo_identity_wf; vm_compute; reflexivity|apply tree_ok_new; vm_compute; reflexivity|done|done|vm_compute; discriminate|exact Eh|].
  rewrite Esent in Ep. change (sent demo_target) with (@nil (nat * Z * bytes)) in Ep. cbn [app] in Ep. injection Ep as <-.
  assert (Earr : exists arrived, encodeLookupResponsePayload (with_pathMtu p 1100) = Ok arrived).
  { vm_compute in Ed. injection Ed as <-. eexists. vm_compute. reflexivity. }
  destruct Earr as [arrived Earr].
  destruct (Haccept (demo_routing_config 9) 0%nat 1100 arrived 300 demo_origin 0%nat
    (fresh_lookup 77 (demo_name 11) (Some (publicKey (demo_identity 11))) 0 30000) (demo_name 5) Earr) as (r' & l' & E & El & Ep & _);
    [apply demo_origin_ok|done|vm_compute; reflexivity|vm_compute; reflexivity|done|done|by intros pk [= <-]|vm_compute; discriminate|vm_compute; reflexivity|].
  exists arrived, r', l'. exact (conj E (conj El Ep)).
Defined.
