(* ===== verification/Datagrams.v ===== *)
(** * Session datagrams in transit

    [node/FipsRouting.ts]: how a node delivers, forwards and originates session
    datagrams, and what it learns from the coordinates they carry. A send that has
    to wait, for a route to be resolved or a lookup to be answered, is cut there:
    the result says what is awaited, and a further operation goes on from it. *)

From S2P Require Import Prelude Codec Crypto Toy NodeAddr Identity F64 Bloom Link FspWire SessionMsg Discovery FmpWire.
From S2P Require Import FmpLink TreeState LearnedRoutes OriginLookups Peers BloomRouting Routing Announce Lookups.

(** [sendSessionDatagram] after its first choice of a next hop: there is one, or
    the transports resolve the destination, or a lookup is made for it. *)
Inductive RouteHop := Via (i : nat) | NeedResolve | NeedLookup.

(** The choice for one frame: send it, or look up a wider path. *)
Inductive FrameHop := FrameVia (i : nat) | NeedWider (mtu : Z).

(** What becomes of a datagram that arrives. *)
Inductive Arrival := Delivered (src : NodeAddr) (payload : bytes) | Dropped | InTransit (d : SessionDatagram) (hop : RouteHop).

Section Datagrams.
Context `{Noble} (cfg : FipsRoutingConfig) (Math_pow : F64.t -> F64.t -> F64.t).
Context (getPeers : list nat) (getPeerByPubkey getPeerByNodeAddr : string -> option nat).
Let next_hop := nextHopFor cfg Math_pow getPeers getPeerByPubkey getPeerByNodeAddr.

(** ** Coordinates *)

(** The [try] block of [cacheSessionCoordinates]. *)
Definition cache_decoded (d : SessionDatagram) : ST FipsRouting unit :=
  let phase := js_and (byte_at (sd_payload d) 0) 0x0f in
  if phase =? 1 then
    setup ← lift (decodeSessionSetup (sd_payload d));
    cacheCoordinates (srcAddr d) (ss_srcCoords setup);;
    cacheCoordinates (destAddr d) (ss_destCoords setup)
  else if phase =? 2 then
    ack ← lift (decodeSessionAck (sd_payload d));
    cacheCoordinates (srcAddr d) (ss_srcCoords ack);;
    cacheCoordinates (destAddr d) (ss_destCoords ack)
  else if (phase =? 0) && negb (js_and (byte_at (sd_payload d) 1) FSP_FLAG_CP =? 0) then
    established ← lift (decodeFspEstablished (sd_payload d));
    cacheCoordinates (srcAddr d) (default [] (fe_srcCoords established));;
    cacheCoordinates (destAddr d) (default [] (fe_destCoords established))
  else mret tt.

Definition cacheSessionCoordinates (d : SessionDatagram) : ST FipsRouting unit :=
  try_catch (cache_decoded d) (fun _ => mret tt).

(** ** Sending *)

Definition sendSessionDatagramVia (i : nat) (d : SessionDatagram) : ST FipsRouting unit :=
  lift (nodeAddrToHex (srcAddr d));;
  lift (nodeAddrToHex (destAddr d));;
  encoded ← lift (encodeSessionDatagram d);
  send_message i LinkMessageType.SessionDatagram (subarray_from encoded 1).

(** [sendSessionDatagram] up to its first [await], if there is one. *)
Definition route_hop (dest : NodeAddr) (previousHop : option nat) (nowMs : Z) : ST FipsRouting RouteHop :=
  destNodeHex ← lift (nodeAddrToHex dest);
  nextHop ← next_hop destNodeHex previousHop 0 nowMs;
  mret match nextHop, previousHop with
       | Some i, _ => Via i
       | None, None => NeedResolve
       | None, Some _ => NeedLookup
       end.

(** After that [await]. *)
Definition route_again (dest : NodeAddr) (previousHop : option nat) (nowMs : Z) : ST FipsRouting nat :=
  destNodeHex ← lift (nodeAddrToHex dest);
  nextHop ← next_hop destNodeHex previousHop 0 nowMs;
  match nextHop with Some i => mret i | None => throw (Error "no route") end.

(** The next hop of one frame, where [hop] was that of the frame before. *)
Definition frame_hop (dest : NodeAddr) (previousHop : option nat) (hop : nat) (payload : bytes) (nowMs : Z) : ST FipsRouting FrameHop :=
  destNodeHex ← lift (nodeAddrToHex dest);
  let minMtu := len payload + ROUTED_FRAME_OVERHEAD in
  r ← get;
  pathMtu ← lift (pathMtuFor destNodeHex hop nowMs r);
  if pathMtu <? minMtu then
    nextHop ← next_hop destNodeHex previousHop minMtu nowMs;
    mret match nextHop with Some i => FrameVia i | None => NeedWider minMtu end
  else mret (FrameVia hop).

(** After the lookup for a wider path, which [resolved] to a next hop. *)
Definition frame_resolved (previousHop : option nat) (mtu : Z) (resolved : option string) (r : FipsRouting) : result nat :=
  hop ← selectCarrier (fr_peers r) (fr_links r) (getPeerByNodeAddr (default ""%string resolved)) getPeers previousHop mtu;
  match hop with Some i => Ok i | None => Throw (Error "no route with MTU") end.

(** One frame that does not have to wait. *)
Definition send_frame (d : SessionDatagram) (previousHop : option nat) (hop : nat) (payload : bytes) (nowMs : Z) : ST FipsRouting FrameHop :=
  choice ← frame_hop (destAddr d) previousHop hop payload nowMs;
  (match choice with
   | FrameVia i => sendSessionDatagramVia i (mkDatagram (ttl d) (Link.pathMtu d) (srcAddr d) (destAddr d) payload)
   | NeedWider _ => mret tt
   end);;
  mret choice.

(** [sendFspToward] and [sendFspReplyToward] *)
Definition fsp_datagram (remoteNodeAddr : NodeAddr) (fspFrame : bytes) : SessionDatagram :=
  mkDatagram 64 FSP_DEFAULT_PATH_MTU (nodeAddr (rc_identity cfg)) remoteNodeAddr fspFrame.

Definition sendFspReplyToward (remoteNodeAddr : NodeAddr) (fspFrame : bytes) (previousHop : nat) : ST FipsRouting unit :=
  sendSessionDatagramVia previousHop (fsp_datagram remoteNodeAddr fspFrame).

(** ** Arriving *)

(** [{ ...datagram, ttl: datagram.ttl - 1 }] *)
Definition hop_further (d : SessionDatagram) : SessionDatagram :=
  mkDatagram (ttl d - 1) (Link.pathMtu d) (srcAddr d) (destAddr d) (sd_payload d).

(** The branch of [handleLinkMessage] for session datagrams. *)
Definition SessionDatagram_message (assertNodeAllowed : NodeAddr -> result unit) (source : nat) (payload : bytes) (nowMs : Z)
    : ST FipsRouting Arrival :=
  d ← lift (decodeSessionDatagramPayload payload);
  lift (assertNodeAllowed (srcAddr d));;
  lift (assertNodeAllowed (destAddr d));;
  cacheSessionCoordinates d;;
  if bytesEqual (destAddr d) (nodeAddr (rc_identity cfg)) then
    lift (nodeAddrToHex (srcAddr d));;
    mret (Delivered (srcAddr d) (sd_payload d))
  else if negb (rc_forwarding cfg) then mret Dropped
  else if ttl d <=? 1 then mret Dropped
  else
    lift (nodeAddrToHex (srcAddr d));;
    lift (nodeAddrToHex (destAddr d));;
    hop ← route_hop (destAddr d) (Some source) nowMs;
    mret (InTransit (hop_further d) hop).
End Datagrams.

(** ** In transit *)

Section Transit.
Context `{Noble} (cfg : FipsRoutingConfig) (Math_pow : F64.t -> F64.t -> F64.t).
Context (getPeers : list nat) (getPeerByPubkey getPeerByNodeAddr : string -> option nat).

(** A change of the coordinates and the learned routes alone. *)
Lemma caches_session d : respects caches (cacheSessionCoordinates d).
Proof.
  unfold cacheSessionCoordinates, cache_decoded.
  solve_respects. all: try apply caches_cache.
Qed.

Lemma learns_caches r r' : learns r r' -> caches r r'.
Proof. intros [t ->]. exists (coordCache r), t. by destruct r. Qed.

Lemma caches_route_hop dest previous nowMs : respects caches (route_hop cfg Math_pow getPeers getPeerByPubkey getPeerByNodeAddr dest previous nowMs).
Proof.
  unfold route_hop. solve_respects. intros r. apply learns_caches.
  exact (learns_next_hop cfg Math_pow getPeers getPeerByPubkey getPeerByNodeAddr _ _ _ _ r).
Qed.

Lemma hop_ok_caches r r' source mtu i : caches r r' -> hop_ok r' source mtu i -> hop_ok r source mtu i.
Proof. intros (c & t & ->). by apply hop_ok_view. Qed.

Lemma route_hop_ok dest source nowMs r hop r' :
  route_hop cfg Math_pow getPeers getPeerByPubkey getPeerByNodeAddr dest (Some source) nowMs r = (Ok hop, r') ->
  match hop with Via i => hop_ok r' source 0 i | NeedResolve => False | NeedLookup => True end.
Proof.
  unfold route_hop. intros E. apply ST_bind_inv in E as (hex & r1 & _ & E). apply ST_bind_inv in E as (o & r2 & En & E).
  unfold mret, ST_ret in E. injection E as <- <-. destruct o as [i|]; [|done]. by eapply fit_hop, next_hop_fit.
Qed.

(** What the handler does with a datagram, in each case. *)
Definition arrives (own : NodeAddr) (source : nat) (r : FipsRouting) (d : SessionDatagram) (a : Arrival) : Prop :=
  match a with
  | Delivered src payload => destAddr d = own /\ src = srcAddr d /\ payload = sd_payload d
  | Dropped => destAddr d <> own /\ (rc_forwarding cfg = false \/ ttl d <= 1)
  | InTransit d' hop => destAddr d <> own /\ rc_forwarding cfg = true /\ 1 < ttl d /\
      d' = mkDatagram (ttl d - 1) (Link.pathMtu d) (srcAddr d) (destAddr d) (sd_payload d) /\
      match hop with Via i => hop_ok r source 0 i | NeedResolve => False | NeedLookup => True end
  end.

Lemma message_effect allowed source payload nowMs r res r' :
  SessionDatagram_message cfg Math_pow getPeers getPeerByPubkey getPeerByNodeAddr allowed source payload nowMs r = (res, r') ->
  caches r r' /\ forall a, res = Ok a -> exists d, decodeSessionDatagramPayload payload = Ok d /\
    allowed (srcAddr d) = Ok tt /\ allowed (destAddr d) = Ok tt /\ arrives (nodeAddr (rc_identity cfg)) source r d a.
Proof.
  intros E. assert (Hc : caches r r').
  { assert (Hm : respects caches (SessionDatagram_message cfg Math_pow getPeers getPeerByPubkey getPeerByNodeAddr allowed source payload nowMs)).
    { unfold SessionDatagram_message. solve_respects; try apply caches_session. apply caches_route_hop. }
    specialize (Hm r). by rewrite E in Hm. }
  split; [done|]. intros a ->. unfold SessionDatagram_message in E.
  apply ST_bind_inv in E as (d & r1 & Ed & E). unfold lift in Ed. injection Ed as Ed <-.
  apply ST_bind_inv in E as ([] & r1 & Ea & E). unfold lift in Ea. injection Ea as Ea <-.
  apply ST_bind_inv in E as ([] & r1 & Eb & E). unfold lift in Eb. injection Eb as Eb <-.
  exists d. split_and!; [done..|]. apply ST_bind_inv in E as ([] & r1 & Ec & E).
  destruct (bytesEqual (destAddr d) (nodeAddr (rc_identity cfg))) eqn:Eown.
  { apply ST_bind_inv in E as (h & r2 & _ & E). unfold mret, ST_ret in E. injection E as <- _. by apply bytesEqual_true in Eown. }
  assert (Hne : destAddr d <> nodeAddr (rc_identity cfg)) by (intros Eq; rewrite Eq, bytesEqual_refl in Eown; done).
  destruct (rc_forwarding cfg) eqn:Ef; cbn [negb] in E; [|injection E as <- _; by split; [|left]].
  destruct (Z.leb_spec (ttl d) 1) as [Ht|Ht]; [injection E as <- _; by split; [|right]|].
  apply ST_bind_inv in E as (h1 & r2 & Eh1 & E). apply ST_bind_inv in E as (h2 & r3 & Eh2 & E).
  apply ST_bind_inv in E as (hop & r4 & Ehop & E). unfold mret, ST_ret in E. injection E as <- _.
  unfold lift in Eh1, Eh2. injection Eh1 as _ <-. injection Eh2 as _ <-.
  split_and!; [done..|]. pose proof (caches_session d r) as Hs. rewrite Ec in Hs. cbn [snd] in Hs.
  pose proof (caches_route_hop (destAddr d) (Some source) nowMs r1) as Hr. rewrite Ehop in Hr. cbn [snd] in Hr.
  apply route_hop_ok in Ehop. destruct hop as [i| |]; [|done..]. eapply hop_ok_caches; [|exact Ehop]. by etransitivity.
Qed.
End Transit.

(** C24: A datagram that arrives is delivered exactly when it is addressed to the
    node, unchanged; any other is passed on only by a forwarding node and while
    its time to live lasts, with one hop less and otherwise as it came, and to an
    established neighbour other than the one it came from. Both of its addresses
    are allowed by the node's policy. The handler changes what is known of
    coordinates and routes and nothing else, also where it throws. *)
Theorem datagram_arrives `{Noble} (cfg : FipsRoutingConfig) (Math_pow : F64.t -> F64.t -> F64.t)
    (getPeers : list nat) (getPeerByPubkey getPeerByNodeAddr : string -> option nat) (allowed : NodeAddr -> result unit)
    (source : nat) (payload : bytes) (nowMs : Z) (r : FipsRouting) :
  let '(res, r') := SessionDatagram_message cfg Math_pow getPeers getPeerByPubkey getPeerByNodeAddr allowed source payload nowMs r in
  (exists c t, r' = set_learnedRoutes (set_coordCache r c) t) /\
    forall a, res = Ok a -> exists d, decodeSessionDatagramPayload payload = Ok d /\
    allowed (srcAddr d) = Ok tt /\ allowed (destAddr d) = Ok tt /\ arrives cfg (nodeAddr (rc_identity cfg)) source r d a.
Proof.
  destruct (SessionDatagram_message _ _ _ _ _ _ _ _ _ _) as [res r'] eqn:E. by apply message_effect in E.
Qed.

(** ** Along a path *)

(** One node passes on what another sent: it handles the message that carries the
    datagram, under whatever configuration and in whatever state. *)
Inductive relays `{Noble} (d d' : SessionDatagram) : Prop :=
| Relay cfg pow getPeers getPeerByPubkey getPeerByNodeAddr allowed source nowMs r r' encoded hop :
    encodeSessionDatagram d = Ok encoded ->
    SessionDatagram_message cfg pow getPeers getPeerByPubkey getPeerByNodeAddr allowed source (subarray_from encoded 1) nowMs r =
      (Ok (InTransit d' hop), r') ->
    relays d d'.

Section Path.
Context `{Noble}.

(** The message is read as it was written. *)
Lemma decode_sent d encoded : 0 <= ttl d < 256 -> encodeSessionDatagram d = Ok encoded ->
  decodeSessionDatagramPayload (subarray_from encoded 1) = Ok d.
Proof.
  intros Ht Ee. apply encodeSessionDatagram_Ok in Ee. change (field 1 0) with (Some [x00]) in Ee.
  apply lseq_Some in Ee as (x & y & [= <-] & Ey & ->). apply decodeSessionDatagramPayload_Ok. by split.
Qed.

Lemma relays_forwarded d d' : 0 <= ttl d < 256 -> relays d d' -> Link.forwarded d d' /\ 0 <= ttl d' < 256.
Proof.
  intros Ht [cfg pow gp gpk gpn allowed source nowMs r r' encoded hop Ee E].
  apply message_effect in E as [_ E]. destruct (E _ eq_refl) as (d0 & Ed & _ & _ & _ & _ & Hlt & -> & _).
  rewrite (decode_sent d encoded Ht Ee) in Ed. injection Ed as <-. split; [by apply forwarded_iff|]. cbn. lia.
Qed.

Lemma relayed n d d' : 0 <= ttl d < 256 -> nsteps relays n d d' -> nsteps Link.forwarded n d d' /\ 0 <= ttl d' < 256.
Proof.
  intros Ht Hn. revert Ht. induction Hn as [d|n d d1 d' Hs Hn IH]; intros Ht; [by split; [constructor|]|].
  destruct (relays_forwarded d d1 Ht Hs) as [Hf Ht1]. destruct (IH Ht1) as [Hn' Ht']. split; [by econstructor|done].
Qed.
End Path.

(** C21: No datagram circulates: sent with a time to live below 256, as the wire
    has it, it is passed on fewer times than that by all the nodes it meets
    together, whatever their routes are. And where it arrives it is delivered, as
    it was sent, to the node it was sent to. *)
Theorem datagram_path_bounded `{Noble} (n : nat) (d d' : SessionDatagram) :
  0 <= ttl d < 256 -> nsteps relays n d d' ->
  (n = 0%nat \/ Z.of_nat n < ttl d) /\
  d' = mkDatagram (ttl d - Z.of_nat n) (Link.pathMtu d) (srcAddr d) (destAddr d) (sd_payload d) /\
  forall cfg pow getPeers getPeerByPubkey getPeerByNodeAddr allowed source nowMs r r' encoded src payload,
    encodeSessionDatagram d' = Ok encoded ->
    SessionDatagram_message cfg pow getPeers getPeerByPubkey getPeerByNodeAddr allowed source (subarray_from encoded 1) nowMs r =
      (Ok (Delivered src payload), r') ->
    destAddr d = nodeAddr (rc_identity cfg) /\ src = srcAddr d /\ payload = sd_payload d.
Proof.
  intros Ht Hn. destruct (relayed n d d' Ht Hn) as [Hf Ht']. apply ttl_bounds_forwarding in Hf as [Hlt Ed'].
  split; [done|]. split; [done|]. intros cfg pow gp gpk gpn allowed source nowMs r r' encoded src payload Ee E.
  apply message_effect in E as [_ E]. destruct (E _ eq_refl) as (d0 & Ed & _ & _ & Harr).
  rewrite (decode_sent d' encoded Ht' Ee) in Ed. injection Ed as <-. by rewrite Ed' in Harr.
Qed.

(** ** Frames *)

Section Frames.
Context `{Noble, !AeadLaws}.

(** The datagram's header, the link's, and the tag. *)
Lemma datagram_len d encoded : encodeSessionDatagram d = Ok encoded -> len (subarray_from encoded 1) = len (sd_payload d) + 35.
Proof.
  intros Ee. apply encodeSessionDatagram_Ok in Ee. change (field 1 0) with (Some [x00]) in Ee.
  apply lseq_Some in Ee as (x & y & [= <-] & Ey & ->). change (subarray_from ([x00] ++ y) 1) with y.
  unfold datagram_body_layout in Ey. layout_inv. wire_facts. lia.
Qed.

Lemma frame_len k idx ctr ty payload frame : frame_of k idx ctr ty payload frame -> len frame = len payload + 37.
Proof.
  intros (ts & inner & aad & ct & _ & Ei & _ & Es & Ef). apply len_aeadSeal in Es.
  apply encodeFmpInner_Ok in Ei. apply encodeFmpEstablished_Ok in Ef. unfold inner_layout in Ei. unfold header_layout, prefix_layout in Ef.
  cbn [in_timestamp in_msgType in_payload est_header est_payloadLen est_ciphertext eh_flags eh_receiverIdx eh_counter
    phase version flags payloadLen] in Ei, Ef. layout_inv. wire_facts. lia.
Qed.

Lemma routed_frame_len d encoded k idx ctr frame : encodeSessionDatagram d = Ok encoded ->
  frame_of k idx ctr LinkMessageType.SessionDatagram (subarray_from encoded 1) frame ->
  len frame = len (sd_payload d) + ROUTED_FRAME_OVERHEAD.
Proof. intros Ee%datagram_len Ef%frame_len. change ROUTED_FRAME_OVERHEAD with 72. lia. Qed.

Context (cfg : FipsRoutingConfig) (Math_pow : F64.t -> F64.t -> F64.t).
Context (getPeers : list nat) (getPeerByPubkey getPeerByNodeAddr : string -> option nat).

(** Where a frame is to be sent, it fits. *)
Lemma frame_hop_fits dest previousHop hop payload nowMs r i r' :
  frame_hop cfg Math_pow getPeers getPeerByPubkey getPeerByNodeAddr dest previousHop hop payload nowMs r = (Ok (FrameVia i), r') ->
  exists mtu, sent r' = sent r /\ pathMtuFor (toHex dest) i nowMs r' = Ok mtu /\
    len payload + ROUTED_FRAME_OVERHEAD <= mtu /\ mtu <= capacity r' i.
Proof.
  assert (Hcap : forall r mtu, pathMtuFor (toHex dest) i nowMs r = Ok mtu -> mtu <= capacity r i).
  { intros r1 mtu Em. unfold pathMtuFor in Em. apply result_bind_ok in Em as (key & _ & [= <-]). lia. }
  unfold frame_hop. intros E. apply ST_bind_inv in E as (hex & r1 & Eh & E). unfold lift in Eh. injection Eh as Eh <-.
  apply nodeAddrToHex_Ok in Eh as [_ ->]. rewrite ST_get_bind in E.
  apply ST_bind_inv in E as (mtu & r1 & Em & E). unfold lift in Em. injection Em as Em <-.
  destruct (Z.ltb_spec mtu (len payload + ROUTED_FRAME_OVERHEAD)) as [_|Hle].
  - apply ST_bind_inv in E as (o & r2 & En & E). unfold mret, ST_ret in E. injection E as Eo <-.
    destruct o as [j|]; [|done]. injection Eo as ->. pose proof (next_hop_fit _ _ _ _ _ _ _ _ _ _ _ _ En) as [_ (mtu' & Em' & Hle)].
    exists mtu'. split_and!; [|done|done|by apply Hcap].
    destruct (learns_next_hop cfg Math_pow getPeers getPeerByPubkey getPeerByNodeAddr (toHex dest) previousHop (len payload + ROUTED_FRAME_OVERHEAD) nowMs r) as [t Et].
    rewrite En in Et. cbn [snd] in Et. by rewrite Et.
  - injection E as -> <-. exists mtu. split_and!; [done|done|done|by apply Hcap].
Qed.

Lemma send_via_run i d r r' : sendSessionDatagramVia i d r = (Ok tt, r') ->
  exists encoded, encodeSessionDatagram d = Ok encoded /\
    r' = set_sent r (sent r ++ [(i, LinkMessageType.SessionDatagram, subarray_from encoded 1)]).
Proof.
  unfold sendSessionDatagramVia. intros E. apply ST_bind_inv in E as (h1 & r1 & E1 & E). unfold lift in E1. injection E1 as _ <-.
  apply ST_bind_inv in E as (h2 & r1 & E1 & E). unfold lift in E1. injection E1 as _ <-.
  apply ST_bind_inv in E as (encoded & r1 & Ee & E). unfold lift in Ee. injection Ee as Ee <-.
  unfold send_message, modify in E. injection E as <-. by exists encoded.
Qed.
End Frames.

(** A frame goes only where it fits: the neighbour chosen for it, and the path
    to the destination behind that neighbour as far as it is known, carry it with
    all that the datagram and the link put around it, and what the link then
    seals is exactly that long. *)
Lemma routed_frame_fits `{Noble, !AeadLaws} (cfg : FipsRoutingConfig) (Math_pow : F64.t -> F64.t -> F64.t)
    (getPeers : list nat) (getPeerByPubkey getPeerByNodeAddr : string -> option nat)
    (d : SessionDatagram) (previousHop : option nat) (hop i : nat) (payload : bytes) (nowMs : Z) (r r' : FipsRouting) :
  send_frame cfg Math_pow getPeers getPeerByPubkey getPeerByNodeAddr d previousHop hop payload nowMs r = (Ok (FrameVia i), r') ->
  exists body mtu, sent r' = sent r ++ [(i, LinkMessageType.SessionDatagram, body)] /\
    pathMtuFor (toHex (destAddr d)) i nowMs r' = Ok mtu /\
    (forall k idx ctr frame, frame_of k idx ctr LinkMessageType.SessionDatagram body frame ->
      len frame = len payload + ROUTED_FRAME_OVERHEAD /\ len frame <= mtu /\ len frame <= capacity r' i).
Proof.
  intros E. unfold send_frame in E. apply ST_bind_inv in E as (choice & r1 & Ec & E).
  apply ST_bind_inv in E as ([] & r2 & Es & E). unfold mret, ST_ret in E. injection E as -> <-.
  destruct (frame_hop_fits cfg Math_pow getPeers getPeerByPubkey getPeerByNodeAddr _ _ _ _ _ _ _ _ Ec) as (mtu & Esent & Em & Hle & Hcap).
  apply send_via_run in Es as (encoded & Ee & ->). exists (subarray_from encoded 1), mtu.
  split; [cbn; by rewrite Esent|]. split; [exact Em|]. intros k idx ctr frame Hf.
  pose proof (routed_frame_len _ _ _ _ _ _ Ee Hf) as Hl. cbn in Hl. change (capacity (set_sent r1 _) i) with (capacity r1 i). lia.
Qed.

(** ** Coordinates *)

(** The coordinates under a node's name are that node's. *)
Definition coords_sound `{Noble} (r : FipsRouting) : Prop :=
  forall key cs, JsMap.get_ (coordCache r) key = Some cs -> exists a rest, cs = a :: rest /\ nodeAddrToHex a = Ok key.

Definition keeps_coords `{Noble} (r r' : FipsRouting) : Prop := coords_sound r -> coords_sound r'.

#[export] Instance keeps_coords_preorder `{Noble} : PreOrder keeps_coords.
Proof. split; [by intros r Hr|]. intros a b c Hab Hbc Ha. by apply Hbc, Hab. Qed.

Section Coordinates.
Context `{Noble}.

Lemma same_coords r r' : coordCache r' = coordCache r -> keeps_coords r r'.
Proof. intros E Hr. unfold coords_sound. by rewrite E. Qed.

Lemma keeps_message i ty payload : respects keeps_coords (send_message i ty payload).
Proof. intros r. by apply same_coords. Qed.

Lemma keeps_delete key : respects keeps_coords (modify (fun r => set_reversePaths r (JsMap.delete_ (lookupReversePaths r) key))).
Proof. intros r. by apply same_coords. Qed.

Lemma keeps_prune nowMs : respects keeps_coords (pruneLookupReversePaths nowMs).
Proof. intros r. by apply same_coords. Qed.

Lemma keeps_learn cfg dest i mtu nowMs : respects keeps_coords (learnReverseRoute cfg dest i mtu nowMs).
Proof. unfold learnReverseRoute. solve_respects. apply respects_zoom. intros t r. by apply same_coords. Qed.

Lemma keeps_lookups {A} (m : ST OriginLookupRegistry A) : respects keeps_coords (zoom_lookups m).
Proof. apply respects_zoom. intros t r. by apply same_coords. Qed.

Lemma keeps_next_hop cfg pow gp gpk gpn dest excluded mtu nowMs : respects keeps_coords (nextHopFor cfg pow gp gpk gpn dest excluded mtu nowMs).
Proof. intros r. destruct (learns_next_hop cfg pow gp gpk gpn dest excluded mtu nowMs r) as [t E]. rewrite E. by apply same_coords. Qed.

Lemma keeps_cache a cs : respects keeps_coords (cacheCoordinates a cs).
Proof.
  intros r Hr. unfold cacheCoordinates. destruct cs as [|c cs]; [done|].
  destruct (bytesEqual c a) eqn:Eb; [|done]. cbn [negb]. destruct (nodeAddrToHex a) as [key|e] eqn:Eh; [|done].
  rewrite (ST_lift_bind _ _ _ _ eq_refl). apply bytesEqual_true in Eb as ->.
  intros key' cs'. cbn. destruct (decide (key = key')) as [<-|Hne].
  - rewrite JsMap.get_set_eq. intros [= <-]. by exists a, cs.
  - rewrite JsMap.get_set_ne by done. apply Hr.
Qed.
End Coordinates.

#[export] Hint Resolve keeps_message keeps_delete keeps_prune keeps_learn keeps_lookups keeps_next_hop keeps_cache : respects.

(** What writes the cache, and every change that leaves it alone. *)
Inductive coords_step `{Noble} (r : FipsRouting) : FipsRouting -> Prop :=
| CsOrigin cfg source payload nowMs : coords_step r (snd (handleOriginLookupResponse cfg source payload nowMs r))
| CsResponse cfg source payload nowMs : coords_step r (snd (forwardLookupResponse cfg source payload nowMs r))
| CsDatagram cfg pow gp gpk gpn allowed source payload nowMs :
    coords_step r (snd (SessionDatagram_message cfg pow gp gpk gpn allowed source payload nowMs r))
| CsStop r' : coordCache r' = [] -> coords_step r r'
| CsOther r' : coordCache r' = coordCache r -> coords_step r r'.

Lemma coords_step_sound `{Noble} r r' : coords_sound r -> coords_step r r' -> coords_sound r'.
Proof.
  intros Hr [cfg source payload nowMs|cfg source payload nowMs|cfg pow gp gpk gpn allowed source payload nowMs|r1 E|r1 E].
  - assert (Hm : respects keeps_coords (handleOriginLookupResponse cfg source payload nowMs))
      by (unfold handleOriginLookupResponse; solve_respects). by apply Hm.
  - assert (Hm : respects keeps_coords (forwardLookupResponse cfg source payload nowMs))
      by (unfold forwardLookupResponse; solve_respects). by apply Hm.
  - assert (Hm : respects keeps_coords (SessionDatagram_message cfg pow gp gpk gpn allowed source payload nowMs))
      by (unfold SessionDatagram_message, cacheSessionCoordinates, cache_decoded, route_hop; solve_respects). by apply Hm.
  - intros key cs. by rewrite E.
  - by apply (same_coords r).
Qed.

(** Whatever answers and datagrams a node sees, the coordinates it holds under
    a node's name start with that node's address: nobody's path is kept under
    another's name. *)
Lemma cached_coordinates_named `{Noble} (r0 r : FipsRouting) :
  coordCache r0 = [] -> rtc coords_step r0 r ->
  forall key cs, JsMap.get_ (coordCache r) key = Some cs -> exists a rest, cs = a :: rest /\ nodeAddrToHex a = Ok key.
Proof.
  intros E0 Hrun. apply (rtc_invariant coords_step coords_sound r0 r); [intros x y; apply coords_step_sound| |done].
  intros key cs. by rewrite E0.
Qed.

(** ** Example

    Node 5 passes a datagram from node 9 on to node 11. *)

#[local] Existing Instances Toy.noble Toy.aead_laws.

Definition demo_datagram : SessionDatagram := mkDatagram 64 1200 (nodeAddr (demo_identity 9)) (nodeAddr (demo_identity 11)) [x07].
Definition demo_encoded : bytes := Eval vm_compute in ok_or (encodeSessionDatagram demo_datagram) [].

Lemma datagram_path_bounded_witness : exists d', nsteps relays 1 demo_datagram d' /\ ttl d' = 63 /\ destAddr d' = nodeAddr (demo_identity 11).
Proof.
  destruct (SessionDatagram_message (demo_routing_config 5) (fun x _ => x) [0; 1]%nat (fun _ => None) demo_byNode (fun _ => Ok tt) 0
    (subarray_from demo_encoded 1) 100 demo_two) as [res r'] eqn:E.
  assert (Er : fst (SessionDatagram_message (demo_routing_config 5) (fun x _ => x) [0; 1]%nat (fun _ => None) demo_byNode (fun _ => Ok tt) 0
    (subarray_from demo_encoded 1) 100 demo_two) = Ok (InTransit (hop_further demo_datagram) (Via 1))) by (vm_compute; reflexivity).
  rewrite E in Er. cbn [fst] in Er. subst res. exists (hop_further demo_datagram).
  assert (Hs : nsteps relays 1 demo_datagram (hop_further demo_datagram)).
  { eapply nsteps_once, Relay; [|exact E]. vm_compute. reflexivity. }
  split; [exact Hs|]. destruct (datagram_path_bounded 1 demo_datagram (hop_further demo_datagram)) as (_ & Ed & _);
    [vm_compute; split; [discriminate|reflexivity]|exact Hs|]. rewrite Ed. split; reflexivity.
Defined.

Lemma routed_frame_fits_witness : exists body mtu,
  sent (snd (send_frame (demo_routing_config 5) (fun x _ => x) [0; 1]%nat (fun _ => None) demo_byNode demo_datagram None 1 [x07] 100 demo_two)) =
    [(1%nat, LinkMessageType.SessionDatagram, body)] /\
  forall k idx ctr frame, frame_of k idx ctr LinkMessageType.SessionDatagram body frame -> len frame = 73 /\ len frame <= mtu.
Proof.
  destruct (send_frame (demo_routing_config 5) (fun x _ => x) [0; 1]%nat (fun _ => None) demo_byNode demo_datagram None 1 [x07] 100 demo_two)
    as [res r'] eqn:E.
  assert (Er : fst (send_frame (demo_routing_config 5) (fun x _ => x) [0; 1]%nat (fun _ => None) demo_byNode demo_datagram None 1 [x07] 100 demo_two)
    = Ok (FrameVia 1)) by (vm_compute; reflexivity).
  rewrite E in Er. cbn [fst] in Er. subst res.
  destruct (routed_frame_fits (demo_routing_config 5) (fun x _ => x) [0; 1]%nat (fun _ => None) demo_byNode demo_datagram None 1 1 [x07] 100
    demo_two r' E) as (body & mtu & Es & _ & Hf). exists body, mtu. split; [exact Es|].
  intros k idx ctr frame Hfr. destruct (Hf k idx ctr frame Hfr) as (E1 & E2 & _). split; [exact E1|exact E2].
Defined.

(** The answer that node 5 returns leaves node 11's coordinates there. *)
Definition demo_waiting_node : FipsRouting :=
  set_reversePaths (set_reverses demo_two [mkReverse 0 30100 ∅ (dec_ttl demo_request)])
    [(ok_or (lookupReverseKey 77 (nodeAddr (demo_identity 11))) ""%string, 0%nat)].

Lemma cached_coordinates_named_witness :
  let r := snd (forwardLookupResponse (demo_routing_config 5) 1 demo_answer 200 demo_waiting_node) in
  exists cs, JsMap.get_ (coordCache r) (demo_name 11) = Some cs /\ exists a rest, cs = a :: rest /\ nodeAddrToHex a = Ok (demo_name 11).
Proof.
  cbv zeta. assert (Hrun : rtc coords_step demo_two (snd (forwardLookupResponse (demo_routing_config 5) 1 demo_answer 200 demo_waiting_node))).
  { eapply rtc_l; [apply (CsOther _ demo_waiting_node); reflexivity|]. apply rtc_once, CsResponse. }
  destruct (JsMap.get_ (coordCache (snd (forwardLookupResponse (demo_routing_config 5) 1 demo_answer 200 demo_waiting_node))) (demo_name 11)) as [cs|] eqn:E.
  - exists cs. split; [reflexivity|]. exact (cached_coordinates_named demo_two _ eq_refl Hrun _ _ E).
  - vm_compute in E. discriminate E.
Defined.
