(* ===== verification/Resolution.v ===== *)
(** * Resolving a route

    [node/routingHelpers.ts] ([resolveTransportIdentity]) and
    [node/FipsRouting.ts] ([resolveRoute], [resolveIdentity]): the race of the
    transports that can resolve an address to an identity, and the table of
    resolutions under way. What the transports answer, the timer and the abort
    signal are events, each handled before the next one happens. *)

From S2P Require Import Prelude Codec Crypto Toy NodeAddr Identity FmpLink Peers BloomRouting Routing.

(** ** The race *)

Record ResolvedTransportIdentity := mkResolved {
  rs_transport : Transport;
  rs_remoteAddr : TransportAddress;
  rs_remotePubkey : bytes;
}.

(** What a transport's [resolve] settles with, when the abort timer fires, and
    when the node or another caller aborts, with what [isStarted] says then. *)
Inductive RaceEvent :=
| Answered (k : nat) (answer : result (option DiscoveredPeer))
| TimerFired (isStarted : bool)
| Aborted (isStarted : bool).

(** The resolvers still to answer, the signal, and what the race settled with. *)
Record Race := mkRace {
  unanswered : list nat;
  race_aborted : bool;
  race_result : option (result ResolvedTransportIdentity);
}.

Section Resolve.
Context `{Noble} (resolvers : list Transport) (destNodeAddr : NodeAddr).

(** The async function of [resolutionTasks]. *)
Definition resolution_task (transport : Transport) (answer : result (option DiscoveredPeer)) : result ResolvedTransportIdentity :=
  discovered ← answer;
  match discovered with
  | None => Throw (Error "transport did not resolve destination")
  | Some d =>
      throw_if (negb (bool_decide (ta_transport (dp_remoteAddr d) = tr_type transport))) (Error "resolved address transport mismatch");;
      remotePubkey ← discoveryPublicKey d;
      addr ← deriveNodeAddr remotePubkey;
      throw_if (negb (bytesEqual addr destNodeAddr)) (Error "resolved identity does not match destination NodeAddr");;
      Ok (mkResolved transport (dp_remoteAddr d) remotePubkey)
  end.

Definition noRoute : js_error := Error "no route".

(** [resolveTransportIdentity] up to the race. *)
Definition resolveTransportIdentity (isStarted aborted : bool) : result Race :=
  nodeAddrToHex destNodeAddr;;
  throw_if (aborted || negb isStarted) (Error "FIPS node stopped");;
  throw_if (len resolvers =? 0) noRoute;;
  Ok (mkRace (seq 0 (length resolvers)) false None).

(** The race settles: the [finally] block aborts the resolvers. *)
Definition settle_race (s : Race) (res : result ResolvedTransportIdentity) : Race :=
  mkRace (unanswered s) true (Some res).

Definition on_abort (isStarted : bool) (s : Race) : Race :=
  match race_result s with
  | None => settle_race s (Throw (if isStarted then noRoute else Error "FIPS node stopped"))
  | Some _ => mkRace (unanswered s) true (race_result s)
  end.

Definition on_answer (k : nat) (answer : result (option DiscoveredPeer)) (s : Race) : Race :=
  match race_result s, resolvers !! k with
  | None, Some transport =>
      if negb (bool_decide (k ∈ unanswered s)) then s else
      let s1 := mkRace (filter (.≠ k) (unanswered s)) (race_aborted s) None in
      match resolution_task transport answer with
      | Ok resolved => settle_race s1 (Ok resolved)
      | Throw _ => if len (unanswered s1) =? 0 then settle_race s1 (Throw noRoute) else s1
      end
  | _, _ => s
  end.

Definition race_step (s : Race) (e : RaceEvent) : Race :=
  match e with
  | Answered k answer => on_answer k answer s
  | TimerFired isStarted | Aborted isStarted => on_abort isStarted s
  end.

Definition race_run (es : list RaceEvent) (s : Race) : Race := fold_left race_step es s.

(** An answer that names the destination's identity. *)
Record vouches (r : ResolvedTransportIdentity) (k : nat) (answer : result (option DiscoveredPeer)) : Prop := {
  vo_transport : resolvers !! k = Some (rs_transport r);
  vo_answer : exists d, answer = Ok (Some d) /\ rs_remoteAddr r = dp_remoteAddr d /\ discoveryPublicKey d = Ok (rs_remotePubkey r);
  vo_type : ta_transport (rs_remoteAddr r) = tr_type (rs_transport r);
  vo_key : deriveNodeAddr (rs_remotePubkey r) = Ok destNodeAddr;
}.

Lemma task_vouches transport k answer r : resolvers !! k = Some transport -> resolution_task transport answer = Ok r -> vouches r k answer.
Proof.
  intros Ek E. unfold resolution_task in E. apply result_bind_ok in E as (o & -> & E). destruct o as [d|]; [|done].
  apply guard_Ok in E as [Et E]. apply result_bind_ok in E as (pk & Epk & E). apply result_bind_ok in E as (addr & Ea & E).
  apply guard_Ok in E as [Eb [= <-]]. apply negb_false_iff in Et, Eb. apply bool_decide_eq_true in Et. apply bytesEqual_true in Eb as ->.
  split; cbn; try done. by exists d.
Qed.

(** What holds of a race after the events [es]. *)
Definition found_ok (es : list RaceEvent) (s : Race) : Prop :=
  forall r, race_result s = Some (Ok r) -> exists k answer, (Answered k answer) ∈ es /\ vouches r k answer.

Record waits (es : list RaceEvent) (s : Race) : Prop := {
  wt_result : race_result s = None;
  wt_aborted : race_aborted s = false;
  wt_alarm : forall b, (TimerFired b ∉ es) /\ (Aborted b ∉ es);
  wt_some : unanswered s <> [];
  wt_unanswered : forall k, k ∈ unanswered s <-> (k < length resolvers)%nat /\ forall a, (Answered k a) ∉ es;
}.

Record race_ok (es : list RaceEvent) (s : Race) : Prop := {
  rk_found : found_ok es s;
  rk_phase : waits es s \/ is_Some (race_result s) /\ race_aborted s = true;
}.

Lemma found_more es e s : found_ok es s -> found_ok (es ++ [e]) s.
Proof. intros Hf r (k & a & Hin & Hv)%Hf. exists k, a. split; [apply elem_of_app; by left|done]. Qed.

Lemma settled_ok es s : is_Some (race_result s) -> race_aborted s = true -> found_ok es s -> race_ok es s.
Proof. intros Hs Ha Hf. split; [done|by right]. Qed.

Lemma waits_answered es s k answer : waits es s ->
  (resolvers !! k = None \/ k ∉ unanswered s) -> waits (es ++ [Answered k answer]) s.
Proof.
  intros [Er Ea Hal Hs Hu] Hk. split; [done|done| |done|].
  - intros b. destruct (Hal b). rewrite !not_elem_of_app, !list_elem_of_singleton. by split.
  - intros j. rewrite Hu. setoid_rewrite not_elem_of_app. setoid_rewrite list_elem_of_singleton. split; [|naive_solver].
    intros [Hj Hn]. split; [done|]. intros a. split; [done|]. intros [= -> ->]. destruct Hk as [Hk%lookup_ge_None|Hk]; [lia|].
    apply Hk, Hu. by split.
Qed.

Lemma waits_one_less es s k answer : waits es s -> filter (.≠ k) (unanswered s) <> [] ->
  waits (es ++ [Answered k answer]) (mkRace (filter (.≠ k) (unanswered s)) (race_aborted s) None).
Proof.
  intros [Er Ea Hal Hs Hu] Hne. split; [done|done| |done|].
  - intros b. destruct (Hal b). rewrite !not_elem_of_app, !list_elem_of_singleton. by split.
  - intros j. cbn. rewrite list_elem_of_filter, Hu. setoid_rewrite not_elem_of_app. setoid_rewrite list_elem_of_singleton.
    naive_solver.
Qed.

Lemma race_step_ok es s e : race_ok es s -> race_ok (es ++ [e]) (race_step s e).
Proof.
  intros [Hf [Hw|[[res Er] Ea]]].
  2:{ assert (Hs : race_result (race_step s e) = Some res /\ race_aborted (race_step s e) = true)
        by (destruct e as [k a|b|b]; cbn; unfold on_answer, on_abort; rewrite Er; done).
      destruct Hs as [Es Eab]. apply settled_ok; [by rewrite Es|done|]. apply (found_more _ e) in Hf. unfold found_ok in *. by rewrite Es, <- Er. }
  destruct e as [k answer|b|b]; cbn [race_step]; [|unfold on_abort; rewrite (wt_result _ _ Hw); apply settled_ok; [by eexists|done|intros r; by destruct b]..].
  unfold on_answer. rewrite (wt_result _ _ Hw). destruct (resolvers !! k) as [transport|] eqn:Ek;
    [|split; [by apply found_more|left; apply waits_answered; [done|by left]]].
  destruct (bool_decide_reflect (k ∈ unanswered s)) as [Hin|Hout]; cbn [negb];
    [|split; [by apply found_more|left; apply waits_answered; [done|by right]]].
  destruct (resolution_task transport answer) as [r|e] eqn:Et.
  - apply settled_ok; [by eexists|done|]. intros r' [= <-]. exists k, answer. split; [apply elem_of_app; right; by left|by eapply task_vouches].
  - cbn [unanswered]. destruct (Z.eqb_spec (len (filter (.≠ k) (unanswered s))) 0) as [E0|E0]; [apply settled_ok; done|].
    split; [done|left]. apply waits_one_less; [done|]. intros E. by rewrite E in E0.
Qed.

Lemma race_run_ok es0 es s : race_ok es0 s -> race_ok (es0 ++ es) (race_run es s).
Proof.
  revert es0 s. induction es as [|e es IH]; intros es0 s Hs; [by rewrite app_nil_r|].
  replace (es0 ++ e :: es) with ((es0 ++ [e]) ++ es) by (by rewrite <- app_assoc). by apply IH, race_step_ok.
Qed.

Lemma race_start isStarted aborted s : resolveTransportIdentity isStarted aborted = Ok s -> race_ok [] s.
Proof.
  unfold resolveTransportIdentity. intros E. apply result_bind_ok in E as (h & _ & E). apply guard_Ok in E as [_ E].
  apply guard_Ok in E as [En [= <-]]. apply Z.eqb_neq in En. split; [done|left]. split; cbn; [done|done| | |].
  - intros b. by split; apply not_elem_of_nil.
  - destruct resolvers; done.
  - intros k. rewrite elem_of_seq. split; [|lia]. intros Hk. split; [lia|]. intros a. apply not_elem_of_nil.
Qed.
End Resolve.

(** C27: A resolution can only end in an identity that the destination address is
    derived from, named by a transport asked, at an address of that transport.
    Whatever the answers and their order, what it ends with stays; it has ended
    once the timer fired, the node aborted or every transport answered; and when
    it has ended the transports still at work are told to stop. *)
Theorem route_resolution_authentic `{Noble} (resolvers : list Transport) (dest : NodeAddr) (isStarted aborted : bool)
    (s0 : Race) (es es' : list RaceEvent) : resolveTransportIdentity resolvers dest isStarted aborted = Ok s0 ->
  let s := race_run resolvers dest es s0 in
  (forall r, race_result s = Some (Ok r) -> exists k answer, (Answered k answer) ∈ es /\ vouches resolvers dest r k answer) /\
  (is_Some (race_result s) -> race_aborted s = true /\ race_result (race_run resolvers dest es' s) = race_result s) /\
  ((exists b, TimerFired b ∈ es) \/ (exists b, Aborted b ∈ es) \/ (forall k, (k < length resolvers)%nat -> exists a, (Answered k a) ∈ es) -> is_Some (race_result s)).
Proof.
  intros E0. cbv zeta. pose proof (race_run_ok resolvers dest [] es s0 (race_start _ _ _ _ _ E0)) as [Hf Hp]. cbn [app] in *.
  split; [exact Hf|]. destruct Hp as [[Er Ea Hal Hs Hu]|[Hs Ea]].
  - split; [rewrite Er; by intros []|]. intros [[b Hb]|[[b Hb]|Hall]]; [by destruct (Hal b)|by destruct (Hal b)|]. exfalso. destruct (unanswered _) as [|k ks]; [done|].
    destruct (proj1 (Hu k) ltac:(by left)) as [Hk Hn]. destruct (Hall k Hk) as [a Ha]. by apply (Hn a).
  - split; [|done]. intros _. split; [done|]. clear Hf Ea. revert Hs. generalize (race_run resolvers dest es s0).
    induction es' as [|e es' IH]; intros s [res Er]; [done|]. cbn.
    assert (Es : race_result (race_step resolvers dest s e) = race_result s)
      by (destruct e as [k a|b|b]; cbn; unfold on_answer, on_abort; by rewrite Er).
    etransitivity; [apply IH; rewrite Es, Er; by eexists|exact Es].
Qed.

(** ** The resolutions under way *)

(** A promise of [resolveAndConnectRoute], with its abort controller. *)
Record RouteTask := mkRouteTask { rt_dest : string; rt_aborted : bool; rt_settled : bool }.

(** [pendingRouteResolutions], whose entries refer to the promises made so far. *)
Record Resolutions := mkResolutions { pendingRouteResolutions : list (string * nat); routeTasks : list RouteTask }.

Inductive RouteWait := Joined (k : nat) | Begun (k : nat).

Definition set_pendingRoutes (m : list (string * nat)) (s : Resolutions) : Resolutions := mkResolutions m (routeTasks s).
Definition alter_task (k : nat) (f : RouteTask -> RouteTask) (s : Resolutions) : Resolutions :=
  mkResolutions (pendingRouteResolutions s) (alter f k (routeTasks s)).

(** [resolveRoute] up to its await. *)
Definition resolveRoute (destNodeHex : string) : ST Resolutions RouteWait :=
  s ← get;
  match JsMap.get_ (pendingRouteResolutions s) destNodeHex with
  | Some existing => mret (Joined existing)
  | None =>
      throw_when (len (pendingRouteResolutions s) >=? MAX_PENDING_ROUTE_RESOLUTIONS) (Error "route resolution capacity exceeded");;
      let k := length (routeTasks s) in
      modify (fun s => mkResolutions (pendingRouteResolutions s) (routeTasks s ++ [mkRouteTask destNodeHex false false]));;
      modify (fun s => set_pendingRoutes (JsMap.set_ (pendingRouteResolutions s) destNodeHex k) s);;
      mret (Begun k)
  end.

(** The promise settles, and the [finally] block runs. *)
Definition resolveRoute_settled (k : nat) : ST Resolutions unit :=
  s ← get;
  match routeTasks s !! k with
  | None => mret tt
  | Some task =>
      modify (alter_task k (fun t => mkRouteTask (rt_dest t) (rt_aborted t) true));;
      if decide (JsMap.get_ (pendingRouteResolutions s) (rt_dest task) = Some k)
      then modify (fun s => set_pendingRoutes (JsMap.delete_ (pendingRouteResolutions s) (rt_dest task)) s)
      else mret tt
  end.

(** The part of [stop] for them. *)
Definition stop_resolutions : ST Resolutions unit :=
  s ← get;
  for_each (fun k => modify (alter_task k (fun t => mkRouteTask (rt_dest t) true (rt_settled t)))) (map snd (pendingRouteResolutions s));;
  modify (set_pendingRoutes []).

Inductive resolutions_step (s : Resolutions) : Resolutions -> Prop :=
| RsRoute hex : resolutions_step s (snd (resolveRoute hex s))
| RsSettled k : resolutions_step s (snd (resolveRoute_settled k s))
| RsStop : resolutions_step s (snd (stop_resolutions s)).

(** At work: neither settled nor told to stop. *)
Definition at_work (t : RouteTask) : Prop := rt_aborted t = false /\ rt_settled t = false.

Record resolutions_ok (s : Resolutions) : Prop := {
  rs_keys : JsMap.wf (pendingRouteResolutions s);
  rs_size : len (pendingRouteResolutions s) <= MAX_PENDING_ROUTE_RESOLUTIONS;
  rs_pending : forall hex k, JsMap.get_ (pendingRouteResolutions s) hex = Some k ->
    exists t, routeTasks s !! k = Some t /\ rt_dest t = hex /\ at_work t;
  rs_work : forall k t, routeTasks s !! k = Some t -> at_work t -> JsMap.get_ (pendingRouteResolutions s) (rt_dest t) = Some k;
}.

Lemma no_routes_ok : resolutions_ok (mkResolutions [] []).
Proof. split; cbn; [constructor|vm_compute; discriminate|done|done]. Qed.

Lemma route_begun_ok s hex : resolutions_ok s -> JsMap.get_ (pendingRouteResolutions s) hex = None ->
  len (pendingRouteResolutions s) < MAX_PENDING_ROUTE_RESOLUTIONS ->
  resolutions_ok (mkResolutions (JsMap.set_ (pendingRouteResolutions s) hex (length (routeTasks s))) (routeTasks s ++ [mkRouteTask hex false false])).
Proof.
  intros [Hk Hs Hp Hw] Hn Hl. split; cbn.
  - by apply JsMap.wf_set.
  - unfold len in *. rewrite JsMap.length_set. destruct (JsMap.has_ _ _); lia.
  - intros hex' k. destruct (decide (hex = hex')) as [<-|Hne].
    + rewrite JsMap.get_set_eq. intros [= <-]. eexists. split; [by apply list_lookup_middle|]. by split.
    + rewrite JsMap.get_set_ne by done. intros (t & Et & ?)%Hp. exists t. split; [by apply lookup_app_l_Some|done].
  - intros k t Et Hat. apply lookup_app_Some in Et as [Et|[Hge Et]].
    + rewrite JsMap.get_set_ne; [by apply Hw|]. intros E. specialize (Hw k t Et Hat). rewrite <- E in Hw. congruence.
    + apply list_lookup_singleton_Some in Et as [E0 <-]. cbn. rewrite JsMap.get_set_eq. f_equal. lia.
Qed.

Lemma route_settled_ok s k t : resolutions_ok s -> routeTasks s !! k = Some t ->
  let m := if decide (JsMap.get_ (pendingRouteResolutions s) (rt_dest t) = Some k)
           then JsMap.delete_ (pendingRouteResolutions s) (rt_dest t) else pendingRouteResolutions s in
  resolutions_ok (mkResolutions m (alter (fun t => mkRouteTask (rt_dest t) (rt_aborted t) true) k (routeTasks s))).
Proof.
  intros [Hk Hs Hp Hw] Ek m.
  assert (Hget : forall hex j, JsMap.get_ m hex = Some j -> JsMap.get_ (pendingRouteResolutions s) hex = Some j /\ j <> k).
  { intros hex j. unfold m. case_decide as Hd.
    - destruct (decide (rt_dest t = hex)) as [<-|Hne]; [by rewrite JsMap.get_delete_eq|]. rewrite JsMap.get_delete_ne by done.
      intros E. split; [done|]. intros ->. destruct (Hp _ _ E) as (t' & Et & Ed & _). rewrite Ek in Et. injection Et as <-. done.
    - intros E. split; [done|]. intros ->. destruct (Hp _ _ E) as (t' & Et & Ed & _). rewrite Ek in Et. injection Et as <-. by subst. }
  split; cbn.
  - unfold m. case_decide; [by apply JsMap.wf_delete|done].
  - unfold m. case_decide; [|done]. unfold len in *. pose proof (JsMap.length_filter_le (fun p => fst p <> rt_dest t) (pendingRouteResolutions s)).
    unfold JsMap.delete_. lia.
  - intros hex j [E Hne]%Hget. rewrite list_lookup_alter_ne by done. by apply Hp.
  - intros j t'. destruct (decide (j = k)) as [->|Hne].
    + rewrite list_lookup_alter_eq, Ek. intros [= <-] [_ Hset]. done.
    + rewrite list_lookup_alter_ne by done. intros Et Hat. specialize (Hw j t' Et Hat). unfold m. case_decide as Hd; [|done].
      rewrite JsMap.get_delete_ne; [done|]. intros E. rewrite E in Hd. congruence.
Qed.

(** Telling tasks to stop. *)
Definition told (ks : list nat) (tasks : list RouteTask) : list RouteTask :=
  foldl (fun ts k => alter (fun t => mkRouteTask (rt_dest t) true (rt_settled t)) k ts) tasks ks.

Lemma told_run ks s : for_each (fun k => modify (alter_task k (fun t => mkRouteTask (rt_dest t) true (rt_settled t)))) ks s =
  (Ok tt, mkResolutions (pendingRouteResolutions s) (told ks (routeTasks s))).
Proof.
  revert s. induction ks as [|k ks IH]; intros s; cbn [for_each]; [by destruct s|]. rewrite ST_modify_bind, IH. done.
Qed.

Lemma told_aborted ks tasks k t : told ks tasks !! k = Some t -> exists t0, tasks !! k = Some t0 /\ rt_dest t = rt_dest t0 /\
  rt_settled t = rt_settled t0 /\ (rt_aborted t = false -> rt_aborted t0 = false /\ k ∉ ks).
Proof.
  revert tasks. induction ks as [|j ks IH]; intros tasks; cbn.
  - intros E. exists t. split_and!; [done..|]. intros Ea. split; [done|apply not_elem_of_nil].
  - intros (t0 & E0 & Ed & Es & Ha)%IH. destruct (decide (k = j)) as [->|Hne].
    + rewrite list_lookup_alter_eq in E0. apply fmap_Some in E0 as (t1 & E1 & ->). exists t1. split_and!; [done..|].
      intros [Hf _]%Ha. done.
    + rewrite list_lookup_alter_ne in E0 by done. exists t0. split_and!; [done..|]. intros [Hf Hn]%Ha. split; [done|].
      by apply not_elem_of_cons.
Qed.

Lemma resolutions_step_ok s s' : resolutions_ok s -> resolutions_step s s' -> resolutions_ok s'.
Proof.
  intros Hs [hex|k|].
  - unfold resolveRoute. rewrite ST_get_bind. destruct (JsMap.get_ _ hex) as [k|] eqn:Eg; [done|].
    destruct (_ >=? _) eqn:El; [done|]. rewrite Z.geb_leb in El. apply Z.leb_gt in El. rewrite ST_pass by done.
    exact (route_begun_ok s hex Hs Eg El).
  - unfold resolveRoute_settled. rewrite ST_get_bind. destruct (routeTasks s !! k) as [t|] eqn:Ek; [|done].
    rewrite ST_modify_bind. pose proof (route_settled_ok s k t Hs Ek) as Hok. cbv zeta in Hok. by case_decide.
  - unfold stop_resolutions. rewrite ST_get_bind, (ST_bind_ok _ _ _ _ _ (told_run _ _)). destruct Hs as [Hk Hs Hp Hw].
    split; cbn; [constructor|vm_compute; discriminate|done|].
    intros k t (t0 & E0 & Ed & Es & Ha)%told_aborted [Hna Hns]. destruct (Ha Hna) as [Ha0 Hn]. exfalso. apply Hn.
    assert (Hat : at_work t0) by (split; [done|congruence]). specialize (Hw k t0 E0 Hat). apply JsMap.get_elem in Hw.
    apply list_elem_of_fmap. by exists (rt_dest t0, k).
Qed.

(** At any time at most 64 resolutions are at work, at most one for a
    destination, and they are exactly those the table holds: a caller joins the
    one for its destination, one that settles late never removes its successor,
    and after a stop none is left at work. *)
Lemma route_resolutions_consistent (s s' : Resolutions) :
  rtc resolutions_step (mkResolutions [] []) s ->
  len (pendingRouteResolutions s) <= MAX_PENDING_ROUTE_RESOLUTIONS /\
  (forall hex k, JsMap.get_ (pendingRouteResolutions s) hex = Some k <-> exists t, routeTasks s !! k = Some t /\ rt_dest t = hex /\ at_work t) /\
  (forall k k' t t', routeTasks s !! k = Some t -> routeTasks s !! k' = Some t' -> at_work t -> at_work t' -> rt_dest t = rt_dest t' -> k = k') /\
  (stop_resolutions s = (Ok tt, s') -> forall k t, routeTasks s' !! k = Some t -> ~ at_work t).
Proof.
  intros Hrun. assert (Hs : resolutions_ok s).
  { apply (rtc_invariant resolutions_step resolutions_ok (mkResolutions [] []) s); [intros x y; apply resolutions_step_ok|apply no_routes_ok|done]. }
  pose proof Hs as [_ Hl Hp Hw]. split; [done|]. split; [|split].
  - intros hex k. split; [apply Hp|]. intros (t & Et & <- & Hat). by apply Hw.
  - intros k k' t t' Et Et' Hat Hat' E. apply Hw in Et, Et'; [|done..]. rewrite E in Et. congruence.
  - intros E k t Et Hat. pose proof (resolutions_step_ok s _ Hs (RsStop s)) as [_ _ _ Hw']. rewrite E in Hw'. cbn [snd] in Hw'.
    specialize (Hw' k t Et Hat). unfold stop_resolutions in E. rewrite ST_get_bind, (ST_bind_ok _ _ _ _ _ (told_run _ _)) in E.
    injection E as <-. cbn in Hw'. discriminate Hw'.
Qed.

(** [resolveIdentity]: the key of an established neighbour, without asking. *)
Definition resolveIdentity `{Noble} (getPeerByNodeAddr : string -> option nat) (nodeAddr : NodeAddr) (r : FipsRouting) : result (option bytes) :=
  nodeHex ← nodeAddrToHex nodeAddr;
  Ok match getPeerByNodeAddr nodeHex ≫= fun i => fr_peers r !! i with
     | Some adjacent => if established (get_bloom r) adjacent then Some (ap_pubkey adjacent) else None
     | None => None
     end.

(** ** Examples *)

#[local] Existing Instances Toy.noble.

Definition demo_transports : list Transport := [mkTransport 0 "memory" 1200 None false; mkTransport 1 "lan" 1400 None false].
Definition demo_discovered (n : Z) (type : string) : result (option DiscoveredPeer) :=
  Ok (Some (mkDiscovered (mkAddress type "a") (Some (publicKey (demo_identity n))))).

(** The first answer names another node, the second the one that was asked for. *)
Lemma route_resolution_authentic_witness : exists s r,
  resolveTransportIdentity demo_transports (nodeAddr (demo_identity 9)) true false = Ok s /\
  race_result (race_run demo_transports (nodeAddr (demo_identity 9))
    [Answered 0 (demo_discovered 11 "memory"); Answered 1 (demo_discovered 9 "lan"); TimerFired true] s) = Some (Ok r) /\
  deriveNodeAddr (rs_remotePubkey r) = Ok (nodeAddr (demo_identity 9)).
Proof.
  pose (es := [Answered 0 (demo_discovered 11 "memory"); Answered 1 (demo_discovered 9 "lan"); TimerFired true]).
  assert (E0 : resolveTransportIdentity demo_transports (nodeAddr (demo_identity 9)) true false = Ok (mkRace [0; 1]%nat false None))
    by (vm_compute; reflexivity).
  destruct (route_resolution_authentic demo_transports (nodeAddr (demo_identity 9)) true false _ es [] E0) as (Hf & _).
  assert (Er : race_result (race_run demo_transports (nodeAddr (demo_identity 9)) es (mkRace [0; 1]%nat false None)) =
    Some (Ok (mkResolved (mkTransport 1 "lan" 1400 None false) (mkAddress "lan" "a") (publicKey (demo_identity 9))))) by (vm_compute; reflexivity).
  eexists _, _. split; [exact E0|]. split; [exact Er|]. destruct (Hf _ Er) as (k & a & _ & Hv). exact (vo_key _ _ _ _ _ Hv).
Defined.

(** A second caller joins; the first resolution settles and another begins. *)
Definition demo_resolutions : Resolutions :=
  snd ((resolveRoute "aa";; resolveRoute "aa";; resolveRoute_settled 0;; resolveRoute "aa") (mkResolutions [] [])).

Lemma route_resolutions_consistent_witness :
  JsMap.get_ (pendingRouteResolutions demo_resolutions) "aa" = Some 1%nat /\
  forall k t, routeTasks (snd (stop_resolutions demo_resolutions)) !! k = Some t -> ~ at_work t.
Proof.
  assert (Hrun : rtc resolutions_step (mkResolutions [] []) demo_resolutions).
  { eapply rtc_l; [apply (RsRoute _ "aa")|]. eapply rtc_l; [apply (RsRoute _ "aa")|].
    eapply rtc_l; [apply (RsSettled _ 0)|]. eapply rtc_l; [apply (RsRoute _ "aa")|]. apply rtc_refl. }
  destruct (route_resolutions_consistent demo_resolutions (snd (stop_resolutions demo_resolutions)) Hrun) as (_ & _ & _ & Hstop).
  split; [vm_compute; reflexivity|]. apply Hstop. reflexivity.
Defined.
