(* ===== verification/Messages.v ===== *)
(** * The routing of a node as a whole

    [node/FipsRouting.ts]: the dispatch of link messages ([handleLinkMessage])
    over the handlers of [Announce], [Lookups] and [Datagrams], every event that
    changes the routing state as one step relation, and what holds of that state
    at any time, whatever the messages. *)

From S2P Require Import Prelude Codec Crypto Toy NodeAddr Identity F64 Bloom Link FilterMsg TreeMsg Discovery.
From S2P Require Import FmpLink TreeState LearnedRoutes OriginLookups Peers BloomRouting Routing Announce Lookups Datagrams.

(** What a message leaves to await. *)
Inductive Handled := Settled | Forwards (fw : option Forwarding) | Arrives (a : Arrival).

Section Messages.
Context `{Noble} (cfg : FipsRoutingConfig) (Math_pow : F64.t -> F64.t -> F64.t).
Context (getPeers : list nat) (getPeerByPubkey getPeerByNodeAddr : string -> option nat).

(** [bloomRouting.handle] with its [sendAll]. *)
Definition handleFilterAnnounce (i : nat) (payload : bytes) : ST FipsRouting unit :=
  r ← get;
  spread ← zoom get_bloom (fun b r => set_bloom r b) (BloomRouting.handle Math_pow (is_tree_peer r) i payload);
  if (spread : bool) then bloom_sendAll cfg getPeers (Some i) else mret tt.

Definition handleLinkMessage (assertNodeAllowed : NodeAddr -> result unit) (i : nat) (msgType : Z) (payload : bytes) (now : Z)
    : ST FipsRouting Handled :=
  if msgType =? LinkMessageType.ClientSupport then handleClientSupport cfg i payload;; mret Settled
  else if msgType =? LinkMessageType.ClientOnly then handleClientOnly cfg getPeers i payload now;; mret Settled
  else if msgType =? LinkMessageType.TreeAnnounce then
    spread ← handleTreeAnnounce cfg getPeers i payload now;
    (if (spread : bool) then bloom_sendAll cfg getPeers None else mret tt);; mret Settled
  else if msgType =? LinkMessageType.FilterAnnounce then handleFilterAnnounce i payload;; mret Settled
  else if msgType =? LinkMessageType.LookupRequest then
    fw ← LookupRequest_message cfg Math_pow getPeers getPeerByPubkey getPeerByNodeAddr assertNodeAllowed i payload now; mret (Forwards fw)
  else if msgType =? LinkMessageType.LookupResponse then LookupResponse_message cfg i payload now;; mret Settled
  else if negb (msgType =? LinkMessageType.SessionDatagram) then mret Settled
  else
    a ← SessionDatagram_message cfg Math_pow getPeers getPeerByPubkey getPeerByNodeAddr assertNodeAllowed i payload now; mret (Arrives a).
End Messages.

(** ** Events *)

(** Every event that changes the routing state: a message, an await that is over,
    a timer, a call of the node, or a change of the peers, the links and the
    lookups of the node's own that leaves the rest alone. *)
Inductive routing_event `{Noble} (cfg : FipsRoutingConfig) (r : FipsRouting) : FipsRouting -> Prop :=
| EvMessage pow gp gpk gpn allowed i ty payload now : routing_event cfg r (snd (handleLinkMessage cfg pow gp gpk gpn allowed i ty payload now r))
| EvSettled fw rejected : routing_event cfg r (snd (lookup_settled fw rejected r))
| EvResolved pow gp gpk gpn hex key k source now : routing_event cfg r (snd (resolved_forward cfg pow gp gpk gpn hex key k source now r))
| EvFailed k key : routing_event cfg r (snd (forward_failed k key r))
| EvReplay gpn i now : routing_event cfg r (snd (replayPendingLookupsFor gpn i now r))
| EvAnnounce i : routing_event cfg r (snd (announce_timer cfg i r))
| EvSchedule i : routing_event cfg r (snd (scheduleTreeAnnounce cfg i r))
| EvRefresh gp : routing_event cfg r (snd (refreshClientRole cfg gp r))
| EvRemove gp addr now : len addr = 16 -> routing_event cfg r (snd (removePeer cfg gp addr now r))
| EvStop gp now : routing_event cfg r (snd (stop gp now r))
| EvNextHop pow gp gpk gpn dest excluded mtu now : routing_event cfg r (snd (nextHopFor cfg pow gp gpk gpn dest excluded mtu now r))
| EvFrame pow gp gpk gpn d previous hop payload now : routing_event cfg r (snd (send_frame cfg pow gp gpk gpn d previous hop payload now r))
| EvReply addr frame i : routing_event cfg r (snd (sendFspReplyToward cfg addr frame i r))
| EvFirst target hex pk draws now : routing_event cfg r (snd (ensureFirstContactRoute cfg target hex pk draws now r))
| EvTransit gp gpk target hex previous mtu draws now :
    routing_event cfg r (snd (refreshTransitRoute cfg gp gpk target hex previous mtu draws now r))
| EvLookup gp gpk i request excluded : routing_event cfg r (snd (send_origin_lookup cfg gp gpk i request excluded r))
| EvLearn dest i mtu now : routing_event cfg r (snd (learnReverseRoute cfg dest i mtu now r))
| EvOutside lookups' bloom' : routing_event cfg r (set_bloom (set_originLookups r lookups') bloom').

(** ** What each handler leaves alone *)

(** Handlers of the tree and of the filters. *)
Definition beside_tree (r r' : FipsRouting) : Prop :=
  lookupReversePaths r' = lookupReversePaths r /\ reverses r' = reverses r /\ learnedRoutes r' = learnedRoutes r /\ coordCache r' = coordCache r.

#[export] Instance beside_tree_preorder : PreOrder beside_tree.
Proof. split; [by intros r|]. intros a b c (? & ? & ? & ?) (? & ? & ? & ?). split_and!; congruence. Qed.

Abbreviation routes_kept := (table_ok MAX_REPLY_LEARNED_ROUTES_PER_DESTINATION).

(** Handlers of lookups and datagrams: the tree stays, and so does what holds of
    the reverse paths, the coordinates and the learned routes. *)
Record quiet `{Noble} (r r' : FipsRouting) : Prop := {
  qt_tree : treeState r' = treeState r;
  qt_paths : paths_ok r -> paths_ok r';
  qt_coords : coords_sound r -> coords_sound r';
  qt_routes : routes_kept (learnedRoutes r) -> routes_kept (learnedRoutes r');
}.

#[export] Instance quiet_preorder `{Noble} : PreOrder quiet.
Proof. split; [by intros r|]. intros a b c [? Hp Hc Hr] [? Hp' Hc' Hr']. split; [congruence|auto..]. Qed.

Section Leaves.
Context `{Noble}.

Lemma beside_message i ty payload : respects beside_tree (send_message i ty payload).
Proof. by intros r. Qed.
Lemma beside_alter i f : respects beside_tree (alter_fr_peer i f).
Proof. by intros r. Qed.
Lemma beside_clientSequence f : respects beside_tree (modify (fun r => set_clientSequence r (f r))).
Proof. by intros r. Qed.
Lemma beside_zoom_tree {A} (m : ST TreeState.t A) : respects beside_tree (zoom_tree m).
Proof. apply respects_zoom. by intros t r. Qed.
Lemma beside_zoom_bloom {A} (m : ST BloomRouting A) : respects beside_tree (zoom get_bloom (fun b r => set_bloom r b) m).
Proof. apply respects_zoom. by intros t r. Qed.

Lemma beside_quiet r r' : beside_tree r r' -> treeState r' = treeState r -> quiet r r'.
Proof.
  intros (Ep & Er & El & Ec) Et. split; [done| | |].
  - apply same_paths_ok; [done|by rewrite Er].
  - intros Hc. unfold coords_sound. by rewrite Ec.
  - by rewrite El.
Qed.

Lemma quiet_message i ty payload : respects quiet (send_message i ty payload).
Proof. intros r. by apply beside_quiet. Qed.
Lemma quiet_alter_peer i f : respects quiet (alter_fr_peer i f).
Proof. intros r. by apply beside_quiet. Qed.
Lemma quiet_lookups {A} (m : ST OriginLookupRegistry A) : respects quiet (zoom_lookups m).
Proof. apply respects_zoom. intros t r. by apply beside_quiet. Qed.

Lemma quiet_clientSequence f : respects quiet (modify (fun r => set_clientSequence r (f r))).
Proof. intros r. by apply beside_quiet. Qed.
Lemma quiet_zoom_bloom {A} (m : ST BloomRouting A) : respects quiet (zoom get_bloom (fun b r => set_bloom r b) m).
Proof. apply respects_zoom. intros t r. by apply beside_quiet. Qed.

Lemma quiet_paths {A} (m : ST FipsRouting A) : respects maintains m ->
  (forall r, treeState (snd (m r)) = treeState r /\ learnedRoutes (snd (m r)) = learnedRoutes r /\ coordCache (snd (m r)) = coordCache r) ->
  respects quiet m.
Proof.
  intros Hm Hs r. destruct (Hs r) as (Et & El & Ec). split; [done|apply Hm| |by rewrite El].
  intros Hc. unfold coords_sound. by rewrite Ec.
Qed.

Lemma quiet_alter k f : respects quiet (alter_reverse k f).
Proof. by apply quiet_paths; [apply maintains_alter|]. Qed.
Lemma quiet_prune now : respects quiet (pruneLookupReversePaths now).
Proof. by apply quiet_paths; [apply maintains_prune|]. Qed.
Lemma quiet_delete key : respects quiet (modify (fun r => set_reversePaths r (JsMap.delete_ (lookupReversePaths r) key))).
Proof. by apply quiet_paths; [apply maintains_delete|]. Qed.
Lemma quiet_new source key q now : respects quiet (new_reverse source key q now).
Proof. apply quiet_paths; [apply maintains_new|]. intros r. by rewrite new_reverse_run. Qed.
Lemma quiet_cache a cs : respects quiet (cacheCoordinates a cs).
Proof.
  intros r. destruct (caches_cache a cs r) as (c & t & E). pose proof (maintains_cache a cs r) as Hm. pose proof (keeps_cache a cs r) as Hk.
  split; [by rewrite E|done|done|].
  assert (Hl : respects (fun r r' : FipsRouting => learnedRoutes r' = learnedRoutes r) (cacheCoordinates a cs)).
  { intros r1. unfold cacheCoordinates. destruct cs as [|x cs]; [done|]. destruct (negb _); [done|]. by destruct (nodeAddrToHex a). }
  by rewrite Hl.
Qed.

Lemma quiet_learned (m : ST LearnedRouteTable unit) : (forall t, routes_kept t -> routes_kept (snd (m t))) ->
  respects quiet (zoom learnedRoutes (fun t r => set_learnedRoutes r t) m).
Proof.
  intros Hm r. unfold zoom. specialize (Hm (learnedRoutes r)). destruct (m (learnedRoutes r)) as [res t]. split; cbn; [done| |done|done].
  by apply same_paths_ok.
Qed.
Lemma quiet_learn dest hop now ttl mtu : respects quiet (zoom learnedRoutes (fun t r => set_learnedRoutes r t)
  (learn dest hop now ttl MAX_REPLY_LEARNED_ROUTES_PER_DESTINATION mtu)).
Proof.
  apply quiet_learned. intros t Ht. destruct (learn_run MAX_REPLY_LEARNED_ROUTES_PER_DESTINATION t dest hop now ttl mtu)
    as (t' & -> & Ht'); [vm_compute; reflexivity|done..].
Qed.
Lemma quiet_learned_hop cfg pow gp gpn dest excluded mtu now : respects quiet (learned_hop cfg pow gp gpn dest excluded mtu now).
Proof.
  intros r. unfold learned_hop. destruct (rc_routingMode cfg); [done|]. rewrite ST_get_bind. unfold zoom.
  assert (Hsel : routes_kept (learnedRoutes r) -> routes_kept (snd (selectNextHop pow dest now
    (eligible gp gpn dest excluded mtu now (while_selecting dest now r)) (learnedRoutes r)))).
  { intros Hr. destruct (selectNextHop_run pow MAX_REPLY_LEARNED_ROUTES_PER_DESTINATION (learnedRoutes r) dest now
      (eligible gp gpn dest excluded mtu now (while_selecting dest now r)) Hr) as (o & t & -> & Ht & _). done. }
  destruct (selectNextHop _ _ _ _ _) as [res t]. split; cbn; [done|by apply same_paths_ok|done|done].
Qed.
End Leaves.

#[export] Hint Resolve beside_message beside_alter beside_clientSequence beside_zoom_tree beside_zoom_bloom quiet_message quiet_alter_peer
  quiet_clientSequence quiet_zoom_bloom quiet_lookups quiet_alter quiet_prune quiet_delete quiet_new quiet_cache quiet_learn quiet_learned_hop : respects.

(** ** Each handler *)

Section Handlers.
Context `{Noble} (cfg : FipsRoutingConfig) (pow : F64.t -> F64.t -> F64.t).
Context (gp : list nat) (gpk gpn : string -> option nat).

Lemma quiet_next_hop dest excluded mtu now : respects quiet (nextHopFor cfg pow gp gpk gpn dest excluded mtu now).
Proof. unfold nextHopFor. solve_respects. Qed.
Lemma quiet_learnReverse dest i mtu now : respects quiet (learnReverseRoute cfg dest i mtu now).
Proof. unfold learnReverseRoute. solve_respects. Qed.
Hint Resolve quiet_next_hop quiet_learnReverse : respects.

Lemma quiet_send_lookup k hops : respects quiet (send_lookup k hops).
Proof. unfold send_lookup. solve_respects. apply respects_for_each; [apply _|]. intros i. auto with respects. Qed.
Lemma quiet_try k i key : respects quiet (try_forward k i key).
Proof. unfold try_forward. solve_respects. Qed.
Hint Resolve quiet_send_lookup quiet_try : respects.

Lemma quiet_request allowed i payload now : respects quiet (LookupRequest_message cfg pow gp gpk gpn allowed i payload now).
Proof. unfold LookupRequest_message, handleLookupRequest, answer_lookup, forward_lookup. solve_respects. Qed.
Lemma quiet_response i payload now : respects quiet (LookupResponse_message cfg i payload now).
Proof. unfold LookupResponse_message, handleOriginLookupResponse, forwardLookupResponse. solve_respects. Qed.
Lemma quiet_datagram allowed i payload now : respects quiet (SessionDatagram_message cfg pow gp gpk gpn allowed i payload now).
Proof. unfold SessionDatagram_message, cacheSessionCoordinates, cache_decoded, route_hop. solve_respects. Qed.

Lemma quiet_settled fw rejected : respects quiet (lookup_settled fw rejected).
Proof. unfold lookup_settled. solve_respects. apply respects_for_each; [apply _|]. intros i. solve_respects. Qed.
Lemma quiet_resolved hex key k source now : respects quiet (resolved_forward cfg pow gp gpk gpn hex key k source now).
Proof. unfold resolved_forward. solve_respects. Qed.
Lemma quiet_replay i now : respects quiet (replayPendingLookupsFor gpn i now).
Proof. unfold replayPendingLookupsFor. solve_respects. apply respects_for_each; [apply _|]. intros k. solve_respects. Qed.
Lemma quiet_frame d previous hop payload now : respects quiet (send_frame cfg pow gp gpk gpn d previous hop payload now).
Proof. unfold send_frame, frame_hop, sendSessionDatagramVia. solve_respects. Qed.
Lemma quiet_reply addr frame i : respects quiet (sendFspReplyToward cfg addr frame i).
Proof. unfold sendFspReplyToward, sendSessionDatagramVia. solve_respects. Qed.
Lemma quiet_first target hex pk draws now : respects quiet (ensureFirstContactRoute cfg target hex pk draws now).
Proof. unfold ensureFirstContactRoute. solve_respects. Qed.
Lemma quiet_transit target hex previous mtu draws now : respects quiet (refreshTransitRoute cfg gp gpk target hex previous mtu draws now).
Proof. unfold refreshTransitRoute. solve_respects. Qed.
Lemma quiet_origin i request excluded : respects quiet (send_origin_lookup cfg gp gpk i request excluded).
Proof. unfold send_origin_lookup. solve_respects. apply respects_for_each; [apply _|]. intros k. solve_respects. Qed.

(** Announcements leave the tree as it is; a neighbour's move it. *)
Lemma quiet_announce i : respects quiet (sendTreeAnnounce cfg i).
Proof. unfold sendTreeAnnounce. solve_respects. Qed.
Hint Resolve quiet_announce : respects.
Lemma quiet_announceAll : respects quiet (sendTreeAnnounceToAll cfg gp).
Proof. unfold sendTreeAnnounceToAll. solve_respects. apply respects_for_each; [apply _|]. intros i. solve_respects. Qed.
Lemma quiet_sendAll excluded : respects quiet (bloom_sendAll cfg gp excluded).
Proof. unfold bloom_sendAll. solve_respects. apply respects_for_each; [apply _|]. intros i. solve_respects. Qed.
Hint Resolve quiet_announceAll quiet_sendAll : respects.
Lemma quiet_timer i : respects quiet (announce_timer cfg i).
Proof. unfold announce_timer. solve_respects. Qed.
Lemma quiet_schedule i : respects quiet (scheduleTreeAnnounce cfg i).
Proof. unfold scheduleTreeAnnounce. solve_respects. Qed.
Lemma quiet_refresh : respects quiet (refreshClientRole cfg gp).
Proof. unfold refreshClientRole. solve_respects. Qed.
Lemma quiet_filter i payload : respects quiet (handleFilterAnnounce cfg pow gp i payload).
Proof. unfold handleFilterAnnounce. solve_respects. Qed.
Lemma quiet_support i payload : respects quiet (handleClientSupport cfg i payload).
Proof. unfold handleClientSupport. solve_respects. Qed.

Lemma beside_announceAll : respects beside_tree (sendTreeAnnounceToAll cfg gp).
Proof. unfold sendTreeAnnounceToAll. solve_respects. apply respects_for_each; [apply _|]. intros i. unfold sendTreeAnnounce. solve_respects. Qed.
Lemma beside_sendAll excluded : respects beside_tree (bloom_sendAll cfg gp excluded).
Proof. unfold bloom_sendAll. solve_respects. apply respects_for_each; [apply _|]. intros i. solve_respects. Qed.
Hint Resolve beside_announceAll beside_sendAll : respects.
Lemma beside_remove addr now : respects beside_tree (removePeer cfg gp addr now).
Proof. unfold removePeer. solve_respects. Qed.
Hint Resolve beside_remove : respects.
Lemma beside_only i payload now : respects beside_tree (handleClientOnly cfg gp i payload now).
Proof. unfold handleClientOnly. solve_respects. Qed.
Lemma beside_handle_tree i payload now : respects beside_tree (handleTreeAnnounce cfg gp i payload now).
Proof. unfold handleTreeAnnounce. solve_respects. Qed.
End Handlers.

(** ** The state as a whole *)

Section Sound.
Context `{Noble, !HashLaws} (cfg : FipsRoutingConfig) (id : FipsIdentity).

Record routing_sound (r : FipsRouting) : Prop := {
  rs_tree : tree_ok (treeState r);
  rs_identity : TreeState.identity (treeState r) = id;
  rs_paths : paths_ok r;
  rs_coords : coords_sound r;
  rs_routes : routes_kept (learnedRoutes r);
}.

Lemma quiet_sound r r' : routing_sound r -> quiet r r' -> routing_sound r'.
Proof. intros [Ht Hi Hp Hc Hr] [Et Hp' Hc' Hr']. split; rewrite ?Et; auto. Qed.

Lemma neighbour_sound r r' : routing_sound r -> beside_tree r r' -> neighbour_step cfg r r' -> routing_sound r'.
Proof.
  intros [Ht Hi Hp Hc Hr] (Ep & Er & El & Ec) Hst. destruct (neighbour_step_advances cfg r r' Ht Hst) as [Htr _].
  assert (Hok : tree_ok (treeState r') /\ TreeState.identity (treeState r') = TreeState.identity (treeState r))
    by (destruct Htr as [->|Htr]; [done|by apply step_tree_ok]).
  destruct Hok as [Hok Eid]. split; [done|congruence| |unfold coords_sound; by rewrite Ec|by rewrite El].
  apply (same_paths_ok r); [done|by rewrite Er|done].
Qed.

Lemma reset_sound r s : routing_sound r -> tree_step (treeState r) s -> forall r', lookupReversePaths r' = [] -> learnedRoutes r' = [] ->
  coordCache r' = [] -> treeState r' = s -> routing_sound r'.
Proof.
  intros [Ht Hi _ _ _] Hst r' Ep El Ec <-. destruct (step_tree_ok _ _ Ht Hst) as [Hok Eid].
  split; [done|congruence|by apply no_paths_ok|intros k cs; by rewrite Ec|intros d routes; by rewrite El].
Qed.

Lemma reset_runs s now : tree_ok s -> exists s', TreeState.reset now s = (Ok tt, s').
Proof.
  intros Ht. unfold TreeState.reset. rewrite ST_modify_bind.
  destruct (evaluateParent_run now (TreeState.mk (TreeState.identity s) (TreeState.sequence s) (TreeState.timestamp s) (TreeState.parent s)
    (TreeState.ancestry s) [])) as (b & s' & E & _); [apply Ht|by intros p ?%not_elem_of_nil|].
  exists s'. by rewrite (ST_bind_ok _ _ _ _ _ E).
Qed.

Lemma stop_runs o : exists o', stop_ o = (Ok tt, o').
Proof.
  unfold stop_. rewrite ST_get_bind. apply for_each_ok. clear o. intros i o. unfold fail_, remove_.
  unfold mbind at 1, ST_bind at 1. rewrite ST_get_bind. destruct (lookups o !! i) as [l|]; [|by eexists].
  destruct (bool_decide _); [by eexists|]. rewrite !ST_modify_bind. by eexists.
Qed.

Lemma stop_sound gp now r : routing_sound r -> routing_sound (snd (stop gp now r)).
Proof.
  intros Hr. destruct (reset_runs (treeState r) now (rs_tree _ Hr)) as [s Es].
  assert (Hclear : respects (fun a b : FipsRouting => treeState b = treeState a /\ beside_tree a b) (for_each clear_role gp)).
  { apply respects_for_each; [|by intros i a]. split; [by intros a|]. intros a b c [E1 H1] [E2 H2]. split; [congruence|by etransitivity]. }
  unfold stop. destruct (stop_runs (originLookups r)) as [o Estop].
  assert (Eo : zoom originLookups (fun o r => set_originLookups r o) stop_ r = (Ok tt, set_originLookups r o)) by (unfold zoom; by rewrite Estop).
  rewrite (ST_bind_ok _ _ _ _ _ Eo), !ST_modify_bind.
  match goal with |- routing_sound (snd ((zoom_tree _ ≫= _) ?r1)) => assert (Et : zoom_tree (TreeState.reset now) r1 = (Ok tt, set_treeState r1 s))
    by (unfold zoom_tree, zoom; cbn; by rewrite Es); rewrite (ST_bind_ok _ _ _ _ _ Et);
    destruct (Hclear (set_treeState r1 s)) as [Etree (Ep & _ & El & Ec)] end.
  apply (reset_sound r s Hr); [by eapply step_reset|by rewrite Ep|by rewrite El|by rewrite Ec|by rewrite Etree].
Qed.

Lemma only_sound gp i payload now r : routing_sound r -> routing_sound (snd (handleClientOnly cfg gp i payload now r)).
Proof. intros Hr. apply (neighbour_sound r); [done|apply beside_only|apply NsOnly]. Qed.

Lemma tree_sound gp i payload now r : routing_sound r -> routing_sound (snd (handleTreeAnnounce cfg gp i payload now r)).
Proof. intros Hr. apply (neighbour_sound r); [done|apply beside_handle_tree|apply NsTree]. Qed.

(** A program keeps the state sound when its first part does and the rest is quiet. *)
Lemma sound_then {A B} (m : ST FipsRouting A) (k : A -> ST FipsRouting B) r : routing_sound (snd (m r)) ->
  (forall a, respects quiet (k a)) -> routing_sound (snd ((m ≫= k) r)).
Proof.
  intros Hm Hk. unfold mbind, ST_bind. destruct (m r) as [[a|e] r1]; cbn [snd] in *; [|done].
  eapply quiet_sound; [exact Hm|apply Hk].
Qed.

Lemma message_sound pow gp gpk gpn allowed i ty payload now r : routing_sound r ->
  routing_sound (snd (handleLinkMessage cfg pow gp gpk gpn allowed i ty payload now r)).
Proof.
  intros Hr. unfold handleLinkMessage.
  destruct (ty =? LinkMessageType.ClientSupport); [apply sound_then; [eapply quiet_sound; [exact Hr|apply quiet_support]|intros ?; solve_respects]|].
  destruct (ty =? LinkMessageType.ClientOnly); [apply sound_then; [by apply only_sound|intros ?; solve_respects]|].
  destruct (ty =? LinkMessageType.TreeAnnounce);
    [apply sound_then; [by apply tree_sound|intros ?; solve_respects; apply quiet_sendAll]|].
  destruct (ty =? LinkMessageType.FilterAnnounce); [apply sound_then; [eapply quiet_sound; [exact Hr|apply quiet_filter]|intros ?; solve_respects]|].
  destruct (ty =? LinkMessageType.LookupRequest); [apply sound_then; [eapply quiet_sound; [exact Hr|apply quiet_request]|intros ?; solve_respects]|].
  destruct (ty =? LinkMessageType.LookupResponse); [apply sound_then; [eapply quiet_sound; [exact Hr|apply quiet_response]|intros ?; solve_respects]|].
  destruct (negb _); [done|]. apply sound_then; [eapply quiet_sound; [exact Hr|apply quiet_datagram]|intros ?; solve_respects].
Qed.

Lemma event_sound r r' : routing_sound r -> routing_event cfg r r' -> routing_sound r'.
Proof.
  intros Hr Hev. destruct Hev as [pow gp gpk gpn allowed i ty payload now| | | | | | | |gp addr now La|gp now| | | | | | | |o b].
  1: by apply message_sound.
  8: apply (neighbour_sound r); [done|apply beside_remove|by apply NsRemove].
  8: by apply stop_sound.
  all: eapply quiet_sound; [exact Hr|].
  - apply quiet_settled.
  - apply quiet_resolved.
  - apply quiet_alter.
  - apply quiet_replay.
  - apply quiet_timer.
  - apply quiet_schedule.
  - apply quiet_refresh.
  - apply quiet_next_hop.
  - apply quiet_frame.
  - apply quiet_reply.
  - apply quiet_first.
  - apply quiet_transit.
  - apply quiet_origin.
  - apply quiet_learnReverse.
  - by apply beside_quiet.
Qed.
End Sound.

(** C20: Whatever happens to a node, in any order: link messages of any type and
    content, answers, timeouts, failed sends, departures, stops. Its place in the
    tree is the one its neighbours' accepted paths elect, its identity is its
    own, it holds at most 256 reverse paths, each an object of its own, every
    cached path starts at the node it is kept under, and of every destination it
    remembers at most four distinct next hops. *)
Theorem routing_state_sound `{Noble, !HashLaws} (cfg : FipsRoutingConfig) (id : FipsIdentity) (now : Z) (r0 r : FipsRouting) :
  len (nodeAddr id) = 16 -> treeState r0 = TreeState.new id now -> lookupReversePaths r0 = [] -> coordCache r0 = [] -> learnedRoutes r0 = [] ->
  rtc (routing_event cfg) r0 r -> routing_sound id r.
Proof.
  intros Hl Et Ep Ec El Hrun. assert (Hstart : routing_sound id r0).
  { split; [rewrite Et; by apply tree_ok_new|by rewrite Et|by apply no_paths_ok|intros k cs; by rewrite Ec|intros d routes; by rewrite El]. }
  clear Et Ep Ec El. induction Hrun as [r|r r1 r2 Hst _ IH]; [done|]. by apply IH, (event_sound cfg id r).
Qed.

(** ** Example *)

#[local] Existing Instances Toy.noble Toy.hash_laws.

(** Node 5 hears node 9's announcement, then a message of no known type. *)
Lemma routing_state_sound_witness :
  let r := snd (handleLinkMessage (demo_routing_config 5) (fun x _ => x) [0; 1]%nat (fun _ => None) demo_byNode (fun _ => Ok tt) 0
    LinkMessageType.TreeAnnounce demo_announcement 7 demo_receiver_node) in
  len (TreeState.peers (treeState r)) = 1 /\ routing_sound (demo_identity 5) r.
Proof.
  cbv zeta. split; [vm_compute; reflexivity|].
  apply (routing_state_sound (demo_routing_config 5) (demo_identity 5) 0 demo_receiver_node);
    [vm_compute; reflexivity|reflexivity|reflexivity|reflexivity|reflexivity|]. apply rtc_once, EvMessage.
Defined.
