(* ===== verification/Sessions.v ===== *)
(** * The sessions of a node

    [node/FspSessionManager.ts]: the table of end-to-end sessions, their setup,
    rekeying and recovery, and what becomes of the frames that arrive. Sessions,
    their [FspSession]s and the promises that setups wait for are objects in
    stores; the calls of the node's routing and the events it emits are recorded
    in order. Methods are cut at their awaits. What the manager asks of others
    while it runs ([getPeerByNodeAddr], [routing.coords], ...) are arguments. *)

From S2P Require Import Prelude Codec Crypto Toy NodeAddr Identity Replay F64 FmpWire FspWire SessionMsg Channel Noise Reports FspSession.
From S2P Require Import DirectTransport FmpLink Peers.

Record Session := mkSession {
  remoteNodeAddr : NodeAddr;
  remotePubkeyHex : option string;
  sn_remotePubkey : option bytes;
  sn_fsp : nat;
  currentKBit : bool;
  pendingResponderFsp : option nat;
  previousFsp : option (nat * bool * Z);
  earlyEstablishedRecords : list (nat * bytes);
  earlyEstablishedBytes : Z;
  setupPromise : option nat;
  receiverReports : option ReceiverReports;
  routeWarmup : option (nat * Z);
}.

Section Stores.
Context (n : Session).
Definition set_key (hex : option string) (pk : option bytes) := mkSession (remoteNodeAddr n) hex pk (sn_fsp n) (currentKBit n) (pendingResponderFsp n)
  (previousFsp n) (earlyEstablishedRecords n) (earlyEstablishedBytes n) (setupPromise n) (receiverReports n) (routeWarmup n).
Definition set_fsp x := mkSession (remoteNodeAddr n) (remotePubkeyHex n) (sn_remotePubkey n) x (currentKBit n) (pendingResponderFsp n)
  (previousFsp n) (earlyEstablishedRecords n) (earlyEstablishedBytes n) (setupPromise n) (receiverReports n) (routeWarmup n).
Definition set_kBit x := mkSession (remoteNodeAddr n) (remotePubkeyHex n) (sn_remotePubkey n) (sn_fsp n) x (pendingResponderFsp n)
  (previousFsp n) (earlyEstablishedRecords n) (earlyEstablishedBytes n) (setupPromise n) (receiverReports n) (routeWarmup n).
Definition set_pending x := mkSession (remoteNodeAddr n) (remotePubkeyHex n) (sn_remotePubkey n) (sn_fsp n) (currentKBit n) x
  (previousFsp n) (earlyEstablishedRecords n) (earlyEstablishedBytes n) (setupPromise n) (receiverReports n) (routeWarmup n).
Definition set_previous x := mkSession (remoteNodeAddr n) (remotePubkeyHex n) (sn_remotePubkey n) (sn_fsp n) (currentKBit n) (pendingResponderFsp n)
  x (earlyEstablishedRecords n) (earlyEstablishedBytes n) (setupPromise n) (receiverReports n) (routeWarmup n).
Definition set_early (records : list (nat * bytes)) (size : Z) := mkSession (remoteNodeAddr n) (remotePubkeyHex n) (sn_remotePubkey n) (sn_fsp n)
  (currentKBit n) (pendingResponderFsp n) (previousFsp n) records size (setupPromise n) (receiverReports n) (routeWarmup n).
Definition set_setup x := mkSession (remoteNodeAddr n) (remotePubkeyHex n) (sn_remotePubkey n) (sn_fsp n) (currentKBit n) (pendingResponderFsp n)
  (previousFsp n) (earlyEstablishedRecords n) (earlyEstablishedBytes n) x (receiverReports n) (routeWarmup n).
Definition set_receiverReports x := mkSession (remoteNodeAddr n) (remotePubkeyHex n) (sn_remotePubkey n) (sn_fsp n) (currentKBit n)
  (pendingResponderFsp n) (previousFsp n) (earlyEstablishedRecords n) (earlyEstablishedBytes n) (setupPromise n) x (routeWarmup n).
Definition set_warmup x := mkSession (remoteNodeAddr n) (remotePubkeyHex n) (sn_remotePubkey n) (sn_fsp n) (currentKBit n) (pendingResponderFsp n)
  (previousFsp n) (earlyEstablishedRecords n) (earlyEstablishedBytes n) (setupPromise n) (receiverReports n) x.
End Stores.

Inductive SessionState := Establishing | Established | Closed.

(** What the manager does to the rest of the node: session events, calls of
    [routing], packets of a direct transport, and what arrived. *)
Inductive Call :=
| EmitSession (remotePubkey : string) (state : SessionState) (restarted : bool)
| SendToward (nodeAddr : NodeAddr) (frame : bytes)
| ReplyToward (nodeAddr : NodeAddr) (frame : bytes) (peer : nat)
| LearnReverse (nodeHex : string) (peer : nat)
| SendPacket (peer : nat) (packet : bytes)
| EmitDatagram (src : string) (data : DataPacket)
| EmitEndpointData (src : string) (payload : bytes)
| CallService (handler : nat) (src : string) (data : DataPacket)
| LinkNegotiation (src : string) (payload : bytes).

Inductive Promise := Pending | Fulfilled | Failed (e : js_error).

(** An entry of [missingSessionRecoveries]; no expiry is [Infinity]. *)
Record Recovery := mkRecovery { rc_controller : nat; rc_expiresAtMs : option Z }.

Record FspSessionManager := mkManager {
  services : list (Z * nat);
  sessions : list (string * nat);
  session_objects : list Session;
  fsps : list FspSession.t;
  promises : list Promise;
  reportTimer : bool;
  reportsSending : bool;
  missingSessionRecoveries : list (string * Recovery);
  controllers : list bool;
  recoveryGeneration : Z;
  calls : list Call;
}.

Section ManagerStores.
Context (s : FspSessionManager).
Definition set_services x := mkManager x (sessions s) (session_objects s) (fsps s) (promises s) (reportTimer s) (reportsSending s)
  (missingSessionRecoveries s) (controllers s) (recoveryGeneration s) (calls s).
Definition set_sessions x := mkManager (services s) x (session_objects s) (fsps s) (promises s) (reportTimer s) (reportsSending s)
  (missingSessionRecoveries s) (controllers s) (recoveryGeneration s) (calls s).
Definition set_objects x := mkManager (services s) (sessions s) x (fsps s) (promises s) (reportTimer s) (reportsSending s)
  (missingSessionRecoveries s) (controllers s) (recoveryGeneration s) (calls s).
Definition set_fsps x := mkManager (services s) (sessions s) (session_objects s) x (promises s) (reportTimer s) (reportsSending s)
  (missingSessionRecoveries s) (controllers s) (recoveryGeneration s) (calls s).
Definition set_promises x := mkManager (services s) (sessions s) (session_objects s) (fsps s) x (reportTimer s) (reportsSending s)
  (missingSessionRecoveries s) (controllers s) (recoveryGeneration s) (calls s).
Definition set_reportTimer x := mkManager (services s) (sessions s) (session_objects s) (fsps s) (promises s) x (reportsSending s)
  (missingSessionRecoveries s) (controllers s) (recoveryGeneration s) (calls s).
Definition set_reportsSending x := mkManager (services s) (sessions s) (session_objects s) (fsps s) (promises s) (reportTimer s) x
  (missingSessionRecoveries s) (controllers s) (recoveryGeneration s) (calls s).
(** the entries and the abort controllers made for them *)
Definition set_recoveries x y := mkManager (services s) (sessions s) (session_objects s) (fsps s) (promises s) (reportTimer s) (reportsSending s)
  x y (recoveryGeneration s) (calls s).
Definition set_generation x := mkManager (services s) (sessions s) (session_objects s) (fsps s) (promises s) (reportTimer s) (reportsSending s)
  (missingSessionRecoveries s) (controllers s) x (calls s).
Definition set_calls x := mkManager (services s) (sessions s) (session_objects s) (fsps s) (promises s) (reportTimer s) (reportsSending s)
  (missingSessionRecoveries s) (controllers s) (recoveryGeneration s) x.
End ManagerStores.

Definition FSP_REKEY_DRAIN_MS : Z := 45000.
Definition MAX_MISSING_SESSION_RECOVERIES : Z := 64.
Definition MISSING_SESSION_RETRY_MS : Z := 15000.
Definition FSP_DIRECT_PATH_MTU : Z := 1200.
Definition MAX_EARLY_ESTABLISHED_RECORDS : Z := 16.
Definition MAX_EARLY_ESTABLISHED_BYTES : Z := 64 * 1024.
Definition LINK_NEGOTIATION_SERVICE_PORT : Z := 257.

Abbreviation Mgr := (ST FspSessionManager).

(** ** Access to the stores *)

Definition call (c : Call) : Mgr unit := modify (fun s => set_calls s (calls s ++ [c])).

Definition alter_session (k : nat) (f : Session -> Session) : Mgr unit :=
  modify (fun s => set_objects s (alter f k (session_objects s))).

(** A method of the [FspSession] numbered [i]. *)
Definition on_fsp {A} (i : nat) (m : ST FspSession.t A) : Mgr A := fun s =>
  match fsps s !! i with
  | None => (Throw (TypeError "Cannot read properties of undefined"), s)
  | Some f => let '(r, f') := m f in (r, set_fsps s (<[i:=f']> (fsps s)))
  end.

Definition close_fsp (i : nat) : Mgr unit := modify (fun s => set_fsps s (alter FspSession.set_closed i (fsps s))).

(** [session.previousFsp?.fsp.close()] and the like. *)
Definition close_opt (i : option nat) : Mgr unit := match i with Some i => close_fsp i | None => mret tt end.

Definition previous_fsp (n : Session) : option nat := fmap (fun p => fst (fst p)) (previousFsp n).

Definition fsp_state (s : FspSessionManager) (i : nat) : FspSession.State :=
  match fsps s !! i with Some f => FspSession.state f | None => FspSession.SClosed end.

Definition session_of (s : FspSessionManager) (nodeHex : string) : option nat := JsMap.get_ (sessions s) nodeHex.

(** Settle a promise, if it is not settled yet. *)
Definition settle_promise (p : option nat) (x : Promise) : Mgr unit :=
  match p with
  | None => mret tt
  | Some p => modify (fun s => set_promises s (alter (fun y => match y with Pending => x | y => y end) p (promises s)))
  end.

Section Manager.
Context `{Noble}.
(** The configuration, and the parts of [cfg.routing] and of the peers that the
    manager reads while it runs. *)
Context (identity : FipsIdentity) (localEpoch : bytes) (strictClient : bool).
Context (assertPeerAllowed assertNodeAllowed : bytes -> result unit).
Context (routing_coords : list NodeAddr) (coordinatesFor : string -> option (list NodeAddr)).
Context (getPeerByNodeAddr : string -> option nat) (peer_established : nat -> bool) (peer_pubkey : nat -> bytes) (peer_mtu : nat -> Z).

(** ** Setups *)

(** The promise to wait for; a new one comes with a timer of 15 seconds. *)
Definition waitForSessionSetup (k : nat) : Mgr nat :=
  s ← get;
  match session_objects s !! k with
  | None => throw (TypeError "Cannot read properties of undefined")
  | Some n =>
      match setupPromise n with
      | Some p => mret p
      | None =>
          let p := length (promises s) in
          modify (fun s => set_promises s (promises s ++ [Pending]));;
          alter_session k (fun n => set_setup n (Some p));;
          mret p
      end
  end.

Definition resolveSessionSetup (k : nat) : Mgr unit :=
  s ← get;
  alter_session k (fun n => set_setup n None);;
  settle_promise (session_objects s !! k ≫= setupPromise) Fulfilled.

(** [session.fsp], [pendingResponderFsp] and [previousFsp] closed. *)
Definition close_all (n : Session) : Mgr unit :=
  close_fsp (sn_fsp n);; close_opt (pendingResponderFsp n);; close_opt (previous_fsp n).

Definition delete_session (nodeHex : string) : Mgr unit := modify (fun s => set_sessions s (JsMap.delete_ (sessions s) nodeHex)).

Definition rejectSessionSetup (k : nat) (remoteNodeHex : string) (e : js_error) : Mgr unit :=
  s ← get;
  match session_objects s !! k with
  | None => mret tt
  | Some n =>
      alter_session k (fun n => set_setup n None);;
      (if decide (session_of s remoteNodeHex = Some k) then
         close_all n;;
         delete_session remoteNodeHex;;
         call (EmitSession (default remoteNodeHex (remotePubkeyHex n)) Closed false)
       else mret tt);;
      settle_promise (setupPromise n) (Failed e)
  end.

(** The timer of [waitForSessionSetup], which the promise's end clears. *)
Definition setup_timer (k : nat) (remoteNodeHex : string) : Mgr unit :=
  s ← get;
  match session_objects s !! k ≫= setupPromise with
  | Some _ => rejectSessionSetup k remoteNodeHex (Error "FSP handshake timeout")
  | None => mret tt
  end.

(** ** Start and stop *)

Definition registerService (port : Z) (handler : nat) : Mgr unit :=
  throw_when ((port =? 256) || (port =? LINK_NEGOTIATION_SERVICE_PORT)) (Error "FSP service port is reserved");;
  modify (fun s => set_services s (JsMap.set_ (services s) port handler)).

(** What [registerService] returns. *)
Definition unregister (port : Z) (handler : nat) : Mgr unit :=
  s ← get;
  if decide (JsMap.get_ (services s) port = Some handler) then modify (fun s => set_services s (JsMap.delete_ (services s) port)) else mret tt.

Definition start : Mgr unit := s ← get; if reportTimer s then mret tt else modify (fun s => set_reportTimer s true).

Definition abort_recoveries (rs : list (string * Recovery)) (cs : list bool) : list bool :=
  foldl (fun cs r => alter (fun _ => true) (rc_controller (snd r)) cs) cs rs.

Definition stop_session (e : string * nat) : Mgr unit :=
  s ← get;
  match session_objects s !! snd e with
  | None => mret tt
  | Some n =>
      match setupPromise n with
      | Some _ => rejectSessionSetup (snd e) (fst e) (Error "FSP session manager stopped")
      | None => close_all n
      end
  end.

Definition stop : Mgr unit :=
  modify (fun s => set_generation s (recoveryGeneration s + 1));;
  modify (fun s => set_recoveries s (missingSessionRecoveries s) (abort_recoveries (missingSessionRecoveries s) (controllers s)));;
  modify (fun s => set_recoveries s [] (controllers s));;
  modify (fun s => set_reportTimer s false);;
  s ← get;
  for_each stop_session (sessions s);;
  modify (fun s => set_sessions s []).

Definition close_peer_session (remotePubkeyHex : string) (e : string * nat) : Mgr unit :=
  s ← get;
  match session_objects s !! snd e with
  | None => mret tt
  | Some n =>
      if bool_decide (Sessions.remotePubkeyHex n <> Some remotePubkeyHex) then mret tt else
      match setupPromise n with
      | Some _ => rejectSessionSetup (snd e) (fst e) (Error "remote FIPS peer restarted")
      | None =>
          close_all n;;
          delete_session (fst e);;
          call (EmitSession remotePubkeyHex Closed false)
      end
  end.

(** The loop deletes only the entry it is at. *)
Definition closePeerSessions (remotePubkeyHex : string) : Mgr unit :=
  s ← get; for_each (close_peer_session remotePubkeyHex) (sessions s).

(** ** Sending *)

Definition directPeerForSession (n : Session) (s : FspSessionManager) : result (option nat) :=
  match fsps s !! sn_fsp n with
  | Some f =>
      if negb (FspSession.remoteSupportsDirectFspTransport f) then Ok None else
      hex ← nodeAddrToHex (remoteNodeAddr n);
      Ok (i ← getPeerByNodeAddr hex; if peer_established i then Some i else None)
  | None => Throw (TypeError "Cannot read properties of undefined")
  end.

(** [sendDirectFsp], its packets one after the other. *)
Definition sendDirectFsp (peer : nat) (fspFrame : bytes) : Mgr unit :=
  packets ← lift (segmentDirectFspTransportRecord fspFrame (Z.min (peer_mtu peer) FSP_DIRECT_PATH_MTU));
  for_each (fun packet => lift (assertPeerAllowed (peer_pubkey peer));; call (SendPacket peer packet)) packets.

Definition kFlag (n : Session) : Z := if currentKBit n then FSP_FLAG_K else 0.

(** [sendSessionMessage] to its end where the transport is direct; otherwise the
    address to route to, and [session_frames] is the callback. *)
Definition sendSessionMessage (k : nat) (msgType : Z) (payload : bytes) (now : F64.t) : Mgr (option NodeAddr) :=
  s ← get;
  match session_objects s !! k with
  | None => throw (TypeError "Cannot read properties of undefined")
  | Some n =>
      lift (assertNodeAllowed (remoteNodeAddr n));;
      direct ← lift (directPeerForSession n s);
      match direct with
      | Some peer =>
          alter_session k (fun n => set_warmup n None);;
          frame ← on_fsp (sn_fsp n) (FspSession.encryptMessage msgType payload (js_or FSP_FLAG_DIRECT_TRANSPORT (kFlag n)) None now);
          sendDirectFsp peer frame;; mret None
      | None => mret (Some (remoteNodeAddr n))
      end
  end.

(** The frames for a next hop: while the route is new, its coordinates first. *)
Definition session_frames (k : nat) (msgType : Z) (payload : bytes) (nextHop : nat) (now : F64.t) : Mgr (list bytes) :=
  s ← get;
  match session_objects s !! k with
  | None => throw (TypeError "Cannot read properties of undefined")
  | Some n =>
      let remaining := match routeWarmup n with Some (peer, n) => if decide (peer = nextHop) then n else 5 | None => 5 end in
      alter_session k (fun n => set_warmup n (Some (nextHop, remaining)));;
      hex ← lift (nodeAddrToHex (remoteNodeAddr n));
      warm ← (match coordinatesFor hex with
              | Some destCoords =>
                  if remaining >? 0 then
                    addr ← lift (deriveNodeAddr (peer_pubkey nextHop));
                    if bytesEqual addr (remoteNodeAddr n) then mret [] else
                    frame ← on_fsp (sn_fsp n) (FspSession.encryptMessage FSP_MSG_COORDS_WARMUP [] (kFlag n)
                      (Some (Some routing_coords, Some destCoords)) now);
                    alter_session k (fun n => set_warmup n (Some (nextHop, remaining - 1)));;
                    mret [frame]
                  else mret []
              | None => mret []
              end);
      frame ← on_fsp (sn_fsp n) (FspSession.encryptMessage msgType payload (kFlag n) None now);
      mret (warm ++ [frame])
  end.

(** [sendDatagram] once its session is there. *)
Definition sendDatagram (k : nat) (data : DataPacket) (now : F64.t) : Mgr (option NodeAddr) :=
  payload ← lift (encodeDataPacket data); sendSessionMessage k FSP_MSG_DATA payload now.

Definition sendEndpointData (k : nat) (payload : bytes) (now : F64.t) : Mgr (option NodeAddr) :=
  sendSessionMessage k FSP_MSG_ENDPOINT_DATA payload now.

(** [sendLinkNegotiation], its message encoded. *)
Definition sendLinkNegotiation (k : nat) (message : bytes) (now : F64.t) : Mgr (option NodeAddr) :=
  sendDatagram k (mkData LINK_NEGOTIATION_SERVICE_PORT LINK_NEGOTIATION_SERVICE_PORT message) now.

(** One session's turn in [sendReceiverReports]; an error is logged. *)
Definition send_report (now : F64.t) (k : nat) : Mgr (option NodeAddr) :=
  s ← get;
  match session_objects s !! k with
  | None => mret None
  | Some n =>
      match fsp_state s (sn_fsp n), receiverReports n with
      | FspSession.SEstablished, Some rr =>
          let '(report, rr) := build now rr in
          alter_session k (fun n => set_receiverReports n (Some rr));;
          match report with
          | None => mret None
          | Some report => try_catch (sendSessionMessage k FSP_MSG_RECEIVER_REPORT report now) (fun _ => mret None)
          end
      | _, _ => mret None
      end
  end.

(** [sendReceiverReports]: the sessions whose reports are to be routed. *)
Fixpoint reports_loop (now : F64.t) (ks : list nat) : Mgr (list (nat * NodeAddr)) :=
  match ks with
  | [] => mret []
  | k :: ks =>
      to ← send_report now k;
      rest ← reports_loop now ks;
      mret (match to with Some a => (k, a) :: rest | None => rest end)
  end.

Definition sendReceiverReports (now : F64.t) : Mgr (list (nat * NodeAddr)) :=
  s ← get;
  if reportsSending s then mret [] else
  modify (fun s => set_reportsSending s true);;
  reports_loop now (map snd (sessions s)).

(** Its [finally]. *)
Definition reports_sent : Mgr unit := modify (fun s => set_reportsSending s false).

(** ** Receiving *)

Definition prunePreviousFsp (k : nat) (nowMs : Z) : Mgr unit :=
  s ← get;
  match session_objects s !! k ≫= previousFsp with
  | Some (i, _, expiresAtMs) =>
      if expiresAtMs >? nowMs then mret tt else
      close_fsp i;;
      alter_session k (fun n => set_previous n None)
  | None => mret tt
  end.

(** [if (fsp.remotePubkey) session.remotePubkey = ...] *)
Definition adopt_key (k i : nat) : Mgr unit :=
  s ← get;
  match fsps s !! i ≫= FspSession.remotePubkey with
  | Some pk => alter_session k (fun n => set_key n (Some (toHex pk)) (Some pk))
  | None => mret tt
  end.

Definition promotePendingSession (k receiveFsp : nat) (receivedKBit : bool) (nowMs : Z) : Mgr unit :=
  s ← get;
  match session_objects s !! k with
  | None => mret tt
  | Some n =>
      close_opt (previous_fsp n);;
      alter_session k (fun n => set_previous n (Some (sn_fsp n, currentKBit n, nowMs + FSP_REKEY_DRAIN_MS)));;
      alter_session k (fun n => set_fsp n receiveFsp);;
      alter_session k (fun n => set_receiverReports n (resetEpoch <$> receiverReports n));;
      alter_session k (fun n => set_kBit n receivedKBit);;
      alter_session k (fun n => set_pending n None);;
      adopt_key k receiveFsp
  end.

Definition replaceRestartedSession (k replacement : nat) : Mgr unit :=
  s ← get;
  match session_objects s !! k with
  | None => mret tt
  | Some n =>
      close_opt (previous_fsp n);;
      close_fsp (sn_fsp n);;
      alter_session k (fun n => set_fsp n replacement);;
      alter_session k (fun n => set_kBit n false);;
      alter_session k (fun n => set_pending n None);;
      alter_session k (fun n => set_previous n None);;
      alter_session k (fun n => set_receiverReports n None);;
      adopt_key k replacement
  end.

Definition queueEarlyEstablishedRecord (k peer : nat) (frame : bytes) : Mgr unit :=
  lift (decodeFspEstablished frame);;
  s ← get;
  match session_objects s !! k with
  | None => mret tt
  | Some n =>
      throw_when ((len (earlyEstablishedRecords n) >=? MAX_EARLY_ESTABLISHED_RECORDS)
        || (earlyEstablishedBytes n + len frame >? MAX_EARLY_ESTABLISHED_BYTES)) (Error "early FSP Established queue full");;
      alter_session k (fun n => set_early n (earlyEstablishedRecords n ++ [(peer, frame)]) (earlyEstablishedBytes n + len frame))
  end.

(** [deliverDatagram]; the service's own actions are not the manager's. *)
Definition deliverDatagram (srcHex : string) (data : DataPacket) : Mgr unit :=
  if dstPort data =? LINK_NEGOTIATION_SERVICE_PORT then call (LinkNegotiation srcHex (dp_payload data)) else
  s ← get;
  let handler := JsMap.get_ (services s) (dstPort data) in
  call (EmitDatagram srcHex data);;
  match handler with Some h => call (CallService h srcHex data) | None => mret tt end.

(** Which [FspSession] a record of the epoch [receivedKBit] is for, and whether
    that promotes it; or it is too early. *)
Inductive Receiver := ReceiveOn (i : nat) (promote : bool) | TooEarly | WrongEpoch.

Definition choose_receiver (n : Session) (receivedKBit : bool) (s : FspSessionManager) : Receiver :=
  if bool_decide (receivedKBit = currentKBit n) then ReceiveOn (sn_fsp n) false else
  let previous := match previousFsp n with
                  | Some (i, kBit, _) => if bool_decide (kBit = receivedKBit) then ReceiveOn i false else WrongEpoch
                  | None => WrongEpoch
                  end in
  match pendingResponderFsp n with
  | Some i =>
      match fsp_state s i with
      | FspSession.SEstablished => ReceiveOn i true
      | FspSession.SHandshaking => TooEarly
      | _ => previous
      end
  | None => previous
  end.

(** The callback of [decryptIncoming]. *)
Definition on_authenticated (k peer i : nat) (srcNodeHex : string) (receivedKBit promote : bool) (nowMs : Z) (now : F64.t) (x : FspReceived)
    : Mgr unit :=
  call (LearnReverse srcNodeHex peer);;
  (if promote then promotePendingSession k i receivedKBit nowMs else mret tt);;
  s ← get;
  match session_objects s !! k with
  | None => mret tt
  | Some n =>
      alter_session k (fun n => set_receiverReports n (Some (record_ (mkReceived (fr_counter x) (fr_timestamp x) (fr_bytes x) false) now
        (bool_decide (i = sn_fsp n)) (default new_reports (receiverReports n)))))
  end.

(** [receiveFsp.decryptIncoming]: the manager is the state of the callback, and
    the [FspSession] is put back after it. *)
Definition receive_on {A} (i : nat) (m : ST (FspSession.t * FspSessionManager) A) : Mgr A := fun s =>
  match fsps s !! i with
  | None => (Throw (TypeError "Cannot read properties of undefined"), s)
  | Some f => let '(r, (f', s')) := m (f, s) in (r, set_fsps s' (<[i:=f']> (fsps s')))
  end.

(** What a record leaves to do: answer an offer of traversal to [remote]. *)
Inductive Received := Done | TraversalOffer (remote : bytes) (payload : bytes).

Definition handleEstablished (peer : nat) (srcNodeHex : string) (k : nat) (fspFrame : bytes) (nowMs : Z) (now : F64.t) : Mgr Received :=
  s ← get;
  match session_objects s !! k with
  | None => throw (Error "FSP Established before handshake")
  | Some n =>
      match fsp_state s (sn_fsp n) with
      | FspSession.SHandshaking => queueEarlyEstablishedRecord k peer fspFrame;; mret Done
      | FspSession.SEstablished =>
          prunePreviousFsp k nowMs;;
          established ← lift (decodeFspEstablished fspFrame);
          let receivedKBit := negb (js_and (fe_flags established) FSP_FLAG_K =? 0) in
          s ← get;
          match session_objects s !! k with
          | None => mret Done
          | Some n =>
              match choose_receiver n receivedKBit s with
              | TooEarly => queueEarlyEstablishedRecord k peer fspFrame;; mret Done
              | WrongEpoch => throw (Error "FSP Established epoch mismatch")
              | ReceiveOn i promote =>
                  result ← receive_on i (FspSession.decryptIncoming fspFrame
                    (Some (on_authenticated k peer i srcNodeHex receivedKBit promote nowMs now)));
                  s ← get;
                  match (if fm_msgType result =? FSP_MSG_TRAVERSAL_OFFER then fm_payload result else None),
                        fsps s !! i ≫= FspSession.remotePubkey with
                  | Some payload, Some remote => lift (assertPeerAllowed remote);; mret (TraversalOffer remote payload)
                  | _, _ =>
                      let srcHex := default srcNodeHex (session_objects s !! k ≫= remotePubkeyHex) in
                      (match (if fm_msgType result =? FSP_MSG_DATA then fm_data result else None) with
                       | Some data => deliverDatagram srcHex data
                       | None => mret tt
                       end);;
                      (match (if fm_msgType result =? FSP_MSG_ENDPOINT_DATA then fm_endpointData result else None) with
                       | Some payload => call (EmitEndpointData srcHex payload)
                       | None => mret tt
                       end);;
                      mret Done
                  end
              end
          end
      | _ => throw (Error "FSP Established before handshake")
      end
  end.

(** The answer to an offer of traversal, if there is one. *)
Definition answer_offer (k : nat) (answer : option bytes) (now : F64.t) : Mgr (option NodeAddr) :=
  match answer with Some a => sendSessionMessage k FSP_MSG_TRAVERSAL_ANSWER a now | None => mret None end.

(** [drainEarlyEstablishedRecords]: the records it then handles one by one, each
    as [handleEstablished] would, whose error is logged. *)
Definition drain_records (k : nat) : Mgr (list (nat * bytes)) :=
  s ← get;
  alter_session k (fun n => set_early n [] 0);;
  mret (match session_objects s !! k with Some n => earlyEstablishedRecords n | None => [] end).

Definition drain_record (srcNodeHex : string) (k : nat) (record : nat * bytes) (nowMs : Z) (now : F64.t) : Mgr Received :=
  try_catch (handleEstablished (fst record) srcNodeHex k (snd record) nowMs now) (fun _ => mret Done).

(** ** Handshakes *)

(** [new FspSession({ ... })] *)
Definition new_fsp (role : NoiseRole) (remotePubkey : option bytes) : Mgr nat :=
  f ← lift (FspSession.new identity remotePubkey role None (Some localEpoch) (Some strictClient));
  s ← get;
  modify (fun s => set_fsps s (fsps s ++ [f]));;
  mret (length (fsps s)).

Definition fsp_setup (i : nat) (fspFrame random : bytes) (srcNodeAddr : NodeAddr) : Mgr bytes :=
  on_fsp i (FspSession.handleSessionSetup fspFrame random (AddrPath routing_coords) (Some srcNodeAddr)).

Definition new_session (n : Session) (nodeHex : string) : Mgr nat :=
  s ← get;
  let k := length (session_objects s) in
  modify (fun s => set_objects s (session_objects s ++ [n]));;
  modify (fun s => set_sessions s (JsMap.set_ (sessions s) nodeHex k));;
  mret k.

Definition fresh_session (addr : NodeAddr) (hex : option string) (pk : option bytes) (fsp : nat) : Session :=
  mkSession addr hex pk fsp false None None [] 0 None None None.

Definition matches_setup (s : FspSessionManager) (i : nat) (fspFrame : bytes) : bool :=
  match fsps s !! i with Some f => FspSession.matchesSessionSetup fspFrame f | None => false end.

(** A setup for a node that has a session: the same again, a new epoch, or one
    that crosses the node's own. *)
Inductive SetupCase := Repeated (i : nat) | Rekey | Crossing (i : nat) | Unrelated.

Definition setup_case (s : FspSessionManager) (session : option Session) (fspFrame : bytes) : SetupCase :=
  match session with
  | None => Unrelated
  | Some n =>
      match (match pendingResponderFsp n with Some i => if matches_setup s i fspFrame then Some i else None | None => None end) with
      | Some i => Repeated i
      | None =>
          if matches_setup s (sn_fsp n) fspFrame then Repeated (sn_fsp n) else
          match fsps s !! sn_fsp n with
          | Some f =>
              match FspSession.state f, FspSession.role f with
              | FspSession.SEstablished, _ => Rekey
              | FspSession.SHandshaking, initiator => Crossing (sn_fsp n)
              | _, _ => Unrelated
              end
          | None => Unrelated
          end
      end
  end.

Definition handleSessionSetup (peer : nat) (srcNodeAddr : NodeAddr) (srcNodeHex : string) (session : option nat) (fspFrame random : bytes)
    : Mgr unit :=
  s ← get;
  let n := session ≫= fun k => session_objects s !! k in
  reply ← (match setup_case s n fspFrame, session with
           | Repeated i, _ => r ← fsp_setup i fspFrame random srcNodeAddr; mret (Some r)
           | Rekey, Some k =>
               pending ← new_fsp responder None;
               r ← fsp_setup pending fspFrame random srcNodeAddr;
               close_opt (n ≫= pendingResponderFsp);;
               alter_session k (fun n => set_pending n (Some pending));;
               mret (Some r)
           | Crossing i, Some k =>
               order ← lift (compareNodeAddr (nodeAddr identity) srcNodeAddr);
               if order <? 0 then mret None else
               throw_when (order =? 0) (Error "simultaneous FSP handshake with local identity");;
               close_fsp i;;
               responder_fsp ← new_fsp responder None;
               r ← fsp_setup responder_fsp fspFrame random srcNodeAddr;
               alter_session k (fun n => set_fsp n responder_fsp);;
               mret (Some r)
           | _, _ =>
               fsp ← new_fsp responder None;
               r ← fsp_setup fsp fspFrame random srcNodeAddr;
               new_session (fresh_session srcNodeAddr None None fsp) srcNodeHex;;
               call (EmitSession srcNodeHex Establishing false);;
               mret (Some r)
           end);
  match reply with Some r => call (ReplyToward srcNodeAddr r peer) | None => mret tt end.

(** The [try] block of [handleSessionMsg3]. *)
Definition check_remote (n : Session) (pk : bytes) (srcNodeAddr : NodeAddr) : result unit :=
  assertPeerAllowed pk;;
  addr ← deriveNodeAddr pk;
  throw_if (negb (bytesEqual addr srcNodeAddr)) (Error "FSP msg3 authenticated key does not match claimed source NodeAddr");;
  match sn_remotePubkey n with
  | Some known => throw_if (negb (sameCompressedIdentity known pk)) (Error "FSP rekey changed the authenticated remote identity")
  | None => mret tt
  end.

(** Its [catch] block. *)
Definition refuse_remote (k i : nat) (srcNodeHex : string) (e : js_error) : Mgr unit :=
  close_fsp i;;
  s ← get;
  (if decide (session_objects s !! k ≫= pendingResponderFsp = Some i)
   then alter_session k (fun n => set_pending n None) else delete_session srcNodeHex);;
  throw e.

Definition restarted (s : FspSessionManager) (n : Session) (i : nat) : bool :=
  match pendingResponderFsp n, fsps s !! sn_fsp n ≫= FspSession.remoteEpoch, fsps s !! i ≫= FspSession.remoteEpoch with
  | Some _, Some a, Some b => negb (bytesEqual a b)
  | _, _, _ => false
  end.

Definition handleSessionMsg3 (peer : nat) (srcNodeAddr : NodeAddr) (srcNodeHex : string) (k : nat) (fspFrame : bytes) (nowMs : Z) (now : F64.t)
    : Mgr (list (nat * bytes)) :=
  s ← get;
  match session_objects s !! k with
  | None => throw (TypeError "Cannot read properties of undefined")
  | Some n =>
      let i := default (sn_fsp n) (pendingResponderFsp n) in
      let promotes := bool_decide (pendingResponderFsp n = Some i) in
      on_fsp i (FspSession.handleSessionMsg3 fspFrame now);;
      s ← get;
      let remoteRestarted := restarted s n i in
      (match fsps s !! i ≫= FspSession.remotePubkey with
       | Some pk =>
           match check_remote n pk srcNodeAddr with
           | Ok _ => alter_session k (fun n => set_key n (Some (toHex pk)) (Some pk))
           | Throw e => refuse_remote k i srcNodeHex e
           end
       | None => mret tt
       end);;
      (if promotes then
         if remoteRestarted then replaceRestartedSession k i else promotePendingSession k i (negb (currentKBit n)) nowMs
       else mret tt);;
      call (LearnReverse srcNodeHex peer);;
      s ← get;
      call (EmitSession (default srcNodeHex (session_objects s !! k ≫= remotePubkeyHex)) Established remoteRestarted);;
      resolveSessionSetup k;;
      drain_records k
  end.

(** ** Recovery of sessions that the other end still has *)

Definition expired (now : Z) (r : string * Recovery) : bool :=
  match rc_expiresAtMs (snd r) with Some t => t <=? now | None => false end.

(** What a record without a session does: wait for a recovery that is under way
    or over, nothing for lack of room, or look up the identity of the address
    with a new controller, in the generation that has begun. *)
Inductive RecoveryStart := Recovering | NoRoom | Resolve (abort : nat) (generation : Z).

Definition recoverMissingSession (nodeHex : string) (now : Z) : Mgr RecoveryStart :=
  modify (fun s => set_recoveries s (missingSessionRecoveries s)
    (abort_recoveries (base.filter (fun r => expired now r = true) (missingSessionRecoveries s)) (controllers s)));;
  modify (fun s => set_recoveries s (base.filter (fun r => expired now r = false) (missingSessionRecoveries s)) (controllers s));;
  s ← get;
  match JsMap.get_ (missingSessionRecoveries s) nodeHex with
  | Some _ => mret Recovering
  | None =>
      if len (missingSessionRecoveries s) >=? MAX_MISSING_SESSION_RECOVERIES then mret NoRoom else
      let abort := length (controllers s) in
      modify (fun s => set_recoveries s (missingSessionRecoveries s) (controllers s ++ [false]));;
      modify (fun s => set_recoveries s (JsMap.set_ (missingSessionRecoveries s) nodeHex (mkRecovery abort None)) (controllers s));;
      mret (Resolve abort (recoveryGeneration s))
  end.

(** The identity is found: whether [ensureSession] follows. *)
Definition recovery_resolved (generation : Z) : Mgr bool := s ← get; mret (generation =? recoveryGeneration s).

Definition recovery_done (nodeHex : string) (generation : Z) : Mgr unit :=
  s ← get;
  if generation =? recoveryGeneration s
  then modify (fun s => set_recoveries s (JsMap.delete_ (missingSessionRecoveries s) nodeHex) (controllers s)) else mret tt.

Definition recovery_failed (nodeHex : string) (abort : nat) (now : Z) : Mgr unit :=
  s ← get;
  match JsMap.get_ (missingSessionRecoveries s) nodeHex with
  | Some r =>
      if decide (rc_controller r = abort) then
        modify (fun s => set_recoveries s (JsMap.set_ (missingSessionRecoveries s) nodeHex
          (mkRecovery abort (Some (now + MISSING_SESSION_RETRY_MS)))) (controllers s))
      else mret tt
  | None => mret tt
  end.

(** ** The frames of a peer *)

(** What [handleFromPeer] still has to do when it reaches an [await]. *)
Inductive Handled :=
| Handled_
| OfferReceived (k : nat) (remote : bytes) (payload : bytes)
| DrainRecords (k : nat) (records : list (nat * bytes))
| Recover (start : RecoveryStart).

Definition handle_ack (srcNodeAddr : NodeAddr) (srcNodeHex : string) (k : nat) (fspFrame random : bytes) (now : F64.t) : Mgr unit :=
  s ← get;
  match session_objects s !! k with
  | None => throw (TypeError "Cannot read properties of undefined")
  | Some n =>
      reply ← on_fsp (sn_fsp n) (FspSession.handleSessionAck fspFrame random now);
      (match fsp_state s (sn_fsp n) with
       | FspSession.SEstablished => mret tt
       | _ =>
           call (EmitSession (default srcNodeHex (remotePubkeyHex n)) Established false);;
           resolveSessionSetup k
       end);;
      call (SendToward srcNodeAddr reply)
  end.

Definition handleFromPeer (peer : nat) (srcNodeAddr : NodeAddr) (fspFrame random : bytes) (nowMs : Z) (now : F64.t) : Mgr Handled :=
  lift (assertNodeAllowed srcNodeAddr);;
  phase ← lift (peekFspPhase fspFrame);
  srcNodeHex ← lift (nodeAddrToHex srcNodeAddr);
  s ← get;
  let session := session_of s srcNodeHex in
  if phase =? FSP_PHASE_ESTABLISHED then
    match session with
    | None =>
        lift (decodeFspEstablished fspFrame);;
        r ← recoverMissingSession srcNodeHex nowMs;
        mret (Recover r)
    | Some k =>
        r ← handleEstablished peer srcNodeHex k fspFrame nowMs now;
        mret match r with Done => Handled_ | TraversalOffer remote payload => OfferReceived k remote payload end
    end
  else if phase =? 1 then
    handleSessionSetup peer srcNodeAddr srcNodeHex session fspFrame random;; mret Handled_
  else if phase =? 2 then
    match session with
    | None => throw (Error "FSP msg2 with no session")
    | Some k => handle_ack srcNodeAddr srcNodeHex k fspFrame random now;; mret Handled_
    end
  else if phase =? 3 then
    match session with
    | None => throw (Error "FSP msg3 with no session")
    | Some k =>
        records ← handleSessionMsg3 peer srcNodeAddr srcNodeHex k fspFrame nowMs now;
        mret (DrainRecords k records)
    end
  else throw (Error "unknown FSP phase").

(** ** A session to a peer *)

Inductive Ensured := Ready (k : nat) | Awaiting (k setup : nat) | NoSession.

(** The session under [remoteNodeHex], if [ensureSession] can use it. *)
Definition ensured (remoteNodeHex : string) : Mgr Ensured :=
  s ← get;
  match session_of s remoteNodeHex with
  | None => mret NoSession
  | Some k =>
      match fsp_state s (default 0%nat (sn_fsp <$> session_objects s !! k)) with
      | FspSession.SEstablished => mret (Ready k)
      | FspSession.SHandshaking => p ← waitForSessionSetup k; mret (Awaiting k p)
      | _ => mret NoSession
      end
  end.

(** The names [ensureSession] begins with. *)
Definition ensure_names (remotePubkeyHex : string) : result (bytes * NodeAddr * string) :=
  remotePubkey ← fromHex remotePubkeyHex;
  assertPeerAllowed remotePubkey;;
  remoteNodeAddr ← deriveNodeAddr remotePubkey;
  remoteNodeHex ← nodeAddrToHex remoteNodeAddr;
  Ok (remotePubkey, remoteNodeAddr, remoteNodeHex).

(** [ensureSession] to where it may wait for a route. *)
Definition ensure_begin (remotePubkeyHex : string) : Mgr Ensured :=
  '(_, _, remoteNodeHex) ← lift (ensure_names remotePubkeyHex);
  ensured remoteNodeHex.

Inductive Initiated := Shared (e : Ensured) | Initiating (k fsp setup : nat) (msg1 : bytes).

(** Once there is a route: a session that has come about, or a new one, whose
    first message is sent. *)
Definition ensure_routed (remotePubkeyHex : string) (random : bytes) : Mgr Initiated :=
  '(remotePubkey, remoteNodeAddr, remoteNodeHex) ← lift (ensure_names remotePubkeyHex);
  e ← ensured remoteNodeHex;
  match e with
  | NoSession =>
      fsp ← new_fsp initiator (Some remotePubkey);
      k ← new_session (fresh_session remoteNodeAddr (Some remotePubkeyHex) (Some remotePubkey) fsp) remoteNodeHex;
      call (EmitSession remotePubkeyHex Establishing false);;
      setupDone ← waitForSessionSetup k;
      msg1 ← on_fsp fsp (FspSession.buildSessionSetup random (AddrPath routing_coords)
        (AddrPath (default [remoteNodeAddr] (coordinatesFor remoteNodeHex))));
      call (SendToward remoteNodeAddr msg1);;
      mret (Initiating k fsp setupDone msg1)
  | e => mret (Shared e)
  end.

Definition stillInitiating (s : FspSessionManager) (remoteNodeHex : string) (k fsp : nat) : bool :=
  bool_decide (session_of s remoteNodeHex = Some k) && bool_decide (sn_fsp <$> session_objects s !! k = Some fsp)
  && match fsp_state s fsp with FspSession.SHandshaking => true | _ => false end.

(** [scheduleRetry]: the delay of the timer, which doubles each time. *)
Definition scheduleRetry (remoteNodeHex : string) (k fsp : nat) (delayMs : Z) : Mgr (option Z) :=
  s ← get; mret (if stillInitiating s remoteNodeHex k fsp then Some delayMs else None).

Definition retry_timer (remoteNodeAddr : NodeAddr) (remoteNodeHex : string) (k fsp : nat) (msg1 : bytes) : Mgr unit :=
  s ← get;
  if stillInitiating s remoteNodeHex k fsp then call (SendToward remoteNodeAddr msg1) else mret tt.

(** The [catch] block, up to its wait for the setup's promise. *)
Definition ensure_failed (remoteNodeHex : string) (k : nat) (e : js_error) : Mgr unit :=
  s ← get;
  let closing := match fsp_state s (default 0%nat (sn_fsp <$> session_objects s !! k)) with FspSession.SEstablished => false | _ => true end in
  if bool_decide (session_of s remoteNodeHex = Some k) && closing then rejectSessionSetup k remoteNodeHex e else mret tt.

(** The constructor. *)
Definition new_manager : result FspSessionManager :=
  throw_if (negb (len localEpoch =? 8)) (Error "FSP local epoch must be 8 bytes");;
  Ok (mkManager [] [] [] [] [] false false [] [] 0 []).
End Manager.
