(* ===== verification/SessionSafety.v ===== *)
(** * The session table is sound

    What holds of [Sessions] in every run: each session is with the owner of its
    address, an established session survives whatever arrives, what is delivered
    was sealed by the session's peer, and the queues, waits and recoveries stay
    bounded. *)

From S2P Require Import Prelude Codec Crypto Toy NodeAddr Identity Replay F64 FmpWire FspWire SessionMsg Channel Noise Reports FspSession.
From S2P Require Import DirectTransport FmpLink Peers Sessions.

(** ** The remote static key of a handshake *)

Section RemoteStatic.
Context `{Noble}.
Import NoiseHandshake.

Definition rs_ok (h : t) : Prop := forall k, rs h = Some k -> len k = 33.
Definition rs_kept (h h' : t) : Prop := rs h' = rs h.

#[export] Instance rs_kept_preorder : PreOrder rs_kept.
Proof. unfold rs_kept. split; [done|intros f g h ? ?; congruence]. Qed.

Lemma dh_rs tok : respects rs_kept (dh tok).
Proof. unfold dh. repeat first [respects_step | apply respects_zoom; by intros ? ?]. Qed.

Lemma write_tokens_rs random toks out : respects rs_kept (write_tokens random toks out).
Proof.
  revert out. induction toks as [|tok toks IH]; intros out; cbn [write_tokens]; [apply respects_ret, _|].
  destruct tok; repeat first [respects_step | apply IH | apply dh_rs | apply respects_zoom; by intros ? ? | apply respects_modify; by intros ?].
Qed.

Lemma writeMessage_rs random payload : respects rs_kept (writeMessage random payload).
Proof.
  unfold writeMessage. repeat first [respects_step | apply write_tokens_rs | apply respects_zoom; by intros ? ? | apply respects_modify; by intros ?].
Qed.

Lemma read_tokens_rs m toks off h x h' : read_tokens m toks off h = (Ok x, h') -> rs_ok h -> rs_ok h'.
Proof.
  revert off h. induction toks as [|tok toks IH]; intros off h; cbn [read_tokens]; [by intros [= _ <-]|].
  assert (Hdh : forall t off, (dh t;; read_tokens m toks off) h = (Ok x, h') -> rs_ok h -> rs_ok h').
  { intros t off' E Hh. apply ST_bind_inv in E as ([] & h1 & E1 & E). apply (IH _ _ E). pose proof (dh_rs t h) as Hk. rewrite E1 in Hk.
    unfold rs_ok. cbn in Hk. by rewrite Hk. }
  destruct tok; try apply Hdh; intros E Hh; st_inv; apply (IH _ _ E);
    match goal with Hz : zoom _ _ _ _ = _ |- _ => unfold zoom in Hz; destruct (SymmetricState.mixHash _ _) || destruct (SymmetricState.decryptAndHash _ _) end;
    simplify_eq; intros k Hk; cbn in *; simplify_eq; [by apply Hh|]. bool_split. done.
Qed.

Lemma readMessage_rs m h : rs_ok h -> rs_ok (snd (readMessage m h)).
Proof.
  intros Hh. unfold readMessage. destruct (readMessageInPlace m h) as [[p|e] h'] eqn:E; [|exact Hh]. cbn [snd].
  unfold readMessageInPlace in E. st_inv.
  match goal with Hr : read_tokens _ _ _ _ = _ |- _ => apply read_tokens_rs in Hr; [|exact Hh] end.
  match goal with Hz : (if ?c then _ else _) _ = _ |- _ => destruct c; [unfold zoom in Hz; destruct (SymmetricState.decryptAndHash _ _)|] end;
    unfold mret, ST_ret in *; simplify_eq; match goal with Hr : rs_ok ?z |- rs_ok (set_step _ _) => exact Hr end.
Qed.
End RemoteStatic.

(** ** What the manager's calls do to an [FspSession] *)

Section FspSteps.
Context `{Noble}.
Import FspSession.

(** An established session has no handshake left, and a responder takes only
    compressed keys from its handshake. *)
Definition fsp_wf (f : t) : Prop :=
  (state f = SEstablished -> hs f = None) /\
  (role f = responder -> (forall h, hs f = Some h -> rs_ok h) /\ forall pk, remotePubkey f = Some pk -> len pk = 33).

(** The same role and remote key, and no session becomes established. *)
Definition keeps (f f' : t) : Prop :=
  role f' = role f /\ remotePubkey f' = remotePubkey f /\ (state f' = SEstablished -> state f = SEstablished) /\ (fsp_wf f -> fsp_wf f').

(** As [keeps], but an initiator may become established. *)
Definition finishes (f f' : t) : Prop :=
  role f' = role f /\ remotePubkey f' = remotePubkey f /\
  (state f' = SEstablished -> state f = SEstablished \/ role f = initiator) /\ (fsp_wf f -> fsp_wf f').

(** The role alone. *)
Definition same_role (f f' : t) : Prop := role f' = role f /\ (fsp_wf f -> fsp_wf f').

Definition same_key (f f' : t) : Prop := remotePubkey f' = remotePubkey f.

#[export] Instance same_key_preorder : PreOrder same_key.
Proof. split; [by intros f|]. unfold same_key. intros f g h ? ?. congruence. Qed.

#[export] Instance keeps_preorder : PreOrder keeps.
Proof. split; [by intros f|]. intros f g h (? & ? & ? & ?) (? & ? & ? & ?). split; [congruence|]. split; [congruence|]. auto. Qed.

#[export] Instance same_role_preorder : PreOrder same_role.
Proof. split; [by intros f|]. intros f g h (? & ?) (? & ?). split; [congruence|auto]. Qed.

Lemma keeps_finishes f f' : keeps f f' -> finishes f f'.
Proof. intros (? & ? & ? & ?). do 2 (split; [done|]). auto. Qed.

Definition rs_fine {A} (m : ST NoiseHandshake.t A) : Prop := forall h, rs_ok h -> rs_ok (snd (m h)).

Lemma on_hs_keeps {A} (m : ST NoiseHandshake.t A) : rs_fine m -> respects keeps (FspSession.on_hs m).
Proof.
  intros Hm f. unfold FspSession.on_hs. destruct (hs f) as [h|] eqn:E; [|done]. specialize (Hm h). destruct (m h) as [r h']. cbn in *.
  do 3 (split; [done|]). intros [Hw Hr]. split; cbn; [intros Hs; specialize (Hw Hs); congruence|]. intros Ho. destruct (Hr Ho) as [Hh Hk].
  split; [|done]. intros h2 [= <-]. by apply Hm, Hh.
Qed.

Lemma rs_fine_of {A} (m : ST NoiseHandshake.t A) : respects rs_kept m -> rs_fine m.
Proof. intros Hm h Hh k. rewrite (Hm h). apply Hh. Qed.

Lemma keeps_on_hs_read m : respects keeps (FspSession.on_hs (NoiseHandshake.readMessage m)).
Proof. apply on_hs_keeps. intros h. apply readMessage_rs. Qed.

Lemma on_hs_write random p : respects keeps (FspSession.on_hs (NoiseHandshake.writeMessage random p)).
Proof. apply on_hs_keeps, rs_fine_of, writeMessage_rs. Qed.

Lemma on_hs_look {A} (g : NoiseHandshake.t -> result A) : respects keeps (FspSession.on_hs (h ← get; lift (g h))).
Proof. apply on_hs_keeps, rs_fine_of. repeat respects_step. Qed.

Lemma on_hs_static : respects keeps (FspSession.on_hs (h ← get; mret (NoiseHandshake.getRemoteStatic h))).
Proof. apply on_hs_keeps, rs_fine_of. repeat respects_step. Qed.

Lemma keeps_same_role {A} (m : ST t A) : respects keeps m -> respects same_role m.
Proof. intros Hm f. by destruct (Hm f) as (? & _ & _ & ?). Qed.

Lemma keeps_same_key {A} (m : ST t A) : respects keeps m -> respects same_key m.
Proof. intros Hm f. by destruct (Hm f) as (_ & ? & _ & _). Qed.

Lemma finalize_same_role now : respects same_role (finalize now).
Proof.
  unfold finalize, require_hs. repeat first [respects_step | apply keeps_same_role, on_hs_look].
  apply respects_modify. intros f. split; [done|]. intros [_ Hr]. split; [done|]. intros Ho. by destruct (Hr Ho).
Qed.

(** The key that a responder takes over. *)
Lemma capture_same_role {A} (g : option bytes -> result bytes) (k : unit -> ST t A) :
  (forall rs x, g rs = Ok x -> rs = Some x) -> (forall u, respects same_role (k u)) ->
  respects same_role (rs ← FspSession.on_hs (h ← get; mret (NoiseHandshake.getRemoteStatic h)); rs ← lift (g rs); modify (fun s => set_remotePubkey s rs) ≫= k).
Proof.
  intros Hg Hk f. destruct (hs f) as [h|] eqn:Eh; [|unfold mbind at 1, ST_bind at 1, FspSession.on_hs; by rewrite Eh].
  assert (E : FspSession.on_hs (h ← get; mret (NoiseHandshake.getRemoteStatic h)) f = (Ok (NoiseHandshake.getRemoteStatic h), set_hs f (Some h)))
    by (unfold FspSession.on_hs; by rewrite Eh).
  rewrite (ST_bind_ok _ _ _ _ _ E). destruct (g (NoiseHandshake.getRemoteStatic h)) as [x|e] eqn:Eg.
  - erewrite ST_lift_bind by done. rewrite ST_modify_bind. etransitivity; [|apply Hk]. split; [done|]. intros [Hw Hr]. split; cbn.
    + intros Hs. specialize (Hw Hs). congruence.
    + intros Ho. destruct (Hr Ho) as [Hh _]. split; [intros h2 [= <-]; by apply Hh|]. intros pk [= <-]. by apply (Hh h), Hg.
  - split; [done|]. intros [Hw Hr]. split; cbn; [intros Hs; specialize (Hw Hs); congruence|]. intros Ho. destruct (Hr Ho) as [Hh Hk'].
    split; [|done]. intros h2 [= <-]. by apply Hh.
Qed.
End FspSteps.

#[export] Hint Resolve keeps_on_hs_read on_hs_write on_hs_look on_hs_static finalize_same_role : respects.

Ltac keeps_solve :=
  repeat first [respects_step
    | apply respects_modify; let f := fresh in intros f; do 3 (split; [done|]);
      let W1 := fresh in let W2 := fresh in intros [W1 W2]; (split; [first [exact W1 | done]|exact W2])
    | apply respects_modify; let f := fresh in intros f; split; [done|]; exact (fun x => x)
    | apply keeps_same_role; solve [auto with respects]].

Section FspMethods.
Context `{Noble}.
Import FspSession.

Lemma setup_keeps packet random local addr : respects keeps (FspSession.handleSessionSetup packet random local addr).
Proof. unfold FspSession.handleSessionSetup, require_hs. keeps_solve. Qed.

Lemma build_keeps random src dst : respects keeps (buildSessionSetup random src dst).
Proof. unfold buildSessionSetup, require_hs. keeps_solve. Qed.

Lemma encrypt_keeps ty p fl c now : respects keeps (encryptMessage ty p fl c now).
Proof. unfold encryptMessage. keeps_solve. Qed.

Lemma ack_same_role packet random now : respects same_role (FspSession.handleSessionAck packet random now).
Proof. unfold FspSession.handleSessionAck, require_hs. keeps_solve. Qed.

Lemma ack_same_key packet random now : respects same_key (FspSession.handleSessionAck packet random now).
Proof.
  unfold FspSession.handleSessionAck, finalize, require_hs. repeat first [respects_step
    | apply respects_modify; by intros f | apply keeps_same_key; solve [auto with respects]].
Qed.

Lemma ack_finishes packet random now f : finishes f (snd (FspSession.handleSessionAck packet random now f)).
Proof.
  destruct (ack_same_role packet random now f) as [Hr Hw]. split; [done|]. split; [apply ack_same_key|]. split; [|done].
  destruct (role f) eqn:E; [by right|left]. unfold FspSession.handleSessionAck in *. revert H0. rewrite !ST_get_bind. by rewrite E.
Qed.

(** Handshake messages leave an established session as it is. *)
Lemma setup_stays packet random local addr f :
  state f = SEstablished -> fsp_wf f -> snd (FspSession.handleSessionSetup packet random local addr f) = f.
Proof.
  intros Hs [Hw _]. specialize (Hw Hs). unfold FspSession.handleSessionSetup. rewrite ST_get_bind.
  destruct (role f); [done|]. rewrite ST_pass by done. destruct (receivedSessionSetup f) as [r|].
  - destruct (bytesEqual packet r); [|done]. by destruct (sentSessionAck f).
  - unfold require_hs, mbind, ST_bind, get. by rewrite Hw.
Qed.

Lemma ack_stays packet random now f :
  state f = SEstablished -> fsp_wf f -> snd (FspSession.handleSessionAck packet random now f) = f.
Proof.
  intros Hs [Hw _]. specialize (Hw Hs). unfold FspSession.handleSessionAck. rewrite ST_get_bind.
  destruct (role f); [|done]. rewrite ST_pass by done. destruct (receivedSessionAck f) as [r|].
  - destruct (bytesEqual packet r); [|done]. by destruct (sentSessionMsg3 f).
  - unfold require_hs, mbind, ST_bind, get. by rewrite Hw.
Qed.

Lemma msg3_stays packet now f : state f = SEstablished -> snd (FspSession.handleSessionMsg3 packet now f) = f.
Proof.
  intros Hs. unfold FspSession.handleSessionMsg3. rewrite ST_get_bind.
  destruct (role f); [done|]. rewrite ST_pass, decide_True by done.
  destruct (establishedMsg3 f) as [m3|]; [|done]. by destruct (bytesEqual packet m3).
Qed.

(** What a receiving session becomes. *)
Lemma decrypt_keeps {W} packet (c : option (FspReceived -> ST W unit)) f w : let f' := fst (snd (decryptIncoming packet c (f, w))) in
  keeps f f' /\ state f' = state f.
Proof. cbn. destruct (fsp_decrypt_cases packet c f w) as [[e ->]|(est & pt & _ & -> & _)];
  (split; [do 3 (split; [done|]); exact (fun x => x)|done]). Qed.

Lemma msg3_same_role packet now : respects same_role (FspSession.handleSessionMsg3 packet now).
Proof.
  unfold FspSession.handleSessionMsg3, require_hs. apply respects_bind; [apply _|apply respects_get, _|intros f].
  apply respects_bind; [apply _|apply respects_throw_when, _|intros _]. case_decide; [keeps_solve|].
  do 6 (apply respects_bind; [apply _|keeps_solve|intros ?]).
  apply (capture_same_role (fun rs => match rs with Some k => Ok k | None => Throw (Error "XK responder did not capture remote static") end)).
  - intros [rs|] x; [by intros [= ->]|done].
  - intros []. keeps_solve.
Qed.
End FspMethods.

(** A call that fails establishes nothing. *)
Section FailedCalls.
Context `{Noble}.
Import FspSession.

Definition stays_open (f f' : t) : Prop := state f' = SEstablished -> state f = SEstablished.

#[export] Instance stays_open_preorder : PreOrder stays_open.
Proof. unfold stays_open. split; intros f; auto. Qed.

Lemma keeps_stays_open {A} (m : ST t A) : respects keeps m -> respects stays_open m.
Proof. intros Hm f. by destruct (Hm f) as (_ & _ & ? & _). Qed.

Definition open_if_thrown {A} (m : ST t A) : Prop := forall f e, fst (m f) = Throw e -> stays_open f (snd (m f)).

Lemma open_bind {A B} (m : ST t A) (g : A -> ST t B) :
  respects stays_open m -> (forall a, open_if_thrown (g a)) -> open_if_thrown (m ≫= g).
Proof.
  intros Hm Hg f e. specialize (Hm f). unfold mbind, ST_bind. destruct (m f) as [[a|e'] f']; cbn [fst snd] in *; [|done].
  intros E. specialize (Hg a f' e E). unfold stays_open in *. auto.
Qed.

Lemma open_respects {A} (m : ST t A) : respects stays_open m -> open_if_thrown m.
Proof. intros Hm f e _. apply Hm. Qed.

Lemma finalize_open now : open_if_thrown (finalize now).
Proof.
  unfold finalize, require_hs. apply open_bind; [keeps_solve|intros _].
  apply open_bind; [apply keeps_stays_open, on_hs_look|intros [tx rx]]. by intros f e.
Qed.

Ltac open_solve :=
  repeat first [apply open_bind; [|intros ?] | apply finalize_open | by intros ? ? ?
    | match goal with |- open_if_thrown (match ?x with _ => _ end) => destruct x end
    | respects_step | apply keeps_stays_open; solve [auto with respects] | apply respects_modify; intros ?; exact (fun x => x)
    | intros ?; exact (fun x => x)
    | apply open_respects].

Lemma require_hs_open : respects stays_open require_hs.
Proof. unfold require_hs. keeps_solve. Qed.

Lemma msg3_open packet now : open_if_thrown (FspSession.handleSessionMsg3 packet now).
Proof. unfold FspSession.handleSessionMsg3. open_solve. all: apply require_hs_open. Qed.

Lemma finalize_key now f : remotePubkey (snd (finalize now f)) = remotePubkey f.
Proof.
  revert f. change (respects same_key (finalize now)). unfold finalize, require_hs. repeat first [respects_step
    | apply respects_modify; by intros f | apply keeps_same_key; solve [auto with respects]].
Qed.

Lemma msg3_done packet now f f' : FspSession.handleSessionMsg3 packet now f = (Ok tt, f') -> state f' = SEstablished.
Proof.
  intros E. unfold FspSession.handleSessionMsg3 in E. st_inv. destruct (decide _) as [Hs|Hs].
  - destruct (establishedMsg3 _) as [m|]; [destruct (bytesEqual packet m)|]; cbv [mret ST_ret throw] in E; by simplify_eq.
  - st_inv. unfold finalize in *. st_inv. match goal with x : CipherState.t * CipherState.t |- _ => destruct x end. st_inv. reflexivity.
Qed.

Lemma msg3_names packet now f f' :
  FspSession.handleSessionMsg3 packet now f = (Ok tt, f') -> f' = f /\ state f = SEstablished \/ is_Some (remotePubkey f').
Proof.
  intros E. unfold FspSession.handleSessionMsg3 in E. st_inv. destruct (decide _) as [Hs|Hs].
  - left. destruct (establishedMsg3 _) as [m|]; [destruct (bytesEqual packet m)|]; by simplify_eq E.
  - right. st_inv. match goal with Hf : finalize now ?g = _ |- _ => pose proof (finalize_key now g) as Hk; rewrite Hf in Hk end.
    cbn in Hk. rewrite Hk. by eexists.
Qed.
End FailedCalls.

(** ** The invariant *)

(** The [FspSession]s of a session. *)
Definition slots (n : Session) : list nat := sn_fsp n :: option_list (pendingResponderFsp n) ++ option_list (previous_fsp n).

Section Table.
Context `{Noble, !HexLaws}.
Context (assertPeerAllowed : bytes -> result unit).

(** A key that may speak for a session. *)
Definition admitted (n : Session) (pk : bytes) : Prop := deriveNodeAddr pk = Ok (remoteNodeAddr n) /\ assertPeerAllowed pk = Ok tt.

(** Two keys for one x-coordinate. *)
Definition same_identity (a b : bytes) : Prop := a = b \/ sameCompressedIdentity a b = true.

Definition compressed (a : bytes) : Prop := len a = 33 /\ (byte_at a 0 = 2 \/ byte_at a 0 = 3).

Lemma sameCompressedIdentity_iff a b :
  sameCompressedIdentity a b = true <-> compressed a /\ compressed b /\ subarray_from a 1 = subarray_from b 1.
Proof. unfold sameCompressedIdentity, compressed. rewrite !andb_true_iff, !orb_true_iff, !Z.eqb_eq, bytesEqual_true. tauto. Qed.

Lemma same_identity_trans a b c : same_identity a b -> same_identity b c -> same_identity a c.
Proof.
  unfold same_identity. rewrite !sameCompressedIdentity_iff. intros [->|(? & ? & ?)] [->|(? & ? & ?)]; auto.
  right. split; [done|]. split; [done|congruence].
Qed.

Lemma same_identity_sym a b : same_identity a b -> same_identity b a.
Proof. unfold same_identity. rewrite !sameCompressedIdentity_iff. intros [->|(? & ? & ?)]; auto. Qed.

(** A compressed key that has an address is a point's. *)
Lemma derive_compressed pk a : len pk = 33 -> deriveNodeAddr pk = Ok a -> compressed pk.
Proof.
  unfold deriveNodeAddr, compressed, X_ONLY_PUBKEY_LENGTH, COMPRESSED_PUBKEY_LENGTH. intros Hl. rewrite Hl. cbn [Z.eqb Pos.eqb].
  destruct (Z.eqb_spec (byte_at pk 0) 2), (Z.eqb_spec (byte_at pk 0) 3); by auto.
Qed.

(** [owner] gives the session that an [FspSession] belongs to, if it has been
    given to one. The [FspSession] of [hole] is in the middle of a call. *)
Record sound_with (hole : option nat) (owner : list (option nat)) (s : FspSessionManager) : Prop := {
  so_len : length owner = length (fsps s);
  so_bound : forall i k, owner !! i = Some (Some k) -> (k < length (session_objects s))%nat;
  so_slots : forall k n i, session_objects s !! k = Some n -> i ∈ slots n -> owner !! i = Some (Some k);
  so_wf : forall i f, fsps s !! i = Some f -> fsp_wf f;
  so_keys : forall i f k n, Some i <> hole -> fsps s !! i = Some f -> owner !! i = Some (Some k) -> session_objects s !! k = Some n ->
    FspSession.role f = initiator \/ FspSession.state f = FspSession.SEstablished ->
    exists known pk, sn_remotePubkey n = Some known /\ FspSession.remotePubkey f = Some pk /\ same_identity known pk /\ admitted n pk;
  so_distinct : forall k n, session_objects s !! k = Some n -> NoDup (slots n);
  so_named : forall k n pk, session_objects s !! k = Some n -> sn_remotePubkey n = Some pk ->
    admitted n pk /\ exists hex, remotePubkeyHex n = Some hex /\ fromHex hex = Ok pk;
  so_pending : forall k n i f, Some i <> hole -> session_objects s !! k = Some n -> pendingResponderFsp n = Some i -> fsps s !! i = Some f ->
    FspSession.role f = responder /\ FspSession.state f <> FspSession.SEstablished;
  so_table : JsMap.wf (sessions s);
  so_hex : forall hex k, (hex, k) ∈ sessions s -> exists n, session_objects s !! k = Some n /\ nodeAddrToHex (remoteNodeAddr n) = Ok hex;
}.

Definition sound_but (hole : option nat) (s : FspSessionManager) : Prop := exists owner, sound_with hole owner s.

Definition sound : FspSessionManager -> Prop := sound_but None.

Lemma sound_with_same h o s s' :
  sessions s' = sessions s -> session_objects s' = session_objects s -> fsps s' = fsps s -> sound_with h o s -> sound_with h o s'.
Proof. intros E1 E2 E3 [? ? ? ? ? ? ? ? ? ?]. split; rewrite ?E1, ?E2, ?E3; assumption. Qed.

(** An [FspSession] that takes a step of its own. *)
Lemma sound_fsp h o s i f f' :
  sound_with h o s -> fsps s !! i = Some f -> finishes f f' -> sound_with h o (set_fsps s (<[i:=f']> (fsps s))).
Proof.
  intros [L B S W K D N P T X] Hi (Hr & Hk & He & Hw). split; cbn; try assumption.
  - by rewrite length_insert.
  - intros j g. destruct (decide (i = j)) as [<-|Hne]; [|rewrite list_lookup_insert_ne by done; apply W].
    rewrite list_lookup_insert_eq by (by eapply lookup_lt_Some). intros [= <-]. apply Hw, (W i), Hi.
  - intros j g k n Hh Hj. destruct (decide (i = j)) as [<-|Hne]; [|rewrite list_lookup_insert_ne in Hj by done; exact (K j g k n Hh Hj)].
    rewrite list_lookup_insert_eq in Hj by (by eapply lookup_lt_Some). injection Hj as <-. intros Ho Hn Hd.
    rewrite Hk. apply (K i f k n); [done..|]. rewrite Hr in Hd. destruct Hd as [|Hd]; [by left|]. apply He in Hd as [|]; auto.
  - intros k n j g Hh Hn Hp Hj. destruct (decide (i = j)) as [<-|Hne]; [|rewrite list_lookup_insert_ne in Hj by done; by eapply P].
    rewrite list_lookup_insert_eq in Hj by (by eapply lookup_lt_Some). injection Hj as <-.
    destruct (P k n i f Hh Hn Hp Hi) as [Pr Ps]. split; [congruence|]. intros Hd. apply He in Hd as [|]; [done|congruence].
Qed.

(** A session that gives up [FspSession]s or moves them. *)
Definition shrinks (n n' : Session) : Prop :=
  remoteNodeAddr n' = remoteNodeAddr n /\ remotePubkeyHex n' = remotePubkeyHex n /\ sn_remotePubkey n' = sn_remotePubkey n /\
  (forall i, i ∈ slots n' -> i ∈ slots n) /\ (NoDup (slots n) -> NoDup (slots n')) /\ (pendingResponderFsp n' = None \/ pendingResponderFsp n' = pendingResponderFsp n).

Lemma alter_inv {A} (g : A -> A) (k : nat) (l : list A) j y : alter g k l !! j = Some y ->
  (j = k /\ exists x, l !! k = Some x /\ y = g x) \/ (j <> k /\ l !! j = Some y).
Proof.
  destruct (decide (j = k)) as [->|Hne].
  - rewrite list_lookup_alter_eq. destruct (l !! k) as [x|]; [|done]. intros [= <-]. left. eauto.
  - rewrite list_lookup_alter_ne by done. auto.
Qed.

Lemma sound_shrinks h o s k g :
  sound_with h o s -> (forall n, session_objects s !! k = Some n -> shrinks n (g n)) ->
  sound_with h o (set_objects s (alter g k (session_objects s))).
Proof.
  intros [L B S W K D N P T X] Hg. split; cbn; try assumption.
  - by rewrite length_alter.
  - intros j n i [(-> & m & Hm & ->)|[_ Hn]]%alter_inv Hi; [|by eapply S].
    destruct (Hg m Hm) as (_ & _ & _ & Hs & _). by apply (S k m), Hs.
  - intros i f j n Hh Hf Ho [(-> & m & Hm & ->)|[_ Hn]]%alter_inv; [|exact (K i f j n Hh Hf Ho Hn)].
    destruct (Hg m Hm) as (Ha & _ & Hk & _). unfold admitted. rewrite Ha, Hk. exact (K i f k m Hh Hf Ho Hm).
  - intros j n [(-> & m & Hm & ->)|[_ Hn]]%alter_inv; [|by eapply D]. destruct (Hg m Hm) as (_ & _ & _ & _ & Hd & _). by eapply Hd, D.
  - intros j n pk [(-> & m & Hm & ->)|[_ Hn]]%alter_inv; [|exact (N j n _ Hn)].
    destruct (Hg m Hm) as (Ha & Hx & Hk & _). unfold admitted. rewrite Ha, Hk, Hx. exact (N k m pk Hm).
  - intros j n i f Hh [(-> & m & Hm & ->)|[_ Hn]]%alter_inv Hi; [|by eapply P].
    destruct (Hg m Hm) as (_ & _ & _ & _ & _ & [E|E]); rewrite E in Hi; [done|]. by eapply P.
  - intros hex j Hin. destruct (X hex j Hin) as (n & Hn & He). destruct (decide (j = k)) as [->|Hne].
    + rewrite list_lookup_alter_eq, Hn. eexists. split; [done|]. by destruct (Hg n Hn) as (-> & _).
    + rewrite list_lookup_alter_ne by done. eauto.
Qed.

Lemma sound_key h o s k hex pk :
  sound_with h o s -> fromHex hex = Ok pk ->
  (forall n, session_objects s !! k = Some n -> admitted n pk /\ forall known, sn_remotePubkey n = Some known -> same_identity known pk) ->
  sound_with h o (set_objects s (alter (fun n => set_key n (Some hex) (Some pk)) k (session_objects s))).
Proof.
  intros [L B S W K D N P T X] Hx Hk. split; cbn; try assumption.
  - by rewrite length_alter.
  - intros j n i [(-> & m & Hm & ->)|[_ Hn]]%alter_inv Hi; [|by eapply S]. by apply (S k m).
  - intros i f j n Hh Hf Ho [(-> & m & Hm & ->)|[_ Hn]]%alter_inv Hd; [|exact (K i f j n Hh Hf Ho Hn Hd)].
    destruct (K i f k m Hh Hf Ho Hm Hd) as (known & pk' & E1 & E2 & E3 & E4). exists pk, pk'. split; [done|]. split; [done|]. split; [|done].
    destruct (Hk m Hm) as [_ Hs]. eapply same_identity_trans; [apply same_identity_sym, Hs, E1|exact E3].
  - intros j n [(-> & m & Hm & ->)|[_ Hn]]%alter_inv; [exact (D k m Hm)|by eapply D].
  - intros j n pk' [(-> & m & Hm & ->)|[_ Hn]]%alter_inv; [|exact (N j n _ Hn)]. intros [= <-]. split; [by apply (Hk m)|]. by eexists.
  - intros j n i f Hh [(-> & m & Hm & ->)|[_ Hn]]%alter_inv Hi; [|by eapply P]. by apply (P k m i f).
  - intros hex' j Hin. destruct (X hex' j Hin) as (n & Hn & He). destruct (decide (j = k)) as [->|Hne].
    + rewrite list_lookup_alter_eq, Hn. by eexists.
    + rewrite list_lookup_alter_ne by done. eauto.
Qed.

(** A new [FspSession], which no session has yet. *)
Lemma sound_new_fsp h o s f : sound_with h o s -> fsp_wf f -> sound_with h (o ++ [None]) (set_fsps s (fsps s ++ [f])).
Proof.
  intros [L B S W K D N P T X] Hf.
  assert (Ho : forall i k, (o ++ [None]) !! i = Some (Some k) -> o !! i = Some (Some k)).
  { intros i k [Hi|[_ Hi]]%lookup_app_Some; [done|]. by destruct (i - length o)%nat as [|[]]. }
  assert (Hg : forall i g, (fsps s ++ [f]) !! i = Some g -> fsps s !! i = Some g \/ i = length (fsps s) /\ g = f).
  { intros i g [Hi|[Hl Hi]]%lookup_app_Some; [by left|right]. destruct (i - length (fsps s))%nat as [|[]] eqn:E; [|done..].
    simplify_eq/=. split; [lia|done]. }
  split; cbn; try assumption.
  - rewrite !length_app. cbn. lia.
  - intros i k Hi. by apply (B i), Ho.
  - intros k n i Hn Hi. apply lookup_app_l_Some. by eapply S.
  - intros i g [Hi|[_ ->]]%Hg; [by eapply W|done].
  - intros i g k n Hh [Hi|[-> ->]]%Hg Hk; apply Ho in Hk; [exact (K i g k n Hh Hi Hk)|]. exfalso. apply lookup_lt_Some in Hk. lia.
  - intros k n i g Hh Hn Hp [Hi|[-> ->]]%Hg; [by eapply P|]. exfalso.
    assert (o !! length (fsps s) = Some (Some k)) as Hk by (apply (S k n); [done|]; unfold slots; rewrite Hp; set_solver).
    apply lookup_lt_Some in Hk. lia.
Qed.

Lemma given_inv (o : list (option nat)) i (k : nat) j x : o !! i = Some None -> <[i:=Some k]> o !! j = Some (Some x) ->
  (j = i /\ x = k) \/ (j <> i /\ o !! j = Some (Some x)).
Proof.
  intros Hi. destruct (decide (j = i)) as [->|Hne].
  - rewrite list_lookup_insert_eq by (by eapply lookup_lt_Some). intros [= ->]. auto.
  - rewrite list_lookup_insert_ne by done. auto.
Qed.

Lemma given_keep (o : list (option nat)) i (k : nat) j x :
  o !! i = Some None -> o !! j = Some (Some x) -> <[i:=Some k]> o !! j = Some (Some x).
Proof. intros Hi Hj. rewrite list_lookup_insert_ne; [done|]. intros ->. congruence. Qed.

(** A session that is given an [FspSession] of no other. *)
Lemma sound_give h o s k g i f :
  sound_with h o s -> o !! i = Some None -> fsps s !! i = Some f ->
  FspSession.role f = responder -> FspSession.state f <> FspSession.SEstablished -> (k < length (session_objects s))%nat ->
  (forall n, session_objects s !! k = Some n ->
     remoteNodeAddr (g n) = remoteNodeAddr n /\ remotePubkeyHex (g n) = remotePubkeyHex n /\ sn_remotePubkey (g n) = sn_remotePubkey n /\
     (forall j, j ∈ slots (g n) -> j = i \/ j ∈ slots n) /\ (i ∉ slots n -> NoDup (slots n) -> NoDup (slots (g n))) /\
     (pendingResponderFsp (g n) = pendingResponderFsp n \/ pendingResponderFsp (g n) = Some i)) ->
  sound_with h (<[i:=Some k]> o) (set_objects s (alter g k (session_objects s))).
Proof.
  intros [L B S W K D N P T X] Ho Hf Hr Hs Hk Hg. split; cbn; try assumption.
  - by rewrite length_insert.
  - intros j x Hj. rewrite length_alter. apply (given_inv o i k j x Ho) in Hj as [[-> ->]|[_ Hj]]; [done|by eapply B].
  - intros j n x [(-> & m & Hm & ->)|[_ Hn]]%alter_inv Hx; [|eapply given_keep, S; done].
    destruct (Hg m Hm) as (_ & _ & _ & Hsl & _). destruct (Hsl x Hx) as [->|Hx'].
    + apply list_lookup_insert_eq. by eapply lookup_lt_Some.
    + eapply given_keep, S; done.
  - intros j f' k' n Hh Hj Hw Hn Hd. apply (given_inv o i k j k' Ho) in Hw as [[-> ->]|[Hne Hw]].
    { simplify_eq. destruct Hd; congruence. }
    apply alter_inv in Hn as [(-> & m & Hm & ->)|[_ Hn]]; [|exact (K j f' k' n Hh Hj Hw Hn Hd)].
    destruct (Hg m Hm) as (Ha & _ & Hp & _). unfold admitted. rewrite Ha, Hp. exact (K j f' k m Hh Hj Hw Hm Hd).
  - intros j n [(-> & m & Hm & ->)|[_ Hn]]%alter_inv; [|by eapply D]. destruct (Hg m Hm) as (_ & _ & _ & _ & Hd & _).
    apply Hd; [|by eapply D]. intros Hin. pose proof (S k m i Hm Hin). congruence.
  - intros j n pk [(-> & m & Hm & ->)|[_ Hn]]%alter_inv; [|exact (N j n _ Hn)].
    destruct (Hg m Hm) as (Ha & Hx & Hp & _). unfold admitted. rewrite Ha, Hp, Hx. exact (N k m pk Hm).
  - intros j n x f' Hh [(-> & m & Hm & ->)|[_ Hn]]%alter_inv Hx; [|by eapply P].
    destruct (Hg m Hm) as (_ & _ & _ & _ & _ & [E|E]); rewrite E in Hx; [by eapply P|]. injection Hx as <-. rewrite Hf. intros [= <-]. done.
  - intros hex j Hin. destruct (X hex j Hin) as (n & Hn & He). destruct (decide (j = k)) as [->|Hne].
    + rewrite list_lookup_alter_eq, Hn. eexists. split; [done|]. by destruct (Hg n Hn) as (-> & _).
    + rewrite list_lookup_alter_ne by done. eauto.
Qed.

(** A new session with such an [FspSession]. *)
Lemma sound_session h o s addr hex pk nodeHex i f :
  sound_with h o s -> o !! i = Some None -> fsps s !! i = Some f -> nodeAddrToHex addr = Ok nodeHex ->
  let n := fresh_session addr hex pk i in
  (forall pk', pk = Some pk' -> admitted n pk' /\ exists x, hex = Some x /\ fromHex x = Ok pk') ->
  (FspSession.role f = initiator /\ is_Some pk /\ FspSession.remotePubkey f = pk \/
     FspSession.role f = responder /\ FspSession.state f <> FspSession.SEstablished) ->
  sound_with h (<[i:=Some (length (session_objects s))]> o)
    (set_sessions (set_objects s (session_objects s ++ [n])) (JsMap.set_ (sessions s) nodeHex (length (session_objects s)))).
Proof.
  intros [L B S W K D N P T X] Ho Hf Ha n Hn Hd.
  assert (Hnew : forall k m, (session_objects s ++ [n]) !! k = Some m ->
    session_objects s !! k = Some m \/ k = length (session_objects s) /\ m = n).
  { intros k m [Hi|[Hl Hi]]%lookup_app_Some; [by left|right].
    destruct (k - length (session_objects s))%nat as [|[]] eqn:E; [|done..]. simplify_eq/=. split; [lia|done]. }
  split; cbn; try assumption.
  - by rewrite length_insert.
  - intros j x Hj. rewrite length_app. cbn. apply (given_inv o i _ j x Ho) in Hj as [[-> ->]|[_ Hj]]; [lia|]. apply B in Hj. lia.
  - intros k m x [Hm|[-> ->]]%Hnew Hx; [eapply given_keep, S; done|].
    unfold slots, n in Hx. cbn in Hx. apply list_elem_of_singleton in Hx as ->.
    apply list_lookup_insert_eq. by eapply lookup_lt_Some.
  - intros j g k m Hh Hj Hw Hm Hg. apply Hnew in Hm as [Hm|[-> ->]].
    + apply (given_inv o i _ j k Ho) in Hw as [[-> ->]|[_ Hw]]; [|exact (K j g k m Hh Hj Hw Hm Hg)]. apply lookup_lt_Some in Hm. lia.
    + apply (given_inv o i _ j _ Ho) in Hw as [[-> _]|[_ Hw]]; [|apply B in Hw; lia]. simplify_eq.
      destruct Hd as [(_ & [pk' ->] & Hp)|[Hr Hs]]; [|destruct Hg; congruence].
      exists pk', pk'. split; [done|]. split; [done|]. split; [by left|by apply Hn].
  - intros k m [Hm|[-> ->]]%Hnew; [by eapply D|]. apply NoDup_singleton.
  - intros k m pk' [Hm|[-> ->]]%Hnew; [exact (N k m pk' Hm)|]. apply Hn.
  - intros k m x g Hh [Hm|[-> ->]]%Hnew Hx; [by eapply P|done].
  - by apply JsMap.wf_set.
  - intros x k Hin. apply JsMap.elem_get in Hin; [|by apply JsMap.wf_set]. destruct (decide (nodeHex = x)) as [<-|Hne].
    + rewrite JsMap.get_set_eq in Hin. injection Hin as <-. exists n. by rewrite lookup_app_r, Nat.sub_diag by done.
    + rewrite JsMap.get_set_ne in Hin by done. destruct (X x k (JsMap.get_elem _ _ _ Hin)) as (m & Hm & He).
      exists m. split; [by apply lookup_app_l_Some|done].
Qed.

(** ** Methods *)

Definition safe (h : option nat) (s s' : FspSessionManager) : Prop := forall o, sound_with h o s -> sound_with h o s'.

#[export] Instance safe_preorder h : PreOrder (safe h).
Proof. unfold safe. split; intros s; auto. Qed.

Lemma safe_modify h g :
  (forall s, sessions (g s) = sessions s /\ session_objects (g s) = session_objects s /\ fsps (g s) = fsps s) -> respects (safe h) (modify g).
Proof. intros Hg s o Ho. destruct (Hg s) as (E1 & E2 & E3). by eapply sound_with_same. Qed.

Lemma safe_on_fsp {A} h i (m : ST FspSession.t A) : (forall f, finishes f (snd (m f))) -> respects (safe h) (on_fsp i m).
Proof.
  intros Hm s o Ho. unfold on_fsp. destruct (fsps s !! i) as [f|] eqn:Hf; [|done]. specialize (Hm f).
  destruct (m f) as [r f']. by eapply sound_fsp.
Qed.

Lemma closed_keeps f : keeps f (FspSession.set_closed f).
Proof.
  do 3 (split; [done|]). intros [_ Hr]. split; [done|]. intros Ho. by split; [|apply Hr].
Qed.

Lemma safe_close_fsp h i : respects (safe h) (close_fsp i).
Proof.
  intros s o Ho. cbn. destruct (fsps s !! i) as [f|] eqn:Hf.
  - assert (alter FspSession.set_closed i (fsps s) = <[i:=FspSession.set_closed f]> (fsps s)) as ->.
    { apply list_eq. intros j. destruct (decide (i = j)) as [<-|Hne].
      - by rewrite list_lookup_alter_eq, Hf, list_lookup_insert_eq by (by eapply lookup_lt_Some).
      - by rewrite list_lookup_alter_ne, list_lookup_insert_ne by done. }
    eapply sound_fsp; [done..|]. apply keeps_finishes, closed_keeps.
  - apply (sound_with_same h o s); [reflexivity..| |exact Ho]. cbn. apply list_eq. intros j. destruct (decide (i = j)) as [<-|Hne].
    + by rewrite list_lookup_alter_eq, Hf.
    + by rewrite list_lookup_alter_ne.
Qed.

Lemma safe_alter h k g : (forall n, shrinks n (g n)) -> respects (safe h) (alter_session k g).
Proof. intros Hg s o Ho. by apply sound_shrinks. Qed.

Lemma safe_delete h hex : respects (safe h) (delete_session hex).
Proof.
  intros s o [L B S W K D N P T X]. split; cbn; try assumption; [by apply JsMap.wf_delete|].
  intros x k [Hin _]%JsMap.elem_delete. by apply X.
Qed.

Lemma safe_clear h : respects (safe h) (modify (fun s => set_sessions s [])).
Proof.
  intros s o [L B S W K D N P T X]. split; cbn; try assumption; [apply NoDup_nil_2|]. by intros x k ?%not_elem_of_nil.
Qed.

Lemma safe_call h c : respects (safe h) (call c).
Proof. by apply safe_modify. Qed.

Lemma safe_settle h p x : respects (safe h) (settle_promise p x).
Proof. unfold settle_promise. destruct p; [by apply safe_modify|apply respects_ret, _]. Qed.

Lemma safe_close_opt h i : respects (safe h) (close_opt i).
Proof. destruct i; [apply safe_close_fsp|apply respects_ret, _]. Qed.

Lemma safe_close_all h n : respects (safe h) (close_all n).
Proof. unfold close_all. repeat first [respects_step | apply safe_close_fsp | apply safe_close_opt]. Qed.

Lemma shrinks_refl_like n n' :
  remoteNodeAddr n' = remoteNodeAddr n -> remotePubkeyHex n' = remotePubkeyHex n -> sn_remotePubkey n' = sn_remotePubkey n ->
  slots n' = slots n -> pendingResponderFsp n' = pendingResponderFsp n -> shrinks n n'.
Proof. intros ? ? ? E ?. repeat split; try done; [by rewrite E|by rewrite E|by right]. Qed.

Lemma shrinks_previous n : shrinks n (set_previous n None).
Proof.
  repeat split; [| |by right]; unfold slots; cbn; [set_solver|]. rewrite app_nil_r. intros Hd. apply (sublist_NoDup _ _ Hd), sublist_skip, sublist_inserts_r. reflexivity.
Qed.

Lemma shrinks_pending n : shrinks n (set_pending n None).
Proof.
  repeat split; [| |by left]; unfold slots; cbn; [set_solver|]. intros Hd. apply (sublist_NoDup _ _ Hd), sublist_skip, sublist_inserts_l. reflexivity.
Qed.

Ltac safe_solve :=
  repeat first [ respects_step | apply safe_call | apply safe_close_fsp | apply safe_close_opt | apply safe_close_all | apply safe_settle
    | apply safe_delete | apply safe_clear | apply safe_alter; intros ?; first [by apply shrinks_refl_like | apply shrinks_previous | apply shrinks_pending]
    | apply respects_for_each; [apply _|intros ?] | apply safe_modify; done | done ].

Lemma safe_wait h k : respects (safe h) (waitForSessionSetup k).
Proof. unfold waitForSessionSetup. safe_solve. Qed.

Lemma safe_resolve h k : respects (safe h) (resolveSessionSetup k).
Proof. unfold resolveSessionSetup. safe_solve. Qed.

Lemma safe_reject h k hex e : respects (safe h) (rejectSessionSetup k hex e).
Proof. unfold rejectSessionSetup. safe_solve. Qed.

Lemma safe_timer h k hex : respects (safe h) (setup_timer k hex).
Proof. unfold setup_timer. repeat first [respects_step | apply safe_reject]. Qed.

Lemma safe_stop h : respects (safe h) stop.
Proof.
  unfold stop. safe_solve. unfold stop_session. repeat first [respects_step | apply safe_reject | apply safe_close_all].
Qed.

Lemma safe_closePeer h hex : respects (safe h) (closePeerSessions hex).
Proof. unfold closePeerSessions, close_peer_session. safe_solve; apply safe_reject. Qed.

Lemma safe_prune h k now : respects (safe h) (prunePreviousFsp k now).
Proof. unfold prunePreviousFsp. safe_solve. Qed.

Lemma safe_queue h k peer frame : respects (safe h) (queueEarlyEstablishedRecord k peer frame).
Proof. unfold queueEarlyEstablishedRecord. safe_solve. Qed.

Lemma safe_deliver h src d : respects (safe h) (deliverDatagram src d).
Proof. unfold deliverDatagram. safe_solve. Qed.

Lemma safe_drain h k : respects (safe h) (drain_records k).
Proof. unfold drain_records. safe_solve. Qed.

Lemma safe_recover h hex now : respects (safe h) (recoverMissingSession hex now).
Proof. unfold recoverMissingSession. safe_solve. Qed.

Lemma safe_recovered h hex g : respects (safe h) (recovery_done hex g).
Proof. unfold recovery_done. safe_solve. Qed.

Lemma safe_recovery_failed h hex a now : respects (safe h) (recovery_failed hex a now).
Proof. unfold recovery_failed. safe_solve. Qed.

Lemma finishes_of {A} (m : ST FspSession.t A) : respects keeps m -> forall f, finishes f (snd (m f)).
Proof. intros Hm f. apply keeps_finishes, Hm. Qed.

Lemma safe_encrypt h i ty p fl c now : respects (safe h) (on_fsp i (FspSession.encryptMessage ty p fl c now)).
Proof. apply safe_on_fsp, finishes_of, encrypt_keeps. Qed.

Lemma safe_setup h i fr random addr coords : respects (safe h) (fsp_setup coords i fr random addr).
Proof. apply safe_on_fsp, finishes_of, setup_keeps. Qed.

Lemma safe_ack h addr hex k fr random now : respects (safe h) (handle_ack addr hex k fr random now).
Proof.
  unfold handle_ack. safe_solve; first [apply safe_resolve | apply safe_on_fsp; intros f; apply ack_finishes].
Qed.

Section Sending.
Context (assertNodeAllowed : bytes -> result unit).
Context (coords : list NodeAddr) (known : string -> option (list NodeAddr)).
Context (peers : string -> option nat) (up : nat -> bool) (pubkey : nat -> bytes) (mtu : nat -> Z).

Lemma safe_direct h peer fr : respects (safe h) (sendDirectFsp assertPeerAllowed pubkey mtu peer fr).
Proof. unfold sendDirectFsp. safe_solve. Qed.

Lemma safe_send h k ty p now :
  respects (safe h) (sendSessionMessage assertPeerAllowed assertNodeAllowed peers up pubkey mtu k ty p now).
Proof. unfold sendSessionMessage. safe_solve; first [apply safe_encrypt | apply safe_direct]. Qed.

Lemma safe_frames h k ty p next now : respects (safe h) (session_frames coords known pubkey k ty p next now).
Proof. unfold session_frames. safe_solve; apply safe_encrypt. Qed.

Lemma safe_reports h now : respects (safe h) (sendReceiverReports assertPeerAllowed assertNodeAllowed peers up pubkey mtu now).
Proof.
  unfold sendReceiverReports. repeat first [respects_step | apply safe_modify; done].
  match goal with |- respects _ (reports_loop _ _ _ _ _ _ _ ?l) => generalize l end. intros ks. induction ks as [|k ks IH]; cbn [reports_loop].
  { apply respects_ret, _. }
  apply respects_bind; [apply _| |intros to]. { unfold send_report. safe_solve; apply safe_send. }
  apply respects_bind; [apply _|exact IH|intros rest]. apply respects_ret, _.
Qed.
End Sending.

(** ** Receiving *)

(** Only an initiator is established before its session is known to be whose it
    is, so no record finds an established responder waiting. *)
Lemma no_promotion o s k n b i :
  sound_with None o s -> session_objects s !! k = Some n -> choose_receiver n b s = ReceiveOn i true -> False.
Proof.
  intros So Hn. unfold choose_receiver. case_bool_decide; [done|].
  assert (Hp : (match previousFsp n with Some (j, kBit, _) => if bool_decide (kBit = b) then ReceiveOn j false else WrongEpoch | None => WrongEpoch end)
     <> ReceiveOn i true) by (destruct (previousFsp n) as [[[j kb] ?]|]; [by case_bool_decide|done]).
  destruct (pendingResponderFsp n) as [p|] eqn:Ep; [|done]. unfold fsp_state. destruct (fsps s !! p) as [f|] eqn:Ef; [|done].
  destruct (so_pending _ _ _ So k n p f ltac:(done) Hn Ep Ef) as [_ Hs]. by destruct (FspSession.state f).
Qed.

(** The callback's part of the state. *)
Lemma decrypt_world {W} (R : W -> W -> Prop) `{!PreOrder R} packet (c : FspReceived -> ST W unit) f w :
  (forall x, respects R (c x)) -> R w (snd (snd (FspSession.decryptIncoming packet (Some c) (f, w)))).
Proof.
  intros Hc. set (R2 := fun p q : FspSession.t * W => R (snd p) (snd q)).
  assert (HR : PreOrder R2) by (unfold R2; split; [intros x; reflexivity|intros x y z ? ?; etransitivity; eassumption]).
  enough (respects R2 (FspSession.decryptIncoming packet (Some c))) as Hd by apply (Hd (f, w)).
  unfold FspSession.decryptIncoming, FspSession.notify. repeat respects_step.
  - apply respects_modify. intros [g v]. unfold R2. cbn. reflexivity.
  - intros [g v]. unfold zoom, R2. cbn. match goal with |- context [c ?x v] => specialize (Hc x v); destruct (c x v) as [r v'] end. exact Hc.
Qed.

Definition idle (h : option nat) (s s' : FspSessionManager) : Prop := fsps s' = fsps s /\ safe h s s'.

#[export] Instance idle_preorder h : PreOrder (idle h).
Proof. unfold idle, safe. split; [by intros x|intros x y z [? ?] [? ?]; split; [congruence|auto]]. Qed.

Lemma idle_authenticated h k peer i hex b nowMs now x : respects (idle h) (on_authenticated k peer i hex b false nowMs now x).
Proof.
  unfold on_authenticated. repeat respects_step; intros ?; (split; [done|]).
  - apply safe_call.
  - apply safe_alter. intros n. by apply shrinks_refl_like.
Qed.

Lemma safe_receive h i frame c : (forall x, respects (idle h) (c x)) -> respects (safe h) (receive_on i (FspSession.decryptIncoming frame (Some c))).
Proof.
  intros Hc s o Ho. unfold receive_on. destruct (fsps s !! i) as [f|] eqn:Hf; [|done].
  destruct (decrypt_world (idle h) frame c f s Hc) as [E Hw]. destruct (decrypt_keeps frame (Some c) f s) as [Hk _].
  destruct (FspSession.decryptIncoming frame (Some c) (f, s)) as [r [f' s']]. cbn in *.
  eapply sound_fsp; [by apply Hw|by rewrite E|by apply keeps_finishes].
Qed.

Lemma safe_established peer hex k frame nowMs now :
  respects (safe None) (handleEstablished assertPeerAllowed peer hex k frame nowMs now).
Proof.
  unfold handleEstablished. apply respects_bind; [apply _|apply respects_get, _|intros s0].
  destruct (session_objects s0 !! k) as [n0|]; [|apply respects_throw, _].
  destruct (fsp_state s0 (sn_fsp n0)); try apply respects_throw, _.
  { repeat first [respects_step | apply safe_queue]. }
  apply respects_bind; [apply _|apply safe_prune|intros _]. apply respects_bind; [apply _|apply respects_lift, _|intros est].
  intros s o Ho. rewrite ST_get_bind. destruct (session_objects s !! k) as [n|] eqn:Hn; [|done].
  destruct (choose_receiver n _ s) as [i promote| |] eqn:Hc; [| |done].
  - destruct promote; [exfalso; by eapply no_promotion|]. revert o Ho.
    match goal with |- forall o, _ -> sound_with _ o (snd (?m s)) => enough (respects (safe None) m) as Hm by apply Hm end.
    repeat first [respects_step | apply safe_receive; intros ?; apply idle_authenticated | apply safe_deliver | apply safe_call].
  - revert o Ho. match goal with |- forall o, _ -> sound_with _ o (snd (?m s)) => enough (respects (safe None) m) as Hm by apply Hm end.
    repeat first [respects_step | apply safe_queue].
Qed.

(** ** New sessions and handshakes *)

Context (identity : FipsIdentity) (localEpoch : bytes) (strictClient : bool).

Lemma new_rs p ro pk ov h : NoiseHandshake.new p ro identity pk ov = Ok h -> NoiseHandshake.rs h = pk.
Proof.
  unfold NoiseHandshake.new. intros E. destruct (NoiseHandshake.deriveKeyPair _) as [kp|]; [|done]. cbn in E.
  destruct (match ro with responder => _ | initiator => _ end) as [k|]; [|done]. cbn in E. by injection E as <-.
Qed.

Lemma new_fsp_run ro pk s : (ro = responder -> pk = None) ->
  (exists e, new_fsp identity localEpoch strictClient ro pk s = (Throw e, s)) \/
  exists f, new_fsp identity localEpoch strictClient ro pk s = (Ok (length (fsps s)), set_fsps s (fsps s ++ [f])) /\
    FspSession.role f = ro /\ FspSession.remotePubkey f = pk /\ FspSession.state f = FspSession.SInit /\ fsp_wf f /\
    FspSession.new identity pk ro None (Some localEpoch) (Some strictClient) = Ok f.
Proof.
  intros Hro. unfold new_fsp. destruct (FspSession.new identity pk ro None (Some localEpoch) (Some strictClient)) as [f|e] eqn:E; [right|left; by exists e].
  exists f. split; [done|]. unfold FspSession.new in E. result_inv. subst. do 3 (split; [done|]). split; [|done].
  split; [done|]. intros Ho. cbn in Ho. specialize (Hro Ho) as ->. split; [|done]. intros h [= <-] k Hk.
  match goal with Hh : NoiseHandshake.new _ _ _ _ _ = _ |- _ => apply new_rs in Hh end. congruence.
Qed.

Definition unestablished (f : FspSession.t) : Prop := FspSession.role f = responder /\ FspSession.state f <> FspSession.SEstablished.

Lemma responder_made {A} coords frame random addr (rest : nat -> bytes -> Mgr A) s :
  let m := i ← new_fsp identity localEpoch strictClient responder None; r ← fsp_setup coords i frame random addr; rest i r in
  exists f, fsp_wf f /\ unestablished f /\
    ((exists e, m s = (Throw e, s) \/ m s = (Throw e, set_fsps s (fsps s ++ [f]))) \/
     exists r, m s = rest (length (fsps s)) r (set_fsps s (fsps s ++ [f]))).
Proof.
  intros m. unfold m. destruct (new_fsp_run responder None s) as [[e E]|(f & E & Hr & _ & Hs & Hw & _)]; [done| |].
  - exists (FspSession.mk identity responder [] false None None None None None None None None None None false 0 (F64.of_Z 0) ReplayWindow.new
      FspSession.SClosed).
    split; [done|]. split; [done|]. left. exists e. left. unfold mbind at 1, ST_bind. by rewrite E.
  - destruct (setup_keeps frame random (AddrPath coords) (Some addr) f) as (Kr & _ & Ks & Kw).
    destruct (FspSession.handleSessionSetup frame random (AddrPath coords) (Some addr) f) as [r f'] eqn:Es. cbn [snd] in *.
    assert (m s = match r with Ok a => rest (length (fsps s)) a (set_fsps s (fsps s ++ [f'])) | Throw e => (Throw e, set_fsps s (fsps s ++ [f'])) end)
      as Em.
    { unfold m. rewrite (ST_bind_ok _ _ _ _ _ E). unfold mbind, ST_bind, fsp_setup, on_fsp. cbn [fsps set_fsps].
      rewrite lookup_app_r, Nat.sub_diag by done. cbn [lookup list_lookup]. rewrite Es.
      rewrite insert_app_r_alt, Nat.sub_diag by done. by destruct r. }
    exists f'. split; [by apply Kw|]. split; [split; [congruence|]; intros Hd; apply Ks in Hd; congruence|].
    unfold m in Em. destruct r as [r|e]; [right; by exists r|left; exists e; by right].
Qed.

Definition closed_or_same (l l' : list FspSession.t) : Prop :=
  forall i f, l !! i = Some f -> l' !! i = Some f \/ l' !! i = Some (FspSession.set_closed f).

Lemma close_fsp_eq i s : close_fsp i s = (Ok tt, set_fsps s (alter FspSession.set_closed i (fsps s))).
Proof. reflexivity. Qed.

Lemma close_fsp_run i s : exists l, close_fsp i s = (Ok tt, set_fsps s l) /\ closed_or_same (fsps s) l.
Proof.
  eexists. split; [reflexivity|]. intros j f Hj. destruct (decide (i = j)) as [<-|Hne].
  - right. by rewrite list_lookup_alter_eq, Hj.
  - left. by rewrite list_lookup_alter_ne.
Qed.

Lemma close_opt_run p s : exists l, close_opt p s = (Ok tt, set_fsps s l) /\ closed_or_same (fsps s) l.
Proof. destruct p as [i|]; [apply close_fsp_run|]. exists (fsps s). split; [by destruct s|]. intros i f. auto. Qed.

Lemma unestablished_closed l l' i f : closed_or_same l l' -> l !! i = Some f -> unestablished f ->
  exists f', l' !! i = Some f' /\ unestablished f'.
Proof.
  intros Hl Hi [Hr Hs]. destruct (Hl i f Hi) as [E|E]; eexists; (split; [exact E|]); by split.
Qed.

Definition safely (s s' : FspSessionManager) : Prop := sound s -> sound s'.

#[export] Instance safely_preorder : PreOrder safely.
Proof. unfold safely. split; intros s; auto. Qed.

Lemma safe_safely {A} (m : Mgr A) : respects (safe None) m -> respects safely m.
Proof. intros Hm s [o Ho]. exists o. by apply Hm. Qed.

Lemma safely_bind {A B} (m : Mgr A) (f : A -> Mgr B) s :
  sound (snd (m s)) -> (forall a, respects safely (f a)) -> sound (snd ((m ≫= f) s)).
Proof.
  intros Hm Hf. unfold mbind, ST_bind. destruct (m s) as [[a|e] s']; cbn [snd] in *; [|done]. by apply Hf.
Qed.

Lemma setup_case_some s session fr x : setup_case s session fr = x -> x <> Unrelated -> exists n, session = Some n.
Proof. destruct session; [eauto|]. cbn. congruence. Qed.

Lemma nodup_pending i n : i ∉ slots n -> NoDup (slots n) -> NoDup (slots (set_pending n (Some i))).
Proof.
  unfold slots, previous_fsp. cbn. destruct (pendingResponderFsp n) as [j|], (previousFsp n) as [[[x b] t]|]; cbn;
    rewrite ?NoDup_cons; set_solver.
Qed.

Lemma nodup_fsp i n : i ∉ slots n -> NoDup (slots n) -> NoDup (slots (set_fsp n i)).
Proof. unfold slots. cbn. rewrite !NoDup_cons. set_solver. Qed.

Lemma sound_setup coords peer addr hex session fr random s :
  nodeAddrToHex addr = Ok hex -> sound s ->
  sound (snd (handleSessionSetup identity localEpoch strictClient coords peer addr hex session fr random s)).
Proof.
  intros Hx So. unfold handleSessionSetup. rewrite ST_get_bind. apply safely_bind.
  2:{ intros a. apply safe_safely. safe_solve. }
  set (n := session ≫= fun k => session_objects s !! k).
  assert (Hplain : sound (snd ((fsp ← new_fsp identity localEpoch strictClient responder None;
    r ← fsp_setup coords fsp fr random addr; new_session (fresh_session addr None None fsp) hex;;
    call (EmitSession hex Establishing false);; mret (Some r)) s))).
  { destruct (responder_made coords fr random addr (fun fsp r => new_session (fresh_session addr None None fsp) hex;;
      call (EmitSession hex Establishing false);; mret (Some r)) s) as (f & Hw & Hu & [[e [E|E]]|[r E]]); rewrite E; clear E; [done| |];
      destruct So as [o Ho]; pose proof (sound_new_fsp None o s f Ho Hw) as Ho1; [by eexists|].
    assert (Hi : (o ++ [None]) !! length (fsps s) = Some None) by (by rewrite <- (so_len _ _ _ Ho), lookup_app_r, Nat.sub_diag by done).
    eexists. eapply (safe_call None). refine (sound_session None _ _ addr None None hex (length (fsps s)) f Ho1 Hi _ Hx _ _).
    - cbn. by rewrite lookup_app_r, Nat.sub_diag by done.
    - done.
    - right. exact Hu. }
  assert (Hgive : forall k g m (pre : Mgr unit) l, n = Some m -> session = Some k -> pre s = (Ok tt, set_fsps s l) -> sound (set_fsps s l) ->
    (forall i x, remoteNodeAddr (g i x) = remoteNodeAddr x /\ remotePubkeyHex (g i x) = remotePubkeyHex x /\
       sn_remotePubkey (g i x) = sn_remotePubkey x /\ (forall j, j ∈ slots (g i x) -> j = i \/ j ∈ slots x) /\
       (i ∉ slots x -> NoDup (slots x) -> NoDup (slots (g i x))) /\
       (pendingResponderFsp (g i x) = pendingResponderFsp x \/ pendingResponderFsp (g i x) = Some i)) ->
    forall close', sound (snd ((pre;; i ← new_fsp identity localEpoch strictClient responder None;
      r ← fsp_setup coords i fr random addr; close_opt close';; alter_session k (g i);; mret (Some r)) s))).
  { intros k g m pre l Hn -> Hpre [o Ho] Hg close'. cbn in Hn. rewrite (ST_bind_ok _ _ _ _ _ Hpre).
    destruct (responder_made coords fr random addr (fun i r => close_opt close';; alter_session k (g i);; mret (Some r)) (set_fsps s l))
      as (f & Hw & Hu & [[e [E|E]]|[r E]]); rewrite E; clear E; [by exists o| |];
      pose proof (sound_new_fsp None o _ f Ho Hw) as Ho1; [by eexists|].
    destruct (close_opt_run close' (set_fsps (set_fsps s l) (l ++ [f]))) as (l' & El & Hl). cbn [fsps set_fsps] in *.
    pose proof (safe_close_opt None close' _ _ Ho1) as Ho2. rewrite El in Ho2. cbn [snd] in Ho2. rewrite (ST_bind_ok _ _ _ _ _ El).
    destruct (unestablished_closed _ _ (length l) f Hl) as (f2 & Hf2 & Hr2 & Hs2); [by rewrite lookup_app_r, Nat.sub_diag by done|done|].
    assert (Hi : (o ++ [None]) !! length l = Some None)
      by (replace (length l) with (length o) by apply (so_len _ _ _ Ho); by rewrite lookup_app_r, Nat.sub_diag by done).
    eexists. refine (sound_give None _ _ k (g (length l)) (length l) f2 Ho2 Hi Hf2 Hr2 Hs2 _ _); [by eapply lookup_lt_Some|].
    intros x _. apply Hg. }
  destruct (setup_case s n fr) as [i| |i|] eqn:Ec; [|destruct session as [k|]; [|exact Hplain]..|exact Hplain].
  - destruct So as [o Ho]. exists o. revert o Ho.
    match goal with |- forall o, _ -> sound_with _ o (snd (?m s)) => enough (respects (safe None) m) as Hm by apply Hm end.
    repeat first [respects_step | apply safe_setup].
  - destruct (setup_case_some _ _ _ _ Ec) as [m Hm]; [done|].
    assert (E : forall A (m : Mgr A), (mret tt ≫= fun _ : unit => m) s = m s) by done. rewrite <- E.
    apply (Hgive k (fun i x => set_pending x (Some i)) m (mret tt) (fsps s)); [done..|by destruct s|by destruct s|].
    intros i x. repeat split; [|apply nodup_pending|by right]. unfold slots. cbn. set_solver.
  - destruct (setup_case_some _ _ _ _ Ec) as [m Hm]; [done|].
    destruct (compareNodeAddr (nodeAddr identity) addr) as [c|e]; [|done]. erewrite ST_lift_bind by reflexivity.
    destruct (c <? 0); [done|]. destruct (c =? 0) eqn:E0; [done|]. rewrite ST_pass by done.
    destruct (close_fsp_run i s) as (l & El & Hl).
    apply (Hgive k (fun i x => set_fsp x i) m (close_fsp i) l) with (close' := None); try done.
    + destruct So as [o Ho]. exists o. pose proof (safe_close_fsp None i _ _ Ho) as Hs. by rewrite El in Hs.
    + intros j x. repeat split; [|apply nodup_fsp|by left]. unfold slots. cbn. set_solver.
Qed.

(** ** The end of a handshake *)

Lemma sound_hole o s i f f' :
  sound_with None o s -> fsps s !! i = Some f -> FspSession.role f' = FspSession.role f -> fsp_wf f' ->
  sound_with (Some i) o (set_fsps s (<[i:=f']> (fsps s))).
Proof.
  intros [L B S W K D N P T X] Hi Hr Hw. split; cbn; try assumption.
  - by rewrite length_insert.
  - intros j g. destruct (decide (i = j)) as [<-|Hne]; [|rewrite list_lookup_insert_ne by done; apply W].
    rewrite list_lookup_insert_eq by (by eapply lookup_lt_Some). by intros [= <-].
  - intros j g k n Hh Hj. rewrite list_lookup_insert_ne in Hj by congruence. exact (K j g k n ltac:(done) Hj).
  - intros k n j g Hh Hn Hp Hj. rewrite list_lookup_insert_ne in Hj by congruence. by eapply P.
Qed.

Lemma sound_fill o s i :
  sound_with (Some i) o s ->
  (forall f k n, fsps s !! i = Some f -> o !! i = Some (Some k) -> session_objects s !! k = Some n ->
    (FspSession.role f = initiator \/ FspSession.state f = FspSession.SEstablished ->
       exists known pk, sn_remotePubkey n = Some known /\ FspSession.remotePubkey f = Some pk /\ same_identity known pk /\ admitted n pk) /\
    (pendingResponderFsp n = Some i -> unestablished f)) ->
  sound_with None o s.
Proof.
  intros So Hi. destruct So as [L B S W K D N P T X]. split; try assumption.
  - intros j f k n _ Hf Ho Hn Hd. destruct (decide (j = i)) as [->|Hne]; [by apply (Hi f k n)|]. apply (K j f k n); congruence || done.
  - intros k n j f _ Hn Hp Hf. destruct (decide (j = i)) as [->|Hne]; [|apply (P k n j f); congruence || done].
    apply (Hi f k n); [done| |done|done]. apply (S k n); [done|]. unfold slots. rewrite Hp. set_solver.
Qed.

(** The [FspSession] numbered [i] of session [k] has authenticated a key that
    may speak for it. *)
Record ready (o : list (option nat)) (k i : nat) (pending : option nat) (s : FspSessionManager) : Prop := {
  rd_sound : sound_with (Some i) o s;
  rd_owner : o !! i = Some (Some k);
  rd_key : exists f pk n, fsps s !! i = Some f /\ session_objects s !! k = Some n /\ FspSession.remotePubkey f = Some pk /\ admitted n pk /\
    (exists known, sn_remotePubkey n = Some known /\ same_identity known pk) /\ pendingResponderFsp n = pending;
}.

Lemma ready_done o k i s : ready o k i None s -> sound_with None o s.
Proof.
  intros [So Ho (f & pk & n & Hf & Hn & Hk & Ha & Hs & Hp)]. apply (sound_fill o s i So). intros f' k' n' Hf' Ho' Hn'.
  simplify_eq. destruct Hs as (known & E1 & E2). split; [intros _; by exists known, pk|congruence].
Qed.

Lemma ready_fsps o k i p s m l : m s = (Ok tt, set_fsps s l) -> respects (safe (Some i)) m -> closed_or_same (fsps s) l ->
  ready o k i p s -> ready o k i p (set_fsps s l).
Proof.
  intros E Hm Hl [So Ho (f & pk & n & Hf & Hn & Hk & Ha & Hs & Hp)]. pose proof (Hm s o So) as So'. rewrite E in So'.
  split; [done..|]. destruct (Hl i f Hf) as [E'|E']; eexists _, pk, n; (split; [exact E'|]); done.
Qed.

Lemma ready_alter o k i p p' s g :
  ready o k i p s ->
  (forall n, session_objects s !! k = Some n -> pendingResponderFsp n = p -> shrinks n (g n) /\ pendingResponderFsp (g n) = p') ->
  ready o k i p' (set_objects s (alter g k (session_objects s))).
Proof.
  intros [So Ho (f & pk & n & Hf & Hn & Hk & Ha & Hs & Hp)] Hg. destruct (Hg n Hn Hp) as [Hsh Hp']. split; [|done|].
  - apply sound_shrinks; [done|]. intros m Hm. rewrite Hn in Hm. by injection Hm as <-.
  - exists f, pk, (g n). cbn. rewrite list_lookup_alter_eq, Hn. destruct Hsh as (Ea & _ & Ek & _).
    split; [done|]. split; [done|]. split; [done|]. unfold admitted. by rewrite Ea, Ek.
Qed.

Lemma ready_adopt o k i p s : ready o k i p s -> exists s', adopt_key k i s = (Ok tt, s') /\ ready o k i p s'.
Proof.
  intros [So Ho (f & pk & n & Hf & Hn & Hk & Ha & Hs & Hp)]. unfold adopt_key. rewrite ST_get_bind, Hf. cbn [mbind option_bind]. rewrite Hk.
  eexists. split; [reflexivity|]. split; [|done|].
  - apply sound_key; [done|apply fromHex_toHex|]. intros m Hm. rewrite Hn in Hm. injection Hm as <-. split; [done|].
    intros known E. destruct Hs as (known' & E1 & E2). congruence.
  - exists f, pk, (set_key n (Some (toHex pk)) (Some pk)). cbn. rewrite list_lookup_alter_eq, Hn.
    do 4 (split; [done|]). split; [|done]. exists pk. by split; [|left].
Qed.

Lemma slots_pending n i : pendingResponderFsp n = Some i -> i ∈ slots n.
Proof. unfold slots. intros ->. cbn. set_solver. Qed.

Lemma promote_ready o k i b now s : ready o k i (Some i) s ->
  exists s', promotePendingSession k i b now s = (Ok tt, s') /\ ready o k i None s'.
Proof.
  intros R. destruct (rd_key _ _ _ _ _ R) as (f & pk & n & _ & Hn & _ & _ & _ & Hp). unfold promotePendingSession.
  rewrite ST_get_bind, Hn. destruct (close_opt_run (previous_fsp n) s) as (l & El & Hl). rewrite (ST_bind_ok _ _ _ _ _ El).
  pose proof (ready_fsps _ _ _ _ _ _ _ El (safe_close_opt _ _) Hl R) as R0. clear R.
  unfold alter_session. rewrite !ST_modify_bind. cbn [session_objects set_fsps set_objects]. rewrite !alter_alter.
  apply ready_adopt. refine (ready_alter _ _ _ (Some i) None _ _ R0 _). intros m _ Hpm. split; [|done].
  repeat split; unfold slots; cbn; rewrite ?Hpm; cbn; [set_solver| |by left].
  intros [Hd _]%NoDup_cons. apply NoDup_cons. split; [set_solver|apply NoDup_singleton].
Qed.

Lemma replace_ready o k i s : ready o k i (Some i) s -> exists s', replaceRestartedSession k i s = (Ok tt, s') /\ ready o k i None s'.
Proof.
  intros R. destruct (rd_key _ _ _ _ _ R) as (f & pk & n & _ & Hn & _ & _ & _ & Hp). unfold replaceRestartedSession.
  rewrite ST_get_bind, Hn. destruct (close_opt_run (previous_fsp n) s) as (l & El & Hl). rewrite (ST_bind_ok _ _ _ _ _ El).
  pose proof (ready_fsps _ _ _ _ _ _ _ El (safe_close_opt _ _) Hl R) as R0. clear R.
  destruct (close_fsp_run (sn_fsp n) (set_fsps s l)) as (l2 & El2 & Hl2). rewrite (ST_bind_ok _ _ _ _ _ El2).
  pose proof (ready_fsps _ _ _ _ _ _ _ El2 (safe_close_fsp _ _) Hl2 R0) as R1. clear R0.
  unfold alter_session. rewrite !ST_modify_bind. cbn [session_objects set_fsps set_objects]. rewrite !alter_alter.
  apply ready_adopt. refine (ready_alter _ _ _ (Some i) None _ _ R1 _). intros m _ Hpm. split; [|done].
  repeat split; unfold slots; cbn; rewrite ?Hpm; cbn; [set_solver| |by left].
  intros _. apply NoDup_singleton.
Qed.

Lemma check_remote_ok n pk addr : check_remote assertPeerAllowed n pk addr = Ok tt <->
  deriveNodeAddr pk = Ok addr /\ assertPeerAllowed pk = Ok tt /\
  forall known, sn_remotePubkey n = Some known -> sameCompressedIdentity known pk = true.
Proof.
  unfold check_remote. split.
  - intros E. destruct (assertPeerAllowed pk) as [[]|]; [|done]. cbn in E.
    destruct (deriveNodeAddr pk) as [a|]; [|done]. cbn in E. destruct (bytesEqual a addr) eqn:Eb; [|done].
    apply bytesEqual_true in Eb as ->. split; [done|]. split; [done|]. intros known Ek. rewrite Ek in E. cbn in E.
    by destruct (sameCompressedIdentity known pk).
  - intros (-> & -> & Hk). cbn. rewrite bytesEqual_refl. cbn. destruct (sn_remotePubkey n) as [known|]; [|done]. by rewrite (Hk known).
Qed.

Lemma role_responder_msg3 fr now f f' r : FspSession.handleSessionMsg3 fr now f = (r, f') ->
  FspSession.role f = responder \/ f' = f /\ exists e, r = Throw e.
Proof.
  unfold FspSession.handleSessionMsg3. rewrite ST_get_bind. destruct (FspSession.role f); [|by left].
  intros [= <- <-]. right. split; [done|]. by eexists.
Qed.

Lemma sound_msg3 peer addr hex k fr nowMs now s :
  nodeAddrToHex addr = Ok hex -> session_of s hex = Some k -> sound s ->
  sound (snd (handleSessionMsg3 assertPeerAllowed peer addr hex k fr nowMs now s)).
Proof.
  intros Hx Hk [o So]. unfold handleSessionMsg3. rewrite ST_get_bind.
  destruct (so_hex _ _ _ So hex k (JsMap.get_elem _ _ _ Hk)) as (n & Hn & Hnx). rewrite Hn.
  assert (Ha : remoteNodeAddr n = addr).
  { apply nodeAddrToHex_Ok in Hx as [_ ->], Hnx as [_ E]. by apply toHex_inj. }
  set (i := default (sn_fsp n) (pendingResponderFsp n)).
  assert (Hi : i ∈ slots n) by (unfold i, slots; destruct (pendingResponderFsp n); cbn; set_solver).
  pose proof (so_slots _ _ _ So k n i Hn Hi) as Ho.
  destruct (fsps s !! i) as [f|] eqn:Hf; [|unfold mbind, ST_bind, on_fsp; rewrite Hf; by exists o].
  destruct (FspSession.handleSessionMsg3 fr now f) as [r f'] eqn:Em.
  assert (Eo : on_fsp i (FspSession.handleSessionMsg3 fr now) s = (r, set_fsps s (<[i:=f']> (fsps s)))) by (unfold on_fsp; by rewrite Hf, Em).
  pose proof (msg3_same_role fr now f) as [Hr Hw]. rewrite Em in Hr, Hw. cbn [snd] in Hr, Hw.
  pose proof (sound_hole _ _ _ _ _ So Hf Hr (Hw (so_wf _ _ _ So i f Hf))) as S1. set (s1 := set_fsps s _) in *.
  assert (Hf1 : fsps s1 !! i = Some f') by (change (fsps s1) with (<[i:=f']> (fsps s)); by rewrite list_lookup_insert_eq by (by eapply lookup_lt_Some)).
  destruct (role_responder_msg3 _ _ _ _ _ Em) as [Hres|[-> [e ->]]].
  2:{ unfold mbind, ST_bind. rewrite Eo. cbn [snd]. exists o. unfold s1. rewrite list_insert_id by done. by apply (sound_with_same None o s). }
  destruct r as [[]|e].
  2:{ unfold mbind, ST_bind. rewrite Eo. cbn [snd]. exists o. apply (sound_fill o s1 i S1). intros g k' n' Hg Ho' Hn'.
    rewrite Hf1 in Hg. injection Hg as <-. rewrite Ho in Ho'. injection Ho' as <-.
    assert (n' = n) as -> by (change (session_objects s1) with (session_objects s) in Hn'; congruence). clear Hn'.
    assert (Hopen : FspSession.state f' = FspSession.SEstablished -> FspSession.state f = FspSession.SEstablished /\ f' = f).
    { intros He. pose proof (msg3_open fr now f e) as Hop. rewrite Em in Hop. specialize (Hop eq_refl He). split; [done|].
      pose proof (msg3_stays fr now f Hop) as Hst. by rewrite Em in Hst. }
    split.
    - intros [Hd|Hd]; [congruence|]. destruct (Hopen Hd) as [Hs E]; rewrite E in *. apply (so_keys _ _ _ So i f k n); by auto.
    - intros Hp. split; [congruence|]. intros Hd. destruct (Hopen Hd) as [Hs E]; rewrite E in *.
      by destruct (so_pending _ _ _ So k n i f ltac:(done) Hn Hp Hf). }
  assert (exists pk, FspSession.remotePubkey f' = Some pk) as [pk Hpk].
  { destruct (msg3_names _ _ _ _ Em) as [[-> Hs]|[pk Hpk]]; [|by exists pk].
    destruct (so_keys _ _ _ So i f k n) as (known & pk & _ & Hpk & _); [done..|by right|by exists pk]. }
  rewrite (ST_bind_ok _ _ _ _ _ Eo), ST_get_bind, Hf1. cbn [mbind option_bind]. rewrite Hpk.
  destruct (check_remote assertPeerAllowed n pk addr) as [[]|e] eqn:Ec.
  - apply check_remote_ok in Ec as (Hd & Hal & Hid). rewrite <- Ha in Hd.
    unfold alter_session at 1. rewrite ST_modify_bind. set (s2 := set_objects s1 _).
    assert (R : ready o k i (pendingResponderFsp n) s2).
    { split; [|done|].
      - apply sound_key; [done|apply fromHex_toHex|]. intros m Hm. change (session_objects s1) with (session_objects s) in Hm.
        rewrite Hn in Hm. injection Hm as <-. split; [done|]. intros known Ek. right. by apply Hid.
      - exists f', pk, (set_key n (Some (toHex pk)) (Some pk)). split; [done|].
        split; [by cbn; rewrite list_lookup_alter_eq, Hn|]. split; [done|]. split; [done|].
        split; [|done]. exists pk. by split; [|left]. }
    assert (Htail : forall b s3, ready o k i None s3 -> sound (snd ((call (LearnReverse hex peer);; s ← get;
      call (EmitSession (default hex (session_objects s !! k ≫= remotePubkeyHex)) Established b);; resolveSessionSetup k;; drain_records k) s3))).
    { intros b s3 R3. eapply safe_safely; [|exists o; by eapply ready_done].
      repeat first [respects_step | apply safe_call | apply safe_resolve | apply safe_drain]. }
    destruct (bool_decide (pendingResponderFsp n = Some i)) eqn:Ep.
    + apply bool_decide_eq_true in Ep. rewrite Ep in R.
      destruct (restarted s1 n i); [destruct (replace_ready _ _ _ _ R) as (s3 & E & R3)|
        destruct (promote_ready _ _ _ (negb (currentKBit n)) nowMs _ R) as (s3 & E & R3)];
        rewrite (ST_bind_ok _ _ _ _ _ E); by apply Htail.
    + apply bool_decide_eq_false in Ep. unfold i in Ep. destruct (pendingResponderFsp n) as [j|]; [done|].
      rewrite (ST_bind_ok (mret tt) _ s2 tt s2 eq_refl). exact (Htail _ s2 R).
  - assert (exists s3, refuse_remote k i hex e s1 = (Throw e, s3) /\ sound s3) as (s3 & Er & S3);
      [|rewrite (ST_bind_throw _ _ _ _ _ Er); exact S3].
    pose proof (safe_close_fsp (Some i) i _ _ S1) as S2. pose proof (close_fsp_eq i s1) as El. rewrite El in S2.
    cbn [snd] in S2. assert (S3 : sound_with None o (set_fsps s1 (alter FspSession.set_closed i (fsps s1)))).
    { apply (sound_fill _ _ i S2). intros g k' m Hg _ _. cbn [fsps set_fsps] in Hg. rewrite list_lookup_alter_eq, Hf1 in Hg. injection Hg as <-.
      split; [intros [Hd|Hd]; [cbn in Hd; congruence|done]|]. split; [cbn; congruence|done]. }
    unfold refuse_remote. rewrite (ST_bind_ok _ _ _ _ _ El), ST_get_bind.
    destruct (decide _); eexists; (split; [reflexivity|exists o]).
    + by apply (safe_alter None k _ (fun n => shrinks_pending n)).
    + by apply (safe_delete None hex).
Qed.

(** ** All methods *)

Lemma respects_lift_bind {A B} R `{!PreOrder R} (r : result A) (f : A -> Mgr B) :
  (forall a, r = Ok a -> respects R (f a)) -> respects R (lift r ≫= f).
Proof. intros Hf s. unfold mbind, ST_bind, lift. destruct r as [a|e]; [by apply Hf|cbn; reflexivity]. Qed.

Lemma sound_from_peer assertNodeAllowed coords peer addr fr random nowMs now :
  respects safely (handleFromPeer identity localEpoch strictClient assertPeerAllowed assertNodeAllowed coords peer addr fr random nowMs now).
Proof.
  unfold handleFromPeer. apply (respects_lift_bind _); intros _ _. apply (respects_lift_bind _); intros phase _.
  apply (respects_lift_bind _); intros hex Hx. intros s So. rewrite ST_get_bind.
  assert (Hret : forall {A B} (m : Mgr A) (x : A -> B), sound (snd (m s)) -> sound (snd ((m ≫= fun a => mret (x a)) s))).
  { intros A B m x Hm. apply safely_bind; [done|]. intros a. apply respects_ret, _. }
  destruct (phase =? FSP_PHASE_ESTABLISHED).
  { destruct (session_of s hex) as [k|].
    - apply (Hret _ _ _ (fun r => match r with Done => Handled_ | TraversalOffer _ _ => _ end)). by apply safe_safely; [apply safe_established|].
    - eapply (safe_safely _); [|exact So]. repeat first [respects_step | apply safe_recover]. }
  destruct (phase =? 1); [by apply (Hret _ _ _ (fun _ => Handled_)), sound_setup|].
  destruct (phase =? 2).
  { destruct (session_of s hex) as [k|]; [|done]. apply (Hret _ _ _ (fun _ => Handled_)). by apply safe_safely; [apply safe_ack|]. }
  destruct (phase =? 3); [|done]. destruct (session_of s hex) as [k|] eqn:Ek; [|done].
  by apply (Hret _ _ _ (DrainRecords k)), sound_msg3.
Qed.

Lemma safe_ensured h hex : respects (safe h) (ensured hex).
Proof. unfold ensured. repeat first [respects_step | apply safe_wait]. Qed.

Lemma insert_session_run n hex s : new_session n hex s =
  (Ok (length (session_objects s)), set_sessions (set_objects s (session_objects s ++ [n])) (JsMap.set_ (sessions s) hex (length (session_objects s)))).
Proof. reflexivity. Qed.

Lemma sound_routed coords known key random :
  respects safely (ensure_routed identity localEpoch strictClient assertPeerAllowed coords known key random).
Proof.
  unfold ensure_routed. apply (respects_lift_bind _); intros [[pk addr] hex] En.
  apply respects_bind; [apply _|apply safe_safely, safe_ensured|intros e]. destruct e; [apply respects_ret, _..|].
  intros s [o So]. destruct (new_fsp_run initiator (Some pk) s) as [[e E]|(f & E & Hr & Hp & Hs & Hw & _)]; [done| |].
  { rewrite (ST_bind_throw _ _ _ _ _ E). by exists o. }
  rewrite (ST_bind_ok _ _ _ _ _ E). pose proof (sound_new_fsp None o s f So Hw) as S1. set (s1 := set_fsps s _) in *.
  assert (Hi : (o ++ [None]) !! length (fsps s) = Some None) by (by rewrite <- (so_len _ _ _ So), lookup_app_r, Nat.sub_diag by done).
  assert (Hn : admitted (fresh_session addr (Some key) (Some pk) (length (fsps s))) pk /\ fromHex key = Ok pk /\ nodeAddrToHex addr = Ok hex).
  { unfold ensure_names in En. unfold admitted. cbn [remoteNodeAddr fresh_session].
    destruct (fromHex key) as [x|] eqn:E1; [|done]. cbn in En. destruct (assertPeerAllowed x) as [[]|] eqn:E2; [|done]. cbn in En.
    destruct (deriveNodeAddr x) as [a|] eqn:E3; [|done]. cbn in En. destruct (nodeAddrToHex a) as [b|] eqn:E4; [|done]. by injection En as <- <- <-. }
  destruct Hn as (Ha & Hk & Hx).
  rewrite (ST_bind_ok _ _ _ _ _ (insert_session_run _ _ _)). eapply safe_safely.
  2:{ eexists. refine (sound_session None _ s1 addr (Some key) (Some pk) hex (length (fsps s)) f S1 Hi _ Hx _ _).
      - change (fsps s1) with (fsps s ++ [f]). by rewrite lookup_app_r, Nat.sub_diag by done.
      - intros pk' [= <-]. split; [done|by exists key].
      - left. split; [done|]. split; [by eexists|done]. }
  repeat first [respects_step | apply safe_call | apply safe_wait | apply safe_on_fsp, finishes_of, build_keeps].
Qed.

Lemma safe_ensure_failed h hex k e : respects (safe h) (ensure_failed hex k e).
Proof. unfold ensure_failed. repeat first [respects_step | apply safe_reject]. Qed.

Lemma safe_retry h addr hex k i m : respects (safe h) (retry_timer addr hex k i m).
Proof. unfold retry_timer. repeat first [respects_step | apply safe_call]. Qed.
End Table.
