(* ===== verification/SessionRuns.v ===== *)
(** * Runs of the session manager

    The methods that the node calls and the pieces that run when an [await] or a
    timer ends, as steps in any order, and what holds in every run of them. *)

From S2P Require Import Prelude Codec Crypto Toy NodeAddr Identity Replay F64 FmpWire FspWire SessionMsg Channel Noise Reports FspSession.
From S2P Require Import DirectTransport FmpLink Peers Sessions SessionSafety.

Section Runs.
Context `{Noble, !HexLaws}.
Context (identity : FipsIdentity) (localEpoch : bytes) (strictClient : bool).
Context (assertPeerAllowed assertNodeAllowed : bytes -> result unit).

(** What may run at once; the rest of the node ([coords], [peers], ...) may be
    different each time. *)
Inductive method : forall {A}, Mgr A -> Prop :=
| m_register port h : method (registerService port h)
| m_unregister port h : method (unregister port h)
| m_start : method start
| m_stop : method stop
| m_closePeer key : method (closePeerSessions key)
| m_timer k hex : method (setup_timer k hex)
| m_datagram peers up pubkey mtu k data now : method (sendDatagram assertPeerAllowed assertNodeAllowed peers up pubkey mtu k data now)
| m_endpoint peers up pubkey mtu k p now : method (sendEndpointData assertPeerAllowed assertNodeAllowed peers up pubkey mtu k p now)
| m_negotiation peers up pubkey mtu k p now : method (sendLinkNegotiation assertPeerAllowed assertNodeAllowed peers up pubkey mtu k p now)
| m_frames coords known pubkey k ty p next now : method (session_frames coords known pubkey k ty p next now)
| m_answer peers up pubkey mtu k a now : method (answer_offer assertPeerAllowed assertNodeAllowed peers up pubkey mtu k a now)
| m_reports peers up pubkey mtu now : method (sendReceiverReports assertPeerAllowed assertNodeAllowed peers up pubkey mtu now)
| m_reported : method reports_sent
| m_frame coords peer addr fr random nowMs now :
    method (handleFromPeer identity localEpoch strictClient assertPeerAllowed assertNodeAllowed coords peer addr fr random nowMs now)
| m_record hex k r nowMs now : method (drain_record assertPeerAllowed hex k r nowMs now)
| m_resolved g : method (recovery_resolved g)
| m_recovered hex g : method (recovery_done hex g)
| m_unrecovered hex a now : method (recovery_failed hex a now)
| m_ensure key : method (ensure_begin assertPeerAllowed key)
| m_routed coords known key random :
    method (ensure_routed identity localEpoch strictClient assertPeerAllowed coords known key random)
| m_schedule hex k i delay : method (scheduleRetry hex k i delay)
| m_retry addr hex k i m : method (retry_timer addr hex k i m)
| m_failed hex k e : method (ensure_failed hex k e).

Definition manager_step (s s' : FspSessionManager) : Prop := exists A (m : Mgr A), method m /\ s' = snd (m s).

Definition reachable (s : FspSessionManager) : Prop := exists s0, new_manager localEpoch = Ok s0 /\ rtc manager_step s0 s.

(** What each method keeps holds in every run. *)
Lemma run_keeps (R : FspSessionManager -> FspSessionManager -> Prop) `{!PreOrder R} s s' :
  (forall A (m : Mgr A), method m -> respects R m) -> rtc manager_step s s' -> R s s'.
Proof.
  intros Hm. induction 1 as [s|s s1 s2 (A & m & Hmm & ->) _ IH]; [reflexivity|]. etransitivity; [apply (Hm _ _ Hmm)|exact IH].
Qed.

Lemma new_manager_run s : new_manager localEpoch = Ok s -> s = mkManager [] [] [] [] [] false false [] [] 0 [] /\ len localEpoch = 8.
Proof. unfold new_manager. intros E. result_inv. bool_split. by subst. Qed.

Local Abbreviation sound := (sound assertPeerAllowed).
Local Abbreviation safe := (safe assertPeerAllowed).

Ltac plain := repeat first [respects_step | apply safe_call | apply safe_modify; done].

Lemma method_sound {A} (m : Mgr A) : method m -> respects (safely assertPeerAllowed) m.
Proof.
  destruct 1; try (apply safe_safely; first [apply safe_timer | apply safe_stop | apply safe_closePeer | apply safe_send | apply safe_frames
    | apply safe_reports | apply safe_recovered | apply safe_recovery_failed | apply safe_ensure_failed | apply safe_retry]).
  all: try first [apply sound_from_peer | apply sound_routed].
  all: apply safe_safely; unfold registerService, unregister, start, sendDatagram, sendEndpointData, sendLinkNegotiation, sendDatagram, answer_offer,
    reports_sent, drain_record, recovery_resolved, ensure_begin, scheduleRetry; plain.
  all: first [apply safe_send | apply safe_ensured | apply safe_established].
Qed.

Lemma reachable_sound s : reachable s -> sound s.
Proof.
  intros (s0 & E & Hr). apply new_manager_run in E as [-> _]. eapply (run_keeps (safely assertPeerAllowed)); [apply @method_sound|exact Hr|].
  exists []. split; cbn; try done; try (intros; by exfalso; set_solver). apply NoDup_nil_2.
Qed.

(** C15: in every run, whatever arrives in whatever order, a session in the table
    is found under the hex form of its address, and each of its established
    [FspSession]s, the current, the pending and the previous one, is with an
    admitted key that the address is derived from and that has the identity the
    session is known by; the name given to the application is the hex form of
    such a key. No [FspSession] serves two sessions or has two parts in one. *)
Theorem session_identities s : reachable s ->
  (forall hex k, session_of s hex = Some k ->
     exists n, session_objects s !! k = Some n /\ nodeAddrToHex (remoteNodeAddr n) = Ok hex) /\
  (forall k n, session_objects s !! k = Some n -> NoDup (slots n) /\
     (forall i f, i ∈ slots n -> fsps s !! i = Some f -> FspSession.state f = FspSession.SEstablished ->
        exists known pk, sn_remotePubkey n = Some known /\ FspSession.remotePubkey f = Some pk /\ same_identity known pk /\
          deriveNodeAddr pk = Ok (remoteNodeAddr n) /\ assertPeerAllowed pk = Ok tt) /\
     (forall known, sn_remotePubkey n = Some known -> deriveNodeAddr known = Ok (remoteNodeAddr n) /\
        exists name, remotePubkeyHex n = Some name /\ fromHex name = Ok known)) /\
  (forall k1 k2 n1 n2 i, session_objects s !! k1 = Some n1 -> session_objects s !! k2 = Some n2 ->
     i ∈ slots n1 -> i ∈ slots n2 -> k1 = k2).
Proof.
  intros Hr. destruct (reachable_sound s Hr) as [o So]. split; [|split].
  - intros hex k Hk. exact (so_hex _ _ _ _ So hex k (JsMap.get_elem _ _ _ Hk)).
  - intros k n Hn. split; [by eapply so_distinct|]. split.
    + intros i f Hi Hf Hs. pose proof (so_slots _ _ _ _ So k n i Hn Hi) as Ho.
      destruct (so_keys _ _ _ _ So i f k n ltac:(done) Hf Ho Hn (or_intror Hs)) as (known & pk & E1 & E2 & E3 & E4 & E5). by exists known, pk.
    + intros known Ek. destruct (so_named _ _ _ _ So k n known Hn Ek) as [[E1 _] E2]. done.
  - intros k1 k2 n1 n2 i H1 H2 Hi1 Hi2. pose proof (so_slots _ _ _ _ So k1 n1 i H1 Hi1). pose proof (so_slots _ _ _ _ So k2 n2 i H2 Hi2). congruence.
Qed.

(** ** Queues and recoveries *)

Fixpoint sum_len (l : list (nat * bytes)) : Z := match l with [] => 0 | r :: l => len (snd r) + sum_len l end.

Lemma sum_len_app l k : sum_len (l ++ k) = sum_len l + sum_len k.
Proof. induction l as [|x l IH]; cbn; [done|]. rewrite IH. lia. Qed.

Definition early_ok (n : Session) : Prop :=
  len (earlyEstablishedRecords n) <= MAX_EARLY_ESTABLISHED_RECORDS /\ earlyEstablishedBytes n = sum_len (earlyEstablishedRecords n) /\
  earlyEstablishedBytes n <= MAX_EARLY_ESTABLISHED_BYTES.

Definition tidy (s : FspSessionManager) : Prop :=
  Forall early_ok (session_objects s) /\ len (missingSessionRecoveries s) <= MAX_MISSING_SESSION_RECOVERIES /\
  JsMap.wf (missingSessionRecoveries s).

Definition tidies (s s' : FspSessionManager) : Prop := tidy s -> tidy s'.

#[export] Instance tidies_preorder : PreOrder tidies.
Proof. unfold tidies. split; intros s; auto. Qed.

Lemma tidies_modify g :
  (forall s, session_objects (g s) = session_objects s /\ missingSessionRecoveries (g s) = missingSessionRecoveries s) -> respects tidies (modify g).
Proof. intros Hg s. unfold tidies, tidy. cbn. destruct (Hg s) as [-> ->]. done. Qed.

Lemma tidies_alter k g : (forall n, early_ok n -> early_ok (g n)) -> respects tidies (alter_session k g).
Proof.
  intros Hg s [Hf Hr]. split; [|exact Hr]. apply Forall_lookup. intros j n [(-> & m & Hm & ->)|[_ Hn]]%alter_inv.
  - apply Hg. by eapply Forall_lookup_1.
  - by eapply Forall_lookup_1.
Qed.

Lemma tidies_on_fsp {A} i (m : ST FspSession.t A) : respects tidies (on_fsp i m).
Proof. intros s. unfold on_fsp. destruct (fsps s !! i) as [f|]; [|done]. destruct (m f). exact (fun x => x). Qed.

Lemma tidies_receive {A} i (m : ST (FspSession.t * FspSessionManager) A) : (forall f s, tidies s (snd (snd (m (f, s))))) -> respects tidies (receive_on i m).
Proof.
  intros Hm s. unfold receive_on. destruct (fsps s !! i) as [f|]; [|done]. specialize (Hm f s). destruct (m (f, s)) as [r [f' s']].
  exact Hm.
Qed.

Lemma tidies_new_session n hex : early_ok n -> respects tidies (new_session n hex).
Proof.
  intros Hn s [Hf Hr]. rewrite insert_session_run. split; [|exact Hr]. cbn. apply Forall_app. split; [done|]. by constructor.
Qed.

Lemma fresh_early addr hex pk i : early_ok (fresh_session addr hex pk i).
Proof. by repeat split; vm_compute. Qed.

Ltac tidy_step :=
  first [ respects_step | apply tidies_modify; done | apply tidies_alter; by intros ? | apply tidies_on_fsp
    | apply respects_for_each; [apply _|intros ?] | done ].
Ltac tidy_solve := repeat tidy_step.

Lemma tidies_wait k : respects tidies (waitForSessionSetup k).
Proof. unfold waitForSessionSetup. tidy_solve. Qed.

Lemma tidies_resolve k : respects tidies (resolveSessionSetup k).
Proof. unfold resolveSessionSetup, settle_promise. tidy_solve. Qed.

Lemma tidies_reject k hex e : respects tidies (rejectSessionSetup k hex e).
Proof. unfold rejectSessionSetup, settle_promise, close_all, close_opt. tidy_solve. Qed.

Lemma tidies_stop : respects tidies stop.
Proof.
  unfold stop, stop_session, close_all, close_opt. repeat first [tidy_step | apply tidies_reject].
  apply respects_modify. intros s (Hf & _ & _). split; [done|]. split; [done|apply NoDup_nil_2].
Qed.

Lemma tidies_queue k peer frame : respects tidies (queueEarlyEstablishedRecord k peer frame).
Proof.
  intros s Hs. unfold queueEarlyEstablishedRecord. destruct (decodeFspEstablished frame) as [est|e]; [|exact Hs].
  erewrite ST_lift_bind by done. rewrite ST_get_bind. destruct (session_objects s !! k) as [n|] eqn:Hn; [|exact Hs].
  unfold throw_when. destruct (_ || _) eqn:Eb; [exact Hs|]. bool_split. destruct Hs as [Hf Hr]. split; [|exact Hr]. cbn.
  pose proof (Forall_lookup_1 _ _ _ _ Hf Hn) as (A1 & A2 & A3).
  apply Forall_lookup. intros j m [(-> & n' & Hn' & ->)|[_ Hm]]%alter_inv; [|by eapply Forall_lookup_1].
  rewrite Hn in Hn'. injection Hn' as <-. unfold early_ok. cbn. rewrite len_app, sum_len_app. cbn.
  unfold MAX_EARLY_ESTABLISHED_RECORDS, MAX_EARLY_ESTABLISHED_BYTES in *. change (len [(peer, frame)]) with 1. lia.
Qed.

Lemma wf_recoveries_set m (hex : string) (r : Recovery) :
  len m <= 63 \/ is_Some (JsMap.get_ m hex) /\ len m <= 64 -> len (JsMap.set_ m hex r) <= 64.
Proof.
  unfold len. rewrite JsMap.length_set. unfold JsMap.has_. intros Hm. case_bool_decide; [destruct Hm; lia|]. destruct Hm as [|[? _]]; [lia|done].
Qed.

Lemma tidies_recover hex now : respects tidies (recoverMissingSession hex now).
Proof.
  unfold recoverMissingSession. apply respects_bind; [apply _|by apply tidies_modify|intros _].
  apply respects_bind; [apply _| |intros _].
  { apply respects_modify. intros s (Hf & Hl & Hw). split; [done|]. cbn. split; [|by apply JsMap.wf_filter].
    unfold len in *. pose proof (JsMap.length_filter_le (fun r => expired now r = false) (missingSessionRecoveries s)). lia. }
  intros s Hs. rewrite ST_get_bind. destruct (JsMap.get_ (missingSessionRecoveries s) hex) as [r|]; [exact Hs|].
  destruct (_ >=? _) eqn:El; [exact Hs|]. destruct Hs as (Hf & Hl & Hw). split; [exact Hf|]. cbn. split; [|by apply JsMap.wf_set].
  apply wf_recoveries_set. left. rewrite Z.geb_leb in El. bool_split.
  cbn [missingSessionRecoveries set_recoveries]. unfold MAX_MISSING_SESSION_RECOVERIES in *. lia.
Qed.

Lemma tidies_recovered hex g : respects tidies (recovery_done hex g).
Proof.
  unfold recovery_done. tidy_solve. apply respects_modify. intros s (Hf & Hl & Hw). split; [done|]. cbn. split; [|by apply JsMap.wf_delete].
  unfold len, JsMap.delete_ in *. pose proof (JsMap.length_filter_le (fun p => fst p <> hex) (missingSessionRecoveries s)). lia.
Qed.

Lemma tidies_recovery_failed hex a now : respects tidies (recovery_failed hex a now).
Proof.
  intros s Hs. unfold recovery_failed. rewrite ST_get_bind. destruct (JsMap.get_ _ hex) as [r|] eqn:Er; [|exact Hs].
  destruct (decide _); [|exact Hs]. destruct Hs as (Hf & Hl & Hw). split; [exact Hf|]. cbn. split; [|by apply JsMap.wf_set].
  apply wf_recoveries_set. right. by rewrite Er.
Qed.

Lemma tidies_new_fsp ro pk : respects tidies (new_fsp identity localEpoch strictClient ro pk).
Proof. unfold new_fsp. tidy_solve. Qed.

Lemma tidies_promote k i b now : respects tidies (promotePendingSession k i b now).
Proof. unfold promotePendingSession, close_opt, adopt_key. tidy_solve. Qed.

Lemma tidies_established peer hex k frame nowMs now : respects tidies (handleEstablished assertPeerAllowed peer hex k frame nowMs now).
Proof.
  unfold handleEstablished, prunePreviousFsp, deliverDatagram. repeat first [tidy_step | apply tidies_queue].
  apply tidies_receive. intros ? ?. apply decrypt_world; [apply _|]. intros x. unfold on_authenticated. repeat first [tidy_step | apply tidies_promote].
Qed.

Lemma tidies_setup coords peer addr hex session fr random :
  respects tidies (handleSessionSetup identity localEpoch strictClient coords peer addr hex session fr random).
Proof.
  unfold handleSessionSetup, fsp_setup, close_opt. repeat first [tidy_step | apply tidies_new_fsp | apply tidies_new_session, fresh_early].
Qed.

Lemma tidies_msg3 peer addr hex k fr nowMs now : respects tidies (handleSessionMsg3 assertPeerAllowed peer addr hex k fr nowMs now).
Proof.
  unfold handleSessionMsg3, refuse_remote, replaceRestartedSession, drain_records, close_opt, adopt_key.
  repeat first [tidy_step | apply tidies_promote | apply tidies_resolve].
Qed.

Section Sending.
Context (peers : string -> option nat) (up : nat -> bool) (pubkey : nat -> bytes) (mtu : nat -> Z).

Lemma tidies_send k ty p now : respects tidies (sendSessionMessage assertPeerAllowed assertNodeAllowed peers up pubkey mtu k ty p now).
Proof. unfold sendSessionMessage, sendDirectFsp. tidy_solve. Qed.

Lemma respects_reports (R : FspSessionManager -> FspSessionManager -> Prop) `{!PreOrder R} now :
  (forall k, respects R (send_report assertPeerAllowed assertNodeAllowed peers up pubkey mtu now k)) ->
  respects R (modify (fun s => set_reportsSending s true)) ->
  respects R (sendReceiverReports assertPeerAllowed assertNodeAllowed peers up pubkey mtu now).
Proof.
  intros Hs Hm. unfold sendReceiverReports. apply respects_bind; [apply _|apply respects_get, _|intros s]. destruct (reportsSending s); [apply respects_ret, _|].
  apply respects_bind; [apply _|exact Hm|intros _]. generalize (map snd (sessions s)). intros ks.
  induction ks as [|k ks IH]; cbn [reports_loop]; [apply respects_ret, _|].
  apply respects_bind; [apply _|apply Hs|intros to]. apply respects_bind; [apply _|exact IH|intros rest]. apply respects_ret, _.
Qed.
End Sending.

Lemma tidies_ensured hex : respects tidies (ensured hex).
Proof. unfold ensured. repeat first [tidy_step | apply tidies_wait]. Qed.

Lemma method_tidy {A} (m : Mgr A) : method m -> respects tidies m.
Proof.
  destruct 1; unfold registerService, unregister, start, closePeerSessions, close_peer_session, setup_timer, sendDatagram, sendEndpointData,
    sendLinkNegotiation, sendDatagram, sendSessionMessage, sendDirectFsp, session_frames, answer_offer, reports_sent, handleFromPeer, handle_ack,
    drain_record, recovery_resolved, ensure_begin, ensured, ensure_routed, scheduleRetry, retry_timer, ensure_failed, close_all, close_opt.
  all: repeat first [tidy_step | apply tidies_reject | apply tidies_stop | apply tidies_established | apply tidies_setup | apply tidies_msg3
    | apply tidies_recover | apply tidies_recovered | apply tidies_recovery_failed | apply tidies_new_fsp | apply tidies_new_session, fresh_early
    | apply tidies_wait | apply tidies_resolve | apply tidies_send | apply tidies_ensured].
  apply respects_reports; [apply _|intros k; unfold send_report|by apply tidies_modify]. repeat first [tidy_step | apply tidies_send].
Qed.

(** ** Waiting for a setup *)

Definition setups (s : FspSessionManager) : list (option nat) := map setupPromise (session_objects s).

(** Every pending promise is the setup of one session. *)
Record waiting (s : FspSessionManager) : Prop := {
  wt_pending : forall k p, setups s !! k = Some (Some p) -> promises s !! p = Some Pending;
  wt_setup : forall p, promises s !! p = Some Pending -> exists k, setups s !! k = Some (Some p);
  wt_one : forall k1 k2 p, setups s !! k1 = Some (Some p) -> setups s !! k2 = Some (Some p) -> k1 = k2;
}.

(** A promise is settled once. *)
Definition settled (s s' : FspSessionManager) : Prop :=
  forall p x, promises s !! p = Some x -> x <> Pending -> promises s' !! p = Some x.

Definition waits (s s' : FspSessionManager) : Prop := (waiting s -> waiting s') /\ settled s s'.

#[export] Instance waits_preorder : PreOrder waits.
Proof. unfold waits, settled. split; [intros s; auto|intros a b c [? ?] [? ?]; split; auto]. Qed.

(** Most calls touch neither. *)
Definition same_waits (s s' : FspSessionManager) : Prop := setups s' = setups s /\ promises s' = promises s.

#[export] Instance same_waits_preorder : PreOrder same_waits.
Proof. unfold same_waits. split; [by intros s|intros a b c [? ?] [? ?]; split; congruence]. Qed.

Lemma same_waits_waits s s' : same_waits s s' -> waits s s'.
Proof. intros [E1 E2]. split; [intros [? ? ?]; split; rewrite ?E1, ?E2; assumption|intros p x]. by rewrite E2. Qed.

Lemma waits_of {A} (m : Mgr A) : respects same_waits m -> respects waits m.
Proof. intros Hm s. apply same_waits_waits, Hm. Qed.

Lemma sw_modify g : (forall s, session_objects (g s) = session_objects s /\ promises (g s) = promises s) -> respects same_waits (modify g).
Proof. intros Hg s. destruct (Hg s) as [E1 E2]. split; [|exact E2]. unfold setups. cbn. by rewrite E1. Qed.

Lemma map_alter {A B} (f : A -> B) (g : A -> A) k (l : list A) : (forall x, f (g x) = f x) -> map f (alter g k l) = map f l.
Proof. intros Hg. revert k. induction l as [|x l IH]; intros [|k]; cbn; try done; f_equal; auto. Qed.

Lemma sw_alter k g : (forall n, setupPromise (g n) = setupPromise n) -> respects same_waits (alter_session k g).
Proof. intros Hg s. split; [|done]. by apply map_alter. Qed.

Lemma sw_on_fsp {A} i (m : ST FspSession.t A) : respects same_waits (on_fsp i m).
Proof. intros s. unfold on_fsp. destruct (fsps s !! i) as [f|]; [|done]. by destruct (m f). Qed.

Lemma waits_receive {A} i (m : ST (FspSession.t * FspSessionManager) A) : (forall f s, waits s (snd (snd (m (f, s))))) -> respects waits (receive_on i m).
Proof.
  intros Hm s. unfold receive_on. destruct (fsps s !! i) as [f|]; [|done]. specialize (Hm f s). destruct (m (f, s)) as [r [f' s']].
  etransitivity; [exact Hm|by apply same_waits_waits].
Qed.

Lemma waits_new_session n hex : setupPromise n = None -> respects waits (new_session n hex).
Proof.
  intros Hn s. rewrite insert_session_run. split; [|by intros p x].
  assert (E : setups (set_sessions (set_objects s (session_objects s ++ [n])) (JsMap.set_ (sessions s) hex (length (session_objects s)))) =
    setups s ++ [None]) by (unfold setups; cbn; rewrite map_app; cbn; by rewrite Hn).
  assert (Ha : forall k p, (setups s ++ [None]) !! k = Some (Some p) <-> setups s !! k = Some (Some p)).
  { intros k p. split; [|by intros; apply lookup_app_l_Some]. intros [Hk|[_ Hk]]%lookup_app_Some; [done|].
    by destruct (k - length (setups s))%nat as [|[]]. }
  intros [W1 W2 W3]. cbn [snd]. split; rewrite E; cbn [promises set_sessions set_objects].
  - intros k p Hk%Ha. by eapply W1.
  - intros p Hp. destruct (W2 p Hp) as [k Hk]. exists k. by apply Ha.
  - intros k1 k2 p Hk1%Ha Hk2%Ha. by eapply W3.
Qed.

Definition settle (x y : Promise) : Promise := match y with Pending => x | y => y end.

(** The setup of a session ends. *)
Lemma waits_settle s s' k n x :
  session_objects s !! k = Some n -> x <> Pending -> setups s' = <[k:=None]> (setups s) ->
  promises s' = match setupPromise n with Some p => alter (settle x) p (promises s) | None => promises s end -> waits s s'.
Proof.
  intros Hn Hx Es Ep. assert (Hk : setups s !! k = Some (setupPromise n)) by (unfold setups; by rewrite list_lookup_fmap, Hn).
  assert (Hs : forall j q, setups s' !! j = Some (Some q) -> j <> k /\ setups s !! j = Some (Some q)).
  { intros j q. rewrite Es. destruct (decide (j = k)) as [->|Hne].
    - rewrite list_lookup_insert_eq by (by eapply lookup_lt_Some). done.
    - rewrite list_lookup_insert_ne by done. done. }
  split.
  - intros [W1 W2 W3]. split.
    + intros j q [Hne Hj]%Hs. rewrite Ep. destruct (setupPromise n) as [p|] eqn:E; [|by eapply W1].
      rewrite list_lookup_alter_ne; [by eapply W1|]. intros ->. apply Hne. by eapply W3.
    + intros q Hq. rewrite Ep in Hq. assert (Hq' : promises s !! q = Some Pending /\ setupPromise n <> Some q).
      { destruct (setupPromise n) as [p|]; [|done]. apply alter_inv in Hq as [(-> & y & Hy & E)|[Hne Hq]]; [|split; [done|congruence]].
        destruct y; cbn in E; congruence. }
      destruct Hq' as [Hq1 Hq2]. destruct (W2 q Hq1) as [j Hj]. exists j. rewrite Es. rewrite list_lookup_insert_ne; [done|].
      intros ->. congruence.
    + intros j1 j2 q [_ H1]%Hs [_ H2]%Hs. by eapply W3.
  - intros q y Hq Hy. rewrite Ep. destruct (setupPromise n) as [p|]; [|done]. destruct (decide (q = p)) as [->|Hne].
    + rewrite list_lookup_alter_eq, Hq. by destruct y.
    + by rewrite list_lookup_alter_ne.
Qed.

Lemma setups_alter_none k s : setups (set_objects s (alter (fun n => set_setup n None) k (session_objects s))) = <[k:=None]> (setups s).
Proof.
  unfold setups. cbn. generalize (session_objects s). intros l. revert k. induction l as [|n l IH]; intros [|k]; cbn; try done. f_equal. apply IH.
Qed.

Lemma waits_resolve k : respects waits (resolveSessionSetup k).
Proof.
  intros s. unfold resolveSessionSetup. rewrite ST_get_bind. unfold alter_session. rewrite ST_modify_bind.
  destruct (session_objects s !! k) as [n|] eqn:Hn; cbn [mbind option_bind].
  - apply (waits_settle _ _ k n Fulfilled Hn ltac:(done)).
    + rewrite <- setups_alter_none. unfold settle_promise. by destruct (setupPromise n).
    + unfold settle_promise. by destruct (setupPromise n).
  - apply same_waits_waits. split; [|done]. cbn. unfold setups. cbn. apply list_eq. intros j. rewrite !list_lookup_fmap.
    destruct (decide (j = k)) as [->|Hne]; [by rewrite list_lookup_alter_eq, Hn|by rewrite list_lookup_alter_ne].
Qed.

Ltac sw_step :=
  first [ respects_step | apply sw_modify; done | apply sw_alter; done | apply sw_on_fsp | apply respects_for_each; [apply _|intros ?] | done ].

Lemma sw_close_all n : respects same_waits (close_all n).
Proof. unfold close_all, close_opt. repeat sw_step. Qed.

Definition total (m : Mgr unit) : Prop := forall s, exists s', m s = (Ok tt, s').

Lemma total_bind (m : Mgr unit) (f : unit -> Mgr unit) : total m -> (forall u, total (f u)) -> total (m ≫= f).
Proof. intros Hm Hf s. destruct (Hm s) as [s1 E]. rewrite (ST_bind_ok _ _ _ _ _ E). apply Hf. Qed.

Lemma total_close_opt i : total (close_opt i).
Proof. intros s. destruct i; by eexists. Qed.

Lemma total_close_all n : total (close_all n).
Proof. repeat (apply total_bind; [first [apply total_close_opt | intros s; by eexists]|intros _]). apply total_close_opt. Qed.

(** What [rejectSessionSetup] leaves of the waits. *)
Lemma reject_run k hex e s n : session_objects s !! k = Some n ->
  exists s', rejectSessionSetup k hex e s = (Ok tt, s') /\ setups s' = <[k:=None]> (setups s) /\
  promises s' = match setupPromise n with Some p => alter (settle (Failed e)) p (promises s) | None => promises s end.
Proof.
  intros Hn. unfold rejectSessionSetup. rewrite ST_get_bind, Hn. unfold alter_session. rewrite ST_modify_bind.
  set (s1 := set_objects s _). rewrite <- (setups_alter_none k s). change (set_objects s _) with s1.
  change (promises s) with (promises s1).
  match goal with |- context [(?m ≫= _) s1] => assert (Hm : respects same_waits m /\ total m) end.
  { destruct (decide _); (split; [repeat first [apply sw_close_all | sw_step]|]); [|intros s2; by eexists].
    apply total_bind; [apply total_close_all|intros _]. by intros s2; eexists. }
  destruct Hm as [Hm Ht]. destruct (Ht s1) as [s2 E2]. specialize (Hm s1). rewrite E2 in Hm. destruct Hm as [M1 M2]. cbn [snd] in *.
  rewrite (ST_bind_ok _ _ _ _ _ E2). unfold settle_promise.
  destruct (setupPromise n) as [p|]; eexists; (split; [reflexivity|]); (split; [exact M1|]); [rewrite <- M2; reflexivity|exact M2].
Qed.

Lemma waits_reject k hex e : respects waits (rejectSessionSetup k hex e).
Proof.
  intros s. destruct (session_objects s !! k) as [n|] eqn:Hn.
  - destruct (reject_run k hex e s n Hn) as (s' & -> & E1 & E2). exact (waits_settle s s' k n (Failed e) Hn ltac:(done) E1 E2).
  - unfold rejectSessionSetup. rewrite ST_get_bind, Hn. by apply same_waits_waits.
Qed.

Lemma waits_wait k : respects waits (waitForSessionSetup k).
Proof.
  intros s. unfold waitForSessionSetup. rewrite ST_get_bind. destruct (session_objects s !! k) as [n|] eqn:Hn; [|by apply same_waits_waits].
  destruct (setupPromise n) as [p|] eqn:Hp; [by apply same_waits_waits|]. unfold alter_session. rewrite !ST_modify_bind.
  set (q := length (promises s)).
  assert (Hk : setups s !! k = Some None) by (unfold setups; rewrite list_lookup_fmap, Hn; cbn; by rewrite Hp).
  assert (Es : map setupPromise (alter (fun n => set_setup n (Some q)) k (session_objects s)) = <[k:=Some q]> (setups s)).
  { unfold setups. generalize (session_objects s). intros l. clear. revert k. induction l as [|n l IH]; intros [|k]; cbn; try done. f_equal. apply IH. }
  assert (Hs : forall j p, <[k:=Some q]> (setups s) !! j = Some (Some p) -> j = k /\ p = q \/ j <> k /\ setups s !! j = Some (Some p)).
  { intros j p. destruct (decide (j = k)) as [->|Hne].
    - rewrite list_lookup_insert_eq by (by eapply lookup_lt_Some). intros [= <-]. by left.
    - rewrite list_lookup_insert_ne by done. by right. }
  split; cbn.
  - intros [W1 W2 W3]. split; unfold setups; cbn; rewrite ?Es.
    + intros j p [[-> ->]|[_ Hj]]%Hs; [by rewrite lookup_app_r, Nat.sub_diag by done|]. apply lookup_app_l_Some. by eapply W1.
    + intros p [Hj|[Hl Hj]]%lookup_app_Some.
      * destruct (W2 p Hj) as [j Hj']. exists j. rewrite list_lookup_insert_ne; [done|]. intros ->. congruence.
      * exists k. rewrite list_lookup_insert_eq by (by eapply lookup_lt_Some).
        destruct (p - length (promises s))%nat as [|[]] eqn:El; [|done..]. do 2 f_equal. unfold q. lia.
    + assert (Hq : forall j, setups s !! j <> Some (Some q)).
      { intros j Hj. apply W1 in Hj. apply lookup_lt_Some in Hj. unfold q in Hj. lia. }
      intros j1 j2 p [[-> ->]|[_ H1]]%Hs [[-> E2]|[_ H2]]%Hs; try done; subst; try (by edestruct Hq). by eapply W3.
  - intros p x Hx _. by apply lookup_app_l_Some.
Qed.

Lemma waits_stop : respects waits stop.
Proof.
  unfold stop. repeat first [sw_step | apply waits_of, sw_modify; done]. unfold stop_session.
  repeat first [respects_step | apply waits_reject | apply waits_of, sw_close_all].
Qed.

Lemma waits_new_fsp ro pk : respects waits (new_fsp identity localEpoch strictClient ro pk).
Proof. apply waits_of. unfold new_fsp. repeat sw_step. Qed.

Lemma sw_promote k i b now : respects same_waits (promotePendingSession k i b now).
Proof. unfold promotePendingSession, close_opt, adopt_key. repeat sw_step. Qed.

Lemma waits_established peer hex k frame nowMs now : respects waits (handleEstablished assertPeerAllowed peer hex k frame nowMs now).
Proof.
  unfold handleEstablished. repeat first [respects_step | apply waits_of; solve [unfold prunePreviousFsp, queueEarlyEstablishedRecord, deliverDatagram, call; repeat sw_step]].
  apply waits_receive. intros ? ?. apply decrypt_world; [apply _|]. intros x. apply waits_of. unfold on_authenticated.
  repeat first [sw_step | apply sw_promote].
Qed.

Lemma waits_setup coords peer addr hex session fr random :
  respects waits (handleSessionSetup identity localEpoch strictClient coords peer addr hex session fr random).
Proof.
  unfold handleSessionSetup. repeat first [respects_step | apply waits_new_fsp | by apply waits_new_session
    | apply waits_of; solve [unfold fsp_setup, close_opt, call; repeat sw_step]].
Qed.

Lemma waits_msg3 peer addr hex k fr nowMs now : respects waits (handleSessionMsg3 assertPeerAllowed peer addr hex k fr nowMs now).
Proof.
  unfold handleSessionMsg3. repeat first [respects_step | apply waits_resolve | apply waits_of; solve [unfold refuse_remote, replaceRestartedSession,
    drain_records, close_opt, adopt_key, call; repeat first [sw_step | apply sw_promote]]].
Qed.

Lemma sw_send peers up pubkey mtu k ty p now :
  respects same_waits (sendSessionMessage assertPeerAllowed assertNodeAllowed peers up pubkey mtu k ty p now).
Proof. unfold sendSessionMessage, sendDirectFsp, call. repeat sw_step. Qed.

Lemma waits_ensured hex : respects waits (ensured hex).
Proof. unfold ensured. repeat first [respects_step | apply waits_wait]. Qed.

Lemma method_waits {A} (m : Mgr A) : method m -> respects waits m.
Proof.
  destruct 1; unfold closePeerSessions, close_peer_session, setup_timer, handleFromPeer, handle_ack, drain_record, ensure_begin, ensured,
    ensure_routed, ensure_failed.
  all: repeat first [respects_step | apply waits_reject | apply waits_stop | apply waits_established | apply waits_setup | apply waits_msg3
    | apply waits_new_fsp | by apply waits_new_session | apply waits_wait | apply waits_resolve | apply waits_ensured
    | apply respects_for_each; [apply _|intros ?] | apply waits_of, sw_send
    | apply waits_of; solve [unfold registerService, unregister, start, sendDatagram, sendEndpointData,
        sendLinkNegotiation, sendDatagram, sendSessionMessage, sendDirectFsp, session_frames, answer_offer, reports_sent, recovery_done,
        recovery_failed, recoverMissingSession, recovery_resolved, scheduleRetry, retry_timer, close_all, close_opt, call; repeat sw_step] ].
  - unfold answer_offer. repeat first [respects_step | apply waits_of, sw_send].
  - apply waits_of. apply respects_reports; [apply _|intros k; unfold send_report|by apply sw_modify]. repeat first [sw_step | apply sw_send].
Qed.

(** C17: in every run, records that arrive before their handshake ends are kept at
    most 16 to a session and at most 64 KiB together, the counted size is that
    of the records kept, and at most 64 lost sessions are being recovered, one
    for an address. *)
Theorem sessions_bounded s : reachable s ->
  (forall k n, session_objects s !! k = Some n ->
     len (earlyEstablishedRecords n) <= 16 /\ earlyEstablishedBytes n = sum_len (earlyEstablishedRecords n) /\ earlyEstablishedBytes n <= 65536) /\
  len (missingSessionRecoveries s) <= 64 /\ NoDup (fst <$> missingSessionRecoveries s).
Proof.
  intros (s0 & E & Hr). apply new_manager_run in E as [-> _].
  destruct (run_keeps tidies _ _ (@method_tidy) Hr) as (Hf & Hl & Hw); [by repeat constructor; vm_compute|].
  split; [|by split]. intros k n Hn. exact (Forall_lookup_1 _ _ _ _ Hf Hn).
Qed.

(** C16: no caller waits for a session forever: in every run each promise that is
    waited for is the setup of exactly one session, whose timer, when it fires,
    rejects it; a settled promise stays as it is. *)
Theorem session_waits_end s : reachable s ->
  (forall p, promises s !! p = Some Pending ->
     exists k n, session_objects s !! k = Some n /\ setupPromise n = Some p /\
       (forall k' n', session_objects s !! k' = Some n' -> setupPromise n' = Some p -> k' = k) /\
       forall hex, exists s', setup_timer k hex s = (Ok tt, s') /\ promises s' !! p = Some (Failed (Error "FSP handshake timeout"))) /\
  (forall s' p x, rtc manager_step s s' -> promises s !! p = Some x -> x <> Pending -> promises s' !! p = Some x).
Proof.
  intros (s0 & E & Hr). apply new_manager_run in E as [-> _].
  destruct (run_keeps waits _ _ (@method_waits) Hr) as [Hw _].
  assert (W : waiting s) by (apply Hw; split; cbn; intros; by exfalso; set_solver). split.
  - intros p Hp. destruct (wt_setup _ W p Hp) as [k Hk]. unfold setups in Hk. rewrite list_lookup_fmap in Hk.
    destruct (session_objects s !! k) as [n|] eqn:Hn; [|done]. cbn in Hk. injection Hk as Hk. exists k, n. split; [done|]. split; [done|]. split.
    + intros k' n' Hn' Hk'. apply (wt_one _ W k' k p); unfold setups; rewrite list_lookup_fmap, ?Hn', ?Hn; cbn; by f_equal.
    + intros hex. unfold setup_timer. rewrite ST_get_bind, Hn. cbn [mbind option_bind]. rewrite Hk.
      destruct (reject_run k hex (Error "FSP handshake timeout") s n Hn) as (s' & -> & _ & E). exists s'. split; [done|].
      rewrite E, Hk, list_lookup_alter_eq, Hp. done.
  - intros s' p x Hs. exact (proj2 (run_keeps waits _ _ (@method_waits) Hs) p x).
Qed.
End Runs.

(** ** Examples *)

#[local] Existing Instances Toy.noble Toy.hash_laws Toy.aead_laws Toy.dh_laws Toy.schnorr_laws Toy.hex_laws.

Definition demo_allowed : bytes -> result unit := fun _ => Ok tt.
Definition demo_epoch (n : Z) : bytes := replicate 8 (z2b n).
Definition demo_name (n : Z) : string := toHex (publicKey (demo_identity n)).
Definition demo_manager : FspSessionManager := mkManager [] [] [] [] [] false false [] [] 0 [].

Definition demo_handle (n peer : Z) (frame random : bytes) : Mgr Handled :=
  handleFromPeer (demo_identity n) (demo_epoch n) false demo_allowed demo_allowed [] 0%nat (nodeAddr (demo_identity peer)) frame random
    0 (F64.of_Z 3).

(** The last frame that a manager handed to the routing. *)
Definition demo_last_frame (s : FspSessionManager) : bytes :=
  match last (calls s) with Some (SendToward _ f) | Some (ReplyToward _ f _) => f | _ => [] end.

(** Node 5 asks for a session with node 9, which answers; both are established. *)
Definition demo_opened : FspSessionManager := Eval vm_compute in
  snd (ensure_routed (demo_identity 5) (demo_epoch 5) false demo_allowed [] (fun _ => None) (demo_name 9) (Toy.key 11) demo_manager).
Definition demo_setup : bytes := Eval vm_compute in demo_last_frame demo_opened.
Definition demo_answered : FspSessionManager := Eval vm_compute in snd (demo_handle 9 5 demo_setup (Toy.key 12) demo_manager).
Definition demo_ack : bytes := Eval vm_compute in demo_last_frame demo_answered.
Definition demo_initiator : FspSessionManager := Eval vm_compute in snd (demo_handle 5 9 demo_ack (Toy.key 11) demo_opened).
Definition demo_msg3 : bytes := Eval vm_compute in demo_last_frame demo_initiator.
Definition demo_responder : FspSessionManager := Eval vm_compute in snd (demo_handle 9 5 demo_msg3 (Toy.key 11) demo_answered).

Local Abbreviation demo_reachable n := (reachable (demo_identity n) (demo_epoch n) false demo_allowed demo_allowed).

Lemma demo_opened_reachable : demo_reachable 5 demo_opened.
Proof.
  exists demo_manager. split; [reflexivity|]. apply rtc_once. eexists _, _. split; [|].
  - apply (m_routed _ _ _ _ _ [] (fun _ => None) (demo_name 9) (Toy.key 11)).
  - vm_compute. reflexivity.
Qed.

Lemma demo_step n peer frame random s s' : snd (demo_handle n peer frame random s) = s' ->
  manager_step (demo_identity n) (demo_epoch n) false demo_allowed demo_allowed s s'.
Proof. intros <-. eexists _, _. split; [apply m_frame|reflexivity]. Qed.

Lemma demo_responder_reachable : demo_reachable 9 demo_responder.
Proof.
  exists demo_manager. split; [reflexivity|]. apply (rtc_l _ _ demo_answered); [|apply rtc_once].
  - apply (demo_step 9 5 demo_setup (Toy.key 12)). vm_compute. reflexivity.
  - apply (demo_step 9 5 demo_msg3 (Toy.key 11)). vm_compute. reflexivity.
Qed.

Lemma session_identities_witness : exists n f known pk,
  session_objects demo_responder !! 0%nat = Some n /\ fsps demo_responder !! sn_fsp n = Some f /\
  FspSession.state f = FspSession.SEstablished /\ sn_remotePubkey n = Some known /\ FspSession.remotePubkey f = Some pk /\
  same_identity known pk /\ deriveNodeAddr pk = Ok (remoteNodeAddr n).
Proof.
  destruct (session_identities (demo_identity 9) (demo_epoch 9) false demo_allowed demo_allowed demo_responder
    demo_responder_reachable) as (_ & Hn & _).
  destruct (Hn 0%nat _ eq_refl) as (_ & Hf & _).
  destruct (Hf 0%nat _ ltac:(left) eq_refl eq_refl) as (known & pk & E1 & E2 & E3 & E4 & _).
  eexists _, _, known, pk. split; [reflexivity|]. split; [reflexivity|]. split; [reflexivity|].
  exact (conj E1 (conj E2 (conj E3 E4))).
Defined.

Lemma sessions_bounded_witness : exists n,
  session_objects demo_responder !! 0%nat = Some n /\ len (earlyEstablishedRecords n) <= 16 /\
  len (missingSessionRecoveries demo_responder) <= 64.
Proof.
  destruct (sessions_bounded (demo_identity 9) (demo_epoch 9) false demo_allowed demo_allowed demo_responder
    demo_responder_reachable) as (Hn & Hl & _).
  destruct (Hn 0%nat _ eq_refl) as (Hr & _). eexists. split; [reflexivity|]. exact (conj Hr Hl).
Defined.

Lemma session_waits_end_witness : promises demo_opened !! 0%nat = Some Pending /\
  exists s', setup_timer 0 "" demo_opened = (Ok tt, s') /\ promises s' !! 0%nat = Some (Failed (Error "FSP handshake timeout")).
Proof.
  split; [reflexivity|].
  destruct (session_waits_end (demo_identity 5) (demo_epoch 5) false demo_allowed demo_allowed demo_opened
    demo_opened_reachable) as [Hp _].
  destruct (Hp 0%nat eq_refl) as (k & n & Hk & _ & _ & Ht). destruct k as [|k]; [exact (Ht "")|discriminate Hk].
Defined.
