(* ===== verification/SessionFrames.v ===== *)
(** * Frames and established sessions

    What the frames of other nodes can do to an established session, and what
    they deliver. *)

From S2P Require Import Prelude Codec Crypto Toy NodeAddr Identity Replay F64 FmpWire FspWire SessionMsg Channel Noise Reports FspSession.
From S2P Require Import DirectTransport FmpLink Peers Sessions SessionSafety SessionRuns.

(** ** A current [FspSession] that stays *)

Section Current.
Context `{Noble, !HexLaws}.
Context (hex : string) (k i : nat) (a : NodeAddr) (tx rx : option CipherState.t).

Definition fsp_current (f : FspSession.t) : Prop :=
  FspSession.state f = FspSession.SEstablished /\ fsp_wf f /\ FspSession.tx f = tx /\ FspSession.rx f = rx.

(** Session [k] is in the table, its [FspSession] [i] is established and has the
    given keys. *)
Definition current (s : FspSessionManager) : Prop :=
  session_of s hex = Some k /\ (exists n, session_objects s !! k = Some n /\ sn_fsp n = i /\ remoteNodeAddr n = a) /\
  exists f, fsps s !! i = Some f /\ fsp_current f.

Definition stays (s s' : FspSessionManager) : Prop := current s -> current s'.

#[export] Instance stays_preorder : PreOrder stays.
Proof. unfold stays. split; intros s; auto. Qed.

Lemma stays_modify g :
  (forall s, sessions (g s) = sessions s /\ session_objects (g s) = session_objects s /\ fsps (g s) = fsps s) -> respects stays (modify g).
Proof. intros Hg s. unfold stays, current, session_of. cbn. destruct (Hg s) as (-> & -> & ->). done. Qed.

Lemma stays_call c : respects stays (call c).
Proof. by apply stays_modify. Qed.

Lemma stays_alter j g : j <> k \/ (forall n, sn_fsp (g n) = sn_fsp n /\ remoteNodeAddr (g n) = remoteNodeAddr n) -> respects stays (alter_session j g).
Proof.
  intros Hg s (Hk & (n & Hn & Hi & Ha) & Hf). split; [done|]. split; [|done]. cbn. destruct (decide (j = k)) as [->|Hne].
  - destruct Hg as [|Hg]; [done|]. destruct (Hg n) as [E1 E2]. exists (g n). rewrite list_lookup_alter_eq, Hn, E1, E2. done.
  - exists n. by rewrite list_lookup_alter_ne.
Qed.

Lemma stays_close j : j <> i -> respects stays (close_fsp j).
Proof. intros Hj s (Hk & Hn & f & Hf & Hc). split; [done|]. split; [done|]. exists f. cbn. by rewrite list_lookup_alter_ne. Qed.

Lemma stays_close_opt o : o <> Some i -> respects stays (close_opt o).
Proof. intros Ho. destruct o; [apply stays_close; congruence|apply respects_ret, _]. Qed.

Lemma stays_on_fsp {A} j (m : ST FspSession.t A) : (forall f, fsp_current f -> fsp_current (snd (m f))) -> respects stays (on_fsp j m).
Proof.
  intros Hm s Hs. unfold on_fsp. destruct (fsps s !! j) as [g|] eqn:Hg; [|done]. destruct Hs as (Hk & Hn & f & Hf & Hc).
  destruct (decide (j = i)) as [->|Hne].
  - rewrite Hf in Hg. injection Hg as <-. specialize (Hm f Hc). destruct (m f) as [r f']. split; [done|]. split; [done|].
    exists f'. cbn. by rewrite list_lookup_insert_eq by (by eapply lookup_lt_Some).
  - destruct (m g) as [r g']. split; [done|]. split; [done|]. exists f. cbn. by rewrite list_lookup_insert_ne.
Qed.

Lemma stays_setup coords j fr random addr : respects stays (fsp_setup coords j fr random addr).
Proof. apply stays_on_fsp. intros f (Hs & Hw & Ht). by rewrite setup_stays. Qed.

Lemma stays_ack j fr random now : respects stays (on_fsp j (FspSession.handleSessionAck fr random now)).
Proof. apply stays_on_fsp. intros f (Hs & Hw & Ht). by rewrite ack_stays. Qed.

Lemma stays_msg3 j fr now : respects stays (on_fsp j (FspSession.handleSessionMsg3 fr now)).
Proof. apply stays_on_fsp. intros f (Hs & Hw & Ht). by rewrite msg3_stays. Qed.

Lemma stays_delete hex' : hex' <> hex -> respects stays (delete_session hex').
Proof. intros Hx s (Hk & Hn & Hf). split; [|done]. unfold session_of. cbn. by rewrite JsMap.get_delete_ne. Qed.

Lemma stays_new_fsp identity localEpoch strict ro pk : respects stays (new_fsp identity localEpoch strict ro pk).
Proof.
  unfold new_fsp. repeat respects_step. apply respects_modify. intros s (Hk & Hn & f & Hf & Hc). split; [done|]. split; [done|].
  exists f. cbn. by rewrite lookup_app_l by (by eapply lookup_lt_Some).
Qed.

Lemma stays_new_session n' hex' : hex' <> hex -> respects stays (new_session n' hex').
Proof.
  intros Hx s (Hk & (n & Hn & Hi) & Hf). rewrite insert_session_run. split; [|split; [|done]].
  - unfold session_of. cbn. by rewrite JsMap.get_set_ne.
  - exists n. cbn. by rewrite lookup_app_l by (by eapply lookup_lt_Some).
Qed.

Lemma decrypt_current {W} fr (c : option (FspReceived -> ST W unit)) f w :
  fsp_current f -> fsp_current (fst (snd (FspSession.decryptIncoming fr c (f, w)))).
Proof.
  intros Hc. destruct (fsp_decrypt_cases fr c f w) as [[e ->]|(est & pt & _ & -> & _)]; exact Hc.
Qed.

Lemma stays_receive j fr (c : FspReceived -> Mgr unit) : (forall x, respects stays (c x)) ->
  respects stays (receive_on j (FspSession.decryptIncoming fr (Some c))).
Proof.
  intros Hc s Hs. unfold receive_on. destruct (fsps s !! j) as [g|] eqn:Hg; [|done].
  pose proof (decrypt_world stays fr c g s Hc Hs) as Hw. pose proof (decrypt_current fr (Some c) g s) as Hcur.
  destruct (FspSession.decryptIncoming fr (Some c) (g, s)) as [r [g' s']]. cbn in *.
  destruct Hs as (_ & _ & f & Hf & Hfc). destruct Hw as (Hk & Hn & f1 & Hf1 & Hc1). split; [exact Hk|]. split; [exact Hn|]. cbn.
  destruct (decide (j = i)) as [->|Hne].
  - exists g'. rewrite list_lookup_insert_eq by (by eapply lookup_lt_Some). split; [done|]. apply Hcur. congruence.
  - exists f1. by rewrite list_lookup_insert_ne.
Qed.
End Current.

Ltac stays_step :=
  first [ respects_step | apply stays_call | by apply stays_modify | apply stays_setup | apply stays_ack | apply stays_msg3 | apply stays_new_fsp
    | by apply stays_alter; right; intros ? | by apply stays_alter; left ].

Section Frames.
Context `{Noble, !HexLaws}.
Context (hex : string) (k i : nat) (a : NodeAddr) (tx rx : option CipherState.t).
Local Abbreviation current := (current hex k i a tx rx).
Local Abbreviation stays := (stays hex k i a tx rx).

Lemma stays_queue j peer fr : respects stays (queueEarlyEstablishedRecord j peer fr).
Proof. unfold queueEarlyEstablishedRecord. repeat stays_step. Qed.

Lemma stays_resolve j : respects stays (resolveSessionSetup j).
Proof. unfold resolveSessionSetup, settle_promise. repeat stays_step. Qed.

Lemma stays_drain j : respects stays (drain_records j).
Proof. unfold drain_records. repeat stays_step. Qed.

Lemma stays_authenticated j peer m hex' b nowMs now x : respects stays (on_authenticated j peer m hex' b false nowMs now x).
Proof. unfold on_authenticated. repeat stays_step. Qed.

Lemma stays_recover hex' now : respects stays (recoverMissingSession hex' now).
Proof. unfold recoverMissingSession. repeat stays_step. Qed.

(** A session's other [FspSession]s are not this one. *)
Lemma other_slots allowed o s k' n' : sound_with allowed None o s -> current s -> session_objects s !! k' = Some n' ->
  pendingResponderFsp n' <> Some i /\ previous_fsp n' <> Some i /\ (k' <> k -> sn_fsp n' <> i).
Proof.
  intros So (_ & (n & Hn & Hi & _) & _) Hn'.
  pose proof (so_slots _ _ _ _ So k n i Hn) as Ho. pose proof (so_slots _ _ _ _ So k' n' i Hn') as Ho'. pose proof (so_distinct _ _ _ _ So k' n' Hn') as Hd.
  assert (Hin : i ∈ slots n) by (rewrite <- Hi; left). specialize (Ho Hin).
  assert (Hk : i ∈ slots n' -> k' = k) by (intros Hx; specialize (Ho' Hx); congruence).
  assert (Hx : i ∈ option_list (pendingResponderFsp n') ++ option_list (previous_fsp n') -> False).
  { intros Hx. assert (k' = k) as -> by (apply Hk; by right). rewrite Hn in Hn'. injection Hn' as <-.
    unfold slots in Hd. rewrite NoDup_cons, Hi in Hd. by destruct Hd. }
  repeat split.
  - intros E. apply Hx. rewrite E. cbn. left.
  - intros E. apply Hx. rewrite E. apply elem_of_app. right. cbn. left.
  - intros Hne E. apply Hne, Hk. rewrite <- E. left.
Qed.

(** ** The frames *)

Context (identity : FipsIdentity) (localEpoch : bytes) (strictClient : bool).
Context (assertPeerAllowed assertNodeAllowed : bytes -> result unit).

Lemma current_bind {A B} (m : Mgr A) (f : A -> Mgr B) s :
  current (snd (m s)) -> (forall b s', m s = (Ok b, s') -> current (snd (f b s'))) -> current (snd ((m ≫= f) s)).
Proof.
  intros Hm Hf. unfold mbind, ST_bind. destruct (m s) as [[b|e] s']; cbn [snd] in *; [by apply Hf|done].
Qed.

Lemma current_prune o k' now s :
  sound_with assertPeerAllowed None o s -> current s -> current (snd (prunePreviousFsp k' now s)).
Proof.
  intros So Hc. unfold prunePreviousFsp. rewrite ST_get_bind. destruct (session_objects s !! k') as [n'|] eqn:Hn; [|done]. cbn [mbind option_bind].
  destruct (other_slots _ _ _ _ _ So Hc Hn) as (_ & Hp & _). unfold previous_fsp in Hp.
  destruct (previousFsp n') as [[[j b] t]|]; [|done]. cbn in Hp. destruct (t >? now); [done|].
  assert (respects stays (close_fsp j;; alter_session k' (fun n => set_previous n None))) as Hr; [|by apply Hr].
  repeat first [stays_step | apply stays_close; congruence].
Qed.

Lemma current_established o peer srcHex k' fr nowMs now s :
  sound_with assertPeerAllowed None o s -> current s -> current (snd (handleEstablished assertPeerAllowed peer srcHex k' fr nowMs now s)).
Proof.
  intros So Hc. unfold handleEstablished. rewrite ST_get_bind. destruct (session_objects s !! k') as [n'|] eqn:Hn; [|done].
  destruct (fsp_state s (sn_fsp n')); try exact Hc.
  { eapply (respects_bind stays); [apply stays_queue|intros; apply respects_ret, _|exact Hc]. }
  apply current_bind; [by eapply current_prune|]. intros [] s1 E1.
  pose proof (current_prune o k' nowMs s So Hc) as Hc1. pose proof (safe_prune assertPeerAllowed None k' nowMs s o So) as S1. rewrite E1 in Hc1, S1.
  cbn [snd] in Hc1, S1. destruct (decodeFspEstablished fr) as [est|e]; [|exact Hc1]. erewrite ST_lift_bind by done. rewrite ST_get_bind.
  destruct (session_objects s1 !! k') as [n1|] eqn:Hn1; [|exact Hc1].
  destruct (choose_receiver n1 _ s1) as [j promote| |] eqn:Ech; [| |exact Hc1].
  - destruct promote; [exfalso; by eapply no_promotion|].
    match goal with |- current (snd (?m s1)) => enough (respects stays m) as Hm by apply (Hm s1 Hc1) end.
    apply respects_bind; [apply _|apply stays_receive; intros x; apply stays_authenticated|intros result]. unfold deliverDatagram. repeat stays_step.
  - match goal with |- current (snd (?m s1)) => enough (respects stays m) as Hm by apply (Hm s1 Hc1) end.
    repeat first [stays_step | apply stays_queue].
Qed.

Lemma setup_case_spec s n fr :
  match setup_case s (Some n) fr with
  | Repeated j => j ∈ slots n
  | Rekey => fsp_state s (sn_fsp n) = FspSession.SEstablished
  | Crossing j => j = sn_fsp n /\ fsp_state s j = FspSession.SHandshaking
  | Unrelated => fsp_state s (sn_fsp n) <> FspSession.SEstablished
  end.
Proof.
  unfold setup_case. destruct (pendingResponderFsp n) as [p|] eqn:Ep; [destruct (matches_setup s p fr); [by apply slots_pending|]|].
  all: destruct (matches_setup s (sn_fsp n) fr); [left|].
  all: unfold fsp_state; destruct (fsps s !! sn_fsp n) as [f|] eqn:Ef; [|done].
  all: destruct (FspSession.state f) eqn:Es, (FspSession.role f); try done; by rewrite Ef.
Qed.

Lemma current_setup o coords peer addr srcHex fr random s :
  nodeAddrToHex addr = Ok srcHex -> sound_with assertPeerAllowed None o s -> current s ->
  current (snd (handleSessionSetup identity localEpoch strictClient coords peer addr srcHex (session_of s srcHex) fr random s)).
Proof.
  intros Hx So Hc. unfold handleSessionSetup. rewrite ST_get_bind.
  match goal with |- current (snd (?m s)) => enough (respects stays m) as Hm by apply (Hm s Hc) end.
  apply respects_bind; [apply _| |intros [r|]; repeat stays_step].
  pose proof Hc as (Hk & (n & Hn & Hi & _) & f & Hf & Hs & _).
  assert (Hplain : session_of s srcHex <> Some k -> respects stays (fsp ← new_fsp identity localEpoch strictClient responder None;
    r ← fsp_setup coords fsp fr random addr; new_session (fresh_session addr None None fsp) srcHex;;
    call (EmitSession srcHex Establishing false);; mret (Some r))).
  { intros Hne. repeat first [stays_step | apply stays_new_session; congruence]. }
  destruct (session_of s srcHex) as [k'|] eqn:Ek; cbn [mbind option_bind]; [|by apply Hplain].
  destruct (so_hex _ _ _ _ So srcHex k' (JsMap.get_elem _ _ _ Ek)) as (n' & Hn' & _). rewrite Hn'.
  destruct (other_slots _ _ _ _ _ So Hc Hn') as (Hp & Hv & Hc').
  assert (Hest : k' = k -> fsp_state s (sn_fsp n') = FspSession.SEstablished).
  { intros ->. unfold fsp_state. assert (sn_fsp n' = i) as -> by congruence. by rewrite Hf. }
  pose proof (setup_case_spec s n' fr) as Ec. destruct (setup_case s (Some n') fr) as [j| |j|].
  - repeat stays_step.
  - repeat first [stays_step | apply stays_close_opt; exact Hp].
  - destruct Ec as [-> Ec]. assert (Hkk : k' <> k) by (intros E; specialize (Hest E); congruence). specialize (Hc' Hkk).
    repeat first [stays_step | apply stays_close; exact Hc' | apply stays_alter; by left].
  - apply Hplain. intros [= E]. by apply Ec, Hest.
Qed.

Lemma stays_promote_other j m b now s n' : session_objects s !! j = Some n' -> previous_fsp n' <> Some i -> j <> k ->
  stays s (snd (promotePendingSession j m b now s)).
Proof.
  intros Hn Hp Hj. unfold promotePendingSession. rewrite ST_get_bind, Hn.
  match goal with |- stays s (snd (?m s)) => enough (respects stays m) as Hm by apply Hm end.
  unfold adopt_key. repeat first [stays_step | apply stays_close_opt; exact Hp | apply stays_alter; by left].
Qed.

Lemma stays_replace_other j m s n' : session_objects s !! j = Some n' -> previous_fsp n' <> Some i -> sn_fsp n' <> i -> j <> k ->
  stays s (snd (replaceRestartedSession j m s)).
Proof.
  intros Hn Hp Hs Hj. unfold replaceRestartedSession. rewrite ST_get_bind, Hn.
  match goal with |- stays s (snd (?m s)) => enough (respects stays m) as Hm by apply Hm end.
  unfold adopt_key. repeat first [stays_step | apply stays_close_opt; exact Hp | apply stays_close; exact Hs | apply stays_alter; by left].
Qed.

Lemma stays_refuse j m srcHex e : m <> i -> srcHex <> hex -> respects stays (refuse_remote j m srcHex e).
Proof.
  intros Hm Hx. unfold refuse_remote. repeat first [stays_step | apply stays_close; exact Hm | apply stays_delete; exact Hx].
Qed.

Lemma stays_refuse_pending j m srcHex e s n : session_objects s !! j = Some n -> pendingResponderFsp n = Some m -> m <> i ->
  stays s (snd (refuse_remote j m srcHex e s)).
Proof.
  intros Hn Hp Hm Hc. unfold refuse_remote. rewrite (ST_bind_ok _ _ _ _ _ (close_fsp_eq _ _)), ST_get_bind. cbn [session_objects set_fsps].
  rewrite Hn. cbn [mbind option_bind]. rewrite decide_True by done.
  pose proof (stays_close hex k i a tx rx m Hm s Hc) as Hc1. rewrite close_fsp_eq in Hc1. cbn [snd] in Hc1.
  assert (respects stays (alter_session j (fun n => set_pending n None);; @throw FspSessionManager unit e)) as Hr; [|by apply Hr].
  repeat stays_step.
Qed.

(** The end of [handleSessionMsg3]. *)
Definition announce_session (peer : nat) (srcHex : string) (j : nat) (b : bool) : Mgr (list (nat * bytes)) :=
  call (LearnReverse srcHex peer);; s ← get;
  call (EmitSession (default srcHex (session_objects s !! j ≫= remotePubkeyHex)) Established b);; resolveSessionSetup j;; drain_records j.

Lemma stays_announce peer srcHex j b : respects stays (announce_session peer srcHex j b).
Proof. unfold announce_session. repeat first [stays_step | apply stays_resolve | apply stays_drain]. Qed.
End Frames.

Section Promoted.
Context `{Noble, !HexLaws}.

(** A promoted [FspSession] is current. *)
Lemma promoted_current hex k j a n f b now s :
  session_of s hex = Some k -> session_objects s !! k = Some n -> remoteNodeAddr n = a -> pendingResponderFsp n = Some j -> NoDup (slots n) ->
  fsps s !! j = Some f -> FspSession.state f = FspSession.SEstablished -> fsp_wf f ->
  current hex k j a (FspSession.tx f) (FspSession.rx f) (snd (promotePendingSession k j b now s)).
Proof.
  intros Hk Hn Ha Hp Hd Hf Hs Hw. unfold promotePendingSession. rewrite ST_get_bind, Hn.
  assert (Hpre : previous_fsp n <> Some j).
  { intros E. unfold slots in Hd. rewrite Hp, E in Hd. cbn in Hd. rewrite !NoDup_cons in Hd. set_solver. }
  assert (Hc : exists l, close_opt (previous_fsp n) s = (Ok tt, set_fsps s l) /\ l !! j = Some f).
  { destruct (previous_fsp n) as [m|]; [|exists (fsps s); split; [by destruct s|done]]. cbn [close_opt]. rewrite close_fsp_eq. eexists. split; [done|].
    rewrite list_lookup_alter_ne by congruence. done. }
  destruct Hc as (l & El & Hl). rewrite (ST_bind_ok _ _ _ _ _ El).
  unfold alter_session. rewrite !ST_modify_bind. cbn [session_objects set_fsps set_objects]. rewrite !alter_alter.
  match goal with |- current _ _ _ _ ?t ?r (snd (adopt_key k j ?s3)) => set (s4 := s3); assert (Hcur : current hex k j a t r s4) end.
  { split; [done|]. split; [|by exists f]. eexists. split; [cbn; by rewrite list_lookup_alter_eq, Hn|done]. }
  assert (respects (stays hex k j a (FspSession.tx f) (FspSession.rx f)) (adopt_key k j)) as Hr; [|by apply Hr].
  unfold adopt_key. repeat stays_step.
Qed.

Lemma replaced_current hex k j a n f s :
  session_of s hex = Some k -> session_objects s !! k = Some n -> remoteNodeAddr n = a -> pendingResponderFsp n = Some j -> NoDup (slots n) ->
  fsps s !! j = Some f -> FspSession.state f = FspSession.SEstablished -> fsp_wf f ->
  current hex k j a (FspSession.tx f) (FspSession.rx f) (snd (replaceRestartedSession k j s)).
Proof.
  intros Hk Hn Ha Hp Hd Hf Hs Hw. unfold replaceRestartedSession. rewrite ST_get_bind, Hn.
  assert (Hpre : previous_fsp n <> Some j /\ sn_fsp n <> j).
  { split; intros E; unfold slots in Hd; rewrite Hp, E in Hd; cbn in Hd; rewrite !NoDup_cons in Hd; set_solver. }
  destruct Hpre as [Hp1 Hp2].
  assert (Hc : exists l, close_opt (previous_fsp n) s = (Ok tt, set_fsps s l) /\ l !! j = Some f).
  { destruct (previous_fsp n) as [m|]; [|exists (fsps s); split; [by destruct s|done]]. cbn [close_opt]. rewrite close_fsp_eq. eexists. split; [done|].
    rewrite list_lookup_alter_ne by congruence. done. }
  destruct Hc as (l & El & Hl). rewrite (ST_bind_ok _ _ _ _ _ El), (ST_bind_ok _ _ _ _ _ (close_fsp_eq _ _)).
  unfold alter_session. rewrite !ST_modify_bind. cbn [session_objects set_fsps set_objects fsps]. rewrite !alter_alter.
  match goal with |- current _ _ _ _ ?t ?r (snd (adopt_key k j ?s3)) => set (s4 := s3); assert (Hcur : current hex k j a t r s4) end.
  { split; [done|]. split; [|exists f; split; [|done]].
    - eexists. split; [cbn; by rewrite list_lookup_alter_eq, Hn|done].
    - cbn. by rewrite list_lookup_alter_ne. }
  assert (respects (stays hex k j a (FspSession.tx f) (FspSession.rx f)) (adopt_key k j)) as Hr; [|by apply Hr].
  unfold adopt_key. repeat stays_step.
Qed.
End Promoted.

Lemma total_get (f : FspSessionManager -> Mgr unit) : (forall s, total (f s)) -> total (get ≫= f).
Proof. intros Hf s. rewrite ST_get_bind. apply Hf. Qed.

Lemma total_modify g : total (modify g).
Proof. intros s. by exists (g s). Qed.

Lemma total_ret : total (mret tt).
Proof. intros s. by exists s. Qed.

Ltac total_step :=
  match goal with
  | |- total (get ≫= _) => apply total_get; intros ?
  | |- total (_ ≫= _) => apply total_bind; [|intros []]
  | |- total (close_opt _) => apply total_close_opt
  | |- total (close_fsp _) => apply total_modify
  | |- total (alter_session _ _) => apply total_modify
  | |- total (mret tt) => apply total_ret
  | |- total (match ?x with _ => _ end) => destruct x
  end.

Section Msg3.
Context `{Noble, !HexLaws}.

Lemma promote_total k m b now : total (promotePendingSession k m b now).
Proof. unfold promotePendingSession, adopt_key. repeat total_step. Qed.

Lemma replace_total k m : total (replaceRestartedSession k m).
Proof. unfold replaceRestartedSession, adopt_key. repeat total_step. Qed.

Context (assertPeerAllowed : bytes -> result unit).

(** An established responder's key passes the checks again. *)
Lemma key_accepted o s k n f pk : sound_with assertPeerAllowed None o s -> session_objects s !! k = Some n -> fsps s !! sn_fsp n = Some f ->
  FspSession.state f = FspSession.SEstablished -> FspSession.role f = responder -> FspSession.remotePubkey f = Some pk ->
  check_remote assertPeerAllowed n pk (remoteNodeAddr n) = Ok tt.
Proof.
  intros So Hn Hf Hs Hr Hpk. pose proof (so_slots _ _ _ _ So k n (sn_fsp n) Hn ltac:(left)) as Ho.
  destruct (so_keys _ _ _ _ So (sn_fsp n) f k n ltac:(done) Hf Ho Hn (or_intror Hs)) as (known & pk' & E1 & E2 & E3 & E4 & E5).
  rewrite Hpk in E2. injection E2 as <-. destruct (so_wf _ _ _ _ So _ f Hf) as [_ Hw]. destruct (Hw Hr) as [_ Hl].
  pose proof (derive_compressed pk _ (Hl pk Hpk) E4) as Hc. apply check_remote_ok. split; [done|]. split; [done|].
  intros known' E. rewrite E1 in E. injection E as <-. destruct E3 as [->|E3]; [|done]. by apply sameCompressedIdentity_iff.
Qed.

(** The two ways a handshake's last message leaves a current session. *)
Lemma msg3_outcome o s hex k i a tx rx peer addr srcHex k' n' fr nowMs now :
  sound_with assertPeerAllowed None o s -> current hex k i a tx rx s -> nodeAddrToHex addr = Ok srcHex -> session_of s srcHex = Some k' ->
  session_objects s !! k' = Some n' ->
  let s' := snd (handleSessionMsg3 assertPeerAllowed peer addr srcHex k' fr nowMs now s) in
  current hex k i a tx rx s' \/
  exists j f2 f', pendingResponderFsp n' = Some j /\ k' = k /\ fsps s !! j = Some f2 /\
    FspSession.handleSessionMsg3 fr now f2 = (Ok tt, f') /\ current hex k j a (FspSession.tx f') (FspSession.rx f') s'.
Proof.
  intros So Hc Hx Hk' Hn' s'. unfold s', handleSessionMsg3. rewrite ST_get_bind, Hn'. clear s'.
  set (m := default (sn_fsp n') (pendingResponderFsp n')).
  destruct (other_slots hex k i a tx rx assertPeerAllowed o s k' n' So Hc Hn') as (Hp & Hv & Ho).
  pose proof (stays_msg3 hex k i a tx rx m fr now s Hc) as Hc1.
  destruct (on_fsp m (FspSession.handleSessionMsg3 fr now) s) as [[[]|e] s1] eqn:E1.
  2:{ rewrite (ST_bind_throw _ _ _ _ _ E1). left. exact Hc1. }
  rewrite (ST_bind_ok _ _ _ _ _ E1), ST_get_bind. cbn [snd] in Hc1.
  unfold on_fsp in E1. destruct (fsps s !! m) as [f2|] eqn:Hf2; [|done].
  destruct (FspSession.handleSessionMsg3 fr now f2) as [r f'] eqn:Em. injection E1 as -> <-.
  set (s1 := set_fsps s (<[m:=f']> (fsps s))) in *.
  assert (Hf1 : fsps s1 !! m = Some f') by (change (fsps s1) with (<[m:=f']> (fsps s)); by rewrite list_lookup_insert_eq by (by eapply lookup_lt_Some)).
  pose proof (msg3_done _ _ _ _ Em) as Hest.
  pose proof (msg3_same_role fr now f2) as [Hr Hw]. rewrite Em in Hr, Hw. cbn [snd] in Hr, Hw. specialize (Hw (so_wf _ _ _ _ So m f2 Hf2)).
  match goal with |- context [(?K ≫= _) s1] => assert (HK :
    (exists s2 n2, K s1 = (Ok tt, s2) /\ current hex k i a tx rx s2 /\ session_objects s2 !! k' = Some n2 /\ slots n2 = slots n' /\
       pendingResponderFsp n2 = pendingResponderFsp n' /\ previous_fsp n2 = previous_fsp n' /\ sn_fsp n2 = sn_fsp n' /\ remoteNodeAddr n2 = remoteNodeAddr n' /\
       fsps s2 = fsps s1 /\ sessions s2 = sessions s1) \/
    (exists e s2, K s1 = (Throw e, s2) /\ current hex k i a tx rx s2)) end.
  { rewrite Hf1. cbn [mbind option_bind]. destruct (FspSession.remotePubkey f') as [pk|] eqn:Hpk; [|left; exists s1, n'; (split; [reflexivity|]); (split; [exact Hc1|]); by repeat split].
    destruct (check_remote assertPeerAllowed n' pk addr) as [[]|e] eqn:Ec.
    - left. eexists _, (set_key n' (Some (toHex pk)) (Some pk)). split; [reflexivity|].
      split; [exact (stays_alter hex k i a tx rx k' (fun n => set_key n (Some (toHex pk)) (Some pk)) (or_intror (fun n => conj eq_refl eq_refl)) s1 Hc1)|].
      split; [|by repeat split]. cbn. by rewrite list_lookup_alter_eq, Hn'.
    - right. exists e. assert (Hthrow : forall s0, exists s2, refuse_remote k' m srcHex e s0 = (Throw e, s2)).
      { intros s0. unfold refuse_remote. rewrite (ST_bind_ok _ _ _ _ _ (close_fsp_eq _ _)), ST_get_bind. destruct (decide _); by eexists. }
      destruct (Hthrow s1) as [s2 E2]. exists s2. split; [exact E2|].
      assert (s2 = snd (refuse_remote k' m srcHex e s1)) as -> by (by rewrite E2). clear E2.
      destruct (pendingResponderFsp n') as [j|] eqn:Ep.
      + cbn in m. eapply stays_refuse_pending; [exact Hn'|exact Ep|unfold m; congruence|exact Hc1].
      + cbn in m. assert (Haddr : remoteNodeAddr n' = addr).
        { destruct (so_hex _ _ _ _ So srcHex k' (JsMap.get_elem _ _ _ Hk')) as (n1 & Hn1 & Hx1). rewrite Hn' in Hn1. injection Hn1 as <-.
          apply nodeAddrToHex_Ok in Hx as [_ ->], Hx1 as [_ E]. by apply toHex_inj. }
        assert (Hkk : k' <> k).
        { intros ->. destruct Hc as (_ & (n1 & Hn1 & Hi & _) & f1 & Hf1' & Hs1 & _). rewrite Hn' in Hn1. injection Hn1 as <-.
          assert (m = i) as Hmi by exact Hi. rewrite Hmi in Hf2. rewrite Hf1' in Hf2. injection Hf2 as ->.
          pose proof (msg3_stays fr now f2 Hs1) as Hst. rewrite Em in Hst. cbn in Hst. subst f'.
          destruct (role_responder_msg3 _ _ _ _ _ Em) as [Hrole|[_ [? [=]]]].
          rewrite <- Haddr, (key_accepted o s k n' f2 pk So Hn' ltac:(rewrite Hi; exact Hf1') Hs1 Hrole Hpk) in Ec. done. }
        apply (stays_refuse hex k i a tx rx k' m srcHex e); [by apply Ho|intros ->; destruct Hc as [Hc _]; congruence|exact Hc1]. }
  destruct HK as [(s2 & n2 & E2 & Hc2 & Hn2 & Hsl & Hp2 & Hv2 & Hi2 & Ha2 & Hfs & Hss)|(e & s2 & E2 & Hc2)];
    [|rewrite (ST_bind_throw _ _ _ _ _ E2); by left].
  rewrite (ST_bind_ok _ _ _ _ _ E2). clear E2.
  assert (Htail : forall b s3 tx rx j, current hex k j a tx rx s3 -> current hex k j a tx rx (snd (announce_session peer srcHex k' b s3))).
  { intros b s3 tx0 rx0 j. apply stays_announce. }
  destruct (pendingResponderFsp n') as [j|] eqn:Ep; cbn in m.
  2:{ rewrite bool_decide_eq_false_2 by done. rewrite (ST_bind_ok (mret tt) _ s2 tt s2 eq_refl). left. by apply Htail. }
  rewrite bool_decide_eq_true_2 by done. assert (Hrest : forall (m0 : Mgr unit) b, (exists s3, m0 s2 = (Ok tt, s3)) ->
    (k' <> k -> stays hex k i a tx rx s2 (snd (m0 s2))) ->
    (k' = k -> current hex k m a (FspSession.tx f') (FspSession.rx f') (snd (m0 s2))) ->
    current hex k i a tx rx (snd ((m0;; announce_session peer srcHex k' b) s2)) \/
    exists j0 f3 f4, Some j = Some j0 /\ k' = k /\ fsps s !! j0 = Some f3 /\ FspSession.handleSessionMsg3 fr now f3 = (Ok tt, f4) /\
      current hex k j0 a (FspSession.tx f4) (FspSession.rx f4) (snd ((m0;; announce_session peer srcHex k' b) s2))).
  { intros m0 b [s3 E3] H1 H2. rewrite (ST_bind_ok _ _ _ _ _ E3). rewrite E3 in H1, H2. cbn [snd] in H1, H2. destruct (decide (k' = k)) as [->|Hne].
    - right. exists j, f2, f'. split; [done|]. split; [done|]. split; [exact Hf2|]. split; [exact Em|]. by apply Htail, H2.
    - left. apply Htail. by apply H1. }
  assert (Hd : NoDup (slots n2)) by (rewrite Hsl; by eapply so_distinct).
  assert (Hk2 : k' = k -> session_of s2 hex = Some k /\ session_objects s2 !! k = Some n2 /\ remoteNodeAddr n2 = a).
  { intros ->. destruct Hc2 as (Hc21 & (n3 & Hn3 & _ & Ha3) & _). split; [done|]. split; [done|congruence]. }
  assert (Hv' : previous_fsp n2 <> Some i) by congruence. assert (Hf2' : fsps s2 !! m = Some f') by (by rewrite Hfs).
  destruct (restarted s1 n' m).
  - apply (Hrest (replaceRestartedSession k' m) true); [apply replace_total| |].
    + intros Hne. apply (stays_replace_other hex k i a tx rx k' m s2 n2 Hn2 Hv'); [|done]. rewrite Hi2. by apply Ho.
    + intros E. destruct (Hk2 E) as (X1 & X2 & X3). rewrite E. by apply (replaced_current hex k m a n2).
  - apply (Hrest (promotePendingSession k' m (negb (currentKBit n')) nowMs) false); [apply promote_total| |].
    + intros Hne. by apply (stays_promote_other hex k i a tx rx k' m _ _ s2 n2 Hn2 Hv').
    + intros E. destruct (Hk2 E) as (X1 & X2 & X3). rewrite E. by apply (promoted_current hex k m a n2).
Qed.
End Msg3.

Section Survival.
Context `{Noble, !HexLaws}.
Context (identity : FipsIdentity) (localEpoch : bytes) (strictClient : bool).
Context (assertPeerAllowed assertNodeAllowed : bytes -> result unit).
Local Abbreviation reachable := (reachable identity localEpoch strictClient assertPeerAllowed assertNodeAllowed).

(** C9: no frame that arrives, from whatever node and whatever its content, takes
    an established session away. After any frame in any run the session is still
    in the table for the same address, and its current [FspSession] is the one
    it was, established with the same keys, or else the pending one whose
    handshake this very frame completed. *)
Theorem established_session_survives s hex k n f coords peer addr fr random nowMs now :
  reachable s -> session_of s hex = Some k -> session_objects s !! k = Some n ->
  fsps s !! sn_fsp n = Some f -> FspSession.state f = FspSession.SEstablished ->
  let s' := snd (handleFromPeer identity localEpoch strictClient assertPeerAllowed assertNodeAllowed coords peer addr fr random nowMs now s) in
  session_of s' hex = Some k /\
  exists n' f', session_objects s' !! k = Some n' /\ remoteNodeAddr n' = remoteNodeAddr n /\
    fsps s' !! sn_fsp n' = Some f' /\ FspSession.state f' = FspSession.SEstablished /\
    ((sn_fsp n' = sn_fsp n /\ FspSession.tx f' = FspSession.tx f /\ FspSession.rx f' = FspSession.rx f) \/
     exists f2 f3, pendingResponderFsp n = Some (sn_fsp n') /\ fsps s !! sn_fsp n' = Some f2 /\
       FspSession.handleSessionMsg3 fr now f2 = (Ok tt, f3) /\ FspSession.tx f' = FspSession.tx f3 /\ FspSession.rx f' = FspSession.rx f3).
Proof.
  intros Hr Hk Hn Hf Hs s'. destruct (reachable_sound _ _ _ _ _ _ Hr) as [o So].
  assert (Hc : current hex k (sn_fsp n) (remoteNodeAddr n) (FspSession.tx f) (FspSession.rx f) s).
  { split; [done|]. split; [by exists n|]. exists f. split; [done|]. split; [done|]. split; [by eapply so_wf|done]. }
  assert (Hsame : current hex k (sn_fsp n) (remoteNodeAddr n) (FspSession.tx f) (FspSession.rx f) s' \/
    exists j f2 f', pendingResponderFsp n = Some j /\ fsps s !! j = Some f2 /\ FspSession.handleSessionMsg3 fr now f2 = (Ok tt, f') /\
      current hex k j (remoteNodeAddr n) (FspSession.tx f') (FspSession.rx f') s').
  2:{ destruct Hsame as [(Hk' & (n' & Hn' & Hi' & Ha') & f' & Hf' & Hs' & _ & Ht & Hx)|
        (j & f2 & f3 & Hp & Hf2 & Hm & (Hk' & (n' & Hn' & Hi' & Ha') & f' & Hf' & Hs' & _ & Ht & Hx))];
      (split; [exact Hk'|]); exists n', f'; rewrite Hi'; do 4 (split; [done|]); [by left|right; by exists f2, f3]. }
  unfold s', handleFromPeer.
  destruct (assertNodeAllowed addr) as [[]|]; [|by left]. erewrite ST_lift_bind by done.
  destruct (peekFspPhase fr) as [phase|]; [|by left]. erewrite ST_lift_bind by done.
  destruct (nodeAddrToHex addr) as [srcHex|] eqn:Hx; [|by left]. erewrite ST_lift_bind by done. rewrite ST_get_bind.
  assert (Hret : forall {A B} (m : Mgr A) (x : A -> B), snd ((m ≫= fun a => mret (x a)) s) = snd (m s)).
  { intros A B m x. unfold mbind, ST_bind. by destruct (m s) as [[]]. }
  destruct (phase =? FSP_PHASE_ESTABLISHED); [|destruct (phase =? 1); [|destruct (phase =? 2); [|destruct (phase =? 3); [|by left]]]].
  - left. destruct (session_of s srcHex) as [k'|] eqn:Ek.
    + rewrite (Hret _ _ _ (fun r => match r with Done => Handled_ | TraversalOffer _ _ => _ end)). by eapply current_established.
    + destruct (decodeFspEstablished fr); [|exact Hc]. erewrite ST_lift_bind by done. rewrite Hret. by apply stays_recover.
  - left. rewrite Hret. by eapply current_setup.
  - left. destruct (session_of s srcHex) as [k'|]; [|exact Hc]. rewrite Hret.
    assert (respects (stays hex k (sn_fsp n) (remoteNodeAddr n) (FspSession.tx f) (FspSession.rx f)) (handle_ack addr srcHex k' fr random now)) as Ha; [|by apply Ha].
    unfold handle_ack. repeat first [stays_step | apply stays_resolve].
  - destruct (session_of s srcHex) as [k'|] eqn:Ek; [|by left]. rewrite Hret.
    destruct (so_hex _ _ _ _ So srcHex k' (JsMap.get_elem _ _ _ Ek)) as (n' & Hn' & _).
    destruct (msg3_outcome _ o s hex k _ _ _ _ peer addr srcHex k' n' fr nowMs now So Hc Hx Ek Hn') as [Hl|(j & f2 & f' & Hp & -> & Hf2 & Hm & Hcur)];
      [by left|right]. rewrite Hn in Hn'. injection Hn' as <-. by exists j, f2, f'.
Qed.
End Survival.

(** ** What is delivered *)

(** The name under which a call hands data to the application. *)
Definition delivered_from (c : Call) : option string :=
  match c with
  | EmitDatagram src _ | EmitEndpointData src _ | CallService _ src _ | LinkNegotiation src _ => Some src
  | _ => None
  end.

(** The data of a call is what the record carried. *)
Definition carried (c : Call) (inner : FspInnerPacket) : Prop :=
  match c with
  | EmitDatagram _ d | CallService _ _ d => fi_msgType inner = FSP_MSG_DATA /\ decodeDataPacket (fi_payload inner) = Ok d
  | LinkNegotiation _ p => fi_msgType inner = FSP_MSG_DATA /\ exists d, decodeDataPacket (fi_payload inner) = Ok d /\ dp_payload d = p
  | EmitEndpointData _ p => fi_msgType inner = FSP_MSG_ENDPOINT_DATA /\ fi_payload inner = p
  | _ => False
  end.

Section Calls.
Context `{Noble, !HexLaws}.
Context (P : Call -> Prop).

(** New calls that are all of one kind. *)
Definition adds (s s' : FspSessionManager) : Prop := exists new, calls s' = calls s ++ new /\ Forall P new.

#[export] Instance adds_preorder : PreOrder adds.
Proof.
  split.
  - intros s. exists []. by rewrite app_nil_r.
  - intros s1 s2 s3 (n1 & E1 & F1) (n2 & E2 & F2). exists (n1 ++ n2). rewrite E2, E1, app_assoc. split; [done|]. by apply Forall_app.
Qed.

Lemma adds_modify g : (forall s, calls (g s) = calls s) -> respects adds (modify g).
Proof. intros Hg s. exists []. cbn. by rewrite Hg, app_nil_r. Qed.

Lemma adds_call c : P c -> respects adds (call c).
Proof. intros Hc s. exists [c]. split; [done|by constructor]. Qed.

Lemma adds_on_fsp {A} i (m : ST FspSession.t A) : respects adds (on_fsp i m).
Proof.
  intros s. unfold on_fsp. destruct (fsps s !! i) as [f|]; [|reflexivity]. destruct (m f). exists []. cbn. by rewrite app_nil_r.
Qed.
End Calls.

Ltac adds_step :=
  first [ respects_step | apply adds_call; done | apply adds_modify; done | apply adds_on_fsp ].

Section Delivery.
Context `{Noble, !HexLaws}.
Context (identity : FipsIdentity) (localEpoch : bytes) (strictClient : bool).
Context (assertPeerAllowed assertNodeAllowed : bytes -> result unit).
Local Abbreviation reachable := (reachable identity localEpoch strictClient assertPeerAllowed assertNodeAllowed).

Definition silent (c : Call) : Prop := delivered_from c = None.

Lemma silent_setup coords peer addr hex session fr random :
  respects (adds silent) (handleSessionSetup identity localEpoch strictClient coords peer addr hex session fr random).
Proof. unfold handleSessionSetup, new_fsp, new_session, fsp_setup, close_opt, close_fsp, alter_session. repeat adds_step. Qed.

Lemma silent_ack addr hex k fr random now : respects (adds silent) (handle_ack addr hex k fr random now).
Proof. unfold handle_ack, resolveSessionSetup, settle_promise, alter_session. repeat adds_step. Qed.

Lemma silent_msg3 peer addr hex k fr nowMs now : respects (adds silent) (handleSessionMsg3 assertPeerAllowed peer addr hex k fr nowMs now).
Proof.
  unfold handleSessionMsg3, refuse_remote, replaceRestartedSession, promotePendingSession, adopt_key, resolveSessionSetup, settle_promise,
    drain_records, close_opt, close_fsp, delete_session, alter_session. repeat adds_step.
Qed.

Lemma silent_recover hex now : respects (adds silent) (recoverMissingSession hex now).
Proof. unfold recoverMissingSession. repeat adds_step. Qed.

(** The record [fr] was sealed for session [n] by the node its address belongs
    to, and [src] is a key of that node. *)
Definition authentic (s : FspSessionManager) (n : Session) (fr : bytes) (c : Call) (src : string) : Prop :=
  exists i f est pt inner known pk, i ∈ slots n /\ fsps s !! i = Some f /\ FspSession.opened f fr est pt /\ decodeFspInner pt = Ok inner /\ carried c inner /\
    fromHex src = Ok known /\ deriveNodeAddr known = Ok (remoteNodeAddr n) /\
    FspSession.remotePubkey f = Some pk /\ deriveNodeAddr pk = Ok (remoteNodeAddr n) /\ same_identity known pk.

Lemma receiver_slot n b s i promote : choose_receiver n b s = ReceiveOn i promote -> i ∈ slots n.
Proof.
  unfold choose_receiver, slots, previous_fsp. case_bool_decide; [intros [= <- _]; left|].
  assert (Hp : forall j q, (match previousFsp n with Some (j, kBit, _) => if bool_decide (kBit = b) then ReceiveOn j false else WrongEpoch | None => WrongEpoch end)
     = ReceiveOn j q -> exists kb t, previousFsp n = Some (j, kb, t)).
  { intros j q. destruct (previousFsp n) as [[[x kb] t]|]; [|done]. case_bool_decide; [|done]. intros [= <- _]. by exists kb, t. }
  intros E. right. apply elem_of_app. destruct (pendingResponderFsp n) as [p|].
  - destruct (fsp_state s p); first [by apply Hp in E as (kb & t & ->); right; left | injection E as <- _; left; left | done].
  - apply Hp in E as (kb & t & ->). right. left.
Qed.

Lemma prune_run k now s n : session_objects s !! k = Some n ->
  exists s1 n1, prunePreviousFsp k now s = (Ok tt, s1) /\ session_objects s1 !! k = Some n1 /\ (forall i, i ∈ slots n1 -> i ∈ slots n) /\
    remoteNodeAddr n1 = remoteNodeAddr n /\ calls s1 = calls s /\ closed_or_same (fsps s) (fsps s1) /\
    forall i f, fsps s1 !! i = Some f -> FspSession.state f = FspSession.SEstablished -> fsps s !! i = Some f.
Proof.
  intros Hn. unfold prunePreviousFsp. rewrite ST_get_bind, Hn. cbn [mbind option_bind].
  assert (Hsame : forall P : Prop, P -> exists s1 n1, (Ok tt, s) = (Ok tt, s1) /\ session_objects s1 !! k = Some n1 /\ (forall i, i ∈ slots n1 -> i ∈ slots n) /\
    remoteNodeAddr n1 = remoteNodeAddr n /\ calls s1 = calls s /\ closed_or_same (fsps s) (fsps s1) /\
    forall i f, fsps s1 !! i = Some f -> FspSession.state f = FspSession.SEstablished -> fsps s !! i = Some f).
  { intros P _. exists s, n. repeat split; auto. intros i f. auto. }
  destruct (previousFsp n) as [[[j b] t]|] eqn:Ep; [|by apply (Hsame True)]. destruct (t >? now); [by apply (Hsame True)|].
  rewrite (ST_bind_ok _ _ _ _ _ (close_fsp_eq _ _)). eexists _, (set_previous n None). split; [reflexivity|]. cbn.
  split; [by rewrite list_lookup_alter_eq, Hn|]. split; [apply (shrinks_previous n)|]. do 2 (split; [done|]). split.
  - intros m f Hm. destruct (decide (j = m)) as [<-|Hne]; [right; by rewrite list_lookup_alter_eq, Hm|left; by rewrite list_lookup_alter_ne].
  - intros m f [(-> & g & Hg & ->)|[_ Hm]]%alter_inv Hs; [done|exact Hm].
Qed.

Lemma emitted_data result ty p : result = received_as (mkSend ty p 0 None) ->
  (forall d, (if fm_msgType result =? FSP_MSG_DATA then fm_data result else None) = Some d -> ty = FSP_MSG_DATA /\ decodeDataPacket p = Ok d) /\
  (forall d, (if fm_msgType result =? FSP_MSG_ENDPOINT_DATA then fm_endpointData result else None) = Some d -> ty = FSP_MSG_ENDPOINT_DATA /\ p = d).
Proof.
  intros ->. unfold received_as. cbn [sd_msgType sd_payload].
  destruct (Z.eqb_spec ty FSP_MSG_DATA) as [->|H1]; [|destruct (Z.eqb_spec ty FSP_MSG_ENDPOINT_DATA) as [->|H2]]; cbn [fm_msgType fm_data fm_endpointData].
  - split; [|done]. intros d. cbn. destruct (decodeDataPacket p); [|done]. by intros [= <-].
  - split; [done|]. intros d. cbn. by intros [= <-].
  - split; intros d; destruct (_ =? _); done.
Qed.

(** What the callback leaves as it is. *)
Definition addrs (s : FspSessionManager) : list NodeAddr := map remoteNodeAddr (session_objects s).

Definition same_addrs (s s' : FspSessionManager) : Prop := addrs s' = addrs s.

#[export] Instance same_addrs_preorder : PreOrder same_addrs.
Proof. unfold same_addrs. split; [done|intros a b c ? ?; congruence]. Qed.

Lemma authenticated_addrs k peer i hex b nowMs now x : respects same_addrs (on_authenticated k peer i hex b false nowMs now x).
Proof. unfold on_authenticated. repeat respects_step; intros ?; [done|]. by apply map_alter. Qed.

Lemma authenticated_silent k peer i hex b nowMs now x : respects (adds silent) (on_authenticated k peer i hex b false nowMs now x).
Proof. unfold on_authenticated, alter_session. repeat adds_step. Qed.

(** One record, received on the current or the previous [FspSession]. *)
Lemma received_delivers o s n k i fr peer hex b nowMs now result s2 f :
  sound_with assertPeerAllowed None o s -> session_objects s !! k = Some n -> i ∈ slots n -> fsps s !! i = Some f ->
  receive_on i (FspSession.decryptIncoming fr (Some (on_authenticated k peer i hex b false nowMs now))) s = (Ok result, s2) ->
  FspSession.state f = FspSession.SEstablished /\
  exists est pt inner n2 name known pk, FspSession.opened f fr est pt /\ decodeFspInner pt = Ok inner /\
    result = received_as (mkSend (fi_msgType inner) (fi_payload inner) 0 None) /\
    session_objects s2 !! k = Some n2 /\ remotePubkeyHex n2 = Some name /\ fromHex name = Ok known /\ deriveNodeAddr known = Ok (remoteNodeAddr n) /\
    FspSession.remotePubkey f = Some pk /\ deriveNodeAddr pk = Ok (remoteNodeAddr n) /\ same_identity known pk.
Proof.
  intros So Hn Hi Hf E.
  pose proof (safe_receive assertPeerAllowed None i fr _ (idle_authenticated assertPeerAllowed None k peer i hex b nowMs now) s o So) as S2.
  rewrite E in S2. cbn [snd] in S2. unfold receive_on in E. rewrite Hf in E.
  pose proof (decrypt_world same_addrs fr (on_authenticated k peer i hex b false nowMs now) f s (authenticated_addrs k peer i hex b nowMs now)) as Ha.
  destruct (decrypt_keeps fr (Some (on_authenticated k peer i hex b false nowMs now)) f s) as [(_ & Hkey & _) Hst].
  destruct (fsp_decrypt_cases fr (Some (on_authenticated k peer i hex b false nowMs now)) f s) as [[e Ee]|(est & pt & Ho & _ & Hm)];
    [by rewrite Ee in E|].
  destruct (FspSession.decryptIncoming fr _ (f, s)) as [r [f' s']]. cbn [fst snd] in *. injection E as -> <-.
  destruct (Hm result eq_refl) as (inner & Ein & Er). pose proof Ho as (_ & _ & _ & Hs & _). split; [done|].
  set (s2 := set_fsps s' (<[i:=f']> (fsps s'))) in *.
  assert (Hi2 : (i < length (fsps s'))%nat).
  { pose proof (so_len _ _ _ _ S2) as L. unfold s2 in L. cbn in L. rewrite length_insert in L.
    pose proof (so_slots _ _ _ _ So k n i Hn Hi) as Hoi. apply lookup_lt_Some in Hoi. lia. }
  assert (exists n2, session_objects s2 !! k = Some n2 /\ remoteNodeAddr n2 = remoteNodeAddr n) as (n2 & Hn2 & Ha2).
  { assert (Hx : addrs s' !! k = Some (remoteNodeAddr n)) by (rewrite Ha; unfold addrs; by rewrite list_lookup_fmap, Hn).
    unfold addrs in Hx. rewrite list_lookup_fmap in Hx. change (session_objects s2) with (session_objects s').
    destruct (session_objects s' !! k) as [n2|]; [|done]. injection Hx as Hx. by exists n2. }
  assert (Hf2 : fsps s2 !! i = Some f') by (change (fsps s2) with (<[i:=f']> (fsps s')); by rewrite list_lookup_insert_eq).
  destruct (so_keys _ _ _ _ S2 i f' k n2 ltac:(done) Hf2 (so_slots _ _ _ _ So k n i Hn Hi) Hn2) as (known & pk & E1 & E2 & E3 & E4 & _);
    [right; congruence|].
  destruct (so_named _ _ _ _ S2 k n2 known Hn2 E1) as [[E5 _] (name & E6 & E7)].
  exists est, pt, inner, n2, name, known, pk. rewrite <- Ha2. do 7 (split; [done|]). split; [congruence|]. done.
Qed.

Lemma established_delivers o s peer hex k fr nowMs now n :
  sound_with assertPeerAllowed None o s -> session_objects s !! k = Some n ->
  adds (fun c => forall src, delivered_from c = Some src -> authentic s n fr c src) s
    (snd (handleEstablished assertPeerAllowed peer hex k fr nowMs now s)).
Proof.
  intros So Hn. set (P := fun c => forall src, delivered_from c = Some src -> authentic s n fr c src).
  assert (Hsil : forall c, silent c -> P c) by (intros c Hc src E; unfold silent in Hc; congruence).
  assert (Hq : forall s0, adds P s0 (snd ((queueEarlyEstablishedRecord k peer fr;; mret Done) s0))).
  { intros s0. revert s0. change (respects (adds P) (queueEarlyEstablishedRecord k peer fr;; mret Done)).
    unfold queueEarlyEstablishedRecord, alter_session. repeat adds_step. }
  unfold handleEstablished. rewrite ST_get_bind, Hn. destruct (fsp_state s (sn_fsp n)); try reflexivity; [apply Hq|].
  destruct (prune_run k nowMs s n Hn) as (s1 & n1 & E1 & Hn1 & Hsl & Ha1 & Hc1 & _ & Hback). rewrite (ST_bind_ok _ _ _ _ _ E1).
  pose proof (safe_prune assertPeerAllowed None k nowMs s o So) as S1. rewrite E1 in S1. cbn [snd] in S1.
  assert (Hp1 : adds P s s1) by (exists []; by rewrite Hc1, app_nil_r). etransitivity; [exact Hp1|].
  destruct (decodeFspEstablished fr) as [est|e]; [|reflexivity]. erewrite ST_lift_bind by done. rewrite ST_get_bind, Hn1.
  destruct (choose_receiver n1 _ s1) as [i promote| |] eqn:Ech; [|apply Hq|reflexivity].
  destruct promote; [exfalso; by eapply no_promotion|]. pose proof (receiver_slot _ _ _ _ _ Ech) as Hi.
  match goal with |- context [(receive_on i (FspSession.decryptIncoming fr (Some ?cb)) ≫= _) s1] => set (cb0 := cb);
    destruct (receive_on i (FspSession.decryptIncoming fr (Some cb0)) s1) as [r s2] eqn:Er end.
  assert (H12 : adds P s1 s2).
  { unfold receive_on in Er. destruct (fsps s1 !! i) as [f|]; [|injection Er as _ <-; reflexivity].
    pose proof (decrypt_world (adds silent) fr cb0 f s1 (authenticated_silent _ _ _ _ _ _ _)) as (new & En & Fn).
    destruct (FspSession.decryptIncoming fr (Some cb0) (f, s1)) as [r0 [f0 s0]]. injection Er as _ <-. exists new. split; [exact En|].
    by eapply Forall_impl. }
  destruct r as [result|e]; [|rewrite (ST_bind_throw _ _ _ _ _ Er); exact H12]. rewrite (ST_bind_ok _ _ _ _ _ Er). etransitivity; [exact H12|].
  destruct (fsps s1 !! i) as [f|] eqn:Hf; [|by unfold receive_on in Er; rewrite Hf in Er].
  destruct (received_delivers o s1 n1 k i fr peer hex _ nowMs now result s2 f S1 Hn1 Hi Hf Er) as
    (Hst & est' & pt & inner & n2 & name & known & pk & D1 & D2 & D3 & D4 & D5 & D6 & D7 & D8 & D9 & D10).
  assert (Hauth : forall c, carried c inner -> authentic s n fr c name).
  { intros c Hcar. exists i, f, est', pt, inner, known, pk. rewrite <- Ha1. split; [by apply Hsl|]. split; [by apply Hback|]. done. }
  destruct (emitted_data _ _ _ D3) as [Hdata Hend].
  rewrite ST_get_bind, D4. cbn [mbind option_bind]. rewrite D5. cbn [default].
  assert (Htail : respects (adds P) (
    (match (if fm_msgType result =? FSP_MSG_DATA then fm_data result else None) with Some d => deliverDatagram name d | None => mret tt end);;
    (match (if fm_msgType result =? FSP_MSG_ENDPOINT_DATA then fm_endpointData result else None) with
     | Some payload => call (EmitEndpointData name payload) | None => mret tt end);; mret Done)).
  { apply respects_bind; [apply _| |intros _; apply respects_bind; [apply _| |intros _; apply respects_ret, _]].
    - destruct (if fm_msgType result =? FSP_MSG_DATA then _ else _) as [d|]; [|apply respects_ret, _]. destruct (Hdata d eq_refl) as [Ht Hd].
      unfold deliverDatagram. repeat first [respects_step | apply adds_call; intros src [= <-]; apply Hauth; cbn; eauto].
    - destruct (if fm_msgType result =? FSP_MSG_ENDPOINT_DATA then _ else _) as [d|]; [|apply respects_ret, _]. destruct (Hend d eq_refl) as [Ht Hd].
      apply adds_call. intros src [= <-]. by apply Hauth. }
  destruct (if fm_msgType result =? FSP_MSG_TRAVERSAL_OFFER then _ else _) as [x|]; [|apply Htail].
  destruct (fsps s2 !! i ≫= FspSession.remotePubkey) as [y|]; [|apply Htail].
  assert (respects (adds P) (lift (assertPeerAllowed y);; @mret (ST FspSessionManager) _ _ (TraversalOffer y x))) as Hl; [|apply Hl]. repeat adds_step.
Qed.

(** C10: whatever arrives, data reaches the application (an event, a service or a
    link negotiation) only out of a record that a session's [FspSession] opened:
    the record is sealed under that session's receive key, the data is what it
    carries, the frame claims the address of that session, and both the name the
    data is delivered under and the key the session authenticated derive to that
    address. The same holds for records that were kept until a handshake ended. *)
Theorem session_delivery_authentic s : reachable s ->
  (forall coords peer addr fr random nowMs now,
     let s' := snd (handleFromPeer identity localEpoch strictClient assertPeerAllowed assertNodeAllowed coords peer addr fr random nowMs now s) in
     exists new, calls s' = calls s ++ new /\ forall c src, c ∈ new -> delivered_from c = Some src ->
       exists hex k n, nodeAddrToHex addr = Ok hex /\ session_of s hex = Some k /\ session_objects s !! k = Some n /\ remoteNodeAddr n = addr /\
         authentic s n fr c src) /\
  (forall hex k n record nowMs now, session_objects s !! k = Some n ->
     let s' := snd (drain_record assertPeerAllowed hex k record nowMs now s) in
     exists new, calls s' = calls s ++ new /\ forall c src, c ∈ new -> delivered_from c = Some src -> authentic s n (snd record) c src).
Proof.
  intros Hr. destruct (reachable_sound _ _ _ _ _ _ Hr) as [o So].
  assert (Hsil : forall s s' (Q : Call -> string -> Prop), adds silent s s' ->
    exists new, calls s' = calls s ++ new /\ forall c src, c ∈ new -> delivered_from c = Some src -> Q c src).
  { intros s0 s' Q (new & E & F). exists new. split; [done|]. intros c src Hc Hd. rewrite Forall_forall in F. specialize (F c Hc). unfold silent in F. congruence. }
  assert (Hnone : forall Q : Call -> string -> Prop, exists new, calls s = calls s ++ new /\ forall c src, c ∈ new -> delivered_from c = Some src -> Q c src).
  { intros Q. apply Hsil. reflexivity. }
  split.
  - intros coords peer addr fr random nowMs now. unfold handleFromPeer.
    destruct (assertNodeAllowed addr) as [[]|]; [|apply Hnone]. erewrite ST_lift_bind by done.
    destruct (peekFspPhase fr) as [phase|]; [|apply Hnone]. erewrite ST_lift_bind by done.
    destruct (nodeAddrToHex addr) as [hex|] eqn:Hx; [|apply Hnone]. erewrite ST_lift_bind by done. rewrite ST_get_bind.
    assert (Hret : forall {A B} (m : Mgr A) (x : A -> B), snd ((m ≫= fun a => mret (x a)) s) = snd (m s)).
    { intros A B m x. unfold mbind, ST_bind. by destruct (m s) as [[]]. }
    destruct (phase =? FSP_PHASE_ESTABLISHED); [|destruct (phase =? 1); [|destruct (phase =? 2); [|destruct (phase =? 3); [|apply Hnone]]]].
    + destruct (session_of s hex) as [k|] eqn:Ek.
      * rewrite (Hret _ _ _ (fun r => match r with Done => Handled_ | TraversalOffer _ _ => _ end)).
        destruct (so_hex _ _ _ _ So hex k (JsMap.get_elem _ _ _ Ek)) as (n & Hn & Hnx).
        destruct (established_delivers o s peer hex k fr nowMs now n So Hn) as (new & E & F). exists new. split; [exact E|].
        intros c src Hc Hd. rewrite Forall_forall in F. exists hex, k, n. do 3 (split; [done|]). split; [|by apply (F c Hc)].
        apply nodeAddrToHex_Ok in Hx as [_ ->], Hnx as [_ E2]. by apply toHex_inj.
      * apply Hsil. destruct (decodeFspEstablished fr); [|reflexivity]. erewrite ST_lift_bind by done. rewrite Hret. apply silent_recover.
    + apply Hsil. rewrite Hret. apply silent_setup.
    + destruct (session_of s hex) as [k|]; [|apply Hnone]. apply Hsil. rewrite Hret. apply silent_ack.
    + destruct (session_of s hex) as [k|]; [|apply Hnone]. apply Hsil. rewrite Hret. apply silent_msg3.
  - intros hex k n record nowMs now Hn. unfold drain_record, try_catch.
    destruct (established_delivers o s (fst record) hex k (snd record) nowMs now n So Hn) as (new & E & F).
    exists new. split; [by destruct (handleEstablished _ _ _ _ _ _ _ _) as [[]]|].
    intros c src Hc Hd. rewrite Forall_forall in F. by apply (F c Hc).
Qed.
End Delivery.

(** ** Examples *)

#[local] Existing Instances Toy.noble Toy.hash_laws Toy.aead_laws Toy.dh_laws Toy.schnorr_laws Toy.hex_laws.

(** Data that node 5 seals for node 9, and a second setup of node 5. *)
Definition demo_record : bytes := Eval vm_compute in
  match fst (on_fsp 0 (FspSession.encryptMessage FSP_MSG_ENDPOINT_DATA [x01; x02] 0 None (F64.of_Z 4)) demo_initiator) with
  | Ok f => f
  | Throw _ => []
  end.
Definition demo_rekey : bytes := Eval vm_compute in
  demo_last_frame (snd (ensure_routed (demo_identity 5) (demo_epoch 6) false demo_allowed [] (fun _ => None) (demo_name 9) (Toy.key 13) demo_manager)).

Lemma established_session_survives_witness :
  let s' := snd (demo_handle 9 5 demo_rekey (Toy.key 14) demo_responder) in
  exists n f n', session_objects demo_responder !! 0%nat = Some n /\ fsps demo_responder !! sn_fsp n = Some f /\
    FspSession.state f = FspSession.SEstablished /\ session_objects s' !! 0%nat = Some n' /\ sn_fsp n' = sn_fsp n /\
    pendingResponderFsp n' = Some 1%nat.
Proof.
  destruct (session_objects demo_responder !! 0%nat) as [n|] eqn:En; [|discriminate En].
  destruct (fsps demo_responder !! sn_fsp n) as [f|] eqn:Ef; [|injection En as <-; discriminate Ef].
  destruct (established_session_survives (demo_identity 9) (demo_epoch 9) false demo_allowed demo_allowed demo_responder
    (fst (default ("", 0%nat) (head (sessions demo_responder)))) 0%nat n f [] 0%nat (nodeAddr (demo_identity 5)) demo_rekey (Toy.key 14) 0 (F64.of_Z 3)
    demo_responder_reachable eq_refl En Ef ltac:(injection En as <-; injection Ef as <-; reflexivity)) as (_ & n' & f' & En' & _ & _ & _ & Hc).
  exists n, f, n'. split; [reflexivity|]. split; [exact Ef|]. split; [injection En as <-; injection Ef as <-; reflexivity|].
  split; [exact En'|]. split.
  - destruct Hc as [(Hc & _)|(f2 & f3 & Hp & _)]; [exact Hc|]. injection En as <-. discriminate Hp.
  - clear - En'. vm_compute in En'. injection En' as <-. reflexivity.
Defined.

Lemma session_delivery_authentic_witness :
  exists new c n, calls (snd (demo_handle 9 5 demo_record [] demo_responder)) = calls demo_responder ++ new /\ c ∈ new /\
    delivered_from c = Some (demo_name 5) /\ authentic demo_responder n demo_record c (demo_name 5).
Proof.
  destruct (proj1 (session_delivery_authentic (demo_identity 9) (demo_epoch 9) false demo_allowed demo_allowed demo_responder
    demo_responder_reachable) [] 0%nat (nodeAddr (demo_identity 5)) demo_record [] 0 (F64.of_Z 3)) as (new & E & F).
  assert (En : new = [LearnReverse (toHex (nodeAddr (demo_identity 5))) 0; EmitEndpointData (demo_name 5) [x01; x02]]).
  { apply (app_inv_head (calls demo_responder)). rewrite <- E. vm_compute. reflexivity. }
  destruct (F (EmitEndpointData (demo_name 5) [x01; x02]) (demo_name 5)) as (hex & k & n & _ & _ & _ & _ & A);
    [rewrite En; right; left|reflexivity|].
  exists new, (EmitEndpointData (demo_name 5) [x01; x02]), n. split; [exact E|]. split; [rewrite En; right; left|]. split; [reflexivity|exact A].
Defined.
