(* ===== verification/SessionSetup.v ===== *)
(** * Two managers establish a session

    The manager of one node opens a session, the manager of the other answers,
    and both are told that it is established, also when both open it at once. *)

From S2P Require Import Prelude Codec Crypto Toy NodeAddr Identity Replay F64 FmpWire FspWire SessionMsg Channel Noise Reports FspSession.
From S2P Require Import DirectTransport FmpLink Peers Sessions SessionSafety SessionRuns SessionFrames.

Lemma alter_end {A} (f : A -> A) (l : list A) x : alter f (length l) (l ++ [x]) = l ++ [f x].
Proof. induction l as [|y l IH]; cbn; [done|]. by f_equal. Qed.

Lemma insert_end {A} (l : list A) x y : <[length l:=y]> (l ++ [x]) = l ++ [y].
Proof. induction l as [|z l IH]; cbn; [done|]. by f_equal. Qed.

Lemma lookup_end {A} (l : list A) x : (l ++ [x]) !! length l = Some x.
Proof. induction l as [|z l IH]; cbn; done. Qed.

Section Steps.
Context `{Noble, !HexLaws}.
Context (identity : FipsIdentity) (localEpoch : bytes) (strictClient : bool).
Context (assertPeerAllowed assertNodeAllowed : bytes -> result unit).
Context (coords : list NodeAddr).

Lemma new_fsp_adds ro pk s f : FspSession.new identity pk ro None (Some localEpoch) (Some strictClient) = Ok f ->
  new_fsp identity localEpoch strictClient ro pk s = (Ok (length (fsps s)), set_fsps s (fsps s ++ [f])).
Proof. intros E. unfold new_fsp. erewrite ST_lift_bind by exact E. by rewrite ST_get_bind, ST_modify_bind. Qed.

Lemma on_fsp_runs {A} i (m : ST FspSession.t A) s f r f' : fsps s !! i = Some f -> m f = (r, f') ->
  on_fsp i m s = (r, set_fsps s (<[i:=f']> (fsps s))).
Proof. intros Hf E. unfold on_fsp. by rewrite Hf, E. Qed.

Lemma on_new_runs {A} (m : ST FspSession.t A) s f r f' : m f = (r, f') ->
  on_fsp (length (fsps s)) m (set_fsps s (fsps s ++ [f])) = (r, set_fsps s (fsps s ++ [f'])).
Proof. intros E. rewrite (on_fsp_runs _ _ _ f r f') by (try exact E; apply lookup_end). cbn. by rewrite insert_end. Qed.

Lemma call_run c (s : FspSessionManager) : call c s = (Ok tt, set_calls s (calls s ++ [c])).
Proof. reflexivity. Qed.

(** ** Opening *)

(** The session under [hex], whose only [FspSession] is [f]. *)
Definition session_with (s : FspSessionManager) (hex : string) (k : nat) (n : Session) (f : FspSession.t) : Prop :=
  session_of s hex = Some k /\ session_objects s !! k = Some n /\ fsps s !! sn_fsp n = Some f /\
  pendingResponderFsp n = None /\ earlyEstablishedRecords n = [].

Lemma opens known key pk addr hex random s f0 f1 setup :
  ensure_names assertPeerAllowed key = Ok (pk, addr, hex) -> session_of s hex = None ->
  FspSession.new identity (Some pk) initiator None (Some localEpoch) (Some strictClient) = Ok f0 ->
  FspSession.buildSessionSetup random (AddrPath coords) (AddrPath (default [addr] (known hex))) f0 = (Ok setup, f1) ->
  exists s' k n p,
    ensure_routed identity localEpoch strictClient assertPeerAllowed coords known key random s = (Ok (Initiating k (sn_fsp n) p setup), s') /\
    session_with s' hex k n f1 /\ setupPromise n = Some p /\ promises s' !! p = Some Pending /\ remotePubkeyHex n = Some key /\
    sn_remotePubkey n = Some pk /\ calls s' = calls s ++ [EmitSession key Establishing false; SendToward addr setup].
Proof.
  intros En Hk Ef Eb. unfold ensure_routed. erewrite ST_lift_bind by exact En. cbv beta iota.
  assert (Ee : ensured hex s = (Ok NoSession, s)) by (unfold ensured; by rewrite ST_get_bind, Hk).
  rewrite (ST_bind_ok _ _ _ _ _ Ee), (ST_bind_ok _ _ _ _ _ (new_fsp_adds _ _ _ _ Ef)).
  rewrite (ST_bind_ok _ _ _ _ _ (insert_session_run _ _ _)). rewrite (ST_bind_ok _ _ _ _ _ (call_run _ _)).
  set (k := length (session_objects s)). set (i := length (fsps s)). cbn [session_objects set_fsps].
  change (length (session_objects s)) with k. set (p := length (promises s)).
  set (n := fresh_session addr (Some key) (Some pk) i).
  match goal with |- exists s' k0 n0 p0, (waitForSessionSetup k ≫= _) ?s1 = _ /\ _ => set (s1' := s1) end.
  assert (Ew : waitForSessionSetup k s1' = (Ok p, set_objects (set_promises s1' (promises s ++ [Pending])) (session_objects s ++ [set_setup n (Some p)]))).
  { unfold waitForSessionSetup. rewrite ST_get_bind. change (session_objects s1' !! k) with ((session_objects s ++ [n]) !! k). unfold k.
    rewrite lookup_end. cbn [setupPromise n fresh_session]. unfold alter_session. rewrite !ST_modify_bind. unfold mret, ST_ret. do 2 f_equal.
    cbn. by rewrite alter_end. }
  rewrite (ST_bind_ok _ _ _ _ _ Ew).
  assert (Eo : forall s2, fsps s2 = fsps s ++ [f0] -> on_fsp i (FspSession.buildSessionSetup random (AddrPath coords) (AddrPath (default [addr] (known hex)))) s2 =
    (Ok setup, set_fsps s2 (fsps s ++ [f1]))).
  { intros s2 E2. unfold on_fsp. rewrite E2. unfold i. by rewrite lookup_end, Eb, insert_end. }
  erewrite ST_bind_ok by (apply Eo; reflexivity). rewrite (ST_bind_ok _ _ _ _ _ (call_run _ _)).
  eexists _, k, (set_setup n (Some p)), p. split; [reflexivity|]. split; [|split; [done|]; split; [apply lookup_end|]; split; [done|]; split; [done|]; cbn; by rewrite <- app_assoc].
  split; [unfold session_of; cbn; apply JsMap.get_set_eq|]. split; [apply lookup_end|]. split; [apply lookup_end|done].
Qed.

(** ** Answering *)

Local Abbreviation from_peer := (handleFromPeer identity localEpoch strictClient assertPeerAllowed assertNodeAllowed coords).

Lemma from_peer_phase peer addr hex fr random nowMs now phase s :
  assertNodeAllowed addr = Ok tt -> nodeAddrToHex addr = Ok hex -> peekFspPhase fr = Ok phase -> phase <> 0 ->
  from_peer peer addr fr random nowMs now s =
    (if phase =? 1 then handleSessionSetup identity localEpoch strictClient coords peer addr hex (session_of s hex) fr random;; mret Handled_
     else if phase =? 2 then
       match session_of s hex with
       | None => throw (Error "FSP msg2 with no session")
       | Some k => handle_ack addr hex k fr random now;; mret Handled_
       end
     else if phase =? 3 then
       match session_of s hex with
       | None => throw (Error "FSP msg3 with no session")
       | Some k => records ← handleSessionMsg3 assertPeerAllowed peer addr hex k fr nowMs now; mret (DrainRecords k records)
       end
     else throw (Error "unknown FSP phase")) s.
Proof.
  intros Ha Hx Hp Hne. unfold handleFromPeer. erewrite ST_lift_bind by exact Ha. erewrite ST_lift_bind by exact Hp.
  erewrite ST_lift_bind by exact Hx. rewrite ST_get_bind. cbv zeta. destruct (Z.eqb_spec phase FSP_PHASE_ESTABLISHED); [done|reflexivity].
Qed.

Lemma answers peer addr hex fr random nowMs now s r0 ack r1 :
  assertNodeAllowed addr = Ok tt -> nodeAddrToHex addr = Ok hex -> peekFspPhase fr = Ok 1 -> session_of s hex = None ->
  FspSession.new identity None responder None (Some localEpoch) (Some strictClient) = Ok r0 ->
  FspSession.handleSessionSetup fr random (AddrPath coords) (Some addr) r0 = (Ok ack, r1) ->
  exists s' k n, from_peer peer addr fr random nowMs now s = (Ok Handled_, s') /\ session_with s' hex k n r1 /\
    sn_remotePubkey n = None /\ setupPromise n = None /\ promises s' = promises s /\
    calls s' = calls s ++ [EmitSession hex Establishing false; ReplyToward addr ack peer].
Proof.
  intros Ha Hx Hp Hk Ef Es. rewrite (from_peer_phase _ _ _ _ _ _ _ _ _ Ha Hx Hp ltac:(done)), Hk. cbn [Z.eqb Pos.eqb].
  unfold handleSessionSetup. cbn [mbind option_bind]. 
  match goal with |- context [(?m ≫= _) s] => assert (E : exists s', m s = (Ok tt, s') /\
    session_with s' hex (length (session_objects s)) (fresh_session addr None None (length (fsps s))) r1 /\ promises s' = promises s /\
    calls s' = calls s ++ [EmitSession hex Establishing false; ReplyToward addr ack peer]) end.
  { rewrite ST_get_bind. cbn [setup_case]. rewrite ST_bind_assoc. st_step (new_fsp_adds responder None s r0 Ef).
    rewrite ST_bind_assoc. unfold fsp_setup. erewrite ST_bind_ok by (apply on_new_runs, Es).
    rewrite ST_bind_assoc, (ST_bind_ok _ _ _ _ _ (insert_session_run _ _ _)), ST_bind_assoc, (ST_bind_ok _ _ _ _ _ (call_run _ _)).
    eexists. split; [reflexivity|]. split; [|split; [done|cbn; by rewrite <- app_assoc]].
    split; [unfold session_of; cbn; apply JsMap.get_set_eq|]. split; [cbn; apply lookup_end|]. split; [cbn; apply lookup_end|done]. }
  destruct E as (s' & E & Hs & Hq & Hc). rewrite (ST_bind_ok _ _ _ _ _ E). by eexists s', _, _.
Qed.

(** A setup that crosses one's own: its sender gives way, or is not heard. *)
Lemma crosses peer addr hex fr random nowMs now s k n f o :
  assertNodeAllowed addr = Ok tt -> nodeAddrToHex addr = Ok hex -> peekFspPhase fr = Ok 1 ->
  session_with s hex k n f -> FspSession.role f = initiator -> FspSession.state f = FspSession.SHandshaking ->
  FspSession.receivedSessionSetup f = None -> compareNodeAddr (nodeAddr identity) addr = Ok o ->
  (o < 0 -> from_peer peer addr fr random nowMs now s = (Ok Handled_, s)) /\
  (0 < o -> forall r0 ack r1,
    FspSession.new identity None responder None (Some localEpoch) (Some strictClient) = Ok r0 ->
    FspSession.handleSessionSetup fr random (AddrPath coords) (Some addr) r0 = (Ok ack, r1) ->
    exists s' n', from_peer peer addr fr random nowMs now s = (Ok Handled_, s') /\ session_with s' hex k n' r1 /\
      sn_remotePubkey n' = sn_remotePubkey n /\ setupPromise n' = setupPromise n /\ promises s' = promises s /\
      calls s' = calls s ++ [ReplyToward addr ack peer]).
Proof.
  intros Ha Hx Hp (Hk & Hn & Hf & Hpd & He) Hr Hs Hrs Ho.
  rewrite (from_peer_phase _ _ _ _ _ _ _ _ _ Ha Hx Hp ltac:(done)), Hk. cbn [Z.eqb Pos.eqb].
  unfold handleSessionSetup. rewrite ST_bind_assoc, ST_get_bind. cbn [mbind option_bind]. rewrite Hn. 
  assert (Ec : setup_case s (Some n) fr = Crossing (sn_fsp n)).
  { unfold setup_case, matches_setup. rewrite Hpd, Hf, Hs, Hr. unfold FspSession.matchesSessionSetup. by rewrite Hrs. }
  rewrite Ec, !ST_bind_assoc. erewrite ST_lift_bind by exact Ho. split; intros Hlt.
  - destruct (Z.ltb_spec o 0); [|lia]. reflexivity.
  - intros r0 ack r1 Ef Es. destruct (Z.ltb_spec o 0); [lia|]. rewrite ST_bind_assoc, ST_pass by (by apply Z.eqb_neq; lia).
    rewrite ST_bind_assoc, (ST_bind_ok _ _ _ _ _ (close_fsp_eq _ _)). set (s1 := set_fsps s _).
    rewrite ST_bind_assoc. st_step (new_fsp_adds responder None s1 r0 Ef). rewrite ST_bind_assoc. unfold fsp_setup.
    erewrite ST_bind_ok by (apply on_new_runs, Es). unfold alter_session. rewrite ST_bind_assoc, ST_modify_bind.
    eexists _, (set_fsp n (length (fsps s1))). split; [reflexivity|]. split; [|done].
    split; [done|]. split; [cbn; by rewrite list_lookup_alter_eq, Hn|]. split; [cbn; apply lookup_end|done].
Qed.

(** ** Completion *)

Lemma resolve_runs k s n : session_objects s !! k = Some n ->
  exists s', resolveSessionSetup k s = (Ok tt, s') /\ sessions s' = sessions s /\ fsps s' = fsps s /\ calls s' = calls s /\
    session_objects s' !! k = Some (set_setup n None) /\
    (forall p, setupPromise n = Some p -> promises s !! p = Some Pending -> promises s' !! p = Some Fulfilled).
Proof.
  intros Hn. unfold resolveSessionSetup. rewrite ST_get_bind, Hn. unfold alter_session. rewrite ST_modify_bind.
  cbn [mbind option_bind]. destruct (setupPromise n) as [p|]; cbn [settle_promise].
  - eexists. split; [reflexivity|]. do 3 (split; [done|]). split; [cbn; by rewrite list_lookup_alter_eq, Hn|].
    intros q [= <-] Hq. cbn. by rewrite list_lookup_alter_eq, Hq.
  - eexists. split; [reflexivity|]. do 3 (split; [done|]). split; [cbn; by rewrite list_lookup_alter_eq, Hn|done].
Qed.

Lemma accepts peer addr hex fr random nowMs now s k n f msg3 f' key :
  assertNodeAllowed addr = Ok tt -> nodeAddrToHex addr = Ok hex -> peekFspPhase fr = Ok 2 ->
  session_with s hex k n f -> remotePubkeyHex n = Some key -> FspSession.state f = FspSession.SHandshaking ->
  FspSession.handleSessionAck fr random now f = (Ok msg3, f') ->
  exists s' n', from_peer peer addr fr random nowMs now s = (Ok Handled_, s') /\ session_with s' hex k n' f' /\
    (forall p, setupPromise n = Some p -> promises s !! p = Some Pending -> promises s' !! p = Some Fulfilled) /\
    calls s' = calls s ++ [EmitSession key Established false; SendToward addr msg3].
Proof.
  intros Ha Hx Hp (Hk & Hn & Hf & Hpd & He) Hkey Hs Hm.
  rewrite (from_peer_phase _ _ _ _ _ _ _ _ _ Ha Hx Hp ltac:(done)), Hk. cbn [Z.eqb Pos.eqb].
  unfold handle_ack. rewrite ST_bind_assoc, ST_get_bind, Hn, ST_bind_assoc, (ST_bind_ok _ _ _ _ _ (on_fsp_runs _ _ _ _ _ _ Hf Hm)).
  unfold fsp_state. rewrite Hf, Hs, !ST_bind_assoc, (ST_bind_ok _ _ _ _ _ (call_run _ _)).
  set (s1 := set_calls _ _). destruct (resolve_runs k s1 n) as (s2 & E2 & Hss & Hfs & Hc & Hn2 & Hpr); [done|].
  rewrite (ST_bind_ok _ _ _ _ _ E2), (ST_bind_ok _ _ _ _ _ (call_run _ _)).
  eexists _, _. split; [reflexivity|]. split.
  - split; [unfold session_of; cbn; by rewrite Hss|]. split; [cbn; exact Hn2|]. split; [|done]. cbn. rewrite Hfs. cbn.
    apply list_lookup_insert_eq. by eapply lookup_lt_Some.
  - split; [exact Hpr|]. cbn. rewrite Hc. cbn. by rewrite Hkey, <- app_assoc.
Qed.

Lemma completes peer addr hex fr random nowMs now s k n f f' pk :
  assertNodeAllowed addr = Ok tt -> nodeAddrToHex addr = Ok hex -> peekFspPhase fr = Ok 3 -> session_with s hex k n f ->
  FspSession.handleSessionMsg3 fr now f = (Ok tt, f') -> FspSession.remotePubkey f' = Some pk ->
  check_remote assertPeerAllowed n pk addr = Ok tt ->
  exists s' n', from_peer peer addr fr random nowMs now s = (Ok (DrainRecords k []), s') /\ session_with s' hex k n' f' /\
    sn_remotePubkey n' = Some pk /\
    (forall p, setupPromise n = Some p -> promises s !! p = Some Pending -> promises s' !! p = Some Fulfilled) /\
    calls s' = calls s ++ [LearnReverse hex peer; EmitSession (toHex pk) Established false].
Proof.
  intros Ha Hx Hp (Hk & Hn & Hf & Hpd & He) Hm Hpk Hck.
  rewrite (from_peer_phase _ _ _ _ _ _ _ _ _ Ha Hx Hp ltac:(done)), Hk. cbn [Z.eqb Pos.eqb].
  unfold handleSessionMsg3. rewrite ST_bind_assoc, ST_get_bind, Hn, Hpd. cbn [default]. rewrite ST_bind_assoc, (ST_bind_ok _ _ _ _ _ (on_fsp_runs _ _ _ _ _ _ Hf Hm)).
  rewrite ST_bind_assoc, ST_get_bind. cbn [fsps set_fsps]. rewrite list_lookup_insert_eq by (by eapply lookup_lt_Some).
  cbn [mbind option_bind]. rewrite Hpk, Hck. unfold restarted. rewrite Hpd, bool_decide_eq_false_2 by done.
  unfold alter_session. rewrite ST_bind_assoc, ST_modify_bind, ST_bind_assoc. rewrite (ST_bind_ok (mret tt) _ _ tt _ eq_refl).
  rewrite ST_bind_assoc, (ST_bind_ok _ _ _ _ _ (call_run _ _)), ST_bind_assoc, ST_get_bind.
  set (n1 := set_key n (Some (toHex pk)) (Some pk)).
  assert (Hn1 : alter (fun n0 => set_key n0 (Some (toHex pk)) (Some pk)) k (session_objects s) !! k = Some n1) by (by rewrite list_lookup_alter_eq, Hn).
  cbn [session_objects set_calls set_objects set_fsps]. rewrite Hn1. cbn [mbind option_bind remotePubkeyHex n1 set_key default].
  rewrite ST_bind_assoc, (ST_bind_ok _ _ _ _ _ (call_run _ _)). set (s1 := set_calls _ _).
  destruct (resolve_runs k s1 n1) as (s2 & E2 & Hss & Hfs & Hc & Hn2 & Hpr); [exact Hn1|].
  rewrite ST_bind_assoc, (ST_bind_ok _ _ _ _ _ E2).
  assert (Ed : drain_records k s2 = (Ok [], set_objects s2 (alter (fun n0 => set_early n0 [] 0) k (session_objects s2)))).
  { unfold drain_records. rewrite ST_get_bind, Hn2. cbn [earlyEstablishedRecords set_setup n1 set_key]. by rewrite He. }
  rewrite (ST_bind_ok _ _ _ _ _ Ed). eexists _, _. split; [reflexivity|]. split.
  - split; [unfold session_of; cbn; by rewrite Hss|]. split; [cbn; rewrite list_lookup_alter_eq, Hn2; reflexivity|].
    split; [|done]. cbn. rewrite Hfs. cbn. apply list_lookup_insert_eq. by eapply lookup_lt_Some.
  - split; [done|]. split; [exact Hpr|]. cbn. rewrite Hc. cbn. by rewrite <- app_assoc.
Qed.
End Steps.

(** ** Both ends *)

Section Pair.
Context `{Noble, !HashLaws, !AeadLaws, !DhLaws, !HexLaws}.

(** The setups, acknowledgements and last messages of an honest handshake carry
    the phases by which managers tell them apart. *)
Lemma setup_phase m b : decodeSessionSetup b = Ok m -> peekFspPhase b = Ok 1.
Proof. exact (framed_peek 1 setup_layout ss_flags decodeSessionSetup ltac:(lia) decodeSessionSetup_Ok m b). Qed.

Lemma ack_phase b : is_ok (decodeSessionAck b) = true -> peekFspPhase b = Ok 2.
Proof.
  destruct (decodeSessionAck b) as [m|] eqn:E; [intros _|done].
  exact (framed_peek 2 setup_layout ss_flags decodeSessionAck ltac:(lia) decodeSessionAck_Ok m b E).
Qed.

Lemma msg3_phase b : is_ok (decodeSessionMsg3 b) = true -> peekFspPhase b = Ok 3.
Proof.
  destruct (decodeSessionMsg3 b) as [m|] eqn:E; [intros _|done].
  exact (framed_peek 3 msg3_layout m3_flags decodeSessionMsg3 ltac:(lia) decodeSessionMsg3_Ok m b E).
Qed.

Lemma same_x_compressed id k : identity_wf id -> same_x k (publicKey id) -> sameCompressedIdentity k (publicKey id) = true.
Proof.
  intros Hid Hk. pose proof (len_getPublicKey _ _ (proj1 (proj2 Hid))) as Hl.
  pose proof (derive_compressed _ _ Hl (derive_peer id _ Hid (or_introl eq_refl))) as Hp.
  assert (Hlk : len k = 33). { destruct Hk as [-> | ->]; [done|]. unfold len in *. cbn [length]. rewrite length_drop. lia. }
  pose proof (derive_compressed _ _ Hlk (derive_peer id _ Hid Hk)) as Hc.
  apply (proj2 (sameCompressedIdentity_iff (fun _ => Ok tt) _ _)). split; [done|]. split; [done|]. by destruct Hk as [-> | ->].
Qed.

(** Two nodes with their configurations; [keyA] and [keyB] are the names under
    which their users ask for a session with the other. *)
Context (idA idB : FipsIdentity) (epA epB : bytes) (stA stB : bool).
Context (peerA nodeA peerB nodeB : bytes -> result unit) (coordsA coordsB : list NodeAddr).
Context (knownA knownB : string -> option (list NodeAddr)).
Context (keyA keyB hexA hexB : string) (kA kB : bytes) (randA randB : bytes).
Context (WA : identity_wf idA) (WB : identity_wf idB) (LA : len epA = 8) (LB : len epB = 8).
Context (RA : is_ok (NoiseHandshake.genKeyPair None randA) = true) (RB : is_ok (NoiseHandshake.genKeyPair None randB) = true).
Context (CA : coords_ok (normalizeCoords (AddrPath coordsA))) (CB : coords_ok (normalizeCoords (AddrPath coordsB))).
Context (EB : ensure_names peerA keyB = Ok (kB, nodeAddr idB, hexB)) (XB : same_x kB (publicKey idB)).
Context (DB : coords_ok (normalizeCoords (AddrPath (default [nodeAddr idB] (knownA hexB))))).
Context (HA : nodeAddrToHex (nodeAddr idA) = Ok hexA).
Context (NA : nodeA (nodeAddr idB) = Ok tt) (NB : nodeB (nodeAddr idA) = Ok tt) (PB : peerB (publicKey idA) = Ok tt).

Local Abbreviation ensureA := (ensure_routed idA epA stA peerA coordsA knownA keyB randA).
Local Abbreviation frameA := (handleFromPeer idA epA stA peerA nodeA coordsA).
Local Abbreviation frameB := (handleFromPeer idB epB stB peerB nodeB coordsB).

Lemma hex_of_B : nodeAddrToHex (nodeAddr idB) = Ok hexB.
Proof. revert EB. unfold ensure_names. intros E. result_inv. congruence. Qed.

(** What both ends have when the exchange is over. *)
Definition joined (sA sB : FspSessionManager) (p : nat) : Prop :=
  exists k nA fA l nB fB k1 k2,
    session_with sA hexB k nA fA /\ session_with sB hexA l nB fB /\ sn_remotePubkey nB = Some (publicKey idA) /\
    FspSession.can_send k1 fA /\ FspSession.can_receive k1 fB /\ FspSession.can_send k2 fB /\ FspSession.can_receive k2 fA /\
    promises sA !! p = Some Fulfilled.

(** C7: a node asks for a session with another, which has none for it: the first
    sends a setup; the second answers it, announces that a session is being
    established and stays so; the first then is established, its waiting caller
    is released, and the last message goes out; with it the second is
    established, knows whom it talks to by the authenticated key, and learns
    the route back. Both hold the two keys in opposite directions. *)
Theorem managers_establish sA sB pa pb rand3 ms1 ms2 ms3 now1 now2 now3 :
  session_of sA hexB = None -> session_of sB hexA = None ->
  exists k i p setup ack msg3 l sA1 sB1 sA2 sB2,
    ensureA sA = (Ok (Initiating k i p setup), sA1) /\
    frameB pb (nodeAddr idA) setup randB ms1 now1 sB = (Ok Handled_, sB1) /\
    frameA pa (nodeAddr idB) ack randA ms2 now2 sA1 = (Ok Handled_, sA2) /\
    frameB pb (nodeAddr idA) msg3 rand3 ms3 now3 sB1 = (Ok (DrainRecords l []), sB2) /\
    joined sA2 sB2 p /\
    calls sA2 = calls sA ++ [EmitSession keyB Establishing false; SendToward (nodeAddr idB) setup;
                             EmitSession keyB Established false; SendToward (nodeAddr idB) msg3] /\
    calls sB2 = calls sB ++ [EmitSession hexA Establishing false; ReplyToward (nodeAddr idA) ack pb;
                             LearnReverse hexA pb; EmitSession (toHex (publicKey idA)) Established false].
Proof.
  intros HsA HsB.
  destruct (fsp_establish_run idA idB kB epA epB None None randA randB now2 now3 stA stB (AddrPath coordsA)
    (AddrPath (default [nodeAddr idB] (knownA hexB))) (AddrPath coordsB) (Some (nodeAddr idA))) as
    (i0 & r0 & setup & i1 & ack & r1 & msg3 & i & r & kI & kR & noise & (Ri & Si & _ & Pa & P3) & Ni & Nr & B1 & B2 & B3 & B4 &
     S1 & V1 & S2 & V2 & _ & _ & _ & _ & Hpk & _ & _ & Dx & _); [done..|intros a [= <-]; by eapply len_deriveNodeAddr, WA|].
  destruct (opens idA epA stA peerA coordsA knownA keyB kB (nodeAddr idB) hexB randA sA i0 i1 setup) as
    (sA1 & k & nA & p & E1 & O1 & Hp & Hpr & Hkey & _ & C1); [done..|].
  destruct (answers idB epB stB peerB nodeB coordsB pb (nodeAddr idA) hexA setup randB ms1 now1 sB r0 ack r1) as
    (sB1 & l & nB & E2 & O2 & Hnk & _ & _ & C2); [done|done|by eapply setup_phase|done..|].
  destruct (accepts idA epA stA peerA nodeA coordsA pa (nodeAddr idB) hexB ack randA ms2 now2 sA1 k nA i1 msg3 i keyB) as
    (sA2 & nA2 & E3 & O3 & Hf & C3); [done|exact hex_of_B|by apply ack_phase|done..|].
  destruct (completes idB epB stB peerB nodeB coordsB pb (nodeAddr idA) hexA msg3 rand3 ms3 now3 sB1 l nB r1 r (publicKey idA)) as
    (sB2 & nB2 & E4 & O4 & Hk4 & _ & C4); [done|done|by apply msg3_phase|done..| |].
  { apply check_remote_ok. split; [apply (derive_peer idA); [done|by left]|]. split; [done|]. by rewrite Hnk. }
  exists k, (sn_fsp nA), p, setup, ack, msg3, l, sA1, sB1, sA2, sB2. do 4 (split; [done|]). split; [|split].
  - exists k, nA2, i, l, nB2, r, kI, kR. do 7 (split; [done|]). by apply Hf.
  - by rewrite C3, C1, <- app_assoc.
  - by rewrite C4, C2, <- app_assoc.
Qed.

Context (EA : ensure_names peerB keyA = Ok (kA, nodeAddr idA, hexA)) (XA : same_x kA (publicKey idA)).
Context (DA : coords_ok (normalizeCoords (AddrPath (default [nodeAddr idA] (knownB hexA))))).
Local Abbreviation ensureB := (ensure_routed idB epB stB peerB coordsB knownB keyA randB).

(** C8: both nodes ask for a session with each other at once, and their setups
    cross. The node with the smaller address does not hear the other's setup;
    the other gives its own up and answers instead. One session comes about,
    with matching keys, and the callers that wait at either end are released. *)
Theorem crossing_setups_agree sA sB o pa pb rand0 randR rand3 ms0 ms1 ms2 ms3 now0 now1 now2 now3 :
  session_of sA hexB = None -> session_of sB hexA = None -> 
  compareNodeAddr (nodeAddr idA) (nodeAddr idB) = Ok o -> o < 0 -> is_ok (NoiseHandshake.genKeyPair None randR) = true ->
  exists k i p setup l j q crossed ack msg3 sA1 sB1 sB2 sA2 sB3,
    ensureA sA = (Ok (Initiating k i p setup), sA1) /\
    ensureB sB = (Ok (Initiating l j q crossed), sB1) /\
    frameA pa (nodeAddr idB) crossed rand0 ms0 now0 sA1 = (Ok Handled_, sA1) /\
    frameB pb (nodeAddr idA) setup randR ms1 now1 sB1 = (Ok Handled_, sB2) /\
    frameA pa (nodeAddr idB) ack randA ms2 now2 sA1 = (Ok Handled_, sA2) /\
    frameB pb (nodeAddr idA) msg3 rand3 ms3 now3 sB2 = (Ok (DrainRecords l []), sB3) /\
    joined sA2 sB3 p /\ promises sB3 !! q = Some Fulfilled /\
    calls sB3 = calls sB ++ [EmitSession keyA Establishing false; SendToward (nodeAddr idA) crossed; ReplyToward (nodeAddr idA) ack pb;
                             LearnReverse hexA pb; EmitSession (toHex (publicKey idA)) Established false].
Proof.
  intros HsA HsB Ho Hlt RR.
  destruct (fsp_establish_run idA idB kB epA epB None None randA randR now2 now3 stA stB (AddrPath coordsA)
    (AddrPath (default [nodeAddr idB] (knownA hexB))) (AddrPath coordsB) (Some (nodeAddr idA))) as
    (i0 & r0 & setup & i1 & ack & r1 & msg3 & i & r & kI & kR & noise & (Ri & Si & Ui & Pa & P3) & Ni & Nr & B1 & B2 & B3 & B4 &
     S1 & V1 & S2 & V2 & _ & _ & _ & _ & Hpk & _ & _ & Dx & _); [done..|intros a [= <-]; by eapply len_deriveNodeAddr, WA|].
  destruct (fsp_establish_run idB idA kA epB epA None None randB randA now2 now3 stB stA (AddrPath coordsB)
    (AddrPath (default [nodeAddr idA] (knownB hexA))) (AddrPath coordsA) (Some (nodeAddr idB))) as
    (j0 & ? & crossed & j1 & ? & ? & ? & ? & ? & ? & ? & noise' & (Rj & Sj & Uj & _) & Nj & _ & D1 & _ & _ & _ &
     _ & _ & _ & _ & _ & _ & _ & _ & _ & _ & _ & Dy & _); [done..|intros a [= <-]; by eapply len_deriveNodeAddr, WB|].
  destruct (opens idA epA stA peerA coordsA knownA keyB kB (nodeAddr idB) hexB randA sA i0 i1 setup) as
    (sA1 & k & nA & p & E1 & O1 & Hp & Hpr & Hkey & _ & C1); [done..|].
  destruct (opens idB epB stB peerB coordsB knownB keyA kA (nodeAddr idA) hexA randB sB j0 j1 crossed) as
    (sB1 & l & nB & q & E1' & O1' & Hq & Hqr & _ & Hnk & C1'); [done..|].
  destruct (crosses idA epA stA peerA nodeA coordsA pa (nodeAddr idB) hexB crossed rand0 ms0 now0 sA1 k nA i1 o) as [E0 _];
    [done|exact hex_of_B|by eapply setup_phase|done..|].
  assert (Ho' : exists o', compareNodeAddr (nodeAddr idB) (nodeAddr idA) = Ok o' /\ 0 < o').
  { apply compareNodeAddr_Ok in Ho as (L1 & L2 & ->). eexists. split; [by apply compareNodeAddr_Ok|lia]. }
  destruct Ho' as (o' & Ho' & Hgt).
  destruct (crosses idB epB stB peerB nodeB coordsB pb (nodeAddr idA) hexA setup randR ms1 now1 sB1 l nB j1 o') as [_ E2];
    [done|done|by eapply setup_phase|done..|].
  destruct (E2 Hgt r0 ack r1 Nr B2) as (sB2 & nB2 & E2' & O2 & Hk2 & Hs2 & Hpr2 & C2).
  destruct (accepts idA epA stA peerA nodeA coordsA pa (nodeAddr idB) hexB ack randA ms2 now2 sA1 k nA i1 msg3 i keyB) as
    (sA2 & nA2 & E3 & O3 & Hf & C3); [done|exact hex_of_B|by apply ack_phase|done..|].
  destruct (completes idB epB stB peerB nodeB coordsB pb (nodeAddr idA) hexA msg3 rand3 ms3 now3 sB2 l nB2 r1 r (publicKey idA)) as
    (sB3 & nB3 & E4 & O4 & Hk4 & Hf4 & C4); [done|done|by apply msg3_phase|done..| |].
  { apply check_remote_ok. split; [apply (derive_peer idA); [done|by left]|]. split; [done|].
    rewrite Hk2, Hnk. intros ? [= <-]. by apply same_x_compressed. }
  exists k, (sn_fsp nA), p, setup, l, (sn_fsp nB), q, crossed, ack, msg3, sA1, sB1, sB2, sA2, sB3.
  do 2 (split; [done|]). split; [by apply E0|]. do 3 (split; [done|]). split; [|split].
  - exists k, nA2, i, l, nB3, r, kI, kR. do 7 (split; [done|]). by apply Hf.
  - apply Hf4; [by rewrite Hs2|by rewrite Hpr2].
  - by rewrite C4, C2, C1', <- !app_assoc.
Qed.
End Pair.

(** ** Examples *)

#[local] Existing Instances Toy.noble Toy.hash_laws Toy.aead_laws Toy.dh_laws Toy.schnorr_laws Toy.hex_laws.

Local Abbreviation demo_hex n := (toHex (nodeAddr (demo_identity n))).

(** The configurations of the two demonstration nodes satisfy what the theorems
    ask of them. *)
Ltac demo_configuration :=
  first [ apply demo_identity_wf; vm_compute; reflexivity | vm_compute; reflexivity | left; reflexivity
        | split; [vm_compute; discriminate|repeat constructor] ].

Lemma managers_establish_witness : exists sA sB p,
  joined (demo_identity 5) (demo_hex 5) (demo_hex 9) sA sB p /\
  fst (ensure_routed (demo_identity 5) (demo_epoch 5) false demo_allowed [] (fun _ => None) (demo_name 9) (Toy.key 11) demo_manager)
    = Ok (Initiating 0 0 0 demo_setup).
Proof.
  destruct (managers_establish (demo_identity 5) (demo_identity 9) (demo_epoch 5) (demo_epoch 9) false false
    demo_allowed demo_allowed demo_allowed demo_allowed [] [] (fun _ => None) (demo_name 9) (demo_hex 5) (demo_hex 9)
    (publicKey (demo_identity 9)) (Toy.key 11) (Toy.key 12))
    with (sA := demo_manager) (sB := demo_manager) (pa := 0%nat) (pb := 0%nat) (rand3 := Toy.key 12) (ms1 := 0) (ms2 := 0) (ms3 := 0)
      (now1 := F64.of_Z 3) (now2 := F64.of_Z 3) (now3 := F64.of_Z 3)
    as (k & i & p & setup & ack & msg3 & l & sA1 & sB1 & sA2 & sB2 & _ & _ & _ & _ & J & _); [demo_configuration..|].
  exists sA2, sB2, p. split; [exact J|]. vm_compute. reflexivity.
Defined.

Lemma crossing_setups_agree_witness : exists sA sB p q,
  joined (demo_identity 5) (demo_hex 5) (demo_hex 9) sA sB p /\ promises sB !! q = Some Fulfilled.
Proof.
  destruct (crossing_setups_agree (demo_identity 5) (demo_identity 9) (demo_epoch 5) (demo_epoch 9) false false
    demo_allowed demo_allowed demo_allowed demo_allowed [] [] (fun _ => None) (fun _ => None) (demo_name 5) (demo_name 9)
    (demo_hex 5) (demo_hex 9) (publicKey (demo_identity 5)) (publicKey (demo_identity 9)) (Toy.key 11) (Toy.key 12))
    with (sA := demo_manager) (sB := demo_manager) (o := -1) (pa := 0%nat) (pb := 0%nat) (rand0 := Toy.key 12) (randR := Toy.key 13)
      (rand3 := Toy.key 12) (ms0 := 0) (ms1 := 0) (ms2 := 0) (ms3 := 0)
      (now0 := F64.of_Z 3) (now1 := F64.of_Z 3) (now2 := F64.of_Z 3) (now3 := F64.of_Z 3)
    as (k & i & p & setup & l & j & q & crossed & ack & msg3 & sA1 & sB1 & sB2 & sA2 & sB3 & _ & _ & _ & _ & _ & _ & J & F & _);
    [demo_configuration..|].
  exists sA2, sB3, p, q. exact (conj J F).
Defined.
