(* ===== verification/Adjacency.v ===== *)
(** * The adjacent peers of a node

    The part of [node/FipsNode.ts] that keeps the carriers of a node: the tables
    of peers, the numbers of links, connections that are opened and lost, and
    what is sent on a link. [node/FipsNode.ts] shares its tables with
    [node/FmpTransportPacketProcessor.ts], so the state of both is one record.
    Peers, links, handshakes and confirmations are objects in stores; the calls
    of the routing, of the session manager and of the carriers and the events
    that are emitted are recorded in order. *)

From S2P Require Import Prelude Codec Crypto Toy NodeAddr Identity F64 Noise Link FmpWire FmpLink DirectTransport Discovery Peers.

Inductive PeerState := Connected | Disconnected.

Inductive NodeCall :=
| EmitPeer (remotePubkey : string) (remoteAddr : TransportAddress) (state : PeerState)
| EmitError (err : js_error) (where_ : string)
| Transmit (transport : Transport) (remoteAddr : TransportAddress) (packet : bytes)
| ScheduleTreeAnnounce (peer : nat)
| HandleLinkMessage (peer : nat) (msgType : Z) (payload : bytes)
| ReplayPendingLookups (peer : nat)
| RemovePeer (peerNodeAddr : NodeAddr)
| HandleFromPeer (peer : nat) (srcNodeAddr : NodeAddr) (packet : bytes)
| ClosePeerSessions (remotePubkeyHex : string)
| HandlePeerRestart (remotePubkeyHex : string) (preserveTransport : Transport).

(** The promise of an [outgoingHandshake], and its [confirmCarrier]: the number
    of the [confirmOutgoingHandshake] that set it. *)
Inductive Settled := HsWaiting | HsResolved | HsRejected (e : js_error).
Record Handshake := mkHandshake { settled : Settled; confirmCarrier : option nat }.

(** The variables of a [confirmOutgoingHandshake]. *)
Record Confirmation := mkConfirmation {
  cf_peer : nat;
  cf_link : nat;
  cf_handshake : nat;
  cf_remoteAddr : TransportAddress;
  confirmationSent : bool;
  confirmationReceived : bool;
}.

Record Node := mkNode {
  nd_peers : list (string * nat);
  peersByPubkey : list (string * nat);
  peersByNodeAddr : list (string * nat);
  nd_responders : Responders;
  handshakes : list Handshake;
  confirmations : list Confirmation;
  reassembler : DirectFspTransportReassembler;
  remoteEpochHistory : list (string * list string);
  pendingReports : list nat;
  nextFmpSessionIdx : Z;
  nd_calls : list NodeCall;
}.

Section Stores.
Context (s : Node).
Let upd_all ps pk na rs hs cf hist rep idx cs := mkNode ps pk na rs hs cf (reassembler s) hist rep idx cs.
Definition set_nd_peers x := upd_all x (peersByPubkey s) (peersByNodeAddr s) (nd_responders s) (handshakes s) (confirmations s)
  (remoteEpochHistory s) (pendingReports s) (nextFmpSessionIdx s) (nd_calls s).
Definition set_byPubkey x := upd_all (nd_peers s) x (peersByNodeAddr s) (nd_responders s) (handshakes s) (confirmations s)
  (remoteEpochHistory s) (pendingReports s) (nextFmpSessionIdx s) (nd_calls s).
Definition set_byNodeAddr x := upd_all (nd_peers s) (peersByPubkey s) x (nd_responders s) (handshakes s) (confirmations s)
  (remoteEpochHistory s) (pendingReports s) (nextFmpSessionIdx s) (nd_calls s).
Definition set_responders x := upd_all (nd_peers s) (peersByPubkey s) (peersByNodeAddr s) x (handshakes s) (confirmations s)
  (remoteEpochHistory s) (pendingReports s) (nextFmpSessionIdx s) (nd_calls s).
Definition set_handshakes x := upd_all (nd_peers s) (peersByPubkey s) (peersByNodeAddr s) (nd_responders s) x (confirmations s)
  (remoteEpochHistory s) (pendingReports s) (nextFmpSessionIdx s) (nd_calls s).
Definition set_confirmations x := upd_all (nd_peers s) (peersByPubkey s) (peersByNodeAddr s) (nd_responders s) (handshakes s) x
  (remoteEpochHistory s) (pendingReports s) (nextFmpSessionIdx s) (nd_calls s).
Definition set_history x := upd_all (nd_peers s) (peersByPubkey s) (peersByNodeAddr s) (nd_responders s) (handshakes s)
  (confirmations s) x (pendingReports s) (nextFmpSessionIdx s) (nd_calls s).
Definition set_pendingReports x := upd_all (nd_peers s) (peersByPubkey s) (peersByNodeAddr s) (nd_responders s) (handshakes s)
  (confirmations s) (remoteEpochHistory s) x (nextFmpSessionIdx s) (nd_calls s).
Definition set_nextIdx x := upd_all (nd_peers s) (peersByPubkey s) (peersByNodeAddr s) (nd_responders s) (handshakes s)
  (confirmations s) (remoteEpochHistory s) (pendingReports s) x (nd_calls s).
Definition set_nd_calls x := upd_all (nd_peers s) (peersByPubkey s) (peersByNodeAddr s) (nd_responders s) (handshakes s)
  (confirmations s) (remoteEpochHistory s) (pendingReports s) (nextFmpSessionIdx s) x.
Definition set_reassembler x := mkNode (nd_peers s) (peersByPubkey s) (peersByNodeAddr s) (nd_responders s) (handshakes s)
  (confirmations s) x (remoteEpochHistory s) (pendingReports s) (nextFmpSessionIdx s) (nd_calls s).
End Stores.

(** The store of peers, and that of links. *)
Definition peer_objects (s : Node) : list AdjacentPeer := peers (nd_responders s).
Definition link_objects (s : Node) : list FmpLink := links (nd_responders s).

Definition set_peer_objects (s : Node) (x : list AdjacentPeer) : Node :=
  set_responders s (mkResponders (pending (nd_responders s)) x (link_objects s) []).
Definition set_link_objects (s : Node) (x : list FmpLink) : Node :=
  set_responders s (mkResponders (pending (nd_responders s)) (peer_objects s) x []).

(** Stores into a peer. *)
Section PeerStores.
Context (p : AdjacentPeer).
Let upd_all pk hex l ab ta fa role supp only outf hk := mkPeer pk hex (ap_remoteAddr p) (ap_transport p) l (pendingResponderLink p)
  (drainingResponderLinks p) ab ta fa supp only role (inboundFilter p) (inboundFilterSequence p) outf hk.
Definition set_identity pk hex := upd_all pk hex (ap_link p) (abandonedInitiatorSessionIdx p) (treeAnnounced p) (filterAnnounced p)
  (routingRoleSequence p) (clientSupported p) (clientOnly p) (outboundFilter p) (outgoingHandshake p).
Definition set_ap_link l := upd_all (ap_pubkey p) (ap_pubkeyHex p) l (abandonedInitiatorSessionIdx p) (treeAnnounced p) (filterAnnounced p)
  (routingRoleSequence p) (clientSupported p) (clientOnly p) (outboundFilter p) (outgoingHandshake p).
Definition set_abandoned x := upd_all (ap_pubkey p) (ap_pubkeyHex p) (ap_link p) x (treeAnnounced p) (filterAnnounced p)
  (routingRoleSequence p) (clientSupported p) (clientOnly p) (outboundFilter p) (outgoingHandshake p).
Definition set_outgoing x := upd_all (ap_pubkey p) (ap_pubkeyHex p) (ap_link p) (abandonedInitiatorSessionIdx p) (treeAnnounced p)
  (filterAnnounced p) (routingRoleSequence p) (clientSupported p) (clientOnly p) (outboundFilter p) x.
(** [treeAnnounced], [filterAnnounced], the role and [outboundFilter] *)
Definition unannounced := upd_all (ap_pubkey p) (ap_pubkeyHex p) (ap_link p) (abandonedInitiatorSessionIdx p) false false
  None false false None (outgoingHandshake p).
End PeerStores.

(** [{ pubkey, pubkeyHex, remoteAddr, transport, link }] *)
Definition fresh_peer (pubkey : bytes) (hex : string) (addr : TransportAddress) (transport : Transport) (link : nat) : AdjacentPeer :=
  mkPeer pubkey hex addr transport link None None None false false false false None None None None None.

Abbreviation ND := (ST Node).

(** ** Access to the stores *)

Definition nd_call (c : NodeCall) : ND unit := modify (fun s => set_nd_calls s (nd_calls s ++ [c])).

Definition undefined_object {A} : ND A := throw (TypeError "Cannot read properties of undefined").

Definition peer_at (i : nat) : ND AdjacentPeer :=
  s ← get; match peer_objects s !! i with Some p => mret p | None => undefined_object end.

Definition link_at (l : nat) : ND FmpLink :=
  s ← get; match link_objects s !! l with Some l => mret l | None => undefined_object end.

Definition alter_nd_peer (i : nat) (f : AdjacentPeer -> AdjacentPeer) : ND unit :=
  modify (fun s => set_peer_objects s (alter f i (peer_objects s))).

Definition new_peer (p : AdjacentPeer) : ND nat :=
  s ← get; modify (fun s => set_peer_objects s (peer_objects s ++ [p]));; mret (length (peer_objects s)).

Definition on_link {A} (l : nat) (m : ST FmpLink A) : ND A := fun s =>
  match link_objects s !! l with
  | None => (Throw (TypeError "Cannot read properties of undefined"), s)
  | Some x => let '(r, x') := m x in (r, set_link_objects s (<[l:=x']> (link_objects s)))
  end.

Definition close_at (l : nat) : ND unit := modify (fun s => set_link_objects s (close_link l (link_objects s))).

(** [link.state === "established"] *)
Definition is_up (s : Node) (l : nat) : bool := bool_decide (link_state (link_objects s) l = LEstablished).
Definition link_up (l : nat) : ND bool := s ← get; mret (is_up s l).

(** [handshake.resolve()] and [handshake.reject(e)]: a promise settles once. *)
Definition settle (x : Settled) (h : Handshake) : Handshake :=
  match settled h with HsWaiting => mkHandshake x (confirmCarrier h) | _ => h end.
Definition settle_handshake (h : option nat) (x : Settled) : ND unit :=
  match h with
  | Some h => modify (fun s => set_handshakes s (alter (settle x) h (handshakes s)))
  | None => mret tt
  end.

Section Node.
Context `{Noble}.
(** The configuration, the admission policy, and what the routing answers when
    it is asked for a route. *)
Context (identity : FipsIdentity) (assertPeerAllowed assertNodeAllowed : bytes -> result unit) (hasUsableRoute : string -> bool).

(** ** The tables of peers *)

Definition delete_peer (key : string) : ND unit := modify (fun s => set_nd_peers s (JsMap.delete_ (nd_peers s) key)).
Definition put_peer (key : string) (i : nat) : ND unit := modify (fun s => set_nd_peers s (JsMap.set_ (nd_peers s) key i)).

Definition rememberPeer (i : nat) : ND unit :=
  p ← peer_at i;
  if (len (ap_pubkey p) =? 0) || bool_decide (ap_pubkeyHex p = ""%string) then mret tt else
  modify (fun s => set_byPubkey s (JsMap.set_ (peersByPubkey s) (ap_pubkeyHex p) i));;
  addr ← lift (deriveNodeAddr (ap_pubkey p));
  hex ← lift (nodeAddrToHex addr);
  modify (fun s => set_byNodeAddr s (JsMap.set_ (peersByNodeAddr s) hex i)).

(** Another carrier of the identity of the peer [i]. *)
Definition is_alternate (s : Node) (i : nat) (pubkey : bytes) (j : nat) : bool :=
  negb (bool_decide (j = i))
  && match peer_objects s !! j with
     | Some c => sameCompressedIdentity (ap_pubkey c) pubkey
                 && (is_up s (ap_link c) || negb (bool_decide (outgoingHandshake c = None))
                     || negb (bool_decide (pendingResponderLink c = None)))
     | None => false
     end.

Definition is_carrier (s : Node) (j : nat) : bool :=
  match peer_objects s !! j with
  | Some c => is_up s (ap_link c) && bool_decide (outgoingHandshake c = None)
  | None => false
  end.

(** The loop over [peersByPubkey]. *)
Definition retarget (i : nat) (alternate : option nat) (m : list (string * nat)) : list (string * nat) :=
  foldl (fun m e => if decide (snd e = i)
                    then match alternate with Some j => JsMap.set_ m (fst e) j | None => JsMap.delete_ m (fst e) end
                    else m) m m.

Definition unindex_addr (i : nat) (hex : string) : ND unit :=
  s ← get;
  if decide (JsMap.get_ (peersByNodeAddr s) hex = Some i)
  then modify (fun s => set_byNodeAddr s (JsMap.delete_ (peersByNodeAddr s) hex)) else mret tt.

Definition removePeerPath (key : string) (i : nat) (closeSessionWithoutAlternate : bool) : ND unit :=
  delete_peer key;;
  p ← peer_at i;
  s ← get;
  let alternates := List.filter (is_alternate s i (ap_pubkey p)) (map snd (nd_peers s)) in
  let alternate := List.find (is_carrier s) alternates in
  modify (fun s => set_byPubkey s (retarget i alternate (peersByPubkey s)));;
  match alternate with
  | Some j => rememberPeer j;; nd_call (ScheduleTreeAnnounce j)
  | None =>
      (if len (ap_pubkey p) >? 0 then
         addr ← lift (deriveNodeAddr (ap_pubkey p));
         hex ← lift (nodeAddrToHex addr);
         unindex_addr i hex;;
         nd_call (RemovePeer addr)
       else mret tt);;
      if closeSessionWithoutAlternate && bool_decide (alternates = []) then
        unreachable ← (if len (ap_pubkey p) =? 0 then mret true else
                       addr ← lift (deriveNodeAddr (ap_pubkey p));
                       hex ← lift (nodeAddrToHex addr);
                       mret (negb (hasUsableRoute hex)));
        if (unreachable : bool) then nd_call (ClosePeerSessions (ap_pubkeyHex p)) else mret tt
      else mret tt
  end.

(** The callback [removePeerPath] of the packet processor. *)
Definition remove_path (i : nat) : ND unit :=
  p ← peer_at i;
  let key := transportAddressKey (ap_remoteAddr p) in
  s ← get;
  if decide (JsMap.get_ (nd_peers s) key = Some i) then removePeerPath key i true else mret tt.

(** A method of [pendingResponders]. It calls [removePeerPath] as the last thing
    it does, or the last but an exception. *)
Definition on_responders {A} (m : ST Responders A) : ND A := fun s =>
  let r := nd_responders s in
  let '(x, r') := m (mkResponders (pending r) (peers r) (links r) []) in
  (for_each remove_path (removed r');; lift x)
    (set_responders s (mkResponders (pending r') (peers r') (links r') [])).

(** ** Numbers of links *)

Definition allocateFmpSessionIdx : ND Z :=
  s ← get;
  let value := nextFmpSessionIdx s in
  let next := js_ushr (value + 1) 0 in
  modify (fun s => set_nextIdx s (if next =? 0 then 1 else next));;
  mret value.

Definition add_link (role : NoiseRole) (remotePubkey : option bytes) (localEpoch : bytes) : ND nat :=
  idx ← allocateFmpSessionIdx;
  l ← lift (new_link identity remotePubkey role idx localEpoch None);
  s ← get;
  modify (fun s => set_link_objects s (link_objects s ++ [l]));;
  mret (length (link_objects s)).

(** The constructor, as far as it sets up the tables: the first number is drawn
    from the epoch. *)
Definition new_node (startupEpoch : bytes) : result Node :=
  throw_if (negb (len startupEpoch =? 8)) (Error "FIPS random source returned a bad startup epoch");;
  let idx := readU32le startupEpoch 0 in
  Ok (mkNode [] [] [] new_responders [] [] [] [] [] (if idx =? 0 then 1 else idx) []).

(** ** Connections *)

(** Whether [connectKnownPeer] opens a connection; [pendingConnect] is whether
    one to the address is being opened. *)
Definition connectKnownPeer (addr : TransportAddress) (remotePubkey : bytes) (pendingConnect : bool) : ND bool :=
  lift (assertPeerAllowed remotePubkey);;
  throw_when (negb (len remotePubkey =? 33) || negb (byte_at remotePubkey 0 =? 0x02) && negb (byte_at remotePubkey 0 =? 0x03))
    (Error "remote pubkey must be 33-byte compressed secp256k1 key");;
  if pendingConnect then mret false else
  s ← get;
  match JsMap.get_ (nd_peers s) (transportAddressKey addr) with
  | Some i => p ← peer_at i; up ← link_up (ap_link p); mret (negb up)
  | None => mret true
  end.

(** [connectAdjacentPeer] from where the carrier is ready to its wait for the
    handshake: nothing where another handshake has ended meanwhile, or the peer
    with its [outgoingHandshake] and its first packet. [current] tells whether
    the node has not been stopped or revoked since. *)
Definition send_msg1 (transport : Transport) (addr : TransportAddress) (remotePubkey packet : bytes) (current : bool) : ND unit :=
  lift (assertPeerAllowed remotePubkey);;
  throw_when (negb current) (Error "FIPS connection was revoked");;
  nd_call (Transmit transport addr packet).

(** The [finally] of [connectAdjacentPeer]. *)
Definition connect_end (key : string) (i : nat) (connected : bool) : ND unit :=
  alter_nd_peer i (fun p => set_outgoing p None);;
  s ← get;
  if negb connected && bool_decide (JsMap.get_ (nd_peers s) key = Some i) then
    p ← peer_at i;
    close_at (ap_link p);;
    on_responders (discard i);;
    removePeerPath key i false
  else mret tt.

Definition connectAdjacentPeer (transport : Transport) (addr : TransportAddress) (remotePubkey : bytes) (localEpoch random : bytes)
    (current : bool) : ND (option (nat * nat * bytes)) :=
  let key := transportAddressKey addr in
  lift (assertPeerAllowed remotePubkey);;
  throw_when (negb current) (Error "FIPS connection was revoked");;
  s ← get;
  let concurrent := JsMap.get_ (nd_peers s) key in
  up ← (match concurrent with Some i => p ← peer_at i; link_up (ap_link p) | None => mret false end);
  if (up : bool) then mret None else
  (match concurrent with
   | Some i => on_responders (discard i);; p ← peer_at i; close_at (ap_link p)
   | None => mret tt
   end);;
  link ← add_link initiator (Some remotePubkey) localEpoch;
  i ← new_peer (fresh_peer remotePubkey (toHex remotePubkey) addr transport link);
  put_peer key i;;
  s ← get;
  let h := length (handshakes s) in
  modify (fun s => set_handshakes s (handshakes s ++ [mkHandshake HsWaiting None]));;
  alter_nd_peer i (fun p => set_outgoing p (Some h));;
  try_catch
    (msg1 ← on_link link (buildMsg1 random);
     send_msg1 transport addr remotePubkey msg1 current;;
     mret (Some (i, h, msg1)))
    (fun e => connect_end key i false;; throw e).

(** The timer that sends the first packet again. *)
Definition resend_timer (i : nat) (transport : Transport) (addr : TransportAddress) (remotePubkey msg1 : bytes) (current : bool) : ND unit :=
  p ← peer_at i;
  if bool_decide (outgoingHandshake p = None) then mret tt else
  try_catch (send_msg1 transport addr remotePubkey msg1 current) (fun e => nd_call (EmitError e "resend Msg1")).

Definition handshake_timer (i : nat) : ND unit :=
  p ← peer_at i; settle_handshake (outgoingHandshake p) (HsRejected (Error "FMP handshake timeout")).

(** What [connectAdjacentPeer] does when the handshake [h] is settled. *)
Definition connect_settled (key : string) (i h : nat) : ND unit :=
  s ← get;
  match handshakes s !! h with
  | Some (mkHandshake HsResolved _) => connect_end key i true
  | Some (mkHandshake (HsRejected e) _) => connect_end key i false;; throw e
  | _ => mret tt
  end.

Definition close_draining (p : AdjacentPeer) : ND unit :=
  for_each (fun e => close_at (fst (snd e))) (default [] (drainingResponderLinks p)).

(** [onTransportConn] for a carrier that is disconnected or has failed. *)
Definition onTransportConn (remoteAddr : TransportAddress) : ND unit :=
  let key := transportAddressKey remoteAddr in
  s ← get;
  match JsMap.get_ (nd_peers s) key with
  | None => mret tt
  | Some i =>
      p ← peer_at i;
      up ← link_up (ap_link p);
      let wasConnected := up && bool_decide (outgoingHandshake p = None) in
      settle_handshake (outgoingHandshake p) (HsRejected (Error "FMP transport disconnected"));;
      close_at (ap_link p);;
      on_responders (discard i);;
      close_draining p;;
      removePeerPath key i true;;
      if wasConnected then nd_call (EmitPeer (ap_pubkeyHex p) (ap_remoteAddr p) Disconnected) else mret tt
  end.

(** ** Sending *)

Definition check_link_message (hasBlockedPeers : bool) (msgType : Z) (payload : bytes) : result unit :=
  if hasBlockedPeers && (msgType =? LinkMessageType.SessionDatagram) then
    d ← decodeSessionDatagramPayload payload;
    assertNodeAllowed (srcAddr d);; assertNodeAllowed (destAddr d)
  else if hasBlockedPeers && (msgType =? LinkMessageType.LookupRequest) then
    q ← decodeLookupRequest payload;
    assertNodeAllowed (lq_target q);; assertNodeAllowed (lq_origin q)
  else Ok tt.

Definition sendLinkMessage (hasBlockedPeers : bool) (i : nat) (msgType : Z) (payload : bytes) (now : F64.t) : ND unit :=
  p ← peer_at i;
  lift (assertPeerAllowed (ap_pubkey p));;
  lift (check_link_message hasBlockedPeers msgType payload);;
  frame ← on_link (ap_link p) (encryptOutgoing payload msgType now);
  nd_call (Transmit (ap_transport p) (ap_remoteAddr p) frame).

Definition prune_peer (nowMs : Z) (i : nat) : ND unit :=
  p ← peer_at i;
  s ← get;
  let '(p', ls) := pruneDrainingResponderLinks p nowMs (link_objects s) in
  modify (fun s => set_link_objects s ls);;
  alter_nd_peer i (fun _ => p').

(** One peer's heartbeat; its errors stay its own. *)
Definition heartbeat (now : F64.t) (i : nat) : ND unit :=
  try_catch
    (p ← peer_at i;
     lift (assertPeerAllowed (ap_pubkey p));;
     frame ← on_link (ap_link p) (encryptOutgoing [] LinkMessageType.Heartbeat now);
     nd_call (Transmit (ap_transport p) (ap_remoteAddr p) frame))
    (fun _ => mret tt).

(** [sendHeartbeats] after [refreshClientRole]. *)
Definition sendHeartbeats (nowMs : Z) (now : F64.t) : ND unit :=
  s ← get;
  for_each (prune_peer nowMs) (map snd (nd_peers s));;
  s ← get;
  for_each (heartbeat now) (List.filter (fun i => match peer_objects s !! i with Some p => is_up s (ap_link p) | None => false end)
    (map snd (nd_peers s))).

(** ** Stopping *)

(** The departures that [stopTransports] announces to the peers the policy allows. *)
Definition departure (hasBlockedPeers restart : bool) (now : F64.t) (i : nat) : ND unit :=
  try_catch (sendLinkMessage hasBlockedPeers i LinkMessageType.Disconnect
      [z2b (if restart then DisconnectReason.Restart else DisconnectReason.Shutdown)] now)
    (fun _ => mret tt).

Definition send_departures (hasBlockedPeers restart : bool) (now : F64.t) : ND unit :=
  s ← get;
  for_each (departure hasBlockedPeers restart now)
    (List.filter (fun i => match peer_objects s !! i with
                           | Some p => is_up s (ap_link p) && match assertPeerAllowed (ap_pubkey p) with Ok _ => true | Throw _ => false end
                           | None => false
                           end) (map snd (nd_peers s))).

(** The end of its connections. *)
Definition stop_carrier (i : nat) : ND unit :=
  p ← peer_at i;
  settle_handshake (outgoingHandshake p) (HsRejected (Error "FIPS node stopped"));;
  close_at (ap_link p);;
  (match pendingResponderLink p with Some l => close_at l | None => mret tt end);;
  close_draining p.

Definition stop_carriers : ND unit := s ← get; for_each stop_carrier (map snd (nd_peers s)).

(** The tables, once the carriers have stopped. *)
Definition clear_tables : ND unit := modify (fun s => set_byNodeAddr (set_byPubkey (set_nd_peers s []) []) []).
End Node.

(** ** Reading the stores *)

Section Reads.
Context {B : Type}.

Lemma peer_at_bind i s p (f : AdjacentPeer -> ND B) : peer_objects s !! i = Some p -> (peer_at i ≫= f) s = f p s.
Proof. intros Hp. unfold peer_at. rewrite ST_bind_assoc, ST_get_bind, Hp. done. Qed.

Lemma link_at_bind l s x (f : FmpLink -> ND B) : link_objects s !! l = Some x -> (link_at l ≫= f) s = f x s.
Proof. intros Hx. unfold link_at. rewrite ST_bind_assoc, ST_get_bind, Hx. done. Qed.

Lemma link_up_bind l s (f : bool -> ND B) : (link_up l ≫= f) s = f (is_up s l) s.
Proof. done. Qed.

Lemma peer_at_none i s (f : AdjacentPeer -> ND B) : peer_objects s !! i = None ->
  (peer_at i ≫= f) s = (Throw (TypeError "Cannot read properties of undefined"), s).
Proof. intros Hp. unfold peer_at. rewrite ST_bind_assoc, ST_get_bind, Hp. done. Qed.

Lemma link_at_none l s (f : FmpLink -> ND B) : link_objects s !! l = None ->
  (link_at l ≫= f) s = (Throw (TypeError "Cannot read properties of undefined"), s).
Proof. intros Hx. unfold link_at. rewrite ST_bind_assoc, ST_get_bind, Hx. done. Qed.
End Reads.
