(* ===== verification/Processor.v ===== *)
(** * Packets of the carriers

    [node/FmpTransportPacketProcessor.ts] and [node/FmpLinkReports.ts]: what
    becomes of a packet that a carrier received. Handshake packets make peers
    and links, replace links, and authenticate restarts; encrypted frames are
    matched to the link they are for. Methods are cut at their awaits; clock
    readings and random bytes are arguments. *)

From S2P Require Import Prelude Codec Crypto Toy NodeAddr Identity F64 Noise Link FmpWire FspWire FmpLink DirectTransport Peers Admission Adjacency.

Definition FMP_REPLACED_LINK_DRAIN_MS : Z := 10000.
Definition FMP_REMOTE_EPOCH_HISTORY_LIMIT : Z := 8.

(** What [prepareMsg1Peer] returns. *)
Record Prepared := mkPrepared {
  pp_peer : nat;
  peerEpochBeforeMsg1 : option bytes;
  replacedEstablishedInitiator : bool;
  replacedHandshake : option nat;
  stageEstablishedInitiator : bool;
}.

(** A match of [matchEstablishedLink]. *)
Record Match := mkMatch { mt_peer : nat; mt_link : nat; promotePending : bool }.

(** The error by which [handleMsg1] tells a new handshake from a repeated one. *)
Definition unexpected_msg1 (e : js_error) : bool := bool_decide (e = Error "unexpected FMP Msg1 after establishment").

Section Processor.
Context `{Noble}.
Context (identity : FipsIdentity) (assertPeerAllowed : bytes -> result unit) (hasUsableRoute : string -> bool) (startupEpoch : bytes).

Local Abbreviation responders m := (on_responders hasUsableRoute m).
Local Abbreviation discardPending i := (responders (discard i)).
Local Abbreviation takePending i := (responders (take_ i)).

Definition newResponderLink : ND nat := add_link identity responder None startupEpoch.

(** ** Remote epochs *)

Definition rememberRemoteEpoch (remotePubkeyHex : string) (epoch : bytes) : ND unit :=
  s ← get;
  let encoded := toHex epoch in
  let history := default [] (JsMap.get_ (remoteEpochHistory s) remotePubkeyHex) in
  if bool_decide (encoded ∈ history) then mret tt else
  let history := history ++ [encoded] in
  let history := if len history >? FMP_REMOTE_EPOCH_HISTORY_LIMIT then drop 1 history else history in
  modify (fun s => set_history s (JsMap.set_ (remoteEpochHistory s) remotePubkeyHex history)).

Definition isRetiredRemoteEpoch (s : Node) (remotePubkeyHex : string) (epoch : bytes) : bool :=
  match JsMap.get_ (remoteEpochHistory s) remotePubkeyHex with
  | Some history => bool_decide (toHex epoch ∈ history)
  | None => false
  end.

Definition rememberPeer_ (i : nat) : ND unit :=
  p ← peer_at i;
  if (len (ap_pubkey p) =? 0) || bool_decide (ap_pubkeyHex p = ""%string) then mret tt else
  rememberPeer i;;
  l ← link_at (ap_link p);
  match fl_remoteEpoch l with Some epoch => rememberRemoteEpoch (ap_pubkeyHex p) epoch | None => mret tt end.

(** One round of the loop of [establishedRemoteEpoch]. *)
Definition epoch_candidate (s : Node) (remotePubkeyHex : string) (excludingLink : nat) (i : nat) : option bytes :=
  match peer_objects s !! i with
  | Some c =>
      if bool_decide (ap_pubkeyHex c = remotePubkeyHex) && negb (bool_decide (ap_link c = excludingLink)) && is_up s (ap_link c)
      then link_objects s !! ap_link c ≫= fl_remoteEpoch else None
  | None => None
  end.

Fixpoint first_epoch (s : Node) (remotePubkeyHex : string) (excludingLink : nat) (js : list nat) : option bytes :=
  match js with
  | [] => None
  | i :: js =>
      match epoch_candidate s remotePubkeyHex excludingLink i with
      | Some e => Some e
      | None => first_epoch s remotePubkeyHex excludingLink js
      end
  end.

Definition establishedRemoteEpoch (s : Node) (remotePubkeyHex : string) (excludingLink : nat) : option bytes :=
  if bool_decide (remotePubkeyHex = ""%string) then None
  else first_epoch s remotePubkeyHex excludingLink (map snd (nd_peers s)).

(** [previous !== undefined && candidate !== undefined && !bytesEqual(...)] *)
Definition changed_epoch (previous candidate : option bytes) : bool :=
  match previous, candidate with Some a, Some b => negb (bytesEqual a b) | _, _ => false end.

Definition rejectRetiredEpoch (i handshakeLink : nat) (remotePubkeyHex : string) (candidateEpoch : option bytes) (changedEpoch : bool)
    : ND bool :=
  match (if changedEpoch then candidateEpoch else None) with
  | None => mret false
  | Some epoch =>
      s ← get;
      if negb (isRetiredRemoteEpoch s remotePubkeyHex epoch) then mret false else
      close_at handshakeLink;;
      p ← peer_at i;
      (if decide (pendingResponderLink p = Some handshakeLink) then takePending i;; mret tt else mret tt);;
      mret true
  end.

(** ** Restarts *)

Definition remove_key (i : nat) : ND unit :=
  s ← get; for_each (fun e => if decide (snd e = i) then delete_peer (fst e) else mret tt) (nd_peers s).

(** One round of the second loop of [removeRestartedPeerPaths]. *)
Definition remove_restarted (preserveLink : nat) (preserveHandshake : option nat) (i : nat) : ND unit :=
  p ← peer_at i;
  up ← link_up (ap_link p);
  let other := negb (bool_decide (ap_link p = preserveLink)) in
  let wasConnected := other && up && bool_decide (outgoingHandshake p = None) in
  (if other then close_at (ap_link p) else mret tt);;
  pending ← takePending i;
  (match pending with Some l => if decide (l = preserveLink) then mret tt else close_at l | None => mret tt end);;
  for_each (fun e => if decide (fst (snd e) = preserveLink) then mret tt else close_at (fst (snd e)))
    (default [] (drainingResponderLinks p));;
  (match outgoingHandshake p with
   | Some h =>
       if decide (preserveHandshake = Some h) then mret tt else
       settle_handshake (Some h) (HsRejected (Error "remote FIPS peer restarted"));;
       alter_nd_peer i (fun p => set_outgoing p None)
   | None => mret tt
   end);;
  if wasConnected then nd_call (EmitPeer (ap_pubkeyHex p) (ap_remoteAddr p) Disconnected) else mret tt.

(** The peers of an identity, each once, and the key of the last. *)
Definition peers_named (s : Node) (remotePubkeyHex : string) : list (string * nat) :=
  List.filter (fun e => match peer_objects s !! snd e with
                        | Some c => bool_decide (ap_pubkeyHex c = remotePubkeyHex)
                        | None => false
                        end) (nd_peers s).

Definition distinct (js : list nat) : list nat := rev (remove_dups (rev js)).

Definition removeRestartedPeerPaths (remotePubkeyHex : string) (preserveLink : nat) (preserveTransport : Transport)
    (preserveHandshake : option nat) : ND unit :=
  s ← get;
  let found := peers_named s remotePubkeyHex in
  for_each (fun e => delete_peer (fst e)) found;;
  for_each (remove_restarted preserveLink preserveHandshake) (distinct (map snd found));;
  modify (fun s => set_byPubkey s (JsMap.delete_ (peersByPubkey s) remotePubkeyHex));;
  (match last found ≫= fun e => peer_objects s !! snd e with
   | Some c =>
       addr ← lift (deriveNodeAddr (ap_pubkey c));
       hex ← lift (nodeAddrToHex addr);
       modify (fun s => set_byNodeAddr s (JsMap.delete_ (peersByNodeAddr s) hex));;
       nd_call (RemovePeer addr)
   | None => mret tt
   end);;
  nd_call (ClosePeerSessions remotePubkeyHex);;
  nd_call (HandlePeerRestart remotePubkeyHex preserveTransport).

(** ** Msg1 *)

Definition prepareMsg1Peer (transport : Transport) (remoteAddr : TransportAddress) (key : string) (initialPeer : option nat)
    : ND (option Prepared) :=
  match initialPeer with
  | Some i =>
      p ← peer_at i;
      l ← link_at (ap_link p);
      match fl_role l, outgoingHandshake p with
      | initiator, Some h =>
          throw_when (len (ap_pubkey p) =? 0) (Error "outbound FMP peer is missing its expected identity");;
          addr ← lift (deriveNodeAddr (ap_pubkey p));
          order ← lift (compareNodeAddr (nodeAddr identity) addr);
          if order <? 0 then mret None else
          throw_when (order =? 0) (Error "simultaneous FMP handshake with local identity");;
          mret (Some (mkPrepared i (fl_remoteEpoch l) (bool_decide (fl_state l = LEstablished)) (Some h) true))
      | initiator, None => mret (Some (mkPrepared i (fl_remoteEpoch l) false None true))
      | _, _ => mret (Some (mkPrepared i (fl_remoteEpoch l) false None false))
      end
  | None =>
      link ← newResponderLink;
      i ← new_peer (fresh_peer [] "" remoteAddr transport link);
      put_peer key i;;
      mret (Some (mkPrepared i None false None false))
  end.

Definition stageResponderReplacement (i : nat) (packet random : bytes) (nowMs : Z) (now : F64.t) : ND FmpHandshakeResult :=
  let replace :=
    replacement ← newResponderLink;
    result ← on_link replacement (handleMsg1 packet random now);
    responders (set_ i replacement nowMs);;
    mret result in
  p ← peer_at i;
  match pendingResponderLink p with
  | Some l =>
      try_catch (on_link l (handleMsg1 packet random now))
        (fun e => if unexpected_msg1 e then discardPending i;; replace else throw e)
  | None => replace
  end.

Definition stageUnconfirmedCarrier (i handshakeLink : nat) (nowMs : Z) : ND bool :=
  p ← peer_at i;
  s ← get;
  if negb (bool_decide (ap_link p = handshakeLink))
  then mret (negb (is_up s (ap_link p)) && bool_decide (pendingResponderLink p = Some handshakeLink))
  else
    match establishedRemoteEpoch s (ap_pubkeyHex p) handshakeLink with
    | None => mret false
    | Some _ =>
        responders (set_ i handshakeLink nowMs);;
        link ← newResponderLink;
        alter_nd_peer i (fun p => set_ap_link p link);;
        mret true
    end.

(** [peer = { ... }; this.cfg.peers.set(key, peer)] *)
Definition replace_peer (transport : Transport) (remoteAddr : TransportAddress) (key : string) (pubkey : bytes) (link : nat) : ND nat :=
  i ← new_peer (fresh_peer pubkey (toHex pubkey) remoteAddr transport link); put_peer key i;; mret i.

(** The [catch] block of [reconcileAuthenticatedMsg1]. *)
Definition refuse_msg1 {A} (i handshakeLink : nat) (e : js_error) : ND A :=
  close_at handshakeLink;;
  discardPending i;;
  p ← peer_at i;
  up ← link_up (ap_link p);
  (if bool_decide (ap_link p = handshakeLink) || negb up then
     settle_handshake (outgoingHandshake p) (HsRejected e);; remove_path hasUsableRoute i
   else mret tt);;
  throw e.

(** The branch for a changed identity. *)
Definition rebind_identity (i handshakeLink : nat) (remotePubkey : bytes) (transport : Transport) (remoteAddr : TransportAddress) (key : string)
    : ND nat :=
  p ← peer_at i;
  (if negb (identityMayChangeAtAddress transport) then
     close_at handshakeLink;;
     (if decide (pendingResponderLink p = Some handshakeLink) then takePending i;; mret tt else mret tt);;
     throw (Error "fresh FMP Msg1 changed the authenticated peer identity")
   else
     up ← link_up (ap_link p);
     if (up : bool) then removeRestartedPeerPaths (ap_pubkeyHex p) handshakeLink transport None
     else close_at (ap_link p);; takePending i;; mret tt);;
  replace_peer transport remoteAddr key remotePubkey handshakeLink.

(** The branch for the identity that the peer has, or its first: the peer that
    goes on, and whether it counts as established. *)
Definition same_identity_msg1 (i handshakeLink : nat) (remotePubkey : bytes) (epochBefore : option bytes) (transport : Transport)
    (remoteAddr : TransportAddress) (key : string) (replaced : option nat) (wasEstablished : bool) : ND (option (nat * bool)) :=
  let hex := toHex remotePubkey in
  s ← get;
  l ← link_at handshakeLink;
  let previous := match epochBefore with Some e => Some e | None => establishedRemoteEpoch s hex handshakeLink end in
  let changed := changed_epoch previous (fl_remoteEpoch l) in
  rejected ← rejectRetiredEpoch i handshakeLink hex (fl_remoteEpoch l) changed;
  if (rejected : bool) then mret None else
  if changed then
    removeRestartedPeerPaths hex handshakeLink transport replaced;;
    j ← replace_peer transport remoteAddr key remotePubkey handshakeLink;
    mret (Some (j, false))
  else
    p ← peer_at i;
    (if negb (bool_decide (replaced = None)) && negb (bool_decide (ap_link p = handshakeLink)) then
       old ← link_at (ap_link p);
       alter_nd_peer i (fun p => set_abandoned p (Some (fl_localSessionIdx old)));;
       close_at (ap_link p);;
       alter_nd_peer i (fun p => set_ap_link p handshakeLink);;
       takePending i;;
       mret tt
     else mret tt);;
    mret (Some (i, wasEstablished)).

Definition reconcileAuthenticatedMsg1 (i : nat) (result : FmpHandshakeResult) (handshakeLink : nat) (epochBefore : option bytes)
    (transport : Transport) (remoteAddr : TransportAddress) (key : string) (replaced : option nat) (wasEstablished : bool) (nowMs : Z)
    : ND (option (nat * bool * bool)) :=
  let pk := hr_remotePubkey result in
  try_catch (lift (assertPeerAllowed pk)) (refuse_msg1 i handshakeLink);;
  p ← peer_at i;
  let identityChanged := (len (ap_pubkey p) >? 0) && negb (sameCompressedIdentity (ap_pubkey p) pk) in
  went ← (if identityChanged then
            j ← rebind_identity i handshakeLink pk transport remoteAddr key; mret (Some (j, false))
          else same_identity_msg1 i handshakeLink pk epochBefore transport remoteAddr key replaced wasEstablished);
  match went with
  | None => mret None
  | Some (j, wasEstablished) =>
      alter_nd_peer j (fun p => set_identity p pk (toHex pk));;
      staged ← (if negb identityChanged && bool_decide (replaced = None) then stageUnconfirmedCarrier j handshakeLink nowMs else mret false);
      (if (staged : bool) then mret tt else rememberPeer_ j);;
      mret (Some (j, staged || wasEstablished, identityChanged))
  end.

(** The link of a handshake that was staged. *)
Definition staged_link (i : nat) : ND nat :=
  p ← peer_at i; match pendingResponderLink p with Some l => mret l | None => undefined_object end.

(** [handleMsg1]: the peer whose lookups are replayed once the reply is sent. *)
Definition processMsg1 (transport : Transport) (remoteAddr : TransportAddress) (key : string) (initialPeer : option nat)
    (packet random : bytes) (nowMs : Z) (now : F64.t) : ND (option nat) :=
  prepared ← prepareMsg1Peer transport remoteAddr key initialPeer;
  match prepared with
  | None => mret None
  | Some pp =>
      let i := pp_peer pp in
      p ← peer_at i;
      up ← link_up (ap_link p);
      let wasEstablished := replacedEstablishedInitiator pp || up in
      let stage := result ← stageResponderReplacement i packet random nowMs now; l ← staged_link i; mret (result, l) in
      let direct := result ← on_link (ap_link p) (handleMsg1 packet random now); mret (result, ap_link p) in
      '(result, handshakeLink) ←
        (if stageEstablishedInitiator pp || negb (bool_decide (pendingResponderLink p = None)) && negb up then stage
         else if (up : bool) then try_catch direct (fun e => if unexpected_msg1 e then stage else throw e)
         else direct);
      reconciled ← reconcileAuthenticatedMsg1 i result handshakeLink (peerEpochBeforeMsg1 pp) transport remoteAddr key
        (replacedHandshake pp) wasEstablished nowMs;
      match reconciled with
      | None => mret None
      | Some (j, wasEstablished, identityRebound) =>
          (match hr_reply result with Some reply => nd_call (Transmit transport remoteAddr reply) | None => mret tt end);;
          (match replacedHandshake pp with
           | Some h =>
               if (identityRebound : bool) then mret tt else
               alter_nd_peer j (fun p => set_outgoing p None);; settle_handshake (Some h) HsResolved
           | None => mret tt
           end);;
          if (wasEstablished : bool) then mret None else
          p ← peer_at j;
          nd_call (EmitPeer (ap_pubkeyHex p) (ap_remoteAddr p) Connected);;
          match hr_reply result with
          | Some _ => mret (Some j)
          | None => nd_call (ReplayPendingLookups j);; mret None
          end
      end
  end.

(** The end of the reply's transmission. *)
Definition reply_sent (i : nat) : ND unit := nd_call (ReplayPendingLookups i).
Definition reply_failed (e : js_error) : ND unit := nd_call (EmitError e "send Msg2").

(** ** Msg2 *)

Definition drainAuthenticatedLink (i link : nat) (expiresAtMs : Z) : ND unit :=
  p ← peer_at i;
  if bool_decide (link = ap_link p) || bool_decide (pendingResponderLink p = Some link) then mret tt else
  s ← get;
  if negb (is_up s link) then close_at link else
  l ← link_at link;
  let draining := default [] (drainingResponderLinks p) in
  match JsMap.get_ draining (fl_localSessionIdx l) with
  | Some (existing, _) =>
      if decide (existing = link)
      then alter_nd_peer i (fun p => set_draining p (Some (JsMap.set_ draining (fl_localSessionIdx l) (link, expiresAtMs))))
      else close_at link
  | None => alter_nd_peer i (fun p => set_draining p (Some (JsMap.set_ draining (fl_localSessionIdx l) (link, expiresAtMs))))
  end.

(** The entries that name [i] in the two indices, deleted. *)
Definition unindex (i : nat) (p : AdjacentPeer) : ND unit :=
  s ← get;
  (if decide (JsMap.get_ (peersByPubkey s) (ap_pubkeyHex p) = Some i)
   then modify (fun s => set_byPubkey s (JsMap.delete_ (peersByPubkey s) (ap_pubkeyHex p))) else mret tt);;
  if len (ap_pubkey p) >? 0 then
    addr ← lift (deriveNodeAddr (ap_pubkey p));
    hex ← lift (nodeAddrToHex addr);
    unindex_addr i hex
  else mret tt.

Definition retireDisplacedMsg2Peer (remoteAddr : TransportAddress) (i : nat) (nowMs : Z) : ND unit :=
  s ← get;
  match JsMap.get_ (nd_peers s) (transportAddressKey remoteAddr) with
  | None => mret tt
  | Some d =>
      if decide (d = i) then mret tt else
      remove_key d;;
      q ← peer_at d;
      drainAuthenticatedLink i (ap_link q) (nowMs + FMP_REPLACED_LINK_DRAIN_MS);;
      pending ← takePending d;
      (match pending with Some l => drainAuthenticatedLink i l (nowMs + FMP_REPLACED_LINK_DRAIN_MS) | None => mret tt end);;
      for_each (fun e => drainAuthenticatedLink i (fst (snd e)) (snd (snd e))) (default [] (drainingResponderLinks q));;
      settle_handshake (outgoingHandshake q) (HsRejected (Error "authenticated FMP path replaced address alias"));;
      unindex d q
  end.

Definition rejectRetiredMsg2Peer (i : nat) : ND unit :=
  p ← peer_at i;
  close_at (ap_link p);;
  remove_key i;;
  s ← get;
  (match List.find (fun j => negb (bool_decide (j = i))
                    && match peer_objects s !! j with
                       | Some c => bool_decide (ap_pubkeyHex c = ap_pubkeyHex p) && is_up s (ap_link c)
                       | None => false
                       end) (map snd (nd_peers s)) with
   | Some j => rememberPeer_ j;; nd_call (ScheduleTreeAnnounce j)
   | None => unindex i p
   end);;
  settle_handshake (outgoingHandshake p) (HsRejected (Error "remote FIPS peer replied from a retired startup epoch"));;
  alter_nd_peer i (fun p => set_outgoing p None).

Definition alter_confirmation (c : nat) (f : Confirmation -> Confirmation) : ND unit :=
  modify (fun s => set_confirmations s (alter f c (confirmations s))).
Definition set_sent (f : Confirmation) : Confirmation :=
  mkConfirmation (cf_peer f) (cf_link f) (cf_handshake f) (cf_remoteAddr f) true (confirmationReceived f).
Definition set_received (f : Confirmation) : Confirmation :=
  mkConfirmation (cf_peer f) (cf_link f) (cf_handshake f) (cf_remoteAddr f) (confirmationSent f) true.

(** Another established peer under the name of [i]. *)
Definition healthy_other (s : Node) (i : nat) (hex : string) : bool :=
  match JsMap.get_ (peersByPubkey s) hex with
  | Some j => negb (bool_decide (j = i)) && match peer_objects s !! j with Some c => is_up s (ap_link c) | None => false end
  | None => false
  end.

(** The closure [complete] of [confirmOutgoingHandshake]. *)
Definition complete (c : nat) (nowMs : Z) : ND unit :=
  s ← get;
  match confirmations s !! c with
  | None => undefined_object
  | Some f =>
      let i := cf_peer f in
      p ← peer_at i;
      if negb (confirmationSent f) || negb (bool_decide (outgoingHandshake p = Some (cf_handshake f)))
         || negb (bool_decide (ap_link p = cf_link f)) || negb (is_up s (cf_link f)) then mret tt else
      lift (assertPeerAllowed (ap_pubkey p));;
      if healthy_other s i (ap_pubkeyHex p) && negb (confirmationReceived f) then mret tt else
      retireDisplacedMsg2Peer (cf_remoteAddr f) i nowMs;;
      rememberPeer_ i;;
      nd_call (EmitPeer (ap_pubkeyHex p) (ap_remoteAddr p) Connected);;
      settle_handshake (Some (cf_handshake f)) HsResolved;;
      alter_nd_peer i (fun p => set_outgoing p None);;
      nd_call (ScheduleTreeAnnounce i);;
      nd_call (ReplayPendingLookups i)
  end.

(** [handshake.confirmCarrier()] *)
Definition confirm_carrier (c : nat) (nowMs : Z) : ND unit := alter_confirmation c set_received;; complete c nowMs.

(** The [catch] of [confirmOutgoingHandshake]. *)
Definition confirmation_failed (c : nat) (e : js_error) : ND unit :=
  s ← get;
  match confirmations s !! c with
  | None => mret tt
  | Some f =>
      p ← peer_at (cf_peer f);
      if bool_decide (outgoingHandshake p = Some (cf_handshake f)) && bool_decide (ap_link p = cf_link f)
      then settle_handshake (Some (cf_handshake f)) (HsRejected e) else mret tt
  end.

(** [confirmOutgoingHandshake] up to its transmission, and from its end on. *)
Definition confirmOutgoingHandshake (i : nat) (remoteAddr : TransportAddress) (now : F64.t) : ND unit :=
  p ← peer_at i;
  match outgoingHandshake p with
  | None => mret tt
  | Some h =>
      s ← get;
      let c := length (confirmations s) in
      modify (fun s => set_confirmations s (confirmations s ++ [mkConfirmation i (ap_link p) h remoteAddr false false]));;
      modify (fun s => set_handshakes s (alter (fun x => mkHandshake (settled x) (Some c)) h (handshakes s)));;
      try_catch
        (lift (assertPeerAllowed (ap_pubkey p));;
         frame ← on_link (ap_link p) (encryptOutgoing [] FMP_INNER_KEEPALIVE now);
         nd_call (Transmit (ap_transport p) (ap_remoteAddr p) frame))
        (confirmation_failed c)
  end.

Definition confirmation_sent (c : nat) (nowMs : Z) : ND unit :=
  try_catch (alter_confirmation c set_sent;; complete c nowMs) (confirmation_failed c).

Definition matchMsg2Peer (s : Node) (receiverIdx : Z) : option nat :=
  let matches i :=
    match peer_objects s !! i with
    | Some c =>
        match outgoingHandshake c, link_objects s !! ap_link c with
        | Some _, Some l => bool_decide (fl_role l = initiator) && (fl_localSessionIdx l =? receiverIdx)
        | _, _ => false
        end
    | None => false
    end in
  match distinct (List.filter matches (map snd (nd_peers s))) with [i] => Some i | _ => None end.

Definition processMsg2 (transport : Transport) (remoteAddr : TransportAddress) (addressedPeer : option nat) (packet : bytes)
    (nowMs : Z) (now : F64.t) : ND unit :=
  msg2 ← lift (decodeFmpMsg2 packet);
  s ← get;
  match matchMsg2Peer s (m2_receiverIdx msg2) with
  | None =>
      match addressedPeer with
      | Some a =>
          p ← peer_at a;
          if bool_decide (abandonedInitiatorSessionIdx p = Some (m2_receiverIdx msg2))
          then alter_nd_peer a (fun p => set_abandoned p None) else mret tt
      | None => mret tt
      end
  | Some i =>
      p ← peer_at i;
      let wasEstablished := is_up s (ap_link p) in
      let previousRemoteEpoch := establishedRemoteEpoch s (ap_pubkeyHex p) (ap_link p) in
      on_link (ap_link p) (handleMsg2 packet now);;
      l ← link_at (ap_link p);
      match fl_remotePubkey l with
      | None => undefined_object
      | Some pk =>
          alter_nd_peer i (fun p => set_identity p pk (toHex pk));;
          lift (assertPeerAllowed pk);;
          s ← get;
          let changed := changed_epoch previousRemoteEpoch (fl_remoteEpoch l) in
          match (if changed then fl_remoteEpoch l else None) with
          | Some epoch =>
              if isRetiredRemoteEpoch s (toHex pk) epoch then rejectRetiredMsg2Peer i else
              removeRestartedPeerPaths (toHex pk) (ap_link p) transport (outgoingHandshake p);;
              put_peer (transportAddressKey (ap_remoteAddr p)) i;;
              if (wasEstablished : bool) then mret tt else confirmOutgoingHandshake i remoteAddr now
          | None => if (wasEstablished : bool) then mret tt else confirmOutgoingHandshake i remoteAddr now
          end
      end
  end.

(** ** Encrypted frames *)

(** The matches of one peer, after its expired links are pruned. *)
Definition match_peer (receiverIdx nowMs : Z) (i : nat) (matches : list (nat * Match)) : ND (list (nat * Match)) :=
  prune_peer nowMs i;;
  p ← peer_at i;
  s ← get;
  let numbered l := match link_objects s !! l with Some x => is_up s l && (fl_localSessionIdx x =? receiverIdx) | None => false end in
  let m := if numbered (ap_link p) then JsMap.set_ matches (ap_link p) (mkMatch i (ap_link p) false) else matches in
  let m := match pendingResponderLink p with
           | Some l => if numbered l then JsMap.set_ m l (mkMatch i l true) else m
           | None => m
           end in
  mret (match drainingResponderLinks p ≫= fun d => JsMap.get_ d receiverIdx with
        | Some (l, _) => JsMap.set_ m l (mkMatch i l false)
        | None => m
        end).

Fixpoint match_loop (receiverIdx nowMs : Z) (js : list nat) (matches : list (nat * Match)) : ND (list (nat * Match)) :=
  match js with
  | [] => mret matches
  | i :: js => m ← match_peer receiverIdx nowMs i matches; match_loop receiverIdx nowMs js m
  end.

Definition matchEstablishedLink (receiverIdx nowMs : Z) : ND (option Match) :=
  s ← get;
  matches ← match_loop receiverIdx nowMs (distinct (map snd (nd_peers s))) [];
  throw_when (len matches >? 1) (Error "ambiguous FMP Established receiver_idx");;
  mret (snd <$> head matches).

(** [receiveFmpLinkPacket] of node/FmpLinkReports.ts, and the end of its
    transmission. *)
Definition receiveFmpLinkPacket (i link : nat) (packet : bytes) (now : F64.t) : ND (Z * bytes) :=
  received ← on_link link (decryptIncoming packet now);
  s ← get;
  (if (fst received =? LinkMessageType.SenderReport) && negb (bool_decide (link ∈ pendingReports s)) then
     report ← on_link link (receiverReportFor (snd received) now);
     match report with
     | Some report =>
         p ← peer_at i;
         frame ← on_link link (encryptOutgoing report LinkMessageType.ReceiverReport now);
         modify (fun s => set_pendingReports s (pendingReports s ++ [link]));;
         nd_call (Transmit (ap_transport p) (ap_remoteAddr p) frame)
     | None => mret tt
     end
   else mret tt);;
  mret received.

Definition report_settled (link : nat) (e : option js_error) : ND unit :=
  (match e with Some e => nd_call (EmitError e "send link ReceiverReport") | None => mret tt end);;
  modify (fun s => set_pendingReports s (base.filter (fun l => l <> link) (pendingReports s))).

(** The branch for the first frame of a pending link. *)
Definition promote_link (i link : nat) (nowMs : Z) : ND unit :=
  p ← peer_at i;
  let previous := ap_link p in
  alter_nd_peer i (fun p => set_ap_link p link);;
  takePending i;;
  alter_nd_peer i unannounced;;
  up ← link_up previous;
  if (up : bool) then drainAuthenticatedLink i previous (nowMs + FMP_REPLACED_LINK_DRAIN_MS) else
  close_at previous;;
  rememberPeer_ i;;
  nd_call (EmitPeer (ap_pubkeyHex p) (ap_remoteAddr p) Connected);;
  nd_call (ReplayPendingLookups i).

Definition processEstablished (packet : bytes) (nowMs : Z) (now : F64.t) : ND unit :=
  est ← lift (decodeFmpEstablished packet);
  m ← matchEstablishedLink (eh_receiverIdx (est_header est)) nowMs;
  match m with
  | None => mret tt
  | Some (mkMatch i link promote) =>
      p ← peer_at i;
      lift (assertPeerAllowed (ap_pubkey p));;
      received ← receiveFmpLinkPacket i link packet now;
      s ← get;
      (match (if decide (ap_link p = link) then outgoingHandshake p else None) ≫= fun h => handshakes s !! h ≫= confirmCarrier with
       | Some c => confirm_carrier c nowMs
       | None => mret tt
       end);;
      (if (promote : bool) then promote_link i link nowMs else mret tt);;
      nd_call (ScheduleTreeAnnounce i);;
      nd_call (HandleLinkMessage i (fst received) (snd received))
  end.

(** ** Dispatch *)

(** [/^[0-9a-fA-F]{64}$/] on an address, and the peer of that x-only key. *)
Definition findXOnlyTransportPeer (s : Node) (transport : Transport) (remoteAddr : TransportAddress) : option nat :=
  let addr := ta_addr remoteAddr in
  if negb (all_hex addr && (String.length addr =? 64)%nat) then None else
  List.find (fun i => match peer_objects s !! i with
                      | Some p => bool_decide (tr_id (ap_transport p) = tr_id transport) && (len (ap_pubkey p) =? 33)
                                  && bool_decide (toLowerCase (String.substring 2 (String.length (ap_pubkeyHex p) - 2) (ap_pubkeyHex p))
                                                  = toLowerCase addr)
                      | None => false
                      end) (map snd (nd_peers s)).

(** [!peer || peer.link.state !== "established" || peer.pubkey.length === 0] *)
Definition not_adjacent (peer : option nat) : ND bool :=
  match peer with
  | None => mret true
  | Some i => p ← peer_at i; up ← link_up (ap_link p); mret (negb up || (len (ap_pubkey p) =? 0))
  end.

Definition reassemble (key : string) (fragment : bytes) (receivedAtMs : Z) : ND (option bytes) :=
  zoom reassembler (fun r s => set_reassembler s r) (ingest key fragment receivedAtMs).

(** Once the packet is whole. *)
Definition process_packet (transport : Transport) (remoteAddr : TransportAddress) (key : string) (peer : option nat) (packet random : bytes)
    (nowMs : Z) (now : F64.t) : ND (option nat) :=
  if isDirectFspEstablished packet then
    refused ← not_adjacent peer;
    throw_when refused (Error "direct FSP before adjacent link handshake complete");;
    match peer with
    | Some i =>
        p ← peer_at i;
        addr ← lift (deriveNodeAddr (ap_pubkey p));
        nd_call (HandleFromPeer i addr packet);;
        mret None
    | None => mret None
    end
  else
    phase ← lift (peekFmpPhase packet);
    if phase =? FMP_PHASE_MSG1 then processMsg1 transport remoteAddr key peer packet random nowMs now
    else if phase =? FMP_PHASE_MSG2 then processMsg2 transport remoteAddr peer packet nowMs now;; mret None
    else if phase =? FMP_PHASE_ESTABLISHED then processEstablished packet nowMs now;; mret None
    else throw (Error "unknown FMP phase").

(** The [try] block of [process]: the peer whose lookups are replayed once the
    reply is sent. *)
Definition process_received (transport : Transport) (remoteAddr : TransportAddress) (data : bytes) (receivedAtMs : Z) (random : bytes)
    (nowMs : Z) (now : F64.t) : ND (option nat) :=
  let key := transportAddressKey remoteAddr in
  s ← get;
  let peer := match JsMap.get_ (nd_peers s) key with
              | Some i => Some i
              | None => findXOnlyTransportPeer s transport remoteAddr
              end in
  (match peer with
   | Some i => p ← peer_at i; if len (ap_pubkey p) >? 0 then lift (assertPeerAllowed (ap_pubkey p)) else mret tt
   | None => mret tt
   end);;
  if isDirectFspTransportFragment data then
    refused ← not_adjacent peer;
    throw_when refused (Error "direct FSP fragment before adjacent link handshake complete");;
    whole ← reassemble key data receivedAtMs;
    match whole with
    | None => mret None
    | Some packet => process_packet transport remoteAddr key peer packet random nowMs now
    end
  else process_packet transport remoteAddr key peer data random nowMs now.

Definition process (transport : Transport) (remoteAddr : TransportAddress) (data : bytes) (receivedAtMs : Z) (random : bytes) (nowMs : Z)
    (now : F64.t) : ND (option nat) :=
  try_catch (process_received transport remoteAddr data receivedAtMs random nowMs now)
    (fun e => nd_call (EmitError e "onTransportPacket");; mret None).

Definition clear_processor : ND unit :=
  responders clear_pending;;
  zoom reassembler (fun r s => set_reassembler s r) DirectTransport.clear;;
  modify (fun s => set_history s []).

Definition discardPendingResponder (i : nat) : ND unit := discardPending i.
End Processor.
