(* ===== verification/ProcessorRuns.v ===== *)
(** * Runs of the packet processor

    What every sequence of packets, connections, timers and losses keeps: the
    numbers by which frames find their links stay distinct, and what is stored
    on behalf of others stays bounded. *)

From S2P Require Import Prelude Codec Crypto Toy NodeAddr Identity F64 Noise Link FmpWire FmpLink DirectTransport Peers Admission Adjacency Processor.

(** ** What the methods of a node may do

    A relation that the primitive operations respect is respected by the methods
    made of them. [Lenient] is what the operations ask for that neither make a
    peer or a link nor complete a handshake, [Framed] what all of them ask for. *)

Inductive quiet_link `{Noble} : forall {A}, ST FmpLink A -> Prop :=
| ql_encrypt p ty now : quiet_link (encryptOutgoing p ty now)
| ql_decrypt p now : quiet_link (decryptIncoming p now)
| ql_report p now : quiet_link (receiverReportFor p now).

(** What the routing may store in a peer: its announcements and filters. *)
Definition same_carrier (p q : AdjacentPeer) : Prop :=
  ap_pubkey q = ap_pubkey p /\ ap_pubkeyHex q = ap_pubkeyHex p /\ ap_remoteAddr q = ap_remoteAddr p /\ ap_transport q = ap_transport p /\
  ap_link q = ap_link p /\ pendingResponderLink q = pendingResponderLink p /\ drainingResponderLinks q = drainingResponderLinks p /\
  abandonedInitiatorSessionIdx q = abandonedInitiatorSessionIdx p /\ outgoingHandshake q = outgoingHandshake p.

Inductive quiet_setter : (AdjacentPeer -> AdjacentPeer) -> Prop :=
| qs_abandoned x : quiet_setter (fun p => set_abandoned p x)
| qs_outgoing x : quiet_setter (fun p => set_outgoing p x)
| qs_unannounced : quiet_setter unannounced
| qs_routing f : (forall p, same_carrier p (f p)) -> quiet_setter f.

Inductive quiet_responders : forall {A}, ST Responders A -> Prop :=
| qr_take i : quiet_responders (take_ i)
| qr_discard i : quiet_responders (discard i)
| qr_clear : quiet_responders clear_pending
| qr_expire i l : quiet_responders (expire i l).

Definition bare (r : Responders) : Responders := mkResponders (pending r) (peers r) (links r) [].

Class Lenient `{Noble} (R : Node -> Node -> Prop) : Prop := {
  ln_pre :: PreOrder R;
  ln_outside s s' : nd_responders s' = nd_responders s -> nd_peers s' = nd_peers s -> remoteEpochHistory s' = remoteEpochHistory s ->
    reassembler s' = reassembler s -> nextFmpSessionIdx s' = nextFmpSessionIdx s -> R s s';
  ln_delete s key : R s (set_nd_peers s (JsMap.delete_ (nd_peers s) key));
  ln_history hex epoch : respects R (rememberRemoteEpoch hex epoch);
  ln_close l : respects R (close_at l);
  ln_link {A} l (m : ST FmpLink A) : quiet_link m -> respects R (on_link l m);
  ln_set i f : quiet_setter f -> respects R (alter_nd_peer i f);
  ln_drain i l t : respects R (drainAuthenticatedLink i l t);
  ln_prune now i : respects R (prune_peer now i);
  ln_resp {A} (m : ST Responders A) : quiet_responders m -> forall s, R s (set_responders s (bare (snd (m (bare (nd_responders s))))));
}.

Lemma respects_undefined {A} (R : Node -> Node -> Prop) `{!PreOrder R} : respects R (@undefined_object A).
Proof. by apply respects_throw. Qed.

Section Lenient.
Context `{Noble} {R : Node -> Node -> Prop} `{!Lenient R}.

Lemma lenient_modify f : (forall s, nd_responders (f s) = nd_responders s /\ nd_peers (f s) = nd_peers s /\
    remoteEpochHistory (f s) = remoteEpochHistory s /\ reassembler (f s) = reassembler s /\ nextFmpSessionIdx (f s) = nextFmpSessionIdx s) ->
  respects R (modify f).
Proof. intros Hf. apply respects_modify. intros s. destruct (Hf s) as (? & ? & ? & ? & ?). by apply ln_outside. Qed.

Lemma lenient_get {A} (f : Node -> ND A) : (forall s, respects R (f s)) -> respects R (get ≫= f).
Proof. intros Hf. apply respects_bind; [apply _|apply respects_get, _|exact Hf]. Qed.

Lemma lenient_for_each {A} (f : A -> ND unit) xs : (forall x, respects R (f x)) -> respects R (for_each f xs).
Proof. apply respects_for_each, _. Qed.

Lemma lenient_responders hasUsableRoute {A} (m : ST Responders A) :
  (forall s, R s (set_responders s (bare (snd (m (bare (nd_responders s))))))) -> (forall i, respects R (remove_path hasUsableRoute i)) ->
  respects R (on_responders hasUsableRoute m).
Proof.
  intros Hm Hr s. unfold on_responders. specialize (Hm s). unfold bare in Hm at 2. destruct (m _) as [x r'].
  cbn [snd] in Hm. etransitivity; [exact Hm|].
  assert (respects R (for_each (remove_path hasUsableRoute) (removed r');; lift x)) as Hx; [|apply Hx].
  apply respects_bind; [apply _|by apply lenient_for_each|intros _; apply respects_lift, _].
Qed.
End Lenient.

Ltac lenient_step :=
  match goal with
  | |- respects _ (for_each _ _) => apply lenient_for_each; intros ?
  | |- respects _ (modify _) => apply lenient_modify; intros ?; by repeat split
  | |- respects _ (nd_call _) => apply lenient_modify; intros ?; by repeat split
  | |- respects _ (close_at _) => apply ln_close
  | |- respects _ (alter_nd_peer _ _) => apply ln_set; constructor
  | |- respects _ (on_link _ _) => apply ln_link; constructor
  | |- respects _ (delete_peer _) => apply respects_modify; intros ?; apply ln_delete
  | |- respects _ undefined_object => apply respects_undefined, _
  | |- respects _ (drainAuthenticatedLink _ _ _) => apply ln_drain
  | |- respects _ (prune_peer _ _) => apply ln_prune
  | |- respects _ (rememberRemoteEpoch _ _) => apply ln_history
  | |- respects _ (get ≫= _) => apply lenient_get; intros ?
  | |- respects _ (mret _) => apply respects_ret, _
  | |- respects _ (lift _) => apply respects_lift, _
  | |- respects _ (throw _) => apply respects_throw, _
  | |- respects _ (throw_when _ _) => apply respects_throw_when, _
  | _ => respects_step
  end.
Ltac lenient := repeat lenient_step.

Section Quiet.
Context `{Noble} {R : Node -> Node -> Prop} `{!Lenient R}.
Context (assertPeerAllowed assertNodeAllowed : bytes -> result unit) (hasUsableRoute : string -> bool).

Lemma lenient_peer_at i : respects R (peer_at i).
Proof. unfold peer_at. lenient. Qed.
Lemma lenient_link_at l : respects R (link_at l).
Proof. unfold link_at. lenient. Qed.
Lemma lenient_link_up l : respects R (link_up l).
Proof. unfold link_up. lenient. Qed.
Lemma lenient_settle h x : respects R (settle_handshake h x).
Proof. unfold settle_handshake. lenient. Qed.
Hint Resolve lenient_peer_at lenient_link_at lenient_link_up lenient_settle : respects.

Lemma lenient_rememberPeer i : respects R (rememberPeer i).
Proof. unfold rememberPeer. lenient. Qed.
Hint Resolve lenient_rememberPeer : respects.
Lemma lenient_unindex_addr i hex : respects R (unindex_addr i hex).
Proof. unfold unindex_addr. lenient. Qed.
Hint Resolve lenient_unindex_addr : respects.
Lemma lenient_removePeerPath key i b : respects R (removePeerPath hasUsableRoute key i b).
Proof. unfold removePeerPath. lenient. Qed.
Hint Resolve lenient_removePeerPath : respects.
Lemma lenient_remove_path i : respects R (remove_path hasUsableRoute i).
Proof. unfold remove_path. lenient. Qed.
Hint Resolve lenient_remove_path : respects.
Lemma lenient_quiet_responders {A} (m : ST Responders A) : quiet_responders m -> respects R (on_responders hasUsableRoute m).
Proof. intros Hm. apply lenient_responders; [by apply ln_resp|auto with respects]. Qed.
Hint Resolve lenient_quiet_responders : respects.
Hint Constructors quiet_responders : respects.

Lemma lenient_send_msg1 tr addr pk m1 b : respects R (send_msg1 assertPeerAllowed tr addr pk m1 b).
Proof. unfold send_msg1. lenient. Qed.
Hint Resolve lenient_send_msg1 : respects.
Lemma lenient_connect_end key i b : respects R (connect_end hasUsableRoute key i b).
Proof. unfold connect_end. lenient. Qed.
Hint Resolve lenient_connect_end : respects.
Lemma lenient_resend_timer i tr addr pk m1 b : respects R (resend_timer assertPeerAllowed i tr addr pk m1 b).
Proof. unfold resend_timer. lenient. Qed.
Lemma lenient_handshake_timer i : respects R (handshake_timer i).
Proof. unfold handshake_timer. lenient. Qed.
Lemma lenient_connect_settled key i h : respects R (connect_settled hasUsableRoute key i h).
Proof. unfold connect_settled. lenient. Qed.
Lemma lenient_close_draining p : respects R (close_draining p).
Proof. unfold close_draining. lenient. Qed.
Hint Resolve lenient_close_draining : respects.
Lemma lenient_onTransportConn addr : respects R (onTransportConn hasUsableRoute addr).
Proof. unfold onTransportConn. lenient. Qed.
Lemma lenient_sendLinkMessage b i ty p now : respects R (sendLinkMessage assertPeerAllowed assertNodeAllowed b i ty p now).
Proof. unfold sendLinkMessage. lenient. Qed.
Lemma lenient_heartbeat now i : respects R (heartbeat assertPeerAllowed now i).
Proof. unfold heartbeat. lenient. Qed.
Hint Resolve lenient_heartbeat : respects.
Lemma lenient_sendHeartbeats ms now : respects R (sendHeartbeats assertPeerAllowed ms now).
Proof. unfold sendHeartbeats. lenient. Qed.

Lemma lenient_rememberPeer_ i : respects R (rememberPeer_ i).
Proof. unfold rememberPeer_. lenient. Qed.
Hint Resolve lenient_rememberPeer_ : respects.
Lemma lenient_rejectRetiredEpoch i l hex e b : respects R (rejectRetiredEpoch hasUsableRoute i l hex e b).
Proof. unfold rejectRetiredEpoch. lenient. Qed.
Lemma lenient_remove_key i : respects R (remove_key i).
Proof. unfold remove_key. lenient. Qed.
Hint Resolve lenient_remove_key lenient_rejectRetiredEpoch : respects.
Lemma lenient_remove_restarted l h i : respects R (remove_restarted hasUsableRoute l h i).
Proof. unfold remove_restarted. lenient. Qed.
Hint Resolve lenient_remove_restarted : respects.
Lemma lenient_removeRestarted hex l tr h : respects R (removeRestartedPeerPaths hasUsableRoute hex l tr h).
Proof. unfold removeRestartedPeerPaths. lenient. Qed.
Hint Resolve lenient_removeRestarted : respects.
Lemma lenient_refuse {A} i l e : respects R (refuse_msg1 hasUsableRoute (A:=A) i l e).
Proof. unfold refuse_msg1. lenient. Qed.
Lemma lenient_unindex i p : respects R (unindex i p).
Proof. unfold unindex. lenient. Qed.
Hint Resolve lenient_unindex lenient_refuse : respects.
Lemma lenient_retire addr i now : respects R (retireDisplacedMsg2Peer hasUsableRoute addr i now).
Proof. unfold retireDisplacedMsg2Peer. lenient. Qed.
Lemma lenient_rejectMsg2 i : respects R (rejectRetiredMsg2Peer i).
Proof. unfold rejectRetiredMsg2Peer. lenient. Qed.
Lemma lenient_alter_confirmation c f : respects R (alter_confirmation c f).
Proof. unfold alter_confirmation. lenient. Qed.
Hint Resolve lenient_retire lenient_rejectMsg2 lenient_alter_confirmation : respects.
Lemma lenient_complete c now : respects R (complete assertPeerAllowed hasUsableRoute c now).
Proof. unfold complete. lenient. Qed.
Hint Resolve lenient_complete : respects.
Lemma lenient_confirm_carrier c now : respects R (confirm_carrier assertPeerAllowed hasUsableRoute c now).
Proof. unfold confirm_carrier. lenient. Qed.
Lemma lenient_confirmation_failed c e : respects R (confirmation_failed c e).
Proof. unfold confirmation_failed. lenient. Qed.
Hint Resolve lenient_confirm_carrier lenient_confirmation_failed : respects.
Lemma lenient_confirmOutgoing i addr now : respects R (confirmOutgoingHandshake assertPeerAllowed i addr now).
Proof. unfold confirmOutgoingHandshake. lenient. Qed.
Lemma lenient_confirmation_sent c now : respects R (confirmation_sent assertPeerAllowed hasUsableRoute c now).
Proof. unfold confirmation_sent. lenient. Qed.
Lemma lenient_match_loop idx now js m : respects R (match_loop idx now js m).
Proof.
  revert m. induction js as [|j js IH]; intros m; cbn [match_loop]; [lenient|].
  apply respects_bind; [apply _| |intros ?; apply IH]. unfold match_peer. lenient.
Qed.
Hint Resolve lenient_match_loop lenient_confirmOutgoing : respects.
Lemma lenient_matchEstablished idx now : respects R (matchEstablishedLink idx now).
Proof. unfold matchEstablishedLink. lenient. Qed.
Lemma lenient_receive i l p now : respects R (receiveFmpLinkPacket i l p now).
Proof. unfold receiveFmpLinkPacket. lenient. Qed.
Lemma lenient_report_settled l e : respects R (report_settled l e).
Proof. unfold report_settled. lenient. Qed.
Lemma lenient_reply_sent i : respects R (reply_sent i).
Proof. unfold reply_sent. lenient. Qed.
Lemma lenient_discardPending i : respects R (discardPendingResponder hasUsableRoute i).
Proof. unfold discardPendingResponder. lenient. Qed.
Lemma lenient_not_adjacent o : respects R (not_adjacent o).
Proof. unfold not_adjacent. lenient. Qed.
Lemma lenient_departures b restart now : respects R (send_departures assertPeerAllowed assertNodeAllowed b restart now).
Proof. unfold send_departures, departure, sendLinkMessage. lenient. Qed.
Lemma lenient_stop_carriers : respects R stop_carriers.
Proof. unfold stop_carriers, stop_carrier, close_draining. lenient. Qed.

(** Clearing the table is deleting its keys. *)
Lemma clear_by_deletes s : R s (set_nd_peers s []).
Proof.
  remember (length (nd_peers s)) as n eqn:En. revert s En. induction n as [n IH] using lt_wf_ind. intros s ->.
  destruct (nd_peers s) as [|[k i] t] eqn:Et; [apply ln_outside; by rewrite ?Et|].
  etransitivity; [apply (ln_delete s k)|]. rewrite Et. set (s1 := set_nd_peers s _).
  assert (Hlt : (length (nd_peers s1) < length ((k, i) :: t))%nat) by (apply JsMap.length_delete_lt; cbn; set_solver).
  exact (IH _ Hlt s1 eq_refl).
Qed.

Lemma lenient_clear_tables : respects R clear_tables.
Proof.
  unfold clear_tables. apply respects_modify. intros s. etransitivity; [apply (clear_by_deletes s)|]. by apply ln_outside.
Qed.
End Quiet.

Inductive fresh_responders `{Noble} : forall {A}, ST Responders A -> Prop :=
| fr_set_ i l now : fresh_responders (set_ i l now).

Inductive handshake_link `{Noble} : forall {A}, ST FmpLink A -> Prop :=
| hl_build random : handshake_link (buildMsg1 random)
| hl_msg1 p random now : handshake_link (handleMsg1 p random now)
| hl_msg2 p now : handshake_link (handleMsg2 p now).

Class Framed `{Noble} (identity : FipsIdentity) (R : Node -> Node -> Prop) : Prop := {
  fm_lenient :: Lenient R;
  fm_put s key i : R s (set_nd_peers s (JsMap.set_ (nd_peers s) key i));
  fm_new pk hex addr tr l : respects R (new_peer (fresh_peer pk hex addr tr l));
  fm_add role pk epoch : len epoch = 8 -> (role = initiator -> is_Some pk) -> respects R (add_link identity role pk epoch);
  fm_link {A} l (m : ST FmpLink A) : handshake_link m -> respects R (on_link l m);
  fm_identity i pk hex : respects R (alter_nd_peer i (fun p => set_identity p pk hex));
  fm_ap_link i l : respects R (alter_nd_peer i (fun p => set_ap_link p l));
  fm_set i l now : forall s, R s (set_responders s (bare (snd (set_ i l now (bare (nd_responders s))))));
  fm_reassemble key fr ms : respects R (reassemble key fr ms);
  fm_reset s : R s (set_reassembler s []);
  fm_forget s : R s (set_history s []);
}.

Section Framed.
Context `{Noble} {identity : FipsIdentity} {R : Node -> Node -> Prop} `{!Framed identity R}.
Context (assertPeerAllowed assertNodeAllowed : bytes -> result unit) (hasUsableRoute : string -> bool).
Context (startupEpoch : bytes) (Hepoch : len startupEpoch = 8).
Let lenient_R : Lenient R := fm_lenient.

Ltac framed_step :=
  match goal with
  | |- respects _ (new_peer _) => apply fm_new
  | |- respects _ (put_peer _ _) => apply respects_modify; intros ?; apply fm_put
  | |- respects _ (on_link _ (handleMsg1 _ _ _)) => apply fm_link; constructor
  | |- respects _ (on_link _ (handleMsg2 _ _)) => apply fm_link; constructor
  | |- respects _ (on_link _ (buildMsg1 _)) => apply fm_link; constructor
  | |- respects _ (alter_nd_peer _ (fun p => set_identity p _ _)) => apply fm_identity
  | |- respects _ (alter_nd_peer _ (fun p => set_ap_link p _)) => apply fm_ap_link
  | |- respects _ (reassemble _ _ _) => apply fm_reassemble
  | |- respects _ _ => solve [eauto 4 with respects]
  | _ => lenient_step
  end.
Ltac framed := repeat framed_step.

Hint Constructors quiet_responders : respects.
Hint Resolve lenient_peer_at lenient_link_at lenient_link_up lenient_settle lenient_remove_path lenient_quiet_responders
  lenient_send_msg1 lenient_connect_end lenient_rememberPeer_ lenient_rejectRetiredEpoch lenient_removeRestarted lenient_refuse
  lenient_confirmOutgoing lenient_rejectMsg2 lenient_matchEstablished lenient_receive lenient_confirm_carrier lenient_not_adjacent : respects.

Lemma framed_set i l now : respects R (on_responders hasUsableRoute (set_ i l now)).
Proof. apply lenient_responders; [by apply fm_set|eauto with respects]. Qed.
Lemma framed_responderLink : respects R (newResponderLink identity startupEpoch).
Proof. by apply fm_add. Qed.
Hint Resolve framed_set framed_responderLink : respects.

Lemma framed_connect tr addr pk epoch random b : len epoch = 8 ->
  respects R (connectAdjacentPeer identity assertPeerAllowed hasUsableRoute tr addr pk epoch random b).
Proof.
  intros He. unfold connectAdjacentPeer. cbv zeta. repeat first [apply fm_add; [done|by eexists]|framed_step].
Qed.

Lemma framed_prepare tr addr key o : respects R (prepareMsg1Peer identity startupEpoch tr addr key o).
Proof. unfold prepareMsg1Peer. framed. Qed.
Lemma framed_stage i p random ms now : respects R (stageResponderReplacement identity hasUsableRoute startupEpoch i p random ms now).
Proof. unfold stageResponderReplacement. cbv zeta. framed. Qed.
Lemma framed_unconfirmed i l ms : respects R (stageUnconfirmedCarrier identity hasUsableRoute startupEpoch i l ms).
Proof. unfold stageUnconfirmedCarrier. framed. Qed.
Lemma framed_replace tr addr key pk l : respects R (replace_peer tr addr key pk l).
Proof. unfold replace_peer. framed. Qed.
Hint Resolve framed_prepare framed_stage framed_unconfirmed framed_replace : respects.
Lemma framed_rebind i l pk tr addr key : respects R (rebind_identity hasUsableRoute i l pk tr addr key).
Proof. unfold rebind_identity. framed. Qed.
Lemma framed_same i l pk e tr addr key h b : respects R (same_identity_msg1 hasUsableRoute i l pk e tr addr key h b).
Proof. unfold same_identity_msg1. framed. Qed.
Hint Resolve framed_rebind framed_same : respects.
Lemma framed_reconcile i r l e tr addr key h b ms :
  respects R (reconcileAuthenticatedMsg1 identity assertPeerAllowed hasUsableRoute startupEpoch i r l e tr addr key h b ms).
Proof. unfold reconcileAuthenticatedMsg1. framed. Qed.
Lemma framed_staged_link i : respects R (staged_link i).
Proof. unfold staged_link. framed. Qed.
Hint Resolve framed_reconcile framed_staged_link : respects.
Lemma framed_msg1 tr addr key o p random ms now :
  respects R (processMsg1 identity assertPeerAllowed hasUsableRoute startupEpoch tr addr key o p random ms now).
Proof. unfold processMsg1. cbv zeta. framed. Qed.
Lemma framed_msg2 tr addr o p ms now : respects R (processMsg2 assertPeerAllowed hasUsableRoute tr addr o p ms now).
Proof. unfold processMsg2. framed. Qed.
Lemma framed_promote i l ms : respects R (promote_link hasUsableRoute i l ms).
Proof. unfold promote_link. framed. Qed.
Hint Resolve framed_msg1 framed_msg2 framed_promote : respects.
Lemma framed_established p ms now : respects R (processEstablished assertPeerAllowed hasUsableRoute p ms now).
Proof. unfold processEstablished. framed. Qed.
Hint Resolve framed_established : respects.
Lemma framed_packet tr addr key o p random ms now :
  respects R (process_packet identity assertPeerAllowed hasUsableRoute startupEpoch tr addr key o p random ms now).
Proof. unfold process_packet. framed. Qed.
Hint Resolve framed_packet : respects.
Lemma framed_process tr addr data at_ random ms now :
  respects R (process identity assertPeerAllowed hasUsableRoute startupEpoch tr addr data at_ random ms now).
Proof. unfold process, process_received. framed. Qed.
Lemma framed_clear : respects R (clear_processor hasUsableRoute).
Proof.
  unfold clear_processor. framed; [|apply respects_modify; intros; apply fm_forget].
  intros s. unfold zoom, DirectTransport.clear, modify. cbn. apply fm_reset.
Qed.
End Framed.

(** ** Runs *)

(** The first number, drawn from the epoch. *)
Definition first_number (startupEpoch : bytes) : Z := let n := readU32le startupEpoch 0 in if n =? 0 then 1 else n.

Section Runs.
Context `{Noble} (identity : FipsIdentity) (startupEpoch : bytes).

(** What may happen to a node, at any time: the policy and the answers of the
    routing may be different each time, and so may the epoch, which a restart
    changes. [connectKnownPeer] lets only compressed keys through to
    [connectAdjacentPeer]. *)
Inductive node_method : forall {A}, ND A -> Prop :=
| nm_process allowed route epoch tr addr data at_ random ms now : len epoch = 8 ->
    node_method (process identity allowed route epoch tr addr data at_ random ms now)
| nm_known allowed addr pk b : node_method (connectKnownPeer allowed addr pk b)
| nm_connect allowed route tr addr pk epoch random b : len epoch = 8 -> sameCompressedIdentity pk pk = true ->
    node_method (connectAdjacentPeer identity allowed route tr addr pk epoch random b)
| nm_resend allowed i tr addr pk msg1 b : node_method (resend_timer allowed i tr addr pk msg1 b)
| nm_timeout i : node_method (handshake_timer i)
| nm_settled route key i h : node_method (connect_settled route key i h)
| nm_conn route addr : node_method (onTransportConn route addr)
| nm_send allowed allowedNode b i ty p now : node_method (sendLinkMessage allowed allowedNode b i ty p now)
| nm_heartbeats allowed ms now : node_method (sendHeartbeats allowed ms now)
| nm_confirmed allowed route c ms : node_method (confirmation_sent allowed route c ms)
| nm_unconfirmed c e : node_method (confirmation_failed c e)
| nm_replied i : node_method (reply_sent i)
| nm_unreplied e : node_method (reply_failed e)
| nm_reported l e : node_method (report_settled l e)
| nm_expire route i l : node_method (on_responders route (expire i l))
| nm_discard route i : node_method (discardPendingResponder route i)
| nm_clear route : node_method (clear_processor route)
| nm_departures allowed allowedNode b restart now : node_method (send_departures allowed allowedNode b restart now)
| nm_stop_carriers : node_method stop_carriers
| nm_clear_tables : node_method clear_tables
| nm_routing i f : (forall p, same_carrier p (f p)) -> node_method (alter_nd_peer i f).

Definition node_step (s s' : Node) : Prop := exists A (m : ND A), node_method m /\ s' = snd (m s).

Definition node_reachable (s : Node) : Prop := exists s0, new_node startupEpoch = Ok s0 /\ rtc node_step s0 s.

Lemma new_node_run s : new_node startupEpoch = Ok s -> len startupEpoch = 8 /\ exists idx, 0 < idx < 2 ^ 32 /\
  idx = first_number startupEpoch /\ s = mkNode [] [] [] new_responders [] [] [] [] [] idx [].
Proof.
  unfold new_node. destruct (len startupEpoch =? 8) eqn:El; cbn [negb throw_if mbind result_bind]; [|done]. cbv zeta. intros E.
  apply Z.eqb_eq in El. split; [done|]. exists (first_number startupEpoch). split; [|split; [reflexivity|]].
  - assert (0 <= readU32le startupEpoch 0 < 2 ^ 32) by (unfold readU32le; rewrite js_ushr_0; by apply Z.mod_pos_bound).
    unfold first_number. cbv zeta. destruct (Z.eqb_spec (readU32le startupEpoch 0) 0); lia.
  - unfold first_number. cbv zeta. injection E as <-. reflexivity.
Qed.

Context (R : Node -> Node -> Prop) `{!Framed identity R}.
Let lenient_R : Lenient R := fm_lenient.

Lemma node_method_framed {A} (m : ND A) : node_method m -> respects R m.
Proof.
  destruct 1; first [apply framed_process | apply framed_connect | apply framed_clear | apply lenient_resend_timer
    | apply lenient_handshake_timer | apply lenient_connect_settled | apply lenient_onTransportConn | apply lenient_sendLinkMessage
    | apply lenient_sendHeartbeats | apply lenient_confirmation_sent | apply lenient_confirmation_failed | apply lenient_reply_sent
    | apply lenient_report_settled | apply lenient_discardPending | apply lenient_departures | apply lenient_stop_carriers | apply lenient_clear_tables | idtac]; try done.
  - unfold connectKnownPeer, peer_at, link_up. lenient.
  - unfold reply_failed. lenient.
  - apply lenient_quiet_responders. constructor.
  - exact (fun _ => false).
  - apply ln_set. by constructor.
Qed.

Lemma node_run_keeps s s' : rtc node_step s s' -> R s s'.
Proof.
  induction 1 as [s|s s1 s2 (A & m & Hm & ->) _ IH]; [reflexivity|].
  etransitivity; [apply (node_method_framed m Hm)|exact IH].
Qed.
End Runs.

(** ** An example: two nodes connect *)

#[local] Existing Instances Toy.noble.

Definition anyone (_ : bytes) : result unit := Ok tt.
Definition no_route (_ : string) : bool := false.
Definition net_carrier : Transport := mkTransport 0 "memory" 1200 None false.
Definition net_addr (addr : string) : TransportAddress := mkAddress "memory" addr.
Definition net_epoch (b : byte) : bytes := replicate 8 b.

Definition net_new (b : byte) : Node := ok_or (new_node (net_epoch b)) (mkNode [] [] [] new_responders [] [] [] [] [] 1 []).

Definition net_process (n : Z) (b : byte) (addr : string) (data : bytes) (now : Z) : ND (option nat) :=
  process (demo_identity n) anyone no_route (net_epoch b) net_carrier (net_addr addr) data now (Toy.key 12) now (F64.of_Z now).

(** The packets that a node has sent, in order. *)
Definition packets (s : Node) : list bytes := omap (fun c => match c with Transmit _ _ p => Some p | _ => None end) (nd_calls s).

(** Node 5 opens a connection to node 9, which answers; node 5 confirms the
    carrier with its first frame. *)
Definition net_dial : ND (option (nat * nat * bytes)) :=
  connectAdjacentPeer (demo_identity 5) anyone no_route net_carrier (net_addr "b") (publicKey (demo_identity 9)) (net_epoch x01) (Toy.key 11) true.
Definition net_dialing : Node := snd (net_dial (net_new x01)).
Definition net_answered : Node := snd (net_process 9 x02 "a" (nth 0 (packets net_dialing) []) 100 (net_new x02)).
Definition net_confirming : Node := snd (net_process 5 x01 "b" (nth 0 (packets net_answered) []) 110 net_dialing).
Definition net_up : Node := snd (net_process 9 x02 "a" (nth 1 (packets net_confirming) []) 120 net_answered).

Lemma net_up_reachable : node_reachable (demo_identity 9) (net_epoch x02) net_up.
Proof.
  exists (net_new x02). split; [vm_compute; reflexivity|]. eapply rtc_l; [|apply rtc_once].
  - eexists _, (net_process 9 x02 "a" (nth 0 (packets net_dialing) []) 100). split; [apply nm_process; reflexivity|reflexivity].
  - eexists _, (net_process 9 x02 "a" (nth 1 (packets net_confirming) []) 120). split; [apply nm_process; reflexivity|reflexivity].
Qed.
