(* ===== verification/ProcessorBounds.v ===== *)
(** * Bounds of the packet processor

    Whatever a node receives and however its connections come and go: the
    numbers by which encrypted frames find their links stay distinct, and what
    is stored on behalf of others stays bounded. *)

From S2P Require Import Prelude Codec Crypto Toy NodeAddr Identity F64 Noise Link FmpWire FmpLink DirectTransport Peers Admission Adjacency Processor ProcessorRuns.

(** ** Numbers of links *)

(** The number of the [j]-th link: 32 bits without zero, from the first on. *)
Definition number (start : Z) (j : nat) : Z := (start - 1 + Z.of_nat j) mod (2 ^ 32 - 1) + 1.

Lemma number_range start j : 0 < number start j < 2 ^ 32.
Proof. unfold number. pose proof (Z.mod_pos_bound (start - 1 + Z.of_nat j) (2 ^ 32 - 1) ltac:(lia)). lia. Qed.

Lemma number_first start : 0 < start < 2 ^ 32 -> number start 0 = start.
Proof. intros. unfold number. rewrite Z.mod_small; lia. Qed.

(** The step of [allocateFmpSessionIdx]. *)
Lemma number_next start j :
  (let next := js_ushr (number start j + 1) 0 in if next =? 0 then 1 else next) = number start (S j).
Proof.
  cbv zeta. rewrite js_ushr_0. unfold to_uint32, number. rewrite Nat2Z.inj_succ.
  set (x := start - 1 + Z.of_nat j). replace (start - 1 + Z.succ (Z.of_nat j)) with (x + 1) by lia.
  pose proof (Z.mod_pos_bound x (2 ^ 32 - 1) ltac:(lia)) as Hx. rewrite (Z.add_mod x 1) by lia. rewrite (Z.mod_small 1) by lia.
  destruct (decide (x mod (2 ^ 32 - 1) = 2 ^ 32 - 2)) as [E|Hne].
  - rewrite E. reflexivity.
  - rewrite !(Z.mod_small (x mod (2 ^ 32 - 1) + 1)) by lia. rewrite Z.mod_small by lia. case_match; bool_split; lia.
Qed.

(** The number of a link decides the link, until all are used. *)
Lemma number_inj start n i j : Z.of_nat n <= 2 ^ 32 - 1 -> (i < n)%nat -> (j < n)%nat -> number start i = number start j -> i = j.
Proof.
  unfold number. intros Hn Hi Hj E.
  assert (E' : ((start - 1 + Z.of_nat i) - (start - 1 + Z.of_nat j)) mod (2 ^ 32 - 1) = 0).
  { rewrite Zminus_mod. replace ((start - 1 + Z.of_nat i) mod (2 ^ 32 - 1)) with ((start - 1 + Z.of_nat j) mod (2 ^ 32 - 1)) by lia.
    by rewrite Z.sub_diag. }
  apply Z.mod_divide in E' as [q Eq]; [|lia]. assert (q = 0) by nia. nia.
Qed.

Definition numbers (s : Node) : list Z := map fl_localSessionIdx (link_objects s).

(** The draining links of the peer [i]. *)
Definition drains (s : Node) (i : nat) : list (Z * (nat * Z)) := default [] (peer_objects s !! i ≫= drainingResponderLinks).

Record numbered (start : Z) (s : Node) : Prop := {
  nb_next : nextFmpSessionIdx s = number start (length (numbers s));
  nb_links : forall j x, numbers s !! j = Some x -> x = number start j;
  nb_drains : forall i e, e ∈ drains s i -> numbers s !! fst (snd e) = Some (fst e);
}.

(** What does not number a link: a link that drains is under its number. *)
Definition renumbers (s s' : Node) : Prop :=
  nextFmpSessionIdx s' = nextFmpSessionIdx s /\ numbers s' = numbers s /\
  forall i e, e ∈ drains s' i -> e ∈ drains s i \/ numbers s !! fst (snd e) = Some (fst e).

#[export] Instance renumbers_preorder : PreOrder renumbers.
Proof.
  unfold renumbers. split; [by intros s; split_and!; [..|by left]|].
  intros a b c (A1 & A2 & A3) (B1 & B2 & B3). split; [congruence|]. split; [congruence|].
  intros i e [He|He]%B3; [by apply A3|right; congruence].
Qed.

Lemma renumbers_numbered start s s' : renumbers s s' -> numbered start s -> numbered start s'.
Proof.
  intros (E1 & E2 & E3) [H1 H2 H3]. split; rewrite ?E1, ?E2; try done. intros i e [He|He]%E3; [by apply (H3 i)|done].
Qed.

(** Operations on the two stores. *)
Lemma renumbers_stores s s' : nextFmpSessionIdx s' = nextFmpSessionIdx s -> numbers s' = numbers s ->
  (forall i, drains s' i = drains s i) -> renumbers s s'.
Proof. intros E1 E2 E3. split; [done|]. split; [done|]. intros i e. rewrite E3. by left. Qed.

Lemma drains_alter s i j (f : AdjacentPeer -> AdjacentPeer) : (forall p, drainingResponderLinks (f p) = drainingResponderLinks p) ->
  drains (set_peer_objects s (alter f i (peer_objects s))) j = drains s j.
Proof.
  intros Hf. unfold drains, peer_objects. cbn. destruct (decide (i = j)) as [<-|Hne].
  - rewrite list_lookup_alter_eq. destruct (peers (nd_responders s) !! i) as [p|]; [|done]. cbn. by rewrite Hf.
  - by rewrite list_lookup_alter_ne.
Qed.

Lemma map_alter_same {A B} (f : A -> B) (g : A -> A) k (l : list A) : (forall x, f (g x) = f x) -> map f (alter g k l) = map f l.
Proof. intros Hg. revert k. induction l as [|x l IH]; intros [|k]; cbn; try done; f_equal; auto. Qed.

Lemma numbers_close l ls : map fl_localSessionIdx (close_link l ls) = map fl_localSessionIdx ls.
Proof. by apply map_alter_same. Qed.

(** No method of a link changes its number. *)
Definition same_number (l l' : FmpLink) : Prop := fl_localSessionIdx l' = fl_localSessionIdx l.
#[export] Instance same_number_preorder : PreOrder same_number.
Proof. unfold same_number. split; [by intros l|intros a b c; congruence]. Qed.

Section Links.
Context `{Noble}.

Lemma number_on_hs {A} (m : ST NoiseHandshake.t A) : respects same_number (on_hs m).
Proof. intros l. unfold on_hs. destruct (fl_hs l) as [hs|]; [|done]. by destruct (m hs). Qed.

Ltac link_step :=
  first [ respects_step | apply respects_modify; done | apply number_on_hs | apply respects_get, _ | apply respects_ret, _
    | apply respects_lift, _ | apply respects_throw, _ | apply respects_throw_when, _ ].

Lemma quiet_link_number {A} (m : ST FmpLink A) : quiet_link m -> respects same_number m.
Proof. destruct 1; unfold encryptOutgoing, decryptIncoming, receiverReportFor; repeat link_step. Qed.

Lemma handshake_link_number {A} (m : ST FmpLink A) : handshake_link m -> respects same_number m.
Proof. destruct 1; unfold buildMsg1, handleMsg1, handleMsg2, finalize, require_hs; repeat link_step. Qed.

Lemma renumbers_on_link {A} l (m : ST FmpLink A) : respects same_number m -> respects renumbers (on_link l m).
Proof.
  intros Hm s. unfold on_link. destruct (link_objects s !! l) as [x|] eqn:Ex; [|done]. specialize (Hm x). destruct (m x) as [r x'].
  cbn [snd] in *. apply renumbers_stores; [done| |done]. unfold numbers, link_objects. cbn.
  rewrite list_fmap_insert, Hm. apply list_insert_id. rewrite list_lookup_fmap. unfold link_objects in Ex. by rewrite Ex.
Qed.

Lemma renumbers_alter i (f : AdjacentPeer -> AdjacentPeer) : (forall p, drainingResponderLinks (f p) = drainingResponderLinks p) ->
  respects renumbers (alter_nd_peer i f).
Proof. intros Hf. apply respects_modify. intros s. apply renumbers_stores; [done|done|]. intros j. by apply drains_alter. Qed.

Lemma drains_set s i p j : peer_objects s !! i = Some p ->
  forall q, (forall e, e ∈ default [] (drainingResponderLinks q) -> e ∈ default [] (drainingResponderLinks p) \/ numbers s !! fst (snd e) = Some (fst e)) ->
  forall e, e ∈ drains (set_peer_objects s (alter (fun _ => q) i (peer_objects s))) j -> e ∈ drains s j \/ numbers s !! fst (snd e) = Some (fst e).
Proof.
  intros Hp q Hq e. unfold drains. cbn. destruct (decide (i = j)) as [<-|Hne].
  - rewrite list_lookup_alter_eq, Hp. cbn. apply Hq.
  - rewrite list_lookup_alter_ne by done. by left.
Qed.

Lemma elem_set_or {K V} `{EqDecision K} (m : list (K * V)) k v e : e ∈ JsMap.set_ m k v -> e = (k, v) \/ e ∈ m.
Proof.
  induction m as [|[k' v'] m IH]; cbn.
  - intros ->%list_elem_of_singleton. by left.
  - case_decide; rewrite !elem_of_cons; [intros [-> | He]; [by left|by right; right]|].
    intros [-> | He]; [by right; left|]. destruct (IH He); [by left|by right; right].
Qed.

Lemma renumbers_same s s' : nextFmpSessionIdx s' = nextFmpSessionIdx s -> nd_responders s' = nd_responders s -> renumbers s s'.
Proof.
  intros E1 E2. apply renumbers_stores; [done|unfold numbers, link_objects; by rewrite E2|].
  intros i. unfold drains, peer_objects. by rewrite E2.
Qed.

Lemma renumbers_close l : respects renumbers (close_at l).
Proof. apply respects_modify. intros s. apply renumbers_stores; [done|apply numbers_close|done]. Qed.

Lemma renumbers_drain i l t : respects renumbers (drainAuthenticatedLink i l t).
Proof.
  intros s. unfold drainAuthenticatedLink.
  destruct (peer_objects s !! i) as [p|] eqn:Ep; [rewrite (peer_at_bind i s p) by done|by rewrite peer_at_none].
  destruct (_ || _); [done|]. rewrite ST_get_bind. destruct (negb _); [apply renumbers_close|].
  destruct (link_objects s !! l) as [x|] eqn:Ex; [rewrite (link_at_bind l s x) by done|by rewrite link_at_none].
  set (m := JsMap.set_ _ _ _).
  assert (Hset : renumbers s (snd (alter_nd_peer i (fun p => set_draining p (Some m)) s))).
  { split; [done|]. split; [done|]. intros j e He. unfold drains in *. cbn in He.
    destruct (decide (i = j)) as [<- | Hne].
    - rewrite list_lookup_alter_eq in He. rewrite Ep in *. cbn in *. apply elem_set_or in He as [-> | He]; [|by left].
      right. cbn. unfold numbers. rewrite list_lookup_fmap. by rewrite Ex.
    - rewrite list_lookup_alter_ne in He by done. by left. }
  destruct (JsMap.get_ _ _) as [[existing ?]|]; [|exact Hset]. destruct (decide _); [exact Hset|apply renumbers_close].
Qed.

Lemma numbers_prune es now m ls : map fl_localSessionIdx (snd (prune_loop es now m ls)) = map fl_localSessionIdx ls /\
  forall e, e ∈ fst (prune_loop es now m ls) -> e ∈ m.
Proof.
  revert m ls. induction es as [|(k & l & t) es IH]; intros m ls; cbn [prune_loop]; [done|]. destruct (_ >? _); [apply IH|].
  destruct (IH (JsMap.delete_ m k) (close_link l ls)) as [E1 E2]. split; [by rewrite E1, numbers_close|].
  intros e [He _]%E2%JsMap.elem_delete. done.
Qed.

Lemma renumbers_prune now i : respects renumbers (prune_peer now i).
Proof.
  intros s. unfold prune_peer. destruct (peer_objects s !! i) as [p|] eqn:Ep; [rewrite (peer_at_bind i s p) by done|by rewrite peer_at_none].
  rewrite ST_get_bind. unfold pruneDrainingResponderLinks. destruct (drainingResponderLinks p) as [m|] eqn:Em.
  2:{ rewrite ST_modify_bind. apply renumbers_stores; [done|done|]. intros j. unfold drains. cbn.
      destruct (decide (i = j)) as [<- | Hne]; [by rewrite list_lookup_alter_eq, Ep|by rewrite list_lookup_alter_ne]. }
  destruct (numbers_prune m now m (link_objects s)) as [En Ee]. destruct (prune_loop m now m (link_objects s)) as [m' ls]. cbn [fst snd] in *.
  rewrite ST_modify_bind. split; [done|]. split; [exact En|]. intros j e He. left. unfold drains in *. cbn in He.
  destruct (decide (i = j)) as [<- | Hne]; [|by rewrite list_lookup_alter_ne in He].
  rewrite list_lookup_alter_eq, Ep in He. rewrite Ep. cbn in *. rewrite Em. apply Ee. destruct (len m' =? 0); [set_solver|done].
Qed.

(** The set of pending responders touches no other field of a peer. *)
Definition same_stores (r r' : Responders) : Prop :=
  map fl_localSessionIdx (links r') = map fl_localSessionIdx (links r) /\
  map drainingResponderLinks (peers r') = map drainingResponderLinks (peers r).

#[export] Instance same_stores_preorder : PreOrder same_stores.
Proof. unfold same_stores. split; [by intros s|intros a b c [? ?] [? ?]; split; congruence]. Qed.

Lemma same_stores_modify f : (forall r, same_stores r (f r)) -> respects same_stores (modify f).
Proof. apply respects_modify. Qed.

Ltac stores_step :=
  first [ respects_step | apply respects_get, _ | apply respects_ret, _ | apply respects_throw, _
    | apply respects_for_each; [apply _|intros ?]
    | apply same_stores_modify; intros ?; split; cbn; first [done | apply numbers_close | by apply map_alter_same] ].

Lemma same_stores_take i : respects same_stores (take_ i).
Proof. unfold take_. repeat stores_step. Qed.
Lemma same_stores_discard i : respects same_stores (discard i).
Proof. unfold discard. repeat first [apply same_stores_take | stores_step]. Qed.
Lemma same_stores_quiet {A} (m : ST Responders A) : quiet_responders m -> respects same_stores m.
Proof.
  destruct 1; unfold clear_pending, expire, removePeerPath; repeat first [apply same_stores_take | apply same_stores_discard | stores_step].
Qed.
Lemma same_stores_set i l now : respects same_stores (set_ i l now).
Proof. unfold set_, removePeerPath. repeat first [apply same_stores_discard | stores_step]. Qed.

Lemma renumbers_responders {A} (m : ST Responders A) : respects same_stores m -> forall s,
  renumbers s (set_responders s (bare (snd (m (bare (nd_responders s)))))).
Proof.
  intros Hm s. destruct (Hm (bare (nd_responders s))) as [E1 E2]. apply renumbers_stores; [done|exact E1|].
  intros i. unfold drains, peer_objects. cbn. f_equal.
  pose proof (f_equal (fun l => l !! i) E2) as E. rewrite !list_lookup_fmap in E. cbn [bare peers nd_responders] in E.
  destruct (peers (snd _) !! i), (peers _ !! i); try done. by injection E.
Qed.

#[export] Instance renumbers_lenient : Lenient renumbers.
Proof.
  split.
  - apply _.
  - intros s s' E1 _ _ _ E2. by apply renumbers_same.
  - intros s key. by apply renumbers_same.
  - intros hex epoch s. unfold rememberRemoteEpoch. rewrite ST_get_bind. case_bool_decide; [done|]. by apply renumbers_same.
  - apply renumbers_close.
  - intros A l m Hm. by apply renumbers_on_link, quiet_link_number.
  - intros i f Hf. apply renumbers_alter. by destruct Hf as [ | | |f Hf]; try done; intros p; apply Hf.
  - apply renumbers_drain.
  - apply renumbers_prune.
  - intros A m Hm. by apply renumbers_responders, same_stores_quiet.
Qed.

Context (identity : FipsIdentity) (Hid : identity_wf identity) (start : Z).

Definition numbers_on (s s' : Node) : Prop := numbered start s -> numbered start s'.

#[export] Instance numbers_on_preorder : PreOrder numbers_on.
Proof. unfold numbers_on. split; [by intros s|intros a b c; auto]. Qed.

Lemma numbers_on_renumbers s s' : renumbers s s' -> numbers_on s s'.
Proof. exact (renumbers_numbered start s s'). Qed.

#[export] Instance numbers_on_lenient : Lenient numbers_on.
Proof.
  assert (Hm : forall A (m : ND A), respects renumbers m -> respects numbers_on m) by (intros A m Hm s; apply numbers_on_renumbers, Hm).
  split; [apply _|..]; intros; first [apply Hm | apply numbers_on_renumbers];
    first [ by apply ln_outside | apply ln_delete | apply ln_history | apply ln_close | by apply ln_link | by apply ln_set | apply ln_drain
      | apply ln_prune | by apply ln_resp ].
Qed.

(** A link takes the next number. *)
Lemma add_link_run role pk epoch s : len epoch = 8 -> (role = initiator -> is_Some pk) -> exists l,
  add_link identity role pk epoch s = (Ok (length (link_objects s)),
    set_link_objects (set_nextIdx s (let next := js_ushr (nextFmpSessionIdx s + 1) 0 in if next =? 0 then 1 else next))
      (link_objects s ++ [l])) /\ fl_localSessionIdx l = nextFmpSessionIdx s.
Proof.
  intros He Hp. destruct Hid as (_ & Hpub & _).
  assert (Hn : exists hs, NoiseHandshake.new IK role identity pk None = Ok hs).
  { unfold NoiseHandshake.new, NoiseHandshake.deriveKeyPair. rewrite Hpub. cbn [mbind result_bind].
    destruct role; [destruct (Hp eq_refl) as [k ->]|]; cbn [mbind result_bind]; by destruct (SymmetricState.mixHash _ _); eexists. }
  destruct Hn as [hs Hn]. eexists. unfold add_link, allocateFmpSessionIdx. rewrite ST_bind_assoc, ST_get_bind, ST_bind_assoc, ST_modify_bind.
  rewrite (ST_bind_ok (mret _) _ _ _ _ eq_refl). erewrite ST_lift_bind by (by apply new_link_run). rewrite ST_get_bind, ST_modify_bind.
  split; [reflexivity|done].
Qed.

#[export] Instance numbers_on_framed : Framed identity numbers_on.
Proof.
  split; [apply _|..].
  - intros s key i. by apply numbers_on_renumbers, renumbers_same.
  - intros pk hex addr tr l s. unfold new_peer. rewrite ST_get_bind, ST_modify_bind. apply numbers_on_renumbers, renumbers_stores; [done|done|].
    intros i. unfold drains. cbn. destruct (decide (i < length (peer_objects s))%nat) as [Hi|Hi]; [by rewrite lookup_app_l|].
    rewrite lookup_app_r by lia. rewrite (lookup_ge_None_2 (peer_objects s)) by lia. by destruct (i - _)%nat as [|[]].
  - intros role pk epoch He Hp s [H1 H2 H3]. destruct (add_link_run role pk epoch s He Hp) as (l & -> & El). cbn [snd].
    match goal with |- numbered _ ?s' => assert (En : numbers s' = numbers s ++ [number start (length (numbers s))]) end.
    { unfold numbers at 1. cbn. rewrite map_app. cbn. by rewrite El, H1. }
    split; [rewrite En|rewrite En|setoid_rewrite En].
    + rewrite length_app. cbn [length]. rewrite Nat.add_1_r, <- number_next, <- H1. done.
    + intros j x [Hj|[Hj Hx]]%lookup_app_Some; [by apply H2|]. apply list_lookup_singleton_Some in Hx as [Hz <-]. f_equal. lia.
    + intros i e He'. apply lookup_app_l_Some. by apply (H3 i).
  - intros A l m Hm s. apply numbers_on_renumbers. by apply renumbers_on_link, handshake_link_number.
  - intros i pk hex s. by apply numbers_on_renumbers, renumbers_alter.
  - intros i l s. by apply numbers_on_renumbers, renumbers_alter.
  - intros i l now s. apply numbers_on_renumbers. apply renumbers_responders, same_stores_set.
  - intros key fr ms s. apply numbers_on_renumbers. unfold reassemble, zoom. destruct (ingest _ _ _ _). by apply renumbers_same.
  - intros s. by apply numbers_on_renumbers, renumbers_same.
  - intros s. by apply numbers_on_renumbers, renumbers_same.
Qed.
End Links.

(** ** Matching a frame *)

(** The link [l] is one of the peer [i]: its current, its pending or a draining one. *)
Definition carries (s : Node) (i l : nat) : Prop := exists p, peer_objects s !! i = Some p /\
  (ap_link p = l \/ pendingResponderLink p = Some l \/ exists k t, (k, (l, t)) ∈ default [] (drainingResponderLinks p)).

Record matched (receiverIdx : Z) (s : Node) (k : nat) (m : Match) : Prop := {
  mt_key : k = mt_link m;
  mt_number : numbers s !! k = Some receiverIdx;
  mt_carried : carries s (mt_peer m) k;
}.

Lemma prune_peer_other now i s j : j <> i -> peer_objects (snd (prune_peer now i s)) !! j = peer_objects s !! j.
Proof.
  intros Hne. unfold prune_peer. destruct (peer_objects s !! i) as [p|] eqn:Ep; [rewrite (peer_at_bind i s p) by done|by rewrite peer_at_none].
  rewrite ST_get_bind. destruct (pruneDrainingResponderLinks _ _ _) as [p' ls]. rewrite ST_modify_bind. cbn. by apply list_lookup_alter_ne.
Qed.

Lemma prune_table now i s : nd_peers (snd (prune_peer now i s)) = nd_peers s.
Proof.
  unfold prune_peer. destruct (peer_objects s !! i) as [p|] eqn:Ep; [rewrite (peer_at_bind i s p) by done|by rewrite peer_at_none].
  rewrite ST_get_bind. by destruct (pruneDrainingResponderLinks _ _ _).
Qed.

Lemma matched_other idx now i s k m : mt_peer m <> i -> matched idx s k m -> matched idx (snd (prune_peer now i s)) k m.
Proof.
  intros Hne [H1 H2 (p & Hp & Hl)]. destruct (renumbers_prune now i s) as (_ & En & _). split; [done|by rewrite En|].
  exists p. by rewrite prune_peer_other.
Qed.

Lemma match_peer_run idx now i matches s ms s' start :
  numbered start s -> match_peer idx now i matches s = (Ok ms, s') ->
  s' = snd (prune_peer now i s) /\ numbered start s' /\
  forall (P : list (nat * Match) -> Prop), P matches ->
    (forall k m ms, mt_peer m = i -> matched idx s' k m -> P ms -> P (JsMap.set_ ms k m)) -> P ms.
Proof.
  intros Hn E. unfold match_peer in E. apply ST_bind_inv in E as ([] & s1 & E1 & E).
  pose proof (renumbers_numbered start s s1) as Hn1. pose proof (renumbers_prune now i s) as Hp. rewrite E1 in Hp |- *. cbn [snd] in *.
  specialize (Hn1 Hp Hn). destruct (peer_objects s1 !! i) as [p|] eqn:Ep; [rewrite (peer_at_bind i s1 p) in E by done|by rewrite peer_at_none in E].
  rewrite ST_get_bind in E. injection E as <- <-. split; [done|]. split; [done|]. intros P HP Hset.
  assert (Hcase : forall l b ms, (match link_objects s1 !! l with Some x => is_up s1 l && (fl_localSessionIdx x =? idx) | None => false end) = true ->
    (ap_link p = l \/ pendingResponderLink p = Some l) -> P ms -> P (JsMap.set_ ms l (mkMatch i l b))).
  { intros l b ms Hl Hc. apply Hset; [done|]. destruct (link_objects s1 !! l) as [x|] eqn:Ex; [|done]. bool_split.
    split; [done|unfold numbers; rewrite list_lookup_fmap, Ex; cbn; congruence|]. exists p. tauto. }
  match goal with |- context [if ?c then JsMap.set_ matches ?l ?m else matches] =>
    assert (H1 : P (if c then JsMap.set_ matches l m else matches)) by (destruct c eqn:Ec; [apply Hcase; auto|done]);
    set (m1 := if c then _ else _) in * end.
  match goal with |- context [match pendingResponderLink p with Some l => @?f l | None => m1 end] =>
    assert (H2 : P (match pendingResponderLink p with Some l => f l | None => m1 end)) end.
  { destruct (pendingResponderLink p) as [l|]; [|done]. cbv beta.
    match goal with |- P (if ?c then _ else _) => destruct c eqn:Ec end; [apply Hcase; auto|done]. }
  match goal with |- P (match ?d with _ => _ end) => destruct d as [[l t]|] eqn:Ed end; [|exact H2].
  apply Hset; [done| |exact H2].
  destruct (drainingResponderLinks p) as [d|] eqn:Edr; [|done]. apply JsMap.get_elem in Ed.
  assert (Hd : (idx, (l, t)) ∈ drains s1 i) by (unfold drains; rewrite Ep; cbn; by rewrite Edr).
  split; [done|by apply (nb_drains _ _ Hn1) in Hd|]. exists p. split; [done|]. right. right. exists idx, t. by rewrite Edr.
Qed.

(** What the loop collects. *)
Record collected (all : list nat) (receiverIdx : Z) (s : Node) (js : list nat) (ms : list (nat * Match)) : Prop := {
  cl_listed : forall k m, (k, m) ∈ ms -> mt_peer m ∈ all;
  cl_wf : JsMap.wf ms;
  cl_matched : forall k m, (k, m) ∈ ms -> matched receiverIdx s k m;
  cl_done : forall k m, (k, m) ∈ ms -> mt_peer m ∉ js;
}.

Lemma match_loop_run all start idx now js matches s ms s' :
  numbered start s -> NoDup js -> (forall j, j ∈ js -> j ∈ all) -> collected all idx s js matches -> match_loop idx now js matches s = (Ok ms, s') ->
  numbered start s' /\ collected all idx s' [] ms /\ numbers s' = numbers s /\ nd_peers s' = nd_peers s.
Proof.
  revert matches s. induction js as [|i js IH]; intros matches s Hn Hd Ha Hc E; cbn [match_loop] in E.
  { injection E as <- <-. done. }
  apply NoDup_cons in Hd as [Hi Hd]. apply ST_bind_inv in E as (m1 & s1 & E1 & E).
  destruct (match_peer_run idx now i matches s m1 s1 start Hn E1) as (-> & Hn1 & HP).
  destruct (renumbers_prune now i s) as (_ & En & _). rewrite <- En, <- (prune_table now i s). apply (IH m1); [done|done|set_solver| |done].
  destruct Hc as [C0 C1 C2 C3]. apply (HP (collected all idx _ js)).
  - split; [done|done| |].
    + intros k m Hm. apply matched_other; [|by apply C2]. specialize (C3 k m Hm). set_solver.
    + intros k m Hm. specialize (C3 k m Hm). set_solver.
  - intros k m ms0 Hp Hm [D1 D2 D3 D4].
    assert (Hset : forall (Q : nat -> Match -> Prop), Q k m -> (forall k' m', (k', m') ∈ ms0 -> Q k' m') ->
      forall k' m', (k', m') ∈ JsMap.set_ ms0 k m -> Q k' m').
    { intros Q Hk HQ k' m' [Heq|Hm']%elem_set_or; [by injection Heq as -> ->|by apply HQ]. }
    split; [|by apply JsMap.wf_set| |].
    + apply (Hset (fun _ m => mt_peer m ∈ all)); [rewrite Hp; set_solver|done].
    + apply (Hset (matched idx _)); [done|done].
    + apply (Hset (fun _ m => mt_peer m ∉ js)); [by rewrite Hp|done].
Qed.

Lemma distinct_spec js : NoDup (distinct js) /\ forall j, j ∈ distinct js <-> j ∈ js.
Proof.
  unfold distinct. split.
  - apply NoDup_ListNoDup, NoDup_rev, NoDup_ListNoDup, NoDup_remove_dups.
  - intros j. rewrite (list_elem_of_In (rev _) j), <- in_rev, <- list_elem_of_In, elem_of_remove_dups, !list_elem_of_In. symmetry. apply in_rev.
Qed.

Lemma ST_bind_throw_inv {S A B} (m : ST S A) (f : A -> ST S B) s e s'' : (m ≫= f) s = (Throw e, s'') ->
  m s = (Throw e, s'') \/ exists a s', m s = (Ok a, s') /\ f a s' = (Throw e, s'').
Proof. unfold mbind, ST_bind. destruct (m s) as [[a|e'] s'] eqn:E; [eauto|]. intros [= -> ->]. by left. Qed.

Lemma throw_when_ok {S} c e (s : S) u s' : throw_when c e s = (Ok u, s') -> c = false /\ s' = s.
Proof. unfold throw_when. destruct c; [done|]. by intros [= _ <-]. Qed.

Lemma match_loop_throws idx now js matches s e s' : match_loop idx now js matches s = (Throw e, s') ->
  e = TypeError "Cannot read properties of undefined".
Proof.
  revert matches s. induction js as [|i js IH]; intros matches s; cbn [match_loop]; [done|].
  intros [E|(m & s1 & E & E')]%ST_bind_throw_inv; [|by eapply IH].
  unfold match_peer, prune_peer in E. destruct (peer_objects s !! i) as [p|] eqn:Ep.
  2:{ rewrite ST_bind_assoc, peer_at_none in E by done. by injection E as <- _. }
  rewrite ST_bind_assoc, (peer_at_bind i s p), ST_bind_assoc, ST_get_bind in E by done.
  destruct (pruneDrainingResponderLinks _ _ _) as [p' ls]. rewrite ST_bind_assoc, ST_modify_bind in E. unfold alter_nd_peer in E. rewrite ST_modify_bind in E.
  match type of E with (peer_at i ≫= _) ?s1 = _ => destruct (peer_objects s1 !! i) as [q|] eqn:Eq;
    [rewrite (peer_at_bind i s1 q) in E by done|rewrite peer_at_none in E by done; by injection E as <- _] end.
  done.
Qed.

(** Two entries of a map with one key. *)
Lemma wf_one_key {K V} (m : list (K * V)) : JsMap.wf m -> (forall e e', e ∈ m -> e' ∈ m -> fst e = fst e') -> (length m <= 1)%nat.
Proof.
  unfold JsMap.wf. destruct m as [|a [|b m]]; cbn; [lia|lia|]. intros [Ha _]%NoDup_cons Hk. exfalso. apply Ha.
  rewrite (Hk a b); set_solver.
Qed.

Section Numbers.
Context `{Noble} (identity : FipsIdentity) (startupEpoch : bytes).

Lemma reachable_numbered s : identity_wf identity -> node_reachable identity startupEpoch s -> numbered (first_number startupEpoch) s.
Proof.
  intros Hid (s0 & E & Hr). destruct (new_node_run startupEpoch s0 E) as (He & idx & Hidx & Ei & ->).
  unshelve refine (node_run_keeps identity (numbers_on (first_number startupEpoch)) _ s Hr _); [by apply numbers_on_framed|].
  split; cbn [numbers link_objects map]; [|done|].
  - change (idx = number (first_number startupEpoch) 0). by rewrite <- Ei, number_first.
  - intros i e He'. unfold drains, peer_objects in He'. cbn in He'. set_solver.
Qed.

Lemma matchEstablished_run start idx now s r s' : numbered start s -> matchEstablishedLink idx now s = (r, s') ->
  (Z.of_nat (length (link_objects s)) <= 2 ^ 32 - 1 -> r <> Throw (Error "ambiguous FMP Established receiver_idx")) /\
  forall m, r = Ok (Some m) -> matched idx s' (mt_link m) m /\ exists key, (key, mt_peer m) ∈ nd_peers s'.
Proof.
  intros Hn E. unfold matchEstablishedLink in E. rewrite ST_get_bind in E.
  destruct (distinct_spec (map snd (nd_peers s))) as [Hd _].
  destruct (match_loop idx now (distinct (map snd (nd_peers s))) [] s) as [[ms|e] s1] eqn:El.
  2:{ rewrite (ST_bind_throw _ _ _ _ _ El) in E. injection E as <- <-. split; [|done]. apply match_loop_throws in El as ->. done. }
  destruct (match_loop_run (map snd (nd_peers s)) start idx now _ [] s ms s1 Hn Hd) as (Hn1 & [C0 C1 C2 _] & En & Et); [| |done|].
  { intros j Hj. by apply (proj1 (proj2 (distinct_spec _) _)). }
  { split; [set_solver|constructor|set_solver|set_solver]. }
  rewrite (ST_bind_ok _ _ _ _ _ El) in E. split.
  - intros Hl. assert (Hone : (length ms <= 1)%nat).
    { apply wf_one_key; [done|]. intros [k m] [k' m'] He He'. apply C2 in He as [_ H1 _]. apply C2 in He' as [_ H2 _]. cbn.
      rewrite En in H1, H2. pose proof (lookup_lt_Some _ _ _ H1) as L1. pose proof (lookup_lt_Some _ _ _ H2) as L2. unfold numbers in L1, L2.
      rewrite length_map in L1, L2. apply (number_inj start (length (link_objects s))); [done|done|done|].
      rewrite <- (nb_links _ _ Hn _ _ H1). by apply (nb_links _ _ Hn). }
    replace (len ms >? 1) with false in E by (symmetry; rewrite Z.gtb_ltb; apply Z.ltb_ge; unfold len; lia).
    rewrite ST_pass in E by done. by injection E as <- _.
  - intros m ->. apply ST_bind_inv in E as ([] & s2 & [_ ->]%throw_when_ok & E). injection E as Em ->. destruct ms as [|[k m'] ms]; [done|].
    cbn in Em. injection Em as ->. pose proof (C2 k m ltac:(set_solver)) as Hm. rewrite <- (mt_key _ _ _ _ Hm). split; [done|].
    pose proof (C0 k m ltac:(set_solver)) as Hl'. apply list_elem_of_fmap in Hl' as ([key j] & Ej & Hk). cbn in Ej. exists key. rewrite Et, Ej. done.
Qed.
End Numbers.

(** ** Bounds *)

Definition pending_ok (r : Responders) : Prop := JsMap.wf (pending r) /\ len (pending r) <= MAX_PENDING_FMP_RESPONDERS.

Definition history_ok (epochs : list string) : Prop := NoDup epochs /\ len epochs <= FMP_REMOTE_EPOCH_HISTORY_LIMIT.

Record bounded (s : Node) : Prop := {
  bd_pending : pending_ok (nd_responders s);
  bd_history : forall hex epochs, (hex, epochs) ∈ remoteEpochHistory s -> history_ok epochs;
  bd_reassembler : reassembler_ok (reassembler s);
}.

Definition pending_on (r r' : Responders) : Prop := pending_ok r -> pending_ok r'.
#[export] Instance pending_on_preorder : PreOrder pending_on.
Proof. unfold pending_on. split; [by intros s|intros a b c; auto]. Qed.

Lemma pending_on_same r r' : pending r' = pending r -> pending_on r r'.
Proof. intros E. unfold pending_on, pending_ok. by rewrite E. Qed.

Lemma pending_on_delete i r : pending_on r (mkResponders (JsMap.delete_ (pending r) i) (peers r) (links r) (removed r)).
Proof. intros [Hw Hl]. split; [by apply JsMap.wf_delete|]. cbn. pose proof (len_delete_le (pending r) i). lia. Qed.

Ltac pending_step :=
  first [ respects_step | apply respects_get, _ | apply respects_ret, _ | apply respects_throw, _
    | apply respects_for_each; [apply _|intros ?]
    | apply respects_modify; intros ?; first [by apply pending_on_same | apply pending_on_delete] ].

Lemma pending_on_take i : respects pending_on (take_ i).
Proof. unfold take_. repeat pending_step. Qed.
Lemma pending_on_discard i : respects pending_on (discard i).
Proof. unfold discard. repeat first [apply pending_on_take | pending_step]. Qed.
Lemma pending_on_quiet {A} (m : ST Responders A) : quiet_responders m -> respects pending_on m.
Proof.
  destruct 1; unfold clear_pending, expire, removePeerPath; repeat first [apply pending_on_take | apply pending_on_discard | pending_step].
Qed.

Lemma pending_on_set i l now : respects pending_on (set_ i l now).
Proof.
  intros r Hr. unfold set_. rewrite ST_get_bind. destruct (is_pending r i l); [done|].
  pose proof (pending_on_discard i r Hr) as Hd. unfold mbind at 1, ST_bind at 1. destruct (discard i r) as [[[]|e] r1]; [|done].
  cbn [snd] in Hd. rewrite ST_get_bind. destruct (_ >=? _) eqn:El.
  - assert (Hs : forall m : ST Responders unit, respects pending_on m -> pending_ok (snd (m r1))) by (intros m Hm; by apply Hm).
    apply Hs. unfold removePeerPath. repeat pending_step.
  - rewrite ST_modify_bind. destruct Hd as [Hw Hl]. split; [by apply JsMap.wf_set|]. cbn. rewrite Z.geb_leb in El. apply Z.leb_gt in El.
    unfold len in *. rewrite JsMap.length_set. destruct (JsMap.has_ _ _); lia.
Qed.

Definition bounds_on (s s' : Node) : Prop := bounded s -> bounded s'.
#[export] Instance bounds_on_preorder : PreOrder bounds_on.
Proof. unfold bounds_on. split; [by intros s|intros a b c; auto]. Qed.

(** Most operations touch none of the three. *)
Definition unbounded (s s' : Node) : Prop := pending (nd_responders s') = pending (nd_responders s) /\
  remoteEpochHistory s' = remoteEpochHistory s /\ reassembler s' = reassembler s.
#[export] Instance unbounded_preorder : PreOrder unbounded.
Proof. unfold unbounded. split; [by intros s|intros a b c (?&?&?) (?&?&?); split_and!; congruence]. Qed.

Lemma bounds_on_same s s' : unbounded s s' -> bounds_on s s'.
Proof. intros (E1 & E2 & E3) [H1 H2 H3]. split; unfold pending_ok; rewrite ?E1, ?E2, ?E3; done. Qed.
Lemma bounds_on_of {A} (m : ND A) : respects unbounded m -> respects bounds_on m.
Proof. intros Hm s. apply bounds_on_same, Hm. Qed.

Lemma unbounded_on_link {A} l (m : ST FmpLink A) : respects unbounded (on_link l m).
Proof. intros s. unfold on_link. destruct (link_objects s !! l); [|done]. by destruct (m _). Qed.

Lemma bounds_on_responders {A} (m : ST Responders A) : respects pending_on m -> forall s,
  bounds_on s (set_responders s (bare (snd (m (bare (nd_responders s)))))).
Proof. intros Hm s [H1 H2 H3]. split; [|done|done]. exact (Hm (bare (nd_responders s)) H1). Qed.

Section Bounds.
Context `{Noble} (identity : FipsIdentity) (startupEpoch : bytes).

Lemma bounds_on_history hex epoch : respects bounds_on (rememberRemoteEpoch hex epoch).
Proof.
  intros s [H1 H2 H3]. unfold rememberRemoteEpoch. rewrite ST_get_bind.
  set (h := default [] _). case_bool_decide as Hin; [done|]. split; [done| |done]. cbn.
  assert (Hh : history_ok h).
  { unfold h. destruct (JsMap.get_ _ hex) as [h'|] eqn:E; [|by split; [apply NoDup_nil_2|vm_compute]]. apply JsMap.get_elem in E. by eapply H2. }
  destruct Hh as [Hd Hl]. intros hex' es [[= -> ->]|He]%elem_set_or; [|by eapply H2].
  assert (Hd' : NoDup (h ++ [toHex epoch])).
  { apply NoDup_app. split; [done|]. split; [set_solver|apply NoDup_singleton]. }
  rewrite Z.gtb_ltb. unfold history_ok, FMP_REMOTE_EPOCH_HISTORY_LIMIT in *. rewrite len_app. change (len [toHex epoch]) with 1.
  destruct (Z.ltb_spec 8 (len h + 1)).
  - split; [by rewrite <- (take_drop 1 (h ++ _)), NoDup_app in Hd'; apply Hd'|]. unfold len in *. rewrite length_drop, length_app. cbn [length]. lia.
  - split; [done|]. rewrite len_app. done.
Qed.

Lemma unbounded_stages : (forall l, respects unbounded (close_at l)) /\ (forall i f, respects unbounded (alter_nd_peer i f)) /\
  (forall i l t, respects unbounded (drainAuthenticatedLink i l t)) /\ (forall now i, respects unbounded (prune_peer now i)) /\
  (forall p, respects unbounded (new_peer p)) /\ (forall role pk epoch, respects unbounded (add_link identity role pk epoch)).
Proof.
  assert (Hmod : forall f, (forall s, unbounded s (f s)) -> respects unbounded (modify f)) by (intros f Hf; by apply respects_modify).
  split_and!; intros; unfold close_at, alter_nd_peer, drainAuthenticatedLink, prune_peer, new_peer, add_link, allocateFmpSessionIdx, peer_at, link_at,
    undefined_object, close_at, alter_nd_peer;
  repeat first [ respects_step | apply respects_get, _ | apply respects_ret, _ | apply respects_throw, _ | apply respects_lift, _ | apply Hmod; done ].
Qed.

#[export] Instance bounds_on_lenient : Lenient bounds_on.
Proof.
  destruct unbounded_stages as (U1 & U2 & U3 & U4 & _). split; [apply _|..].
  - intros s s' E1 _ E2 E3 _. apply bounds_on_same. split_and!; [by rewrite E1|done|done].
  - intros s key. by apply bounds_on_same.
  - apply bounds_on_history.
  - intros l. apply bounds_on_of, U1.
  - intros A l m _. apply bounds_on_of, unbounded_on_link.
  - intros i f _. apply bounds_on_of, U2.
  - intros i l t. apply bounds_on_of, U3.
  - intros now i. apply bounds_on_of, U4.
  - intros A m Hm. by apply bounds_on_responders, pending_on_quiet.
Qed.

#[export] Instance bounds_on_framed : Framed identity bounds_on.
Proof.
  destruct unbounded_stages as (_ & U2 & _ & _ & U5 & U6). split; [apply _|..].
  - intros s key i. by apply bounds_on_same.
  - intros. apply bounds_on_of, U5.
  - intros. apply bounds_on_of, U6.
  - intros A l m _. apply bounds_on_of, unbounded_on_link.
  - intros. apply bounds_on_of, U2.
  - intros. apply bounds_on_of, U2.
  - intros i l now. apply bounds_on_responders, pending_on_set.
  - intros key fr ms s [H1 H2 H3]. unfold reassemble, zoom. destruct (direct_reassembler_bounded (reassembler s) key fr ms H3) as [D1 D2].
    destruct (isDirectFspTransportFragment fr).
    + destruct (D2 eq_refl) as (r & m' & -> & Hm & _). done.
    + destruct (D1 eq_refl) as [e ->]. done.
  - intros s [H1 H2 H3]. split; [done|done|]. split; [constructor|vm_compute; lia|constructor].
  - intros s [H1 H2 H3]. split; [done|set_solver|done].
Qed.

Lemma reachable_bounded s : node_reachable identity startupEpoch s -> bounded s.
Proof.
  intros (s0 & E & Hr). destruct (new_node_run startupEpoch s0 E) as (He & idx & _ & _ & ->).
  refine (node_run_keeps identity bounds_on _ s Hr _). split; cbn; [by split; [apply NoDup_nil_2|vm_compute]|set_solver|].
  split; [constructor|vm_compute; lia|constructor].
Qed.
End Bounds.

(** ** The theorems *)

(** C13: in every run of a node, its links are numbered without gaps from the number
    that the startup epoch gives, skipping zero when the 32 bits wrap around.
    So as long as no number is used twice, a link is known by its number, and
    an encrypted frame is never ambiguous: [matchEstablishedLink] does not fail
    on two matches, and the link it finds has the number that the frame names
    and is a current, a pending or a draining link of the peer it is found with. *)
Theorem link_numbers_unique `{Noble} (identity : FipsIdentity) (startupEpoch : bytes) (s : Node) :
  identity_wf identity -> node_reachable identity startupEpoch s ->
  nextFmpSessionIdx s = number (first_number startupEpoch) (length (link_objects s)) /\
  (forall j x, link_objects s !! j = Some x -> fl_localSessionIdx x = number (first_number startupEpoch) j /\ 0 < fl_localSessionIdx x < 2 ^ 32) /\
  (Z.of_nat (length (link_objects s)) <= 2 ^ 32 - 1 ->
     (forall i j x y, link_objects s !! i = Some x -> link_objects s !! j = Some y -> fl_localSessionIdx x = fl_localSessionIdx y -> i = j) /\
     forall receiverIdx nowMs, let '(r, s') := matchEstablishedLink receiverIdx nowMs s in
       r <> Throw (Error "ambiguous FMP Established receiver_idx") /\
       forall m, r = Ok (Some m) -> carries s' (mt_peer m) (mt_link m) /\
         exists x, link_objects s' !! mt_link m = Some x /\ fl_localSessionIdx x = receiverIdx).
Proof.
  intros Hid Hr. pose proof (reachable_numbered identity startupEpoch s Hid Hr) as Hn.
  assert (Hnum : forall j x, link_objects s !! j = Some x -> fl_localSessionIdx x = number (first_number startupEpoch) j).
  { intros j x Hx. apply (nb_links _ _ Hn). unfold numbers. by rewrite list_lookup_fmap, Hx. }
  split; [rewrite (nb_next _ _ Hn); unfold numbers; by rewrite length_map|]. split.
  - intros j x Hx. rewrite (Hnum j x Hx). split; [done|apply number_range].
  - intros Hl. split.
    + intros i j x y Hx Hy E. rewrite (Hnum i x Hx), (Hnum j y Hy) in E.
      by apply (number_inj (first_number startupEpoch) _ i j Hl (lookup_lt_Some _ _ _ Hx) (lookup_lt_Some _ _ _ Hy)).
    + intros idx now. destruct (matchEstablishedLink idx now s) as [r s'] eqn:E.
      destruct (matchEstablished_run _ idx now s r s' Hn E) as [H1 H2]. split; [auto|]. intros m Em. destruct (H2 m Em) as [[_ K1 K2] _]. split; [done|].
      unfold numbers in K1. rewrite list_lookup_fmap in K1. destruct (link_objects s' !! mt_link m) as [x|]; [|done]. exists x. by injection K1.
Qed.

(** C14: whatever a node receives, from however many sources and in whatever
    order, at most 64 responders await their confirmation, at most 8 epochs are
    remembered of each identity, each once, and at most 512 records are being
    reassembled, of at most 128 parts each and no longer than the longest record. *)
Theorem processor_bounded `{Noble} (identity : FipsIdentity) (startupEpoch : bytes) (s : Node) :
  node_reachable identity startupEpoch s ->
  len (pending (nd_responders s)) <= 64 /\
  (forall hex epochs, JsMap.get_ (remoteEpochHistory s) hex = Some epochs -> NoDup epochs /\ len epochs <= 8) /\
  len (reassembler s) <= 512 /\
  (forall key e, JsMap.get_ (reassembler s) key = Some e -> (2 <= length (fragments e) <= 128)%nat /\
     receivedBytes e = present_len (fragments e) /\ receivedBytes e <= totalLen e <= DIRECT_FSP_TRANSPORT_MAX_REASSEMBLED_LEN).
Proof.
  intros Hr. destruct (reachable_bounded identity startupEpoch s Hr) as [[_ H1] H2 H3]. split; [exact H1|]. split.
  - intros hex epochs Hg. apply JsMap.get_elem in Hg. exact (H2 _ _ Hg).
  - split; [unfold len; destruct H3 as [_ Hs _]; lia|]. intros key e He. destruct (ok_get _ _ _ H3 He) as [E1 E2 E3 E4]. split_and!; [lia|lia|done|done|lia].
Qed.

#[local] Existing Instances Toy.noble.

Lemma link_numbers_unique_witness :
  nextFmpSessionIdx net_up = 33686019 /\
  let '(r, s') := matchEstablishedLink 33686018 130 net_up in
  r = Ok (Some (mkMatch 0 0 false)) /\ carries s' 0 0 /\ exists x, link_objects s' !! 0%nat = Some x /\ fl_localSessionIdx x = 33686018.
Proof.
  split; [vm_compute; reflexivity|].
  destruct (link_numbers_unique (demo_identity 9) (net_epoch x02) net_up ltac:(apply demo_identity_wf; vm_compute; reflexivity) net_up_reachable) as (_ & _ & Hm).
  destruct (Hm ltac:(vm_compute; discriminate)) as [_ Hf]. specialize (Hf 33686018 130).
  assert (E : fst (matchEstablishedLink 33686018 130 net_up) = Ok (Some (mkMatch 0 0 false))) by (vm_compute; reflexivity).
  destruct (matchEstablishedLink 33686018 130 net_up) as [r s']. cbn [fst] in E. split; [exact E|]. exact (proj2 Hf _ E).
Defined.

Lemma processor_bounded_witness : remoteEpochHistory net_up <> [] /\
  forall hex epochs, JsMap.get_ (remoteEpochHistory net_up) hex = Some epochs -> NoDup epochs /\ len epochs <= 8.
Proof.
  split; [vm_compute; discriminate|]. exact (proj1 (proj2 (processor_bounded (demo_identity 9) (net_epoch x02) net_up net_up_reachable))).
Defined.
