(* ===== verification/ProcessorIdentity.v ===== *)
(** * Whose link is whose

    In every run of a node the current and the pending link of a peer are with
    the identity the peer is known by: what [handleMsg1] and [handleMsg2] make of
    handshakes, identities that change at an address, restarts and alternative
    carriers included. *)

From S2P Require Import Prelude Codec Crypto Toy NodeAddr Identity F64 Noise Link FmpWire FmpLink DirectTransport Peers Admission SessionSafety Adjacency Processor ProcessorRuns ProcessorBounds.

(** ** Links *)

Definition compressed (k : bytes) : Prop := sameCompressedIdentity k k = true.

Lemma same_iff a b : sameCompressedIdentity a b = true <->
  (len a = 33 /\ (byte_at a 0 = 2 \/ byte_at a 0 = 3)) /\ (len b = 33 /\ (byte_at b 0 = 2 \/ byte_at b 0 = 3)) /\ subarray_from a 1 = subarray_from b 1.
Proof. unfold sameCompressedIdentity. rewrite !andb_true_iff, !orb_true_iff, !Z.eqb_eq, bytesEqual_true. tauto. Qed.

Lemma same_trans a b c : sameCompressedIdentity a b = true -> sameCompressedIdentity b c = true -> sameCompressedIdentity a c = true.
Proof. rewrite !same_iff. intros (? & ? & ?) (? & ? & ?). split_and!; try tauto. congruence. Qed.

Lemma same_sym a b : sameCompressedIdentity a b = true -> sameCompressedIdentity b a = true.
Proof. rewrite !same_iff. intros (? & ? & ?). done. Qed.

Lemma same_compressed a b : sameCompressedIdentity a b = true -> compressed a /\ compressed b.
Proof. unfold compressed. rewrite !same_iff. tauto. Qed.

(** Two keys of one identity have one address. *)
Lemma same_address `{Noble} a b : sameCompressedIdentity a b = true -> exists addr, deriveNodeAddr a = Ok addr /\ deriveNodeAddr b = Ok addr.
Proof.
  rewrite same_iff. intros ([La Ha] & [Lb Hb] & E). unfold deriveNodeAddr, X_ONLY_PUBKEY_LENGTH, COMPRESSED_PUBKEY_LENGTH. rewrite La, Lb, E.
  cbn [Z.eqb Pos.eqb]. destruct Ha as [-> | ->], Hb as [-> | ->]; by eexists.
Qed.

Lemma compressed_nonempty k : compressed k -> (len k >? 0) = true.
Proof. unfold compressed. rewrite same_iff. intros ([-> _] & _). done. Qed.

Section Handshakes.
Context `{Noble}.
Import NoiseHandshake.

(** The pattern and the role of a handshake do not change. *)
Definition one_handshake (h h' : t) : Prop := pattern h' = pattern h /\ role h' = role h.

#[export] Instance one_handshake_preorder : PreOrder one_handshake.
Proof. unfold one_handshake. split; [by intros h|intros f g h [? ?] [? ?]; split; congruence]. Qed.

Ltac one_step := first [ respects_step | apply respects_zoom; by intros ? ? | apply respects_modify; by intros ? ].

Lemma one_dh tok : respects one_handshake (dh tok).
Proof. unfold dh. repeat one_step. Qed.
Lemma one_write_tokens random toks out : respects one_handshake (write_tokens random toks out).
Proof. revert out. induction toks as [|tok toks IH]; intros out; cbn [write_tokens]; [apply respects_ret, _|]. destruct tok; repeat first [one_step | apply IH | apply one_dh]. Qed.
Lemma one_write random payload : respects one_handshake (writeMessage random payload).
Proof. unfold writeMessage. repeat first [one_step | apply one_write_tokens]. Qed.
Lemma one_read_tokens m toks off : respects one_handshake (read_tokens m toks off).
Proof. revert off. induction toks as [|tok toks IH]; intros off; cbn [read_tokens]; [apply respects_ret, _|]. destruct tok; repeat first [one_step | apply IH | apply one_dh]. Qed.
Lemma one_read m : respects one_handshake (readMessage m).
Proof.
  intros h. unfold readMessage. assert (Hr : respects one_handshake (readMessageInPlace m)) by (unfold readMessageInPlace; repeat first [one_step | apply one_read_tokens]).
  specialize (Hr h). by destruct (readMessageInPlace m h) as [[p|e] h'].
Qed.

Context `{!PointLaws}.

(** The first message names a static key that is a point. *)
Lemma read_point m h p h' : pattern h = IK -> role h = responder -> readMessage m h = (Ok p, h') -> exists k, rs h' = Some k /\ compressed k.
Proof.
  intros Hp Hr E. unfold readMessage in E. destruct (readMessageInPlace m h) as [[p'|e] h1] eqn:E1; [|done]. injection E as -> ->.
  unfold readMessageInPlace in E1. rewrite ST_get_bind in E1. apply ST_bind_inv in E1 as (toks & h1 & Et & E1).
  unfold lift in Et. injection Et as Et <-. rewrite Hp in Et. apply ST_bind_inv in E1 as ([] & h2 & Ec & E1).
  unfold tokensForStep in Et. destruct (Z.eqb_spec (step h) 0) as [E0|].
  2:{ destruct (Z.eqb_spec (step h) 1) as [E0|]; [|done]. rewrite Hr, E0 in Ec. done. }
  injection Et as <-. rewrite Hr, E0 in Ec. cbn in Ec. injection Ec as <-.
  apply ST_bind_inv in E1 as (off & h3 & Erd & E1). cbn [read_tokens] in Erd.
  assert (Hend : NoiseHandshake.rs h' = NoiseHandshake.rs h3).
  { apply ST_bind_inv in E1 as (pl & h4 & Ez & E1). apply ST_bind_inv in E1 as ([] & h5 & Em & E1). injection E1 as _ <-. injection Em as <-.
    cbn. destruct (_ >? 0); [|by injection Ez as _ <-]. unfold zoom in Ez. destruct (SymmetricState.decryptAndHash _ _). by injection Ez as _ <-. }
  rewrite Hend. clear Hend E1. st_inv.
  match goal with Hd : dh TSS ?g = (Ok _, _) |- _ => rename Hd into Hdh; set (g0 := g) in * end.
  pose proof (dh_rs TSS g0) as Hk. rewrite Hdh in Hk. unfold rs_kept in Hk. cbn [snd] in Hk. rewrite Hk. exists x11. split; [done|].
  bool_split. unfold dh in Hdh. rewrite ST_get_bind in Hdh. cbn [dh_operands] in Hdh. apply ST_bind_inv in Hdh as ([pr pu] & g1 & Eo & Hdh).
  injection Eo as <- <- <-. apply ST_bind_inv in Hdh as (sh & g2 & Es & _). unfold lift in Es. injection Es as Es _. cbn in Es.
  unfold ecdh in Es. result_inv. bool_split. match goal with Hg : getSharedSecret _ _ = Ok _ |- _ => apply getSharedSecret_point in Hg; [|done] end.
  destruct_or?; unfold compressed; apply same_iff. split_and!; try done.
  all: match goal with Hx : exists _, _ |- _ => destruct Hx as [z [-> | ->]] end; auto.
Qed.

(** An established link has no handshake left, and its handshake has its role. *)
Definition link_wf (x : FmpLink) : Prop := (fl_state x = LEstablished -> fl_hs x = None) /\
  forall h, fl_hs x = Some h -> pattern h = IK /\ role h = fl_role x.

(** What happens to a link outside of [handleMsg1]: an initiator may become
    established. *)
Record finishes (x x' : FmpLink) : Prop := {
  fi_role : fl_role x' = fl_role x;
  fi_key : fl_remotePubkey x' = fl_remotePubkey x;
  fi_up : fl_state x' = LEstablished -> fl_state x = LEstablished \/ fl_role x = initiator;
  fi_spent : fl_hs x = None -> fl_hs x' = None;
  fi_wf : link_wf x -> link_wf x';
}.

(** No link becomes established. *)
Definition evolves (x x' : FmpLink) : Prop := finishes x x' /\ (fl_state x' = LEstablished -> fl_state x = LEstablished).

#[export] Instance finishes_preorder : PreOrder finishes.
Proof.
  split; [intros x; split; auto|]. intros x y z [A1 A2 A3 A4 A5] [B1 B2 B3 B4 B5]. split; [congruence|congruence| |auto|auto].
  intros Hz. destruct (B3 Hz) as [Hy|Hy]; [auto|right; congruence].
Qed.

#[export] Instance evolves_preorder : PreOrder evolves.
Proof. unfold evolves. split; [intros x; split; [reflexivity|auto]|]. intros x y z [? ?] [? ?]. split; [by etransitivity|auto]. Qed.

(** Stores that leave the handshake. *)
Lemma evolves_store x x' : fl_role x' = fl_role x -> fl_remotePubkey x' = fl_remotePubkey x -> fl_hs x' = fl_hs x ->
  fl_state x' = fl_state x \/ fl_state x' <> LEstablished -> evolves x x'.
Proof.
  intros E1 E2 E3 E4. assert (Hup : fl_state x' = LEstablished -> fl_state x = LEstablished) by (destruct E4; congruence).
  split; [|done]. split; [done|done|auto|by rewrite E3|]. intros [W1 W2]. split; [rewrite E3; auto|by rewrite E1, E3].
Qed.

Lemma evolves_on_hs {A} (m : ST NoiseHandshake.t A) : respects one_handshake m -> respects evolves (on_hs m).
Proof.
  intros Hm x. unfold on_hs. destruct (fl_hs x) as [h|] eqn:Eh; [|done]. specialize (Hm h). destruct (m h) as [r h'] eqn:Em. cbn [snd] in *.
  destruct Hm as [Hp Hr]. split; [|done]. split; cbn; [done|done|auto|congruence|]. intros [W1 W2]. split; cbn.
  - intros Hs. specialize (W1 Hs). congruence.
  - intros h2 [= <-]. rewrite Hp, Hr. by apply W2.
Qed.

Ltac evolve_step :=
  first [ respects_step | apply respects_modify; intros ?; by (apply evolves_store; try done; right) | apply respects_modify; intros ?; by (apply evolves_store; try done; left)
    | apply evolves_on_hs, one_write | apply evolves_on_hs, one_read | apply respects_get, _ | apply respects_ret, _ | apply respects_lift, _
    | apply respects_throw, _ | apply respects_throw_when, _ ].

Lemma evolves_quiet {A} (m : ST FmpLink A) : quiet_link m -> respects evolves m.
Proof. destruct 1; unfold encryptOutgoing, decryptIncoming, receiverReportFor; repeat evolve_step. Qed.

Lemma evolves_build random : respects evolves (buildMsg1 random).
Proof. unfold buildMsg1, require_hs. repeat evolve_step. Qed.

Lemma evolves_close x : evolves x (set_state x LClosed).
Proof. apply evolves_store; try done. by right. Qed.

(** The end of a handshake. *)
Lemma finalize_cases now x r x' : finalize now x = (r, x') ->
  match r with
  | Ok _ => fl_role x' = fl_role x /\ fl_remotePubkey x' = fl_remotePubkey x /\ fl_state x' = LEstablished /\ fl_hs x' = None /\ fl_hs x <> None
  | Throw _ => evolves x x'
  end.
Proof.
  intros E. unfold finalize in E. rewrite ST_get_bind in E. unfold require_hs in E. rewrite ST_bind_assoc, ST_get_bind in E.
  destruct (fl_hs x) as [h|] eqn:Eh.
  2:{ rewrite bool_decide_false in E by (intros [? ?]; done). unfold throw_when in E. cbn [negb] in E. injection E as <- <-. done. }
  rewrite bool_decide_true in E by eauto. rewrite ST_pass in E by done. unfold on_hs, mbind at 1, ST_bind at 1 in E. rewrite Eh in E.
  rewrite ST_get_bind in E. unfold lift in E. destruct (splitTxRx h) as [[tx rx]|e]; injection E as <- <-.
  - done.
  - by apply evolves_store; auto.
Qed.

Definition initiated (x x' : FmpLink) : Prop := fl_role x = initiator -> finishes x x'.

#[export] Instance initiated_preorder : PreOrder initiated.
Proof.
  unfold initiated. split; [intros x _; reflexivity|]. intros x y z Hxy Hyz Hx. specialize (Hxy Hx). etransitivity; [exact Hxy|]. apply Hyz.
  by rewrite (fi_role _ _ Hxy).
Qed.

Lemma initiated_evolves {A} (m : ST FmpLink A) : respects evolves m -> respects initiated m.
Proof. intros Hm x _. apply Hm. Qed.

Lemma initiated_finalize now : respects initiated (finalize now).
Proof.
  intros x Hx. destruct (finalize now x) as [[u|e] x'] eqn:E; pose proof (finalize_cases _ _ _ _ E) as Hf; cbn [snd] in *; [|apply Hf].
  destruct Hf as (E1 & E2 & E3 & E4 & E5). split; [done|done|auto|done|]. intros _. split; [done|]. rewrite E4. done.
Qed.

Lemma finishes_msg2 packet now : respects finishes (handleMsg2 packet now).
Proof.
  intros x. unfold handleMsg2. rewrite ST_get_bind. destruct (decide (fl_role x = initiator)) as [Hi|Hi].
  2:{ rewrite (bool_decide_true (fl_role x <> initiator)) by done. done. }
  rewrite bool_decide_false by auto. rewrite ST_pass by done.
  destruct (decide (fl_state x = LEstablished)); [by repeat case_match|]. revert Hi.
  match goal with |- _ -> finishes _ (snd (?m x)) => enough (respects initiated m) as Hm by exact (Hm x) end. unfold require_hs.
  repeat first [ respects_step | apply initiated_finalize | apply initiated_evolves; solve [evolve_step] ].
Qed.

(** The outcome of [handleMsg1] on a link: nothing, or a key in a handshake. *)
Definition before_end (x x' : FmpLink) : Prop := fl_role x' = fl_role x /\ (fl_state x' = LEstablished -> fl_state x = LEstablished) /\
  (fl_hs x = None -> fl_hs x' = None) /\ (link_wf x -> link_wf x').

#[export] Instance before_end_preorder : PreOrder before_end.
Proof.
  unfold before_end. split; [by intros x|]. intros x y z (? & ? & ? & ?) (? & ? & ? & ?). split_and!; [congruence|auto|auto|auto].
Qed.

Lemma before_end_evolves x x' : evolves x x' -> before_end x x'.
Proof. intros [[] ?]. done. Qed.

Definition fails {S A} (R : S -> S -> Prop) (m : ST S A) : Prop := forall s e s', m s = (Throw e, s') -> R s s'.

Lemma fails_bind {S A B} (R : S -> S -> Prop) `{!PreOrder R} (m : ST S A) (f : A -> ST S B) :
  respects R m -> (forall a, fails R (f a)) -> fails R (m ≫= f).
Proof.
  intros Hm Hf s e s' [E|(a & s1 & E & E')]%ST_bind_throw_inv.
  - specialize (Hm s). by rewrite E in Hm.
  - specialize (Hm s). rewrite E in Hm. etransitivity; [exact Hm|by eapply Hf].
Qed.

Lemma fails_of {S A} (R : S -> S -> Prop) (m : ST S A) : respects R m -> fails R m.
Proof. intros Hm s e s' E. specialize (Hm s). by rewrite E in Hm. Qed.

Lemma before_end_of {A} (m : ST FmpLink A) : respects evolves m -> respects before_end m.
Proof. intros Hm x. apply before_end_evolves, Hm. Qed.

Ltac ending_step :=
  first [ respects_step | apply before_end_of; solve [evolve_step | apply evolves_on_hs; repeat one_step] | apply respects_modify; by intros ? ].

Lemma handleMsg1_cases packet random now x r x' : link_wf x -> handleMsg1 packet random now x = (r, x') ->
  x' = x /\ (forall res, r = Ok res -> fl_role x = responder /\ fl_state x = LEstablished /\ fl_remotePubkey x = Some (hr_remotePubkey res)) \/
  fl_hs x <> None /\ fl_role x = responder /\ fl_state x <> LEstablished /\ fl_role x' = responder /\ link_wf x' /\
  match r with
  | Ok res => fl_state x' = LEstablished /\ fl_remotePubkey x' = Some (hr_remotePubkey res) /\ compressed (hr_remotePubkey res)
  | Throw _ => fl_state x' <> LEstablished
  end.
Proof.
  intros [W1 W2] E. unfold handleMsg1 in E. rewrite ST_get_bind in E. destruct (decide (fl_role x = responder)) as [Hr|Hr].
  2:{ rewrite bool_decide_true in E by done. cbn in E. injection E as <- <-. left. split; [done|]. by intros ? [=]. }
  rewrite bool_decide_false in E by auto. rewrite ST_pass in E by done.
  destruct (decide (fl_state x = LEstablished)) as [Hs|Hs].
  { left. repeat case_match; injection E as <- <-; (split; [done|]); intros res [= <-]; done. }
  destruct (fl_hs x) as [h|] eqn:Eh.
  2:{ left. unfold require_hs in E. rewrite ST_bind_assoc, ST_get_bind, Eh in E. rewrite bool_decide_false in E by (intros [? ?]; done).
      cbn in E. injection E as <- <-. split; [done|]. by intros ? [=]. }
  right. split; [done|]. split; [done|]. split; [done|]. destruct r as [res|e].
  - destruct (W2 h eq_refl) as [Hp Hh]. 
    apply ST_bind_inv in E as ([] & x1 & E1 & E). rewrite (require_hs_run x h Eh) in E1. injection E1 as <-.
    apply ST_bind_inv in E as (m1 & x1 & E1 & E). injection E1 as E1 <-.
    apply ST_bind_inv in E as (p & x1 & E2 & E). unfold on_hs in E2. rewrite Eh in E2.
    destruct (readMessage (noiseMsg1 m1) h) as [rp h1] eqn:Erd. injection E2 as -> <-.
    destruct (read_point _ _ _ _ Hp ltac:(congruence) Erd) as (k & Ek & Hk).
    pose proof (one_read (noiseMsg1 m1) h) as [O1 O2]. rewrite Erd in O1, O2. cbn [snd] in O1, O2.
    apply ST_bind_inv in E as ([] & x1 & Et & E). assert (x1 = set_hs x (Some h1)) as -> by (by apply throw_when_ok in Et as [_ ->]). clear Et.
    rewrite ST_modify_bind in E. set (x2 := set_remote _ _ _) in E.
    apply ST_bind_inv in E as (o & x3 & E3 & E). assert (x3 = x2 /\ o = Some k) as [-> ->].
    { unfold on_hs in E3. cbn in E3. rewrite ST_get_bind in E3. unfold mret, ST_ret, getRemoteStatic in E3. rewrite Ek in E3. by injection E3 as <- <-. }
    clear E3. erewrite ST_lift_bind in E by done. rewrite ST_modify_bind in E. set (x3 := set_remotePubkey x2 k) in E.
    assert (Hw3 : link_wf x3).
    { split; [done|]. intros h2 [= <-]. cbn. split; congruence. }
    assert (Hx3 : fl_role x3 = responder /\ fl_remotePubkey x3 = Some k) by done. clearbody x3. clear x2.
    apply ST_bind_inv in E as (n2 & x4 & E4 & E). pose proof (evolves_on_hs _ (one_write random (fl_localEpoch x)) x3) as H4. rewrite E4 in H4.
    cbn [snd] in H4. clear E4. apply ST_bind_inv in E as ([] & x5 & Et & E). assert (x5 = x4) as -> by (by apply throw_when_ok in Et as [_ ->]).
    clear Et. apply ST_bind_inv in E as (reply & x5 & Et & E). injection Et as _ <-. rewrite ST_modify_bind in E. set (x5 := set_established _ _ _) in E.
    apply ST_bind_inv in E as ([] & x6 & E6 & E). injection E as <- <-. apply finalize_cases in E6 as (F1 & F2 & F3 & F4 & _).
    destruct H4 as [[A1 A2 _ _ _] _]. destruct Hx3 as [X1 X2]. cbn [hr_remotePubkey].
    split; [rewrite F1; cbn; congruence|]. split; [by split; [|rewrite F4]|]. split; [done|]. split; [rewrite F2; cbn; congruence|done].
  - match type of E with ?m x = _ => assert (Hm : fails before_end m) end.
    { unfold require_hs. repeat first [ apply fails_bind; [apply _|solve [repeat ending_step]|intros ?] | apply fails_of; solve [repeat ending_step] ].
      intros y e' y' [Ef|(? & ? & _ & [=])]%ST_bind_throw_inv. apply finalize_cases in Ef. by apply before_end_evolves. }
    specialize (Hm _ _ _ E) as (B1 & B2 & _ & B4). split; [congruence|]. split; [|auto]. apply B4. split; [done|]. rewrite Eh. exact W2.
Qed.
End Handshakes.

(** ** What the operations leave of peers and links *)

(** A peer keeps its identity, its address and its link. *)
Record lessens (p p' : AdjacentPeer) : Prop := {
  le_pubkey : ap_pubkey p' = ap_pubkey p;
  le_hex : ap_pubkeyHex p' = ap_pubkeyHex p;
  le_addr : ap_remoteAddr p' = ap_remoteAddr p;
  le_link : ap_link p' = ap_link p;
  le_pending : pendingResponderLink p' = pendingResponderLink p \/ pendingResponderLink p' = None;
}.

#[export] Instance lessens_preorder : PreOrder lessens.
Proof.
  split; [intros p; split; auto|]. intros p q r [A1 A2 A3 A4 A5] [B1 B2 B3 B4 B5]. split; try congruence. destruct B5 as [->|]; auto.
Qed.

Record eases (r r' : Responders) : Prop := {
  ea_links : Forall2 evolves (links r) (links r');
  ea_peers : Forall2 lessens (peers r) (peers r');
  ea_pending : forall i e, JsMap.get_ (pending r') i = Some e -> JsMap.get_ (pending r) i = Some e;
}.

#[export] Instance eases_preorder : PreOrder eases.
Proof.
  split; [intros r; split; [reflexivity|reflexivity|auto]|]. intros r1 r2 r3 [A1 A2 A3] [B1 B2 B3].
  split; [by etransitivity|by etransitivity|auto].
Qed.

Record settles (s s' : Node) : Prop := {
  st_stores : eases (nd_responders s) (nd_responders s');
  st_table : forall e, e ∈ nd_peers s' -> e ∈ nd_peers s;
  st_wf : JsMap.wf (nd_peers s) -> JsMap.wf (nd_peers s');
}.

#[export] Instance settles_preorder : PreOrder settles.
Proof.
  split; [intros s; split; [reflexivity|auto|auto]|]. intros s1 s2 s3 [A1 A2 A3] [B1 B2 B3]. split; [by etransitivity|auto|auto].
Qed.

Lemma Forall2_alter_self {A} (R : A -> A -> Prop) `{!Reflexive R} i f (l : list A) : (forall x, l !! i = Some x -> R x (f x)) -> Forall2 R l (alter f i l).
Proof.
  intros Hf. apply Forall2_same_length_lookup. split; [by rewrite length_alter|]. intros j x y Hx Hy. destruct (decide (i = j)) as [<-|Hne].
  - rewrite list_lookup_alter_eq, Hx in Hy. injection Hy as <-. by apply Hf.
  - rewrite list_lookup_alter_ne in Hy by done. assert (x = y) as -> by congruence. reflexivity.
Qed.

Lemma eases_close i r : Forall2 evolves (links r) (close_link i (links r)).
Proof. apply Forall2_alter_self; [apply _|]. intros x _. apply evolves_close. Qed.

Lemma eases_alter i f r : (forall p, lessens p (f p)) -> eases r (alter_peer i f r).
Proof. intros Hf. split; [reflexivity| |auto]. cbn. apply Forall2_alter_self; [apply _|auto]. Qed.

Lemma eases_take i : respects eases (take_ i).
Proof.
  intros r. rewrite take_run. cbn [snd]. split; cbn; [reflexivity| |].
  - apply Forall2_alter_self; [apply _|]. intros p _. split; auto.
  - intros j e. destruct (decide (i = j)) as [<-|Hne]; [by rewrite JsMap.get_delete_eq|by rewrite JsMap.get_delete_ne].
Qed.

Ltac ease_step :=
  first [ respects_step | apply respects_get, _ | apply respects_ret, _ | apply respects_throw, _ | apply eases_take
    | apply respects_for_each; [apply _|intros ?]
    | apply respects_modify; intros ?; split; cbn; first [apply eases_close | reflexivity | auto] ].

Lemma eases_discard i : respects eases (discard i).
Proof. unfold discard. repeat ease_step. Qed.

Lemma eases_quiet `{Noble} {A} (m : ST Responders A) : quiet_responders m -> respects eases m.
Proof. destruct 1; unfold clear_pending, expire, removePeerPath; repeat first [apply eases_discard | ease_step]. Qed.

Lemma settles_stores s s' : eases (nd_responders s) (nd_responders s') -> nd_peers s' = nd_peers s -> settles s s'.
Proof. intros He E. split; [done|by rewrite E|by rewrite E]. Qed.

Lemma settles_same s s' : nd_responders s' = nd_responders s -> nd_peers s' = nd_peers s -> settles s s'.
Proof. intros E1 E2. apply settles_stores; [by rewrite E1|done]. Qed.

Lemma settles_links s ls : Forall2 evolves (link_objects s) ls -> settles s (set_link_objects s ls).
Proof. intros Hl. apply settles_stores; [|done]. split; [exact Hl|reflexivity|auto]. Qed.

Lemma settles_peers s ps : Forall2 lessens (peer_objects s) ps -> settles s (set_peer_objects s ps).
Proof. intros Hp. apply settles_stores; [|done]. split; [reflexivity|exact Hp|auto]. Qed.

Lemma settles_alter i f : (forall p, lessens p (f p)) -> respects settles (alter_nd_peer i f).
Proof. intros Hf s. apply settles_peers, Forall2_alter_self; [apply _|auto]. Qed.

Lemma settles_close l : respects settles (close_at l).
Proof. intros s. apply settles_links, (eases_close l (nd_responders s)). Qed.

Section Settling.
Context `{Noble}.

Lemma settles_on_link {A} l (m : ST FmpLink A) : respects evolves m -> respects settles (on_link l m).
Proof.
  intros Hm s. unfold on_link. destruct (link_objects s !! l) as [x|] eqn:Ex; [|done]. specialize (Hm x). destruct (m x) as [r x'].
  apply settles_links. rewrite list_insert_alter. apply Forall2_alter_self; [apply _|]. by intros y [= <-]%(eq_trans (eq_sym Ex)).
Qed.

Lemma settles_drain i l t : respects settles (drainAuthenticatedLink i l t).
Proof.
  assert (Hset : forall m, respects settles (alter_nd_peer i (fun p => set_draining p m))) by (intros m; apply settles_alter; split; auto).
  unfold drainAuthenticatedLink, peer_at, link_at, undefined_object. repeat first [respects_step | apply Hset | apply settles_close].
Qed.

Lemma evolves_prune es now m ls : Forall2 evolves ls (snd (prune_loop es now m ls)).
Proof.
  revert m ls. induction es as [|(k & l & t) es IH]; intros m ls; cbn [prune_loop]; [reflexivity|]. destruct (_ >? _); [apply IH|].
  etransitivity; [|apply IH]. apply Forall2_alter_self; [apply _|]. intros x _. apply evolves_close.
Qed.

Lemma settles_prune now i : respects settles (prune_peer now i).
Proof.
  intros s. unfold prune_peer. destruct (peer_objects s !! i) as [p|] eqn:Ep; [rewrite (peer_at_bind i s p) by done|by rewrite peer_at_none].
  rewrite ST_get_bind. unfold pruneDrainingResponderLinks.
  assert (Hq : forall q ls, lessens p q -> Forall2 evolves (link_objects s) ls ->
    settles s (set_peer_objects (set_link_objects s ls) (alter (fun _ => q) i (peer_objects s)))).
  { intros q ls Hq Hl. apply settles_stores; [|done]. split; [exact Hl| |auto]. apply Forall2_alter_self; [apply _|].
    by intros x [= <-]%(eq_trans (eq_sym Ep)). }
  destruct (drainingResponderLinks p) as [m|]; [|by rewrite ST_modify_bind; apply Hq].
  pose proof (evolves_prune m now m (link_objects s)) as Hl. destruct (prune_loop m now m (link_objects s)) as [m' ls].
  rewrite ST_modify_bind. apply Hq; [split; auto|exact Hl].
Qed.

#[export] Instance settles_lenient : Lenient settles.
Proof.
  split.
  - apply _.
  - intros s s' E1 E2 _ _ _. by apply settles_same.
  - intros s key. split; [reflexivity| |apply JsMap.wf_delete]. by intros e [He _]%JsMap.elem_delete.
  - intros hex epoch s. unfold rememberRemoteEpoch. rewrite ST_get_bind. case_bool_decide; [done|]. by apply settles_same.
  - apply settles_close.
  - intros A l m Hm. by apply settles_on_link, evolves_quiet.
  - intros i f Hf. apply settles_alter. destruct Hf as [ | | |f Hf]; intros p; [by split; auto..|].
    destruct (Hf p) as (? & ? & ? & ? & ? & ? & _). split; auto.
  - apply settles_drain.
  - apply settles_prune.
  - intros A m Hm s. apply settles_stores; [|done]. destruct (eases_quiet m Hm (bare (nd_responders s))) as [E1 E2 E3]. by split.
Qed.
End Settling.

(** ** Identities *)

(** The link [x] is with the identity the peer [p] is known by, if it is
    established or waits for its answer. *)
Definition named (p : AdjacentPeer) (x : FmpLink) : Prop := fl_state x = LEstablished \/ fl_role x = initiator ->
  exists pk, fl_remotePubkey x = Some pk /\ sameCompressedIdentity pk (ap_pubkey p) = true.

Definition slot (p : AdjacentPeer) (l : nat) : Prop := ap_link p = l \/ pendingResponderLink p = Some l.

(** The peer [i] is in the table, or is about to be put back. *)
Definition tracked (extra : option nat) (s : Node) (i : nat) : Prop := (exists k, (k, i) ∈ nd_peers s) \/ extra = Some i.

(** A link whose handshake is over. *)
Definition spent (s : Node) (l : nat) : Prop := exists x, link_objects s !! l = Some x /\ fl_hs x = None.

Section Identified.
Context `{Noble}.

Definition well_named (p : AdjacentPeer) : Prop :=
  ap_pubkey p = [] /\ ap_pubkeyHex p = ""%string \/ compressed (ap_pubkey p) /\ ap_pubkeyHex p = toHex (ap_pubkey p).

(** [hole] is a peer and its link in the middle of [handleMsg1]. *)
Record identified (extra : option nat) (hole : option (nat * nat)) (s : Node) : Prop := {
  id_wf : JsMap.wf (nd_peers s);
  id_peer : forall i, tracked extra s i -> exists p, peer_objects s !! i = Some p /\ well_named p /\
    forall k, (k, i) ∈ nd_peers s -> k = transportAddressKey (ap_remoteAddr p);
  id_slot : forall i p l, tracked extra s i -> peer_objects s !! i = Some p -> slot p l ->
    exists x, link_objects s !! l = Some x /\ (hole = Some (i, l) \/ named p x);
  id_shared : forall i j p q l, tracked extra s i -> tracked extra s j -> i <> j -> peer_objects s !! i = Some p -> peer_objects s !! j = Some q ->
    slot p l -> slot q l -> spent s l;
  id_links : forall l x, link_objects s !! l = Some x -> link_wf x;
  id_pending : forall i e, JsMap.get_ (pending (nd_responders s)) i = Some e -> (fst e < length (link_objects s))%nat;
}.

Lemma named_evolves p p' x x' : lessens p p' -> evolves x x' -> named p x -> named p' x'.
Proof.
  intros Hp [Hx Hs] Hn Ho. rewrite (fi_key _ _ Hx), (le_pubkey _ _ Hp). apply Hn. rewrite (fi_role _ _ Hx) in Ho. destruct Ho; auto.
Qed.

Lemma slot_lessens p p' l : lessens p p' -> slot p' l -> slot p l.
Proof. intros [_ _ _ E1 E2] [Hl|Hl]; [left; congruence|]. destruct E2 as [E2|E2]; [right; congruence|congruence]. Qed.

Lemma spent_settles s s' l : settles s s' -> spent s l -> spent s' l.
Proof.
  intros [[Hl _ _] _ _] (x & Hx & Hh). destruct (Forall2_lookup_l _ _ _ _ _ Hl Hx) as (x' & Hx' & [Hf _]). exists x'. split; [done|by apply Hf].
Qed.

Lemma tracked_settles extra s s' i : settles s s' -> tracked extra s' i -> tracked extra s i.
Proof. intros [_ Ht _] [[k Hk]|Hi]; [left; exists k; auto|by right]. Qed.

Lemma identified_settles extra hole s s' : settles s s' -> identified extra hole s -> identified extra hole s'.
Proof.
  intros Hs [I1 I2 I3 I4 I5 I6]. pose proof (fun i => tracked_settles extra s s' i Hs) as Ht. pose proof Hs as [[Hl Hp Hq] Htab Hwf].
  assert (Hback : forall i p', peer_objects s' !! i = Some p' -> exists p, peer_objects s !! i = Some p /\ lessens p p').
  { intros i p' Hp'. destruct (Forall2_lookup_r _ _ _ _ _ Hp Hp') as (p & ? & ?). by exists p. }
  split.
  - by apply Hwf.
  - intros i Hi. destruct (I2 i (Ht i Hi)) as (p & Ep & Hn & Hk). destruct (Forall2_lookup_l _ _ _ _ _ Hp Ep) as (p' & Ep' & Hle).
    exists p'. split; [done|]. destruct Hle as [E1 E2 E3 _ _]. split; [unfold well_named; by rewrite E1, E2|]. intros k Hki. rewrite E3. by apply Hk, Htab.
  - intros i p' l Hi Hp' Hsl. destruct (Hback i p' Hp') as (p & Ep & Hle). destruct (I3 i p l (Ht i Hi) Ep (slot_lessens _ _ _ Hle Hsl)) as (x & Ex & Hx).
    destruct (Forall2_lookup_l _ _ _ _ _ Hl Ex) as (x' & Ex' & He). exists x'. split; [done|]. destruct Hx as [Hx|Hx]; [by left|right]. by eapply named_evolves.
  - intros i j p' q' l Hi Hj Hne Hp' Hq' Hpl Hql. destruct (Hback i p' Hp') as (p & Ep & Hlp). destruct (Hback j q' Hq') as (q & Eq & Hlq).
    apply (spent_settles s); [done|]. eapply (I4 i j); eauto using slot_lessens.
  - intros l x' Hx'. destruct (Forall2_lookup_r _ _ _ _ _ Hl Hx') as (x & Ex & [Hf _]). apply Hf. by eapply I5.
  - intros i e He. unfold link_objects. rewrite <- (Forall2_length _ _ _ Hl). apply (I6 i), Hq, He.
Qed.

(** One link changes. *)
Lemma identified_link extra hole hole' s l x x' : identified extra hole s -> link_objects s !! l = Some x -> link_wf x' ->
  (fl_hs x = None -> fl_hs x' = None) -> (hole = None \/ hole' = hole) ->
  (forall i p, tracked extra s i -> peer_objects s !! i = Some p -> slot p l -> named p x -> hole' = Some (i, l) \/ named p x') ->
  identified extra hole' (set_link_objects s (<[l:=x']> (link_objects s))).
Proof.
  intros [I1 I2 I3 I4 I5 I6] Hx Hw Hs Hh Hn. set (s' := set_link_objects _ _).
  assert (Hl : forall k y, link_objects s !! k = Some y -> exists y', link_objects s' !! k = Some y' /\ (k = l /\ y' = x' \/ k <> l /\ y' = y)).
  { intros k y Hy. unfold s', link_objects. cbn. destruct (decide (k = l)) as [->|Hne].
    - rewrite list_lookup_insert_eq by (by eapply lookup_lt_Some). by eauto.
    - rewrite list_lookup_insert_ne by done. by eauto. }
  split; [done|exact I2| | | |].
  - intros i p k Hi Hp Hsl. destruct (I3 i p k Hi Hp Hsl) as (y & Hy & Hny). destruct (Hl k y Hy) as (y' & Hy' & Hc). exists y'. split; [done|].
    destruct Hc as [[-> ->]|[_ ->]].
    + assert (y = x) as -> by congruence. destruct Hny as [Hny|Hny]; [left; destruct Hh; congruence|by eapply Hn].
    + destruct Hny as [Hny|Hny]; [left; destruct Hh; congruence|by right].
  - intros i j p q k Hi Hj Hne Hp Hq Hpl Hql. destruct (I4 i j p q k Hi Hj Hne Hp Hq Hpl Hql) as (y & Hy & Hys).
    destruct (Hl k y Hy) as (y' & Hy' & [[-> ->]|[_ ->]]); eexists; (split; [exact Hy'|]); [|done]. apply Hs. congruence.
  - intros k y Hy. unfold s', link_objects in Hy. cbn in Hy. apply list_lookup_insert_Some in Hy as [(<- & -> & _)|[_ Hy]]; [done|]. by eapply I5.
  - intros i e He. unfold s', link_objects. cbn. rewrite length_insert. by apply (I6 i).
Qed.

(** Nobody has the link [l]. *)
Definition unused (extra : option nat) (l : nat) (s : Node) : Prop :=
  (forall i p, tracked extra s i -> peer_objects s !! i = Some p -> ~ slot p l) /\
  forall i e, JsMap.get_ (pending (nd_responders s)) i = Some e -> fst e <> l.

(** A new link. *)
Lemma identified_new_link extra hole s n x : identified extra hole s -> link_wf x ->
  let s' := set_link_objects (set_nextIdx s n) (link_objects s ++ [x]) in
  identified extra hole s' /\ unused extra (length (link_objects s)) s' /\ settles s (set_nextIdx s n).
Proof.
  intros [I1 I2 I3 I4 I5 I6] Hw s'.
  assert (Hl : forall k y, link_objects s !! k = Some y -> link_objects s' !! k = Some y) by (intros; by apply lookup_app_l_Some).
  split; [split; [done|exact I2| | | |]|split; [split|by apply settles_same]].
  - intros i p k Hi Hp Hsl. destruct (I3 i p k Hi Hp Hsl) as (y & Hy & Hny). eauto.
  - intros i j p q k Hi Hj Hne Hp Hq Hpl Hql. destruct (I4 i j p q k Hi Hj Hne Hp Hq Hpl Hql) as (y & Hy & Hys). exists y. eauto.
  - intros k y [Hy|[_ Hy]]%lookup_app_Some; [by eapply I5|]. by apply list_lookup_singleton_Some in Hy as [_ <-].
  - intros i e He. unfold s', link_objects. cbn. rewrite length_app. specialize (I6 i e He). unfold link_objects in I6. lia.
  - intros i p Hi Hp Hsl. destruct (I3 i p _ Hi Hp Hsl) as (y & Hy & _). apply lookup_lt_Some in Hy. lia.
  - intros i e He. specialize (I6 i e He). unfold link_objects in *. lia.
Qed.

(** A new peer, which is in no table yet. *)
Lemma identified_new_peer extra hole s p : identified extra hole s -> identified extra hole (set_peer_objects s (peer_objects s ++ [p])).
Proof.
  intros [I1 I2 I3 I4 I5 I6]. set (s' := set_peer_objects _ _).
  assert (Hb : forall i q, tracked extra s i -> peer_objects s' !! i = Some q -> peer_objects s !! i = Some q).
  { intros i q Hi [Hq|[Hge _]]%lookup_app_Some; [done|]. destruct (I2 i Hi) as (p' & Hp' & _). apply lookup_lt_Some in Hp'. unfold peer_objects in *. lia. }
  split; [done| | | |exact I5|exact I6].
  - intros i Hi. destruct (I2 i Hi) as (q & Hq & ?). exists q. split; [by apply lookup_app_l_Some|done].
  - intros i q k Hi Hq. apply I3; [done|by apply Hb].
  - intros i j q r k Hi Hj Hne Hq Hr. apply (I4 i j); [done|done|done|by apply Hb|by apply Hb].
Qed.

(** A tracked peer changes. *)
Lemma identified_peer extra hole hole' s i p p' : identified extra hole s -> tracked extra s i -> peer_objects s !! i = Some p ->
  ap_remoteAddr p' = ap_remoteAddr p -> well_named p' ->
  (forall j l, j <> i -> hole = Some (j, l) -> hole' = hole) ->
  (forall l, slot p' l -> (exists x, link_objects s !! l = Some x /\ (hole' = Some (i, l) \/ named p' x)) /\
     (slot p l \/ spent s l \/ forall j q, tracked extra s j -> peer_objects s !! j = Some q -> ~ slot q l)) ->
  identified extra hole' (set_peer_objects s (alter (fun _ => p') i (peer_objects s))).
Proof.
  intros [I1 I2 I3 I4 I5 I6] Hi Hp Ha Hw Hh Hsl. set (s' := set_peer_objects _ _).
  assert (Hb : forall j q, peer_objects s' !! j = Some q -> j = i /\ q = p' \/ j <> i /\ peer_objects s !! j = Some q).
  { intros j q Hq. unfold s', peer_objects in Hq. cbn in Hq. destruct (decide (i = j)) as [<-|Hne].
    - rewrite list_lookup_alter_eq in Hq. unfold peer_objects in Hp. rewrite Hp in Hq. injection Hq as <-. by left.
    - rewrite list_lookup_alter_ne in Hq by done. by right. }
  split; [done| | | |exact I5|exact I6].
  - intros j Hj. destruct (I2 j Hj) as (q & Hq & Hnq & Hk). unfold s', peer_objects. cbn. destruct (decide (i = j)) as [<-|Hne].
    + exists p'. rewrite list_lookup_alter_eq. unfold peer_objects in Hp. rewrite Hp. split; [done|]. split; [done|].
      unfold peer_objects in Hq. rewrite Ha. assert (q = p) as -> by congruence. done.
    + exists q. by rewrite list_lookup_alter_ne.
  - intros j q l Hj [[-> ->]|[Hne Hq]]%Hb Hql; [by apply Hsl|]. destruct (I3 j q l Hj Hq Hql) as (x & Hx & Hnx). exists x. split; [done|].
    destruct Hnx as [Hnx|Hnx]; [left|by right]. rewrite <- Hnx. by eapply Hh.
  - assert (Hone : forall j q l, j <> i -> tracked extra s j -> peer_objects s !! j = Some q -> slot p' l -> slot q l -> spent s l).
    { intros j q l Hne Hj Hq Hpl Hql. destruct (Hsl l Hpl) as [_ [Hpl'|[Hs|Hno]]]; [by eapply (I4 i j)|done|by destruct (Hno j q Hj Hq)]. }
    intros j k q r l Hj Hk Hne [[-> ->]|[Hnj Hq]]%Hb [[-> ->]|[Hnk Hr]]%Hb Hql Hrl; [done|by eapply (Hone k)|by eapply (Hone j)|by eapply (I4 j k)].
Qed.

(** A peer outside of the table changes. *)
Lemma identified_outside extra hole hole' s i f : identified extra hole s -> ~ tracked extra s i ->
  (forall j l, j <> i -> hole = Some (j, l) -> hole' = hole) ->
  identified extra hole' (set_peer_objects s (alter f i (peer_objects s))).
Proof.
  intros [I1 I2 I3 I4 I5 I6] Hi Hh. set (s' := set_peer_objects _ _).
  assert (Hb : forall j, tracked extra s j -> j <> i /\ peer_objects s' !! j = peer_objects s !! j).
  { intros j Hj. assert (j <> i) as Hne by (intros ->; done). split; [done|]. unfold s', peer_objects. cbn. by rewrite list_lookup_alter_ne. }
  split; [done| | | |exact I5|exact I6].
  - intros j Hj. rewrite (proj2 (Hb j Hj)). by apply I2.
  - intros j q l Hj. destruct (Hb j Hj) as [Hne ->]. intros Hq Hql. destruct (I3 j q l Hj Hq Hql) as (x & Hx & Hnx). exists x. split; [done|].
    destruct Hnx as [Hnx|Hnx]; [left|by right]. rewrite <- Hnx. by eapply Hh.
  - intros j k q r l Hj Hk Hne. rewrite (proj2 (Hb j Hj)), (proj2 (Hb k Hk)). by apply I4.
Qed.

Lemma tracked_dec extra s i : tracked extra s i \/ ~ tracked extra s i.
Proof.
  unfold tracked. destruct (decide (i ∈ map snd (nd_peers s))) as [Hi|Hi].
  - left. left. apply list_elem_of_fmap in Hi as ([k j] & -> & Hj). by exists k.
  - destruct (decide (extra = Some i)) as [->|He]; [by left; right|]. right. intros [[k Hk]|?]; [|done]. apply Hi, list_elem_of_fmap. by exists (k, i).
Qed.

Lemma identified_alter extra hole hole' s i p p' : identified extra hole s -> peer_objects s !! i = Some p ->
  ap_remoteAddr p' = ap_remoteAddr p -> (tracked extra s i -> well_named p') ->
  (forall j l, j <> i -> hole = Some (j, l) -> hole' = hole) ->
  (forall l, tracked extra s i -> slot p' l -> (exists x, link_objects s !! l = Some x /\ (hole' = Some (i, l) \/ named p' x)) /\
     (slot p l \/ spent s l \/ forall j q, tracked extra s j -> peer_objects s !! j = Some q -> ~ slot q l)) ->
  identified extra hole' (set_peer_objects s (alter (fun _ => p') i (peer_objects s))).
Proof.
  intros Hs Hp Ha Hw Hh Hsl. destruct (tracked_dec extra s i) as [Hi|Hi]; [|by eapply identified_outside].
  eapply identified_peer; eauto.
Qed.

Lemma alter_const {A} (f : A -> A) i x (l : list A) : l !! i = Some x -> alter f i l = alter (fun _ => f x) i l.
Proof.
  intros Hx. apply list_eq. intros j. destruct (decide (i = j)) as [<-|Hne]; [by rewrite !list_lookup_alter_eq, Hx|by rewrite !list_lookup_alter_ne].
Qed.

(** The map of pending responders changes. *)
Lemma identified_pending_map extra hole s m : identified extra hole s ->
  (forall i e, JsMap.get_ m i = Some e -> (fst e < length (link_objects s))%nat) ->
  identified extra hole (set_responders s (mkResponders m (peer_objects s) (link_objects s) [])).
Proof. intros [I1 I2 I3 I4 I5 I6] Hm. by split. Qed.

(** A peer takes its place in the table. *)
Lemma identified_put extra hole hole' s key i p : identified extra hole s -> peer_objects s !! i = Some p ->
  key = transportAddressKey (ap_remoteAddr p) -> well_named p ->
  (forall j l, j <> i -> hole = Some (j, l) -> hole' = hole \/ ~ tracked extra (set_nd_peers s (JsMap.set_ (nd_peers s) key i)) j) ->
  (forall l, slot p l -> (exists x, link_objects s !! l = Some x /\ (hole' = Some (i, l) \/ named p x)) /\
     forall j q, j <> i -> tracked extra s j -> peer_objects s !! j = Some q -> slot q l -> spent s l) ->
  identified extra hole' (set_nd_peers s (JsMap.set_ (nd_peers s) key i)).
Proof.
  intros [I1 I2 I3 I4 I5 I6] Hp Hkey Hw Hh Hsl. set (s' := set_nd_peers _ _) in *.
  assert (Hb : forall j, tracked extra s' j -> j = i \/ j <> i /\ tracked extra s j).
  { intros j [[k Hk]|Hx]; [|destruct (decide (j = i)); [by left|right; split; [done|by right]]]. cbn in Hk.
    apply elem_set_or in Hk as [[= -> ->]|Hk]; [by left|]. destruct (decide (j = i)); [by left|right]. split; [done|]. left. by exists k. }
  split; [by apply JsMap.wf_set| | | |exact I5|exact I6].
  - intros j [->|[Hne Hj]]%Hb.
    + exists p. split; [done|]. split; [done|]. intros k Hk. cbn in Hk. apply elem_set_or in Hk as [[= ->]|Hk]; [done|].
      destruct (I2 i (or_introl (ex_intro _ k Hk))) as (q & Hq & _ & Hkq). assert (q = p) as -> by congruence. by apply Hkq.
    + destruct (I2 j Hj) as (q & Hq & Hnq & Hk). exists q. split; [done|]. split; [done|]. intros k Hki. cbn in Hki.
      apply elem_set_or in Hki as [[= _ ->]|Hki]; [done|by apply Hk].
  - intros j q l Hj' Hq Hql. pose proof (Hb j Hj') as [->|[Hne Hj]].
    + assert (q = p) as -> by (change (peer_objects s !! i = Some q) in Hq; congruence). by apply Hsl.
    + destruct (I3 j q l Hj Hq Hql) as (x & Hx & Hnx). exists x. split; [done|]. destruct Hnx as [Hnx|Hnx]; [|by right]. left.
      destruct (Hh j l Hne Hnx) as [->|Hn]; [done|]. by destruct Hn.
  - intros j k q r l [->|[Hnj Hj]]%Hb [->|[Hnk Hk]]%Hb Hne Hq Hr Hql Hrl; [done| | |by eapply (I4 j k)].
    + assert (q = p) as -> by (change (peer_objects s !! i = Some q) in Hq; congruence). by eapply Hsl.
    + assert (r = p) as -> by (change (peer_objects s !! i = Some r) in Hr; congruence). by eapply Hsl.
Qed.

(** The hole closes where it no longer matters. *)
Lemma identified_fill extra i l s : identified extra (Some (i, l)) s ->
  (forall p x, tracked extra s i -> peer_objects s !! i = Some p -> slot p l -> link_objects s !! l = Some x -> named p x) -> identified extra None s.
Proof.
  intros [I1 I2 I3 I4 I5 I6] Hn. split; try done. intros j p k Hj Hp Hsl. destruct (I3 j p k Hj Hp Hsl) as (x & Hx & [[= -> ->]|Hx']); exists x; (split; [done|right]); [by apply Hn|done].
Qed.

Lemma identified_weaken extra hole s : identified extra None s -> identified extra hole s.
Proof. intros [I1 I2 I3 I4 I5 I6]. split; try done. intros j p k Hj Hp Hsl. destruct (I3 j p k Hj Hp Hsl) as (x & Hx & [[=]|Hx']). eauto. Qed.
End Identified.
