(* ===== verification/ProcessorAuth.v ===== *)
(** * Handshakes keep identities apart

    The methods of the packet processor that make, replace and rename peers,
    followed step by step with pre- and postconditions, and the theorem on whole
    runs: the current and the pending link of every peer are with the identity
    the peer is known by. *)

From S2P Require Import Prelude Codec Crypto Toy NodeAddr Identity F64 Noise Link FmpWire FspWire FmpLink DirectTransport Peers Admission Adjacency Processor ProcessorRuns ProcessorBounds ProcessorIdentity.

(** ** Preconditions and postconditions *)

(** From a state of [P], [m] ends in one of [Q] or throws in one of [E]. *)
Definition triple {S A} (P : S -> Prop) (m : ST S A) (Q : A -> S -> Prop) (E : S -> Prop) : Prop :=
  forall s, P s -> match m s with (Ok a, s') => Q a s' | (Throw _, s') => E s' end.

Section Triples.
Context {S : Type}.
Implicit Types P E : S -> Prop.

Lemma triple_bind {A B} P (m : ST S A) (f : A -> ST S B) R Q E : triple P m R E -> (forall a, triple (R a) (f a) Q E) -> triple P (m ≫= f) Q E.
Proof. intros Hm Hf s Hs. specialize (Hm s Hs). unfold mbind, ST_bind. destruct (m s) as [[a|e] s']; [by apply Hf|done]. Qed.

Lemma triple_weaken {A} P P' (m : ST S A) (Q Q' : A -> S -> Prop) E E' : triple P' m Q' E' -> (forall s, P s -> P' s) ->
  (forall a s, Q' a s -> Q a s) -> (forall s, E' s -> E s) -> triple P m Q E.
Proof. intros Hm HP HQ HE s Hs. specialize (Hm s (HP s Hs)). destruct (m s) as [[a|e] s']; auto. Qed.

Lemma triple_pre {A} P P' (m : ST S A) Q E : (forall s, P s -> P' s) -> triple P' m Q E -> triple P m Q E.
Proof. intros HP Hm s Hs. by apply Hm, HP. Qed.

Lemma triple_ret {A} P (a : A) (Q : A -> S -> Prop) E : (forall s, P s -> Q a s) -> triple P (mret a) Q E.
Proof. intros HP s Hs. by apply HP. Qed.

Lemma triple_throw {A} P e (Q : A -> S -> Prop) E : (forall s, P s -> E s) -> triple P (throw e) Q E.
Proof. intros HP s Hs. by apply HP. Qed.

Lemma triple_throw_when P c e Q E : (forall s, P s -> E s) -> (c = false -> forall s, P s -> Q tt s) -> triple P (throw_when c e) Q E.
Proof. intros HE HQ s Hs. destruct c; cbn; auto. Qed.

Lemma triple_get {A} P (f : S -> ST S A) Q E : (forall s, triple (fun s' => s' = s /\ P s) (f s) Q E) -> triple P (get ≫= f) Q E.
Proof. intros Hf s Hs. apply Hf. done. Qed.

Lemma triple_try {A} P (m : ST S A) h Q E R : triple P m Q R -> (forall e, triple R (h e) Q E) -> triple P (try_catch m h) Q E.
Proof. intros Hm Hh s Hs. specialize (Hm s Hs). unfold try_catch. destruct (m s) as [[a|e] s']; [done|by apply Hh]. Qed.

Lemma triple_lift {A} P (r : result A) (Q : A -> S -> Prop) E : (forall a s, r = Ok a -> P s -> Q a s) -> (forall e s, r = Throw e -> P s -> E s) -> triple P (lift r) Q E.
Proof. intros HQ HE s Hs. unfold lift. destruct r; [by apply HQ|by eapply HE]. Qed.
End Triples.

(** What the lenient operations leave true, and what new objects leave true as
    well. *)
Class Stable (P : Node -> Prop) : Prop := stable s s' : settles s s' -> P s -> P s'.

Definition grows (s s' : Node) : Prop :=
  (forall l x, link_objects s !! l = Some x -> exists x', link_objects s' !! l = Some x' /\ evolves x x') /\
  (forall i p, peer_objects s !! i = Some p -> exists p', peer_objects s' !! i = Some p' /\ lessens p p').
Class Lasting (P : Node -> Prop) : Prop := lasting s s' : grows s s' -> P s -> P s'.

Lemma grows_settles s s' : settles s s' -> grows s s'.
Proof.
  intros [[Hl Hp _] _ _]. split; intros k y Hy; [destruct (Forall2_lookup_l _ _ _ _ _ Hl Hy) as (z & ? & ?)|
    destruct (Forall2_lookup_l _ _ _ _ _ Hp Hy) as (z & ? & ?)]; by exists z.
Qed.

Lemma grows_links s ls n : grows s (set_link_objects (set_nextIdx s n) (link_objects s ++ ls)).
Proof. split; [|intros i p Hp; exists p; by split]. intros l x Hx. exists x. split; [by apply lookup_app_l_Some|reflexivity]. Qed.

Lemma grows_peers s ps : grows s (set_peer_objects s (peer_objects s ++ ps)).
Proof. split; [intros l x Hx; exists x; by split|]. intros i p Hp. exists p. split; [by apply lookup_app_l_Some|reflexivity]. Qed.

Lemma grows_table s t : grows s (set_nd_peers s t).
Proof. split; intros k y Hy; (exists y; split; [exact Hy|reflexivity]). Qed.

#[export] Instance lasting_stable P : Lasting P -> Stable P.
Proof. intros HP s s' Hs. by apply HP, grows_settles. Qed.
#[export] Instance lasting_const (P : Prop) : Lasting (fun _ => P).
Proof. intros s s' _ HP. exact HP. Qed.
#[export] Instance stable_and P Q : Stable P -> Stable Q -> Stable (fun s => P s /\ Q s).
Proof. intros HP HQ s s' Hs []. split; [by eapply HP|by eapply HQ]. Qed.
#[export] Instance lasting_and P Q : Lasting P -> Lasting Q -> Lasting (fun s => P s /\ Q s).
Proof. intros HP HQ s s' Hs []. split; [by eapply HP|by eapply HQ]. Qed.
#[export] Instance stable_identified `{Noble} extra hole : Stable (identified extra hole).
Proof. intros s s'. apply identified_settles. Qed.

(** The peer [i] is what is left of [p]. *)
Definition is_peer (i : nat) (p : AdjacentPeer) (s : Node) : Prop := exists p', peer_objects s !! i = Some p' /\ lessens p p'.
#[export] Instance lasting_is_peer i p : Lasting (is_peer i p).
Proof. intros s s' [_ Hg] (p' & Hp' & Hle). destruct (Hg i p' Hp') as (q & Hq & Hle'). exists q. split; [done|by etransitivity]. Qed.

(** The peer [i] has no key yet only where its address has the key [key]. *)
Definition anchored (i : nat) (key : string) (s : Node) : Prop := exists p, peer_objects s !! i = Some p /\
  (ap_pubkey p = [] -> transportAddressKey (ap_remoteAddr p) = key).
#[export] Instance lasting_anchored i key : Lasting (anchored i key).
Proof.
  intros s s' [_ Hg] (p & Hp & Hk). destruct (Hg i p Hp) as (q & Hq & [E1 _ E3 _ _]). exists q. split; [done|]. by rewrite E1, E3.
Qed.

(** The link of a handshake that [handleMsg1] has ended, with the key it named. *)
Definition met (l : nat) (pk : bytes) (s : Node) : Prop := compressed pk /\ exists x, link_objects s !! l = Some x /\ fl_role x = responder /\
  fl_remotePubkey x = Some pk /\ fl_hs x = None.
#[export] Instance lasting_met l pk : Lasting (met l pk).
Proof.
  intros s s' [Hg _] [Hc (x & Hx & H1 & H2 & H3)]. split; [done|]. destruct (Hg l x Hx) as (y & Hy & [[E1 E2 _ E4 _] _]).
  exists y. split; [done|]. rewrite E1, E2. auto.
Qed.

Lemma met_spent l pk s : met l pk s -> spent s l.
Proof. intros [_ (x & Hx & _ & _ & Hh)]. by exists x. Qed.

(** A responder's link that is not, or no longer, established. *)
Definition down (l : nat) (s : Node) : Prop := exists x, link_objects s !! l = Some x /\ fl_role x = responder /\ fl_state x <> LEstablished.
#[export] Instance lasting_down l : Lasting (down l).
Proof.
  intros s s' [Hg _] (x & Hx & Hr & Hs). destruct (Hg l x Hx) as (y & Hy & [[E1 _ _ _ _] Hup]). exists y. split; [done|]. rewrite E1. auto.
Qed.

#[export] Instance stable_unused extra l : Stable (unused extra l).
Proof.
  intros s s' Hs [H1 H2]. pose proof (fun i => tracked_settles extra s s' i Hs) as Ht. destruct Hs as [[_ Hp Hq] _ _]. split.
  - intros i p' Hi Hp' Hsl. destruct (Forall2_lookup_r _ _ _ _ _ Hp Hp') as (p & Ep & Hle). by eapply H1; eauto using slot_lessens.
  - intros i e He. by eapply H2, Hq.
Qed.

(** The peer [i] has been taken out of the table, or never was in it. *)
Definition untracked (extra : option nat) (i : nat) (s : Node) : Prop := ~ tracked extra s i.
#[export] Instance stable_untracked extra i : Stable (untracked extra i).
Proof. intros s s' Hs Hu Ht. by eapply Hu, tracked_settles. Qed.

(** No responder is pending at [i]. *)
Definition no_pending (i : nat) (s : Node) : Prop := exists p, peer_objects s !! i = Some p /\ pendingResponderLink p = None.
#[export] Instance lasting_no_pending i : Lasting (no_pending i).
Proof.
  intros s s' [_ Hg] (p & Hp & Hn). destruct (Hg i p Hp) as (q & Hq & Hle). exists q. split; [done|]. destruct (le_pending _ _ Hle) as [->|]; done.
Qed.

Section Lenience.
Context `{Noble}.

Lemma triple_lenient {A} P (m : ND A) : respects settles m -> Stable P -> triple P m (fun _ => P) P.
Proof. intros Hm HP s Hs. specialize (Hm s). destruct (m s) as [[a|e] s']; by eapply HP. Qed.

(** A lenient call: what held holds after it. *)
Lemma triple_step {A B} P (m : ND A) (f : A -> ND B) Q E : respects settles m -> Stable P -> (forall s, P s -> E s) ->
  (forall a, triple P (f a) Q E) -> triple P (m ≫= f) Q E.
Proof.
  intros Hm HP HE Hf. eapply triple_bind; [|exact Hf]. eapply triple_weaken; [apply (triple_lenient P m Hm HP)| | |]; auto.
Qed.

(** The rest is lenient. *)
Lemma triple_rest {A} P (m : ND A) (Q : A -> Node -> Prop) E : respects settles m -> Stable P -> (forall a s, P s -> Q a s) -> (forall s, P s -> E s) -> triple P m Q E.
Proof. intros Hm HP HQ HE. eapply triple_weaken; [apply (triple_lenient P m Hm HP)| | |]; auto. Qed.

(** Reading a peer that is known to be there. *)
Lemma triple_peer {A} P i p0 (f : AdjacentPeer -> ND A) Q E : (forall s, P s -> is_peer i p0 s) ->
  (forall p, lessens p0 p -> triple (fun s => P s /\ peer_objects s !! i = Some p) (f p) Q E) -> triple P (peer_at i ≫= f) Q E.
Proof.
  intros Hi Hf s Hs. destruct (Hi s Hs) as (p & Hp & Hle). rewrite (peer_at_bind i s p) by done. by apply Hf.
Qed.

Lemma triple_peer_at {A} P i (f : AdjacentPeer -> ND A) Q E : (forall s, P s -> E s) ->
  (forall p, triple (fun s => P s /\ peer_objects s !! i = Some p) (f p) Q E) -> triple P (peer_at i ≫= f) Q E.
Proof.
  intros HE Hf s Hs. destruct (peer_objects s !! i) as [p|] eqn:Ep; [rewrite (peer_at_bind i s p) by done|rewrite peer_at_none by done; by apply HE].
  by apply Hf.
Qed.

Lemma triple_up {A} P l (f : bool -> ND A) Q E : (forall b, triple (fun s => P s /\ is_up s l = b) (f b) Q E) -> triple P (link_up l ≫= f) Q E.
Proof. intros Hf s Hs. rewrite link_up_bind. by apply Hf. Qed.
End Lenience.

(** ** Links of handshakes *)

Section Methods.
Context `{Noble, !PointLaws}.
Context (identity : FipsIdentity) (Hid : identity_wf identity) (startupEpoch : bytes) (Hepoch : len startupEpoch = 8).
Context (assertPeerAllowed : bytes -> result unit) (hasUsableRoute : string -> bool).

Local Abbreviation sound := (identified None None).

Lemma new_link_wf pk role epoch idx l : new_link identity pk role idx epoch None = Ok l ->
  link_wf l /\ fl_state l = LInit /\ fl_role l = role /\ fl_remotePubkey l = pk /\ fl_hs l <> None.
Proof.
  unfold new_link. intros E. result_inv. subst. split; [|done]. split; [done|]. intros h [= <-].
  match goal with Hn : NoiseHandshake.new _ _ _ _ _ = Ok _ |- _ => rename Hn into En end. unfold NoiseHandshake.new in En.
  destruct (NoiseHandshake.deriveKeyPair _) as [kp|]; [|done]. cbn in En.
  destruct (match role with responder => _ | initiator => _ end) as [k|]; [|done]. cbn in En. by injection En as <-.
Qed.

(** A new link belongs to nobody. *)
Lemma add_link_spec (F : Node -> Prop) `{!Lasting F} extra hole role pk epoch : len epoch = 8 -> (role = initiator -> is_Some pk) ->
  triple (fun s => identified extra hole s /\ F s) (add_link identity role pk epoch)
    (fun l s => (identified extra hole s /\ F s) /\ unused extra l s /\ exists x, link_objects s !! l = Some x /\ link_wf x /\
       fl_state x = LInit /\ fl_role x = role /\ fl_remotePubkey x = pk /\ fl_hs x <> None) (fun _ => False).
Proof.
  intros He Hp s [Hs HF]. destruct (add_link_run identity Hid role pk epoch s He Hp) as (x & E & Ex).
  assert (Hx : new_link identity pk role (nextFmpSessionIdx s) epoch None = Ok x).
  { unfold add_link, allocateFmpSessionIdx in E. rewrite ST_bind_assoc, ST_get_bind, ST_bind_assoc, ST_modify_bind in E.
    rewrite (ST_bind_ok (mret _) _ _ _ _ eq_refl) in E. destruct (new_link _ _ _ _ _ _) as [y|e]; [|done].
    erewrite ST_lift_bind in E by done. rewrite ST_get_bind, ST_modify_bind in E. injection E as E. apply app_inj_tail in E as [_ E]. by f_equal. }
  rewrite E. apply new_link_wf in Hx as (Hw & H1).
  destruct (identified_new_link extra hole s (let next := js_ushr (nextFmpSessionIdx s + 1) 0 in if next =? 0 then 1 else next) x Hs Hw) as (Hi & Hu & _).
  split; [split; [exact Hi|]|split; [exact Hu|]].
  - eapply lasting; [|exact HF]. apply grows_links.
  - exists x. split; [|done]. unfold link_objects at 1. cbn. by rewrite lookup_app_r, Nat.sub_diag.
Qed.

(** The first message at a link of the peer [i]. *)
Lemma msg1_on_link i p l packet random now s : sound s -> tracked None s i -> peer_objects s !! i = Some p -> slot p l -> exists ls,
  let s' := set_link_objects s ls in
  match on_link l (handleMsg1 packet random now) s with
  | (Ok res, s1) => s1 = s' /\ identified None (Some (i, l)) s' /\ met l (hr_remotePubkey res) s'
  | (Throw _, s1) => s1 = s' /\ sound s'
  end.
Proof.
  intros Hs Hi Hp Hl. destruct (id_slot _ _ _ Hs i p l Hi Hp Hl) as (x & Hx & [Hn|Hn]); [done|]. pose proof (id_links _ _ _ Hs l x Hx) as Hw.
  unfold on_link. rewrite Hx. destruct (handleMsg1 packet random now x) as [r x'] eqn:E. exists (<[l:=x']> (link_objects s)).
  destruct (handleMsg1_cases packet random now x r x' Hw E) as [[-> Hok]|(Hh & Hr & Hup & Hr' & Hw' & Hok)].
  - assert (Hself : forall hole, identified None hole (set_link_objects s (<[l:=x]> (link_objects s)))).
    { intros hole. apply identified_weaken. eapply identified_link; [exact Hs|exact Hx|done|done|by left|]. by right. }
    destruct r as [res|e]; (split; [done|]); [|by apply Hself]. split; [by apply Hself|]. destruct (Hok res eq_refl) as (H1 & H2 & H3).
    destruct Hn as (pk & Epk & Hsame); [by left|]. assert (pk = hr_remotePubkey res) as -> by congruence. split; [by apply same_compressed in Hsame as [? _]|].
    exists x. unfold link_objects at 1. cbn. rewrite list_lookup_insert_eq by (by eapply lookup_lt_Some). split_and!; [done|done|done|by apply Hw].
  - assert (Hlink : forall hole, (hole = Some (i, l) \/ named p x') -> identified None hole (set_link_objects s (<[l:=x']> (link_objects s)))).
    { intros hole Hc. eapply identified_link; [exact Hs|exact Hx|done|by intros ?|by left|]. intros j q Hj Hq Hql _.
      destruct (decide (i = j)) as [<-|Hne]; [assert (q = p) as -> by congruence; exact Hc|].
      destruct (id_shared _ _ _ Hs i j p q l Hi Hj Hne Hp Hq Hl Hql) as (y & Hy & Hyh). congruence. }
    destruct r as [res|e]; (split; [done|]).
    + destruct Hok as (H1 & H2 & H3). split; [apply Hlink; by left|]. split; [done|]. exists x'. unfold link_objects at 1. cbn.
      rewrite list_lookup_insert_eq by (by eapply lookup_lt_Some). split_and!; [done|done|done|by apply Hw'].
    + apply Hlink. right. intros [Hc|Hc]; congruence.
Qed.

(** The first message at a link of nobody. *)
Lemma msg1_on_new hole l packet random now s x : identified None hole s -> unused None l s -> link_objects s !! l = Some x -> fl_state x = LInit -> fl_hs x <> None -> exists ls,
  let s' := set_link_objects s ls in
  match on_link l (handleMsg1 packet random now) s with
  | (Ok res, s1) => s1 = s' /\ identified None hole s' /\ unused None l s' /\ met l (hr_remotePubkey res) s'
  | (Throw _, s1) => s1 = s' /\ identified None hole s'
  end.
Proof.
  intros Hs Hu Hx Hi Hh. pose proof (id_links _ _ _ Hs l x Hx) as Hw. unfold on_link. rewrite Hx.
  destruct (handleMsg1 packet random now x) as [r x'] eqn:E. exists (<[l:=x']> (link_objects s)).
  destruct (handleMsg1_cases packet random now x r x' Hw E) as [[-> Hok]|(_ & Hr & Hup & Hr' & Hw' & Hok)].
  - assert (Hself : identified None hole (set_link_objects s (<[l:=x]> (link_objects s)))).
    { eapply identified_link; [exact Hs|exact Hx|done|done|by right|]. by right. }
    destruct r as [res|e]; (split; [done|]); [|done]. destruct (Hok res eq_refl) as (_ & H2 & _). congruence.
  - assert (Hlink : identified None hole (set_link_objects s (<[l:=x']> (link_objects s)))).
    { eapply identified_link; [exact Hs|exact Hx|done|by intros ?|by right|]. intros j q Hj Hq Hql _. by destruct (proj1 Hu j q Hj Hq). }
    destruct r as [res|e]; (split; [done|]); [|done]. destruct Hok as (H1 & H2 & H3). split; [done|]. split; [exact Hu|]. split; [done|]. exists x'.
    unfold link_objects at 1. cbn. rewrite list_lookup_insert_eq by (by eapply lookup_lt_Some). split_and!; [done|done|done|by apply Hw'].
Qed.

(** ** Pending responders *)

Lemma discard_result i r : exists r', discard i r = (Ok tt, r').
Proof. unfold discard. rewrite (ST_bind_ok _ _ _ _ _ (take_run i r)). destruct (_ ≫= _); eexists; reflexivity. Qed.

Lemma eases_bare r : eases (bare r) r.
Proof. split; [reflexivity|reflexivity|auto]. Qed.

(** A method of the pending responders, as a method of the node. *)
Lemma on_responders_settles {A} (m : ST Responders A) s : respects eases m ->
  settles s (set_responders s (bare (snd (m (bare (nd_responders s)))))).
Proof. intros Hm. apply settles_stores; [|done]. destruct (Hm (bare (nd_responders s))) as [E1 E2 E3]. by split. Qed.

Lemma settles_respond {A} (m : ST Responders A) : quiet_responders m -> respects settles (on_responders hasUsableRoute m).
Proof. apply lenient_quiet_responders. Qed.

(** [set] leaves things, closes the link and throws, or makes it pending. *)
Lemma on_set_run i l now s : exists r s', on_responders hasUsableRoute (set_ i l now) s = (r, s') /\
  (r = Ok tt /\ (exists t, JsMap.get_ (pending (nd_responders s)) i = Some (l, t)) /\ settles s s' \/
   (exists e, r = Throw e) /\ (exists s1, settles s s1 /\ settles s1 s' /\ (forall x, link_objects s1 !! l = Some x -> fl_state x = LClosed) /\
      (forall p, peer_objects s1 !! i = Some p -> pendingResponderLink p = None)) \/
   r = Ok tt /\ exists s1 t, settles s s1 /\ s' = set_responders s1 (mkResponders (JsMap.set_ (pending (nd_responders s1)) i (l, t))
     (alter (fun p => set_pendingResponderLink p (Some l)) i (peer_objects s1)) (link_objects s1) [])).
Proof.
  unfold on_responders, set_. set (r0 := mkResponders _ _ _ _). rewrite ST_get_bind.
  destruct (is_pending r0 i l) eqn:Ep.
  { eexists _, _. split; [reflexivity|]. left. split; [done|]. split.
    - unfold is_pending in Ep. apply bool_decide_eq_true in Ep. cbn in Ep. destruct (JsMap.get_ _ i) as [[l' t]|]; [|done]. cbn in Ep. injection Ep as ->. by exists t.
    - apply settles_stores; [|done]. split; [reflexivity|reflexivity|auto]. }
  pose proof (eases_discard i r0) as Hd. assert (Hn : forall p, peers (snd (discard i r0)) !! i = Some p -> pendingResponderLink p = None).
  { unfold discard. rewrite (ST_bind_ok _ _ _ _ _ (take_run i r0)). intros p. destruct (_ ≫= pendingResponderLink); cbn; rewrite list_lookup_alter_eq; intros Hp;
      apply fmap_Some in Hp as (q & _ & ->); done. }
  assert (Hr : removed (snd (discard i r0)) = []) by (unfold discard; rewrite (ST_bind_ok _ _ _ _ _ (take_run i r0)); by destruct (_ ≫= _)).
  destruct (discard_result i r0) as [r1 Er1]. rewrite Er1 in Hd, Hn, Hr. cbn [snd] in Hd, Hn, Hr. rewrite (ST_bind_ok _ _ _ _ _ Er1), ST_get_bind.
  assert (Hs1 : forall r', eases r1 r' -> settles s (set_responders s (bare r'))).
  { intros r' Hr'. apply settles_stores; [|done]. pose proof (transitivity Hd Hr') as [E1 E2 E3]. by split. }
  assert (Hclose : eases r1 (close_in l r1)) by (split; [apply eases_close|reflexivity|auto]).
  destruct (len (pending r1) >=? MAX_PENDING_FMP_RESPONDERS).
  - rewrite ST_modify_bind. assert (Hth : forall rem, exists e s', (for_each (remove_path hasUsableRoute) rem;; lift (Throw (A:=unit) (Error "too many pending FMP responders")))
      (set_responders s (mkResponders (pending r1) (peers r1) (close_link l (links r1)) [])) = (Throw e, s') /\
      settles (set_responders s (mkResponders (pending r1) (peers r1) (close_link l (links r1)) [])) s').
    { intros rem. set (s1 := set_responders _ _). assert (Hf : respects settles (for_each (remove_path hasUsableRoute) rem)).
      { apply lenient_for_each. intros j. apply lenient_remove_path. }
      specialize (Hf s1). unfold mbind, ST_bind. destruct (for_each _ rem s1) as [[u|e] s2]; by eexists _, _. }
    assert (Hs2 : exists s1, settles s s1 /\ s1 = set_responders s (mkResponders (pending r1) (peers r1) (close_link l (links r1)) []) /\
      (forall x, link_objects s1 !! l = Some x -> fl_state x = LClosed) /\ (forall p, peer_objects s1 !! i = Some p -> pendingResponderLink p = None)).
    { eexists. split; [exact (Hs1 _ Hclose)|]. split; [reflexivity|]. split; [|exact Hn]. intros x. change (close_link l (links r1) !! l = Some x -> fl_state x = LClosed).
      unfold close_link. rewrite list_lookup_alter_eq. intros Hx. by apply fmap_Some in Hx as (y & _ & ->). }
    destruct Hs2 as (s1 & S1 & Es1 & S2 & S3).
    destruct (bool_decide _); [rewrite ST_modify_bind|rewrite (ST_bind_ok (mret tt) _ _ tt _ eq_refl)]; cbn [throw removed pending peers links removePeerPath close_in];
      match goal with |- context [for_each _ ?rem] => destruct (Hth rem) as (e & s' & E & Hs') end;
      exists (Throw e), s'; (split; [exact E|]); right; left; (split; [by exists e|]); exists s1; (split; [done|]); rewrite <- Es1 in Hs'; done.
  - rewrite ST_modify_bind. unfold modify at 1. cbn [removed alter_peer pending peers links]. rewrite Hr. eexists _, _. split; [reflexivity|]. right. right. split; [done|].
    exists (set_responders s (bare r1)), (now + FMP_HANDSHAKE_TIMEOUT_MS). split; [by apply Hs1|]. reflexivity.
Qed.

Lemma set_pending_spec extra hole i l now p s : identified extra hole s -> peer_objects s !! i = Some p -> 
  (hole = None \/ hole = Some (i, l)) -> (exists x, link_objects s !! l = Some x) ->
  (tracked extra s i -> spent s l \/ unused extra l s) ->
  identified extra (Some (i, l)) (set_responders s (mkResponders (JsMap.set_ (pending (nd_responders s)) i (l, now))
    (alter (fun p => set_pendingResponderLink p (Some l)) i (peer_objects s)) (link_objects s) [])).
Proof.
  intros Hs Hp Hh (x & Hx) Hl. set (m := JsMap.set_ _ _ _).
  assert (Hm : identified extra hole (set_responders s (mkResponders m (peer_objects s) (link_objects s) []))).
  { apply identified_pending_map; [done|]. intros j e. unfold m. destruct (decide (i = j)) as [<-|Hne].
    - rewrite JsMap.get_set_eq. intros [= <-]. cbn. by eapply lookup_lt_Some.
    - rewrite JsMap.get_set_ne by done. by apply (id_pending _ _ _ Hs). }
  rewrite (alter_const _ _ _ _ Hp). set (s1 := set_responders s (mkResponders m _ _ _)) in *.
  refine (identified_alter extra hole (Some (i, l)) s1 i p (set_pendingResponderLink p (Some l)) Hm Hp eq_refl _ _ _).
  - intros Hi. destruct (id_peer _ _ _ Hs i Hi) as (q & Hq & Hw & _). by assert (q = p) as -> by congruence.
  - intros j k Hne Hjk. destruct Hh; congruence.
  - intros k Hi [Hk|[= <-]].
    + cbn in Hk. destruct (id_slot _ _ _ Hs i p k Hi Hp (or_introl Hk)) as (y & Hy & Hny). split; [|by left; left]. exists y. split; [done|].
      destruct Hny as [Hny|Hny]; [left; destruct Hh; congruence|by right].
    + split; [exists x; auto|]. destruct (Hl Hi) as [Hsp|[Hu _]]; [right; left; exact Hsp|right; right; exact Hu].
Qed.

Local Abbreviation responderLink := (newResponderLink identity startupEpoch).
Context (key : string).

(** After the handshake of the staged responder. *)
Definition staged (i : nat) (l : nat) (pk : bytes) (s : Node) : Prop :=
  identified None (Some (i, l)) s /\ met l pk s /\ anchored i key s.

Definition pending_at (i l : nat) (s : Node) : Prop := exists p, peer_objects s !! i = Some p /\ pendingResponderLink p = Some l.

Lemma replace_spec i packet random nowMs now :
  triple (fun s => sound s /\ anchored i key s)
    (replacement ← responderLink; result ← on_link replacement (handleMsg1 packet random now);
     on_responders hasUsableRoute (set_ i replacement nowMs);; mret result)
    (fun result s => exists l, staged i l (hr_remotePubkey result) s /\ pending_at i l s) sound.
Proof.
  eapply triple_bind; [eapply triple_weaken; [exact (add_link_spec (anchored i key) None None responder None startupEpoch Hepoch ltac:(done))|done|done|done]|].
  intros l s [[Hs Ha] (Hu & x & Hx & Hw & Hst & _ & _ & Hh)].
  destruct (msg1_on_new None l packet random now s x Hs Hu Hx Hst Hh) as (ls & Hm). unfold mbind at 1, ST_bind at 1.
  destruct (on_link l (handleMsg1 packet random now) s) as [[res|e] s1]; [|by destruct Hm as [-> ?]].
  destruct Hm as (-> & Hs1 & Hu1 & Hmet). set (s1 := set_link_objects s ls) in *.
  assert (Ha1 : anchored i key s1) by exact Ha.
  destruct (on_set_run i l nowMs s1) as (r & s' & E & [(-> & [t Ht] & _)|[([e ->] & s2 & S1 & S2 & _)|(-> & s2 & t & S1 & ->)]]).
  - by destruct (proj2 Hu1 i _ Ht).
  - rewrite (ST_bind_throw _ _ _ _ _ E). eapply stable, (stable _ _ S1); eauto.
  - rewrite (ST_bind_ok _ _ _ _ _ E). exists l.
    pose proof (stable _ _ S1 Hs1) as Hs2. pose proof (stable _ _ S1 Ha1) as (p & Hp & Hk). pose proof (stable _ _ S1 Hu1) as Hu2.
    pose proof (stable _ _ S1 Hmet) as Hmet2.
    split; [split; [|split]|].
    + apply (set_pending_spec None None i l t p s2); [exact Hs2|exact Hp|by left| |intros _; by right]. destruct Hmet2 as [_ (y & Hy & _)]. by exists y.
    + exact Hmet2.
    + exists (set_pendingResponderLink p (Some l)). unfold peer_objects at 1. cbn. by rewrite list_lookup_alter_eq, Hp.
    + exists (set_pendingResponderLink p (Some l)). unfold peer_objects at 1. cbn. by rewrite list_lookup_alter_eq, Hp.
Qed.

Lemma stage_spec i packet random nowMs now :
  triple (fun s => sound s /\ tracked None s i /\ anchored i key s)
    (result ← stageResponderReplacement identity hasUsableRoute startupEpoch i packet random nowMs now; l ← staged_link i; mret (result, l))
    (fun rl s => staged i (snd rl) (hr_remotePubkey (fst rl)) s) sound.
Proof.
  eapply triple_bind with (R := fun result s => exists l, staged i l (hr_remotePubkey result) s /\ pending_at i l s).
  2:{ intros res s (l & Hst & p & Hp & Hl). unfold staged_link. rewrite ST_bind_assoc, (peer_at_bind i s p) by done. rewrite Hl. exact Hst. }
  unfold stageResponderReplacement. cbv zeta. apply triple_peer_at; [by intros s []|]. intros p.
  destruct (pendingResponderLink p) as [l|] eqn:El; [|eapply triple_pre; [|apply replace_spec]; by intros s ((? & ? & ?) & _)].
  eapply triple_try with (R := fun s => sound s /\ anchored i key s).
  - intros s ((Hs & Hi & Ha) & Hp). destruct (msg1_on_link i p l packet random now s Hs Hi Hp (or_intror El)) as (ls & Hm).
    destruct (on_link l _ s) as [[res|e] s1]; [|by destruct Hm as [-> ?]]. destruct Hm as (-> & Hs1 & Hmet). exists l. split; [by split|]. by exists p.
  - intros e. destruct (unexpected_msg1 e); [|by apply triple_throw; intros s []].
    apply triple_step; [apply settles_respond; constructor|apply _|by intros s []|]. intros _. apply replace_spec.
Qed.

Lemma direct_spec i p packet random now :
  triple (fun s => (sound s /\ tracked None s i /\ anchored i key s) /\ peer_objects s !! i = Some p)
    (result ← on_link (ap_link p) (handleMsg1 packet random now); mret (result, ap_link p))
    (fun rl s => staged i (snd rl) (hr_remotePubkey (fst rl)) s) (fun s => sound s /\ tracked None s i /\ anchored i key s).
Proof.
  intros s ((Hs & Hi & Ha) & Hp). destruct (msg1_on_link i p (ap_link p) packet random now s Hs Hi Hp (or_introl eq_refl)) as (ls & Hm).
  unfold mbind, ST_bind. destruct (on_link _ _ s) as [[res|e] s1]; [|by destruct Hm as [-> ?]]. by destruct Hm as (-> & Hs1 & Hmet).
Qed.

(** ** Replacing and removing peers *)

Hint Resolve lenient_peer_at lenient_link_at lenient_link_up lenient_settle lenient_remove_path lenient_quiet_responders
  lenient_rememberPeer_ lenient_rejectRetiredEpoch lenient_remove_restarted lenient_removeRestarted lenient_confirmOutgoing
  lenient_rejectMsg2 lenient_matchEstablished lenient_receive lenient_confirm_carrier lenient_not_adjacent settles_close : respects.
Hint Constructors quiet_responders : respects.
Let settles_ok : Lenient settles := settles_lenient.
Ltac gentle := repeat first [ match goal with |- respects _ _ => solve [eauto 4 with respects] end | lenient_step ].

Lemma fill_down extra i l s : identified extra (Some (i, l)) s -> down l s -> identified extra None s.
Proof.
  intros Hs (y & Hy & Hr & Hd). apply (identified_fill extra i l s Hs). intros p x _ _ _ Hx [Hc|Hc]; congruence.
Qed.

Lemma fill_untracked extra i l s : identified extra (Some (i, l)) s -> ~ tracked extra s i -> identified extra None s.
Proof. intros Hs Hu. apply (identified_fill extra i l s Hs). by intros p x Hi. Qed.

(** Closing the link of the handshake. *)
Lemma close_met l pk s : met l pk s -> down l (snd (close_at l s)).
Proof.
  intros [_ (x & Hx & Hr & _)]. exists (set_state x LClosed). unfold close_at, modify, link_objects at 1, close_link. cbn.
  rewrite list_lookup_alter_eq. change (links (nd_responders s)) with (link_objects s). rewrite Hx. by split_and!.
Qed.

Lemma close_spec i l pk F `{!Stable F} :
  triple (fun s => identified None (Some (i, l)) s /\ met l pk s /\ F s) (close_at l) (fun _ s => sound s /\ F s) (fun _ => False).
Proof.
  intros s (Hs & Hm & HF). pose proof (settles_close l s) as Hst. pose proof (close_met l pk s Hm) as Hd.
  change (close_at l s) with (Ok tt, snd (close_at l s)). split; [eapply fill_down; [by eapply stable|exact Hd]|by eapply stable].
Qed.

Lemma refuse_spec {A} (Q : A -> Node -> Prop) i l pk e : triple (staged i l pk) (refuse_msg1 hasUsableRoute i l e) Q sound.
Proof.
  unfold refuse_msg1. eapply triple_bind with (R := fun _ => sound).
  - eapply triple_weaken; [apply (close_spec i l pk (anchored i key))|done|by intros ? ? []|done].
  - intros _. do 4 (apply triple_step; [gentle|apply _|done|intros ?]). by apply triple_throw.
Qed.

(** The deletions of [removeRestartedPeerPaths]. *)
Lemma delete_all_run es s : exists t, for_each (fun e : string * nat => delete_peer (fst e)) es s = (Ok tt, set_nd_peers s t) /\
  forall e, e ∈ t -> e ∈ nd_peers s /\ forall d, d ∈ es -> fst e <> fst d.
Proof.
  revert s. induction es as [|d es IH]; intros s.
  { exists (nd_peers s). split; [by destruct s|]. intros e He. split; [done|]. set_solver. }
  cbn [for_each]. rewrite (ST_bind_ok (delete_peer (fst d)) _ s tt _ eq_refl). cbn [snd]. destruct (IH (set_nd_peers s (JsMap.delete_ (nd_peers s) (fst d)))) as (t & -> & Ht).
  exists t. split; [reflexivity|]. intros e He. destruct (Ht e He) as [[H1 H2]%JsMap.elem_delete H3]. split; [done|]. set_solver.
Qed.

Lemma swept_untracked s hex i p t : peer_objects s !! i = Some p -> ap_pubkeyHex p = hex ->
  (forall e, e ∈ t -> e ∈ nd_peers s /\ forall d, d ∈ peers_named s hex -> fst e <> fst d) -> ~ tracked None (set_nd_peers s t) i.
Proof.
  intros Hp Hh Ht [[k Hk]|[=]]. cbn in Hk. destruct (Ht _ Hk) as [Hin Hne]. apply (Hne (k, i)); [|done].
  unfold peers_named. apply list_elem_of_In, filter_In. split; [by apply list_elem_of_In|]. cbn. rewrite Hp. by apply bool_decide_eq_true.
Qed.

Lemma restart_sweep i l hex tr h F `{!Stable F} :
  triple (fun s => (identified None (Some (i, l)) s /\ F s) /\ exists p, peer_objects s !! i = Some p /\ ap_pubkeyHex p = hex)
    (removeRestartedPeerPaths hasUsableRoute hex l tr h) (fun _ s => sound s /\ F s) sound.
Proof.
  intros s ((Hs & HF) & p & Hp & Hh). unfold removeRestartedPeerPaths. rewrite ST_get_bind.
  destruct (delete_all_run (peers_named s hex) s) as (t & E & Ht). 
  assert (Hst : respects settles (for_each (fun e : string * nat => delete_peer (fst e)) (peers_named s hex))) by gentle. specialize (Hst s).
  rewrite (ST_bind_ok _ _ _ _ _ E). rewrite E in Hst. cbn [snd] in Hst. set (s1 := set_nd_peers s t) in *.
  assert (H1 : sound s1 /\ F s1).
  { split; [|by eapply stable]. eapply fill_untracked; [by eapply stable|by eapply swept_untracked]. }
  revert H1. generalize s1. clear Hst E Ht s1. apply (triple_rest (fun s => sound s /\ F s)); [gentle|apply _|done|by intros ? []].
Qed.

(** It does not throw when the peers' names are those of their keys. *)
Lemma triple_total {A} P (m : ND A) : respects settles m -> Stable P -> (forall s, exists a s', m s = (Ok a, s')) -> triple P m (fun _ => P) (fun _ => False).
Proof. intros Hm HP Ht s Hs. specialize (Hm s). destruct (Ht s) as (a & s' & E). rewrite E in Hm |- *. by eapply HP. Qed.

Lemma triple_for_each {A} P (f : A -> ND unit) xs E : (forall x, x ∈ xs -> triple P (f x) (fun _ => P) E) -> triple P (for_each f xs) (fun _ => P) E.
Proof.
  induction xs as [|x xs IH]; intros Hf; cbn [for_each]; [by apply triple_ret|]. eapply triple_bind; [apply Hf; set_solver|]. intros u. apply IH. set_solver.
Qed.

Lemma take_total i s : exists o s', on_responders hasUsableRoute (take_ i) s = (Ok o, s').
Proof. unfold on_responders. rewrite take_run. cbn. by eexists _, _. Qed.

Definition has_peer (i : nat) (s : Node) : Prop := exists p, peer_objects s !! i = Some p.
#[local] Instance lasting_has_peer i : Lasting (has_peer i).
Proof. intros s s' [_ Hg] (p & Hp). destruct (Hg i p Hp) as (q & Hq & _). by exists q. Qed.

Lemma restarted_total l h i P `{!Stable P} : (forall s, P s -> has_peer i s) -> triple P (remove_restarted hasUsableRoute l h i) (fun _ => P) (fun _ => False).
Proof.
  intros Hi. assert (Htot : forall A (m : ND A), respects settles m -> (forall s, exists a s', m s = (Ok a, s')) -> triple P m (fun _ => P) (fun _ => False))
    by (intros A m Hm Ht; by apply triple_total).
  unfold remove_restarted. intros s Hs. destruct (Hi s Hs) as [p Hp]. rewrite (peer_at_bind i s p) by done. rewrite link_up_bind. revert s Hs Hp.
  enough (forall b : bool, triple P (
    let other := negb (bool_decide (ap_link p = l)) in let wasConnected := other && b && bool_decide (outgoingHandshake p = None) in
    (if other then close_at (ap_link p) else mret tt);;
    pending ← on_responders hasUsableRoute (take_ i);
    (match pending with Some l0 => if decide (l0 = l) then mret tt else close_at l0 | None => mret tt end);;
    for_each (fun e : Z * (nat * Z) => if decide (fst (snd e) = l) then mret tt else close_at (fst (snd e))) (default [] (drainingResponderLinks p));;
    (match outgoingHandshake p with
     | Some h0 => if decide (h = Some h0) then mret tt else
         settle_handshake (Some h0) (HsRejected (Error "remote FIPS peer restarted"));; alter_nd_peer i (fun p => set_outgoing p None)
     | None => mret tt
     end);;
    if wasConnected then nd_call (EmitPeer (ap_pubkeyHex p) (ap_remoteAddr p) Disconnected) else mret tt) (fun _ => P) (fun _ => False)) as Hb
    by (intros s Hs _; exact (Hb _ s Hs)).
  intros b. cbv zeta. repeat first
    [ eapply triple_bind; [|intros ?]
    | match goal with |- triple _ (if ?c then _ else _) _ _ => destruct c | |- triple _ (match ?x with _ => _ end) _ _ => destruct x end
    | apply triple_for_each; intros ? _
    | apply Htot; [gentle|intros ?; first [apply take_total | by eexists _, _]] ].
Qed.

Context `{!HashLaws, !HexLaws, !HexTextLaws}.

Lemma compressed_derives pk : compressed pk -> exists addr hex, deriveNodeAddr pk = Ok addr /\ nodeAddrToHex addr = Ok hex.
Proof.
  intros Hc. destruct (same_address pk pk Hc) as (addr & E & _). exists addr, (toHex addr). split; [done|].
  unfold deriveNodeAddr in E. result_inv. subst. unfold nodeAddrToHex, NODE_ADDR_LENGTH, subarray. rewrite drop_0.
  match goal with |- context [sha256 ?x] => pose proof (len_sha256 x) as Hl end. unfold len in *. rewrite length_take.
  replace (Z.of_nat _) with 16; [done|]. cbn. lia.
Qed.

Lemma restart_total l pk tr h P `{!Stable P} : compressed pk -> (forall s, P s -> exists hole, identified None hole s) ->
  triple P (removeRestartedPeerPaths hasUsableRoute (toHex pk) l tr h) (fun _ => P) (fun _ => False).
Proof.
  intros Hc Hid'. unfold removeRestartedPeerPaths. apply triple_get. intros s0.
  apply (triple_pre _ (fun s => (s = s0 /\ P s) /\ (forall j, j ∈ map snd (peers_named s0 (toHex pk)) -> has_peer j s))).
  { intros s [-> HP]. split; [done|]. intros j ([k j'] & -> & [_ Hj]%list_elem_of_In%filter_In)%list_elem_of_fmap. cbn in *.
    destruct (peer_objects s0 !! j') as [c|] eqn:Ec; [by exists c|done]. }
  set (js := map snd (peers_named s0 (toHex pk))).
  apply (triple_pre _ (fun s => (P s0 /\ P s) /\ Forall (fun j => has_peer j s) js)).
  { intros s [[-> HP] Hj]. split; [done|]. by apply Forall_forall. }
  set (G := fun s => (P s0 /\ P s) /\ Forall (fun j => has_peer j s) js).
  assert (HG : Stable G).
  { intros s s' Hs [[X1 X2] X3]. split; [split; [done|by eapply stable]|]. eapply Forall_impl; [exact X3|]. intros j Hj. by eapply stable. }
  assert (Htot : forall A (m : ND A), respects settles m -> (forall s, exists a s', m s = (Ok a, s')) -> triple G m (fun _ => G) (fun _ => False))
    by (intros A m Hm Ht; by apply triple_total).
  eapply triple_weaken with (P' := G) (Q' := fun _ => G) (E' := fun _ => False); [|by intros s ?|by intros u s [[_ ?] _]|done].
  assert (Hlast : forall c, last (peers_named s0 (toHex pk)) ≫= (fun e => peer_objects s0 !! snd e) = Some c -> P s0 -> ap_pubkey c = pk).
  { intros c Hl HP. destruct (Hid' s0 HP) as [hole Hs0]. destruct (last (peers_named s0 (toHex pk))) as [[k j]|] eqn:El; [|done]. cbn in Hl.
    apply last_Some_elem_of in El. unfold peers_named in El. apply list_elem_of_In, filter_In in El as [Hin Hnm]. cbn in Hnm. rewrite Hl in Hnm.
    apply bool_decide_eq_true in Hnm. apply list_elem_of_In in Hin.
    destruct (id_peer _ _ _ Hs0 j (or_introl (ex_intro _ k Hin))) as (c' & Hc' & Hw & _). assert (c' = c) as -> by congruence.
    destruct Hw as [[_ Hw]|[_ Hw]]; rewrite Hw in Hnm; [|by apply toHex_inj].
    exfalso. apply (f_equal String.length) in Hnm. rewrite length_toHex in Hnm. apply same_iff in Hc as ([Hl3 _] & _). unfold len in Hl3. cbn in Hnm. lia. }
  eapply triple_bind; [apply triple_for_each; intros e _; apply Htot; [gentle|by intros s; eexists _, _]|]. intros ?.
  eapply triple_bind.
  { apply triple_for_each. intros j Hj. apply restarted_total; [apply _|]. intros s [_ Hf]. rewrite Forall_forall in Hf. apply Hf.
    exact (proj1 (proj2 (distinct_spec js) j) Hj). }
  intros ?. eapply triple_bind; [apply Htot; [gentle|by intros s; eexists _, _]|]. intros ?.
  eapply triple_bind; [|intros ?; eapply triple_bind; [apply Htot; [gentle|by intros s; eexists _, _]|intros ?; apply Htot; [gentle|by intros s; eexists _, _]]].
  destruct (last _ ≫= _) as [c|] eqn:El; [|by apply triple_ret]. intros s Hs. rewrite (Hlast c eq_refl (proj1 (proj1 Hs))).
  destruct (compressed_derives pk Hc) as (addr & hex & E1 & E2). erewrite ST_lift_bind by done. erewrite ST_lift_bind by done.
  revert s Hs. eapply triple_bind; [apply Htot; [gentle|by intros s; eexists _, _]|intros ?; apply Htot; [gentle|by intros s; eexists _, _]].
Qed.

(** [replace_peer] with a link that knows its key. *)
Definition named_at (i : nat) (pk : bytes) (s : Node) : Prop := exists p, peer_objects s !! i = Some p /\ (ap_pubkey p = [] \/ sameCompressedIdentity (ap_pubkey p) pk = true).
#[local] Instance lasting_named_at i pk : Lasting (named_at i pk).
Proof. intros s s' [_ Hg] (p & Hp & Hn). destruct (Hg i p Hp) as (q & Hq & [E _ _ _ _]). exists q. by rewrite E. Qed.

(** The peer that goes on after [handleMsg1], and its link. *)
Definition ready (i l : nat) (pk : bytes) (s : Node) : Prop := identified None (Some (i, l)) s /\ met l pk s /\ named_at i pk s.

Lemma replace_peer_spec hole tr addr pk l : key = transportAddressKey addr ->
  triple (fun s => identified None hole s /\ met l pk s /\
      forall i k, hole = Some (i, k) -> exists p, peer_objects s !! i = Some p /\ transportAddressKey (ap_remoteAddr p) = key)
    (replace_peer tr addr key pk l) (fun j s => ready j l pk s) (fun _ => False).
Proof.
  intros Hkey s (Hs & Hm & Hh). unfold replace_peer, new_peer. rewrite ST_bind_assoc, ST_get_bind, ST_bind_assoc, ST_modify_bind.
  rewrite (ST_bind_ok (mret _) _ _ _ _ eq_refl). unfold put_peer. rewrite ST_modify_bind. cbn [mret ST_ret].
  set (p := fresh_peer pk (toHex pk) addr tr l). set (s1 := set_peer_objects s (peer_objects s ++ [p])). set (j := length (peer_objects s)).
  pose proof (identified_new_peer None hole s p Hs) as Hs1. fold s1 in Hs1.
  assert (Hj : peer_objects s1 !! j = Some p) by (unfold s1, peer_objects at 1; cbn; by rewrite lookup_app_r, Nat.sub_diag).
  pose proof (lasting _ _ (grows_peers s [p]) Hm) as Hm1. fold s1 in Hm1. destruct Hm1 as [Hc (x & Hx & Hr & Hk & Hsp)].
  assert (Hput : sound (set_nd_peers s1 (JsMap.set_ (nd_peers s1) key j))).
  { apply (identified_put None hole None s1 key j p Hs1 Hj); [done|by right| |].
    - intros i k Hne Hik. right. intros [[k' Hk']|[=]]. destruct (Hh i k Hik) as (q & Hq & Hqk).
      assert (Hw : JsMap.wf (JsMap.set_ (nd_peers s1) key j)) by (apply JsMap.wf_set, (id_wf _ _ _ Hs1)). cbn in Hk'.
      assert (Hk2 : k' = key).
      { apply elem_set_or in Hk' as [[= _ ->]|Hk']; [done|]. destruct (id_peer _ _ _ Hs i (or_introl (ex_intro _ k' Hk'))) as (q' & Hq' & _ & Hkk).
        rewrite (Hkk k' Hk'). congruence. }
      subst k'. apply (JsMap.elem_get _ _ _ Hw) in Hk'. cbn in Hk'. rewrite JsMap.get_set_eq in Hk'. congruence.
    - intros k [<-|[=]]. split.
      + exists x. split; [done|]. right. intros _. exists pk. by split.
      + intros _ _ _ _ _ _. exists x. by split. }
  split; [by apply identified_weaken|]. split; [split; [done|]; exists x; by split_and!|]. exists p. split; [exact Hj|]. by right.
Qed.

(** The state that [reconcileAuthenticatedMsg1] is in before it names the peer. *)
Definition naming (i l : nat) (pk : bytes) (s : Node) : Prop := staged i l pk s /\ named_at i pk s.

Lemma ready_sound i l pk s : ready i l pk s -> sound s \/ (exists p, peer_objects s !! i = Some p /\ ap_pubkey p = []).
Proof.
  intros (Hs & [Hc (x & Hx & _ & Hk & _)] & p & Hp & [Hn|Hn]); [right; by exists p|left]. apply (identified_fill None i l s Hs).
  intros q y _ Hq _ Hy _. exists pk. assert (y = x) as -> by congruence. assert (q = p) as -> by congruence. split; [done|by apply same_sym].
Qed.

Lemma reject_spec i l pk hex e b :
  triple (naming i l pk) (rejectRetiredEpoch hasUsableRoute i l hex e b) (fun b s => if b then sound s else naming i l pk s) sound.
Proof.
  unfold rejectRetiredEpoch. destruct (if b then e else None) as [epoch|]; [|by apply triple_ret].
  apply triple_get. intros s0. destruct (negb _); [apply triple_ret; by intros s [-> ?]|].
  eapply triple_bind with (R := fun _ => sound).
  { eapply triple_weaken; [apply (close_spec i l pk (anchored i key))| |by intros ? ? []|done]. by intros s [-> [(? & ? & ?) ?]]. }
  intros ?. apply triple_step; [gentle|apply _|done|]. intros p.
  apply triple_step; [gentle|apply _|done|]. intros ?. by apply triple_ret.
Qed.

Lemma take_spec i P `{!Stable P} : triple P (on_responders hasUsableRoute (take_ i)) (fun _ => P) (fun _ => False).
Proof. apply triple_total; [gentle|apply _|intros s; apply take_total]. Qed.

(** The new link takes the place of the one that this node had opened. *)
Lemma adopt_spec i l pk :
  triple (ready i l pk) (alter_nd_peer i (fun p => set_ap_link p l)) (fun _ => ready i l pk) (fun _ => False).
Proof.
  intros s (Hs & Hm & p & Hp & Hn). pose proof Hm as [Hc (x & Hx & _ & Hrk & Hsp)]. unfold alter_nd_peer, modify. rewrite (alter_const _ _ _ _ Hp).
  set (p' := set_ap_link p l). split; [|split; [exact Hm|]].
  - apply (identified_alter None (Some (i, l)) (Some (i, l)) s i p p' Hs Hp); [done| |done|].
    + intros Hi. destruct (id_peer _ _ _ Hs i Hi) as (q & Hq & Hw & _). by assert (q = p) as -> by congruence.
    + intros k Hi [<-|Hk].
      * split; [exists x; auto|]. right. left. by exists x.
      * destruct (id_slot _ _ _ Hs i p k Hi Hp (or_intror Hk)) as (y & Hy & Hny). split; [exists y; split; [done|]|by left; right]. exact Hny.
  - exists p'. split; [|exact Hn]. unfold peer_objects at 1. cbn. by rewrite list_lookup_alter_eq, Hp.
Qed.

Lemma same_identity_spec i l pk epochBefore tr addr replaced was : key = transportAddressKey addr ->
  triple (naming i l pk) (same_identity_msg1 hasUsableRoute i l pk epochBefore tr addr key replaced was)
    (fun o s => match o with Some (j, _) => ready j l pk s | None => sound s end) sound.
Proof.
  intros Hkey. unfold same_identity_msg1. cbv zeta. apply triple_get. intros s0.
  apply (triple_pre _ (naming i l pk)); [by intros s [-> ?]|]. intros s Hn. pose proof Hn as [(_ & [Hc (x & Hx & _)] & _) _].
  rewrite (link_at_bind l s x) by done. set (changed := changed_epoch _ _). clearbody changed. clear Hx s0. revert s Hn.
  change (triple (naming i l pk) (rejected ← rejectRetiredEpoch hasUsableRoute i l (toHex pk) (fl_remoteEpoch x) changed;
    if (rejected : bool) then mret None else
    if changed then
      removeRestartedPeerPaths hasUsableRoute (toHex pk) l tr replaced;;
      j ← replace_peer tr addr key pk l;
      mret (Some (j, false))
    else
      p ← peer_at i;
      (if negb (bool_decide (replaced = None)) && negb (bool_decide (ap_link p = l)) then
         old ← link_at (ap_link p);
         alter_nd_peer i (fun p => set_abandoned p (Some (fl_localSessionIdx old)));;
         close_at (ap_link p);;
         alter_nd_peer i (fun p => set_ap_link p l);;
         on_responders hasUsableRoute (take_ i);;
         mret tt
       else mret tt);;
      mret (Some (i, was))) (fun o s => match o with Some (j, _) => ready j l pk s | None => sound s end) sound).
  eapply triple_bind; [apply reject_spec|]. intros [|]; [by apply triple_ret|].
  destruct changed.
  - intros s Hs. assert (Hm : ready i l pk s) by (destruct Hs as [(? & ? & ?) ?]; by split_and!).
    destruct (ready_sound i l pk s Hm) as [Hsd|(p & Hp & Hnil)]; revert s Hs Hm Hsd || revert s Hs Hm Hp.
    + intros s Hs Hm Hsd. assert (Hs' : sound s /\ met l pk s) by (destruct Hm as (_ & ? & _); done). revert Hs'. clear Hs Hm Hsd. revert s.
      apply triple_step; [gentle|apply _|by intros s []|]. intros ?. eapply triple_bind.
      { eapply triple_weaken; [apply (replace_peer_spec None tr addr pk l Hkey)|intros s [? ?]; by split_and!|intros j s Hj; exact Hj|done]. }
      intros j. by apply triple_ret.
    + intros s Hs Hm Hp. destruct Hs as [(Hs & Hmet & p' & Hp' & Hk) _]. assert (p' = p) as -> by congruence. specialize (Hk Hnil).
      set (P := fun s => (identified None (Some (i, l)) s /\ met l pk s) /\ is_peer i p s).
      assert (HP : P s) by (split; [done|exists p; split; [done|reflexivity]]). revert HP. clear Hs Hmet Hp Hp' Hm. revert s.
      eapply triple_bind with (R := fun _ => P).
      { eapply triple_weaken; [apply (restart_total l pk tr replaced P Hc)|done|done|done]. intros s [[? _] _]. by eexists. }
      intros ?. eapply triple_bind.
      { eapply triple_weaken; [apply (replace_peer_spec (Some (i, l)) tr addr pk l Hkey)| |intros j s Hj; exact Hj|done].
        intros s [[? ?] (q & Hq & Hle)]. split_and!; [done|done|]. intros i' k [= <- <-]. exists q. split; [done|]. by rewrite (le_addr _ _ Hle). }
      intros j. by apply triple_ret.
  - intros s Hs. destruct Hs as [(Hs & Hm & p & Hp & Ha) Hn]. rewrite (peer_at_bind i s p) by done.
    assert (Hr : ready i l pk s) by done.
    destruct (_ && _); [|by rewrite (ST_bind_ok (mret tt) _ _ tt _ eq_refl)].
    destruct (link_objects s !! ap_link p) as [old|] eqn:Eold.
    2:{ rewrite ST_bind_assoc, link_at_none by done. destruct (tracked_dec None s i) as [Hi|Hi]; [|by eapply fill_untracked].
        destruct (id_slot _ _ _ Hs i p _ Hi Hp (or_introl eq_refl)) as (y & Hy & _). congruence. }
    rewrite ST_bind_assoc, (link_at_bind _ s old) by done. revert s Hs Hm Hp Hn Hr Eold. intros s _ _ _ _ Hr _. revert s Hr.
    assert (HR : Stable (ready i l pk)) by (unfold ready; apply _).
    eapply triple_weaken with (P' := ready i l pk) (E' := fun _ => False); [|done|intros o s Ho; exact Ho|done].
    eapply triple_bind with (R := fun _ => ready i l pk); [|intros ?; by apply triple_ret].
    eapply triple_bind with (R := fun _ => ready i l pk); [apply triple_total; [gentle|apply _|by intros s; eexists _, _]|intros ?].
    eapply triple_bind with (R := fun _ => ready i l pk); [apply triple_total; [gentle|apply _|by intros s; eexists _, _]|intros ?].
    eapply triple_bind with (R := fun _ => ready i l pk); [apply adopt_spec|intros ?].
    eapply triple_bind with (R := fun _ => ready i l pk); [apply take_spec, _|intros ?]. by apply triple_ret.
Qed.

#[local] Instance stable_ready i l pk : Stable (ready i l pk).
Proof. unfold ready. apply _. Qed.

Lemma rebind_spec i l pk tr addr : key = transportAddressKey addr ->
  triple (staged i l pk) (rebind_identity hasUsableRoute i l pk tr addr key) (fun j s => ready j l pk s) sound.
Proof.
  intros Hkey. unfold rebind_identity. set (P := fun s => identified None (Some (i, l)) s /\ met l pk s /\ anchored i key s).
  assert (HP : Stable P) by (unfold P; apply _).
  intros s (Hs & Hm & p & Hp & Ha). rewrite (peer_at_bind i s p) by done.
  assert (H0' : P s) by (split_and!; [done|done|by exists p]). destruct (negb (identityMayChangeAtAddress tr)).
  - rewrite ST_bind_assoc. revert s Hs Hm Hp H0'. intros s _ _ _ H0'. revert s H0'. eapply triple_bind with (R := fun _ => sound).
    { eapply triple_weaken; [apply (close_spec i l pk (fun _ => True))|by intros s (? & ? & _)|by intros ? ? []|done]. }
    intros ?. intros s Hs. rewrite ST_bind_assoc. revert s Hs. apply triple_step; [gentle|apply _|done|]. intros ?. by apply triple_throw.
  - rewrite ST_bind_assoc, link_up_bind. eapply triple_bind with (P := fun s => P s /\ peer_objects s !! i = Some p) (R := fun _ s => sound s /\ met l pk s); [| |exact (conj H0' Hp)].
    + destruct (is_up s (ap_link p)).
      * eapply triple_weaken; [apply (restart_sweep i l (ap_pubkeyHex p) tr None (met l pk))|intros s' [(? & ? & ?) Hp']; split; [by split|by exists p]|done|done].
      * intros s' [H1' Hp']. 
        assert (Hdone : forall s2, identified None (Some (i, l)) s2 -> met l pk s2 -> (ap_link p = l -> down l s2) -> is_peer i p s2 -> no_pending i s2 -> sound s2).
        { intros s2 J1 [Jc (x & Jx & _ & Jk & _)] J3 (q & Jq & Jle) (q' & Jq' & Jn). assert (q' = q) as -> by congruence.
          destruct (decide (ap_link p = l)) as [El|El]; [eapply fill_down; eauto|]. apply (identified_fill None i l s2 J1).
          intros r y _ Jr [Hl|Hl] _; assert (r = q) as -> by congruence; [|congruence]. rewrite (le_link _ _ Jle) in Hl. done. }
        pose proof (settles_close (ap_link p) s') as S1. set (s1 := snd (close_at (ap_link p) s')) in *.
        rewrite (ST_bind_ok (close_at (ap_link p)) _ s' tt s1 eq_refl).
        destruct (take_total i s1) as (o & s2 & E). assert (S2 : settles s1 s2).
        { assert (Hr : respects settles (on_responders hasUsableRoute (take_ i))) by gentle. specialize (Hr s1). by rewrite E in Hr. }
        rewrite (ST_bind_ok _ _ _ _ _ E). cbn [mret ST_ret].
        assert (Hq : is_peer i p s') by (exists p; split; [done|reflexivity]). destruct H1' as (K1 & K2 & _).
        split; [|by eapply stable, (stable _ _ S1)]. apply Hdone; [by eapply stable, (stable _ _ S1)|by eapply stable, (stable _ _ S1)| |by eapply stable, (stable _ _ S1)|].
        -- intros <-. eapply stable; [exact S2|]. by apply close_met with pk.
        -- unfold on_responders in E. rewrite take_run in E. cbn in E. injection E as _ <-.
           destruct (stable _ _ S1 Hq) as (q & Hq' & _). exists (set_pendingResponderLink q None). split; [|done].
           unfold peer_objects at 1. cbn. rewrite list_lookup_alter_eq. change (peer_objects s' !! i = Some q) in Hq'. by rewrite Hq'.
    + intros ?. eapply triple_weaken; [apply (replace_peer_spec None tr addr pk l Hkey)|intros s' [? ?]; by split_and!|intros j s' Hj; exact Hj|done].
Qed.

(** The peer takes the name of the key that its link has met. *)
Lemma rename_spec j l pk :
  triple (ready j l pk) (alter_nd_peer j (fun p => set_identity p pk (toHex pk))) (fun _ s => sound s /\ met l pk s) (fun _ => False).
Proof.
  intros s (Hs & Hm & p & Hp & Hn). pose proof Hm as [Hc (x & Hx & _ & Hk & Hsp)]. unfold alter_nd_peer, modify. rewrite (alter_const _ _ _ _ Hp).
  split; [|exact Hm]. apply (identified_alter None (Some (j, l)) None s j p (set_identity p pk (toHex pk)) Hs Hp); [done|by right|congruence|].
  intros k Hj Hkl. split; [|by left]. destruct (id_slot _ _ _ Hs j p k Hj Hp Hkl) as (y & Hy & Hny). exists y. split; [done|]. right.
  destruct (decide (k = l)) as [->|Hne].
  - intros _. exists pk. assert (y = x) as -> by congruence. done.
  - destruct Hny as [[=]|Hny]; [done|]. intros Hu. destruct (Hny Hu) as (pk' & E & Hsame). exists pk'. split; [done|].
    destruct Hn as [Hn|Hn]; [rewrite Hn in Hsame; by destruct (same_compressed _ _ Hsame) as [_ ?]|]. by eapply same_trans.
Qed.

Lemma unconfirmed_spec j l pk now :
  triple (fun s => sound s /\ met l pk s) (stageUnconfirmedCarrier identity hasUsableRoute startupEpoch j l now) (fun _ => sound) sound.
Proof.
  unfold stageUnconfirmedCarrier. apply triple_peer_at; [by intros s []|]. intros p. apply triple_get. intros s0.
  destruct (bool_decide_reflect (ap_link p = l)) as [El|]; [|apply triple_ret; by intros s [-> [[? _] _]]]. cbn [negb].
  destruct (establishedRemoteEpoch _ _ _); [|apply triple_ret; by intros s [-> [[? _] _]]]. intros s [-> [[Hs Hm] Hp]]. rename s0 into s.
  set (Q := fun s => identified None None s /\ has_peer j s).
  eapply triple_bind with (P := fun s' => s' = s) (R := fun _ => Q); [| |done].
  - intros s' ->. destruct (on_set_run j l now s) as (r & s' & -> & [(-> & _ & S)|[([e ->] & s1 & S1 & S2 & _)|(-> & s1 & t & S1 & ->)]]).
    + split; [by eapply stable|]. eapply (stable (P := has_peer j)); [exact S|by exists p].
    + eapply stable, (stable _ _ S1); eauto.
    + pose proof (stable _ _ S1 Hs) as Hs1. pose proof (stable _ _ S1 Hm) as Hm1. assert (Hip : is_peer j p s) by (exists p; by split).
      destruct (stable _ _ S1 Hip) as (q & Hq & Hle). destruct Hm1 as [Hc (x & Hx & _ & Hk & Hh)].
      split.
      * eapply identified_fill; [eapply (set_pending_spec None None j l t q s1 Hs1 Hq); [by left|by exists x|intros _; left; by exists x]|].
        intros q' y Hj Hq' _ Hy. unfold peer_objects in Hq'. cbn in Hq'. rewrite list_lookup_alter_eq in Hq'. unfold peer_objects in Hq. rewrite Hq in Hq'. injection Hq' as <-.
        assert (Hsl : slot q l) by (left; rewrite (le_link _ _ Hle); done).
        destruct (id_slot _ _ _ Hs1 j q l Hj Hq Hsl) as (z & Hz & [[=]|Hn]). assert (z = y) as <- by (cbn in Hy; congruence). exact Hn.
      * eexists. unfold peer_objects. cbn. rewrite list_lookup_alter_eq. unfold peer_objects in Hq. by rewrite Hq.
  - intros ?. eapply triple_bind; [eapply triple_weaken; [exact (add_link_spec (has_peer j) None None responder None startupEpoch Hepoch ltac:(done))|done|intros l' s' Hl'; exact Hl'|done]|].
    intros l'. eapply triple_bind with (R := fun _ => sound); [|intros ?; by apply triple_ret].
    intros s' [[Hs' (q & Hq)] ([Hu _] & x & Hx & Hw & Hst & Hr & _)]. unfold alter_nd_peer, modify. rewrite (alter_const _ _ _ _ Hq).
    apply (identified_alter None None None s' j q (set_ap_link q l') Hs' Hq); [done| |done|].
    + intros Hj. destruct (id_peer _ _ _ Hs' j Hj) as (q' & Hq' & Hwn & _). by assert (q' = q) as -> by congruence.
    + intros k Hj [<-|Hk]; (split; [|]).
      * exists x. split; [done|]. right. intros [Hc|Hc]; congruence.
      * right. right. exact Hu.
      * destruct (id_slot _ _ _ Hs' j q k Hj Hq (or_intror Hk)) as (y & Hy & [[=]|Hny]). exists y. split; [done|by right].
      * left. by right.
Qed.

Lemma reconcile_spec i l res epochBefore tr addr replaced was now : key = transportAddressKey addr ->
  triple (staged i l (hr_remotePubkey res))
    (reconcileAuthenticatedMsg1 identity assertPeerAllowed hasUsableRoute startupEpoch i res l epochBefore tr addr key replaced was now)
    (fun _ => sound) sound.
Proof.
  intros Hkey. unfold reconcileAuthenticatedMsg1. cbv zeta. set (pk := hr_remotePubkey res).
  eapply triple_bind with (R := fun _ => staged i l pk).
  { eapply triple_try with (R := staged i l pk); [by apply triple_lift|]. intros e. apply refuse_spec. }
  intros ?. intros s Hs. destruct Hs as (Hs & Hm & p & Hp & Ha). rewrite (peer_at_bind i s p) by done.
  assert (Hst : staged i l pk s) by (split_and!; [done|done|by exists p]).
  destruct ((len (ap_pubkey p) >? 0) && negb (sameCompressedIdentity (ap_pubkey p) pk)) eqn:Ec.
  - revert s Hst Hs Hm Hp. intros s Hst _ _ _. revert s Hst. eapply triple_bind with (R := fun o s => match o with Some (j, _) => ready j l pk s | None => sound s end).
    { eapply triple_bind; [apply rebind_spec, Hkey|]. intros j. by apply triple_ret. }
    intros [[j was']|]; [|by apply triple_ret]. eapply triple_bind with (R := fun _ s => sound s /\ met l pk s).
    { eapply triple_weaken; [apply (rename_spec j l pk)|done|done|done]. }
    intros ?.
    cbn [negb andb]. apply (triple_pre _ sound); [by intros s []|]. eapply triple_bind with (R := fun _ => sound); [by apply triple_ret|]. intros staged'.
    apply triple_step; [gentle|apply _|done|]. intros ?. by apply triple_ret.
  - assert (Hn : naming i l pk s).
    { split; [done|]. exists p. split; [done|]. apply andb_false_iff in Ec as [Ec|Ec].
      - left. rewrite Z.gtb_ltb in Ec. apply Z.ltb_ge in Ec. apply len_nil_inv. pose proof (len_nonneg (ap_pubkey p)). lia.
      - right. by apply negb_false_iff. }
    revert s Hn Hst Hs Hm Hp. intros s Hn _ _ _ _. revert s Hn. eapply triple_bind; [apply same_identity_spec, Hkey|].
    intros [[j was']|]; [|by apply triple_ret]. eapply triple_bind with (R := fun _ s => sound s /\ met l pk s).
    { eapply triple_weaken; [apply (rename_spec j l pk)|done|done|done]. }
    intros ?.
    eapply triple_bind with (R := fun _ => sound).
    { cbn [negb andb]. destruct (bool_decide (replaced = None)); [apply unconfirmed_spec|apply triple_ret; by intros s []]. }
    intros staged'. apply triple_step; [gentle|apply _|done|]. intros ?. by apply triple_ret.
Qed.

(** ** Whole methods *)

Definition listed (i : nat) (s : Node) : Prop := sound s /\ tracked None s i /\ anchored i key s.

Lemma prepare_spec tr addr o : key = transportAddressKey addr ->
  triple (fun s => sound s /\ forall i, o = Some i -> tracked None s i /\ anchored i key s)
    (prepareMsg1Peer identity startupEpoch tr addr key o) (fun o s => match o with Some pp => listed (pp_peer pp) s | None => sound s end) sound.
Proof.
  intros Hkey. unfold prepareMsg1Peer. destruct o as [i|].
  - apply (triple_pre _ (listed i)); [intros s [Hs Hi]; by destruct (Hi i eq_refl)|].
    assert (Hout : forall s, listed i s -> sound s) by (by intros s []).
    apply triple_peer_at; [done|]. intros p. apply (triple_pre _ (listed i)); [by intros s []|]. intros s Hs.
    destruct (link_objects s !! ap_link p) as [x|] eqn:Ex; [rewrite (link_at_bind _ s x) by done|rewrite link_at_none by done; by apply Hout].
    clear Ex. revert s Hs. destruct (fl_role x), (outgoingHandshake p) as [h|]; try by apply triple_ret.
    eapply triple_bind with (R := fun _ => listed i); [by apply triple_throw_when|]. intros ?.
    eapply triple_bind with (R := fun _ => listed i); [apply triple_lift; [done|by intros ? s _ ?; apply Hout]|]. intros ad.
    eapply triple_bind with (R := fun _ => listed i); [apply triple_lift; [done|by intros ? s _ ?; apply Hout]|]. intros order.
    destruct (order <? 0); [by apply triple_ret|].
    eapply triple_bind with (R := fun _ => listed i); [by apply triple_throw_when|]. intros ?. by apply triple_ret.
  - eapply triple_bind; [eapply triple_weaken; [exact (add_link_spec (fun _ => True) None None responder None startupEpoch Hepoch ltac:(done))|by intros s [? _]|intros l s Hl; exact Hl|done]|].
    intros l s [[Hs _] ([Hu _] & x & Hx & Hw & Hst & Hr & _)]. unfold new_peer. rewrite ST_bind_assoc, ST_get_bind, ST_bind_assoc, ST_modify_bind.
    rewrite (ST_bind_ok (mret _) _ _ _ _ eq_refl). unfold put_peer. rewrite ST_modify_bind. cbn [mret ST_ret pp_peer].
    set (p := fresh_peer [] "" addr tr l). set (s1 := set_peer_objects s (peer_objects s ++ [p])). set (j := length (peer_objects s)).
    pose proof (identified_new_peer None None s p Hs) as Hs1. fold s1 in Hs1.
    assert (Hj : peer_objects s1 !! j = Some p) by (unfold s1, peer_objects at 1; cbn; by rewrite lookup_app_r, Nat.sub_diag).
    split; [|split].
    + apply (identified_put None None None s1 key j p Hs1 Hj); [done|by left|done|]. intros k [<-|[=]]. split.
      * exists x. split; [done|]. right. intros [Hc|Hc]; congruence.
      * intros i q Hne Hi Hq Hql. exfalso. apply (Hu i q Hi); [|done].
        unfold s1, peer_objects in Hq. cbn in Hq. apply lookup_app_Some in Hq as [Hq|[Hge Hq]]; [done|].
        apply list_lookup_singleton_Some in Hq as [Hz _]. exfalso. apply Hne. unfold j. unfold peer_objects in *. lia.
    + left. exists key. cbn. eapply JsMap.get_elem. by rewrite JsMap.get_set_eq.
    + exists p. split; [exact Hj|done].
Qed.

Lemma msg1_spec tr addr o packet random nowMs now : key = transportAddressKey addr ->
  triple (fun s => sound s /\ forall i, o = Some i -> tracked None s i /\ anchored i key s)
    (processMsg1 identity assertPeerAllowed hasUsableRoute startupEpoch tr addr key o packet random nowMs now) (fun _ => sound) sound.
Proof.
  intros Hkey. unfold processMsg1. eapply triple_bind; [by apply prepare_spec|]. intros [pp|]; [|by apply triple_ret]. set (i := pp_peer pp). cbv zeta.
  apply triple_peer_at; [by intros s []|]. intros p. apply triple_up. intros up.
  apply (triple_pre _ (fun s => listed i s /\ peer_objects s !! i = Some p)); [by intros s [[? ?] _]|].
  eapply triple_bind with (R := fun rl s => staged i (snd rl) (hr_remotePubkey (fst rl)) s).
  { assert (Hstage : triple (fun s => listed i s) (result ← stageResponderReplacement identity hasUsableRoute startupEpoch i packet random nowMs now;
      l ← staged_link i; mret (result, l)) (fun rl s => staged i (snd rl) (hr_remotePubkey (fst rl)) s) sound) by apply stage_spec.
    pose proof (direct_spec i p packet random now) as Hdirect.
    destruct (_ || _); [|destruct up].
    - eapply triple_pre; [|exact Hstage]. by intros s [].
    - eapply triple_try; [exact Hdirect|]. intros e. destruct (unexpected_msg1 e); [exact Hstage|]. apply triple_throw. by intros s [].
    - eapply triple_weaken; [exact Hdirect|done|done|by intros s []]. }
  intros [res l]. cbn [fst snd]. eapply triple_bind; [apply reconcile_spec, Hkey|]. intros [[[j was] rebound]|]; [|by apply triple_ret].
  apply triple_rest; [gentle|apply _|done|done].
Qed.

(** The second message, at a link of its own. *)
Lemma handshake_on_link extra hole l packet now s : identified extra hole s -> exists s1, snd (on_link l (handleMsg2 packet now) s) = s1 /\ identified extra hole s1 /\
  nd_peers s1 = nd_peers s /\ peer_objects s1 = peer_objects s /\
  forall res, fst (on_link l (handleMsg2 packet now) s) = Ok res -> exists x, link_objects s1 !! l = Some x /\ fl_role x = initiator.
Proof.
  intros Hs. unfold on_link. destruct (link_objects s !! l) as [x|] eqn:Ex; [|by eexists]. pose proof (finishes_msg2 packet now x) as Hf.
  destruct (handleMsg2 packet now x) as [r x'] eqn:E. cbn [fst snd] in *. eexists. split; [reflexivity|]. destruct Hf as [F1 F2 F3 F4 F5]. split; [|split_and!; [done|done|]].
  - eapply identified_link; [exact Hs|exact Ex|apply F5; by eapply id_links|done|by right|]. intros i p Hi Hp Hsl Hn. right. intros Hc. rewrite F2. apply Hn.
    destruct Hc as [Hc|Hc]; [by apply F3|right; congruence].
  - intros res ->. exists x'. unfold link_objects at 1. cbn. rewrite list_lookup_insert_eq by (by eapply lookup_lt_Some). split; [done|]. rewrite F1.
    unfold handleMsg2 in E. rewrite ST_get_bind in E. case_bool_decide as Hr; [done|]. by destruct (fl_role x).
Qed.

Lemma matchMsg2_tracked s idx i : matchMsg2Peer s idx = Some i -> exists k, (k, i) ∈ nd_peers s.
Proof.
  unfold matchMsg2Peer. intros E. match type of E with context [distinct ?l] => destruct (distinct l) as [|a [|]] eqn:Ed; try done; injection E as ->;
    assert (Hi : i ∈ distinct l) by (rewrite Ed; by left) end.
  apply (proj1 (proj2 (distinct_spec _) _)) in Hi. apply list_elem_of_In, filter_In in Hi as [Hi _]. apply list_elem_of_In, list_elem_of_fmap in Hi as ([k i'] & -> & Hk). by exists k.
Qed.

Lemma msg2_spec tr addr o packet nowMs now : triple sound (processMsg2 assertPeerAllowed hasUsableRoute tr addr o packet nowMs now) (fun _ => sound) sound.
Proof.
  unfold processMsg2. apply triple_step; [gentle|apply _|done|]. intros msg2. apply triple_get. intros s0.
  destruct (matchMsg2Peer s0 (m2_receiverIdx msg2)) as [i|] eqn:Ei.
  2:{ apply (triple_pre _ sound); [by intros s [-> ?]|]. apply triple_rest; [gentle|apply _|done|done]. }
  apply matchMsg2_tracked in Ei as [k0 Hk0]. intros s [-> Hs]. destruct (id_peer _ _ _ Hs i (or_introl (ex_intro _ k0 Hk0))) as (p & Hp & Hw & Hkey).
  rewrite (peer_at_bind i s0 p) by done. cbv zeta.
  destruct (handshake_on_link None None (ap_link p) packet now s0 Hs) as (s1 & E1 & Hs1 & Et & Ep & Hres).
  unfold mbind at 1, ST_bind at 1. destruct (on_link _ _ s0) as [[res|e] s1'] eqn:E; cbn [fst snd] in E1, Hres; subst s1'; [|done].
  destruct (Hres res eq_refl) as (x & Hx & Hr). rewrite (link_at_bind _ s1 x) by done.
  assert (Hi1 : tracked None s1 i) by (left; exists k0; by rewrite Et). assert (Hp1 : peer_objects s1 !! i = Some p) by by rewrite Ep.
  destruct (id_slot _ _ _ Hs1 i p _ Hi1 Hp1 (or_introl eq_refl)) as (y & Hy & [[=]|Hn]). assert (y = x) as -> by congruence. clear Hy.
  destruct Hn as (pk & Epk & Hsame); [by right|]. rewrite Epk. destruct (same_compressed _ _ Hsame) as [Hc _].
  set (p' := set_identity p pk (toHex pk)).
  rewrite (ST_bind_ok (alter_nd_peer i (fun p => set_identity p pk (toHex pk))) _ s1 tt _ eq_refl). rewrite (alter_const _ _ _ _ Hp1).
  set (s2 := set_peer_objects s1 _).
  assert (Hs2 : identified (Some i) None s2).
  { assert (Hx1 : identified (Some i) None s1).
    { destruct Hs1 as [I1 I2 I3 I4 I5 I6]. assert (Hb : forall j, tracked (Some i) s1 j -> tracked None s1 j) by (intros j [?|[= <-]]; [by left|done]).
      split; try done; [intros j Hj; apply I2; auto|intros j q l Hj; apply I3; auto|intros j j' q r l Hj Hj'; apply I4; auto]. }
    apply (identified_alter (Some i) None None s1 i p p' Hx1 Hp1); [done|by right|done|]. intros l Hi Hsl. split; [|by left].
    destruct (id_slot _ _ _ Hx1 i p l Hi Hp1 Hsl) as (z & Hz & [[=]|Hnz]). exists z. split; [done|]. right. intros Hu.
    destruct (Hnz Hu) as (pk' & Epk' & Hsame'). exists pk'. split; [done|]. cbn. eapply same_trans; [exact Hsame'|]. by apply same_sym. }
  assert (Hp2 : is_peer i p' s2).
  { exists p'. split; [|reflexivity]. unfold s2, peer_objects at 1. cbn. rewrite list_lookup_alter_eq. change (peers (nd_responders s1)) with (peer_objects s1). by rewrite Hp1. }
  assert (Hw2 : well_named p') by (by right).
  pose (P := fun s => identified (Some i) None s /\ is_peer i p' s). assert (HP : P s2) by done. assert (HPs : Stable P) by (unfold P; apply _).
  assert (Hdrop : forall s, identified (Some i) None s -> sound s).
  { intros s [I1 I2 I3 I4 I5 I6]. assert (Hb : forall j, tracked None s j -> tracked (Some i) s j) by (intros j [?|[=]]; by left).
    split; try done; [intros j Hj; apply I2; auto|intros j q l Hj; apply I3; auto|intros j j' q r l Hj Hj'; apply I4; auto]. }
  assert (Hout : forall s, P s -> sound s) by (intros s []; auto). clearbody s2. clear - HP HPs Hout Hkey Hk0 Et Hw2 settles_ok. revert s2 HP.
  apply triple_step; [gentle|done|done|]. intros ?. apply triple_get. intros s3. apply (triple_pre _ P); [by intros s [-> ?]|].
  assert (Hconf : triple sound (if is_up s0 (ap_link p) then mret tt else confirmOutgoingHandshake assertPeerAllowed i addr now) (fun _ => sound) sound).
  { apply triple_rest; [gentle|apply _|done|done]. }
  assert (Hconf' : triple P (if is_up s0 (ap_link p) then mret tt else confirmOutgoingHandshake assertPeerAllowed i addr now) (fun _ => sound) sound).
  { eapply triple_pre; [|exact Hconf]. done. }
  destruct (if changed_epoch _ _ then _ else _) as [epoch|]; [|exact Hconf'].
  destruct (isRetiredRemoteEpoch _ _ _); [apply triple_rest; [gentle|done|auto|auto]|].
  apply triple_step; [gentle|done|done|]. intros ?.
  eapply triple_bind with (R := fun _ => sound); [|intros ?; exact Hconf].
  intros s [Hs (q & Hq & Hle)]. unfold put_peer, modify. 
  assert (Hput : identified (Some i) None (set_nd_peers s (JsMap.set_ (nd_peers s) (transportAddressKey (ap_remoteAddr p)) i))).
  { apply (identified_put (Some i) None None s _ i q Hs Hq); [by rewrite (le_addr _ _ Hle)|unfold well_named; by rewrite (le_pubkey _ _ Hle), (le_hex _ _ Hle)|done|].
    intros l Hsl. destruct (id_slot _ _ _ Hs i q l (or_intror eq_refl) Hq Hsl) as (y & Hy & Hny). split; [by exists y|].
    intros j r Hne Hj Hr Hrl. by apply (id_shared _ _ _ Hs i j q r l (or_intror eq_refl) Hj). }
  destruct Hput as [I1 I2 I3 I4 I5 I6]. assert (Hb : forall j s, tracked None s j -> tracked (Some i) s j) by (intros j s' [?|[=]]; by left).
  split; try done; [intros j Hj; apply I2; auto|intros j q' l Hj; apply I3; auto|intros j j' q' r l Hj Hj'; apply I4; auto].
Qed.
End Methods.

(** ** Every method of a node *)

(** What [handleEstablished] knows of the pending link it has matched. *)
Definition awaiting (i l : nat) (s : Node) : Prop := exists x p, link_objects s !! l = Some x /\ peer_objects s !! i = Some p /\ fl_hs x = None /\
  exists pk, fl_remotePubkey x = Some pk /\ sameCompressedIdentity pk (ap_pubkey p) = true.
#[export] Instance lasting_awaiting i l : Lasting (awaiting i l).
Proof.
  intros s s' [Hl Hp] (x & p & Hx & Ep & Hh & pk & Hk & Hsame). destruct (Hl l x Hx) as (y & Hy & [[_ E2 _ E4 _] _]).
  destruct (Hp i p Ep) as (q & Eq & [E _ _ _ _]). exists y, q. split_and!; [done|done|auto|]. exists pk. by rewrite E2, E.
Qed.

(** What reads the stores without changing them. *)
Definition inert (s s' : Node) : Prop := nd_responders s' = nd_responders s /\ nd_peers s' = nd_peers s.
#[export] Instance inert_preorder : PreOrder inert.
Proof. unfold inert. split; [by intros s|intros a b c [? ?] [? ?]; split; congruence]. Qed.

Lemma triple_inert {A} (P : Node -> Prop) (m : ND A) : respects inert m -> (forall s s', inert s s' -> P s -> P s') -> triple P m (fun _ => P) P.
Proof. intros Hm HP s Hs. specialize (Hm s). destruct (m s) as [[a|e] s']; by eapply HP. Qed.

Section Whole.
Context `{Noble, !PointLaws, !HashLaws, !HexLaws, !HexTextLaws}.
Context (identity : FipsIdentity) (Hid : identity_wf identity) (startupEpoch : bytes) (Hepoch : len startupEpoch = 8).
Let settles_ok : Lenient settles := settles_lenient.

Local Abbreviation sound := (identified None None).

Hint Resolve lenient_peer_at lenient_link_at lenient_link_up lenient_settle lenient_remove_path lenient_quiet_responders
  lenient_rememberPeer_ lenient_rejectRetiredEpoch lenient_remove_restarted lenient_removeRestarted lenient_confirmOutgoing
  lenient_rejectMsg2 lenient_matchEstablished lenient_receive lenient_confirm_carrier lenient_not_adjacent settles_close
  lenient_send_msg1 lenient_connect_end : respects.
Hint Constructors quiet_responders : respects.
Ltac gentle := repeat first [ match goal with |- respects _ _ => solve [eauto 4 with respects] end | lenient_step ].

Definition promotions (ms : list (nat * Match)) (s : Node) : Prop := forall k m, (k, m) ∈ ms -> promotePending m = true -> awaiting (mt_peer m) (mt_link m) s.
#[local] Instance lasting_promotions ms : Lasting (promotions ms).
Proof. intros s s' Hs Hp k m Hk Hm. eapply lasting; [exact Hs|by eapply Hp]. Qed.

Lemma match_loop_spec t idx now js matches : (forall j, j ∈ js -> j ∈ map snd t) ->
  triple (fun s => (sound s /\ nd_peers s = t) /\ promotions matches s) (match_loop idx now js matches) (fun ms s => sound s /\ promotions ms s) sound.
Proof.
  revert matches. induction js as [|j js IH]; intros matches Hj; cbn [match_loop]; [apply triple_ret; by intros s [[? _] ?]|].
  eapply triple_bind; [|intros ms; apply (IH ms); set_solver]. unfold match_peer.
  eapply triple_bind with (R := fun _ s => (sound s /\ nd_peers s = t) /\ promotions matches s).
  { intros s [[Hs Ht] Hm]. pose proof (settles_prune now j s) as S. pose proof (prune_table now j s) as E. destruct (prune_peer now j s) as [[u|e] s'];
      cbn [snd] in *; [|by eapply stable]. split; [split; [by eapply stable|congruence]|by eapply stable]. }
  intros ?. apply triple_peer_at; [by intros s [[? _] _]|]. intros p. apply triple_get. intros s0. cbv zeta. apply triple_ret. intros s [-> [[[Hs Ht] Hm] Hp]].
  split; [done|]. assert (Hin : tracked None s0 j).
  { left. assert (Hjt : j ∈ map snd t) by (apply Hj; set_solver). apply list_elem_of_fmap in Hjt as ([k j'] & -> & Hk). exists k. by rewrite Ht. }
  assert (Hset : forall ms k m, promotions ms s0 -> (promotePending m = true -> awaiting (mt_peer m) (mt_link m) s0) -> promotions (JsMap.set_ ms k m) s0).
  { intros ms k m Hms Hm' k' m' Hk'. apply elem_set_or in Hk' as [E|Hk']; [injection E as -> ->; exact Hm'|by eapply Hms]. }
  match goal with |- context [if ?c then JsMap.set_ matches ?l ?m else matches] =>
    assert (X1 : promotions (if c then JsMap.set_ matches l m else matches) s0) by (destruct c; [by apply Hset|done]);
    set (m1 := if c then _ else _) in * end.
  match goal with |- context [match pendingResponderLink p with Some l => @?f l | None => m1 end] =>
    assert (X2 : promotions (match pendingResponderLink p with Some l => f l | None => m1 end) s0) end.
  { destruct (pendingResponderLink p) as [l|] eqn:El; [|done]. cbv beta.
    destruct (id_slot _ _ _ Hs j p l Hin Hp (or_intror El)) as (x & Hx & [[=]|Hn]). rewrite Hx.
    match goal with |- promotions (if ?c then _ else _) _ => destruct c eqn:Ec end; [|done]. apply Hset; [done|intros _; cbn]. bool_split.
    match goal with Hup : is_up _ _ = true |- _ => unfold is_up, link_state in Hup; rewrite Hx in Hup; apply bool_decide_eq_true in Hup;
      destruct (Hn (or_introl Hup)) as (pk & Epk & Hsame); exists x, p; split_and!; [done|done|by apply (id_links _ _ _ Hs l x Hx)|by exists pk] end. }
  match goal with |- promotions (match ?d with _ => _ end) _ => destruct d as [[l' t']|] end; [apply Hset; done|exact X2].
Qed.

Lemma match_spec idx now : triple sound (matchEstablishedLink idx now)
  (fun o s => sound s /\ forall m, o = Some m -> promotePending m = true -> awaiting (mt_peer m) (mt_link m) s) sound.
Proof.
  unfold matchEstablishedLink. apply triple_get. intros s0. eapply triple_bind.
  { eapply triple_weaken; [apply (match_loop_spec (nd_peers s0) idx now _ [])| |intros ms s Hms; exact Hms|done].
    - intros j Hj. by apply (proj1 (proj2 (distinct_spec _) _)) in Hj.
    - intros s [-> Hs]. split; [done|]. intros k m Hk. set_solver. }
  intros ms. eapply triple_bind with (R := fun _ s => sound s /\ promotions ms s); [apply triple_throw_when; [by intros s []|done]|].
  intros ?. apply triple_ret. intros s [Hs Hp]. split; [done|]. intros m Em. destruct ms as [|[k m'] ms]; [done|]. cbn in Em. injection Em as <-. apply (Hp k). by left.
Qed.

Lemma promote_spec route i l now : triple (fun s => sound s /\ awaiting i l s) (promote_link route i l now) (fun _ => sound) sound.
Proof.
  unfold promote_link. apply triple_peer_at; [by intros s []|]. intros p0. cbv zeta. eapply triple_bind with (R := fun _ => sound).
  - intros s [[Hs (x & p & Hx & Hp & Hh & pk & Hk & Hsame)] Hp0]. assert (p0 = p) as -> by congruence. unfold alter_nd_peer, modify. rewrite (alter_const _ _ _ _ Hp).
    apply (identified_alter None None None s i p (set_ap_link p l) Hs Hp); [done| |done|].
    + intros Hi. destruct (id_peer _ _ _ Hs i Hi) as (q & Hq & Hw & _). by assert (q = p) as -> by congruence.
    + intros k Hi [<-|Hpk].
      * split; [exists x; split; [done|]; right; intros _; by exists pk|]. right. left. by exists x.
      * split; [|by left; right]. destruct (id_slot _ _ _ Hs i p k Hi Hp (or_intror Hpk)) as (y & Hy & [[=]|Hn]). exists y. split; [done|by right].
  - intros ?. apply triple_rest; [gentle|apply _|done|done].
Qed.

Lemma established_spec allowed route packet nowMs now : triple sound (processEstablished allowed route packet nowMs now) (fun _ => sound) sound.
Proof.
  unfold processEstablished. apply triple_step; [gentle|apply _|done|]. intros est. eapply triple_bind; [apply match_spec|].
  intros [[i link promote]|]; [|apply triple_ret; by intros s []].
  set (P := fun s => sound s /\ (fun s => promote = true -> awaiting i link s) s).
  assert (HP : Stable P). { intros s s' S [Hs Ha]. split; [by eapply stable|]. intros Hpr. eapply stable; [exact S|by apply Ha]. }
  assert (Hout : forall s, P s -> sound s) by (by intros s []). apply (triple_pre _ P); [intros s [Hs Hm]; split; [done|]; by apply (Hm _ eq_refl)|].
  do 3 (apply triple_step; [gentle|done|done|intros ?]). apply triple_get. intros s0. apply (triple_pre _ P); [by intros s [-> ?]|].
  apply triple_step; [gentle|done|done|intros ?].
  eapply triple_bind with (R := fun _ => sound).
  { destruct promote; [|apply triple_ret; auto]. eapply triple_pre; [|apply promote_spec]. intros s [Hs Ha]. split; [done|by apply Ha]. }
  intros ?. apply triple_rest; [gentle|apply _|done|done].
Qed.

(** The peer that a packet is addressed to. *)
Definition addressed (key : string) (o : option nat) (s : Node) : Prop := sound s /\ forall i, o = Some i -> tracked None s i /\ anchored i key s.

Lemma addressed_inert key o s s' : inert s s' -> addressed key o s -> addressed key o s'.
Proof.
  intros [E1 E2] [Hs Ho]. assert (S : settles s s') by by apply settles_same. split; [by eapply stable|]. intros i Hi. destruct (Ho i Hi) as [Ht Ha].
  split; [|by eapply stable]. destruct Ht as [[k Hk]|?]; [left; exists k; by rewrite E2|by right].
Qed.

Ltac still := repeat first [ respects_step | apply respects_get, _ | apply respects_ret, _ | apply respects_lift, _ | apply respects_throw, _ | apply respects_throw_when, _
  | apply respects_modify; by intros ? ].

Lemma inert_not_adjacent o : respects inert (not_adjacent o).
Proof. unfold not_adjacent, peer_at, link_up, undefined_object. still. Qed.

Lemma inert_reassemble key fr ms : respects inert (reassemble key fr ms).
Proof. unfold reassemble. apply respects_zoom. by intros ? ?. Qed.

Lemma packet_spec allowed route tr addr o packet random nowMs now :
  triple (addressed (transportAddressKey addr) o)
    (process_packet identity allowed route startupEpoch tr addr (transportAddressKey addr) o packet random nowMs now) (fun _ => sound) sound.
Proof.
  unfold process_packet. assert (Hout : forall s, addressed (transportAddressKey addr) o s -> sound s) by (by intros s []). destruct (isDirectFspEstablished packet).
  - apply (triple_pre _ sound); [done|]. apply triple_rest; [gentle|apply _|done|done].
  - eapply triple_bind with (R := fun _ => addressed (transportAddressKey addr) o); [by apply triple_lift; [|intros ? s _ ?; apply Hout]|].
    intros ph. destruct (ph =? FMP_PHASE_MSG1); [apply msg1_spec; done|]. apply (triple_pre _ sound); [done|].
    destruct (ph =? FMP_PHASE_MSG2); [eapply triple_bind; [apply msg2_spec|intros ?; by apply triple_ret]|].
    destruct (ph =? FMP_PHASE_ESTABLISHED); [eapply triple_bind; [apply established_spec|intros ?; by apply triple_ret]|by apply triple_throw].
Qed.

Lemma process_spec allowed route tr addr data at_ random nowMs now :
  triple sound (process identity allowed route startupEpoch tr addr data at_ random nowMs now) (fun _ => sound) sound.
Proof.
  unfold process. eapply triple_try with (R := sound); [|intros e; apply triple_step; [gentle|apply _|done|intros ?; by apply triple_ret]].
  unfold process_received. cbv zeta. set (key := transportAddressKey addr). apply triple_get. intros s0. set (o := match JsMap.get_ (nd_peers s0) key with Some i => Some i | None => findXOnlyTransportPeer s0 tr addr end).
  apply (triple_pre _ (addressed key o)).
  { intros s [-> Hs]. split; [done|]. intros i Hi. unfold o in Hi. destruct (JsMap.get_ (nd_peers s0) key) as [i'|] eqn:Eg.
    - injection Hi as ->. apply JsMap.get_elem in Eg. assert (Ht : tracked None s0 i) by (left; by exists key). split; [done|].
      destruct (id_peer _ _ _ Hs i Ht) as (p & Hp & _ & Hk). exists p. split; [done|]. intros _. symmetry. by apply Hk.
    - unfold findXOnlyTransportPeer in Hi. destruct (negb _); [done|]. apply find_some in Hi as [Hin Hi].
      apply list_elem_of_In, list_elem_of_fmap in Hin as ([k i'] & -> & Hk). cbn in *. destruct (peer_objects s0 !! i') as [p|] eqn:Ep; [|done]. bool_split.
      split; [left; by exists k|]. exists p. split; [done|]. intros En. rewrite En in *. done. }
  assert (Hin : forall A (m : ND A), respects inert m -> triple (addressed key o) m (fun _ => addressed key o) sound).
  { intros A m Hm. eapply triple_weaken; [apply (triple_inert _ m Hm (addressed_inert key o))|done|by intros ? ?|by intros s []]. }
  eapply triple_bind; [apply Hin; unfold peer_at, undefined_object; still|]. intros ?. destruct (isDirectFspTransportFragment data); [|apply packet_spec].
  eapply triple_bind; [apply Hin, inert_not_adjacent|]. intros refused. eapply triple_bind; [apply Hin; still|]. intros ?.
  eapply triple_bind; [apply Hin, inert_reassemble|]. intros [whole|]; [apply packet_spec|apply triple_ret; by intros s []].
Qed.

Lemma connect_spec allowed route tr addr pk epoch random b : len epoch = 8 -> compressed pk ->
  triple sound (connectAdjacentPeer identity allowed route tr addr pk epoch random b) (fun _ => sound) sound.
Proof.
  intros He Hc. unfold connectAdjacentPeer. cbv zeta. set (key := transportAddressKey addr).
  do 2 (apply triple_step; [gentle|apply _|done|intros ?]). apply triple_get. intros s0. apply (triple_pre _ sound); [by intros s [-> ?]|].
  apply triple_step; [gentle|apply _|done|intros up]. destruct up; [by apply triple_ret|]. apply triple_step; [gentle|apply _|done|intros ?].
  eapply triple_bind; [eapply triple_weaken; [exact (add_link_spec identity Hid (fun _ => True) None None initiator (Some pk) epoch He ltac:(eauto))|
    intros s Hs; by split|intros l s Hl; exact Hl|done]|].
  intros l. intros s [[Hs _] ([Hu _] & x & Hx & Hw & Hst & Hr & Hk & Hh)]. unfold new_peer. rewrite ST_bind_assoc, ST_get_bind, ST_bind_assoc, ST_modify_bind.
  rewrite (ST_bind_ok (mret _) _ _ _ _ eq_refl). unfold put_peer. rewrite ST_modify_bind.
  set (p := fresh_peer pk (toHex pk) addr tr l). set (s1 := set_peer_objects s (peer_objects s ++ [p])). set (j := length (peer_objects s)).
  pose proof (identified_new_peer None None s p Hs) as Hs1. fold s1 in Hs1.
  assert (Hj : peer_objects s1 !! j = Some p) by (unfold s1, peer_objects at 1; cbn; by rewrite lookup_app_r, Nat.sub_diag).
  set (s2 := set_nd_peers s1 _). assert (Hs2 : sound s2).
  { apply (identified_put None None None s1 key j p Hs1 Hj); [done|by right|done|]. intros k [<-|[=]]. split.
    - exists x. split; [done|]. right. intros _. by exists pk.
    - intros i q Hne Hi Hq Hql. exfalso. apply (Hu i q Hi); [|done].
      unfold s1, peer_objects in Hq. cbn in Hq. apply lookup_app_Some in Hq as [Hq|[Hge Hq]]; [done|].
      apply list_lookup_singleton_Some in Hq as [Hz _]. exfalso. apply Hne. unfold j. unfold peer_objects in *. lia. }
  clearbody s2. clear Hs Hu Hx Hs1 Hj. revert s2 Hs2.
  assert (Hb : respects settles (on_link l (buildMsg1 random))) by apply settles_on_link, evolves_build. clear - Hb settles_ok.
  apply triple_rest; [|apply _|done|done]. repeat first [exact Hb | match goal with |- respects _ _ => solve [eauto 4 with respects] end | lenient_step].
Qed.

End Whole.

(** ** Runs *)

Section Runs.
Context `{Noble, !PointLaws, !HashLaws, !HexLaws, !HexTextLaws}.
Context (identity : FipsIdentity) (Hid : identity_wf identity).
Let settles_ok : Lenient settles := settles_lenient.

Local Abbreviation sound := (identified None None).

Hint Resolve lenient_peer_at lenient_link_at lenient_link_up lenient_remove_path lenient_quiet_responders : respects.
Hint Constructors quiet_responders : respects.
Ltac gentle := repeat first [ match goal with |- respects _ _ => solve [eauto 4 with respects] end | lenient_step ].

Lemma sound_triple {A} (m : ND A) : respects settles m -> triple sound m (fun _ => sound) sound.
Proof. intros Hm. apply triple_lenient; [done|apply _]. Qed.

Lemma method_spec {A} (m : ND A) : node_method identity m -> triple sound m (fun _ => sound) sound.
Proof.
  destruct 1; first [by apply process_spec | by apply connect_spec | apply sound_triple].
  all: first [ apply lenient_resend_timer | apply lenient_handshake_timer | apply lenient_connect_settled | apply lenient_onTransportConn
    | apply lenient_sendLinkMessage | apply lenient_sendHeartbeats | apply lenient_confirmation_sent | apply lenient_confirmation_failed | apply lenient_reply_sent
    | apply lenient_report_settled | apply lenient_discardPending | apply lenient_departures
    | apply (lenient_stop_carriers (R := settles)) | apply (lenient_clear_tables (R := settles)) | idtac ].
  all: try (unfold connectKnownPeer, reply_failed, clear_processor; gentle).
  1: apply respects_zoom. intros t s. by apply settles_same.
  1: apply respects_modify. intros s. by apply settles_same.
  all: first [done | exact (fun _ => false)].
Qed.

Lemma reachable_identified startupEpoch s : node_reachable identity startupEpoch s -> sound s.
Proof.
  intros (s0 & E & Hr). destruct (new_node_run startupEpoch s0 E) as (_ & idx & _ & _ & ->).
  assert (H0' : sound (mkNode [] [] [] new_responders [] [] [] [] [] idx [])).
  { split; cbn; [apply NoDup_nil_2|..].
    - intros i [[k Hk]|[=]]. cbn in Hk. set_solver.
    - intros i p l [[k Hk]|[=]]. cbn in Hk. set_solver.
    - intros i j p q l [[k Hk]|[=]]. cbn in Hk. set_solver.
    - intros l x. unfold link_objects. cbn. by rewrite lookup_nil.
    - done. }
  clear E. induction Hr as [s|s s1 s2 (A & m & Hm & ->) _ IH]; [done|]. apply IH. pose proof (method_spec m Hm s H0') as Hs.
  by destruct (m s) as [[a|e] s'].
Qed.
End Runs.
