(* ===== verification/ProcessorFrames.v ===== *)
(** * Frames and identities

    What the invariant of [ProcessorAuth] means for the packets of a node: whose
    links its peers have, and whom a delivered message comes from. *)

From S2P Require Import Prelude Codec Crypto Toy NodeAddr Identity Replay F64 Channel Noise Link FmpWire FmpLink DirectTransport Peers Admission Adjacency Processor ProcessorRuns ProcessorBounds ProcessorIdentity ProcessorAuth.

Section Frames.
Context `{Noble, !PointLaws, !HashLaws, !HexLaws, !HexTextLaws}.
Context (identity : FipsIdentity) (Hid : identity_wf identity) (startupEpoch : bytes).

(** What a node can say about a link of a peer. *)
Lemma peer_link s key i p l : node_reachable identity startupEpoch s -> (key, i) ∈ nd_peers s -> peer_objects s !! i = Some p -> slot p l ->
  exists x, link_objects s !! l = Some x /\ named p x.
Proof.
  intros Hr Hk Hp Hl. pose proof (reachable_identified identity Hid startupEpoch s Hr) as Hs.
  destruct (id_slot _ _ _ Hs i p l (or_introl (ex_intro _ key Hk)) Hp Hl) as (x & Hx & [[=]|Hn]). by exists x.
Qed.

Lemma current_up s i p x : peer_objects s !! i = Some p -> link_objects s !! ap_link p = Some x ->
  match peer_objects s !! i with Some p => is_up s (ap_link p) | None => false end = true -> fl_state x = LEstablished.
Proof. intros -> Hx. unfold is_up, link_state. rewrite Hx. by intros ?%bool_decide_eq_true. Qed.

Lemma on_link_run {A} l (m : ST FmpLink A) s x : link_objects s !! l = Some x ->
  on_link l m s = (fst (m x), set_link_objects s (<[l:=snd (m x)]> (link_objects s))).
Proof. intros Hx. unfold on_link. rewrite Hx. by destruct (m x). Qed.

(** The frame that [receiveFmpLinkPacket] accepts. *)
Lemma receive_opened i l packet now s received s' : receiveFmpLinkPacket i l packet now s = (Ok received, s') ->
  exists x est pt inner, link_objects s !! l = Some x /\ opened x packet est pt /\ decodeFmpInner pt = Ok inner /\
    received = (in_msgType inner, in_payload inner).
Proof.
  intros E. unfold receiveFmpLinkPacket in E. apply ST_bind_inv in E as (rc & s1 & E1 & E).
  assert (received = rc) as ->. { apply ST_bind_inv in E as (? & s2 & _ & E). apply ST_bind_inv in E as (? & s3 & _ & E). by injection E as -> _. }
  unfold on_link in E1. destruct (link_objects s !! l) as [x|] eqn:Ex; [|done].
  destruct (decrypt_cases packet now x) as [[e Ed]|(est & pt & Ho & [(e & Ed & _)|(inner & rep & Hi & Ed)])]; rewrite Ed in E1; [done|done|].
  injection E1 as <- _. by exists x, est, pt, inner.
Qed.

(** What a frame that is handled without an error does. *)
Lemma established_run allowed route packet nowMs now s s' : node_reachable identity startupEpoch s ->
  processEstablished allowed route packet nowMs now s = (Ok tt, s') ->
  exists est, decodeFmpEstablished packet = Ok est /\
  let '(r, s1) := matchEstablishedLink (eh_receiverIdx (est_header est)) nowMs s in
  match r with
  | Ok (Some m) => exists key p x pt inner,
      (key, mt_peer m) ∈ nd_peers s1 /\ peer_objects s1 !! mt_peer m = Some p /\ carries s1 (mt_peer m) (mt_link m) /\
      link_objects s1 !! mt_link m = Some x /\ (slot p (mt_link m) -> named p x) /\
      allowed (ap_pubkey p) = Ok tt /\ opened x packet est pt /\ decodeFmpInner pt = Ok inner /\
      last (nd_calls s') = Some (HandleLinkMessage (mt_peer m) (in_msgType inner) (in_payload inner))
  | Ok None => s' = s1
  | Throw _ => False
  end.
Proof.
  intros Hr E. unfold processEstablished in E. apply ST_bind_inv in E as (est & s0 & Ed & E). injection Ed as Ed <-. exists est. split; [done|].
  apply ST_bind_inv in E as (o & s1 & Em & E). rewrite Em.
  pose proof (reachable_numbered identity startupEpoch s Hid Hr) as Hn. destruct (matchEstablished_run _ _ _ _ _ _ Hn Em) as [_ Hm].
  destruct o as [m|]; [|by injection E as <-]. destruct (Hm m eq_refl) as [[_ _ Hc] [key Hk]]. destruct m as [i l promote]. cbn [mt_peer mt_link] in *.
  pose proof (reachable_identified identity Hid startupEpoch s Hr) as Hs.
  pose proof (lenient_matchEstablished (R := settles) (eh_receiverIdx (est_header est)) nowMs s) as Hse. rewrite Em in Hse.
  pose proof (identified_settles _ _ _ _ Hse Hs) as Hs1. clear Hs Hse Hm.
  apply ST_bind_inv in E as (p & s2 & Ep & E). assert (s2 = s1 /\ peer_objects s1 !! i = Some p) as [-> Hp].
  { unfold peer_at in Ep. rewrite ST_get_bind in Ep. destruct (peer_objects s1 !! i); [|done]. by injection Ep as -> ->. }
  apply ST_bind_inv in E as ([] & s2 & Ea & E). injection Ea as Ea <-. apply ST_bind_inv in E as (received & s2 & Erc & E).
  destruct (receive_opened _ _ _ _ _ _ _ Erc) as (x & est' & pt & inner & Hx & Ho & Hi & ->). assert (est' = est) as ->.
  { destruct Ho as (? & ? & ? & _ & _ & Ed' & _). congruence. }
  exists key, p, x, pt, inner. split_and!; try done.
  - intros Hsl. destruct (id_slot _ _ _ Hs1 i p l (or_introl (ex_intro _ key Hk)) Hp Hsl) as (y & Hy & [[=]|Hny]). cbn [snd] in Hy. by assert (x = y) as -> by congruence.
  - rewrite ST_get_bind in E. apply ST_bind_inv in E as (? & s3 & _ & E). apply ST_bind_inv in E as (? & s4 & _ & E).
    apply ST_bind_inv in E as (? & s5 & _ & E). injection E as <-. cbn. apply last_snoc.
Qed.
End Frames.

(** ** The theorems *)

(** C11: in every run of a node, whatever it receives and whatever the policy and
    the routing answer, the table of peers is by their addresses, a peer is
    known by a compressed key and its hex, or is not known yet, and the current
    and the pending link of a peer, once established or if the node opened it,
    are with the identity of the peer: their remote key and the key of the peer
    give the same address. Two peers never share a link whose handshake is not
    over. *)
Theorem peer_links_authentic `{Noble, !PointLaws, !HashLaws, !HexLaws, !HexTextLaws} (identity : FipsIdentity) (startupEpoch : bytes) (s : Node) :
  identity_wf identity -> node_reachable identity startupEpoch s ->
  (forall key i, (key, i) ∈ nd_peers s -> exists p, peer_objects s !! i = Some p /\ key = transportAddressKey (ap_remoteAddr p) /\
     (ap_pubkey p = [] /\ ap_pubkeyHex p = ""%string \/
      sameCompressedIdentity (ap_pubkey p) (ap_pubkey p) = true /\ ap_pubkeyHex p = toHex (ap_pubkey p)) /\
     forall l, ap_link p = l \/ pendingResponderLink p = Some l -> exists x, link_objects s !! l = Some x /\
       (fl_state x = LEstablished \/ fl_role x = initiator -> exists pk addr, fl_remotePubkey x = Some pk /\
          sameCompressedIdentity pk (ap_pubkey p) = true /\ deriveNodeAddr pk = Ok addr /\ deriveNodeAddr (ap_pubkey p) = Ok addr)) /\
  (forall key key' i j p q l x, (key, i) ∈ nd_peers s -> (key', j) ∈ nd_peers s -> peer_objects s !! i = Some p -> peer_objects s !! j = Some q ->
     slot p l -> slot q l -> link_objects s !! l = Some x -> fl_hs x <> None -> i = j).
Proof.
  intros Hid Hr. pose proof (reachable_identified identity Hid startupEpoch s Hr) as Hs. split.
  - intros key i Hk. destruct (id_peer _ _ _ Hs i (or_introl (ex_intro _ key Hk))) as (p & Hp & Hw & Ha). exists p. split; [done|]. split; [by apply Ha|].
    split; [exact Hw|]. intros l Hl. destruct (peer_link identity Hid startupEpoch s key i p l Hr Hk Hp Hl) as (x & Hx & Hn). exists x. split; [done|].
    intros Hup. destruct (Hn Hup) as (pk & Epk & Hsame). destruct (same_address pk (ap_pubkey p) Hsame) as (addr & A1 & A2). by exists pk, addr.
  - intros key key' i j p q l x Hk Hk' Hp Hq Hpl Hql Hx Hh. destruct (decide (i = j)) as [|Hne]; [done|]. exfalso. apply Hh.
    destruct (id_shared _ _ _ Hs i j p q l (or_introl (ex_intro _ key Hk)) (or_introl (ex_intro _ key' Hk')) Hne Hp Hq Hpl Hql) as (y & Hy & Hyh). congruence.
Qed.

(** C12: in every run of a node, an encrypted frame that is handled without an
    error is either for no link, and nothing happens but that expired links are
    closed, or its message, and only then, is handed over as one of a peer of
    the table whom the policy allows: a link of that peer, with the number of
    the frame and established, has authenticated the frame under its receive
    key and its number, which was not used before. Unless that link is being drained,
    it is with the identity the peer is known by. *)
Theorem link_frames_delivered `{Noble, !AeadLaws, !PointLaws, !HashLaws, !HexLaws, !HexTextLaws} (identity : FipsIdentity) (startupEpoch : bytes) (s : Node)
    allowed route packet nowMs now s' :
  identity_wf identity -> node_reachable identity startupEpoch s ->
  processEstablished allowed route packet nowMs now s = (Ok tt, s') ->
  exists est, decodeFmpEstablished packet = Ok est /\
  let '(r, s1) := matchEstablishedLink (eh_receiverIdx (est_header est)) nowMs s in
  r = Ok None /\ s' = s1 \/
  exists m key p x k n aad pt inner, r = Ok (Some m) /\
    (key, mt_peer m) ∈ nd_peers s1 /\ peer_objects s1 !! mt_peer m = Some p /\ allowed (ap_pubkey p) = Ok tt /\
    carries s1 (mt_peer m) (mt_link m) /\ link_objects s1 !! mt_link m = Some x /\ fl_state x = LEstablished /\
    fl_localSessionIdx x = eh_receiverIdx (est_header est) /\ fl_rx x = Some (CipherState.mk (Some k) n) /\
    ReplayWindow.check (fl_rxReplay x) (eh_counter (est_header est)) = true /\
    encodeFmpEstablishedHeader (est_header est) (est_payloadLen est) = Ok aad /\
    aeadSeal k (eh_counter (est_header est)) pt aad = Ok (est_ciphertext est) /\ decodeFmpInner pt = Ok inner /\
    last (nd_calls s') = Some (HandleLinkMessage (mt_peer m) (in_msgType inner) (in_payload inner)) /\
    (ap_link p = mt_link m \/ pendingResponderLink p = Some (mt_link m) -> exists pk, fl_remotePubkey x = Some pk /\
       sameCompressedIdentity pk (ap_pubkey p) = true).
Proof.
  intros Hid Hr E. destruct (established_run identity Hid startupEpoch allowed route packet nowMs now s s' Hr E) as (est & Ed & Hc). exists est. split; [done|].
  destruct (matchEstablishedLink _ _ s) as [[[m|]|e] s1]; [right|by left|done].
  destruct Hc as (key & p & x & pt & inner & Hk & Hp & Hcar & Hx & Hn & Ha & (k & n & aad & Hs & Hrx & Ed' & Hidx & Hc & Haad & Hop) & Hi & Hl).
  assert (forall e, decodeFmpEstablished packet = Ok e -> e = est) as Hest by (intros; congruence).
  exists m, key, p, x, k, n, aad, pt, inner. split_and!; try done; [by apply aeadOpen_iff_Seal|]. intros Hsl. apply (Hn Hsl). by left.
Qed.

(** ** Examples *)

#[local] Existing Instances Toy.noble Toy.hash_laws Toy.aead_laws Toy.point_laws Toy.hex_laws.

(** A frame of node 5 for the node that it has connected to. *)
Definition net_sent : Node := snd (sendLinkMessage anyone anyone false 0 LinkMessageType.Heartbeat [] (F64.of_Z 130) net_confirming).
Definition net_frame : bytes := nth 2 (packets net_sent) [].
Lemma peer_links_authentic_witness : exists p x pk addr,
  peer_objects net_up !! 0%nat = Some p /\ ap_pubkeyHex p = toHex (ap_pubkey p) /\ link_objects net_up !! ap_link p = Some x /\
  fl_state x = LEstablished /\ fl_remotePubkey x = Some pk /\ deriveNodeAddr pk = Ok addr /\ deriveNodeAddr (ap_pubkey p) = Ok addr.
Proof.
  destruct (peer_links_authentic (demo_identity 9) (net_epoch x02) net_up ltac:(apply demo_identity_wf; vm_compute; reflexivity) net_up_reachable) as [Hp _].
  destruct (Hp (fst (nth 0 (nd_peers net_up) (""%string, 0%nat))) 0%nat ltac:(vm_compute; left)) as (p & Ep & _ & Hh & Hl).
  destruct (Hl (ap_link p) (or_introl eq_refl)) as (x & Ex & Hx).
  assert (Hup : fl_state x = LEstablished) by (apply (current_up net_up 0%nat p x Ep Ex); vm_compute; reflexivity).
  destruct (Hx (or_introl Hup)) as (pk & addr & Ek & _ & A1 & A2). exists p, x, pk, addr.
  split; [exact Ep|]. split; [|split; [exact Ex|split; [exact Hup|split; [exact Ek|split; [exact A1|exact A2]]]]].
  destruct Hh as [[En Eh]|[_ Eh]]; [|exact Eh]. rewrite En, Eh. reflexivity.
Defined.

Lemma net_matches : match decodeFmpEstablished net_frame with
  | Ok e => fst (matchEstablishedLink (eh_receiverIdx (est_header e)) 140 net_up) = Ok (Some (mkMatch 0 0 false))
  | Throw _ => False
  end.
Proof. vm_compute. reflexivity. Qed.

Lemma link_frames_delivered_witness : exists s', processEstablished anyone no_route net_frame 140 (F64.of_Z 140) net_up = (Ok tt, s') /\
  exists p x inner, last (nd_calls s') = Some (HandleLinkMessage 0 (in_msgType inner) (in_payload inner)) /\
    (ap_link p = 0%nat \/ pendingResponderLink p = Some 0%nat -> exists pk, fl_remotePubkey x = Some pk /\ sameCompressedIdentity pk (ap_pubkey p) = true).
Proof.
  assert (E : fst (processEstablished anyone no_route net_frame 140 (F64.of_Z 140) net_up) = Ok tt) by (vm_compute; reflexivity).
  destruct (processEstablished anyone no_route net_frame 140 (F64.of_Z 140) net_up) as [r s'] eqn:Eh. cbn [fst] in E. subst r. exists s'. split; [reflexivity|].
  destruct (link_frames_delivered (demo_identity 9) (net_epoch x02) net_up anyone no_route net_frame 140 (F64.of_Z 140) s'
    ltac:(apply demo_identity_wf; vm_compute; reflexivity) net_up_reachable Eh) as (est & Ed & Hc).
  pose proof net_matches as Hm. rewrite Ed in Hm. destruct (matchEstablishedLink _ _ net_up) as [r s1]. cbn [fst] in Hm. subst r.
  destruct Hc as [[[=] _]|(m & key & p & x & k & n & aad & pt & inner & Em & _ & Ep & _ & _ & _ & _ & _ & _ & _ & _ & _ & _ & Hl & Hi)].
  injection Em as <-. exists p, x, inner. split; [exact Hl|exact Hi].
Defined.
