(* ===== verification/Ethernet.v ===== *)
(** * The virtual Ethernet carrier

    [transport-ethernet/src/VirtualEthernetTransport.ts]: packets and beacons in
    Ethernet frames, the addresses that beacons teach, and the stream of
    discovered peers. The port, the context of the node and the timers are
    outside: what is sent to them is recorded in order. [start] is cut at its
    [await]. A JavaScript string that crosses the wire is its UTF-8 text. *)

From S2P Require Import Prelude Codec Crypto Toy NodeAddr Identity FspWire DirectTransport Peers Admission.

Definition FIPS_ETHERTYPE : Z := 0x2121.
Definition ETHERNET_HEADER_LENGTH : Z := 14.
Definition FIPS_ETHERNET_DATA_HEADER_LENGTH : Z := 3.
Definition FRAME_TYPE_DATA : Z := 0x00.
Definition FRAME_TYPE_BEACON : Z := 0x01.
Definition DISCOVERY_VERSION : Z := 0x01.
Definition BASE_BEACON_LENGTH : Z := 34.
Definition DEFAULT_INTERFACE_MTU : Z := 1500.
Definition DEFAULT_BEACON_INTERVAL_MS : Z := 30000.
Definition MIN_BEACON_INTERVAL_MS : Z := 10000.
Definition BROADCAST_BYTES : bytes := replicate 6 xff.

(** ** Addresses *)

Definition hex_value (c : Ascii.ascii) : Z :=
  let n := Z.of_N (Ascii.N_of_ascii c) in if n <=? 57 then n - 48 else if n <=? 70 then n - 55 else n - 87.

(** The pattern of [n] pairs of digits with colons between, and its reading. *)
Fixpoint parse_pairs (n : nat) (s : string) : option bytes :=
  match n, s with
  | S n, String a (String b s) =>
      if is_hex a && is_hex b then
        let x := z2b (16 * hex_value a + hex_value b) in
        match n, s with
        | O, EmptyString => Some [x]
        | S _, String c s => if decide (c = Ascii.ascii_of_N 58) then cons x <$> parse_pairs n s else None
        | _, _ => None
        end
      else None
  | _, _ => None
  end.

Inductive MacValue := MacText (s : string) | MacBytes (b : bytes).

Definition parseMac (value : MacValue) : result bytes :=
  match value with
  | MacBytes b => throw_if (negb (len b =? 6)) (Error "MAC address must be 6 bytes");; Ok b
  | MacText s => match parse_pairs 6 s with Some b => Ok b | None => Throw (Error "invalid MAC address") end
  end.

Definition byte_text (b : byte) : string := String (hex_digit (b2z b / 16)) (String (hex_digit (b2z b mod 16)) EmptyString).

Definition formatMac (mac : bytes) : result string :=
  throw_if (negb (len mac =? 6)) (Error "MAC address must be 6 bytes");;
  Ok (String.concat ":" (map byte_text mac)).

Definition isZeroMac (mac : bytes) : bool := forallb (fun b => b2z b =? 0) mac.

Definition buildEthernetFrame (destination source payload : bytes) : bytes :=
  let frame := replicate (Z.to_nat (ETHERNET_HEADER_LENGTH + len payload)) x00 in
  let frame := BinaryWriter.set_at frame destination 0 in
  let frame := BinaryWriter.set_at frame source 6 in
  let frame := BinaryWriter.set_at frame [z2b (js_ushr FIPS_ETHERTYPE 8)] 12 in
  let frame := BinaryWriter.set_at frame [z2b (js_and FIPS_ETHERTYPE 0xff)] 13 in
  BinaryWriter.set_at frame payload ETHERNET_HEADER_LENGTH.

(** ** Text: [TextDecoder] with [fatal] *)

Definition in_range (lo hi : Z) (b : byte) : bool := (lo <=? b2z b) && (b2z b <=? hi).
Definition continues (b : byte) : bool := in_range 0x80 0xbf b.

Fixpoint utf8_text (t : bytes) : bool :=
  match t with
  | [] => true
  | b :: t =>
      if b2z b <? 0x80 then utf8_text t
      else if in_range 0xc2 0xdf b then match t with c :: t => continues c && utf8_text t | _ => false end
      else if in_range 0xe0 0xef b then
        match t with
        | c :: d :: t => in_range (if b2z b =? 0xe0 then 0xa0 else 0x80) (if b2z b =? 0xed then 0x9f else 0xbf) c && continues d && utf8_text t
        | _ => false
        end
      else if in_range 0xf0 0xf4 b then
        match t with
        | c :: d :: e :: t =>
            in_range (if b2z b =? 0xf0 then 0x90 else 0x80) (if b2z b =? 0xf4 then 0x8f else 0xbf) c && continues d && continues e && utf8_text t
        | _ => false
        end
      else false
  end.

(** The decoder drops a byte order mark. *)
Definition decode_text (t : bytes) : option bytes :=
  if utf8_text t then Some (if decide (take 3 t = [xef; xbb; xbf]) then drop 3 t else t) else None.

(** ** The stream of discovered peers *)

Record Stream (A : Type) := mkStream {
  values : list A;
  waiters : list nat;
  closed : bool;
  (** what the promises handed out have been resolved with; [None] is [done] *)
  answers : list (nat * option A);
  asked : nat;
}.
Arguments mkStream {_}. Arguments values {_}. Arguments waiters {_}. Arguments closed {_}. Arguments answers {_}. Arguments asked {_}.

Definition new_stream {A} : Stream A := mkStream [] [] false [] 0.

Definition push_ {A} (value : A) (s : Stream A) : Stream A :=
  if closed s then s else
  match waiters s with
  | w :: ws => mkStream (values s) ws (closed s) (answers s ++ [(w, Some value)]) (asked s)
  | [] => mkStream (values s ++ [value]) [] (closed s) (answers s) (asked s)
  end.

Definition close_ {A} (s : Stream A) : Stream A :=
  if closed s then s else
  mkStream [] [] true (answers s ++ map (fun w => (w, None)) (waiters s)) (asked s).

(** [next()]: the promise it returns has the number [asked s]. *)
Definition next_ {A} (s : Stream A) : Stream A :=
  match values s with
  | v :: vs => mkStream vs (waiters s) (closed s) (answers s ++ [(asked s, Some v)]) (S (asked s))
  | [] => if closed s then mkStream [] (waiters s) true (answers s ++ [(asked s, None)]) (S (asked s))
          else mkStream [] (waiters s ++ [asked s]) false (answers s) (S (asked s))
  end.

(** ** The transport *)

Record EthConfig := mkEthConfig {
  localMac : bytes;
  interfaceMtu : Z;
  et_mtu : Z;
  discoveryEnabled : bool;
  et_announce : bool;
  discoveryScope : option bytes;
  beaconIntervalMs : Z;
}.

Definition integerInRange (value min max : Z) : result Z :=
  throw_if ((value <? min) || (value >? max)) (Error "must be an integer in range");; Ok value.

(** The constructor. An option that is left out is [None]. *)
Definition new_ethernet (mac : MacValue) (ifMtu mtu : option Z) (discovery ann : option bool) (scope : option bytes) (interval : option Z)
    : result EthConfig :=
  local ← parseMac mac;
  throw_if (isZeroMac local || bytesEqual local BROADCAST_BYTES) (Error "local MAC must be a nonzero unicast address");;
  throw_if (negb (js_and (byte_at local 0) 0x01 =? 0)) (Error "local MAC must be unicast");;
  iface ← integerInRange (default DEFAULT_INTERFACE_MTU ifMtu) (FIPS_ETHERNET_DATA_HEADER_LENGTH + 1) (0xffff + FIPS_ETHERNET_DATA_HEADER_LENGTH);
  let maximumMtu := Z.min (iface - FIPS_ETHERNET_DATA_HEADER_LENGTH) 0xffff in
  requested ← match mtu with None => Ok maximumMtu | Some m => integerInRange m 1 0xffff end;
  Ok (mkEthConfig local iface (Z.min requested maximumMtu) (default true discovery) (default true ann)
    (match scope with Some (_ :: _) => scope | _ => None end) (Z.max (default DEFAULT_BEACON_INTERVAL_MS interval) MIN_BEACON_INTERVAL_MS)).

Record EthDiscovered := mkEthDiscovered { ed_remoteAddr : TransportAddress; ed_publicKey : bytes; ed_scope : option bytes }.

Inductive EthCall :=
| SendFrame (frame : bytes)
| OnPacket (remoteAddr : TransportAddress) (data : bytes)
| OnConnectionState (remoteAddr : TransportAddress) (up : bool).

Record Ethernet := mkEthernet {
  ctx : option FipsIdentity;
  subscribed : bool;
  (** the timers that are running, and the one that [stop] clears *)
  timers : list nat;
  beaconTimer : option nat;
  nextTimer : nat;
  connected : list (string * TransportAddress);
  macByPubkey : list (string * string);
  pubkeyByMac : list (string * string);
  streams : list (Stream EthDiscovered);
  discoveryStream : option nat;
  eth_calls : list EthCall;
}.

Definition idle : Ethernet := mkEthernet None false [] None 0 [] [] [] [] None [].

Abbreviation ET := (ST Ethernet).

Section Stores.
Context (s : Ethernet).
Let upd c sub ts bt nt con mp pm st ds cs := mkEthernet c sub ts bt nt con mp pm st ds cs.
Definition set_ctx x sub := upd x sub (timers s) (beaconTimer s) (nextTimer s) (connected s) (macByPubkey s) (pubkeyByMac s) (streams s) (discoveryStream s) (eth_calls s).
Definition set_timers ts bt nt := upd (ctx s) (subscribed s) ts bt nt (connected s) (macByPubkey s) (pubkeyByMac s) (streams s) (discoveryStream s) (eth_calls s).
Definition set_connected x := upd (ctx s) (subscribed s) (timers s) (beaconTimer s) (nextTimer s) x (macByPubkey s) (pubkeyByMac s) (streams s) (discoveryStream s) (eth_calls s).
Definition set_known mp pm := upd (ctx s) (subscribed s) (timers s) (beaconTimer s) (nextTimer s) (connected s) mp pm (streams s) (discoveryStream s) (eth_calls s).
Definition set_streams st ds := upd (ctx s) (subscribed s) (timers s) (beaconTimer s) (nextTimer s) (connected s) (macByPubkey s) (pubkeyByMac s) st ds (eth_calls s).
Definition set_eth_calls x := upd (ctx s) (subscribed s) (timers s) (beaconTimer s) (nextTimer s) (connected s) (macByPubkey s) (pubkeyByMac s) (streams s) (discoveryStream s) x.
End Stores.

Definition eth_call (c : EthCall) : ET unit := modify (fun s => set_eth_calls s (eth_calls s ++ [c])).
Definition on_stream (i : nat) (f : Stream EthDiscovered -> Stream EthDiscovered) : ET unit :=
  modify (fun s => set_streams s (alter f i (streams s)) (discoveryStream s)).

Section Transport.
Context `{Noble} (cfg : EthConfig).

Definition requireStarted : ET FipsIdentity :=
  s ← get; match ctx s with Some id => mret id | None => throw (Error "virtual Ethernet transport not started") end.

Definition connect (addr : TransportAddress) : ET unit :=
  requireStarted;;
  throw_when (negb (bool_decide (ta_transport addr = "ethernet"%string))) (Error "wrong transport");;
  b ← lift (parseMac (MacText (ta_addr addr)));
  mac ← lift (formatMac b);
  throw_when (bool_decide (mac = "00:00:00:00:00:00"%string)) (Error "destination MAC is all zeros");;
  modify (fun s => set_connected s (JsMap.set_ (connected s) mac addr));;
  eth_call (OnConnectionState addr true).

(** [send] up to what the port answers, which is awaited last. *)
Definition send (addr : TransportAddress) (packet : bytes) : ET unit :=
  requireStarted;;
  throw_when (negb (bool_decide (ta_transport addr = "ethernet"%string))) (Error "wrong transport");;
  throw_when (len packet >? et_mtu cfg) (Error "packet exceeds MTU");;
  destination ← lift (parseMac (MacText (ta_addr addr)));
  throw_when (isZeroMac destination) (Error "destination MAC is all zeros");;
  let payload := replicate (Z.to_nat (FIPS_ETHERNET_DATA_HEADER_LENGTH + len packet)) x00 in
  let payload := BinaryWriter.set_at payload [z2b FRAME_TYPE_DATA] 0 in
  let payload := BinaryWriter.set_at payload [z2b (js_and (len packet) 0xff)] 1 in
  let payload := BinaryWriter.set_at payload [z2b (js_ushr (len packet) 8)] 2 in
  let payload := BinaryWriter.set_at payload packet FIPS_ETHERNET_DATA_HEADER_LENGTH in
  eth_call (SendFrame (buildEthernetFrame destination (localMac cfg) payload)).

Definition close (addr : TransportAddress) : ET unit :=
  b ← lift (parseMac (MacText (ta_addr addr)));
  mac ← lift (formatMac b);
  s ← get;
  if negb (JsMap.has_ (connected s) mac) then mret tt else
  modify (fun s => set_connected s (JsMap.delete_ (connected s) mac));;
  match ctx s with Some _ => eth_call (OnConnectionState addr false) | None => mret tt end.

(** [discover()]: the stream that is read, if there is one. *)
Definition discover : ET (option nat) := s ← get; mret (discoveryStream s).

(** [xOnlyKey] *)
Definition xOnlyKey (pubkey : string + bytes) : result string :=
  let hex := match pubkey with inl s => toLowerCase s | inr b => toHex b end in
  let lower_hex := all_hex hex && bool_decide (toLowerCase hex = hex) in
  if lower_hex && (String.length hex =? 64)%nat then Ok hex
  else if lower_hex && (String.length hex =? 66)%nat && (String.prefix "02" hex || String.prefix "03" hex)
       then Ok (String.substring 2 (String.length hex - 2) hex)
  else Throw (Error "pubkey must be 32-byte x-only or 33-byte compressed hex").

Definition macForPubkey (pubkey : string + bytes) : ET (option string) :=
  key ← lift (xOnlyKey pubkey); s ← get; mret (JsMap.get_ (macByPubkey s) key).

Definition pubkeyForMac (mac : MacValue) : ET (option string) :=
  b ← lift (parseMac mac); m ← lift (formatMac b); s ← get; mret (JsMap.get_ (pubkeyByMac s) m).

(** ** Receiving *)

Definition receiveData (source payload : bytes) : ET unit :=
  if len payload <? FIPS_ETHERNET_DATA_HEADER_LENGTH then mret tt else
  let payloadLength := js_or (byte_at payload 1) (js_shl (byte_at payload 2) 8) in
  if (payloadLength >? et_mtu cfg) || (payloadLength >? len payload - FIPS_ETHERNET_DATA_HEADER_LENGTH) then mret tt else
  mac ← lift (formatMac source);
  eth_call (OnPacket (mkAddress "ethernet" mac)
    (subarray payload FIPS_ETHERNET_DATA_HEADER_LENGTH (FIPS_ETHERNET_DATA_HEADER_LENGTH + payloadLength))).

(** The scope of a beacon: [None] where the beacon is dropped. *)
Definition beacon_scope (payload : bytes) : option (option bytes) :=
  if len payload >? BASE_BEACON_LENGTH then
    let scopeLength := byte_at payload BASE_BEACON_LENGTH in
    let scopeEnd := BASE_BEACON_LENGTH + 1 + scopeLength in
    if scopeEnd >? len payload then None else
    match decode_text (subarray payload (BASE_BEACON_LENGTH + 1) scopeEnd) with
    | Some [] => Some None
    | Some t => Some (Some t)
    | None => None
    end
  else Some None.

Definition receiveBeacon (local : FipsIdentity) (source payload : bytes) : ET unit :=
  if negb (discoveryEnabled cfg) || (len payload <? BASE_BEACON_LENGTH) then mret tt else
  if negb (byte_at payload 1 =? DISCOVERY_VERSION) then mret tt else
  match beacon_scope payload with
  | None => mret tt
  | Some scope =>
      if match discoveryScope cfg with Some t => negb (bool_decide (scope = Some t)) | None => false end then mret tt else
      match compressedPubkeyFromXOnly (subarray payload 2 34) with
      | Throw _ => mret tt
      | Ok publicKey =>
          if bytesEqual (subarray_from publicKey 1) (xOnlyPubkey local) then mret tt else
          mac ← lift (formatMac source);
          let pubkeyHex := toHex publicKey in
          let key := toHex (subarray_from publicKey 1) in
          modify (fun s => set_known s (JsMap.set_ (macByPubkey s) key mac) (JsMap.set_ (pubkeyByMac s) mac pubkeyHex));;
          s ← get;
          match discoveryStream s with
          | Some i => on_stream i (push_ (mkEthDiscovered (mkAddress "ethernet" mac) publicKey scope))
          | None => mret tt
          end
      end
  end.

Definition receiveFrame (frame : bytes) : ET unit :=
  s ← get;
  match ctx s with
  | None => mret tt
  | Some local =>
      if len frame <? ETHERNET_HEADER_LENGTH + 1 then mret tt else
      if len frame >? ETHERNET_HEADER_LENGTH + interfaceMtu cfg then mret tt else
      let destination := subarray frame 0 6 in
      let source := subarray frame 6 12 in
      if bytesEqual source (localMac cfg) then mret tt else
      if negb (bytesEqual destination (localMac cfg)) && negb (bytesEqual destination BROADCAST_BYTES) then mret tt else
      let ethertype := js_or (js_shl (byte_at frame 12) 8) (byte_at frame 13) in
      if negb (ethertype =? FIPS_ETHERTYPE) then mret tt else
      let payload := subarray_from frame ETHERNET_HEADER_LENGTH in
      if byte_at payload 0 =? FRAME_TYPE_DATA then receiveData source payload
      else if byte_at payload 0 =? FRAME_TYPE_BEACON then receiveBeacon local source payload
      else mret tt
  end.

(** ** Beacons, start and stop *)

(** [sendBeacon] up to its transmission. *)
Definition sendBeacon : ET unit :=
  s ← get;
  match ctx s with
  | None => mret tt
  | Some local =>
      let scopeBytes := match discoveryScope cfg with Some t => take 255 t | None => [] end in
      let payload := replicate (Z.to_nat (BASE_BEACON_LENGTH + (if len scopeBytes >? 0 then 1 + len scopeBytes else 0))) x00 in
      let payload := BinaryWriter.set_at payload [z2b FRAME_TYPE_BEACON] 0 in
      let payload := BinaryWriter.set_at payload [z2b DISCOVERY_VERSION] 1 in
      let payload := BinaryWriter.set_at payload (xOnlyPubkey local) 2 in
      let payload := if len scopeBytes >? 0
                     then BinaryWriter.set_at (BinaryWriter.set_at payload [z2b (len scopeBytes)] BASE_BEACON_LENGTH) scopeBytes (BASE_BEACON_LENGTH + 1)
                     else payload in
      eth_call (SendFrame (buildEthernetFrame BROADCAST_BYTES (localMac cfg) payload))
  end.

(** The timer of the beacons fires. *)
Definition beacon_timer (i : nat) : ET unit := s ← get; if decide (i ∈ timers s) then sendBeacon else mret tt.

(** The [catch] block of [start]. *)
Definition start_failed (e : js_error) : ET unit :=
  modify (fun s => set_ctx s (ctx s) false);;
  s ← get;
  match discoveryStream s with
  | None => throw (TypeError "Cannot read properties of undefined")
  | Some i =>
      on_stream i close_;;
      modify (fun s => set_streams s (streams s) None);;
      modify (fun s => set_ctx s None (subscribed s));;
      throw e
  end.

(** [start] up to the transmission of the first beacon; [port] is what the port
    answers to [onFrame]. Whether there is a beacon to wait for. *)
Definition start (local : FipsIdentity) (port : result unit) : ET bool :=
  s ← get;
  match ctx s with
  | Some _ => mret false
  | None =>
      modify (fun s => set_ctx s (Some local) (subscribed s));;
      modify (fun s => set_streams s (streams s ++ [new_stream]) (Some (length (streams s))));;
      try_catch
        (lift port;;
         modify (fun s => set_ctx s (ctx s) true);;
         if et_announce cfg then sendBeacon;; mret true else mret false)
        (fun e => start_failed e;; mret false)
  end.

(** The first beacon has been sent. *)
Definition start_sent : ET unit :=
  modify (fun s => set_timers s (timers s ++ [nextTimer s]) (Some (nextTimer s)) (S (nextTimer s))).

Definition stop : ET unit :=
  s ← get;
  match ctx s with
  | None => mret tt
  | Some _ =>
      modify (fun s => set_timers s (match beaconTimer s with Some t => base.filter (fun i => i <> t) (timers s) | None => timers s end) None (nextTimer s));;
      modify (fun s => set_ctx s (ctx s) false);;
      for_each (fun e => eth_call (OnConnectionState (snd e) false)) (connected s);;
      modify (fun s => set_connected s []);;
      modify (fun s => set_known s [] []);;
      (match discoveryStream s with Some i => on_stream i close_ | None => mret tt end);;
      modify (fun s => set_streams s (streams s) None);;
      modify (fun s => set_ctx s None (subscribed s))
  end.
End Transport.

(** ** Facts *)

Lemma set_at_mid (pre mid post c : bytes) off : off = len pre -> length mid = length c ->
  BinaryWriter.set_at (pre ++ mid ++ post) c off = pre ++ c ++ post.
Proof.
  intros -> Hl. rewrite set_at_app, <- app_assoc. do 2 f_equal. by rewrite <- Hl, drop_app_length.
Qed.

Lemma set_at_head (mid post c : bytes) : length mid = length c -> BinaryWriter.set_at (mid ++ post) c 0 = c ++ post.
Proof. by apply (set_at_mid []). Qed.

Lemma replicate_split (a b : nat) (x : byte) : replicate (a + b) x = replicate a x ++ replicate b x.
Proof. apply replicate_add. Qed.

Lemma frame_layout dst src payload : len dst = 6 -> len src = 6 ->
  buildEthernetFrame dst src payload = dst ++ src ++ [x21; x21] ++ payload.
Proof.
  unfold len. intros Hd Hs. unfold buildEthernetFrame, len, ETHERNET_HEADER_LENGTH.
  replace (Z.to_nat (14 + Z.of_nat (length payload))) with (6 + (6 + (1 + (1 + length payload))))%nat by lia.
  rewrite !replicate_split, set_at_head by (rewrite ?length_replicate; lia).
  rewrite (set_at_mid dst (replicate 6 x00)) by (rewrite ?length_replicate; unfold len; lia).
  rewrite (app_assoc dst src), (set_at_mid (dst ++ src) (replicate 1 x00)) by (rewrite ?len_app; unfold len; cbn; lia).
  rewrite (app_assoc (dst ++ src)), (set_at_mid ((dst ++ src) ++ _) (replicate 1 x00)) by (rewrite ?len_app; unfold len; cbn; lia).
  rewrite (app_assoc ((dst ++ src) ++ _)), <- (app_nil_r (replicate (length payload) x00)).
  rewrite (set_at_mid (((dst ++ src) ++ _) ++ _) (replicate (length payload) x00)) by (rewrite ?length_replicate, ?len_app; unfold len; cbn; lia).
  rewrite app_nil_r, <- !app_assoc. done.
Qed.

(** *** Addresses as text *)

Lemma hex_digit_value d : 0 <= d < 16 -> is_hex (hex_digit d) = true /\ hex_value (hex_digit d) = d.
Proof.
  intros Hd. assert (d ∈ seqZ 0 16) as Hin by (apply elem_of_seqZ; lia).
  assert (forallb (fun d => is_hex (hex_digit d) && (hex_value (hex_digit d) =? d)) (seqZ 0 16) = true) as Hall by (vm_compute; reflexivity).
  rewrite forallb_forall in Hall. apply list_elem_of_In, Hall, andb_true_iff in Hin as [? ?%Z.eqb_eq]. done.
Qed.

Lemma parse_byte_text n b s : parse_pairs (S n) (byte_text b ++ s) = match n, s with
  | O, EmptyString => Some [b]
  | S _, String c s => if decide (c = Ascii.ascii_of_N 58) then cons b <$> parse_pairs n s else None
  | _, _ => None
  end.
Proof.
  change (byte_text b ++ s)%string with (String (hex_digit (b2z b / 16)) (String (hex_digit (b2z b mod 16)) s)). cbn [parse_pairs]. pose proof (b2z_range b) as Hr.
  destruct (hex_digit_value (b2z b / 16)) as [H1 H2]; [split; [apply Z.div_pos; lia|apply Z.div_lt_upper_bound; lia]|].
  destruct (hex_digit_value (b2z b mod 16)) as [H3 H4]; [apply Z.mod_pos_bound; lia|].
  rewrite H1, H2, H3, H4. cbn [andb]. rewrite <- (Z.div_mod (b2z b) 16) by lia. by rewrite z2b_b2z.
Qed.

Lemma parse_formatted mac : mac <> [] -> parse_pairs (length mac) (String.concat ":" (map byte_text mac)) = Some mac.
Proof.
  induction mac as [|b mac IH]; [done|]. intros _. destruct mac as [|c mac].
  - cbn [map String.concat length]. change (byte_text b) with (byte_text b ++ "")%string. by rewrite parse_byte_text.
  - change (String.concat ":" (map byte_text (b :: c :: mac))) with (byte_text b ++ (":" ++ String.concat ":" (map byte_text (c :: mac))))%string.
    change (length (b :: c :: mac)) with (S (length (c :: mac))). rewrite parse_byte_text.
    cbn [length]. change (":" ++ String.concat ":" (map byte_text (c :: mac)))%string with
      (String (Ascii.ascii_of_N 58) (String.concat ":" (map byte_text (c :: mac)))). cbv iota beta. rewrite decide_True by done.
    change (S (length mac)) with (length (c :: mac)). by rewrite IH.
Qed.

Lemma formatMac_ok mac : len mac = 6 -> exists s, formatMac mac = Ok s /\ parseMac (MacText s) = Ok mac.
Proof.
  intros Hl. unfold formatMac. rewrite Hl. cbn [Z.eqb Pos.eqb negb throw_if mbind result_bind]. eexists. split; [reflexivity|].
  unfold parseMac. pose proof (parse_formatted mac ltac:(by destruct mac)) as E. replace (length mac) with 6%nat in E by (unfold len in Hl; lia). by rewrite E.
Qed.

Lemma parse_pairs_length n s b : parse_pairs n s = Some b -> length b = n /\ n <> O.
Proof.
  revert s b. induction n as [|n IH]; intros s b E; [done|]. destruct s as [|x [|y s]]; try done. cbn [parse_pairs] in E.
  destruct (_ && _); [|done]. destruct n as [|n], s as [|c s]; try done; [by injection E as <-|].
  destruct (decide _); [|done]. destruct (parse_pairs (S n) s) as [t|] eqn:Et; [|done]. injection E as <-. destruct (IH s t Et) as [Hl _]. cbn. split; [|done]. by f_equal.
Qed.

Lemma parseMac_len v b : parseMac v = Ok b -> len b = 6.
Proof.
  destruct v as [s|b']; unfold parseMac; intros E.
  - destruct (parse_pairs 6 s) as [t|] eqn:Et; [|done]. injection E as <-. apply parse_pairs_length in Et as [Hl _]. unfold len. lia.
  - apply guard_Ok in E as [Hl [= <-]]. bool_split. done.
Qed.

(** *** Configurations *)

Record eth_wf (cfg : EthConfig) : Prop := {
  ew_mac : len (localMac cfg) = 6;
  ew_nonzero : isZeroMac (localMac cfg) = false;
  ew_unicast : localMac cfg <> BROADCAST_BYTES;
  ew_mtu : 1 <= et_mtu cfg <= 65535;
  ew_fits : et_mtu cfg + 3 <= interfaceMtu cfg;
}.

Lemma new_ethernet_wf mac ifMtu mtu d a sc iv cfg : new_ethernet mac ifMtu mtu d a sc iv = Ok cfg -> eth_wf cfg.
Proof.
  unfold new_ethernet, integerInRange. intros E. apply result_bind_ok in E as (local & El & E). apply guard_Ok in E as [Hz E]. apply guard_Ok in E as [_ E].
  apply result_bind_ok in E as (iface & Ei & E). apply guard_Ok in Ei as [Hi [= <-]]. apply result_bind_ok in E as (req & Er & E). injection E as <-.
  apply orb_false_iff in Hz as [Hz Hb]. apply orb_false_iff in Hi as [Hi1 Hi2]. unfold FIPS_ETHERNET_DATA_HEADER_LENGTH in *. rewrite Z.gtb_ltb in *.
  apply Z.ltb_ge in Hi1, Hi2. assert (Hr : 1 <= req).
  { destruct mtu as [m|]; [|injection Er as <-; lia]. apply guard_Ok in Er as [Hm [= <-]]. apply orb_false_iff in Hm as [Hm _]. by apply Z.ltb_ge in Hm. }
  split; cbn; [by eapply parseMac_len|done| |lia|lia].
  intros E. rewrite E in Hb. vm_compute in Hb. done.
Qed.

(** *** Frames *)

Lemma ethertype_bytes a b : (js_or (js_shl (b2z a) 8) (b2z b) =? FIPS_ETHERTYPE) = bool_decide (a = x21 /\ b = x21).
Proof.
  unfold js_or. rewrite Z.lor_comm. change (to_int32 (Z.lor (to_int32 (b2z b)) (to_int32 (js_shl (b2z a) 8)))) with (js_or (b2z b) (js_shl (b2z a) 8)).
  rewrite js_le16. pose proof (b2z_range a). pose proof (b2z_range b). cbn [le_val]. unfold FIPS_ETHERTYPE. case_bool_decide as Hab.
  - destruct Hab as [-> ->]. done.
  - apply Z.eqb_neq. intros E. apply Hab. split; apply b2z_inj; vm_compute (b2z x21); lia.
Qed.

Lemma frame_parts (frame : bytes) : 15 <= len frame -> exists (dst src : bytes) a b p body, frame = dst ++ src ++ [a; b] ++ p :: body /\ len dst = 6 /\ len src = 6.
Proof.
  intros Hl. exists (take 6 frame), (take 6 (drop 6 frame)). unfold len in *.
  assert (Hd : length (drop 12 frame) = (length frame - 12)%nat) by apply length_drop.
  destruct (drop 12 frame) as [|a [|b [|p body]]] eqn:Ed; cbn in Hd; try lia. exists a, b, p, body. split; [|rewrite !length_take, length_drop; lia].
  rewrite <- (take_drop 6 frame) at 1. f_equal. rewrite <- (take_drop 6 (drop 6 frame)) at 1. f_equal. by rewrite drop_drop.
Qed.

Section Receive.
Context `{Noble} (cfg : EthConfig) (Hcfg : eth_wf cfg).

Definition for_us (dst : bytes) : Prop := dst = localMac cfg \/ dst = BROADCAST_BYTES.

Lemma receive_run local dst src a b p body s : ctx s = Some local -> len dst = 6 -> len src = 6 ->
  receiveFrame cfg (dst ++ src ++ [a; b] ++ p :: body) s =
    if decide (len (p :: body) <= interfaceMtu cfg /\ src <> localMac cfg /\ for_us dst /\ a = x21 /\ b = x21) then
      if b2z p =? 0 then receiveData cfg src (p :: body) s
      else if b2z p =? 1 then receiveBeacon cfg local src (p :: body) s
      else (Ok tt, s)
    else (Ok tt, s).
Proof.
  intros Hc Hd Hs. unfold receiveFrame. rewrite ST_get_bind, Hc. set (frame := dst ++ src ++ [a; b] ++ p :: body).
  assert (Hl : len frame = 14 + len (p :: body)) by (unfold frame; rewrite !len_app, Hd, Hs; change (len [a; b]) with 2; lia).
  pose proof (len_nonneg body). rewrite len_cons in Hl.
  assert (E0 : subarray frame 0 6 = dst) by (apply (subarray_app_mid [] dst _ 0 6); rewrite ?Hd; done).
  assert (E1 : subarray frame 6 12 = src) by (apply (subarray_app_mid dst src _ 6 6); rewrite ?Hd, ?Hs; done).
  assert (E2 : byte_at frame 12 = b2z a).
  { unfold frame. rewrite app_assoc. replace 12 with (len (dst ++ src) + 0) by (rewrite len_app, Hd, Hs; lia). rewrite byte_at_app_l by lia. done. }
  assert (E3 : byte_at frame 13 = b2z b).
  { unfold frame. rewrite app_assoc. replace 13 with (len (dst ++ src) + 1) by (rewrite len_app, Hd, Hs; lia). rewrite byte_at_app_l by lia. done. }
  assert (E4 : subarray_from frame ETHERNET_HEADER_LENGTH = p :: body).
  { unfold frame. rewrite !app_assoc. apply subarray_from_app. rewrite !len_app, Hd, Hs. done. }
  rewrite E0, E1, E2, E3, E4, Hl. unfold ETHERNET_HEADER_LENGTH, FRAME_TYPE_DATA, FRAME_TYPE_BEACON. rewrite (proj2 (Z.ltb_ge _ _)) by lia.
  rewrite len_cons, Z.gtb_ltb, !bytesEqual_spec, ethertype_bytes, byte_at_head.
  destruct (Z.ltb_spec (14 + interfaceMtu cfg) (14 + (1 + len body))) as [Hm|Hm]; [rewrite decide_False by lia; done|].
  case_bool_decide as H1; [rewrite decide_False by tauto; done|].
  case_bool_decide as H2; case_bool_decide as H3; cbn [negb andb]; try (rewrite decide_False by (unfold for_us; tauto); done);
    (case_bool_decide as H4; [rewrite decide_True by (unfold for_us; split_and!; try tauto; lia)|rewrite decide_False by tauto]; cbn [negb]; try done).
  all: by destruct (b2z p =? 0), (b2z p =? 1).
Qed.

(** What a data frame is, padding included. *)
Definition carries_packet (frame src data : bytes) : Prop := exists dst pad,
  frame = dst ++ src ++ [x21; x21] ++ x00 :: le_bytes 2 (len data) ++ data ++ pad /\
  len dst = 6 /\ len src = 6 /\ for_us dst /\ src <> localMac cfg /\
  len data <= et_mtu cfg /\ len frame <= ETHERNET_HEADER_LENGTH + interfaceMtu cfg.

Lemma le_bytes2 n : exists lo hi, le_bytes 2 n = [lo; hi] /\ (0 <= n < 65536 -> le_val [lo; hi] = n).
Proof.
  pose proof (length_le_bytes 2 n) as Hl. destruct (le_bytes 2 n) as [|lo [|hi [|]]] eqn:E; try done. exists lo, hi. split; [done|].
  intros Hn. rewrite <- E. by apply le_val_bytes.
Qed.

Lemma receiveData_run src data pad s : len src = 6 -> 0 <= len data <= et_mtu cfg -> exists mac, formatMac src = Ok mac /\
  receiveData cfg src (x00 :: le_bytes 2 (len data) ++ data ++ pad) s =
    (Ok tt, set_eth_calls s (eth_calls s ++ [OnPacket (mkAddress "ethernet" mac) data])).
Proof.
  intros Hs Hd. destruct (formatMac_ok src Hs) as (mac & Em & _). exists mac. split; [done|]. pose proof (ew_mtu _ Hcfg).
  destruct (le_bytes2 (len data)) as (lo & hi & El & Ev). specialize (Ev ltac:(lia)). rewrite El. unfold receiveData, FIPS_ETHERNET_DATA_HEADER_LENGTH.
  set (payload := x00 :: [lo; hi] ++ data ++ pad).
  assert (Hl : len payload = 3 + (len data + len pad)) by (unfold payload; rewrite len_cons, !len_app; change (len [lo; hi]) with 2; lia). pose proof (len_nonneg pad).
  change (byte_at payload 1) with (b2z lo). change (byte_at payload 2) with (b2z hi). rewrite js_le16, Ev, Hl, !Z.gtb_ltb.
  rewrite (proj2 (Z.ltb_ge _ 3)), (proj2 (Z.ltb_ge _ (len data))), (proj2 (Z.ltb_ge _ (len data))) by lia. cbn [orb].
  rewrite (ST_lift_bind _ mac) by done. unfold eth_call, modify. do 4 f_equal.
  unfold payload. change (x00 :: [lo; hi] ++ data ++ pad) with ([x00; lo; hi] ++ data ++ pad). do 2 f_equal. by apply subarray_app_mid.
Qed.

(** Data that is delivered was carried. *)
Lemma receiveData_inv src body s r s' : len src = 6 -> receiveData cfg src (x00 :: body) s = (r, s') ->
  r = Ok tt /\ (s' = s \/ exists data pad, body = le_bytes 2 (len data) ++ data ++ pad /\ len data <= et_mtu cfg).
Proof.
  intros Hs E. unfold receiveData, FIPS_ETHERNET_DATA_HEADER_LENGTH in E. pose proof (ew_mtu _ Hcfg).
  destruct (Z.ltb_spec (len (x00 :: body)) 3) as [|Hl]; [by injection E as <- <-; auto|]. rewrite len_cons in Hl.
  destruct body as [|lo [|hi rest]]; [unfold len in Hl; cbn in Hl; lia..|]. change (byte_at (x00 :: lo :: hi :: rest) 1) with (b2z lo) in E.
  change (byte_at (x00 :: lo :: hi :: rest) 2) with (b2z hi) in E. rewrite js_le16 in E. pose proof (le_val_range [lo; hi]) as Hv. change (256 ^ len [lo; hi]) with 65536 in Hv.
  rewrite !Z.gtb_ltb in E. destruct (Z.ltb_spec (et_mtu cfg) (le_val [lo; hi])) as [|H1]; [by injection E as <- <-; auto|].
  destruct (Z.ltb_spec (len (x00 :: lo :: hi :: rest) - 3) (le_val [lo; hi])) as [|H2]; [by injection E as <- <-; auto|]. cbn [orb] in E.
  destruct (formatMac_ok src Hs) as (mac & Em & _). rewrite (ST_lift_bind _ mac) in E by done. injection E as <- _. split; [done|]. right.
  rewrite !len_cons in H2. exists (take (Z.to_nat (le_val [lo; hi])) rest), (drop (Z.to_nat (le_val [lo; hi])) rest). rewrite take_drop.
  assert (Hlen : len (take (Z.to_nat (le_val [lo; hi])) rest) = le_val [lo; hi]) by (unfold len in *; rewrite length_take; lia).
  rewrite Hlen. split; [|done]. change 2%nat with (length [lo; hi]). by rewrite le_bytes_val.
Qed.
End Receive.

(** A configuration that the constructor accepts. *)
Definition configured (cfg : EthConfig) : Prop :=
  exists mac ifMtu mtu discovery ann scope interval, new_ethernet mac ifMtu mtu discovery ann scope interval = Ok cfg.

Lemma configured_wf cfg : configured cfg -> eth_wf cfg.
Proof. intros (? & ? & ? & ? & ? & ? & ? & E). by eapply new_ethernet_wf. Qed.

Section Packets.
Context `{Noble}.

Lemma beacon_silent cfg local src payload s : eth_calls (snd (receiveBeacon cfg local src payload s)) = eth_calls s /\
  (len src = 6 -> fst (receiveBeacon cfg local src payload s) = Ok tt).
Proof.
  unfold receiveBeacon. repeat (case_match; [done|]). 
  destruct (negb _ || _); [done|]. destruct (negb _); [done|]. destruct (beacon_scope payload) as [scope|]; [|done].
  match goal with |- context [if ?c then _ else _] => destruct c end; [done|]. destruct (compressedPubkeyFromXOnly _) as [pk|e]; [|done].
  destruct (bytesEqual _ _); [done|]. destruct (formatMac src) as [mac|e] eqn:Em.
  - rewrite (ST_lift_bind _ mac) by done. rewrite ST_modify_bind, ST_get_bind. destruct (discoveryStream _); done.
  - split; [done|]. intros Hs. destruct (formatMac_ok src Hs) as (? & ? & _). congruence.
Qed.

Lemma lift_inv {S A} (r : result A) (s : S) a s' : lift r s = (Ok a, s') -> r = Ok a /\ s' = s.
Proof. by intros [= -> ->]. Qed.

Lemma frame_send_run cfg addr packet s s' : eth_wf cfg -> send cfg addr packet s = (Ok tt, s') -> exists dst,
  parseMac (MacText (ta_addr addr)) = Ok dst /\ isZeroMac dst = false /\ len packet <= et_mtu cfg /\ ctx s <> None /\
  s' = set_eth_calls s (eth_calls s ++ [SendFrame (dst ++ localMac cfg ++ [x21; x21] ++ x00 :: le_bytes 2 (len packet) ++ packet)]).
Proof.
  intros Hw E. unfold send in E. apply ST_bind_inv in E as (id & s1 & E1 & E). unfold requireStarted in E1. rewrite ST_get_bind in E1.
  destruct (ctx s) as [id'|] eqn:Ec; [|done]. injection E1 as _ <-.
  apply ST_bind_inv in E as ([] & s1 & E1 & E). unfold throw_when in E1. destruct (negb _); [done|]. injection E1 as <-.
  apply ST_bind_inv in E as ([] & s1 & E1 & E). unfold throw_when in E1. rewrite Z.gtb_ltb in E1. destruct (Z.ltb_spec (et_mtu cfg) (len packet)) as [|Hl]; [done|]. injection E1 as <-.
  apply ST_bind_inv in E as (dst & s1 & E1 & E). apply lift_inv in E1 as [Ed ->].
  apply ST_bind_inv in E as ([] & s1 & E1 & E). unfold throw_when in E1. destruct (isZeroMac dst) eqn:Ez; [done|]. injection E1 as <-.
  exists dst. split; [done|]. split; [done|]. split; [done|]. split; [done|]. injection E as <-. unfold eth_call, modify. do 3 f_equal.
  pose proof (ew_mtu _ Hw). pose proof (len_nonneg packet) as Hn. rewrite frame_layout by first [by eapply parseMac_len | apply ew_mac, Hw]. do 3 f_equal.
  unfold FIPS_ETHERNET_DATA_HEADER_LENGTH, FRAME_TYPE_DATA. replace (Z.to_nat (3 + len packet)) with (1 + (1 + (1 + length packet)))%nat by (unfold len; lia).
  rewrite !replicate_split, set_at_head by done. rewrite (set_at_mid [z2b 0] (replicate 1 x00)) by done.
  rewrite (app_assoc [z2b 0]), (set_at_mid ([z2b 0] ++ _) (replicate 1 x00)) by done. rewrite <- (app_nil_r (replicate (length packet) x00)), !app_assoc.
  rewrite <- app_assoc, (set_at_mid _ (replicate (length packet) x00)) by (rewrite ?length_replicate; done). rewrite app_nil_r.
  cbn [app le_bytes]. rewrite js_and_byte, z2b_mod. do 3 f_equal. unfold js_ushr. rewrite to_uint32_id by lia.
  rewrite Z.shiftr_div_pow2 by lia. done.
Qed.
End Packets.

(** *** The stream in order *)

Inductive StreamOp (A : Type) := Push (v : A) | Next | Close.
Arguments Push {_}. Arguments Next {_}. Arguments Close {_}.

Section Streams.
Context {A : Type}.

Definition stream_op (s : Stream A) (o : StreamOp A) : Stream A :=
  match o with Push v => push_ v s | Next => next_ s | Close => close_ s end.

(** What was pushed, and how often the stream was asked, before it was closed. *)
Fixpoint taken (vs : list A) (n : nat) (ops : list (StreamOp A)) : list A * nat :=
  match ops with
  | [] => (vs, n)
  | Push v :: ops => taken (vs ++ [v]) n ops
  | Next :: ops => taken vs (S n) ops
  | Close :: _ => (vs, n)
  end.

Definition served (vs : list A) (n : nat) : list (nat * option A) := imap (fun k v => (k, Some v)) (take n vs).
Definition refused (from n : nat) : list (nat * option A) := map (fun k => (k, None)) (seq from (n - from)).

Lemma served_push vs v n : served (vs ++ [v]) n = if decide (length vs < n)%nat then served vs n ++ [(length vs, Some v)] else served vs n.
Proof.
  unfold served. case_decide.
  - rewrite take_app, (take_ge vs n) by lia. replace (n - length vs)%nat with (S (n - length vs - 1)) by lia. cbn [take]. rewrite take_nil.
    rewrite imap_app. cbn. by rewrite Nat.add_0_r.
  - by rewrite take_app_le by lia.
Qed.

Lemma served_next vs n : served vs (S n) = served vs n ++ match vs !! n with Some v => [(n, Some v)] | None => [] end.
Proof.
  unfold served. destruct (vs !! n) as [v|] eqn:E.
  - rewrite (take_S_r _ _ v), imap_app by done. cbn. rewrite length_take, Nat.min_l by (apply lookup_lt_Some in E; lia). by rewrite Nat.add_0_r.
  - apply lookup_ge_None in E. by rewrite app_nil_r, !take_ge by lia.
Qed.

Lemma refused_next from n : (from <= n)%nat -> refused from (S n) = refused from n ++ [(n, None)].
Proof.
  intros Hle. unfold refused. replace (S n - from)%nat with (n - from + 1)%nat by lia. rewrite seq_app, map_app. cbn. do 4 f_equal. lia.
Qed.

Definition stream_state (vs : list A) (n : nat) (s : Stream A) : Prop :=
  if closed s then values s = [] /\ waiters s = [] /\ (Nat.min n (length vs) <= asked s)%nat /\
    answers s = served vs n ++ refused (Nat.min n (length vs)) (asked s)
  else n = asked s /\ values s = drop n vs /\ waiters s = seq (length vs) (n - length vs) /\ answers s = served vs n.

Lemma closed_runs vs n ops s : closed s = true -> stream_state vs n s -> stream_state vs n (foldl stream_op s ops) /\ closed (foldl stream_op s ops) = true.
Proof.
  revert s. induction ops as [|o ops IH]; intros s Hc Hs; [done|]. cbn [foldl]. apply IH.
  - destruct o; cbn; unfold push_, close_, next_; rewrite ?Hc; [done| |done]. by destruct (values s).
  - unfold stream_state in *. rewrite Hc in Hs. destruct Hs as (H1 & H2 & H3 & H4). destruct o; cbn [stream_op]; unfold push_, close_, next_; rewrite ?Hc, ?H1; cbn [closed values waiters asked answers]; rewrite ?Hc; [done| |done].
    split; [done|]. split; [done|]. split; [lia|]. by rewrite H4, refused_next, app_assoc by lia.
Qed.

Lemma stream_runs ops vs n s : closed s = false -> stream_state vs n s ->
  let '(vs', n') := taken vs n ops in stream_state vs' n' (foldl stream_op s ops).
Proof.
  revert vs n s. induction ops as [|o ops IH]; intros vs n s Hc Hs; [done|]. unfold stream_state in Hs. rewrite Hc in Hs. destruct Hs as (-> & Hv & Hw & Ha).
  destruct o; cbn [taken foldl stream_op].
  - unfold push_. rewrite Hc. destruct (decide (length vs < asked s)%nat) as [Hlt|Hge].
    + replace (asked s - length vs)%nat with (S (asked s - S (length vs))) in Hw by lia. rewrite Hw. cbn [seq]. apply IH; [done|]. unfold stream_state. cbn.
      rewrite served_push, decide_True, Ha, Hv, length_app, !drop_ge by (rewrite ?length_app; cbn; lia). split_and!; try done. cbn. f_equal; lia.
    + replace (asked s - length vs)%nat with O in Hw by lia. rewrite Hw. cbn [seq]. apply IH; [done|]. unfold stream_state. cbn.
      rewrite served_push, decide_False, Ha, Hv, length_app by lia. split_and!; try done; [by rewrite drop_app_le by lia|].
      replace (asked s - _)%nat with O by (cbn; lia). done.
  - unfold next_. destruct (vs !! asked s) as [v|] eqn:Ev.
    + rewrite (drop_S vs v) in Hv by done. rewrite Hv. apply IH; [done|]. unfold stream_state. cbn. rewrite Hc, served_next, Ev, Ha. apply lookup_lt_Some in Ev.
      split_and!; try done. rewrite Hw. replace (asked s - length vs)%nat with O by lia. replace (S (asked s) - length vs)%nat with O by lia. done.
    + apply lookup_ge_None in Ev. rewrite drop_ge in Hv by lia. rewrite Hv, Hc. apply IH; [done|]. unfold stream_state. cbn. rewrite served_next, Ha.
      rewrite (proj2 (lookup_ge_None _ _)), app_nil_r by lia. split_and!; try done; [by rewrite drop_ge by lia|].
      rewrite Hw. replace (S (asked s) - length vs)%nat with (asked s - length vs + 1)%nat by lia. rewrite seq_app. cbn. do 2 f_equal. lia.
  - assert (Hx : stream_state vs (asked s) (close_ s) /\ closed (close_ s) = true).
    { unfold close_. rewrite Hc. split; [|done]. unfold stream_state. cbn. rewrite Ha, Hw. split_and!; try done; [lia|]. f_equal. unfold refused.
      destruct (decide (length vs <= asked s)%nat); [by rewrite Nat.min_r by lia|]. rewrite Nat.min_l, Nat.sub_diag by lia.
      by replace (asked s - length vs)%nat with O by lia. }
    apply closed_runs; tauto.
Qed.

(** Whatever is pushed and asked in whatever order, the consumer is answered with
    the values in the order they were pushed, each once; once the stream is
    closed, what has not been answered is answered with the end. *)
Lemma stream_in_order (ops : list (StreamOp A)) : let '(vs, n) := taken [] 0 ops in let s := foldl stream_op new_stream ops in
  answers s = served vs n ++ (if closed s then refused (Nat.min n (length vs)) (asked s) else []).
Proof.
  pose proof (stream_runs ops [] 0 new_stream eq_refl ltac:(done)) as Hs. destruct (taken [] 0 ops) as [vs n]. cbv zeta. unfold stream_state in Hs.
  destruct (closed _); [by destruct Hs as (_ & _ & _ & ->)|]. destruct Hs as (_ & _ & _ & ->). by rewrite app_nil_r.
Qed.
End Streams.

(** ** The theorems *)

(** C35: a packet that one carrier sends another receives as it was, from the
    address of the sender, padding or not: each carrier that the frame is for and
    whose limit the packet keeps hands it over exactly once under an address that
    reads as the sender's; every other carrier, and the sender itself, ignores it.
    In general a carrier never fails on a frame, and hands over a packet only if
    the frame, addressed to it or to all and not its own, carries that packet. *)
Theorem ethernet_carries_packets `{Noble} (a b : EthConfig) (sa sb sa' : Ethernet) (idb : FipsIdentity) (addr : TransportAddress) (packet pad : bytes) :
  configured a -> configured b -> ctx sb = Some idb -> send a addr packet sa = (Ok tt, sa') ->
  (exists dst frame, parseMac (MacText (ta_addr addr)) = Ok dst /\
     eth_calls sa' = eth_calls sa ++ [SendFrame frame] /\
     (len (frame ++ pad) <= ETHERNET_HEADER_LENGTH + interfaceMtu b ->
        if decide (for_us b dst /\ localMac a <> localMac b /\ len packet <= et_mtu b)
        then exists mac, parseMac (MacText mac) = Ok (localMac a) /\
               receiveFrame b (frame ++ pad) sb = (Ok tt, set_eth_calls sb (eth_calls sb ++ [OnPacket (mkAddress "ethernet" mac) packet]))
        else eth_calls (snd (receiveFrame b (frame ++ pad) sb)) = eth_calls sb) /\
     receiveFrame a (frame ++ pad) sa' = (Ok tt, sa')) /\
  forall frame, fst (receiveFrame b frame sb) = Ok tt /\
    (eth_calls (snd (receiveFrame b frame sb)) = eth_calls sb \/
     exists src mac data, carries_packet b frame src data /\ formatMac src = Ok mac /\
       receiveFrame b frame sb = (Ok tt, set_eth_calls sb (eth_calls sb ++ [OnPacket (mkAddress "ethernet" mac) data]))).
Proof.
  intros Ha Hb Hcb E. pose proof (configured_wf a Ha) as Wa. pose proof (configured_wf b Hb) as Wb.
  destruct (frame_send_run a addr packet sa sa' Wa E) as (dst & Ed & _ & Hmtu & Hca & ->). pose proof (parseMac_len _ _ Ed) as Hd. pose proof (ew_mac _ Wa) as Hs.
  pose proof (len_nonneg packet) as Hn. split.
  - set (frame := dst ++ localMac a ++ [x21; x21] ++ x00 :: le_bytes 2 (len packet) ++ packet).
    exists dst, frame. split; [done|]. split; [done|]. rewrite (ltac:(unfold frame; rewrite <- !app_assoc; reflexivity) :
      frame ++ pad = dst ++ localMac a ++ [x21; x21] ++ x00 :: (le_bytes 2 (len packet) ++ packet) ++ pad). rewrite <- !app_assoc. split.
    + intros Hl. rewrite (receive_run b idb dst (localMac a) x21 x21 x00 _ sb Hcb Hd Hs). change (b2z x00 =? 0) with true. cbv iota.
      rewrite !len_app, Hd, Hs in Hl. change (len [x21; x21]) with 2 in Hl. unfold ETHERNET_HEADER_LENGTH in Hl.
      destruct (decide (for_us b dst /\ localMac a <> localMac b /\ len packet <= et_mtu b)) as [(H1 & H2 & H3)|Hno].
      * rewrite decide_True by (split_and!; [lia|done..]). destruct (receiveData_run b Wb (localMac a) packet pad sb Hs ltac:(lia)) as (mac & Em & Er).
        exists mac. split; [|done]. destruct (formatMac_ok _ Hs) as (mac' & Em' & Hp). congruence.
      * case_decide as Hc; [|done]. destruct Hc as (_ & H2 & H1 & _). assert (H3 : et_mtu b < len packet) by (apply Z.nle_gt; tauto).
        unfold receiveData, FIPS_ETHERNET_DATA_HEADER_LENGTH. case_match; [done|]. destruct (le_bytes2 (len packet)) as (lo & hi & El & Ev). rewrite El.
        pose proof (ew_mtu _ Wa). change (byte_at (x00 :: [lo; hi] ++ packet ++ pad) 1) with (b2z lo). change (byte_at (x00 :: [lo; hi] ++ packet ++ pad) 2) with (b2z hi).
        rewrite js_le16, Ev, Z.gtb_ltb, (proj2 (Z.ltb_lt _ _)) by lia. done.
    + destruct (ctx sa) as [ida|] eqn:Eca; [|done]. rewrite (receive_run a ida dst (localMac a)) by done. rewrite decide_False by tauto. done.
  - intros frame. destruct (Z.lt_ge_cases (len frame) 15) as [Hlt|Hge].
    { unfold receiveFrame. rewrite ST_get_bind, Hcb. unfold ETHERNET_HEADER_LENGTH. rewrite (proj2 (Z.ltb_lt _ _)) by lia. auto. }
    destruct (frame_parts frame Hge) as (d & src & x & y & p & body & -> & Hd' & Hs'). rewrite (receive_run b idb d src x y p body sb Hcb Hd' Hs').
    case_decide as Hc; [|by auto]. destruct Hc as (Hl & Hsrc & Hus & -> & ->). destruct (Z.eqb_spec (b2z p) 0) as [Ep|_].
    + assert (p = x00) as -> by (by apply b2z_inj). destruct (receiveData b src (x00 :: body) sb) as [r s'] eqn:Er.
      destruct (receiveData_inv b Wb src body sb r s' Hs' Er) as [-> [->|(data & pd & -> & Hdl)]]; [by auto|]. split; [done|]. right.
      pose proof (len_nonneg data). destruct (receiveData_run b Wb src data pd sb Hs' ltac:(lia)) as (mac & Em & Er'). rewrite Er' in Er. injection Er as <-.
      exists src, mac, data. split; [|done]. exists d, pd. split_and!; try done. rewrite !len_app, Hd', Hs'. change (len [x21; x21]) with 2.
      unfold ETHERNET_HEADER_LENGTH. lia.
    + destruct (b2z p =? 1); [|by auto]. destruct (beacon_silent b idb src (p :: body) sb) as [Hsil Hok]. split; [by apply Hok|by left].
Qed.

(** *** Beacons *)

(** The scope that a beacon of [cfg] is heard with; [None] where it is dropped. *)
Definition heard_scope (cfg : EthConfig) : option (option bytes) :=
  match discoveryScope cfg with
  | None => Some None
  | Some t => match decode_text (take 255 t) with Some [] => Some None | Some u => Some (Some u) | None => None end
  end.

Definition beacon_text (cfg : EthConfig) : bytes := match discoveryScope cfg with Some t => take 255 t | None => [] end.

Definition beacon_payload (cfg : EthConfig) (x : bytes) : bytes :=
  x01 :: x01 :: x ++ (if len (beacon_text cfg) >? 0 then z2b (len (beacon_text cfg)) :: beacon_text cfg else []).

Section Beacons.
Context `{Noble}.

Lemma sendBeacon_run cfg id s : eth_wf cfg -> ctx s = Some id -> len (xOnlyPubkey id) = 32 ->
  sendBeacon cfg s = (Ok tt, set_eth_calls s (eth_calls s ++ [SendFrame (BROADCAST_BYTES ++ localMac cfg ++ [x21; x21] ++ beacon_payload cfg (xOnlyPubkey id))])).
Proof.
  intros Hw Hc Hx. unfold sendBeacon. rewrite ST_get_bind, Hc. fold (beacon_text cfg). unfold eth_call, modify. cbv zeta. do 4 f_equal.
  rewrite frame_layout by first [done | apply ew_mac, Hw]. do 2 f_equal. f_equal. unfold beacon_payload, BASE_BEACON_LENGTH.
  pose proof (len_nonneg (beacon_text cfg)). rewrite Z.gtb_ltb. unfold len in Hx.
  assert (Hpre : forall n, BinaryWriter.set_at (BinaryWriter.set_at (BinaryWriter.set_at (replicate (34 + n) x00) [z2b FRAME_TYPE_BEACON] 0) [z2b DISCOVERY_VERSION] 1) (xOnlyPubkey id) 2
    = (x01 :: x01 :: xOnlyPubkey id) ++ replicate n x00).
  { intros n. replace (34 + n)%nat with (1 + (1 + (32 + n)))%nat by lia. rewrite !replicate_split, set_at_head by done.
    rewrite (set_at_mid [_] (replicate 1 x00)) by done. rewrite (app_assoc [_]), (set_at_mid ([_] ++ _) (replicate 32 x00)) by (done || rewrite length_replicate; lia).
    rewrite <- app_assoc. done. }
  destruct (Z.ltb_spec 0 (len (beacon_text cfg))) as [Hp|Hp].
  - replace (Z.to_nat (34 + (1 + len (beacon_text cfg)))) with (34 + (1 + length (beacon_text cfg)))%nat by (unfold len; lia). rewrite Hpre, replicate_split.
    rewrite (set_at_mid _ (replicate 1 x00)) by (unfold len; cbn; lia || done). rewrite <- (app_nil_r (replicate _ x00)), (app_assoc _ [z2b _]).
    rewrite (set_at_mid _ (replicate (length (beacon_text cfg)) x00)) by (rewrite ?length_replicate, ?len_app; unfold len; cbn; lia || done).
    rewrite app_nil_r, <- app_assoc. done.
  - replace (Z.to_nat (34 + 0)) with (34 + 0)%nat by lia. rewrite Hpre. done.
Qed.

Lemma beacon_scope_run cfg x : len x = 32 -> beacon_scope (beacon_payload cfg x) = heard_scope cfg.
Proof.
  intros Hx. unfold beacon_scope, heard_scope, beacon_payload, BASE_BEACON_LENGTH. set (t := beacon_text cfg).
  assert (Ht : len t <= 255). { unfold t, beacon_text, len. destruct (discoveryScope cfg) as [u|]; [rewrite length_take; lia|cbn; lia]. }
  pose proof (len_nonneg t). rewrite !Z.gtb_ltb. destruct (Z.ltb_spec 0 (len t)) as [Hp|Hp].
  - set (p := x01 :: x01 :: x ++ z2b (len t) :: t). assert (Hl : len p = 35 + len t) by (unfold p; rewrite !len_cons, len_app, len_cons, Hx; lia).
    assert (Eb : byte_at p 34 = len t).
    { unfold p. change (x01 :: x01 :: x ++ z2b (len t) :: t) with (([x01; x01] ++ x) ++ z2b (len t) :: t). replace 34 with (len ([x01; x01] ++ x) + 0) by (rewrite len_app, Hx; done).
      rewrite byte_at_app_l by lia. change (byte_at (z2b (len t) :: t) 0) with (b2z (z2b (len t))). apply b2z_z2b_small. lia. }
    rewrite Hl, (proj2 (Z.ltb_lt 34 _)), Eb by lia. cbv zeta. rewrite (proj2 (Z.ltb_ge _ _)) by lia.
    assert (Es : subarray p (34 + 1) (34 + 1 + len t) = t).
    { unfold p. change (x01 :: x01 :: x ++ z2b (len t) :: t) with ((x01 :: x01 :: x) ++ [z2b (len t)] ++ t). rewrite app_assoc.
      pose proof (subarray_app_mid ((x01 :: x01 :: x) ++ [z2b (len t)]) t [] (34 + 1) (len t)) as Hs. rewrite app_nil_r in Hs.
      apply Hs; [|done]. rewrite len_app, !len_cons, Hx. done. }
    rewrite Es. clear - Hp. unfold t, beacon_text in *. destruct (discoveryScope cfg); [done|]. unfold len in Hp. cbn in Hp. lia.
  - rewrite app_nil_r, !len_cons, Hx, (proj2 (Z.ltb_ge _ _)) by lia. unfold t, beacon_text in Hp. destruct (discoveryScope cfg) as [u|]; [|done].
    rewrite (len_nil_inv (take 255 u)); [done|]. pose proof (len_nonneg (take 255 u)). lia.
Qed.
(** What a beacon of [x] changes. *)
Definition learned (mac : string) (x pk : bytes) (scope : option bytes) (s : Ethernet) : Ethernet :=
  let s := set_known s (JsMap.set_ (macByPubkey s) (toHex x) mac) (JsMap.set_ (pubkeyByMac s) mac (toHex pk)) in
  match discoveryStream s with
  | Some i => set_streams s (alter (push_ (mkEthDiscovered (mkAddress "ethernet" mac) pk scope)) i (streams s)) (discoveryStream s)
  | None => s
  end.

Lemma receiveBeacon_run (a b : EthConfig) idb src mac x s : len x = 32 -> formatMac src = Ok mac ->
  snd (receiveBeacon b idb src (beacon_payload a x) s) =
    match heard_scope a, compressedPubkeyFromXOnly x with
    | Some scope, Ok pk => if decide (x <> xOnlyPubkey idb /\ discoveryEnabled b = true /\ (discoveryScope b = None \/ discoveryScope b = scope))
                           then learned mac x pk scope s else s
    | _, _ => s
    end.
Proof.
  intros Hx Em. unfold receiveBeacon. rewrite (beacon_scope_run a x Hx).
  assert (Hl : (len (beacon_payload a x) <? BASE_BEACON_LENGTH) = false).
  { apply Z.ltb_ge. unfold beacon_payload, BASE_BEACON_LENGTH. rewrite !len_cons, len_app, Hx.
    pose proof (len_nonneg (if len (beacon_text a) >? 0 then z2b (len (beacon_text a)) :: beacon_text a else [])). lia. }
  rewrite Hl. change (byte_at (beacon_payload a x) 1) with 1. change (negb (1 =? DISCOVERY_VERSION)) with false.
  assert (Es : subarray (beacon_payload a x) 2 34 = x) by (apply (subarray_app_mid [x01; x01] x _ 2 32); [done|by rewrite Hx]). rewrite Es.
  destruct (discoveryEnabled b); cbn [negb orb]; [|destruct (heard_scope a), (compressedPubkeyFromXOnly x); try done; rewrite decide_False by (by intros (_ & ? & _)); done].
  destruct (heard_scope a) as [scope|]; [|done]. destruct (compressedPubkeyFromXOnly x) as [pk|e] eqn:Ec; [|by case_match].
  assert (Hpk : subarray_from pk 1 = x). { unfold compressedPubkeyFromXOnly in Ec. apply guard_Ok in Ec as [_ Ec]. apply result_bind_ok in Ec as (? & _ & [= <-]). done. }
  rewrite Hpk. unfold learned.
  assert (Hmatch : match discoveryScope b with Some t => negb (bool_decide (scope = Some t)) | None => false end = negb (bool_decide (discoveryScope b = None \/ discoveryScope b = scope))).
  { destruct (discoveryScope b) as [t|]; [|by rewrite bool_decide_true by auto]. f_equal. apply bool_decide_ext. split; [intros ->; by right|intros [?|?]; congruence]. }
  rewrite Hmatch. case_bool_decide as Hsc; cbn [negb]; [|rewrite decide_False by tauto; done]. rewrite bytesEqual_spec. case_bool_decide as Hne; [rewrite decide_False by tauto; done|].
  rewrite decide_True by done. rewrite (ST_lift_bind _ mac), ST_modify_bind, ST_get_bind by done. cbn [discoveryStream set_known]. destruct (discoveryStream s) as [i|] eqn:Ei; [|done]. unfold on_stream, modify. cbn [snd discoveryStream set_known]. by rewrite Ei.
Qed.
End Beacons.

(** What one carrier announces every carrier of the same scope on the segment
    learns, if the announced key is a point: the node's key under its MAC address and the other way around,
    and its consumers are told; a carrier of another scope, one that does not
    discover and the announcing node itself learn nothing. Nothing else changes,
    in particular no packet is handed over. *)
Lemma ethernet_beacons_teach `{Noble} (a b : EthConfig) (sa sb : Ethernet) (ida idb : FipsIdentity) :
  configured a -> configured b -> ctx sa = Some ida -> ctx sb = Some idb -> len (xOnlyPubkey ida) = 32 ->
  exists frame, sendBeacon a sa = (Ok tt, set_eth_calls sa (eth_calls sa ++ [SendFrame frame])) /\
    let sb' := snd (receiveFrame b frame sb) in
    eth_calls sb' = eth_calls sb /\ ctx sb' = ctx sb /\ connected sb' = connected sb /\
    match heard_scope a, compressedPubkeyFromXOnly (xOnlyPubkey ida) with
    | Some scope, Ok pk =>
        if decide (localMac a <> localMac b /\ xOnlyPubkey ida <> xOnlyPubkey idb /\ discoveryEnabled b = true /\
                   (discoveryScope b = None \/ discoveryScope b = scope) /\ len frame <= ETHERNET_HEADER_LENGTH + interfaceMtu b)
        then exists mac, parseMac (MacText mac) = Ok (localMac a) /\
          JsMap.get_ (macByPubkey sb') (toHex (xOnlyPubkey ida)) = Some mac /\ JsMap.get_ (pubkeyByMac sb') mac = Some (toHex pk) /\
          forall i st, discoveryStream sb = Some i -> streams sb !! i = Some st ->
            streams sb' !! i = Some (push_ (mkEthDiscovered (mkAddress "ethernet" mac) pk scope) st)
        else sb' = sb
    | _, _ => sb' = sb
    end.
Proof.
  intros Ha Hb Hca Hcb Hx. pose proof (configured_wf a Ha) as Wa. pose proof (ew_mac _ Wa) as Hm. eexists. split; [by apply sendBeacon_run|].
  set (x := xOnlyPubkey ida) in *. cbv zeta.
  assert (Hlen : 1 + 33 <= len (beacon_payload a x)).
  { unfold beacon_payload. rewrite !len_cons, len_app, Hx. pose proof (len_nonneg (if len (beacon_text a) >? 0 then z2b (len (beacon_text a)) :: beacon_text a else [])). lia. }
  pose proof (beacon_scope_run a x Hx) as Hscope.
  assert (Hrun : snd (receiveFrame b (BROADCAST_BYTES ++ localMac a ++ [x21; x21] ++ beacon_payload a x) sb) =
    if decide (len (beacon_payload a x) <= interfaceMtu b /\ localMac a <> localMac b) then snd (receiveBeacon b idb (localMac a) (beacon_payload a x) sb) else sb).
  { unfold beacon_payload at 1. rewrite (receive_run b idb BROADCAST_BYTES (localMac a) x21 x21 x01 _ sb Hcb eq_refl Hm). change (b2z x01 =? 0) with false.
    change (b2z x01 =? 1) with true. cbv iota. fold (beacon_payload a x). repeat case_decide; unfold for_us in *; tauto || done. }
  destruct (formatMac_ok (localMac a) Hm) as (mac & Em & Hp). rewrite Hrun, (receiveBeacon_run a b idb (localMac a) mac x sb Hx Em).
  rewrite !len_app, Hm. change (len BROADCAST_BYTES) with 6. change (len [x21; x21]) with 2. unfold ETHERNET_HEADER_LENGTH. clear Hrun Hscope.
  assert (Hl : forall m scope pk, let s' := learned m x pk scope sb in eth_calls s' = eth_calls sb /\ ctx s' = ctx sb /\ connected s' = connected sb)
    by (intros m scope pk; cbv zeta; unfold learned; cbn [discoveryStream set_known]; destruct (discoveryStream sb); split_and!; reflexivity).
  destruct (heard_scope a) as [scope|]; [|by case_decide]. destruct (compressedPubkeyFromXOnly x) as [pk|e]; [|by case_decide].
  destruct (Hl mac scope pk) as (L1 & L2 & L3). case_decide as H1; [|rewrite decide_False by (intros (? & ? & ? & ? & ?); apply H1; split; [lia|done]); done].
  case_decide as H2; [|rewrite decide_False by tauto; done]. rewrite decide_True by (split_and!; try tauto; lia).
  split; [done|]. split; [done|]. split; [done|]. exists mac. split; [done|]. unfold learned. cbn [discoveryStream set_known macByPubkey pubkeyByMac streams].
  destruct (discoveryStream sb) as [i|]; cbn [macByPubkey pubkeyByMac streams set_streams set_known]; rewrite !JsMap.get_set_eq; (split; [done|]; split; [done|]); [|done].
  intros j st [= <-] Hst. by rewrite list_lookup_alter_eq, Hst.
Qed.

(** ** Examples *)

(** A node whose carrier is stopped while its first beacon is on its way starts
    the timer nevertheless, and no later [stop] clears it. *)
Lemma stopped_while_starting `{Noble} cfg local s :
  et_announce cfg = true -> ctx s = None -> beaconTimer s = None -> connected s = [] ->
  let starting := snd (start cfg local (Ok tt) s) in
  let started := snd (start_sent (snd (stop starting))) in
  ctx started = None /\ timers started = timers s ++ [nextTimer s] /\ stop started = (Ok tt, started).
Proof.
  intros Ha Hc Hb Hn. destruct s as [c sub ts bt nt con mp pm st ds cs]. cbn [ctx beaconTimer connected] in Hc, Hb, Hn. subst c bt con.
  assert (E : exists f, start cfg local (Ok tt) (mkEthernet None sub ts None nt [] mp pm st ds cs) =
    (Ok true, mkEthernet (Some local) true ts None nt [] mp pm (st ++ [new_stream]) (Some (length st)) (cs ++ [SendFrame f]))).
  { unfold start. rewrite ST_get_bind. cbn [ctx]. rewrite !ST_modify_bind. unfold try_catch. rewrite (ST_lift_bind _ tt) by done.
    rewrite ST_modify_bind, Ha. unfold sendBeacon. rewrite ST_bind_assoc, ST_get_bind. cbn [ctx set_ctx set_streams]. eexists. reflexivity. }
  destruct E as (f & ->). cbv zeta. split; [done|]. by split.
Qed.

(** A carrier whose scope is longer than a beacon can say never hears itself
    announced: the text of a beacon is not its scope. *)
Lemma long_scope_unheard cfg t : discoveryScope cfg = Some t -> 255 < len t -> heard_scope cfg <> Some (Some t).
Proof.
  intros Ht Hl. unfold heard_scope. rewrite Ht. unfold decode_text. destruct (utf8_text _); [|done].
  assert (Hlen : forall u, u = take 255 t \/ u = drop 3 (take 255 t) -> len u < len t).
  { intros u [-> | ->]; unfold len in *; rewrite ?length_drop, length_take; lia. }
  case_decide; match goal with |- context [match ?u with [] => _ | _ :: _ => _ end] => destruct u eqn:Eu; [done|]; intros [= E]; specialize (Hlen u);
    rewrite Eu, E in Hlen; specialize (Hlen ltac:(auto)); lia end.
Qed.

#[local] Existing Instances Toy.noble.

Definition eth_cfg (mac : string) (scope : option bytes) : EthConfig :=
  ok_or (new_ethernet (MacText mac) None None None None scope None) (mkEthConfig [] 0 0 false false None 0).
Definition eth_a : EthConfig := eth_cfg "02:00:00:00:00:0A" (Some [x6c; x61; x6e]).
Definition eth_b : EthConfig := eth_cfg "02:00:00:00:00:0b" (Some [x6c; x61; x6e]).
Definition eth_up (cfg : EthConfig) (n : Z) : Ethernet := snd (start_sent (snd (start cfg (demo_identity n) (Ok tt) idle))).

Lemma eth_configured mac scope : is_ok (new_ethernet (MacText mac) None None None None scope None) = true -> configured (eth_cfg mac scope).
Proof. unfold eth_cfg. destruct (new_ethernet _ _ _ _ _ _ _) as [c|] eqn:E; [|done]. intros _. repeat eexists. exact E. Qed.

Lemma ethernet_carries_packets_witness : exists frame mac,
  parseMac (MacText mac) = Ok (localMac eth_a) /\
  last (eth_calls (snd (send eth_a (mkAddress "ethernet" "02:00:00:00:00:0b") [x07; x08] (eth_up eth_a 5)))) = Some (SendFrame frame) /\
  last (eth_calls (snd (receiveFrame eth_b (frame ++ [x00]) (eth_up eth_b 9)))) = Some (OnPacket (mkAddress "ethernet" mac) [x07; x08]).
Proof.
  set (sa := eth_up eth_a 5). set (sb := eth_up eth_b 9). set (addr := mkAddress "ethernet" "02:00:00:00:00:0b").
  assert (E : fst (send eth_a addr [x07; x08] sa) = Ok tt) by (vm_compute; reflexivity).
  destruct (send eth_a addr [x07; x08] sa) as [r sa'] eqn:Es. cbn [fst snd] in *. subst r.
  destruct (ethernet_carries_packets eth_a eth_b sa sb sa' (demo_identity 9) addr [x07; x08] [x00]) as [(dst & frame & Ed & Ec & Hr & _) _];
    [apply eth_configured; vm_compute; reflexivity.. | vm_compute; reflexivity | exact Es |].
  assert (dst = localMac eth_b) as -> by (assert (Hd : parseMac (MacText (ta_addr addr)) = Ok (localMac eth_b)) by (vm_compute; reflexivity); congruence).
  assert (Hf : SendFrame frame = SendFrame (localMac eth_b ++ localMac eth_a ++ [x21; x21] ++ [x00; x02; x00; x07; x08])).
  { assert (Hl : last (eth_calls (snd (send eth_a addr [x07; x08] sa))) = Some (SendFrame (localMac eth_b ++ localMac eth_a ++ [x21; x21] ++ [x00; x02; x00; x07; x08])))
      by (vm_compute; reflexivity). rewrite Es in Hl. cbn [snd] in Hl. rewrite Ec, last_snoc in Hl. congruence. }
  injection Hf as ->. specialize (Hr ltac:(vm_compute; discriminate)). rewrite decide_True in Hr by (split_and!; [by left|by vm_compute|by vm_compute]).
  destruct Hr as (mac & Hm & Hr). eexists _, mac. split; [exact Hm|]. split; [rewrite Ec; apply last_snoc|]. rewrite Hr. cbn [snd eth_calls set_eth_calls]. apply last_snoc.
Defined.

Lemma ethernet_beacons_teach_witness : exists frame mac,
  sendBeacon eth_a (eth_up eth_a 5) = (Ok tt, set_eth_calls (eth_up eth_a 5) (eth_calls (eth_up eth_a 5) ++ [SendFrame frame])) /\
  parseMac (MacText mac) = Ok (localMac eth_a) /\
  JsMap.get_ (macByPubkey (snd (receiveFrame eth_b frame (eth_up eth_b 9)))) (toHex (xOnlyPubkey (demo_identity 5))) = Some mac.
Proof.
  destruct (ethernet_beacons_teach eth_a eth_b (eth_up eth_a 5) (eth_up eth_b 9) (demo_identity 5) (demo_identity 9)) as (frame & Es & _ & _ & _ & Hl);
    [apply eth_configured; vm_compute; reflexivity.. | vm_compute; reflexivity | vm_compute; reflexivity | vm_compute; reflexivity |].
  exists frame. assert (Hf : len frame = 14 + 38).
  { assert (Hc : match last (eth_calls (snd (sendBeacon eth_a (eth_up eth_a 5)))) with Some (SendFrame f) => len f = 14 + 38 | _ => False end) by (vm_compute; reflexivity).
    rewrite Es in Hc. cbn [snd eth_calls set_eth_calls] in Hc. rewrite last_snoc in Hc. exact Hc. }
  change (heard_scope eth_a) with (Some (Some [x6c; x61; x6e])) in Hl.
  destruct (compressedPubkeyFromXOnly (xOnlyPubkey (demo_identity 5))) as [pk|e] eqn:Ep; [|vm_compute in Ep; discriminate Ep].
  rewrite decide_True in Hl by (split_and!; [vm_compute; discriminate | vm_compute; discriminate | vm_compute; reflexivity | right; vm_compute; reflexivity | rewrite Hf; vm_compute; discriminate]).
  destruct Hl as (mac & Hm & Hg & _). exists mac. split; [exact Es|]. split; [exact Hm|exact Hg].
Defined.
