(* ===== verification/WebSocket.v ===== *)
(** * The WebSocket carrier

    [transport-websocket/src/WebSocketTransport.ts]: connections to configured
    seeds, the key hints by which both ends learn each other's identity, the
    bounded queues of records, reconnection. Sockets, the clock, the URL parser
    and the context of the node are outside: what they answer in one step is an
    [Outside], what is asked of them is recorded in order. The chain of promises
    that receives messages is cut at its [await]. *)

From Stdlib Require Import Ascii.
From S2P Require Import Prelude Codec Crypto Toy NodeAddr Identity FmpWire FspWire DirectTransport Peers Admission Ethernet.

Definition LOCAL_KEY_HINT_VERSION : Z := 1.
Definition LOCAL_KEY_HINT_REQUEST_BYTES : Z := 9.
Definition LOCAL_KEY_HINT_RESPONSE_BYTES : Z := 41.
Definition DEFAULT_MTU : Z := 1400.
Definition DEFAULT_MAX_FRAME_BYTES : Z := 66 * 1024.
Definition DEFAULT_MAX_SEND_QUEUE : Z := 256.
Definition DEFAULT_MAX_BUFFERED_BYTES : Z := 1024 * 1024.
Definition DEFAULT_CONNECT_TIMEOUT_MS : Z := 5000.
Definition DEFAULT_KEY_HINT_TIMEOUT_MS : Z := 3000.
Definition DEFAULT_RECONNECT_INITIAL_MS : Z := 1000.
Definition DEFAULT_RECONNECT_MAX_MS : Z := 30000.
Definition DEFAULT_SEND_POLL_MS : Z := 10.
Definition MAX_SEEDS : Z := 256.

(** ** Key hints *)

Inductive LocalKeyHint :=
| HintRequest (nonce : Z)
| HintResponse (nonce : Z) (pubkey : bytes).

Definition checkedNonce (nonce : Z) : result Z :=
  throw_if ((nonce <? 0) || (nonce >? 0xffffffffffffffff)) (Error "key-hint nonce must be an unsigned 64-bit integer");; Ok nonce.

(** [setBigUint64] and [getBigUint64], big-endian. *)
Definition be64 (n : Z) : bytes := rev (le_bytes 8 n).
Definition of_be64 (b : bytes) : Z := le_val (rev b).

(** The nonce made of eight random bytes. *)
Definition secureRandomNonce (random : bytes) : Z := of_be64 random.

Definition encodeLocalKeyHintRequest (nonce : Z) : result bytes :=
  let wire := replicate (Z.to_nat LOCAL_KEY_HINT_REQUEST_BYTES) x00 in
  let wire := BinaryWriter.set_at wire [z2b LOCAL_KEY_HINT_VERSION] 0 in
  nonce ← checkedNonce nonce;
  Ok (BinaryWriter.set_at wire (be64 nonce) 1).

Definition encodeLocalKeyHintResponse (nonce : Z) (pubkey : bytes) : result bytes :=
  throw_if (negb (len pubkey =? 32)) (Error "key-hint pubkey must be 32 bytes");;
  let wire := replicate (Z.to_nat LOCAL_KEY_HINT_RESPONSE_BYTES) x00 in
  request ← encodeLocalKeyHintRequest nonce;
  Ok (BinaryWriter.set_at (BinaryWriter.set_at wire request 0) pubkey LOCAL_KEY_HINT_REQUEST_BYTES).

Definition decodeLocalKeyHint (wire : bytes) : option LocalKeyHint :=
  if negb (byte_at wire 0 =? LOCAL_KEY_HINT_VERSION) then None else
  if negb (len wire =? LOCAL_KEY_HINT_REQUEST_BYTES) && negb (len wire =? LOCAL_KEY_HINT_RESPONSE_BYTES) then None else
  let nonce := of_be64 (subarray wire 1 9) in
  if len wire =? LOCAL_KEY_HINT_REQUEST_BYTES then Some (HintRequest nonce) else
  Some (HintResponse nonce (subarray_from wire LOCAL_KEY_HINT_REQUEST_BYTES)).

(** ** Records *)

Definition validateDirectFspFragment (wire : bytes) : result unit :=
  throw_if (len wire <=? 20) (Error "direct-FSP fragment has no payload");;
  let totalLength := readU32le wire 12 in
  let fragmentIndex := readU16le wire 16 in
  let fragmentCount := readU16le wire 18 in
  throw_if ((totalLength =? 0) || (totalLength >? 72 * 1024) || (fragmentCount <=? 1) || (fragmentCount >? 128)
            || (fragmentCount >? totalLength) || (fragmentIndex >=? fragmentCount) || (len wire - 20 >? totalLength))
    (Error "invalid direct-FSP fragment header").

Definition validateFipsRecord (wire : bytes) (maxBytes : Z) : result unit :=
  throw_if ((len wire =? 0) || (len wire >? maxBytes)) (Error "WebSocket FIPS record exceeds bytes");;
  if isDirectFspEstablished wire then _ ← decodeFspEstablished wire; Ok tt
  else if isDirectFspTransportFragment wire then validateDirectFspFragment wire
  else
    phase ← peekFmpPhase wire;
    if phase =? 0 then _ ← decodeFmpEstablished wire; Ok tt
    else if phase =? 1 then _ ← decodeFmpMsg1 wire; Ok tt
    else if phase =? 2 then _ ← decodeFmpMsg2 wire; Ok tt
    else Throw (Error "unknown FIPS physical record phase").

(** A message event's data, and what reading a blob will answer. *)
Inductive Message := TextMessage | BinaryMessage (b : bytes) | BlobMessage (r : result bytes) | OtherMessage.

Definition binaryMessage (data : Message) : result bytes :=
  match data with
  | TextMessage => Throw (Error "WebSocket transport accepts binary messages only")
  | BinaryMessage b => Ok b
  | BlobMessage r => r
  | OtherMessage => Throw (Error "unsupported WebSocket binary message")
  end.

(** ** URLs: the parser of the platform is a parameter *)

Record UrlParts := mkUrl { u_username : string; u_password : string; u_hash : string; u_protocol : string; u_hostname : string; u_href : string }.

Fixpoint split_on (c : ascii) (s : string) : list string :=
  match s with
  | EmptyString => [EmptyString]
  | String a s =>
      match decide (a = c), split_on c s with
      | left _, parts => EmptyString :: parts
      | right _, part :: parts => String a part :: parts
      | right _, [] => []
      end
  end.

Fixpoint strip_last (c : ascii) (s : string) : string :=
  match s with
  | EmptyString => EmptyString
  | String a EmptyString => if decide (a = c) then EmptyString else s
  | String a s => String a (strip_last c s)
  end.

Definition strip_first (c : ascii) (s : string) : string :=
  match s with String a s' => if decide (a = c) then s' else s | EmptyString => s end.

Definition is_digit (c : ascii) : bool := let n := Z.of_N (N_of_ascii c) in (48 <=? n) && (n <=? 57).
Fixpoint all_digits (s : string) : bool := match s with EmptyString => true | String c s => is_digit c && all_digits s end.
Fixpoint decimal (acc : Z) (s : string) : Z :=
  match s with EmptyString => acc | String c s => decimal (10 * acc + (Z.of_N (N_of_ascii c) - 48)) s end.

Definition octet (part : string) : bool :=
  all_digits part && (1 <=? String.length part)%nat && (String.length part <=? 3)%nat && (decimal 0 part <=? 255).

Definition isLoopbackHost (hostname : string) : bool :=
  let host := strip_last "]"%char (strip_first "["%char (toLowerCase hostname)) in
  if bool_decide (host = "localhost"%string) || bool_decide (host = "::1"%string) then true else
  let octets := split_on "."%char host in
  (length octets =? 4)%nat && forallb octet octets && (decimal 0 (default EmptyString (head octets)) =? 127).

Definition normalizeSeedUrl (URL : string -> option UrlParts) (raw : string) : result string :=
  match URL raw with
  | None => Throw (Error "invalid WebSocket seed URL")
  | Some url =>
      let empty s := bool_decide (s = EmptyString) in
      throw_if (negb (empty (u_username url)) || negb (empty (u_password url)) || negb (empty (u_hash url)))
        (Error "WebSocket seed URL must not contain credentials or a fragment");;
      if bool_decide (u_protocol url = "wss:"%string) then Ok (u_href url) else
      if bool_decide (u_protocol url = "ws:"%string) && isLoopbackHost (u_hostname url) then Ok (u_href url) else
      if bool_decide (u_protocol url = "ws:"%string) then Throw (Error "plaintext WebSocket seed URL is allowed only for loopback") else
      Throw (Error "WebSocket seed URL must use wss://")
  end.

(** ** Configuration and state *)

Definition integerInRange (value min max : Z) : result Z :=
  throw_if ((value <? min) || (value >? max)) (Error "must be an integer in range");; Ok value.

Definition positiveInteger (value : Z) : result Z := integerInRange value 1 (60 * 60 * 1000).

Record WebSocketTransportConfig := mkWebSocketTransportConfig {
  seedUrls : list string;
  cfg_mtu : option Z;
  cfg_maxFrameBytes : option Z;
  cfg_maxSendQueue : option Z;
  cfg_maxBufferedBytes : option Z;
  cfg_connectTimeoutMs : option Z;
  cfg_keyHintTimeoutMs : option Z;
  cfg_reconnectInitialMs : option Z;
  cfg_reconnectMaxMs : option Z;
  cfg_sendPollMs : option Z;
}.

(** The numbers that the constructor fixes. *)
Record Limits := mkLimits {
  ws_mtu : Z;
  maxFrameBytes : Z;
  maxSendQueue : Z;
  maxBufferedBytes : Z;
  connectTimeoutMs : Z;
  keyHintTimeoutMs : Z;
  reconnectInitialMs : Z;
  reconnectMaxMs : Z;
  sendPollMs : Z;
}.

Inductive TimerKind := ConnectTimer | KeyHintTimer | SendTimer | ReconnectTimer.

#[export] Instance timer_kind_eq_dec : EqDecision TimerKind.
Proof. solve_decision. Defined.

(** A timer that is running, for a seed at a generation. *)
Record WsTimer := mkWsTimer { tm_kind : TimerKind; tm_seed : nat; tm_generation : Z; tm_delay : Z }.

(** [SeedState]. A promise is its number; [receiving] is the message whose
    [receive] waits for the data. *)
Record SeedState := mkSeedState {
  url : string;
  socket : option nat;
  generation : Z;
  nonce : option Z;
  remoteXOnly : option bytes;
  readyWaiters : list nat;
  queue : list (bytes * nat);
  receiveChain : list (nat * Z * Message);
  receiving : option (nat * Z * Message);
  reconnectDelayMs : Z;
  reconnectTimer : option nat;
  connectTimer : option nat;
  keyHintTimer : option nat;
  sendTimer : option nat;
}.

Record WebSocketTransportStats := mkStats {
  connectionAttempts : Z;
  connectionsOpened : Z;
  connectionsClosed : Z;
  reconnectsScheduled : Z;
  framesSent : Z;
  framesReceived : Z;
  bytesSent : Z;
  bytesReceived : Z;
  invalidFrames : Z;
  sendQueueFull : Z;
}.

Inductive ConnectionState := Connecting | Connected | Disconnected.

Inductive WsCall :=
| NewSocket (url : string) (socket : nat)
| SocketSend (socket : nat) (data : bytes)
| SocketClose (socket : nat) (code : Z)
| OnConnectionState (remoteAddr : TransportAddress) (state : ConnectionState)
| OnPacket (remoteAddr : TransportAddress) (data : bytes)
| Settle (promise : nat) (r : result unit).

Record Ws := mkWs {
  ws_ctx : option FipsIdentity;
  stopping : bool;
  seeds : list SeedState;
  counters : WebSocketTransportStats;
  ws_streams : list (Stream (TransportAddress * bytes));
  discoveries : option nat;
  ws_timers : gmap nat WsTimer;
  nextTimer : nat;
  (** the seed and the generation that the listeners of each socket belong to *)
  listeners : list (nat * Z);
  nextPromise : nat;
  ws_calls : list WsCall;
}.

(** Stores. *)

Definition set_connection x0 x1 x2 (s : SeedState) : SeedState := mkSeedState (url s) x0 (generation s) x1 x2 (readyWaiters s) (queue s) (receiveChain s) (receiving s) (reconnectDelayMs s) (reconnectTimer s) (connectTimer s) (keyHintTimer s) (sendTimer s).
Definition set_generation x0 (s : SeedState) : SeedState := mkSeedState (url s) (socket s) x0 (nonce s) (remoteXOnly s) (readyWaiters s) (queue s) (receiveChain s) (receiving s) (reconnectDelayMs s) (reconnectTimer s) (connectTimer s) (keyHintTimer s) (sendTimer s).
Definition set_waiters x0 (s : SeedState) : SeedState := mkSeedState (url s) (socket s) (generation s) (nonce s) (remoteXOnly s) x0 (queue s) (receiveChain s) (receiving s) (reconnectDelayMs s) (reconnectTimer s) (connectTimer s) (keyHintTimer s) (sendTimer s).
Definition set_queue x0 (s : SeedState) : SeedState := mkSeedState (url s) (socket s) (generation s) (nonce s) (remoteXOnly s) (readyWaiters s) x0 (receiveChain s) (receiving s) (reconnectDelayMs s) (reconnectTimer s) (connectTimer s) (keyHintTimer s) (sendTimer s).
Definition set_receiving x0 x1 (s : SeedState) : SeedState := mkSeedState (url s) (socket s) (generation s) (nonce s) (remoteXOnly s) (readyWaiters s) (queue s) x0 x1 (reconnectDelayMs s) (reconnectTimer s) (connectTimer s) (keyHintTimer s) (sendTimer s).
Definition set_delay x0 (s : SeedState) : SeedState := mkSeedState (url s) (socket s) (generation s) (nonce s) (remoteXOnly s) (readyWaiters s) (queue s) (receiveChain s) (receiving s) x0 (reconnectTimer s) (connectTimer s) (keyHintTimer s) (sendTimer s).
Definition set_reconnectTimer x0 (s : SeedState) : SeedState := mkSeedState (url s) (socket s) (generation s) (nonce s) (remoteXOnly s) (readyWaiters s) (queue s) (receiveChain s) (receiving s) (reconnectDelayMs s) x0 (connectTimer s) (keyHintTimer s) (sendTimer s).
Definition set_connectTimer x0 (s : SeedState) : SeedState := mkSeedState (url s) (socket s) (generation s) (nonce s) (remoteXOnly s) (readyWaiters s) (queue s) (receiveChain s) (receiving s) (reconnectDelayMs s) (reconnectTimer s) x0 (keyHintTimer s) (sendTimer s).
Definition set_keyHintTimer x0 (s : SeedState) : SeedState := mkSeedState (url s) (socket s) (generation s) (nonce s) (remoteXOnly s) (readyWaiters s) (queue s) (receiveChain s) (receiving s) (reconnectDelayMs s) (reconnectTimer s) (connectTimer s) x0 (sendTimer s).
Definition set_sendTimer x0 (s : SeedState) : SeedState := mkSeedState (url s) (socket s) (generation s) (nonce s) (remoteXOnly s) (readyWaiters s) (queue s) (receiveChain s) (receiving s) (reconnectDelayMs s) (reconnectTimer s) (connectTimer s) (keyHintTimer s) x0.
Definition set_running x0 x1 (s : Ws) : Ws := mkWs x0 x1 (seeds s) (counters s) (ws_streams s) (discoveries s) (ws_timers s) (nextTimer s) (listeners s) (nextPromise s) (ws_calls s).
Definition set_seeds x0 (s : Ws) : Ws := mkWs (ws_ctx s) (stopping s) x0 (counters s) (ws_streams s) (discoveries s) (ws_timers s) (nextTimer s) (listeners s) (nextPromise s) (ws_calls s).
Definition set_counters x0 (s : Ws) : Ws := mkWs (ws_ctx s) (stopping s) (seeds s) x0 (ws_streams s) (discoveries s) (ws_timers s) (nextTimer s) (listeners s) (nextPromise s) (ws_calls s).
Definition set_discoveries x0 x1 (s : Ws) : Ws := mkWs (ws_ctx s) (stopping s) (seeds s) (counters s) x0 x1 (ws_timers s) (nextTimer s) (listeners s) (nextPromise s) (ws_calls s).
Definition set_ws_timers x0 x1 (s : Ws) : Ws := mkWs (ws_ctx s) (stopping s) (seeds s) (counters s) (ws_streams s) (discoveries s) x0 x1 (listeners s) (nextPromise s) (ws_calls s).
Definition set_listeners x0 (s : Ws) : Ws := mkWs (ws_ctx s) (stopping s) (seeds s) (counters s) (ws_streams s) (discoveries s) (ws_timers s) (nextTimer s) x0 (nextPromise s) (ws_calls s).
Definition set_nextPromise x0 (s : Ws) : Ws := mkWs (ws_ctx s) (stopping s) (seeds s) (counters s) (ws_streams s) (discoveries s) (ws_timers s) (nextTimer s) (listeners s) x0 (ws_calls s).
Definition set_ws_calls x0 (s : Ws) : Ws := mkWs (ws_ctx s) (stopping s) (seeds s) (counters s) (ws_streams s) (discoveries s) (ws_timers s) (nextTimer s) (listeners s) (nextPromise s) x0.

(** Counters. *)

Definition count_attempt (s : Ws) : Ws := let c := counters s in set_counters (mkStats (connectionAttempts c + 1) (connectionsOpened c) (connectionsClosed c) (reconnectsScheduled c) (framesSent c) (framesReceived c) (bytesSent c) (bytesReceived c) (invalidFrames c) (sendQueueFull c)) s.
Definition count_opened (s : Ws) : Ws := let c := counters s in set_counters (mkStats (connectionAttempts c) (connectionsOpened c + 1) (connectionsClosed c) (reconnectsScheduled c) (framesSent c) (framesReceived c) (bytesSent c) (bytesReceived c) (invalidFrames c) (sendQueueFull c)) s.
Definition count_closed (s : Ws) : Ws := let c := counters s in set_counters (mkStats (connectionAttempts c) (connectionsOpened c) (connectionsClosed c + 1) (reconnectsScheduled c) (framesSent c) (framesReceived c) (bytesSent c) (bytesReceived c) (invalidFrames c) (sendQueueFull c)) s.
Definition count_reconnect (s : Ws) : Ws := let c := counters s in set_counters (mkStats (connectionAttempts c) (connectionsOpened c) (connectionsClosed c) (reconnectsScheduled c + 1) (framesSent c) (framesReceived c) (bytesSent c) (bytesReceived c) (invalidFrames c) (sendQueueFull c)) s.
Definition count_sent (n : Z) (s : Ws) : Ws := let c := counters s in set_counters (mkStats (connectionAttempts c) (connectionsOpened c) (connectionsClosed c) (reconnectsScheduled c) (framesSent c + 1) (framesReceived c) (bytesSent c + n) (bytesReceived c) (invalidFrames c) (sendQueueFull c)) s.
Definition count_received (n : Z) (s : Ws) : Ws := let c := counters s in set_counters (mkStats (connectionAttempts c) (connectionsOpened c) (connectionsClosed c) (reconnectsScheduled c) (framesSent c) (framesReceived c + 1) (bytesSent c) (bytesReceived c + n) (invalidFrames c) (sendQueueFull c)) s.
Definition count_invalid (s : Ws) : Ws := let c := counters s in set_counters (mkStats (connectionAttempts c) (connectionsOpened c) (connectionsClosed c) (reconnectsScheduled c) (framesSent c) (framesReceived c) (bytesSent c) (bytesReceived c) (invalidFrames c + 1) (sendQueueFull c)) s.
Definition count_full (s : Ws) : Ws := let c := counters s in set_counters (mkStats (connectionAttempts c) (connectionsOpened c) (connectionsClosed c) (reconnectsScheduled c) (framesSent c) (framesReceived c) (bytesSent c) (bytesReceived c) (invalidFrames c) (sendQueueFull c + 1)) s.

Definition ws_call (c : WsCall) (s : Ws) : Ws := set_ws_calls (ws_calls s ++ [c]) s.
Definition alter_seed (i : nat) (f : SeedState -> SeedState) (s : Ws) : Ws := set_seeds (alter f i (seeds s)) s.
Definition with_seed (i : nat) (f : SeedState -> Ws -> Ws) (s : Ws) : Ws := match seeds s !! i with Some st => f st s | None => s end.
Definition timer_of (k : TimerKind) (st : SeedState) : option nat :=
  match k with ConnectTimer => connectTimer st | KeyHintTimer => keyHintTimer st | SendTimer => sendTimer st | ReconnectTimer => reconnectTimer st end.
Definition set_timer_of (k : TimerKind) (t : option nat) : SeedState -> SeedState :=
  match k with ConnectTimer => set_connectTimer t | KeyHintTimer => set_keyHintTimer t | SendTimer => set_sendTimer t | ReconnectTimer => set_reconnectTimer t end.

(** [clearTimeout] of a seed's timer, which is then undefined; [setTimeout]. *)
Definition clear_timer (k : TimerKind) (i : nat) : Ws -> Ws :=
  with_seed i (fun st s =>
    let s := match timer_of k st with Some t => set_ws_timers (delete t (ws_timers s)) (nextTimer s) s | None => s end in
    alter_seed i (set_timer_of k None) s).
Definition set_timer (k : TimerKind) (i : nat) (delay : Z) : Ws -> Ws :=
  with_seed i (fun st s =>
    let t := nextTimer s in
    let s := set_ws_timers (<[t := mkWsTimer k i (generation st) delay]> (ws_timers s)) (S t) s in
    alter_seed i (set_timer_of k (Some t)) s).

(** The stream of discovered peers keeps at most [maxValues]. *)
Definition push_capped {A} (maxValues : Z) (value : A) (s : Stream A) : Stream A :=
  if closed s then s else
  match waiters s with
  | w :: ws => mkStream (values s) ws (closed s) (answers s ++ [(w, Some value)]) (asked s)
  | [] =>
      let kept := if len (values s) >=? maxValues then tail (values s) else values s in
      mkStream (kept ++ [value]) [] (closed s) (answers s) (asked s)
  end.

Definition new_stats : WebSocketTransportStats := mkStats 0 0 0 0 0 0 0 0 0 0.

(** What the outside answers to the calls of one step: whether a socket can be
    made, whether the current one is open, whether a peer is allowed, and per
    record the bytes that wait in the socket and the outcome of sending. *)
Record Outside := mkOutside {
  made : nat -> result unit;
  isOpen : bool;
  allowPeer : bytes -> bool;
  bufferedAmount : nat -> Z;
  sending : nat -> result unit;
  randomNonce : Z;
}.

(** ** The transport *)

Definition addr (st : SeedState) : TransportAddress := mkAddress "websocket" (url st).

Section Transport.
Context `{Noble} (URL : string -> option UrlParts) (lim : Limits).

(** The constructor's limits, and its seeds. *)
Definition new_limits (c : WebSocketTransportConfig) : result Limits :=
  mtu ← integerInRange (default DEFAULT_MTU (cfg_mtu c)) 1 0xffff;
  maxFrame ← integerInRange (default DEFAULT_MAX_FRAME_BYTES (cfg_maxFrameBytes c)) (mtu + 64) (1024 * 1024);
  maxQueue ← integerInRange (default DEFAULT_MAX_SEND_QUEUE (cfg_maxSendQueue c)) 1 4096;
  maxBuffered ← integerInRange (default DEFAULT_MAX_BUFFERED_BYTES (cfg_maxBufferedBytes c)) 1 (64 * 1024 * 1024);
  connectMs ← positiveInteger (default DEFAULT_CONNECT_TIMEOUT_MS (cfg_connectTimeoutMs c));
  hintMs ← positiveInteger (default DEFAULT_KEY_HINT_TIMEOUT_MS (cfg_keyHintTimeoutMs c));
  initial ← positiveInteger (default DEFAULT_RECONNECT_INITIAL_MS (cfg_reconnectInitialMs c));
  max ← integerInRange (default DEFAULT_RECONNECT_MAX_MS (cfg_reconnectMaxMs c)) initial (60 * 60 * 1000);
  poll ← integerInRange (default DEFAULT_SEND_POLL_MS (cfg_sendPollMs c)) 1 1000;
  Ok (mkLimits mtu maxFrame maxQueue maxBuffered connectMs hintMs initial max poll).

Fixpoint normalize_all (urls : list string) : result (list string) :=
  match urls with
  | [] => Ok []
  | u :: urls => n ← normalizeSeedUrl URL u; ns ← normalize_all urls; Ok (n :: ns)
  end.

Definition new_seed (l : Limits) (u : string) : SeedState :=
  mkSeedState u None 0 None None [] [] [] None (reconnectInitialMs l) None None None None.

Definition new_websocket (c : WebSocketTransportConfig) : result (Limits * Ws) :=
  l ← new_limits c;
  throw_if (len (seedUrls c) =? 0) (Error "at least one WebSocket seed URL is required");;
  throw_if (len (seedUrls c) >? MAX_SEEDS) (Error "seedUrls must not exceed the maximum");;
  normalized ← normalize_all (seedUrls c);
  throw_if (negb (bool_decide (NoDup normalized))) (Error "duplicate seed URL");;
  Ok (l, mkWs None true (map (new_seed l) normalized) new_stats [] None ∅ 0 [] 0 []).

Definition settle (p : nat) (r : result unit) : Ws -> Ws := ws_call (Settle p r).
Definition settle_all (ps : list nat) (r : result unit) (s : Ws) : Ws := foldl (fun s p => settle p r s) s ps.

Definition onConnectionState (i : nat) (state : ConnectionState) : Ws -> Ws :=
  with_seed i (fun st s => match ws_ctx s with Some _ => ws_call (OnConnectionState (addr st) state) s | None => s end).

Definition isCurrent (st : SeedState) (sock : nat) (gen : Z) : bool := bool_decide (socket st = Some sock) && (generation st =? gen).

Definition resolveReadyWaiters (i : nat) : Ws -> Ws :=
  with_seed i (fun st s => alter_seed i (set_waiters []) (settle_all (readyWaiters st) (Ok tt) s)).

Definition rejectReadyWaiters (i : nat) (e : js_error) : Ws -> Ws :=
  with_seed i (fun st s => alter_seed i (set_waiters []) (settle_all (readyWaiters st) (Throw e) s)).

Definition rejectQueue (i : nat) (e : js_error) : Ws -> Ws :=
  with_seed i (fun st s => settle_all (map snd (queue st)) (Throw e) (alter_seed i (set_queue []) s)).

Definition clearConnectionTimers (i : nat) (s : Ws) : Ws :=
  clear_timer SendTimer i (clear_timer KeyHintTimer i (clear_timer ConnectTimer i s)).

Definition clearTimers (i : nat) (s : Ws) : Ws := clear_timer ReconnectTimer i (clearConnectionTimers i s).

(** The end of [connectionEnded]: the next attempt. *)
Definition scheduleReconnect (i : nat) : Ws -> Ws :=
  with_seed i (fun st s =>
    if stopping s || bool_decide (is_Some (reconnectTimer st)) then s else
    let delay := reconnectDelayMs st in
    let s := alter_seed i (set_delay (Z.min (delay * 2) (reconnectMaxMs lim))) s in
    set_timer ReconnectTimer i delay (count_reconnect s)).

Definition connectionEnded (i : nat) (gen : Z) (e : js_error) : Ws -> Ws :=
  with_seed i (fun st s =>
    if negb (gen =? generation st) then s else
    let s := clearConnectionTimers i s in
    let s := alter_seed i (set_connection None None None) s in
    let s := rejectReadyWaiters i e s in
    let s := rejectQueue i e s in
    let s := if bool_decide (is_Some (socket st)) then count_closed s else s in
    let s := onConnectionState i Disconnected s in
    scheduleReconnect i s).

(** The call of [close] is recorded whether or not the platform refuses it: what it
    throws here is dropped, and nothing else depends on it. *)
Definition failSocket (i : nat) (gen : Z) (e : js_error) : Ws -> Ws :=
  with_seed i (fun st s =>
    if negb (gen =? generation st) then s else
    let s := match socket st with Some sock => ws_call (SocketClose sock 1002) s | None => s end in
    connectionEnded i gen e s).

Section Step.
Context (out : Outside).

Definition isReady (st : SeedState) : bool :=
  bool_decide (is_Some (socket st)) && isOpen out && bool_decide (is_Some (remoteXOnly st)).

(** Whether the context forbids the peer; without a context nothing does. *)
Definition forbidden (s : Ws) (x : bytes) : bool := match ws_ctx s with Some _ => negb (allowPeer out x) | None => false end.

(** The loop of [pump], for [n] records of the queue; [k] have been sent. *)
Fixpoint pump_loop (n k : nat) (i sock : nat) (s : Ws) : Ws :=
  match n, seeds s !! i with
  | S n, Some st =>
      match queue st with
      | [] => s
      | (data, p) :: rest =>
          if match remoteXOnly st with Some x => forbidden s x | None => false end then rejectQueue i (Error "FIPS peer is blocked") s else
          if bufferedAmount out k + len data >? maxBufferedBytes lim then set_timer SendTimer i (sendPollMs lim) s else
          let s := alter_seed i (set_queue rest) s in
          match sending out k with
          | Ok _ => pump_loop n (S k) i sock (settle p (Ok tt) (count_sent (len data) (ws_call (SocketSend sock data) s)))
          | Throw e => failSocket i (generation st) e (settle p (Throw e) s)
          end
      end
  | _, _ => s
  end.

Definition pump (i : nat) : Ws -> Ws :=
  with_seed i (fun st s =>
    if bool_decide (is_Some (sendTimer st)) || negb (isReady st) then s else
    match socket st with Some sock => pump_loop (length (queue st)) 0 i sock s | None => s end).

Definition dial (i : nat) : Ws -> Ws :=
  with_seed i (fun st s =>
    if stopping s || bool_decide (is_Some (socket st)) || bool_decide (is_Some (reconnectTimer st)) then s else
    let gen := generation st + 1 in
    let s := alter_seed i (set_generation gen) s in
    let s := count_attempt s in
    let s := onConnectionState i Connecting s in
    match made out i with
    | Throw e => connectionEnded i gen e s
    | Ok _ =>
        let sock := length (listeners s) in
        let s := ws_call (NewSocket (url st) sock) (set_listeners (listeners s ++ [(i, gen)]) s) in
        let s := alter_seed i (set_connection (Some sock) (nonce st) (remoteXOnly st)) s in
        set_timer ConnectTimer i (connectTimeoutMs lim) s
    end).

(** *** Events of a socket; the listeners belong to a seed, a socket and a generation *)

Definition opened (i sock : nat) (gen : Z) : Ws -> Ws :=
  with_seed i (fun st s =>
    if negb (isCurrent st sock gen) then s else
    let s := count_opened (clear_timer ConnectTimer i s) in
    match checkedNonce (randomNonce out) with
    | Throw _ => s
    | Ok n =>
        let s := alter_seed i (set_connection (socket st) (Some n) (remoteXOnly st)) s in
        match (wire ← encodeLocalKeyHintRequest n; _ ← sending out 0; Ok wire) with
        | Throw e => failSocket i gen e s
        | Ok wire => set_timer KeyHintTimer i (keyHintTimeoutMs lim) (ws_call (SocketSend sock wire) s)
        end
    end).

Definition message (i sock : nat) (gen : Z) (data : Message) : Ws -> Ws :=
  with_seed i (fun st s =>
    if negb (isCurrent st sock gen) then s else
    alter_seed i (set_receiving (receiveChain st ++ [(sock, gen, data)]) (receiving st)) s).

Definition errored (i sock : nat) (gen : Z) : Ws -> Ws :=
  with_seed i (fun st s => if negb (isCurrent st sock gen) then s else failSocket i gen (Error "WebSocket connection error") s).

Definition closed_ (i sock : nat) (gen : Z) (reason : string) : Ws -> Ws :=
  with_seed i (fun st s => if negb (isCurrent st sock gen) then s else connectionEnded i gen (Error ("WebSocket closed: " ++ reason)) s).

(** *** Receiving *)

(** [receive] up to its [await]: the next link of the chain. *)
Definition receive_begin (i : nat) : Ws -> Ws :=
  with_seed i (fun st s =>
    match receiving st, receiveChain st with
    | None, (sock, gen, data) :: chain =>
        alter_seed i (set_receiving chain (if isCurrent st sock gen then Some (sock, gen, data) else None)) s
    | _, _ => s
    end).

Definition push_discovery (a : TransportAddress) (x : bytes) (s : Ws) : Ws :=
  match discoveries s with
  | Some d => set_discoveries (alter (push_capped (len (seeds s) * 2) (a, x)) d (ws_streams s)) (discoveries s) s
  | None => s
  end.

(** A key hint that answers: the seed is ready. *)
Definition hint_answered (i : nat) (pubkey : bytes) : Ws -> Ws :=
  with_seed i (fun st s =>
    let s := clear_timer KeyHintTimer i s in
    let s := alter_seed i (fun st => set_delay (reconnectInitialMs lim) (set_connection (socket st) (nonce st) (Some pubkey) st)) s in
    let s := resolveReadyWaiters i s in
    let s := onConnectionState i Connected s in
    pump i (push_discovery (addr st) pubkey s)).

(** [receive] after its [await]. *)
Definition receive (i sock : nat) (gen : Z) (data : Message) : ST Ws unit :=
  wire ← lift (binaryMessage data);
  s ← get;
  match seeds s !! i with
  | None => mret tt
  | Some st =>
      if negb (isCurrent st sock gen) then mret tt else
      match decodeLocalKeyHint wire with
      | Some (HintRequest n) =>
          match ws_ctx s with
          | None => throw (Error "WebSocket transport is not started")
          | Some local =>
              response ← lift (encodeLocalKeyHintResponse n (xOnlyPubkey local));
              lift (sending out 0);;
              modify (ws_call (SocketSend sock response))
          end
      | Some (HintResponse n pubkey) =>
          if negb (bool_decide (nonce st = Some n)) || bool_decide (is_Some (remoteXOnly st)) then mret tt else
          match ws_ctx s with
          | None => throw (TypeError "Cannot read properties of undefined")
          | Some local =>
              throw_when (bool_decide (toHex pubkey = toHex (xOnlyPubkey local))) (Error "WebSocket seed returned the local FIPS identity");;
              throw_when (negb (allowPeer out pubkey)) (Error "FIPS peer is blocked");;
              modify (hint_answered i pubkey)
          end
      | None =>
          throw_when (negb (bool_decide (is_Some (remoteXOnly st)))) (Error "FIPS record arrived before WebSocket key hint");;
          (if is_ok (validateFipsRecord wire (maxFrameBytes lim)) then mret tt else modify count_invalid);;
          lift (validateFipsRecord wire (maxFrameBytes lim));;
          modify (count_received (len wire));;
          match ws_ctx s with Some _ => modify (ws_call (OnPacket (addr st) wire)) | None => mret tt end
      end
  end.

(** The [await] ends; an exception of [receive] fails the socket. *)
Definition receive_end (i : nat) : Ws -> Ws :=
  with_seed i (fun st s =>
    match receiving st with
    | None => s
    | Some (sock, gen, data) =>
        match receive i sock gen data (alter_seed i (set_receiving (receiveChain st) None) s) with
        | (Ok _, s) => s
        | (Throw e, s) => failSocket i gen e s
        end
    end).

(** *** Timers *)

Definition fire (t : nat) (s : Ws) : Ws :=
  match ws_timers s !! t with
  | None => s
  | Some tm =>
      let s := set_ws_timers (delete t (ws_timers s)) (nextTimer s) s in
      let i := tm_seed tm in
      match tm_kind tm with
      | ConnectTimer => failSocket i (tm_generation tm) (Error "WebSocket connect timeout") s
      | KeyHintTimer => failSocket i (tm_generation tm) (Error "WebSocket key hint timeout") s
      | SendTimer => pump i (alter_seed i (set_sendTimer None) s)
      | ReconnectTimer => dial i (alter_seed i (set_reconnectTimer None) s)
      end
  end.

(** *** Methods *)

Definition start (local : FipsIdentity) (s : Ws) : Ws :=
  if negb (stopping s) then s else
  let s := set_running (Some local) false s in
  let s := set_discoveries (ws_streams s ++ [new_stream]) (Some (length (ws_streams s))) s in
  foldl (fun s i => dial i s) s (seq 0 (length (seeds s))).

Definition stop_seed (i : nat) (s : Ws) : Ws :=
  let s := clearTimers i s in
  let s := rejectReadyWaiters i (Error "WebSocket transport stopped") s in
  let s := rejectQueue i (Error "WebSocket transport stopped") s in
  with_seed i (fun st s =>
    let s := alter_seed i (set_connection None None None) s in
    match socket st with Some sock => ws_call (SocketClose sock 1000) s | None => s end) s.

Definition stop (s : Ws) : Ws :=
  if stopping s then s else
  let s := set_running (ws_ctx s) true s in
  let s := foldl (fun s i => stop_seed i s) s (seq 0 (length (seeds s))) in
  let s := set_discoveries (match discoveries s with Some d => alter close_ d (ws_streams s) | None => ws_streams s end) None s in
  set_running None true s.

Definition discover : ST Ws (option nat) := s ← get; mret (discoveries s).

Definition stats : ST Ws WebSocketTransportStats := s ← get; mret (counters s).

Fixpoint seed_index (u : string) (l : list SeedState) : option nat :=
  match l with [] => None | st :: l => if decide (url st = u) then Some O else S <$> seed_index u l end.

Definition stateFor (a : TransportAddress) : ST Ws nat :=
  throw_when (negb (bool_decide (ta_transport a = "websocket"%string))) (Error "wrong transport");;
  normalized ← lift (normalizeSeedUrl URL (ta_addr a));
  s ← get;
  match seed_index normalized (seeds s) with Some i => mret i | None => throw (Error "unconfigured WebSocket seed URL") end.

(** [connect] and [send] return the promise they wait for, if any. *)
Definition new_promise : ST Ws nat := s ← get; modify (set_nextPromise (S (nextPromise s)));; mret (nextPromise s).

Definition connect (a : TransportAddress) : ST Ws (option nat) :=
  s ← get;
  throw_when (stopping s) (Error "WebSocket transport is not started");;
  i ← stateFor a;
  match seeds s !! i with
  | None => mret None
  | Some st =>
      if isReady st then mret None else
      p ← new_promise;
      modify (alter_seed i (set_waiters (readyWaiters st ++ [p])));;
      (if negb (bool_decide (is_Some (socket st))) && negb (bool_decide (is_Some (reconnectTimer st))) then modify (dial i) else mret tt);;
      mret (Some p)
  end.

Definition send (a : TransportAddress) (packet : bytes) : ST Ws (option nat) :=
  i ← stateFor a;
  lift (validateFipsRecord packet (maxFrameBytes lim));;
  throw_when (len packet >? maxBufferedBytes lim) (Error "WebSocket record exceeds send buffer budget");;
  s ← get;
  match seeds s !! i with
  | None => mret None
  | Some st =>
      throw_when (negb (isReady st)) (Error "WebSocket seed is not connected");;
      if len (queue st) >=? maxSendQueue lim then modify count_full;; throw (Error "WebSocket send queue full") else
      p ← new_promise;
      modify (alter_seed i (set_queue (queue st ++ [(packet, p)])));;
      modify (pump i);;
      mret (Some p)
  end.
End Step.
End Transport.

(** ** Key hints and records *)

Lemma checkedNonce_Ok n v : checkedNonce n = Ok v <-> 0 <= n < 2 ^ 64 /\ v = n.
Proof.
  unfold checkedNonce. rewrite guard_Ok, orb_false_iff, Z.gtb_ltb, !Z.ltb_ge. change 0xffffffffffffffff with (2 ^ 64 - 1).
  split; [intros [? [= <-]]; split; [lia|done]|intros [? ->]; split; [lia|done]].
Qed.

Lemma of_be64_be64 n : 0 <= n < 2 ^ 64 -> of_be64 (be64 n) = n.
Proof. intros Hn. unfold of_be64, be64. rewrite rev_involutive. apply le_val_bytes. done. Qed.

Lemma be64_of_be64 b : len b = 8 -> be64 (of_be64 b) = b.
Proof.
  intros Hl. unfold be64, of_be64. replace 8%nat with (length (rev b)) by (rewrite length_rev; unfold len in Hl; lia).
  rewrite le_bytes_val. apply rev_involutive.
Qed.

Lemma length_be64 n : length (be64 n) = 8%nat.
Proof. unfold be64. by rewrite length_rev, length_le_bytes. Qed.

Lemma len_be64 n : len (be64 n) = 8.
Proof. unfold len. by rewrite length_be64. Qed.

Lemma of_be64_range b : len b = 8 -> 0 <= of_be64 b < 2 ^ 64.
Proof. intros Hl. unfold of_be64. pose proof (le_val_range (rev b)) as Hr. unfold len in *. rewrite length_rev in Hr. by rewrite Hl in Hr. Qed.

Lemma hint_request_layout n w : encodeLocalKeyHintRequest n = Ok w <-> 0 <= n < 2 ^ 64 /\ w = x01 :: be64 n.
Proof.
  unfold encodeLocalKeyHintRequest. rewrite result_bind_ok. change (Z.to_nat LOCAL_KEY_HINT_REQUEST_BYTES) with (1 + 8)%nat.
  rewrite replicate_split, set_at_head by done.
  assert (E : forall m, BinaryWriter.set_at ([z2b LOCAL_KEY_HINT_VERSION] ++ replicate 8 x00) (be64 m) 1 = x01 :: be64 m).
  { intros m. rewrite <- (app_nil_r (replicate 8 x00)), (set_at_mid [_]); [by rewrite app_nil_r|done|by rewrite length_be64]. }
  split.
  - intros (m & [Hn ->]%checkedNonce_Ok & [= <-]). by rewrite E.
  - intros [Hn ->]. exists n. split; [by apply checkedNonce_Ok|]. by rewrite E.
Qed.

Lemma hint_response_layout n k w : encodeLocalKeyHintResponse n k = Ok w <-> 0 <= n < 2 ^ 64 /\ len k = 32 /\ w = x01 :: be64 n ++ k.
Proof.
  unfold encodeLocalKeyHintResponse. rewrite guard_Ok, negb_false_iff, Z.eqb_eq. cbv zeta. rewrite result_bind_ok.
  change (Z.to_nat LOCAL_KEY_HINT_RESPONSE_BYTES) with (9 + 32)%nat. rewrite replicate_split.
  assert (E : len k = 32 -> BinaryWriter.set_at (BinaryWriter.set_at (replicate 9 x00 ++ replicate 32 x00) (x01 :: be64 n) 0) k LOCAL_KEY_HINT_REQUEST_BYTES = x01 :: be64 n ++ k).
  { intros Hk. unfold len in Hk. rewrite set_at_head by (cbn [length]; by rewrite length_be64).
    rewrite <- (app_nil_r (replicate 32 x00)), (set_at_mid (x01 :: be64 n)); [by rewrite app_nil_r|unfold len; cbn [length]; by rewrite length_be64|rewrite length_replicate; lia]. }
  split.
  - intros (Hk & r & [Hn ->]%hint_request_layout & [= <-]). split; [done|]. split; [done|]. by apply E.
  - intros (Hn & Hk & ->). split; [done|]. exists (x01 :: be64 n). split; [apply hint_request_layout; by split|]. by rewrite E.
Qed.

(** The bytes of a message that starts with the hint's version. *)
Lemma hint_split w : decodeLocalKeyHint w <> None ->
  exists b k, w = x01 :: b ++ k /\ len b = 8 /\ (k = [] /\ decodeLocalKeyHint w = Some (HintRequest (of_be64 b)) \/
    len k = 32 /\ decodeLocalKeyHint w = Some (HintResponse (of_be64 b) k)).
Proof.
  unfold decodeLocalKeyHint. destruct (Z.eqb_spec (byte_at w 0) LOCAL_KEY_HINT_VERSION) as [E0|]; [|done]. cbn [negb].
  destruct w as [|x w]; [done|]. rewrite byte_at_head in E0. assert (x = x01) as -> by (by apply b2z_inj). unfold LOCAL_KEY_HINT_REQUEST_BYTES, LOCAL_KEY_HINT_RESPONSE_BYTES.
  destruct (negb (len (x01 :: w) =? 9) && negb (len (x01 :: w) =? 41)) eqn:El; [done|]. intros _.
  assert (Hl : len w = 8 \/ len w = 40).
  { apply andb_false_iff in El. rewrite !negb_false_iff, !Z.eqb_eq, !len_cons in El. lia. }
  exists (take 8 w), (drop 8 w). rewrite take_drop. assert (Hb : len (take 8 w) = 8) by (unfold len in *; rewrite length_take; lia). split; [done|]. split; [done|].
  change (subarray (x01 :: w) 1 9) with (take 8 w). change (subarray_from (x01 :: w) 9) with (drop 8 w). rewrite len_cons.
  destruct Hl as [Hl|Hl]; rewrite Hl.
  - left. split; [|done]. apply len_nil_inv. unfold len in *. rewrite length_drop. lia.
  - right. split; [|done]. unfold len in *. rewrite length_drop. lia.
Qed.

Lemma request_decoded : forall n, 0 <= n < 2 ^ 64 -> decodeLocalKeyHint (x01 :: be64 n) = Some (HintRequest n).
Proof.
  intros n Hn. pose proof (len_be64 n). unfold decodeLocalKeyHint. rewrite len_cons, H. cbn -[of_be64 be64 subarray].
    change (subarray (x01 :: be64 n) 1 9) with (take 8 (be64 n)). rewrite take_ge by (by rewrite length_be64). by rewrite of_be64_be64. 
Qed.

Lemma response_decoded : forall n k, 0 <= n < 2 ^ 64 -> len k = 32 -> decodeLocalKeyHint (x01 :: be64 n ++ k) = Some (HintResponse n k).
Proof.
  intros n k Hn Hk. pose proof (len_be64 n). unfold decodeLocalKeyHint. rewrite len_cons, len_app, H, Hk. cbn -[of_be64 be64 subarray subarray_from].
    change (subarray (x01 :: be64 n ++ k) 1 9) with (take 8 (be64 n ++ k)). change (subarray_from (x01 :: be64 n ++ k) LOCAL_KEY_HINT_REQUEST_BYTES) with (drop 8 (be64 n ++ k)).
    rewrite take_app_length', drop_app_length' by (by rewrite length_be64). by rewrite of_be64_be64. 
Qed.

Lemma request_read n w : decodeLocalKeyHint w = Some (HintRequest n) <-> encodeLocalKeyHintRequest n = Ok w.
Proof.
  rewrite hint_request_layout. split; [|intros [? ->]; by apply request_decoded].
    intros E. destruct (hint_split w ltac:(congruence)) as (b & k & -> & Hb & [[-> E']|[_ E']]); rewrite E' in E; [|done].
    injection E as <-. rewrite app_nil_r. split; [by apply of_be64_range|]. by rewrite be64_of_be64.
Qed.

Lemma response_read n k w : decodeLocalKeyHint w = Some (HintResponse n k) <-> encodeLocalKeyHintResponse n k = Ok w.
Proof.
  rewrite hint_response_layout. split; [|intros (? & ? & ->); by apply response_decoded].
    intros E. destruct (hint_split w ltac:(congruence)) as (b & k' & -> & Hb & [[-> E']|[Hk E']]); rewrite E' in E; [done|].
    injection E as <- <-. split; [by apply of_be64_range|]. by rewrite be64_of_be64.
Qed.

Lemma record_no_hint w max : validateFipsRecord w max = Ok tt -> decodeLocalKeyHint w = None.
Proof.
  intros Hv. destruct (decodeLocalKeyHint w) eqn:E; [|done]. exfalso.
    destruct (hint_split w ltac:(congruence)) as (b & k & -> & Hb & Hk). unfold validateFipsRecord in Hv. apply guard_Ok in Hv as [_ Hv].
    assert (Hd : isDirectFspEstablished (x01 :: b ++ k) = false) by (unfold isDirectFspEstablished; by destruct (_ <? _)). rewrite Hd in Hv.
    assert (Hf : isDirectFspTransportFragment (x01 :: b ++ k) = false) by (unfold isDirectFspTransportFragment; apply andb_false_r).
    rewrite Hf in Hv. apply result_bind_ok in Hv as (ph & Hp & Hv). unfold peekFmpPhase in Hp. apply guard_Ok in Hp as [_ [= <-]].
    change (js_and (byte_at (x01 :: b ++ k) 0) 15) with 1 in Hv. cbn [Z.eqb] in Hv. apply result_bind_ok in Hv as (m & Hm & _).
    unfold decodeFmpMsg1 in Hm. apply guard_Ok in Hm as [Hl _]. rewrite len_cons, len_app, Hb, negb_false_iff, Z.eqb_eq in Hl.
    change FMP_MSG1_TOTAL_LEN with 114 in Hl. destruct Hk as [[-> _]|[Hk _]]; [change (len []) with 0 in Hl; lia|]. rewrite Hk in Hl. lia.
Qed.

(** The key hints are read exactly as they are written: a message is read as
    a request, or as a response, with some nonce and key just when it is their
    encoding; and no record that the carrier accepts is ever taken for a hint,
    although both travel on the same socket and may begin with the same byte. *)
Lemma key_hints_exact :
  (forall n w, decodeLocalKeyHint w = Some (HintRequest n) <-> encodeLocalKeyHintRequest n = Ok w) /\
  (forall n k w, decodeLocalKeyHint w = Some (HintResponse n k) <-> encodeLocalKeyHintResponse n k = Ok w) /\
  (forall w max, validateFipsRecord w max = Ok tt -> decodeLocalKeyHint w = None).
Proof. split; [exact request_read|]. split; [exact response_read|exact record_no_hint]. Qed.
