(* ===== verification/WebSocketRuns.v ===== *)
(** * Runs of the WebSocket carrier

    What holds of the carrier of [WebSocket] after any sequence of calls, socket
    events and timers: each seed is in one of four modes, its promises and timers
    are accounted for, and what is told to the node and to the sockets comes in
    order. *)

From S2P Require Import Prelude Codec Crypto Toy NodeAddr Identity FmpWire FspWire DirectTransport Peers Admission Ethernet WebSocket.

(** ** The specification *)

(** The modes of a seed. *)
Inductive Mode := Down | Dialled (k : nat) | Hinting (k : nat) (n : Z) | Ready (k : nat) (n : Z) (x : bytes).

Definition in_mode (O : list nat) (st : SeedState) (m : Mode) : Prop :=
  match m with
  | Down => socket st = None /\ nonce st = None /\ remoteXOnly st = None /\ queue st = [] /\
            connectTimer st = None /\ keyHintTimer st = None /\ sendTimer st = None
  | Dialled k => socket st = Some k /\ (k ∉ O) /\ nonce st = None /\ remoteXOnly st = None /\ queue st = [] /\
            is_Some (connectTimer st) /\ keyHintTimer st = None /\ sendTimer st = None
  | Hinting k n => socket st = Some k /\ (k ∈ O) /\ nonce st = Some n /\ remoteXOnly st = None /\ queue st = [] /\
            connectTimer st = None /\ is_Some (keyHintTimer st) /\ sendTimer st = None
  | Ready k n x => socket st = Some k /\ (k ∈ O) /\ nonce st = Some n /\ remoteXOnly st = Some x /\
            connectTimer st = None /\ keyHintTimer st = None
  end.

(** What the node and the socket have been told of a seed's connection: it is down,
    it is being tried, its socket [k] was made, the request for the key of its peer
    was sent on that socket with the nonce [n], or it is up. *)
Inductive Told := ToldDown | ToldTrying | ToldDialled (k : nat) | ToldHinted (k : nat) (n : Z) | ToldReady (k : nat).

Definition told_socket (t : Told) : option nat :=
  match t with ToldDialled k | ToldHinted k _ | ToldReady k => Some k | _ => None end.

Definition told_step (a : TransportAddress) (c : WsCall) (t : Told) : Told :=
  match c with
  | OnConnectionState b Connecting => if decide (ta_transport a = ta_transport b /\ ta_addr a = ta_addr b) then ToldTrying else t
  | NewSocket u k => if decide (ta_addr a = u) then (match t with ToldTrying => ToldDialled k | _ => t end) else t
  | OnConnectionState b Connected => if decide (ta_transport a = ta_transport b /\ ta_addr a = ta_addr b) then (match t with ToldHinted k _ => ToldReady k | _ => t end) else t
  | OnConnectionState b Disconnected => if decide (ta_transport a = ta_transport b /\ ta_addr a = ta_addr b) then ToldDown else t
  | SocketSend k data => match decodeLocalKeyHint data, t with Some (HintRequest n), ToldDialled k' => if decide (k' = k) then ToldHinted k n else t | _, _ => t end
  | _ => t
  end.

Definition told (a : TransportAddress) (calls : list WsCall) : Told := foldl (fun t c => told_step a c t) ToldDown calls.

(** What may follow the calls [before]. *)
Definition call_ok (lim : Limits) (before : list WsCall) (c : WsCall) : Prop :=
  match c with
  | OnConnectionState a Connected => exists k n, told a before = ToldHinted k n
  | OnPacket a data => (exists k, told a before = ToldReady k) /\ validateFipsRecord data (maxFrameBytes lim) = Ok tt
  | SocketSend k data =>
      match decodeLocalKeyHint data with
      | Some (HintRequest _) => exists a, told a before = ToldDialled k
      | Some (HintResponse _ _) => exists a, told_socket (told a before) = Some k
      | None => (exists a, told a before = ToldReady k) /\ validateFipsRecord data (maxFrameBytes lim) = Ok tt
      end
  | _ => True
  end.

Definition trace_ok (lim : Limits) (calls : list WsCall) : Prop :=
  forall pre c post, calls = pre ++ c :: post -> call_ok lim pre c.

(** Promises: those that are settled, and those that a seed still keeps. *)
Definition settled (calls : list WsCall) : list nat := omap (fun c => match c with Settle p _ => Some p | _ => None end) calls.
Definition kept (st : SeedState) : list nat := readyWaiters st ++ map snd (queue st).
Definition pending (l : list SeedState) : list nat := concat (map kept l).

(** *** Runs *)

Section Runs.
Context `{Noble} (URL : string -> option UrlParts) (lim : Limits) (urls : list string).

(** One call, event or timer; the sockets that have been opened are remembered,
    since the platform reports the opening of a socket once. *)
Inductive ws_step : Ws * list nat -> Ws * list nat -> Prop :=
| step_start out local s O : ws_step (s, O) (start lim out local s, O)
| step_stop s O : ws_step (s, O) (stop s, O)
| step_connect out a s O : ws_step (s, O) (snd (connect URL lim out a s), O)
| step_send out a packet s O : ws_step (s, O) (snd (send URL lim out a packet s), O)
| step_opened out sock i g random s O : sock ∉ O -> listeners s !! sock = Some (i, g) ->
    randomNonce out = secureRandomNonce random -> len random = 8 -> ws_step (s, O) (opened lim out i sock g s, sock :: O)
| step_message data sock i g s O : listeners s !! sock = Some (i, g) -> ws_step (s, O) (message i sock g data s, O)
| step_errored sock i g s O : listeners s !! sock = Some (i, g) -> ws_step (s, O) (errored lim i sock g s, O)
| step_closed reason sock i g s O : listeners s !! sock = Some (i, g) -> ws_step (s, O) (closed_ lim i sock g reason s, O)
| step_receive_begin i s O : ws_step (s, O) (receive_begin i s, O)
| step_receive_end out i s O : ws_step (s, O) (receive_end lim out i s, O)
| step_fire out t s O : ws_step (s, O) (fire lim out t s, O).

(** ** The invariant *)

Definition told_mode (a : TransportAddress) (calls : list WsCall) (m : Mode) : Prop :=
  match m with
  | Down => True
  | Dialled k => told a calls = ToldDialled k
  | Hinting k n => told a calls = ToldHinted k n /\ SocketSend k (x01 :: be64 n) ∈ calls
  | Ready k n _ => told a calls = ToldReady k /\ SocketSend k (x01 :: be64 n) ∈ calls
  end.

(** A seed whose carrier is running, or not. *)
Definition seed_ok (run : bool) (O : list nat) (calls : list WsCall) (st : SeedState) : Prop :=
  exists m, in_mode O st m /\ told_mode (addr st) calls m /\
    reconnectInitialMs lim <= reconnectDelayMs st <= reconnectMaxMs lim /\
    len (queue st) <= maxSendQueue lim /\ Forall (fun q => validateFipsRecord (fst q) (maxFrameBytes lim) = Ok tt) (queue st) /\
    if run then m = Down <-> is_Some (reconnectTimer st) else m = Down /\ reconnectTimer st = None /\ readyWaiters st = [].

Record glob (O : list nat) (s : Ws) : Prop := {
  gl_timers t tm : ws_timers s !! t = Some tm ->
    (t < nextTimer s)%nat /\ exists st, seeds s !! tm_seed tm = Some st /\ timer_of (tm_kind tm) st = Some t /\ tm_generation tm = generation st;
  gl_fields i st k t : seeds s !! i = Some st -> timer_of k st = Some t -> exists tm, ws_timers s !! t = Some tm /\ tm_kind tm = k /\ tm_seed tm = i;
  gl_sockets i st k : seeds s !! i = Some st -> socket st = Some k -> listeners s !! k = Some (i, generation st);
  gl_opened : Forall (fun k => (k < length (listeners s))%nat) O;
  gl_promises : settled (ws_calls s) ++ pending (seeds s) ≡ₚ seq 0 (nextPromise s);
  gl_trace : trace_ok lim (ws_calls s);
  gl_urls : map url (seeds s) = urls /\ NoDup urls;
  gl_ctx : stopping s = false -> is_Some (ws_ctx s);
}.

(** Everything holds but of the seed [i], which is [st]. *)
Record inv (R : nat -> bool) (O : list nat) (s : Ws) (i : nat) (st : SeedState) : Prop := {
  iv_glob : glob O s;
  iv_seed : seeds s !! i = Some st;
  iv_rest j st' : j <> i -> seeds s !! j = Some st' -> seed_ok (R j) O (ws_calls s) st';
}.

Definition ok (R : nat -> bool) (O : list nat) (s : Ws) : Prop :=
  glob O s /\ forall j st, seeds s !! j = Some st -> seed_ok (R j) O (ws_calls s) st.

Lemma ok_inv R O s i st : ok R O s -> seeds s !! i = Some st -> inv R O s i st.
Proof. intros [Hg Hs] Hi. split; eauto. Qed.

Lemma inv_ok R O s i st : inv R O s i st -> seed_ok (R i) O (ws_calls s) st -> ok R O s.
Proof.
  intros [Hg Hi Hr] Hs. split; [done|]. intros j st' Hj. destruct (decide (j = i)) as [->|Hne]; [|eauto]. congruence.
Qed.

(** *** Stores *)

Lemma pending_split l i st : l !! i = Some st ->
  exists rest, pending l ≡ₚ kept st ++ rest /\ forall f, pending (alter f i l) ≡ₚ kept (f st) ++ rest.
Proof.
  unfold pending. revert i. induction l as [|x l IH]; intros [|i]; cbn; try done.
  - intros [= ->]. by exists (concat (map kept l)).
  - intros (rest & H1 & H2)%IH. exists (kept x ++ rest). split.
    + rewrite H1, !app_assoc. f_equiv. apply Permutation_app_comm.
    + intros f. change (alter f (S i) (x :: l)) with (x :: alter f i l). cbn [map concat]. rewrite H2, !app_assoc. f_equiv. apply Permutation_app_comm.
Qed.

Lemma urls_alter f i (l : list SeedState) : (forall st, l !! i = Some st -> url (f st) = url st) -> map url (alter f i l) = map url l.
Proof.
  revert i. induction l as [|x l IH]; intros [|i] Hf; cbn; try done.
  - f_equal. by apply Hf.
  - f_equal. apply IH. intros st. apply (Hf st).
Qed.

Lemma lookup_alter_inv {A} (f : A -> A) i j (l : list A) y : alter f i l !! j = Some y ->
  exists x, l !! j = Some x /\ y = if decide (j = i) then f x else x.
Proof.
  case_decide as E; [subst; rewrite list_lookup_alter_eq|rewrite list_lookup_alter_ne by done]; destruct (l !! _); naive_solver.
Qed.

Lemma told_app a cs cs' : told a (cs ++ cs') = foldl (fun t c => told_step a c t) (told a cs) cs'.
Proof. apply foldl_app. Qed.

Lemma told_silent a cs cs' : (forall c, c ∈ cs' -> told_step a c (told a cs) = told a cs) -> told a (cs ++ cs') = told a cs.
Proof.
  rewrite told_app. generalize (told a cs). induction cs' as [|c cs' IH]; intros t Hc; [done|]. cbn [foldl]. rewrite Hc by set_solver. apply IH. set_solver.
Qed.

Definition mode_socket (m : Mode) : option nat := match m with Down => None | Dialled k | Hinting k _ | Ready k _ _ => Some k end.

Lemma in_mode_socket O st m : in_mode O st m -> socket st = mode_socket m.
Proof. destruct m; cbn; tauto. Qed.

Lemma told_mode_socket a cs m k : told_mode a cs m -> mode_socket m = Some k -> told_socket (told a cs) = Some k.
Proof. destruct m; cbn; [done|intros ->|intros [-> _]|intros [-> _]]; done. Qed.

Lemma told_mode_app a cs cs' m : told_mode a cs m ->
  (forall c t k, c ∈ cs' -> mode_socket m = Some k -> told_socket t = Some k -> told_step a c t = t) -> told_mode a (cs ++ cs') m.
Proof.
  intros Hm Hc. assert (E : m <> Down -> told a (cs ++ cs') = told a cs).
  { intros Hd. apply told_silent. intros c Hin. destruct (mode_socket m) as [k|] eqn:Ek; [|by destruct m].
    by apply (Hc c _ k); [|..|eapply told_mode_socket]. }
  destruct m; cbn in *; rewrite ?E by done; set_solver.
Qed.

Lemma trace_app cs cs' : trace_ok lim cs -> (forall pre c post, cs' = pre ++ c :: post -> call_ok lim (cs ++ pre) c) -> trace_ok lim (cs ++ cs').
Proof.
  intros H1 H2 pre c post E. destruct (app_eq_inv _ _ _ _ E) as [(k & E1 & E2)|(k & E1 & E2)].
  - destruct k as [|c' k]; [|by eapply H1; rewrite E1; destruct k; injection E2 as -> ->].
    cbn in E2. rewrite app_nil_r in E1. subst cs. rewrite <- (app_nil_r pre). by eapply (H2 []).
  - subst pre. by eapply H2.
Qed.

(** What is told of a connection on another socket than the seed's. *)
Definition others (st : SeedState) (t : Told) : Prop := forall k, told_socket t = Some k -> socket st <> Some k.

(** The effect on one seed of a step that makes calls: what the other invariants
    see of it. *)
Lemma inv_update R O s s' i st f cs n ls : inv R O s i st ->
  seeds s' = alter f i (seeds s) -> ws_timers s' = ws_timers s -> nextTimer s' = nextTimer s ->
  listeners s' = listeners s ++ ls -> nextPromise s' = (nextPromise s + n)%nat -> ws_calls s' = ws_calls s ++ cs ->
  (stopping s' = false -> is_Some (ws_ctx s')) ->
  url (f st) = url st -> (forall k, timer_of k (f st) = timer_of k st) ->
  generation (f st) = generation st \/ (forall k, timer_of k st = None) ->
  (forall k, socket (f st) = Some k -> listeners s' !! k = Some (i, generation (f st))) ->
  settled cs ++ kept (f st) ≡ₚ kept st ++ seq (nextPromise s) n ->
  (forall pre c post, cs = pre ++ c :: post -> call_ok lim (ws_calls s ++ pre) c) ->
  (forall c b t, c ∈ cs -> ta_addr b <> url st -> others st t -> told_step b c t = t) ->
  inv R O s' i (f st).
Proof.
  intros [[G1 G2 G3 G4 G5 G6 G7 G8] Hi Hr] E1 E2 E3 E4 E5 E6 E7 Hu Ht Hg Hs Hk Hc Ho.
  assert (Hal : alter f i (seeds s) !! i = Some (f st)) by (by rewrite list_lookup_alter_eq, Hi).
  split; [split| |]; rewrite ?E1, ?E2, ?E3, ?E5, ?E6; try done.
  - intros t tm Htm. destruct (G1 t tm Htm) as (Hlt & st' & Hst' & Hto & Hgen). split; [done|]. destruct (decide (tm_seed tm = i)) as [E|E].
    + rewrite E in *. rewrite Hi in Hst'. injection Hst' as <-. exists (f st). rewrite Hal, Ht. split_and!; [done..|]. destruct Hg as [->|Hg]; [done|]. by rewrite Hg in Hto.
    + exists st'. by rewrite list_lookup_alter_ne.
  - intros j st' k t (x & Hx & ->)%lookup_alter_inv. case_decide as E; [|by apply G2]. subst. rewrite Hi in Hx. injection Hx as <-. rewrite Ht. by apply G2.
  - intros j st' k (x & Hx & ->)%lookup_alter_inv. case_decide as E; [subst; rewrite Hi in Hx; injection Hx as <-; apply Hs|].
    intros Hsk. rewrite E4. apply lookup_app_l_Some. by apply G3.
  - eapply Forall_impl; [exact G4|]. cbn. intros k Hlt. rewrite E4, length_app. lia.
  - destruct (pending_split _ _ _ Hi) as (rest & H1 & H2). rewrite H2, seq_app, <- G5, H1. unfold settled at 1. rewrite omap_app. fold (settled (ws_calls s)) (settled cs).
    rewrite <- !app_assoc. f_equiv. rewrite app_assoc, Hk, <- !app_assoc. f_equiv. apply Permutation_app_comm.
  - by apply trace_app.
  - rewrite urls_alter; [done|]. intros x Hx. rewrite Hi in Hx. by injection Hx as <-.
  - intros j st' Hne (x & Hx & ->)%lookup_alter_inv. rewrite decide_False by done. destruct (Hr j x Hne Hx) as (m & H1 & H2 & H3).
    exists m. split; [done|]. split; [|done]. apply told_mode_app; [done|]. intros c t k Hin Hmk Htk. apply Ho; [done| |].
    2:{ intros k' Hk' Es. assert (k' = k) as -> by congruence. pose proof (G3 i st k Hi Es) as E. rewrite (G3 j x k) in E; [congruence|done|]. by rewrite (in_mode_socket _ _ _ H1). }
    cbn. intros Eu.
    apply Hne. eapply (NoDup_lookup (map url (seeds s))); [rewrite (proj1 G7); apply G7|..]; rewrite list_lookup_fmap; [by rewrite Hx|]. rewrite Hi. cbn. by f_equal.
Qed.

(** Stores in a seed, calls, and stores elsewhere. *)
Lemma inv_alter R O s i st f : inv R O s i st ->
  url (f st) = url st -> (forall k, timer_of k (f st) = timer_of k st) -> generation (f st) = generation st ->
  (socket (f st) = None \/ socket (f st) = socket st) -> kept (f st) = kept st -> inv R O (alter_seed i f s) i (f st).
Proof.
  intros Hv Hu Ht Hg Hs Hk. pose proof Hv as [[? ? G3 ? ? ? ? G8] Hi _]. apply (inv_update R O s _ i st f [] 0 []); rewrite ?app_nil_r, ?Nat.add_0_r; try done; try auto.
  - intros k Hsk. rewrite Hg. cbn. destruct Hs as [Hs|Hs]; rewrite Hs in Hsk; [done|]. by apply G3.
  - by rewrite Hk.
  - by intros [] ? ? ?.
  - set_solver.
Qed.

Lemma alter_id {A} i (l : list A) : alter id i l = l.
Proof. revert i. induction l as [|x l IH]; intros [|i]; cbn; [done..|]. f_equal. apply IH. Qed.

Lemma inv_calls R O s s' i st cs ls : inv R O s i st ->
  seeds s' = seeds s -> ws_timers s' = ws_timers s -> nextTimer s' = nextTimer s -> listeners s' = listeners s ++ ls -> nextPromise s' = nextPromise s ->
  ws_calls s' = ws_calls s ++ cs -> (stopping s' = false -> is_Some (ws_ctx s')) -> settled cs = [] ->
  (forall pre c post, cs = pre ++ c :: post -> call_ok lim (ws_calls s ++ pre) c) ->
  (forall c b t, c ∈ cs -> ta_addr b <> url st -> others st t -> told_step b c t = t) -> inv R O s' i st.
Proof.
  intros Hv E1 E2 E3 E4 E5 E6 E7 Hn Hc Ho. pose proof Hv as [[? ? G3 ? ? ? ? ?] Hi _].
  apply (inv_update R O s s' i st id cs 0 ls Hv); rewrite ?alter_id, ?Nat.add_0_r; auto.
  - intros k Hsk. rewrite E4. apply lookup_app_l_Some. by apply G3.
  - by rewrite Hn, app_nil_r.
Qed.

Lemma inv_same R O s s' i st : inv R O s i st ->
  seeds s' = seeds s -> ws_timers s' = ws_timers s -> nextTimer s' = nextTimer s -> listeners s' = listeners s -> nextPromise s' = nextPromise s ->
  ws_calls s' = ws_calls s -> (stopping s' = false -> is_Some (ws_ctx s')) -> inv R O s' i st.
Proof.
  intros Hv E1 E2 E3 E4 E5 E6 E7. eapply (inv_calls R O s s' i st [] []); rewrite ?app_nil_r; try done; [by intros [] ? ? ?|set_solver].
Qed.

Lemma single_call (P : list WsCall -> WsCall -> Prop) c0 before : P before c0 -> forall pre c post, [c0] = pre ++ c :: post -> P (before ++ pre) c.
Proof. intros Hc [|? []] c post [=]; subst. by rewrite app_nil_r. Qed.

Lemma inv_call R O s i st c : inv R O s i st -> call_ok lim (ws_calls s) c -> settled [c] = [] ->
  (forall b t, ta_addr b <> url st -> others st t -> told_step b c t = t) -> inv R O (ws_call c s) i st.
Proof.
  intros Hv Hc Hn Ho. eapply (inv_calls R O s _ i st [c] []); rewrite ?app_nil_r; try done; [apply Hv|by apply single_call|].
  intros c' b t ->%list_elem_of_singleton. apply Ho.
Qed.

Lemma settle_all_run ps r s : settle_all ps r s = set_ws_calls (ws_calls s ++ map (fun p => Settle p r) ps) s.
Proof.
  unfold settle_all. revert s. induction ps as [|p ps IH]; intros s; cbn [foldl map]; [rewrite app_nil_r; by destruct s|].
  rewrite IH. unfold settle, ws_call. cbn. by rewrite <- app_assoc.
Qed.

Lemma settled_map ps r : settled (map (fun p => Settle p r) ps) = ps.
Proof. unfold settled. induction ps as [|p ps IH]; cbn; [done|]. by f_equal. Qed.

(** Promises of a seed are settled. *)
Lemma inv_settle R O s s' i st f ps r : inv R O s i st -> s' = alter_seed i f (settle_all ps r s) ->
  url (f st) = url st -> (forall k, timer_of k (f st) = timer_of k st) -> generation (f st) = generation st -> socket (f st) = socket st ->
  ps ++ kept (f st) ≡ₚ kept st -> inv R O s' i (f st).
Proof.
  intros Hv -> Hu Ht Hg Hs Hk. pose proof Hv as [[? ? G3 ? ? ? ? G8] Hi _]. rewrite settle_all_run.
  apply (inv_update R O s _ i st f (map (fun p => Settle p r) ps) 0 []); rewrite ?app_nil_r, ?Nat.add_0_r; try done; try auto.
  - intros k. rewrite Hs, Hg. apply G3. done.
  - by rewrite settled_map.
  - intros pre c post E. assert (Hin : c ∈ map (fun p => Settle p r) ps) by (rewrite E; set_solver). by apply list_elem_of_fmap in Hin as (? & -> & _).
  - intros c b t (? & -> & _)%list_elem_of_fmap. done.
Qed.

Lemma timer_of_set k k' t st : timer_of k' (set_timer_of k t st) = if decide (k' = k) then t else timer_of k' st.
Proof. by destruct k, k'. Qed.

Lemma set_timer_fields k t st : url (set_timer_of k t st) = url st /\ generation (set_timer_of k t st) = generation st /\
  socket (set_timer_of k t st) = socket st /\ kept (set_timer_of k t st) = kept st.
Proof. by destruct k. Qed.

(** The shared part of setting and clearing a timer. *)
Lemma inv_timers R O s i st k t ts n : inv R O s i st ->
  (forall u tm, ts !! u = Some tm -> (u < n)%nat /\
     (ws_timers s !! u = Some tm /\ ~ (tm_seed tm = i /\ tm_kind tm = k) \/ t = Some u /\ tm_seed tm = i /\ tm_kind tm = k /\ tm_generation tm = generation st)) ->
  (forall u tm, ws_timers s !! u = Some tm -> ~ (tm_seed tm = i /\ tm_kind tm = k) -> ts !! u = Some tm) ->
  (forall u, t = Some u -> exists tm, ts !! u = Some tm /\ tm_kind tm = k /\ tm_seed tm = i) ->
  inv R O (alter_seed i (set_timer_of k t) (set_ws_timers ts n s)) i (set_timer_of k t st).
Proof.
  intros [[G1 G2 G3 G4 G5 G6 G7 G8] Hi Hr] T1 T2 T3. destruct (set_timer_fields k t st) as (F1 & F2 & F3 & F4).
  assert (Hal : alter (set_timer_of k t) i (seeds s) !! i = Some (set_timer_of k t st)) by (by rewrite list_lookup_alter_eq, Hi).
  split; [split| |]; cbn [alter_seed set_ws_timers set_seeds seeds ws_timers nextTimer listeners ws_calls stopping ws_ctx nextPromise].
  - intros u tm [Hlt Hu]%T1. split; [done|]. destruct Hu as [[Hu Hne]|(-> & Es & Ek & Eg)].
    + destruct (G1 u tm Hu) as (_ & st' & Hst' & Hto & Hgen). destruct (decide (tm_seed tm = i)) as [E|E].
      * rewrite E in *. rewrite Hi in Hst'. injection Hst' as <-. exists (set_timer_of k t st). rewrite Hal, timer_of_set, decide_False, F2 by tauto. done.
      * exists st'. by rewrite list_lookup_alter_ne.
    + exists (set_timer_of k (Some u) st). by rewrite Es, Hal, timer_of_set, F2, decide_True.
  - intros j st' k' u (x & Hx & ->)%lookup_alter_inv Hu. case_decide as E.
    + subst. rewrite Hi in Hx. injection Hx as <-. rewrite timer_of_set in Hu. case_decide as E; [subst; eauto|].
      destruct (G2 i st k' u Hi Hu) as (tm & Htm & Ek & Es). exists tm. split_and!; try done. apply T2; [done|]. intros [_ ?]. congruence.
    + destruct (G2 j x k' u Hx Hu) as (tm & Htm & Ek & Es). exists tm. split_and!; try done. apply T2; [done|]. intros [? _]. congruence.
  - intros j st' k' (x & Hx & ->)%lookup_alter_inv. case_decide as E; [|by apply G3]. subst. rewrite Hi in Hx. injection Hx as <-. rewrite F2, F3. by apply G3.
  - done.
  - destruct (pending_split _ _ _ Hi) as (rest & H1 & H2). by rewrite H2, F4, <- H1.
  - done.
  - rewrite urls_alter; [done|]. intros x Hx. rewrite Hi in Hx. by injection Hx as <-.
  - done.
  - done.
  - intros j st' Hne (x & Hx & ->)%lookup_alter_inv. rewrite decide_False by done. by apply Hr.
Qed.

Lemma inv_clear R O s i st k : inv R O s i st -> inv R O (clear_timer k i s) i (set_timer_of k None st).
Proof.
  intros Hv. pose proof Hv as [[G1 G2 _ _ _ _ _ _] Hi _]. unfold clear_timer, with_seed. rewrite Hi. destruct (timer_of k st) as [t|] eqn:Et.
  - apply inv_timers; [done|..|done].
    + intros u tm [Hne Hu]%lookup_delete_Some. split; [by eapply G1|]. left. split; [done|]. intros [Es Ek].
      destruct (G1 u tm Hu) as (_ & st' & Hst' & Hto & _). rewrite Es, Hi in Hst'. injection Hst' as <-. rewrite Ek, Et in Hto. congruence.
    + intros u tm Hu Hne. rewrite lookup_delete_ne; [done|]. intros ->. destruct (G2 i st k u Hi Et) as (tm' & Htm' & Ek & Es). apply Hne. split; congruence.
  - apply (inv_timers R O s i st k None (ws_timers s) (nextTimer s)) in Hv; [|..|done].
    + by destruct s.
    + intros u tm Hu. split; [by eapply G1|]. left. split; [done|]. intros [Es Ek].
      destruct (G1 u tm Hu) as (_ & st' & Hst' & Hto & _). rewrite Es, Hi in Hst'. injection Hst' as <-. rewrite Ek, Et in Hto. congruence.
    + done.
Qed.

Lemma inv_set R O s i st k d : inv R O s i st -> timer_of k st = None ->
  inv R O (set_timer k i d s) i (set_timer_of k (Some (nextTimer s)) st).
Proof.
  intros Hv Et. pose proof Hv as [[G1 G2 _ _ _ _ _ _] Hi _]. unfold set_timer, with_seed. rewrite Hi. apply inv_timers; [done|..].
  - intros u tm Hu. destruct (decide (u = nextTimer s)) as [->|Hne].
    + rewrite lookup_insert_eq in Hu. injection Hu as <-. split; [lia|]. right. done.
    + rewrite lookup_insert_ne in Hu by done. destruct (G1 u tm Hu) as (Hlt & st' & Hst' & Hto & _). split; [lia|]. left. split; [done|]. intros [Es Ek].
      rewrite Es, Hi in Hst'. injection Hst' as <-. congruence.
  - intros u tm Hu _. rewrite lookup_insert_ne; [done|]. intros <-. apply G1 in Hu as [? _]. lia.
  - intros u [= <-]. rewrite lookup_insert_eq. by eexists.
Qed.

(** *** Operations on a seed *)

Lemma with_seed_run R O s i st f : inv R O s i st -> with_seed i f s = f st s.
Proof. intros [_ Hi _]. unfold with_seed. by rewrite Hi. Qed.

Lemma resolve_inv R O s i st : inv R O s i st -> inv R O (resolveReadyWaiters i s) i (set_waiters [] st).
Proof. intros Hv. unfold resolveReadyWaiters. erewrite with_seed_run by done. by eapply inv_settle. Qed.

Lemma reject_inv R O s i st e : inv R O s i st -> inv R O (rejectReadyWaiters i e s) i (set_waiters [] st).
Proof. intros Hv. unfold rejectReadyWaiters. erewrite with_seed_run by done. by eapply inv_settle. Qed.

Lemma settle_alter ps r i f s : settle_all ps r (alter_seed i f s) = alter_seed i f (settle_all ps r s).
Proof. by rewrite !settle_all_run. Qed.

Lemma rejectQueue_inv R O s i st e : inv R O s i st -> inv R O (rejectQueue i e s) i (set_queue [] st).
Proof.
  intros Hv. unfold rejectQueue. erewrite with_seed_run by done. rewrite settle_alter. eapply inv_settle; [done|done|try done..].
  unfold kept. cbn. rewrite app_nil_r. apply Permutation_app_comm.
Qed.

Lemma connection_inv R O s i st k n x : inv R O s i st -> k = None \/ k = socket st -> inv R O (alter_seed i (set_connection k n x) s) i (set_connection k n x st).
Proof. intros Hv Hk. by apply inv_alter. Qed.

Definition unconnected (st : SeedState) : SeedState := set_timer_of SendTimer None (set_timer_of KeyHintTimer None (set_timer_of ConnectTimer None st)).

Lemma clearConnectionTimers_inv R O s i st : inv R O s i st -> inv R O (clearConnectionTimers i s) i (unconnected st).
Proof. intros Hv. unfold clearConnectionTimers. by repeat apply inv_clear. Qed.

(** Telling the node of a seed's connection. *)
Lemma told_inv R O s i st c : inv R O s i st -> (c = Connected -> exists k n, told (addr st) (ws_calls s) = ToldHinted k n) -> inv R O (onConnectionState i c s) i st.
Proof.
  intros Hv Hc. unfold onConnectionState. erewrite with_seed_run by done. case_match; [|done]. apply inv_call; [done|..].
  - destruct c; try done. by apply Hc.
  - done.
  - intros b t Hne _. destruct c; cbn; (rewrite decide_False; [done|]); intros [_ ?]; done.
Qed.

Context (Hlim : 1 <= reconnectInitialMs lim <= reconnectMaxMs lim /\ 1 <= maxSendQueue lim).

Definition delay_ok (st : SeedState) : Prop := reconnectInitialMs lim <= reconnectDelayMs st <= reconnectMaxMs lim.

Lemma connectionEnded_full R O s i st e : inv R O s i st -> delay_ok st -> R i = negb (stopping s) -> (stopping s = true -> reconnectTimer st = None) ->
  let s' := connectionEnded lim i (generation st) e s in
  ok R O s' /\ stopping s' = stopping s /\ exists st', seeds s' !! i = Some st' /\ kept st' = [].
Proof.
  intros Hv Hd HR Hstop. cbv zeta. unfold connectionEnded. erewrite with_seed_run by done. rewrite Z.eqb_refl. cbn [negb].
  pose proof (clearConnectionTimers_inv _ _ _ _ _ Hv) as H1. set (s1 := clearConnectionTimers i s) in *.
  assert (E1 : stopping s1 = stopping s) by (unfold s1, clearConnectionTimers, clear_timer, with_seed; repeat (case_match; cbn); done).
  apply (connection_inv _ _ _ _ _ None None None) in H1; [|by left]. set (s2 := alter_seed i (set_connection None None None) s1) in *.
  apply (reject_inv _ _ _ _ _ e) in H1. set (s3 := rejectReadyWaiters i e s2) in *.
  assert (E3 : stopping s3 = stopping s) by (unfold s3, rejectReadyWaiters, with_seed; case_match; rewrite ?settle_all_run; done).
  apply (rejectQueue_inv _ _ _ _ _ e) in H1. set (s4 := rejectQueue i e s3) in *.
  assert (E4 : stopping s4 = stopping s) by (unfold s4, rejectQueue, with_seed; case_match; rewrite ?settle_all_run; done).
  set (s5 := if bool_decide (is_Some (socket st)) then count_closed s4 else s4) in *.
  assert (E5 : stopping s5 = stopping s) by (unfold s5; by case_match).
  assert (H5 : inv R O s5 i (set_queue [] (set_waiters [] (set_connection None None None (unconnected st)))))
    by (unfold s5; case_match; [eapply inv_same; [exact H1|try done..]; apply H1|done]). clear H1.
  apply (told_inv _ _ _ _ _ Disconnected) in H5; [|done]. set (s6 := onConnectionState i Disconnected s5) in *.
  assert (E6 : stopping s6 = stopping s) by (unfold s6, onConnectionState, with_seed; by repeat case_match).
  set (st6 := set_queue [] _) in *. unfold scheduleReconnect. erewrite with_seed_run by done. rewrite E6.
  assert (Hmode : forall d t, in_mode O (set_reconnectTimer t (set_delay d st6)) Down) by done.
  change (reconnectTimer st6) with (reconnectTimer st). change (reconnectDelayMs st6) with (reconnectDelayMs st). unfold delay_ok in Hd.
  destruct (stopping s || bool_decide (is_Some (reconnectTimer st))) eqn:Eb.
  - split; [|split; [done|]; eexists; split; [apply H5|done]]. eapply inv_ok; [exact H5|]. exists Down. split; [done|]. split; [done|]. split; [unfold st6; cbn; lia|]. split; [change (0 <= maxSendQueue lim); lia|]. split; [done|]. rewrite HR. destruct (stopping s) eqn:Es; cbn [negb].
    + split; [done|]. split; [by apply Hstop|done].
    + split; [|done]. intros _. by apply bool_decide_eq_true in Eb.
  - apply orb_false_iff in Eb as [Es Er]. assert (Hn : reconnectTimer st = None) by (destruct (reconnectTimer st); done).
    apply (inv_alter _ _ _ _ _ (set_delay (Z.min (reconnectDelayMs st * 2) (reconnectMaxMs lim)))) in H5; try done; [|by right].
    set (s7 := alter_seed i _ s6) in *. assert (H7 : inv R O (count_reconnect s7) i (set_delay (Z.min (reconnectDelayMs st * 2) (reconnectMaxMs lim)) st6))
      by (eapply inv_same; [exact H5|try done..]; apply H5). apply (inv_set _ _ _ _ _ ReconnectTimer (reconnectDelayMs st)) in H7; [|done].
    split; [|split; [unfold set_timer, with_seed; by case_match|]; eexists; split; [apply H7|done]]. eapply inv_ok; [exact H7|]. exists Down. split; [done|]. split; [done|]. split; [unfold st6; cbn; lia|]. split; [change (0 <= maxSendQueue lim); lia|]. split; [done|]. rewrite HR, Es. cbn. split; [|done]. by intros _.
Qed.

Lemma connectionEnded_ok R O s i st e : inv R O s i st -> delay_ok st -> R i = negb (stopping s) -> (stopping s = true -> reconnectTimer st = None) ->
  ok R O (connectionEnded lim i (generation st) e s) /\ stopping (connectionEnded lim i (generation st) e s) = stopping s.
Proof. intros H1 H2 H3 H4. destruct (connectionEnded_full R O s i st e H1 H2 H3 H4) as (H5 & H6 & _). by split. Qed.

Lemma seed_ok_delay run O calls st : seed_ok run O calls st -> delay_ok st.
Proof. by intros (m & _ & _ & Hd & _). Qed.

Lemma seed_ok_stopped O calls st : seed_ok false O calls st -> reconnectTimer st = None.
Proof. by intros (m & _ & _ & _ & _ & _ & _ & Hr & _). Qed.

Lemma failSocket_inv R O s i st e : inv R O s i st -> delay_ok st -> R i = negb (stopping s) -> (stopping s = true -> reconnectTimer st = None) ->
  ok R O (failSocket lim i (generation st) e s) /\ stopping (failSocket lim i (generation st) e s) = stopping s.
Proof.
  intros Hv Hd HR Hs. unfold failSocket. erewrite with_seed_run by done. rewrite Z.eqb_refl. cbn [negb].
  destruct (socket st) as [k|]; [|by apply connectionEnded_ok]. apply (connectionEnded_ok R O (ws_call (SocketClose k 1002) s)); try done. by apply inv_call.
Qed.

Lemma failSocket_ok R O s i gen e : ok R O s -> R i = negb (stopping s) ->
  ok R O (failSocket lim i gen e s) /\ stopping (failSocket lim i gen e s) = stopping s.
Proof.
  intros Ho HR. destruct (seeds s !! i) as [st|] eqn:Ei; [|unfold failSocket, with_seed; by rewrite Ei].
  destruct (Z.eqb_spec gen (generation st)) as [->|Hne]; [|unfold failSocket, with_seed; rewrite Ei; by rewrite (proj2 (Z.eqb_neq _ _) Hne)].
  pose proof (ok_inv _ _ _ _ _ Ho Ei) as Hv. pose proof (proj2 Ho i st Ei) as Hs. apply failSocket_inv; [done|by eapply seed_ok_delay|done|].
  intros Es. rewrite HR, Es in Hs. by eapply seed_ok_stopped.
Qed.

Lemma connectionEnded_all R O s i gen e : ok R O s -> R i = negb (stopping s) ->
  ok R O (connectionEnded lim i gen e s) /\ stopping (connectionEnded lim i gen e s) = stopping s.
Proof.
  intros Ho HR. destruct (seeds s !! i) as [st|] eqn:Ei; [|unfold connectionEnded, with_seed; by rewrite Ei].
  destruct (Z.eqb_spec gen (generation st)) as [->|Hne]; [|unfold connectionEnded, with_seed; rewrite Ei; by rewrite (proj2 (Z.eqb_neq _ _) Hne)].
  pose proof (ok_inv _ _ _ _ _ Ho Ei) as Hv. pose proof (proj2 Ho i st Ei) as Hs. apply connectionEnded_ok; [done|by eapply seed_ok_delay|done|].
  intros Es. rewrite HR, Es in Hs. by eapply seed_ok_stopped.
Qed.

Lemma seed_ok_silent run O calls cs st : seed_ok run O calls st -> (forall c t, c ∈ cs -> told_step (addr st) c t = t) -> seed_ok run O (calls ++ cs) st.
Proof. intros (m & H1 & H2 & H3) Hc. exists m. split; [done|]. split; [|done]. apply told_mode_app; [done|]. intros c t k Hin _ _. by apply Hc. Qed.

(** A record leaves the queue, sent or not, and its promise is settled. *)
Lemma dequeue_inv R O s i st data p rest r sent s' : inv R O s i st -> seed_ok (R i) O (ws_calls s) st -> queue st = (data, p) :: rest ->
  sent = [] \/ (exists k, sent = [SocketSend k data] /\ socket st = Some k) ->
  seeds s' = alter (set_queue rest) i (seeds s) -> ws_timers s' = ws_timers s -> nextTimer s' = nextTimer s ->
  listeners s' = listeners s -> nextPromise s' = nextPromise s -> ws_calls s' = ws_calls s ++ (sent ++ [Settle p r]) ->
  stopping s' = stopping s -> ws_ctx s' = ws_ctx s ->
  inv R O s' i (set_queue rest st) /\ seed_ok (R i) O (ws_calls s') (set_queue rest st).
Proof.
  intros Hv Hs Hq Hc E1 E2 E3 E4 E5 E6 E7 E8. pose proof Hv as [[? ? G3 ? ? ? ? G8] Hi _].
  pose proof Hs as (m & Hm & Ht & Hd & Hl & Hf & Hrun). rewrite Hq in *. apply Forall_cons in Hf as [Hval Hf]. cbn [fst] in Hval. rewrite len_cons in Hl.
  assert (Hsilent : forall c a t, c ∈ sent ++ [Settle p r] -> told_step a c t = t).
  { intros c a t Hin. destruct Hc as [->|(k & -> & _)]; cbn in Hin; [apply list_elem_of_singleton in Hin as ->; done|].
    apply elem_of_cons in Hin as [-> | ->%list_elem_of_singleton]; [|done]. cbn. by rewrite (record_no_hint _ _ Hval). }
  split.
  - apply (inv_update R O s s' i st (set_queue rest) (sent ++ [Settle p r]) 0 []); rewrite ?app_nil_r, ?Nat.add_0_r; try done; try auto.
    + by rewrite E7, E8.
    + intros k Hsk. rewrite E4. exact (G3 i st k Hi Hsk).
    + assert (Es : settled (sent ++ [Settle p r]) = [p]) by (by destruct Hc as [->|(k & -> & _)]). rewrite Es. unfold kept. rewrite Hq. cbn. apply Permutation_middle.
    + intros pre c post E. destruct Hc as [->|(k & -> & Hk)]; [destruct pre as [|? []]; injection E as <- ?; by try subst|].
      destruct pre as [|? [|? []]]; injection E as; subst; try done. cbn. rewrite (record_no_hint _ _ Hval), app_nil_r. split; [|done]. exists (addr st).
      destruct m; cbn in Hm; [destruct Hm as (? & _); congruence|..]; try (destruct Hm as (_ & _ & _ & _ & ? & _); congruence).
      destruct Hm as (Hk' & _). rewrite Hk in Hk'. injection Hk' as ->. apply Ht.
  - rewrite E6. apply seed_ok_silent; [|by intros; apply Hsilent]. exists m. split; [|split; [done|]; split; [done|]; split; [cbn; lia|]; done].
    destruct m; cbn in Hm |- *; [destruct Hm as (_ & _ & _ & ? & _); congruence|..]; try (destruct Hm as (_ & _ & _ & _ & ? & _); congruence). done.
Qed.

Lemma pump_loop_ok R O out n j i sock s st : inv R O s i st -> seed_ok (R i) O (ws_calls s) st -> R i = negb (stopping s) ->
  socket st = Some sock -> is_Some (remoteXOnly st) -> sendTimer st = None -> ok R O (pump_loop lim out n j i sock s) /\ stopping (pump_loop lim out n j i sock s) = stopping s.
Proof.
  revert j s st. induction n as [|n IH]; intros j s st Hv Hs HR Hk Hx Ht; [split; [by eapply inv_ok|done]|]. cbn [pump_loop]. rewrite (iv_seed _ _ _ _ _ Hv).
  destruct (queue st) as [|[data p] rest] eqn:Eq; [split; [by eapply inv_ok|done]|].
  destruct (match remoteXOnly st with Some x => forbidden out s x | None => false end).
  { split; [|unfold rejectQueue, with_seed; case_match; rewrite ?settle_all_run; done]. eapply inv_ok; [by apply rejectQueue_inv|].
    destruct Hs as (m & Hm & Htold & Hd & Hl & Hf & Hrun).
    assert (Ec : exists cs, ws_calls (rejectQueue i (Error "FIPS peer is blocked") s) = ws_calls s ++ map (fun p => Settle p (Throw (Error "FIPS peer is blocked"))) cs).
    { unfold rejectQueue. erewrite with_seed_run by done. rewrite settle_all_run. by eexists. }
    destruct Ec as (cs & ->). apply seed_ok_silent; [|by intros c t (? & -> & _)%list_elem_of_fmap]. exists m.
    split; [destruct m; cbn in Hm |- *; naive_solver|]. split; [done|]. split; [done|]. split; [change (0 <= maxSendQueue lim); lia|]. done. }
  destruct (_ >? _).
  { split; [|unfold set_timer, with_seed; by case_match]. eapply inv_ok; [by apply inv_set|]. destruct Hs as (m & Hm & Htold & Hs).
    assert (Ec : ws_calls (set_timer SendTimer i (sendPollMs lim) s) = ws_calls s) by (unfold set_timer, with_seed; by rewrite (iv_seed _ _ _ _ _ Hv)). rewrite Ec. exists m. split; [|exact (conj Htold Hs)].
    destruct Hx as [x Hx]. destruct m; cbn in Hm |- *; try done; destruct Hm as (? & ? & Hm); [congruence|destruct Hm as (_ & ? & _); congruence..]. }
  destruct (sending out j) as [[]|e].
  - match goal with |- ok _ _ (pump_loop _ _ _ _ _ _ ?s') /\ _ => destruct (dequeue_inv R O s i st data p rest (Ok tt) [SocketSend sock data] s' Hv Hs Eq) as [H1 H2];
      try done; [by right; exists sock|cbn; by rewrite <- app_assoc|] end.
    exact (IH (S j) _ _ H1 H2 HR Hk Hx Ht).
  - match goal with |- ok _ _ (failSocket _ _ _ _ ?s') /\ _ => destruct (dequeue_inv R O s i st data p rest (Throw e) [] s' Hv Hs Eq) as [H1 H2]; try done; [by left|] end.
    apply (failSocket_inv R O _ i _ e) in H1; [done|by eapply seed_ok_delay|done|]. intros Es. cbn in Es. rewrite HR, Es in H2. by eapply seed_ok_stopped in H2.
Qed.

Definition keeps (R : nat -> bool) (O : list nat) (s s' : Ws) : Prop := ok R O s' /\ stopping s' = stopping s.

Lemma keeps_refl R O s : ok R O s -> keeps R O s s.
Proof. by split. Qed.

Lemma keeps_trans R O s s' s'' : keeps R O s s' -> (ok R O s' -> stopping s' = stopping s -> keeps R O s' s'') -> keeps R O s s''.
Proof. intros [H1 H2] H3. destruct (H3 H1 H2) as [H4 H5]. split; [done|congruence]. Qed.

Lemma stopping_pieces i (s : Ws) : (forall k, stopping (clear_timer k i s) = stopping s) /\ (forall k d, stopping (set_timer k i d s) = stopping s) /\
  stopping (resolveReadyWaiters i s) = stopping s /\ (forall e, stopping (rejectReadyWaiters i e s) = stopping s) /\
  (forall e, stopping (rejectQueue i e s) = stopping s) /\ (forall c, stopping (onConnectionState i c s) = stopping s).
Proof.
  unfold clear_timer, set_timer, resolveReadyWaiters, rejectReadyWaiters, rejectQueue, onConnectionState, with_seed.
  destruct (seeds s !! i); split_and!; intros; rewrite ?settle_all_run; repeat case_match; done.
Qed.

Lemma calls_pieces i (s : Ws) : (forall k, ws_calls (clear_timer k i s) = ws_calls s) /\ (forall k d, ws_calls (set_timer k i d s) = ws_calls s).
Proof. unfold clear_timer, set_timer, with_seed. destruct (seeds s !! i); split; intros; repeat case_match; done. Qed.

Lemma ctx_pieces i (s : Ws) : (forall k, ws_ctx (clear_timer k i s) = ws_ctx s) /\ ws_ctx (resolveReadyWaiters i s) = ws_ctx s.
Proof.
  unfold clear_timer, resolveReadyWaiters, with_seed. destruct (seeds s !! i); split_and!; intros; rewrite ?settle_all_run; repeat case_match; done.
Qed.

Lemma pump_ok R O out s i : ok R O s -> R i = negb (stopping s) -> keeps R O s (pump lim out i s).
Proof.
  intros Ho HR. unfold pump, with_seed. destruct (seeds s !! i) as [st|] eqn:Ei; [|by apply keeps_refl].
  destruct (bool_decide (is_Some (sendTimer st)) || negb (isReady out st)) eqn:Eb; [by apply keeps_refl|]. apply orb_false_iff in Eb as [Et Er].
  apply negb_false_iff in Er. unfold isReady in Er. bool_split. destruct (socket st) as [sock|] eqn:Es; [|by apply keeps_refl].
  eapply pump_loop_ok; try done; [by apply ok_inv|by apply (proj2 Ho)|]. by destruct (sendTimer st); [destruct Et; eexists|].
Qed.

Lemma told_snoc a cs c : told a (cs ++ [c]) = told_step a c (told a cs).
Proof. unfold told. by rewrite foldl_app. Qed.

(** A seed that is down is dialled. *)
Lemma dial_inv R O out s i st : inv R O s i st -> in_mode O st Down -> reconnectTimer st = None -> delay_ok st -> stopping s = false -> R i = true ->
  keeps R O s (dial lim out i s).
Proof.
  intros Hv Hm Hr Hd Hstop HR. unfold keeps, dial. erewrite with_seed_run by done. destruct Hm as (Hs & Hn & Hx & Hq & Hc & Hh & Ht).
  rewrite Hstop, Hs, Hr. change (bool_decide (is_Some (@None nat))) with false. cbn [orb]. set (gen := generation st + 1).
  assert (H1 : inv R O (alter_seed i (set_generation gen) s) i (set_generation gen st)).
  { apply (inv_update R O s _ i st (set_generation gen) [] 0 []); rewrite ?app_nil_r, ?Nat.add_0_r; try done; try (right; by intros []); try apply Hv.
    - intros k Hk. cbn in Hk. congruence.
    - by intros [] ? ? ?.
    - set_solver. }
  set (s1 := count_attempt (alter_seed i (set_generation gen) s)). assert (H2 : inv R O s1 i (set_generation gen st)) by (eapply inv_same; [exact H1|try done..]; apply H1).
  pose proof (told_inv R O s1 i _ Connecting H2 ltac:(done)) as H3. assert (Es : stopping (onConnectionState i Connecting s1) = false) by (destruct (stopping_pieces i s1) as (_ & _ & _ & _ & _ & E); by rewrite E).
  assert (Ec : ws_calls (onConnectionState i Connecting s1) = ws_calls s ++ [OnConnectionState (addr st) Connecting]).
  { unfold onConnectionState. erewrite with_seed_run by done. destruct (gl_ctx _ _ (iv_glob _ _ _ _ _ H2) Hstop) as [id Hid]. by rewrite Hid. }
  set (s2 := onConnectionState i Connecting s1) in *. destruct (made out i) as [[]|e].
  - set (sock := length (listeners s2)). set (st3 := set_connection (Some sock) (nonce st) (remoteXOnly st) (set_generation gen st)).
    assert (H4 : inv R O (alter_seed i (set_connection (Some sock) (nonce st) (remoteXOnly st)) (ws_call (NewSocket (url st) sock) (set_listeners (listeners s2 ++ [(i, gen)]) s2))) i st3).
    { eapply (inv_update R O s2 _ i (set_generation gen st) (set_connection (Some sock) (nonce st) (remoteXOnly st)) [NewSocket (url st) sock] 0 [(i, gen)] H3); try done; try lia.
      - apply H3.
      - by left.
      - intros k [= <-]. cbn. unfold sock. rewrite lookup_app_r by lia. by rewrite Nat.sub_diag.
      - by rewrite app_nil_r.
      - by apply single_call.
      - intros c b t ->%list_elem_of_singleton Hne. cbn. by rewrite decide_False. }
    apply (inv_set _ _ _ _ _ ConnectTimer (connectTimeoutMs lim)) in H4; [|done].
    match goal with |- ok _ _ ?s' /\ _ => assert (E : ws_calls s' = (ws_calls s ++ [OnConnectionState (addr st) Connecting]) ++ [NewSocket (url st) sock] /\ stopping s' = false) end.
    { unfold set_timer, with_seed. cbn [alter_seed set_seeds seeds ws_call set_ws_calls set_listeners]. case_match; cbn; by rewrite Ec. }
    destruct E as [E ->]. split; [|done]. eapply inv_ok; [exact H4|]. rewrite E. exists (Dialled sock). split.
    { cbn. split_and!; try done. intros Hin. pose proof (gl_opened _ _ (iv_glob _ _ _ _ _ H3)) as Ho. rewrite Forall_forall in Ho. apply Ho in Hin. unfold sock in Hin. lia. }
    split. { cbn. rewrite !told_snoc. cbn. rewrite !decide_True by done. done. }
    split; [exact Hd|]. split; [cbn; rewrite Hq; change (0 <= maxSendQueue lim); lia|]. split; [cbn; by rewrite Hq|]. rewrite HR. split; [done|]. cbn. rewrite Hr. by intros [].
  - assert (Hok := connectionEnded_ok R O s2 i (set_generation gen st) e H3 Hd). rewrite Es in Hok. by apply Hok.
Qed.

(** A socket that no seed uses has been opened. *)
Lemma glob_open O s sock i g : glob O s -> listeners s !! sock = Some (i, g) -> glob (sock :: O) s.
Proof. intros [G1 G2 G3 G4 G5 G6 G7 G8] Hl. split; try done. constructor; [by eapply lookup_lt_Some|done]. Qed.

Lemma seed_ok_open run O calls st sock : seed_ok run O calls st -> socket st <> Some sock -> seed_ok run (sock :: O) calls st.
Proof.
  intros (m & Hm & Hr) Hne. exists m. split; [|done]. clear Hr. destruct m; cbn in Hm |- *; try done; destruct Hm as (Hk & Hin & Hm); (split; [done|]; split; [|done]); try set_solver.
Qed.

Lemma opened_ok O out i sock g s : let R := fun _ => negb (stopping s) in ok R O s -> (sock ∉ O) -> listeners s !! sock = Some (i, g) ->
  0 <= randomNonce out < 2 ^ 64 -> keeps R (sock :: O) s (opened lim out i sock g s).
Proof.
  intros R [Hg Hs] Hfresh Hl Hn. assert (Hsame : (forall st, seeds s !! i = Some st -> socket st <> Some sock) -> ok R (sock :: O) s).
  { intros Hne. split; [by eapply glob_open|]. intros j st Hj. apply seed_ok_open; [by eapply Hs|]. intros Hk. pose proof (gl_sockets _ _ Hg j st sock Hj Hk) as Hl'.
    assert (j = i) as -> by congruence. by eapply Hne. }
  unfold opened, with_seed. destruct (seeds s !! i) as [st|] eqn:Ei; [|apply keeps_refl, Hsame; by intros].
  destruct (isCurrent st sock g) eqn:Ec; cbn [negb]; unfold isCurrent in Ec.
  2:{ apply keeps_refl, Hsame. intros st' [= <-] Hk. pose proof (gl_sockets _ _ Hg i st sock Ei Hk) as Hl'. rewrite bool_decide_true in Ec by done.
      cbn in Ec. apply Z.eqb_neq in Ec. congruence. }
  apply andb_true_iff in Ec as [Hk Eg]. apply bool_decide_eq_true in Hk. apply Z.eqb_eq in Eg. subst g.
  pose proof (Hs i st Ei) as (m & Hm & Ht & Hd & Hlq & Hf & Hrun).
  assert (m = Dialled sock) as -> by (destruct m; cbn in Hm; [|f_equal|..]; destruct Hm as (Hk' & Hin & _); try congruence; exfalso; apply Hfresh; congruence).
  assert (Hv : inv R (sock :: O) s i st).
  { split; [by eapply glob_open|done|]. intros j st' Hne Hj. apply seed_ok_open; [by eapply Hs|]. intros Hk'. pose proof (gl_sockets _ _ Hg j st' sock Hj Hk') as Hl'. congruence. }
  apply (inv_clear _ _ _ _ _ ConnectTimer) in Hv. destruct (stopping_pieces i s) as (Es1 & _).
  assert (E1 : ws_calls (clear_timer ConnectTimer i s) = ws_calls s) by apply calls_pieces.
  set (s1 := clear_timer ConnectTimer i s) in *. specialize (Es1 ConnectTimer). fold s1 in Es1.
  rewrite (proj2 (checkedNonce_Ok _ _) (conj Hn eq_refl)).
  assert (H2 : inv R (sock :: O) (count_opened s1) i (set_timer_of ConnectTimer None st)) by (eapply inv_same; [exact Hv|try done..]; apply Hv).
  apply (connection_inv _ _ _ _ _ (socket st) (Some (randomNonce out)) (remoteXOnly st)) in H2; [|by right].
  set (s2 := alter_seed i _ (count_opened s1)) in *. assert (Es2 : stopping s2 = stopping s) by done. assert (E2 : ws_calls s2 = ws_calls s) by done.
  rewrite (proj2 (hint_request_layout _ _) (conj Hn eq_refl)). cbn [mbind result_bind].
  assert (Hrun' : stopping s = false). { change (R i) with (negb (stopping s)) in Hrun. destruct (stopping s); [|done]. by destruct Hrun as [? _]. }
  cbn in Hm. destruct Hm as (_ & _ & Hn0 & Hx & Hq & Hct & Hht & Hst).
  destruct (sending out 0) as [[]|e]; cbn [mbind result_bind].
  - assert (Hreq : decodeLocalKeyHint (x01 :: be64 (randomNonce out)) = Some (HintRequest (randomNonce out))) by (by apply request_decoded).
    assert (H3 : inv R (sock :: O) (ws_call (SocketSend sock (x01 :: be64 (randomNonce out))) s2) i
      (set_connection (socket st) (Some (randomNonce out)) (remoteXOnly st) (set_timer_of ConnectTimer None st))).
    { apply inv_call; [exact H2|cbn [call_ok]; rewrite Hreq, E2; by exists (addr st)|done|]. intros b t _ Hoth. cbn [told_step]. rewrite Hreq. destruct t as [| |k| |]; try done.
      rewrite decide_False; [done|]. intros ->. apply (Hoth sock); [done|exact Hk]. }
    apply (inv_set _ _ _ _ _ KeyHintTimer (keyHintTimeoutMs lim)) in H3; [|done].
    match goal with |- keeps _ _ _ ?s' => assert (E : ws_calls s' = ws_calls s ++ [SocketSend sock (x01 :: be64 (randomNonce out))] /\ stopping s' = stopping s) end.
    { split; [|by rewrite (proj1 (proj2 (stopping_pieces i _)))]. etrans; [apply calls_pieces|]. exact (f_equal (fun l => l ++ [SocketSend sock (x01 :: be64 (randomNonce out))]) E2). }
    destruct E as [E Est]. split; [|done]. eapply inv_ok; [exact H3|]. rewrite E.
    exists (Hinting sock (randomNonce out)). split; [cbn; rewrite Hk, Hx, Hq, Hst; split_and!; try done; set_solver|].
    split.
    { cbn [told_mode]. match goal with |- told ?a _ = _ /\ _ => change a with (addr st) end. change (told (addr st) (ws_calls s) = ToldDialled sock) in Ht.
      rewrite told_snoc, Ht. cbn [told_step]. rewrite Hreq, decide_True by done. split; [done|set_solver]. } split; [done|]. split; [done|]. split; [done|].
    change (R i) with (negb (stopping s)) in Hrun |- *. rewrite Hrun' in *. cbn in Hrun |- *. split; [done|]. by intros ?%Hrun.
  - apply (failSocket_inv _ _ s2 i _ e) in H2; [|done|by rewrite Es2|congruence]. destruct H2 as [H3 H4]. split; [exact H3|]. cbn [generation] in H4. by rewrite <- Es2, <- H4.
Qed.

Lemma message_ok R O i sock g data s : ok R O s -> keeps R O s (message i sock g data s).
Proof.
  intros Ho. unfold message, with_seed. destruct (seeds s !! i) as [st|] eqn:Ei; [|by apply keeps_refl]. case_match; [by apply keeps_refl|]. split; [|done].
  eapply inv_ok; [apply inv_alter; [by apply ok_inv|try done..]; by right|]. exact (proj2 Ho i st Ei).
Qed.

Lemma receive_begin_ok R O i s : ok R O s -> keeps R O s (receive_begin i s).
Proof.
  intros Ho. unfold receive_begin, with_seed. destruct (seeds s !! i) as [st|] eqn:Ei; [|by apply keeps_refl]. repeat case_match; try by apply keeps_refl.
  all: split; [|done]; eapply inv_ok; [apply inv_alter; [by apply ok_inv|try done..]; by right|]; exact (proj2 Ho i st Ei).
Qed.

Lemma errored_ok R O i sock g s : ok R O s -> R i = negb (stopping s) -> keeps R O s (errored lim i sock g s).
Proof.
  intros Ho HR. unfold errored, with_seed. destruct (seeds s !! i) as [st|] eqn:Ei; [|by apply keeps_refl]. case_match; [by apply keeps_refl|]. by apply failSocket_ok.
Qed.

Lemma closed_ok R O i sock g reason s : ok R O s -> R i = negb (stopping s) -> keeps R O s (closed_ lim i sock g reason s).
Proof.
  intros Ho HR. unfold closed_, with_seed. destruct (seeds s !! i) as [st|] eqn:Ei; [|by apply keeps_refl]. case_match; [by apply keeps_refl|]. by apply connectionEnded_all.
Qed.

(** The answer to the seed's own hint makes it ready. *)
Lemma hint_answered_ok O out i s st n pubkey : let R := fun _ => negb (stopping s) in ok R O s -> seeds s !! i = Some st ->
  nonce st = Some n -> remoteXOnly st = None -> keeps R O s (hint_answered lim out i pubkey s).
Proof.
  intros R Ho Ei Hn Hx. pose proof (proj2 Ho i st Ei) as (m & Hm & Ht & Hd & Hl & Hf & Hrun). pose proof (proj1 Ho) as Hg.
  assert (exists k, m = Hinting k n) as [k ->].
  { destruct m; cbn in Hm; [destruct Hm as (? & ? & _); congruence|destruct Hm as (? & ? & ? & _); congruence| |destruct Hm as (? & ? & ? & ? & _); congruence].
    destruct Hm as (_ & _ & Hn' & _). exists k. congruence. }
  change (R i) with (negb (stopping s)) in Hrun. assert (Hst : stopping s = false) by (destruct (stopping s); [by destruct Hrun as [? _]|done]). rewrite Hst in Hrun. cbn in Hrun.
  destruct (gl_ctx _ _ Hg Hst) as [id Hid]. cbn in Hm. destruct Hm as (Hk & Hin & Hn' & _ & Hq & Hct & Hht & Hsd). cbn in Ht. destruct Ht as [Ht Hsent].
  pose proof (ok_inv _ _ _ _ _ Ho Ei) as Hv. unfold hint_answered. erewrite with_seed_run by done.
  apply (inv_clear _ _ _ _ _ KeyHintTimer) in Hv. set (s1 := clear_timer KeyHintTimer i s) in *.
  assert (C1 : ws_calls s1 = ws_calls s) by apply calls_pieces. assert (S1 : stopping s1 = stopping s) by apply stopping_pieces.
  assert (X1 : ws_ctx s1 = Some id) by (rewrite <- Hid; apply ctx_pieces).
  set (f := fun st : SeedState => set_delay (reconnectInitialMs lim) (set_connection (socket st) (nonce st) (Some pubkey) st)).
  apply (inv_alter _ _ _ _ _ f) in Hv; try done; [|by right]. set (s2 := alter_seed i f s1) in *.
  apply resolve_inv in Hv. set (s3 := resolveReadyWaiters i s2) in *. assert (S3 : stopping s3 = stopping s) by (etrans; [apply stopping_pieces|done]).
  assert (X3 : ws_ctx s3 = Some id) by (etrans; [apply ctx_pieces|done]).
  assert (C3 : exists ps, ws_calls s3 = ws_calls s ++ map (fun p => Settle p (Ok tt)) ps).
  { unfold s3, resolveReadyWaiters, with_seed. destruct (seeds s2 !! i) as [st'|]; [|exists []; by rewrite app_nil_r]. exists (readyWaiters st'). rewrite settle_all_run.
    exact (f_equal (fun l => l ++ map (fun p => Settle p (Ok tt)) (readyWaiters st')) C1). }
  destruct C3 as (ps & C3). assert (T3 : told (addr st) (ws_calls s3) = ToldHinted k n).
  { rewrite C3, told_silent; [done|]. by intros c (? & -> & _)%list_elem_of_fmap. }
  pose proof (told_inv R O s3 i _ Connected Hv (fun _ => ex_intro _ k (ex_intro _ n T3))) as H4. set (s4 := onConnectionState i Connected s3) in *.
  assert (S4 : stopping s4 = stopping s) by (etrans; [apply stopping_pieces|done]).
  assert (C4 : ws_calls s4 = ws_calls s3 ++ [OnConnectionState (addr st) Connected]).
  { unfold s4, onConnectionState. erewrite with_seed_run by exact Hv. rewrite X3. done. }
  set (st4 := set_waiters [] _) in *. set (s5 := push_discovery (addr st) pubkey s4).
  assert (H5 : inv R O s5 i st4 /\ stopping s5 = stopping s /\ ws_calls s5 = ws_calls s4).
  { unfold s5, push_discovery. case_match; [|done]. split; [|done]. eapply inv_same; [exact H4|try done..]. apply H4. }
  destruct H5 as (H5 & S5 & C5). eapply (keeps_trans R O s s5); [split; [|exact S5]|intros Ho5 E5; apply (pump_ok R O out s5 i); [done|by rewrite E5]].
  eapply inv_ok; [exact H5|]. rewrite C5, C4. exists (Ready k n pubkey). split; [cbn; rewrite Hk, Hn; by split_and!|].
  split; [cbn; change (addr st4) with (addr st); rewrite told_snoc, T3; cbn; rewrite !decide_True by done; split; [done|]; rewrite C3; set_solver|].
  split; [cbn; lia|]. split; [exact Hl|]. split; [exact Hf|]. change (R i) with (negb (stopping s)). rewrite Hst. cbn.
  split; [done|]. by intros ?%Hrun.
Qed.

Lemma receive_ok O out i sock g data s : let R := fun _ => negb (stopping s) in ok R O s -> keeps R O s (snd (receive lim out i sock g data s)).
Proof.
  intros R Ho. unfold receive. destruct (binaryMessage data) as [wire|e]; [|by apply keeps_refl]. rewrite (ST_lift_bind _ wire), ST_get_bind by done.
  destruct (seeds s !! i) as [st|] eqn:Ei; [|by apply keeps_refl]. destruct (isCurrent st sock g) eqn:Ecur; [|by apply keeps_refl]. cbn [negb].
  apply andb_true_iff in Ecur as [Ecur _]. apply bool_decide_eq_true in Ecur.
  pose proof (ok_inv _ _ _ _ _ Ho Ei) as Hv. pose proof (proj2 Ho i st Ei) as Hseed.
  destruct (decodeLocalKeyHint wire) as [[n|n pubkey]|].
  - destruct (ws_ctx s) as [local|]; [|by apply keeps_refl]. destruct (encodeLocalKeyHintResponse n (xOnlyPubkey local)) as [response|e] eqn:Er; [|by apply keeps_refl].
    rewrite (ST_lift_bind _ response) by done. destruct (sending out 0) as [[]|e]; [|by apply keeps_refl]. rewrite (ST_lift_bind _ tt) by done. split; [|done].
    cbn [modify snd]. apply response_read in Er. eapply inv_ok; [apply inv_call; [exact Hv| |done|intros b t _ _; cbn; by rewrite Er]|].
    + cbn. rewrite Er. exists (addr st). destruct Hseed as (m & Hm & Ht & _). eapply told_mode_socket; [exact Ht|]. by rewrite <- (in_mode_socket _ _ _ Hm).
    + apply seed_ok_silent; [done|]. intros c t ->%list_elem_of_singleton. cbn. by rewrite Er.
  - destruct (negb (bool_decide (nonce st = Some n)) || bool_decide (is_Some (remoteXOnly st))) eqn:Eb; [by apply keeps_refl|]. bool_split.
    destruct (ws_ctx s) as [local|]; [|by apply keeps_refl]. unfold throw_when. destruct (bool_decide (toHex pubkey = _)); [by apply keeps_refl|].
    destruct (negb (allowPeer out pubkey)); [by apply keeps_refl|]. cbn. eapply hint_answered_ok; [done|done|eassumption|]. by destruct (remoteXOnly st); [destruct H1; eexists|].
  - unfold throw_when. destruct (bool_decide (is_Some (remoteXOnly st))) eqn:Ex; [|by apply keeps_refl]. cbn [negb].
    destruct (validateFipsRecord wire (maxFrameBytes lim)) as [[]|e] eqn:Ev; cbn [is_ok].
    2:{ split; [|done]. eapply inv_ok; [|exact Hseed]. eapply inv_same; [exact Hv|try done..]. apply Hv. }
    match goal with |- keeps _ _ _ (snd ?x) => change x with ((modify (count_received (len wire));; match ws_ctx s with Some _ => modify (ws_call (OnPacket (addr st) wire)) | None => mret tt end) s) end.
    assert (H2 : inv R O (count_received (len wire) s) i st) by (eapply inv_same; [exact Hv|try done..]; apply Hv). rewrite ST_modify_bind. destruct (ws_ctx s); [|by split; [eapply inv_ok|]].
    split; [|done]. cbn [modify snd]. eapply inv_ok; [apply inv_call; [exact H2| |done|done]|].
    + cbn. split; [|done]. destruct Hseed as (m & Hm & Ht & _). apply bool_decide_eq_true in Ex as [x Ex].
      destruct m; cbn in Hm; [destruct Hm as (_ & _ & ? & _); congruence|destruct Hm as (_ & _ & _ & ? & _); congruence..|]. exists k. apply Ht.
    + apply seed_ok_silent; [done|]. by intros c t ->%list_elem_of_singleton.
Qed.

Lemma receive_end_ok O out i s : let R := fun _ => negb (stopping s) in ok R O s -> keeps R O s (receive_end lim out i s).
Proof.
  intros R Ho. unfold receive_end, with_seed. destruct (seeds s !! i) as [st|] eqn:Ei; [|by apply keeps_refl]. destruct (receiving st) as [[[sock g] data]|]; [|by apply keeps_refl].
  assert (H1 : ok R O (alter_seed i (set_receiving (receiveChain st) None) s)).
  { eapply inv_ok; [apply inv_alter; [by apply ok_inv|try done..]; by right|]. exact (proj2 Ho i st Ei). }
  pose proof (receive_ok O out i sock g data _ H1) as [H2 H3]. destruct (receive lim out i sock g data _) as [[[]|e] s'] eqn:E; cbn [snd] in *; [by split|].
  eapply keeps_trans; [split; [exact H2|exact H3]|]. intros H4 E4. apply failSocket_ok; [done|]. by rewrite E4.
Qed.

(** A timer that has gone off is not running; the end of its connection would
    have stopped it anyway. *)
Definition stop_timer (o : option nat) (ts : gmap nat WsTimer) : gmap nat WsTimer := match o with Some t => delete t ts | None => ts end.

Lemma stop_timer_lookup o ts u : stop_timer o ts !! u = if decide (o = Some u) then None else ts !! u.
Proof.
  destruct o as [t|]; cbn; [|done]. destruct (decide (t = u)) as [->|Hne]; [by rewrite lookup_delete_eq, decide_True|].
  rewrite lookup_delete_ne by done. rewrite decide_False; [done|congruence].
Qed.

Lemma clear_timer_run k i s st : seeds s !! i = Some st ->
  clear_timer k i s = alter_seed i (set_timer_of k None) (set_ws_timers (stop_timer (timer_of k st) (ws_timers s)) (nextTimer s) s).
Proof. intros Hi. unfold clear_timer, with_seed. rewrite Hi. destruct (timer_of k st); [done|]. by destruct s. Qed.

Lemma clearConnectionTimers_run i s st : seeds s !! i = Some st -> clearConnectionTimers i s =
  alter_seed i unconnected (set_ws_timers (stop_timer (sendTimer st) (stop_timer (keyHintTimer st) (stop_timer (connectTimer st) (ws_timers s)))) (nextTimer s) s).
Proof.
  intros Hi. unfold clearConnectionTimers. rewrite (clear_timer_run ConnectTimer i s st) by done. rewrite (clear_timer_run KeyHintTimer _ _ (set_connectTimer None st)).
  2:{ cbn [alter_seed set_seeds set_ws_timers seeds]. by rewrite list_lookup_alter_eq, Hi. }
  rewrite (clear_timer_run SendTimer _ _ (set_keyHintTimer None (set_connectTimer None st))).
  2:{ cbn [alter_seed set_seeds set_ws_timers seeds]. by rewrite !list_lookup_alter_eq, Hi. }
  unfold alter_seed, set_seeds, set_ws_timers. cbn [seeds ws_ctx stopping counters ws_streams discoveries ws_timers nextTimer listeners nextPromise ws_calls]. f_equal.
  by rewrite !alter_alter.
Qed.

Lemma failSocket_fired i k t g e s st : seeds s !! i = Some st -> timer_of k st = Some t -> k = ConnectTimer \/ k = KeyHintTimer -> g = generation st ->
  failSocket lim i g e (set_ws_timers (delete t (ws_timers s)) (nextTimer s) s) = failSocket lim i g e s.
Proof.
  intros Hi Ht Hk ->. unfold failSocket, with_seed. cbn [seeds set_ws_timers]. rewrite Hi, Z.eqb_refl. cbn [negb].
  assert (E : forall s', seeds s' = seeds s -> ws_timers s' = ws_timers s ->
    connectionEnded lim i (generation st) e (set_ws_timers (delete t (ws_timers s')) (nextTimer s') s') = connectionEnded lim i (generation st) e s').
  { intros s' E1 E2. unfold connectionEnded, with_seed. cbn [seeds set_ws_timers]. rewrite E1, Hi, Z.eqb_refl. cbn [negb].
    assert (Ec : clearConnectionTimers i (set_ws_timers (delete t (ws_timers s')) (nextTimer s') s') = clearConnectionTimers i s').
    { rewrite !(clearConnectionTimers_run _ _ st) by (cbn [seeds set_ws_timers]; by rewrite E1). f_equal. unfold set_ws_timers. cbn. f_equal.
      apply map_eq. intros u. rewrite !stop_timer_lookup. change (delete t (ws_timers s')) with (stop_timer (Some t) (ws_timers s')). rewrite !stop_timer_lookup.
      repeat case_decide; try done. exfalso. destruct Hk as [-> | ->]; cbn in Ht; congruence. }
    by rewrite Ec. }
  destruct (socket st) as [sock|]; [|by apply E]. by apply (E (ws_call (SocketClose sock 1002) s)).
Qed.

Lemma fire_ok O out t s : let R := fun _ => negb (stopping s) in ok R O s -> keeps R O s (fire lim out t s).
Proof.
  intros R Ho. unfold fire. destruct (ws_timers s !! t) as [tm|] eqn:Et; [|by apply keeps_refl].
  destruct (gl_timers _ _ (proj1 Ho) t tm Et) as (_ & st & Hi & Hk & Hg). set (i := tm_seed tm) in *.
  pose proof (proj2 Ho i st Hi) as Hseed. pose proof (ok_inv _ _ _ _ _ Ho Hi) as Hv.
  assert (Eclear : forall k, tm_kind tm = k -> alter_seed i (set_timer_of k None) (set_ws_timers (delete t (ws_timers s)) (nextTimer s) s) = clear_timer k i s).
  { intros k Ek. rewrite Ek in Hk. by rewrite (clear_timer_run _ _ _ st), Hk. }
  destruct (tm_kind tm) eqn:Ek.
  - rewrite (failSocket_fired i ConnectTimer t _ _ s st) by auto. by apply failSocket_ok.
  - rewrite (failSocket_fired i KeyHintTimer t _ _ s st) by auto. by apply failSocket_ok.
  - change (alter_seed i (set_sendTimer None)) with (alter_seed i (set_timer_of SendTimer None)). rewrite Eclear by done.
    assert (S1 : stopping (clear_timer SendTimer i s) = stopping s) by apply stopping_pieces.
    eapply (keeps_trans R O s (clear_timer SendTimer i s)); [split; [|done]|intros Ho' E'; apply pump_ok; [done|by rewrite E']].
    eapply inv_ok; [by apply inv_clear|]. rewrite (proj1 (calls_pieces i s)). destruct Hseed as (m & Hm & Hrest). exists m. split; [|exact Hrest].
    destruct m; cbn in Hm |- *; naive_solver.
  - change (alter_seed i (set_reconnectTimer None)) with (alter_seed i (set_timer_of ReconnectTimer None)). rewrite Eclear by done.
    assert (S1 : stopping (clear_timer ReconnectTimer i s) = stopping s) by apply stopping_pieces. pose proof Hseed as (m & Hm & _ & Hd & _ & _ & Hrun).
    change (R i) with (negb (stopping s)) in Hrun. cbn in Hk. destruct (stopping s) eqn:Es; cbn in Hrun; [destruct Hrun as (_ & ? & _); congruence|].
    assert (m = Down) as -> by (apply Hrun; by eexists). eapply (inv_clear _ _ _ _ _ ReconnectTimer) in Hv.
    destruct (dial_inv R O out _ _ _ Hv Hm eq_refl Hd S1 eq_refl) as [H1 H2]. split; [exact H1|]. rewrite H2, S1. by rewrite Es.
Qed.

(** *** The methods *)

Lemma ST_ret_bind {S B} (f : unit -> ST S B) s : (mret tt ≫= f) s = f tt s.
Proof. done. Qed.

Lemma ok_ext R R' O s : ok R O s -> (forall j, (j < length urls)%nat -> R j = R' j) -> ok R' O s.
Proof.
  intros [Hg Hs] HR. split; [done|]. intros j st Hj. rewrite <- HR; [eauto|]. apply lookup_lt_Some in Hj.
  destruct (gl_urls _ _ Hg) as [E _]. by rewrite <- E, length_map.
Qed.

Lemma stateFor_inv a s r s' : stateFor URL a s = (r, s') -> s' = s /\ forall i, r = Ok i -> is_Some (seeds s !! i).
Proof.
  unfold stateFor, throw_when. destruct (negb _); [by intros [= <- <-]|]. destruct (normalizeSeedUrl URL (ta_addr a)) as [u|]; [|by intros [= <- <-]].
  rewrite ST_ret_bind. unfold mbind, ST_bind, mret, ST_ret, lift, get. cbn.
  assert (Hidx : forall l i, seed_index u l = Some i -> is_Some (l !! i)).
  { induction l as [|st l IH]; intros i; cbn; [done|]. case_decide; [intros [= <-]; by eexists|]. destruct (seed_index u l) eqn:E; [|done]. intros [= <-]. by apply IH. }
  destruct (seed_index u (seeds s)) eqn:E; intros [= <- <-]; (split; [done|]); [|done]. intros j [= <-]. by apply Hidx.
Qed.

(** A new promise waits with a seed. *)
Lemma new_promise_inv R O s i st f : inv R O s i st -> url (f st) = url st -> (forall k, timer_of k (f st) = timer_of k st) ->
  generation (f st) = generation st -> socket (f st) = socket st -> kept (f st) ≡ₚ kept st ++ [nextPromise s] ->
  inv R O (alter_seed i f (set_nextPromise (S (nextPromise s)) s)) i (f st).
Proof.
  intros Hv Hu Ht Hg Hs Hk. pose proof Hv as [[? ? G3 ? ? ? ? G8] Hi _].
  apply (inv_update R O s _ i st f [] 1 []); rewrite ?app_nil_r; try done; try auto.
  - cbn. lia.
  - intros k Hsk. rewrite Hs in Hsk. rewrite Hg. exact (G3 i st k Hi Hsk).
  - by intros [] ? ? ?.
  - set_solver.
Qed.

Lemma connect_ok O out a s : let R := fun _ => negb (stopping s) in ok R O s -> keeps R O s (snd (connect URL lim out a s)).
Proof.
  intros R Ho. unfold connect. rewrite ST_get_bind. unfold throw_when. destruct (stopping s) eqn:Es; [by apply keeps_refl|].
  rewrite ST_ret_bind. unfold mbind at 1, ST_bind at 1. destruct (stateFor URL a s) as [[i|e] s'] eqn:E; apply stateFor_inv in E as [-> Hi]; [|by apply keeps_refl].
  destruct (seeds s !! i) as [st|] eqn:Ei; [|by apply keeps_refl]. destruct (isReady out st); [by apply keeps_refl|].
  pose proof (proj2 Ho i st Ei) as Hseed. assert (Hno : negb (bool_decide (is_Some (socket st))) && negb (bool_decide (is_Some (reconnectTimer st))) = false).
  { destruct Hseed as (m & Hm & _ & _ & _ & _ & Hrun). cbn in Hrun. apply andb_false_iff. destruct m; [right|left..].
    - by rewrite bool_decide_true by (by apply Hrun).
    - destruct Hm as [-> _]. done.
    - destruct Hm as [-> _]. done.
    - destruct Hm as [-> _]. done. }
  rewrite Hno. cbn. split; [|done].
  pose proof (new_promise_inv R O s i st (set_waiters (readyWaiters st ++ [nextPromise s])) (ok_inv _ _ _ _ _ Ho Ei) eq_refl ltac:(done) eq_refl eq_refl) as Hv.
  eapply inv_ok; [apply Hv; unfold kept; cbn; rewrite <- !app_assoc; f_equiv; apply Permutation_app_comm|].
  destruct Hseed as (m & Hm & Ht & Hd & Hl & Hf & Hrun). exists m. split; [by destruct m|]. split; [done|]. split; [done|]. split; [done|]. split; [done|]. exact Hrun.
Qed.

Lemma send_ok O out a packet s : let R := fun _ => negb (stopping s) in ok R O s -> keeps R O s (snd (send URL lim out a packet s)).
Proof.
  intros R Ho. unfold send, throw_when. unfold mbind at 1, ST_bind at 1. destruct (stateFor URL a s) as [[i|e] s'] eqn:E; apply stateFor_inv in E as [-> Hi]; [|by apply keeps_refl].
  destruct (validateFipsRecord packet (maxFrameBytes lim)) as [[]|e] eqn:Ev; [|by apply keeps_refl]. rewrite (ST_lift_bind _ tt) by done.
  destruct (len packet >? maxBufferedBytes lim); [by apply keeps_refl|]. rewrite ST_ret_bind. cbv beta. rewrite ST_get_bind.
  destruct (seeds s !! i) as [st|] eqn:Ei; [|by apply keeps_refl]. destruct (isReady out st) eqn:Er; [|by apply keeps_refl]. cbn [negb].
  rewrite ST_ret_bind. cbv beta. destruct (len (queue st) >=? maxSendQueue lim) eqn:El.
  { split; [|done]. cbn. pose proof (ok_inv _ _ _ _ _ Ho Ei) as Hv. eapply inv_ok; [|exact (proj2 Ho i st Ei)]. eapply inv_same; [exact Hv|try done..]. apply Hv. }
  rewrite Z.geb_leb in El. apply Z.leb_gt in El.
  set (s1 := alter_seed i (set_queue (queue st ++ [(packet, nextPromise s)])) (set_nextPromise (S (nextPromise s)) s)). change (keeps R O s (pump lim out i s1)).
  assert (H1 : ok R O s1).
  { pose proof (new_promise_inv R O s i st (set_queue (queue st ++ [(packet, nextPromise s)])) (ok_inv _ _ _ _ _ Ho Ei) eq_refl ltac:(done) eq_refl eq_refl) as Hv.
    eapply inv_ok; [apply Hv; unfold kept; cbn; by rewrite map_app, app_assoc|].
    destruct (proj2 Ho i st Ei) as (m & Hm & Ht & Hd & Hl & Hf & Hrun). unfold isReady in Er. bool_split.
    assert (Hr : is_Some (remoteXOnly st)) by done. destruct Hr as [x Hx].
    assert (exists k n y, m = Ready k n y) as (k & n & y & ->) by (destruct m; cbn in Hm; [destruct Hm as (_ & _ & ? & _); congruence|destruct Hm as (_ & _ & _ & ? & _); congruence..|by repeat eexists]).
    exists (Ready k n y). split; [done|]. split; [done|]. split; [done|]. split; [cbn; rewrite len_app; change (len [(packet, nextPromise s)]) with 1; lia|].
    split; [|done]. cbn. apply Forall_app. split; [done|]. by constructor. }
  eapply (keeps_trans R O s s1); [by split|]. intros _ E1. by apply pump_ok.
Qed.

(** *** Start and stop, seed by seed *)

Lemma ok_agree R R' O s : ok R O s -> (forall j, is_Some (seeds s !! j) -> R j = R' j) -> ok R' O s.
Proof. intros [Hg Hs] HR. split; [done|]. intros j st Hj. rewrite <- HR; eauto. Qed.

Lemma dial_all_ok out O n k s : ok (fun j => bool_decide (j < k)%nat) O s -> stopping s = false ->
  let s' := foldl (fun s i => dial lim out i s) s (seq k n) in ok (fun j => bool_decide (j < k + n)%nat) O s' /\ stopping s' = false.
Proof.
  revert k s. induction n as [|n IH]; intros k s Ho Hs; [cbn; by rewrite Nat.add_0_r|]. cbn [seq foldl]. rewrite Nat.add_succ_r, <- Nat.add_succ_l.
  assert (H1 : ok (fun j => bool_decide (j < S k)%nat) O (dial lim out k s) /\ stopping (dial lim out k s) = false); [|by destruct H1; apply IH].
  destruct (seeds s !! k) as [st|] eqn:Ek.
  - pose proof (proj2 Ho k st Ek) as Hseed. cbv beta in Hseed. rewrite bool_decide_false in Hseed by lia. destruct Hseed as (m & Hm & _ & Hd & _ & _ & -> & Hr & _).
    assert (Hv : inv (fun j => bool_decide (j < S k)%nat) O s k st).
    { split; [apply Ho|done|]. intros j st' Hne Hj. pose proof (proj2 Ho j st' Hj) as Hj'. cbn in Hj'. by rewrite (bool_decide_ext (j < S k)%nat (j < k)%nat) by lia. }
    destruct (dial_inv _ O out s k st Hv Hm Hr Hd Hs) as [H1 H2]; [by apply bool_decide_true; lia|]. split; [done|congruence].
  - unfold dial, with_seed. rewrite Ek. split; [|done]. eapply ok_agree; [exact Ho|]. intros j [st Hj]. apply bool_decide_ext. split; [lia|]. intros Hlt.
    destruct (decide (j = k)) as [->|]; [congruence|lia].
Qed.

Lemma start_ok O out local s : ok (fun _ => negb (stopping s)) O s -> let s' := start lim out local s in ok (fun _ => negb (stopping s')) O s'.
Proof.
  intros Ho. cbv zeta. unfold start. destruct (stopping s) eqn:Es; cbn [negb]; [|by rewrite Es].
  set (s1 := set_discoveries _ _ _). assert (H1 : ok (fun j => bool_decide (j < 0)%nat) O s1).
  { destruct Ho as [[G1 G2 G3 G4 G5 G6 G7 G8] Hs]. split; [by split|]. intros j st Hj. rewrite bool_decide_false by lia. exact (Hs j st Hj). }
  change (length (seeds (set_running (Some local) false s))) with (length (seeds s)). change (length (seeds s1)) with (length (seeds s)).
  destruct (dial_all_ok out O (length (seeds s)) 0 s1 H1 eq_refl) as [H2 H3]. cbn zeta in H3. rewrite H3. eapply ok_ext; [exact H2|].
  intros j Hj. destruct (gl_urls _ _ (proj1 Ho)) as [E _]. rewrite <- E, length_map in Hj. by rewrite bool_decide_true by lia.
Qed.

Lemma stop_seed_ok R O s i : ok R O s -> stopping s = true ->
  ok (fun j => if decide (j = i) then false else R j) O (stop_seed i s) /\ stopping (stop_seed i s) = true.
Proof.
  intros Ho Hstop. set (R' := fun j => _). destruct (seeds s !! i) as [st|] eqn:Ei.
  2:{ assert (E : stop_seed i s = s).
      { unfold stop_seed, clearTimers, clearConnectionTimers, clear_timer, rejectReadyWaiters, rejectQueue, with_seed. by repeat (rewrite Ei; cbn [seeds]). }
      rewrite E. split; [|done]. eapply ok_agree; [exact Ho|]. intros j [st Hj]. unfold R'. case_decide; [subst; congruence|done]. }
  assert (Hv : inv R' O s i st).
  { split; [apply Ho|done|]. intros j st' Hne Hj. unfold R'. rewrite decide_False by done. by apply (proj2 Ho). }
  pose proof (proj2 Ho i st Ei) as (m & Hm & _ & Hd & _). unfold stop_seed, clearTimers.
  apply clearConnectionTimers_inv, (inv_clear _ _ _ _ _ ReconnectTimer) in Hv. set (s1 := clear_timer _ _ _) in *.
  assert (S1 : stopping s1 = true) by (unfold s1, clearConnectionTimers; rewrite !(proj1 (stopping_pieces _ _)); done).
  apply (reject_inv _ _ _ _ _ (Error "WebSocket transport stopped")) in Hv. set (s2 := rejectReadyWaiters _ _ s1) in *.
  assert (S2 : stopping s2 = true) by (rewrite <- S1; apply stopping_pieces).
  apply (rejectQueue_inv _ _ _ _ _ (Error "WebSocket transport stopped")) in Hv. set (s3 := rejectQueue _ _ s2) in *.
  assert (S3 : stopping s3 = true) by (rewrite <- S2; apply stopping_pieces).
  erewrite with_seed_run by exact Hv. pose proof (connection_inv _ _ _ _ _ None None None Hv ltac:(by left)) as H4.
  match type of H4 with inv _ _ ?x _ ?y => set (s4 := x) in *; set (st4 := y) in * end. assert (S4 : stopping s4 = true) by exact S3.
  assert (Hend : forall s5, inv R' O s5 i st4 -> ok R' O s5).
  { intros s5 H5. eapply inv_ok; [exact H5|]. exists Down. split; [done|]. split; [done|]. split; [exact Hd|]. split; [change (0 <= maxSendQueue lim); lia|]. split; [done|].
    unfold R'. by rewrite decide_True. }
  match goal with |- context [match socket ?x with _ => _ end] => destruct (socket x) end; (split; [|done]); [|by apply Hend]. apply Hend, inv_call; done.
Qed.

Lemma stop_all_ok O n k s : ok (fun j => negb (bool_decide (j < k)%nat)) O s -> stopping s = true ->
  let s' := foldl (fun s i => stop_seed i s) s (seq k n) in ok (fun j => negb (bool_decide (j < k + n)%nat)) O s' /\ stopping s' = true.
Proof.
  revert k s. induction n as [|n IH]; intros k s Ho Hs; [cbn; by rewrite Nat.add_0_r|]. cbn [seq foldl]. rewrite Nat.add_succ_r, <- Nat.add_succ_l.
  destruct (stop_seed_ok _ O s k Ho Hs) as [H1 H2]. apply IH; [|done]. eapply ok_agree; [exact H1|]. intros j _. cbn.
  case_decide; [subst; by rewrite bool_decide_true by lia|]. f_equal. apply bool_decide_ext. lia.
Qed.

Lemma stop_ok O s : ok (fun _ => negb (stopping s)) O s -> let s' := stop s in ok (fun _ => negb (stopping s')) O s'.
Proof.
  intros Ho. cbv zeta. unfold stop. destruct (stopping s) eqn:Es; [by rewrite Es|]. set (s1 := set_running (ws_ctx s) true s).
  assert (H1 : ok (fun j => negb (bool_decide (j < 0)%nat)) O s1).
  { destruct Ho as [[G1 G2 G3 G4 G5 G6 G7 G8] Hs]. split; [by split|]. intros j st Hj. rewrite bool_decide_false by lia. exact (Hs j st Hj). }
  destruct (stop_all_ok O (length (seeds s1)) 0 s1 H1 eq_refl) as [H2 H3]. set (s2 := foldl _ s1 _) in *.
  cbn [negb stopping set_running]. destruct (gl_urls _ _ (proj1 Ho)) as [E _]. change (seeds s1) with (seeds s) in H2. 
  assert (H4 : ok (fun _ => false) O s2).
  { eapply ok_ext; [exact H2|]. intros j Hj. rewrite <- E, length_map in Hj. cbv beta. by rewrite bool_decide_true by lia. }
  destruct H4 as [[G1 G2 G3 G4 G5 G6 G7 G8] Hs]. by split; [split|].
Qed.

(** *** Every run *)

Definition sound (x : Ws * list nat) : Prop := ok (fun _ => negb (stopping (fst x))) (snd x) (fst x).

Lemma keeps_sound O' s s' : keeps (fun _ => negb (stopping s)) O' s s' -> sound (s', O').
Proof. intros [H1 H2]. unfold sound. cbn. by rewrite H2. Qed.

Lemma ws_step_sound x y : sound x -> ws_step x y -> sound y.
Proof.
  intros Hx Hxy. destruct Hxy; unfold sound in Hx; cbn [fst snd] in Hx.
  - by apply start_ok.
  - by apply stop_ok.
  - by eapply keeps_sound, connect_ok.
  - by eapply keeps_sound, send_ok.
  - eapply keeps_sound, opened_ok; try done. match goal with E : randomNonce out = _ |- _ => rewrite E end. by apply of_be64_range.
  - by eapply keeps_sound, message_ok.
  - by eapply keeps_sound, errored_ok.
  - by eapply keeps_sound, closed_ok.
  - by eapply keeps_sound, receive_begin_ok.
  - by eapply keeps_sound, receive_end_ok.
  - by eapply keeps_sound, fire_ok.
Qed.
End Runs.
