(* ===== verification/WebSocketSafety.v ===== *)
(** * What the WebSocket carrier promises

    The theorems on all runs of the carrier of [WebSocket], read off the invariant
    of [WebSocketRuns]: seeds, promises, the order of its calls, and the identities
    of its peers. *)

From S2P Require Import Prelude Codec Crypto Toy NodeAddr Identity FmpWire FspWire DirectTransport Peers Admission Ethernet WebSocket WebSocketRuns.

(** ** From the constructor on *)

Lemma integerInRange_Ok v min max r : integerInRange v min max = Ok r <-> min <= v <= max /\ r = v.
Proof.
  unfold integerInRange. rewrite guard_Ok, orb_false_iff, Z.gtb_ltb, !Z.ltb_ge. split; [intros [? [= <-]]; split; [lia|done]|intros [? ->]; split; [lia|done]].
Qed.

Lemma new_limits_ok c l : new_limits c = Ok l -> 1 <= reconnectInitialMs l <= reconnectMaxMs l /\ 1 <= maxSendQueue l.
Proof.
  unfold new_limits, positiveInteger. intros H. result_inv. repeat match goal with E : integerInRange _ _ _ = Ok _ |- _ => apply integerInRange_Ok in E as [? ->] end.
  cbn. lia.
Qed.

Lemma new_seeds_down l us i st : map (new_seed l) us !! i = Some st -> exists u, us !! i = Some u /\ st = new_seed l u.
Proof. rewrite list_lookup_fmap. destruct (us !! i); [|done]. intros [= <-]. by eexists. Qed.

Lemma new_websocket_ok `{Noble} URL c lim s0 : new_websocket URL c = Ok (lim, s0) ->
  (1 <= reconnectInitialMs lim <= reconnectMaxMs lim /\ 1 <= maxSendQueue lim) /\ sound lim (map url (seeds s0)) (s0, []).
Proof.
  unfold new_websocket. intros Hn. apply result_bind_ok in Hn as (l & Hl & Hn). apply guard_Ok in Hn as [_ Hn]. apply guard_Ok in Hn as [_ Hn].
  apply result_bind_ok in Hn as (us & _ & Hn). apply guard_Ok in Hn as [Hd [= <- <-]]. apply negb_false_iff, bool_decide_eq_true in Hd.
  pose proof (new_limits_ok c l Hl) as Hlim. split; [done|]. unfold sound. cbn [fst snd stopping seeds negb].
  assert (Hu : map url (map (new_seed l) us) = us) by (rewrite map_map; apply map_id). rewrite Hu. split; [split|]; cbn [ws_timers nextTimer seeds listeners ws_calls nextPromise stopping ws_ctx].
  - intros t tm Ht. by rewrite lookup_empty in Ht.
  - intros i st k t (u & _ & ->)%new_seeds_down. by destruct k.
  - intros i st k (u & _ & ->)%new_seeds_down. done.
  - constructor.
  - cbn. clear. induction us as [|u us IH]; [done|exact IH].
  - by intros [] ? ? ?.
  - by rewrite Hu.
  - done.
  - intros j st (u & _ & ->)%new_seeds_down. exists Down. split; [done|]. split; [done|]. split; [cbn; lia|]. split; [change (0 <= maxSendQueue l); lia|]. by split.
Qed.

Lemma run_sound `{Noble} URL c lim s0 s O : new_websocket URL c = Ok (lim, s0) -> rtc (ws_step URL lim) (s0, []) (s, O) ->
  (1 <= reconnectInitialMs lim <= reconnectMaxMs lim /\ 1 <= maxSendQueue lim) /\ sound lim (map url (seeds s0)) (s, O).
Proof.
  intros [Hl Hs]%new_websocket_ok Hr. split; [done|]. revert Hs Hr. apply rtc_invariant. intros x y. by apply ws_step_sound.
Qed.

(** C31: a seed is never lost. Whatever is called and whatever sockets and timers
    do, in any order, the configured seeds stay, and each is in exactly one mode:
    down, dialled, waiting for its hint, or ready. A seed of a running carrier that
    is down has a reconnection under way, and only then; its delay stays between the
    configured bounds, its queue within the configured length; a dialled seed has a
    running timeout until it opens, and then one until the hint is answered; the
    nonces are drawn from eight random bytes, as without a hook for them. The
    timers that run are exactly those the seeds know; a stopped carrier has none. *)
Theorem websocket_seeds_kept `{Noble} URL c lim s0 s O : new_websocket URL c = Ok (lim, s0) -> rtc (ws_step URL lim) (s0, []) (s, O) ->
  map url (seeds s) = map url (seeds s0) /\ (stopping s = true -> ws_timers s = ∅) /\
  forall i st, seeds s !! i = Some st ->
    (exists m, in_mode O st m /\ if stopping s then m = Down /\ readyWaiters st = [] /\ reconnectTimer st = None else m = Down <-> is_Some (reconnectTimer st)) /\
    reconnectInitialMs lim <= reconnectDelayMs st <= reconnectMaxMs lim /\ len (queue st) <= maxSendQueue lim /\
    forall k t, timer_of k st = Some t <-> exists tm, ws_timers s !! t = Some tm /\ tm_kind tm = k /\ tm_seed tm = i.
Proof.
  intros Hn Hr. destruct (run_sound URL c lim s0 s O Hn Hr) as (_ & [[G1 G2 G3 G4 G5 G6 [G7 _] G8] Hs]). cbn [fst snd] in *. split; [done|]. split.
  - intros Hstop. apply map_eq. intros t. rewrite lookup_empty. destruct (ws_timers s !! t) as [tm|] eqn:Et; [|done].
    destruct (G1 t tm Et) as (_ & st & Hi & Hk & _). destruct (Hs _ st Hi) as (m & Hm & _ & _ & _ & _ & Hrun). rewrite Hstop in Hrun. destruct Hrun as (-> & Hrt & _).
    destruct Hm as (_ & _ & _ & _ & H1 & H2 & H3). destruct (tm_kind tm); cbn in Hk; congruence.
  - intros i st Hi. destruct (Hs i st Hi) as (m & Hm & _ & Hd & Hl & _ & Hrun). split; [|split; [done|split; [done|]]].
    + exists m. split; [done|]. destruct (stopping s); cbn in Hrun; [|done]. by destruct Hrun as (? & ? & ?).
    + intros k t. split; [by apply G2|]. intros (tm & Et & <- & Es). destruct (G1 t tm Et) as (_ & st' & Hi' & Hk & _). rewrite Es, Hi in Hi'. by injection Hi' as <-.
Qed.

(** C32: no caller of [connect] or [send] is told twice or forgotten. In every run
    each promise that was handed out is either settled, once, or kept by one seed,
    in its list of waiters or its queue; when the carrier stops, all are settled;
    and the end of a connection, by its socket or by the timeout of its opening or
    of its hint, settles everything the seed kept. *)
Theorem websocket_promises_settle `{Noble} URL c lim s0 s O : new_websocket URL c = Ok (lim, s0) -> rtc (ws_step URL lim) (s0, []) (s, O) ->
  settled (ws_calls s) ++ pending (seeds s) ≡ₚ seq 0 (nextPromise s) /\
  (stopping s = true -> settled (ws_calls s) ≡ₚ seq 0 (nextPromise s)) /\
  (forall i st sock reason, seeds s !! i = Some st -> socket st = Some sock ->
     exists st', seeds (closed_ lim i sock (generation st) reason s) !! i = Some st' /\ kept st' = []) /\
  (forall out t tm, ws_timers s !! t = Some tm -> tm_kind tm = ConnectTimer \/ tm_kind tm = KeyHintTimer ->
     exists st', seeds (fire lim out t s) !! tm_seed tm = Some st' /\ kept st' = []).
Proof.
  intros Hn Hr. destruct (run_sound URL c lim s0 s O Hn Hr) as (Hlim & Ho). unfold sound in Ho. cbn [fst snd] in Ho. pose proof Ho as [[G1 G2 G3 G4 G5 G6 G7 G8] Hs].
  assert (Hend : forall s' i st e, ok lim (map url (seeds s0)) (fun _ => negb (stopping s)) O s' -> stopping s' = stopping s -> seeds s' !! i = Some st ->
    exists st', seeds (connectionEnded lim i (generation st) e s') !! i = Some st' /\ kept st' = []).
  { intros s' i st e Ho' Es Hi. pose proof (proj2 Ho' i st Hi) as Hseed. cbn in Hseed.
    apply (connectionEnded_full lim (map url (seeds s0)) Hlim _ O s' i st e (ok_inv _ _ _ _ _ _ _ Ho' Hi)); [by eapply seed_ok_delay|by rewrite Es|].
    intros Et. rewrite Es in Et. rewrite Et in Hseed. by eapply seed_ok_stopped. }
  split; [done|]. split; [|split].
  - intros Hstop. rewrite <- G5. assert (E : pending (seeds s) = []); [|by rewrite E, app_nil_r].
    unfold pending. rewrite Hstop in Hs. revert Hs. generalize (ws_calls s). clear. induction (seeds s) as [|st l IH]; intros cs Hs; [done|]. cbn.
    destruct (Hs 0%nat st eq_refl) as (m & Hm & _ & _ & _ & _ & -> & _ & Hw). destruct Hm as (_ & _ & _ & Hq & _). unfold kept at 1. rewrite Hw, Hq. cbn.
    apply (IH cs). intros j. apply (Hs (S j)).
  - intros i st sock reason Hi Hk. unfold closed_, with_seed. rewrite Hi. unfold isCurrent. rewrite bool_decide_true, Z.eqb_refl by done. by apply Hend.
  - intros out t tm Et Hk. destruct (G1 t tm Et) as (_ & st & Hi & Ht & Hg). unfold fire. rewrite Et.
    assert (E : forall e, failSocket lim (tm_seed tm) (tm_generation tm) e (set_ws_timers (delete t (ws_timers s)) (nextTimer s) s) = failSocket lim (tm_seed tm) (tm_generation tm) e s)
      by (intros e; by eapply failSocket_fired).
    assert (Hf : forall e, exists st', seeds (failSocket lim (tm_seed tm) (tm_generation tm) e s) !! tm_seed tm = Some st' /\ kept st' = []).
    { intros e. unfold failSocket, with_seed. rewrite Hi, Hg, Z.eqb_refl. cbn [negb]. destruct (socket st) as [sock|]; [|by apply Hend].
      apply (Hend (ws_call (SocketClose sock 1002) s)); [|done|done]. eapply inv_ok; [apply inv_call; [by apply ok_inv|done..]|].
      apply seed_ok_silent; [exact (Hs _ st Hi)|by intros c' t' ->%list_elem_of_singleton]. }
    destruct Hk as [-> | ->]; rewrite E; apply Hf.
Qed.

(** C34: what the carrier tells comes in order. In every run it asks for the key of
    a peer only on a socket it has dialled for a seed; it announces a
    connection as up only after that request was sent on its socket; an answer to
    the peer's own request goes out only on the current socket of a seed; a packet
    is handed to the node, and a record is sent, only while the connection is up,
    and both are well formed. What was told is also where each seed stands: a seed
    with a socket is dialled and has asked nothing, has asked with the nonce it
    keeps and knows no key yet, or is up and knows the key. *)
Theorem websocket_calls_in_order `{Noble} URL c lim s0 s O : new_websocket URL c = Ok (lim, s0) -> rtc (ws_step URL lim) (s0, []) (s, O) ->
  trace_ok lim (ws_calls s) /\
  forall i st k, seeds s !! i = Some st -> socket st = Some k ->
    match told (addr st) (ws_calls s) with
    | ToldDialled k' => k' = k /\ nonce st = None /\ remoteXOnly st = None
    | ToldHinted k' n => k' = k /\ nonce st = Some n /\ remoteXOnly st = None
    | ToldReady k' => k' = k /\ is_Some (nonce st) /\ is_Some (remoteXOnly st)
    | _ => False
    end.
Proof.
  intros Hn Hr. destruct (run_sound URL c lim s0 s O Hn Hr) as (_ & [Hg Hs]). split; [apply Hg|].
  intros i st k Hi Hk. destruct (Hs i st Hi) as ([|k'|k' n|k' n x] & Hm & Ht & _); cbn [in_mode told_mode fst] in Hm, Ht.
  - destruct Hm as [Hm _]. congruence.
  - rewrite Ht. destruct Hm as (? & _ & ? & ? & _). split_and!; [congruence|done..].
  - destruct Ht as [-> _]. destruct Hm as (? & _ & ? & ? & _). split_and!; [congruence|done..].
  - destruct Ht as [-> _]. destruct Hm as (? & _ & ? & ? & _). split_and!; [congruence|by eexists..].
Qed.

(** ** Identities *)

(** Nothing is learned of the peers: a seed keeps the identity of its peer or
    forgets it. *)
Definition quiet (s s' : Ws) : Prop := forall i st', seeds s' !! i = Some st' ->
  exists st, seeds s !! i = Some st /\ (remoteXOnly st' = None \/ remoteXOnly st' = remoteXOnly st).

#[export] Instance quiet_preorder : PreOrder quiet.
Proof.
  split; [intros s i st Hi; eauto|]. intros s1 s2 s3 H1 H2 i st3 H3. destruct (H2 i st3 H3) as (st2 & E2 & R2). destruct (H1 i st2 E2) as (st1 & E1 & R1).
  exists st1. split; [done|]. destruct R2 as [-> | ->]; auto.
Qed.

Lemma quiet_same s s' : seeds s' = seeds s -> quiet s s'.
Proof. intros E i st' Hi. rewrite E in Hi. eauto. Qed.

Lemma silent_alter s i f : (forall st, seeds s !! i = Some st -> remoteXOnly (f st) = None \/ remoteXOnly (f st) = remoteXOnly st) -> quiet s (alter_seed i f s).
Proof. intros Hf j st' (st & Hj & ->)%lookup_alter_inv. exists st. split; [done|]. case_decide; [subst; by apply Hf|by right]. Qed.

Lemma quiet_with i f s : (forall st, seeds s !! i = Some st -> quiet s (f st s)) -> quiet s (with_seed i f s).
Proof. intros Hf. unfold with_seed. destruct (seeds s !! i) eqn:E; [by apply Hf|done]. Qed.

Lemma quiet_if (b : bool) s s1 s2 : quiet s s1 -> quiet s s2 -> quiet s (if b then s1 else s2).
Proof. by destruct b. Qed.

Lemma quiet_settle ps r s : quiet s (settle_all ps r s).
Proof. rewrite settle_all_run. by apply quiet_same. Qed.

Lemma quiet_clear k i s : quiet s (clear_timer k i s).
Proof.
  apply quiet_with. intros st _. etrans; [|apply silent_alter; intros; right; by destruct k]. by destruct (timer_of k st); apply quiet_same.
Qed.

Lemma quiet_set k i d s : quiet s (set_timer k i d s).
Proof. apply quiet_with. intros st _. etrans; [|apply silent_alter; intros; right; by destruct k]. by apply quiet_same. Qed.

Lemma quiet_pieces i e c s : quiet s (resolveReadyWaiters i s) /\ quiet s (rejectReadyWaiters i e s) /\ quiet s (rejectQueue i e s) /\ quiet s (onConnectionState i c s).
Proof.
  split_and!; apply quiet_with; intros st _.
  - etrans; [apply quiet_settle|apply silent_alter; by right].
  - etrans; [apply quiet_settle|apply silent_alter; by right].
  - etrans; [|apply quiet_settle]. apply silent_alter. by right.
  - destruct (ws_ctx s); [by apply quiet_same|done].
Qed.

Lemma quiet_to s s' s'' : quiet s s' -> seeds s'' = seeds s' -> quiet s s''.
Proof. intros H E. etrans; [exact H|by apply quiet_same]. Qed.

Lemma silent_schedule lim i s : quiet s (scheduleReconnect lim i s).
Proof.
  apply quiet_with. intros st _. apply quiet_if; [done|]. cbv zeta. etrans; [|apply quiet_set]. eapply quiet_to; [|reflexivity]. apply silent_alter. by right.
Qed.

Lemma quiet_ended lim i g e s : quiet s (connectionEnded lim i g e s).
Proof.
  apply quiet_with. intros st _. apply quiet_if; [done|]. cbv zeta. etrans; [|apply silent_schedule]. etrans; [|apply quiet_pieces; exact e].
  set (s1 := clearConnectionTimers i s). assert (H1 : quiet s s1) by (unfold s1, clearConnectionTimers; by rewrite <- !quiet_clear).
  set (s2 := alter_seed i _ s1). assert (H2 : quiet s s2) by (etrans; [exact H1|apply silent_alter; by left]).
  assert (H3 : quiet s (rejectQueue i e (rejectReadyWaiters i e s2))).
  { etrans; [|apply quiet_pieces; exact Connected]. etrans; [exact H2|]. apply quiet_pieces; exact Connected. }
  apply quiet_if; [by eapply quiet_to|done].
Qed.

Lemma quiet_fail lim i g e s : quiet s (failSocket lim i g e s).
Proof. apply quiet_with. intros st _. apply quiet_if; [done|]. etrans; [|apply quiet_ended]. destruct (socket st); [by apply quiet_same|done]. Qed.

Lemma quiet_pump_loop lim out n k i sock s : quiet s (pump_loop lim out n k i sock s).
Proof.
  revert k s. induction n as [|n IH]; intros k s; cbn [pump_loop]; [done|]. destruct (seeds s !! i) as [st|]; [|done]. destruct (queue st) as [|[data p] rest]; [done|].
  apply quiet_if; [apply quiet_pieces; exact Connected|]. apply quiet_if; [apply quiet_set|]. cbv zeta.
  assert (Ha : quiet s (alter_seed i (set_queue rest) s)) by (apply silent_alter; by right).
  destruct (sending out k); [rewrite <- IH|rewrite <- quiet_fail]; (etrans; [exact Ha|by apply quiet_same]).
Qed.

Lemma quiet_pump lim out i s : quiet s (pump lim out i s).
Proof. apply quiet_with. intros st _. apply quiet_if; [done|]. destruct (socket st); [apply quiet_pump_loop|done]. Qed.

Lemma quiet_restore s s' i st f : seeds s !! i = Some st -> quiet s s' -> (forall x, remoteXOnly (f x) = remoteXOnly st) -> quiet s (alter_seed i f s').
Proof.
  intros Hi Hq Hf j st' (x & Hj & ->)%lookup_alter_inv. case_decide; [|by apply Hq]. subst. exists st. split; [done|]. right. apply Hf.
Qed.

Lemma quiet_dial lim out i s : quiet s (dial lim out i s).
Proof.
  unfold dial, with_seed. destruct (seeds s !! i) as [st|] eqn:Ei; [|done]. apply quiet_if; [done|]. cbv zeta.
  set (s1 := onConnectionState i Connecting _). assert (H1 : quiet s s1).
  { etrans; [|apply quiet_pieces; exact (Error "")]. eapply quiet_to; [|reflexivity]. apply silent_alter. by right. }
  destruct (made out i); [|etrans; [exact H1|apply quiet_ended]]. etrans; [|apply quiet_set]. eapply quiet_restore; [exact Ei| |done]. by eapply quiet_to.
Qed.

Lemma quiet_opened lim out i sock g s : quiet s (opened lim out i sock g s).
Proof.
  unfold opened, with_seed. destruct (seeds s !! i) as [st|] eqn:Ei; [|done]. apply quiet_if; [done|]. cbv zeta.
  assert (H1 : quiet s (count_opened (clear_timer ConnectTimer i s))) by (eapply quiet_to; [apply quiet_clear|done]).
  destruct (checkedNonce _) as [n|]; [|done]. set (s2 := alter_seed i _ _). assert (H2 : quiet s s2) by (by eapply quiet_restore).
  destruct (encodeLocalKeyHintRequest n ≫= _) as [w|e]; [|etrans; [exact H2|apply quiet_fail]]. etrans; [|apply quiet_set]. by eapply quiet_to.
Qed.

Lemma quiet_event i sock g s (f : SeedState -> Ws -> Ws) : (forall st s, quiet s (f st s)) ->
  quiet s (with_seed i (fun st s => if negb (isCurrent st sock g) then s else f st s) s).
Proof. intros Hf. apply quiet_with. intros st _. by apply quiet_if. Qed.

Lemma quiet_receive_begin i s : quiet s (receive_begin i s).
Proof. apply quiet_with. intros st _. repeat case_match; try done; apply silent_alter; by right. Qed.

Lemma quiet_fire lim out t s : quiet s (fire lim out t s).
Proof.
  unfold fire. destruct (ws_timers s !! t) as [tm|]; [|done]. cbv zeta. set (s1 := set_ws_timers _ _ s). assert (H1 : quiet s s1) by (by apply quiet_same).
  destruct (tm_kind tm); (etrans; [exact H1|]); [apply quiet_fail..| |]; (etrans; [|apply quiet_pump || apply quiet_dial]); apply silent_alter; by right.
Qed.

Lemma quiet_fold (f : Ws -> nat -> Ws) l s : (forall i s, quiet s (f s i)) -> quiet s (foldl f s l).
Proof. intros Hf. revert s. induction l as [|i l IH]; intros s; [done|]. cbn [foldl]. etrans; [apply Hf|apply IH]. Qed.

Lemma quiet_start lim out local s : quiet s (start lim out local s).
Proof.
  unfold start. apply quiet_if; [done|]. cbv zeta. etrans; [|apply quiet_fold; intros; apply quiet_dial]. by apply quiet_same.
Qed.

Lemma quiet_stop s : quiet s (stop s).
Proof.
  unfold stop. apply quiet_if; [done|]. cbv zeta. set (s1 := set_running (ws_ctx s) true s). eapply quiet_to; [|reflexivity].
  etrans; [|apply quiet_fold]; [by apply quiet_same|]. clear. intros i s. unfold stop_seed, clearTimers, clearConnectionTimers.
  etrans; [|apply quiet_with; intros st _; destruct (socket st);
    [eapply (quiet_to _ (alter_seed i (set_connection None None None) _)); [apply silent_alter; by left|reflexivity]|apply silent_alter; by left]].
  etrans; [|apply quiet_pieces; exact Connected]. etrans; [|apply quiet_pieces; exact Connected]. by rewrite <- !quiet_clear.
Qed.

Lemma quiet_connect `{Noble} URL lim out a s : quiet s (snd (connect URL lim out a s)).
Proof.
  unfold connect. rewrite ST_get_bind. unfold throw_when. destruct (stopping s); [done|]. rewrite ST_ret_bind. unfold mbind at 1, ST_bind at 1.
  destruct (stateFor URL a s) as [[i|e] s'] eqn:E; apply stateFor_inv in E as [-> _]; [|done]. destruct (seeds s !! i) as [st|]; [|done]. destruct (isReady out st); [done|].
  set (s1 := alter_seed i (set_waiters (readyWaiters st ++ [nextPromise s])) (set_nextPromise (S (nextPromise s)) s)).
  assert (H1 : quiet s s1) by (etrans; [|apply silent_alter; by right]; by apply quiet_same).
  destruct (negb _ && negb _) eqn:Eb; cbn; fold s1; [|done]. etrans; [exact H1|apply quiet_dial].
Qed.

Lemma quiet_send `{Noble} URL lim out a packet s : quiet s (snd (send URL lim out a packet s)).
Proof.
  unfold send, throw_when. unfold mbind at 1, ST_bind at 1. destruct (stateFor URL a s) as [[i|e] s'] eqn:E; apply stateFor_inv in E as [-> _]; [|done].
  destruct (validateFipsRecord packet (maxFrameBytes lim)) as [[]|e]; [|done]. rewrite (ST_lift_bind _ tt) by done.
  destruct (len packet >? maxBufferedBytes lim); [done|]. rewrite ST_ret_bind, ST_get_bind. destruct (seeds s !! i) as [st|]; [|done].
  destruct (isReady out st); [|done]. cbn [negb]. rewrite ST_ret_bind. destruct (_ >=? _); [by apply quiet_same|].
  set (s1 := alter_seed i (set_queue (queue st ++ [(packet, nextPromise s)])) (set_nextPromise (S (nextPromise s)) s)).
  change (quiet s (pump lim out i s1)). etrans; [|apply quiet_pump]. etrans; [|apply silent_alter; by right]. by apply quiet_same.
Qed.

(** What a received message can teach. *)
Lemma receive_learns `{Noble} lim out i sock g data s j st' x : seeds (snd (receive lim out i sock g data s)) !! j = Some st' -> remoteXOnly st' = Some x ->
  exists st, seeds s !! j = Some st /\ (remoteXOnly st = Some x \/
    exists wire n local, j = i /\ isCurrent st sock g = true /\ binaryMessage data = Ok wire /\ decodeLocalKeyHint wire = Some (HintResponse n x) /\
      nonce st = Some n /\ ws_ctx s = Some local /\ toHex x <> toHex (xOnlyPubkey local)).
Proof.
  intros Hj Hx. assert (Hquiet : forall s', quiet s s' -> seeds s' !! j = Some st' -> exists st, seeds s !! j = Some st /\ remoteXOnly st = Some x).
  { intros s' Hq Hj'. destruct (Hq j st' Hj') as (st & Hst & [E|E]); [congruence|]. exists st. split; congruence. }
  assert (Hstay : forall s', quiet s s' -> seeds s' !! j = Some st' -> exists st, seeds s !! j = Some st /\ (remoteXOnly st = Some x \/
    exists wire n local, j = i /\ isCurrent st sock g = true /\ binaryMessage data = Ok wire /\ decodeLocalKeyHint wire = Some (HintResponse n x) /\
      nonce st = Some n /\ ws_ctx s = Some local /\ toHex x <> toHex (xOnlyPubkey local))).
  { intros s' Hq Hj'. destruct (Hquiet s' Hq Hj') as (st & ? & ?). eauto. }
  unfold receive in Hj. destruct (binaryMessage data) as [wire|e] eqn:Ed; [|by eapply Hstay]. rewrite (ST_lift_bind _ wire), ST_get_bind in Hj by done.
  destruct (seeds s !! i) as [st|] eqn:Ei; [|by eapply Hstay]. destruct (isCurrent st sock g) eqn:Ecur; [|by eapply Hstay]. cbn [negb] in Hj.
  destruct (decodeLocalKeyHint wire) as [[n|n pubkey]|] eqn:Eh.
  - destruct (ws_ctx s); [|by eapply Hstay]. destruct (encodeLocalKeyHintResponse _ _) as [r|]; [|by eapply Hstay]. rewrite (ST_lift_bind _ r) in Hj by done.
    destruct (sending out 0) as [[]|]; [|by eapply Hstay]. rewrite (ST_lift_bind _ tt) in Hj by done. eapply Hstay; [|exact Hj]. by apply quiet_same.
  - destruct (negb _ || _) eqn:Eb; [by eapply Hstay|]. bool_split. destruct (ws_ctx s) as [local|] eqn:Ectx; [|by eapply Hstay]. unfold throw_when in Hj.
    destruct (bool_decide (toHex pubkey = _)) eqn:Eself; [by eapply Hstay|]. destruct (negb (allowPeer out pubkey)); [by eapply Hstay|]. bool_split.
    change (seeds (hint_answered lim out i pubkey s) !! j = Some st') in Hj.
    unfold hint_answered, with_seed in Hj. rewrite Ei in Hj.
    set (f := fun st : SeedState => set_delay (reconnectInitialMs lim) (set_connection (socket st) (nonce st) (Some pubkey) st)) in Hj.
    set (s2 := alter_seed i f _) in Hj. assert (Hq : forall s', quiet s2 s' -> seeds s' !! j = Some st' -> exists st'', seeds s2 !! j = Some st'' /\ remoteXOnly st'' = Some x).
    { intros s' Hq Hj'. destruct (Hq j st' Hj') as (st'' & Hst & [E|E]); [congruence|]. exists st''. split; congruence. }
    edestruct Hq as (st'' & (y & Hy & ->)%lookup_alter_inv & Hr); [|exact Hj|].
    { etrans; [|apply quiet_pump]. apply (quiet_to _ (onConnectionState i Connected (resolveReadyWaiters i s2))).
      - etrans; [|apply quiet_pieces; exact (Error "")]. apply quiet_pieces; [exact (Error "")|exact Connected].
      - unfold push_discovery. by case_match. }
    destruct (quiet_clear KeyHintTimer i s j y Hy) as (st0 & Hst0 & Hor). case_decide as Eji.
    + subst j. rewrite Ei in Hst0. injection Hst0 as <-. cbn in Hr. injection Hr as ->. exists st. split; [done|]. right. by exists wire, n, local.
    + exists st0. split; [done|]. left. destruct Hor; congruence.
  - unfold throw_when in Hj. destruct (bool_decide (is_Some (remoteXOnly st))); [|by eapply Hstay]. cbn [negb] in Hj.
    destruct (validateFipsRecord wire (maxFrameBytes lim)) as [[]|]; cbn [is_ok] in Hj; [|eapply Hstay; [|exact Hj]; by apply quiet_same].
    destruct (ws_ctx s); (eapply Hstay; [|exact Hj]); by apply quiet_same.
Qed.

(** C33: a seed is only ever given an identity by the answer to its own question.
    In a step of any run a seed gets the key of its peer only from a message that
    its current socket has received, that is a key hint which repeats the nonce that
    this carrier has sent on that same socket, and whose key is not this node's own;
    every other call, event or timer leaves the identity or takes it away. *)
Theorem websocket_identity_answered `{Noble} URL c lim s0 s O s' O' i st' x :
  new_websocket URL c = Ok (lim, s0) -> rtc (ws_step URL lim) (s0, []) (s, O) -> ws_step URL lim (s, O) (s', O') ->
  seeds s' !! i = Some st' -> remoteXOnly st' = Some x ->
  exists st, seeds s !! i = Some st /\ (remoteXOnly st = Some x \/
    exists sock data wire n local, receiving st = Some (sock, generation st, data) /\ socket st = Some sock /\ binaryMessage data = Ok wire /\
      decodeLocalKeyHint wire = Some (HintResponse n x) /\ SocketSend sock (x01 :: be64 n) ∈ ws_calls s /\
      ws_ctx s = Some local /\ toHex x <> toHex (xOnlyPubkey local)).
Proof.
  intros Hn Hr Hstep Hi Hx. destruct (run_sound URL c lim s0 s O Hn Hr) as (_ & [_ Hs]). cbn [fst snd] in Hs.
  assert (Hstay : quiet s s' -> exists st, seeds s !! i = Some st /\ remoteXOnly st = Some x).
  { intros Hq. destruct (Hq i st' Hi) as (st & Hst & [E|E]); [congruence|]. exists st. split; congruence. }
  assert (Hq : (exists out k, s' = receive_end lim out k s) \/ quiet s s').
  { clear - Hstep. inversion Hstep; subst; try (by left; eauto); right;
      [apply quiet_start|apply quiet_stop|apply quiet_connect|apply quiet_send|apply quiet_opened|..|apply quiet_receive_begin|apply quiet_fire].
    - apply quiet_event. intros st s1. apply silent_alter. by right.
    - apply quiet_event. intros st s1. apply quiet_fail.
    - apply quiet_event. intros st s1. apply quiet_ended. }
  destruct Hq as [(out & k & ->)|Hq]; [|destruct (Hstay Hq) as (st & ? & ?); eauto]. clear Hstep. unfold receive_end, with_seed in Hi.
  destruct (seeds s !! k) as [st|] eqn:Ek; [|destruct (Hstay) as (? & ? & ?); [unfold receive_end, with_seed; by rewrite Ek|eauto]].
  destruct (receiving st) as [[[sock g] data]|] eqn:Erec; [|exists st'; auto].
  destruct (receive lim out k sock g data _) as [r s2] eqn:Er. assert (Hr2 : exists st2, seeds s2 !! i = Some st2 /\ remoteXOnly st2 = Some x).
  { destruct r as [[]|e]; [eauto|]. destruct (quiet_fail lim k g e s2 i st' Hi) as (st2 & Hst2 & [E|E]); [congruence|]. exists st2. split; congruence. }
  destruct Hr2 as (st2 & Hi2 & Hx2). set (s1 := alter_seed k (set_receiving (receiveChain st) None) s) in *.
  pose proof (receive_learns lim out k sock g data s1 i st2 x) as Hl. rewrite Er in Hl. destruct (Hl Hi2 Hx2) as (st1 & (y & Hy & ->)%lookup_alter_inv & Hor).
  exists y. split; [done|]. destruct Hor as [Hor|(wire & n & local & -> & Hcur & Hb & Hd & Hnc & Hctx & Hself)]; [left; by case_decide|].
  rewrite decide_True in Hcur, Hnc by done. rewrite Ek in Hy. injection Hy as <-. unfold isCurrent in Hcur. bool_split. cbn in *. right.
  exists sock, data, wire, n, local. split; [congruence|]. split; [done|]. split; [done|]. split; [done|]. split; [|done].
  destruct (Hs k st Ek) as (m & Hm & Ht & _). destruct m as [|k'|k' n'|k' n' x']; cbn in Hm, Ht; [destruct Hm; congruence|destruct Hm as (_ & _ & ? & _); congruence|..].
  - destruct Hm as (E1 & _ & E2 & _). destruct Ht as [_ Ht]. congruence.
  - destruct Hm as (E1 & _ & E2 & _). destruct Ht as [_ Ht]. congruence.
Qed.

(** ** Examples *)

#[local] Existing Instances Toy.noble Toy.hex_laws.

Definition demo_URL (raw : string) : option UrlParts :=
  if decide (raw = "wss://seed/"%string) then Some (mkUrl "" "" "" "wss:" "seed" "wss://seed/") else None.
Definition demo_ws_config : WebSocketTransportConfig := mkWebSocketTransportConfig ["wss://seed/"%string] None None None None None None None None None.
Definition demo_random : bytes := replicate 8 x07.
Definition demo_outside : Outside := mkOutside (fun _ => Ok tt) true (fun _ => true) (fun _ => 0) (fun _ => Ok tt) (secureRandomNonce demo_random).
Definition demo_limits : Limits := mkLimits 1400 67584 256 1048576 5000 3000 1000 30000 10.
Definition demo_ws0 : Ws := mkWs None true [new_seed demo_limits "wss://seed/"] new_stats [] None ∅ 0 [] 0 [].
Definition demo_seed : TransportAddress := mkAddress "websocket" "wss://seed/".
Definition demo_hint : bytes := ok_or (encodeLocalKeyHintResponse (secureRandomNonce demo_random) (replicate 32 x02)) [].
Definition demo_record : bytes := ok_or (encodeFmpMsg1 (mkMsg1 5 (replicate 106 x00))) [].

Definition demo_waiting : Ws := snd (connect demo_URL demo_limits demo_outside demo_seed (start demo_limits demo_outside (demo_identity 5) demo_ws0)).
Definition demo_opened : Ws := opened demo_limits demo_outside 0 0 1 demo_waiting.
Definition demo_told : Ws := message 0 0 1 (BinaryMessage demo_hint) demo_opened.
Definition demo_hinted : Ws :=
  receive_begin 0 demo_told.
Definition demo_ready : Ws := receive_end demo_limits demo_outside 0 demo_hinted.
Definition demo_sent_record : Ws := snd (send demo_URL demo_limits demo_outside demo_seed demo_record demo_ready).

Lemma demo_new : new_websocket demo_URL demo_ws_config = Ok (demo_limits, demo_ws0).
Proof. vm_compute. reflexivity. Qed.

Lemma demo_run_waiting : rtc (ws_step demo_URL demo_limits) (demo_ws0, []) (demo_waiting, []).
Proof.
  apply rtc_l with (start demo_limits demo_outside (demo_identity 5) demo_ws0, []); [apply step_start|]. apply rtc_once. unfold demo_waiting. apply step_connect.
Qed.

Lemma demo_step_opened : ws_step demo_URL demo_limits (demo_waiting, []) (demo_opened, [0%nat]).
Proof. unfold demo_opened. apply (step_opened _ _ demo_outside 0 0 1 demo_random); [set_solver|vm_compute; reflexivity|reflexivity|reflexivity]. Qed.

Lemma demo_step_told : ws_step demo_URL demo_limits (demo_opened, [0%nat]) (demo_told, [0%nat]).
Proof. unfold demo_told. apply step_message. vm_compute. reflexivity. Qed.

Lemma demo_run_hinted : rtc (ws_step demo_URL demo_limits) (demo_ws0, []) (demo_hinted, [0%nat]).
Proof.
  etrans; [apply demo_run_waiting|]. eapply rtc_l; [apply demo_step_opened|]. eapply rtc_l; [apply demo_step_told|]. apply rtc_once. unfold demo_hinted. apply step_receive_begin.
Qed.

Lemma demo_run_sent : rtc (ws_step demo_URL demo_limits) (demo_ws0, []) (demo_sent_record, [0%nat]).
Proof.
  etrans; [apply demo_run_hinted|]. apply rtc_l with (demo_ready, [0%nat]); [unfold demo_ready; apply step_receive_end|]. apply rtc_once. unfold demo_sent_record. apply step_send.
Qed.

Lemma websocket_seeds_kept_witness : map url (seeds demo_sent_record) = ["wss://seed/"%string] /\
  exists st m, seeds demo_sent_record !! 0%nat = Some st /\ in_mode [0%nat] st m /\ m <> Down.
Proof.
  pose proof (websocket_seeds_kept demo_URL demo_ws_config demo_limits demo_ws0 demo_sent_record [0%nat] demo_new demo_run_sent) as Hp.
  destruct Hp as (Hu & _ & Hs). split; [exact Hu|].
  assert (E : exists st, seeds demo_sent_record !! 0%nat = Some st /\ stopping demo_sent_record = false /\ reconnectTimer st = None) by (vm_compute; eexists; split_and!; reflexivity).
  destruct E as (st & Hst & Hrun & Hr). destruct (Hs 0%nat st Hst) as ((m & Hm & Hd) & _). rewrite Hrun in Hd. exists st, m. split; [exact Hst|]. split; [exact Hm|]. intros ->.
  destruct Hd as [Hd _]. rewrite Hr in Hd. destruct (Hd eq_refl) as [t Ht]. discriminate Ht.
Defined.

Lemma websocket_promises_settle_witness : settled (ws_calls demo_sent_record) ≡ₚ [0; 1]%nat /\
  exists st', seeds (closed_ demo_limits 0 0 1 "gone" demo_waiting) !! 0%nat = Some st' /\ kept st' = [].
Proof.
  pose proof (websocket_promises_settle demo_URL demo_ws_config demo_limits demo_ws0 demo_sent_record [0%nat] demo_new demo_run_sent) as (Hp & _).
  assert (E : pending (seeds demo_sent_record) = [] /\ nextPromise demo_sent_record = 2%nat) by (vm_compute; split_and!; reflexivity). destruct E as [E1 E2].
  rewrite E1, E2, app_nil_r in Hp. split; [exact Hp|].
  destruct (websocket_promises_settle demo_URL demo_ws_config demo_limits demo_ws0 demo_waiting [] demo_new demo_run_waiting) as (_ & _ & Hc & _).
  assert (E : exists st, seeds demo_waiting !! 0%nat = Some st /\ socket st = Some 0%nat /\ generation st = 1) by (vm_compute; eexists; split_and!; reflexivity).
  destruct E as (st & Hst & Hk & Hg). rewrite <- Hg. exact (Hc 0%nat st 0%nat "gone"%string Hst Hk).
Defined.

Lemma websocket_calls_in_order_witness : exists pre post, ws_calls demo_sent_record = pre ++ SocketSend 0 demo_record :: post /\
  exists a, told a pre = ToldReady 0.
Proof.
  pose proof (websocket_calls_in_order demo_URL demo_ws_config demo_limits demo_ws0 demo_sent_record [0%nat] demo_new demo_run_sent) as [Ht _].
  assert (E : exists pre post, ws_calls demo_sent_record = pre ++ SocketSend 0 demo_record :: post /\ decodeLocalKeyHint demo_record = None).
  { exists (take 5 (ws_calls demo_sent_record)), (drop 6 (ws_calls demo_sent_record)). vm_compute. split; reflexivity. }
  destruct E as (pre & post & E & Hd). exists pre, post. split; [exact E|]. pose proof (Ht pre _ post E) as Ha. cbn [call_ok] in Ha. rewrite Hd in Ha. exact (proj1 Ha).
Defined.

Lemma websocket_identity_answered_witness : SocketSend 0 (x01 :: be64 (secureRandomNonce demo_random)) ∈ ws_calls demo_hinted.
Proof.
  assert (E : exists st', seeds (receive_end demo_limits demo_outside 0 demo_hinted) !! 0%nat = Some st' /\ remoteXOnly st' = Some (replicate 32 x02)) by (vm_compute; eexists; split_and!; reflexivity).
  destruct E as (st' & Hst' & Hx). assert (E : remoteXOnly <$> seeds demo_hinted !! 0%nat = Some None /\ socket <$> seeds demo_hinted !! 0%nat = Some (Some 0%nat) /\
    (receiving <$> seeds demo_hinted !! 0%nat) = Some (Some (0%nat, 1, BinaryMessage demo_hint))) by (vm_compute; split_and!; reflexivity).
  destruct (websocket_identity_answered demo_URL demo_ws_config demo_limits demo_ws0 demo_hinted [0%nat] _ [0%nat] 0%nat st' _ demo_new demo_run_hinted
    (step_receive_end _ _ demo_outside 0 _ _) Hst' Hx) as (st & Hst & Hor). rewrite Hst in E. cbn in E. destruct E as ([= E1] & [= E2] & [= E3]).
  destruct Hor as [Hor|(sock & data & wire & n & local & Hrec & Hk & Hb & Hd & Hin & _)]; [congruence|]. rewrite E3 in Hrec. injection Hrec as <- _ <-.
  cbn in Hb. injection Hb as <-. assert (Ed : decodeLocalKeyHint demo_hint = Some (HintResponse (secureRandomNonce demo_random) (replicate 32 x02))) by (vm_compute; reflexivity).
  rewrite Ed in Hd. injection Hd as <-. exact Hin.
Defined.

(** A message that fails to read after its connection has ended fails the seed
    once more: who has asked for a connection since then is rejected, although a
    reconnection is under way. *)
Definition demo_late : Ws :=
  snd (connect demo_URL demo_limits demo_outside demo_seed
    (closed_ demo_limits 0 0 1 "gone" (receive_begin 0 (message 0 0 1 TextMessage demo_ready)))).

Lemma late_failure_rejects :
  (map kept (seeds demo_late), map reconnectTimer (seeds demo_late)) = ([[1%nat]], [Some 2%nat]) /\
  (map kept (seeds (receive_end demo_limits demo_outside 0 demo_late)), map reconnectTimer (seeds (receive_end demo_limits demo_outside 0 demo_late))) = ([[]], [Some 2%nat]).
Proof. split; vm_compute; reflexivity. Qed.

(** A nonce that is refused leaves the opened connection without any timeout. *)
Lemma refused_nonce_stalls : let s := opened demo_limits (mkOutside (fun _ => Ok tt) true (fun _ => true) (fun _ => 0) (fun _ => Ok tt) (-1)) 0 0 1 demo_waiting in
  ws_timers s = ∅ /\ map socket (seeds s) = [Some 0%nat] /\ map kept (seeds s) = [[0%nat]].
Proof. vm_compute. split_and!; reflexivity. Qed.
