(* ===== verification/Json.v ===== *)
(** * Values from outside

    What [JSON.parse] or a store may return, the array sort, and the two readers
    of JSON messages: [linkNegotiation.ts] and [fsp/unsupportedTraversal.ts]. The
    texts themselves are outside: the parser and the printer of JSON are
    parameters. *)

From Stdlib Require Import Ascii Sorting.Sorted.
From S2P Require Import Prelude Codec Crypto Toy.

(** A number is an integer or a fraction, whose value no reader looks at; [JOther]
    is any value that JSON has no text for. *)
Inductive Json :=
| JNull
| JBool (b : bool)
| JInteger (z : Z)
| JFraction
| JString (s : string)
| JArray (l : list Json)
| JObject (fields : list (string * Json))
| JOther.

Definition isSafeInteger (z : Z) : bool := (- (2 ^ 53 - 1) <=? z) && (z <=? 2 ^ 53 - 1).

(** The value of a property; [None] is [undefined]. *)
Definition prop (fields : list (string * Json)) (k : string) : option Json := JsMap.get_ fields k.

Definition string_is (v : option Json) (s : string) : bool := match v with Some (JString t) => bool_decide (t = s) | _ => false end.

(** ** [Array.prototype.sort]: stable, by the sign of a comparison *)

Section Sort.
Context {A : Type} (cmp : A -> A -> Z).

Fixpoint insert_sorted (x : A) (l : list A) : list A :=
  match l with [] => [x] | y :: l => if cmp x y <? 0 then x :: y :: l else y :: insert_sorted x l end.

Definition js_sort (l : list A) : list A := foldl (fun s x => insert_sorted x s) [] l.

Lemma insert_sorted_perm x l : insert_sorted x l ≡ₚ x :: l.
Proof. induction l as [|y l IH]; cbn; [done|]. destruct (_ <? _); [done|]. rewrite IH. apply Permutation_swap. Qed.

Lemma js_sort_perm l : js_sort l ≡ₚ l.
Proof.
  unfold js_sort. assert (H : forall s, foldl (fun s x => insert_sorted x s) s l ≡ₚ s ++ l); [|by rewrite H].
  induction l as [|x l IH]; intros s; cbn; [by rewrite app_nil_r|]. rewrite IH, insert_sorted_perm. cbn. apply Permutation_middle.
Qed.

(** A comparison that is a total order up to ties sorts. *)
Context (cmp_total : forall x y, 0 <= cmp x y -> cmp y x <= 0) (cmp_trans : forall x y z, cmp x y <= 0 -> cmp y z <= 0 -> cmp x z <= 0).

Lemma insert_sorted_sorted x l : StronglySorted (fun a b => cmp a b <= 0) l -> StronglySorted (fun a b => cmp a b <= 0) (insert_sorted x l).
Proof.
  induction 1 as [|y l Hl IH Hy]; cbn; [repeat constructor|]. destruct (Z.ltb_spec (cmp x y) 0) as [Hlt|Hge].
  - constructor; [by constructor|]. constructor; [lia|]. eapply Forall_impl; [exact Hy|]. cbn. intros z. apply cmp_trans. lia.
  - constructor; [done|]. rewrite insert_sorted_perm. constructor; [by apply cmp_total|done].
Qed.

Lemma js_sort_sorted l : StronglySorted (fun a b => cmp a b <= 0) (js_sort l).
Proof.
  unfold js_sort. assert (H : forall s, StronglySorted (fun a b => cmp a b <= 0) s -> StronglySorted (fun a b => cmp a b <= 0) (foldl (fun s x => insert_sorted x s) s l)).
  { induction l as [|x l IH]; intros s Hs; cbn; [done|]. by apply IH, insert_sorted_sorted. }
  apply H. constructor.
Qed.
End Sort.

(** ** Link negotiation *)

Section Readers.
Context `{Noble} (parse : bytes -> option Json) (stringify : Json -> bytes).

Definition LINK_NEGOTIATION_VERSION : Z := 1.

Record LinkNegotiationMessage := mkNegotiation {
  negotiationId : string;
  linkType : string;
  ln_kind : string;
  createdAtMs : Z;
  expiresAtMs : Z;
  ln_payload : option Json;
}.

Definition encodeLinkNegotiationMessage (m : LinkNegotiationMessage) : bytes :=
  stringify (JObject ([("version", JInteger LINK_NEGOTIATION_VERSION); ("negotiationId", JString (negotiationId m)); ("linkType", JString (linkType m));
    ("kind", JString (ln_kind m)); ("createdAtMs", JInteger (createdAtMs m)); ("expiresAtMs", JInteger (expiresAtMs m))]
    ++ match ln_payload m with Some v => [("payload", v)] | None => [] end))%string.

(** The properties of an array or a function that is not an object literal are not
    those of a message. *)
Definition fields_of (v : Json) : option (list (string * Json)) :=
  match v with JObject fs => Some fs | JArray _ => Some [] | _ => None end.

Definition nonempty_string (v : option Json) (e : js_error) : result string :=
  match v with Some (JString (String c s)) => Ok (String c s) | _ => Throw e end.

Definition safe_integer (v : option Json) (e : js_error) : result Z :=
  match v with Some (JInteger z) => if isSafeInteger z then Ok z else Throw e | _ => Throw e end.

Definition decodeLinkNegotiationMessage (payload : bytes) : result LinkNegotiationMessage :=
  match parse payload with
  | None => Throw (Error "invalid link-negotiation JSON")
  | Some value =>
      match fields_of value with
      | None => Throw (Error "link negotiation must be an object")
      | Some fs =>
          throw_if (match prop fs "version" with Some (JInteger v) => negb (v =? LINK_NEGOTIATION_VERSION) | _ => true end) (Error "bad link-negotiation version");;
          id ← nonempty_string (prop fs "negotiationId") (Error "missing link-negotiation id");
          type ← nonempty_string (prop fs "linkType") (Error "missing link-negotiation type");
          kind ← match prop fs "kind" with
                 | Some (JString k) => throw_if (negb (bool_decide (k ∈ ["offer"; "answer"; "candidate"; "reject"]%string))) (Error "bad link-negotiation kind");; Ok k
                 | _ => Throw (Error "bad link-negotiation kind")
                 end;
          created ← safe_integer (prop fs "createdAtMs") (Error "bad link-negotiation lifetime");
          expires ← safe_integer (prop fs "expiresAtMs") (Error "bad link-negotiation lifetime");
          Ok (mkNegotiation id type kind created expires (prop fs "payload"))
      end
  end.

(** ** The answer to an offer of traversal *)

Definition SIGNAL_TTL_MS : Z := 120000.
Definition CLOCK_SKEW_MS : Z := 60000.

Definition timestamp (v : option Json) : option Z :=
  match v with Some (JInteger z) => if isSafeInteger z && (0 <=? z) then Some z else None | _ => None end.

Definition printable (c : ascii) : bool := let n := Z.of_N (N_of_ascii c) in (33 <=? n) && (n <=? 126).
Fixpoint all_printable (s : string) : bool := match s with EmptyString => true | String c s => printable c && all_printable s end.

Definition identifier (v : option Json) : option string :=
  match v with
  | Some (JString s) => if (1 <=? String.length s)%nat && (String.length s <=? 128)%nat && all_printable s then Some s else None
  | _ => None
  end.

Definition address (v : Json) : bool :=
  match v with
  | JObject fs =>
      match prop fs "protocol", prop fs "ip", prop fs "port" with
      | Some (JString _), Some (JString _), Some (JInteger p) => (0 <=? p) && (p <=? 65535)
      | _, _, _ => false
      end
  | _ => false
  end.

(** [x != null && !test(x)] *)
Definition bad_unless_null (test : Json -> bool) (v : option Json) : bool :=
  match v with None | Some JNull => false | Some x => negb (test x) end.

Definition is_string (v : Json) : bool := match v with JString _ => true | _ => false end.

(** [random] is what the random source draws, eight bytes; [text] prints a number. *)
Definition unsupportedTraversalAnswer (text : Z -> string) (body : bytes) (now : Z) (actualSenderNpub localNpub : string) (random : bytes) : option bytes :=
  if (len body >? 4096) || negb (isSafeInteger now && (0 <=? now)) || negb (isSafeInteger (now + SIGNAL_TTL_MS) && (0 <=? now + SIGNAL_TTL_MS)) then None else
  match parse body with
  | Some (JObject offer) =>
      if negb (string_is (prop offer "type") "offer") then None else
      match identifier (prop offer "sessionId"), identifier (prop offer "nonce"), timestamp (prop offer "issuedAt"), timestamp (prop offer "expiresAt") with
      | Some sessionId, Some nonce, Some issuedAt, Some expiresAt =>
          if (expiresAt <=? issuedAt) || negb (string_is (prop offer "senderNpub") actualSenderNpub)
             || negb (string_is (prop offer "recipientNpub") localNpub)
             || match prop offer "localAddresses" with Some (JArray l) => negb (forallb address l) | _ => true end
             || bad_unless_null address (prop offer "reflexiveAddress") || bad_unless_null is_string (prop offer "stunServer") then None else
          let expiry := Z.min expiresAt (issuedAt + SIGNAL_TTL_MS) in
          if (issuedAt - now >? CLOCK_SKEW_MS) || (expiry + CLOCK_SKEW_MS <=? now) || (now - issuedAt >? SIGNAL_TTL_MS + CLOCK_SKEW_MS) then None else
          Some (stringify (JObject [("type", JString "answer"); ("sessionId", JString sessionId); ("issuedAt", JInteger now); ("expiresAt", JInteger (now + SIGNAL_TTL_MS));
            ("nonce", JString (text now ++ "-" ++ toHex random)); ("senderNpub", JString localNpub); ("recipientNpub", JString actualSenderNpub);
            ("inReplyTo", JString nonce); ("accepted", JBool false); ("reflexiveAddress", JNull); ("localAddresses", JArray []);
            ("stunServer", JNull); ("punch", JNull); ("reason", JString "traversal-unsupported"); ("offerReceivedAt", JInteger now)]))%string
      | _, _, _, _ => None
      end
  | _ => None
  end.
End Readers.

(** ** Facts *)

Lemma get_here {V} (m : list (string * V)) k v : JsMap.get_ ((k, v) :: m) k = Some v.
Proof. cbn. by rewrite decide_True. Qed.

Lemma get_next {V} (m : list (string * V)) k k' v : k <> k' -> JsMap.get_ ((k', v) :: m) k = JsMap.get_ m k.
Proof. intros Hk. cbn. by rewrite decide_False. Qed.

Section Facts.
Context (parse : bytes -> option Json) (stringify : Json -> bytes).

Definition negotiation_ok (m : LinkNegotiationMessage) : Prop :=
  negotiationId m <> EmptyString /\ linkType m <> EmptyString /\ (ln_kind m ∈ ["offer"; "answer"; "candidate"; "reject"]%string) /\
  isSafeInteger (createdAtMs m) = true /\ isSafeInteger (expiresAtMs m) = true.

(** Where the printed text parses to the value that was printed, a message reads
    back exactly if it keeps the rules of the reader. *)
Lemma link_negotiation_roundtrip m : (forall v, parse (stringify v) = Some v) ->
  decodeLinkNegotiationMessage parse (encodeLinkNegotiationMessage stringify m) = Ok m <-> negotiation_ok m.
Proof.
  intros Hp. unfold decodeLinkNegotiationMessage, encodeLinkNegotiationMessage. rewrite Hp. destruct m as [id ty k c e p]. unfold negotiation_ok.
  cbn [fields_of negotiationId linkType ln_kind createdAtMs expiresAtMs ln_payload app]. unfold prop. repeat (rewrite get_here || rewrite get_next by discriminate).
  assert (Ep : JsMap.get_ (match p with Some v => [("payload"%string, v)] | None => [] end) "payload"%string = p) by (by destruct p).
  destruct id as [|a id]; [split; [done|tauto]|]. destruct ty as [|b ty]; [split; [done|tauto]|]. cbn [nonempty_string safe_integer throw_if mbind result_bind Z.eqb negb LINK_NEGOTIATION_VERSION Pos.eqb]. split.
  - intros E. apply result_bind_ok in E as (k' & E1 & E). apply guard_Ok in E1 as [Hk [= ->]]. apply negb_false_iff, bool_decide_eq_true in Hk.
    apply result_bind_ok in E as (c' & E2 & E). apply result_bind_ok in E as (e' & E3 & E). destruct (isSafeInteger c); [|done]. by destruct (isSafeInteger e).
  - intros (_ & _ & Hk & -> & ->). rewrite bool_decide_true by done. cbn. by rewrite Ep.
Qed.

(** An offer of traversal is answered only while it is fresh and only to whom sent
    it, and always with the same refusal. *)
Lemma traversal_refused `{Noble} text body now sender local random answer :
  unsupportedTraversalAnswer parse stringify text body now sender local random = Some answer ->
  exists offer issuedAt expiresAt nonce fs, parse body = Some (JObject offer) /\ string_is (prop offer "senderNpub") sender = true /\
    string_is (prop offer "recipientNpub") local = true /\ timestamp (prop offer "issuedAt") = Some issuedAt /\ timestamp (prop offer "expiresAt") = Some expiresAt /\
    identifier (prop offer "nonce") = Some nonce /\ issuedAt - CLOCK_SKEW_MS <= now /\
    now < Z.min expiresAt (issuedAt + SIGNAL_TTL_MS) + CLOCK_SKEW_MS /\
    answer = stringify (JObject fs) /\ string_is (prop fs "inReplyTo") nonce = true /\ string_is (prop fs "recipientNpub") sender = true /\
    prop fs "accepted" = Some (JBool false).
Proof.
  unfold unsupportedTraversalAnswer. destruct (_ || _ || _); [done|]. destruct (parse body) as [[]|]; try done. destruct (negb _); [done|].
  destruct (identifier (prop fields "sessionId")) as [sid|]; [|done]. destruct (identifier (prop fields "nonce")) as [nonce|] eqn:En; [|done].
  destruct (timestamp (prop fields "issuedAt")) as [i|] eqn:Ei; [|done]. destruct (timestamp (prop fields "expiresAt")) as [e|] eqn:Ee; [|done].
  match goal with |- (if ?c then _ else _) = _ -> _ => destruct c eqn:Ec; [done|] end. cbv zeta.
  match goal with |- (if ?c then _ else _) = _ -> _ => destruct c eqn:Ef; [done|] end. intros Ea. bool_split. rewrite Z.gtb_ltb in *. bool_split.
  match type of Ea with Some (stringify (JObject ?f)) = _ => exists fields, i, e, nonce, f end. injection Ea as <-.
  split_and!; try done; try lia; unfold string_is, prop; repeat (rewrite get_here || rewrite get_next by discriminate); by try apply bool_decide_true.
Qed.
End Facts.
