(* ===== verification/RecentPeers.v ===== *)
(** * Recent peers

    [recentPeers.ts] and [identity/nip19.ts]: the bounded cache of reconnect hints,
    its strict reader, the observation of an authenticated peer and the pruning of
    old entries; the text form of keys. The bech32 package and the URL parser of
    the platform are parameters. An object that holds entries by name is an
    association list in insertion order; entries of an object have distinct names. *)

From Stdlib Require Import Ascii Sorting.Sorted.
From S2P Require Import Prelude Codec Crypto Toy NodeAddr Identity Admission Ethernet WebSocket Json.

(** ** Keys as text *)

(** The operations of the bech32 package. *)
Class Bech32 := {
  toWords : bytes -> bytes;
  fromWords : bytes -> result bytes;
  bech32_encode : string -> bytes -> Z -> result string;
  bech32_decode : string -> Z -> result (string * bytes);
}.

Definition NPUB_HRP : string := "npub".
Definition NSEC_HRP : string := "nsec".

Section Nip19.
Context `{Bech32}.

Definition encodeBytes (hrp : string) (b : bytes) : result string :=
  throw_if (negb (len b =? 32)) (Error "expected 32-byte payload");;
  bech32_encode hrp (toWords b) 1023.

Definition decodeBytes (hrp : string) (encoded : string) : result bytes :=
  '(prefix, words) ← bech32_decode encoded 1023;
  throw_if (negb (bool_decide (prefix = hrp))) (Error "expected another HRP");;
  b ← fromWords words;
  throw_if (negb (len b =? 32)) (Error "expected 32 bytes");;
  Ok b.

Definition encodeNpub (xOnlyPubkey : bytes) : result string := encodeBytes NPUB_HRP xOnlyPubkey.
Definition decodeNpub (npub : string) : result bytes := decodeBytes NPUB_HRP npub.
Definition encodeNsec (secretKey : bytes) : result string := encodeBytes NSEC_HRP secretKey.
Definition decodeNsec (nsec : string) : result bytes := decodeBytes NSEC_HRP nsec.

(** [PeerIdentity.fromNpub] and [npub]. *)
Definition fromNpub `{Noble} (npub : string) : result PeerIdentity := b ← decodeNpub npub; fromXOnlyPubkey b.
Definition npub_ (p : PeerIdentity) : result string := encodeNpub (peer_xOnlyPubkey p).
End Nip19.

(** ** Strings *)

Fixpoint index_of (c : ascii) (s : string) : option nat :=
  match s with EmptyString => None | String a s => if decide (a = c) then Some O else S <$> index_of c s end.

Fixpoint last_index_of (c : ascii) (s : string) : option nat :=
  match s with
  | EmptyString => None
  | String a s => match last_index_of c s with Some i => Some (S i) | None => if decide (a = c) then Some O else None end
  end.

Fixpoint slice_to (n : nat) (s : string) : string :=
  match n, s with S n, String a s => String a (slice_to n s) | _, _ => EmptyString end.
Fixpoint slice_from (n : nat) (s : string) : string :=
  match n, s with S n, String _ s => slice_from n s | _, _ => s end.

(** A number as text; twenty digits are enough for every number below. *)
Definition digit_char (d : Z) : ascii := ascii_of_N (Z.to_N (48 + d)).
Fixpoint show_loop (fuel : nat) (n : Z) : string :=
  match fuel with
  | O => EmptyString
  | S fuel => let prefix := if n <? 10 then EmptyString else show_loop fuel (n / 10) in (prefix ++ String (digit_char (n mod 10)) EmptyString)%string
  end.
Definition show (n : Z) : string := show_loop 20 n.

(** ** Socket addresses *)

Record ParsedUdpSocketAddr := mkParsed { ps_addr : string; canonical : string; ps_key : string }.

Section Addresses.
(** [new URL("http://[" + host + "]/").hostname], where it does not throw. *)
Context (URL_hostname : string -> option string).

Definition parseReusablePort (value : string) : option Z :=
  if negb (all_digits value && (1 <=? String.length value)%nat) then None else
  let port := decimal 0 value in
  if isSafeInteger port && (0 <? port) && (port <=? 65535) then Some port else None.

Definition parseIpv6Scope (value : string) : option Z :=
  if negb (all_digits value && (1 <=? String.length value)%nat) then None else
  let scope := decimal 0 value in
  if isSafeInteger scope && (0 <=? scope) && (scope <=? 0xffffffff) then Some scope else None.

(** [/^(0|[1-9][0-9]{0,2})$/], and at most 255. *)
Definition octet_text (s : string) : bool :=
  match s with
  | String c EmptyString => is_digit c
  | String c s => is_digit c && negb (bool_decide (c = "0"%char)) && all_digits s && (String.length s <=? 2)%nat
  | EmptyString => false
  end.

Definition parseIpv4SocketAddr (addr : string) : option string :=
  match last_index_of ":"%char addr with
  | None | Some O => None
  | Some separator =>
      if negb (bool_decide (index_of ":"%char addr = Some separator)) then None else
      port ← parseReusablePort (slice_from (S separator) addr);
      let octetStrings := split_on "."%char (slice_to separator addr) in
      if negb (length octetStrings =? 4)%nat then None else
      let octets := map (decimal 0) octetStrings in
      if negb (forallb octet_text octetStrings && forallb (fun o => o <=? 255) octets) then None else
      if forallb (fun o => o =? 0) octets then None else
      let first := default 0 (head octets) in
      if (224 <=? first) && (first <=? 239) then None else
      Some (String.concat "." (map show octets) ++ ":" ++ show port)%string
  end.

Definition last_char (s : string) : option ascii := String.get (String.length s - 1) s.

Definition parseIpv6SocketAddr (addr : string) : option string :=
  match index_of "]"%char addr with
  | None | Some O | Some 1%nat => None
  | Some closing =>
      if negb (bool_decide (String.get (closing + 1) addr = Some ":"%char)) then None else
      port ← parseReusablePort (slice_from (closing + 2) addr);
      let hostAndScope := slice_from 1 (slice_to closing addr) in
      if negb (bool_decide (index_of "%"%char hostAndScope = last_index_of "%"%char hostAndScope)) then None else
      let '(host, scope) := match index_of "%"%char hostAndScope with
        | None => (hostAndScope, Some 0)
        | Some i => (slice_to i hostAndScope, parseIpv6Scope (slice_from (S i) hostAndScope))
        end in
      scope ← scope;
      urlHost ← URL_hostname host;
      if negb (bool_decide (String.get 0 urlHost = Some "["%char)) || negb (bool_decide (last_char urlHost = Some "]"%char)) then None else
      let normalizedHost := toLowerCase (slice_from 1 (slice_to (String.length urlHost - 1) urlHost)) in
      if bool_decide (normalizedHost = "::"%string) || String.prefix "ff" normalizedHost then None else
      let normalizedScope := if scope =? 0 then EmptyString else String "%" (show scope) in
      Some ("[" ++ normalizedHost ++ normalizedScope ++ "]:" ++ show port)%string
  end.

Definition requireString (v : option Json) : result string :=
  match v with Some (JString s) => Ok s | _ => Throw (Error "must be a string") end.

Definition requireNonEmptyString (v : option Json) : result string :=
  s ← requireString v;
  throw_if (bool_decide (s = EmptyString)) (Error "must not be empty");; Ok s.

Definition requireReusableUdpSocketAddr (v : option Json) : result ParsedUdpSocketAddr :=
  addr ← requireNonEmptyString v;
  match (if bool_decide (String.get 0 addr = Some "["%char) then parseIpv6SocketAddr addr else parseIpv4SocketAddr addr) with
  | None => Throw (Error "must be a reusable numeric UDP socket address")
  | Some c => Ok (mkParsed addr c c)
  end.

(** ** The cache *)

Definition RECENT_PEERS_VERSION : Z := 1.
Definition RECENT_PEERS_MAX_PEERS : Z := 256.
Definition RECENT_PEERS_MAX_ENDPOINTS : Z := 4.

(** The transport of an endpoint is always ["udp"]. *)
Record RecentPeerEndpoint := mkEndpoint { ep_addr : string; ep_last : Z }.
Record RecentPeer := mkRecentPeer { rp_last : Z; endpoints : list RecentPeerEndpoint }.
(** The version is always 1. *)
Record RecentPeers := mkRecentPeers { local_npub : string; scope : string; peers : list (string * RecentPeer) }.

(** The cache as a value of the language. *)
Definition json_endpoint (e : RecentPeerEndpoint) : Json :=
  JObject [("transport", JString "udp"); ("addr", JString (ep_addr e)); ("last_authenticated_at_ms", JInteger (ep_last e))]%string.
Definition json_peer (p : RecentPeer) : Json :=
  JObject [("last_authenticated_at_ms", JInteger (rp_last p)); ("endpoints", JArray (map json_endpoint (endpoints p)))]%string.
Definition json_recent (r : RecentPeers) : Json :=
  JObject [("version", JInteger RECENT_PEERS_VERSION); ("local_npub", JString (local_npub r)); ("scope", JString (scope r));
    ("peers", JObject (map (fun kp => (fst kp, json_peer (snd kp))) (peers r)))]%string.

Definition compareStrings (left right : string) : Z := match String.compare left right with Lt => -1 | Gt => 1 | Eq => 0 end.

Definition compareEndpoints (left right : RecentPeerEndpoint) : Z :=
  let d := ep_last right - ep_last left in if d =? 0 then compareStrings (ep_addr left) (ep_addr right) else d.

Definition comparePeers (left right : string * RecentPeer) : Z :=
  let d := rp_last (snd right) - rp_last (snd left) in if d =? 0 then compareStrings (fst right) (fst left) else d.

Definition requireRecord (v : option Json) : result (list (string * Json)) :=
  match v with Some (JObject fs) => Ok fs | _ => Throw (Error "must be an object") end.

Definition requireExactKeys (fs : list (string * Json)) (expectedKeys : list string) : result unit :=
  throw_if (negb (bool_decide (js_sort compareStrings (map fst fs) = js_sort compareStrings expectedKeys))) (Error "has unexpected keys").

Definition requireTimestamp (v : option Json) : result Z :=
  match v with Some (JInteger z) => if isSafeInteger z && (0 <=? z) then Ok z else Throw (Error "must be a non-negative safe integer")
  | _ => Throw (Error "must be a non-negative safe integer") end.

Definition requireCanonicalNpub `{Bech32} (v : option Json) : result string :=
  npub ← requireString v;
  match (b ← decodeNpub npub; encodeNpub b) with
  | Ok s => if bool_decide (s = npub) then Ok npub else Throw (Error "must be a canonical npub")
  | Throw _ => Throw (Error "must be a canonical npub")
  end.

Fixpoint mapM {A B} (f : A -> result B) (l : list A) : result (list B) :=
  match l with [] => Ok [] | x :: l => y ← f x; ys ← mapM f l; Ok (y :: ys) end.

Definition udp_key (addr : string) : result string := p ← requireReusableUdpSocketAddr (Some (JString addr)); Ok (ps_key p).

Definition parseRecentPeerEndpoint (peerAuthenticatedAtMs : Z) (value : Json) : result RecentPeerEndpoint :=
  endpoint ← requireRecord (Some value);
  requireExactKeys endpoint ["transport"; "addr"; "last_authenticated_at_ms"]%string;;
  throw_if (negb (string_is (prop endpoint "transport") "udp")) (Error "recent peer endpoint transport must be udp");;
  addr ← requireReusableUdpSocketAddr (prop endpoint "addr");
  last ← requireTimestamp (prop endpoint "last_authenticated_at_ms");
  throw_if (last >? peerAuthenticatedAtMs) (Error "recent peer endpoint is newer than its peer");;
  Ok (mkEndpoint (ps_addr addr) last).

Definition parseRecentPeer (value : Json) : result RecentPeer :=
  peer ← requireRecord (Some value);
  requireExactKeys peer ["last_authenticated_at_ms"; "endpoints"]%string;;
  last ← requireTimestamp (prop peer "last_authenticated_at_ms");
  match prop peer "endpoints" with
  | Some (JArray l) =>
      throw_if (len l >? RECENT_PEERS_MAX_ENDPOINTS) (Error "recent peer exceeds the endpoints");;
      eps ← mapM (parseRecentPeerEndpoint last) l;
      addresses ← mapM (fun e => udp_key (ep_addr e)) eps;
      throw_if (negb (bool_decide (NoDup addresses))) (Error "recent peer endpoints must have unique UDP addresses");;
      Ok (mkRecentPeer last eps)
  | _ => Throw (Error "recent peer endpoints must be an array")
  end.

Section Cache.
Context `{Bech32}.

Definition createRecentPeers (localNpub scope : Json) : result RecentPeers :=
  npub ← requireCanonicalNpub (Some localNpub);
  s ← requireString (Some scope);
  Ok (mkRecentPeers npub s []).

Definition parse_entry (localNpub : string) (entry : string * Json) : result (string * RecentPeer) :=
  npub ← requireCanonicalNpub (Some (JString (fst entry)));
  throw_if (bool_decide (npub = localNpub)) (Error "recent peers must not contain the local identity");;
  p ← parseRecentPeer (snd entry);
  Ok (npub, p).

Definition parseRecentPeers (value : Json) (expectedLocalNpub expectedScope : string) : result RecentPeers :=
  requireCanonicalNpub (Some (JString expectedLocalNpub));;
  root ← requireRecord (Some value);
  requireExactKeys root ["version"; "local_npub"; "scope"; "peers"]%string;;
  throw_if (match prop root "version" with Some (JInteger v) => negb (v =? RECENT_PEERS_VERSION) | _ => true end) (Error "recent peers version must be 1");;
  localNpub ← requireCanonicalNpub (prop root "local_npub");
  throw_if (negb (bool_decide (localNpub = expectedLocalNpub))) (Error "recent peers local_npub does not match the expected identity");;
  scope ← requireString (prop root "scope");
  throw_if (negb (bool_decide (scope = expectedScope))) (Error "recent peers scope does not match the expected scope");;
  entries ← requireRecord (prop root "peers");
  throw_if (len entries >? RECENT_PEERS_MAX_PEERS) (Error "recent peers exceeds the peers");;
  ps ← mapM (parse_entry localNpub) entries;
  Ok (mkRecentPeers localNpub scope ps).

Definition capPeers (ps : list (string * RecentPeer)) : list (string * RecentPeer) :=
  take (Z.to_nat RECENT_PEERS_MAX_PEERS) (js_sort comparePeers ps).

(** [find] and [filter] of the endpoints by their keys. *)
Fixpoint find_key (key : string) (l : list RecentPeerEndpoint) : result (option RecentPeerEndpoint) :=
  match l with
  | [] => Ok None
  | e :: l => k ← udp_key (ep_addr e); if bool_decide (k = key) then Ok (Some e) else find_key key l
  end.

Fixpoint filter_key (key : string) (l : list RecentPeerEndpoint) : result (list RecentPeerEndpoint) :=
  match l with
  | [] => Ok []
  | e :: l => k ← udp_key (ep_addr e); rest ← filter_key key l; Ok (if bool_decide (k = key) then rest else e :: rest)
  end.

Definition add_endpoint (key canonical : string) (atMs : Z) (l : list RecentPeerEndpoint) : result (list RecentPeerEndpoint) :=
  previous ← find_key key l;
  others ← filter_key key l;
  Ok (others ++ [mkEndpoint canonical (Z.max (match previous with Some e => ep_last e | None => 0 end) atMs)]).

Definition observeAuthenticatedPeer (r : RecentPeers) (remoteNpub : string) (authenticatedAtMs : Z) (udpAddr : option string) : result RecentPeers :=
  parsed ← parseRecentPeers (json_recent r) (local_npub r) (scope r);
  requireCanonicalNpub (Some (JString remoteNpub));;
  throw_if (bool_decide (remoteNpub = local_npub parsed)) (Error "cannot observe the local identity as a recent peer");;
  requireTimestamp (Some (JInteger authenticatedAtMs));;
  parsedUdpAddr ← match udpAddr with None => Ok None | Some a => p ← requireReusableUdpSocketAddr (Some (JString a)); Ok (Some p) end;
  let existing := JsMap.get_ (peers parsed) remoteNpub in
  let last := Z.max (match existing with Some p => rp_last p | None => 0 end) authenticatedAtMs in
  let eps := match existing with Some p => endpoints p | None => [] end in
  eps ← match parsedUdpAddr with None => Ok eps | Some p => add_endpoint (ps_key p) (canonical p) authenticatedAtMs eps end;
  let eps := js_sort compareEndpoints eps in
  let eps := take (Z.to_nat (Z.min (len eps) RECENT_PEERS_MAX_ENDPOINTS)) eps in
  Ok (mkRecentPeers (local_npub parsed) (scope parsed) (capPeers (JsMap.set_ (peers parsed) remoteNpub (mkRecentPeer last eps)))).

(** The entries that are not older than [cutoff]. *)
Definition prune_peers (cutoff : Z) (ps : list (string * RecentPeer)) : list (string * RecentPeer) :=
  map (fun kp => (fst kp, mkRecentPeer (rp_last (snd kp)) (js_sort compareEndpoints (base.filter (fun e => cutoff <= ep_last e) (endpoints (snd kp))))))
    (base.filter (fun kp => cutoff <= rp_last (snd kp)) ps).

Definition pruneRecentPeers (r : RecentPeers) (nowMs ttlMs : Z) : result RecentPeers :=
  parsed ← parseRecentPeers (json_recent r) (local_npub r) (scope r);
  requireTimestamp (Some (JInteger nowMs));;
  requireTimestamp (Some (JInteger ttlMs));;
  Ok (mkRecentPeers (local_npub parsed) (scope parsed) (capPeers (prune_peers (nowMs - ttlMs) (peers parsed)))).
End Cache.
End Addresses.

(** ** Facts on texts *)

#[local] Arguments String.append : simpl nomatch.

Fixpoint free (c : ascii) (s : string) : bool := match s with EmptyString => true | String a s => negb (bool_decide (a = c)) && free c s end.

Lemma free_app c s t : free c (s ++ t)%string = free c s && free c t.
Proof. induction s as [|a s IH]; cbn; [done|]. by rewrite IH, andb_assoc. Qed.

Lemma free_digits c s : all_digits s = true -> is_digit c = false -> free c s = true.
Proof.
  induction s as [|a s IH]; cbn; [done|]. intros [Ha Hs]%andb_true_iff Hc. rewrite IH by done. rewrite bool_decide_false; [done|]. intros ->. congruence.
Qed.

Lemma index_free c s : free c s = true -> index_of c s = None /\ last_index_of c s = None.
Proof.
  induction s as [|a s IH]; cbn; [done|]. intros [Ha Hs]%andb_true_iff. destruct (IH Hs) as [-> ->]. apply negb_true_iff, bool_decide_eq_false in Ha.
  by rewrite !decide_False.
Qed.

Lemma index_app c s t : free c s = true -> index_of c (s ++ String c t)%string = Some (String.length s).
Proof.
  induction s as [|a s IH]; cbn; [by rewrite decide_True|]. intros [Ha Hs]%andb_true_iff. apply negb_true_iff, bool_decide_eq_false in Ha.
  by rewrite decide_False, IH.
Qed.

Lemma last_index_app c s t : free c t = true -> last_index_of c (s ++ String c t)%string = Some (String.length s).
Proof.
  intros Ht. induction s as [|a s IH]; cbn; [by rewrite (proj2 (index_free c t Ht)), decide_True|]. by rewrite IH.
Qed.

Lemma slice_to_app s t : slice_to (String.length s) (s ++ t)%string = s.
Proof. induction s as [|a s IH]; cbn; [by destruct t|]. by rewrite IH. Qed.

Lemma slice_from_app s t : slice_from (String.length s) (s ++ t)%string = t.
Proof. induction s as [|a s IH]; cbn; [done|]. done. Qed.

Lemma slice_from_S n a s : slice_from (S n) (String a s) = slice_from n s.
Proof. done. Qed.

Lemma slice_after s c t : slice_from (S (String.length s)) (s ++ String c t)%string = t.
Proof. induction s as [|a s IH]; [done|]. exact IH. Qed.

Lemma get_app s c t : String.get (String.length s) (s ++ String c t)%string = Some c.
Proof. induction s as [|a s IH]; [done|]. exact IH. Qed.

Lemma split_free c s : free c s = true -> split_on c s = [s].
Proof.
  induction s as [|a s IH]; cbn; [done|]. intros [Ha Hs]%andb_true_iff. apply negb_true_iff, bool_decide_eq_false in Ha. rewrite IH by done. by destruct (decide (a = c)).
Qed.

Lemma split_app c s t : free c s = true -> split_on c (s ++ String c t)%string = s :: split_on c t.
Proof.
  induction s as [|a s IH]; cbn; [by destruct (decide (c = c))|]. intros [Ha Hs]%andb_true_iff. apply negb_true_iff, bool_decide_eq_false in Ha.
  rewrite IH by done. by destruct (decide (a = c)).
Qed.

Lemma decimal_app acc s t : decimal acc (s ++ t)%string = decimal (decimal acc s) t.
Proof. revert acc. induction s as [|a s IH]; intros acc; cbn; [done|]. apply IH. Qed.

Lemma digits_app s t : all_digits (s ++ t)%string = all_digits s && all_digits t.
Proof. induction s as [|a s IH]; cbn; [done|]. by rewrite IH, andb_assoc. Qed.

Lemma length_app_string s t : String.length (s ++ t)%string = (String.length s + String.length t)%nat.
Proof. induction s as [|a s IH]; cbn; [done|]. by rewrite IH. Qed.

Lemma string_app_assoc (s t u : string) : ((s ++ t) ++ u = s ++ (t ++ u))%string.
Proof. induction s as [|a s IH]; cbn; [done|]. by rewrite IH. Qed.

Lemma digit_char_ok d : 0 <= d < 10 -> is_digit (digit_char d) = true /\ Z.of_N (N_of_ascii (digit_char d)) = 48 + d.
Proof.
  intros Hd. assert (Hc : Forall (fun d => is_digit (digit_char d) = true /\ Z.of_N (N_of_ascii (digit_char d)) = 48 + d) [0; 1; 2; 3; 4; 5; 6; 7; 8; 9]).
  { repeat constructor. }
  rewrite Forall_forall in Hc. apply Hc. assert (d = 0 \/ d = 1 \/ d = 2 \/ d = 3 \/ d = 4 \/ d = 5 \/ d = 6 \/ d = 7 \/ d = 8 \/ d = 9) as Hx by lia.
  repeat destruct Hx as [-> | Hx]; try (subst; set_solver).
Qed.

Lemma show_loop_S f n : show_loop (S f) n = ((if Z.ltb n 10 then EmptyString else show_loop f (n / 10)) ++ String (digit_char (n mod 10)) EmptyString)%string.
Proof. done. Qed.

Lemma show_loop_ok f n : 0 <= n < 10 ^ Z.of_nat (S f) ->
  all_digits (show_loop (S f) n) = true /\ (1 <= String.length (show_loop (S f) n))%nat /\ decimal 0 (show_loop (S f) n) = n.
Proof.
  revert n. induction f as [|f IH]; intros n Hn; rewrite show_loop_S.
  - change (10 ^ Z.of_nat 1) with 10 in Hn. rewrite (proj2 (Z.ltb_lt _ _)) by lia. cbn. rewrite Z.mod_small by lia. destruct (digit_char_ok n ltac:(lia)) as [-> ->]. split; [done|]. split; [lia|]. lia.
  - destruct (digit_char_ok (n mod 10) ltac:(apply Z.mod_pos_bound; lia)) as [Hd Hv]. rewrite digits_app, length_app_string, decimal_app. cbn [all_digits String.length decimal]. rewrite Hd, Hv.
    destruct (Z.ltb_spec n 10) as [Hlt|Hge]; cbn [all_digits String.length decimal andb].
    + rewrite Z.mod_small by lia. split; [done|]. split; [lia|]. lia.
    + rewrite (Nat2Z.inj_succ (S f)), Z.pow_succ_r in Hn by lia. destruct (IH (n / 10)) as (-> & _ & ->); [split; [apply Z.div_pos; lia|apply Z.div_lt_upper_bound; lia]|].
      split; [done|]. split; [lia|]. pose proof (Z.div_mod n 10 ltac:(lia)). lia.
Qed.

Lemma show_ok n : 0 <= n < 10 ^ 20 -> all_digits (show n) = true /\ (1 <= String.length (show n))%nat /\ decimal 0 (show n) = n.
Proof. intros Hn. by apply show_loop_ok. Qed.

Lemma show_octet n : 0 <= n <= 255 -> octet_text (show n) = true.
Proof.
  intros Hn. assert (Hc : forallb (fun n => octet_text (show (Z.of_nat n))) (seq 0 256) = true) by (vm_compute; reflexivity).
  rewrite forallb_forall in Hc. rewrite <- (Z2Nat.id n) by lia. apply Hc. apply in_seq. lia.
Qed.

Lemma decimal_nonneg acc s : 0 <= acc -> all_digits s = true -> 0 <= decimal acc s.
Proof.
  revert acc. induction s as [|a s IH]; intros acc Hacc; cbn; [done|]. intros [Ha Hs]%andb_true_iff. apply IH; [|done]. unfold is_digit in Ha. cbv zeta in Ha. apply andb_true_iff in Ha as [H1%Z.leb_le H2%Z.leb_le]. lia.
Qed.

Lemma octet_digits s : octet_text s = true -> all_digits s = true.
Proof.
  destruct s as [|a [|b s]]; cbn [octet_text]; [done|intros Ha; change (is_digit a && true = true); by rewrite Ha|]. intros H.
  apply andb_true_iff in H as [[[Ha _]%andb_true_iff Hs]%andb_true_iff _]. change (is_digit a && all_digits (String b s) = true). by rewrite Ha.
Qed.

(** ** Addresses are normalized once and for all *)

Lemma port_ok s p : parseReusablePort s = Some p -> 0 < p <= 65535.
Proof. unfold parseReusablePort. destruct (negb _); [done|]. destruct (_ && _ && _) eqn:E; [|done]. intros [= <-]. bool_split. lia. Qed.

Lemma port_show p : 0 < p <= 65535 -> parseReusablePort (show p) = Some p.
Proof.
  intros Hp. destruct (show_ok p ltac:(lia)) as (Hd & Hl & Hv). unfold parseReusablePort. rewrite Hd, Hv, (proj2 (Nat.leb_le _ _) Hl). cbn [andb negb].
  unfold isSafeInteger. rewrite !(proj2 (Z.leb_le _ _)), (proj2 (Z.ltb_lt _ _)) by lia. done.
Qed.

Lemma show_free c n : 0 <= n < 10 ^ 20 -> is_digit c = false -> free c (show n) = true.
Proof. intros Hn Hc. apply free_digits; [by apply show_ok|done]. Qed.

(** The text of four octets and a port. *)
Lemma ipv4_text a b c d port : 0 <= a <= 255 -> 0 <= b <= 255 -> 0 <= c <= 255 -> 0 <= d <= 255 -> 0 < port <= 65535 ->
  forallb (fun o => o =? 0) [a; b; c; d] = false -> (224 <=? a) && (a <=? 239) = false ->
  let text := (String.concat "." (map show [a; b; c; d]) ++ ":" ++ show port)%string in
  parseIpv4SocketAddr text = Some text /\ String.get 0 text <> Some "["%char /\ text <> EmptyString.
Proof.
  intros Ha Hb Hc Hd Hp Hz Hm. cbv zeta. set (host := String.concat "." (map show [a; b; c; d])).
  assert (Ehost : host = (show a ++ String "." (show b ++ String "." (show c ++ String "." (show d))))%string) by done.
  assert (Hfree : free ":"%char host = true). { rewrite Ehost. repeat (rewrite free_app || (rewrite (show_free ":"%char) by (done || lia)) || (progress (cbn [free]))). done. }
  assert (Hne : exists x h, host = String x h /\ is_digit x = true).
  { destruct (show_ok a ltac:(lia)) as (Hda & Hla & _). rewrite Ehost. destruct (show a) as [|x h]; [cbn in Hla; lia|]. exists x. eexists. split; [reflexivity|].
    cbn [all_digits] in Hda. by apply andb_true_iff in Hda as [? _]. }
  change (":" ++ show port)%string with (String ":"%char (show port)).
  split.
  - unfold parseIpv4SocketAddr. rewrite last_index_app by (apply show_free; [lia|done]). rewrite index_app by done.
    destruct Hne as (x & h & Ex & _). assert (El : exists n, String.length host = S n) by (rewrite Ex; by eexists). destruct El as [n El]. rewrite El. rewrite bool_decide_true by done. cbn [negb].
    rewrite <- El, slice_after, port_show by lia. cbn [mbind option_bind]. rewrite slice_to_app, Ehost.
    rewrite !split_app, split_free by (apply show_free; [lia|done]). cbn [length Nat.eqb negb map]. 
    assert (Hdec : map (decimal 0) [show a; show b; show c; show d] = [a; b; c; d]) by (cbn [map]; by rewrite !(fun n Hn => proj2 (proj2 (show_ok n Hn))) by lia).
    cbn [map] in Hdec. rewrite Hdec. rewrite Hz. cbv zeta. change (default 0 (head [a; b; c; d])) with a. rewrite Hm. cbn [forallb map]. rewrite !show_octet, !(proj2 (Z.leb_le _ _)) by lia. cbn [andb negb].
    rewrite !(fun n Hn => proj2 (proj2 (show_ok n Hn))) by lia. reflexivity.
  - destruct Hne as (x & h & Ex & Hx). rewrite Ex. split; [|done]. cbn. intros [= ->]. done.
Qed.

Lemma ipv4_canonical a c : parseIpv4SocketAddr a = Some c -> parseIpv4SocketAddr c = Some c /\ String.get 0 c <> Some "["%char /\ c <> EmptyString.
Proof.
  unfold parseIpv4SocketAddr at 1. destruct (last_index_of _ a) as [[|sep]|]; [done| |done]. destruct (negb _); [done|].
  destruct (parseReusablePort _) as [port|] eqn:Ep; [|done]. apply port_ok in Ep. cbn [mbind option_bind].
  destruct (split_on _ _) as [|s1 [|s2 [|s3 [|s4 [|]]]]]; try done. cbv zeta. cbn [length Nat.eqb negb map].
  destruct (negb _) eqn:Et; [done|]. destruct (forallb (fun o => o =? 0) _) eqn:E0; [done|]. change (default 0 (head (decimal 0 s1 :: ?l))) with (decimal 0 s1). match goal with |- (if ?b then None else _) = _ -> _ => destruct b eqn:Em; [done|] end.
  intros [= <-]. apply negb_false_iff, andb_true_iff in Et as [Ho Hv]. cbn [forallb] in Ho, Hv. bool_split.
  apply (ipv4_text (decimal 0 s1) (decimal 0 s2) (decimal 0 s3) (decimal 0 s4) port); try done; (split; [|done]); apply decimal_nonneg; try done; by apply octet_digits.
Qed.

(** What the URL parser answers for an address in brackets: its normal form, in
    lower-case digits and colons, which is its own normal form. *)
Definition v6_char (c : ascii) : bool := is_digit c || (let n := Z.of_N (N_of_ascii c) in (97 <=? n) && (n <=? 102)) || bool_decide (c = ":"%char).
Fixpoint v6_text (s : string) : bool := match s with EmptyString => true | String c s => v6_char c && v6_text s end.

Class UrlLaws (URL_hostname : string -> option string) : Prop := {
  url_ipv6 h u : URL_hostname h = Some u -> String.get 0 u = Some "["%char -> last_char u = Some "]"%char ->
    exists m, u = String "["%char (m ++ "]")%string /\ v6_text m = true /\ m <> EmptyString /\ URL_hostname m = Some u;
}.

Lemma v6_free c s : v6_text s = true -> v6_char c = false -> free c s = true.
Proof.
  induction s as [|a s IH]; cbn [v6_text free]; [done|]. intros [Ha Hs]%andb_true_iff Hc. rewrite IH by done. rewrite bool_decide_false; [done|]. intros ->. congruence.
Qed.

Lemma v6_lower s : v6_text s = true -> toLowerCase s = s.
Proof.
  induction s as [|a s IH]; cbn [v6_text toLowerCase]; [done|]. intros [Ha Hs]%andb_true_iff. rewrite IH by done. f_equal.
  revert Ha. clear. destruct a as [[] [] [] [] [] [] [] []]; vm_compute; done.
Qed.

Section Ipv6.
Context (URL_hostname : string -> option string) `{UrlLaws URL_hostname}.

Lemma scope_show n : 0 <= n <= 0xffffffff -> parseIpv6Scope (show n) = Some n.
Proof.
  intros Hp. destruct (show_ok n ltac:(lia)) as (Hd & Hl & Hv). unfold parseIpv6Scope. rewrite Hd, Hv, (proj2 (Nat.leb_le _ _) Hl). cbn [andb negb].
  unfold isSafeInteger. rewrite !(proj2 (Z.leb_le _ _)) by lia. done.
Qed.

Lemma ipv6_canonical a c : parseIpv6SocketAddr URL_hostname a = Some c -> parseIpv6SocketAddr URL_hostname c = Some c /\ String.get 0 c = Some "["%char /\ c <> EmptyString.
Proof.
  unfold parseIpv6SocketAddr at 1. destruct (index_of _ a) as [[|[|closing]]|]; try done. destruct (negb _); [done|].
  destruct (parseReusablePort _) as [port|] eqn:Ep; [|done]. apply port_ok in Ep. cbn [mbind option_bind]. cbv zeta. destruct (negb _); [done|].
  match goal with |- context [let '(_, _) := ?x in _] => destruct x as [host [sc|]] eqn:Es end; [|done]. cbn [mbind option_bind].
  assert (Hsc : 0 <= sc <= 0xffffffff).
  { revert Es. destruct (index_of "%"%char _) as [k|]; [|intros [= _ <-]; lia]. unfold parseIpv6Scope. intros [= _ Es]. destruct (negb _); [done|].
    destruct (_ && _ && _) eqn:E; [|done]. injection Es as <-. bool_split. lia. }
  clear Es. destruct (URL_hostname host) as [u|] eqn:Eu; [|done]. cbn [mbind option_bind]. destruct (negb _ || negb _) eqn:Eb; [done|].
  apply orb_false_iff in Eb as [E1 E2]. apply negb_false_iff, bool_decide_eq_true in E1, E2. destruct (url_ipv6 host u Eu E1 E2) as (m & -> & Hm & Hne & Hurl).
  assert (Eslice : slice_from 1 (slice_to (String.length (String "["%char (m ++ "]")%string) - 1) (String "["%char (m ++ "]")%string)) = m).
  { cbn [String.length]. rewrite length_app_string. cbn [String.length]. replace (S (String.length m + 1) - 1)%nat with (S (String.length m)) by lia. cbn [slice_to slice_from]. apply slice_to_app. }
  rewrite Eslice, v6_lower by done. destruct (bool_decide (m = "::"%string) || String.prefix "ff" m) eqn:Ebad; [done|]. intros [= <-].
  set (sctext := if sc =? 0 then EmptyString else String "%" (show sc)).
  assert (Hfm : free "]"%char m = true /\ free "%"%char m = true) by (by split; apply v6_free). destruct Hfm as [Hf1 Hf2].
  assert (Hfs : free "]"%char sctext = true). { unfold sctext. destruct (sc =? 0); [done|]. cbn [free]. by rewrite show_free by (done || lia). }
  set (body := (m ++ sctext)%string). assert (Hfb : free "]"%char body = true) by (unfold body; by rewrite free_app, Hf1, Hfs).
  match goal with |- parseIpv6SocketAddr _ ?t = _ /\ _ => set (text := t) end.
  assert (Ec : text = (String "["%char body ++ String "]"%char (String ":"%char (show port)))%string).
  { unfold text, body. change ("]:" ++ show port)%string with (String "]"%char (String ":"%char (show port))). cbn. f_equal. by rewrite string_app_assoc. }
  rewrite Ec. split; [|split; [done|done]]. unfold parseIpv6SocketAddr.
  rewrite index_app by (cbn [free]; by rewrite Hfb). cbn [String.length].
  assert (Hlen : exists n, String.length body = S n).
  { unfold body. destruct m as [|x m']; [done|]. by eexists. }
  destruct Hlen as [n Hlen]. rewrite Hlen.
  assert (Eget : String.get (S (S n) + 1) (String "["%char body ++ String "]"%char (String ":"%char (show port)))%string = Some ":"%char).
  { replace (S (S n) + 1)%nat with (String.length (String "["%char body ++ "]")%string) by (rewrite length_app_string; cbn [String.length]; lia).
    change (String "]"%char (String ":"%char (show port))) with ("]" ++ String ":"%char (show port))%string. rewrite <- string_app_assoc. apply get_app. }
  rewrite Eget. rewrite bool_decide_true by done. cbn [negb].
  assert (Eport : slice_from (S (S n) + 2) (String "["%char body ++ String "]"%char (String ":"%char (show port)))%string = show port).
  { replace (S (S n) + 2)%nat with (S (String.length (String "["%char body ++ "]")%string)) by (rewrite length_app_string; cbn [String.length]; lia).
    change (String "]"%char (String ":"%char (show port))) with ("]" ++ String ":"%char (show port))%string. rewrite <- string_app_assoc. apply slice_after. }
  rewrite Eport, port_show by lia. cbn [mbind option_bind]. cbv zeta.
  assert (Ehost : slice_from 1 (slice_to (S (S n)) (String "["%char body ++ String "]"%char (String ":"%char (show port)))%string) = body).
  { rewrite <- Hlen. change (S (String.length body)) with (String.length (String "["%char body)). rewrite slice_to_app. done. }
  rewrite Ehost. unfold body, sctext in *. destruct (Z.eqb_spec sc 0) as [->|Hnz].
  - assert (Em : (m ++ "")%string = m) by (clear; induction m as [|x m IH]; cbn; [done|by rewrite IH]). rewrite Em. destruct (index_free _ _ Hf2) as [-> ->]. rewrite bool_decide_true by done. cbn [negb].
    cbn [mbind option_bind]. rewrite Hurl. cbn [mbind option_bind]. rewrite E1, E2, !bool_decide_true by done. cbn [negb orb]. rewrite Eslice, v6_lower, Ebad by done. cbn [Z.eqb]. reflexivity.
  - assert (Hfsh : free "%"%char (show sc) = true) by (apply show_free; [lia|done]). rewrite index_app, last_index_app by done. rewrite bool_decide_true by done. cbn [negb].
    rewrite slice_to_app, slice_after, scope_show by lia. cbn [mbind option_bind]. rewrite Hurl. cbn [mbind option_bind]. rewrite E1, E2, !bool_decide_true by done. cbn [negb orb].
    rewrite Eslice, v6_lower, Ebad by done. rewrite (proj2 (Z.eqb_neq _ _) Hnz). exact (f_equal Some Ec).
Qed.

(** A normalized address is read as itself. *)
Lemma address_canonical v p : requireReusableUdpSocketAddr URL_hostname v = Ok p ->
  requireReusableUdpSocketAddr URL_hostname (Some (JString (canonical p))) = Ok (mkParsed (canonical p) (canonical p) (canonical p)) /\ ps_key p = canonical p /\
  requireReusableUdpSocketAddr URL_hostname (Some (JString (ps_addr p))) = Ok p.
Proof.
  intros E. assert (E' := E). unfold requireReusableUdpSocketAddr in E. apply result_bind_ok in E as (addr & Ea & E). unfold requireNonEmptyString in Ea. apply result_bind_ok in Ea as (s & Es & Ea).
  apply guard_Ok in Ea as [Hne [= ->]]. assert (v = Some (JString addr)) as -> by (destruct v as [[]|]; try done; cbn in Es; by injection Es as ->).
  assert (Hc : forall c, (if bool_decide (String.get 0 addr = Some "["%char) then parseIpv6SocketAddr URL_hostname addr else parseIpv4SocketAddr addr) = Some c ->
    requireReusableUdpSocketAddr URL_hostname (Some (JString c)) = Ok (mkParsed c c c)).
  { intros c Ec. unfold requireReusableUdpSocketAddr, requireNonEmptyString, requireString. cbn [mbind result_bind]. case_bool_decide as Hb.
    - apply ipv6_canonical in Ec as (Ec & Hg & Hn). rewrite bool_decide_false by done. cbn [throw_if mbind result_bind]. rewrite bool_decide_true by done. by rewrite Ec.
    - apply ipv4_canonical in Ec as (Ec & Hg & Hn). rewrite bool_decide_false by done. cbn [throw_if mbind result_bind]. rewrite bool_decide_false by done. by rewrite Ec. }
  destruct (if bool_decide _ then _ else _) as [c|] eqn:Ec; [|done]. injection E as <-. cbn. split; [by apply Hc|]. by split.
Qed.
End Ipv6.
