(* ===== verification/RecentPeersRules.v ===== *)
(** * Recent peers: the rules of the cache

    The cache that [RecentPeers] reads, observes and prunes keeps its rules and its
    newest entries ([cache_ok], [stored]); a cache that keeps them is read back
    as it was written. *)

From Stdlib Require Import Ascii Sorting.Sorted.
From S2P Require Import Prelude Codec Crypto Toy NodeAddr Identity Json RecentPeers.

#[local] Arguments String.append : simpl nomatch.

(** ** The cache keeps its rules *)

Lemma mapM_Ok {A B} (f : A -> result B) l ys : mapM f l = Ok ys <-> Forall2 (fun x y => f x = Ok y) l ys.
Proof.
  revert ys. induction l as [|x l IH]; intros ys; cbn; [split; [intros [= <-]; constructor|by intros ?%Forall2_nil_inv_l; subst]|]. split.
  - intros E. apply result_bind_ok in E as (y & Ey & E). apply result_bind_ok in E as (zs & Ez & [= <-]). constructor; [done|by apply IH].
  - intros (y & zs & Ey & Ez & ->)%Forall2_cons_inv_l. rewrite Ey. cbn. apply IH in Ez. by rewrite Ez.
Qed.

Lemma compareStrings_total a b : 0 <= compareStrings a b -> compareStrings b a <= 0.
Proof. unfold compareStrings. rewrite (String.compare_antisym b a). destruct (String.compare a b); cbn; lia. Qed.

Section Rules.
Context (URL_hostname : string -> option string) `{!UrlLaws URL_hostname} `{Bech32}.

Definition time_ok (t : Z) : Prop := 0 <= t <= 2 ^ 53 - 1.
Definition addr_ok (a : string) : Prop := is_ok (requireReusableUdpSocketAddr URL_hostname (Some (JString a))) = true.
Definition key_of (a : string) : string := ok_or (udp_key URL_hostname a) EmptyString.
Definition npub_ok (s : string) : Prop := requireCanonicalNpub (Some (JString s)) = Ok s.

Record peer_ok (p : RecentPeer) : Prop := {
  pk_time : time_ok (rp_last p);
  pk_few : len (endpoints p) <= RECENT_PEERS_MAX_ENDPOINTS;
  pk_endpoints : Forall (fun e => addr_ok (ep_addr e) /\ time_ok (ep_last e) /\ ep_last e <= rp_last p) (endpoints p);
  pk_distinct : NoDup (map (fun e => key_of (ep_addr e)) (endpoints p));
}.

Record cache_ok (r : RecentPeers) : Prop := {
  ck_local : npub_ok (local_npub r);
  ck_few : len (peers r) <= RECENT_PEERS_MAX_PEERS;
  ck_names : NoDup (map fst (peers r));
  ck_peers : Forall (fun kp => npub_ok (fst kp) /\ fst kp <> local_npub r /\ peer_ok (snd kp)) (peers r);
}.

Lemma timestamp_Ok v t : requireTimestamp v = Ok t <-> v = Some (JInteger t) /\ time_ok t.
Proof.
  unfold requireTimestamp, time_ok, isSafeInteger. destruct v as [[]|]; try (split; [done|by intros [[=] _]]). destruct (_ && _ && _) eqn:E; bool_split.
  - split; [intros [= ->]; split; [done|lia]|by intros [[= ->] _]].
  - split; [done|]. intros [[= ->] Ht]. rewrite !(proj2 (Z.leb_le _ _)) in E by lia. done.
Qed.

Lemma npub_Ok v s : requireCanonicalNpub v = Ok s <-> v = Some (JString s) /\ npub_ok s.
Proof.
  split; [|by intros [-> ?]]. intros E. assert (E' := E). unfold requireCanonicalNpub in E. apply result_bind_ok in E as (n & En & E).
  assert (v = Some (JString n)) as -> by (destruct v as [[]|]; cbn in En; try done; by injection En as ->).
  destruct (b ← decodeNpub n; encodeNpub b) as [x|]; [|done]. destruct (bool_decide (x = n)); [|done]. injection E as ->. by split.
Qed.

Lemma record_Ok v fs : requireRecord v = Ok fs <-> v = Some (JObject fs).
Proof. destruct v as [[]|]; cbn; naive_solver. Qed.

Lemma key_of_ok a : addr_ok a -> udp_key URL_hostname a = Ok (key_of a).
Proof. unfold addr_ok, key_of, udp_key. by destruct (requireReusableUdpSocketAddr URL_hostname (Some (JString a))). Qed.

Lemma addr_ok_of v p : requireReusableUdpSocketAddr URL_hostname v = Ok p -> addr_ok (ps_addr p) /\ addr_ok (canonical p) /\ key_of (canonical p) = ps_key p.
Proof. intros E. destruct (address_canonical URL_hostname v p E) as (E1 & E2 & E3). unfold addr_ok, key_of, udp_key. rewrite E1, E3. cbn. by rewrite E2. Qed.

Lemma addr_text a p : requireReusableUdpSocketAddr URL_hostname (Some (JString a)) = Ok p -> ps_addr p = a.
Proof.
  unfold requireReusableUdpSocketAddr. intros E. apply result_bind_ok in E as (s & Es & E). unfold requireNonEmptyString in Es. cbn in Es. apply guard_Ok in Es as [_ [= <-]].
  destruct (if bool_decide _ then _ else _); [|done]. by injection E as <-.
Qed.

Lemma endpoint_read last v e : parseRecentPeerEndpoint URL_hostname last v = Ok e -> addr_ok (ep_addr e) /\ time_ok (ep_last e) /\ ep_last e <= last.
Proof.
  unfold parseRecentPeerEndpoint. intros E. apply result_bind_ok in E as (fs & _ & E). apply result_bind_ok in E as ([] & _ & E). apply guard_Ok in E as [_ E].
  apply result_bind_ok in E as (p & Ep & E). apply result_bind_ok in E as (t & [_ Et]%timestamp_Ok & E). apply guard_Ok in E as [Hl [= <-]].
  rewrite Z.gtb_ltb in Hl. apply Z.ltb_ge in Hl. cbn. split; [by eapply addr_ok_of|done].
Qed.

Lemma endpoint_written last e : addr_ok (ep_addr e) -> time_ok (ep_last e) -> ep_last e <= last -> parseRecentPeerEndpoint URL_hostname last (json_endpoint e) = Ok e.
Proof.
  intros Ha Ht Hl. unfold parseRecentPeerEndpoint, json_endpoint, requireExactKeys. cbn [requireRecord mbind result_bind map fst]. rewrite bool_decide_true by done.
  cbn [negb throw_if mbind result_bind]. unfold prop. repeat (rewrite get_here || rewrite get_next by discriminate). cbn [string_is]. rewrite bool_decide_true by done.
  cbn [negb throw_if mbind result_bind]. unfold addr_ok in Ha. destruct (requireReusableUdpSocketAddr URL_hostname (Some (JString (ep_addr e)))) as [p|] eqn:Ep; [|done].
  cbn [mbind result_bind]. rewrite (proj2 (timestamp_Ok _ _) (conj eq_refl Ht)). cbn [mbind result_bind]. rewrite Z.gtb_ltb, (proj2 (Z.ltb_ge _ _)) by lia.
  cbn. rewrite (addr_text _ _ Ep). by destruct e.
Qed.

Lemma keys_read eps : Forall (fun e => addr_ok (ep_addr e)) eps -> mapM (fun e => udp_key URL_hostname (ep_addr e)) eps = Ok (map (fun e => key_of (ep_addr e)) eps).
Proof. intros Hf. apply mapM_Ok. induction Hf as [|e eps He _ IH]; cbn; constructor; [by apply key_of_ok|done]. Qed.

Lemma peer_read v p : parseRecentPeer URL_hostname v = Ok p -> peer_ok p.
Proof.
  unfold parseRecentPeer. intros E. apply result_bind_ok in E as (fs & _ & E). apply result_bind_ok in E as ([] & _ & E).
  apply result_bind_ok in E as (t & [_ Et]%timestamp_Ok & E). destruct (prop fs "endpoints") as [[| | | | |l| |]|]; try done. apply guard_Ok in E as [Hl E].
  apply result_bind_ok in E as (eps & Eeps & E). apply result_bind_ok in E as (ks & Eks & E). apply guard_Ok in E as [Hd [= <-]].
  apply mapM_Ok in Eeps. assert (Hf : Forall (fun e => addr_ok (ep_addr e) /\ time_ok (ep_last e) /\ ep_last e <= t) eps).
  { clear - Eeps UrlLaws0. induction Eeps as [|x e xs es Hx _ IH]; constructor; [by eapply endpoint_read|done]. }
  apply negb_false_iff, bool_decide_eq_true in Hd. rewrite Z.gtb_ltb in Hl. apply Z.ltb_ge in Hl. split; cbn; [done| |done|].
  - apply Forall2_length in Eeps. unfold len in *. by rewrite <- Eeps.
  - rewrite keys_read in Eks by (eapply Forall_impl; [exact Hf|]; by intros ? [? _]). injection Eks as <-. done.
Qed.

Lemma peer_written p : peer_ok p -> parseRecentPeer URL_hostname (json_peer p) = Ok p.
Proof.
  intros [H1 H2 H3 H4]. unfold parseRecentPeer, json_peer, requireExactKeys. cbn [requireRecord mbind result_bind map fst]. rewrite bool_decide_true by done.
  cbn [negb throw_if mbind result_bind]. unfold prop. repeat (rewrite get_here || rewrite get_next by discriminate). rewrite (proj2 (timestamp_Ok _ _) (conj eq_refl H1)).
  cbn [mbind result_bind]. assert (El : len (map json_endpoint (endpoints p)) = len (endpoints p)) by (unfold len; by rewrite length_map). rewrite El, Z.gtb_ltb, (proj2 (Z.ltb_ge _ _)) by done. cbn [throw_if mbind result_bind].
  assert (Em : mapM (parseRecentPeerEndpoint URL_hostname (rp_last p)) (map json_endpoint (endpoints p)) = Ok (endpoints p)).
  { apply mapM_Ok. clear - H3 UrlLaws0. induction H3 as [|e es (Ha & Ht & Hl) _ IH]; cbn; constructor; [by apply endpoint_written|done]. }
  rewrite Em. cbn [mbind result_bind]. rewrite keys_read by (eapply Forall_impl; [exact H3|]; by intros ? [? _]). cbn [mbind result_bind]. rewrite bool_decide_true by done. cbn. by destruct p.
Qed.

(** The names of the entries that a value holds. *)
Definition distinct_names (v : Json) : Prop := forall fs ps, v = JObject fs -> prop fs "peers" = Some (JObject ps) -> NoDup (map fst ps).

Lemma cache_read v npub sc r : distinct_names v -> parseRecentPeers URL_hostname v npub sc = Ok r -> cache_ok r /\ local_npub r = npub /\ scope r = sc.
Proof.
  intros Hn. unfold parseRecentPeers. intros E. apply result_bind_ok in E as (? & _ & E). apply result_bind_ok in E as (fs & Efs%record_Ok & E). injection Efs as ->.
  apply result_bind_ok in E as ([] & _ & E). apply guard_Ok in E as [_ E]. apply result_bind_ok in E as (n & [_ En]%npub_Ok & E). apply guard_Ok in E as [E1 E].
  apply result_bind_ok in E as (s & _ & E). apply guard_Ok in E as [E2 E]. apply result_bind_ok in E as (entries & Ee%record_Ok & E). apply guard_Ok in E as [Hl E].
  apply result_bind_ok in E as (ps & Eps & [= <-]). apply negb_false_iff, bool_decide_eq_true in E1, E2. cbn. split; [|by split]. apply mapM_Ok in Eps.
  rewrite Z.gtb_ltb in Hl. apply Z.ltb_ge in Hl. specialize (Hn fs entries eq_refl Ee).
  assert (Hx : map fst ps = map fst entries /\ Forall (fun kp => npub_ok (fst kp) /\ fst kp <> n /\ peer_ok (snd kp)) ps).
  { clear - Eps UrlLaws0. induction Eps as [|x y xs ys Hxy _ [IH1 IH2]]; [done|]. unfold parse_entry in Hxy. apply result_bind_ok in Hxy as (m & [[= Em] Hm]%npub_Ok & Hxy).
    apply guard_Ok in Hxy as [Hne Hxy]. apply result_bind_ok in Hxy as (p & Hp%peer_read & [= <-]). apply bool_decide_eq_false in Hne. cbn. rewrite IH1, Em. split; [done|].
    by constructor. }
  destruct Hx as [Hk Hf]. split; cbn; [done| |by rewrite Hk|done]. apply Forall2_length in Eps. unfold len in *. by rewrite <- Eps.
Qed.

Lemma cache_written r : cache_ok r -> parseRecentPeers URL_hostname (json_recent r) (local_npub r) (scope r) = Ok r.
Proof.
  intros [H1 H2 H3 H4]. unfold parseRecentPeers, json_recent. rewrite H1. unfold requireExactKeys. cbn [requireRecord mbind result_bind map fst]. rewrite bool_decide_true by (vm_compute; reflexivity).
  cbn [negb throw_if mbind result_bind]. unfold prop. repeat (rewrite get_here || rewrite get_next by discriminate).
  cbn [negb throw_if mbind result_bind RECENT_PEERS_VERSION Z.eqb Pos.eqb requireString requireRecord]. rewrite H1. cbn [mbind result_bind]. rewrite !bool_decide_true by done. cbn [negb throw_if mbind result_bind].
  assert (El : len (map (fun kp => (fst kp, json_peer (snd kp))) (peers r)) = len (peers r)) by (unfold len; by rewrite length_map). rewrite El, Z.gtb_ltb, (proj2 (Z.ltb_ge _ _)) by done. cbn [throw_if mbind result_bind].
  assert (Em : mapM (parse_entry URL_hostname (local_npub r)) (map (fun kp => (fst kp, json_peer (snd kp))) (peers r)) = Ok (peers r)).
  { apply mapM_Ok. clear - H4 UrlLaws0. induction H4 as [|[k p] l (Hk & Hne & Hp) _ IH]; cbn [map]; constructor; [|done]. unfold parse_entry. cbn [fst snd] in *. unfold npub_ok in Hk. rewrite Hk. cbn [mbind result_bind].
    rewrite bool_decide_false by done. cbn [throw_if mbind result_bind]. by rewrite (peer_written p Hp). }
  rewrite Em. cbn. by destruct r.
Qed.

(** *** Keeping the newest *)

Lemma compareStrings_le a b : compareStrings a b <= 0 <-> a = b \/ String.ltb a b = true.
Proof.
  unfold compareStrings, String.ltb. destruct (String.compare a b) eqn:E; [apply String.compare_eq_iff in E; split; [auto|lia]|split; [auto|lia]|].
  split; [lia|]. intros [->|?]; [|done]. pose proof (String.compare_antisym b b) as E'. by rewrite E in E'.
Qed.

Lemma compareStrings_trans a b c : compareStrings a b <= 0 -> compareStrings b c <= 0 -> compareStrings a c <= 0.
Proof. rewrite !compareStrings_le. intros [->|H1] [->|H2]; auto. right. by eapply string_ltb_trans. Qed.

Lemma compareStrings_zero a b : compareStrings a b = 0 -> a = b.
Proof. unfold compareStrings. destruct (String.compare a b) eqn:E; try done. intros _. by apply String.compare_eq_iff. Qed.

(** Newest first, ties by name. *)
Lemma comparePeers_order : (forall x y, 0 <= comparePeers x y -> comparePeers y x <= 0) /\
  (forall x y z, comparePeers x y <= 0 -> comparePeers y z <= 0 -> comparePeers x z <= 0).
Proof.
  unfold comparePeers. split.
  - intros x y. destruct (Z.eqb_spec (rp_last (snd y) - rp_last (snd x)) 0), (Z.eqb_spec (rp_last (snd x) - rp_last (snd y)) 0); try lia. apply compareStrings_total.
  - intros x y z. destruct (Z.eqb_spec (rp_last (snd y) - rp_last (snd x)) 0), (Z.eqb_spec (rp_last (snd z) - rp_last (snd y)) 0), (Z.eqb_spec (rp_last (snd z) - rp_last (snd x)) 0); try lia.
    intros H1 H2. by eapply compareStrings_trans.
Qed.

Lemma compareEndpoints_order : (forall x y, 0 <= compareEndpoints x y -> compareEndpoints y x <= 0) /\
  (forall x y z, compareEndpoints x y <= 0 -> compareEndpoints y z <= 0 -> compareEndpoints x z <= 0).
Proof.
  unfold compareEndpoints. split.
  - intros x y. destruct (Z.eqb_spec (ep_last y - ep_last x) 0), (Z.eqb_spec (ep_last x - ep_last y) 0); try lia. apply compareStrings_total.
  - intros x y z. destruct (Z.eqb_spec (ep_last y - ep_last x) 0), (Z.eqb_spec (ep_last z - ep_last y) 0), (Z.eqb_spec (ep_last z - ep_last x) 0); try lia.
    intros H1 H2. by eapply compareStrings_trans.
Qed.

(** The first [n] of a sorted list: what is left out comes after all that is kept. *)
Definition newest {A} (cmp : A -> A -> Z) (n : nat) (l kept : list A) : Prop :=
  StronglySorted (fun a b => cmp a b <= 0) kept /\ (length kept <= n)%nat /\ (forall x, x ∈ kept -> x ∈ l) /\
  (forall x, x ∈ l -> x ∈ kept \/ length kept = n /\ forall y, y ∈ kept -> cmp y x <= 0).

Lemma newest_perm {A} (cmp : A -> A -> Z) n l l' kept : l ≡ₚ l' -> newest cmp n l kept -> newest cmp n l' kept.
Proof. intros Hp (H1 & H2 & H3 & H4). split_and!; [done|done| |]; intros x; rewrite <- Hp; auto. Qed.

Lemma newest_kept {A} (cmp : A -> A -> Z) n l :
  (forall x y, 0 <= cmp x y -> cmp y x <= 0) /\ (forall x y z, cmp x y <= 0 -> cmp y z <= 0 -> cmp x z <= 0) ->
  newest cmp n l (take n (js_sort cmp l)).
Proof.
  intros [H1 H2]. unfold newest. pose proof (js_sort_sorted cmp H1 H2 l) as Hs. pose proof (js_sort_perm cmp l) as Hp. set (s := js_sort cmp l) in *.
  rewrite <- (take_drop n s) in Hs. split_and!.
  - clear - Hs. induction (take n s) as [|x xs IH]; [constructor|]. cbn in Hs. apply StronglySorted_inv in Hs as [Hs Hx]. constructor; [by apply IH|]. by apply Forall_app in Hx as [? _].
  - rewrite length_take. lia.
  - intros x Hx. rewrite <- Hp. by eapply elem_of_take in Hx as (i & Hx & _); eapply list_elem_of_lookup_2.
  - intros x Hx. rewrite <- Hp, <- (take_drop n s) in Hx. apply elem_of_app in Hx as [Hx|Hx]; [by left|]. right. split.
    + rewrite length_take. destruct (decide (length s <= n)%nat); [|lia]. rewrite drop_ge in Hx by done. by apply not_elem_of_nil in Hx.
    + intros y Hy. clear - Hs Hx Hy. induction (take n s) as [|z zs IH]; [by apply not_elem_of_nil in Hy|]. cbn in Hs. apply StronglySorted_inv in Hs as [Hs Hz].
      apply elem_of_cons in Hy as [->|Hy]; [|by apply IH]. rewrite Forall_forall in Hz. apply Hz. set_solver.
Qed.

Lemma kept_Forall {A} (P : A -> Prop) cmp n l : Forall P l -> Forall P (take n (js_sort cmp l)).
Proof. intros Hf. apply Forall_take. by rewrite js_sort_perm. Qed.

Lemma kept_NoDup {A B} (f : A -> B) cmp n l : NoDup (map f l) -> NoDup (map f (take n (js_sort cmp l))).
Proof.
  intros Hn. assert (Hs : NoDup (map f (js_sort cmp l))) by (by rewrite (fmap_Permutation f _ _ (js_sort_perm cmp l))).
  rewrite <- (take_drop n (js_sort cmp l)), map_app in Hs. by apply NoDup_app in Hs as [? _].
Qed.

Lemma filter_Forall_ok {A} (P Q : A -> Prop) `{!forall x, Decision (Q x)} l : Forall P l -> Forall P (base.filter Q l).
Proof. rewrite !Forall_forall. intros Hf x [_ Hx]%list_elem_of_filter. by apply Hf. Qed.

(** *** The operations *)

Lemma find_filter key eps : Forall (fun e => addr_ok (ep_addr e)) eps -> NoDup (map (fun e => key_of (ep_addr e)) eps) ->
  (exists o, find_key URL_hostname key eps = Ok o /\ (forall e, o = Some e <-> e ∈ eps /\ key_of (ep_addr e) = key)) /\
  filter_key URL_hostname key eps = Ok (base.filter (fun e => key_of (ep_addr e) <> key) eps).
Proof.
  induction 1 as [|e eps He _ IH]; intros Hd; [split; [exists None; split; [done|]; intros e; split; [done|]; intros [?%not_elem_of_nil _]; done|done]|].
  cbn [map] in Hd. apply NoDup_cons in Hd as [Hx Hd]. destruct (IH Hd) as ((o & IH1 & IH2) & IH3). cbn [find_key filter_key]. rewrite (key_of_ok _ He), IH3. cbn [mbind result_bind]. split.
  - case_bool_decide as Hk.
    + exists (Some e). split; [done|]. intros e'. split; [intros [= <-]; split; [set_solver|done]|]. intros [[->|Hin]%elem_of_cons Hk']; [done|].
      exfalso. apply Hx. rewrite Hk, <- Hk'. apply list_elem_of_fmap. by exists e'.
    + exists o. split; [done|]. intros e'. rewrite IH2. split; intros [Hin Hk']; (split; [|done]); [set_solver|]. apply elem_of_cons in Hin as [->|?]; done.
  - rewrite filter_cons. case_bool_decide; case_decide; done.
Qed.

(** What observing a peer stores for it: the newest of its endpoints, an observed
    address in its normal form once, with the newest time known for it. *)
Definition observed (old : option RecentPeer) (atMs : Z) (udp : option ParsedUdpSocketAddr) (p : RecentPeer) : Prop :=
  rp_last p = Z.max (match old with Some q => rp_last q | None => 0 end) atMs /\
  let eps := match old with Some q => endpoints q | None => [] end in
  match udp with
  | None => newest compareEndpoints 4 eps (endpoints p)
  | Some q => exists t, newest compareEndpoints 4 (mkEndpoint (canonical q) t :: base.filter (fun e => key_of (ep_addr e) <> ps_key q) eps) (endpoints p) /\
      (forall e, e ∈ eps -> key_of (ep_addr e) = ps_key q -> t = Z.max (ep_last e) atMs) /\
      ((forall e, e ∈ eps -> key_of (ep_addr e) <> ps_key q) -> t = atMs)
  end.

Lemma stored_peer (old : option RecentPeer) atMs udp eps :
  (forall q, old = Some q -> peer_ok q) -> time_ok atMs -> (forall q, udp = Some q -> addr_ok (canonical q) /\ key_of (canonical q) = ps_key q) ->
  match udp with None => Ok (match old with Some q => endpoints q | None => [] end)
  | Some p => add_endpoint URL_hostname (ps_key p) (canonical p) atMs (match old with Some q => endpoints q | None => [] end) end = Ok eps ->
  let kept := take (Z.to_nat (Z.min (len (js_sort compareEndpoints eps)) RECENT_PEERS_MAX_ENDPOINTS)) (js_sort compareEndpoints eps) in
  let p := mkRecentPeer (Z.max (match old with Some q => rp_last q | None => 0 end) atMs) kept in
  peer_ok p /\ observed old atMs udp p.
Proof.
  intros Hold Hat Hudp Heps. set (last := Z.max _ atMs) in *. set (oeps := match old with Some q => endpoints q | None => [] end) in *. cbv zeta.
  assert (Ho : Forall (fun e => addr_ok (ep_addr e) /\ time_ok (ep_last e) /\ ep_last e <= last) oeps /\ NoDup (map (fun e => key_of (ep_addr e)) oeps) /\ time_ok last /\ atMs <= last).
  { unfold last, oeps, time_ok in *. destruct old as [q|]; [|split; [constructor|split; [constructor|cbn; lia]]]. destruct (Hold q eq_refl) as [H1 H2 H3 H4]. unfold time_ok in *.
    split; [eapply Forall_impl; [exact H3|]; cbn; intros e (? & ? & ?); split_and!; try done; lia|]. split; [done|]. lia. }
  destruct Ho as (Hf & Hd & Ht & Hla). assert (Hlen : length (js_sort compareEndpoints eps) = length eps) by (by rewrite js_sort_perm).
  assert (Etake : take (Z.to_nat (Z.min (len (js_sort compareEndpoints eps)) RECENT_PEERS_MAX_ENDPOINTS)) (js_sort compareEndpoints eps) = take 4 (js_sort compareEndpoints eps)).
  { unfold len, RECENT_PEERS_MAX_ENDPOINTS. destruct (decide (4 <= length (js_sort compareEndpoints eps))%nat); [by rewrite Z.min_r by lia|]. rewrite !take_ge by lia. done. }
  rewrite Etake. pose proof (newest_kept compareEndpoints 4 eps compareEndpoints_order) as Hnk.
  assert (Hnew : Forall (fun e => addr_ok (ep_addr e) /\ time_ok (ep_last e) /\ ep_last e <= last) eps /\ NoDup (map (fun e => key_of (ep_addr e)) eps) /\
    match udp with None => eps = oeps | Some q => exists t, eps = base.filter (fun e => key_of (ep_addr e) <> ps_key q) oeps ++ [mkEndpoint (canonical q) t] /\
      (forall e, e ∈ oeps -> key_of (ep_addr e) = ps_key q -> t = Z.max (ep_last e) atMs) /\ ((forall e, e ∈ oeps -> key_of (ep_addr e) <> ps_key q) -> t = atMs) end).
  { destruct udp as [q|]; [|injection Heps as <-; done]. destruct (Hudp q eq_refl) as [Hq1 Hq2]. unfold add_endpoint in Heps.
    destruct (find_filter (ps_key q) oeps) as ((o & Eo & Hin) & Ef); [eapply Forall_impl; [exact Hf|]; by intros ? [? _]|done|]. rewrite Eo, Ef in Heps. cbn [mbind result_bind] in Heps. injection Heps as <-.
    set (t := Z.max match o with Some _ => _ | None => _ end atMs).
    assert (He : atMs <= t <= last /\ time_ok t).
    { unfold t. destruct o as [x|]; [|unfold time_ok in *; lia]. destruct (proj1 (Hin x) eq_refl) as [Hx _]. rewrite Forall_forall in Hf. destruct (Hf x Hx) as (_ & ? & ?). unfold time_ok in *. lia. }
    split; [apply Forall_app; split; [by apply filter_Forall_ok|constructor; [split_and!; try done; apply He|constructor]]|]. split.
    - rewrite map_app. apply NoDup_app. split; [|split; [|apply NoDup_singleton]].
      + clear - Hd. induction oeps as [|x l IH]; [constructor|]. apply NoDup_cons in Hd as [Hx Hd]. rewrite filter_cons. case_decide; [|by apply IH]. cbn. constructor; [|by apply IH].
        intros (y & E & Hy)%list_elem_of_fmap. apply list_elem_of_filter in Hy as [_ Hy]. apply Hx. apply list_elem_of_fmap. by exists y.
      + intros k (x & -> & Hx)%list_elem_of_fmap. apply list_elem_of_filter in Hx as [Hx _]. cbn. rewrite Hq2. set_solver.
    - exists t. split; [done|]. split; [intros e H1 H2; unfold t; by rewrite (proj2 (Hin e) (conj H1 H2))|]. intros Hno. unfold t. destruct o as [x|]; [|unfold time_ok in Hat; lia].
      destruct (proj1 (Hin x) eq_refl) as [H1 H2]. by destruct (Hno x H1). }
  destruct Hnew as (Hf' & Hd' & Hu). split.
  - split; cbn [rp_last endpoints]; [done| |by apply kept_Forall|by apply kept_NoDup]. destruct Hnk as (_ & Hk & _). unfold len, RECENT_PEERS_MAX_ENDPOINTS. lia.
  - split; [done|]. cbv zeta. fold oeps. destruct udp as [q|]; [|by subst eps].
    destruct Hu as (t & Ee & Ht1 & Ht2). exists t. split; [|done]. cbn [endpoints]. eapply newest_perm; [|exact Hnk]. rewrite Ee. apply Permutation_app_comm.
Qed.

Lemma set_perm {V} (m : list (string * V)) k v : JsMap.wf m -> JsMap.set_ m k v ≡ₚ (k, v) :: JsMap.delete_ m k.
Proof.
  unfold JsMap.wf, JsMap.delete_. induction m as [|[k' v'] m IH]; [done|]. cbn [fmap list_fmap fst JsMap.set_]. intros [Hn Hd]%NoDup_cons. rewrite filter_cons. cbn [fst].
  case_decide as Hk; case_decide as Hk'; try done.
  - subst k'. apply perm_skip. clear - Hn. induction m as [|[x y] m IH]; [done|]. cbn [fmap list_fmap fst] in Hn. apply not_elem_of_cons in Hn as [Hx Hn]. rewrite filter_cons. cbn [fst]. case_decide as Hd; [by rewrite <- IH|]. congruence.
  - rewrite IH by done. constructor.
Qed.

(** What an operation leaves: the entries of [r] with one stored anew. *)
Definition stored (r : RecentPeers) (remote : string) (at_ : Z) (udp : option ParsedUdpSocketAddr) (r' : RecentPeers) : Prop :=
  local_npub r' = local_npub r /\ scope r' = scope r /\
  exists p, observed (JsMap.get_ (peers r) remote) at_ udp p /\ newest comparePeers 256 ((remote, p) :: JsMap.delete_ (peers r) remote) (peers r').

(** The address that an observation names, when it is accepted. *)
Definition read_udp (udpAddr : option string) : result (option ParsedUdpSocketAddr) :=
  match udpAddr with None => Ok None | Some a => p ← requireReusableUdpSocketAddr URL_hostname (Some (JString a)); Ok (Some p) end.

Lemma read_udp_ok udpAddr udp : read_udp udpAddr = Ok udp -> forall q, udp = Some q -> addr_ok (canonical q) /\ key_of (canonical q) = ps_key q.
Proof.
  unfold read_udp. destruct udpAddr as [a|]; [|by intros [= <-]]. intros E q ->. apply result_bind_ok in E as (p & Ep & [= <-]). by destruct (addr_ok_of _ _ Ep) as (_ & ? & ?).
Qed.

Lemma observe_stored q remote at_ udp : cache_ok q -> npub_ok remote -> remote <> local_npub q -> time_ok at_ ->
  (forall u, udp = Some u -> addr_ok (canonical u) /\ key_of (canonical u) = ps_key u) ->
  let existing := JsMap.get_ (peers q) remote in
  let last := Z.max (match existing with Some p => rp_last p | None => 0 end) at_ in
  let eps := match existing with Some p => endpoints p | None => [] end in
  exists eps', match udp with None => Ok eps | Some p => add_endpoint URL_hostname (ps_key p) (canonical p) at_ eps end = Ok eps' /\
    let eps := js_sort compareEndpoints eps' in
    let eps := take (Z.to_nat (Z.min (len eps) RECENT_PEERS_MAX_ENDPOINTS)) eps in
    let r' := mkRecentPeers (local_npub q) (scope q) (capPeers (JsMap.set_ (peers q) remote (mkRecentPeer last eps))) in
    cache_ok r' /\ stored q remote at_ udp r'.
Proof.
  intros [H1 H2 H3 H4] Hr Hne Ht Hu. cbv zeta.
  assert (Hold : forall p, JsMap.get_ (peers q) remote = Some p -> peer_ok p). { intros p Hp%JsMap.get_elem. rewrite Forall_forall in H4. by destruct (H4 _ Hp) as (_ & _ & ?). }
  assert (Hadd : exists eps', match udp with None => Ok (match JsMap.get_ (peers q) remote with Some p => endpoints p | None => [] end)
    | Some p => add_endpoint URL_hostname (ps_key p) (canonical p) at_ (match JsMap.get_ (peers q) remote with Some p => endpoints p | None => [] end) end = Ok eps').
  { destruct udp as [u|]; [|by eexists]. unfold add_endpoint. edestruct (find_filter (ps_key u)) as ((o & Eo & _) & Ef); [| |rewrite Eo, Ef; by eexists].
    - destruct (JsMap.get_ (peers q) remote) as [p|]; [|constructor]. eapply Forall_impl; [exact (pk_endpoints p (Hold p eq_refl))|]. by intros ? [? _].
    - destruct (JsMap.get_ (peers q) remote) as [p|]; [exact (pk_distinct p (Hold p eq_refl))|constructor]. }
  destruct Hadd as [eps' Eeps]. exists eps'. split; [done|]. destruct (stored_peer _ _ _ _ Hold Ht Hu Eeps) as [Hp Hobs].
  set (p := mkRecentPeer _ _) in *. assert (Hnk : newest comparePeers 256 (JsMap.set_ (peers q) remote p) (capPeers (JsMap.set_ (peers q) remote p))) by apply newest_kept, comparePeers_order.
  assert (Hperm := set_perm (peers q) remote p H3). split.
  - split; cbn [local_npub peers]; [done| |apply kept_NoDup; exact (JsMap.wf_set _ _ _ H3)|].
    + destruct Hnk as (_ & ? & _). unfold len, RECENT_PEERS_MAX_PEERS. lia.
    + apply kept_Forall. rewrite Hperm. constructor; [done|]. by apply filter_Forall_ok.
  - split; [done|]. split; [done|]. exists p. split; [done|]. by eapply newest_perm.
Qed.

(** The cache that an operation reads: the one it was given. *)
Lemma given_read r q : NoDup (map fst (peers r)) -> parseRecentPeers URL_hostname (json_recent r) (local_npub r) (scope r) = Ok q -> cache_ok q.
Proof.
  intros Hn E. apply cache_read in E as (Hq & _); [done|]. intros fs ps [= <-]. unfold prop, json_recent. repeat (rewrite get_here || rewrite get_next by discriminate).
  intros [= <-]. rewrite map_map. done.
Qed.

Lemma observe_ok r remote at_ udpAddr r' : NoDup (map fst (peers r)) -> observeAuthenticatedPeer URL_hostname r remote at_ udpAddr = Ok r' ->
  cache_ok r'.
Proof.
  intros Hn. unfold observeAuthenticatedPeer. intros E. apply result_bind_ok in E as (q & Eq & E). apply given_read in Eq; [|done].
  apply result_bind_ok in E as (n & [[= ->] Hr]%npub_Ok & E). apply guard_Ok in E as [Hne E]. apply bool_decide_eq_false in Hne. apply result_bind_ok in E as (t & [[= ->] Ht]%timestamp_Ok & E).
  apply result_bind_ok in E as (udp & Eu & E). destruct (observe_stored q n t udp Eq Hr Hne Ht (read_udp_ok _ _ Eu)) as (eps & Ee & Hc & _).
  cbv zeta in E, Ee, Hc. rewrite Ee in E. cbn [mbind result_bind] in E. by injection E as <-.
Qed.

Lemma observe_result r remote at_ udpAddr udp : cache_ok r -> npub_ok remote -> remote <> local_npub r -> time_ok at_ -> read_udp udpAddr = Ok udp ->
  exists r', observeAuthenticatedPeer URL_hostname r remote at_ udpAddr = Ok r' /\ stored r remote at_ udp r'.
Proof.
  intros Hc Hr Hne Ht Eu. destruct (observe_stored r remote at_ udp Hc Hr Hne Ht (read_udp_ok _ _ Eu)) as (eps & Ee & _ & Hs). eexists. split; [|exact Hs].
  unfold observeAuthenticatedPeer. rewrite cache_written by done. cbn [mbind result_bind]. unfold npub_ok in Hr. rewrite Hr. cbn [mbind result_bind]. rewrite bool_decide_false by done. cbn [throw_if mbind result_bind].
  rewrite (proj2 (timestamp_Ok _ _) (conj eq_refl Ht)). cbn [mbind result_bind]. unfold read_udp in Eu. rewrite Eu. cbn [mbind result_bind]. cbv zeta in Ee |- *. by rewrite Ee.
Qed.

(** *** Pruning *)

Lemma peer_pruned cutoff p : peer_ok p -> peer_ok (mkRecentPeer (rp_last p) (js_sort compareEndpoints (base.filter (fun e => cutoff <= ep_last e) (endpoints p)))).
Proof.
  intros [H1 H2 H3 H4]. split; cbn [rp_last endpoints]; [done| | |].
  - unfold len in *. rewrite js_sort_perm. pose proof (length_filter (fun e => cutoff <= ep_last e) (endpoints p)). lia.
  - rewrite js_sort_perm. by apply filter_Forall_ok.
  - rewrite (fmap_Permutation _ _ _ (js_sort_perm _ _)). clear - H4. induction (endpoints p) as [|x l IH]; [constructor|]. apply NoDup_cons in H4 as [Hx Hd]. rewrite filter_cons.
    case_decide; [|by apply IH]. cbn. constructor; [|by apply IH]. intros (y & E & Hy)%list_elem_of_fmap. apply list_elem_of_filter in Hy as [_ Hy]. apply Hx. apply list_elem_of_fmap. by exists y.
Qed.

Lemma pruned_rules q cutoff : cache_ok q -> cache_ok (mkRecentPeers (local_npub q) (scope q) (capPeers (prune_peers cutoff (peers q)))) /\
  capPeers (prune_peers cutoff (peers q)) ≡ₚ prune_peers cutoff (peers q).
Proof.
  intros [H1 H2 H3 H4]. assert (Hlen : (length (prune_peers cutoff (peers q)) <= 256)%nat).
  { unfold prune_peers. rewrite length_map. pose proof (JsMap.length_filter_le (fun kp => cutoff <= rp_last (snd kp)) (peers q)). unfold len, RECENT_PEERS_MAX_PEERS in H2. lia. }
  assert (Hp : capPeers (prune_peers cutoff (peers q)) ≡ₚ prune_peers cutoff (peers q)).
  { unfold capPeers. rewrite take_ge; [apply js_sort_perm|]. by rewrite js_sort_perm. }
  split; [|done]. split; cbn [local_npub peers]; [done| | |].
  - unfold len. rewrite Hp. unfold RECENT_PEERS_MAX_PEERS. lia.
  - rewrite (fmap_Permutation _ _ _ Hp). unfold prune_peers. rewrite map_map. cbn. exact (JsMap.wf_filter _ _ H3).
  - rewrite Hp. unfold prune_peers. apply Forall_map. cbn. apply filter_Forall_ok. eapply Forall_impl; [exact H4|]. cbn. intros [k p] (? & ? & ?). split_and!; [done|done|]. by apply peer_pruned.
Qed.

Lemma prune_ok r nowMs ttlMs r' : NoDup (map fst (peers r)) -> pruneRecentPeers URL_hostname r nowMs ttlMs = Ok r' -> cache_ok r'.
Proof.
  intros Hn. unfold pruneRecentPeers. intros E. apply result_bind_ok in E as (q & Eq & E). apply given_read in Eq; [|done].
  apply result_bind_ok in E as (? & _ & E). apply result_bind_ok in E as (? & _ & [= <-]). by apply pruned_rules.
Qed.

Lemma prune_result r nowMs ttlMs : cache_ok r -> time_ok nowMs -> time_ok ttlMs ->
  pruneRecentPeers URL_hostname r nowMs ttlMs = Ok (mkRecentPeers (local_npub r) (scope r) (capPeers (prune_peers (nowMs - ttlMs) (peers r)))).
Proof.
  intros Hc H1 H2. unfold pruneRecentPeers. rewrite cache_written by done. cbn [mbind result_bind].
  rewrite (proj2 (timestamp_Ok _ _) (conj eq_refl H1)). cbn [mbind result_bind]. by rewrite (proj2 (timestamp_Ok _ _) (conj eq_refl H2)).
Qed.

Lemma create_ok v sv r : createRecentPeers v sv = Ok r -> cache_ok r.
Proof.
  unfold createRecentPeers. intros E. apply result_bind_ok in E as (n & [_ Hn]%npub_Ok & E). apply result_bind_ok in E as (s & _ & [= <-]).
  split; cbn; [done|by vm_compute|constructor|constructor].
Qed.

Lemma observe_accepted r remote at_ udpAddr r' : cache_ok r -> observeAuthenticatedPeer URL_hostname r remote at_ udpAddr = Ok r' ->
  npub_ok remote /\ remote <> local_npub r /\ time_ok at_ /\ is_ok (read_udp udpAddr) = true.
Proof.
  intros Hc. unfold observeAuthenticatedPeer. rewrite cache_written by done. cbn [mbind result_bind]. intros E.
  apply result_bind_ok in E as (n & [[= ->] Hr]%npub_Ok & E). apply guard_Ok in E as [Hne E]. apply bool_decide_eq_false in Hne. apply result_bind_ok in E as (t & [[= ->] Ht]%timestamp_Ok & E).
  apply result_bind_ok in E as (udp & Eu & _). split_and!; try done. unfold read_udp. by rewrite Eu.
Qed.
End Rules.

(** ** Properties *)

(** C36: the cache keeps its rules. Whatever the reader accepts, whatever a new cache, an
    observation or a pruning answers, has at most 256 peers under distinct
    canonical names, none of them the local one, each with at most 4 endpoints of
    distinct addresses that are not newer than their peer; and a cache with these
    rules is read back unchanged from the value that it is written as. *)
Theorem recent_peers_storable URL_hostname `{!UrlLaws URL_hostname} `{Bech32} :
  (forall r, cache_ok URL_hostname r -> parseRecentPeers URL_hostname (json_recent r) (local_npub r) (scope r) = Ok r) /\
  (forall v npub sc r, distinct_names v -> parseRecentPeers URL_hostname v npub sc = Ok r ->
    cache_ok URL_hostname r /\ local_npub r = npub /\ scope r = sc) /\
  (forall npub sc r, createRecentPeers npub sc = Ok r -> cache_ok URL_hostname r) /\
  (forall r remote at_ udpAddr r', NoDup (map fst (peers r)) -> observeAuthenticatedPeer URL_hostname r remote at_ udpAddr = Ok r' -> cache_ok URL_hostname r') /\
  (forall r nowMs ttlMs r', NoDup (map fst (peers r)) -> pruneRecentPeers URL_hostname r nowMs ttlMs = Ok r' -> cache_ok URL_hostname r').
Proof.
  split; [exact (cache_written _)|]. split; [exact (cache_read _)|]. split; [exact (create_ok _)|]. split; [exact (observe_ok _)|exact (prune_ok _)].
Qed.

(** C37: an observation is accepted when the name is canonical and not the local one, the
    time is a safe integer and the address is reusable, and only then; it stores
    the peer with the newest of the times known for it, the observed address once,
    in its normal form, and keeps the 4 newest endpoints and the 256 newest
    peers. A pruning keeps the peers and endpoints that are not older than the
    cutoff, and only them. Both leave the entries newest first. *)
Theorem recent_peers_keep_newest URL_hostname `{!UrlLaws URL_hostname} `{Bech32} r : cache_ok URL_hostname r ->
  (forall remote at_ udpAddr udp, npub_ok remote -> remote <> local_npub r -> time_ok at_ -> read_udp URL_hostname udpAddr = Ok udp ->
    exists r', observeAuthenticatedPeer URL_hostname r remote at_ udpAddr = Ok r' /\ stored URL_hostname r remote at_ udp r') /\
  (forall remote at_ udpAddr r', observeAuthenticatedPeer URL_hostname r remote at_ udpAddr = Ok r' ->
    npub_ok remote /\ remote <> local_npub r /\ time_ok at_ /\ is_ok (read_udp URL_hostname udpAddr) = true) /\
  (forall nowMs ttlMs, time_ok nowMs -> time_ok ttlMs -> exists r', pruneRecentPeers URL_hostname r nowMs ttlMs = Ok r' /\
    local_npub r' = local_npub r /\ scope r' = scope r /\ StronglySorted (fun a b => comparePeers a b <= 0) (peers r') /\
    forall k p', (k, p') ∈ peers r' <-> exists p, (k, p) ∈ peers r /\ nowMs - ttlMs <= rp_last p /\
      p' = mkRecentPeer (rp_last p) (js_sort compareEndpoints (base.filter (fun e => nowMs - ttlMs <= ep_last e) (endpoints p)))).
Proof.
  intros Hc. split; [|split].
  - intros remote at_ udpAddr udp. by apply observe_result.
  - intros remote at_ udpAddr r'. by apply observe_accepted.
  - intros nowMs ttlMs H1 H2. eexists. split; [by apply prune_result|]. cbn [local_npub scope peers]. split; [done|]. split; [done|].
    split; [apply (newest_kept comparePeers 256), comparePeers_order|]. intros k p'. destruct (pruned_rules URL_hostname r (nowMs - ttlMs) Hc) as [_ ->]. unfold prune_peers. rewrite list_elem_of_fmap. split.
    + intros ([k0 p] & [= -> ->] & [Ht Hin]%list_elem_of_filter). by exists p.
    + intros (p & Hin & Ht & ->). exists (k, p). split; [done|]. by apply list_elem_of_filter.
Qed.

(** *** Witnesses: names are a key's bytes as text, and one address is known in
    its normal form. *)
Definition toy_text (b : bytes) : string := String.string_of_list_ascii (map ascii_of_byte b).
Definition toy_bytes (s : string) : bytes := map byte_of_ascii (String.list_ascii_of_string s).
#[local] Instance toy_bech32 : Bech32 := {|
  toWords := id; fromWords := Ok;
  bech32_encode hrp words _ := Ok (hrp ++ "1" ++ toy_text words)%string;
  bech32_decode text _ := if String.prefix "npub1" text then Ok (NPUB_HRP, toy_bytes (slice_from 5 text)) else Throw (Error "unknown prefix");
|}.
Definition toy_hostname (h : string) : option string := if bool_decide (h = "2001:DB8::1" \/ h = "2001:db8::1")%string then Some "[2001:db8::1]"%string else None.

#[local] Instance toy_urls : UrlLaws toy_hostname.
Proof. split. intros h u. unfold toy_hostname. case_bool_decide; [|done]. intros [= <-] _ _. exists "2001:db8::1"%string. split_and!; try done. Qed.

Definition toy_name (x : byte) : string := ("npub1" ++ toy_text (repeat x 32))%string.
Definition toy_cache : RecentPeers := mkRecentPeers (toy_name x41) "web"
  [(toy_name x42, mkRecentPeer 50 [mkEndpoint "10.0.0.1:0080" 40; mkEndpoint "[2001:DB8::1%0]:9000" 50]); (toy_name x43, mkRecentPeer 20 [])].

Lemma toy_cache_ok : cache_ok toy_hostname toy_cache.
Proof.
  assert (E : parseRecentPeers toy_hostname (json_recent toy_cache) (toy_name x41) "web" = Ok toy_cache) by (vm_compute; reflexivity).
  apply cache_read in E as [? _]; [done|apply _|]. intros fs ps [= <-]. unfold prop. repeat (rewrite get_here || rewrite get_next by discriminate). intros [= <-].
  cbn [map fst]. apply (bool_decide_unpack _). vm_compute. exact I.
Qed.

Lemma recent_peers_storable_witness :
  parseRecentPeers toy_hostname (json_recent toy_cache) (toy_name x41) "web" = Ok toy_cache /\
  forall v npub sc r, distinct_names v -> parseRecentPeers toy_hostname v npub sc = Ok r -> cache_ok toy_hostname r /\ local_npub r = npub /\ scope r = sc.
Proof.
  split; [exact (proj1 (recent_peers_storable toy_hostname) toy_cache toy_cache_ok)|exact (proj1 (proj2 (recent_peers_storable toy_hostname)))].
Defined.

(** A known address with another spelling, a later time, and an old peer pruned. *)
Example toy_observe : observeAuthenticatedPeer toy_hostname toy_cache (toy_name x42) 60 (Some "[2001:db8::1]:9000"%string) =
  Ok (mkRecentPeers (toy_name x41) "web" [(toy_name x42, mkRecentPeer 60 [mkEndpoint "[2001:db8::1]:9000" 60; mkEndpoint "10.0.0.1:0080" 40]); (toy_name x43, mkRecentPeer 20 [])]).
Proof. vm_compute. reflexivity. Qed.

Example toy_prune : pruneRecentPeers toy_hostname toy_cache 100 55 = Ok (mkRecentPeers (toy_name x41) "web" [(toy_name x42, mkRecentPeer 50 [mkEndpoint "[2001:DB8::1%0]:9000" 50])]).
Proof. vm_compute. reflexivity. Qed.

Lemma recent_peers_keep_newest_witness : exists r', observeAuthenticatedPeer toy_hostname toy_cache (toy_name x44) 60 None = Ok r' /\ stored toy_hostname toy_cache (toy_name x44) 60 None r'.
Proof.
  refine (proj1 (recent_peers_keep_newest toy_hostname toy_cache toy_cache_ok) (toy_name x44) 60 None None _ _ _ _).
  - vm_compute. reflexivity.
  - vm_compute. discriminate.
  - unfold time_ok. lia.
  - reflexivity.
Defined.
