(* ===== verification/Lifecycle.v ===== *)
(** * The life of a node

    The part of [node/FipsNode.ts] that starts and stops its carriers and changes
    its policy: [start], [stop] and [setBlockedPeerPubkeys] are asynchronous and
    overlap. A call, and a task that a call begins, is a [Task] that says at which
    [await] it stands; its number is that of its promise, and it stays in the
    list when it is done. A step is a call, or the answer of a carrier, or the
    resumption of a task whose promise is settled; steps come in any order, which
    covers the order that the queue of the language picks. What the node tells
    its carriers and its other parts is recorded in order. *)

From S2P Require Import Prelude Codec Crypto Toy NodeAddr Admission.

Inductive LcCall :=
| StartTransport (k : nat) (generation : Z)
| StopTransport (k : nat)
| ConsumeDiscovery (k : nat) (generation : Z)
| EmitStopError
| StartSessions (epoch : Z)
| StopParts
| SendDepartures (restart : bool)
| CloseCarriers
| ClearTables.

(** The [await]s. [Done ok failed] is a settled promise, and whether a stop had failures. *)
Inductive Task :=
| StartAwaitsStop (w : option nat)
| StartAwaitsUpdate (w : option nat)
| StartAwaitsStart (w : nat)
| StopAwaitsStop (w : nat)
| StopAwaitsUpdate (w : option nat)
| UpdateAwaitsUpdate (w : option nat)
| UpdateAwaitsStop (w : nat)
| UpdateAwaitsStart (w : nat)
| Starting (generation : Z) (k : nat)
| Unstarting (rest : list nat) (closed : bool)
| Departing
| Stopping (k : nat) (failed : bool)
| DrainingDiscovery (failed : bool)
| DrainingConnects (failed : bool)
| DrainingPending (w : option nat) (failed : bool)
| Done (ok failed : bool).

(** [live_timers] counts the intervals that run; [contexts] are the generations of
    the contexts that carriers have been given. *)
Record Lifecycle := mkLifecycle {
  desiredRunning : bool;
  started : bool;
  hasStarted : bool;
  needsTransportCleanup : bool;
  discoveryGeneration : Z;
  startupEpoch : Z;
  sessionEpoch : Z;
  admission : PeerAdmission;
  admissionUpdating : bool;
  admissionUpdate : option nat;
  startTask : option nat;
  stopTask : option nat;
  heartbeatTimer : bool;
  live_timers : nat;
  tasks : list Task;
  contexts : list Z;
  lc_calls : list LcCall;
}.

Section Setters.
Context (s : Lifecycle).
Definition put_desiredRunning x := mkLifecycle x (started s) (hasStarted s) (needsTransportCleanup s) (discoveryGeneration s) (startupEpoch s) (sessionEpoch s) (admission s) (admissionUpdating s) (admissionUpdate s) (startTask s) (stopTask s) (heartbeatTimer s) (live_timers s) (tasks s) (contexts s) (lc_calls s).
Definition put_started x := mkLifecycle (desiredRunning s) x (hasStarted s) (needsTransportCleanup s) (discoveryGeneration s) (startupEpoch s) (sessionEpoch s) (admission s) (admissionUpdating s) (admissionUpdate s) (startTask s) (stopTask s) (heartbeatTimer s) (live_timers s) (tasks s) (contexts s) (lc_calls s).
Definition put_hasStarted x := mkLifecycle (desiredRunning s) (started s) x (needsTransportCleanup s) (discoveryGeneration s) (startupEpoch s) (sessionEpoch s) (admission s) (admissionUpdating s) (admissionUpdate s) (startTask s) (stopTask s) (heartbeatTimer s) (live_timers s) (tasks s) (contexts s) (lc_calls s).
Definition put_cleanup x := mkLifecycle (desiredRunning s) (started s) (hasStarted s) x (discoveryGeneration s) (startupEpoch s) (sessionEpoch s) (admission s) (admissionUpdating s) (admissionUpdate s) (startTask s) (stopTask s) (heartbeatTimer s) (live_timers s) (tasks s) (contexts s) (lc_calls s).
Definition put_generation x := mkLifecycle (desiredRunning s) (started s) (hasStarted s) (needsTransportCleanup s) x (startupEpoch s) (sessionEpoch s) (admission s) (admissionUpdating s) (admissionUpdate s) (startTask s) (stopTask s) (heartbeatTimer s) (live_timers s) (tasks s) (contexts s) (lc_calls s).
Definition put_startupEpoch x := mkLifecycle (desiredRunning s) (started s) (hasStarted s) (needsTransportCleanup s) (discoveryGeneration s) x (sessionEpoch s) (admission s) (admissionUpdating s) (admissionUpdate s) (startTask s) (stopTask s) (heartbeatTimer s) (live_timers s) (tasks s) (contexts s) (lc_calls s).
Definition put_sessionEpoch x := mkLifecycle (desiredRunning s) (started s) (hasStarted s) (needsTransportCleanup s) (discoveryGeneration s) (startupEpoch s) x (admission s) (admissionUpdating s) (admissionUpdate s) (startTask s) (stopTask s) (heartbeatTimer s) (live_timers s) (tasks s) (contexts s) (lc_calls s).
Definition put_admission x := mkLifecycle (desiredRunning s) (started s) (hasStarted s) (needsTransportCleanup s) (discoveryGeneration s) (startupEpoch s) (sessionEpoch s) x (admissionUpdating s) (admissionUpdate s) (startTask s) (stopTask s) (heartbeatTimer s) (live_timers s) (tasks s) (contexts s) (lc_calls s).
Definition put_admissionUpdating x := mkLifecycle (desiredRunning s) (started s) (hasStarted s) (needsTransportCleanup s) (discoveryGeneration s) (startupEpoch s) (sessionEpoch s) (admission s) x (admissionUpdate s) (startTask s) (stopTask s) (heartbeatTimer s) (live_timers s) (tasks s) (contexts s) (lc_calls s).
Definition put_admissionUpdate x := mkLifecycle (desiredRunning s) (started s) (hasStarted s) (needsTransportCleanup s) (discoveryGeneration s) (startupEpoch s) (sessionEpoch s) (admission s) (admissionUpdating s) x (startTask s) (stopTask s) (heartbeatTimer s) (live_timers s) (tasks s) (contexts s) (lc_calls s).
Definition put_startTask x := mkLifecycle (desiredRunning s) (started s) (hasStarted s) (needsTransportCleanup s) (discoveryGeneration s) (startupEpoch s) (sessionEpoch s) (admission s) (admissionUpdating s) (admissionUpdate s) x (stopTask s) (heartbeatTimer s) (live_timers s) (tasks s) (contexts s) (lc_calls s).
Definition put_stopTask x := mkLifecycle (desiredRunning s) (started s) (hasStarted s) (needsTransportCleanup s) (discoveryGeneration s) (startupEpoch s) (sessionEpoch s) (admission s) (admissionUpdating s) (admissionUpdate s) (startTask s) x (heartbeatTimer s) (live_timers s) (tasks s) (contexts s) (lc_calls s).
Definition put_heartbeatTimer x := mkLifecycle (desiredRunning s) (started s) (hasStarted s) (needsTransportCleanup s) (discoveryGeneration s) (startupEpoch s) (sessionEpoch s) (admission s) (admissionUpdating s) (admissionUpdate s) (startTask s) (stopTask s) x (live_timers s) (tasks s) (contexts s) (lc_calls s).
Definition put_live_timers x := mkLifecycle (desiredRunning s) (started s) (hasStarted s) (needsTransportCleanup s) (discoveryGeneration s) (startupEpoch s) (sessionEpoch s) (admission s) (admissionUpdating s) (admissionUpdate s) (startTask s) (stopTask s) (heartbeatTimer s) x (tasks s) (contexts s) (lc_calls s).
Definition put_tasks x := mkLifecycle (desiredRunning s) (started s) (hasStarted s) (needsTransportCleanup s) (discoveryGeneration s) (startupEpoch s) (sessionEpoch s) (admission s) (admissionUpdating s) (admissionUpdate s) (startTask s) (stopTask s) (heartbeatTimer s) (live_timers s) x (contexts s) (lc_calls s).
Definition put_contexts x := mkLifecycle (desiredRunning s) (started s) (hasStarted s) (needsTransportCleanup s) (discoveryGeneration s) (startupEpoch s) (sessionEpoch s) (admission s) (admissionUpdating s) (admissionUpdate s) (startTask s) (stopTask s) (heartbeatTimer s) (live_timers s) (tasks s) x (lc_calls s).
Definition put_lc_calls x := mkLifecycle (desiredRunning s) (started s) (hasStarted s) (needsTransportCleanup s) (discoveryGeneration s) (startupEpoch s) (sessionEpoch s) (admission s) (admissionUpdating s) (admissionUpdate s) (startTask s) (stopTask s) (heartbeatTimer s) (live_timers s) (tasks s) (contexts s) x.
End Setters.

Definition say (c : LcCall) (s : Lifecycle) : Lifecycle := put_lc_calls s (lc_calls s ++ [c]).
Definition set_task (i : nat) (t : Task) (s : Lifecycle) : Lifecycle := put_tasks s (<[i := t]> (tasks s)).

(** The promise of a task; [Promise.resolve()] has no task. *)
Definition settled (s : Lifecycle) (w : option nat) : option bool :=
  match w with
  | None => Some true
  | Some i => match tasks s !! i with Some (Done ok _) => Some ok | _ => None end
  end.

Definition failures_of (s : Lifecycle) (w : nat) : bool :=
  match tasks s !! w with Some (Done _ failed) => failed | _ => false end.

Section Node.
Context `{Noble} (N : nat) (discovers : nat -> bool).

(** ** Starting *)

(** [FspSessionManager.resetLocalEpoch]: the sessions take over the epoch of the node. *)
Definition resetLocalEpoch (s : Lifecycle) : Lifecycle := put_sessionEpoch s (startupEpoch s).

Definition next_epoch (e : Z) : Z := (e + 1) mod 2 ^ 64.

Definition start_next (i k : nat) (g : Z) (s : Lifecycle) : Lifecycle :=
  set_task i (Starting g k) (put_contexts (say (StartTransport k g) s) (g :: contexts s)).

Definition start_done (i : nat) (g : Z) (s : Lifecycle) : Lifecycle :=
  let s := put_hasStarted (put_started s true) true in
  let s := say (StartSessions (sessionEpoch s)) s in
  let s := put_live_timers (put_heartbeatTimer s true) (S (live_timers s)) in
  let s := put_lc_calls s (lc_calls s ++ map (fun k => ConsumeDiscovery k g) (List.filter discovers (seq 0 N))) in
  set_task i (Done true false) s.

(** [startTransports], as the task [i]. *)
Definition startTransports (i : nat) (s : Lifecycle) : Lifecycle :=
  if started s then set_task i (Done true false) s else
  let s := if hasStarted s
           then resetLocalEpoch (put_startupEpoch s (next_epoch (startupEpoch s))) else s in
  let s := put_cleanup s true in
  let g := discoveryGeneration s + 1 in
  let s := put_generation s g in
  if (N =? 0)%nat then start_done i g s else start_next i 0 g s.

Definition unstart_next (i : nat) (rest : list nat) (closed : bool) (s : Lifecycle) : Lifecycle :=
  match rest with
  | [] => set_task i (Done false false) (put_cleanup s (negb closed))
  | k :: _ => set_task i (Unstarting rest closed) (say (StopTransport k) s)
  end.

(** The answer of the carrier that a start waits for. *)
Definition start_answered (i k : nat) (g : Z) (ok : bool) (s : Lifecycle) : Lifecycle :=
  if ok && (g =? discoveryGeneration s) && desiredRunning s then
    if (S k <? N)%nat then start_next i (S k) g s else start_done i g s
  else unstart_next i (rev (seq 0 (S k))) true (put_generation s (discoveryGeneration s + 1)).

Definition new_task (t : Task) (s : Lifecycle) : nat * Lifecycle := (length (tasks s), put_tasks s (tasks s ++ [t])).

Definition startNode (s : Lifecycle) : nat * Lifecycle :=
  match startTask s with
  | Some p => (p, s)
  | None =>
      let '(p, s) := new_task (Starting 0 0) s in
      (p, put_startTask (startTransports p s) (Some p))
  end.

(** ** Stopping *)

Definition stop_next (i k : nat) (failed : bool) (s : Lifecycle) : Lifecycle :=
  if (k <? N)%nat then set_task i (Stopping k failed) (say (StopTransport k) s) else set_task i (DrainingDiscovery failed) s.

(** [stopTransports], as the task [i]; [departures] is whether there are peers to tell. *)
Definition stopTransports (i : nat) (departures : bool) (s : Lifecycle) : Lifecycle :=
  if negb (needsTransportCleanup s) && negb (started s) && negb (bool_decide (is_Some (startTask s))) then set_task i (Done true false) s else
  let s := put_started s false in
  let s := put_heartbeatTimer (put_live_timers s (if heartbeatTimer s then pred (live_timers s) else live_timers s)) false in
  let s := put_generation s (discoveryGeneration s + 1) in
  let s := say StopParts s in
  if departures then set_task i Departing (say (SendDepartures (desiredRunning s)) s)
  else stop_next i 0 false (say CloseCarriers s).

Definition stopNode (departures : bool) (s : Lifecycle) : nat * Lifecycle :=
  match stopTask s with
  | Some p => (p, s)
  | None =>
      let '(p, s) := new_task Departing s in
      (p, put_stopTask (stopTransports p departures s) (Some p))
  end.

(** ** The calls *)

Definition start (s : Lifecycle) : Lifecycle :=
  let s := put_desiredRunning s true in snd (new_task (StartAwaitsStop (stopTask s)) s).

Definition stop (departures : bool) (s : Lifecycle) : Lifecycle :=
  let '(w, s) := stopNode departures (put_desiredRunning s false) in snd (new_task (StopAwaitsStop w) s).

Definition setBlockedPeerPubkeys (keys : list string) (s : Lifecycle) : result Lifecycle :=
  next ← new_admission keys;
  if equals (admission s) next then Ok s else
  let s := put_admissionUpdating (put_admission s next) true in
  let s := put_generation s (discoveryGeneration s + 1) in
  let '(update, s) := new_task (UpdateAwaitsUpdate (admissionUpdate s)) s in
  Ok (put_admissionUpdate s (Some update)).

(** ** Resuming *)

Definition update_done (i : nat) (ok : bool) (s : Lifecycle) : Lifecycle :=
  let s := put_admissionUpdating s (admissionUpdating s && negb (bool_decide (admissionUpdate s = Some i))) in
  set_task i (Done ok false) s.

Definition start_resumed (i : nat) (s : Lifecycle) : Lifecycle :=
  if desiredRunning s then let '(w, s) := startNode s in set_task i (StartAwaitsStart w) s else set_task i (Done true false) s.

(** The task [i] goes on; [ok] is what the platform answers, where it waits for it. *)
Definition resume (i : nat) (ok departures : bool) (s : Lifecycle) : option Lifecycle :=
  t ← tasks s !! i;
  match t with
  | StartAwaitsStop w =>
      r ← settled s w;
      Some (if negb r then set_task i (Done false false) s
            else if admissionUpdating s then set_task i (StartAwaitsUpdate (admissionUpdate s)) s
            else start_resumed i s)
  | StartAwaitsUpdate w => r ← settled s w; Some (if negb r then set_task i (Done false false) s else start_resumed i s)
  | StartAwaitsStart w => r ← settled s (Some w); Some (set_task i (Done r false) s)
  | StopAwaitsStop w => r ← settled s (Some w); Some (if negb r then set_task i (Done false false) s else set_task i (StopAwaitsUpdate (admissionUpdate s)) s)
  | StopAwaitsUpdate w => r ← settled s w; Some (set_task i (Done true false) s)
  | UpdateAwaitsUpdate w => r ← settled s w; Some (let '(p, s) := stopNode departures s in set_task i (UpdateAwaitsStop p) s)
  | UpdateAwaitsStop w =>
      r ← settled s (Some w);
      Some (if negb r || failures_of s w then update_done i false s
            else if desiredRunning s then let '(p, s) := startNode s in set_task i (UpdateAwaitsStart p) s
            else update_done i true s)
  | UpdateAwaitsStart w => r ← settled s (Some w); Some (update_done i r s)
  | Starting g k => Some (start_answered i k g ok s)
  | Unstarting rest closed => Some (unstart_next i (tail rest) (closed && ok) s)
  | Departing => Some (stop_next i 0 false (say CloseCarriers s))
  | Stopping k failed => Some (stop_next i (S k) (failed || negb ok) (if ok then s else say EmitStopError s))
  | DrainingDiscovery failed => Some (set_task i (DrainingConnects failed) s)
  | DrainingConnects failed => Some (set_task i (DrainingPending (startTask s) failed) s)
  | DrainingPending w failed => r ← settled s w; Some (set_task i (Done true failed) (put_cleanup (say ClearTables s) failed))
  | Done _ _ => None
  end.

(** The [finally] of [startNode] and [stopNode]. *)
Definition start_forgotten (s : Lifecycle) : option Lifecycle :=
  p ← startTask s; r ← settled s (Some p); Some (put_startTask s None).
Definition stop_forgotten (s : Lifecycle) : option Lifecycle :=
  p ← stopTask s; r ← settled s (Some p); Some (put_stopTask s None).

(** What a context of the generation [g] lets through. *)
Definition current (s : Lifecycle) (g : Z) : bool := g =? discoveryGeneration s.
Definition allowPeer (s : Lifecycle) (g : Z) (pubkey : bytes) : bool := current s g && allows (admission s) pubkey.

(** [connect] up to the choice of a carrier, of which [types] are the types, and
    the reading of the address; [sendDatagram] and [sendEndpointData] up to the
    session manager. *)
Definition connect (s : Lifecycle) (types : list string) (transport addr : string) : result (nat * bytes) :=
  throw_if (admissionUpdating s) (Error "FIPS peer policy is updating");;
  match list_find (fun t => t = transport) types with
  | None => Throw (Error "no transport registered")
  | Some (k, _) =>
      throw_if (negb (String.length addr =? 66)%nat) (Error "transport addr must be 33-byte compressed pubkey hex");;
      remotePubkey ← fromHex addr;
      Ok (k, remotePubkey)
  end.

Definition sendDatagram (s : Lifecycle) : result unit := throw_if (admissionUpdating s) (Error "FIPS peer policy is updating").

Inductive call_step (s : Lifecycle) : Lifecycle -> Prop :=
| call_start : call_step s (start s)
| call_stop departures : call_step s (stop departures s)
| call_block keys s' : setBlockedPeerPubkeys keys s = Ok s' -> call_step s s'.

Inductive task_step (s : Lifecycle) : Lifecycle -> Prop :=
| task_resumed i ok departures s' : resume i ok departures s = Some s' -> task_step s s'
| task_start_forgotten s' : start_forgotten s = Some s' -> task_step s s'
| task_stop_forgotten s' : stop_forgotten s = Some s' -> task_step s s'.

Definition lifecycle_step (s s' : Lifecycle) : Prop := call_step s s' \/ task_step s s'.

Definition new_lifecycle (epoch : Z) (a : PeerAdmission) : Lifecycle :=
  mkLifecycle false false false false 0 epoch epoch a false None None None false 0 [] [] [].

Definition lifecycle_reachable (s : Lifecycle) : Prop := exists epoch a, 0 <= epoch < 2 ^ 64 /\ rtc lifecycle_step (new_lifecycle epoch a) s.
End Node.

(** ** The carriers of a node: those that are configured, each after its companions
    of types that no other carrier has *)

Section Companions.
Context {T : Type} (type : T -> string) (companionTransports : T -> list T).

Fixpoint add_companions (explicitTypes addedTypes : list string) (l : list T) : list T * list string :=
  match l with
  | [] => ([], addedTypes)
  | c :: l =>
      if bool_decide (type c ∈ explicitTypes) || bool_decide (type c ∈ addedTypes) then add_companions explicitTypes addedTypes l
      else let '(expanded, addedTypes) := add_companions explicitTypes (type c :: addedTypes) l in (c :: expanded, addedTypes)
  end.

Fixpoint expand (explicitTypes addedTypes : list string) (configured : list T) : list T :=
  match configured with
  | [] => []
  | t :: configured =>
      let '(expanded, addedTypes) := add_companions explicitTypes addedTypes (companionTransports t) in
      expanded ++ t :: expand explicitTypes (type t :: addedTypes) configured
  end.

Definition expandCompanionTransports (configured : list T) : list T := expand (map type configured) [] configured.
End Companions.

(** ** The tasks *)

Inductive Kind := KStart | KStop | KUpdate | KCall.

Definition kind (t : Task) : option Kind :=
  match t with
  | StartAwaitsStop _ | StartAwaitsUpdate _ | StartAwaitsStart _ | StopAwaitsStop _ | StopAwaitsUpdate _ => Some KCall
  | UpdateAwaitsUpdate _ | UpdateAwaitsStop _ | UpdateAwaitsStart _ => Some KUpdate
  | Starting _ _ | Unstarting _ _ => Some KStart
  | Departing | Stopping _ _ | DrainingDiscovery _ | DrainingConnects _ | DrainingPending _ _ => Some KStop
  | Done _ _ => None
  end.

(** The promise [w] is one of a task of kind [K]. *)
Definition of_kind (K : Kind) (l : list Task) (w : nat) : Prop := exists t, l !! w = Some t /\ (kind t = Some K \/ kind t = None).

Definition opt_kind (K : Kind) (l : list Task) (w : option nat) : Prop := forall p, w = Some p -> of_kind K l p.

(** What a task waits for is of an earlier kind, or an earlier update. *)
Definition waits_ok (l : list Task) (i : nat) (t : Task) : Prop :=
  match t with
  | StartAwaitsStop w => opt_kind KStop l w
  | StopAwaitsStop w | UpdateAwaitsStop w => of_kind KStop l w
  | StartAwaitsStart w | UpdateAwaitsStart w => of_kind KStart l w
  | DrainingPending w _ => opt_kind KStart l w
  | StartAwaitsUpdate w | StopAwaitsUpdate w => opt_kind KUpdate l w
  | UpdateAwaitsUpdate w => opt_kind KUpdate l w /\ forall p, w = Some p -> (p < i)%nat
  | _ => True
  end.

Record tasks_ok (l : list Task) (st sp up : option nat) : Prop := {
  to_start : opt_kind KStart l st;
  to_stop : opt_kind KStop l sp;
  to_update : opt_kind KUpdate l up;
  to_one_start : forall i t, l !! i = Some t -> kind t = Some KStart -> st = Some i;
  to_one_stop : forall i t, l !! i = Some t -> kind t = Some KStop -> sp = Some i;
  to_waits : forall i t, l !! i = Some t -> waits_ok l i t;
}.

Definition evolves (l l' : list Task) : Prop :=
  forall w t, l !! w = Some t -> exists t', l' !! w = Some t' /\ (kind t' = None \/ kind t' = kind t).

Lemma evolves_kind K l l' w : evolves l l' -> of_kind K l w -> of_kind K l' w.
Proof. intros He (t & Ht & Hk). destruct (He w t Ht) as (t' & Ht' & Hk'). exists t'. split; [done|]. destruct Hk' as [?|Hk']; [by right|]. by rewrite Hk'. Qed.

Lemma evolves_opt K l l' w : evolves l l' -> opt_kind K l w -> opt_kind K l' w.
Proof. intros He Ho p Hp. eapply evolves_kind; [done|]. by apply Ho. Qed.

Lemma evolves_waits l l' i t : evolves l l' -> waits_ok l i t -> waits_ok l' i t.
Proof.
  intros He. pose proof (fun K w => evolves_kind K l l' w He) as H1. pose proof (fun K w => evolves_opt K l l' w He) as H2. destruct t; cbn; auto. intros [? ?]. auto.
Qed.

Lemma evolves_set l i t t' : l !! i = Some t -> kind t' = None \/ kind t' = kind t -> evolves l (<[i := t']> l).
Proof.
  intros Hi Hk w u Hw. destruct (decide (w = i)) as [-> |Hne].
  - exists t'. rewrite list_lookup_insert_eq by (by eapply lookup_lt_Some). split; [done|]. congruence.
  - exists u. rewrite list_lookup_insert_ne by done. auto.
Qed.

Lemma evolves_app l k : evolves l (l ++ k).
Proof. intros w t Hw. exists t. split; [by apply lookup_app_l_Some|auto]. Qed.

Lemma evolves_trans l1 l2 l3 : evolves l1 l2 -> evolves l2 l3 -> evolves l1 l3.
Proof.
  intros H1 H2 w t Hw. destruct (H1 w t Hw) as (t' & Ht' & Hk). destruct (H2 w t' Ht') as (t'' & Ht'' & Hk'). exists t''. split; [done|].
  destruct Hk' as [?| ->]; auto.
Qed.

Lemma tasks_set l st sp up i t t' : l !! i = Some t -> kind t' = None \/ kind t' = kind t -> waits_ok l i t' ->
  tasks_ok l st sp up -> tasks_ok (<[i := t']> l) st sp up.
Proof.
  intros Hi Hk Hw [H1 H2 H3 H4 H5 H6]. pose proof (evolves_set l i t t' Hi Hk) as He.
  assert (Hold : forall j u, <[i := t']> l !! j = Some u -> kind u <> None -> exists u0, l !! j = Some u0 /\ kind u0 = kind u).
  { intros j u Hj Hn. destruct (decide (j = i)) as [-> |Hne]; [|rewrite list_lookup_insert_ne in Hj by done; eauto].
    rewrite list_lookup_insert_eq in Hj by (by eapply lookup_lt_Some). injection Hj as <-. exists t. split; [done|]. by destruct Hk. }
  split; try (by eapply evolves_opt).
  - intros j u Hj Hu. destruct (Hold j u Hj) as (u0 & Hu0 & E); [by rewrite Hu|]. eapply H4; [done|]. by rewrite E.
  - intros j u Hj Hu. destruct (Hold j u Hj) as (u0 & Hu0 & E); [by rewrite Hu|]. eapply H5; [done|]. by rewrite E.
  - intros j u Hj. eapply evolves_waits; [exact He|]. destruct (decide (j = i)) as [-> |Hne]; [|rewrite list_lookup_insert_ne in Hj by done; by apply H6].
    rewrite list_lookup_insert_eq in Hj by (by eapply lookup_lt_Some). by injection Hj as <-.
Qed.

(** A new task, and the field that remembers it. *)
Lemma tasks_new l st sp up st' sp' up' t : tasks_ok l st sp up -> waits_ok l (length l) t ->
  (st' = st \/ st = None /\ st' = Some (length l) /\ (kind t = Some KStart \/ kind t = None)) ->
  (sp' = sp \/ sp = None /\ sp' = Some (length l) /\ (kind t = Some KStop \/ kind t = None)) ->
  (up' = up \/ up' = Some (length l) /\ (kind t = Some KUpdate \/ kind t = None)) ->
  (kind t = Some KStart -> st' = Some (length l)) -> (kind t = Some KStop -> sp' = Some (length l)) ->
  tasks_ok (l ++ [t]) st' sp' up'.
Proof.
  intros [H1 H2 H3 H4 H5 H6] Hw Hst Hsp Hup Hst' Hsp'. pose proof (evolves_app l [t]) as He.
  assert (Hnew : (l ++ [t]) !! length l = Some t) by (by rewrite lookup_app_r, Nat.sub_diag by lia).
  assert (Hold : forall j u, (l ++ [t]) !! j = Some u -> l !! j = Some u \/ j = length l /\ u = t).
  { intros j u Hj. apply lookup_app_Some in Hj as [?|[Hl Hj]]; [by left|]. right. apply list_lookup_singleton_Some in Hj as [? <-]. split; [lia|done]. }
  split.
  - destruct Hst as [-> |(_ & -> & Hk)]; [by eapply evolves_opt|]. intros p [= <-]. by exists t.
  - destruct Hsp as [-> |(_ & -> & Hk)]; [by eapply evolves_opt|]. intros p [= <-]. by exists t.
  - destruct Hup as [-> |(-> & Hk)]; [by eapply evolves_opt|]. intros p [= <-]. by exists t.
  - intros j u Hj Hu. destruct (Hold j u Hj) as [Hj'|[-> ->]]; [|by apply Hst']. specialize (H4 j u Hj' Hu). destruct Hst as [-> |(E & _)]; [done|congruence].
  - intros j u Hj Hu. destruct (Hold j u Hj) as [Hj'|[-> ->]]; [|by apply Hsp']. specialize (H5 j u Hj' Hu). destruct Hsp as [-> |(E & _)]; [done|congruence].
  - intros j u Hj. eapply evolves_waits; [exact He|]. destruct (Hold j u Hj) as [Hj'|[-> ->]]; [by apply H6|done].
Qed.

(** What is remembered of a task that is done is forgotten. *)
Lemma tasks_forget_start l p sp up ok f : l !! p = Some (Done ok f) -> tasks_ok l (Some p) sp up -> tasks_ok l None sp up.
Proof. intros Hp [H1 H2 H3 H4 H5 H6]. split; try done. intros i t Hi Hk. specialize (H4 i t Hi Hk). injection H4 as ->. rewrite Hp in Hi. by injection Hi as <-. Qed.

Lemma tasks_forget_stop l p st up ok f : l !! p = Some (Done ok f) -> tasks_ok l st (Some p) up -> tasks_ok l st None up.
Proof. intros Hp [H1 H2 H3 H4 H5 H6]. split; try done. intros i t Hi Hk. specialize (H5 i t Hi Hk). injection H5 as ->. rewrite Hp in Hi. by injection Hi as <-. Qed.

Section Steps.
Context `{Noble} (N : nat) (discovers : nat -> bool).

Definition lc_ok (s : Lifecycle) : Prop := tasks_ok (tasks s) (startTask s) (stopTask s) (admissionUpdate s).

(** ** What the resumptions of a task still cost *)

Definition cost (t : Task) : nat :=
  match t with
  | Done _ _ => 0
  | Starting _ k => N - k + Nat.max N (S k) + 1
  | Unstarting rest _ => Nat.max 1 (length rest)
  | DrainingPending _ _ => 1
  | DrainingConnects _ => 2
  | DrainingDiscovery _ => 3
  | Stopping k _ => N - k + 4
  | Departing => N + 5
  | StartAwaitsStart _ | StopAwaitsUpdate _ | UpdateAwaitsStart _ => 1
  | StopAwaitsStop _ => 2
  | StartAwaitsUpdate _ => 2 * N + 6
  | StartAwaitsStop _ => 2 * N + 7
  | UpdateAwaitsStop _ => 2 * N + 6
  | UpdateAwaitsUpdate _ => 3 * N + 13
  end.

Definition remembered (w : option nat) : nat := match w with Some _ => 1 | None => 0 end.
Definition total (s : Lifecycle) : nat := sum_list_with cost (tasks s) + remembered (startTask s) + remembered (stopTask s).

Lemma cost_insert l i t t' : l !! i = Some t -> (sum_list_with cost (<[i := t']> l) + cost t = sum_list_with cost l + cost t')%nat.
Proof.
  revert i. induction l as [|x l IH]; intros i; [done|]. destruct i as [|i]; [cbn; intros [= ->]; lia|]. intros Hi. specialize (IH i Hi).
  change (<[S i := t']> (x :: l)) with (x :: <[i := t']> l). cbn [sum_list_with]. lia.
Qed.

Lemma insert_last (l : list Task) t t' : <[length l := t']> (l ++ [t]) = l ++ [t'].
Proof. by rewrite insert_app_r_alt, Nat.sub_diag by lia. Qed.

(** What a step on the task [i] does to the tasks and to what is remembered of them. *)
Definition same_fields (s s' : Lifecycle) : Prop := startTask s' = startTask s /\ stopTask s' = stopTask s /\ admissionUpdate s' = admissionUpdate s.
Definition moves (i : nat) (P : Task -> Prop) (s s' : Lifecycle) : Prop := same_fields s s' /\ exists t, tasks s' = <[i := t]> (tasks s) /\ P t.

Lemma start_next_moves i k g s : moves i (fun t => t = Starting g k) s (start_next i k g s).
Proof. split; [done|]. eexists. done. Qed.

Lemma start_done_moves i g s : moves i (fun t => t = Done true false) s (start_done N discovers i g s).
Proof. split; [done|]. eexists. done. Qed.

Lemma startTransports_moves i s : moves i (fun t => (kind t = Some KStart \/ kind t = None) /\ cost t <= 2 * N + 1)%nat s (startTransports N discovers i s).
Proof.
  unfold startTransports. destruct (started s); [split; [done|]; eexists; split; [done|]; cbn; split; [auto|lia]|].
  destruct (hasStarted s), (Nat.eqb_spec N 0) as [E|E]; (split; [done|]); eexists; (split; [reflexivity|]); cbn; (split; [by auto|lia]).
Qed.

Lemma unstart_next_moves i rest closed s :
  moves i (fun t => (kind t = Some KStart \/ kind t = None) /\ cost t <= length rest)%nat s (unstart_next i rest closed s).
Proof. destruct rest as [|k rest]; (split; [done|]); eexists; (split; [reflexivity|]); cbn [kind cost length]; (split; [by auto|lia]). Qed.

Lemma start_answered_moves i k g ok s :
  moves i (fun t => (kind t = Some KStart \/ kind t = None) /\ cost t < cost (Starting g k))%nat s (start_answered N discovers i k g ok s).
Proof.
  unfold start_answered. destruct (_ && _ && _).
  - destruct (Nat.ltb_spec (S k) N); (split; [done|]); eexists; (split; [reflexivity|]); cbn; (split; [by auto|lia]).
  - destruct (unstart_next_moves i (rev (seq 0 (S k))) true (put_generation s (discoveryGeneration s + 1))) as [Hf (t & Ht & Hk & Hc)]. split; [done|].
    exists t. split; [done|]. split; [done|]. rewrite length_rev, length_seq in Hc. cbn. lia.
Qed.

Lemma stop_next_moves i k failed s : moves i (fun t => kind t = Some KStop /\ waits_ok (tasks s) i t /\ cost t <= N - k + 4 /\ (k < N \/ cost t = 3))%nat s (stop_next N i k failed s).
Proof. unfold stop_next. destruct (Nat.ltb_spec k N); (split; [done|]); eexists; (split; [reflexivity|]); cbn; (split_and!; [done|done|lia|lia]). Qed.

Lemma stopTransports_moves i d s : moves i (fun t => (kind t = Some KStop \/ kind t = None) /\ waits_ok (tasks s) i t /\ cost t <= N + 5)%nat s (stopTransports N i d s).
Proof.
  unfold stopTransports. destruct (_ && _); [split; [done|]; eexists; (split; [reflexivity|]); cbn; (split; [by auto|split; [done|lia]])|].
  cbv zeta. destruct d; [split; [done|]; exists Departing; (split; [done|]); cbn; (split; [by auto|split; [done|lia]])|].
  match goal with |- moves _ _ _ (stop_next _ _ _ _ ?s') => destruct (stop_next_moves i 0 false s') as [Hf (t & Ht & Hk & Hw & Hc & _)] end.
  split; [done|]. exists t. split; [done|]. split; [by left|]. split; [by destruct t|]. lia.
Qed.

(** A task on which [moves] acts keeps what the others rely on. *)
Lemma moves_ok i t P s s' : lc_ok s -> tasks s !! i = Some t -> moves i P s s' ->
  (forall t', P t' -> (kind t' = None \/ kind t' = kind t) /\ waits_ok (tasks s) i t') -> lc_ok s'.
Proof.
  unfold lc_ok. intros Hok Hi [(E1 & E2 & E3) (t' & Et & HP)] Hk. rewrite E1, E2, E3, Et. destruct (Hk t' HP). by eapply tasks_set.
Qed.

Lemma moves_total i t (P : Task -> Prop) n s s' : tasks s !! i = Some t -> moves i P s s' -> (forall t', P t' -> cost t' + n <= cost t)%nat -> (total s' + n <= total s)%nat.
Proof.
  intros Hi [(E1 & E2 & E3) (t' & Et & HP)] Hk. specialize (Hk t' HP). unfold total. rewrite E1, E2, Et. pose proof (cost_insert (tasks s) i t t' Hi). lia.
Qed.

Lemma moves_set i t s : moves i (eq t) s (set_task i t s).
Proof. split; [done|]. by exists t. Qed.

(** What the beginning of a start or a stop leaves to its caller. *)
Definition begun (K : Kind) (n : nat) (s : Lifecycle) (r : nat * Lifecycle) : Prop :=
  lc_ok (snd r) /\ of_kind K (tasks (snd r)) (fst r) /\ (forall i t, tasks s !! i = Some t -> tasks (snd r) !! i = Some t) /\
  admissionUpdate (snd r) = admissionUpdate s /\ (total (snd r) <= total s + n)%nat.

Lemma total_app s l : sum_list_with cost (tasks s ++ l) = (sum_list_with cost (tasks s) + sum_list_with cost l)%nat.
Proof. apply sum_list_with_app. Qed.

Lemma startNode_begun s : lc_ok s -> begun KStart (2 * N + 2) s (startNode N discovers s).
Proof.
  intros Hok. unfold startNode. destruct (startTask s) as [p|] eqn:Ep.
  - split_and!; cbn; [done|by apply (to_start _ _ _ _ Hok)|done|done|lia].
  - cbn. set (s1 := put_tasks s (tasks s ++ [Starting 0 0])). destruct (startTransports_moves (length (tasks s)) s1) as [(E1 & E2 & E3) (t & Et & Hk & Hc)].
    change (tasks s1) with (tasks s ++ [Starting 0 0]) in Et. rewrite insert_last in Et. set (s2 := startTransports N discovers (length (tasks s)) s1) in *.
    assert (Hw : forall l, waits_ok l (length (tasks s)) t) by (intros l; destruct t, Hk; done). cbn [fst snd].
    unfold begun, lc_ok. cbn [fst snd tasks startTask stopTask admissionUpdate put_startTask]. rewrite Et, E2, E3. split_and!; cbn.
    + eapply tasks_new; [exact Hok|by apply Hw|by right|by left|by left|done|]. intros E. destruct Hk; congruence.
    + exists t. by rewrite lookup_app_r, Nat.sub_diag by lia.
    + intros i u Hi. by apply lookup_app_l_Some.
    + done.
    + unfold total. cbn [tasks startTask stopTask put_startTask]. rewrite Et, E2, Ep. cbn [stopTask s1 put_tasks]. rewrite total_app. cbn [sum_list_with remembered]. lia.
Qed.

Lemma stopNode_begun d s : lc_ok s -> begun KStop (N + 6) s (stopNode N d s).
Proof.
  intros Hok. unfold stopNode. destruct (stopTask s) as [p|] eqn:Ep.
  - split_and!; cbn; [done|by apply (to_stop _ _ _ _ Hok)|done|done|lia].
  - cbn. set (s1 := put_tasks s (tasks s ++ [Departing])). destruct (stopTransports_moves (length (tasks s)) d s1) as [(E1 & E2 & E3) (t & Et & Hk & Hw & Hc)].
    change (tasks s1) with (tasks s ++ [Departing]) in Et. rewrite insert_last in Et. set (s2 := stopTransports N (length (tasks s)) d s1) in *.
    assert (Hw' : waits_ok (tasks s) (length (tasks s)) t).
    { revert Hw. destruct t, Hk; try done. cbn. intros Ho p Hp. destruct (Ho p Hp) as (u & Hu & Hku). change (tasks s1) with (tasks s ++ [Departing]) in Hu.
      apply lookup_app_Some in Hu as [Hu|[_ Hu]]; [by exists u|]. apply list_lookup_singleton_Some in Hu as [_ <-]. by destruct Hku. }
    unfold begun, lc_ok. cbn [fst snd tasks startTask stopTask admissionUpdate put_stopTask]. rewrite Et, E1, E3. split_and!; cbn.
    + eapply tasks_new; [exact Hok|exact Hw'|by left|by right|by left| |done]. intros E. destruct Hk; congruence.
    + exists t. by rewrite lookup_app_r, Nat.sub_diag by lia.
    + intros i u Hi. by apply lookup_app_l_Some.
    + done.
    + unfold total. cbn [tasks startTask stopTask put_stopTask]. rewrite Et, E1, Ep. cbn [startTask s1 put_tasks]. rewrite total_app. cbn [sum_list_with remembered]. lia.
Qed.

(** A caller that goes on to wait for what it has begun. *)
Lemma begun_waits K n i t t' s r : begun K n s r -> tasks s !! i = Some t -> kind t' = kind t -> (forall l w, of_kind K l w -> w = fst r -> waits_ok l i t') ->
  lc_ok (set_task i t' (snd r)) /\ (total (set_task i t' (snd r)) + cost t <= total s + n + cost t')%nat.
Proof.
  intros (Hok & Hw & Hl & _ & Ht) Hi Hk Hwait. specialize (Hl i t Hi). split.
  - eapply moves_ok; [exact Hok|exact Hl|apply moves_set|]. intros ? <-. split; [by right|]. by eapply Hwait.
  - unfold total in *. cbn. pose proof (cost_insert _ i t t' Hl). lia.
Qed.

(** ** Every resumption keeps the tasks in order and costs *)

Definition good_step (s s' : Lifecycle) : Prop := lc_ok s' /\ (total s' < total s)%nat.

Lemma set_good i t t' s : lc_ok s -> tasks s !! i = Some t -> kind t' = None \/ kind t' = kind t -> waits_ok (tasks s) i t' -> (cost t' < cost t)%nat ->
  good_step s (set_task i t' s).
Proof.
  intros Hok Hi Hk Hw Hc. split.
  - eapply moves_ok; [done|done|apply moves_set|]. by intros ? <-.
  - pose proof (moves_total i t (eq t') 1 s _ Hi (moves_set i t' s)) as Ht. assert (total (set_task i t' s) + 1 <= total s)%nat by (apply Ht; intros ? <-; lia). lia.
Qed.

Lemma moves_good i t (P : Task -> Prop) s s' : lc_ok s -> tasks s !! i = Some t -> moves i P s s' ->
  (forall t', P t' -> (kind t' = None \/ kind t' = kind t) /\ waits_ok (tasks s) i t' /\ (cost t' < cost t)%nat) -> good_step s s'.
Proof.
  intros Hok Hi Hm HP. split.
  - eapply moves_ok; [done|done|done|]. intros t' Ht'. by destruct (HP t' Ht') as (? & ? & _).
  - assert (total s' + 1 <= total s)%nat; [|lia]. eapply moves_total; [done|done|]. intros t' Ht'. destruct (HP t' Ht') as (_ & _ & ?). lia.
Qed.

Lemma start_resumed_good i t s : lc_ok s -> tasks s !! i = Some t -> kind t = Some KCall -> (2 * N + 4 <= cost t)%nat -> good_step s (start_resumed N discovers i s).
Proof.
  intros Hok Hi Hk Hc. unfold start_resumed. destruct (desiredRunning s).
  - pose proof (startNode_begun s Hok) as Hb. destruct (startNode N discovers s) as [w s'] eqn:E.
    destruct (begun_waits _ _ i t (StartAwaitsStart w) s _ Hb Hi ltac:(by rewrite Hk)) as [? Ht]; [by intros l ? ? ->|]. split; [done|]. cbn [snd] in Ht. cbn [cost] in Ht. lia.
  - eapply set_good; [done|done|by left|done|cbn; lia].
Qed.

Lemma update_done_good i t ok s : lc_ok s -> tasks s !! i = Some t -> (0 < cost t)%nat -> good_step s (update_done i ok s).
Proof.
  intros Hok Hi Hc. exact (set_good i t (Done ok false) (put_admissionUpdating s _) Hok Hi (or_introl eq_refl) I Hc).
Qed.

Lemma settled_kind s w r : settled s (Some w) = Some r -> exists t, tasks s !! w = Some t /\ kind t = None.
Proof. cbn. destruct (tasks s !! w) as [[]|] eqn:E; try done. intros _. by eexists. Qed.

Lemma kind_settled s w t : tasks s !! w = Some t -> kind t = None -> exists r, settled s (Some w) = Some r.
Proof. cbn. intros ->. destruct t; try done. by eexists. Qed.

Lemma resume_good i ok d s s' : lc_ok s -> resume N discovers i ok d s = Some s' -> good_step s s'.
Proof.
  intros Hok. unfold resume. destruct (tasks s !! i) as [t|] eqn:Ht; [|done]. cbn [mbind option_bind].
  pose proof (to_waits _ _ _ _ Hok i t Ht) as Hw. destruct t as [w|w|w|w|w|w|w|w|g k|rest closed| |k failed|failed|failed|w failed|]; try done.
  - destruct (settled s w) as [r|]; [|done]. intros [= <-]. destruct (negb r); [eapply set_good; [done|done|by left|done|cbn; lia]|].
    destruct (admissionUpdating s); [|eapply start_resumed_good; [done|done|done|cbn; lia]].
    eapply set_good; [done|done|by right|exact (to_update _ _ _ _ Hok)|cbn; lia].
  - destruct (settled s w) as [r|]; [|done]. intros [= <-]. destruct (negb r); [eapply set_good; [done|done|by left|done|cbn; lia]|].
    eapply start_resumed_good; [done|done|done|cbn; lia].
  - destruct (settled s (Some w)) as [r|]; [|done]. intros [= <-]. eapply set_good; [done|done|by left|done|cbn; lia].
  - destruct (settled s (Some w)) as [r|]; [|done]. intros [= <-]. destruct (negb r); [eapply set_good; [done|done|by left|done|cbn; lia]|].
    eapply set_good; [done|done|by right|exact (to_update _ _ _ _ Hok)|cbn; lia].
  - destruct (settled s w) as [r|]; [|done]. intros [= <-]. eapply set_good; [done|done|by left|done|cbn; lia].
  - destruct (settled s w) as [r|]; [|done]. intros [= <-]. pose proof (stopNode_begun d s Hok) as Hb. destruct (stopNode N d s) as [p s'] eqn:E.
    destruct (begun_waits _ _ i _ (UpdateAwaitsStop p) s _ Hb Ht eq_refl) as [? Hc]; [by intros l ? ? ->|]. split; [done|]. cbn [snd cost] in Hc. lia.
  - destruct (settled s (Some w)) as [r|]; [|done]. intros [= <-]. destruct (negb r || failures_of s w); [eapply update_done_good; [done|done|cbn; lia]|].
    destruct (desiredRunning s); [|eapply update_done_good; [done|done|cbn; lia]].
    pose proof (startNode_begun s Hok) as Hb. destruct (startNode N discovers s) as [p s'] eqn:E.
    destruct (begun_waits _ _ i _ (UpdateAwaitsStart p) s _ Hb Ht eq_refl) as [? Hc]; [by intros l ? ? ->|]. split; [done|]. cbn [snd cost] in Hc. lia.
  - destruct (settled s (Some w)) as [r|]; [|done]. intros [= <-]. eapply update_done_good; [done|done|cbn; lia].
  - intros [= <-]. eapply moves_good; [done|done|apply start_answered_moves|]. intros t' [Hk Hc]. split; [destruct Hk; auto|]. split; [by destruct t', Hk|done].
  - intros [= <-]. eapply moves_good; [done|done|apply unstart_next_moves|]. intros t' [Hk Hc]. split; [destruct Hk; auto|]. split; [by destruct t', Hk|].
    destruct rest; cbn [tail length cost] in *; lia.
  - intros [= <-]. eapply (moves_good i); [done|exact Ht|exact (stop_next_moves i 0 false (say CloseCarriers s))|]. intros t' (Hk & Hw' & Hc & _). split; [by right|]. split; [done|cbn; lia].
  - intros [= <-]. eapply (moves_good i); [done|exact Ht|destruct ok; [exact (stop_next_moves i (S k) _ s)|exact (stop_next_moves i (S k) _ (say EmitStopError s))]|].
    intros t' (Hk & Hw' & Hc & Hl). split; [by right|]. split; [by destruct ok|]. cbn [cost]. lia.
  - intros [= <-]. eapply set_good; [done|done|by right|done|cbn; lia].
  - intros [= <-]. eapply set_good; [done|done|by right|exact (to_start _ _ _ _ Hok)|cbn; lia].
  - destruct (settled s w) as [r|]; [|done]. intros [= <-].
    exact (set_good i _ (Done true failed) (put_cleanup (say ClearTables s) failed) Hok Ht (or_introl eq_refl) I ltac:(cbn; lia)).
Qed.

Lemma task_step_good s s' : lc_ok s -> task_step N discovers s s' -> good_step s s'.
Proof.
  intros Hok [i ok d s1 E|s1 E|s1 E]; [by eapply resume_good| |].
  - unfold start_forgotten in E. destruct (startTask s) as [p|] eqn:Ep; [|done]. cbn [mbind option_bind] in E. destruct (settled s (Some p)) as [r|] eqn:Er; [|done]. injection E as <-.
    unfold lc_ok in Hok. rewrite Ep in Hok. split; [|unfold total; cbn; rewrite Ep; cbn; lia]. apply settled_kind in Er as (t & Ht & Hk). destruct t; try done. by eapply tasks_forget_start.
  - unfold stop_forgotten in E. destruct (stopTask s) as [p|] eqn:Ep; [|done]. cbn [mbind option_bind] in E. destruct (settled s (Some p)) as [r|] eqn:Er; [|done]. injection E as <-.
    unfold lc_ok in Hok. rewrite Ep in Hok. split; [|unfold total; cbn; rewrite Ep; cbn; lia]. apply settled_kind in Er as (t & Ht & Hk). destruct t; try done. by eapply tasks_forget_stop.
Qed.

Lemma call_step_ok s s' : lc_ok s -> call_step N s s' -> lc_ok s'.
Proof.
  intros Hok [|d|keys s1 E].
  - eapply tasks_new; [exact Hok|exact (to_stop _ _ _ _ Hok)|by left|by left|by left|done|done].
  - unfold stop. destruct (stopNode_begun d (put_desiredRunning s false) Hok) as (Hok' & Hw & _). destruct (stopNode N d _) as [w s1]. cbn [fst snd] in *.
    eapply tasks_new; [exact Hok'|exact Hw|by left|by left|by left|done|done].
  - unfold setBlockedPeerPubkeys in E. apply result_bind_ok in E as (next & _ & E). destruct (equals _ _); [by injection E as <-|]. injection E as <-.
    eapply tasks_new; [exact Hok| |by left|by left|right; split; [done|by left]|done|done].
    split; [exact (to_update _ _ _ _ Hok)|]. intros p Hp. destruct (to_update _ _ _ _ Hok p Hp) as (t & Ht & _). by eapply lookup_lt_Some.
Qed.

Lemma reachable_tasks s : lifecycle_reachable N discovers s -> lc_ok s.
Proof.
  intros (epoch & a & _ & Hr). eapply (rtc_invariant _ lc_ok); [| |exact Hr].
  - intros x y Hx [Hc|Ht]; [by eapply call_step_ok|]. by apply (task_step_good x y).
  - split; intros *; done.
Qed.

(** ** No promise waits for nothing *)

Definition done_task (t : Task) : Prop := kind t = None.

Definition able (s : Lifecycle) : Prop := exists i ok d s', resume N discovers i ok d s = Some s'.

Lemma able_outside s i t : tasks s !! i = Some t -> kind t = Some KStart -> able s.
Proof. intros Hi Hk. exists i, true, false. unfold resume. rewrite Hi. destruct t; try done; by eexists. Qed.

(** A task that waits for a settled promise goes on. *)
Definition awaited (t : Task) : option nat :=
  match t with
  | StartAwaitsStop w | StartAwaitsUpdate w | StopAwaitsUpdate w | UpdateAwaitsUpdate w | DrainingPending w _ => w
  | StartAwaitsStart w | StopAwaitsStop w | UpdateAwaitsStop w | UpdateAwaitsStart w => Some w
  | _ => None
  end.

Lemma able_awaited s i t : tasks s !! i = Some t -> kind t <> None -> is_Some (settled s (awaited t)) -> able s.
Proof.
  intros Hi Hk [r Hr]. exists i, true, false. unfold resume. rewrite Hi. cbn [mbind option_bind].
  destruct t; try done; cbn [awaited] in Hr; rewrite ?Hr; cbn [mbind option_bind]; try (by eexists).
Qed.

Lemma waits_awaited l i t p : waits_ok l i t -> awaited t = Some p -> exists K, of_kind K l p /\
  match kind t with
  | Some KCall => K <> KCall
  | Some KUpdate => K = KStart \/ K = KStop \/ K = KUpdate /\ (p < i)%nat
  | Some KStop => K = KStart
  | _ => False
  end.
Proof.
  intros Hw Ea. destruct t; cbn in *; try done.
  - subst. exists KStop. split; [by apply Hw|done].
  - subst. exists KUpdate. split; [by apply Hw|done].
  - injection Ea as <-. by exists KStart.
  - injection Ea as <-. by exists KStop.
  - subst. exists KUpdate. split; [by apply Hw|done].
  - subst. destruct Hw as [Hw Hlt]. exists KUpdate. split; [by apply Hw|]. right. right. split; [done|]. by apply Hlt.
  - injection Ea as <-. exists KStop. auto.
  - injection Ea as <-. exists KStart. auto.
  - subst. exists KStart. split; [by apply Hw|done].
Qed.

Lemma able_of s : lc_ok s -> forall K i t, tasks s !! i = Some t -> kind t = Some K -> able s.
Proof.
  intros Hok. assert (Hstep : forall i t, tasks s !! i = Some t -> kind t <> None ->
    (forall p u, awaited t = Some p -> tasks s !! p = Some u -> kind u <> None -> able s) -> able s).
  { intros i t Hi Hk Hp. destruct (awaited t) as [p|] eqn:Ea; [|apply (able_awaited s i t); [done|done|by rewrite Ea]].
    destruct (waits_awaited _ _ _ _ (to_waits _ _ _ _ Hok i t Hi) Ea) as (K & (u & Hu & Hku) & _).
    destruct (kind u) eqn:E; [by eapply (Hp p u eq_refl Hu); rewrite E|]. apply (able_awaited s i t); [done|done|]. rewrite Ea. exact (kind_settled s p u Hu E). }
  assert (H1 : forall i t, tasks s !! i = Some t -> kind t = Some KStart -> able s) by (intros i t; apply able_outside).
  assert (H2 : forall i t, tasks s !! i = Some t -> kind t = Some KStop -> able s).
  { intros i t Hi Hk. apply (Hstep i t Hi); [by rewrite Hk|]. intros p u Ea Hu Hn. destruct (waits_awaited _ _ _ _ (to_waits _ _ _ _ Hok i t Hi) Ea) as (K & (u' & Hu' & Hku) & HK).
    rewrite Hk in HK. subst K. rewrite Hu in Hu'. injection Hu' as <-. destruct Hku as [Hku|?]; [by eapply H1|done]. }
  assert (H3 : forall i t, tasks s !! i = Some t -> kind t = Some KUpdate -> able s).
  { intros i. induction i as [i IH] using lt_wf_ind. intros t Hi Hk. apply (Hstep i t Hi); [by rewrite Hk|]. intros p u Ea Hu Hn.
    destruct (waits_awaited _ _ _ _ (to_waits _ _ _ _ Hok i t Hi) Ea) as (K & (u' & Hu' & Hku) & HK). rewrite Hk in HK. rewrite Hu in Hu'. injection Hu' as <-.
    destruct Hku as [Hku|?]; [|done]. destruct HK as [-> | [-> | [-> Hlt]]]; [by eapply H1|by eapply H2|by eapply (IH p Hlt)]. }
  intros K i t Hi Hk. destruct K; [by eapply H1|by eapply H2|by eapply H3|]. apply (Hstep i t Hi); [by rewrite Hk|]. intros p u Ea Hu Hn.
  destruct (waits_awaited _ _ _ _ (to_waits _ _ _ _ Hok i t Hi) Ea) as (K & (u' & Hu' & Hku) & HK). rewrite Hk in HK. rewrite Hu in Hu'. injection Hu' as <-.
  destruct Hku as [Hku|?]; [|done]. destruct K; [by eapply H1|by eapply H2|by eapply H3|done].
Qed.

Lemma tasks_bounded n s s' : lc_ok s -> nsteps (task_step N discovers) n s s' -> lc_ok s' /\ (n + total s' <= total s)%nat.
Proof.
  intros Hok Hn. induction Hn as [s|n s s1 s' H1 _ IH]; [split; [done|lia]|]. destruct (task_step_good _ _ Hok H1) as [Hok1 Hlt]. destruct (IH Hok1). split; [done|lia].
Qed.
End Steps.

(** ** Companions *)

Section CompanionFacts.
Context {T : Type} (type : T -> string) (companionTransports : T -> list T).

Lemma add_companions_spec ex added l e a : add_companions type ex added l = (e, a) ->
  NoDup (map type e) /\ (forall c, c ∈ e -> c ∈ l /\ type c ∉ ex /\ type c ∉ added) /\ (forall x, x ∈ a <-> x ∈ added \/ x ∈ map type e).
Proof.
  revert added e a. induction l as [|c l IH]; intros added e a; cbn; [intros [= <- <-]; split_and!; [constructor|by intros ? ?%not_elem_of_nil|set_solver]|].
  destruct (bool_decide (type c ∈ ex) || bool_decide (type c ∈ added)) eqn:Ec.
  - intros E. destruct (IH _ _ _ E) as (H1 & H2 & H3). split_and!; [done| |done]. intros d Hd. destruct (H2 d Hd) as (? & ? & ?). split_and!; [by right|done|done].
  - apply orb_false_iff in Ec as [E1%bool_decide_eq_false E2%bool_decide_eq_false]. destruct (add_companions type ex (type c :: added) l) as [e' a'] eqn:E. intros [= <- <-].
    destruct (IH _ _ _ E) as (H1 & H2 & H3). cbn. split_and!.
    + constructor; [|done]. intros (d & Ed & Hd)%list_elem_of_fmap. destruct (H2 d Hd) as (_ & _ & Hn). rewrite <- Ed in Hn. set_solver.
    + intros d [-> |Hd]%elem_of_cons; [split_and!; [by left|done|done]|]. destruct (H2 d Hd) as (? & ? & ?). split_and!; [by right|done|set_solver].
    + intros x. rewrite H3. set_solver.
Qed.

(** Every configured carrier is kept, and what is added is a companion of one of
    them, of a type that none of them has. *)
Lemma companions_expanded configured t :
  (t ∈ expandCompanionTransports type companionTransports configured -> t ∈ configured \/ type t ∉ map type configured /\ exists u, u ∈ configured /\ t ∈ companionTransports u) /\
  (t ∈ configured -> t ∈ expandCompanionTransports type companionTransports configured).
Proof.
  split; intros Hin.
  - assert (Hg : forall ex added l, t ∈ expand type companionTransports ex added l -> t ∈ l \/ type t ∉ ex /\ exists u, u ∈ l /\ t ∈ companionTransports u).
    { intros ex added l. revert added. induction l as [|u l IH]; intros added; cbn; [by intros ?%not_elem_of_nil|].
      destruct (add_companions type ex added (companionTransports u)) as [e a] eqn:E. destruct (add_companions_spec _ _ _ _ _ E) as (_ & H2 & _).
      intros [Hl|[-> |Hl]%elem_of_cons]%elem_of_app.
      - right. destruct (H2 t Hl) as (? & ? & _). split; [done|]. exists u. split; [by left|done].
      - left. by left.
      - destruct (IH _ Hl) as [?|(? & v & ? & ?)]; [left; by right|]. right. split; [done|]. exists v. split; [by right|done]. }
    exact (Hg _ _ _ Hin).
  - unfold expandCompanionTransports. generalize (map type configured) ([] : list string). induction configured as [|u l IH]; intros ex added; [by apply not_elem_of_nil in Hin|]. cbn.
    destruct (add_companions type ex added (companionTransports u)) as [e a]. apply elem_of_cons in Hin as [-> |Hin]; apply elem_of_app; right; [by left|right; by apply IH].
Qed.
End CompanionFacts.
