(* ===== verification/LifecycleRuns.v ===== *)
(** * The life of a node: what holds in every run *)

From Stdlib Require Import Sorting.Sorted.
From S2P Require Import Prelude Codec Crypto Toy NodeAddr Admission Lifecycle.

(** Whether the last that the carrier [k] was told is to start. *)
Definition opened (calls : list LcCall) (k : nat) : bool :=
  foldl (fun b c => match c with
                    | StartTransport j _ => b || (j =? k)%nat
                    | StopTransport j => b && negb (j =? k)%nat
                    | _ => b
                    end) false calls.

(** The epochs of the sessions of each completed start. *)
Definition epochs (calls : list LcCall) : list Z := omap (fun c => match c with StartSessions e => Some e | _ => None end) calls.

#[local] Arguments opened : simpl never.
#[local] Arguments epochs : simpl never.

(** The carriers that a task is still going to stop. *)
Definition covers (t : Task) (k : nat) : Prop :=
  match t with
  | Starting _ j => (k <= j)%nat
  | Unstarting rest _ => k ∈ tail rest
  | Departing => True
  | Stopping j _ => (j < k)%nat
  | _ => False
  end.

Definition view (K : Kind) (t : Task) : option Task :=
  match kind t, K with Some KStart, KStart | Some KStop, KStop => Some t | _, _ => None end.
Definition of_ (K : Kind) (l : list Task) (w : option nat) : option Task := p ← w; t ← l !! p; view K t.

(** The start and the stop that are under way. *)
Definition active (s : Lifecycle) : option Task := of_ KStart (tasks s) (startTask s).
Definition ending (s : Lifecycle) : option Task := of_ KStop (tasks s) (stopTask s).

Section Runs.
Context `{Noble} (N : nat) (discovers : nat -> bool) (epoch : Z).

Record view_ok (a e : option Task) (s : Lifecycle) : Prop := {
  vw_timer : heartbeatTimer s = started s /\ live_timers s = (if started s then 1 else 0)%nat;
  vw_starting : a <> None -> started s = false;
  vw_range : (forall g k, a = Some (Starting g k) -> (k < N)%nat /\ g <= discoveryGeneration s) /\ (forall rest c k, a = Some (Unstarting rest c) -> k ∈ rest -> (k < N)%nat);
  vw_contexts : Forall (fun g => g <= discoveryGeneration s) (contexts s);
  vw_current : discoveryGeneration s ∈ contexts s -> started s = true \/ exists k, a = Some (Starting (discoveryGeneration s) k);
  vw_open k : opened (lc_calls s) k = true -> (k < N)%nat /\ (started s = true \/ (exists t, a = Some t /\ covers t k) \/ exists t, e = Some t /\ covers t k);
  vw_epoch : sessionEpoch s = startupEpoch s /\ exists m ns, startupEpoch s = (epoch + m) mod 2 ^ 64 /\
    epochs (lc_calls s) = map (fun n => (epoch + n) mod 2 ^ 64) ns /\ StronglySorted Z.lt ns /\ Forall (fun n => 0 <= n <= m) ns /\ 0 <= m /\
    (hasStarted s = false -> ns = []) /\ (a <> None -> Forall (fun n => n < m) ns);
}.

Definition life_ok (s : Lifecycle) : Prop := lc_ok s /\ view_ok (active s) (ending s) s.

(** ** Calls that are recorded *)

Definition neutral (c : LcCall) : bool := match c with StartTransport _ _ | StopTransport _ | StartSessions _ => false | _ => true end.

Lemma opened_app calls c k : opened (calls ++ [c]) k =
  match c with StartTransport j _ => opened calls k || (j =? k)%nat | StopTransport j => opened calls k && negb (j =? k)%nat | _ => opened calls k end.
Proof. unfold opened. by rewrite foldl_app. Qed.

Lemma epochs_app calls c : epochs (calls ++ [c]) = epochs calls ++ match c with StartSessions e => [e] | _ => [] end.
Proof. unfold epochs. rewrite omap_app. by destruct c. Qed.

Lemma neutral_app calls cs : forallb neutral cs = true -> (forall k, opened (calls ++ cs) k = opened calls k) /\ epochs (calls ++ cs) = epochs calls.
Proof.
  revert calls. induction cs as [|c cs IH]; intros calls; cbn; [by rewrite app_nil_r|]. intros [Hc Hcs]%andb_true_iff. rewrite cons_middle, app_assoc. destruct (IH (calls ++ [c]) Hcs) as [E1 E2].
  rewrite E2, epochs_app. split; [intros k; rewrite E1, opened_app|]; destruct c; try done; by rewrite app_nil_r.
Qed.

(** Only these fields matter. *)
Lemma view_same a e s s' : view_ok a e s -> started s' = started s -> hasStarted s' = hasStarted s -> heartbeatTimer s' = heartbeatTimer s -> live_timers s' = live_timers s ->
  discoveryGeneration s' = discoveryGeneration s -> startupEpoch s' = startupEpoch s -> sessionEpoch s' = sessionEpoch s -> contexts s' = contexts s ->
  (exists cs, lc_calls s' = lc_calls s ++ cs /\ forallb neutral cs = true) -> view_ok a e s'.
Proof.
  intros [H1 H2 H3 H4 H5 H6 H7] E1 E2 E3 E4 E5 E6 E7 E8 (cs & Ec & Hn). destruct (neutral_app (lc_calls s) cs Hn) as [Eo Ee].
  split; rewrite ?E1, ?E2, ?E3, ?E4, ?E5, ?E6, ?E7, ?E8, ?Ec, ?Ee; try done. intros k. rewrite Eo. apply H6.
Qed.

Lemma view_ending a t e s : view_ok a (Some t) s -> (forall k, (k < N)%nat -> covers t k -> exists u, e = Some u /\ covers u k) -> view_ok a e s.
Proof.
  intros [H1 H2 H3 H4 H5 H6 H7] Hc. split; try done. intros k Hk. destruct (H6 k Hk) as [Hl [?|[?|(u & [= <-] & Hu)]]]; (split; [done|]); [auto|auto|]. right. right. by apply Hc.
Qed.

(** ** Starting *)

Lemma view_next a e g k s : view_ok a e s -> started s = false -> g = discoveryGeneration s -> (k < N)%nat ->
  (a = None \/ exists j, a = Some (Starting g j) /\ (j <= k)%nat) ->
  (a = None -> exists m ns, startupEpoch s = (epoch + m) mod 2 ^ 64 /\ epochs (lc_calls s) = map (fun n => (epoch + n) mod 2 ^ 64) ns /\ StronglySorted Z.lt ns /\
     Forall (fun n => 0 <= n <= m) ns /\ 0 <= m /\ (hasStarted s = false -> ns = []) /\ Forall (fun n => n < m) ns) ->
  view_ok (Some (Starting g k)) e (put_contexts (say (StartTransport k g) s) (g :: contexts s)).
Proof.
  intros [H1 H2 H3 H4 H5 H6 H7] Hs Hg Hk Ha Hep. split; cbn; rewrite ?epochs_app, ?app_nil_r; try done.
  - split; [|done]. intros ? ? [= <- <-]. split; [done|lia].
  - constructor; [lia|done].
  - intros _. right. exists k. by rewrite Hg.
  - intros j. rewrite opened_app. intros [Hj|Hj]%orb_true_iff; [|apply Nat.eqb_eq in Hj as ->; split; [done|]; right; left; eexists; split; [reflexivity|]; cbn; lia].
    destruct (H6 j Hj) as [Hl [?|[(t & Et & Hc)|?]]]; (split; [done|]); [congruence| |auto]. right. left. eexists. split; [reflexivity|]. cbn.
    destruct Ha as [->|(i & -> & Hi)]; [done|]. injection Et as <-. cbn in Hc. lia.
  - destruct H7 as [Es (m & ns & ?)]. split; [done|]. destruct Ha as [->|(i & -> & Hi)].
    + destruct (Hep eq_refl) as (m' & ns' & ? & ? & ? & ? & ? & ? & ?). exists m', ns'. by split_and!.
    + exists m, ns. destruct_and!. split_and!; try done. intros _. auto.
Qed.

Lemma view_done a e g i s : view_ok a e s -> started s = false ->
  (exists m ns, startupEpoch s = (epoch + m) mod 2 ^ 64 /\ epochs (lc_calls s) = map (fun n => (epoch + n) mod 2 ^ 64) ns /\ StronglySorted Z.lt ns /\
     Forall (fun n => 0 <= n <= m) ns /\ 0 <= m /\ (hasStarted s = false -> ns = []) /\ Forall (fun n => n < m) ns) ->
  (forall k t, a = Some t -> covers t k -> (k < N)%nat) ->
  view_ok None e (start_done N discovers i g s).
Proof.
  intros [H1 H2 H3 H4 H5 H6 H7] Hs (m & ns & E1 & E2 & Hsort & Hns & Hm & _ & Hlt) Ha. unfold start_done. rewrite Hs in H1. destruct H1 as [Ht Hl]. destruct H7 as [Ese _].
  assert (Hn : forallb neutral (map (fun k => ConsumeDiscovery k g) (List.filter discovers (seq 0 N))) = true) by (apply forallb_forall; by intros ? (? & <- & _)%in_map_iff).
  split; cbn -[seq]; try done.
  - by rewrite Hl.
  - by left.
  - intros k. rewrite (proj1 (neutral_app _ _ Hn)), opened_app. intros Hk. split; [by apply H6|by left].
  - split; [done|]. exists m, (ns ++ [m]). rewrite (proj2 (neutral_app _ _ Hn)), epochs_app, E2, map_app, Ese. split_and!; try done.
    + by rewrite E1.
    + clear - Hsort Hlt. induction Hlt as [|x l Hx _ IH]; cbn; [repeat constructor|]. apply StronglySorted_inv in Hsort as [Hsort Hall]. constructor; [by apply IH|]. apply Forall_app. split; [done|by constructor].
    + apply Forall_app. split; [done|]. constructor; [lia|done].
Qed.

(** ** A start that has failed *)

Lemma view_unstart a e rest closed i s : view_ok a e s ->
  (exists t, a = Some t /\ kind t = Some KStart /\ (forall k, covers t k -> k ∈ rest) /\ (forall g k, t = Starting g k -> g < discoveryGeneration s)) ->
  (forall k, k ∈ rest -> (k < N)%nat) ->
  view_ok (match rest with [] => None | _ => Some (Unstarting rest closed) end) e (unstart_next i rest closed s).
Proof.
  intros [H1 H2 H3 H4 H5 H6 H7] (t & -> & Hkt & Hc & Hg) Hr. specialize (H2 ltac:(done)).
  assert (Hcur : ~ discoveryGeneration s ∈ contexts s). { intros Hin. destruct (H5 Hin) as [?|(k & [= ->])]; [congruence|]. pose proof (Hg _ _ eq_refl). lia. }
  destruct H7 as [Es (m & ns & ? & ? & ? & ? & ? & ? & Hlt)]. specialize (Hlt ltac:(done)). destruct rest as [|j rest]; split; cbn; rewrite ?epochs_app, ?app_nil_r; try done.
  - intros k Hk. destruct (H6 k Hk) as [Hl [?|[(u & [= <-] & Hu)|?]]]; (split; [done|]); [auto| |auto]. apply Hc in Hu. by apply not_elem_of_nil in Hu.
  - split; [done|]. exists m, ns. by split_and!.
  - split; [done|]. intros ? ? ? [= <- _]. apply Hr.
  - intros k. rewrite opened_app. intros [Hk Hj]%andb_true_iff. apply negb_true_iff, Nat.eqb_neq in Hj. destruct (H6 k Hk) as [Hl [?|[(u & [= <-] & Hu)|?]]]; (split; [done|]); [auto| |auto].
    right. left. eexists. split; [reflexivity|]. cbn. apply Hc in Hu. apply elem_of_cons in Hu as [->|?]; done.
  - split; [done|]. exists m, ns. by split_and!.
Qed.

(** ** Stopping *)

Definition stop_view (k : nat) (failed : bool) : Task := if (k <? N)%nat then Stopping k failed else DrainingDiscovery failed.

Lemma view_stop a t e k failed i s : view_ok a (Some t) s \/ e = Some t /\ view_ok a e s -> (forall j, (j < N)%nat -> covers t j -> (k <= j)%nat) ->
  view_ok a (Some (stop_view k failed)) (stop_next N i k failed s).
Proof.
  intros Hv Hc. assert (Hv' : view_ok a (Some t) s) by (by destruct Hv as [?|[<- ?]]). clear Hv. unfold stop_view, stop_next. destruct (Nat.ltb_spec k N).
  - destruct Hv' as [H1 H2 H3 H4 H5 H6 H7]. split; cbn; rewrite ?epochs_app, ?app_nil_r; try done.
    intros j. rewrite opened_app. intros [Hj Hne]%andb_true_iff. apply negb_true_iff, Nat.eqb_neq in Hne. destruct (H6 j Hj) as [Hl [?|[?|(u & [= <-] & Hu)]]]; (split; [done|]); [auto|auto|].
    right. right. eexists. split; [reflexivity|]. cbn. specialize (Hc j Hl Hu). lia.
  - eapply view_same; [eapply view_ending; [exact Hv'|]|done..|]; [|exists []; by rewrite app_nil_r]. intros j Hj Hu. specialize (Hc j Hj Hu). lia.
Qed.


(** The beginning of a stop: all that is open is among what it is going to stop. *)
Definition stop_begun (s : Lifecycle) : Lifecycle :=
  let s := put_started s false in
  let s := put_heartbeatTimer (put_live_timers s (if heartbeatTimer s then pred (live_timers s) else live_timers s)) false in
  say StopParts (put_generation s (discoveryGeneration s + 1)).

Lemma view_stop_begun a s : view_ok a None s -> view_ok a (Some Departing) (stop_begun s).
Proof.
  intros [[Ht Hl] H2 H3 H4 H5 H6 H7]. unfold stop_begun. split; cbn; rewrite ?epochs_app, ?app_nil_r; try done.
  - split; [done|]. rewrite Ht, Hl. by destruct (started s).
  - split; [|exact (proj2 H3)]. intros g k E. destruct (proj1 H3 g k E). split; [done|lia].
  - eapply Forall_impl; [exact H4|]. cbn. lia.
  - intros Hin. rewrite Forall_forall in H4. specialize (H4 _ Hin). lia.
  - intros k. rewrite opened_app. intros Hk. destruct (H6 k Hk) as [Hl' _]. split; [done|]. right. right. by exists Departing.
Qed.

(** The task of a stop, by how far it gets at once. *)
Definition stop_task (d : bool) (s : Lifecycle) : Task :=
  if negb (needsTransportCleanup s) && negb (started s) && negb (bool_decide (is_Some (startTask s))) then Done true false
  else if d then Departing else stop_view 0 false.


Lemma view_stopTransports a i d s : view_ok a None s ->
  view_ok a (view KStop (stop_task d s)) (stopTransports N i d s) /\ tasks (stopTransports N i d s) = <[i := stop_task d s]> (tasks s).
Proof.
  intros Hv. unfold stopTransports, stop_task. destruct (_ && _ && _).
  { split; [|done]. eapply view_same; [exact Hv|done..|]. exists []. by rewrite app_nil_r. }
  pose proof (view_stop_begun a s Hv) as Hb. cbv zeta. destruct d.
  - split; [|done]. eapply view_same; [exact Hb|done..|]. eexists [_]. split; [reflexivity|done].
  - assert (Ee : view KStop (stop_view 0 false) = Some (stop_view 0 false)) by (unfold stop_view; by destruct (_ <? _)%nat).
    rewrite Ee. split.
    + eapply (view_stop a Departing None 0 false i); [left; eapply view_same; [exact Hb|done..|]|intros; lia]. eexists [_]. by split.
    + unfold stop_next, stop_view. by destruct (_ <? _)%nat.
Qed.

(** The task of a start, by how far it gets at once. *)
Definition start_task (s : Lifecycle) : Task :=
  if started s then Done true false else if (N =? 0)%nat then Done true false else Starting (discoveryGeneration s + 1) 0.

Lemma epoch_bumped s m : startupEpoch s = (epoch + m) mod 2 ^ 64 -> next_epoch (startupEpoch s) = (epoch + (m + 1)) mod 2 ^ 64.
Proof. intros ->. unfold next_epoch. rewrite Z.add_mod_idemp_l by lia. f_equal. lia. Qed.

Lemma view_startTransports e i s : view_ok None e s ->
  view_ok (view KStart (start_task s)) e (startTransports N discovers i s) /\ tasks (startTransports N discovers i s) = <[i := start_task s]> (tasks s).
Proof.
  intros Hv. unfold startTransports, start_task. destruct (started s) eqn:Es.
  { split; [|done]. eapply view_same; [exact Hv|done..|]. exists []. by rewrite app_nil_r. }
  pose proof Hv as [H1 H2 H3 H4 H5 H6 [Ese (m & ns & E1 & E2 & E3 & E4 & E5 & E6 & _)]]. cbv zeta.
  set (s1 := if hasStarted s then _ else s). set (s2 := put_generation (put_cleanup s1 true) _).
  assert (Ehs : hasStarted s1 = hasStarted s /\ started s1 = started s /\ lc_calls s1 = lc_calls s /\ discoveryGeneration s1 = discoveryGeneration s /\ contexts s1 = contexts s /\
    heartbeatTimer s1 = heartbeatTimer s /\ live_timers s1 = live_timers s /\ tasks s1 = tasks s) by (unfold s1; destruct (hasStarted s) eqn:?; split_and!; done).
  destruct Ehs as (Q1 & Q2 & Q3 & Q4 & Q5 & Q6 & Q7 & Q8).
  assert (Hep : exists m ns, startupEpoch s2 = (epoch + m) mod 2 ^ 64 /\ epochs (lc_calls s2) = map (fun n => (epoch + n) mod 2 ^ 64) ns /\ StronglySorted Z.lt ns /\
     Forall (fun n => 0 <= n <= m) ns /\ 0 <= m /\ (hasStarted s2 = false -> ns = []) /\ Forall (fun n => n < m) ns).
  { cbn. rewrite Q3, Q1. unfold s1. destruct (hasStarted s) eqn:Eh.
    - exists (m + 1), ns. cbn. split; [by apply epoch_bumped|]. split_and!; try done; [|lia|]; (eapply Forall_impl; [exact E4|]; cbn; lia).
    - rewrite (E6 eq_refl) in *. exists m, []. by split_and!. }
  assert (Hv2 : view_ok None e s2).
  { split; cbn; rewrite ?Q1, ?Q2, ?Q3, ?Q5, ?Q6, ?Q7; try done.
    - eapply Forall_impl; [exact H4|]. cbn. lia.
    - intros Hin. rewrite Forall_forall in H4. specialize (H4 _ Hin). lia.
    - split; [unfold s1; by destruct (hasStarted s)|]. destruct Hep as (m' & ns' & F1 & F2 & F3 & F4 & F5 & F6 & _). cbn in *. rewrite Q3, Q1 in *. exists m', ns'. by split_and!. }
  assert (Es2 : started s2 = false) by (cbn; congruence). assert (Eg : discoveryGeneration s2 = discoveryGeneration s + 1) by (cbn; by rewrite Q4).
  destruct (Nat.eqb_spec N 0) as [E0|E0].
  - split; [|by (cbn; rewrite Q8)]. eapply (view_done None e); [exact Hv2|done|exact Hep|done].
  - split; [|by (cbn; rewrite Q8, Q4)]. change (discoveryGeneration (put_cleanup s1 true) + 1) with (discoveryGeneration s2). cbn [view kind]. rewrite <- Eg.
    eapply view_same; [eapply (view_next None e _ 0 s2 Hv2); [done|done|lia|by left|intros _; exact Hep]|done..|].
    exists []. by rewrite app_nil_r.
Qed.

(** ** What the tasks show *)

Lemma of_set_other K l w i t t' : l !! i = Some t -> view K t = None -> view K t' = None -> of_ K (<[i := t']> l) w = of_ K l w.
Proof.
  intros Hi Ht Ht'. unfold of_. destruct w as [p|]; [|done]. cbn. destruct (decide (p = i)) as [->|Hne]; [|by rewrite list_lookup_insert_ne].
  rewrite list_lookup_insert_eq by (by eapply lookup_lt_Some). rewrite Hi. cbn. congruence.
Qed.

Lemma of_set_at K l i t t' : l !! i = Some t -> of_ K (<[i := t']> l) (Some i) = view K t'.
Proof. intros Hi. unfold of_. cbn. by rewrite list_lookup_insert_eq by (by eapply lookup_lt_Some). Qed.

Lemma of_app K l w t : opt_kind K l w -> of_ K (l ++ [t]) w = of_ K l w.
Proof. intros Ho. unfold of_. destruct w as [p|]; [|done]. destruct (Ho p eq_refl) as (u & Hu & _). cbn. by rewrite (lookup_app_l_Some _ _ _ _ Hu), Hu. Qed.

Lemma of_app_new K l t : of_ K (l ++ [t]) (Some (length l)) = view K t.
Proof. unfold of_. cbn. by rewrite lookup_app_r, Nat.sub_diag by lia. Qed.

(** A task of a caller, or one that is done, shows nothing. *)
Lemma life_set_other i t t' s : life_ok s -> lc_ok (set_task i t' s) -> tasks s !! i = Some t ->
  (forall K, view K t = None) -> (forall K, view K t' = None) -> life_ok (set_task i t' s).
Proof.
  intros [Hok Hv] Hok' Hi Ht Ht'. split; [done|]. unfold active, ending. cbn [set_task put_tasks tasks startTask stopTask]. rewrite !(of_set_other _ _ _ i t t') by auto. eapply view_same; [exact Hv|done..|]. exists []. by rewrite app_nil_r.
Qed.

Lemma life_ignored s s' : life_ok s -> tasks s' = tasks s -> startTask s' = startTask s -> stopTask s' = stopTask s -> admissionUpdate s' = admissionUpdate s ->
  view_ok (active s) (ending s) s' -> life_ok s'.
Proof. intros [Hok _] E1 E2 E3 E4 Hv. split; [unfold lc_ok; by rewrite E1, E2, E3, E4|]. unfold active, ending. by rewrite E1, E2, E3. Qed.

Lemma startNode_life s : life_ok s -> life_ok (snd (startNode N discovers s)).
Proof.
  intros [Hok Hv]. split; [by apply startNode_begun|]. revert Hv. unfold active, startNode, ending. destruct (startTask s) as [p|] eqn:Ep; cbn [snd]; [by rewrite Ep|]. cbn -[of_]. intros Hv.
  set (s1 := put_tasks s (tasks s ++ [Starting 0 0])). assert (Hv1 : view_ok None (of_ KStop (tasks s) (stopTask s)) s1).
  { eapply view_same; [exact Hv|done..|]. exists []. by rewrite app_nil_r. }
  destruct (view_startTransports _ (length (tasks s)) s1 Hv1) as [Hv2 Ht]. change (tasks s1) with (tasks s ++ [Starting 0 0]) in Ht. rewrite insert_last in Ht.
  destruct (startTransports_moves N discovers (length (tasks s)) s1) as [(_ & E & _) _]. change (stopTask s1) with (stopTask s) in E. rewrite Ht, E, of_app_new, of_app by apply (to_stop _ _ _ _ Hok).
  eapply view_same; [exact Hv2|done..|]. exists []. by rewrite app_nil_r.
Qed.

Lemma stopNode_life d s : life_ok s -> life_ok (snd (stopNode N d s)).
Proof.
  intros [Hok Hv]. split; [by apply stopNode_begun|]. revert Hv. unfold active, stopNode, ending. destruct (stopTask s) as [p|] eqn:Ep; cbn [snd]; [by rewrite Ep|]. cbn -[of_]. intros Hv.
  set (s1 := put_tasks s (tasks s ++ [Departing])). assert (Hv1 : view_ok (of_ KStart (tasks s) (startTask s)) None s1).
  { eapply view_same; [exact Hv|done..|]. exists []. by rewrite app_nil_r. }
  destruct (view_stopTransports _ (length (tasks s)) d s1 Hv1) as [Hv2 Ht]. change (tasks s1) with (tasks s ++ [Departing]) in Ht. rewrite insert_last in Ht.
  destruct (stopTransports_moves N (length (tasks s)) d s1) as [(E & _) _]. change (startTask s1) with (startTask s) in E. rewrite Ht, E, of_app_new, of_app by apply (to_start _ _ _ _ Hok).
  eapply view_same; [exact Hv2|done..|]. exists []. by rewrite app_nil_r.
Qed.

(** A task of a start, or of a stop, that goes on. *)
Lemma life_moves_start i t t' s s' : life_ok s -> lc_ok s' -> tasks s !! i = Some t -> kind t = Some KStart -> tasks s' = <[i := t']> (tasks s) ->
  startTask s' = startTask s -> stopTask s' = stopTask s -> view KStop t' = None -> (view_ok (Some t) (ending s) s -> view_ok (view KStart t') (ending s) s') -> life_ok s'.
Proof.
  intros [Hok Hv] Hok' Hi Hk Et E1 E2 Hn Hvv. split; [done|]. unfold active, ending. rewrite Et, E1, E2, (to_one_start _ _ _ _ Hok i t Hi Hk), (of_set_at _ _ _ _ _ Hi).
  rewrite (of_set_other _ _ _ i t t') by (try done; unfold view; by rewrite Hk). apply Hvv. revert Hv. unfold active. rewrite (to_one_start _ _ _ _ Hok i t Hi Hk). unfold of_. cbn. rewrite Hi. cbn. unfold view. by rewrite Hk.
Qed.

Lemma life_moves_stop i t t' s s' : life_ok s -> lc_ok s' -> tasks s !! i = Some t -> kind t = Some KStop -> tasks s' = <[i := t']> (tasks s) ->
  startTask s' = startTask s -> stopTask s' = stopTask s -> view KStart t' = None -> (view_ok (active s) (Some t) s -> view_ok (active s) (view KStop t') s') -> life_ok s'.
Proof.
  intros [Hok Hv] Hok' Hi Hk Et E1 E2 Hn Hvv. split; [done|]. unfold active, ending. rewrite Et, E1, E2, (to_one_stop _ _ _ _ Hok i t Hi Hk), (of_set_at _ _ _ _ _ Hi).
  rewrite (of_set_other _ _ _ i t t') by (try done; unfold view; by rewrite Hk). apply Hvv. revert Hv. unfold ending. rewrite (to_one_stop _ _ _ _ Hok i t Hi Hk). unfold of_. cbn. rewrite Hi. cbn. unfold view. by rewrite Hk.
Qed.

Lemma quiet_view K t : kind t <> Some KStart -> kind t <> Some KStop -> view K t = None.
Proof. unfold view. destruct (kind t) as [[]|], K; done. Qed.

(** A caller that goes on: it is told [t'], after something was begun for it. *)
Lemma life_caller i t t' s : life_ok s -> lc_ok (set_task i t' s) -> tasks s !! i = Some t -> kind t = Some KCall \/ kind t = Some KUpdate ->
  kind t' <> Some KStart -> kind t' <> Some KStop -> life_ok (set_task i t' s).
Proof. intros Hl Hok Hi Hk H1 H2. eapply life_set_other; [done|done|done| |]; intros K; apply quiet_view; try done; destruct Hk as [E|E]; by rewrite E. Qed.

Lemma start_resumed_life i t s : life_ok s -> lc_ok (start_resumed N discovers i s) -> tasks s !! i = Some t -> kind t = Some KCall -> life_ok (start_resumed N discovers i s).
Proof.
  intros Hl Hok' Hi Hk. revert Hok'. unfold start_resumed. destruct (desiredRunning s); [|intros Hok'; eapply life_caller; [done|done|exact Hi|by left|done|done]].
  pose proof (startNode_life s Hl) as Hl'. destruct (startNode_begun N discovers s (proj1 Hl)) as (_ & _ & Hp & _). destruct (startNode N discovers s) as [w s']. cbn [snd fst] in *.
  intros Hok'. eapply life_caller; [done|done|by apply Hp|by left|done|done].
Qed.

Lemma update_done_life i t ok s : life_ok s -> lc_ok (update_done i ok s) -> tasks s !! i = Some t -> kind t = Some KUpdate -> life_ok (update_done i ok s).
Proof.
  intros Hl Hok' Hi Hk. unfold update_done in *. eapply (life_caller i t); [|done|done|by right|done|done]. destruct Hl as [Hok Hv]. split; [done|]. eapply view_same; [exact Hv|done..|]. exists []. by rewrite app_nil_r.
Qed.

Lemma current_running s g i k : life_ok s -> tasks s !! i = Some (Starting g k) -> active s = Some (Starting g k).
Proof. intros [Hok _] Hi. unfold active. rewrite (to_one_start _ _ _ _ Hok i _ Hi eq_refl). unfold of_. cbn. by rewrite Hi. Qed.

Lemma start_answered_life i g k ok s : life_ok s -> lc_ok (start_answered N discovers i k g ok s) -> tasks s !! i = Some (Starting g k) -> life_ok (start_answered N discovers i k g ok s).
Proof.
  intros Hl Hok' Hi. pose proof (proj2 Hl) as Hv. rewrite (current_running s g i k Hl Hi) in Hv. pose proof (vw_starting _ _ _ Hv ltac:(done)) as Hs. destruct (proj1 (vw_range _ _ _ Hv) g k eq_refl) as [Hk Hg].
  destruct (vw_epoch _ _ _ Hv) as [_ (m & ns & E1 & E2 & E3 & E4 & E5 & E6 & E7)]. specialize (E7 ltac:(done)).
  revert Hok'. unfold start_answered. destruct (ok && (g =? discoveryGeneration s) && desiredRunning s) eqn:Ec.
  - bool_split. destruct (Nat.ltb_spec (S k) N); intros Hok'.
    + eapply (life_moves_start i _ (Starting g (S k)) s); [done|done|exact Hi|done..|]. intros Hv'. eapply view_same; [eapply (view_next (Some (Starting g k)) (ending s) g (S k) s); [done|done|lia|done|right; exists k; split; [done|lia]|done]|done..|].
      exists []. by rewrite app_nil_r.
    + eapply (life_moves_start i _ (Done true false) s); [done|done|exact Hi|done..|]. intros Hv'. eapply view_done; [exact Hv'|done|by exists m, ns; split_and!|]. intros j t [= <-]. cbn. lia.
  - intros Hok'. set (s1 := put_generation s (discoveryGeneration s + 1)) in *.
    assert (Er : rev (seq 0 (S k)) = k :: rev (seq 0 k)) by (rewrite seq_S, rev_app_distr; done).
    eapply (life_moves_start i _ (Unstarting (rev (seq 0 (S k))) true) s); [done|done|exact Hi|done|rewrite Er; done|rewrite Er; done|rewrite Er; done|done|]. intros Hv'.
    assert (Hin : forall j, j ∈ rev (seq 0 (S k)) <-> (j <= k)%nat). { intros j. rewrite list_elem_of_In, <- in_rev, in_seq. lia. }
    assert (Hv1 : view_ok (Some (Starting g k)) (ending s) s1).
    { destruct Hv' as [H1 H2 H3 H4 H5 H6 H7]. split; cbn; try done.
      - split; [|done]. intros ? ? [= <- <-]. split; [done|lia].
      - eapply Forall_impl; [exact H4|]. cbn. lia.
      - intros Hc. rewrite Forall_forall in H4. specialize (H4 _ Hc). lia. }
    pose proof (view_unstart _ _ (rev (seq 0 (S k))) true i s1 Hv1) as Hu. assert (Em : match rev (seq 0 (S k)) with [] => None | _ :: _ => Some (Unstarting (rev (seq 0 (S k))) true) end = Some (Unstarting (rev (seq 0 (S k))) true)) by (by rewrite Er).
    rewrite Em in Hu. apply Hu.
    + exists (Starting g k). split; [done|]. split; [done|]. split; [intros j; cbn; by rewrite Hin|]. intros ? ? [= <- <-]. cbn. lia.
    + intros j. rewrite Hin. lia.
Qed.

Lemma unstart_next_life i rest closed ok s : life_ok s -> lc_ok (unstart_next i (tail rest) (closed && ok) s) -> tasks s !! i = Some (Unstarting rest closed) -> life_ok (unstart_next i (tail rest) (closed && ok) s).
Proof.
  intros Hl Hok' Hi. eapply (life_moves_start i _ (match tail rest with [] => Done false false | _ => Unstarting (tail rest) (closed && ok) end) s); [done|done|exact Hi|done|by destruct (tail rest)..|].
  intros Hv'. pose proof (view_unstart _ _ (tail rest) (closed && ok) i s Hv') as Hu. assert (Hu' : view_ok match tail rest with [] => None | _ :: _ => Some (Unstarting (tail rest) (closed && ok)) end (ending s) (unstart_next i (tail rest) (closed && ok) s)).
  { apply Hu; [eexists; split; [done|]; split; [done|]; by split|]. intros k Hk. apply (proj2 (vw_range _ _ _ Hv') rest closed k eq_refl). destruct rest; [by apply not_elem_of_nil in Hk|]. by right. }
  by destruct (tail rest).
Qed.

Lemma stop_next_life i t k failed s s' : life_ok s -> tasks s !! i = Some t -> kind t = Some KStop -> (forall j, (j < N)%nat -> covers t j -> (k <= j)%nat) ->
  (forall a e, view_ok a e s -> view_ok a e s') -> tasks s' = tasks s -> startTask s' = startTask s -> stopTask s' = stopTask s ->
  lc_ok (stop_next N i k failed s') -> life_ok (stop_next N i k failed s').
Proof.
  intros Hl Hi Hk Hc Hs Et E1 E2 Hok'. eapply (life_moves_stop i t (stop_view k failed) s); [done|done|done|done| | | | |].
  - unfold stop_next, stop_view. destruct (_ <? _)%nat; cbn; by rewrite Et.
  - unfold stop_next. destruct (_ <? _)%nat; cbn; by rewrite E1.
  - unfold stop_next. destruct (_ <? _)%nat; cbn; by rewrite E2.
  - unfold stop_view. by destruct (_ <? _)%nat.
  - intros Hv. assert (Ee : view KStop (stop_view k failed) = Some (stop_view k failed)) by (unfold stop_view; by destruct (_ <? _)%nat). rewrite Ee.
    eapply (view_stop _ t None); [left; by apply Hs|done].
Qed.

Lemma stop_task_life i t t' s : life_ok s -> lc_ok (set_task i t' s) -> tasks s !! i = Some t -> kind t = Some KStop -> kind t' <> Some KStart -> (forall k, ~ covers t k) -> life_ok (set_task i t' s).
Proof.
  intros Hl Hok' Hi Hk Hk' Hc. eapply (life_moves_stop i t t' s); [done|done|done|done|done..| |].
  - unfold view. destruct (kind t') as [[]|]; done.
  - intros Hv. eapply view_same; [eapply view_ending; [exact Hv|]|done..|]; [|exists []; by rewrite app_nil_r]. intros k _ Hk0. by destruct (Hc k).
Qed.

Lemma view_says a e c s : neutral c = true -> view_ok a e s -> view_ok a e (say c s).
Proof. intros Hn Hv. eapply view_same; [exact Hv|done..|]. exists [c]. split; [done|]. cbn. by rewrite Hn. Qed.

Lemma resume_life i ok d s s' : life_ok s -> resume N discovers i ok d s = Some s' -> life_ok s'.
Proof.
  intros Hl E. destruct (resume_good N discovers i ok d s s' (proj1 Hl) E) as [Hok' _]. revert E. unfold resume. destruct (tasks s !! i) as [t|] eqn:Ht; [|done]. cbn [mbind option_bind].
  destruct t as [w|w|w|w|w|w|w|w|g k|rest closed| |k failed|failed|failed|w failed|]; try done.
  - destruct (settled s w) as [r|]; [|done]. intros [= <-]. destruct (negb r); [|destruct (admissionUpdating s)];
      [eapply life_caller; [done|done|exact Ht|by left|done|done]..|eapply start_resumed_life; [done|done|exact Ht|done]].
  - destruct (settled s w) as [r|]; [|done]. intros [= <-]. destruct (negb r); [eapply life_caller; [done|done|exact Ht|by left|done|done]|eapply start_resumed_life; [done|done|exact Ht|done]].
  - destruct (settled s (Some w)) as [r|]; [|done]. intros [= <-]. eapply life_caller; [done|done|exact Ht|by left|done|done].
  - destruct (settled s (Some w)) as [r|]; [|done]. intros [= <-]. destruct (negb r); (eapply life_caller; [done|done|exact Ht|by left|done|done]).
  - destruct (settled s w) as [r|]; [|done]. intros [= <-]. eapply life_caller; [done|done|exact Ht|by left|done|done].
  - destruct (settled s w) as [r|]; [|done]. intros [= <-]. pose proof (stopNode_life d s Hl) as Hl'. destruct (stopNode_begun N d s (proj1 Hl)) as (_ & _ & Hp & _). destruct (stopNode N d s) as [p s'].
    eapply life_caller; [done|done|by apply Hp|by right|done|done].
  - destruct (settled s (Some w)) as [r|]; [|done]. intros [= <-]. destruct (negb r || failures_of s w); [eapply update_done_life; [done|done|exact Ht|done]|].
    destruct (desiredRunning s); [|eapply update_done_life; [done|done|exact Ht|done]].
    pose proof (startNode_life s Hl) as Hl'. destruct (startNode_begun N discovers s (proj1 Hl)) as (_ & _ & Hp & _). destruct (startNode N discovers s) as [p s'].
    eapply life_caller; [done|done|by apply Hp|by right|done|done].
  - destruct (settled s (Some w)) as [r|]; [|done]. intros [= <-]. eapply update_done_life; [done|done|exact Ht|done].
  - intros [= <-]. by eapply start_answered_life.
  - intros [= <-]. by eapply unstart_next_life.
  - intros [= <-]. eapply (stop_next_life i _ 0 false s); [done|exact Ht|done|intros; lia|intros a e; by apply view_says|done..].
  - intros [= <-]. destruct ok; (eapply (stop_next_life i _ (S k) _ s); [done|exact Ht|done|intros j _ Hj; cbn in Hj; lia| |done..]); intros a e; [done|by apply view_says].
  - intros [= <-]. eapply stop_task_life; [done|done|exact Ht|done|done|]. intros k [].
  - intros [= <-]. eapply stop_task_life; [done|done|exact Ht|done|done|]. intros k [].
  - destruct (settled s w) as [r|]; [|done]. intros [= <-]. set (s1 := put_cleanup (say ClearTables s) failed) in *. assert (Hl1 : life_ok s1).
    { eapply life_ignored; [exact Hl|done..|]. eapply view_same; [exact (proj2 Hl)|done..|]. by eexists [_]. }
    eapply (stop_task_life i _ _ s1); [done|done|exact Ht|done|done|]. intros k [].
Qed.

Lemma task_step_life s s' : life_ok s -> task_step N discovers s s' -> life_ok s'.
Proof.
  intros Hl Hs. destruct (task_step_good N discovers s s' (proj1 Hl) Hs) as [Hok' _]. destruct Hs as [i ok d s1 E|s1 E|s1 E]; [by eapply resume_life| |].
  - unfold start_forgotten in E. destruct (startTask s) as [p|] eqn:Ep; [|done]. cbn [mbind option_bind] in E. destruct (settled s (Some p)) as [r|] eqn:Er; [|done]. injection E as <-.
    split; [done|]. destruct Hl as [_ Hv]. unfold active in Hv. rewrite Ep in Hv. apply settled_kind in Er as (t & Ht & Hk).
    assert (En : of_ KStart (tasks s) (Some p) = None) by (unfold of_, view; cbn; rewrite Ht; cbn; by rewrite Hk). rewrite En in Hv. eapply view_same; [exact Hv|done..|]. exists []. by rewrite app_nil_r.
  - unfold stop_forgotten in E. destruct (stopTask s) as [p|] eqn:Ep; [|done]. cbn [mbind option_bind] in E. destruct (settled s (Some p)) as [r|] eqn:Er; [|done]. injection E as <-.
    split; [done|]. destruct Hl as [_ Hv]. unfold ending in Hv. rewrite Ep in Hv. apply settled_kind in Er as (t & Ht & Hk).
    assert (En : of_ KStop (tasks s) (Some p) = None) by (unfold of_, view; cbn; rewrite Ht; cbn; by rewrite Hk). rewrite En in Hv. eapply view_same; [exact Hv|done..|]. exists []. by rewrite app_nil_r.
Qed.

Lemma new_task_life t s : life_ok s -> lc_ok (snd (new_task t s)) -> life_ok (snd (new_task t s)).
Proof.
  intros [Hok Hv] Hok'. split; [done|]. unfold active, ending. cbn [new_task snd put_tasks tasks startTask stopTask]. rewrite (of_app KStart), (of_app KStop) by (apply (to_start _ _ _ _ Hok) || apply (to_stop _ _ _ _ Hok)).
  eapply view_same; [exact Hv|done..|]. exists []. by rewrite app_nil_r.
Qed.

Lemma view_generation a e s g : view_ok a e s -> discoveryGeneration s < g -> view_ok a e (put_generation s g).
Proof.
  intros [H1 H2 H3 H4 H5 H6 H7] Hg. split; cbn; try done.
  - split; [|exact (proj2 H3)]. intros g' k E. destruct (proj1 H3 g' k E). split; [done|lia].
  - eapply Forall_impl; [exact H4|]. cbn. lia.
  - intros Hc. rewrite Forall_forall in H4. specialize (H4 _ Hc). lia.
Qed.

Lemma call_step_life s s' : life_ok s -> call_step N s s' -> life_ok s'.
Proof.
  intros Hl Hs. pose proof (call_step_ok N s s' (proj1 Hl) Hs) as Hok'. destruct Hs as [|d|keys s1 E].
  - apply (new_task_life _ (put_desiredRunning s true)); [|done]. eapply life_ignored; [exact Hl|done..|]. eapply view_same; [exact (proj2 Hl)|done..|]. exists []. by rewrite app_nil_r.
  - revert Hok'. unfold stop. assert (Hl' : life_ok (put_desiredRunning s false)).
    { eapply life_ignored; [exact Hl|done..|]. eapply view_same; [exact (proj2 Hl)|done..|]. exists []. by rewrite app_nil_r. }
    pose proof (stopNode_life d _ Hl') as Hl1. destruct (stopNode N d (put_desiredRunning s false)) as [w s1]. apply (new_task_life _ s1 Hl1).
  - unfold setBlockedPeerPubkeys in E. apply result_bind_ok in E as (next & _ & E). destruct (equals _ _); [by injection E as <-|]. injection E as <-.
    set (s2 := put_generation _ _) in *. assert (Hl2 : life_ok s2).
    { eapply life_ignored; [exact Hl|done..|]. eapply view_generation; [|cbn; lia]. eapply view_same; [exact (proj2 Hl)|done..|]. exists []. by rewrite app_nil_r. }
    destruct Hl2 as [Hok2 Hv2]. split; [done|]. unfold active, ending. cbn [put_admissionUpdate put_tasks tasks startTask stopTask].
    rewrite (of_app KStart), (of_app KStop) by (apply (to_start _ _ _ _ Hok2) || apply (to_stop _ _ _ _ Hok2)). eapply view_same; [exact Hv2|done..|]. exists []. by rewrite app_nil_r.
Qed.

Lemma life_run s s' : life_ok s -> rtc (lifecycle_step N discovers) s s' -> life_ok s'.
Proof. intros Hl. apply (rtc_invariant _ life_ok); [|done]. intros x y Hx [Hc|Ht]; [by eapply call_step_life|by eapply task_step_life]. Qed.

Lemma new_life a : 0 <= epoch < 2 ^ 64 -> life_ok (new_lifecycle epoch a).
Proof.
  intros He. split; [split; intros *; done|]. split; try done; cbn.
  - intros Hin. exfalso. by apply not_elem_of_nil in Hin.
  - split; [done|]. exists 0, []. split_and!; try done; [|constructor]. by rewrite Z.add_0_r, Z.mod_small.
Qed.
End Runs.

(** ** Generations only grow *)

Section Generations.
Context `{Noble} (N : nat) (discovers : nat -> bool).

Definition grows (s s' : Lifecycle) : Prop := discoveryGeneration s <= discoveryGeneration s'.

Lemma startNode_grows s : grows s (snd (startNode N discovers s)).
Proof.
  unfold startNode, grows. destruct (startTask s); [done|]. cbn. unfold startTransports. cbn. destruct (started s); [cbn; lia|]. destruct (hasStarted s), (N =? 0)%nat; cbn; lia.
Qed.

Lemma stop_next_grows i k failed s : discoveryGeneration (stop_next N i k failed s) = discoveryGeneration s.
Proof. unfold stop_next. by destruct (_ <? _)%nat. Qed.

Lemma stopNode_grows d s : grows s (snd (stopNode N d s)) /\
  (stopTask s = None -> needsTransportCleanup s || started s || bool_decide (is_Some (startTask s)) = true -> discoveryGeneration s < discoveryGeneration (snd (stopNode N d s))).
Proof.
  unfold stopNode, grows. destruct (stopTask s) as [p|]; [done|]. cbn. unfold stopTransports. cbn. rewrite <- !negb_orb. destruct (_ || _ || _) eqn:E; cbn [negb]; [|split; [cbn; lia|done]].
  destruct d; rewrite ?stop_next_grows; cbn; split; intros; lia.
Qed.

Lemma unstart_next_grows i rest closed s : discoveryGeneration (unstart_next i rest closed s) = discoveryGeneration s.
Proof. by destruct rest. Qed.

Lemma step_grows s s' : lifecycle_step N discovers s s' -> grows s s'.
Proof.
  unfold grows. intros [[|d|keys s1 E]|[i ok d s1 E|s1 E|s1 E]].
  - done.
  - unfold stop. destruct (stopNode_grows d (put_desiredRunning s false)) as [Hg _]. by destruct (stopNode N d (put_desiredRunning s false)) as [w s1].
  - unfold setBlockedPeerPubkeys in E. apply result_bind_ok in E as (next & _ & E). destruct (equals _ _); injection E as <-; cbn; lia.
  - unfold resume in E. destruct (tasks s !! i) as [t|]; [|done]. cbn [mbind option_bind] in E.
    pose proof (startNode_grows s) as Hstart. destruct (stopNode_grows d s) as [Hstop _]. unfold grows in *.
    assert (Hr : discoveryGeneration s <= discoveryGeneration (start_resumed N discovers i s)).
    { unfold start_resumed. destruct (desiredRunning s); [|done]. by destruct (startNode N discovers s). }
    destruct t; try done; try (destruct (settled s _) as [r|]; [|done]); injection E as <-; cbn [mbind option_bind]; rewrite ?stop_next_grows, ?unstart_next_grows; try (cbn; lia).
    + destruct (negb r); [done|]. by destruct (admissionUpdating s).
    + by destruct (negb r).
    + by destruct (negb r).
    + by destruct (stopNode N d s).
    + destruct (_ || _); [done|]. destruct (desiredRunning s); [|done]. by destruct (startNode N discovers s).
    + unfold start_answered. destruct (_ && _ && _); [by destruct (_ <? _)%nat|]. rewrite unstart_next_grows. cbn. lia.
    + by destruct ok.
  - unfold start_forgotten in E. destruct (startTask s); [|done]. cbn in E. destruct (tasks s !! _) as [[]|]; try done. by injection E as <-.
  - unfold stop_forgotten in E. destruct (stopTask s); [|done]. cbn in E. destruct (tasks s !! _) as [[]|]; try done. by injection E as <-.
Qed.

Lemma run_grows s s' : rtc (lifecycle_step N discovers) s s' -> grows s s'.
Proof. induction 1 as [s|s s1 s' H1 _ IH]; unfold grows in *; [lia|]. apply step_grows in H1. unfold grows in H1. lia. Qed.
End Generations.

(** ** Properties *)

Section Properties.
Context `{Noble} (N : nat) (discovers : nat -> bool).

Lemma reachable_life s : lifecycle_reachable N discovers s -> exists epoch, life_ok N epoch s.
Proof. intros (epoch & a & He & Hr). exists epoch. eapply life_run; [|exact Hr]. by apply new_life. Qed.

(** C29: in every run of calls to start, to stop and to change the policy,
    whatever overlaps and however carriers answer, the tasks of a node do not
    wait for each other in a circle, nor go on for ever: without another call
    they take at most [total] more steps, and when none is left the promise of
    every call is settled. *)
Theorem lifecycle_promises_settle s : lifecycle_reachable N discovers s ->
  (forall n s', nsteps (task_step N discovers) n s s' -> (n <= total N s)%nat) /\
  (forall s', rtc (task_step N discovers) s s' -> (forall s'', ~ task_step N discovers s' s'') -> Forall (fun t => exists ok failed, t = Done ok failed) (tasks s')).
Proof.
  intros Hr%reachable_tasks. split; [intros n s' Hn; destruct (tasks_bounded _ _ _ _ _ Hr Hn); lia|]. intros s' Hs Hno. apply rtc_nsteps in Hs as [n Hs]. destruct (tasks_bounded _ _ _ _ _ Hr Hs) as [Hok _].
  apply Forall_lookup. intros i t Hi. destruct (kind t) as [K|] eqn:Ek; [|destruct t; try done; by do 2 eexists]. exfalso.
  destruct (able_of N discovers s' Hok K i t Hi Ek) as (j & ok & d & s'' & E). apply (Hno s''). by eapply task_resumed.
Qed.

(** C30: in every run at most one start and at most one stop are under way; the
    heartbeat has one interval while the node is started and none otherwise; a
    carrier that was last told to start belongs to a started node, or to a start
    or a stop under way that is still going to stop it, so that a node that is at
    rest and not started has told every carrier to stop; and the epochs of the
    sessions of successive starts are those of growing numbers. *)
Theorem lifecycle_keeps_carriers s : lifecycle_reachable N discovers s ->
  (forall i j t u, tasks s !! i = Some t -> tasks s !! j = Some u -> kind t = kind u -> kind t = Some KStart \/ kind t = Some KStop -> i = j) /\
  heartbeatTimer s = started s /\ live_timers s = (if started s then 1 else 0)%nat /\
  (forall k, opened (lc_calls s) k = true -> started s = true \/ exists i t, tasks s !! i = Some t /\ covers t k) /\
  (forall k, Forall (fun t => exists ok failed, t = Done ok failed) (tasks s) -> started s = false -> opened (lc_calls s) k = false) /\
  exists epoch ns, StronglySorted Z.lt ns /\ Forall (Z.le 0) ns /\ epochs (lc_calls s) = map (fun n => (epoch + n) mod 2 ^ 64) ns.
Proof.
  intros (epoch & Hok & Hv)%reachable_life. destruct Hv as [[H1 H2] H3 H4 H5 H6 H7 [_ (m & ns & _ & He & Hs & Hns & _)]].
  assert (Hopen : forall k, opened (lc_calls s) k = true -> started s = true \/ exists i t, tasks s !! i = Some t /\ covers t k).
  { intros k Hk. destruct (H7 k Hk) as [_ [?|[(t & Ht & Hc)|(t & Ht & Hc)]]]; [by left|right..].
    - unfold active, of_ in Ht. destruct (startTask s) as [p|]; [|done]. cbn in Ht. destruct (tasks s !! p) as [u|] eqn:Hu; [|done]. exists p, u. split; [done|]. cbn in Ht. unfold view in Ht. destruct (kind u) as [[]|]; congruence.
    - unfold ending, of_ in Ht. destruct (stopTask s) as [p|]; [|done]. cbn in Ht. destruct (tasks s !! p) as [u|] eqn:Hu; [|done]. exists p, u. split; [done|]. cbn in Ht. unfold view in Ht. destruct (kind u) as [[]|]; congruence. }
  split; [|split; [done|split; [done|split; [done|split]]]].
  - intros i j t u Hi Hj E [Hk|Hk].
    + pose proof (to_one_start _ _ _ _ Hok i t Hi Hk). rewrite E in Hk. pose proof (to_one_start _ _ _ _ Hok j u Hj Hk). congruence.
    + pose proof (to_one_stop _ _ _ _ Hok i t Hi Hk). rewrite E in Hk. pose proof (to_one_stop _ _ _ _ Hok j u Hj Hk). congruence.
  - intros k Hd Hs'. destruct (opened (lc_calls s) k) eqn:Ek; [|done]. destruct (Hopen k Ek) as [?|(i & t & Hi & Hc)]; [congruence|]. rewrite Forall_lookup in Hd. destruct (Hd i t Hi) as (? & ? & ->). done.
  - exists epoch, ns. split; [done|]. split; [|done]. eapply Forall_impl; [exact Hns|]. cbn. lia.
Qed.

(** A stop that begins ends the generation, one that joins another does not. *)
Lemma stop_bumps d s :
  match stopTask s with
  | None => needsTransportCleanup s || started s || bool_decide (is_Some (startTask s)) = true -> discoveryGeneration s < discoveryGeneration (stop N d s)
  | Some _ => discoveryGeneration (stop N d s) = discoveryGeneration s
  end.
Proof.
  destruct (stopTask s) as [w|] eqn:Ew; [unfold stop, stopNode; cbn [stopTask put_desiredRunning]; by rewrite Ew|].
  intros E. unfold stop. pose proof (proj2 (stopNode_grows N d (put_desiredRunning s false)) Ew E) as Hlt. by destruct (stopNode N d (put_desiredRunning s false)) as [w s1].
Qed.

(** C28: a change of the policy, and a stop, take effect at once. From a change on,
    in every continuation, no context that a carrier was given before lets anything
    through, packets and peers alike, and the new policy is in force at once. The
    same holds from every stop on that begins, and from one that joins a stop
    already under way, but for one case: the contexts of a start that has overlapped
    that earlier stop, under way or completed, which the joining stop leaves as they
    are. A context that still lets through is one of the last start, completed or
    under way. *)
Theorem revocation_immediate s : lifecycle_reachable N discovers s ->
  (forall keys next s1, new_admission keys = Ok next -> equals (admission s) next = false -> setBlockedPeerPubkeys keys s = Ok s1 ->
    admission s1 = next /\ forall s2 g pubkey, rtc (lifecycle_step N discovers) s1 s2 -> g ∈ contexts s -> current s2 g = false /\ allowPeer s2 g pubkey = false) /\
  (forall departures s2 g pubkey, rtc (lifecycle_step N discovers) (stop N departures s) s2 -> g ∈ contexts s ->
    (current s2 g = false /\ allowPeer s2 g pubkey = false) \/
    is_Some (stopTask s) /\ current s g = true /\ discoveryGeneration (stop N departures s) = discoveryGeneration s /\
      (started s = true \/ exists i k, tasks s !! i = Some (Starting g k))) /\
  (forall g, g ∈ contexts s -> current s g = true -> started s = true \/ exists i k, tasks s !! i = Some (Starting g k)).
Proof.
  intros (epoch & Hok & Hv)%reachable_life. pose proof (vw_contexts _ _ _ _ _ Hv) as Hle. rewrite Forall_forall in Hle.
  assert (Hdead : forall s1 s2 g pk, g < discoveryGeneration s1 -> rtc (lifecycle_step N discovers) s1 s2 -> current s2 g = false /\ allowPeer s2 g pk = false).
  { intros s1 s2 g pk H1 Hs. apply run_grows in Hs. unfold grows in Hs. unfold allowPeer, current. rewrite (proj2 (Z.eqb_neq _ _)) by lia. done. }
  assert (Hlast : forall g, g ∈ contexts s -> current s g = true -> started s = true \/ exists p k, startTask s = Some p /\ tasks s !! p = Some (Starting g k)).
  { intros g Hg Hc. apply Z.eqb_eq in Hc as ->. destruct (vw_current _ _ _ _ _ Hv Hg) as [?|(k & Ea)]; [by left|]. right. unfold active, of_ in Ea. destruct (startTask s) as [p|]; [|done]. cbn in Ea.
    destruct (tasks s !! p) as [u|] eqn:Hu; [|done]. exists p, k. split; [done|]. cbn in Ea. unfold view in Ea. destruct (kind u) as [[]|]; try done. congruence. }
  assert (Hweak : forall g, g ∈ contexts s -> current s g = true -> started s = true \/ exists i k, tasks s !! i = Some (Starting g k))
    by (intros g Hg Hc; destruct (Hlast g Hg Hc) as [?|(p & k & _ & ?)]; eauto).
  split; [|split; [|exact Hweak]].
  - intros keys next s1 En Eq E. unfold setBlockedPeerPubkeys in E. rewrite En in E. cbn [mbind result_bind] in E. rewrite Eq in E. injection E as <-. split; [done|].
    intros s2 g pk Hs Hg. eapply Hdead; [|exact Hs]. specialize (Hle g Hg). cbn. lia.
  - intros d s2 g pk Hs Hg. pose proof (stop_bumps d s) as Hstop. specialize (Hle g Hg). destruct (current s g) eqn:Ec.
    + destruct (Hlast g Hg Ec) as [Hst|(p & k & Hst & Hk)]; (destruct (stopTask s) as [w|] eqn:Ew; [right; split_and!; [by eexists|done|by apply Hstop|eauto]|]).
      all: left; eapply Hdead; [|exact Hs]; enough (discoveryGeneration s < discoveryGeneration (stop N d s)) by lia; apply Hstop; rewrite Hst.
      1: by rewrite orb_true_r.
      by rewrite bool_decide_true, orb_true_r by (by eexists).
    + left. apply Z.eqb_neq in Ec. assert (grows s s2) as Hgr by (apply (run_grows N discovers); eapply rtc_l; [left; apply call_stop|exact Hs]).
      unfold grows, allowPeer, current in *. by rewrite (proj2 (Z.eqb_neq _ _)) by lia.
Qed.
End Properties.

(** *** Concrete runs *)

Inductive Event := CallStart | CallStop (departures : bool) | Resume (i : nat) (ok departures : bool) | ForgetStart | ForgetStop.

Section Demo.
#[local] Existing Instance Toy.noble.

Definition handle (N : nat) (s : Lifecycle) (e : Event) : option Lifecycle :=
  match e with
  | CallStart => Some (start s)
  | CallStop d => Some (stop N d s)
  | Resume i ok d => resume N (fun _ => false) i ok d s
  | ForgetStart => start_forgotten s
  | ForgetStop => stop_forgotten s
  end.

Definition handle_all (N : nat) (s : Lifecycle) (es : list Event) : option Lifecycle := foldl (fun s e => s ← s; handle N s e) (Some s) es.

Lemma handled N s es s' : handle_all N s es = Some s' -> rtc (lifecycle_step N (fun _ => false)) s s'.
Proof.
  unfold handle_all. revert s. induction es as [|e es IH]; intros s; cbn [foldl mbind option_bind]; [intros [= ->]; constructor|].
  intros E. destruct (handle N s e) as [s1|] eqn:E1; [|exfalso; clear - E; by induction es]. eapply rtc_l; [|by apply IH].
  destruct e; cbn [handle] in E1; [injection E1 as <-; left; constructor|injection E1 as <-; left; constructor|right; by eapply task_resumed|right; by eapply task_start_forgotten|right; by eapply task_stop_forgotten].
Qed.

Definition demo_new : Lifecycle := new_lifecycle 7 (mkAdmission ∅ ∅).
Definition demo_ups : list Event := [CallStart; Resume 0 true false; Resume 1 true false; ForgetStart; Resume 0 true false].
Definition demo_up : Lifecycle := Eval vm_compute in default demo_new (handle_all 1 demo_new demo_ups).

Lemma demo_up_reachable : lifecycle_reachable 1 (fun _ => false) demo_up.
Proof. exists 7, (mkAdmission ∅ ∅). split; [lia|]. apply (handled 1 demo_new demo_ups). vm_compute. reflexivity. Qed.

Lemma lifecycle_promises_settle_witness : started demo_up = true /\ forall n s', nsteps (task_step 1 (fun _ => false)) n demo_up s' -> (n <= total 1 demo_up)%nat.
Proof. split; [reflexivity|]. exact (proj1 (lifecycle_promises_settle 1 (fun _ => false) demo_up demo_up_reachable)). Defined.

Lemma lifecycle_keeps_carriers_witness : live_timers demo_up = 1%nat /\ lc_calls demo_up = [StartTransport 0 1; StartSessions 7].
Proof. split; [exact (proj1 (proj2 (proj2 (lifecycle_keeps_carriers 1 (fun _ => false) demo_up demo_up_reachable))))|reflexivity]. Defined.

Lemma revocation_immediate_witness : current demo_up 1 = true /\ current (stop 1 false demo_up) 1 = false.
Proof.
  split; [reflexivity|].
  destruct (proj1 (proj2 (revocation_immediate 1 (fun _ => false) demo_up demo_up_reachable)) false (stop 1 false demo_up) 1 []) as [[Hc _]|[[w Hw] _]].
  - apply rtc_refl.
  - apply elem_of_cons. left. reflexivity.
  - exact Hc.
  - discriminate Hw.
Defined.

(** A node that runs, and a start, a stop and a start that are called at once:
    the first start resumes while the stop waits for its departures, starts the
    carriers and completes, then the stop stops them. *)
Definition overlap : list Event :=
  [CallStart; CallStop true; CallStart; Resume 2 true false; Resume 6 true false; ForgetStart; Resume 2 true false; Resume 3 true false; Resume 3 true false;
   Resume 3 true false; Resume 3 true false; Resume 3 true false; ForgetStop; Resume 4 true false; Resume 4 true false; Resume 5 true false; ForgetStart; Resume 5 true false].
Definition overlapped : Lifecycle := Eval vm_compute in default demo_new (handle_all 1 demo_up overlap).

(** It is left with its carriers stopped and taken for started, with a heartbeat
    and contexts that would let through, and another start does nothing. *)
Lemma start_overlaps_stop : lifecycle_reachable 1 (fun _ => false) overlapped /\ Forall (fun t => exists ok failed, t = Done ok failed) (tasks overlapped) /\
  started overlapped = true /\ current overlapped 3 = true /\ opened (lc_calls overlapped) 0 = false /\
  exists s, handle_all 1 overlapped [CallStart; Resume 8 true false; Resume 8 true false] = Some s /\ tasks s !! 8%nat = Some (Done true false) /\ lc_calls s = lc_calls overlapped.
Proof.
  split; [|split; [|split; [reflexivity|split; [reflexivity|split; [reflexivity|]]]]].
  - destruct demo_up_reachable as (e & a & He & Hr). exists e, a. split; [done|]. etrans; [exact Hr|]. apply (handled 1 demo_up overlap). vm_compute. reflexivity.
  - repeat (constructor; [by do 2 eexists|]). constructor.
  - eexists. split; [vm_compute; reflexivity|]. split; reflexivity.
Qed.

(** The exception of a stop that joins another is real: a last stop that is called
    when the first start has completed and the earlier stop still waits for its
    departures lets the contexts of that start stand. When everything is done they
    still let through, and the node that was to stop is started with a heartbeat. *)
Definition joined : list Event := take 6 overlap ++
  [CallStop true; Resume 2 true false; Resume 3 true false; Resume 3 true false; Resume 3 true false; Resume 3 true false; Resume 3 true false; ForgetStop;
   Resume 4 true false; Resume 4 true false; Resume 5 true false; Resume 7 true false; Resume 7 true false].

Lemma stop_joins_stop : exists s, handle_all 1 demo_up joined = Some s /\ lifecycle_reachable 1 (fun _ => false) s /\
  Forall (fun t => exists ok failed, t = Done ok failed) (tasks s) /\
  desiredRunning s = false /\ started s = true /\ live_timers s = 1%nat /\ contexts s = [3; 1] /\ current s 3 = true.
Proof.
  eexists. split; [vm_compute; reflexivity|]. split; [|split; [|repeat split; reflexivity]].
  - destruct demo_up_reachable as (e & a & He & Hr). exists e, a. split; [done|]. etrans; [exact Hr|]. apply (handled 1 demo_up joined). vm_compute. reflexivity.
  - repeat (constructor; [by do 2 eexists|]). constructor.
Qed.
End Demo.
